(* ===== verification/_CoqProject ===== *)
-Q . S2P
Prelude.v
GoStrings.v
Methods.v
Models.v
Requests.v
OrgContext.v
Resolver.v
ResolverProps.v
Cache.v
SqlCache.v
PublishGuard.v
ResolverGuard.v
Db.v
Writes.v
Access.v
AccessProps.v
AccessClaims.v
Trace.v
Deployments.v
Json.v
ReadDecision.v
EventFilter.v
EventFilterProps.v
ResponseFilter.v
ResponseFilterProps.v
Sha256.v
AuditChain.v
AuditVerify.v
AuditProps.v
AuditTamper.v
AuditBuffer.v
JsonText.v
Utf8.v
Envelope.v
EnvelopeProps.v
EnvelopeForward.v
EnvelopeClaims.v
F64.v
Compliance.v
ComplianceDb.v
ComplianceProps.v
ComplianceClaims.v
TraceGate.v
TraceGateProps.v
VisibleTo.v
Limits.v
Answers.v
Viewer.v
ViewerProps.v
Visibility.v
LogRedaction.v
Processor.v
ProcessorProps.v
RawTransaction.v
RawProps.v
Frames.v
StrictTrace.v
StrictTraceProps.v
Tracer.v
TracerProps.v
DebugTrace.v
DebugTraceProps.v
Dispatch.v
Finalize.v
FinalizeProps.v
Programs.v
DisclosureScope.v
DisclosureStore.v
DisclosureService.v
DisclosureProps.v
AuthStores.v
AuthService.v
AuthProps.v
Scenario.v
AuditScenario.v
ComplianceScenario.v
ProcessorScenario.v
ViewerScenario.v
DisclosureScenario.v
AuthScenario.v
