(* ===== verification/Prelude.v ===== *)
(** * Verification of the privacy proxy

    The program is a JSON-RPC proxy in front of Ethereum nodes, shared by
    organizations that must not see each other's contracts.  A request body is
    read by the envelope parser of [internal/proxy]; [JSONRPCProcessor.Process]
    of [internal/server] asks the role-based access controller of
    [internal/rbac], simulates calls and transactions with [internal/tracer]
    and has [TraceValidator] judge the frames, runs the compliance checks of
    [internal/compliance], forwards to the node, filters the answer to what the
    viewer may see, and writes an access-log row that [internal/audit] buffers
    and seals into a hash chain.  Beside the request path a user may consent to
    the disclosure of their data to an auditor ([internal/disclosure]), and logs
    in with a wallet, directly or for an OAuth client ([internal/auth],
    [internal/redis] and the handlers of [internal/server]).
    Permissions come from memberships and grants
    in PostgreSQL ([internal/db]); they are computed by [Resolver], published in
    a SQL cache shared by all replicas under a generation counter, and kept in
    an in-memory cache per process.

    This library is a shallow embedding: Go functions are Gallina functions with
    the names of the source, a pair [(value, error)] is a [result], a method
    that mutates its receiver is a state-passing computation [stM], and the
    [(result, handled)] convention is [phase].  Strings are byte strings,
    [map]s are [gmap]s and [gset]s, times are nanoseconds in [Z], machine
    integers and floats keep their width ([F64.v], the 64-bit sequence of
    [AuditBuffer.v], the 32-bit words of [Sha256.v]), and a nil slice is kept
    apart from an empty one where the code distinguishes them.  A panic is an
    [Err] of its own.

    ** Files and what they model

    Foundations
    - [Prelude.v]: results, state, phases, inversion tactics, list facts,
      what every state of a run keeps, with its tactic.
    - [GoStrings.v]: [strings] and [encoding/hex]; [Utf8.v]: decoding of runes;
      [Sha256.v]: SHA-256, HMAC and the time format of the chain; [F64.v]:
      IEEE doubles with rounding and printing.
    - [Programs.v]: programs over atomic operations, machines that execute them,
      configurations of calls in progress and their interleavings ([step]), and
      the method for invariants ([safe], [reached]): before each operation of a
      call the others may have run; [within] asks for an invariant up to a point
      of the run only.
    - [Json.v]: parsed JSON and the decoding rules of [encoding/json];
      [JsonText.v]: its grammar, a parser and a printer.

    Access decision ([internal/rbac])
    - [Methods.v] ([method_claim.go]), [Models.v] ([models.go] and the interfaces),
      [Requests.v] (classification),
      [OrgContext.v] ([org_context.go]).
    - [Resolver.v], [ResolverProps.v]: [computePermissions]; [Cache.v]:
      [cache.go]; [SqlCache.v]: the SQL cache; [PublishGuard.v],
      [ResolverGuard.v]: [resolveCacheable] as a step relation on a world of
      goroutines, with [computePermissions] split into its queries.
    - [Db.v]: the queries as comprehensions over tables, an instance of [Store];
      [Writes.v]: inserts, deletes and transactions; [Deployments.v]: tracking
      of deployments, provisioning, invalidation.
    - [Access.v], [AccessProps.v], [AccessClaims.v]: [CheckAccess] phase by
      phase; [Trace.v]: [trace_validator.go].

    Request path ([internal/server], [internal/proxy], [internal/tracer])
    - [Envelope.v], [EnvelopeProps.v], [EnvelopeForward.v], [EnvelopeClaims.v]:
      the byte scanner, the parser and the rewritten body of [envelope.go].
    - [Frames.v], [Tracer.v], [TracerProps.v]: [tracer.go], its cache and
      [runtime_tracer.go]; [TraceGate.v], [TraceGateProps.v]: the gates of
      [jsonrpc_trace.go] on reads and transactions; [StrictTrace.v],
      [StrictTraceProps.v], [DebugTrace.v], [DebugTraceProps.v]: client traces,
      their parsing and redaction.
    - [VisibleTo.v]: recipients; [Limits.v]: the concurrency,
      circuit and rate limits of [middleware].
    - [Processor.v], [ProcessorProps.v]: the generic path of
      [jsonrpc_processor.go]; [RawTransaction.v], [RawProps.v]:
      signed transactions; [Dispatch.v]: the whole of [Process];
      [Finalize.v], [FinalizeProps.v]: the goroutines that wait for receipts.

    Answers
    - [ReadDecision.v], [EventFilter.v], [EventFilterProps.v]: the decision
      tables and the log engine; [ResponseFilter.v], [ResponseFilterProps.v]:
      transactions, receipts and blocks.
    - [Answers.v]: which filter answers which method and the scope of an
      impersonated view; [Viewer.v], [ViewerProps.v]: what
      the filters know about the viewer ([processor_event_rules.go],
      [visibleto_unlock.go], [viewer_org_scope.go]).
    - [Visibility.v]: who may see an address
      ([explorer_redaction.go]); [LogRedaction.v]: the
      addresses inside admitted logs ([rpc_log_field_redaction.go] and the
      primitives of [explorer/redactor.go]).

    Compliance and audit
    - [Compliance.v], [ComplianceProps.v], [ComplianceDb.v],
      [ComplianceClaims.v]: the travel-rule and sanctions checks, their tables
      and concurrent claims.
    - [AuditChain.v], [AuditVerify.v], [AuditProps.v], [AuditTamper.v]: chained
      writes, checkpoints, pruning, the verifier; [AuditBuffer.v]: the buffer
      and the sealer.

    Disclosure ([internal/disclosure], [db/disclosure_store.go],
    [server/disclosure.go])
    - [DisclosureScope.v]: scopes, their normal form and order.
    - [DisclosureStore.v]: the tables, every SQL statement on them ([Sql],
      [statement]) and every store method as a program of statements ([prog]).
    - [DisclosureService.v]: the service and the handlers.
    - [DisclosureProps.v]: programs interleaved statement by statement, the
      invariants they keep and the claims.

    Login ([internal/auth], [internal/redis], [server/auth.go], [oauth.go],
    [eth_link.go], [db/db.go])
    - [AuthStores.v]: sessions, authorization sessions and challenges in memory
      and in Redis behind one interface each ([SessionManager],
      [OAuthSessionManager], [ChallengeManager]), the token tables, and the
      atomic operations on them ([Op], [perform]).
    - [AuthService.v]: tokens, middlewares and handlers as programs.
    - [AuthProps.v]: [serve] on either backend, what the stores promise the
      handlers ([Respects]), the invariants and the claims.

    The [*Scenario.v] files are concrete deployments on which every property
    with hypotheses is instantiated and the definitions are evaluated.

    ** What the theorems show

    Each theorem's comment states its conditions; in short:
    - Isolation: an allowed request only reaches addresses nobody owns or an
      organization of the caller owns ([cross_org_isolation]); an allowed trace
      enters a contract of another organization only as attested shared
      infrastructure, a precompile or a creation of the trace itself, and
      unowned code not at all ([allowed_trace_is_isolated]); what the gates
      forward was simulated and judged with the options of the caller's grants
      ([reads_are_isolated], [sends_are_isolated],
      [signed_transactions_are_isolated]; deployments by eth_sendTransaction and
      targeted eth_createAccessList are not simulated); nothing reaches the node
      without the decision, the trace gates and the compliance check
      ([nothing_reaches_the_node_unchecked]); a client trace follows a plan
      this request's own decisions drew up, and is redacted
      ([shown_traces_are_authorised], [redaction_hides_values]).
    - Fail-closed gates and completeness of [CheckAccess] as a whole.
    - The resolver computes the union of the groups' grants; for users no
      pending mutation affects, the generation guard never lets a stale result
      into the shared cache, in any interleaving, and every resolve terminates.
    - The forwarded body reads back as what was decided on; parsing never
      panics; the scanner accepts exactly the unambiguous bodies.
    - Every outcome is logged once, slots are returned, denials of ordinary
      methods are uniform, the rate limiter is exact against the history of
      admissions, a cached simulation is as recent as the cache's lifetime, and
      no pre-registration of runtime creations outlives the goroutine that
      waits for them, while the database answers.
    - Disclosure: in every interleaving of handlers and with any statement
      failing, a grant stays within the scope its request asked for
      ([granted_within_request]), no read that starts after a revocation, with
      no approval in flight, gets data ([revocation_is_final]), the logs an
      auditor reads are the asked page of the rows of the consenting user inside
      the granted dates, whatever happened between the queries
      ([logs_follow_consent]), and only the target or an administrator in scope
      changes the tables ([changes_need_authority]).
    - Login: in every interleaving an authorization code in memory is redeemed
      once ([code_redeemed_once]); in production its tokens name a user for whom
      a call proved who they are, to the verifier for the request of the session
      it names ([tokens_need_authentication]); a revoked refresh token
      refreshes nothing ([revoked_refresh_is_dead]) and a revoked access token
      is refused until it expires ([revoked_access_is_refused]).
    - The log filter and the receipt filter disclose exactly what the decision
      tables admit; in the topics and the visited data words of a log only
      entitled addresses are in clear; an impersonated answer, the rendering of
      its logs included, depends on no other organization
      ([scoped_answers_ignore_other_organizations]).
    - An allowed transfer stands on a ground its own queries gave, and a
      travel-rule record authorises one transfer ([record_authorises_once]),
      sanctions are absolute, the preview predicts; the chain the proxy writes
      verifies as long as no acknowledgement is lost and only the main chain,
      alone in its table, is pruned; without pruning and separators tampering
      needs a SHA-256 collision; entries buffered one at a time are sealed once
      and in order.
    Where the code falls short of its intent the exact behaviour is proved
    ([cached_events_only_grant_widens], [waiter_returns_stale_as_cacheable],
    [deployments_sent_untraced], [failed_creation_ends_the_process],
    [pollers_share_one_entry], [filter_rewrites_the_shared_object],
    [address_behind_an_array_is_shown], [a_rejection_is_overwritten],
    [a_failed_approval_leaves_its_grant], [tokens_never_validate],
    [code_redeemed_twice_in_redis], [refresh_token_rotated_twice],
    [redis_capacity_is_lost], [introspection_fails_open],
    [banned_user_refreshes], [completed_without_tokens]).

    ** Bounds, fuel and parameters

    Loops bounded by the code keep their bound: [maxAccessLogTrimIterations]
    (50), [maxTraceDepth] (256), [maxAttempts] (12), [participantResolveMaxTxs]
    (256), the retries of a transaction.  Fuel is used where the recursion
    follows the text or a rune cycle: the JSON parser and the scanner take the
    length of the input plus one, which is proved enough; decoding and
    marshalling of runes take the length; a case-fold orbit has at most four
    runes.  Hashing recurses on the number of blocks; a LIKE pattern is matched
    with the length of pattern and text as fuel, one of which every step
    shortens.

    Parameters stand for code outside the repository or left open by the
    platform: the cipher, the ABI decoder ([ABI], [EventABI]), go-ethereum's
    addresses and signatures ([GoEthereum], [SignedTransactions]), the node
    ([node], [Rpc], [RuntimeTracer] in the gates, with [runtimeTracer] its
    implementation), the approval service ([Approvals]), the Unicode tables,
    the row PostgreSQL returns first ([row1]), the iteration order of Go maps
    ([iter], [rangeOrgs], [order], [rng]), [uuid.New], the clock, the outcome of
    each write, and what other goroutines do between the steps of one
    ([others], [Concurrent]).  What is assumed of them is named: [picks_row],
    [enumerates], [ranges_all].  Store faults are injectable in every query and
    write.  The precision of the timestamp columns is the class
    [TimestampColumn]; the disclosure and login programs read one clock.  The
    login takes the JWT library ([Jwt]), the wallet verifier
    ([PrivadoVerifier]), [net/url] ([NetURL]), signer recovery ([Signer]), the
    text of a stored expiry ([ExpiryText]: a text that does not parse is never
    expired) and bcrypt as they are: nothing is assumed of them.  The history [w_history] of
    a login world records who did what for the statements; no operation reads
    it.

    Not modelled: logging text, metrics, runtime toggles and context
    cancellation inside the sequential code; HTTP and WebSocket handling;
    the login through Azure AD, the wallet verifier and the memberships that
    credentials bring; cookies; the handlers of the administration API
    (arbitrary scoped mutations in [PublishGuard.v]); the pages of the explorer
    and the engine that redacts them; the recovery of undelivered disclosure
    events; the approval service itself;
    SIEM forwarding; the price feed; the SQL of tables the modelled components
    do not use. *)
From stdpp Require Export base tactics option list gmap fin_maps strings.

Declare Scope go_scope.
Delimit Scope go_scope with go.

(** ** Error results: a Go pair [(value, error)].

    [Err e] carries the text of the error, which the code builds with
    [fmt.Errorf]; a wrapped error ([%w]) is string concatenation. *)
Inductive result (A : Type) : Type :=
| Ok (a : A)
| Err (e : string).
Arguments Ok {A} a.
Arguments Err {A} e.

#[export] Instance result_ret : MRet result := fun A a => Ok a.
#[export] Instance result_bind : MBind result := fun A B f m =>
  match m with Ok a => f a | Err e => Err e end.
#[export] Instance result_fmap : FMap result := fun A B f m =>
  match m with Ok a => Ok (f a) | Err e => Err e end.

(** [fmt.Errorf(msg + ": %w", err)] *)
Definition wrap {A} (msg : string) (m : result A) : result A :=
  match m with Ok a => Ok a | Err e => Err (msg +:+ ": " +:+ e) end.

Definition is_ok {A} (m : result A) : bool :=
  match m with Ok _ => true | Err _ => false end.

(** ** State-and-error computations.

    A Go method that mutates its receiver and may fail: the state reached
    when the error is returned is kept, as it is in the source. *)
Definition stM (S A : Type) : Type := S -> result A * S.

#[export] Instance stM_ret {S} : MRet (stM S) := fun A a s => (Ok a, s).
#[export] Instance stM_bind {S} : MBind (stM S) := fun A B f m s =>
  match m s with
  | (Ok a, s') => f a s'
  | (Err e, s') => (Err e, s')
  end.

Definition lift {S A} (m : result A) : stM S A := fun s => (m, s).
Definition fail {S A} (e : string) : stM S A := fun s => (Err e, s).
Definition get {S} : stM S S := fun s => (Ok s, s).
Definition put {S} (s' : S) : stM S unit := fun _ => (Ok tt, s').

(** ** Phases: the [(result, handled)] convention of [CheckAccess].

    [Done r] is [handled == true]: the whole check terminates with [r];
    [Next a] is [handled == false] and evaluation falls through. *)
Inductive phase (R A : Type) : Type :=
| Done (r : R)
| Next (a : A).
Arguments Done {R A} r.
Arguments Next {R A} a.

Notation "'phase!' p ← m ; k" :=
  (m ≫= fun ph => match ph with Done r => mret r | Next p => k end)
  (at level 20, p binder, m at level 100, k at level 200, right associativity,
   only parsing) : go_scope.

(** ** Automation *)

(** Case analysis on every [match]/[if] of the goal and the hypotheses. *)
Ltac cases_all :=
  repeat (case_match || case_decide || case_bool_decide); simplify_eq/=.

(** Inversion of successful monadic computations. *)
Lemma bind_Ok {A B} (f : A -> result B) m b :
  (m ≫= f) = Ok b <-> exists a, m = Ok a /\ f a = Ok b.
Proof.
  split.
  - destruct m as [a|e]; simpl; [eauto | done].
  - by intros (a & -> & ?).
Qed.

Lemma wrap_Ok {A} msg (m : result A) a : wrap msg m = Ok a <-> m = Ok a.
Proof. destruct m; simpl; naive_solver. Qed.

Lemma st_bind_Ok {S A B} (f : A -> stM S B) (m : stM S A) s b s' :
  (m ≫= f) s = (Ok b, s') <->
  exists a s1, m s = (Ok a, s1) /\ f a s1 = (Ok b, s').
Proof.
  unfold mbind, stM_bind. split.
  - destruct (m s) as [[a|e] s1]; naive_solver.
  - by intros (a & s1 & -> & ?).
Qed.

Ltac inv_st :=
  repeat match goal with
  | H : (_ ≫= _) _ = (Ok _, _) |- _ =>
      apply st_bind_Ok in H; destruct H as (?&?&?&?)
  | H : (_ ≫= _) = Ok _ |- _ =>
      apply bind_Ok in H; destruct H as (?&?&?)
  | H : wrap _ _ = Ok _ |- _ => apply wrap_Ok in H
  | H : lift _ _ = (_, _) |- _ => unfold lift in H; simplify_eq/=
  | H : mret _ _ = (_, _) |- _ => unfold mret, stM_ret in H; simplify_eq/=
  | H : fail _ _ = (_, _) |- _ => unfold fail in H; simplify_eq/=
  | H : get _ = (_, _) |- _ => unfold get in H; simplify_eq/=
  | H : put _ _ = (_, _) |- _ => unfold put in H; simplify_eq/=
  end.

(** ** Booleans and lists *)

(** [slices.Contains] *)
Definition contains {A} `{EqDecision A} (l : list A) (x : A) : bool :=
  bool_decide (x ∈ l).

Lemma contains_true {A} `{EqDecision A} (l : list A) x :
  contains l x = true <-> x ∈ l.
Proof. apply bool_decide_eq_true. Qed.

Lemma contains_false {A} `{EqDecision A} (l : list A) x :
  contains l x = false <-> x ∉ l.
Proof. apply bool_decide_eq_false. Qed.

Lemma existsb_true {A} (f : A -> bool) l :
  existsb f l = true <-> exists x, x ∈ l /\ f x = true.
Proof.
  rewrite existsb_exists.
  split; intros (x & ? & ?); exists x; split; try done; by apply list_elem_of_In.
Qed.

Lemma forallb_true {A} (f : A -> bool) l :
  forallb f l = true <-> forall x, x ∈ l -> f x = true.
Proof.
  rewrite forallb_forall. split; intros H x Hx; apply H; by apply list_elem_of_In.
Qed.

Lemma existsb_false {A} (f : A -> bool) l :
  existsb f l = false <-> forall x, x ∈ l -> f x = false.
Proof.
  rewrite <- not_true_iff_false, existsb_true. split.
  - intros H x Hx. destruct (f x) eqn:E; [|done]. exfalso. apply H. eauto.
  - intros H (x & Hx & Hf). rewrite (H x Hx) in Hf. done.
Qed.


(** Lookup of a Go [map[string]bool] used as a set: absent keys read [false]. *)
Definition mem (m : gset string) (k : string) : bool := bool_decide (k ∈ m).

Lemma mem_true m k : mem m k = true <-> k ∈ m.
Proof. apply bool_decide_eq_true. Qed.

Lemma mem_false m k : mem m k = false <-> k ∉ m.
Proof. apply bool_decide_eq_false. Qed.

(** Boolean tests as propositions. *)
Create HintDb rbac.
#[export] Hint Rewrite @contains_true @contains_false @existsb_true @existsb_false @forallb_true
  mem_true mem_false negb_true_iff negb_false_iff andb_true_iff orb_true_iff orb_false_iff
  @bool_decide_eq_true @bool_decide_eq_false : rbac.

Ltac bools := autorewrite with rbac in *.

(** The distinct elements of a list in first-occurrence order. *)
Fixpoint dedup {A} `{EqDecision A} (seen : list A) (l : list A) : list A :=
  match l with
  | [] => []
  | x :: l => if contains seen x then dedup seen l else x :: dedup (x :: seen) l
  end.

Lemma elem_of_dedup {A} `{EqDecision A} (seen l : list A) x :
  x ∈ dedup seen l <-> x ∈ l /\ x ∉ seen.
Proof.
  revert seen. induction l as [|y l IH]; intros seen; simpl; [set_solver|].
  destruct (contains seen y) eqn:E.
  - apply contains_true in E. rewrite IH. set_solver.
  - apply contains_false in E. rewrite elem_of_cons, IH, elem_of_cons.
    destruct (decide (x = y)); set_solver.
Qed.

Lemma NoDup_dedup {A} `{EqDecision A} (seen l : list A) : NoDup (dedup seen l).
Proof.
  revert seen. induction l as [|y l IH]; intros seen; simpl; [constructor|].
  destruct (contains seen y); [apply IH|].
  constructor; [|apply IH]. rewrite elem_of_dedup. set_solver.
Qed.

(** ** Runs of state-and-error computations.

    [keeps R m]: every run of [m], failed ones included, goes from a state to one
    related by the preorder [R].  [passes R s s' m a]: between [s] and [s'] the
    computation [m] was run and answered [a]. *)
Create HintDb runs.

Section calls.
Context {S : Type} (R : S -> S -> Prop) `{!PreOrder R}.

Definition keeps {A} (m : stM S A) : Prop := forall s r s', m s = (r, s') -> R s s'.
Definition passes {A} (s s' : S) (m : stM S A) (a : A) : Prop :=
  exists s1 s2, R s s1 /\ m s1 = (Ok a, s2) /\ R s2 s'.

Lemma keeps_ret {A} (a : A) : keeps (mret a).
Proof. intros s r s' [= <- <-]. reflexivity. Qed.
Lemma keeps_fail {A} e : keeps (@fail S A e).
Proof. intros s r s' [= <- <-]. reflexivity. Qed.
Lemma keeps_lift {A} (m : result A) : keeps (lift m).
Proof. intros s r s' [= <- <-]. reflexivity. Qed.
Lemma keeps_bind {A B} (m : stM S A) (f : A -> stM S B) :
  keeps m -> (forall a, keeps (f a)) -> keeps (m ≫= f).
Proof.
  intros Hm Hf s r s'. unfold mbind, stM_bind. destruct (m s) as [[a|e] s1] eqn:E; intros Hr.
  - etrans; [by eapply Hm|by eapply Hf].
  - simplify_eq. by eapply Hm.
Qed.
Lemma passes_intro {A} (m : stM S A) s s1 s2 s' a :
  R s s1 -> m s1 = (Ok a, s2) -> R s2 s' -> passes s s' m a.
Proof. by exists s1, s2. Qed.
Lemma passes_weaken {A} (m : stM S A) s t t' s' a : R s t -> R t' s' -> passes t t' m a -> passes s s' m a.
Proof. intros H1 H2 (s1 & s2 & ? & ? & ?). exists s1, s2. split_and!; [by etrans|done|by etrans]. Qed.
End calls.

#[export] Hint Resolve keeps_ret keeps_fail keeps_lift : runs.
#[export] Hint Extern 0 (PreOrder _) => apply _ : runs.

(** Goes through a computation call by call. *)
Ltac keeps :=
  repeat first
    [ progress intros
    | solve [eauto with runs]
    | apply keeps_bind; [apply _| |]
    | case_decide
    | match goal with |- keeps _ (match ?x with _ => _ end) => destruct x end ].

(** A chain of steps of one relation. *)
Ltac chain :=
  first [ assumption | reflexivity
        | match goal with H : ?R ?x ?y |- ?R ?x _ => transitivity y; [exact H|clear H; chain] end ].

(** ** Computations that cannot fail *)
Definition infallible {S A} (m : stM S A) : Prop := forall s, exists a s', m s = (Ok a, s').

Lemma total_bind {S A B} (m : stM S A) (k : A -> stM S B) :
  infallible m -> (forall a, infallible (k a)) -> infallible (m ≫= k).
Proof. intros Hm Hk s. destruct (Hm s) as (a & s1 & E). unfold mbind, stM_bind. rewrite E. apply Hk. Qed.
Lemma total_ret {S A} (a : A) : infallible (mret a : stM S A).
Proof. by exists a, s. Qed.
#[export] Hint Resolve total_ret : runs.

Ltac total :=
  repeat first
    [ progress intros
    | solve [eauto with runs]
    | apply total_bind
    | case_decide
    | match goal with |- infallible (match ?x with _ => _ end) => destruct x end ].
