(* ===== verification/GoStrings.v ===== *)
(** * Go strings: the parts of [strings] and [encoding/hex] the code uses.

    A Go string is a sequence of bytes, here Rocq's [string].  [ToLower],
    [EqualFold] and [TrimSpace] work on Unicode code points; a comparison of
    their result with an ASCII constant, which is what every security gate of
    the program does, is exact in this model: the only code points outside
    ASCII that lower to ASCII are U+212A (Kelvin sign, to k) and U+0130
    (dotted capital I, to i), the only ones that fold to ASCII are U+212A and
    U+017F (long s, to s), and [TrimSpace] knows every Unicode space.  Any
    other code point is left as it is, where Go may map it to another
    non-ASCII one. *)
From S2P Require Import Prelude.
From stdpp Require Export sorting.
From Stdlib Require Import Ascii NArith.

Definition byte (n : N) : ascii := ascii_of_N n.

(** Bytes below 0x80 *)
Definition is_ascii (a : ascii) : bool := (N_of_ascii a <? 128)%N.
Definition is_upper (a : ascii) : bool :=
  ((65 <=? N_of_ascii a) && (N_of_ascii a <=? 90))%N.
Definition lower_ascii (a : ascii) : ascii :=
  if is_upper a then byte (N_of_ascii a + 32) else a.

(** The UTF-8 encodings of U+212A, U+0130 and U+017F *)
Definition is_kelvin (a b c : ascii) : bool :=
  (N_of_ascii a =? 0xE2)%N && (N_of_ascii b =? 0x84)%N && (N_of_ascii c =? 0xAA)%N.
Definition is_dotted_I (a b : ascii) : bool :=
  (N_of_ascii a =? 0xC4)%N && (N_of_ascii b =? 0xB0)%N.
Definition is_long_s (a b : ascii) : bool :=
  (N_of_ascii a =? 0xC5)%N && (N_of_ascii b =? 0xBF)%N.

(** [strings.ToLower] and the normal form of [strings.EqualFold] differ only
    in the two-byte code point they map into ASCII. *)
Section case_map.
Variable two : ascii -> ascii -> bool.
Variable img : ascii.

Fixpoint case_map (s : string) : string :=
  match s with
  | EmptyString => EmptyString
  | String a s1 =>
      match s1 with
      | EmptyString => String (lower_ascii a) EmptyString
      | String b s2 =>
          if two a b then String img (case_map s2) else
          match s2 with
          | String c s3 =>
              if is_kelvin a b c then String "k"%char (case_map s3)
              else String (lower_ascii a) (case_map s1)
          | EmptyString => String (lower_ascii a) (case_map s1)
          end
      end
  end.

Hypothesis two_nonascii : forall a b, two a b = true -> is_ascii a = false /\ is_ascii b = false.
Hypothesis img_lower : is_ascii img = true /\ is_upper img = false.

Lemma lower_ascii_nonascii a : is_ascii a = false -> lower_ascii a = a.
Proof.
  unfold is_ascii, lower_ascii, is_upper. intros ?%N.ltb_ge.
  destruct (N_of_ascii a <=? 90)%N eqn:E; [apply N.leb_le in E; lia|].
  by rewrite andb_false_r.
Qed.

Lemma lower_ascii_spec a :
  (is_ascii a = true -> is_ascii (lower_ascii a) = true) /\
  is_upper (lower_ascii a) = false.
Proof. by destruct a as [[] [] [] [] [] [] [] []]. Qed.

(** A non-ASCII byte of the output is the byte of the input it comes from. *)
Lemma case_map_nonascii s a t :
  case_map s = String a t -> is_ascii a = false ->
  exists s', s = String a s' /\ t = case_map s'.
Proof.
  intros Hs Ha. destruct s as [|x s1]; [done|].
  assert (Hx : forall t', String (lower_ascii x) t' = String a t -> x = a /\ t' = t).
  { intros t' [= Hx <-]. split; [|done].
    destruct (is_ascii x) eqn:Ex.
    - destruct (lower_ascii_spec x) as [H _]. rewrite Hx, Ha in H. by discriminate H.
    - by rewrite lower_ascii_nonascii in Hx. }
  destruct s1 as [|b s2]; simpl in Hs.
  { apply Hx in Hs as [-> <-]. by exists EmptyString. }
  destruct (two x b) eqn:E.
  { injection Hs as <- <-. destruct img_lower as [Hi _]. by rewrite Hi in Ha. }
  destruct s2 as [|c s3].
  { apply Hx in Hs as [-> <-]. by exists (String b EmptyString). }
  destruct (is_kelvin x b c) eqn:K.
  { injection Hs as <- <-. done. }
  apply Hx in Hs as [-> <-]. by exists (String b (String c s3)).
Qed.

Lemma is_kelvin_nonascii a b c :
  is_kelvin a b c = true -> is_ascii a = false /\ is_ascii b = false /\ is_ascii c = false.
Proof.
  unfold is_kelvin, is_ascii. intros [[?%N.eqb_eq ?%N.eqb_eq]%andb_true_iff ?%N.eqb_eq]%andb_true_iff.
  rewrite !N.ltb_ge. lia.
Qed.

(** The fixed points: no upper-case letter and no mapped code point left. *)
Fixpoint case_fixed (s : string) : bool :=
  match s with
  | EmptyString => true
  | String a s1 =>
      negb (is_upper a) &&
      match s1 with
      | EmptyString => true
      | String b s2 =>
          negb (two a b) &&
          match s2 with String c _ => negb (is_kelvin a b c) | EmptyString => true end
      end && case_fixed s1
  end.

Lemma case_map_fixed s : case_fixed s = true -> case_map s = s.
Proof.
  induction s as [|a s1 IH]; [done|]. simpl.
  intros [[Hu Hm]%andb_true_iff Hs]%andb_true_iff. specialize (IH Hs).
  assert (Hl : lower_ascii a = a).
  { unfold lower_ascii. apply negb_true_iff in Hu. by rewrite Hu. }
  destruct s1 as [|b s2]; [by rewrite Hl|].
  apply andb_true_iff in Hm as [Ht%negb_true_iff Hk]. rewrite Ht, Hl.
  destruct s2 as [|c s3]; [by rewrite IH|].
  apply negb_true_iff in Hk. rewrite Hk. by rewrite IH.
Qed.

Lemma case_map_cons_cases s a t :
  case_map s = String a t ->
  is_upper a = false /\ exists s', t = case_map s' /\ (String.length s' < String.length s)%nat.
Proof.
  destruct img_lower as [_ Hi].
  destruct s as [|x s1]; [done|]. intros Hs.
  assert (Hx := proj2 (lower_ascii_spec x)).
  destruct s1 as [|b s2]; simpl in Hs.
  { injection Hs as <- <-. split; [done|]. exists EmptyString. simpl. split; [done|lia]. }
  destruct (two x b).
  { injection Hs as <- <-. split; [done|]. exists s2. simpl. split; [done|lia]. }
  destruct s2 as [|c s3].
  { injection Hs as <- <-. split; [done|]. exists (String b EmptyString).
    simpl. split; [done|lia]. }
  destruct (is_kelvin x b c).
  { injection Hs as <- <-. split; [done|]. exists s3. simpl. split; [done|lia]. }
  injection Hs as <- <-. split; [done|]. exists (String b (String c s3)). simpl. split; [done|lia].
Qed.

Lemma case_map_two s a b t :
  case_map s = String a (String b t) -> two a b = false.
Proof.
  intros Hs. destruct (two a b) eqn:E; [|done].
  destruct (two_nonascii _ _ E) as [Ha Hb].
  apply case_map_nonascii in Hs as Hs1; [|done]. destruct Hs1 as (s1 & -> & H1).
  symmetry in H1. apply case_map_nonascii in H1 as H2; [|done]. destruct H2 as (s2 & -> & _).
  simpl in Hs. rewrite E in Hs. injection Hs as <- _. by rewrite (proj1 img_lower) in Ha.
Qed.

Lemma case_map_kelvin s a b c t :
  case_map s = String a (String b (String c t)) -> is_kelvin a b c = false.
Proof.
  intros Hs. destruct (is_kelvin a b c) eqn:E; [|done].
  destruct (is_kelvin_nonascii _ _ _ E) as (Ha & Hb & Hc).
  assert (Ht := case_map_two _ _ _ _ Hs).
  apply case_map_nonascii in Hs as Hs1; [|done]. destruct Hs1 as (s1 & -> & H1).
  symmetry in H1. apply case_map_nonascii in H1 as H2; [|done]. destruct H2 as (s2 & -> & H2).
  symmetry in H2. apply case_map_nonascii in H2 as H3; [|done]. destruct H3 as (s3 & -> & _).
  simpl in Hs. rewrite Ht, E in Hs. injection Hs as <- _. done.
Qed.

Lemma case_map_is_fixed s : case_fixed (case_map s) = true.
Proof.
  remember (String.length s) as n eqn:Hn. assert (Hle : (String.length s <= n)%nat) by lia.
  clear Hn. revert s Hle. induction n as [|n IH]; intros s Hle.
  { destruct s; [done|simpl in Hle; lia]. }
  destruct (case_map s) as [|a t] eqn:E; [done|].
  destruct (case_map_cons_cases _ _ _ E) as (Hu & s' & Ht & Hlen).
  specialize (IH s' ltac:(lia)). rewrite <- Ht in IH. simpl. rewrite Hu, IH, andb_true_r. simpl.
  destruct t as [|b [|c t]]; [done|..].
  - by rewrite (case_map_two _ _ _ _ E).
  - by rewrite (case_map_two _ _ _ _ E), (case_map_kelvin _ _ _ _ _ E).
Qed.

Lemma case_map_idemp s : case_map (case_map s) = case_map s.
Proof. apply case_map_fixed, case_map_is_fixed. Qed.
End case_map.

(** [strings.ToLower] *)
Definition ToLower : string -> string := case_map is_dotted_I "i"%char.
(** Two strings are [strings.EqualFold] when their simple foldings agree. *)
Definition fold : string -> string := case_map is_long_s "s"%char.
Definition EqualFold (a b : string) : bool := bool_decide (fold a = fold b).

Lemma ToLower_idemp s : ToLower (ToLower s) = ToLower s.
Proof.
  apply case_map_idemp; [|done]. intros a b. unfold is_dotted_I, is_ascii.
  intros [?%N.eqb_eq ?%N.eqb_eq]%andb_true_iff. rewrite !N.ltb_ge. lia.
Qed.

Lemma fold_idemp s : fold (fold s) = fold s.
Proof.
  apply case_map_idemp; [|done]. intros a b. unfold is_long_s, is_ascii.
  intros [?%N.eqb_eq ?%N.eqb_eq]%andb_true_iff. rewrite !N.ltb_ge. lia.
Qed.

Lemma EqualFold_true a b : EqualFold a b = true <-> fold a = fold b.
Proof. apply bool_decide_eq_true. Qed.

(** [EqualFold] is an equivalence. *)
Lemma EqualFold_refl a : EqualFold a a = true.
Proof. by apply EqualFold_true. Qed.
Lemma EqualFold_sym a b : EqualFold a b = EqualFold b a.
Proof. apply bool_decide_ext. split; intros; congruence. Qed.


(** ** [strings.TrimSpace] *)

(** The bytes of a leading space code point, as the number to drop. *)
Definition space_len (s : string) : nat :=
  match s with
  | String a s1 =>
      let n := N_of_ascii a in
      if ((9 <=? n) && (n <=? 13) || (n =? 32))%N then 1 else
      match s1 with
      | String b s2 =>
          let m := N_of_ascii b in
          if ((n =? 0xC2) && ((m =? 0x85) || (m =? 0xA0)))%N then 2 else
          match s2 with
          | String c _ =>
              let k := N_of_ascii c in
              if ((n =? 0xE1) && (m =? 0x9A) && (k =? 0x80) ||
                  (n =? 0xE2) && (m =? 0x80) && ((0x80 <=? k) && (k <=? 0x8A)) ||
                  (n =? 0xE2) && (m =? 0x80) && ((k =? 0xA8) || (k =? 0xA9) || (k =? 0xAF)) ||
                  (n =? 0xE2) && (m =? 0x81) && (k =? 0x9F) ||
                  (n =? 0xE3) && (m =? 0x80) && (k =? 0x80))%N then 3 else 0
          | EmptyString => 0
          end
      | EmptyString => 0
      end
  | EmptyString => 0
  end.

Fixpoint drop_str (n : nat) (s : string) : string :=
  match n, s with
  | S n, String _ s => drop_str n s
  | _, _ => s
  end.

Fixpoint take_str (n : nat) (s : string) : string :=
  match n, s with
  | S n, String a s => String a (take_str n s)
  | _, _ => EmptyString
  end.

Fixpoint trim_left (fuel : nat) (s : string) : string :=
  match fuel with
  | O => s
  | S fuel =>
      match space_len s with
      | O => s
      | n => trim_left fuel (drop_str n s)
      end
  end.

Fixpoint rev_app (s acc : string) : string :=
  match s with
  | EmptyString => acc
  | String a s => rev_app s (String a acc)
  end.
Definition rev_string (s : string) : string := rev_app s EmptyString.

(** A trailing space is found by looking one, two and three bytes back. *)
Definition space_suffix (r : string) : nat :=
  match r with
  | String c r1 =>
      if Nat.eqb (space_len (String c EmptyString)) 1 then 1 else
      match r1 with
      | String b r2 =>
          if Nat.eqb (space_len (String b (String c EmptyString))) 2 then 2 else
          match r2 with
          | String a _ =>
              if Nat.eqb (space_len (String a (String b (String c EmptyString)))) 3 then 3 else 0
          | EmptyString => 0
          end
      | EmptyString => 0
      end
  | EmptyString => 0
  end.

Fixpoint trim_right_rev (fuel : nat) (r : string) : string :=
  match fuel with
  | O => r
  | S fuel =>
      match space_suffix r with
      | O => r
      | n => trim_right_rev fuel (drop_str n r)
      end
  end.

Definition TrimSpace (s : string) : string :=
  let l := trim_left (String.length s) s in
  rev_string (trim_right_rev (String.length l) (rev_string l)).

(** ** Prefixes, substrings *)
Fixpoint HasPrefix (s prefix : string) : bool :=
  match prefix, s with
  | EmptyString, _ => true
  | String a p, String b s => Ascii.eqb a b && HasPrefix s p
  | String _ _, EmptyString => false
  end.

(** [strings.TrimPrefix] *)
Definition TrimPrefix (s prefix : string) : string :=
  if HasPrefix s prefix then drop_str (String.length prefix) s else s.

(** [strings.HasSuffix] *)
Definition HasSuffix (s suffix : string) : bool :=
  HasPrefix (rev_string s) (rev_string suffix).

(** [strings.Contains] *)
Fixpoint Contains (s sub : string) : bool :=
  HasPrefix s sub ||
  match s with
  | EmptyString => false
  | String _ s => Contains s sub
  end.

Lemma HasPrefix_app p s : HasPrefix (p +:+ s) p = true.
Proof. induction p as [|a p IH]; simpl; [by destruct s|]. by rewrite Ascii.eqb_refl. Qed.

Lemma HasPrefix_inv s p : HasPrefix s p = true -> s = p +:+ drop_str (String.length p) s.
Proof.
  revert s. induction p as [|a p IH]; intros s; simpl; [by destruct s|].
  destruct s as [|b s]; [done|].
  intros [->%Ascii.eqb_eq H]%andb_true_iff. simpl. apply IH in H. by rewrite H at 1.
Qed.

(** ** [encoding/hex] *)
Definition hex_digit (n : N) : ascii :=
  if (n <? 10)%N then byte (48 + n) else byte (87 + n).

Definition hex_val (a : ascii) : option N :=
  let n := N_of_ascii a in
  if ((48 <=? n) && (n <=? 57))%N then Some (n - 48)%N
  else if ((97 <=? n) && (n <=? 102))%N then Some (n - 87)%N
  else if ((65 <=? n) && (n <=? 70))%N then Some (n - 55)%N
  else None.

(** [hex.EncodeToString] of a byte slice; a byte slice is a list of bytes. *)
Fixpoint EncodeToString (bs : list ascii) : string :=
  match bs with
  | [] => EmptyString
  | b :: bs =>
      String (hex_digit (N_of_ascii b / 16)) (String (hex_digit (N_of_ascii b mod 16))
        (EncodeToString bs))
  end.

(** [hex.DecodeString]; [None] is its error. *)
Fixpoint DecodeString (s : string) : option (list ascii) :=
  match s with
  | EmptyString => Some []
  | String a (String b s) =>
      match hex_val a, hex_val b, DecodeString s with
      | Some h, Some l, Some bs => Some (byte (16 * h + l) :: bs)
      | _, _, _ => None
      end
  | String _ EmptyString => None
  end.

Lemma hex_val_digit n : (n < 16)%N -> hex_val (hex_digit n) = Some n.
Proof.
  intros Hn. destruct n as [|p]; [done|].
  do 4 (destruct p as [p|p|]; try done; try lia).
Qed.

Lemma DecodeString_EncodeToString bs : DecodeString (EncodeToString bs) = Some bs.
Proof.
  induction bs as [|b bs IH]; [done|]. cbn [EncodeToString DecodeString].
  assert (Hb : (N_of_ascii b < 256)%N) by apply N_ascii_bounded.
  rewrite !hex_val_digit, IH; [| apply N.mod_lt; lia | apply N.Div0.div_lt_upper_bound; lia].
  do 2 f_equal. rewrite <- (ascii_N_embedding b) at 3. unfold byte. f_equal.
  symmetry. apply N.Div0.div_mod.
Qed.

Lemma app_str_cons x (a b : string) : String x a +:+ b = String x (a +:+ b).
Proof. reflexivity. Qed.

(** Encoded bytes are lower-case hexadecimal. *)
Lemma hex_digit_lower n :
  (n < 16)%N -> is_ascii (hex_digit n) = true /\ is_upper (hex_digit n) = false /\
                hex_digit n <> "x"%char.
Proof.
  intros Hn. destruct n as [|p]; [done|].
  do 4 (destruct p as [p|p|]; try done; try lia).
Qed.

Lemma EncodeToString_fixed bs : case_fixed is_dotted_I (EncodeToString bs) = true.
Proof.
  induction bs as [|b bs IH]; [done|]. cbn [EncodeToString].
  assert (Hb : (N_of_ascii b < 256)%N) by apply N_ascii_bounded.
  destruct (hex_digit_lower (N_of_ascii b / 16)) as (Ha1 & Hu1 & _);
    [apply N.Div0.div_lt_upper_bound; lia|].
  destruct (hex_digit_lower (N_of_ascii b mod 16)) as (Ha2 & Hu2 & _); [apply N.mod_lt; lia|].
  revert IH Ha1 Hu1 Ha2 Hu2. generalize (hex_digit (N_of_ascii b / 16)) as x.
  generalize (hex_digit (N_of_ascii b mod 16)) as y. intros y x IH Ha1 Hu1 Ha2 Hu2.
  assert (Hd : forall x y, is_ascii x = true -> is_dotted_I x y = false).
  { intros x' y'. unfold is_ascii, is_dotted_I. intros ?%N.ltb_lt.
    apply andb_false_iff. left. apply N.eqb_neq. lia. }
  assert (Hk : forall x y z, is_ascii x = true -> is_kelvin x y z = false).
  { intros x' y' z' Hx. destruct (is_kelvin x' y' z') eqn:E; [|done].
    apply is_kelvin_nonascii in E as (E & _). congruence. }
  cbn [case_fixed]. rewrite Hu1, Hu2, (Hd x y Ha1). destruct (EncodeToString bs) as [|c s]; [done|].
  rewrite (Hk x y c Ha1), (Hd y c Ha2). destruct s as [|d s]; [done|]. by rewrite (Hk y c d Ha2).
Qed.

Lemma ToLower_EncodeToString bs : ToLower (EncodeToString bs) = EncodeToString bs.
Proof. apply case_map_fixed, EncodeToString_fixed. Qed.

Lemma TrimPrefix_0x_EncodeToString bs : TrimPrefix (EncodeToString bs) "0x" = EncodeToString bs.
Proof.
  unfold TrimPrefix. destruct (HasPrefix (EncodeToString bs) "0x") eqn:E; [|done].
  exfalso. apply HasPrefix_inv in E. destruct bs as [|b bs]; [done|].
  cbn [EncodeToString] in E. rewrite !app_str_cons in E. injection E as _ E.
  by apply (hex_digit_lower (N_of_ascii b mod 16)) in E; [|apply N.mod_lt; lia].
Qed.

Lemma EncodeToString_length bs : String.length (EncodeToString bs) = 2 * length bs.
Proof. induction bs; simpl; lia. Qed.

(** ** [sort.Strings]: byte-wise lexicographic order *)
Definition strle (a b : string) : Prop := String.leb a b = true.
#[export] Instance strle_dec : RelDecision strle.
Proof. intros a b. unfold strle. apply _. Defined.

Lemma strle_total a b : strle a b \/ strle b a.
Proof. unfold strle. destruct (String.leb_total a b); auto. Qed.
#[export] Instance strle_Total : Total strle := strle_total.

Definition sort_strings (l : list string) : list string := merge_sort strle l.

Lemma elem_of_sort_strings l x : x ∈ sort_strings l <-> x ∈ l.
Proof. unfold sort_strings. by rewrite (merge_sort_Permutation strle l). Qed.

Lemma NoDup_sort_strings l : NoDup l -> NoDup (sort_strings l).
Proof. unfold sort_strings. by rewrite (merge_sort_Permutation strle l). Qed.

Lemma Sorted_sort_strings l : Sorted strle (sort_strings l).
Proof. apply Sorted_merge_sort; apply _. Qed.

(** ** Concatenation and reversal *)
Lemma app_str_assoc (a b c : string) : (a +:+ b) +:+ c = a +:+ (b +:+ c).
Proof. induction a as [|x a IH]; [done|]. rewrite !app_str_cons. simpl. by rewrite IH. Qed.

Lemma app_str_nil_r (a : string) : a +:+ EmptyString = a.
Proof. induction a as [|x a IH]; [done|]. rewrite !app_str_cons. simpl. by rewrite IH. Qed.

Lemma length_app_str (a b : string) :
  String.length (a +:+ b) = String.length a + String.length b.
Proof. induction a as [|x a IH]; [done|]. rewrite !app_str_cons. simpl. by rewrite IH. Qed.

Lemma rev_app_spec a acc : rev_app a acc = rev_string a +:+ acc.
Proof.
  unfold rev_string. revert acc. induction a as [|x a IH]; intros acc; simpl; [done|].
  rewrite (IH (String x acc)), (IH (String x EmptyString)), app_str_assoc. done.
Qed.

Lemma rev_string_app a b : rev_string (a +:+ b) = rev_string b +:+ rev_string a.
Proof.
  induction a as [|x a IH].
  - rewrite app_str_nil_r. done.
  - change (rev_app (a +:+ b) (String x EmptyString) =
            rev_string b +:+ rev_app a (String x EmptyString)).
    rewrite !rev_app_spec, IH. apply app_str_assoc.
Qed.
Lemma rev_string_involutive s : rev_string (rev_string s) = s.
Proof.
  induction s as [|a s IH]; [done|]. change (String a s) with (String a EmptyString +:+ s) at 1.
  by rewrite rev_string_app, rev_string_app, IH.
Qed.

Lemma HasSuffix_app a b : HasSuffix (a +:+ b) b = true.
Proof. unfold HasSuffix. rewrite rev_string_app. apply HasPrefix_app. Qed.

(** Identifiers without a colon: the two halves of "a:b" determine [a]. *)
Fixpoint no_colon (s : string) : bool :=
  match s with
  | EmptyString => true
  | String a s => negb (Ascii.eqb a ":") && no_colon s
  end.

Lemma HasPrefix_colon u u' o :
  no_colon u = true -> no_colon u' = true ->
  HasPrefix (u' +:+ ":" +:+ o) (u +:+ ":") = true -> u = u'.
Proof.
  revert u'. induction u as [|a u IH]; intros [|b u'] Hu Hu' H; [done|..].
  - apply andb_true_iff in Hu' as [Hb _]. change (Ascii.eqb ":" b && HasPrefix (u' +:+ ":" +:+ o) "" = true) in H.
    apply andb_true_iff in H as [<-%Ascii.eqb_eq _]. done.
  - apply andb_true_iff in Hu as [Ha _]. change (Ascii.eqb a ":" && HasPrefix o (u +:+ ":") = true) in H.
    apply andb_true_iff in H as [->%Ascii.eqb_eq _]. done.
  - apply andb_true_iff in Hu as [_ Hu]. apply andb_true_iff in Hu' as [_ Hu'].
    change (Ascii.eqb a b && HasPrefix (u' +:+ ":" +:+ o) (u +:+ ":") = true) in H.
    apply andb_true_iff in H as [->%Ascii.eqb_eq H]. f_equal. by apply IH.
Qed.
