(* ===== verification/Methods.v ===== *)
(** * The RPC method catalogue: [internal/rbac/method_claim.go] and the
    blocklists of [internal/rbac/access.go].

    The method sets are the source's map literals.  The registries that
    operator configuration fills at startup are a record, and every gate that
    reads them takes it as an argument. *)
From S2P Require Import Prelude GoStrings.

Section literals.
Local Open Scope string_scope.

Definition ReadMethods : list string := [
  "eth_chainId"; "eth_blockNumber"; "net_version"; "net_listening"; "net_peerCount";
  "web3_clientVersion"; "web3_sha3"; "eth_syncing"; "eth_accounts";
  "eth_getBalance"; "eth_getCode"; "eth_getStorageAt"; "eth_getTransactionCount";
  "eth_getBlockByHash"; "eth_getBlockByNumber"; "eth_getBlockTransactionCountByHash";
  "eth_getBlockTransactionCountByNumber";
  "eth_getTransactionByHash"; "eth_getTransactionReceipt";
  "eth_getTransactionByBlockHashAndIndex"; "eth_getTransactionByBlockNumberAndIndex";
  "eth_call"; "eth_estimateGas";
  "eth_gasPrice"; "eth_maxPriorityFeePerGas"; "eth_feeHistory";
  "eth_getLogs";
  "eth_newFilter"; "eth_newBlockFilter"; "eth_newPendingTransactionFilter";
  "eth_getFilterChanges"; "eth_getFilterLogs"; "eth_uninstallFilter" ].

Definition WriteMethods : list string := [
  "eth_sendTransaction"; "eth_sendRawTransaction"; "eth_sign"; "eth_signTransaction";
  "personal_sign"; "eth_signTypedData"; "eth_signTypedData_v4" ].

Definition TraceMethods : list string := [ "debug_traceTransaction"; "debug_traceCall" ].

Definition canonicalExtraMethods : list string :=
  [ "eth_getProof"; "eth_createAccessList"; "eth_getBlockReceipts" ].

Definition GlobalBlockedMethods : list string := [
  "debug_accountrange"; "debug_backtraceat"; "debug_blockprofile"; "debug_chaindbcompact";
  "debug_chaindbproperty"; "debug_cpuprofile"; "debug_dbancient"; "debug_dbancients";
  "debug_dbget"; "debug_dumpblock"; "debug_freeosmemory"; "debug_freezeclient";
  "debug_gcstats"; "debug_getbadblocks"; "debug_getheaderrlp";
  "debug_getmodifiedaccountsbyhash"; "debug_getmodifiedaccountsbynumber"; "debug_gotrace";
  "debug_intermediateroots"; "debug_memstats"; "debug_mutexprofile"; "debug_preimage";
  "debug_printblock"; "debug_seedhash"; "debug_setblockprofilerate"; "debug_setgcpercent";
  "debug_sethead"; "debug_setmutexprofilefraction"; "debug_stacks";
  "debug_standardtracebadblocktofile"; "debug_standardtraceblocktofile";
  "debug_startcpuprofile"; "debug_startgotrace"; "debug_stopcpuprofile";
  "debug_stopgotrace"; "debug_storagerangeat"; "debug_subscribe"; "debug_tracebadblock";
  "debug_traceblock"; "debug_traceblockbyhash"; "debug_traceblockbynumber";
  "debug_traceblockfromfile"; "debug_tracechain"; "debug_unsubscribe"; "debug_verbosity";
  "debug_vmodule"; "debug_writeblockprofile"; "debug_writememprofile";
  "debug_writemutexprofile";
  "admin_addpeer"; "admin_addtrustedpeer"; "admin_clearhistory"; "admin_datadir";
  "admin_exportchain"; "admin_importchain"; "admin_nodeinfo"; "admin_peers";
  "admin_removepeer"; "admin_removetrustedpeer"; "admin_sleep"; "admin_sleepblocks";
  "admin_starthttp"; "admin_startrpc"; "admin_startws"; "admin_stophttp"; "admin_stoprpc";
  "admin_stopws";
  "personal_deriveaccount"; "personal_ecrecover"; "personal_importrawkey";
  "personal_initializewallet"; "personal_listaccounts"; "personal_listwallets";
  "personal_lockaccount"; "personal_newaccount"; "personal_openwallet";
  "personal_sendtransaction"; "personal_sign"; "personal_signtransaction";
  "personal_unlockaccount"; "personal_unpair";
  "miner_gethashrate"; "miner_setetherbase"; "miner_setextra"; "miner_setgaslimit";
  "miner_setgasprice"; "miner_setrecommitinterval"; "miner_start"; "miner_stop";
  "txpool_content"; "txpool_contentfrom"; "txpool_inspect"; "txpool_status";
  "eth_simulatev1"; "eth_simulate"; "eth_multicallv1"; "eth_callmany"; "eth_callbundle";
  "eth_sign"; "eth_signtransaction"; "eth_signtypeddata"; "eth_signtypeddata_v4";
  "clique_discard"; "clique_getsigners"; "clique_getsignersathash"; "clique_getsnapshot";
  "clique_getsnapshotathash"; "clique_proposals"; "clique_propose"; "clique_status";
  "les_addbalance"; "les_clientinfo"; "les_latestcheckpoint"; "les_priorityclientinfo";
  "les_serverinfo"; "les_setclientparams"; "les_setdefaultparams";
  "eth_subscribe"; "eth_unsubscribe";
  ToLower "eth_newFilter"; ToLower "eth_newBlockFilter";
  ToLower "eth_newPendingTransactionFilter"; ToLower "eth_getFilterLogs";
  ToLower "eth_getFilterChanges"; ToLower "eth_uninstallFilter" ].

Definition orgFreeMetadataMethods : list string := [
  "eth_blocknumber"; "eth_chainid"; "eth_gasprice"; "net_version"; "net_listening";
  "web3_clientversion" ].

Definition blockedMethodPrefixes : list string :=
  [ "ops_"; "debug_"; "admin_"; "personal_"; "miner_"; "txpool_"; "clique_"; "les_" ].

Definition prefixBlockExemptions : list string :=
  [ "debug_tracetransaction"; "debug_tracecall" ].

Definition reservedExtraPrefixes : list string := [ "eth_"; "net_"; "web3_"; "engine_" ].

Definition specialDispatchMethods : list string := [
  "eth_sendTransaction"; "eth_sendRawTransaction"; "debug_traceTransaction";
  "debug_traceCall"; "eth_getBlockByHash"; "eth_getBlockByNumber";
  "eth_getBlockTransactionCountByHash"; "eth_getBlockTransactionCountByNumber" ].

Definition WriteOpsMap : list string := [ "eth_sendtransaction"; "eth_sendrawtransaction" ].

Definition ReadOpsMap : list string := [
  "eth_call"; "eth_estimategas"; "eth_getcode"; "eth_getbalance"; "eth_getstorageat";
  "eth_gettransactioncount"; "eth_getlogs"; "eth_getproof"; "eth_createaccesslist";
  "eth_accounts"; "eth_newfilter"; "eth_newblockfilter";
  "eth_newpendingtransactionfilter"; "eth_getfilterchanges"; "eth_getfilterlogs";
  "eth_uninstallfilter"; "eth_getblockbyhash"; "eth_getblockbynumber";
  "eth_getblocktransactioncountbyhash"; "eth_getblocktransactioncountbynumber";
  "eth_getunclebyblockhashandindex"; "eth_getunclebyblocknumberandindex";
  "eth_getunclecountbyblockhash"; "eth_getunclecountbyblocknumber";
  "eth_gettransactionbyhash"; "eth_gettransactionbyblockhashandindex";
  "eth_gettransactionbyblocknumberandindex"; "eth_gettransactionreceipt";
  "eth_getblockreceipts" ].
End literals.

(** [IsMethodBlocked]: the exact blocklist, then the exemptions, then the
    namespace prefixes; case-insensitive and ignoring surrounding space. *)
Definition IsMethodBlocked (method : string) : bool :=
  let method := ToLower (TrimSpace method) in
  if contains GlobalBlockedMethods method then true
  else if contains prefixBlockExemptions method then false
  else existsb (HasPrefix method) blockedMethodPrefixes.

(** [orgFreeMetadataMethods[strings.ToLower(strings.TrimSpace(m))]] *)
Definition isOrgFreeMetadata (method : string) : bool :=
  contains orgFreeMetadataMethods (ToLower (TrimSpace method)).

(** The built-in method names, by lower-case spelling. *)
Definition builtinMethods : list string :=
  ReadMethods ++ WriteMethods ++ TraceMethods ++ canonicalExtraMethods.

Definition canonicalMethodByLower : gmap string string :=
  list_to_map (map (fun name => (ToLower name, name)) builtinMethods).

Definition CanonicalizeMethod (method : string) : string :=
  default method (canonicalMethodByLower !! ToLower method).

Definition IsStandardMethod (method : string) : bool :=
  let lower := ToLower (TrimSpace method) in
  match canonicalMethodByLower !! lower with
  | Some _ => true
  | None => contains ReadOpsMap lower || contains WriteOpsMap lower
  end.

Definition IsCatalogMethod (method : string) : bool :=
  match canonicalMethodByLower !! ToLower method with
  | Some canon => bool_decide (canon = method) && negb (IsMethodBlocked method)
  | None => false
  end.

Definition inBuiltinWildcardSet (method : string) : bool :=
  contains ReadMethods method || contains WriteMethods method || contains TraceMethods method.

(** [ValidateExtraMethod]; the error texts quote the name as the source does. *)
Definition ValidateExtraMethod (method : string) : result unit :=
  let m := ("method " +:+ method)%string in
  if negb (bool_decide (TrimSpace method = method)) || bool_decide (method = "")
  then Err (m +:+ ": name must be non-empty with no surrounding whitespace")
  else if Contains method "*"
  then Err (m +:+ ": wildcards are not supported; list each method by its exact name")
  else if IsStandardMethod method
  then Err (m +:+ ": shadows a built-in RPC method")
  else match List.find (HasPrefix (ToLower method)) reservedExtraPrefixes with
  | Some prefix =>
      Err (m +:+ ": the " +:+ prefix +:+
           " namespace is reserved; only built-in methods are served there")
  | None =>
      if IsMethodBlocked method then Err (m +:+ ": globally blocked") else Ok tt
  end.

Definition ValidateAliasTarget (method target : string) : result unit :=
  let m := ("method " +:+ method)%string in
  if negb (IsCatalogMethod target)
  then Err (m +:+ ": alias " +:+ target +:+
            " is not a built-in RPC method (check the exact spelling)")
  else if contains specialDispatchMethods target
  then Err (m +:+ ": " +:+ target +:+ " cannot be an alias target")
  else Ok tt.

(** The package-level registries filled once at startup. *)
Record Registries := {
  ExtraMethods : gset string;
  ExtraNamespaces : gmap string (list string);
  MethodAliases : gmap string string;
  PassthroughMethods : gset string;
  methodRegistriesArmed : bool
}.

Definition emptyRegistries : Registries := {|
  ExtraMethods := ∅; ExtraNamespaces := ∅; MethodAliases := ∅;
  PassthroughMethods := ∅; methodRegistriesArmed := false |}.

Definition ArmMethodRegistries (reg : Registries) : Registries := {|
  ExtraMethods := ExtraMethods reg; ExtraNamespaces := ExtraNamespaces reg;
  MethodAliases := MethodAliases reg; PassthroughMethods := PassthroughMethods reg;
  methodRegistriesArmed := true |}.

(** The first failing element of a list of checks: a Go loop that returns the
    first error. *)
Fixpoint firstErr {A} (f : A -> result unit) (l : list A) : result unit :=
  match l with
  | [] => Ok tt
  | x :: l => match f x with Err e => Err e | Ok _ => firstErr f l end
  end.

Lemma firstErr_Ok {A} (f : A -> result unit) l :
  firstErr f l = Ok tt <-> forall x, x ∈ l -> f x = Ok tt.
Proof.
  induction l as [|x l IH]; simpl; [set_solver|].
  destruct (f x) as [[]|e] eqn:E.
  - rewrite IH. set_solver.
  - split; [done|]. intros H. rewrite H in E; [done|]. set_solver.
Qed.

(** [RegisterExtraNamespaces]; the panic after arming and the validation
    errors are [Err], and register nothing. *)
Definition RegisterExtraNamespaces (reg : Registries)
    (methodNames : gmap string (list string)) (aliases : gmap string string)
    (passthrough : list string) : result Registries :=
  if methodRegistriesArmed reg
  then Err "panic: rbac: RegisterExtraNamespaces called after startup"
  else
    _ ← firstErr (fun m =>
          if bool_decide (is_Some (aliases !! m))
          then Err "an entry is either aliased or passthrough, not both"
          else ValidateExtraMethod m) passthrough;
    _ ← firstErr (fun '(method, target) =>
          _ ← ValidateExtraMethod method;
          ValidateAliasTarget method target) (map_to_list aliases);
    _ ← firstErr (fun '(ns, methods) =>
          firstErr (fun m =>
            if bool_decide (is_Some (aliases !! m)) || contains passthrough m then Ok tt
            else Err "needs an alias to a built-in method or passthrough") methods)
          (map_to_list methodNames);
    Ok {| ExtraMethods := list_to_set (concat (map snd (map_to_list methodNames)))
                            ∪ list_to_set passthrough ∪ ExtraMethods reg;
          ExtraNamespaces := methodNames;
          MethodAliases := aliases ∪ MethodAliases reg;
          PassthroughMethods := list_to_set passthrough ∪ PassthroughMethods reg;
          methodRegistriesArmed := methodRegistriesArmed reg |}.

Section gates.
Variable reg : Registries.

Definition ResolveMethodAlias (method : string) : string :=
  default method (MethodAliases reg !! method).

Definition IsPassthroughMethod (method : string) : bool :=
  mem (PassthroughMethods reg) method.

Definition IsForwardableMethod (method : string) : bool :=
  if IsCatalogMethod method || mem (PassthroughMethods reg) method then true
  else match MethodAliases reg !! method with
       | Some target => is_ok (ValidateAliasTarget method target)
       | None => false
       end.

Definition InWildcardExpansion (method : string) : bool :=
  if IsMethodBlocked method || mem (PassthroughMethods reg) method then false
  else if inBuiltinWildcardSet method then true
  else if mem (ExtraMethods reg) method
  then match MethodAliases reg !! method with
       | Some target => IsForwardableMethod method && inBuiltinWildcardSet target
       | None => false
       end
  else false.

Definition AllAllowedMethods : list string :=
  sort_strings (filter (fun m => InWildcardExpansion m = true)
    (dedup [] (ReadMethods ++ WriteMethods ++ TraceMethods ++ elements (ExtraMethods reg)))).

Definition IsAssignableMethod (method : string) : bool := IsForwardableMethod method.

Definition SupportedMethods : list string :=
  sort_strings (filter (fun m => IsAssignableMethod m = true)
    (dedup [] (map snd (map_to_list canonicalMethodByLower) ++ elements (ExtraMethods reg)))).

Definition ExpandWildcardMethods (methods : list string) : list string :=
  if contains methods "*"
  then sort_strings (dedup ["*"%string] (AllAllowedMethods ++ methods))
  else methods.
End gates.

(** ** Properties of the catalogue *)

Lemma canonicalMethodByLower_Some k name :
  canonicalMethodByLower !! k = Some name -> name ∈ builtinMethods /\ ToLower name = k.
Proof.
  intros H%elem_of_list_to_map_2. apply list_elem_of_fmap in H as (y & [= -> ->] & Hy). done.
Qed.

Lemma map_fst_tag {A B} (f : B -> A) (l : list B) :
  (map (fun n => (f n, n)) l).*1 = map f l.
Proof. induction l; [done|]. simpl. f_equal. done. Qed.

(** No two built-in names share a lower-case spelling. *)
Lemma builtin_lower_NoDup : NoDup (map ToLower builtinMethods).
Proof. apply (bool_decide_unpack _). vm_compute. exact I. Qed.

Lemma canonicalMethodByLower_builtin name :
  name ∈ builtinMethods -> canonicalMethodByLower !! ToLower name = Some name.
Proof.
  intros H. apply elem_of_list_to_map_1.
  - rewrite map_fst_tag. apply builtin_lower_NoDup.
  - apply list_elem_of_fmap. eauto.
Qed.

(** Proofs go through the lemmas below; [vm_compute] still evaluates. *)
#[global] Opaque ReadMethods WriteMethods TraceMethods canonicalExtraMethods
  GlobalBlockedMethods canonicalMethodByLower specialDispatchMethods ReadOpsMap WriteOpsMap
  orgFreeMetadataMethods blockedMethodPrefixes prefixBlockExemptions reservedExtraPrefixes.

Lemma IsCatalogMethod_true m :
  IsCatalogMethod m = true <-> m ∈ builtinMethods /\ IsMethodBlocked m = false.
Proof.
  unfold IsCatalogMethod. split.
  - destruct (canonicalMethodByLower !! ToLower m) as [c|] eqn:E; [|done].
    intros [->%bool_decide_eq_true Hb%negb_true_iff]%andb_true_iff.
    apply canonicalMethodByLower_Some in E as [? _]. done.
  - intros [Hm Hb]. rewrite (canonicalMethodByLower_builtin m Hm), Hb.
    by rewrite bool_decide_eq_true_2.
Qed.

Lemma IsCatalogMethod_not_blocked m : IsCatalogMethod m = true -> IsMethodBlocked m = false.
Proof. intros [_ ?]%IsCatalogMethod_true. done. Qed.

Lemma IsCatalogMethod_standard m :
  IsCatalogMethod m = true -> TrimSpace m = m -> IsStandardMethod m = true.
Proof.
  intros [Hm _]%IsCatalogMethod_true Ht. unfold IsStandardMethod.
  by rewrite Ht, canonicalMethodByLower_builtin.
Qed.

(** Two spellings that differ only in case canonicalize to the same name. *)
Lemma CanonicalizeMethod_builtin name m :
  name ∈ builtinMethods -> ToLower m = ToLower name -> CanonicalizeMethod m = name.
Proof.
  intros Hn He. unfold CanonicalizeMethod.
  by rewrite He, canonicalMethodByLower_builtin.
Qed.

Lemma ValidateExtraMethod_Ok m :
  ValidateExtraMethod m = Ok tt <->
  TrimSpace m = m /\ m <> "" /\ Contains m "*" = false /\ IsStandardMethod m = false /\
  existsb (HasPrefix (ToLower m)) reservedExtraPrefixes = false /\ IsMethodBlocked m = false.
Proof.
  assert (Hf : forall l, List.find (HasPrefix (ToLower m)) l = None <->
                 existsb (HasPrefix (ToLower m)) l = false).
  { induction l as [|p l IH]; simpl; [done|].
    destruct (HasPrefix (ToLower m) p); simpl; [done|apply IH]. }
  unfold ValidateExtraMethod.
  rewrite <- (Hf reservedExtraPrefixes). clear Hf.
  generalize (TrimSpace m) as tm. intros tm.
  generalize (Contains m "*") (IsStandardMethod m) (IsMethodBlocked m)
    (List.find (HasPrefix (ToLower m)) reservedExtraPrefixes).
  intros b1 b2 b3 o.
  destruct (decide (tm = m)) as [->|?], (decide (m = "")) as [->|?].
  all: repeat first [rewrite bool_decide_eq_true_2 by done|rewrite bool_decide_eq_false_2 by done].
  all: destruct b1, b2, o, b3; simpl; naive_solver.
Qed.

Lemma ValidateAliasTarget_Ok m t :
  ValidateAliasTarget m t = Ok tt <->
  IsCatalogMethod t = true /\ t ∉ specialDispatchMethods.
Proof.
  unfold ValidateAliasTarget. rewrite <- contains_false.
  generalize (IsCatalogMethod t) (contains specialDispatchMethods t).
  intros [] []; simpl; naive_solver.
Qed.

#[global] Opaque IsMethodBlocked IsCatalogMethod IsStandardMethod ValidateExtraMethod
  ValidateAliasTarget CanonicalizeMethod.

(** ** The registry invariant

    What startup registration promises to the request path: an operator name
    is never a built-in name, never in a reserved or blocked namespace, and an
    alias always points to a catalogue method outside the special-dispatch
    set. *)
Record registries_wf (reg : Registries) : Prop := {
  wf_alias : forall m t, MethodAliases reg !! m = Some t ->
    ValidateExtraMethod m = Ok tt /\ ValidateAliasTarget m t = Ok tt;
  wf_passthrough : forall m, m ∈ PassthroughMethods reg -> ValidateExtraMethod m = Ok tt;
  wf_extra : forall m, m ∈ ExtraMethods reg ->
    is_Some (MethodAliases reg !! m) \/ m ∈ PassthroughMethods reg
}.

Lemma emptyRegistries_wf : registries_wf emptyRegistries.
Proof. split; simpl; set_solver. Qed.

Lemma ArmMethodRegistries_wf reg : registries_wf reg -> registries_wf (ArmMethodRegistries reg).
Proof. by intros []. Qed.

Lemma RegisterExtraNamespaces_Ok reg names aliases pt reg' :
  RegisterExtraNamespaces reg names aliases pt = Ok reg' ->
  methodRegistriesArmed reg = false /\
  (forall m, m ∈ pt -> aliases !! m = None /\ ValidateExtraMethod m = Ok tt) /\
  (forall m t, aliases !! m = Some t ->
     ValidateExtraMethod m = Ok tt /\ ValidateAliasTarget m t = Ok tt) /\
  (forall ns ms m, names !! ns = Some ms -> m ∈ ms -> is_Some (aliases !! m) \/ m ∈ pt) /\
  ExtraMethods reg' = list_to_set (concat (map snd (map_to_list names))) ∪ list_to_set pt
                        ∪ ExtraMethods reg /\
  MethodAliases reg' = aliases ∪ MethodAliases reg /\
  PassthroughMethods reg' = list_to_set pt ∪ PassthroughMethods reg.
Proof.
  unfold RegisterExtraNamespaces. destruct (methodRegistriesArmed reg); [done|].
  intros H.
  apply bind_Ok in H as ([] & Hp & H). apply bind_Ok in H as ([] & Ha & H).
  apply bind_Ok in H as ([] & Hn & H). simplify_eq/=.
  rewrite firstErr_Ok in Hp. rewrite firstErr_Ok in Ha. rewrite firstErr_Ok in Hn.
  split_and!; try done.
  - intros m Hm. specialize (Hp m Hm). simpl in Hp. case_bool_decide as Hs; [done|].
    split; [by apply eq_None_not_Some|done].
  - intros m t Hm. apply elem_of_map_to_list in Hm.
    specialize (Ha _ Hm). apply bind_Ok in Ha as ([] & ? & ?). split; assumption.
  - intros ns ms m Hns Hm. apply elem_of_map_to_list in Hns.
    specialize (Hn _ Hns). simpl in Hn. rewrite firstErr_Ok in Hn. specialize (Hn m Hm).
    simpl in Hn.
    destruct (bool_decide (is_Some (aliases !! m))) eqn:Ea.
    + left. by apply bool_decide_eq_true in Ea.
    + destruct (contains pt m) eqn:Ep; [|done]. right. by apply contains_true.
Qed.

(** Registration preserves the invariant (and fails rather than break it). *)
Lemma RegisterExtraNamespaces_wf reg names aliases pt reg' :
  registries_wf reg ->
  RegisterExtraNamespaces reg names aliases pt = Ok reg' -> registries_wf reg'.
Proof.
  intros [Ha Hp He] H. apply RegisterExtraNamespaces_Ok in H
    as (_ & Hpt & Hal & Hn & HE & HA & HP).
  split.
  - intros m t. rewrite HA. intros [Hm|[_ Hm]]%lookup_union_Some_raw; eauto.
  - intros m. rewrite HP. rewrite elem_of_union, elem_of_list_to_set.
    intros [Hm|Hm]; [by apply Hpt|by apply Hp].
  - intros m. rewrite HE, HA, HP, !elem_of_union, !elem_of_list_to_set.
    intros [[Hm|Hm]|Hm].
    + apply list_elem_of_In, in_concat in Hm as (ms & Hms & Hm).
      apply in_map_iff in Hms as ([ns ms'] & <- & Hns).
      apply list_elem_of_In, elem_of_map_to_list in Hns.
      apply list_elem_of_In in Hm.
      destruct (Hn ns ms' m Hns Hm) as [Hs|Hs]; [|tauto].
      left. destruct Hs as [t Ht]. exists t. by apply lookup_union_Some_l.
    + tauto.
    + destruct (He m Hm) as [Hs|Hs]; [|tauto].
      left. rewrite lookup_union_is_Some. tauto.
Qed.

(** The registries a server can hold: any sequence of successful
    registrations, then arming. *)
Inductive registries_reachable : Registries -> Prop :=
| reach_empty : registries_reachable emptyRegistries
| reach_register reg names aliases pt reg' :
    registries_reachable reg ->
    RegisterExtraNamespaces reg names aliases pt = Ok reg' -> registries_reachable reg'
| reach_arm reg : registries_reachable reg -> registries_reachable (ArmMethodRegistries reg).

Lemma registries_reachable_wf reg : registries_reachable reg -> registries_wf reg.
Proof.
  induction 1; eauto using emptyRegistries_wf, RegisterExtraNamespaces_wf, ArmMethodRegistries_wf.
Qed.

Section gate_lemmas.
Context (reg : Registries) (Hwf : registries_wf reg).

Lemma IsForwardableMethod_true m :
  IsForwardableMethod reg m = true <->
  IsCatalogMethod m = true \/ m ∈ PassthroughMethods reg \/
  exists t, MethodAliases reg !! m = Some t /\ ValidateAliasTarget m t = Ok tt.
Proof.
  unfold IsForwardableMethod. rewrite <- mem_true.
  destruct (IsCatalogMethod m); simpl; [tauto|].
  destruct (mem (PassthroughMethods reg) m); simpl; [tauto|].
  destruct (MethodAliases reg !! m) as [t|]; simpl.
  - destruct (ValidateAliasTarget m t) as [[]|e] eqn:E; simpl.
    + split; [|done]. intros _. right. right. eauto.
    + split; [done|]. intros [H|[H|(t' & [= <-] & H)]]; [discriminate H..|]. rewrite E in H. discriminate H.
  - split; [intros H; discriminate H|]. intros [H|[H|(t' & H & _)]]; discriminate H.
Qed.

(** Under the invariant, everything forwardable is clear of the blocklist. *)
Lemma forwardable_not_blocked m :
  IsForwardableMethod reg m = true -> IsMethodBlocked m = false.
Proof.
  intros [H|[H|(t & H & _)]]%IsForwardableMethod_true.
  - by apply IsCatalogMethod_not_blocked.
  - apply (wf_passthrough _ Hwf), ValidateExtraMethod_Ok in H. tauto.
  - apply (wf_alias _ Hwf) in H as [H _]. apply ValidateExtraMethod_Ok in H. tauto.
Qed.

Lemma star_not_builtin : "*"%string ∉ builtinMethods.
Proof. apply (bool_decide_unpack _). vm_compute. exact I. Qed.

Lemma extra_not_star m : ValidateExtraMethod m = Ok tt -> m <> "*"%string.
Proof. intros (_ & _ & H & _)%ValidateExtraMethod_Ok ->. done. Qed.

Lemma star_not_forwardable : IsForwardableMethod reg "*" = false.
Proof.
  apply not_true_iff_false. intros [H|[H|(t & H & _)]]%IsForwardableMethod_true.
  - apply IsCatalogMethod_true in H as [H _]. by apply star_not_builtin.
  - apply (wf_passthrough _ Hwf) in H. by apply extra_not_star in H.
  - apply (wf_alias _ Hwf) in H as [H _]. by apply extra_not_star in H.
Qed.
End gate_lemmas.

Lemma elem_of_AllAllowedMethods reg m :
  m ∈ AllAllowedMethods reg <-> InWildcardExpansion reg m = true.
Proof.
  unfold AllAllowedMethods. rewrite elem_of_sort_strings, list_elem_of_filter, elem_of_dedup.
  rewrite !elem_of_app, elem_of_elements. split; [tauto|]. intros H. split; [done|].
  split; [|set_solver]. unfold InWildcardExpansion, inBuiltinWildcardSet in H.
  destruct (_ || _) in H; [done|].
  destruct (contains ReadMethods m) eqn:E1; [left; by apply contains_true|].
  destruct (contains WriteMethods m) eqn:E2; [right; left; by apply contains_true|].
  destruct (contains TraceMethods m) eqn:E3; [do 2 right; left; by apply contains_true|].
  simpl in H. destruct (mem (ExtraMethods reg) m) eqn:E4; [|done].
  do 3 right. by apply mem_true.
Qed.


Lemma elem_of_ExpandWildcardMethods reg l m :
  "*"%string ∈ l ->
  m ∈ ExpandWildcardMethods reg l <->
  m <> "*"%string /\ (InWildcardExpansion reg m = true \/ m ∈ l).
Proof.
  intros Hl. unfold ExpandWildcardMethods.
  rewrite (proj2 (contains_true _ _) Hl), elem_of_sort_strings, elem_of_dedup, elem_of_app,
    elem_of_AllAllowedMethods. set_solver.
Qed.
