(* ===== verification/Models.v ===== *)
(** * RBAC data model: [internal/rbac/models.go], and the precompile table of
    [internal/evm/precompile/precompile.go].

    Record fields keep the Go names behind a short prefix; fields that no
    modelled operation reads (names, notes, timestamps, metadata) are left
    out.  A nil slice that the code distinguishes from an empty one
    ([Functions]) is an [option]; a nil pointer is [None]. *)
From S2P Require Import Prelude GoStrings Methods.

(** ** Decoded JSON: Go's [any] as [encoding/json] fills it. *)
Inductive any : Type :=
| ANull
| ABool (b : bool)
| ANum (lit : string)
| AStr (s : string)
| AArr (l : list any)
| AObj (m : gmap string any).

(** Type assertions [v.(string)], [v.(map[string]any)], [v.([]any)] *)
Definition as_str (v : any) : option string := match v with AStr s => Some s | _ => None end.
Definition as_obj (v : any) : option (gmap string any) :=
  match v with AObj m => Some m | _ => None end.
Definition as_arr (v : any) : option (list any) := match v with AArr l => Some l | _ => None end.
Definition is_null (v : any) : bool := match v with ANull => true | _ => false end.

(** [obj[key].(string)] *)
Definition str_field (obj : gmap string any) (key : string) : option string :=
  obj !! key ≫= as_str.

(** ** Claims *)
Notation Claim := string (only parsing).
Definition ClaimAdmin : Claim := "admin".
Definition ClaimUpgrade : Claim := "upgrade".
Definition ClaimDeploy : Claim := "deploy".

Definition AllClaims : list Claim := [ClaimAdmin; ClaimUpgrade; ClaimDeploy].

Definition claimImplications (c : Claim) : list Claim :=
  if decide (c = ClaimAdmin) then [ClaimDeploy; ClaimUpgrade] else [].

(** [ExpandClaims]: the implied claims added, deduplicated and sorted. *)
Definition ExpandClaims (claims : list Claim) : list Claim :=
  sort_strings (dedup [] (concat (map (fun c => c :: claimImplications c) claims))).

Definition hasClaim (claims : list Claim) (target : Claim) : bool := contains claims target.

(** ** Rules *)
Record ParamRule := { pr_Index : Z; pr_MustBe : string }.
Record FunctionRule := { fr_Selector : string; fr_ParamRules : list ParamRule }.
Record EventRule := { er_Topic0 : string; er_Name : string; er_ParamRules : list ParamRule }.
Record EventRulesField := { erf_Wildcard : bool; erf_Rules : list EventRule }.

#[export] Instance ParamRule_eq_dec : EqDecision ParamRule.
Proof. solve_decision. Defined.
#[export] Instance FunctionRule_eq_dec : EqDecision FunctionRule.
Proof. solve_decision. Defined.
#[export] Instance EventRule_eq_dec : EqDecision EventRule.
Proof. solve_decision. Defined.
#[export] Instance EventRulesField_eq_dec : EqDecision EventRulesField.
Proof. solve_decision. Defined.

Definition IsWildcard (f : EventRulesField) : bool := erf_Wildcard f.
Definition IsDeny (f : EventRulesField) : bool :=
  negb (erf_Wildcard f) && bool_decide (erf_Rules f = []).
Definition GetRules (f : EventRulesField) : list EventRule :=
  if erf_Wildcard f then [] else erf_Rules f.

(** ** Entities *)
Record Organization := { o_ID : string; o_Slug : string }.

Record Group := {
  g_ID : string; g_OrgID : string; g_ParentID : option string; g_IsOrgAdmin : bool;
  g_IsSystem : bool }.

Record Contract := {
  c_ID : string; c_OrgID : string; c_Address : string; c_ABI : string;
  c_DeployedByUserID : option string; c_AllowVisibleToUnlock : bool }.

Record ContractGrant := {
  cg_ID : string; cg_ContractID : string; cg_GroupID : string;
  cg_Functions : option (list FunctionRule);
  cg_EventRules : option EventRulesField }.

Record GroupAccess := {
  ga_GroupID : string; ga_AllowedMethods : list string; ga_Claims : list Claim;
  ga_RPCAPIKey : option string }.

Record User := { u_ID : string; u_ExternalID : string; u_KYC : bool; u_Banned : bool }.

Record UserMembership := { um_UserID : string; um_GroupID : string; um_ExpiresAt : option Z }.

Record MembershipWithDetails := {
  md_Membership : option UserMembership; md_Group : option Group }.

Definition DefaultGroupID : string := "00000000-0000-0000-0000-000000000001".
Definition AnonymousGroupID : string := "00000000-0000-0000-0000-000000000002".

(** ** Effective permissions *)
Record ContractAccess := {
  ca_Claims : list Claim;
  ca_Functions : option (list FunctionRule);
  ca_EventRules : option EventRulesField }.

Record EffectivePermissions := {
  ep_ID : string; ep_UserID : string; ep_OrgID : string;
  ep_AllowedMethods : list string;
  ep_ContractAccess : gmap string ContractAccess;
  ep_Claims : list Claim;
  ep_RPCAPIKey : string;
  ep_ComputedAt : Z;
  ep_ExpiresAt : Z }.

(** ** Access check request and result *)
Record AccessCheckRequest := {
  rq_UserExternalID : string;
  rq_OrgSlug : string;
  rq_OrgID : string;
  rq_Method : string;
  rq_AccessMethod : string;
  rq_Params : list any;
  rq_TargetAddress : string;
  rq_FunctionSelector : string;
  rq_Calldata : option (list Ascii.ascii);
  rq_RequiredClaims : list Claim;
  rq_BypassCache : bool }.

Record AccessCheckResult := {
  rs_Allowed : bool;
  rs_AuthRequired : bool;
  rs_Reason : string;
  rs_OrgID : string;
  rs_UserID : string;
  rs_RPCAPIKey : string;
  rs_Claims : list Claim }.

(** [&AccessCheckResult{Allowed: false, Reason: reason}] *)
Definition deny (reason : string) : AccessCheckResult := {|
  rs_Allowed := false; rs_AuthRequired := false; rs_Reason := reason;
  rs_OrgID := ""; rs_UserID := ""; rs_RPCAPIKey := ""; rs_Claims := [] |}.

(** [&AccessCheckResult{Allowed: false, AuthRequired: true, Reason: reason}] *)
Definition deny_auth (reason : string) : AccessCheckResult := {|
  rs_Allowed := false; rs_AuthRequired := true; rs_Reason := reason;
  rs_OrgID := ""; rs_UserID := ""; rs_RPCAPIKey := ""; rs_Claims := [] |}.

Definition EffectiveMethod (r : AccessCheckRequest) : string :=
  if decide (rq_AccessMethod r = "") then rq_Method r else rq_AccessMethod r.

Definition methodsToJudge (r : AccessCheckRequest) : list string :=
  let eff := EffectiveMethod r in
  if decide (eff = rq_Method r) then [rq_Method r] else [eff; rq_Method r].

Definition anyMethodToJudge (r : AccessCheckRequest) (pred : string -> bool) : bool :=
  existsb pred (methodsToJudge r).

(** ** Precompiles *)
Definition PrecompileAddresses : list string := [
  "0x0000000000000000000000000000000000000001";
  "0x0000000000000000000000000000000000000002";
  "0x0000000000000000000000000000000000000003";
  "0x0000000000000000000000000000000000000004";
  "0x0000000000000000000000000000000000000005";
  "0x0000000000000000000000000000000000000006";
  "0x0000000000000000000000000000000000000007";
  "0x0000000000000000000000000000000000000008";
  "0x0000000000000000000000000000000000000009" ]%string.

(** [for len(addr) < 40 { addr = "0" + addr }]: at most 40 rounds. *)
Fixpoint pad_zeros (fuel : nat) (addr : string) : string :=
  match fuel with
  | O => addr
  | S fuel => if Nat.ltb (String.length addr) 40 then pad_zeros fuel ("0" +:+ addr) else addr
  end.

Definition normalizeAddress (addr : string) : string :=
  "0x" +:+ pad_zeros 40 (ToLower (TrimPrefix addr "0x")).

Definition IsPrecompileAddress (addr : string) : bool :=
  contains PrecompileAddresses (normalizeAddress addr).

(** ** Methods of [EffectivePermissions] *)
Section perms.
Variable reg : Registries.
Variable e : EffectivePermissions.

Definition HasMethod (method : string) : bool :=
  if negb (IsForwardableMethod reg method) then false
  else if contains (ep_AllowedMethods e) method then true
  else contains (ep_AllowedMethods e) "*" && InWildcardExpansion reg method.

Definition GetContractAccess (address : string) : option ContractAccess :=
  let addr := ToLower address in
  match ep_ContractAccess e !! addr with
  | Some access => Some access
  | None =>
      if IsPrecompileAddress addr
      then Some {| ca_Claims := []; ca_Functions := None; ca_EventRules := None |}
      else None
  end.

Definition HasContractClaim (address : string) (claim : Claim) : bool :=
  match GetContractAccess address with
  | None => false
  | Some access => contains (ca_Claims access) claim
  end.

Definition IsContractRegistered (address : string) : bool :=
  bool_decide (is_Some (ep_ContractAccess e !! ToLower address)).

Definition HasDefaultClaim (claim : Claim) : bool := contains (ep_Claims e) claim.
End perms.

(** [accessHasFunctionSelector] / [HasFunctionSelector] on a retrieved entry:
    [None] is unrestricted, the empty list denies every function. *)
Definition functionsAllow (fns : option (list FunctionRule)) (selector : string) : bool :=
  match fns with
  | None => true
  | Some rules => existsb (fun rule => EqualFold (fr_Selector rule) selector) rules
  end.

Definition functionsRule (fns : option (list FunctionRule)) (selector : string)
  : option FunctionRule :=
  match fns with
  | None => None
  | Some rules => List.find (fun rule => EqualFold (fr_Selector rule) selector) rules
  end.

Definition HasFunctionSelector (e : EffectivePermissions) (address selector : string) : bool :=
  match GetContractAccess e address with
  | None => false
  | Some access => functionsAllow (ca_Functions access) selector
  end.

Definition GetFunctionRule (e : EffectivePermissions) (address selector : string)
  : option FunctionRule :=
  access ← GetContractAccess e address;
  functionsRule (ca_Functions access) selector.

Definition GetEventRules (e : EffectivePermissions) (address : string) : option EventRulesField :=
  access ← GetContractAccess e address;
  ca_EventRules access.

(** ** Lemmas *)

Lemma elem_of_ExpandClaims cs c :
  c ∈ ExpandClaims cs <->
  c ∈ cs \/ (ClaimAdmin ∈ cs /\ (c = ClaimDeploy \/ c = ClaimUpgrade)).
Proof.
  unfold ExpandClaims. rewrite elem_of_sort_strings, elem_of_dedup.
  assert (H : c ∈ concat (map (fun c => c :: claimImplications c) cs) <->
          exists d, d ∈ cs /\ c ∈ d :: claimImplications d).
  { rewrite list_elem_of_In, in_concat. split.
    - intros (l & (d & <- & Hd)%in_map_iff & Hc). exists d.
      by rewrite !list_elem_of_In.
    - intros (d & Hd & Hc). exists (d :: claimImplications d).
      split; [|by apply list_elem_of_In].
      apply in_map_iff. exists d. by rewrite <- list_elem_of_In. }
  rewrite H. unfold claimImplications. split.
  - intros [(d & Hd & Hc) _]. case_decide; set_solver.
  - intros Hc. split; [|set_solver]. destruct Hc as [Hc|[Ha Hc]].
    + exists c. set_solver.
    + exists ClaimAdmin. split; [done|]. case_decide; set_solver.
Qed.

Lemma functionsRule_allow fns sel r :
  functionsRule fns sel = Some r -> functionsAllow fns sel = true.
Proof.
  destruct fns as [rules|]; simpl; [|done]. intros [H1 H2]%find_some.
  apply existsb_exists. eauto.
Qed.

Lemma EffectiveMethod_judged r : EffectiveMethod r ∈ methodsToJudge r.
Proof. unfold methodsToJudge. case_decide as H; [rewrite H|]; set_solver. Qed.

Lemma Method_judged r : rq_Method r ∈ methodsToJudge r.
Proof. unfold methodsToJudge. case_decide; set_solver. Qed.

Lemma elem_of_methodsToJudge r m :
  m ∈ methodsToJudge r <-> m = rq_Method r \/ m = EffectiveMethod r.
Proof. unfold methodsToJudge. case_decide as H; [rewrite H|]; set_solver. Qed.

Lemma anyMethodToJudge_false r p :
  anyMethodToJudge r p = false <-> p (rq_Method r) = false /\ p (EffectiveMethod r) = false.
Proof.
  unfold anyMethodToJudge. rewrite existsb_false. split.
  - intros H. split; apply H; auto using Method_judged, EffectiveMethod_judged.
  - intros [? ?] x. unfold methodsToJudge. case_decide as E; set_solver.
Qed.

Lemma anyMethodToJudge_true r p :
  anyMethodToJudge r p = true <-> p (rq_Method r) = true \/ p (EffectiveMethod r) = true.
Proof.
  pose proof (anyMethodToJudge_false r p) as H.
  destruct (anyMethodToJudge r p), (p (rq_Method r)), (p (EffectiveMethod r)); naive_solver.
Qed.

Lemma GetContractAccess_ToLower e a : GetContractAccess e (ToLower a) = GetContractAccess e a.
Proof. unfold GetContractAccess. by rewrite ToLower_idemp. Qed.

Lemma IsContractRegistered_ToLower e a :
  IsContractRegistered e (ToLower a) = IsContractRegistered e a.
Proof. unfold IsContractRegistered. by rewrite ToLower_idemp. Qed.

Lemma GetContractAccess_not_registered e a acc :
  GetContractAccess e a = Some acc -> IsContractRegistered e a = false ->
  IsPrecompileAddress (ToLower a) = true /\
  acc = {| ca_Claims := []; ca_Functions := None; ca_EventRules := None |}.
Proof.
  unfold GetContractAccess, IsContractRegistered.
  destruct (ep_ContractAccess e !! ToLower a); [by rewrite bool_decide_eq_true_2|].
  intros H _. destruct (IsPrecompileAddress (ToLower a)); naive_solver.
Qed.

Lemma HasMethod_forwardable reg e m : HasMethod reg e m = true -> IsForwardableMethod reg m = true.
Proof. unfold HasMethod. by destruct (IsForwardableMethod reg m). Qed.

(** ** The interfaces the access controller is written against.

    [Store] is the read side of [internal/rbac/store.go] (the database as one
    request sees it); [ABI] is the part of go-ethereum's [accounts/abi] the
    parameter rules call; [Ctx] is what the code takes from
    [context.Context] and the clock. *)
(** The request context: the instant [time.Now()] returns, and the
    organization an impersonated read is anchored to
    ([internal/viewscope/viewscope.go]). *)
Record Ctx := { ctx_now : Z; ctx_viewscope : option string }.

Class Store := {
  GetUserByExternalID : string -> result (option User);
  GetOrganization : string -> result (option Organization);
  GetOrganizationBySlug : string -> result (option Organization);
  GetContractOwnerOrgID : string -> result string;
  IsAddressPreregistered : string -> string -> result bool;
  GetContractDeployerByAddress : string -> result (option string);
  IsAddressOwnedByOrg : string -> string -> result bool;
  GetContractByAddress : string -> string -> result (option Contract);
  GetContractByAddressGlobal : string -> result (option Contract);
  GetLinkedEthAddresses : string -> result (list string);
  ListActiveUserMembershipsWithDetails : string -> result (list MembershipWithDetails);
  ListUserMembershipsInOrg : string -> string -> result (list MembershipWithDetails);
  ListContracts : string -> result (list Contract);
  GetGroupAccess : string -> result (option GroupAccess);
  GetGroupAccessBatch : list string -> result (gmap string GroupAccess);
  ListContractGrantsBatch : list string -> result (gmap string (list ContractGrant));
  GetContractsByIDs : list string -> result (gmap string Contract);
  (** The optional [OrgAdminChecker] extension; [None] when the store does not
      implement it. *)
  IsOrgAdmin : option (string -> result bool)
}.

(** Values an ABI decoder returns: [common.Address], or a value of another Go
    type, of which only the type name is observed. *)
Inductive abi_value := VAddress (bytes : list Ascii.ascii) | VOther (ty : string).

Class ABI := {
  ParsedABI : Type;
  ABIMethod : Type;
  abi_JSON : string -> result ParsedABI;
  MethodById : ParsedABI -> list Ascii.ascii -> result ABIMethod;
  Unpack : ABIMethod -> list Ascii.ascii -> result (list abi_value)
}.

(** [strings.ToLower(addr.Hex())] *)
Definition addr_hex_lower (bytes : list Ascii.ascii) : string := "0x" +:+ EncodeToString bytes.
