(* ===== verification/Requests.v ===== *)
(** * Request classification: what a JSON-RPC request asks for.

    The parsing and classification functions of [internal/rbac/access.go],
    [storage_slots.go] and [state_overrides.go]: call shape, deployment
    detection, target and selector extraction, the Multicall detector, the
    historical-state guard, the storage-slot tier and the simulation-override
    policy.  All of them are total functions of the method name and of the
    decoded parameters. *)
From S2P Require Import Prelude GoStrings Methods Models.
Local Open Scope string_scope.

(** [params[0].(map[string]any)] *)
Definition first_obj (params : list any) : option (gmap string any) :=
  params !! 0 ≫= as_obj.

(** ** Multicall *)
Definition MulticallAddresses : list string := [
  "0xca11bde05977b3631167028862be2a173976ca11";
  "0x5ba1e12693dc8f9c48aad8770482f4739beed696";
  "0xeefba1e63905ef1d7acba5a8513c70307c1ce441" ].

Definition MulticallSelectors : list string := [
  "0x252dba42"; "0x82ad56cb"; "0x174dea71"; "0xc3077fa9"; "0xbce38bd7"; "0x399542e9" ].

Definition IsMulticallTarget (address : string) : bool :=
  contains MulticallAddresses (ToLower address).

Definition IsMulticallData (data : string) : bool :=
  if Nat.ltb (String.length data) 10 then false
  else contains MulticallSelectors (ToLower (take_str 10 data)).

(** [Some reason] is [(true, reason)]. *)
Definition DetectMulticall (method : string) (params : list any) : option string :=
  if negb (contains ["eth_call"; "eth_estimateGas"; "eth_sendTransaction"] method) then None
  else match first_obj params with
  | None => None
  | Some callObj =>
      match str_field callObj "to" with
      | None => None
      | Some to =>
          if decide (to = "") then None
          else if negb (IsMulticallTarget to) then None
          else
            let data :=
              match str_field callObj "data" with
              | Some d => if decide (d = "" \/ d = "0x") then str_field callObj "input" else Some d
              | None => str_field callObj "input"
              end in
            match data with
            | None => None
            | Some d =>
                if decide (d = "") then None
                else if IsMulticallData d
                then Some ("multicall to " +:+ to +:+ " detected - inner calls cannot be validated")
                else None
            end
      end
  end.

(** ** Call shapes *)
Inductive CallShape := CallShapeAbsent | CallShapeTargeted | CallShapeCreation | CallShapeMalformed.
#[export] Instance CallShape_eq_dec : EqDecision CallShape.
Proof. solve_decision. Defined.

Definition callShapeFields : list string := ["to"; "from"; "data"; "input"; "value"].

Definition normalizeCallHex (s : string) : string :=
  let s := ToLower (TrimSpace s) in if decide (s = "0x") then "" else s.

Definition isCreationTo (to : string) : bool :=
  let to := ToLower (TrimSpace to) in bool_decide (to = "" \/ to = "0x").

Definition callDataAndInputDiffer (callObj : gmap string any) : bool :=
  match callObj !! "data", callObj !! "input" with
  | Some data, Some input =>
      if is_null data || is_null input then false
      else match as_str data, as_str input with
           | Some d, Some i => negb (bool_decide (normalizeCallHex d = normalizeCallHex i))
           | _, _ => true
           end
  | _, _ => false
  end.

(** Some key differs from a field the proxy reads only in letter case. *)
Definition hasCaseVariantKey (callObj : gmap string any) : bool :=
  existsb (fun '(key, _) =>
    existsb (fun field => negb (bool_decide (key = field)) && EqualFold key field) callShapeFields)
    (map_to_list callObj).

Definition ClassifyCallShape (params : list any) : CallShape :=
  match params with
  | [] => CallShapeAbsent
  | p :: _ =>
      match as_obj p with
      | None => CallShapeMalformed
      | Some callObj =>
          if hasCaseVariantKey callObj then CallShapeMalformed
          else if callDataAndInputDiffer callObj then CallShapeMalformed
          else match callObj !! "to" with
          | None | Some ANull => CallShapeCreation
          | Some (AStr to) => if isCreationTo to then CallShapeCreation else CallShapeTargeted
          | Some _ => CallShapeMalformed
          end
      end
  end.

Definition callLikeLower : list string :=
  ["eth_sendtransaction"; "eth_estimategas"; "eth_call"; "eth_createaccesslist"].

Definition IsContractDeployment (method : string) (params : list any) : bool :=
  if negb (contains callLikeLower (ToLower (TrimSpace method))) then false
  else match ClassifyCallShape params with
       | CallShapeCreation | CallShapeMalformed => true
       | _ => false
       end.

(** [""] is "no claim required". *)
Definition ClassifyOperation (method : string) (params : list any) : Claim :=
  let method := ToLower (TrimSpace method) in
  if IsContractDeployment method params then ClaimDeploy else "".

Definition extractDeploymentBytecode (method : string) (params : list any) : string :=
  if negb (contains callLikeLower (ToLower method)) then ""
  else match first_obj params with
  | None => ""
  | Some txObj =>
      let usable k := match str_field txObj k with
                      | Some d => if decide (normalizeCallHex d = "") then None else Some d
                      | None => None
                      end in
      match usable "data" with
      | Some d => d
      | None => default "" (usable "input")
      end
  end.

(** [None] is Go's nil. *)
Definition extractCalldata (method : string) (params : list any) : option (list Ascii.ascii) :=
  if negb (contains ["eth_sendTransaction"; "eth_call"; "eth_estimateGas"] method) then None
  else match first_obj params with
  | None => None
  | Some txObj =>
      let usable k := match str_field txObj k with
                      | Some d => if decide (d = "" \/ d = "0x") then None else Some d
                      | None => None
                      end in
      let hexData := match usable "data" with Some d => d | None => default "" (usable "input") end in
      if decide (hexData = "") then None else DecodeString (TrimPrefix hexData "0x")
  end.

Definition isBasicAddressQuery (method : string) : bool :=
  contains ["eth_getBalance"; "eth_getTransactionCount"] method.

Definition isValueTransferParams (params : list any) : bool :=
  match first_obj params with
  | None => false
  | Some txObj =>
      let hasCalldata k := match str_field txObj k with
                           | Some d => let d := TrimSpace d in
                               negb (bool_decide (d = "" \/ d = "0x" \/ d = "0X"))
                           | None => false
                           end in
      if hasCalldata "data" then false
      else if hasCalldata "input" then false
      else true
  end.

Definition GetTargetAddress (method : string) (params : list any) : string :=
  if contains ["eth_call"; "eth_estimateGas"; "eth_createAccessList"] method then
    match first_obj params ≫= fun callObj => str_field callObj "to" with
    | Some to => if isCreationTo to then "" else ToLower to
    | None => ""
    end
  else if contains ["eth_sendTransaction"] method then
    match first_obj params ≫= fun txObj => str_field txObj "to" with
    | Some to => let addr := ToLower (TrimSpace to) in
                 if decide (addr = "0x" \/ addr = "") then "" else addr
    | None => ""
    end
  else if contains ["eth_getCode"; "eth_getStorageAt"; "eth_getBalance";
                    "eth_getTransactionCount"; "eth_getProof"] method then
    match params !! 0 ≫= as_str with Some addr => ToLower addr | None => "" end
  else if contains ["eth_getLogs"] method then
    match first_obj params ≫= fun filter => filter !! "address" with
    | Some (AStr addr) => ToLower addr
    | Some (AArr (AStr s :: _)) => ToLower s
    | _ => ""
    end
  else "".

(** ** Historical state *)
Definition extractBlockParam (method : string) (params : list any) : string :=
  match params with
  | [] => "latest"
  | _ =>
      let m := ToLower method in
      let idx :=
        if contains ["eth_call"; "eth_getbalance"; "eth_getcode"; "eth_gettransactioncount"] m
        then Some 1
        else if contains ["eth_getstorageat"; "eth_getproof"] m then Some 2
        else if decide (m = "debug_tracecall") then Some 1
        else None in
      match idx with
      | None => "latest"
      | Some i =>
          match params !! i with
          | None | Some ANull => "latest"
          | Some (AStr s) => if decide (s = "") then "latest" else s
          | Some _ => "historical"
          end
      end
  end.

Definition isHistoricalBlock (blockParam : string) : bool :=
  if decide (blockParam = "") then false
  else negb (contains ["latest"; "pending"; "safe"; "finalized"; "earliest"] (ToLower blockParam)).

Definition historicalCheckMethods : list string := [
  "eth_call"; "eth_getstorageat"; "eth_getbalance"; "eth_getcode"; "eth_gettransactioncount";
  "eth_getproof"; "debug_tracecall" ].

Definition historicalReason : string := "historical state queries not permitted".

Definition IsHistoricalStateQuery (method : string) (params : list any) : bool :=
  let method := ToLower (TrimSpace method) in
  if negb (contains historicalCheckMethods method) then false
  else isHistoricalBlock (extractBlockParam method params).

Definition historicalStateQuery (r : AccessCheckRequest) : bool :=
  existsb (fun m => IsHistoricalStateQuery m (rq_Params r)) (methodsToJudge r).

Definition GetFunctionSelector (method : string) (params : list any) : string :=
  if contains ["eth_call"; "eth_estimateGas"; "eth_sendTransaction"] method then
    match first_obj params with
    | None => ""
    | Some callObj =>
        let sel k := match str_field callObj k with
                     | Some d => if Nat.leb 10 (String.length d)
                                 then Some (ToLower (take_str 10 d)) else None
                     | None => None
                     end in
        match sel "data" with Some s => s | None => default "" (sel "input") end
    end
  else "".

Definition extractGetLogsAddresses (filter : gmap string any) : list string :=
  match filter !! "address" with
  | Some (AStr addr) => if decide (addr = "") then [] else [ToLower addr]
  | Some (AArr l) =>
      concat (map (fun a => match as_str a with
                     | Some addr => if decide (addr = "") then [] else [ToLower addr]
                     | None => []
                     end) l)
  | _ => []
  end.

(** ** Storage reads *)
Definition erc1967Slots : list string := [
  "0x360894a13ba1a3210667c828492db98dca3e2076cc3735a920a3ca505d382bbc";
  "0xb53127684a568b3173ae13b9f8a6016e243e63b6e8ee1178d6a717850b5d6103";
  "0xa3f0ad74e5423aebfd80d3ef4346578335a9a72aeaee59ff6cb3582b35133d50" ].

Definition diamondStorageSlot : string :=
  "0xc8fcad8db84d3cc18b4c41d551ea0ee66dd599cde068d998e57d5e09332c131c".

Definition WellKnownStorageSlots : list string :=
  map ToLower erc1967Slots ++ [ToLower diamondStorageSlot].

Definition IsWellKnownStorageSlot (slot : string) : bool :=
  if decide (slot = "") then false
  else
    let slot := ToLower (TrimSpace slot) in
    let slot := if HasPrefix slot "0x" then slot else "0x" +:+ slot in
    contains WellKnownStorageSlots slot.

Definition extractStorageSlot (params : list any) : string :=
  default "" (params !! 1 ≫= as_str).

(** Every element must be a string: [None] is [(nil, false)]. *)
Definition extractProofStorageKeys (params : list any) : option (list string) :=
  l ← params !! 1 ≫= as_arr; mapM as_str l.

Definition isStorageReadMethod (method : string) : bool :=
  contains ["eth_getStorageAt"; "eth_getProof"] method.

Definition requestedStorageKeys (method : string) (params : list any) : option (list string) :=
  if decide (method = "eth_getStorageAt") then Some [extractStorageSlot params]
  else if decide (method = "eth_getProof") then extractProofStorageKeys params
  else None.

(** ** Simulation overrides *)
Inductive overrideKind := overrideKindState | overrideKindBlock | overrideKindMalformed.

Definition eip1898BlockKeys : list string := ["blockNumber"; "blockHash"; "requireCanonical"].

Definition debugOverrideKeys : list (string * overrideKind) := [
  ("stateOverrides", overrideKindState); ("stateOverride", overrideKindState);
  ("blockOverrides", overrideKindBlock); ("blockOverride", overrideKindBlock);
  ("txIndex", overrideKindBlock) ].

Definition keyFoldsTo (key name : string) : bool :=
  EqualFold key name || bool_decide (ToLower key = ToLower name).

Definition isEIP1898BlockKey (key : string) : bool := existsb (EqualFold key) eip1898BlockKeys.

Definition classifyBlockRefSlot (params : list any) (idx : nat) : option overrideKind :=
  match params !! idx with
  | None | Some ANull => None
  | Some (AStr _) => None
  | Some (AObj m) =>
      if forallb (fun '(key, _) => isEIP1898BlockKey key) (map_to_list m) then None
      else Some overrideKindState
  | Some _ => Some overrideKindMalformed
  end.

Definition classifyOverrideValue (v : any) (kind : overrideKind) : option overrideKind :=
  match v with
  | ANull => None
  | AObj m => if decide (m = ∅) then None else Some kind
  | _ => Some overrideKindMalformed
  end.

Definition classifyOverrideSlot (params : list any) (idx : nat) (kind : overrideKind)
  : option overrideKind :=
  match params !! idx with
  | None => None
  | Some v => classifyOverrideValue v kind
  end.

(** First [Some] of two denials, the second evaluated only after the first. *)
Definition orElse {A} (a b : option A) : option A := match a with Some _ => a | None => b end.

Definition maxOverrideAwareParams : nat := 4.

Definition detectStateOverrideForMethod (resolved : string) (params : list any)
  : option overrideKind :=
  if contains ["eth_call"; "eth_estimateGas"; "eth_createAccessList"] resolved then
    if Nat.ltb maxOverrideAwareParams (length params) then Some overrideKindMalformed
    else orElse (classifyBlockRefSlot params 1)
      (match decide (resolved = "eth_createAccessList"), params !! 2 with
       | left _, Some (ABool _) => classifyOverrideSlot params 3 overrideKindBlock
       | _, _ => orElse (classifyOverrideSlot params 2 overrideKindState)
                        (classifyOverrideSlot params 3 overrideKindBlock)
       end)
  else if decide (resolved = "debug_traceCall") then
    match params !! 2 ≫= as_obj with
    | None => None
    | Some cfg =>
        snd <$> List.find (fun '(name, _) =>
          existsb (fun '(key, _) => keyFoldsTo key name) (map_to_list cfg)) debugOverrideKeys
    end
  else None.

Definition DetectStateOverride (reg : Registries) (method : string) (params : list any)
  : option overrideKind :=
  let raw := CanonicalizeMethod method in
  orElse (detectStateOverrideForMethod raw params)
    (let resolved := CanonicalizeMethod (ResolveMethodAlias reg raw) in
     if decide (resolved = raw) then None
     else detectStateOverrideForMethod resolved params).

(** ** Properties of the method gates and of request classification.

    The gates hold for every registry a server can reach, the wildcard means
    the same before and after expansion, the target extraction and the call
    shape agree (so that no executing call escapes the contract gate), and the
    override detector accepts only parameters without overrides. *)
From S2P Require Import Prelude GoStrings Methods Models.

(** whatever namespaces, aliases and passthrough names an operator
    registers before arming, a forwardable method is never on the block list;
    it is a catalogue method, a validated operator name, or a validated alias
    whose target is a catalogue method outside the special-dispatch set. *)
Theorem forwardable_methods_are_safe reg m :
  registries_reachable reg -> IsForwardableMethod reg m = true ->
  IsMethodBlocked m = false /\
  (IsCatalogMethod m = true \/
   ValidateExtraMethod m = Ok tt /\
   (m ∈ PassthroughMethods reg \/
    exists t, MethodAliases reg !! m = Some t /\ IsCatalogMethod t = true /\
              IsMethodBlocked t = false /\ t ∉ specialDispatchMethods)).
Proof.
  intros Hwf%registries_reachable_wf Hf. split; [by apply (forwardable_not_blocked reg)|].
  apply IsForwardableMethod_true in Hf as [Hf|[Hf|(t & Ht & Hv)]]; [by left|right..].
  - split; [by apply (wf_passthrough _ Hwf)|by left].
  - split; [by apply (wf_alias _ Hwf) in Ht as [? _]|]. right. exists t.
    apply ValidateAliasTarget_Ok in Hv as [Hc Hs].
    split_and!; [assumption..|by apply IsCatalogMethod_not_blocked|assumption].
Qed.

(** Granting exactly the methods [ms]. *)
Definition withMethods (e : EffectivePermissions) (ms : list string) : EffectivePermissions := {|
  ep_ID := ep_ID e; ep_UserID := ep_UserID e; ep_OrgID := ep_OrgID e;
  ep_AllowedMethods := ms; ep_ContractAccess := ep_ContractAccess e; ep_Claims := ep_Claims e;
  ep_RPCAPIKey := ep_RPCAPIKey e; ep_ComputedAt := ep_ComputedAt e; ep_ExpiresAt := ep_ExpiresAt e |}.

Lemma HasMethod_true reg e m :
  HasMethod reg e m = true <->
  IsForwardableMethod reg m = true /\
  (m ∈ ep_AllowedMethods e \/
   "*" ∈ ep_AllowedMethods e /\ InWildcardExpansion reg m = true).
Proof.
  unfold HasMethod. destruct (IsForwardableMethod reg m); cbn [negb];
    [|split; [intros Hx; discriminate Hx|intros [Hx _]; discriminate Hx]].
  rewrite <- !contains_true. destruct (contains _ m); [tauto|].
  rewrite andb_true_iff. split; [tauto|]. intros [_ [Hx|Hx]]; [discriminate Hx|exact Hx].
Qed.

(** the wildcard is a closed list.  Its expansion is sorted and
    duplicate-free, holds exactly the methods a star grants, and storing the
    expansion instead of the star changes no decision for any registry the
    server can reach. *)
Theorem wildcard_expansion_exact reg e ms m :
  registries_reachable reg ->
  Sorted strle (AllAllowedMethods reg) /\ NoDup (AllAllowedMethods reg) /\
  (m ∈ AllAllowedMethods reg <-> InWildcardExpansion reg m = true) /\
  HasMethod reg (withMethods e (ExpandWildcardMethods reg ms)) m =
  HasMethod reg (withMethods e ms) m.
Proof.
  intros Hwf%registries_reachable_wf. split_and!.
  - apply Sorted_sort_strings.
  - apply NoDup_sort_strings, NoDup_filter, NoDup_dedup.
  - apply elem_of_AllAllowedMethods.
  - apply eq_true_iff_eq. rewrite !HasMethod_true. cbn [withMethods ep_AllowedMethods].
    destruct (decide ("*" ∈ ms)) as [Hs|Hs].
    + rewrite !(elem_of_ExpandWildcardMethods reg ms) by exact Hs.
      pose proof (star_not_forwardable reg Hwf) as Hstar. split.
      * intros [Hf [(_ & [Hi|Hm])|((Hx & _) & _)]]; [..|by destruct Hx]; split; auto.
      * intros [Hf Hm]. split; [exact Hf|]. left. split.
        -- intros ->. rewrite Hf in Hstar. discriminate Hstar.
        -- destruct Hm as [Hm|[_ Hm]]; auto.
    + unfold ExpandWildcardMethods. by rewrite (proj2 (contains_false _ _) Hs).
Qed.

(** ** Call shapes and targets *)

Lemma case_map_nil two img s : case_map two img s = "" -> s = "".
Proof.
  destruct s as [|a s]; [done|]. simpl. destruct s as [|b s]; [done|].
  destruct (two a b); [done|]. destruct s as [|c s]; [done|]. by destruct (is_kelvin a b c).
Qed.

Lemma ToLower_nil s : ToLower s = "" -> s = "".
Proof. apply case_map_nil. Qed.

Lemma isCreationTo_false to :
  isCreationTo to = false -> ToLower (TrimSpace to) <> "" /\ ToLower (TrimSpace to) <> "0x" /\
                             ToLower to <> "".
Proof.
  unfold isCreationTo. intros Hc%bool_decide_eq_false. split_and!; [tauto|tauto|].
  intros ->%ToLower_nil. apply Hc. by left.
Qed.

Definition executing : list string :=
  ["eth_call"; "eth_estimateGas"; "eth_createAccessList"; "eth_sendTransaction"].

Lemma executing_callLike m : m ∈ executing -> contains callLikeLower (ToLower (TrimSpace m)) = true.
Proof.
  unfold executing. rewrite !elem_of_cons. intros [->|[->|[->|[->|Hm]]]]; [reflexivity..|set_solver].
Qed.

(** The target of an executing method, in one form for the two branches. *)
Lemma GetTargetAddress_executing m params :
  m ∈ executing ->
  match ClassifyCallShape params with
  | CallShapeTargeted => GetTargetAddress m params <> ""
  | CallShapeCreation | CallShapeAbsent => GetTargetAddress m params = ""
  | CallShapeMalformed => True
  end.
Proof.
  intros Hm. unfold ClassifyCallShape, GetTargetAddress, first_obj.
  destruct params as [|p ps]; simpl.
  { unfold executing in Hm. rewrite !elem_of_cons in Hm.
    destruct Hm as [->|[->|[->|[->|Hm]]]]; [reflexivity..|set_solver]. }
  destruct p as [| | | | |obj]; simpl; try done.
  destruct (hasCaseVariantKey obj); [done|]. destruct (callDataAndInputDiffer obj); [done|].
  unfold str_field. unfold executing in Hm. rewrite !elem_of_cons in Hm.
  destruct (obj !! "to") as [v|] eqn:Eto; simpl.
  2: { destruct Hm as [->|[->|[->|[->|Hm]]]]; [reflexivity..|set_solver]. }
  destruct v as [| | |to| |]; simpl; try done.
  { destruct Hm as [->|[->|[->|[->|Hm]]]]; [reflexivity..|set_solver]. }
  destruct (isCreationTo to) eqn:Ec.
  - assert (Hc := Ec). unfold isCreationTo in Hc. apply bool_decide_eq_true in Hc.
    destruct Hm as [->|[->|[->|[->|Hm]]]]; [reflexivity..| |set_solver]. simpl.
    rewrite decide_True; [done|]. tauto.
  - apply isCreationTo_false in Ec as (H1 & H2 & H3).
    destruct Hm as [->|[->|[->|[->|Hm]]]]; [exact H3..| |set_solver]. simpl.
    rewrite decide_False; [done|]. tauto.
Qed.

(** call shape and target extraction agree.  For every executing method
    with a transaction object, either the request is classified as a
    deployment (and needs the deploy claim), or a non-empty target address is
    extracted (and the contract gate runs): no execution escapes both. *)
Theorem executing_call_is_gated m params :
  m ∈ executing -> params <> [] ->
  (IsContractDeployment m params = true \/ GetTargetAddress m params <> "") /\
  (ClassifyCallShape params = CallShapeCreation -> GetTargetAddress m params = "") /\
  (IsContractDeployment m params = false -> ClassifyCallShape params = CallShapeTargeted).
Proof.
  intros Hm Hp. pose proof (GetTargetAddress_executing m params Hm) as Ht.
  unfold IsContractDeployment. rewrite (executing_callLike m Hm). cbn [negb].
  destruct (ClassifyCallShape params) eqn:Es.
  - exfalso. revert Es. unfold ClassifyCallShape. destruct params as [|p ps]; [done|].
    destruct (as_obj p); [|done]. repeat (case_match; try done).
  - split_and!; [by right|done|done].
  - split_and!; [by left|done|done].
  - split_and!; [by left|done|done].
Qed.

(** ** Overrides *)

(** A block reference: absent, null, a tag or number, or an EIP-1898 object. *)
Definition block_ref (params : list any) (i : nat) : Prop :=
  match params !! i with
  | None | Some ANull | Some (AStr _) => True
  | Some (AObj m) => forall k v, m !! k = Some v -> isEIP1898BlockKey k = true
  | Some _ => False
  end.

(** No override: absent, null or the empty object. *)
Definition no_override (params : list any) (i : nat) : Prop :=
  match params !! i with
  | None | Some ANull => True
  | Some (AObj m) => m = ∅
  | Some _ => False
  end.

Lemma orElse_None {A} (a b : option A) : orElse a b = None <-> a = None /\ b = None.
Proof. destruct a; naive_solver. Qed.

Lemma classifyBlockRefSlot_None params i : classifyBlockRefSlot params i = None <-> block_ref params i.
Proof.
  unfold classifyBlockRefSlot, block_ref. destruct (params !! i) as [[| | | | |m]|]; try done.
  destruct (forallb _ _) eqn:E.
  - split; [|done]. intros _ k v Hk%elem_of_map_to_list. rewrite forallb_true in E.
    by apply (E (k, v)).
  - split; [done|]. intros Hk. exfalso. apply not_true_iff_false in E. apply E.
    apply forallb_true. intros [k v] Hv%elem_of_map_to_list. by eapply Hk.
Qed.

Lemma classifyOverrideSlot_None params i kind :
  classifyOverrideSlot params i kind = None <-> no_override params i.
Proof.
  unfold classifyOverrideSlot, no_override, classifyOverrideValue.
  destruct (params !! i) as [[| | | | |m]|]; try done. case_decide; naive_solver.
Qed.

(** the override detector is exact for calls and gas estimates: nothing is
    detected exactly when there are at most four parameters, the second is a
    plain block reference and the override slots are absent, null or empty. *)
Theorem state_override_detection_exact reg m params :
  contains ["eth_call"; "eth_estimateGas"] m = true -> MethodAliases reg !! m = None ->
  DetectStateOverride reg m params = None <->
  length params <= 4 /\ block_ref params 1 /\ no_override params 2 /\ no_override params 3.
Proof.
  intros Hm Ha. apply contains_true in Hm. rewrite !elem_of_cons in Hm.
  assert (Hcases : m = "eth_call" \/ m = "eth_estimateGas") by set_solver. clear Hm.
  assert (Hin : contains ["eth_call"; "eth_estimateGas"; "eth_createAccessList"] m = true).
  { destruct Hcases as [->| ->]; reflexivity. }
  assert (Hne : m <> "eth_createAccessList") by (destruct Hcases as [->| ->]; discriminate).
  assert (Hc : CanonicalizeMethod m = m) by (destruct Hcases as [->| ->]; vm_compute; reflexivity).
  unfold DetectStateOverride, ResolveMethodAlias. rewrite Hc, Ha. cbn [default]. rewrite Hc.
  clear Hc Ha Hcases. rewrite orElse_None, (decide_True (P := m = m)) by reflexivity.
  unfold detectStateOverrideForMethod. rewrite Hin.
  destruct (Nat.ltb_spec maxOverrideAwareParams (length params)) as [Hl|Hl];
    unfold maxOverrideAwareParams in Hl.
  - split; [intros [Hx _]; discriminate Hx|]. lia.
  - destruct (decide (m = "eth_createAccessList")); [done|].
    rewrite !orElse_None, classifyBlockRefSlot_None, !classifyOverrideSlot_None. tauto.
Qed.

(** The parameters of a gas estimate carry a block reference that the
    historical-state guard does not read. *)
Example estimateGas_block_not_guarded :
  IsHistoricalStateQuery "eth_estimateGas" [AObj ∅; AStr "0x1"] = false /\
  IsHistoricalStateQuery "eth_createAccessList" [AObj ∅; AStr "0x1"] = false /\
  IsHistoricalStateQuery "eth_call" [AObj ∅; AStr "0x1"] = true.
Proof. vm_compute. auto. Qed.
