(* ===== verification/OrgContext.v ===== *)
(** * Cross-organization isolation: [internal/rbac/org_context.go]

    [OrgContext] is built once per request from the caller's active
    memberships and the owner of the target address; it is the single place
    where membership in the owning organization is decided. *)
From S2P Require Import Prelude GoStrings Methods Models.
Local Open Scope string_scope.

Definition ErrContractAccessDenied : string := "contract access denied".

Record OrgContext := {
  oc_org : option Organization;
  oc_user : User;
  oc_userOrgIDs : gset string;
  oc_ownerOrgCache : gmap string string
}.

Section with_store.
Context `{Store}.
Variable ctx : Ctx.

(** The organizations of the groups the caller is an active member of. *)
Definition membershipOrgIDs (ms : list MembershipWithDetails) : gset string :=
  list_to_set (concat (map (fun m => match md_Group m with
                                     | Some g => [g_OrgID g]
                                     | None => []
                                     end) ms)).

Definition GetUserOrgIDs (userID : string) : result (gset string) :=
  memberships ← ListActiveUserMembershipsWithDetails userID;
  Ok (membershipOrgIDs memberships).

Definition scopeUserOrgIDs (orgIDs : gset string) : gset string :=
  match ctx_viewscope ctx with
  | None => orgIDs
  | Some orgID =>
      if negb (bool_decide (orgID = "")) && mem orgIDs orgID then {[orgID]} else ∅
  end.

Definition NewOrgContext (user : User) (targetAddress : string) : result OrgContext :=
  userOrgIDs ← wrap "failed to get user organizations" (GetUserOrgIDs (u_ID user));
  let userOrgIDs := scopeUserOrgIDs userOrgIDs in
  if decide (targetAddress = "") then
    Ok {| oc_org := None; oc_user := user; oc_userOrgIDs := userOrgIDs; oc_ownerOrgCache := ∅ |}
  else
    let addr := ToLower (TrimSpace targetAddress) in
    ownerOrgID ← wrap "failed to get contract owner" (GetContractOwnerOrgID addr);
    let cache := {[addr := ownerOrgID]} in
    if decide (ownerOrgID = "") then
      Ok {| oc_org := None; oc_user := user; oc_userOrgIDs := userOrgIDs;
            oc_ownerOrgCache := cache |}
    else if negb (mem userOrgIDs ownerOrgID) then Err ErrContractAccessDenied
    else
      org ← wrap "failed to get organization" (GetOrganization ownerOrgID);
      Ok {| oc_org := org; oc_user := user; oc_userOrgIDs := userOrgIDs;
            oc_ownerOrgCache := cache |}.

Definition NewOrgContextForOrg (user : User) (orgID : string) : result OrgContext :=
  userOrgIDs ← wrap "failed to get user organizations" (GetUserOrgIDs (u_ID user));
  let userOrgIDs := scopeUserOrgIDs userOrgIDs in
  if negb (mem userOrgIDs orgID) then Err ("user is not a member of organization " +:+ orgID)
  else
    org ← wrap "failed to get organization" (GetOrganization orgID);
    Ok {| oc_org := org; oc_user := user; oc_userOrgIDs := userOrgIDs; oc_ownerOrgCache := ∅ |}.

Definition OrgID (oc : OrgContext) : string :=
  match oc_org oc with None => "" | Some org => o_ID org end.

Definition IsPublicContext (oc : OrgContext) : bool :=
  match oc_org oc with None => true | Some _ => false end.

Definition UserBelongsToOrg (oc : OrgContext) : bool :=
  match oc_org oc with None => true | Some org => mem (oc_userOrgIDs oc) (o_ID org) end.

(** [OwnerOrgID]: the memo table is the mutable part of the context. *)
Definition OwnerOrgID (addr : string) : stM OrgContext string := fun oc =>
  let key := ToLower (TrimSpace addr) in
  match oc_ownerOrgCache oc !! key with
  | Some v => (Ok v, oc)
  | None =>
      match GetContractOwnerOrgID key with
      | Err e => (Err e, oc)
      | Ok v => (Ok v, {| oc_org := oc_org oc; oc_user := oc_user oc;
                          oc_userOrgIDs := oc_userOrgIDs oc;
                          oc_ownerOrgCache := <[key := v]> (oc_ownerOrgCache oc) |})
      end
  end.

(** The checks below return the denial text; [None] is a nil error. *)
Definition CheckAddressInScope (oc : OrgContext) (address : string) : option string :=
  let addr := ToLower (TrimSpace address) in
  if decide (addr = "") then None
  else match GetContractOwnerOrgID addr with
  | Err e => Some ("failed to check contract owner: " +:+ e)
  | Ok ownerOrgID =>
      if decide (ownerOrgID = "") then
        if IsPrecompileAddress addr then None else Some ErrContractAccessDenied
      else if negb (mem (oc_userOrgIDs oc) ownerOrgID) then Some ErrContractAccessDenied
      else None
  end.

Fixpoint CheckMultiAddressesInScope (oc : OrgContext) (addresses : list string) : option string :=
  match addresses with
  | [] => None
  | addr :: rest =>
      match CheckAddressInScope oc addr with
      | Some e => Some e
      | None => CheckMultiAddressesInScope oc rest
      end
  end.

Definition CheckDefaultClaimsAllowed (address : string) (hasExplicitAccess : bool)
  : option string :=
  if hasExplicitAccess then None
  else
    let addr := ToLower (TrimSpace address) in
    if decide (addr = "") then None
    else match GetContractOwnerOrgID addr with
    | Err e => Some ("failed to check contract ownership: " +:+ e)
    | Ok ownerOrgID =>
        if bool_decide (ownerOrgID = "") && IsPrecompileAddress addr then None
        else Some ErrContractAccessDenied
    end.

(** ** Invariant

    The memo never disagrees with the store, and the scoped organizations are
    a subset of the caller's active memberships. *)
Record oc_ok (oc : OrgContext) : Prop := {
  oc_memo_ok : forall k v, oc_ownerOrgCache oc !! k = Some v -> GetContractOwnerOrgID k = Ok v;
  oc_orgs_ok : exists ids, GetUserOrgIDs (u_ID (oc_user oc)) = Ok ids /\
                 oc_userOrgIDs oc = scopeUserOrgIDs ids
}.

Lemma scopeUserOrgIDs_subseteq ids : scopeUserOrgIDs ids ⊆ ids.
Proof.
  unfold scopeUserOrgIDs. destruct (ctx_viewscope ctx) as [o|]; [|done].
  destruct (negb _ && mem ids o) eqn:E; [|set_solver].
  apply andb_true_iff in E as [_ ?%mem_true]. set_solver.
Qed.

Lemma scopeUserOrgIDs_scoped ids o :
  ctx_viewscope ctx = Some o -> scopeUserOrgIDs ids ⊆ {[o]}.
Proof. unfold scopeUserOrgIDs. intros ->. case_match; set_solver. Qed.

(** What a successful construction establishes for the target address. *)
Lemma NewOrgContext_Ok user target oc :
  NewOrgContext user target = Ok oc ->
  oc_ok oc /\ oc_user oc = user /\
  (target = "" -> oc_org oc = None) /\
  (target <> "" -> exists owner,
     GetContractOwnerOrgID (ToLower (TrimSpace target)) = Ok owner /\
     (owner = "" -> oc_org oc = None) /\
     (owner <> "" -> owner ∈ oc_userOrgIDs oc /\ GetOrganization owner = Ok (oc_org oc))).
Proof.
  unfold NewOrgContext. intros (ids & Hids & Hoc)%bind_Ok. apply wrap_Ok in Hids.
  destruct (decide (target = "")) as [->|Ht].
  - simplify_eq/=. split; [|by split_and!]. split; simpl; [|eauto].
    intros k v. by rewrite lookup_empty.
  - apply bind_Ok in Hoc as (owner & Ho%wrap_Ok & Hoc).
    assert (Hm : forall k v, ({[ToLower (TrimSpace target) := owner]} : gmap string string) !! k = Some v ->
                  GetContractOwnerOrgID k = Ok v).
    { intros k v [<- <-]%lookup_singleton_Some. done. }
    destruct (decide (owner = "")) as [->|Hne].
    { simplify_eq/=. split; [split; simpl; eauto|].
      split_and!; [done|done|]. intros _. exists "". naive_solver. }
    destruct (mem (scopeUserOrgIDs ids) owner) eqn:Hmem; simpl in Hoc; [|done].
    apply bind_Ok in Hoc as (org & Hg%wrap_Ok & Hoc). simplify_eq/=.
    split; [split; simpl; eauto|]. split_and!; [done|done|]. intros _. exists owner.
    split_and!; [done|done|]. intros _. split; [by apply mem_true|done].
Qed.

Lemma OwnerOrgID_Ok addr oc v oc' :
  oc_ok oc -> OwnerOrgID addr oc = (Ok v, oc') ->
  GetContractOwnerOrgID (ToLower (TrimSpace addr)) = Ok v /\ oc_ok oc' /\
  oc_userOrgIDs oc' = oc_userOrgIDs oc /\ oc_user oc' = oc_user oc /\ oc_org oc' = oc_org oc.
Proof.
  intros [Hm Ho]. unfold OwnerOrgID.
  destruct (oc_ownerOrgCache oc !! ToLower (TrimSpace addr)) as [w|] eqn:E.
  { intros [= <- <-]. split_and!; [by apply Hm|by split|done..]. }
  destruct (GetContractOwnerOrgID _) as [w|e] eqn:Eg; [|done].
  intros [= <- <-]. split; [done|]. split; [|by split_and!]. split; simpl; [|done].
  intros k u [[<- <-]|[_ Hk]]%lookup_insert_Some; [done|by apply Hm].
Qed.

Lemma CheckAddressInScope_None oc address :
  CheckAddressInScope oc address = None ->
  let addr := ToLower (TrimSpace address) in
  addr = "" \/ exists owner, GetContractOwnerOrgID addr = Ok owner /\
    ((owner = "" /\ IsPrecompileAddress addr = true) \/
     (owner <> "" /\ owner ∈ oc_userOrgIDs oc)).
Proof.
  unfold CheckAddressInScope. case_decide as Ha; [auto|]. intros Hc. right.
  destruct (GetContractOwnerOrgID _) as [owner|e]; [|done]. exists owner. split; [done|].
  case_decide as Ho.
  - left. split; [done|]. by destruct (IsPrecompileAddress _).
  - right. split; [done|]. destruct (mem _ owner) eqn:E; [by apply mem_true|done].
Qed.

Lemma CheckMultiAddressesInScope_None oc l :
  CheckMultiAddressesInScope oc l = None <-> forall a, a ∈ l -> CheckAddressInScope oc a = None.
Proof.
  induction l as [|a l IH]; simpl; [set_solver|].
  destruct (CheckAddressInScope oc a) eqn:E.
  - split; [done|]. intros Hl. rewrite (Hl a) in E; [done|set_solver].
  - rewrite IH. set_solver.
Qed.

Lemma CheckDefaultClaimsAllowed_None address :
  CheckDefaultClaimsAllowed address false = None ->
  let addr := ToLower (TrimSpace address) in
  addr = "" \/ GetContractOwnerOrgID addr = Ok "" /\ IsPrecompileAddress addr = true.
Proof.
  unfold CheckDefaultClaimsAllowed. case_decide as Ha; [auto|]. intros Hc. right.
  destruct (GetContractOwnerOrgID _) as [owner|e]; [|done].
  destruct (bool_decide (owner = "")) eqn:E; [|done]. apply bool_decide_eq_true in E as ->.
  by destruct (IsPrecompileAddress _).
Qed.
End with_store.
