(* ===== verification/Resolver.v ===== *)
(** * Effective permissions: [internal/rbac/resolver.go] and the decryption
    wrapper of [internal/crypto/encrypt.go].

    A user's permissions in an organization are the union of what their
    groups give: methods, claims, per-contract access, function and event
    rules.  Go map iteration has no order; the lists built from a map are
    modelled in [map_to_list] order, and the theorems speak of membership. *)
From S2P Require Import Prelude GoStrings Methods Models.
Local Open Scope string_scope.

Definition map_values {V} (m : gmap string V) : list V := map snd (map_to_list m).

(** ** Union helpers *)

(** The [lowercase -> original] map of the first slice; a later spelling of
    the same name replaces an earlier one. *)
Definition byLower {V} (key : V -> string) (l : list V) : gmap string V :=
  foldl (fun m v => <[ToLower (key v) := v]> m) ∅ l.

Definition unionStrings (a b : list string) : list string :=
  map_values
    (foldl (fun set s =>
       let key := ToLower s in
       match set !! key with Some _ => set | None => <[key := s]> set end)
     (byLower id a) b).

Definition IntersectClaims (a b : list Claim) : list Claim :=
  if decide (a = [] \/ b = []) then [] else filter (fun c => c ∈ a) b.

Definition unionClaims (a b : list Claim) : list Claim :=
  elements (list_to_set a ∪ list_to_set b : gset string).

Definition mergeFunction (seen : gmap string FunctionRule) (rule : FunctionRule)
  : gmap string FunctionRule :=
  let key := ToLower (fr_Selector rule) in
  match seen !! key with
  | Some existing =>
      if decide (fr_ParamRules existing = [] \/ fr_ParamRules rule = [])
      then <[key := {| fr_Selector := fr_Selector rule; fr_ParamRules := [] |}]> seen
      else seen
  | None => <[key := rule]> seen
  end.

Definition unionFunctions (a b : option (list FunctionRule)) : option (list FunctionRule) :=
  match a, b with
  | Some a, Some b => Some (map_values (foldl mergeFunction (byLower fr_Selector a) b))
  | _, _ => None
  end.

Definition mergeEvent (seen : gmap string EventRule) (rule : EventRule) : gmap string EventRule :=
  let key := ToLower (er_Topic0 rule) in
  match seen !! key with
  | Some existing =>
      if decide (er_ParamRules existing = [] \/ er_ParamRules rule = [])
      then <[key := {| er_Topic0 := er_Topic0 rule; er_Name := er_Name rule;
                       er_ParamRules := [] |}]> seen
      else seen
  | None => <[key := rule]> seen
  end.

Definition isDenyPtr (f : option EventRulesField) : bool :=
  match f with None => true | Some f => IsDeny f end.
Definition isWildcardPtr (f : option EventRulesField) : bool :=
  match f with None => false | Some f => IsWildcard f end.

Definition unionEventRules (a b : option EventRulesField) : option EventRulesField :=
  if isWildcardPtr a then a
  else if isWildcardPtr b then b
  else if isDenyPtr a && isDenyPtr b then None
  else if isDenyPtr a then b
  else if isDenyPtr b then a
  else
    let rules f := match f with None => [] | Some f => GetRules f end in
    Some {| erf_Wildcard := false;
            erf_Rules := map_values (foldl mergeEvent (byLower er_Topic0 (rules a)) (rules b)) |}.

Definition unionAccess (x y : ContractAccess) : ContractAccess := {|
  ca_Claims := unionClaims (ca_Claims x) (ca_Claims y);
  ca_Functions := unionFunctions (ca_Functions x) (ca_Functions y);
  ca_EventRules := unionEventRules (ca_EventRules x) (ca_EventRules y) |}.

Definition mergeAccess (addr : string) (access : ContractAccess) (res : gmap string ContractAccess)
  : gmap string ContractAccess :=
  let lc := ToLower addr in
  match res !! lc with
  | Some existing => <[lc := unionAccess existing access]> res
  | None => <[lc := access]> res
  end.

Definition unionContractAccess (a b : gmap string ContractAccess) : gmap string ContractAccess :=
  if decide (a = ∅) then b
  else if decide (b = ∅) then a
  else map_fold mergeAccess
         (map_fold (fun addr access res => <[ToLower addr := access]> res) ∅ a) b.

(** ** Stored API keys *)
Definition ciphertextV1Prefix : string := "encv1:".

Section decrypt.
(** [decryptAESGCM]: base64 and AES-256-GCM of the Go standard library. *)
Variable decryptAESGCM : string -> string -> result string.

Definition Decrypt (encoded key : string) : result string :=
  if decide (key = "") then Ok encoded
  else if negb (Nat.eqb (String.length key) 32)
  then Err "encryption key must be 32 bytes (AES-256)"
  else if HasPrefix encoded ciphertextV1Prefix
  then decryptAESGCM (drop_str (String.length ciphertextV1Prefix) encoded) key
  else match decryptAESGCM encoded key with
       | Ok p => Ok p
       | Err _ => Ok encoded
       end.
End decrypt.

(** ** Per-group permissions *)
Record groupPermsBatch := {
  gb_access : gmap string GroupAccess;
  gb_grants : gmap string (list ContractGrant);
  gb_contracts : gmap string Contract }.

Record groupPermSet := {
  gp_AllowedMethods : list string;
  gp_ContractAccess : gmap string ContractAccess;
  gp_Claims : list Claim;
  gp_RPCAPIKey : string }.

Section resolver.
Context `{Store}.
Variable decryptAESGCM : string -> string -> result string.
Variable encryptionKey : string.
Variable cacheTTL : Z.
Variable ctx : Ctx.
(** [uuid.New().String()] of this call *)
Variable freshID : string.

(** [m.Group.ID] dereferences the pointer: a nil group panics. *)
Definition membershipGroups (ms : list MembershipWithDetails) : result (list Group) :=
  foldr (fun m acc =>
    gs ← acc;
    match md_Group m with
    | Some g => Ok (g :: gs)
    | None => Err "panic: nil group"
    end) (Ok []) ms.

Definition membershipGroupIDs (groups : list Group) : list string := dedup [] (map g_ID groups).

Definition loadGroupPerms (groupIDs : list string) (withGrants : bool) : result groupPermsBatch :=
  access ← GetGroupAccessBatch groupIDs;
  if negb withGrants then Ok {| gb_access := access; gb_grants := ∅; gb_contracts := ∅ |}
  else
    grants ← ListContractGrantsBatch groupIDs;
    let contractIDs := dedup []
      (concat (map (fun g => map cg_ContractID (default [] (grants !! g))) groupIDs)) in
    contracts ← (match contractIDs with
                 | [] => Ok ∅
                 | _ => GetContractsByIDs contractIDs
                 end);
    Ok {| gb_access := access; gb_grants := grants; gb_contracts := contracts |}.

(** The contract access one grant adds; a grant on a deleted contract adds
    nothing. *)
Definition grantAccess (batch : groupPermsBatch) (claims : list Claim)
    (res : gmap string ContractAccess) (grant : ContractGrant) : gmap string ContractAccess :=
  match gb_contracts batch !! cg_ContractID grant with
  | None => res
  | Some contract =>
      <[ToLower (c_Address contract) :=
          {| ca_Claims := claims; ca_Functions := cg_Functions grant;
             ca_EventRules := cg_EventRules grant |}]> res
  end.

Definition groupPerms (batch : groupPermsBatch) (groupID : string) : groupPermSet :=
  let access := gb_access batch !! groupID in
  let claims := match access with Some a => ga_Claims a | None => [] end in
  {| gp_AllowedMethods := match access with Some a => ga_AllowedMethods a | None => [] end;
     gp_Claims := claims;
     gp_RPCAPIKey :=
       match access ≫= ga_RPCAPIKey with
       | None => ""
       | Some k =>
           if decide (k = "") then ""
           else match Decrypt decryptAESGCM k encryptionKey with Ok d => d | Err _ => k end
       end;
     gp_ContractAccess :=
       foldl (grantAccess batch claims) ∅ (default [] (gb_grants batch !! groupID)) |}.

Definition cacheExpiry (ms : list MembershipWithDetails) : Z :=
  foldl (fun exp m =>
    match md_Membership m ≫= um_ExpiresAt with
    | Some t => if (t <? exp)%Z then t else exp
    | None => exp
    end) (ctx_now ctx + cacheTTL)%Z ms.

Definition firstNonEmpty (x y : string) : string := if decide (x = "") then y else x.

Definition computeOrgAdminPermissions (userID orgID : string)
    (ms : list MembershipWithDetails) (groups : list Group) : result EffectivePermissions :=
  contracts ← ListContracts orgID;
  let contractAccess := foldl (fun m contract =>
      <[ToLower (c_Address contract) :=
          {| ca_Claims := AllClaims; ca_Functions := None; ca_EventRules := None |}]> m)
      ∅ contracts in
  batch ← loadGroupPerms (membershipGroupIDs groups) false;
  let perms := map (fun g => groupPerms batch (g_ID g)) groups in
  Ok {| ep_ID := freshID; ep_UserID := userID; ep_OrgID := orgID;
        ep_AllowedMethods := foldl unionStrings [] (map gp_AllowedMethods perms);
        ep_ContractAccess := contractAccess;
        ep_Claims := AllClaims;
        ep_RPCAPIKey := foldl firstNonEmpty "" (map gp_RPCAPIKey perms);
        ep_ComputedAt := ctx_now ctx;
        ep_ExpiresAt := cacheExpiry ms |}.

(** Merging one more membership into the accumulated permissions. *)
Definition mergeGroupPerms (x y : groupPermSet) : groupPermSet := {|
  gp_AllowedMethods := unionStrings (gp_AllowedMethods x) (gp_AllowedMethods y);
  gp_ContractAccess := unionContractAccess (gp_ContractAccess x) (gp_ContractAccess y);
  gp_Claims := unionClaims (gp_Claims x) (gp_Claims y);
  gp_RPCAPIKey := firstNonEmpty (gp_RPCAPIKey x) (gp_RPCAPIKey y) |}.

Definition computePermissions (userID orgID : string) : result EffectivePermissions :=
  memberships ← ListUserMembershipsInOrg userID orgID;
  groups ← membershipGroups memberships;
  match groups with
  | [] =>
      Ok {| ep_ID := freshID; ep_UserID := userID; ep_OrgID := orgID;
            ep_AllowedMethods := []; ep_ContractAccess := ∅; ep_Claims := [];
            ep_RPCAPIKey := ""; ep_ComputedAt := ctx_now ctx;
            ep_ExpiresAt := (ctx_now ctx + cacheTTL)%Z |}
  | g :: gs =>
      if existsb g_IsOrgAdmin groups then
        computeOrgAdminPermissions userID orgID memberships groups
      else
        batch ← loadGroupPerms (membershipGroupIDs groups) true;
        let final := foldl mergeGroupPerms (groupPerms batch (g_ID g))
                       (map (fun g => groupPerms batch (g_ID g)) gs) in
        Ok {| ep_ID := freshID; ep_UserID := userID; ep_OrgID := orgID;
              ep_AllowedMethods := gp_AllowedMethods final;
              ep_ContractAccess := gp_ContractAccess final;
              ep_Claims := ExpandClaims (gp_Claims final);
              ep_RPCAPIKey := gp_RPCAPIKey final;
              ep_ComputedAt := ctx_now ctx;
              ep_ExpiresAt := cacheExpiry memberships |}
  end.
End resolver.

(** ** Lemmas on the unions *)

Lemma elem_of_map_values {V} (m : gmap string V) v :
  v ∈ map_values m <-> exists k, m !! k = Some v.
Proof.
  unfold map_values. rewrite list_elem_of_fmap. split.
  - intros ([k w] & -> & Hk%elem_of_map_to_list). eauto.
  - intros [k Hk]. exists (k, v). by rewrite elem_of_map_to_list.
Qed.

Lemma byLower_snoc {V} (key : V -> string) l v :
  byLower key (l ++ [v]) = <[ToLower (key v) := v]> (byLower key l).
Proof. unfold byLower. by rewrite foldl_snoc. Qed.

Lemma byLower_Some {V} (key : V -> string) l k v :
  byLower key l !! k = Some v -> v ∈ l /\ ToLower (key v) = k.
Proof.
  induction l as [|w l IH] using rev_ind;
    [unfold byLower; simpl; by rewrite lookup_empty|].
  rewrite byLower_snoc. intros [[<- <-]|[_ Hk]]%lookup_insert_Some; [set_solver|].
  apply IH in Hk. set_solver.
Qed.

Lemma byLower_is_Some {V} (key : V -> string) l v :
  v ∈ l -> is_Some (byLower key l !! ToLower (key v)).
Proof.
  induction l as [|w l IH] using rev_ind; [set_solver|].
  rewrite byLower_snoc, elem_of_app, list_elem_of_singleton. intros Hv.
  rewrite lookup_insert. case_decide; [done|]. destruct Hv as [Hv|Hv]; [auto|congruence].
Qed.

(** The accumulation steps of [unionStrings], [unionFunctions] and
    [unionEventRules] share one shape: a key is never dropped, and a value
    comes from one of the two sides or is the unconstrained merge. *)
Class Accumulates {V : Type} (key : V -> string) (step : gmap string V -> V -> gmap string V)
    (origin : V -> V -> Prop) : Prop := {
  origin_refl : forall v, origin v v;
  origin_trans : forall x y z, origin x y -> origin y z -> origin x z;
  step_Some : forall m v k w, step m v !! k = Some w ->
    m !! k = Some w \/
    k = ToLower (key v) /\ key w = key v /\
      (origin w v \/ exists u, m !! k = Some u /\ origin w u);
  step_keeps : forall m v k, is_Some (m !! k) -> is_Some (step m v !! k);
  step_adds : forall m v, is_Some (step m v !! ToLower (key v))
}.

Section accumulate.
Context {V : Type} {key : V -> string} {step : gmap string V -> V -> gmap string V}
  {origin : V -> V -> Prop} `{!Accumulates key step origin}.

Lemma acc_Some (m : gmap string V) l k w :
  (forall k u, m !! k = Some u -> ToLower (key u) = k) ->
  foldl step m l !! k = Some w ->
  ToLower (key w) = k /\
  ((exists u, m !! k = Some u /\ origin w u) \/
   exists v, v ∈ l /\ ToLower (key v) = k /\ origin w v).
Proof.
  intros Hm. revert w. induction l as [|v l IH] using rev_ind; intros w; simpl.
  { intros Hk. split; [by apply Hm|]. left. exists w. split; [done|apply origin_refl]. }
  rewrite foldl_snoc. intros [Hk|(-> & Hw & Ho)]%step_Some; [|rewrite Hw].
  - apply IH in Hk as [? [?|(v' & ? & ? & ?)]]; split; auto. right. exists v'. set_solver.
  - split; [done|]. destruct Ho as [Ho|(u & Hu & Ho)]; [right; exists v; set_solver|].
    apply IH in Hu as [_ [(u' & ? & ?)|(v' & ? & ? & ?)]].
    + left. exists u'. split; [done|]. by eapply origin_trans.
    + right. exists v'. split_and!; [set_solver|done|]. by eapply origin_trans.
Qed.

Lemma acc_key (m : gmap string V) l k w :
  foldl step m l !! k = Some w -> m !! k = Some w \/ exists v, v ∈ l /\ key w = key v.
Proof.
  revert w. induction l as [|v l IH] using rev_ind; intros w; simpl; [by left|].
  rewrite foldl_snoc. intros [Hk|(-> & Hw & _)]%step_Some; [|right; exists v; set_solver].
  apply IH in Hk as [?|(v' & ? & ?)]; [by left|]. right. exists v'. set_solver.
Qed.

Lemma acc_keeps (m : gmap string V) l k :
  is_Some (m !! k) -> is_Some (foldl step m l !! k).
Proof. revert m. induction l; simpl; [done|]. intros. by apply IHl, step_keeps. Qed.

Lemma acc_adds (m : gmap string V) l v :
  v ∈ l -> is_Some (foldl step m l !! ToLower (key v)).
Proof.
  revert m. induction l as [|w l IH]; intros m; simpl; [set_solver|].
  intros [->|Hv]%elem_of_cons; [apply acc_keeps, step_adds|by apply IH].
Qed.

(** From the map of [a] over [b]: sound and complete for the keys. *)
Lemma union_sound a b w :
  w ∈ map_values (foldl step (byLower key a) b) ->
  exists v, (v ∈ a \/ v ∈ b) /\ ToLower (key v) = ToLower (key w) /\ origin w v.
Proof.
  intros [k Hk]%elem_of_map_values. apply acc_Some in Hk as [<- Ho].
  - destruct Ho as [(u & Hu & Ho)|(v & ? & ? & ?)]; [|eauto].
    apply byLower_Some in Hu as [? ?]. eauto.
  - intros k' u [_ ?]%byLower_Some. done.
Qed.

Lemma union_key a b w :
  w ∈ map_values (foldl step (byLower key a) b) ->
  exists v, (v ∈ a \/ v ∈ b) /\ key w = key v.
Proof.
  intros [k Hk]%elem_of_map_values. apply acc_key in Hk as [Hk|(v & ? & ?)]; [|eauto].
  apply byLower_Some in Hk as [? ?]. eauto.
Qed.

Lemma union_complete a b v :
  v ∈ a \/ v ∈ b ->
  exists w, w ∈ map_values (foldl step (byLower key a) b) /\ ToLower (key w) = ToLower (key v).
Proof.
  intros Hv.
  assert (is_Some (foldl step (byLower key a) b !! ToLower (key v))) as [w Hw].
  { destruct Hv; [apply acc_keeps; by apply byLower_is_Some|by apply acc_adds]. }
  exists w. split; [apply elem_of_map_values; eauto|].
  apply acc_Some in Hw as [? _]; [done|]. intros k u [_ ?]%byLower_Some. done.
Qed.
End accumulate.

(** Instances of the accumulation *)
Definition strStep (set : gmap string string) (s : string) : gmap string string :=
  let key := ToLower s in match set !! key with Some _ => set | None => <[key := s]> set end.

Lemma strStep_Some (m : gmap string string) v k w : strStep m v !! k = Some w ->
  m !! k = Some w \/ k = ToLower v /\ w = v /\ (w = v \/ exists u, m !! k = Some u /\ w = u).
Proof.
  unfold strStep. destruct (m !! ToLower v) eqn:E; [tauto|].
  intros [[<- <-]|[_ ?]]%lookup_insert_Some; tauto.
Qed.

Lemma strStep_keeps (m : gmap string string) v k : is_Some (m !! k) -> is_Some (strStep m v !! k).
Proof.
  unfold strStep. destruct (m !! ToLower v); [done|]. intros. rewrite lookup_insert_is_Some. 
  destruct (decide (ToLower v = k)); auto.
Qed.

Lemma strStep_adds (m : gmap string string) v : is_Some (strStep m v !! ToLower v).
Proof.
  unfold strStep. destruct (m !! ToLower v) eqn:E; [by rewrite E|].
  by rewrite lookup_insert_eq.
Qed.

#[export] Instance unionStrings_acc : Accumulates id strStep eq.
Proof. split; [done|congruence|apply strStep_Some|apply strStep_keeps|apply strStep_adds]. Qed.

Lemma unionStrings_sound a b s : s ∈ unionStrings a b -> s ∈ a \/ s ∈ b.
Proof. intros (v & ? & _ & ->)%(union_sound (step := strStep)). done. Qed.

Lemma unionStrings_complete a b s :
  s ∈ a \/ s ∈ b -> exists s', s' ∈ unionStrings a b /\ ToLower s' = ToLower s.
Proof. apply (union_complete (step := strStep) (key := id)). Qed.

(** A rule that constrains no more than [v] does: [v]'s own parameter rules,
    or none where the merge met an unconstrained rule for the selector. *)
Lemma mergeFunction_Some (m : gmap string FunctionRule) v k w : mergeFunction m v !! k = Some w ->
  m !! k = Some w \/
  k = ToLower (fr_Selector v) /\ fr_Selector w = fr_Selector v /\
  (fr_ParamRules w = fr_ParamRules v \/
   exists u, m !! k = Some u /\ fr_ParamRules w = fr_ParamRules u).
Proof.
  unfold mergeFunction. destruct (m !! ToLower (fr_Selector v)) as [u|] eqn:E.
  - case_decide as Hp; [|tauto]. intros [[<- <-]|[_ ?]]%lookup_insert_Some; [|tauto].
    right. split_and!; [done|done|]. simpl. destruct Hp as [Hp|Hp]; [right; by exists u|left; by rewrite Hp].
  - intros [[<- <-]|[_ ?]]%lookup_insert_Some; tauto.
Qed.

Lemma mergeFunction_keeps (m : gmap string FunctionRule) v k :
  is_Some (m !! k) -> is_Some (mergeFunction m v !! k).
Proof.
  unfold mergeFunction. intros. repeat case_match; try done; rewrite lookup_insert_is_Some;
    destruct (decide (ToLower (fr_Selector v) = k)); auto.
Qed.

Lemma mergeFunction_adds (m : gmap string FunctionRule) v :
  is_Some (mergeFunction m v !! ToLower (fr_Selector v)).
Proof.
  unfold mergeFunction. destruct (m !! _) eqn:E; [case_decide|]; rewrite ?lookup_insert_eq, ?E; done.
Qed.

Definition sameParams (x y : FunctionRule) : Prop := fr_ParamRules x = fr_ParamRules y.

#[export] Instance unionFunctions_acc : Accumulates fr_Selector mergeFunction sameParams.
Proof.
  unfold sameParams.
  split; [done|congruence|apply mergeFunction_Some|apply mergeFunction_keeps
         |apply mergeFunction_adds].
Qed.

Lemma unionFunctions_sound a b w rs :
  unionFunctions (Some a) (Some b) = Some rs -> w ∈ rs ->
  exists v, (v ∈ a \/ v ∈ b) /\ ToLower (fr_Selector v) = ToLower (fr_Selector w) /\
    sameParams w v.
Proof. intros [= <-]. apply union_sound. Qed.

Lemma unionFunctions_complete a b v :
  v ∈ a \/ v ∈ b -> exists rs w, unionFunctions (Some a) (Some b) = Some rs /\ w ∈ rs /\
    ToLower (fr_Selector w) = ToLower (fr_Selector v).
Proof.
  intros (w & ? & ?)%(union_complete (step := mergeFunction)).
  eexists _, w. split; [reflexivity|]. done.
Qed.

Lemma mergeEvent_Some (m : gmap string EventRule) v k w : mergeEvent m v !! k = Some w ->
  m !! k = Some w \/
  k = ToLower (er_Topic0 v) /\ er_Topic0 w = er_Topic0 v /\
  (er_ParamRules w = er_ParamRules v \/
   exists u, m !! k = Some u /\ er_ParamRules w = er_ParamRules u).
Proof.
  unfold mergeEvent. destruct (m !! ToLower (er_Topic0 v)) as [u|] eqn:E.
  - case_decide as Hp; [|tauto]. intros [[<- <-]|[_ ?]]%lookup_insert_Some; [|tauto].
    right. split_and!; [done|done|]. simpl. destruct Hp as [Hp|Hp]; [right; by exists u|left; by rewrite Hp].
  - intros [[<- <-]|[_ ?]]%lookup_insert_Some; tauto.
Qed.

#[export] Instance unionEvents_acc :
  Accumulates er_Topic0 mergeEvent (fun x y => er_ParamRules x = er_ParamRules y).
Proof.
  split; [done|congruence|apply mergeEvent_Some| |].
  - unfold mergeEvent. intros. repeat case_match; try done; rewrite lookup_insert_is_Some;
      destruct (decide (ToLower (er_Topic0 v) = k)); auto.
  - intros m v. unfold mergeEvent.
    destruct (m !! _) eqn:E; [case_decide|]; rewrite ?lookup_insert_eq, ?E; done.
Qed.
