(* ===== verification/ResolverProps.v ===== *)
(** * Properties of permission resolution.

    Nothing is lost and nothing is invented when the groups of a user are
    merged: methods, claims and contract access of the result are exactly
    those of some group; organization admins hold every claim on every
    contract; a cached result never outlives a membership. *)
From S2P Require Import Prelude GoStrings Methods Models Resolver.
Local Open Scope string_scope.

(** ** ASCII selectors: [ToLower] and [fold] agree. *)
Fixpoint ascii_string (s : string) : bool :=
  match s with
  | EmptyString => true
  | String a s => is_ascii a && ascii_string s
  end.

Fixpoint lower_all (s : string) : string :=
  match s with
  | EmptyString => EmptyString
  | String a s => String (lower_ascii a) (lower_all s)
  end.

Lemma case_map_ascii two img s :
  (forall a b, two a b = true -> is_ascii a = false) ->
  ascii_string s = true -> case_map two img s = lower_all s.
Proof.
  intros Ht. induction s as [|a s1 IH]; [done|]. cbn [ascii_string].
  intros [Ha Hs]%andb_true_iff. specialize (IH Hs). destruct s1 as [|b s2]; [done|].
  change (lower_all (String a (String b s2)))
    with (String (lower_ascii a) (lower_all (String b s2))).
  rewrite <- IH. cbn [case_map].
  destruct (two a b) eqn:E; [apply Ht in E; congruence|].
  destruct s2 as [|c s3]; [done|].
  destruct (is_kelvin a b c) eqn:K; [|done].
  apply is_kelvin_nonascii in K as [K _]. congruence.
Qed.

Lemma ToLower_fold_ascii s : ascii_string s = true -> ToLower s = fold s.
Proof.
  intros Hs. unfold ToLower, fold.
  rewrite !case_map_ascii; try done; unfold is_dotted_I, is_long_s, is_ascii;
    intros a b [?%N.eqb_eq _]%andb_true_iff; apply N.ltb_ge; lia.
Qed.

Definition ascii_rules (fns : option (list FunctionRule)) : Prop :=
  forall rs r, fns = Some rs -> r ∈ rs -> ascii_string (fr_Selector r) = true.

Lemma functionsAllow_true fns sel :
  functionsAllow fns sel = true <->
  fns = None \/ exists rs r, fns = Some rs /\ r ∈ rs /\ fold (fr_Selector r) = fold sel.
Proof.
  destruct fns as [rs|]; simpl; [|naive_solver].
  rewrite existsb_true. setoid_rewrite EqualFold_true. naive_solver.
Qed.


(** ** Union of contract access *)
Definition lowerKeyed {V} (m : gmap string V) : Prop :=
  forall k v, m !! k = Some v -> ToLower k = k.

Definition unionEntry (x y : option ContractAccess) : option ContractAccess :=
  match x, y with
  | Some x, Some y => Some (unionAccess x y)
  | Some x, None => Some x
  | None, y => y
  end.

Lemma map_fold_lower (a : gmap string ContractAccess) :
  lowerKeyed a ->
  map_fold (fun addr access res => <[ToLower addr := access]> res) ∅ a = a.
Proof.
  intros Ha. revert Ha.
  apply (map_fold_weak_ind (fun r m => lowerKeyed m -> r = m)); [done|].
  intros i x m r Hi IH Hm. rewrite (Hm i x) by apply lookup_insert_eq. rewrite IH; [done|].
  intros k v Hk. apply (Hm k v). rewrite lookup_insert_ne; [done|]. intros ->. congruence.
Qed.

Lemma map_fold_merge (a b : gmap string ContractAccess) k :
  lowerKeyed b -> map_fold mergeAccess a b !! k = unionEntry (a !! k) (b !! k).
Proof.
  revert k. apply (map_fold_weak_ind (fun r m => forall k, lowerKeyed m ->
    r !! k = unionEntry (a !! k) (m !! k))).
  { intros k _. rewrite lookup_empty. by destruct (a !! k). }
  intros i x m r Hi IH k Hm.
  assert (Hil : ToLower i = i) by (apply (Hm i x), lookup_insert_eq).
  assert (Hm' : lowerKeyed m).
  { intros j v Hj. apply (Hm j v). rewrite lookup_insert_ne; [done|]. intros ->. congruence. }
  unfold mergeAccess. rewrite Hil, (IH i Hm'), Hi.
  destruct (decide (i = k)) as [<-|Hne].
  - rewrite lookup_insert_eq. destruct (a !! i); simpl; by rewrite lookup_insert_eq.
  - rewrite (lookup_insert_ne m) by done. rewrite <- (IH k Hm').
    destruct (a !! i); simpl; by rewrite lookup_insert_ne.
Qed.

Lemma unionContractAccess_lookup a b k :
  lowerKeyed a -> lowerKeyed b ->
  unionContractAccess a b !! k = unionEntry (a !! k) (b !! k).
Proof.
  intros Ha Hb. unfold unionContractAccess.
  case_decide as Ea; [rewrite Ea, lookup_empty; done|].
  case_decide as Eb; [rewrite Eb, lookup_empty; by destruct (a !! k)|].
  rewrite map_fold_lower by done. by apply map_fold_merge.
Qed.

Lemma unionContractAccess_lowerKeyed a b :
  lowerKeyed a -> lowerKeyed b -> lowerKeyed (unionContractAccess a b).
Proof.
  intros Ha Hb k v. rewrite unionContractAccess_lookup by done.
  destruct (a !! k) eqn:E1; [intros _; by eapply Ha|].
  destruct (b !! k) eqn:E2; [intros _; by eapply Hb|done].
Qed.

Lemma elem_of_unionClaims a b c : c ∈ unionClaims a b <-> c ∈ a \/ c ∈ b.
Proof. unfold unionClaims. rewrite elem_of_elements. set_solver. Qed.

(** A selector is allowed by the union exactly when one side allows it. *)
Lemma functionsAllow_union a b sel :
  ascii_rules a -> ascii_rules b ->
  functionsAllow (unionFunctions a b) sel = functionsAllow a sel || functionsAllow b sel.
Proof.
  intros Ha Hb. destruct a as [a|], b as [b|]; simpl; rewrite ?orb_true_r; [|done..].
  apply eq_true_iff_eq. rewrite orb_true_iff, !existsb_true. setoid_rewrite EqualFold_true.
  split.
  - intros (w & Hw & Hs). destruct (union_key _ _ _ Hw) as (v & [Hv|Hv] & Hk);
      rewrite Hk in Hs; eauto.
  - assert (Hin : forall v, v ∈ a \/ v ∈ b -> ascii_string (fr_Selector v) = true).
    { intros v [Hv|Hv]; [by apply (Ha a)|by apply (Hb b)]. }
    intros Hv. assert (exists v, (v ∈ a \/ v ∈ b) /\ fold (fr_Selector v) = fold sel)
      as (v & Hv' & Hs) by naive_solver.
    destruct (union_complete (step := mergeFunction) a b v Hv') as (w & Hw & Hl).
    exists w. split; [done|]. rewrite <- Hs.
    destruct (union_key _ _ _ Hw) as (v' & Hv'' & Hk).
    rewrite Hk in Hl |- *. by rewrite !ToLower_fold_ascii in Hl by auto.
Qed.

(** ** One group *)
Definition grantOn (batch : groupPermsBatch) (groupID k : string) (grant : ContractGrant) : Prop :=
  grant ∈ default [] (gb_grants batch !! groupID) /\
  exists contract, gb_contracts batch !! cg_ContractID grant = Some contract /\
                   ToLower (c_Address contract) = k.

Definition groupClaims (batch : groupPermsBatch) (groupID : string) : list Claim :=
  match gb_access batch !! groupID with Some a => ga_Claims a | None => [] end.

Definition groupMethods (batch : groupPermsBatch) (groupID : string) : list string :=
  match gb_access batch !! groupID with Some a => ga_AllowedMethods a | None => [] end.

Lemma grantAccess_lookup batch claims m grants k acc :
  foldl (grantAccess batch claims) m grants !! k = Some acc ->
  m !! k = Some acc \/
  exists grant contract, grant ∈ grants /\ gb_contracts batch !! cg_ContractID grant = Some contract /\
    ToLower (c_Address contract) = k /\
    acc = {| ca_Claims := claims; ca_Functions := cg_Functions grant;
             ca_EventRules := cg_EventRules grant |}.
Proof.
  induction grants as [|g l IH] using rev_ind; simpl; [auto|].
  rewrite foldl_snoc. unfold grantAccess at 1.
  destruct (gb_contracts batch !! cg_ContractID g) as [contract|] eqn:E.
  - intros [[<- <-]|[_ Hk]]%lookup_insert_Some.
    + right. exists g, contract. split_and!; [set_solver|done..].
    + apply IH in Hk as [?|(g' & ? & ? & ? & ? & ?)]; [auto|]. right.
      eexists g', _. split_and!; [set_solver|done..].
  - intros Hk. apply IH in Hk as [?|(g' & ? & ? & ? & ? & ?)]; [auto|]. right.
    eexists g', _. split_and!; [set_solver|done..].
Qed.

Lemma grantAccess_is_Some batch claims m grants k :
  (is_Some (m !! k) \/ exists grant contract, grant ∈ grants /\
     gb_contracts batch !! cg_ContractID grant = Some contract /\
     ToLower (c_Address contract) = k) ->
  is_Some (foldl (grantAccess batch claims) m grants !! k).
Proof.
  revert m. induction grants as [|g l IH]; intros m; simpl; [set_solver|].
  intros Hk. apply IH. unfold grantAccess.
  destruct Hk as [Hk|(g' & contract & [->|Hg]%elem_of_cons & Hc & Ha)].
  - left. case_match; [|done]. rewrite lookup_insert_is_Some.
    destruct (decide (ToLower (c_Address c) = k)); auto.
  - left. rewrite Hc, Ha. by rewrite lookup_insert_eq.
  - right. eauto.
Qed.

Section group.
Variable decryptAESGCM : string -> string -> result string.
Variable encryptionKey : string.
Notation groupPerms := (groupPerms decryptAESGCM encryptionKey).

Lemma groupPerms_access batch g k acc :
  gp_ContractAccess (groupPerms batch g) !! k = Some acc ->
  exists grant, grantOn batch g k grant /\
    acc = {| ca_Claims := groupClaims batch g; ca_Functions := cg_Functions grant;
             ca_EventRules := cg_EventRules grant |}.
Proof.
  intros [Hk|(grant & contract & ? & ? & ? & ->)]%grantAccess_lookup.
  - by rewrite lookup_empty in Hk.
  - exists grant. split; [|done]. split; [done|]. eauto.
Qed.

Lemma groupPerms_is_Some batch g k :
  (exists grant, grantOn batch g k grant) <->
  is_Some (gp_ContractAccess (groupPerms batch g) !! k).
Proof.
  split.
  - intros (grant & Hg & contract & Hc & Ha). apply grantAccess_is_Some. right. eauto.
  - intros [acc Hacc]. apply groupPerms_access in Hacc as (grant & ? & _). eauto.
Qed.

Lemma groupPerms_lowerKeyed batch g : lowerKeyed (gp_ContractAccess (groupPerms batch g)).
Proof.
  intros k acc (grant & (_ & c & _ & <-) & _)%groupPerms_access. apply ToLower_idemp.
Qed.
End group.

(** ** Merging across groups *)
Lemma merged_entry k x l :
  lowerKeyed (gp_ContractAccess x) -> (forall y, y ∈ l -> lowerKeyed (gp_ContractAccess y)) ->
  gp_ContractAccess (foldl mergeGroupPerms x l) !! k =
    foldl unionEntry (gp_ContractAccess x !! k) (map (fun y => gp_ContractAccess y !! k) l) /\
  lowerKeyed (gp_ContractAccess (foldl mergeGroupPerms x l)).
Proof.
  intros Hx. revert x Hx. induction l as [|y l IH]; intros x Hx Hl; simpl; [done|].
  rewrite <- unionContractAccess_lookup by set_solver.
  apply (IH (mergeGroupPerms x y)); [|set_solver].
  apply unionContractAccess_lowerKeyed; set_solver.
Qed.

Lemma unionEntry_is_Some x l :
  is_Some (foldl unionEntry x l) <-> exists e, e ∈ x :: l /\ is_Some e.
Proof.
  revert x. induction l as [|y l IH]; intros x; simpl; [set_solver|].
  rewrite IH. split.
  - intros (e & [->|He]%elem_of_cons & Hs); [|set_solver].
    destruct x as [x|]; [exists (Some x); set_solver|]. exists y. set_solver.
  - intros (e & [->|[->|He]%elem_of_cons]%elem_of_cons & Hs); [..|set_solver].
    + exists (unionEntry x y). destruct x, y; set_solver.
    + exists (unionEntry x y). destruct x, y; set_solver.
Qed.

(** A property of contract access that the union decides side by side. *)
Lemma unionEntry_pred (P Q : ContractAccess -> Prop) x l acc :
  (forall a b, Q a -> Q b -> Q (unionAccess a b) /\ (P (unionAccess a b) <-> P a \/ P b)) ->
  (forall e, Some e ∈ x :: l -> Q e) ->
  foldl unionEntry x l = Some acc ->
  P acc <-> exists e, Some e ∈ x :: l /\ P e.
Proof.
  intros HU. revert x. induction l as [|y l IH]; intros x HQ; simpl; [set_solver|].
  intros Hf. rewrite (IH (unionEntry x y)); [|clear IH Hf|done].
  - split.
    + intros (e & [He|He]%elem_of_cons & Hp); [|set_solver].
      destruct x as [x|], y as [y|]; simpl in He; [|exists e; rewrite He; set_solver..].
      injection He as ->. destruct (HU x y) as [_ Hi]; [apply HQ; set_solver..|]. apply Hi in Hp as [Hp|Hp].
      * exists x. split; [constructor|done].
      * exists y. split; [do 2 constructor|done].
    + intros (e & [He|[He|He]%elem_of_cons]%elem_of_cons & Hp).
      * subst x. destruct y as [y|]; [|exists e; set_solver].
        exists (unionAccess e y). destruct (HU e y) as [_ Hi]; [apply HQ; set_solver..|].
        split; [set_solver|]. apply Hi. auto.
      * subst y. destruct x as [x|]; [|exists e; set_solver].
        exists (unionAccess x e). destruct (HU x e) as [_ Hi]; [apply HQ; set_solver..|].
        split; [set_solver|]. apply Hi. auto.
      * exists e. set_solver.
  - intros e [He|He]%elem_of_cons; [|apply HQ; set_solver].
    destruct x as [x|], y as [y|]; simpl in He; [|apply HQ; rewrite He; set_solver..].
    injection He as ->. apply HU; apply HQ; set_solver.
Qed.

Lemma unionFunctions_ascii a b :
  ascii_rules a -> ascii_rules b -> ascii_rules (unionFunctions a b).
Proof.
  intros Ha Hb rs w Hr Hw. destruct a as [a|], b as [b|]; try done. simplify_eq/=.
  destruct (union_key _ _ _ Hw) as (v & [Hv|Hv] & ->); [by apply (Ha a)|by apply (Hb b)].
Qed.

Lemma merged_claims x l c :
  c ∈ gp_Claims (foldl mergeGroupPerms x l) <-> exists y, y ∈ x :: l /\ c ∈ gp_Claims y.
Proof.
  revert x. induction l as [|y l IH]; intros x; simpl; [set_solver|].
  rewrite IH. split.
  - intros (z & [->|Hz]%elem_of_cons & Hc); [|set_solver].
    simpl in Hc. apply elem_of_unionClaims in Hc as [Hc|Hc]; [exists x|exists y]; set_solver.
  - assert (Hm : c ∈ gp_Claims x \/ c ∈ gp_Claims y -> c ∈ gp_Claims (mergeGroupPerms x y)).
    { simpl. by rewrite elem_of_unionClaims. }
    intros (z & [->|[->|Hz]%elem_of_cons]%elem_of_cons & Hc).
    + exists (mergeGroupPerms x y). split; [constructor|auto].
    + exists (mergeGroupPerms x y). split; [constructor|auto].
    + exists z. split; [by constructor|done].
Qed.

Lemma merged_methods_sound x l m :
  m ∈ gp_AllowedMethods (foldl mergeGroupPerms x l) ->
  exists y, y ∈ x :: l /\ m ∈ gp_AllowedMethods y.
Proof.
  revert x. induction l as [|y l IH]; intros x; simpl; [set_solver|].
  intros (z & [->|Hz]%elem_of_cons & Hm)%IH; [|set_solver].
  simpl in Hm. apply unionStrings_sound in Hm as [Hm|Hm]; [exists x|exists y]; set_solver.
Qed.

Lemma merged_methods_complete x l y m :
  y ∈ x :: l -> m ∈ gp_AllowedMethods y ->
  exists m', m' ∈ gp_AllowedMethods (foldl mergeGroupPerms x l) /\ ToLower m' = ToLower m.
Proof.
  revert x y m. induction l as [|z l IH]; intros x y m; simpl.
  { intros ->%list_elem_of_singleton. eauto. }
  intros [->|[->|Hy]%elem_of_cons]%elem_of_cons Hm.
  - destruct (unionStrings_complete (gp_AllowedMethods x) (gp_AllowedMethods z) m)
      as (m1 & H1 & H2); [auto|].
    destruct (IH (mergeGroupPerms x z) (mergeGroupPerms x z) m1) as (m2 & ? & ?);
      [constructor|done|]. exists m2. split; congruence.
  - destruct (unionStrings_complete (gp_AllowedMethods x) (gp_AllowedMethods z) m)
      as (m1 & H1 & H2); [auto|].
    destruct (IH (mergeGroupPerms x z) (mergeGroupPerms x z) m1) as (m2 & ? & ?);
      [constructor|done|]. exists m2. split; congruence.
  - apply (IH _ y); [by constructor|done].
Qed.

(** ** Resolution against a store *)
Section resolve.
Context `{Store}.
Context (decryptAESGCM : string -> string -> result string) (encryptionKey : string)
  (cacheTTL : Z) (ctx : Ctx) (freshID : string).
Notation groupPerms := (groupPerms decryptAESGCM encryptionKey).
Notation computePermissions :=
  (computePermissions decryptAESGCM encryptionKey cacheTTL ctx freshID).
Notation cacheExpiry := (cacheExpiry cacheTTL ctx).

Lemma computePermissions_member userID orgID p ms groups g gs :
  ListUserMembershipsInOrg userID orgID = Ok ms -> membershipGroups ms = Ok groups ->
  groups = g :: gs -> existsb g_IsOrgAdmin groups = false ->
  computePermissions userID orgID = Ok p ->
  exists batch, loadGroupPerms (membershipGroupIDs groups) true = Ok batch /\
    let final := foldl mergeGroupPerms (groupPerms batch (g_ID g))
                   (map (fun g => groupPerms batch (g_ID g)) gs) in
    p = {| ep_ID := freshID; ep_UserID := userID; ep_OrgID := orgID;
           ep_AllowedMethods := gp_AllowedMethods final;
           ep_ContractAccess := gp_ContractAccess final;
           ep_Claims := ExpandClaims (gp_Claims final);
           ep_RPCAPIKey := gp_RPCAPIKey final;
           ep_ComputedAt := ctx_now ctx; ep_ExpiresAt := cacheExpiry ms |}.
Proof.
  intros Hms Hg -> Hadm. unfold Resolver.computePermissions. rewrite Hms. simpl.
  rewrite Hg. simpl. simpl in Hadm. rewrite Hadm.
  intros (batch & Hb & Hp)%bind_Ok. exists batch. split; [done|]. by injection Hp as <-.
Qed.

Lemma groups_perms_elem batch (g : Group) gs y :
  y ∈ groupPerms batch (g_ID g) :: map (fun g => groupPerms batch (g_ID g)) gs <->
  exists g', g' ∈ g :: gs /\ y = groupPerms batch (g_ID g').
Proof.
  change (groupPerms batch (g_ID g) :: map (fun g => groupPerms batch (g_ID g)) gs)
    with ((fun g => groupPerms batch (g_ID g)) <$> (g :: gs)).
  rewrite list_elem_of_fmap. naive_solver.
Qed.

Lemma groups_entries_elem batch k (g : Group) gs e :
  e ∈ (gp_ContractAccess (groupPerms batch (g_ID g)) !! k) ::
      map (fun y => gp_ContractAccess y !! k) (map (fun g => groupPerms batch (g_ID g)) gs) <->
  exists g', g' ∈ g :: gs /\ e = gp_ContractAccess (groupPerms batch (g_ID g')) !! k.
Proof.
  rewrite List.map_map.
  change (_ :: map ?f gs) with (f <$> (g :: gs)).
  rewrite list_elem_of_fmap. naive_solver.
Qed.

Section member.
Context (userID orgID : string) (p : EffectivePermissions) (ms : list MembershipWithDetails)
  (groups : list Group).
Hypothesis Hms : ListUserMembershipsInOrg userID orgID = Ok ms.
Hypothesis Hgroups : membershipGroups ms = Ok groups.
Hypothesis Hnonempty : groups <> [].
Hypothesis Hnotadmin : existsb g_IsOrgAdmin groups = false.
Hypothesis Hp : computePermissions userID orgID = Ok p.

Lemma member_entry : exists batch g gs, groups = g :: gs /\
  loadGroupPerms (membershipGroupIDs groups) true = Ok batch /\
  ep_Claims p = ExpandClaims (gp_Claims (foldl mergeGroupPerms (groupPerms batch (g_ID g))
                  (map (fun g => groupPerms batch (g_ID g)) gs))) /\
  ep_AllowedMethods p = gp_AllowedMethods (foldl mergeGroupPerms (groupPerms batch (g_ID g))
                  (map (fun g => groupPerms batch (g_ID g)) gs)) /\
  forall k, ep_ContractAccess p !! k =
    foldl unionEntry (gp_ContractAccess (groupPerms batch (g_ID g)) !! k)
      (map (fun y => gp_ContractAccess y !! k) (map (fun g => groupPerms batch (g_ID g)) gs)).
Proof.
  destruct groups as [|g gs] eqn:Eg; [done|].
  destruct (computePermissions_member _ _ _ _ _ _ _ Hms Hgroups eq_refl Hnotadmin Hp)
    as (batch & Hb & ->).
  exists batch, g, gs. split_and!; [done..|]. simpl. intros k.
  apply merged_entry; [apply groupPerms_lowerKeyed|].
  intros y (g' & -> & _)%list_elem_of_fmap. apply groupPerms_lowerKeyed.
Qed.
End member.
End resolve.

(** ** Theorems *)

(** a non-admin member's resolved contract access is exactly the union of
    their groups' grants: an address is reachable iff some group of theirs has
    a grant on a contract at that address, and a claim is held on it iff one
    of the groups that grant it carries the claim. *)
Theorem resolved_contract_access_is_union
    `{Store} decryptAESGCM encryptionKey cacheTTL ctx freshID userID orgID p ms groups :
  ListUserMembershipsInOrg userID orgID = Ok ms ->
  membershipGroups ms = Ok groups -> groups <> [] -> existsb g_IsOrgAdmin groups = false ->
  computePermissions decryptAESGCM encryptionKey cacheTTL ctx freshID userID orgID = Ok p ->
  exists batch, loadGroupPerms (membershipGroupIDs groups) true = Ok batch /\
    (forall k, is_Some (ep_ContractAccess p !! k) <->
       exists g grant, g ∈ groups /\ grantOn batch (g_ID g) k grant) /\
    (forall k acc c, ep_ContractAccess p !! k = Some acc ->
       c ∈ ca_Claims acc <->
       exists g grant, g ∈ groups /\ grantOn batch (g_ID g) k grant /\
                       c ∈ groupClaims batch (g_ID g)).
Proof.
  intros Hms Hg Hne Hna Hp.
  destruct (member_entry _ _ _ _ _ _ _ _ _ _ Hms Hg Hne Hna Hp)
    as (batch & g & gs & -> & Hb & _ & _ & He).
  exists batch. split; [done|]. split.
  - intros k. rewrite He, unionEntry_is_Some. setoid_rewrite groups_entries_elem. split.
    + intros (e & (g' & Hg' & ->) & Hs). apply groupPerms_is_Some in Hs as [grant ?].
      exists g', grant. done.
    + intros (g' & grant & Hg' & Hgr).
      assert (Hs := proj1 (groupPerms_is_Some decryptAESGCM encryptionKey batch (g_ID g') k)
                      (ex_intro _ _ Hgr)). eauto.
  - intros k acc c Hk. rewrite He in Hk.
    rewrite (unionEntry_pred (fun acc => c ∈ ca_Claims acc) (fun _ => True) _ _ _ ltac:(
      intros a b _ _; split; [done|apply elem_of_unionClaims]) ltac:(done) Hk).
    setoid_rewrite groups_entries_elem. split.
    + intros (e & (g' & Hg' & Hs) & Hc). symmetry in Hs.
      apply groupPerms_access in Hs as (grant & ? & ->). exists g', grant. done.
    + intros (g' & grant & Hg' & Hgr & Hc).
      destruct (proj1 (groupPerms_is_Some decryptAESGCM encryptionKey batch (g_ID g') k)
                      (ex_intro _ _ Hgr)) as [acc' Hacc].
      exists acc'. split; [eauto|].
      apply groupPerms_access in Hacc as (grant' & _ & ->). done.
Qed.

(** with ASCII selectors, a function of a contract is callable under the
    merged permissions iff one of the granting groups allows it. *)
Theorem resolved_functions_are_union
    `{Store} decryptAESGCM encryptionKey cacheTTL ctx freshID userID orgID p ms groups :
  ListUserMembershipsInOrg userID orgID = Ok ms ->
  membershipGroups ms = Ok groups -> groups <> [] -> existsb g_IsOrgAdmin groups = false ->
  computePermissions decryptAESGCM encryptionKey cacheTTL ctx freshID userID orgID = Ok p ->
  exists batch, loadGroupPerms (membershipGroupIDs groups) true = Ok batch /\
    forall k acc sel,
      (forall g grant, g ∈ groups -> grantOn batch (g_ID g) k grant ->
         ascii_rules (cg_Functions grant)) ->
      ep_ContractAccess p !! k = Some acc ->
      functionsAllow (ca_Functions acc) sel = true <->
      exists g acc', g ∈ groups /\
        gp_ContractAccess (groupPerms decryptAESGCM encryptionKey batch (g_ID g)) !! k = Some acc' /\
        functionsAllow (ca_Functions acc') sel = true.
Proof.
  intros Hms Hg Hne Hna Hp.
  destruct (member_entry _ _ _ _ _ _ _ _ _ _ Hms Hg Hne Hna Hp)
    as (batch & g & gs & -> & Hb & _ & _ & He).
  exists batch. split; [done|]. intros k acc sel Hascii Hk. rewrite He in Hk.
  assert (HU : forall a b : ContractAccess,
    ascii_rules (ca_Functions a) -> ascii_rules (ca_Functions b) ->
    ascii_rules (ca_Functions (unionAccess a b)) /\
    (functionsAllow (ca_Functions (unionAccess a b)) sel = true <->
     functionsAllow (ca_Functions a) sel = true \/ functionsAllow (ca_Functions b) sel = true)).
  { intros a b Ha Hb'. split; [by apply unionFunctions_ascii|]. simpl.
    rewrite functionsAllow_union by done. apply orb_true_iff. }
  apply (unionEntry_pred (fun acc => functionsAllow (ca_Functions acc) sel = true)
           (fun acc => ascii_rules (ca_Functions acc))) in Hk; [rewrite Hk|done|].
  - setoid_rewrite groups_entries_elem. split.
    + intros (e & (g' & Hg' & Hs) & Hc). exists g', e. done.
    + intros (g' & e & Hg' & Hs & Hc). exists e. split; [|done]. exists g'. done.
  - intros e (g' & Hg' & Hs)%groups_entries_elem. symmetry in Hs.
    apply groupPerms_access in Hs as (grant & Hgr & ->). by apply (Hascii g' grant).
Qed.

(** The constructor-level facts about admins and about expiry. *)
Lemma foldl_insert_lower (contracts : list Contract) (v : ContractAccess)
    (m : gmap string ContractAccess) k :
  foldl (fun m contract => <[ToLower (c_Address contract) := v]> m) m contracts !! k =
  (if decide (k ∈ map (fun c => ToLower (c_Address c)) contracts) then Some v else m !! k).
Proof.
  revert m. induction contracts as [|c l IH]; intros m; cbn [map foldl].
  { rewrite decide_False; [done|set_solver]. }
  rewrite IH. rewrite lookup_insert.
  destruct (decide (k ∈ map (fun c => ToLower (c_Address c)) l)) as [Hl|Hl].
  - rewrite decide_True by set_solver. done.
  - destruct (decide (ToLower (c_Address c) = k)) as [<-|Hk].
    + rewrite decide_True by set_solver. done.
    + rewrite decide_False by set_solver. done.
Qed.

(** an organization admin holds every claim on every contract of the
    organization, with no function restriction, and has no entry for any other
    address. *)
Theorem org_admin_holds_all_claims
    `{Store} decryptAESGCM encryptionKey cacheTTL ctx freshID userID orgID p ms groups contracts :
  ListUserMembershipsInOrg userID orgID = Ok ms ->
  membershipGroups ms = Ok groups -> existsb g_IsOrgAdmin groups = true ->
  ListContracts orgID = Ok contracts ->
  computePermissions decryptAESGCM encryptionKey cacheTTL ctx freshID userID orgID = Ok p ->
  ep_Claims p = AllClaims /\
  forall k, ep_ContractAccess p !! k =
    if decide (k ∈ map (fun c => ToLower (c_Address c)) contracts)
    then Some {| ca_Claims := AllClaims; ca_Functions := None; ca_EventRules := None |}
    else None.
Proof.
  intros Hms Hg Hadm Hc. unfold computePermissions. rewrite Hms. simpl. rewrite Hg. simpl.
  destruct groups as [|g gs]; [done|]. rewrite Hadm. unfold computeOrgAdminPermissions.
  rewrite Hc. simpl. intros (batch & _ & Hp)%bind_Ok. injection Hp as <-. simpl.
  split; [done|]. intros k. by rewrite foldl_insert_lower, lookup_empty.
Qed.

Lemma membershipGroups_length ms groups :
  membershipGroups ms = Ok groups -> length groups = length ms.
Proof.
  revert groups. induction ms as [|m ms IH]; intros groups; simpl; [by intros [= <-]|].
  intros (gs & Hgs & Hg)%bind_Ok. destruct (md_Group m); [|done].
  injection Hg as <-. simpl. f_equal. by apply IH.
Qed.

Lemma cacheExpiry_le ms start :
  let f := (fun exp m => match md_Membership m ≫= um_ExpiresAt with
                         | Some t => if (t <? exp)%Z then t else exp
                         | None => exp
                         end) in
  (foldl f start ms <= start)%Z /\
  forall m t, m ∈ ms -> md_Membership m ≫= um_ExpiresAt = Some t -> (foldl f start ms <= t)%Z.
Proof.
  simpl. revert start. induction ms as [|m ms IH]; intros start; simpl; [split; [lia|set_solver]|].
  set (start' := match md_Membership m ≫= um_ExpiresAt with
                 | Some t => if (t <? start)%Z then t else start
                 | None => start
                 end).
  destruct (IH start') as [IH1 IH2].
  assert (Hs : (start' <= start)%Z).
  { subst start'. destruct (md_Membership m ≫= um_ExpiresAt) as [t|]; [|lia].
    destruct (Z.ltb_spec t start); lia. }
  split; [lia|]. intros m' t [->|Hm]%elem_of_cons Ht; [|by eapply IH2].
  assert (start' <= t)%Z; [|lia]. subst start'. rewrite Ht. destruct (Z.ltb_spec t start); lia.
Qed.

(** resolved permissions never outlive the cache TTL, nor the expiry of
    any membership they were computed from; so a time-boxed membership cannot
    be used from a cache after its window. *)
Theorem permissions_expire_with_memberships
    `{Store} decryptAESGCM encryptionKey cacheTTL ctx freshID userID orgID p ms :
  ListUserMembershipsInOrg userID orgID = Ok ms ->
  computePermissions decryptAESGCM encryptionKey cacheTTL ctx freshID userID orgID = Ok p ->
  ep_UserID p = userID /\ ep_OrgID p = orgID /\
  (ep_ExpiresAt p <= ctx_now ctx + cacheTTL)%Z /\
  forall m t, m ∈ ms -> md_Membership m ≫= um_ExpiresAt = Some t -> (ep_ExpiresAt p <= t)%Z.
Proof.
  intros Hms. unfold computePermissions. rewrite Hms. cbn [mbind result_bind].
  intros (groups & Hg & Hp)%bind_Ok.
  pose proof (cacheExpiry_le ms (ctx_now ctx + cacheTTL)%Z) as [He1 He2].
  destruct groups as [|g gs].
  { injection Hp as <-. split_and!; [done..|simpl; lia|].
    apply membershipGroups_length in Hg. destruct ms; [set_solver|done]. }
  destruct (existsb g_IsOrgAdmin (g :: gs)).
  - unfold computeOrgAdminPermissions in Hp. apply bind_Ok in Hp as (cs & _ & Hp).
    apply bind_Ok in Hp as (batch & _ & Hp). injection Hp as <-. simpl. done.
  - apply bind_Ok in Hp as (batch & _ & Hp). injection Hp as <-. simpl. done.
Qed.
