(* ===== verification/Cache.v ===== *)
(** * The in-memory permission cache: [internal/rbac/cache.go]

    Entries are keyed by "userID:orgID" and carry an expiry and a last-access
    time.  Go iterates a map in an unspecified order, which the sampled-LRU
    eviction observes: the order is the parameter [iter].  Locks and the
    background goroutine are not modelled; each operation holds the lock for
    its whole body, and [cleanup] is one round of the goroutine. *)
From S2P Require Import Prelude GoStrings Methods Models.
From Stdlib Require Import Ascii.
Local Open Scope string_scope.

Record cacheEntry := {
  ce_permissions : EffectivePermissions;
  ce_expiresAt : Z;
  ce_lastAccess : Z }.

Record Cache := {
  ca_entries : gmap string cacheEntry;
  ca_ttl : Z;
  ca_maxEntries : nat }.

Record CacheStats := { cs_Entries : nat; cs_ExpiredPending : nat; cs_MaxEntries : nat }.

(** The zero [time.Time], January 1, year 1, in Unix nanoseconds. *)
Definition zeroTime : Z := (-62135596800 * 1000000000)%Z.

Definition defaultTTL : Z := (5 * 60 * 1000000000)%Z.
Definition defaultMaxEntries : nat := N.to_nat 50000.

Definition NewCache (ttl : Z) (maxEntries : nat) : Cache := {|
  ca_entries := ∅;
  ca_ttl := if decide (ttl = 0%Z) then defaultTTL else ttl;
  ca_maxEntries := if decide (maxEntries = 0) then defaultMaxEntries else maxEntries |}.

Definition cacheKey (userID orgID : string) : string := userID +:+ ":" +:+ orgID.

Definition setEntries (c : Cache) (m : gmap string cacheEntry) : Cache :=
  {| ca_entries := m; ca_ttl := ca_ttl c; ca_maxEntries := ca_maxEntries c |}.

(** [Get] records the access time of the entry it returns. *)
Definition Get (now : Z) (userID orgID : string) (c : Cache)
  : option EffectivePermissions * Cache :=
  let key := cacheKey userID orgID in
  match ca_entries c !! key with
  | None => (None, c)
  | Some entry =>
      if (ce_expiresAt entry <? now)%Z then (None, c)
      else (Some (ce_permissions entry),
            setEntries c (<[key := {| ce_permissions := ce_permissions entry;
                                      ce_expiresAt := ce_expiresAt entry;
                                      ce_lastAccess := now |}]> (ca_entries c)))
  end.

Definition evictSampleSize : nat := 8.

(** The loop of [evictLRU] over the sampled keys: the victim so far and its
    access time; ties keep the earlier key. *)
Fixpoint oldest (m : gmap string cacheEntry) (keys : list string) (best : option (string * Z))
  : option string :=
  match keys with
  | [] => fst <$> best
  | key :: keys =>
      match m !! key with
      | None => oldest m keys best
      | Some entry =>
          let access := ce_lastAccess entry in
          match best with
          | Some (_, old) =>
              if (access <? old)%Z then oldest m keys (Some (key, access)) else oldest m keys best
          | None => oldest m keys (Some (key, access))
          end
      end
  end.

Section with_order.
(** The order in which [range] visits the entries. *)
Variable iter : gmap string cacheEntry -> list string.

Definition evictLRU (m : gmap string cacheEntry) : gmap string cacheEntry :=
  match oldest m (take evictSampleSize (iter m)) None with
  | Some victim => if decide (victim = "") then m else delete victim m
  | None => m
  end.

Definition SetWithTTL (now : Z) (perms : EffectivePermissions) (ttl : Z) (c : Cache) : Cache :=
  let key := cacheKey (ep_UserID perms) (ep_OrgID perms) in
  let m := match ca_entries c !! key with
           | Some _ => ca_entries c
           | None => if Nat.leb (ca_maxEntries c) (size (ca_entries c))
                     then evictLRU (ca_entries c) else ca_entries c
           end in
  let expiresAt := (now + ttl)%Z in
  let expiresAt :=
    if negb (bool_decide (ep_ExpiresAt perms = zeroTime)) && (ep_ExpiresAt perms <? expiresAt)%Z
    then ep_ExpiresAt perms else expiresAt in
  setEntries c (<[key := {| ce_permissions := perms; ce_expiresAt := expiresAt;
                            ce_lastAccess := now |}]> m).

Definition Set_ (now : Z) (perms : EffectivePermissions) (c : Cache) : Cache :=
  SetWithTTL now perms (ca_ttl c) c.
End with_order.

(** [len(key) > len(u) && key[:len(u)] == u && key[len(u)] == ':'] *)
Definition keyOfUser (userID key : string) : bool := HasPrefix key (userID +:+ ":").

(** [len(key) > len(suffix) && key[len(key)-len(suffix):] == suffix] *)
Definition keyOfOrg (orgID key : string) : bool :=
  let suffix := ":" +:+ orgID in
  Nat.ltb (String.length suffix) (String.length key) && HasSuffix key suffix.

Definition InvalidateUser (userID : string) (c : Cache) : Cache :=
  setEntries c (filter (fun '(key, _) => keyOfUser userID key = false) (ca_entries c)).

Definition InvalidateOrg (orgID : string) (c : Cache) : Cache :=
  setEntries c (filter (fun '(key, _) => keyOfOrg orgID key = false) (ca_entries c)).

Definition Invalidate (userID orgID : string) (c : Cache) : Cache :=
  setEntries c (delete (cacheKey userID orgID) (ca_entries c)).

Definition Clear (c : Cache) : Cache := setEntries c ∅.

Definition Size (c : Cache) : nat := size (ca_entries c).

Definition cleanup (now : Z) (c : Cache) : Cache :=
  setEntries c (filter (fun '(_, e) => (ce_expiresAt e <? now)%Z = false) (ca_entries c)).

Definition Stats (now : Z) (c : Cache) : CacheStats := {|
  cs_Entries := size (ca_entries c);
  cs_ExpiredPending :=
    length (filter (fun '(_, e) => (ce_expiresAt e <? now)%Z = true) (map_to_list (ca_entries c)));
  cs_MaxEntries := ca_maxEntries c |}.

(** ** Invariant *)

(** An enumeration of the keys: what [range] guarantees. *)
Definition enumerates (iter : gmap string cacheEntry -> list string) : Prop :=
  forall m k, k ∈ iter m <-> is_Some (m !! k).

Definition entry_ok (k : string) (e : cacheEntry) : Prop :=
  k = cacheKey (ep_UserID (ce_permissions e)) (ep_OrgID (ce_permissions e)) /\
  (ep_ExpiresAt (ce_permissions e) <> zeroTime ->
   (ce_expiresAt e <= ep_ExpiresAt (ce_permissions e))%Z).

Record cache_ok (c : Cache) : Prop := {
  cache_entries_ok : forall k e, ca_entries c !! k = Some e -> entry_ok k e;
  cache_bounded : size (ca_entries c) <= ca_maxEntries c;
  cache_max_pos : 0 < ca_maxEntries c
}.

Lemma filter_ok P `{forall x, Decision (P x)} c :
  cache_ok c -> cache_ok (setEntries c (filter P (ca_entries c))).
Proof.
  intros [He Hb Hm]. split; simpl; [|etrans; [apply map_size_filter|done]|done].
  intros k e [Hk _]%map_lookup_filter_Some. by apply He.
Qed.

Lemma NewCache_ok ttl max : cache_ok (NewCache ttl max).
Proof.
  split; simpl; [intros ? ?; by rewrite lookup_empty|rewrite map_size_empty; lia|].
  unfold defaultMaxEntries. case_decide; lia.
Qed.

Lemma Get_ok now u o c p c' :
  cache_ok c -> Get now u o c = (p, c') -> cache_ok c'.
Proof.
  intros [He Hb Hm]. unfold Get. destruct (ca_entries c !! cacheKey u o) as [e|] eqn:E.
  - destruct (ce_expiresAt e <? now)%Z; intros [= <- <-]; [by split|].
    split; simpl; [|by rewrite map_size_insert_Some|done].
    intros k e' [[<- <-]|[_ Hk]]%lookup_insert_Some; [|by apply He].
    apply He in E as [E1 E2]. by split.
  - intros [= <- <-]. by split.
Qed.

Lemma oldest_elem (m : gmap string cacheEntry) keys best k :
  oldest m keys best = Some k ->
  (exists v, best = Some (k, v)) \/ (k ∈ keys /\ is_Some (m !! k)).
Proof.
  revert best. induction keys as [|key keys IH]; intros best; simpl.
  { destruct best as [[x z]|]; naive_solver. }
  destruct (m !! key) as [e|] eqn:E; [|intros [?|[? ?]]%IH; [by left|right; set_solver]].
  destruct best as [[x z]|].
  - destruct (ce_lastAccess e <? z)%Z.
    + intros [[v [= <- <-]]|[? ?]]%IH; right; [|set_solver]. rewrite E. set_solver.
    + intros [?|[? ?]]%IH; [by left|right; set_solver].
  - intros [[v [= <- <-]]|[? ?]]%IH; right; [|set_solver]. rewrite E. set_solver.
Qed.

Lemma oldest_Some (m : gmap string cacheEntry) keys k :
  k ∈ keys -> is_Some (m !! k) -> exists v, oldest m keys None = Some v.
Proof.
  assert (Hb : forall keys (b : string * Z), exists v, oldest m keys (Some b) = Some v).
  { clear. induction keys as [|key keys IH]; intros [x z]; simpl; [eauto|].
    destruct (m !! key) as [e|]; [|eauto]. destruct (ce_lastAccess e <? z)%Z; eauto. }
  induction keys as [|key keys IH]; [set_solver|]. simpl.
  intros [->|Hk]%elem_of_cons [e He]; [rewrite He; eauto|].
  destruct (m !! key); eauto.
Qed.

Lemma append_nonempty a b : a +:+ ":" +:+ b <> "".
Proof. by destruct a. Qed.

Section with_order_lemmas.
Context (iter : gmap string cacheEntry -> list string) (Hiter : enumerates iter).

Lemma evictLRU_ok (m : gmap string cacheEntry) :
  (forall k e, m !! k = Some e -> entry_ok k e) -> m <> ∅ ->
  exists k, is_Some (m !! k) /\ evictLRU iter m = delete k m.
Proof.
  intros Hm Hne. unfold evictLRU.
  destruct (take evictSampleSize (iter m)) as [|k0 ks] eqn:Et.
  { destruct (map_choose m Hne) as (k & e & Hk).
    assert (Hi : k ∈ iter m) by (apply Hiter; eauto).
    destruct (iter m); [set_solver|done]. }
  assert (Hk0 : is_Some (m !! k0)).
  { apply Hiter. apply (subseteq_take evictSampleSize). rewrite Et. constructor. }
  destruct (oldest_Some m (k0 :: ks) k0) as [v Hv]; [constructor|done|]. rewrite Hv.
  apply oldest_elem in Hv as [[? [=]]|[_ Hs]].
  exists v. split; [done|]. destruct Hs as [e He].
  destruct (decide (v = "")) as [->|]; [|done].
  apply Hm in He as [He _]. by apply eq_sym, append_nonempty in He.
Qed.

Lemma SetWithTTL_ok now p ttl c : cache_ok c -> cache_ok (SetWithTTL iter now p ttl c).
Proof.
  intros Hc. destruct Hc as [He Hb Hm].
  set (key := cacheKey (ep_UserID p) (ep_OrgID p)).
  assert (Hexp : forall x, entry_ok key {| ce_permissions := p; ce_lastAccess := now;
    ce_expiresAt := if negb (bool_decide (ep_ExpiresAt p = zeroTime)) && (ep_ExpiresAt p <? x)%Z
                    then ep_ExpiresAt p else x |}).
  { intros x. split; [done|]. simpl. intros Hz. rewrite bool_decide_eq_false_2 by done. simpl.
    destruct (Z.ltb_spec (ep_ExpiresAt p) x); lia. }
  unfold SetWithTTL. fold key.
  destruct (ca_entries c !! key) as [e|] eqn:E.
  { split; simpl; [|by rewrite map_size_insert_Some|done].
    intros k e' [[<- <-]|[_ Hk]]%lookup_insert_Some; [apply Hexp|by apply He]. }
  destruct (Nat.leb_spec (ca_maxEntries c) (size (ca_entries c))) as [Hfull|Hroom].
  - destruct (evictLRU_ok (ca_entries c) He) as (k & Hk & ->).
    { intros H0. rewrite H0, map_size_empty in Hfull. lia. }
    split; simpl; [..|done].
    + intros k' e' [[<- <-]|[_ Hk']]%lookup_insert_Some; [apply Hexp|].
      apply lookup_delete_Some in Hk' as [_ Hk']. by apply He.
    + rewrite map_size_insert_None.
      * rewrite map_size_delete_Some by done.
        assert (0 < size (ca_entries c)) by lia. lia.
      * apply lookup_delete_None. auto.
  - split; simpl; [|rewrite map_size_insert_None by done; lia|done].
    intros k' e' [[<- <-]|[_ Hk']]%lookup_insert_Some; [apply Hexp|by apply He].
Qed.
End with_order_lemmas.

(** ** Reachable caches *)
Inductive cache_step (iter : gmap string cacheEntry -> list string) : Cache -> Cache -> Prop :=
| step_get now u o c p c' : Get now u o c = (p, c') -> cache_step iter c c'
| step_set now p ttl c : cache_step iter c (SetWithTTL iter now p ttl c)
| step_inv_user u c : cache_step iter c (InvalidateUser u c)
| step_inv_org o c : cache_step iter c (InvalidateOrg o c)
| step_inv u o c : cache_step iter c (Invalidate u o c)
| step_clear c : cache_step iter c (Clear c)
| step_cleanup now c : cache_step iter c (cleanup now c).

Inductive cache_reachable iter : Cache -> Prop :=
| creach_new ttl max : cache_reachable iter (NewCache ttl max)
| creach_step c c' : cache_reachable iter c -> cache_step iter c c' -> cache_reachable iter c'.

Lemma cache_step_ok iter c c' : enumerates iter -> cache_ok c -> cache_step iter c c' -> cache_ok c'.
Proof.
  intros Hi Hc Hs. destruct Hs.
  - by eapply Get_ok.
  - by apply SetWithTTL_ok.
  - by apply filter_ok.
  - by apply filter_ok.
  - destruct Hc as [He Hb Hm]. split; simpl; [|unfold Invalidate; rewrite map_size_delete;
      destruct (ca_entries c !! cacheKey u o); simpl; lia|done].
    intros k e [_ Hk]%lookup_delete_Some. by apply He.
  - destruct Hc. split; simpl; [intros ? ?; by rewrite lookup_empty|rewrite map_size_empty; lia|done].
  - by apply filter_ok.
Qed.

Lemma cache_reachable_ok iter c : enumerates iter -> cache_reachable iter c -> cache_ok c.
Proof. intros Hi. induction 1; eauto using NewCache_ok, cache_step_ok. Qed.

Lemma Get_Some now u o c p c' :
  Get now u o c = (Some p, c') ->
  exists e, ca_entries c !! cacheKey u o = Some e /\ ce_permissions e = p /\
            (now <= ce_expiresAt e)%Z.
Proof.
  unfold Get. destruct (ca_entries c !! cacheKey u o) as [e|] eqn:E; [|done].
  destruct (Z.ltb_spec (ce_expiresAt e) now); [done|]. intros [= <- _]. exists e. split_and!; [done..|lia].
Qed.

Lemma keyOfUser_cacheKey u o : keyOfUser u (cacheKey u o) = true.
Proof.
  unfold keyOfUser, cacheKey. rewrite <- app_str_assoc. apply HasPrefix_app.
Qed.

Lemma keyOfOrg_cacheKey u o : u <> "" -> keyOfOrg o (cacheKey u o) = true.
Proof.
  intros Hu. unfold keyOfOrg, cacheKey. rewrite HasSuffix_app, andb_true_r.
  apply Nat.ltb_lt. rewrite !length_app_str. destruct u; [done|simpl; lia].
Qed.

Lemma Get_filtered now u o c P `{forall x, Decision (P x)} :
  (forall e, ~ P (cacheKey u o, e)) ->
  fst (Get now u o (setEntries c (filter P (ca_entries c)))) = None.
Proof.
  intros HP. unfold Get. simpl.
  destruct (filter P (ca_entries c) !! cacheKey u o) as [e|] eqn:E; [|done].
  apply map_lookup_filter_Some in E as [_ E]. by apply HP in E.
Qed.

(** in every reachable cache, a hit returns permissions stored under the
    same user and organization key that have not passed their own expiry, and
    the number of entries never exceeds the configured maximum. *)
Theorem cache_hit_is_live_and_bounded iter c now u o p c' :
  enumerates iter -> cache_reachable iter c ->
  Get now u o c = (Some p, c') ->
  cacheKey (ep_UserID p) (ep_OrgID p) = cacheKey u o /\
  (ep_ExpiresAt p <> zeroTime -> (now <= ep_ExpiresAt p)%Z) /\
  Size c' <= ca_maxEntries c'.
Proof.
  intros Hi Hc Hg. assert (Hok := cache_reachable_ok _ _ Hi Hc).
  assert (Hok' := Get_ok _ _ _ _ _ _ Hok Hg).
  apply Get_Some in Hg as (e & He & <- & Hnow).
  destruct (cache_entries_ok _ Hok _ _ He) as [Hk Hexp].
  split_and!; [done| |apply (cache_bounded _ Hok')].
  intros Hz%Hexp. lia.
Qed.

(** invalidating a user (an organization) leaves no usable entry of that
    user (organization), and invalidating a user drops no entry of another
    user whose identifier contains no colon. *)
Theorem cache_invalidation_exact c now u o :
  fst (Get now u o (InvalidateUser u c)) = None /\
  (u <> "" -> fst (Get now u o (InvalidateOrg o c)) = None) /\
  forall u', u' <> u -> no_colon u = true -> no_colon u' = true ->
    fst (Get now u' o (InvalidateUser u c)) = fst (Get now u' o c).
Proof.
  split_and!.
  - apply Get_filtered. intros e. by rewrite keyOfUser_cacheKey.
  - intros Hu. apply Get_filtered. intros e. by rewrite keyOfOrg_cacheKey.
  - intros u' Hne Hu Hu'. unfold Get. simpl.
    replace (filter (fun '(key, _) => keyOfUser u key = false) (ca_entries c) !! cacheKey u' o)
      with (ca_entries c !! cacheKey u' o).
    { destruct (ca_entries c !! cacheKey u' o); [|done].
      by destruct (_ <? _)%Z. }
    symmetry. destruct (ca_entries c !! cacheKey u' o) as [e|] eqn:E.
    + apply map_lookup_filter_Some. split; [done|]. simpl.
      destruct (keyOfUser u (cacheKey u' o)) eqn:Ek; [|done].
      apply HasPrefix_colon in Ek; [congruence|done..].
    + apply map_lookup_filter_None. by left.
Qed.
