(* ===== verification/SqlCache.v ===== *)
(** * The shared permission cache: [internal/db/rbac_store_cache.go] and
    [rbac_cache_generation.go].

    A row of [effective_permissions_cache] holds the columns the upsert
    writes; [contract_access] is a jsonb document, modelled as the typed tree
    [encoding/json] produces from [ContractAccess]: which fields are present,
    which are null, scalars as they are.  The generation counter is the single
    row of [rbac_cache_generation]. *)
From S2P Require Import Prelude GoStrings Methods Models Cache.
Local Open Scope string_scope.

(** ** The jsonb document *)

(** The value of ["event_rules"]: null, ["*"] or an array. *)
Inductive JsonEventRules := JNull | JStar | JRules (rules : list EventRule).

Record JsonContractAccess := {
  jc_claims : list Claim;
  jc_functions : option (list FunctionRule);   (* [None]: the key is absent *)
  jc_event_rules : JsonEventRules }.

(** [EventRulesField.MarshalJSON] behind a pointer. *)
Definition marshalEventRules (f : option EventRulesField) : JsonEventRules :=
  match f with
  | None => JNull
  | Some f =>
      if erf_Wildcard f then JStar
      else match erf_Rules f with [] => JNull | rules => JRules rules end
  end.

(** [EventRulesField.UnmarshalJSON] behind a pointer: null leaves it nil. *)
Definition unmarshalEventRules (j : JsonEventRules) : option EventRulesField :=
  match j with
  | JNull => None
  | JStar => Some {| erf_Wildcard := true; erf_Rules := [] |}
  | JRules rules => Some {| erf_Wildcard := false; erf_Rules := rules |}
  end.

(** The struct tags of [ContractAccess]: ["functions"] is [omitempty]. *)
Definition marshalAccess (a : ContractAccess) : JsonContractAccess := {|
  jc_claims := ca_Claims a;
  jc_functions := match ca_Functions a with
                  | None | Some [] => None
                  | Some rules => Some rules
                  end;
  jc_event_rules := marshalEventRules (ca_EventRules a) |}.

Definition unmarshalAccess (j : JsonContractAccess) : ContractAccess := {|
  ca_Claims := jc_claims j;
  ca_Functions := jc_functions j;
  ca_EventRules := unmarshalEventRules (jc_event_rules j) |}.

(** ** Rows *)
Record CacheRow := {
  row_id : string; row_user_id : string; row_org_id : string;
  row_allowed_methods : list string;
  row_contract_access : gmap string JsonContractAccess;
  row_claims : list Claim;
  row_computed_at : Z; row_expires_at : Z }.

Definition toRow (perms : EffectivePermissions) : CacheRow := {|
  row_id := ep_ID perms; row_user_id := ep_UserID perms; row_org_id := ep_OrgID perms;
  row_allowed_methods := ep_AllowedMethods perms;
  row_contract_access := marshalAccess <$> ep_ContractAccess perms;
  row_claims := ep_Claims perms;
  row_computed_at := ep_ComputedAt perms; row_expires_at := ep_ExpiresAt perms |}.

(** There is no column for the API key. *)
Definition fromRow (r : CacheRow) : EffectivePermissions := {|
  ep_ID := row_id r; ep_UserID := row_user_id r; ep_OrgID := row_org_id r;
  ep_AllowedMethods := row_allowed_methods r;
  ep_ContractAccess := unmarshalAccess <$> row_contract_access r;
  ep_Claims := row_claims r; ep_RPCAPIKey := "";
  ep_ComputedAt := row_computed_at r; ep_ExpiresAt := row_expires_at r |}.

(** [ON CONFLICT (user_id, org_id) DO UPDATE] keeps the row's [id]. *)
Definition upsertRow (old : option CacheRow) (r : CacheRow) : CacheRow :=
  match old with
  | None => r
  | Some o => {| row_id := row_id o; row_user_id := row_user_id r; row_org_id := row_org_id r;
                 row_allowed_methods := row_allowed_methods r;
                 row_contract_access := row_contract_access r; row_claims := row_claims r;
                 row_computed_at := row_computed_at r; row_expires_at := row_expires_at r |}
  end.

Record SqlCache := {
  sc_generation : Z;
  sc_rows : gmap (string * string) CacheRow }.

Definition GetCachedPermissions (now : Z) (userID orgID : string) (s : SqlCache)
  : option EffectivePermissions :=
  match sc_rows s !! (userID, orgID) with
  | Some r => if (now <? row_expires_at r)%Z then Some (fromRow r) else None
  | None => None
  end.

Definition setCachedPermissions (perms : EffectivePermissions) (s : SqlCache) : SqlCache := {|
  sc_generation := sc_generation s;
  sc_rows := let key := (ep_UserID perms, ep_OrgID perms) in
             <[key := upsertRow (sc_rows s !! key) (toRow perms)]> (sc_rows s) |}.

Definition CacheGeneration (s : SqlCache) : Z := sc_generation s.

Definition bumpCacheGeneration (s : SqlCache) : SqlCache := {|
  sc_generation := (sc_generation s + 1)%Z; sc_rows := sc_rows s |}.

(** One transaction: the generation row is locked [FOR SHARE] until the
    publication commits. *)
Definition SetCachedPermissionsAtGeneration (perms : EffectivePermissions) (wantGeneration : Z)
    (s : SqlCache) : bool * SqlCache :=
  if decide (sc_generation s = wantGeneration)
  then (true, setCachedPermissions perms s) else (false, s).

Definition deleteRows (p : string * string -> bool) (s : SqlCache) : SqlCache := {|
  sc_generation := sc_generation s;
  sc_rows := filter (fun '(k, _) => p k = false) (sc_rows s) |}.

Definition InvalidateCacheForUser (userID : string) (s : SqlCache) : SqlCache :=
  deleteRows (fun k => bool_decide (fst k = userID)) (bumpCacheGeneration s).

Definition InvalidateCacheForOrg (orgID : string) (s : SqlCache) : SqlCache :=
  deleteRows (fun k => bool_decide (snd k = orgID)) (bumpCacheGeneration s).

(** [members]: [SELECT user_id FROM user_memberships WHERE group_id = $1] *)
Definition InvalidateCacheForGroup (members : list string) (s : SqlCache) : SqlCache :=
  deleteRows (fun k => contains members (fst k)) (bumpCacheGeneration s).

Definition CleanupExpiredCache (now : Z) (s : SqlCache) : SqlCache := {|
  sc_generation := sc_generation s;
  sc_rows := filter (fun '(_, r) => (row_expires_at r <? now)%Z = false) (sc_rows s) |}.

(** ** The round trip *)

(** A function list the document can carry: [None], or a non-empty list. *)
Definition storable (a : ContractAccess) : Prop := ca_Functions a <> Some [].

Lemma roundtrip_functions a :
  ca_Functions (unmarshalAccess (marshalAccess a)) =
  match ca_Functions a with Some [] => None | f => f end.
Proof. unfold unmarshalAccess, marshalAccess; simpl. by destruct (ca_Functions a) as [[|]|]. Qed.

Lemma roundtrip_events f :
  match unmarshalEventRules (marshalEventRules f) with
  | None => match f with None => True | Some f => IsDeny f = true end
  | Some g => exists f', f = Some f' /\ IsWildcard g = IsWildcard f' /\ GetRules g = GetRules f' /\
                         IsDeny g = IsDeny f'
  end.
Proof.
  destruct f as [[w rules]|]; simpl; [|done]. destruct w; [|destruct rules]; simpl; [|done|].
  - by eexists.
  - by eexists.
Qed.

Lemma fromRow_upsert old p :
  fromRow (upsertRow old (toRow p)) = fromRow (toRow p) \/
  exists o, old = Some o /\
    fromRow (upsertRow old (toRow p)) =
    {| ep_ID := row_id o; ep_UserID := ep_UserID p; ep_OrgID := ep_OrgID p;
       ep_AllowedMethods := ep_AllowedMethods p;
       ep_ContractAccess := unmarshalAccess <$> (marshalAccess <$> ep_ContractAccess p);
       ep_Claims := ep_Claims p; ep_RPCAPIKey := "";
       ep_ComputedAt := ep_ComputedAt p; ep_ExpiresAt := ep_ExpiresAt p |}.
Proof. destruct old; simpl; eauto. Qed.

(** what the shared cache hands back.  Publishing permissions and reading
    them for the same user and organization before they expire returns the
    same methods, claims, expiry and contracts; per contract the claims are
    unchanged, the event rules have the same meaning, and the function list is
    unchanged except that the empty list is read back as no list. *)
Theorem cached_permissions_roundtrip p now s :
  (now < ep_ExpiresAt p)%Z ->
  exists q, GetCachedPermissions now (ep_UserID p) (ep_OrgID p) (setCachedPermissions p s) = Some q /\
    ep_UserID q = ep_UserID p /\ ep_OrgID q = ep_OrgID p /\
    ep_AllowedMethods q = ep_AllowedMethods p /\ ep_Claims q = ep_Claims p /\
    ep_ExpiresAt q = ep_ExpiresAt p /\
    (forall k, is_Some (ep_ContractAccess q !! k) <-> is_Some (ep_ContractAccess p !! k)) /\
    (forall k a, ep_ContractAccess p !! k = Some a ->
       exists b, ep_ContractAccess q !! k = Some b /\ ca_Claims b = ca_Claims a /\
         ca_Functions b = (match ca_Functions a with Some [] => None | f => f end) /\
         match ca_EventRules b with
         | None => match ca_EventRules a with None => True | Some f => IsDeny f = true end
         | Some g => exists f', ca_EventRules a = Some f' /\ IsWildcard g = IsWildcard f' /\
                       GetRules g = GetRules f' /\ IsDeny g = IsDeny f'
         end).
Proof.
  intros Hexp. unfold GetCachedPermissions, setCachedPermissions. simpl.
  rewrite lookup_insert_eq. set (r := upsertRow _ (toRow p)).
  assert (Hr : fromRow r = fromRow (toRow p) \/ exists i, fromRow r =
            {| ep_ID := i; ep_UserID := ep_UserID p; ep_OrgID := ep_OrgID p;
               ep_AllowedMethods := ep_AllowedMethods p;
               ep_ContractAccess := unmarshalAccess <$> (marshalAccess <$> ep_ContractAccess p);
               ep_Claims := ep_Claims p; ep_RPCAPIKey := "";
               ep_ComputedAt := ep_ComputedAt p; ep_ExpiresAt := ep_ExpiresAt p |}).
  { destruct (fromRow_upsert (sc_rows s !! (ep_UserID p, ep_OrgID p)) p) as [?|(o & _ & ?)]; eauto. }
  assert (He : row_expires_at r = ep_ExpiresAt p).
  { subst r. by destruct (sc_rows s !! _). }
  rewrite He, (proj2 (Z.ltb_lt _ _) Hexp). exists (fromRow r). split; [done|].
  assert (Hca : ep_ContractAccess (fromRow r) =
                unmarshalAccess <$> (marshalAccess <$> ep_ContractAccess p)).
  { destruct Hr as [->|[? ->]]; done. }
  split_and!; try (destruct Hr as [->|[? ->]]; done).
  - intros k. rewrite Hca, !lookup_fmap. destruct (ep_ContractAccess p !! k); simpl;
      split; intros [? ?]; done.
  - intros k a Hk. rewrite Hca, !lookup_fmap, Hk. simpl. eexists. split; [done|].
    split_and!; [done|apply roundtrip_functions|apply roundtrip_events].
Qed.

(** an events-only grant (an empty function list, which denies every
    function) read back from the shared cache allows every function, and the
    group's upstream API key is lost. *)
Theorem cached_events_only_grant_widens p k a now s sel :
  (now < ep_ExpiresAt p)%Z -> ep_ContractAccess p !! k = Some a -> ca_Functions a = Some [] ->
  functionsAllow (ca_Functions a) sel = false /\
  exists q b, GetCachedPermissions now (ep_UserID p) (ep_OrgID p) (setCachedPermissions p s) = Some q /\
    ep_ContractAccess q !! k = Some b /\ functionsAllow (ca_Functions b) sel = true /\
    ep_RPCAPIKey q = "".
Proof.
  intros Hexp Hk Hf. split; [by rewrite Hf|].
  unfold GetCachedPermissions, setCachedPermissions. simpl. rewrite lookup_insert_eq.
  assert (He : forall old, row_expires_at (upsertRow old (toRow p)) = ep_ExpiresAt p) by (by intros []).
  rewrite He, (proj2 (Z.ltb_lt _ _) Hexp). eexists _, (unmarshalAccess (marshalAccess a)).
  split; [done|]. split_and!; [|by rewrite roundtrip_functions, Hf|done].
  destruct (sc_rows s !! _); simpl; by rewrite !lookup_fmap, Hk.
Qed.
