(* ===== verification/PublishGuard.v ===== *)
(** * Concurrent permission resolution: [resolveCacheable], [awaitEntry] and
    [computeAndPublish] of [internal/rbac/resolver.go], interleaved with the
    mutations that invalidate the shared cache.

    Goroutines are tasks whose program counter is a point of the source
    between two shared-state accesses; every access to the SQL cache, the
    in-flight map, a broadcast entry or the RBAC tables is one step.  A
    compute reads the tables several times, each read at its own instant, so
    it is a tree of reads, not one atomic evaluation.

    Mutations come in the two forms of the source.  The operations of
    [internal/db/invalidating_deletes.go] commit the table change, the
    generation bump and the row deletion in one transaction ([step_commit]).
    The other administration handlers commit the change and then call
    [InvalidateUser], [InvalidateOrg] or [InvalidateGroup]: the mutation is
    pending until its bump and its deletion, two further steps, have run
    ([step_mutate], [step_bump], [step_delete]); it stays pending when they
    fail. *)
From S2P Require Import Prelude GoStrings Methods Models Cache SqlCache.
Local Open Scope string_scope.

Section guard.
(** [D]: the contents of the RBAC tables; [N]: what a compute draws besides
    them (its clock and fresh identifier). *)
Context {D N : Type}.

(** A computation that reads the tables a finite number of times. *)
Inductive prog : Type :=
| Ret (r : result EffectivePermissions)
| Read (k : D -> prog).

(** Evaluation against tables that do not change meanwhile. *)
Fixpoint run (d : D) (p : prog) : result EffectivePermissions :=
  match p with Ret r => r | Read k => run d (k d) end.

(** [p] is what remains of [p0] after some reads, of whatever tables. *)
Inductive sub : prog -> prog -> Prop :=
| sub_refl p : sub p p
| sub_read k d p : sub (k d) p -> sub (Read k) p.

(** [p] is what remains of [p0] after some reads that all gave what [d] gives. *)
Inductive onpath (d : D) : prog -> prog -> Prop :=
| path_refl p : onpath d p p
| path_read k p : onpath d (k d) p -> onpath d (Read k) p.

(** Two contents of the tables give the same answers to every read of [p]. *)
Fixpoint agree (d d' : D) (p : prog) : Prop :=
  match p with Ret _ => True | Read k => k d' = k d /\ agree d d' (k d) end.

Variable computeProg : N -> string -> string -> prog.

(** ** State *)

(** [inFlightEntry]; [None] is an open [done] channel. *)
Record Entry := { en_outcome : option (result EffectivePermissions * bool) }.

Inductive pc :=
| Lookup (joinInFlight : bool)               (* before GetCachedPermissions *)
| Peek                                      (* before the read-locked map lookup *)
| Claiming (joinInFlight : bool)                (* before the write-locked double check *)
| Wait (entry : nat)                         (* in awaitEntry *)
| Snapshot (entry : option nat)              (* before CacheGeneration *)
| Computing (entry : option nat) (gen : option Z) (n : N) (p : prog)
| Publish (entry : option nat) (gen : option Z) (n : N) (r : result EffectivePermissions)
| Broadcast (entry : option nat) (r : result EffectivePermissions) (publishable : bool)
| Remove (r : result EffectivePermissions) (publishable : bool)
| Returned (r : result (EffectivePermissions * bool)).

Record Task := { t_user : string; t_org : string; t_pc : pc }.

(** A committed mutation whose invalidation has not completed: the users and
    organizations it affects, and whether the generation was bumped. *)
Record Pending := { pd_affected : string * string -> bool; pd_bumped : bool }.

Record World := {
  w_db : D;
  w_sql : SqlCache;
  w_pending : list Pending;
  w_inflight : gmap string nat;
  w_entries : gmap nat Entry;
  w_tasks : gmap nat Task }.

Definition at_pc (t : Task) (c : pc) : Task := {| t_user := t_user t; t_org := t_org t; t_pc := c |}.

Definition set_sql (w : World) (s : SqlCache) : World := {|
  w_db := w_db w; w_sql := s; w_pending := w_pending w; w_inflight := w_inflight w; w_entries := w_entries w;
  w_tasks := w_tasks w |}.

Definition set_flight (w : World) (m : gmap string nat) (es : gmap nat Entry) : World := {|
  w_db := w_db w; w_sql := w_sql w; w_pending := w_pending w; w_inflight := m; w_entries := es; w_tasks := w_tasks w |}.

Definition set_task (w : World) (tid : nat) (t : Task) : World := {|
  w_db := w_db w; w_sql := w_sql w; w_pending := w_pending w; w_inflight := w_inflight w;
  w_entries := w_entries w; w_tasks := <[tid := t]> (w_tasks w) |}.

(** [return perms, publishable, nil] / [return nil, false, err] *)
Definition returned (r : result EffectivePermissions) (publishable : bool) : pc :=
  Returned (match r with Ok p => Ok (p, publishable) | Err e => Err e end).

Definition flightKey (t : Task) : string := cacheKey (t_user t) (t_org t).

(** ** One step of one goroutine *)
Inductive task_step (w : World) (t : Task) : World -> Task -> Prop :=
| ts_lookup_err join e :
    t_pc t = Lookup join -> task_step w t w (at_pc t (Returned (Err e)))
| ts_hit join now p :
    t_pc t = Lookup join -> GetCachedPermissions now (t_user t) (t_org t) (w_sql w) = Some p ->
    task_step w t w (at_pc t (Returned (Ok (p, true))))
| ts_miss join now :
    t_pc t = Lookup join -> GetCachedPermissions now (t_user t) (t_org t) (w_sql w) = None ->
    task_step w t w (at_pc t (if join then Peek else Claiming false))
| ts_check_found e :
    t_pc t = Peek -> w_inflight w !! flightKey t = Some e ->
    task_step w t w (at_pc t (Wait e))
| ts_check_none :
    t_pc t = Peek -> w_inflight w !! flightKey t = None ->
    task_step w t w (at_pc t (Claiming true))
| ts_claim_beaten e :
    t_pc t = Claiming true -> w_inflight w !! flightKey t = Some e ->
    task_step w t w (at_pc t (Wait e))
| ts_claim_standalone e :
    t_pc t = Claiming false -> w_inflight w !! flightKey t = Some e ->
    task_step w t w (at_pc t (Snapshot None))
| ts_claim join e :
    t_pc t = Claiming join -> w_inflight w !! flightKey t = None -> w_entries w !! e = None ->
    task_step w t (set_flight w (<[flightKey t := e]> (w_inflight w))
                     (<[e := {| en_outcome := None |}]> (w_entries w)))
              (at_pc t (Snapshot (Some e)))
| ts_wait_cancel e err :
    t_pc t = Wait e -> task_step w t w (at_pc t (Returned (Err err)))
| ts_wait_err e err b :
    t_pc t = Wait e -> en_outcome <$> (w_entries w !! e) = Some (Some (Err err, b)) ->
    task_step w t w (at_pc t (Returned (Err err)))
| ts_wait_retry e p :
    t_pc t = Wait e -> en_outcome <$> (w_entries w !! e) = Some (Some (Ok p, false)) ->
    task_step w t w (at_pc t (Lookup false))
| ts_wait_ok e p :
    t_pc t = Wait e -> en_outcome <$> (w_entries w !! e) = Some (Some (Ok p, true)) ->
    task_step w t w (at_pc t (Returned (Ok (p, true))))
| ts_snapshot e n :
    t_pc t = Snapshot e ->
    task_step w t w (at_pc t (Computing e (Some (CacheGeneration (w_sql w))) n
                                (computeProg n (t_user t) (t_org t))))
| ts_snapshot_err e n :
    t_pc t = Snapshot e ->
    task_step w t w (at_pc t (Computing e None n (computeProg n (t_user t) (t_org t))))
| ts_read e g n k :
    t_pc t = Computing e g n (Read k) -> task_step w t w (at_pc t (Computing e g n (k (w_db w))))
| ts_computed e g n r :
    t_pc t = Computing e g n (Ret r) -> task_step w t w (at_pc t (Publish e g n r))
| ts_publish e g n p b s :
    t_pc t = Publish e (Some g) n (Ok p) ->
    SetCachedPermissionsAtGeneration p g (w_sql w) = (b, s) ->
    task_step w t (set_sql w s) (at_pc t (Broadcast e (Ok p) b))
| ts_publish_fail e g n p :
    t_pc t = Publish e (Some g) n (Ok p) ->
    task_step w t w (at_pc t (Broadcast e (Ok p) false))
| ts_publish_unacknowledged e g n p b s :
    t_pc t = Publish e (Some g) n (Ok p) ->
    SetCachedPermissionsAtGeneration p g (w_sql w) = (b, s) ->
    task_step w t (set_sql w s) (at_pc t (Broadcast e (Ok p) false))
| ts_publish_blind e n p :
    t_pc t = Publish e None n (Ok p) -> task_step w t w (at_pc t (Broadcast e (Ok p) false))
| ts_publish_error e g n err :
    t_pc t = Publish e g n (Err err) -> task_step w t w (at_pc t (Broadcast e (Err err) false))
| ts_standalone r b :
    t_pc t = Broadcast None r b -> task_step w t w (at_pc t (returned r b))
| ts_broadcast e r b :
    t_pc t = Broadcast (Some e) r b ->
    task_step w t (set_flight w (w_inflight w)
                     (<[e := {| en_outcome := Some (r, b) |}]> (w_entries w)))
              (at_pc t (Remove r b))
| ts_remove r b :
    t_pc t = Remove r b ->
    task_step w t (set_flight w (delete (flightKey t) (w_inflight w)) (w_entries w))
              (at_pc t (returned r b)).

(** A mutation affects at most the given users and organizations: for the
    others it changes no answer their compute reads. *)
Definition scoped (d d' : D) (affected : string * string -> bool) : Prop :=
  forall u o, affected (u, o) = false -> forall n, agree d d' (computeProg n u o).

Definition set_tables (w : World) (d : D) (s : SqlCache) (ps : list Pending) : World := {|
  w_db := d; w_sql := s; w_pending := ps; w_inflight := w_inflight w; w_entries := w_entries w;
  w_tasks := w_tasks w |}.

Inductive step (w : World) : World -> Prop :=
| step_spawn tid u o :
    w_tasks w !! tid = None ->
    step w (set_task w tid {| t_user := u; t_org := o; t_pc := Lookup true |})
| step_task tid t w1 t' :
    w_tasks w !! tid = Some t -> task_step w t w1 t' -> step w (set_task w1 tid t')
| step_commit d' affected :
    scoped (w_db w) d' affected ->
    step w (set_tables w d' (deleteRows affected (bumpCacheGeneration (w_sql w))) (w_pending w))
| step_mutate d' affected :
    scoped (w_db w) d' affected ->
    step w (set_tables w d' (w_sql w)
              ({| pd_affected := affected; pd_bumped := false |} :: w_pending w))
| step_bump pre affected post :
    w_pending w = (pre ++ {| pd_affected := affected; pd_bumped := false |} :: post)%list ->
    step w (set_tables w (w_db w) (bumpCacheGeneration (w_sql w))
              (pre ++ {| pd_affected := affected; pd_bumped := true |} :: post)%list)
| step_delete pre affected post :
    w_pending w = (pre ++ {| pd_affected := affected; pd_bumped := true |} :: post)%list ->
    step w (set_tables w (w_db w) (deleteRows affected (w_sql w)) (pre ++ post)%list)
| step_cleanup now : step w (set_sql w (CleanupExpiredCache now (w_sql w))).

Definition initial (d : D) (gen : Z) : World := {|
  w_db := d; w_sql := {| sc_generation := gen; sc_rows := ∅ |}; w_pending := [];
  w_inflight := ∅; w_entries := ∅; w_tasks := ∅ |}.

Inductive reachable : World -> Prop :=
| reach_init d gen : reachable (initial d gen)
| reach_step w w' : reachable w -> step w w' -> reachable w'.

Inductive steps : World -> World -> Prop :=
| steps_refl w : steps w w
| steps_cons w w1 w2 : step w w1 -> steps w1 w2 -> steps w w2.
End guard.
Arguments prog : clear implicits.
Arguments World : clear implicits.
Arguments Task : clear implicits.
Arguments pc : clear implicits.

(** ** Paths *)
Section paths.
Context {D : Type}.

Lemma onpath_run (d : D) p0 p : onpath d p0 p -> run d p = run d p0.
Proof. by induction 1. Qed.

Lemma onpath_next (d : D) p0 k : onpath d p0 (Read k) -> onpath d p0 (k d).
Proof.
  remember (Read k) as p eqn:Ep. induction 1 as [|k' p _ IH]; subst.
  - apply path_read, path_refl.
  - apply path_read. auto.
Qed.

Lemma onpath_agree (d d' : D) p0 p : agree d d' p0 -> onpath d p0 p -> onpath d' p0 p.
Proof.
  intros Ha Hp. induction Hp as [|k p _ IH]; [apply path_refl|].
  destruct Ha as [Hk Ha]. apply path_read. rewrite Hk. auto.
Qed.

Lemma agree_run (d d' : D) p : agree d d' p -> run d' p = run d p.
Proof.
  induction p as [|k IH]; [done|]. intros [Hk Ha]. simpl. rewrite Hk. by apply IH.
Qed.

Lemma sub_next (d : D) p0 k : sub p0 (Read k) -> sub p0 (k d).
Proof.
  remember (Read k) as p eqn:Ep. induction 1 as [|k' d' p _ IH]; subst.
  - eapply sub_read, sub_refl.
  - eapply sub_read. auto.
Qed.

Lemma sub_run (d : D) p : sub p (Ret (run d p)).
Proof. induction p as [r|k IH]; [apply sub_refl|]. eapply sub_read, IH. Qed.
End paths.

(** ** The guard *)
Section invariant.
Context {D N : Type} (computeProg : N -> string -> string -> prog D).
Hypothesis compute_identity : forall n u o p,
  sub (computeProg n u o) (Ret (Ok p)) -> ep_UserID p = u /\ ep_OrgID p = o.

(** A row that holds what the tables give now (its [id] apart). *)
Definition fresh_row (d : D) (u o : string) (row : CacheRow) : Prop :=
  exists n p, run d (computeProg n u o) = Ok p /\ row = upsertRow (Some row) (toRow p).

(** A pending mutation affects [u] in [o]. *)
Definition covered (w : World D N) (u o : string) : Prop :=
  exists pd, pd ∈ w_pending w /\ pd_affected pd (u, o) = true.

(** ... and has not bumped the generation yet. *)
Definition unbumped (w : World D N) (u o : string) : Prop :=
  exists pd, pd ∈ w_pending w /\ pd_affected pd (u, o) = true /\ pd_bumped pd = false.

Lemma unbumped_covered w u o : unbumped w u o -> covered w u o.
Proof. intros (pd & ? & ? & _). by exists pd. Qed.

(** A snapshot is from the past; when the generation has not moved since,
    what was computed is what the tables give now. *)
Definition guarded (w : World D N) (gen : option Z) (P : Prop) : Prop :=
  match gen with
  | None => True
  | Some g => (g <= sc_generation (w_sql w))%Z /\ (g = sc_generation (w_sql w) -> P)
  end.

Lemma guarded_mono w w' gen (P P' : Prop) :
  (sc_generation (w_sql w) <= sc_generation (w_sql w'))%Z ->
  (sc_generation (w_sql w) = sc_generation (w_sql w') -> P -> P') ->
  guarded w gen P -> guarded w' gen P'.
Proof.
  intros Hle HP. destruct gen as [g|]; [|done]. simpl. intros [Hg Hp]. split; [lia|].
  intros ->. assert (Heq : sc_generation (w_sql w) = sc_generation (w_sql w')) by lia. auto.
Qed.

Definition task_ok (w : World D N) (t : Task D N) : Prop :=
  match t_pc t with
  | Computing _ g n p =>
      sub (computeProg n (t_user t) (t_org t)) p /\
      guarded w g (unbumped w (t_user t) (t_org t) \/
                   onpath (w_db w) (computeProg n (t_user t) (t_org t)) p)
  | Publish _ g n r =>
      sub (computeProg n (t_user t) (t_org t)) (Ret r) /\
      guarded w g (unbumped w (t_user t) (t_org t) \/
                   r = run (w_db w) (computeProg n (t_user t) (t_org t)))
  | _ => True
  end.

(** Every row is current, or a pending mutation will delete it. *)
Definition rows_ok (w : World D N) (s : SqlCache) : Prop :=
  forall u o row, sc_rows s !! (u, o) = Some row -> covered w u o \/ fresh_row (w_db w) u o row.

Record world_ok (w : World D N) : Prop := {
  rows_fresh : rows_ok w (w_sql w);
  tasks_ok : forall tid t, w_tasks w !! tid = Some t -> task_ok w t }.

Lemma upsert_fresh d u o old p n :
  run d (computeProg n u o) = Ok p -> fresh_row d u o (upsertRow old (toRow p)).
Proof. intros Hr. exists n, p. split; [done|]. by destruct old. Qed.

(** Publication at the right generation writes a fresh row. *)
Lemma publish_fresh w t e g n p b s :
  world_ok w -> task_ok w t -> t_pc t = Publish e (Some g) n (Ok p) ->
  SetCachedPermissionsAtGeneration p g (w_sql w) = (b, s) ->
  sc_generation s = sc_generation (w_sql w) /\ rows_ok w s /\
  (b = true -> unbumped w (t_user t) (t_org t) \/
               run (w_db w) (computeProg n (t_user t) (t_org t)) = Ok p).
Proof.
  intros [Hrows _] Ht Hpc. unfold task_ok in Ht. rewrite Hpc in Ht. destruct Ht as (Hsub & _ & Hg).
  apply compute_identity in Hsub as [Hu Ho].
  unfold SetCachedPermissionsAtGeneration. case_decide as Hgen.
  - intros [= <- <-]. specialize (Hg (eq_sym Hgen)).
    split; [done|]. split; [|destruct Hg as [?| ->]; auto]. intros u o row. simpl.
    intros [[Hk <-]|[_ Hk]]%lookup_insert_Some; [|by apply Hrows].
    injection Hk as <- <-. rewrite Hu, Ho.
    destruct Hg as [Hg|Hg]; [left; by apply unbumped_covered|right; by eapply upsert_fresh].
  - intros [= <- <-]. split; [done|]. split; [done|]. intros Hx; discriminate Hx.
Qed.

Lemma task_step_ok w t w1 t' :
  world_ok w -> task_ok w t -> task_step computeProg w t w1 t' ->
  w_db w1 = w_db w /\ w_tasks w1 = w_tasks w /\ w_pending w1 = w_pending w /\
  sc_generation (w_sql w1) = sc_generation (w_sql w) /\ rows_ok w (w_sql w1) /\ task_ok w1 t'.
Proof.
  intros Hw Ht Hs. pose proof (rows_fresh _ Hw) as Hrows.
  destruct Hs as [| |join| | | | | | | | | |e n|e n|e g n k Hpc|e g n r Hpc
                 |e g n p b s Hpc Hset| |e g n p b s Hpc Hset| | | | |].
  all: try (split_and!; [done..|]; by destruct t).
  - split_and!; [done..|]. by destruct join.
  - split_and!; [done..|]. split; [apply sub_refl|]. split; [done|]. right. apply path_refl.
  - split_and!; [done..|]. split; [apply sub_refl|done].
  - split_and!; [done..|]. unfold task_ok in *. rewrite Hpc in Ht. destruct Ht as [Hsub Hg].
    split; [by apply sub_next|]. revert Hg. apply guarded_mono; [done|].
    intros _ [?|?%onpath_next]; auto.
  - split_and!; [done..|]. unfold task_ok in *. rewrite Hpc in Ht. destruct Ht as [Hsub Hg].
    split; [done|]. revert Hg. apply guarded_mono; [done|].
    intros _ [?|?%onpath_run]; auto.
  - destruct (publish_fresh w t e g n p b s Hw Ht Hpc Hset) as (? & ? & _).
    by split_and!.
  - destruct (publish_fresh w t e g n p b s Hw Ht Hpc Hset) as (? & ? & _).
    by split_and!.
Qed.

(** How the obligation of a task survives a step of the rest of the world. *)
Lemma task_ok_mono w w' t :
  (sc_generation (w_sql w) <= sc_generation (w_sql w'))%Z ->
  (sc_generation (w_sql w) = sc_generation (w_sql w') ->
   forall u o, (unbumped w u o -> unbumped w' u o) /\
     (unbumped w' u o \/ forall n, agree (w_db w) (w_db w') (computeProg n u o))) ->
  task_ok w t -> task_ok w' t.
Proof.
  intros Hle Hw. unfold task_ok. destruct (t_pc t) as [| | | | |e g n p|e g n r| | |]; try done.
  - intros [? Hg]. split; [done|]. revert Hg. apply guarded_mono; [done|].
    intros Heq Hor. destruct (Hw Heq (t_user t) (t_org t)) as [Hub Hag].
    destruct Hor as [?|Hp]; [auto|]. destruct Hag as [?|Hag]; [auto|right].
    by eapply onpath_agree.
  - intros [? Hg]. split; [done|]. revert Hg. apply guarded_mono; [done|].
    intros Heq Hor. destruct (Hw Heq (t_user t) (t_org t)) as [Hub Hag].
    destruct Hor as [?| ->]; [auto|]. destruct Hag as [?|Hag]; [auto|right].
    symmetry. by apply agree_run.
Qed.

Lemma agree_refl (d : D) p : agree d d p.
Proof. induction p; simpl; auto. Qed.

(** How a row survives: it stays covered, and stays fresh unless covered. *)
Lemma row_ok_mono w w' u o row :
  (covered w u o -> covered w' u o) ->
  (covered w' u o \/ forall n, agree (w_db w) (w_db w') (computeProg n u o)) ->
  covered w u o \/ fresh_row (w_db w) u o row ->
  covered w' u o \/ fresh_row (w_db w') u o row.
Proof.
  intros Hc Ha [?|(n & p & Hrun & Hrow)]; [auto|]. destruct Ha as [?|Ha]; [auto|right].
  exists n, p. split; [|done]. by rewrite (agree_run _ _ _ (Ha n)).
Qed.

Lemma commit_ok w d' affected :
  world_ok w -> scoped computeProg (w_db w) d' affected ->
  world_ok (set_tables w d' (deleteRows affected (bumpCacheGeneration (w_sql w))) (w_pending w)).
Proof.
  intros Hw Hsc. split; simpl.
  - intros u o row [Hk Ha]%map_lookup_filter_Some. apply (rows_fresh _ Hw) in Hk.
    revert Hk. apply row_ok_mono; [done|]. right. by apply Hsc.
  - intros tid t Ht%(tasks_ok _ Hw). revert Ht. apply task_ok_mono; simpl; lia.
Qed.

Lemma mutate_ok w d' affected :
  world_ok w -> scoped computeProg (w_db w) d' affected ->
  world_ok (set_tables w d' (w_sql w)
              ({| pd_affected := affected; pd_bumped := false |} :: w_pending w)).
Proof.
  intros Hw Hsc.
  set (pd := {| pd_affected := affected; pd_bumped := false |}).
  set (w' := set_tables w d' (w_sql w) (pd :: w_pending w)).
  assert (Hin : pd ∈ w_pending w') by (by left).
  split; simpl.
  - intros u o row Hk%(rows_fresh _ Hw). revert Hk. apply row_ok_mono.
    + intros (x & ? & ?). exists x. split; [by right|done].
    + destruct (affected (u, o)) eqn:E; [left; by exists pd|right; by apply Hsc].
  - intros tid t Ht%(tasks_ok _ Hw). revert Ht. apply task_ok_mono; [done|].
    intros _ u o. split.
    + intros (x & ? & ?). exists x. split; [by right|done].
    + destruct (affected (u, o)) eqn:E; [left; by exists pd|right; by apply Hsc].
Qed.

Lemma bump_ok w pre affected post :
  world_ok w -> w_pending w = (pre ++ {| pd_affected := affected; pd_bumped := false |} :: post)%list ->
  world_ok (set_tables w (w_db w) (bumpCacheGeneration (w_sql w))
              (pre ++ {| pd_affected := affected; pd_bumped := true |} :: post)%list).
Proof.
  intros Hw Hp. split; simpl.
  - intros u o row Hk%(rows_fresh _ Hw). revert Hk. apply row_ok_mono; [|right; intros; apply agree_refl].
    intros (x & Hx & Hax). unfold covered. simpl. rewrite Hp in Hx.
    apply elem_of_app in Hx as [Hx|[->|Hx]%elem_of_cons].
    + exists x. set_solver.
    + exists {| pd_affected := affected; pd_bumped := true |}. set_solver.
    + exists x. set_solver.
  - intros tid t Ht%(tasks_ok _ Hw). revert Ht. apply task_ok_mono; simpl; lia.
Qed.

Lemma delete_ok w pre affected post :
  world_ok w -> w_pending w = (pre ++ {| pd_affected := affected; pd_bumped := true |} :: post)%list ->
  world_ok (set_tables w (w_db w) (deleteRows affected (w_sql w)) (pre ++ post)%list).
Proof.
  intros Hw Hp. split; simpl.
  - intros u o row [Hk Ha]%map_lookup_filter_Some. apply (rows_fresh _ Hw) in Hk. revert Hk.
    apply row_ok_mono; [|right; intros; apply agree_refl].
    intros (x & Hx & Hax). unfold covered. simpl. rewrite Hp in Hx. exists x.
    apply elem_of_app in Hx as [Hx|[->|Hx]%elem_of_cons]; [set_solver| |set_solver].
    simpl in *. congruence.
  - intros tid t Ht%(tasks_ok _ Hw). revert Ht. apply task_ok_mono; [done|].
    intros _ u o. split; [|right; intros; apply agree_refl].
    intros (x & Hx & Hax & Hb). unfold unbumped. simpl. rewrite Hp in Hx. exists x.
    apply elem_of_app in Hx as [Hx|[->|Hx]%elem_of_cons]; [set_solver|done|set_solver].
Qed.

Lemma step_ok w w' : world_ok w -> step computeProg w w' -> world_ok w'.
Proof.
  intros Hw Hs. destruct Hs as [tid u o Hnone|tid t w1 t' Ht Hts|d' affected Hsc|d' affected Hsc
                               |pre affected post Hp|pre affected post Hp|now];
    [| |by apply commit_ok|by apply mutate_ok|by apply bump_ok|by eapply delete_ok|].
  - split; simpl; [apply Hw|]. intros tid' t' [[<- <-]|[_ Ht]]%lookup_insert_Some; [done|].
    by apply (tasks_ok _ Hw) in Ht.
  - destruct (task_step_ok w t w1 t' Hw (tasks_ok _ Hw _ _ Ht) Hts)
      as (Hd & Hta & Hpe & Hg & Hr & Hok).
    split; simpl; [intros u o row; unfold covered; simpl; rewrite Hd, Hpe; apply Hr|].
    intros tid' t0 [[<- <-]|[_ Ht0]]%lookup_insert_Some; [exact Hok|].
    rewrite Hta in Ht0. apply (tasks_ok _ Hw) in Ht0. revert Ht0. apply task_ok_mono; simpl; [lia|].
    intros _ u o. unfold unbumped. simpl. rewrite Hpe, Hd. split; [done|right; intros; apply agree_refl].
  - split; simpl; [|by apply Hw]. intros u o row [Hk _]%map_lookup_filter_Some.
    by apply (rows_fresh _ Hw).
Qed.

Lemma reachable_ok w : reachable computeProg w -> world_ok w.
Proof.
  induction 1 as [d gen|w w' _ IH Hs]; [|by eapply step_ok].
  split; simpl; [intros u o row|intros tid t]; simpl; by rewrite lookup_empty.
Qed.
End invariant.

(** ** Termination: a resolve makes finitely many steps, whatever the others do. *)
Section termination.
Context {D N : Type} (computeProg : N -> string -> string -> prog D).

(** [t'] is one step after [t] in some world. *)
Definition next (t' t : Task D N) : Prop := exists w w1, task_step computeProg w t w1 t'.

Ltac next_inv := intros ? (w & w1 & Hs); inversion Hs; simplify_eq/=; try congruence.

Lemma acc_returned u o r : Acc next {| t_user := u; t_org := o; t_pc := Returned r |}.
Proof. constructor. next_inv. Qed.

Lemma acc_remove u o r b : Acc next {| t_user := u; t_org := o; t_pc := Remove r b |}.
Proof. constructor. next_inv. apply acc_returned. Qed.

Lemma acc_broadcast u o e r b : Acc next {| t_user := u; t_org := o; t_pc := Broadcast e r b |}.
Proof. constructor. next_inv; [apply acc_returned|apply acc_remove]. Qed.

Lemma acc_publish u o e g n r : Acc next {| t_user := u; t_org := o; t_pc := Publish e g n r |}.
Proof. constructor. next_inv; apply acc_broadcast. Qed.

Lemma acc_computing u o e g n p :
  Acc next {| t_user := u; t_org := o; t_pc := Computing e g n p |}.
Proof.
  induction p as [r|k IH]; constructor; next_inv; [apply acc_publish|].
  unfold at_pc. simpl. apply IH.
Qed.

Lemma acc_snapshot u o e : Acc next {| t_user := u; t_org := o; t_pc := Snapshot e |}.
Proof. constructor. next_inv; apply acc_computing. Qed.

Lemma acc_claiming_false u o : Acc next {| t_user := u; t_org := o; t_pc := Claiming false |}.
Proof. constructor. next_inv; apply acc_snapshot. Qed.

Lemma acc_lookup_false u o : Acc next {| t_user := u; t_org := o; t_pc := Lookup false |}.
Proof. constructor. next_inv; [apply acc_returned..|apply acc_claiming_false]. Qed.

Lemma acc_wait u o e : Acc next {| t_user := u; t_org := o; t_pc := Wait e |}.
Proof.
  constructor. next_inv; [apply acc_returned..|apply acc_lookup_false|apply acc_returned].
Qed.

Lemma acc_claiming_true u o : Acc next {| t_user := u; t_org := o; t_pc := Claiming true |}.
Proof. constructor. next_inv; [apply acc_wait|apply acc_snapshot]. Qed.

Lemma acc_peek u o : Acc next {| t_user := u; t_org := o; t_pc := Peek |}.
Proof. constructor. next_inv; [apply acc_wait|apply acc_claiming_true]. Qed.

Lemma acc_lookup_true u o : Acc next {| t_user := u; t_org := o; t_pc := Lookup true |}.
Proof. constructor. next_inv; [apply acc_returned..|apply acc_peek]. Qed.

Lemma next_wf : well_founded next.
Proof.
  intros [u o [[]| |[]|e|e|e g n p|e g n r|e r b|r b|r]];
    eauto using acc_returned, acc_remove, acc_broadcast, acc_publish, acc_computing, acc_snapshot,
      acc_claiming_false, acc_lookup_false, acc_wait, acc_claiming_true, acc_peek, acc_lookup_true.
Qed.
End termination.

(** ** Waiters are never abandoned *)
Section progress.
Context {D N : Type} (computeProg : N -> string -> string -> prog D).

(** [t] runs the compute that will fill entry [e]. *)
Definition owns (t : Task D N) (e : nat) : Prop :=
  match t_pc t with
  | Snapshot (Some e') | Computing (Some e') _ _ _ | Publish (Some e') _ _ _
  | Broadcast (Some e') _ _ => e' = e
  | _ => False
  end.

Record flight_ok (w : World D N) : Prop := {
  fl_known : forall k e, w_inflight w !! k = Some e -> is_Some (w_entries w !! e);
  fl_waits : forall tid t e, w_tasks w !! tid = Some t -> t_pc t = Wait e ->
               is_Some (w_entries w !! e);
  fl_owned : forall e en, w_entries w !! e = Some en -> en_outcome en = None ->
               exists tid t, w_tasks w !! tid = Some t /\ owns t e;
  fl_owner_entry : forall tid t e, w_tasks w !! tid = Some t -> owns t e ->
               is_Some (w_entries w !! e) }.

(** A step of one goroutine only adds entries, and fills only its own. *)
Lemma task_step_entries w t w1 t' :
  task_step computeProg w t w1 t' ->
  w_tasks w1 = w_tasks w /\
  (forall e, is_Some (w_entries w !! e) -> is_Some (w_entries w1 !! e)) /\
  (forall e en, w_entries w1 !! e = Some en -> en_outcome en = None ->
     (w_entries w !! e = Some en /\ (owns t e -> owns t' e)) \/ owns t' e) /\
  (forall k e, w_inflight w1 !! k = Some e ->
     w_inflight w !! k = Some e \/ is_Some (w_entries w1 !! e)) /\
  (forall e, t_pc t' = Wait e -> exists k, w_inflight w !! k = Some e) /\
  (forall e, owns t' e -> owns t e \/ is_Some (w_entries w1 !! e)).
Proof.
  intros Hs. destruct Hs; simpl in *; unfold owns in *; simpl in *;
    repeat match goal with H : t_pc t = _ |- _ => rewrite H in * end; simpl in *.
  all: split_and!; try done; try (naive_solver; fail).
  - intros e. by destruct join.
  - intros e. by destruct join.
  - intros e0 He. destruct (decide (e = e0)) as [->|Hne]; [by rewrite lookup_insert_eq|].
    by rewrite lookup_insert_ne.
  - intros e0 en [[<- _]|[_ He]]%lookup_insert_Some _; [by right|left; done].
  - intros k e0 [[_ <-]|[_ He]]%lookup_insert_Some; [right; by rewrite lookup_insert_eq|by left].
  - intros e0 <-. right. by rewrite lookup_insert_eq.
  - intros e0 He. destruct (decide (e = e0)) as [->|Hne]; [by rewrite lookup_insert_eq|].
    by rewrite lookup_insert_ne.
  - intros e0 en [[<- <-]|[Hne He]]%lookup_insert_Some Ho; [done|left]. split; [done|].
    intros ->. by destruct Hne.
  - intros k e0 [_ He]%lookup_delete_Some. by left.
Qed.

Lemma step_flight_ok w w' : flight_ok w -> step computeProg w w' -> flight_ok w'.
Proof.
  intros [Hk Hw Ho He] Hs. destruct Hs as [tid u o Hnone|tid t w1 t' Ht Hts| | | | |];
    [| |by split..].
  - split; simpl; [done|..].
    + intros tid' t' e [[<- <-]|[_ Ht]]%lookup_insert_Some; [done|by eapply Hw].
    + intros e en Hen Hopen. destruct (Ho e en Hen Hopen) as (tid' & t' & Ht & Hown).
      exists tid', t'. split; [|done]. rewrite lookup_insert_ne; [done|]. congruence.
    + intros tid' t' e [[<- <-]|[_ Ht]]%lookup_insert_Some; [done|by eapply He].
  - destruct (task_step_entries w t w1 t' Hts) as (Hta & Hadd & Hopen & Hfl & Hwait & Hown).
    split; simpl; rewrite ?Hta.
    + intros k e [Hin|?]%Hfl; [by eapply Hadd, Hk|done].
    + intros tid' t0 e [[<- <-]|[_ Ht0]]%lookup_insert_Some Hpc; [|by eapply Hadd, Hw].
      destruct (Hwait e Hpc) as [k Hin]. by eapply Hadd, Hk.
    + intros e en Hen Hout. destruct (Hopen e en Hen Hout) as [[Hen0 Hkeep]|Hnew].
      * destruct (Ho e en Hen0 Hout) as (tid' & t0 & Ht0 & Hown0).
        destruct (decide (tid' = tid)) as [->|Hne].
        -- exists tid, t'. rewrite lookup_insert_eq. split; [done|]. apply Hkeep. congruence.
        -- exists tid', t0. by rewrite lookup_insert_ne.
      * exists tid, t'. by rewrite lookup_insert_eq.
    + intros tid' t0 e [[<- <-]|[_ Ht0]]%lookup_insert_Some Hown0; [|by eapply Hadd, He].
      destruct (Hown e Hown0) as [?|?]; [by eapply Hadd, He|done].
Qed.

Lemma reachable_flight_ok w : reachable computeProg w -> flight_ok w.
Proof.
  induction 1 as [d gen|w w' _ IH Hs]; [|by eapply step_flight_ok].
  split; simpl; intros *; rewrite lookup_empty; done.
Qed.

Context (nonce : N).

(** Every goroutine that is not waiting on an open entry can move. *)
Lemma can_move w t :
  (forall r, t_pc t <> Returned r) ->
  (forall e, t_pc t = Wait e -> exists out, en_outcome <$> (w_entries w !! e) = Some (Some out)) ->
  exists w1 t', task_step computeProg w t w1 t'.
Proof.
  intros Hr Hw. destruct (t_pc t) as [join| |join|e|e|e g n p|e g n r|e r b|r b|r] eqn:Hpc.
  - do 2 eexists. by eapply ts_lookup_err with (e := "").
  - destruct (w_inflight w !! flightKey t) eqn:E; do 2 eexists;
      [by eapply ts_check_found|by eapply ts_check_none].
  - destruct (w_inflight w !! flightKey t) eqn:E.
    + destruct join; do 2 eexists; [by eapply ts_claim_beaten|by eapply ts_claim_standalone].
    + do 2 eexists. eapply (ts_claim _ w t join (fresh (dom (w_entries w)))); [done|done|].
      apply not_elem_of_dom, is_fresh.
  - destruct (Hw e eq_refl) as [[[p|err] b] Hout]; [destruct b|]; do 2 eexists;
      [by eapply ts_wait_ok|by eapply ts_wait_retry|by eapply ts_wait_err].
  - do 2 eexists. by eapply (ts_snapshot _ w t e nonce).
  - destruct p; do 2 eexists; [by eapply ts_computed|by eapply ts_read].
  - destruct r as [p|err]; [destruct g|]; do 2 eexists;
      [by eapply ts_publish_fail|by eapply ts_publish_blind|by eapply ts_publish_error].
  - destruct e; do 2 eexists; [by eapply ts_broadcast|by eapply ts_standalone].
  - do 2 eexists. by eapply ts_remove.
  - by destruct (Hr r).
Qed.
End progress.

(** ** A window the guard leaves open *)
Section window.
Context {D N : Type} (computeProg : N -> string -> string -> prog D).

Lemma steps_trans (w w1 w2 : World D N) :
  steps computeProg w w1 -> steps computeProg w1 w2 -> steps computeProg w w2.
Proof. induction 1; [done|]. intros. eapply steps_cons; eauto. Qed.

Lemma steps_one (w w1 : World D N) : step computeProg w w1 -> steps computeProg w w1.
Proof. intros. eapply steps_cons; [done|apply steps_refl]. Qed.

Lemma steps_reachable (w w1 : World D N) :
  reachable computeProg w -> steps computeProg w w1 -> reachable computeProg w1.
Proof. intros Hr. induction 1; [done|]. eauto using reach_step. Qed.

Lemma step_move w tid t w1 c :
  w_tasks w !! tid = Some t -> task_step computeProg w t w1 (at_pc t c) ->
  steps computeProg w (set_task w1 tid (at_pc t c)).
Proof. intros. apply steps_one. by eapply step_task. Qed.

(** A compute that runs alone reads the current tables to the end. *)
Lemma steps_compute w tid u o e g n p :
  w_tasks w !! tid = Some {| t_user := u; t_org := o; t_pc := Computing e g n p |} ->
  exists w', steps computeProg w w' /\ w_db w' = w_db w /\ w_sql w' = w_sql w /\
    w_pending w' = w_pending w /\ w_inflight w' = w_inflight w /\ w_entries w' = w_entries w /\
    w_tasks w' = <[tid := {| t_user := u; t_org := o;
                             t_pc := Publish e g n (run (w_db w) p) |}]> (w_tasks w).
Proof.
  revert w. induction p as [r|k IH]; intros w Ht.
  - eexists. split; [eapply step_move; [done|by eapply ts_computed]|]. done.
  - set (w1 := set_task w tid {| t_user := u; t_org := o;
                                 t_pc := Computing e g n (k (w_db w)) |}).
    assert (Hs : steps computeProg w w1).
    { apply (step_move w tid _ w (Computing e g n (k (w_db w))) Ht). by eapply ts_read. }
    destruct (IH (w_db w) w1 (lookup_insert_eq _ _ _)) as (w' & Hs' & Hd & Hq & Hpe & Hf & He & Hta).
    exists w'. split; [by eapply steps_trans|]. rewrite Hta. simpl.
    by rewrite insert_insert_eq.
Qed.

(** A goroutine alone computes and publishes; it has not left the in-flight
    map yet. *)
Lemma solo_publish d gen n u o p :
  run d (computeProg n u o) = Ok p ->
  exists w, steps computeProg (initial d gen) w /\ w_db w = d /\ w_pending w = [] /\
    w_sql w = setCachedPermissions p {| sc_generation := gen; sc_rows := ∅ |} /\
    w_inflight w = <[cacheKey u o := 0]> ∅ /\
    w_tasks w !! 1 = Some {| t_user := u; t_org := o; t_pc := Broadcast (Some 0) (Ok p) true |} /\
    w_tasks w !! 2 = None.
Proof.
  intros Hrun. set (task c := {| t_user := u; t_org := o; t_pc := c |} : Task D N).
  set (w0 := set_task (initial d gen) 1 (task (Lookup true))).
  assert (H0 : steps computeProg (initial d gen) w0) by (apply steps_one; by apply step_spawn).
  set (wa := set_task w0 1 (task Peek)).
  assert (H1 : steps computeProg w0 wa).
  { apply (step_move w0 1 (task (Lookup true)) w0 Peek); [done|].
    by eapply (ts_miss _ w0 _ true 0). }
  set (wb := set_task wa 1 (task (Claiming true))).
  assert (H2 : steps computeProg wa wb).
  { apply (step_move wa 1 (task Peek) wa (Claiming true)); [done|]. by eapply ts_check_none. }
  set (wb' := set_flight wb (<[cacheKey u o := 0]> ∅) (<[0 := {| en_outcome := None |}]> ∅)).
  set (wc := set_task wb' 1 (task (Snapshot (Some 0)))).
  assert (H3 : steps computeProg wb wc).
  { apply (step_move wb 1 (task (Claiming true)) wb' (Snapshot (Some 0))); [done|].
    by apply (ts_claim _ wb (task (Claiming true)) true 0). }
  set (wd := set_task wc 1 (task (Computing (Some 0) (Some gen) n (computeProg n u o)))).
  assert (H4 : steps computeProg wc wd).
  { apply (step_move wc 1 (task (Snapshot (Some 0))) wc
             (Computing (Some 0) (Some gen) n (computeProg n u o))); [done|].
    by apply (ts_snapshot _ wc (task (Snapshot (Some 0))) (Some 0) n). }
  destruct (steps_compute wd 1 u o (Some 0) (Some gen) n (computeProg n u o))
    as (we & H5 & Hd & Hq & Hpe & Hf & He & Hta); [done|].
  change (w_db wd) with d in *. rewrite Hrun in Hta.
  exists (set_task (set_sql we (setCachedPermissions p (w_sql we))) 1
            (task (Broadcast (Some 0) (Ok p) true))).
  split_and!; [|exact Hd|exact Hpe| |exact Hf|apply lookup_insert_eq|].
  - repeat (eapply steps_trans; [eassumption|]).
    apply (step_move we 1 (task (Publish (Some 0) (Some gen) n (Ok p)))
             (set_sql we (setCachedPermissions p (w_sql we)))
             (Broadcast (Some 0) (Ok p) true)); [rewrite Hta; apply lookup_insert_eq|].
    apply (ts_publish _ we (task (Publish (Some 0) (Some gen) n (Ok p))) (Some 0) gen n p true);
      [done|]. unfold SetCachedPermissionsAtGeneration. by rewrite Hq, decide_True.
  - simpl. by rewrite Hq.
  - simpl. rewrite lookup_insert_ne by done. rewrite Hta. by rewrite !lookup_insert_ne.
Qed.

(** A resolve that starts while an entry is still in the in-flight map, its
    owner about to broadcast, ends with the owner's result. *)
Lemma late_waiter w u o p :
  GetCachedPermissions 0 u o (w_sql w) = None -> w_inflight w !! cacheKey u o = Some 0 ->
  w_tasks w !! 1 = Some {| t_user := u; t_org := o; t_pc := Broadcast (Some 0) (Ok p) true |} ->
  w_tasks w !! 2 = None ->
  exists w', steps computeProg w w' /\ w_db w' = w_db w /\
    w_tasks w' !! 2 = Some {| t_user := u; t_org := o; t_pc := Returned (Ok (p, true)) |}.
Proof.
  intros Hmiss Hfl H1 H2. set (task c := {| t_user := u; t_org := o; t_pc := c |} : Task D N).
  set (wh := set_task w 2 (task (Lookup true))).
  assert (H6 : steps computeProg w wh) by (apply steps_one; by apply step_spawn).
  set (wi := set_task wh 2 (task Peek)). set (wj := set_task wi 2 (task (Wait 0))).
  assert (H7 : steps computeProg wh wi).
  { apply (step_move wh 2 (task (Lookup true)) wh Peek); [apply lookup_insert_eq|].
    by apply (ts_miss _ wh (task (Lookup true)) true 0). }
  assert (H8 : steps computeProg wi wj).
  { apply (step_move wi 2 (task Peek) wi (Wait 0)); [apply lookup_insert_eq|].
    by apply (ts_check_found _ wi (task Peek) 0). }
  set (wk' := set_flight wj (w_inflight wj)
                (<[0 := {| en_outcome := Some (Ok p, true) |}]> (w_entries wj))).
  set (wk := set_task wk' 1 (task (Remove (Ok p) true))).
  assert (H9 : steps computeProg wj wk).
  { apply (step_move wj 1 (task (Broadcast (Some 0) (Ok p) true)) wk' (Remove (Ok p) true)).
    - simpl. by rewrite !lookup_insert_ne.
    - by apply (ts_broadcast _ wj (task (Broadcast (Some 0) (Ok p) true)) 0 (Ok p) true). }
  exists (set_task wk 2 (task (Returned (Ok (p, true))))).
  split; [|split; [done|apply lookup_insert_eq]].
  repeat (eapply steps_trans; [eassumption|]).
  apply (step_move wk 2 (task (Wait 0)) wk (Returned (Ok (p, true)))).
  - simpl. rewrite lookup_insert_ne by done. apply lookup_insert_eq.
  - apply (ts_wait_ok _ wk (task (Wait 0)) 0 p); [done|]. simpl. by rewrite lookup_insert_eq.
Qed.

(** A goroutine that has published but not yet left the in-flight map hands
    its result to a resolve that starts after a later mutation committed. *)
Lemma waiter_window d d' gen n u o p :
  run d (computeProg n u o) = Ok p ->
  exists w1 w2 w3,
    steps computeProg (initial d gen) w1 /\ w_db w1 = d /\ w_tasks w1 !! 2 = None /\
    step computeProg w1 w2 /\ w_db w2 = d' /\ w_pending w2 = [] /\ sc_rows (w_sql w2) = ∅ /\
    steps computeProg w2 w3 /\ w_db w3 = d' /\
    w_tasks w3 !! 2 = Some {| t_user := u; t_org := o; t_pc := Returned (Ok (p, true)) |}.
Proof.
  intros Hrun. destruct (solo_publish d gen n u o p Hrun) as (w1 & Hs & Hd & Hp & _ & Hf & H1 & H2).
  set (w2 := set_tables w1 d' (deleteRows (fun _ => true) (bumpCacheGeneration (w_sql w1)))
               (w_pending w1)).
  assert (Hempty : sc_rows (w_sql w2) = ∅).
  { apply map_eq. intros k. rewrite lookup_empty. apply map_lookup_filter_None.
    right. intros x _ Hx. discriminate Hx. }
  destruct (late_waiter w2 u o p) as (w3 & Hs' & Hd' & H3).
  - unfold GetCachedPermissions. by rewrite Hempty, lookup_empty.
  - simpl. rewrite Hf. apply lookup_insert_eq.
  - done.
  - done.
  - exists w1, w2, w3. split_and!; try done. by apply step_commit.
Qed.
End window.
