(* ===== verification/ResolverGuard.v ===== *)
(** * The resolver under the publication guard.

    [computePermissions] is written as the sequence of store queries it makes
    ([computeProg]), shown equal to the functional definition of
    [Resolver.v] when the store does not change meanwhile, and plugged into
    the transition system of [PublishGuard.v].  The RBAC tables of the
    transition system are a [Store]. *)
From S2P Require Import Prelude GoStrings Methods Models Resolver Cache SqlCache.
From S2P Require Import PublishGuard.
Local Open Scope string_scope.

Section resolver_prog.
Variable decryptAESGCM : string -> string -> result string.
Variable encryptionKey : string.
Variable cacheTTL : Z.

(** [uuid.New()] and the context of the call *)
Definition Nonce : Type := string * Ctx.

Definition queryProg {A} (q : Store -> result A) (k : A -> prog Store) : prog Store :=
  Read (fun S => match q S with Ok a => k a | Err e => Ret (Err e) end).

Definition loadGroupPermsProg (groupIDs : list string) (withGrants : bool)
    (k : groupPermsBatch -> prog Store) : prog Store :=
  queryProg (fun S => GetGroupAccessBatch groupIDs) (fun access =>
  if negb withGrants then k {| gb_access := access; gb_grants := ∅; gb_contracts := ∅ |}
  else
    queryProg (fun S => ListContractGrantsBatch groupIDs) (fun grants =>
    match dedup [] (concat (map (fun g => map cg_ContractID (default [] (grants !! g))) groupIDs)) with
    | [] => k {| gb_access := access; gb_grants := grants; gb_contracts := ∅ |}
    | contractIDs =>
        queryProg (fun S => GetContractsByIDs contractIDs) (fun contracts =>
        k {| gb_access := access; gb_grants := grants; gb_contracts := contracts |})
    end)).

Definition computeProg (n : Nonce) (userID orgID : string) : prog Store :=
  let '(freshID, ctx) := n in
  queryProg (fun S => ListUserMembershipsInOrg userID orgID) (fun memberships =>
  match membershipGroups memberships with
  | Err e => Ret (Err e)
  | Ok [] =>
      Ret (Ok {| ep_ID := freshID; ep_UserID := userID; ep_OrgID := orgID;
                 ep_AllowedMethods := []; ep_ContractAccess := ∅; ep_Claims := [];
                 ep_RPCAPIKey := ""; ep_ComputedAt := ctx_now ctx;
                 ep_ExpiresAt := (ctx_now ctx + cacheTTL)%Z |})
  | Ok (g :: gs) =>
      let groups := g :: gs in
      let perms batch g := groupPerms decryptAESGCM encryptionKey batch (g_ID g) in
      if existsb g_IsOrgAdmin groups then
        queryProg (fun S => ListContracts orgID) (fun contracts =>
        loadGroupPermsProg (membershipGroupIDs groups) false (fun batch =>
        Ret (Ok {| ep_ID := freshID; ep_UserID := userID; ep_OrgID := orgID;
                   ep_AllowedMethods :=
                     foldl unionStrings [] (map gp_AllowedMethods (map (perms batch) groups));
                   ep_ContractAccess :=
                     foldl (fun m contract =>
                       <[ToLower (c_Address contract) :=
                           {| ca_Claims := AllClaims; ca_Functions := None;
                              ca_EventRules := None |}]> m) ∅ contracts;
                   ep_Claims := AllClaims;
                   ep_RPCAPIKey := foldl firstNonEmpty "" (map gp_RPCAPIKey (map (perms batch) groups));
                   ep_ComputedAt := ctx_now ctx;
                   ep_ExpiresAt := cacheExpiry cacheTTL ctx memberships |})))
      else
        loadGroupPermsProg (membershipGroupIDs groups) true (fun batch =>
        let final := foldl mergeGroupPerms (perms batch g) (map (perms batch) gs) in
        Ret (Ok {| ep_ID := freshID; ep_UserID := userID; ep_OrgID := orgID;
                   ep_AllowedMethods := gp_AllowedMethods final;
                   ep_ContractAccess := gp_ContractAccess final;
                   ep_Claims := ExpandClaims (gp_Claims final);
                   ep_RPCAPIKey := gp_RPCAPIKey final;
                   ep_ComputedAt := ctx_now ctx;
                   ep_ExpiresAt := cacheExpiry cacheTTL ctx memberships |}))
  end).

Lemma run_queryProg {A} (q : Store -> result A) k S :
  run S (queryProg q k) = (q S ≫= fun a => run S (k a)).
Proof. unfold queryProg. simpl. by destruct (q S). Qed.

Lemma run_loadGroupPermsProg S ids b k :
  run S (loadGroupPermsProg ids b k) = (loadGroupPerms ids b ≫= fun batch => run S (k batch)).
Proof.
  unfold loadGroupPermsProg, loadGroupPerms. rewrite run_queryProg.
  destruct (GetGroupAccessBatch ids) as [access|e]; [|done]. cbn [mbind result_bind].
  destruct b; cbn [negb]; [|done]. rewrite run_queryProg.
  destruct (ListContractGrantsBatch ids) as [grants|e]; [|done]. cbn [mbind result_bind].
  destruct (dedup _ _) as [|i l]; [done|]. rewrite run_queryProg.
  by destruct (GetContractsByIDs _).
Qed.

(** Run without interference, the queries compute [computePermissions]. *)
Lemma run_computeProg S n u o :
  run S (computeProg n u o) =
  computePermissions decryptAESGCM encryptionKey cacheTTL (snd n) (fst n) u o.
Proof.
  destruct n as [freshID ctx]. unfold computeProg, computePermissions. rewrite run_queryProg.
  destruct (ListUserMembershipsInOrg u o) as [ms|e]; [|done]. cbn [mbind result_bind fst snd].
  destruct (membershipGroups ms) as [[|g gs]|e]; [done| |done]. cbn [mbind result_bind].
  destruct (existsb g_IsOrgAdmin (g :: gs)).
  - unfold computeOrgAdminPermissions. rewrite run_queryProg.
    destruct (ListContracts o) as [cs|e]; [|done]. cbn [mbind result_bind].
    rewrite run_loadGroupPermsProg. by destruct (loadGroupPerms _ _).
  - rewrite run_loadGroupPermsProg. by destruct (loadGroupPerms _ _).
Qed.

(** Whatever the queries answer at their own instants, what a compute for a
    user and an organization returns is about them. *)
Lemma sub_queryProg {A} (q : Store -> result A) k p :
  sub (queryProg q k) (Ret (Ok p)) -> exists a, sub (k a) (Ret (Ok p)).
Proof.
  intros Hs. inversion Hs as [|k' d p' Hk]; subst.
  destruct (q d) as [a|e]; [by exists a|]. inversion Hk.
Qed.

Lemma sub_loadGroupPermsProg ids b k p :
  sub (loadGroupPermsProg ids b k) (Ret (Ok p)) -> exists batch, sub (k batch) (Ret (Ok p)).
Proof.
  intros [access Hs]%sub_queryProg. destruct b; cbn [negb] in Hs; [|eauto].
  apply sub_queryProg in Hs as [grants Hs]. destruct (dedup _ _); [eauto|].
  apply sub_queryProg in Hs as [contracts Hs]. eauto.
Qed.

Lemma computeProg_identity n u o p :
  sub (computeProg n u o) (Ret (Ok p)) -> ep_UserID p = u /\ ep_OrgID p = o.
Proof.
  destruct n as [freshID ctx]. unfold computeProg. intros [ms Hs]%sub_queryProg.
  destruct (membershipGroups ms) as [[|g gs]|e]; [by inversion Hs| |by inversion Hs].
  destruct (existsb _ _).
  - apply sub_queryProg in Hs as [cs Hs]. apply sub_loadGroupPermsProg in Hs as [b Hs].
    by inversion Hs.
  - apply sub_loadGroupPermsProg in Hs as [b Hs]. by inversion Hs.
Qed.

(** Tables that answer the queries of a compute alike agree on it. *)
Lemma agree_queryProg {A} (S S' : Store) (q : Store -> result A) k :
  q S' = q S -> (forall a, q S = Ok a -> agree S S' (k a)) -> agree S S' (queryProg q k).
Proof.
  intros Hq Hk. split; [by rewrite Hq|]. destruct (q S) as [a|e] eqn:E; [by apply Hk|done].
Qed.

Lemma agree_loadGroupPermsProg S S' ids b k :
  @GetGroupAccessBatch S' ids = @GetGroupAccessBatch S ids ->
  (b = true ->
   @ListContractGrantsBatch S' ids = @ListContractGrantsBatch S ids /\
   forall grants, @ListContractGrantsBatch S ids = Ok grants ->
     let cids := dedup [] (concat (map (fun g => map cg_ContractID (default [] (grants !! g))) ids)) in
     @GetContractsByIDs S' cids = @GetContractsByIDs S cids) ->
  (forall batch, agree S S' (k batch)) -> agree S S' (loadGroupPermsProg ids b k).
Proof.
  intros Ha Hg Hk. apply agree_queryProg; [done|]. intros access _.
  destruct b; cbn [negb]; [|apply Hk]. destruct (Hg eq_refl) as [Hgr Hc].
  apply agree_queryProg; [done|]. intros grants Hgrants. specialize (Hc grants Hgrants). simpl in Hc.
  destruct (dedup _ _) as [|c cs]; [apply Hk|]. by apply agree_queryProg.
Qed.

Lemma agree_computeProg S S' n u o :
  @ListUserMembershipsInOrg S' u o = @ListUserMembershipsInOrg S u o ->
  (forall ms groups, @ListUserMembershipsInOrg S u o = Ok ms -> membershipGroups ms = Ok groups ->
     let ids := membershipGroupIDs groups in
     @ListContracts S' o = @ListContracts S o /\
     @GetGroupAccessBatch S' ids = @GetGroupAccessBatch S ids /\
     @ListContractGrantsBatch S' ids = @ListContractGrantsBatch S ids /\
     forall grants, @ListContractGrantsBatch S ids = Ok grants ->
       let cids := dedup [] (concat (map (fun g => map cg_ContractID (default [] (grants !! g))) ids)) in
       @GetContractsByIDs S' cids = @GetContractsByIDs S cids) ->
  agree S S' (computeProg n u o).
Proof.
  intros Hm Hq. destruct n as [freshID ctx]. unfold computeProg.
  apply agree_queryProg; [done|]. intros ms Hms.
  destruct (membershipGroups ms) as [[|g gs]|e] eqn:Eg; [done| |done].
  destruct (Hq ms (g :: gs) Hms Eg) as (Hl & Ha & Hgr & Hc). destruct (existsb _ _).
  - apply agree_queryProg; [done|]. intros cs _. by apply agree_loadGroupPermsProg.
  - by apply agree_loadGroupPermsProg.
Qed.
End resolver_prog.

Lemma fresh_row_fromRow r p : r = upsertRow (Some r) (toRow p) ->
  fromRow r = {| ep_ID := row_id r; ep_UserID := ep_UserID p; ep_OrgID := ep_OrgID p;
                 ep_AllowedMethods := ep_AllowedMethods p;
                 ep_ContractAccess := unmarshalAccess <$> (marshalAccess <$> ep_ContractAccess p);
                 ep_Claims := ep_Claims p; ep_RPCAPIKey := "";
                 ep_ComputedAt := ep_ComputedAt p; ep_ExpiresAt := ep_ExpiresAt p |}.
Proof. by intros ->. Qed.

(** C5: no stale publication. Whatever the interleaving of resolves on any
    number of goroutines with mutations (atomic, or invalidating afterwards, or
    never completing their invalidation), cleanups, cancellations and store
    errors: for a user and organization that no pending mutation affects (one
    whose invalidation is not finished), an answer of the shared cache has the
    methods, the claims and the expiry the tables give at that instant, and the
    contract access up to the round trip through the JSON column, which widens
    an empty function list; the RPC key is not cached. And a resolve of a user
    and organization that no pending mutation affects which has not bumped the
    generation holds, when its publication is accepted, the permissions the
    tables give at that instant. While such a mutation is pending the cache may
    be stale. *)
Theorem publication_guard_sound decryptAESGCM encryptionKey cacheTTL w :
  reachable (computeProg decryptAESGCM encryptionKey cacheTTL) w ->
  (forall now u o q, ~ covered w u o -> GetCachedPermissions now u o (w_sql w) = Some q ->
     exists freshID ctx p,
       @computePermissions (w_db w) decryptAESGCM encryptionKey cacheTTL ctx freshID u o = Ok p /\
       ep_AllowedMethods q = ep_AllowedMethods p /\ ep_Claims q = ep_Claims p /\
       ep_ExpiresAt q = ep_ExpiresAt p /\ ep_UserID q = u /\ ep_OrgID q = o /\
       ep_ContractAccess q = unmarshalAccess <$> (marshalAccess <$> ep_ContractAccess p)) /\
  (forall tid t e g n p s, w_tasks w !! tid = Some t -> t_pc t = Publish e (Some g) n (Ok p) ->
     ~ unbumped w (t_user t) (t_org t) ->
     SetCachedPermissionsAtGeneration p g (w_sql w) = (true, s) ->
     @computePermissions (w_db w) decryptAESGCM encryptionKey cacheTTL (snd n) (fst n)
       (t_user t) (t_org t) = Ok p).
Proof.
  set (cp := computeProg decryptAESGCM encryptionKey cacheTTL). intros Hr.
  assert (Hid : forall n u o p, sub (cp n u o) (Ret (Ok p)) -> ep_UserID p = u /\ ep_OrgID p = o)
    by (intros *; apply computeProg_identity).
  pose proof (reachable_ok cp Hid w Hr) as Hok. split.
  - intros now u o q Hnc. unfold GetCachedPermissions.
    destruct (sc_rows (w_sql w) !! (u, o)) as [row|] eqn:E; [|done].
    destruct (_ <? _)%Z; [|done]. intros [= <-].
    destruct (rows_fresh _ _ Hok _ _ _ E) as [?|(n & p & Hp & Hrow)]; [done|].
    destruct (Hid n u o p) as [Hu Ho]; [rewrite <- Hp; apply sub_run|].
    exists (fst n), (snd n), p. rewrite (fresh_row_fromRow _ _ Hrow).
    split; [by rewrite <- run_computeProg|]. by split_and!.
  - intros tid t e g n p s Ht Hpc Hub Hset.
    destruct (publish_fresh cp Hid w t e g n p true s Hok (tasks_ok _ _ Hok _ _ Ht) Hpc Hset)
      as (_ & _ & Hp). rewrite <- run_computeProg. by destruct Hp.
Qed.

(** C39: a resolve always terminates: there is no infinite sequence of steps of
    one goroutine, whatever the others do (a waiter retries at most once). *)
Theorem resolution_terminates decryptAESGCM encryptionKey cacheTTL :
  well_founded (next (computeProg decryptAESGCM encryptionKey cacheTTL)).
Proof. apply next_wf. Qed.

(** no waiter is abandoned.  In every reachable state a goroutine has
    returned, can move, or waits on an entry whose computing goroutine is
    alive and can move. *)
Theorem waiters_never_abandoned decryptAESGCM encryptionKey cacheTTL (w : World Store Nonce) tid t :
  reachable (computeProg decryptAESGCM encryptionKey cacheTTL) w -> w_tasks w !! tid = Some t ->
  (exists r, t_pc t = Returned r) \/
  (exists w1 t', task_step (computeProg decryptAESGCM encryptionKey cacheTTL) w t w1 t' /\
     forall e, t_pc t = Wait e -> exists out, en_outcome <$> (w_entries w !! e) = Some (Some out)) \/
  (exists e tid' t' w1 t'', t_pc t = Wait e /\ w_tasks w !! tid' = Some t' /\ owns t' e /\
     task_step (computeProg decryptAESGCM encryptionKey cacheTTL) w t' w1 t'').
Proof.
  set (cp := computeProg decryptAESGCM encryptionKey cacheTTL). intros Hr Ht.
  pose (Hn := ("", {| ctx_now := 0; ctx_viewscope := None |}) : Nonce).
  pose proof (reachable_flight_ok cp w Hr) as Hok.
  destruct (t_pc t) as [| | |e| | | | | |r] eqn:Hpc; try (by left; eauto).
  all: try (right; left; destruct (can_move cp Hn w t) as (w1 & t' & Hs);
            [intros ?; congruence|intros ?; congruence|]; exists w1, t'; split; [done|congruence]).
  destruct (fl_waits _ Hok _ _ _ Ht Hpc) as [en Hen].
  destruct (en_outcome en) as [out|] eqn:Ho.
  - right; left. destruct (can_move cp Hn w t) as (w1 & t' & Hs); [congruence| |].
    { intros e0. rewrite Hpc. intros [= <-]. exists out. by rewrite Hen, <- Ho. }
    exists w1, t'. split; [done|]. intros e0 [= <-]. exists out. by rewrite Hen, <- Ho.
  - right; right. destruct (fl_owned _ Hok _ _ Hen Ho) as (tid' & t' & Ht' & Hown).
    destruct (can_move cp Hn w t') as (w1 & t'' & Hs).
    + intros r Hx. unfold owns in Hown. by rewrite Hx in Hown.
    + intros e0 Hx. unfold owns in Hown. by rewrite Hx in Hown.
    + exists e, tid', t', w1, t''. by split_and!.
Qed.

(** the window the guard leaves open.  A goroutine that has published but
    has not yet left the in-flight map hands its result to a resolve that
    starts after a mutation committed: that resolve misses the (emptied)
    cache, waits on the old entry, and returns the permissions of the tables
    before the mutation with the verdict that they may be cached. *)
Theorem waiter_returns_stale_as_cacheable decryptAESGCM encryptionKey cacheTTL
    (S S' : Store) gen freshID ctx u o p :
  @computePermissions S decryptAESGCM encryptionKey cacheTTL ctx freshID u o = Ok p ->
  let cp := computeProg decryptAESGCM encryptionKey cacheTTL in
  exists w1 w2 w3,
    steps cp (initial S gen) w1 /\ w_db w1 = S /\ w_tasks w1 !! 2 = None /\
    step cp w1 w2 /\ w_db w2 = S' /\ w_pending w2 = [] /\ sc_rows (w_sql w2) = ∅ /\
    steps cp w2 w3 /\ w_db w3 = S' /\
    w_tasks w3 !! 2 = Some {| t_user := u; t_org := o; t_pc := Returned (Ok (p, true)) |}.
Proof.
  intros Hp cp. apply (waiter_window cp S S' gen (freshID, ctx) u o p).
  unfold cp. by rewrite run_computeProg.
Qed.
