(* ===== verification/Db.v ===== *)
(** * The store: the queries of [internal/db/rbac_store_*.go].

    The tables are lists of rows in [created_at] order; each query is a list
    comprehension over them.  [row1] is the row a query without [ORDER BY]
    returns first (or the one a [LIMIT 1] keeps): PostgreSQL leaves the choice
    open, so it is a parameter.  [db_fault] injects the driver errors a query
    may return.  SQL's [LOWER] on addresses is [ToLower]. *)
From S2P Require Import Prelude GoStrings Methods Models OrgContext.
Local Open Scope string_scope.

(** ** Tables *)
Record PreregisteredAddress := { pa_OrgID : string; pa_Address : string; pa_CreatedAt : Z }.
(** The precision of a timestamp column is a parameter. *)
Class TimestampColumn := { timestamptz : Z -> Z }.

Record EthAddressLink := { el_DID : string; el_EthAddress : string; el_Revoked : bool }.

Record Database := {
  db_organizations : list Organization;
  db_groups : list Group;
  db_contracts : list Contract;
  db_contract_grants : list ContractGrant;
  db_group_access : list GroupAccess;
  db_users : list User;
  db_user_memberships : list UserMembership;
  db_preregistered_addresses : list PreregisteredAddress;
  db_eth_address_links : list EthAddressLink;
  db_fault : string -> option string }.

Section queries.
Variable row1 : forall A : Type, list A -> option A.
Arguments row1 {A}.
Variable now : Z.
Variable db : Database.

(** [err != nil] of [QueryContext] or [Scan], wrapped by the caller. *)
Definition query {A} (name msg : string) (v : A) : result A :=
  match db_fault db name with
  | Some e => Err (if decide (msg = "") then e else msg +:+ ": " +:+ e)
  | None => Ok v
  end.

Definition lower_is (address a : string) : bool := bool_decide (ToLower a = ToLower address).

(** ** Contracts and ownership *)
Definition contractsAt (address : string) : list Contract :=
  List.filter (fun c => lower_is address (c_Address c)) (db_contracts db).

Definition preregisteredAt (address : string) : list PreregisteredAddress :=
  List.filter (fun p => lower_is address (pa_Address p)) (db_preregistered_addresses db).

(** [SELECT ... UNION SELECT ...]: the distinct owners *)
Definition owners (address : string) : list string :=
  dedup [] (map c_OrgID (contractsAt address) ++ map pa_OrgID (preregisteredAt address))%list.

Definition db_GetContractOwnerOrgID (address : string) : result string :=
  query "GetContractOwnerOrgID" "failed to get contract owner org" (default "" (row1 (owners address))).

Definition db_IsAddressOwnedByOrg (address orgID : string) : result bool :=
  query "IsAddressOwnedByOrg" "failed to check contract ownership" (contains (owners address) orgID).

Definition db_IsAddressPreregistered (orgID address : string) : result bool :=
  query "IsAddressPreregistered" "failed to check preregistered address"
    (contains (map pa_OrgID (preregisteredAt address)) orgID).

Definition db_GetContractDeployerByAddress (address : string) : result (option string) :=
  query "GetContractDeployerByAddress" "failed to get contract deployer"
    (row1 (map c_DeployedByUserID (contractsAt address)) ≫= id).

Definition db_GetContractByAddress (orgID address : string) : result (option Contract) :=
  query "GetContractByAddress" "failed to scan contract"
    (row1 (List.filter (fun c => bool_decide (c_OrgID c = orgID)) (contractsAt address))).

Definition db_GetContractByAddressGlobal (address : string) : result (option Contract) :=
  query "GetContractByAddressGlobal" "failed to scan contract" (row1 (contractsAt address)).

Definition db_GetContractsByIDs (ids : list string) : result (gmap string Contract) :=
  match ids with
  | [] => Ok ∅
  | _ => query "GetContractsByIDs" "failed to get contracts by IDs"
           (foldl (fun m c => <[c_ID c := c]> m) ∅
              (List.filter (fun c => contains ids (c_ID c)) (db_contracts db)))
  end.

(** [ORDER BY created_at DESC] *)
Definition db_ListContracts (orgID : string) : result (list Contract) :=
  query "ListContracts" "failed to list contracts"
    (rev (List.filter (fun c => bool_decide (c_OrgID c = orgID)) (db_contracts db))).

(** ** Grants and group access *)
Definition db_ListContractGrantsBatch (groupIDs : list string)
  : result (gmap string (list ContractGrant)) :=
  match groupIDs with
  | [] => Ok ∅
  | _ => query "ListContractGrantsBatch" "failed to batch list contract grants"
           (foldl (fun m g => <[cg_GroupID g := (default [] (m !! cg_GroupID g) ++ [g])%list]> m) ∅
              (List.filter (fun g => contains groupIDs (cg_GroupID g)) (db_contract_grants db)))
  end.

Definition db_GetGroupAccess (groupID : string) : result (option GroupAccess) :=
  query "GetGroupAccess" "failed to scan group access"
    (row1 (List.filter (fun a => bool_decide (ga_GroupID a = groupID)) (db_group_access db))).

Definition db_GetGroupAccessBatch (groupIDs : list string) : result (gmap string GroupAccess) :=
  match groupIDs with
  | [] => Ok ∅
  | _ => query "GetGroupAccessBatch" "failed to batch get group access"
           (foldl (fun m a => <[ga_GroupID a := a]> m) ∅
              (List.filter (fun a => contains groupIDs (ga_GroupID a)) (db_group_access db)))
  end.

(** ** Organizations and users *)
Definition db_GetOrganization (id : string) : result (option Organization) :=
  query "GetOrganization" "failed to get organization"
    (row1 (List.filter (fun o => bool_decide (o_ID o = id)) (db_organizations db))).

Definition db_GetOrganizationBySlug (slug : string) : result (option Organization) :=
  query "GetOrganizationBySlug" "failed to get organization"
    (row1 (List.filter (fun o => bool_decide (o_Slug o = slug)) (db_organizations db))).

Definition db_GetUserByExternalID (externalID : string) : result (option User) :=
  query "GetUserByExternalID" "failed to scan user"
    (row1 (List.filter (fun u => bool_decide (u_ExternalID u = externalID)) (db_users db))).

(** [GetEthAddressesByDID]: the live links, most recent first *)
Definition db_GetLinkedEthAddresses (did : string) : result (list string) :=
  query "GetEthAddressesByDID" "failed to get ETH addresses"
    (map (fun l => ToLower (el_EthAddress l))
       (rev (List.filter (fun l => bool_decide (el_DID l = did) && negb (el_Revoked l))
               (db_eth_address_links db)))).

(** ** Memberships *)

(** [expires_at IS NULL OR expires_at > NOW()] *)
Definition unexpired (m : UserMembership) : bool :=
  match um_ExpiresAt m with None => true | Some t => (now <? t)%Z end.

(** [FROM user_memberships m JOIN groups g ON m.group_id = g.id] *)
Definition memberGroups (userID : string) : list (UserMembership * Group) :=
  concat (map (fun m =>
    if bool_decide (um_UserID m = userID) && unexpired m
    then map (fun g => (m, g))
           (List.filter (fun g => bool_decide (g_ID g = um_GroupID m)) (db_groups db))
    else []) (db_user_memberships db)).

Definition withDetails (mg : UserMembership * Group) : MembershipWithDetails :=
  {| md_Membership := Some (fst mg); md_Group := Some (snd mg) |}.

Definition db_ListActiveUserMembershipsWithDetails (userID : string)
  : result (list MembershipWithDetails) :=
  query "ListActiveUserMembershipsWithDetails" "failed to list active memberships with details"
    (map withDetails (memberGroups userID)).

Definition db_ListUserMembershipsInOrg (userID orgID : string)
  : result (list MembershipWithDetails) :=
  query "ListUserMembershipsInOrg" "failed to list memberships"
    (map withDetails
       (List.filter (fun mg => bool_decide (g_OrgID (snd mg) = orgID)) (memberGroups userID))).

(** [len(orgIDs) > 0] over the distinct organizations *)
Definition db_IsOrgAdmin (userID : string) : result bool :=
  query "IsOrgAdmin" "failed to check org admin status"
    (existsb (fun mg => g_IsOrgAdmin (snd mg)) (memberGroups userID)).

(** ** The store *)
Definition DbStore : Store := {|
  Models.GetUserByExternalID := db_GetUserByExternalID;
  Models.GetOrganization := db_GetOrganization;
  Models.GetOrganizationBySlug := db_GetOrganizationBySlug;
  Models.GetContractOwnerOrgID := db_GetContractOwnerOrgID;
  Models.IsAddressPreregistered := db_IsAddressPreregistered;
  Models.GetContractDeployerByAddress := db_GetContractDeployerByAddress;
  Models.IsAddressOwnedByOrg := db_IsAddressOwnedByOrg;
  Models.GetContractByAddress := db_GetContractByAddress;
  Models.GetContractByAddressGlobal := db_GetContractByAddressGlobal;
  Models.GetLinkedEthAddresses := db_GetLinkedEthAddresses;
  Models.ListActiveUserMembershipsWithDetails := db_ListActiveUserMembershipsWithDetails;
  Models.ListUserMembershipsInOrg := db_ListUserMembershipsInOrg;
  Models.ListContracts := db_ListContracts;
  Models.GetGroupAccess := db_GetGroupAccess;
  Models.GetGroupAccessBatch := db_GetGroupAccessBatch;
  Models.ListContractGrantsBatch := db_ListContractGrantsBatch;
  Models.GetContractsByIDs := db_GetContractsByIDs;
  Models.IsOrgAdmin := Some db_IsOrgAdmin |}.
End queries.

(** ** Laws *)

(** A query that matches rows returns one of them. *)
Record picks_row (row1 : forall A : Type, list A -> option A) : Prop := {
  row1_elem : forall A (l : list A) x, row1 A l = Some x -> x ∈ l;
  row1_some : forall A (l : list A), l <> [] -> is_Some (row1 A l) }.

Lemma query_Ok {A} db name msg (v w : A) : query db name msg v = Ok w -> v = w.
Proof. unfold query. destruct (db_fault db name); [done|]. by intros [= ->]. Qed.

Lemma elem_of_filter_bool {A} (f : A -> bool) (l : list A) x :
  x ∈ List.filter f l <-> x ∈ l /\ f x = true.
Proof. by rewrite list_elem_of_In, filter_In, <- list_elem_of_In. Qed.

Lemma elem_of_owners db address o :
  o ∈ owners db address <->
  (exists c, c ∈ db_contracts db /\ ToLower (c_Address c) = ToLower address /\ c_OrgID c = o) \/
  (exists p, p ∈ db_preregistered_addresses db /\ ToLower (pa_Address p) = ToLower address /\
             pa_OrgID p = o).
Proof.
  unfold owners, contractsAt, preregisteredAt, lower_is.
  rewrite elem_of_dedup, elem_of_app, !list_elem_of_fmap.
  setoid_rewrite elem_of_filter_bool. setoid_rewrite bool_decide_eq_true.
  split; [|set_solver]. intros [[(c & -> & ? & ?)|(c & -> & ? & ?)] _]; eauto 10.
Qed.

Section laws.
Context (row1 : forall A : Type, list A -> option A) (Hrow : picks_row row1).
Context (now : Z) (db : Database).

Lemma owner_Ok address o :
  db_GetContractOwnerOrgID row1 db address = Ok o ->
  (owners db address = [] /\ o = "") \/ o ∈ owners db address.
Proof.
  intros <-%query_Ok. destruct (owners db address) as [|x l] eqn:E.
  - left. split; [done|]. destruct (row1 _ []) eqn:E1; [|done].
    apply row1_elem in E1; [set_solver|done].
  - right. destruct (row1_some _ Hrow _ (x :: l)) as [y Hy]; [done|]. rewrite Hy. simpl.
    by apply (row1_elem _ Hrow).
Qed.

Lemma organization_Ok id org :
  db_GetOrganization row1 db id = Ok (Some org) -> o_ID org = id /\ org ∈ db_organizations db.
Proof.
  intros Hr%query_Ok. apply (row1_elem _ Hrow), elem_of_filter_bool in Hr as [? H].
  by apply bool_decide_eq_true in H.
Qed.

Lemma user_Ok ext u :
  db_GetUserByExternalID row1 db ext = Ok (Some u) -> u_ExternalID u = ext /\ u ∈ db_users db.
Proof.
  intros Hr%query_Ok. apply (row1_elem _ Hrow), elem_of_filter_bool in Hr as [? H].
  by apply bool_decide_eq_true in H.
Qed.

(** An active membership row of [userID] in a group of [orgID]. *)
Definition active_member (userID orgID : string) : Prop :=
  exists m g, m ∈ db_user_memberships db /\ g ∈ db_groups db /\ um_UserID m = userID /\
    um_GroupID m = g_ID g /\ g_OrgID g = orgID /\ unexpired now m = true.

Lemma elem_of_memberGroups userID m g :
  (m, g) ∈ memberGroups now db userID <->
  m ∈ db_user_memberships db /\ g ∈ db_groups db /\ um_UserID m = userID /\
  um_GroupID m = g_ID g /\ unexpired now m = true.
Proof.
  unfold memberGroups. rewrite list_elem_of_In, in_concat. split.
  - intros (l & (m' & <- & Hm)%in_map_iff & Hin).
    destruct (bool_decide _ && _) eqn:E; [|done].
    apply andb_true_iff in E as [E1%bool_decide_eq_true E2].
    apply in_map_iff in Hin as (g' & [= <- <-] & [Hg Hid%bool_decide_eq_true]%filter_In).
    rewrite !list_elem_of_In. auto.
  - intros (Hm & Hg & Hu & Hid & He). eexists. split.
    + apply in_map_iff. exists m. split; [reflexivity|]. by apply list_elem_of_In.
    + rewrite bool_decide_eq_true_2, He by done. simpl. apply in_map_iff. exists g.
      split; [done|]. apply filter_In. rewrite <- list_elem_of_In. split; [done|].
      by rewrite bool_decide_eq_true_2.
Qed.

Lemma elem_of_membershipOrgIDs userID o :
  o ∈ membershipOrgIDs (map withDetails (memberGroups now db userID)) <-> active_member userID o.
Proof.
  unfold membershipOrgIDs, active_member. rewrite elem_of_list_to_set, list_elem_of_In, in_concat.
  split.
  - intros (l & (md & <- & Hmd)%in_map_iff & Hin).
    apply in_map_iff in Hmd as ([m g] & <- & Hmg). simpl in Hin.
    destruct Hin as [<-|[]]. apply list_elem_of_In, elem_of_memberGroups in Hmg.
    exists m, g. naive_solver.
  - intros (m & g & ? & ? & ? & ? & <- & ?). exists [g_OrgID g]. split; [|by left].
    apply in_map_iff. exists (withDetails (m, g)). split; [done|]. apply in_map.
    apply list_elem_of_In, elem_of_memberGroups. naive_solver.
Qed.

Lemma GetUserOrgIDs_active userID ids :
  @GetUserOrgIDs (DbStore row1 now db) userID = Ok ids ->
  forall o, o ∈ ids <-> active_member userID o.
Proof.
  intros (ms & Hms & [= <-])%bind_Ok o. apply query_Ok in Hms as <-.
  apply elem_of_membershipOrgIDs.
Qed.
End laws.
