(* ===== verification/Writes.v ===== *)
(** * Writes of the store: the inserts, deletes and transactions of
    [internal/db] that the access controller and the revoke handlers make.

    A write acts on the RBAC tables and on the shared permission cache
    together, because some transactions change both.  The schema's unique
    constraints make an insert fail; its [ON DELETE CASCADE] foreign keys make
    a delete remove the dependent rows.  [db_fault] injects driver errors. *)
From S2P Require Import Prelude GoStrings Methods Models OrgContext Resolver Cache SqlCache.
From S2P Require Import PublishGuard ResolverGuard Db.
Local Open Scope string_scope.

(** The database: RBAC tables and permission cache. *)
Record Tables := { t_db : Database; t_cache : SqlCache }.

(** ** Table updates *)
Section updates.
Variable d : Database.

Definition set_groups (gs : list Group) (grants : list ContractGrant) (access : list GroupAccess)
    (ms : list UserMembership) : Database := {|
  db_organizations := db_organizations d; db_groups := gs; db_contracts := db_contracts d;
  db_contract_grants := grants; db_group_access := access; db_users := db_users d;
  db_user_memberships := ms; db_preregistered_addresses := db_preregistered_addresses d;
  db_eth_address_links := db_eth_address_links d; db_fault := db_fault d |}.

Definition set_contracts (cs : list Contract) (grants : list ContractGrant) : Database := {|
  db_organizations := db_organizations d; db_groups := db_groups d; db_contracts := cs;
  db_contract_grants := grants; db_group_access := db_group_access d; db_users := db_users d;
  db_user_memberships := db_user_memberships d;
  db_preregistered_addresses := db_preregistered_addresses d;
  db_eth_address_links := db_eth_address_links d; db_fault := db_fault d |}.

Definition set_users (us : list User) (ms : list UserMembership) : Database := {|
  db_organizations := db_organizations d; db_groups := db_groups d; db_contracts := db_contracts d;
  db_contract_grants := db_contract_grants d; db_group_access := db_group_access d;
  db_users := us; db_user_memberships := ms;
  db_preregistered_addresses := db_preregistered_addresses d;
  db_eth_address_links := db_eth_address_links d; db_fault := db_fault d |}.

Definition set_preregistered (ps : list PreregisteredAddress) : Database := {|
  db_organizations := db_organizations d; db_groups := db_groups d; db_contracts := db_contracts d;
  db_contract_grants := db_contract_grants d; db_group_access := db_group_access d;
  db_users := db_users d; db_user_memberships := db_user_memberships d;
  db_preregistered_addresses := ps; db_eth_address_links := db_eth_address_links d;
  db_fault := db_fault d |}.
End updates.

(** ** Statements and transactions *)

(** One statement: the injected fault, the constraint it may violate, the
    change. *)
Definition exec (name msg : string) (violates : Database -> bool) (f : Database -> Database)
  : stM Tables unit := fun s =>
  match query (t_db s) name msg tt with
  | Err e => (Err e, s)
  | Ok _ => if violates (t_db s) then (Err (name +:+ ": constraint violation"), s)
            else (Ok tt, {| t_db := f (t_db s); t_cache := t_cache s |})
  end.

Definition no_violation (_ : Database) : bool := false.

(** [WithTx]: rolled back when the body or the commit fails. *)
Definition WithTx {A} (body : stM Tables A) : stM Tables A := fun s =>
  match query (t_db s) "BeginTx" "failed to begin transaction" tt with
  | Err e => (Err e, s)
  | Ok _ =>
      match body s with
      | (Err e, _) => (Err e, s)
      | (Ok a, s') => match query (t_db s) "Commit" "" tt with
                      | Err e => (Err e, s)
                      | Ok _ => (Ok a, s')
                      end
      end
  end.

(** [withRetry] over [txRetryAttempts] attempts; [retriable] classifies the
    driver's SQLSTATEs. *)
Fixpoint withRetry {A} (retriable : string -> bool) (attempts : nat) (last : string)
    (fn : stM Tables A) : stM Tables A := fun s =>
  match attempts with
  | 0 => (Err last, s)
  | S k => match fn s with
           | (Ok a, s') => (Ok a, s')
           | (Err e, s') => if retriable e then withRetry retriable k e fn s' else (Err e, s')
           end
  end.

Definition txRetryAttempts : nat := 3.

(** ** Cache invalidation *)
Definition cacheExec (name msg : string) (f : SqlCache -> SqlCache) : stM Tables unit := fun s =>
  match query (t_db s) name msg tt with
  | Err e => (Err e, s)
  | Ok _ => (Ok tt, {| t_db := t_db s; t_cache := f (t_cache s) |})
  end.

Definition db_bumpCacheGeneration : stM Tables unit :=
  cacheExec "bumpCacheGeneration" "failed to bump rbac cache generation" bumpCacheGeneration.

Definition db_InvalidateCacheForUser (userID : string) : stM Tables unit :=
  WithTx (_ ← db_bumpCacheGeneration;
          cacheExec "InvalidateCacheForUser" ""
            (deleteRows (fun k => bool_decide (fst k = userID)))).

Definition db_invalidateCacheForOrg (orgID : string) : stM Tables unit :=
  _ ← db_bumpCacheGeneration;
  cacheExec "invalidateCacheForOrg" "" (deleteRows (fun k => bool_decide (snd k = orgID))).

(** [SELECT user_id FROM user_memberships WHERE group_id = $1] *)
Definition groupMembers (d : Database) (groupID : string) : list string :=
  map um_UserID (List.filter (fun m => bool_decide (um_GroupID m = groupID)) (db_user_memberships d)).

Definition db_invalidateCacheForGroup (groupID : string) : stM Tables unit :=
  _ ← db_bumpCacheGeneration;
  s ← get;
  cacheExec "invalidateCacheForGroup" ""
    (deleteRows (fun k => contains (groupMembers (t_db s) groupID) (fst k))).

(** ** Deletes *)
Definition db_deleteContract (id : string) : stM Tables unit :=
  exec "deleteContract" "" no_violation (fun d => set_contracts d
    (List.filter (fun c => negb (bool_decide (c_ID c = id))) (db_contracts d))
    (List.filter (fun g => negb (bool_decide (cg_ContractID g = id))) (db_contract_grants d))).

Definition db_deleteContractGrant (id : string) : stM Tables unit :=
  exec "deleteContractGrant" "" no_violation (fun d => set_contracts d (db_contracts d)
    (List.filter (fun g => negb (bool_decide (cg_ID g = id))) (db_contract_grants d))).

(** The groups whose [parent_id] chain leads into [ids]: the rows the
    self-reference cascades to.  One round per group suffices. *)
Fixpoint descendants (rounds : nat) (gs : list Group) (ids : list string) : list string :=
  match rounds with
  | 0 => ids
  | S k => descendants k gs
             (ids ++ map g_ID (List.filter (fun g => match g_ParentID g with
                                                     | Some p => contains ids p
                                                     | None => false
                                                     end) gs))%list
  end.

Definition removedGroups (d : Database) (id : string) : list string :=
  descendants (length (db_groups d)) (db_groups d) [id].

Definition db_deleteGroup (id : string) : stM Tables unit :=
  exec "deleteGroup" "" no_violation (fun d =>
    let gone := removedGroups d id in
    set_groups d
      (List.filter (fun g => negb (contains gone (g_ID g))) (db_groups d))
      (List.filter (fun g => negb (contains gone (cg_GroupID g))) (db_contract_grants d))
      (List.filter (fun a => negb (contains gone (ga_GroupID a))) (db_group_access d))
      (List.filter (fun m => negb (contains gone (um_GroupID m))) (db_user_memberships d))).

(** ** [internal/db/invalidating_deletes.go] *)
Definition wrapTx {A} (msg : string) (m : stM Tables A) : stM Tables A := fun s =>
  let '(r, s') := m s in (wrap msg r, s').

Definition DeleteContractAndInvalidate (contractID orgID : string) : stM Tables unit :=
  WithTx (_ ← wrapTx "failed to invalidate cache" (db_invalidateCacheForOrg orgID);
          wrapTx "failed to delete contract" (db_deleteContract contractID)).

Definition DeleteContractGrantAndInvalidate (grantID groupID : string) : stM Tables unit :=
  WithTx (_ ← wrapTx "failed to invalidate cache" (db_invalidateCacheForGroup groupID);
          wrapTx "failed to delete grant" (db_deleteContractGrant grantID)).

Definition DeleteGroupAndInvalidate (groupID : string) : stM Tables unit :=
  WithTx (_ ← wrapTx "failed to invalidate cache" (db_invalidateCacheForGroup groupID);
          wrapTx "failed to delete group" (db_deleteGroup groupID)).

(** ** Inserts *)
Definition db_CreateUser (u : User) : stM Tables unit :=
  exec "CreateUser" ""
    (fun d => existsb (fun u' => bool_decide (u_ID u' = u_ID u) ||
                                 bool_decide (u_ExternalID u' = u_ExternalID u)) (db_users d))
    (fun d => set_users d (db_users d ++ [u])%list (db_user_memberships d)).

(** Foreign keys to the user and the group; [UNIQUE(user_id, group_id)]. *)
Definition db_CreateMembership (m : UserMembership) : stM Tables unit :=
  exec "CreateMembership" ""
    (fun d => negb (existsb (fun u => bool_decide (u_ID u = um_UserID m)) (db_users d)) ||
              negb (existsb (fun g => bool_decide (g_ID g = um_GroupID m)) (db_groups d)) ||
              existsb (fun m' => bool_decide (um_UserID m' = um_UserID m) &&
                                 bool_decide (um_GroupID m' = um_GroupID m)) (db_user_memberships d))
    (fun d => set_users d (db_users d) (db_user_memberships d ++ [m])%list).

(** The address is stored in lower case; [UNIQUE(org_id, lower(address))]. *)
Definition db_CreateContract (c : Contract) : stM Tables unit :=
  exec "CreateContract" ""
    (fun d => negb (existsb (fun o => bool_decide (o_ID o = c_OrgID c)) (db_organizations d)) ||
              match c_DeployedByUserID c with
              | Some uid => negb (existsb (fun u => bool_decide (u_ID u = uid)) (db_users d))
              | None => false
              end ||
              existsb (fun c' => bool_decide (c_ID c' = c_ID c) ||
                                 (bool_decide (c_OrgID c' = c_OrgID c) &&
                                  lower_is (c_Address c) (c_Address c'))) (db_contracts d))
    (fun d => set_contracts d
       (db_contracts d ++ [{| c_ID := c_ID c; c_OrgID := c_OrgID c;
                              c_Address := ToLower (c_Address c); c_ABI := c_ABI c;
                              c_DeployedByUserID := c_DeployedByUserID c;
                              c_AllowVisibleToUnlock := false |}])%list
       (db_contract_grants d)).

(** [ON CONFLICT (address) DO NOTHING]; a foreign key to the organization *)
Definition preregisteredExactly (d : Database) (address : string) : bool :=
  existsb (fun p => bool_decide (pa_Address p = ToLower address)) (db_preregistered_addresses d).

Definition db_PreRegisterPlainCreate (now : Z) (orgID address : string) : stM Tables unit :=
  exec "PreRegisterPlainCreate" "failed to pre-register plain CREATE address"
    (fun d => negb (preregisteredExactly d address) &&
              negb (existsb (fun o => bool_decide (o_ID o = orgID)) (db_organizations d)))
    (fun d => if preregisteredExactly d address
              then d
              else set_preregistered d
                     (db_preregistered_addresses d ++
                      [{| pa_OrgID := orgID; pa_Address := ToLower address; pa_CreatedAt := now |}])%list).

Definition db_DeletePreregisteredAddressByAddress (address : string) : stM Tables unit :=
  exec "DeletePreregisteredAddressByAddress" "failed to delete preregistered address" no_violation
    (fun d => set_preregistered d
       (List.filter (fun p => negb (lower_is address (pa_Address p))) (db_preregistered_addresses d))).

(** [olderThan] in seconds; rows whose address has a contract are kept. *)
Definition db_DeleteOrphanedPreregisteredAddresses (now seconds : Z) : stM Tables unit :=
  if (seconds <=? 0)%Z then mret tt
  else exec "DeleteOrphanedPreregisteredAddresses"
         "failed to delete orphaned preregistered addresses" no_violation
         (fun d => set_preregistered d
            (List.filter (fun p =>
               negb ((pa_CreatedAt p <? now - seconds)%Z &&
                     bool_decide (contractsAt d (pa_Address p) = [])))
               (db_preregistered_addresses d))).

Section grant.
Variable row1 : forall A : Type, list A -> option A.
Arguments row1 {A}.
Variable now : Z.
Variable retriable : string -> bool.

(** The deployer's unexpired groups of the organization that hold the deploy
    claim. *)
Definition deployGroups (d : Database) (orgID userID : string) : list string :=
  map g_ID (List.filter (fun g => bool_decide (g_OrgID g = orgID) &&
              existsb (fun a => bool_decide (ga_GroupID a = g_ID g) && hasClaim (ga_Claims a) ClaimDeploy)
                (db_group_access d)) (map snd (memberGroups now d userID))).

(** [INSERT ... ON CONFLICT (contract_id, group_id) DO NOTHING] *)
Definition insertGrant (grantID contractID groupID : string) (d : Database) : Database :=
  if existsb (fun g => bool_decide (cg_ContractID g = contractID) &&
                       bool_decide (cg_GroupID g = groupID)) (db_contract_grants d)
  then d
  else set_contracts d (db_contracts d)
         (db_contract_grants d ++ [{| cg_ID := grantID; cg_ContractID := contractID;
            cg_GroupID := groupID; cg_Functions := None; cg_EventRules := None |}])%list.

Definition db_GrantContractToDeployerGroup (grantID orgID contractID deployerUserID : string)
  : stM Tables unit :=
  withRetry retriable txRetryAttempts "" (WithTx (fun s =>
    match query (t_db s) "GrantContractToDeployerGroup"
            ("deployer has no group with deploy claim in org " +:+ orgID)
            (row1 (deployGroups (t_db s) orgID deployerUserID)) with
    | Err e => (Err e, s)
    | Ok None => (Err ("deployer has no group with deploy claim in org " +:+ orgID
                       +:+ ": sql: no rows in result set"), s)
    | Ok (Some groupID) =>
        exec "InsertContractGrant" "failed to create contract grant"
          (fun d => negb (existsb (fun c => bool_decide (c_ID c = contractID)) (db_contracts d)))
          (insertGrant grantID contractID groupID) s
    end)).
End grant.

(** ** Laws *)
Lemma WithTx_Ok {A} (body : stM Tables A) s a s' :
  WithTx body s = (Ok a, s') -> body s = (Ok a, s').
Proof.
  unfold WithTx. destruct (query _ _ _ _); [|done]. destruct (body s) as [[b|e] s1]; [|done].
  by destruct (query _ _ _ _).
Qed.

Lemma exec_Ok name msg v f s u s' :
  exec name msg v f s = (Ok u, s') ->
  v (t_db s) = false /\ s' = {| t_db := f (t_db s); t_cache := t_cache s |}.
Proof.
  unfold exec. destruct (query _ _ _ _); [|done]. destruct (v _); [done|]. by intros [= _ <-].
Qed.

Lemma cacheExec_Ok name msg f s u s' :
  cacheExec name msg f s = (Ok u, s') -> s' = {| t_db := t_db s; t_cache := f (t_cache s) |}.
Proof. unfold cacheExec. destruct (query _ _ _ _); [|done]. by intros [= _ <-]. Qed.

Lemma wrapTx_Ok {A} msg (m : stM Tables A) s a s' : wrapTx msg m s = (Ok a, s') <-> m s = (Ok a, s').
Proof. unfold wrapTx. destruct (m s) as [[b|e] s1]; simpl; naive_solver. Qed.

Ltac inv_tx :=
  repeat match goal with
  | H : WithTx _ _ = (Ok _, _) |- _ => apply WithTx_Ok in H
  | H : wrapTx _ _ _ = (Ok _, _) |- _ => apply wrapTx_Ok in H
  | H : exec _ _ _ _ _ = (Ok _, _) |- _ => apply exec_Ok in H as [? ->]
  | H : cacheExec _ _ _ _ = (Ok _, _) |- _ => apply cacheExec_Ok in H as ->
  | H : (_ ≫= _) _ = (Ok _, _) |- _ => apply st_bind_Ok in H; destruct H as (?&?&?&?)
  | H : get _ = (_, _) |- _ => unfold get in H; injection H as <- <-
  end.

Lemma invalidateOrg_Ok orgID s u s' :
  db_invalidateCacheForOrg orgID s = (Ok u, s') ->
  s' = {| t_db := t_db s;
          t_cache := deleteRows (fun k => bool_decide (snd k = orgID))
                       (bumpCacheGeneration (t_cache s)) |}.
Proof. intros H. unfold db_invalidateCacheForOrg, db_bumpCacheGeneration in H. by inv_tx. Qed.

Lemma invalidateGroup_Ok groupID s u s' :
  db_invalidateCacheForGroup groupID s = (Ok u, s') ->
  s' = {| t_db := t_db s;
          t_cache := deleteRows (fun k => contains (groupMembers (t_db s) groupID) (fst k))
                       (bumpCacheGeneration (t_cache s)) |}.
Proof. intros H. unfold db_invalidateCacheForGroup, db_bumpCacheGeneration in H. by inv_tx. Qed.

(** Filtering out rows a query does not select changes nothing. *)
Lemma filter_sub {A} (sel keep : A -> bool) (l : list A) :
  (forall x, x ∈ l -> sel x = true -> keep x = true) ->
  List.filter sel (List.filter keep l) = List.filter sel l.
Proof.
  induction l as [|x l IH]; intros H; simpl; [done|].
  assert (IH' := IH (fun y Hy => H y (list_elem_of_further _ _ _ Hy))). clear IH.
  specialize (H x (list_elem_of_here _ _)). destruct (keep x) eqn:Ek; simpl; rewrite IH'; [done|].
  destruct (sel x); [by specialize (H eq_refl)|done].
Qed.

(** ** What the resolver reads *)
Lemma membershipGroups_withDetails l : membershipGroups (map withDetails l) = Ok (map snd l).
Proof.
  unfold membershipGroups. induction l as [|[m g] l IH]; [done|]. simpl in *. by rewrite IH.
Qed.

Lemma elem_of_membershipGroupIDs groups id :
  id ∈ membershipGroupIDs groups <-> exists g, g ∈ groups /\ g_ID g = id.
Proof.
  unfold membershipGroupIDs. rewrite elem_of_dedup, list_elem_of_fmap. set_solver.
Qed.

(** A batch maps a group to grants of that group. *)
Lemma grants_batch_elem d ids grants gid g :
  db_ListContractGrantsBatch d ids = Ok grants -> g ∈ default [] (grants !! gid) ->
  g ∈ db_contract_grants d /\ cg_GroupID g = gid /\ gid ∈ ids.
Proof.
  unfold db_ListContractGrantsBatch. destruct ids as [|i ids].
  { intros [= <-]. rewrite lookup_empty. set_solver. }
  intros Hq%query_Ok. subst grants. set (l := List.filter _ _).
  assert (Hl : forall x, x ∈ l -> x ∈ db_contract_grants d /\ cg_GroupID x ∈ i :: ids).
  { intros x [Hx Hc]%elem_of_filter_bool. split; [done|by apply contains_true]. }
  intros Hg. cut (g ∈ l /\ cg_GroupID g = gid).
  { intros [Hin <-]. destruct (Hl g Hin). auto. }
  clear Hl. revert Hg. set (m0 := ∅ : gmap string (list ContractGrant)).
  intros Hg. cut ((g ∈ l /\ cg_GroupID g = gid) \/ g ∈ default [] (m0 !! gid)).
  { intros [?|Hm]; [done|]. unfold m0 in Hm. rewrite lookup_empty in Hm. set_solver. }
  revert Hg. generalize m0. clear m0. induction l as [|x l IH]; intros m; simpl; [auto|].
  intros [[Hin Hid]|Hm]%IH; [left; set_solver|].
  destruct (decide (cg_GroupID x = gid)) as [<-|Hne].
  - rewrite lookup_insert_eq in Hm. simpl in Hm.
    apply elem_of_app in Hm as [Hm|Hm]; [by right|left; set_solver].
  - rewrite lookup_insert_ne in Hm by done. by right.
Qed.

(** ** Revokes commit their invalidation *)
Section commits.
Context (row1 : forall A : Type, list A -> option A) (now : Z).
Context (decryptAESGCM : string -> string -> result string) (encryptionKey : string) (cacheTTL : Z).

(** [id] names an active group of [u] in [o]. *)
Definition member_group (d : Database) (u o id : string) : Prop :=
  exists m g, (m, g) ∈ memberGroups now d u /\ g_OrgID g = o /\ g_ID g = id.

(** Tables that differ only in rows the compute for [u] in [o] does not
    select agree on it. *)
Lemma agree_db d d' n u o :
  db_fault d' = db_fault d ->
  memberGroups now d' u = memberGroups now d u ->
  List.filter (fun c => bool_decide (c_OrgID c = o)) (db_contracts d') =
  List.filter (fun c => bool_decide (c_OrgID c = o)) (db_contracts d) ->
  (forall ids, (forall id, id ∈ ids -> member_group d u o id) ->
     List.filter (fun a => contains ids (ga_GroupID a)) (db_group_access d') =
     List.filter (fun a => contains ids (ga_GroupID a)) (db_group_access d) /\
     List.filter (fun g => contains ids (cg_GroupID g)) (db_contract_grants d') =
     List.filter (fun g => contains ids (cg_GroupID g)) (db_contract_grants d)) ->
  (forall cids, (forall c, c ∈ cids -> exists g, g ∈ db_contract_grants d /\
       member_group d u o (cg_GroupID g) /\ cg_ContractID g = c) ->
     List.filter (fun c => contains cids (c_ID c)) (db_contracts d') =
     List.filter (fun c => contains cids (c_ID c)) (db_contracts d)) ->
  agree (DbStore row1 now d) (DbStore row1 now d')
    (computeProg decryptAESGCM encryptionKey cacheTTL n u o).
Proof.
  intros Hf Hm Hc Hids Hcids.
  assert (Hq : forall A name msg (v : A), query d' name msg v = query d name msg v).
  { intros. unfold query. by rewrite Hf. }
  apply agree_computeProg.
  - simpl. unfold db_ListUserMembershipsInOrg. by rewrite Hq, Hm.
  - intros ms groups Hms Hgr. simpl in Hms. apply query_Ok in Hms as <-.
    rewrite membershipGroups_withDetails in Hgr. injection Hgr as <-.
    set (ids := membershipGroupIDs _).
    assert (Hmem : forall id, id ∈ ids -> member_group d u o id).
    { intros id (g & Hg & Hid)%elem_of_membershipGroupIDs.
      apply list_elem_of_fmap in Hg as ([m g'] & -> & Hg).
      apply elem_of_filter_bool in Hg as [Hg Ho%bool_decide_eq_true]. by exists m, g'. }
    destruct (Hids ids Hmem) as [Ha Hg]. simpl. split_and!.
    + unfold db_ListContracts. by rewrite Hq, Hc.
    + unfold db_GetGroupAccessBatch. by rewrite Hq, Ha.
    + unfold db_ListContractGrantsBatch. by rewrite Hq, Hg.
    + intros grants Hgrants. set (cids := dedup _ _).
      unfold db_GetContractsByIDs. rewrite Hq, Hcids; [done|].
      intros c [Hin _]%elem_of_dedup. apply list_elem_of_In, in_concat in Hin as (l & Hl & Hin).
      apply in_map_iff in Hl as (gid & <- & _). apply in_map_iff in Hin as (g & <- & Hin).
      apply list_elem_of_In in Hin.
      destruct (grants_batch_elem d ids grants gid g Hgrants Hin) as (? & <- & Hgid).
      exists g. auto.
Qed.

(** What the foreign keys and the grant handlers keep: a grant refers to an
    existing contract, and to a group of the contract's organization. *)
Record grants_within_org (d : Database) : Prop := {
  gw_contract : forall g, g ∈ db_contract_grants d ->
    exists c, c ∈ db_contracts d /\ c_ID c = cg_ContractID g;
  gw_org : forall g c gr, g ∈ db_contract_grants d -> c ∈ db_contracts d -> gr ∈ db_groups d ->
    c_ID c = cg_ContractID g -> g_ID gr = cg_GroupID g -> c_OrgID c = g_OrgID gr }.

Lemma member_group_db d u o id :
  member_group d u o id ->
  exists m g, m ∈ db_user_memberships d /\ g ∈ db_groups d /\ um_UserID m = u /\
    um_GroupID m = id /\ g_OrgID g = o /\ g_ID g = id.
Proof.
  intros (m & g & Hmg & Ho & Hid). apply elem_of_memberGroups in Hmg as (? & ? & ? & ? & _).
  exists m, g. naive_solver.
Qed.

Lemma scoped_delete_contract d id orgID :
  grants_within_org d ->
  (forall c, c ∈ db_contracts d -> c_ID c = id -> c_OrgID c = orgID) ->
  scoped (computeProg decryptAESGCM encryptionKey cacheTTL) (DbStore row1 now d)
    (DbStore row1 now (set_contracts d
       (List.filter (fun c => negb (bool_decide (c_ID c = id))) (db_contracts d))
       (List.filter (fun g => negb (bool_decide (cg_ContractID g = id))) (db_contract_grants d))))
    (fun k => bool_decide (snd k = orgID)).
Proof.
  intros [Hfk Hwo] Hid u o Ho%bool_decide_eq_false n. simpl in Ho.
  assert (Hne : forall g, g ∈ db_contract_grants d -> member_group d u o (cg_GroupID g) ->
                cg_ContractID g <> id).
  { intros g Hg (m & gr & _ & Hgr & _ & _ & Hor & Hgid)%member_group_db Heq.
    destruct (Hfk g Hg) as (c & Hc & Hcid). apply Ho.
    rewrite <- Hor, <- (Hwo g c gr Hg Hc Hgr Hcid Hgid). apply Hid; [done|congruence]. }
  apply agree_db; try done; simpl.
  - apply filter_sub. intros c Hc Hco. bools. intros Heq. apply Ho. rewrite <- Hco. auto.
  - intros ids Hids. split; [done|]. apply filter_sub.
    intros g Hg Hgi. bools. auto.
  - intros cids Hcids. apply filter_sub. intros c _ Hci. bools. destruct (Hcids _ Hci) as (g & Hg & Hm & <-). auto.
Qed.

Lemma scoped_delete_grant d id groupID :
  (forall g, g ∈ db_contract_grants d -> cg_ID g = id -> cg_GroupID g = groupID) ->
  scoped (computeProg decryptAESGCM encryptionKey cacheTTL) (DbStore row1 now d)
    (DbStore row1 now (set_contracts d (db_contracts d)
       (List.filter (fun g => negb (bool_decide (cg_ID g = id))) (db_contract_grants d))))
    (fun k => contains (groupMembers d groupID) (fst k)).
Proof.
  intros Hid u o Hu%contains_false n. simpl in Hu. apply agree_db; try done; simpl.
  intros ids Hids. split; [done|]. apply filter_sub. intros g Hg Hgi. bools. intros Heq. apply Hu.
  destruct (member_group_db _ _ _ _ (Hids _ Hgi)) as (m & _ & Hm & _ & <- & Hmg & _).
  apply list_elem_of_fmap_2, elem_of_filter_bool. split; [done|].
  apply bool_decide_eq_true. rewrite Hmg. auto.
Qed.

(** Groups are flat: nothing hangs below the deleted one. *)
Lemma removedGroups_flat d id :
  (forall g, g ∈ db_groups d -> g_ParentID g <> Some id) -> removedGroups d id = [id].
Proof.
  intros Hflat. unfold removedGroups. generalize (length (db_groups d)). intros n.
  assert (Hnil : List.filter (fun g => match g_ParentID g with
                   | Some p => contains [id] p | None => false end) (db_groups d) = []).
  { clear n. induction (db_groups d) as [|g gs IH]; [done|]. simpl.
    assert (Hg : g_ParentID g <> Some id) by (apply Hflat; left).
    destruct (g_ParentID g) as [p|]; [|apply IH; intros; apply Hflat; by right].
    destruct (contains [id] p) eqn:E.
    - apply contains_true, list_elem_of_singleton in E. by subst.
    - apply IH. intros. apply Hflat. by right. }
  induction n as [|n IH]; [done|]. simpl. by rewrite Hnil.
Qed.

Lemma memberGroups_delete_group d u gone gs grants access :
  (forall m, m ∈ db_user_memberships d -> um_UserID m = u -> um_GroupID m ∉ gone) ->
  gs = List.filter (fun g => negb (contains gone (g_ID g))) (db_groups d) ->
  memberGroups now (set_groups d gs grants access
    (List.filter (fun m => negb (contains gone (um_GroupID m))) (db_user_memberships d))) u =
  memberGroups now d u.
Proof.
  intros Hu ->. unfold memberGroups. simpl.
  induction (db_user_memberships d) as [|m ms IH]; [done|]. simpl.
  assert (IH' := IH (fun y Hy => Hu y (list_elem_of_further _ _ _ Hy))). clear IH.
  specialize (Hu m (list_elem_of_here _ _)).
  destruct (contains gone (um_GroupID m)) eqn:E; simpl; rewrite IH'.
  - apply contains_true in E. rewrite bool_decide_eq_false_2; [done|]. intros Hx. by apply (Hu Hx).
  - f_equal. destruct (bool_decide _ && _); [|done]. f_equal. apply filter_sub.
    intros g _ Hg%bool_decide_eq_true. by rewrite Hg, E.
Qed.

Lemma scoped_delete_group d id :
  (forall g, g ∈ db_groups d -> g_ParentID g <> Some id) ->
  let gone := removedGroups d id in
  scoped (computeProg decryptAESGCM encryptionKey cacheTTL) (DbStore row1 now d)
    (DbStore row1 now (set_groups d
      (List.filter (fun g => negb (contains gone (g_ID g))) (db_groups d))
      (List.filter (fun g => negb (contains gone (cg_GroupID g))) (db_contract_grants d))
      (List.filter (fun a => negb (contains gone (ga_GroupID a))) (db_group_access d))
      (List.filter (fun m => negb (contains gone (um_GroupID m))) (db_user_memberships d))))
    (fun k => contains (groupMembers d id) (fst k)).
Proof.
  intros Hflat. simpl. rewrite (removedGroups_flat d id Hflat).
  intros u o Hu%contains_false n. simpl in Hu.
  assert (Hne : forall m, m ∈ db_user_memberships d -> um_UserID m = u -> um_GroupID m ∉ [id]).
  { intros m Hm <- Heq%list_elem_of_singleton. apply Hu.
    apply list_elem_of_fmap_2, elem_of_filter_bool. split; [done|]. by apply bool_decide_eq_true. }
  apply agree_db; try done; simpl; [by apply memberGroups_delete_group|].
  intros ids Hids. split; apply filter_sub; intros x _ Hx; bools;
    destruct (member_group_db _ _ _ _ (Hids _ Hx)) as (m & _ & Hm & _ & Hmu & <- & _); auto.
Qed.
End commits.

(** each revoke of [invalidating_deletes.go] that succeeds is one atomic
    commit of the concurrent system: it changes the answers of no user and
    organization outside the cache rows its own transaction deletes, and
    bumps the generation.  Together with the publication guard, no resolve
    can bring a revoked grant back into the shared cache.  The contract is
    one of the organization, the grant one of the group, and the group has no
    child groups. *)
Theorem revokes_are_commits row1 now decryptAESGCM encryptionKey cacheTTL
    (w : World Store Nonce) s s' op :
  w_db w = DbStore row1 now (t_db s) -> w_sql w = t_cache s ->
  (exists contractID orgID, op = DeleteContractAndInvalidate contractID orgID /\
     grants_within_org (t_db s) /\
     forall c, c ∈ db_contracts (t_db s) -> c_ID c = contractID -> c_OrgID c = orgID) \/
  (exists grantID groupID, op = DeleteContractGrantAndInvalidate grantID groupID /\
     forall g, g ∈ db_contract_grants (t_db s) -> cg_ID g = grantID -> cg_GroupID g = groupID) \/
  (exists groupID, op = DeleteGroupAndInvalidate groupID /\
     forall g, g ∈ db_groups (t_db s) -> g_ParentID g <> Some groupID) ->
  op s = (Ok tt, s') ->
  step (computeProg decryptAESGCM encryptionKey cacheTTL) w
    (set_tables w (DbStore row1 now (t_db s')) (t_cache s') (w_pending w)).
Proof.
  intros Hd Hc Hop Hr.
  destruct Hop as [(cid & oid & -> & Hwf & Hin)|[(gid & grp & -> & Hin)|(gid & -> & Hflat)]].
  - unfold DeleteContractAndInvalidate, db_deleteContract in Hr. inv_tx.
    apply invalidateOrg_Ok in H as ->. simpl in *. rewrite <- Hc. apply step_commit.
    rewrite Hd. by apply scoped_delete_contract.
  - unfold DeleteContractGrantAndInvalidate, db_deleteContractGrant in Hr. inv_tx.
    apply invalidateGroup_Ok in H as ->. simpl in *. rewrite <- Hc. apply step_commit.
    rewrite Hd. by apply scoped_delete_grant.
  - unfold DeleteGroupAndInvalidate, db_deleteGroup in Hr. inv_tx.
    apply invalidateGroup_Ok in H as ->. simpl in *. rewrite <- Hc. apply step_commit.
    rewrite Hd. by apply scoped_delete_group.
Qed.
