(* ===== verification/Access.v ===== *)
(** * The access decision: [CheckAccess] of [internal/rbac/access.go], with
    [upgrade_validator.go] and [param_validator.go].

    Each phase of the source is one definition.  A phase returns [Done res]
    when the source returns [handled == true], [Next] otherwise; errors are
    [Err].  The state is the controller (anonymous-access cell and permission
    cache) for the outer phases, and the request-scoped [OrgContext] (its
    owner memo) for the phases after organization resolution. *)
From stdpp Require Import pretty.
From S2P Require Import Prelude GoStrings Methods Models Requests OrgContext Cache.
Local Open Scope string_scope.
Local Open Scope go_scope.

(** What the controller needs of the resolver: the permissions and the
    verdict whether they may be cached ([ResolvePermissionsCacheable]). *)
Class PermissionSource := {
  ResolvePermissionsCacheable : string -> string -> result (EffectivePermissions * bool)
}.

(** ** Proxy upgrades *)
Definition SelectorUpgradeTo : string := "3659cfe6".
Definition SelectorUpgradeToAndCall : string := "4f1ef286".
Definition SelectorSetImplementation : string := "d784d426".
Definition SelectorProxyAdminUpgrade : string := "99a88ec4".
Definition SelectorProxyAdminUpgradeAndCall : string := "9623609d".

Definition UpgradeSelectors : list (string * string) := [
  (SelectorUpgradeTo, "upgradeTo(address)");
  (SelectorUpgradeToAndCall, "upgradeToAndCall(address,bytes)");
  (SelectorSetImplementation, "setImplementation(address)");
  (SelectorProxyAdminUpgrade, "upgrade(address,address)");
  (SelectorProxyAdminUpgradeAndCall, "upgradeAndCall(address,address,bytes)") ].

Definition upgradeFunction (selector : string) : option string :=
  snd <$> List.find (fun '(s, _) => bool_decide (s = selector)) UpgradeSelectors.

Definition IsUpgradeSelector (selector : string) : bool :=
  bool_decide (is_Some (upgradeFunction (TrimPrefix (ToLower selector) "0x"))).

(** [calldata[a:b]] *)
Definition slice (a b : nat) (l : list Ascii.ascii) : list Ascii.ascii := take (b - a) (drop a l).

Definition extractImplementationAddress (selector : string) (calldata : list Ascii.ascii)
  : result string :=
  if contains [SelectorUpgradeTo; SelectorUpgradeToAndCall; SelectorSetImplementation] selector
  then
    if Nat.ltb (length calldata) 36
    then Err ("calldata too short for " +:+ default "" (upgradeFunction selector))
    else Ok ("0x" +:+ EncodeToString (slice 16 36 calldata))
  else if contains [SelectorProxyAdminUpgrade; SelectorProxyAdminUpgradeAndCall] selector
  then
    if Nat.ltb (length calldata) 68
    then Err ("calldata too short for " +:+ default "" (upgradeFunction selector))
    else Ok ("0x" +:+ EncodeToString (slice 48 68 calldata))
  else Err ("unknown upgrade selector: " +:+ selector).

Record UpgradeValidationResult := {
  ur_IsUpgradeCall : bool; ur_Allowed : bool; ur_Reason : string;
  ur_NewImplementation : string; ur_FunctionName : string }.

Definition notUpgrade : UpgradeValidationResult := {|
  ur_IsUpgradeCall := false; ur_Allowed := true; ur_Reason := "";
  ur_NewImplementation := ""; ur_FunctionName := "" |}.

Section upgrade.
Context `{Store}.

Definition ValidateUpgrade (orgID proxyAddress : string) (calldata : list Ascii.ascii)
  : result UpgradeValidationResult :=
  if Nat.ltb (length calldata) 4 then Ok notUpgrade
  else
    let selector := EncodeToString (take 4 calldata) in
    match upgradeFunction selector with
    | None => Ok notUpgrade
    | Some funcName =>
        match extractImplementationAddress selector calldata with
        | Err e =>
            Ok {| ur_IsUpgradeCall := true; ur_Allowed := false;
                  ur_Reason := "failed to extract implementation address: " +:+ e;
                  ur_NewImplementation := ""; ur_FunctionName := funcName |}
        | Ok newImpl =>
            owned ← wrap "failed to check implementation ownership"
                      (IsAddressOwnedByOrg newImpl orgID);
            Ok {| ur_IsUpgradeCall := true; ur_Allowed := owned;
                  ur_Reason := if owned then ""
                    else "new implementation " +:+ newImpl +:+ " is not owned by the organization";
                  ur_NewImplementation := newImpl; ur_FunctionName := funcName |}
        end
    end.
End upgrade.

(** ** Parameter rules *)
Section params.
Context `{ABI}.

Definition addressMatchesAny (addr : list Ascii.ascii) (userAddresses : list string) : bool :=
  existsb (fun ua => bool_decide (ToLower ua = addr_hex_lower addr)) userAddresses.

(** The error text of one parameter rule; [None] when it is satisfied. *)
Definition checkParamRule (args : list abi_value) (userAddresses : list string) (pr : ParamRule)
  : option string :=
  if ((pr_Index pr <? 0) || (Z.of_nat (length args) <=? pr_Index pr))%Z
  then Some ("parameter index " +:+ pretty (pr_Index pr) +:+ " out of range (function has "
             +:+ pretty (length args) +:+ " parameters)")
  else if decide (pr_MustBe pr = "self") then
    match args !! Z.to_nat (pr_Index pr) with
    | Some (VAddress addr) =>
        if addressMatchesAny addr userAddresses then None
        else Some ("parameter " +:+ pretty (pr_Index pr) +:+ ": address "
                   +:+ addr_hex_lower addr +:+ " is not a linked address")
    | Some (VOther ty) =>
        Some ("parameter " +:+ pretty (pr_Index pr) +:+ ": expected address type, got " +:+ ty)
    | None => Some "unreachable: index checked above"
    end
  else Some ("unknown constraint type: " +:+ pr_MustBe pr).

Fixpoint firstSome {A B} (f : A -> option B) (l : list A) : option B :=
  match l with
  | [] => None
  | x :: l => match f x with Some b => Some b | None => firstSome f l end
  end.

(** [None] is a nil error. *)
Definition ValidateParamRules (rule : FunctionRule) (calldata : list Ascii.ascii)
    (contractABI : string) (userAddresses : list string) : option string :=
  match fr_ParamRules rule with
  | [] => None
  | prs =>
      if decide (contractABI = "") then Some "contract ABI required for parameter constraints"
      else if decide (userAddresses = [])
      then Some "ETH address linking required for parameter constraints"
      else match abi_JSON contractABI with
      | Err e => Some ("failed to parse contract ABI: " +:+ e)
      | Ok parsedABI =>
          if Nat.ltb (length calldata) 4
          then Some "calldata too short: need at least 4 bytes for function selector"
          else match MethodById parsedABI (take 4 calldata) with
          | Err e => Some ("failed to find method by selector: " +:+ e)
          | Ok method =>
              if negb (EqualFold ("0x" +:+ EncodeToString (take 4 calldata)) (fr_Selector rule))
              then Some ("calldata selector 0x" +:+ EncodeToString (take 4 calldata)
                         +:+ " does not match rule selector " +:+ fr_Selector rule)
              else match Unpack method (drop 4 calldata) with
              | Err e => Some ("failed to unpack arguments: " +:+ e)
              | Ok args => firstSome (checkParamRule args userAddresses) prs
              end
          end
      end
  end.
End params.

(** ** The controller *)
Record Controller := {
  ctl_anonAccess : option GroupAccess;
  ctl_anonAccessExpires : Z;
  ctl_cache : Cache }.

Definition anonAccessCacheTTL : Z := (5 * 1000000000)%Z.

Definition NewAccessController (cacheTTL : Z) : Controller := {|
  ctl_anonAccess := None; ctl_anonAccessExpires := zeroTime; ctl_cache := NewCache cacheTTL 0 |}.

Definition InvalidateAnonymousAccess (c : Controller) : Controller := {|
  ctl_anonAccess := None; ctl_anonAccessExpires := zeroTime; ctl_cache := ctl_cache c |}.

Definition set_cache (c : Controller) (k : Cache) : Controller := {|
  ctl_anonAccess := ctl_anonAccess c; ctl_anonAccessExpires := ctl_anonAccessExpires c;
  ctl_cache := k |}.

(** [collectAllClaims] *)
Definition collectAllClaims (perms : EffectivePermissions) : list Claim :=
  elements (list_to_set (ep_Claims perms) ∪
            list_to_set (concat (map (fun '(_, a) => ca_Claims a)
                                   (map_to_list (ep_ContractAccess perms)))) : gset string).

(** [&AccessCheckResult{Allowed: true, OrgID, UserID, RPCAPIKey, Claims}] *)
Definition allowIn (org : Organization) (user : User) (perms : EffectivePermissions)
  : AccessCheckResult := {|
  rs_Allowed := true; rs_AuthRequired := false; rs_Reason := "";
  rs_OrgID := o_ID org; rs_UserID := u_ID user; rs_RPCAPIKey := ep_RPCAPIKey perms;
  rs_Claims := collectAllClaims perms |}.

Definition StateOverrideDeniedReason : string :=
  "state, code and block overrides are not permitted".

Section checks.
Context `{Store} `{ABI} `{PermissionSource}.
Variable reg : Registries.
Variable iter : gmap string cacheEntry -> list string.
Variable ctx : Ctx.

(** ** Phases before any lookup *)
Definition checkGlobalBlocks (req : AccessCheckRequest) : option AccessCheckResult :=
  if IsMethodBlocked (rq_Method req)
  then Some (deny ("method " +:+ rq_Method req +:+ " is globally blocked for security reasons"))
  else if negb (IsForwardableMethod reg (CanonicalizeMethod (rq_Method req)))
  then Some (deny ("method " +:+ rq_Method req +:+ " is not supported"))
  else deny <$> firstSome (fun m => DetectMulticall m (rq_Params req)) (methodsToJudge req).

Definition checkStateOverrides (req : AccessCheckRequest) : option AccessCheckResult :=
  if existsb (fun m => bool_decide (is_Some (DetectStateOverride reg m (rq_Params req))))
       [rq_Method req; EffectiveMethod req]
  then Some (deny StateOverrideDeniedReason) else None.

(** ** Anonymous callers *)
Definition getAnonymousAccessCached : stM Controller (option GroupAccess) := fun c =>
  let fresh := match ctl_anonAccess c with
               | Some _ => (ctx_now ctx <? ctl_anonAccessExpires c)%Z
               | None => false
               end in
  if fresh then (Ok (ctl_anonAccess c), c)
  else match GetGroupAccess AnonymousGroupID with
  | Err e => (Err e, c)
  | Ok access =>
      (Ok access, {| ctl_anonAccess := access;
                     ctl_anonAccessExpires := (ctx_now ctx + anonAccessCacheTTL)%Z;
                     ctl_cache := ctl_cache c |})
  end.

(** The decision once the anonymous group's row is known. *)
Definition decideAnonymous (req : AccessCheckRequest) (anonAccess : option GroupAccess)
  : AccessCheckResult :=
  match anonAccess with
  | None => deny_auth "anonymous access not configured"
  | Some a =>
      let methodLower := ToLower (TrimSpace (rq_Method req)) in
      if negb (existsb (fun allowed => bool_decide (ToLower allowed = methodLower))
                 (ga_AllowedMethods a))
      then deny_auth "authentication required for this operation"
      else if anyMethodToJudge req (fun m => IsContractDeployment m (rq_Params req))
      then deny_auth "deployment requires authentication"
      else if anyMethodToJudge req isStorageReadMethod
      then deny_auth "storage reads require authentication"
      else {| rs_Allowed := true; rs_AuthRequired := false; rs_Reason := ""; rs_OrgID := "";
              rs_UserID := ""; rs_RPCAPIKey := ""; rs_Claims := [] |}
  end.

Definition checkAnonymousAccess (req : AccessCheckRequest) : stM Controller AccessCheckResult :=
  if historicalStateQuery req then mret (deny historicalReason)
  else if negb (IsCatalogMethod (CanonicalizeMethod (rq_Method req)))
  then mret (deny_auth "authentication required for this operation")
  else
    anonAccess ← (fun c => match getAnonymousAccessCached c with
                           | (r, c') => (wrap "failed to load anonymous group access" r, c')
                           end);
    mret (decideAnonymous req anonAccess).

(** ** User-level gates *)
Definition resolveAndValidateUser (req : AccessCheckRequest)
  : result (phase AccessCheckResult User) :=
  user ← wrap "failed to get user" (GetUserByExternalID (rq_UserExternalID req));
  match user with
  | None => Ok (Done (deny "access denied"))
  | Some user =>
      if u_Banned user then Ok (Done (deny "user is banned"))
      else if negb (u_KYC user) && negb (isOrgFreeMetadata (rq_Method req))
      then Ok (Done (deny "KYC verification required"))
      else Ok (Next user)
  end.

Definition checkHistoricalStateQuery (req : AccessCheckRequest) (user : User)
  : result (phase AccessCheckResult unit) :=
  if historicalStateQuery req then
    allow ← (match IsOrgAdmin with
             | Some f => wrap "failed to check admin status for historical query" (f (u_ID user))
             | None => Ok true
             end);
    Ok (if (allow : bool) then Next tt else Done (deny historicalReason))
  else Ok (Next tt).

(** ** Organization resolution *)
Definition callerOrgForDenial (req : AccessCheckRequest) (user : User) : string :=
  match ListActiveUserMembershipsWithDetails (u_ID user) with
  | Err _ => ""
  | Ok memberships =>
      let orgIDs := membershipOrgIDs memberships ∖ {[""]} in
      if negb (bool_decide (rq_OrgID req = "")) && mem orgIDs (rq_OrgID req) then rq_OrgID req
      else match elements orgIDs with
           | [id] => id
           | _ => ""
           end
  end.

Definition denyContract (orgID userID : string) : AccessCheckResult := {|
  rs_Allowed := false; rs_AuthRequired := false; rs_Reason := ErrContractAccessDenied;
  rs_OrgID := orgID; rs_UserID := userID; rs_RPCAPIKey := ""; rs_Claims := [] |}.

(** An explicitly named organization: it must exist and the caller must be a
    member. *)
Definition explicitOrg (orgCtx : OrgContext) (org : option Organization)
  : phase AccessCheckResult (Organization * OrgContext) :=
  match org with
  | None => Done (deny "access denied")
  | Some org =>
      if negb (mem (oc_userOrgIDs orgCtx) (o_ID org)) then Done (deny "access denied")
      else Next (org, orgCtx)
  end.

Definition resolveOrgContextForRequest (req : AccessCheckRequest) (user : User)
  : result (phase AccessCheckResult (Organization * OrgContext)) :=
  let targetAddr := ToLower (TrimSpace (rq_TargetAddress req)) in
  match NewOrgContext ctx user targetAddr with
  | Err _ => Ok (Done (denyContract (callerOrgForDenial req user) (u_ID user)))
  | Ok orgCtx =>
      if decide (oc_userOrgIDs orgCtx = ∅)
      then Ok (Done (deny "user has no organization membership"))
      else if negb (bool_decide (rq_OrgID req = "")) then
        org ← wrap "failed to get organization by ID" (GetOrganization (rq_OrgID req));
        Ok (explicitOrg orgCtx org)
      else if negb (bool_decide (rq_OrgSlug req = "")) &&
              negb (bool_decide (rq_OrgSlug req = "default")) then
        org ← wrap "failed to get organization by slug" (GetOrganizationBySlug (rq_OrgSlug req));
        Ok (explicitOrg orgCtx org)
      else match oc_org orgCtx with
      | Some org => Ok (Next (org, orgCtx))
      | None =>
          match elements (oc_userOrgIDs orgCtx) with
          | [singleOrgID] =>
              org ← wrap "failed to get organization" (GetOrganization singleOrgID);
              Ok (match org with
                  | None => Done (deny "access denied")
                  | Some org => Next (org, orgCtx)
                  end)
          | _ => Ok (Done (deny
                   "multiple organizations: use /rpc/:org_id to specify which org"))
          end
      end
  end.

(** ** Permissions *)
Definition resolvePermissionsForRequest (req : AccessCheckRequest) (user : User)
    (org : Organization) : stM Controller EffectivePermissions := fun c =>
  let '(cached, c1) :=
    if rq_BypassCache req then (None, c)
    else let '(p, k) := Get (ctx_now ctx) (u_ID user) (o_ID org) (ctl_cache c) in
         (p, set_cache c k) in
  match cached with
  | Some perms => (Ok perms, c1)
  | None =>
      match ResolvePermissionsCacheable (u_ID user) (o_ID org) with
      | Err e => (Err ("failed to resolve permissions: " +:+ e), c1)
      | Ok (perms, cacheable) =>
          (Ok perms,
           if negb (rq_BypassCache req) && cacheable
           then set_cache c1 (Set_ iter (ctx_now ctx) perms (ctl_cache c1)) else c1)
      end
  end.

Definition checkMethodAllowed (req : AccessCheckRequest) (perms : EffectivePermissions)
  : option AccessCheckResult :=
  if HasMethod reg perms (rq_Method req) then None
  else Some (deny ("method " +:+ rq_Method req +:+ " not allowed")).

(** ** eth_getLogs *)
Definition checkLogAddress (perms : EffectivePermissions) (addr : string) : option string :=
  let denied := Some ("eth_getLogs: " +:+ ErrContractAccessDenied) in
  let hasExplicitAccess := IsContractRegistered perms addr in
  let tail :=
    match CheckDefaultClaimsAllowed addr hasExplicitAccess with
    | Some _ => denied
    | None => match GetContractAccess perms addr with None => denied | Some _ => None end
    end in
  if hasExplicitAccess then tail
  else match GetContractOwnerOrgID addr with
  | Err e => Some ("eth_getLogs: failed to check contract owner: " +:+ e)
  | Ok ownerOrgID =>
      if decide (ownerOrgID = "") then
        if negb (IsPrecompileAddress addr) then denied else None
      else tail
  end.

Definition validateGetLogsWithOrgContext (perms : EffectivePermissions) (orgCtx : OrgContext)
    (params : list any) : option string :=
  match params with
  | [] => Some "eth_getLogs: missing filter parameter"
  | p :: _ =>
      match as_obj p with
      | None => Some "eth_getLogs: invalid filter parameter type"
      | Some filterObj =>
          match extractGetLogsAddresses filterObj with
          | [] => Some "eth_getLogs: address filter required for security"
          | addresses =>
              match CheckMultiAddressesInScope orgCtx addresses with
              | Some e => Some ("eth_getLogs: " +:+ e)
              | None => firstSome (checkLogAddress perms) addresses
              end
          end
      end
  end.

Definition checkEthGetLogsAccess (req : AccessCheckRequest) (user : User) (org : Organization)
    (orgCtx : OrgContext) (perms : EffectivePermissions) : option AccessCheckResult :=
  if decide (EffectiveMethod req = "eth_getLogs") then
    match validateGetLogsWithOrgContext perms orgCtx (rq_Params req) with
    | Some e => Some (deny e)
    | None => Some (allowIn org user perms)
    end
  else None.

(** ** Carve-outs *)
Definition ownerWrapped (msg addr : string) : stM OrgContext string := fun oc =>
  match OwnerOrgID addr oc with (r, oc') => (wrap msg r, oc') end.

Definition classifyValueTransferCarveout (req : AccessCheckRequest) (user : User)
    (org : Organization) (perms : EffectivePermissions) (requiredClaim : Claim)
  : stM OrgContext (phase AccessCheckResult unit) :=
  if contains ["eth_sendTransaction"; "eth_estimateGas"] (EffectiveMethod req) &&
     negb (bool_decide (rq_TargetAddress req = "")) && isValueTransferParams (rq_Params req)
  then
    let addr := ToLower (rq_TargetAddress req) in
    if negb (IsContractRegistered perms addr) then
      ownerOrgID ← ownerWrapped "failed to check address ownership" addr;
      if decide (ownerOrgID = "") then
        if negb (bool_decide (requiredClaim = "")) && negb (hasClaim (ep_Claims perms) requiredClaim)
        then mret (Done (deny "access denied"))
        else mret (Done (allowIn org user perms))
      else mret (Next tt)
    else mret (Next tt)
  else mret (Next tt).

Definition classifyBasicAddressQueryCarveout (req : AccessCheckRequest) (user : User)
    (org : Organization) (perms : EffectivePermissions)
  : stM OrgContext (phase AccessCheckResult unit) :=
  if negb (bool_decide (rq_TargetAddress req = "")) && isBasicAddressQuery (EffectiveMethod req) &&
     negb (anyMethodToJudge req isStorageReadMethod)
  then
    let addr := ToLower (rq_TargetAddress req) in
    if negb (IsContractRegistered perms addr) then
      ownerOrgID ← ownerWrapped "failed to check address ownership" addr;
      if decide (ownerOrgID = "") then mret (Done (allowIn org user perms)) else mret (Next tt)
    else mret (Next tt)
  else mret (Next tt).

(** ** The contract-access gate *)
Definition validateStorageReadAccess (req : AccessCheckRequest) (access : ContractAccess)
  : option AccessCheckResult :=
  if negb (anyMethodToJudge req isStorageReadMethod) || hasClaim (ca_Claims access) ClaimAdmin
  then None
  else
    let slotsAllowed method :=
      if negb (isStorageReadMethod method) then true
      else match requestedStorageKeys method (rq_Params req) with
           | None => false
           | Some keys => forallb IsWellKnownStorageSlot keys
           end in
    if forallb slotsAllowed (methodsToJudge req) then None
    else Some (deny ErrContractAccessDenied).

Definition validateFunctionSelector (req : AccessCheckRequest) (org : Organization)
    (access : ContractAccess) : result (phase AccessCheckResult unit) :=
  if negb (bool_decide (rq_FunctionSelector req = "")) then
    if negb (functionsAllow (ca_Functions access) (rq_FunctionSelector req))
    then Ok (Done (deny ("function " +:+ rq_FunctionSelector req +:+ " not allowed on contract "
                         +:+ rq_TargetAddress req)))
    else match functionsRule (ca_Functions access) (rq_FunctionSelector req) with
    | None => Ok (Next tt)
    | Some rule =>
        if decide (fr_ParamRules rule = []) then Ok (Next tt)
        else
          let calldata := match rq_Calldata req with
                          | Some d => Some d
                          | None => extractCalldata (EffectiveMethod req) (rq_Params req)
                          end in
          match calldata with
          | None => Ok (Done (deny "calldata required for parameter constraint validation"))
          | Some calldata =>
              userAddresses ← wrap "failed to get linked ETH addresses"
                                (GetLinkedEthAddresses (rq_UserExternalID req));
              contract ← wrap "failed to get contract"
                           (GetContractByAddress (o_ID org) (ToLower (rq_TargetAddress req)));
              let contractABI := match contract with Some c => c_ABI c | None => "" end in
              match ValidateParamRules rule calldata contractABI userAddresses with
              | Some e => Ok (Done (deny ("parameter constraint violation on "
                                          +:+ rq_TargetAddress req +:+ ": " +:+ e)))
              | None => Ok (Next tt)
              end
          end
    end
  else if contains ["eth_call"; "eth_estimateGas"; "eth_sendTransaction"] (EffectiveMethod req) &&
          bool_decide (is_Some (ca_Functions access))
  then Ok (Done (deny ("function selector required: contract " +:+ rq_TargetAddress req
                       +:+ " has function-level restrictions")))
  else Ok (Next tt).

Definition validateProxyUpgrade (req : AccessCheckRequest) (org : Organization)
    (access : ContractAccess) : result (phase AccessCheckResult unit) :=
  let addr := ToLower (rq_TargetAddress req) in
  match extractCalldata (EffectiveMethod req) (rq_Params req) with
  | None | Some [] => Ok (Next tt)
  | Some calldata =>
      if Nat.leb 4 (length calldata) && IsUpgradeSelector (EncodeToString (take 4 calldata)) &&
         negb (hasClaim (ca_Claims access) ClaimUpgrade)
      then Ok (Done (deny ErrContractAccessDenied))
      else
        upgradeResult ← wrap "failed to validate upgrade" (ValidateUpgrade (o_ID org) addr calldata);
        Ok (if ur_Allowed upgradeResult then Next tt
            else Done (deny ("proxy upgrade denied: " +:+ ur_Reason upgradeResult)))
  end.

(** The access the caller has on the target, and whether it counts as
    explicit: a grant, a precompile not owned by another organization, or a
    pre-registered deployment of an organization of the caller. *)
Definition baseContractAccess (req : AccessCheckRequest) (perms : EffectivePermissions)
  : stM OrgContext (option ContractAccess * bool) :=
  let addr := ToLower (rq_TargetAddress req) in
  let hasExplicitAccess := IsContractRegistered perms addr in
  access ← (match GetContractAccess perms addr with
            | Some a =>
                if hasExplicitAccess then mret (Some a)
                else
                  ownerOrgID ← ownerWrapped "failed to check address ownership" addr;
                  oc ← get;
                  mret (if negb (bool_decide (ownerOrgID = "")) &&
                           negb (mem (oc_userOrgIDs oc) ownerOrgID)
                        then None else Some a)
            | None => mret None
            end);
  match access with
  | Some a => mret (Some a, hasExplicitAccess)
  | None =>
      ownerOrgID ← ownerWrapped "failed to check address ownership" addr;
      oc ← get;
      if negb (bool_decide (ownerOrgID = "")) && mem (oc_userOrgIDs oc) ownerOrgID then
        preregistered ← lift (wrap "failed to check preregistered address"
                                (IsAddressPreregistered ownerOrgID addr));
        if preregistered && (hasClaim (ep_Claims perms) ClaimDeploy ||
                             hasClaim (ep_Claims perms) ClaimAdmin)
        then mret (Some {| ca_Claims := [ClaimDeploy]; ca_Functions := None;
                           ca_EventRules := None |}, true)
        else mret (None, hasExplicitAccess)
      else mret (None, hasExplicitAccess)
  end.

(** The deployer of a contract gets access to it, without extra claims. *)
Definition deployerAutoGrant (user : User) (addr : string) (requiredClaim : Claim)
    (acc : option ContractAccess * bool) : result (option ContractAccess * bool) :=
  let '(access, hasExplicitAccess) := acc in
  let lacking := match access with
                 | None => true
                 | Some a => negb (bool_decide (requiredClaim = "")) &&
                             negb (hasClaim (ca_Claims a) requiredClaim)
                 end in
  if lacking then
    deployerID ← wrap "failed to check contract deployer" (GetContractDeployerByAddress addr);
    if decide (deployerID = Some (u_ID user)) then
      Ok (Some (match access with
                | None => {| ca_Claims := []; ca_Functions := None; ca_EventRules := None |}
                | Some a => {| ca_Claims := elements (list_to_set (ca_Claims a) : gset string);
                               ca_Functions := ca_Functions a; ca_EventRules := None |}
                end), true)
    else Ok (access, hasExplicitAccess)
  else Ok (access, hasExplicitAccess).

(** The checks on a resolved [ContractAccess]. *)
Definition checkResolvedAccess (req : AccessCheckRequest) (org : Organization)
    (requiredClaim : Claim) (acc : option ContractAccess * bool)
  : result (phase AccessCheckResult unit) :=
  let addr := ToLower (rq_TargetAddress req) in
  match acc with
  | (None, _) => Ok (Done (deny ErrContractAccessDenied))
  | (Some access, hasExplicitAccess) =>
      match CheckDefaultClaimsAllowed addr hasExplicitAccess with
      | Some e => Ok (Done (deny e))
      | None =>
          if negb (bool_decide (requiredClaim = "")) &&
             negb (hasClaim (ca_Claims access) requiredClaim)
          then Ok (Done (deny ErrContractAccessDenied))
          else match validateStorageReadAccess req access with
          | Some res => Ok (Done res)
          | None =>
              ph ← validateFunctionSelector req org access;
              match ph with
              | Done res => Ok (Done res)
              | Next _ =>
                  if decide (EffectiveMethod req = "eth_sendTransaction")
                  then validateProxyUpgrade req org access
                  else Ok (Next tt)
              end
          end
      end
  end.

Definition validateContractAccess (req : AccessCheckRequest) (user : User) (org : Organization)
    (perms : EffectivePermissions) (requiredClaim : Claim)
  : stM OrgContext (phase AccessCheckResult unit) :=
  acc ← baseContractAccess req perms;
  acc ← lift (deployerAutoGrant user (ToLower (rq_TargetAddress req)) requiredClaim acc);
  lift (checkResolvedAccess req org requiredClaim acc).

(** ** Deployments *)
Definition validateDeploymentWithoutTarget (req : AccessCheckRequest) (user : User)
    (org : Organization) (perms : EffectivePermissions) : AccessCheckResult :=
  if negb (hasClaim (ep_Claims perms) ClaimDeploy) then deny "access denied"
  else if decide (ClassifyCallShape (rq_Params req) = CallShapeMalformed)
  then deny "malformed transaction object"
  else if decide (extractDeploymentBytecode (EffectiveMethod req) (rq_Params req) = "")
  then deny "contract deployment missing bytecode"
  else allowIn org user perms.

Definition checkAdditionalRequiredClaims (req : AccessCheckRequest) (perms : EffectivePermissions)
  : option AccessCheckResult :=
  if forallb (fun claim =>
       existsb (fun '(_, access) => hasClaim (ca_Claims access) claim)
         (map_to_list (ep_ContractAccess perms)) || hasClaim (ep_Claims perms) claim)
     (rq_RequiredClaims req)
  then None else Some (deny "access denied").

(** ** After organization resolution *)
Definition checkWithPermissions (req : AccessCheckRequest) (user : User) (org : Organization)
    (perms : EffectivePermissions) : stM OrgContext AccessCheckResult :=
  match checkMethodAllowed req perms with
  | Some res => mret res
  | None =>
  orgCtx ← get;
  match checkEthGetLogsAccess req user org orgCtx perms with
  | Some res => mret res
  | None =>
  let requiredClaim := ClassifyOperation (EffectiveMethod req) (rq_Params req) in
  if bool_decide (rq_TargetAddress req = "") && anyMethodToJudge req isStorageReadMethod
  then mret (deny ErrContractAccessDenied)
  else if decide (requiredClaim = ClaimDeploy)
  then mret (validateDeploymentWithoutTarget req user org perms)
  else
    phase! _ ← classifyValueTransferCarveout req user org perms requiredClaim;
    phase! _ ← classifyBasicAddressQueryCarveout req user org perms;
    phase! _ ← (if decide (rq_TargetAddress req = "") then mret (Next tt)
                else validateContractAccess req user org perms requiredClaim);
    match checkAdditionalRequiredClaims req perms with
    | Some res => mret res
    | None => mret (allowIn org user perms)
    end
  end
  end.

Definition checkWithResolvedOrg (req : AccessCheckRequest) (user : User) (org : Organization)
    (orgCtx : OrgContext) : stM Controller AccessCheckResult :=
  perms ← resolvePermissionsForRequest req user org;
  lift (fst (checkWithPermissions req user org perms orgCtx)).

(** Every outcome after organization resolution is attributed to it. *)
Definition stamp (org : Organization) (user : User) (res : AccessCheckResult)
  : AccessCheckResult := {|
  rs_Allowed := rs_Allowed res; rs_AuthRequired := rs_AuthRequired res;
  rs_Reason := rs_Reason res;
  rs_OrgID := if decide (rs_OrgID res = "") then o_ID org else rs_OrgID res;
  rs_UserID := if decide (rs_UserID res = "") then u_ID user else rs_UserID res;
  rs_RPCAPIKey := rs_RPCAPIKey res; rs_Claims := rs_Claims res |}.

(** [&AccessCheckResult{Allowed: true, UserID: user.ID}] *)
Definition allowMetadata (user : User) : AccessCheckResult := {|
  rs_Allowed := true; rs_AuthRequired := false; rs_Reason := ""; rs_OrgID := "";
  rs_UserID := u_ID user; rs_RPCAPIKey := ""; rs_Claims := [] |}.

(** ** [CheckAccess] *)
Definition CheckAccess (req : AccessCheckRequest) : stM Controller AccessCheckResult :=
  match checkGlobalBlocks req with
  | Some res => mret res
  | None =>
  match checkStateOverrides req with
  | Some res => mret res
  | None =>
  if decide (rq_UserExternalID req = "") then checkAnonymousAccess req
  else
    phase! user ← lift (resolveAndValidateUser req);
    phase! _ ← lift (checkHistoricalStateQuery req user);
    if isOrgFreeMetadata (rq_Method req) then mret (allowMetadata user)
    else
      ph ← lift (resolveOrgContextForRequest req user);
      match ph with
      | Done res => mret res
      | Next (org, orgCtx) =>
          res ← checkWithResolvedOrg req user org orgCtx;
          mret (stamp org user res)
      end
  end
  end.

(** [CanReadPrivateStorage] of [storage_read.go]: the decision for
    eth_getStorageAt of a private slot. *)
Definition PrivateStorageSlot : string := "0x0".

Definition CanReadPrivateStorage (userExternalID orgID addr : string) (bypassCache : bool)
  : stM Controller bool :=
  res ← CheckAccess {|
    rq_UserExternalID := userExternalID; rq_OrgSlug := ""; rq_OrgID := orgID;
    rq_Method := "eth_getStorageAt"; rq_AccessMethod := "";
    rq_Params := [AStr addr; AStr PrivateStorageSlot; AStr "latest"];
    rq_TargetAddress := addr; rq_FunctionSelector := ""; rq_Calldata := None;
    rq_RequiredClaims := []; rq_BypassCache := bypassCache |};
  mret (rs_Allowed res && bool_decide (rs_OrgID res = orgID)).
End checks.
