(* ===== verification/AccessProps.v ===== *)
(** * What an allowed request proves: inversion of [CheckAccess].

    Each phase of [Access.v] is inverted once, in terms of the store and of
    the permissions, and the phases are combined into [granted], the
    declarative description of every way a request can be let through.  The
    security properties of [AccessClaims.v] are read off it. *)
From S2P Require Import Prelude GoStrings Methods Models Requests OrgContext Cache Access.
Local Open Scope string_scope.

Lemma firstSome_None {A B} (f : A -> option B) l :
  firstSome f l = None <-> forall x, x ∈ l -> f x = None.
Proof.
  induction l as [|a l IH]; simpl; [set_solver|].
  destruct (f a) eqn:E.
  - split; [done|]. intros Hl. rewrite (Hl a) in E; [done|set_solver].
  - rewrite IH. set_solver.
Qed.

Lemma phase_bind_Ok {S R A B} (m : stM S (phase R A)) (d : R -> stM S B) (k : A -> stM S B) s b s' :
  (m ≫= fun ph => match ph with Done r => d r | Next p => k p end) s = (Ok b, s') ->
  exists s1, (exists r, m s = (Ok (Done r), s1) /\ d r s1 = (Ok b, s')) \/
             (exists a, m s = (Ok (Next a), s1) /\ k a s1 = (Ok b, s')).
Proof. intros ([r|a] & s1 & Hm & Hk)%st_bind_Ok; eauto 10. Qed.

(** The key under which the owner of an address is looked up. *)
Definition ownerKey (addr : string) : string := ToLower (TrimSpace (ToLower addr)).

Section props.
Context `{HS : Store} `{HA : ABI} `{HP : PermissionSource}.
Variable reg : Registries.
Variable iter : gmap string cacheEntry -> list string.
Variable ctx : Ctx.

(** ** The phases before the organization is known *)

Lemma checkGlobalBlocks_None req :
  checkGlobalBlocks reg req = None ->
  IsMethodBlocked (rq_Method req) = false /\
  IsForwardableMethod reg (CanonicalizeMethod (rq_Method req)) = true /\
  (forall m, m ∈ methodsToJudge req -> DetectMulticall m (rq_Params req) = None).
Proof.
  unfold checkGlobalBlocks. destruct (IsMethodBlocked _); [intros Hx; discriminate Hx|].
  destruct (IsForwardableMethod _ _); [|intros Hx; discriminate Hx]. simpl.
  intros Hf. split; [reflexivity|]. split; [reflexivity|]. apply firstSome_None.
  destruct (firstSome _ _); [discriminate Hf|reflexivity].
Qed.

Lemma checkGlobalBlocks_Some req res :
  checkGlobalBlocks reg req = Some res -> exists reason, res = deny reason.
Proof.
  unfold checkGlobalBlocks. destruct (IsMethodBlocked _); [intros [= <-]; eauto|].
  destruct (IsForwardableMethod _ _); [|intros [= <-]; eauto]. cbn [negb].
  destruct (firstSome _ _); [intros [= <-]; eauto|intros Hx; discriminate Hx].
Qed.

Lemma checkStateOverrides_None req m :
  checkStateOverrides reg req = None -> m = rq_Method req \/ m = EffectiveMethod req ->
  DetectStateOverride reg m (rq_Params req) = None.
Proof.
  unfold checkStateOverrides. destruct (existsb _ _) eqn:E; [intros Hx; discriminate Hx|].
  intros _ Hm. rewrite existsb_false in E. specialize (E m ltac:(set_solver)).
  apply bool_decide_eq_false in E. by apply eq_None_not_Some.
Qed.

Lemma checkStateOverrides_Some req res :
  checkStateOverrides reg req = Some res -> res = deny StateOverrideDeniedReason.
Proof. unfold checkStateOverrides. destruct (existsb _ _); [by intros [= <-]|done]. Qed.

Lemma resolveAndValidateUser_Next req user :
  resolveAndValidateUser req = Ok (Next user) ->
  GetUserByExternalID (rq_UserExternalID req) = Ok (Some user) /\
  u_Banned user = false /\ (u_KYC user = true \/ isOrgFreeMetadata (rq_Method req) = true).
Proof.
  unfold resolveAndValidateUser. intros ([u|] & Hu%wrap_Ok & Hr)%bind_Ok; [|done].
  destruct (u_Banned u) eqn:Eb; [done|].
  destruct (u_KYC u) eqn:Ek, (isOrgFreeMetadata (rq_Method req)); simplify_eq/=; auto.
Qed.

Lemma resolveAndValidateUser_Done req res :
  resolveAndValidateUser req = Ok (Done res) -> exists reason, res = deny reason.
Proof.
  unfold resolveAndValidateUser.
  intros ([u|] & Hu%wrap_Ok & Hr)%bind_Ok; [|injection Hr as <-; eauto].
  destruct (u_Banned u); [injection Hr as <-; eauto|].
  destruct (u_KYC u), (isOrgFreeMetadata (rq_Method req)); simplify_eq/=; eauto.
Qed.

Lemma checkHistoricalStateQuery_Next req user u :
  checkHistoricalStateQuery req user = Ok (Next u) ->
  historicalStateQuery req = false \/
  match IsOrgAdmin with Some f => f (u_ID user) = Ok true | None => True end.
Proof.
  unfold checkHistoricalStateQuery. destruct (historicalStateQuery req); [|auto].
  intros (b & Hb & Hr)%bind_Ok. right. destruct IsOrgAdmin; [|done].
  apply wrap_Ok in Hb. by destruct b.
Qed.

Lemma checkHistoricalStateQuery_Done req user res :
  checkHistoricalStateQuery req user = Ok (Done res) -> exists reason, res = deny reason.
Proof.
  unfold checkHistoricalStateQuery. destruct (historicalStateQuery req); [|done].
  intros ([] & _ & Hr)%bind_Ok; simplify_eq; eauto.
Qed.

(** ** Organization resolution *)

(** How the organization of a resolved request was chosen. *)
Definition chosenOrg (req : AccessCheckRequest) (orgCtx : OrgContext) (org : Organization) : Prop :=
  o_ID org ∈ oc_userOrgIDs orgCtx \/
  (rq_OrgID req = "" /\ oc_org orgCtx = Some org) \/
  (exists id, oc_userOrgIDs orgCtx = {[id]} /\ GetOrganization id = Ok (Some org)).

Lemma explicitOrg_Next orgCtx org org' oc :
  explicitOrg orgCtx org = Next (org', oc) ->
  org = Some org' /\ oc = orgCtx /\ o_ID org' ∈ oc_userOrgIDs orgCtx.
Proof.
  unfold explicitOrg. destruct org as [o|]; [|done].
  destruct (mem _ _) eqn:E; [|done]. intros [= <- <-]. by apply mem_true in E.
Qed.

Lemma elements_singleton (X : gset string) x : elements X = [x] -> X = {[x]}.
Proof.
  intros E. apply set_eq. intros y. rewrite <- elem_of_elements, E. set_solver.
Qed.

Lemma resolveOrgContextForRequest_Next req user org orgCtx :
  resolveOrgContextForRequest ctx req user = Ok (Next (org, orgCtx)) ->
  NewOrgContext ctx user (ToLower (TrimSpace (rq_TargetAddress req))) = Ok orgCtx /\
  chosenOrg req orgCtx org /\
  (rq_OrgID req <> "" -> GetOrganization (rq_OrgID req) = Ok (Some org) /\
                         o_ID org ∈ oc_userOrgIDs orgCtx).
Proof.
  unfold resolveOrgContextForRequest, chosenOrg.
  destruct (NewOrgContext _ _ _) as [oc|e]; [|done].
  case_decide; [done|]. destruct (bool_decide (rq_OrgID req = "")) eqn:Ei; simpl.
  - apply bool_decide_eq_true in Ei. destruct (negb _ && negb _).
    { intros (o & Ho%wrap_Ok & Hr)%bind_Ok. simplify_eq.
      apply explicitOrg_Next in Hr as (-> & -> & ?). naive_solver. }
    destruct (oc_org oc) as [o|] eqn:Eo; [intros [= <- <-]; naive_solver|].
    destruct (elements (oc_userOrgIDs oc)) as [|x [|]] eqn:Ee; [done| |done].
    intros (o & Ho%wrap_Ok & Hr)%bind_Ok. destruct o; simplify_eq.
    apply elements_singleton in Ee. naive_solver.
  - apply bool_decide_eq_false in Ei.
    intros (o & Ho%wrap_Ok & Hr)%bind_Ok. simplify_eq.
    apply explicitOrg_Next in Hr as (-> & -> & ?). naive_solver.
Qed.

Lemma resolveOrgContextForRequest_Done req user res :
  resolveOrgContextForRequest ctx req user = Ok (Done res) ->
  (exists reason, res = deny reason) \/
  res = denyContract (callerOrgForDenial req user) (u_ID user).
Proof.
  unfold resolveOrgContextForRequest, explicitOrg.
  destruct (NewOrgContext _ _ _) as [oc|e]; [|intros [= <-]; by right]. intros Hr. left. revert Hr.
  case_decide; [intros [= <-]; eauto|].
  destruct (negb (bool_decide (rq_OrgID req = ""))).
  { intros (o & _ & Hr)%bind_Ok. cases_all; eauto. }
  destruct (negb _ && negb _).
  { intros (o & _ & Hr)%bind_Ok. cases_all; eauto. }
  destruct (oc_org oc); [done|].
  destruct (elements (oc_userOrgIDs oc)) as [|x [|]]; [intros [= <-]; eauto| |intros [= <-]; eauto].
  intros (o & _ & Hr)%bind_Ok. cases_all; eauto.
Qed.

(** ** The contract-access gate *)

Definition noAccess : ContractAccess := {|
  ca_Claims := []; ca_Functions := None; ca_EventRules := None |}.

(** The four grounds on which a caller may touch the target contract. *)
Inductive access_basis (req : AccessCheckRequest) (user : User) (perms : EffectivePermissions)
    (orgs : gset string) : ContractAccess -> Prop :=
| basis_grant a :
    ep_ContractAccess perms !! ToLower (rq_TargetAddress req) = Some a ->
    access_basis req user perms orgs a
| basis_precompile owner :
    IsPrecompileAddress (ToLower (rq_TargetAddress req)) = true ->
    GetContractOwnerOrgID (ownerKey (rq_TargetAddress req)) = Ok owner ->
    owner = "" \/ ownerKey (rq_TargetAddress req) = "" /\ owner ∈ orgs ->
    access_basis req user perms orgs noAccess
| basis_preregistered owner :
    GetContractOwnerOrgID (ownerKey (rq_TargetAddress req)) = Ok owner ->
    owner <> "" -> owner ∈ orgs ->
    IsAddressPreregistered owner (ToLower (rq_TargetAddress req)) = Ok true ->
    ClaimDeploy ∈ ep_Claims perms \/ ClaimAdmin ∈ ep_Claims perms ->
    access_basis req user perms orgs
      {| ca_Claims := [ClaimDeploy]; ca_Functions := None; ca_EventRules := None |}
| basis_deployer a :
    GetContractDeployerByAddress (ToLower (rq_TargetAddress req)) = Ok (Some (u_ID user)) ->
    match ep_ContractAccess perms !! ToLower (rq_TargetAddress req) with
    | Some g => ca_Functions a = ca_Functions g /\ (forall c, c ∈ ca_Claims a -> c ∈ ca_Claims g)
    | None => ca_Functions a = None /\ (forall c, c ∈ ca_Claims a -> c = ClaimDeploy)
    end ->
    access_basis req user perms orgs a.

(** What [baseContractAccess] returns, before the explicit-access check. *)
Definition base_ok (req : AccessCheckRequest) (perms : EffectivePermissions) (orgs : gset string)
    (acc : option ContractAccess * bool) : Prop :=
  match acc with
  | (None, b) => ep_ContractAccess perms !! ToLower (rq_TargetAddress req) = None /\ b = false
  | (Some a, b) =>
      (ep_ContractAccess perms !! ToLower (rq_TargetAddress req) = Some a /\ b = true) \/
      (ep_ContractAccess perms !! ToLower (rq_TargetAddress req) = None /\
       ((b = false /\ a = noAccess /\
         IsPrecompileAddress (ToLower (rq_TargetAddress req)) = true /\
         exists owner, GetContractOwnerOrgID (ownerKey (rq_TargetAddress req)) = Ok owner /\
                       (owner = "" \/ owner ∈ orgs)) \/
        (b = true /\ a = {| ca_Claims := [ClaimDeploy]; ca_Functions := None;
                           ca_EventRules := None |} /\
         exists owner, GetContractOwnerOrgID (ownerKey (rq_TargetAddress req)) = Ok owner /\
           owner <> "" /\ owner ∈ orgs /\
           IsAddressPreregistered owner (ToLower (rq_TargetAddress req)) = Ok true /\
           (ClaimDeploy ∈ ep_Claims perms \/ ClaimAdmin ∈ ep_Claims perms))))
  end.

Lemma ownerWrapped_Ok msg addr oc v oc' :
  oc_ok ctx oc -> ownerWrapped msg addr oc = (Ok v, oc') ->
  GetContractOwnerOrgID (ToLower (TrimSpace addr)) = Ok v /\ oc_ok ctx oc' /\
  oc_userOrgIDs oc' = oc_userOrgIDs oc.
Proof.
  unfold ownerWrapped. intros Hoc. destruct (OwnerOrgID addr oc) as [r oc1] eqn:E.
  intros [= Hr%wrap_Ok <-]. subst r. apply (OwnerOrgID_Ok ctx) in E; [|done]. naive_solver.
Qed.

Lemma IsContractRegistered_lookup perms t :
  IsContractRegistered perms (ToLower t) =
  bool_decide (is_Some (ep_ContractAccess perms !! ToLower t)).
Proof. unfold IsContractRegistered. by rewrite ToLower_idemp. Qed.

(** The second half of [baseContractAccess]: the pre-registration ground. *)
Lemma preregistered_ok req perms oc acc oc' :
  ep_ContractAccess perms !! ToLower (rq_TargetAddress req) = None ->
  oc_ok ctx oc ->
  (ownerOrgID ← ownerWrapped "failed to check address ownership" (ToLower (rq_TargetAddress req));
   oc ← get;
   if negb (bool_decide (ownerOrgID = "")) && mem (oc_userOrgIDs oc) ownerOrgID then
     preregistered ← lift (wrap "failed to check preregistered address"
                             (IsAddressPreregistered ownerOrgID (ToLower (rq_TargetAddress req))));
     if preregistered && (hasClaim (ep_Claims perms) ClaimDeploy ||
                          hasClaim (ep_Claims perms) ClaimAdmin)
     then mret (Some {| ca_Claims := [ClaimDeploy]; ca_Functions := None;
                        ca_EventRules := None |}, true)
     else mret (None, false)
   else mret (None, false)) oc = (Ok acc, oc') ->
  base_ok req perms (oc_userOrgIDs oc) acc /\ oc_ok ctx oc' /\
  oc_userOrgIDs oc' = oc_userOrgIDs oc.
Proof.
  intros Hl Hoc (owner & oc1 & Ho & Hr)%st_bind_Ok.
  apply ownerWrapped_Ok in Ho as (Ho & Hoc1 & Hids); [|done].
  apply st_bind_Ok in Hr as (oc2 & oc3 & Hg & Hr). unfold get in Hg. simplify_eq.
  destruct (negb _ && _) eqn:E; [|unfold mret, stM_ret in Hr; by simplify_eq].
  apply andb_true_iff in E as [E1%negb_true_iff%bool_decide_eq_false E2%mem_true].
  apply st_bind_Ok in Hr as (pre & oc4 & Hp & Hr). unfold lift in Hp.
  injection Hp as Hp%wrap_Ok <-. destruct (pre && _) eqn:E3;
    unfold mret, stM_ret in Hr; simplify_eq; [|done].
  apply andb_true_iff in E3 as [-> E3%orb_true_iff]. unfold hasClaim in E3.
  rewrite !contains_true in E3. rewrite Hids in E2. split; [|done]. right. split; [done|]. right.
  split_and!; [done|done|]. exists owner. by split_and!.
Qed.

Lemma baseContractAccess_Ok req perms oc acc oc' :
  oc_ok ctx oc -> baseContractAccess req perms oc = (Ok acc, oc') ->
  base_ok req perms (oc_userOrgIDs oc) acc /\ oc_ok ctx oc' /\
  oc_userOrgIDs oc' = oc_userOrgIDs oc.
Proof.
  intros Hoc. unfold baseContractAccess. rewrite IsContractRegistered_lookup.
  unfold GetContractAccess. rewrite ToLower_idemp.
  destruct (ep_ContractAccess perms !! ToLower (rq_TargetAddress req)) as [g|] eqn:Eg.
  { rewrite bool_decide_eq_true_2 by done. intros Hr. inv_st. split; [|done]. by left. }
  rewrite bool_decide_eq_false_2 by (by intros [? ?]).
  intros (acc1 & oc1 & Ha & Hr)%st_bind_Ok.
  destruct (IsPrecompileAddress _) eqn:Ep.
  - apply st_bind_Ok in Ha as (owner & oc2 & Ho & Hc).
    apply ownerWrapped_Ok in Ho as (Ho & Hoc2 & Hids); [|done].
    apply st_bind_Ok in Hc as (oc3 & oc4 & Hg & Hc). unfold get in Hg. simplify_eq.
    unfold mret, stM_ret in Hc. injection Hc as <- <-.
    destruct (negb _ && negb _) eqn:E.
    + rewrite <- Hids. apply preregistered_ok in Hr; naive_solver.
    + unfold mret, stM_ret in Hr. simplify_eq. split; [|done]. right. split; [done|]. left.
      split_and!; [done..|]. exists owner. split; [done|].
      apply andb_false_iff in E as [E%negb_false_iff%bool_decide_eq_true|E%negb_false_iff%mem_true];
        [by left|right; by rewrite <- Hids].
  - unfold mret, stM_ret in Ha. simplify_eq. by apply preregistered_ok in Hr.
Qed.

(** What the checks on a resolved access establish. *)
Record access_checked (req : AccessCheckRequest) (org : Organization) (requiredClaim : Claim)
    (a : ContractAccess) : Prop := {
  ac_claim : requiredClaim = "" \/ requiredClaim ∈ ca_Claims a;
  ac_storage : validateStorageReadAccess req a = None;
  ac_function : validateFunctionSelector req org a = Ok (Next tt);
  ac_upgrade : EffectiveMethod req = "eth_sendTransaction" ->
               validateProxyUpgrade req org a = Ok (Next tt)
}.

Lemma checkResolvedAccess_Next req org claim acc u :
  checkResolvedAccess req org claim acc = Ok (Next u) ->
  exists a, fst acc = Some a /\ access_checked req org claim a /\
    (snd acc = true \/
     ownerKey (rq_TargetAddress req) = "" \/
     GetContractOwnerOrgID (ownerKey (rq_TargetAddress req)) = Ok "").
Proof.
  unfold checkResolvedAccess. destruct acc as [[a|] b]; simpl; [|done].
  destruct (CheckDefaultClaimsAllowed _ b) eqn:Ec; [done|].
  destruct (negb _ && negb _) eqn:Eq; [done|].
  destruct (validateStorageReadAccess req a) eqn:Es; [done|].
  intros ([r|[]] & Hf & Hr)%bind_Ok; [done|].
  exists a. split; [done|]. split.
  - split; [|done|done|].
    + apply andb_false_iff in Eq as [E%negb_false_iff%bool_decide_eq_true|E%negb_false_iff].
      * by left.
      * right. unfold hasClaim in E. by apply contains_true in E.
    + intros Hm. rewrite decide_True in Hr by done. by destruct u.
  - destruct b; [by left|]. right. apply CheckDefaultClaimsAllowed_None in Ec.
    unfold ownerKey. naive_solver.
Qed.

Lemma checkResolvedAccess_Done req org claim acc res :
  checkResolvedAccess req org claim acc = Ok (Done res) -> exists reason, res = deny reason.
Proof.
  unfold checkResolvedAccess. destruct acc as [[a|] b]; simpl; [|intros [= <-]; eauto].
  destruct (CheckDefaultClaimsAllowed _ b); [intros [= <-]; eauto|].
  destruct (negb _ && negb _); [intros [= <-]; eauto|].
  destruct (validateStorageReadAccess req a) as [r|] eqn:Es.
  { intros [= <-]. revert Es. unfold validateStorageReadAccess.
    destruct (negb _ || _); [done|]. destruct (forallb _ _); [done|]. intros [= <-]. eauto. }
  intros ([r|[]] & Hf & Hr)%bind_Ok.
  - simplify_eq. revert Hf. unfold validateFunctionSelector.
    repeat (case_match; try done); intros Hf; inv_st; cases_all; eauto.
  - case_decide; [|done]. revert Hr. unfold validateProxyUpgrade.
    destruct (extractCalldata _ _) as [[|]|]; try done.
    destruct (Nat.leb _ _ && _ && _); [intros [= <-]; eauto|].
    intros (ur & _ & Hr)%bind_Ok. destruct (ur_Allowed ur); simplify_eq; eauto.
Qed.

Lemma deployerAutoGrant_Ok user addr claim acc acc' :
  deployerAutoGrant user addr claim acc = Ok acc' ->
  acc' = acc \/
  (GetContractDeployerByAddress addr = Ok (Some (u_ID user)) /\ snd acc' = true /\
   exists a', fst acc' = Some a' /\
     match fst acc with
     | None => a' = noAccess
     | Some a => ca_Functions a' = ca_Functions a /\ (forall c, c ∈ ca_Claims a' -> c ∈ ca_Claims a)
     end).
Proof.
  unfold deployerAutoGrant. destruct acc as [access b].
  set (lacking := match access with None => true | Some _ => _ end). destruct lacking.
  - intros (d & Hd%wrap_Ok & Hr)%bind_Ok. case_decide as Ed; simplify_eq; [|by left].
    right. split; [done|]. split; [done|]. destruct access as [a|]; eexists; (split; [reflexivity|]);
      [|reflexivity].
    cbn [fst ca_Functions ca_Claims]. split; [done|]. intros c Hc%elem_of_elements. set_solver.
  - intros [= <-]. by left.
Qed.

Lemma validateContractAccess_Next req user org perms claim oc u oc' :
  oc_ok ctx oc -> validateContractAccess req user org perms claim oc = (Ok (Next u), oc') ->
  exists a, access_basis req user perms (oc_userOrgIDs oc) a /\ access_checked req org claim a.
Proof.
  intros Hoc (acc & oc1 & Hb & Hr)%st_bind_Ok.
  apply baseContractAccess_Ok in Hb as (Hb & _ & _); [|done].
  apply st_bind_Ok in Hr as (acc' & oc2 & Hd & Hr). unfold lift in Hd, Hr.
  injection Hd as Hd <-. injection Hr as Hr%checkResolvedAccess_Next <-.
  destruct Hr as (a & Ha & Hc & He). exists a. split; [|done].
  apply deployerAutoGrant_Ok in Hd as [->|(Hd & Hs & a' & Ha' & Hm)].
  - destruct acc as [access b]. simpl in *. subst access.
    destruct Hb as [[Hl _]|[Hl [(-> & -> & Hp & owner & Ho & Hw)|(-> & -> & owner & Hx)]]].
    + by apply basis_grant.
    + apply basis_precompile with owner; [done..|]. destruct He as [?|[?|He]]; [done| |].
      * destruct Hw; auto.
      * left. congruence.
    + destruct Hx as (?&?&?&?&?). by apply basis_preregistered with owner.
  - rewrite Ha in Ha'. injection Ha' as <-. apply basis_deployer; [done|].
    destruct acc as [[a0|] b]; simpl in *; unfold noAccess in *.
    + destruct Hb as [[-> _]|[-> [(-> & -> & _)|(-> & -> & _)]]]; simpl in *; [done| |].
      * split; [naive_solver|]. intros c Hcc. apply (proj2 Hm) in Hcc. set_solver.
      * split; [naive_solver|]. intros c Hcc. apply (proj2 Hm) in Hcc. set_solver.
    + destruct Hb as [-> _]. subst a. split; [done|]. set_solver.
Qed.

Lemma validateContractAccess_Done req user org perms claim oc res oc' :
  validateContractAccess req user org perms claim oc = (Ok (Done res), oc') ->
  exists reason, res = deny reason.
Proof.
  intros (acc & oc1 & _ & Hr)%st_bind_Ok.
  apply st_bind_Ok in Hr as (acc' & oc2 & _ & Hr). unfold lift in Hr.
  injection Hr as Hr%checkResolvedAccess_Done _. done.
Qed.

(** ** After the permissions are known *)

(** An address an [eth_getLogs] filter may name. *)
Definition log_address_ok (perms : EffectivePermissions) (orgs : gset string) (a : string) : Prop :=
  ToLower (TrimSpace a) = "" \/
  exists owner, GetContractOwnerOrgID (ToLower (TrimSpace a)) = Ok owner /\
    ((owner = "" /\ IsPrecompileAddress (ToLower (TrimSpace a)) = true) \/
     (owner <> "" /\ owner ∈ orgs)).

Lemma checkLogAddress_None perms addr :
  checkLogAddress perms addr = None ->
  IsContractRegistered perms addr = true \/ IsPrecompileAddress addr = true \/
  (exists owner, GetContractOwnerOrgID addr = Ok owner /\ owner <> "" /\
                 CheckDefaultClaimsAllowed addr false = None /\
                 is_Some (GetContractAccess perms addr)).
Proof.
  unfold checkLogAddress. destruct (IsContractRegistered perms addr); [auto|].
  destruct (GetContractOwnerOrgID addr) as [owner|e]; [|done].
  case_decide as Ho.
  - destruct (IsPrecompileAddress addr); [auto|done].
  - intros Ht. right; right. exists owner. destruct (CheckDefaultClaimsAllowed addr false); [done|].
    destruct (GetContractAccess perms addr); [|done]. split_and!; eauto.
Qed.

Lemma validateGetLogs_None perms oc params :
  validateGetLogsWithOrgContext perms oc params = None ->
  exists filterObj, params !! 0 = Some (AObj filterObj) /\
    extractGetLogsAddresses filterObj <> [] /\
    forall a, a ∈ extractGetLogsAddresses filterObj ->
      log_address_ok perms (oc_userOrgIDs oc) a /\ checkLogAddress perms a = None.
Proof.
  unfold validateGetLogsWithOrgContext. destruct params as [|p ps]; [done|].
  destruct p as [| | | | |m]; try done. cbn [as_obj]. intros Hv. exists m. split; [done|].
  destruct (extractGetLogsAddresses m) as [|a0 l] eqn:El; [done|]. split; [done|].
  destruct (CheckMultiAddressesInScope oc (a0 :: l)) eqn:Ec; [done|].
  rewrite CheckMultiAddressesInScope_None in Ec. rewrite firstSome_None in Hv.
  intros a Ha. split; [|by apply Hv]. by apply CheckAddressInScope_None, Ec.
Qed.

(** Every way the phases after permission resolution let a request through. *)
Inductive granted (req : AccessCheckRequest) (user : User) (org : Organization)
    (perms : EffectivePermissions) (oc : OrgContext) : Prop :=
| granted_logs :
    EffectiveMethod req = "eth_getLogs" ->
    validateGetLogsWithOrgContext perms oc (rq_Params req) = None ->
    granted req user org perms oc
| granted_deploy :
    EffectiveMethod req <> "eth_getLogs" ->
    ClassifyOperation (EffectiveMethod req) (rq_Params req) = ClaimDeploy ->
    ClaimDeploy ∈ ep_Claims perms ->
    ClassifyCallShape (rq_Params req) <> CallShapeMalformed ->
    extractDeploymentBytecode (EffectiveMethod req) (rq_Params req) <> "" ->
    granted req user org perms oc
| granted_value_transfer :
    EffectiveMethod req <> "eth_getLogs" ->
    ClassifyOperation (EffectiveMethod req) (rq_Params req) <> ClaimDeploy ->
    contains ["eth_sendTransaction"; "eth_estimateGas"] (EffectiveMethod req) = true ->
    rq_TargetAddress req <> "" ->
    isValueTransferParams (rq_Params req) = true ->
    ep_ContractAccess perms !! ToLower (rq_TargetAddress req) = None ->
    GetContractOwnerOrgID (ownerKey (rq_TargetAddress req)) = Ok "" ->
    granted req user org perms oc
| granted_address_query :
    EffectiveMethod req <> "eth_getLogs" ->
    ClassifyOperation (EffectiveMethod req) (rq_Params req) <> ClaimDeploy ->
    isBasicAddressQuery (EffectiveMethod req) = true ->
    anyMethodToJudge req isStorageReadMethod = false ->
    rq_TargetAddress req <> "" ->
    ep_ContractAccess perms !! ToLower (rq_TargetAddress req) = None ->
    GetContractOwnerOrgID (ownerKey (rq_TargetAddress req)) = Ok "" ->
    granted req user org perms oc
| granted_contract a :
    EffectiveMethod req <> "eth_getLogs" ->
    rq_TargetAddress req <> "" ->
    ClassifyOperation (EffectiveMethod req) (rq_Params req) <> ClaimDeploy ->
    access_basis req user perms (oc_userOrgIDs oc) a ->
    access_checked req org (ClassifyOperation (EffectiveMethod req) (rq_Params req)) a ->
    checkAdditionalRequiredClaims req perms = None ->
    granted req user org perms oc
| granted_untargeted :
    EffectiveMethod req <> "eth_getLogs" ->
    rq_TargetAddress req = "" ->
    anyMethodToJudge req isStorageReadMethod = false ->
    ClassifyOperation (EffectiveMethod req) (rq_Params req) <> ClaimDeploy ->
    checkAdditionalRequiredClaims req perms = None ->
    granted req user org perms oc.

(** The two carve-outs for addresses no organization owns. *)
Lemma valueTransfer_inv req user org perms claim oc ph oc' :
  EffectiveMethod req <> "eth_getLogs" ->
  ClassifyOperation (EffectiveMethod req) (rq_Params req) <> ClaimDeploy ->
  oc_ok ctx oc ->
  classifyValueTransferCarveout req user org perms claim oc = (Ok ph, oc') ->
  oc_ok ctx oc' /\ oc_userOrgIDs oc' = oc_userOrgIDs oc /\
  forall res, ph = Done res -> rs_Allowed res = true ->
    res = allowIn org user perms /\ forall oc0, granted req user org perms oc0.
Proof.
  intros Hl Hd Hoc. unfold classifyValueTransferCarveout. rewrite IsContractRegistered_lookup.
  destruct (contains _ _ && _ && _) eqn:E; [|intros Hr; by inv_st].
  apply andb_true_iff in E as [[E1 E2]%andb_true_iff E3].
  apply negb_true_iff, bool_decide_eq_false in E2.
  destruct (ep_ContractAccess perms !! _) as [g|] eqn:Eg.
  { rewrite bool_decide_eq_true_2 by done. simpl. intros Hr. by inv_st. }
  rewrite bool_decide_eq_false_2 by (by intros [? ?]). simpl.
  intros (owner & oc1 & Ho & Hr)%st_bind_Ok.
  apply ownerWrapped_Ok in Ho as (Ho & Hoc1 & Hids); [|done].
  case_decide as Hw; [|inv_st; done].
  destruct (negb _ && negb _); inv_st; (split_and!; [done|done|]); intros res [= <-] Ha; [done|].
  split; [done|]. intros oc0. by apply granted_value_transfer.
Qed.

Lemma addressQuery_inv req user org perms oc ph oc' :
  EffectiveMethod req <> "eth_getLogs" ->
  ClassifyOperation (EffectiveMethod req) (rq_Params req) <> ClaimDeploy ->
  oc_ok ctx oc ->
  classifyBasicAddressQueryCarveout req user org perms oc = (Ok ph, oc') ->
  oc_ok ctx oc' /\ oc_userOrgIDs oc' = oc_userOrgIDs oc /\
  forall res, ph = Done res -> rs_Allowed res = true ->
    res = allowIn org user perms /\ forall oc0, granted req user org perms oc0.
Proof.
  intros Hl Hd Hoc. unfold classifyBasicAddressQueryCarveout. rewrite IsContractRegistered_lookup.
  destruct (_ && negb (anyMethodToJudge _ _)) eqn:E; [|intros Hr; inv_st; done].
  apply andb_true_iff in E as [[E1 E2]%andb_true_iff E3%negb_true_iff].
  apply negb_true_iff, bool_decide_eq_false in E1.
  destruct (ep_ContractAccess perms !! _) as [g|] eqn:Eg.
  { rewrite bool_decide_eq_true_2 by done. simpl. intros Hr. by inv_st. }
  rewrite bool_decide_eq_false_2 by (by intros [? ?]). simpl.
  intros (owner & oc1 & Ho & Hr)%st_bind_Ok.
  apply ownerWrapped_Ok in Ho as (Ho & Hoc1 & Hids); [|done].
  case_decide as Hw; inv_st; (split_and!; [done|done|]); [|done].
  intros res [= <-] _. split; [done|]. intros oc0. by apply granted_address_query.
Qed.

Lemma deployment_allowed req user org perms :
  rs_Allowed (validateDeploymentWithoutTarget req user org perms) = true ->
  validateDeploymentWithoutTarget req user org perms = allowIn org user perms /\
  ClaimDeploy ∈ ep_Claims perms /\
  ClassifyCallShape (rq_Params req) <> CallShapeMalformed /\
  extractDeploymentBytecode (EffectiveMethod req) (rq_Params req) <> "".
Proof.
  unfold validateDeploymentWithoutTarget, hasClaim.
  destruct (contains _ _) eqn:Ec; simpl; [|done]. apply contains_true in Ec.
  case_decide; [done|]. by case_decide.
Qed.

Lemma checkWithPermissions_allowed req user org perms oc res oc' :
  oc_ok ctx oc ->
  checkWithPermissions reg req user org perms oc = (Ok res, oc') -> rs_Allowed res = true ->
  res = allowIn org user perms /\ HasMethod reg perms (rq_Method req) = true /\
  granted req user org perms oc.
Proof.
  intros Hoc. unfold checkWithPermissions, checkMethodAllowed.
  destruct (HasMethod reg perms (rq_Method req)); [|intros Hr ?; by inv_st].
  intros (oc1 & oc2 & Hg & Hr)%st_bind_Ok Ha. unfold get in Hg. injection Hg as <- <-.
  unfold checkEthGetLogsAccess in Hr. case_decide as Hm.
  { destruct (validateGetLogsWithOrgContext _ _ _) eqn:El; [by inv_st|]. inv_st.
    split_and!; [done..|]. by apply granted_logs. }
  destruct (bool_decide _ && _) eqn:Es; [by inv_st|].
  case_decide as Hd.
  { unfold mret, stM_ret in Hr. injection Hr as <- <-.
    apply deployment_allowed in Ha as (-> & ? & ? & ?).
    split_and!; [done..|]. by apply granted_deploy. }
  apply phase_bind_Ok in Hr as (oc1 & [(r & Hv & Hr)|([] & Hv & Hr)]);
    apply (valueTransfer_inv _ _ _ _ _ _ _ _ Hm Hd Hoc) in Hv as (Hoc1 & Hi1 & Hv).
  { inv_st. by destruct (Hv res) as [-> ?]. }
  apply phase_bind_Ok in Hr as (oc2 & [(r & Hb & Hr)|([] & Hb & Hr)]);
    apply (addressQuery_inv _ _ _ _ _ _ _ Hm Hd Hoc1) in Hb as (Hoc2 & Hi2 & Hb).
  { inv_st. by destruct (Hb res) as [-> ?]. }
  apply phase_bind_Ok in Hr as (oc3 & Hr). case_decide as Ht.
  - destruct Hr as [(r & [=] & _)|([] & [= <-] & Hr)].
    destruct (checkAdditionalRequiredClaims _ _) as [r|] eqn:Ec.
    { exfalso. revert Ec. unfold checkAdditionalRequiredClaims. inv_st.
      destruct (forallb _ _); [done|]. intros [= <-]. done. }
    inv_st. split_and!; [done..|]. apply granted_untargeted; try done.
    apply andb_false_iff in Es as [Es%bool_decide_eq_false|Es]; done.
  - destruct Hr as [(r & Hr & Hk)|([] & Hr & Hk)].
    { inv_st. by apply validateContractAccess_Done in Hr as [? ->]. }
    apply validateContractAccess_Next in Hr as (a & Hba & Hca); [|done].
    destruct (checkAdditionalRequiredClaims _ _) as [r|] eqn:Ec.
    { exfalso. revert Ec. unfold checkAdditionalRequiredClaims. inv_st.
      destruct (forallb _ _); [done|]. intros [= <-]. done. }
    inv_st. split_and!; [done..|]. eapply granted_contract; try done.
    by rewrite <- Hi1, <- Hi2.
Qed.

(** The outcomes of the phases after permission resolution. *)
Definition outcome (org : Organization) (user : User) (perms : EffectivePermissions)
    (res : AccessCheckResult) : Prop :=
  (exists reason, res = deny reason) \/ res = allowIn org user perms.

Lemma carveouts_outcome req user org perms claim oc res oc' :
  classifyValueTransferCarveout req user org perms claim oc = (Ok (Done res), oc') \/
  classifyBasicAddressQueryCarveout req user org perms oc = (Ok (Done res), oc') ->
  outcome org user perms res.
Proof.
  unfold classifyValueTransferCarveout, classifyBasicAddressQueryCarveout, outcome.
  intros [Hr|Hr]; revert Hr;
    (destruct (_ && _); [|intros Hr; by inv_st]);
    (destruct (negb _); [|intros Hr; by inv_st]);
    intros (owner & oc1 & _ & Hr)%st_bind_Ok; (case_decide; [|by inv_st]);
    [destruct (_ && _)|]; inv_st; eauto.
Qed.

Lemma checkWithPermissions_outcome req user org perms oc res :
  fst (checkWithPermissions reg req user org perms oc) = Ok res -> outcome org user perms res.
Proof.
  unfold checkWithPermissions, checkMethodAllowed.
  destruct (HasMethod reg perms (rq_Method req)); [|intros [= <-]; left; eauto].
  match goal with |- fst (?m ?s) = _ -> _ => destruct (m s) as [r1 oc1] eqn:E end.
  cbn [fst]. intros ->. apply st_bind_Ok in E as (oc0 & oc2 & Hg & Hr). injection Hg as <- <-.
  destruct (checkEthGetLogsAccess req user org oc perms) as [r|] eqn:El.
  { injection Hr as <- <-. revert El. unfold checkEthGetLogsAccess. case_decide; [|done].
    destruct (validateGetLogsWithOrgContext _ _ _); intros [= <-]; [left; eauto|by right]. }
  destruct (bool_decide _ && _); [injection Hr as <- <-; left; eauto|].
  case_decide.
  { injection Hr as <- <-. unfold validateDeploymentWithoutTarget, outcome.
    repeat (case_match || case_decide); eauto. }
  apply phase_bind_Ok in Hr as (oc3 & [(r & Hv & Hr)|([] & _ & Hr)]).
  { injection Hr as <- <-. eapply carveouts_outcome; eauto. }
  apply phase_bind_Ok in Hr as (oc4 & [(r & Hv & Hr)|([] & _ & Hr)]).
  { injection Hr as <- <-. eapply (carveouts_outcome _ _ _ _ ""); eauto. }
  apply phase_bind_Ok in Hr as (oc5 & [(r & Hv & Hr)|([] & _ & Hr)]).
  { injection Hr as <- <-. case_decide; [done|]. left. by eapply validateContractAccess_Done. }
  unfold checkAdditionalRequiredClaims in Hr.
  destruct (forallb _ _); injection Hr as <- <-; [by right|left; eauto].
Qed.

(** ** Anonymous callers *)
Lemma decideAnonymous_allowed req access :
  rs_Allowed (decideAnonymous req access) = true ->
  exists a, access = Some a /\
    (exists allowed, allowed ∈ ga_AllowedMethods a /\
       ToLower allowed = ToLower (TrimSpace (rq_Method req))) /\
    (forall m, m ∈ methodsToJudge req -> IsContractDeployment m (rq_Params req) = false /\
                                       isStorageReadMethod m = false).
Proof.
  unfold decideAnonymous. destruct access as [a|]; [|done].
  destruct (existsb _ _) eqn:E1; simpl; [|done].
  destruct (anyMethodToJudge req (fun m => _)) eqn:E2; [done|].
  destruct (anyMethodToJudge req isStorageReadMethod) eqn:E3; [done|]. intros _.
  exists a. split; [done|]. split.
  - apply existsb_true in E1 as (x & Hx & E%bool_decide_eq_true). eauto.
  - intros m Hm. unfold anyMethodToJudge in E2, E3. rewrite existsb_false in E2, E3. auto.
Qed.

Lemma getAnonymousAccessCached_Ok c access c' :
  getAnonymousAccessCached ctx c = (Ok access, c') ->
  ctl_cache c' = ctl_cache c /\
  (GetGroupAccess AnonymousGroupID = Ok access \/
   (c' = c /\ access = ctl_anonAccess c /\ is_Some access /\
    (ctx_now ctx < ctl_anonAccessExpires c)%Z)).
Proof.
  unfold getAnonymousAccessCached.
  destruct (ctl_anonAccess c) as [a|] eqn:Ea.
  - destruct (Z.ltb_spec (ctx_now ctx) (ctl_anonAccessExpires c)).
    + intros [= <- <-]. split; [done|]. right. by split_and!.
    + destruct (GetGroupAccess _); [|done]. intros [= <- <-]. auto.
  - destruct (GetGroupAccess _); [|done]. intros [= <- <-]. auto.
Qed.

Lemma checkAnonymousAccess_allowed req c res c' :
  checkAnonymousAccess ctx req c = (Ok res, c') -> rs_Allowed res = true ->
  historicalStateQuery req = false /\
  IsCatalogMethod (CanonicalizeMethod (rq_Method req)) = true /\
  exists access, getAnonymousAccessCached ctx c = (Ok access, c') /\ res = decideAnonymous req access.
Proof.
  unfold checkAnonymousAccess. destruct (historicalStateQuery req); [intros Hr ?; by inv_st|].
  destruct (IsCatalogMethod _); cbn [negb]; [|intros Hr ?; by inv_st].
  intros (access & c1 & Hg & Hr)%st_bind_Ok Ha. inv_st.
  destruct (getAnonymousAccessCached ctx c) as [r c1] eqn:E. injection Hg as Hg%wrap_Ok <-. subst r.
  split_and!; [reflexivity..|]. eauto.
Qed.

(** ** [CheckAccess]: the three ways a request is allowed *)
Inductive allowed (req : AccessCheckRequest) (c : Controller) (res : AccessCheckResult)
    (c' : Controller) : Prop :=
| allowed_anonymous access :
    rq_UserExternalID req = "" ->
    historicalStateQuery req = false ->
    IsCatalogMethod (CanonicalizeMethod (rq_Method req)) = true ->
    getAnonymousAccessCached ctx c = (Ok access, c') ->
    res = decideAnonymous req access ->
    allowed req c res c'
| allowed_metadata user :
    rq_UserExternalID req <> "" ->
    resolveAndValidateUser req = Ok (Next user) ->
    isOrgFreeMetadata (rq_Method req) = true ->
    res = allowMetadata user -> c' = c ->
    allowed req c res c'
| allowed_in_org user org orgCtx perms :
    rq_UserExternalID req <> "" ->
    resolveAndValidateUser req = Ok (Next user) ->
    checkHistoricalStateQuery req user = Ok (Next tt) ->
    isOrgFreeMetadata (rq_Method req) = false ->
    resolveOrgContextForRequest ctx req user = Ok (Next (org, orgCtx)) ->
    resolvePermissionsForRequest iter ctx req user org c = (Ok perms, c') ->
    HasMethod reg perms (rq_Method req) = true ->
    granted req user org perms orgCtx ->
    res = stamp org user (allowIn org user perms) ->
    allowed req c res c'.

Lemma CheckAccess_allowed req c res c' :
  CheckAccess reg iter ctx req c = (Ok res, c') -> rs_Allowed res = true ->
  checkGlobalBlocks reg req = None /\ checkStateOverrides reg req = None /\
  allowed req c res c'.
Proof.
  unfold CheckAccess. destruct (checkGlobalBlocks reg req) as [r|] eqn:Eg.
  { intros Hr Ha. injection Hr as <- <-. apply checkGlobalBlocks_Some in Eg as [? ->]. discriminate Ha. }
  destruct (checkStateOverrides reg req) as [r|] eqn:Eo.
  { intros Hr Ha. injection Hr as <- <-. apply checkStateOverrides_Some in Eo as ->. discriminate Ha. }
  intros Hr Ha. split; [reflexivity|]. split; [reflexivity|]. case_decide as Hu.
  { apply checkAnonymousAccess_allowed in Hr as (? & ? & access & ? & ?); [|done].
    by eapply allowed_anonymous. }
  apply phase_bind_Ok in Hr as (c1 & [(r & Hv & Hr)|(user & Hv & Hr)]).
  { injection Hr as <- <-. injection Hv as [? ->]%resolveAndValidateUser_Done _. discriminate Ha. }
  injection Hv as Hv <-.
  apply phase_bind_Ok in Hr as (c1 & [(r & Hh & Hr)|([] & Hh & Hr)]).
  { injection Hr as <- <-. injection Hh as [? ->]%checkHistoricalStateQuery_Done _. discriminate Ha. }
  injection Hh as Hh <-.
  destruct (isOrgFreeMetadata (rq_Method req)) eqn:Em.
  { injection Hr as <- <-. eapply allowed_metadata; eassumption || reflexivity. }
  apply st_bind_Ok in Hr as ([r|[org oc]] & c1 & Ho & Hr); injection Ho as Ho <-.
  { injection Hr as <- <-. apply resolveOrgContextForRequest_Done in Ho as [[? ->]| ->]; discriminate Ha. }
  apply st_bind_Ok in Hr as (res0 & c1 & Hw & Hr). injection Hr as <- <-.
  apply st_bind_Ok in Hw as (perms & c2 & Hp & Hw). apply pair_equal_spec in Hw as [Hw ->].
  destruct (checkWithPermissions _ _ _ _ _ _) as [r oc'] eqn:Ew. simpl in Hw. subst r.
  pose proof (resolveOrgContextForRequest_Next _ _ _ _ Ho) as (Hn & _ & _).
  apply NewOrgContext_Ok in Hn as [Hoc _].
  apply checkWithPermissions_allowed in Ew as (-> & ? & ?); [|done|exact Ha].
  eapply allowed_in_org; eassumption || reflexivity.
Qed.
End props.
