(* ===== verification/AccessClaims.v ===== *)
(** * Security properties of [CheckAccess].

    Isolation, fail-closed gates, attribution and the completeness of the
    positive path, over an arbitrary store where the property does not depend
    on it and over the tables of [Db.v] where it does. *)
From S2P Require Import Prelude GoStrings Methods Models Requests OrgContext Db Cache.
From S2P Require Import Access AccessProps.
Local Open Scope string_scope.

Section generic.
Context `{HS : Store} `{HA : ABI} `{HP : PermissionSource}.
Variable reg : Registries.
Variable iter : gmap string cacheEntry -> list string.
Variable ctx : Ctx.

(** An allowed, authenticated, non-metadata request went through the whole
    pipeline. *)
Lemma allowed_pipeline req c res c' :
  CheckAccess reg iter ctx req c = (Ok res, c') -> rs_Allowed res = true ->
  rq_UserExternalID req <> "" -> isOrgFreeMetadata (rq_Method req) = false ->
  exists user org orgCtx perms,
    resolveAndValidateUser req = Ok (Next user) /\
    checkHistoricalStateQuery req user = Ok (Next tt) /\
    resolveOrgContextForRequest ctx req user = Ok (Next (org, orgCtx)) /\
    resolvePermissionsForRequest iter ctx req user org c = (Ok perms, c') /\
    HasMethod reg perms (rq_Method req) = true /\
    granted req user org perms orgCtx /\
    res = stamp org user (allowIn org user perms).
Proof.
  intros Hc Ha Hu Hm.
  destruct (CheckAccess_allowed reg iter ctx req c res c' Hc Ha) as (_ & _ & Hal).
  destruct Hal as [access He|user _ _ Hf|user org oc perms]; [by destruct Hu| |].
  - rewrite Hf in Hm. discriminate Hm.
  - exists user, org, oc, perms. split_and!; assumption.
Qed.

(** Who and what an allowed request was decided for: the user row of the
    caller, the organization it was resolved to with the caller's (scoped)
    organizations, and the permissions resolved for them; the outcome carries
    both identities. *)
Record decided_for req c c' res user org orgCtx perms : Prop := {
  df_user : GetUserByExternalID (rq_UserExternalID req) = Ok (Some user);
  df_org : resolveOrgContextForRequest ctx req user = Ok (Next (org, orgCtx));
  df_perms : resolvePermissionsForRequest iter ctx req user org c = (Ok perms, c');
  df_userID : rs_UserID res = u_ID user;
  df_orgID : rs_OrgID res = o_ID org }.

Lemma allowed_decided req c res c' :
  CheckAccess reg iter ctx req c = (Ok res, c') -> rs_Allowed res = true ->
  rq_UserExternalID req <> "" -> isOrgFreeMetadata (rq_Method req) = false ->
  exists user org orgCtx perms,
    decided_for req c c' res user org orgCtx perms /\ granted req user org perms orgCtx.
Proof.
  intros Hc Ha Hu Hm.
  destruct (allowed_pipeline _ _ _ _ Hc Ha Hu Hm)
    as (user & org & oc & perms & Hv & _ & Hr & Hp & _ & Hg & ->). clear Hc Ha Hm Hu.
  exists user, org, oc, perms. split; [|exact Hg].
  apply resolveAndValidateUser_Next in Hv as (Hv & _ & _).
  split; [exact Hv|exact Hr|exact Hp|simpl; by case_decide|simpl; by case_decide].
Qed.

(** A denial decided before any lookup. *)
Lemma global_block_denies req c res :
  checkGlobalBlocks reg req = Some res -> CheckAccess reg iter ctx req c = (Ok res, c).
Proof. intros He. unfold CheckAccess. rewrite He. reflexivity. Qed.

(** Where the organization of an authenticated outcome comes from. *)
Lemma CheckAccess_org req c res c' :
  rq_UserExternalID req <> "" ->
  CheckAccess reg iter ctx req c = (Ok res, c') ->
  rs_OrgID res = "" \/
  exists user, resolveAndValidateUser req = Ok (Next user) /\
    ((rs_Allowed res = false /\ rs_OrgID res = callerOrgForDenial req user) \/
     exists org oc, resolveOrgContextForRequest ctx req user = Ok (Next (org, oc)) /\
       rs_OrgID res = o_ID org).
Proof.
  intros Hu. unfold CheckAccess. destruct (checkGlobalBlocks reg req) as [r|] eqn:Eg.
  { intros Hr. injection Hr as <- <-. apply checkGlobalBlocks_Some in Eg as [? ->]. by left. }
  clear Eg. destruct (checkStateOverrides reg req) as [r|] eqn:Eo.
  { intros Hr. injection Hr as <- <-. apply checkStateOverrides_Some in Eo as ->. by left. }
  clear Eo. rewrite decide_False by exact Hu. intros Hr.
  apply phase_bind_Ok in Hr as (c1 & [(r & Hv & Hr)|(user & Hv & Hr)]); injection Hv as Hv <-.
  { injection Hr as <- <-. apply resolveAndValidateUser_Done in Hv as [? ->]. by left. }
  apply phase_bind_Ok in Hr as (c1 & [(r & Hh & Hr)|([] & _ & Hr)]).
  { injection Hh as [? ->]%checkHistoricalStateQuery_Done _. injection Hr as <- <-. by left. }
  destruct (isOrgFreeMetadata (rq_Method req)); [injection Hr as <- <-; by left|].
  apply st_bind_Ok in Hr as ([r|[org oc]] & c2 & Ho & Hr); injection Ho as Ho <-.
  { injection Hr as <- <-. destruct (resolveOrgContextForRequest_Done _ _ _ _ Ho) as [[? ->]| ->];
      [by left|]. right. exists user. split; [exact Hv|]. by left. }
  apply st_bind_Ok in Hr as (res0 & c2 & Hw & Hr). injection Hr as <- <-.
  apply st_bind_Ok in Hw as (perms & c3 & _ & Hw). apply pair_equal_spec in Hw as [Hw _].
  right. exists user. split; [exact Hv|]. right. exists org, oc. split; [exact Ho|].
  apply checkWithPermissions_outcome in Hw as [[? ->]| ->]; simpl; [reflexivity|].
  by case_decide.
Qed.

(** The [eth_getLogs] route is disjoint from deployments. *)
Lemma deploy_not_logs req :
  ClassifyOperation (EffectiveMethod req) (rq_Params req) = ClaimDeploy ->
  EffectiveMethod req <> "eth_getLogs".
Proof. intros Hd Hm. rewrite Hm in Hd. vm_compute in Hd. discriminate Hd. Qed.

Lemma deployment_classified m params :
  IsContractDeployment m params = true -> ClassifyOperation m params = ClaimDeploy.
Proof.
  unfold ClassifyOperation, IsContractDeployment. intros Hd.
  destruct (contains callLikeLower (ToLower (TrimSpace m))) eqn:E; [|done]. cbn [negb] in Hd.
  assert (Hn : ToLower (TrimSpace (ToLower (TrimSpace m))) = ToLower (TrimSpace m)).
  { apply contains_true in E. unfold callLikeLower in E. rewrite !elem_of_cons in E.
    destruct E as [->|[->|[->|[->|E]]]]; [vm_compute; reflexivity..|set_solver]. }
  rewrite Hn, E. cbn [negb]. by rewrite Hd.
Qed.

(** A storage read is only ever granted through the contract gate. *)
Lemma granted_storage req user org perms oc :
  granted req user org perms oc -> isStorageReadMethod (EffectiveMethod req) = true ->
  exists a, access_basis req user perms (oc_userOrgIDs oc) a /\
            validateStorageReadAccess req a = None.
Proof.
  intros Hg Hs. assert (Hm : EffectiveMethod req = "eth_getStorageAt" \/
                             EffectiveMethod req = "eth_getProof").
  { unfold isStorageReadMethod in Hs. apply contains_true in Hs. set_solver. }
  destruct Hg as [He|? Hd|? ? He|? ? ? He|a ? ? ? Hb Hc|? ? He].
  - rewrite He in Hm. by destruct Hm.
  - by destruct Hm as [Hm|Hm]; rewrite Hm in Hd; vm_compute in Hd.
  - by destruct Hm as [Hm|Hm]; rewrite Hm in He.
  - apply anyMethodToJudge_false in He as [_ He]. congruence.
  - exists a. split; [done|]. apply Hc.
  - apply anyMethodToJudge_false in He as [_ He]. congruence.
Qed.

(** A contract-level route is the only one for a call that is neither a
    deployment, a plain transfer, a balance query nor [eth_getLogs]. *)
Lemma granted_contract_inv req user org perms oc :
  granted req user org perms oc ->
  EffectiveMethod req <> "eth_getLogs" -> isBasicAddressQuery (EffectiveMethod req) = false ->
  ClassifyOperation (EffectiveMethod req) (rq_Params req) <> ClaimDeploy ->
  contains ["eth_sendTransaction"; "eth_estimateGas"] (EffectiveMethod req) &&
    isValueTransferParams (rq_Params req) = false ->
  rq_TargetAddress req <> "" ->
  exists a, access_basis req user perms (oc_userOrgIDs oc) a /\
    access_checked req org (ClassifyOperation (EffectiveMethod req) (rq_Params req)) a /\
    checkAdditionalRequiredClaims req perms = None.
Proof.
  intros [|? Hd|? ? Hm ? Hv|? ? Hb| |] Hl Hq Hnd Hvt Ht; try done.
  - rewrite Hm, Hv in Hvt. done.
  - rewrite Hb in Hq. done.
  - eauto.
Qed.

(** The calldata the parameter rules are judged on. *)
Definition judgedCalldata (req : AccessCheckRequest) : option (list Ascii.ascii) :=
  match rq_Calldata req with
  | Some d => Some d
  | None => extractCalldata (EffectiveMethod req) (rq_Params req)
  end.

(** A function-restricted contract: what the selector check establishes. *)
Lemma validateFunctionSelector_Next req org a u :
  validateFunctionSelector req org a = Ok (Next u) ->
  (rq_FunctionSelector req = "" ->
   contains ["eth_call"; "eth_estimateGas"; "eth_sendTransaction"] (EffectiveMethod req) = true ->
   ca_Functions a = None) /\
  (rq_FunctionSelector req <> "" ->
   functionsAllow (ca_Functions a) (rq_FunctionSelector req) = true /\
   forall rule, functionsRule (ca_Functions a) (rq_FunctionSelector req) = Some rule ->
     fr_ParamRules rule = [] \/
     exists calldata addrs contract,
       judgedCalldata req = Some calldata /\
       GetLinkedEthAddresses (rq_UserExternalID req) = Ok addrs /\
       GetContractByAddress (o_ID org) (ToLower (rq_TargetAddress req)) = Ok contract /\
       ValidateParamRules rule calldata
         (match contract with Some c => c_ABI c | None => "" end) addrs = None).
Proof.
  unfold validateFunctionSelector.
  destruct (bool_decide (rq_FunctionSelector req = "")) eqn:Es; cbn [negb].
  - apply bool_decide_eq_true in Es. intros Hr. split; [|by intros Hn].
    intros _ Hm. rewrite Hm in Hr. cbn [andb] in Hr.
    destruct (ca_Functions a); [|done].
    rewrite bool_decide_eq_true_2 in Hr by done. discriminate Hr.
  - apply bool_decide_eq_false in Es. destruct (functionsAllow _ _); [|done]. cbn [negb].
    intros Hr. split; [done|]. intros _. split; [done|]. intros rule Hrule. rewrite Hrule in Hr.
    case_decide as Hp; [by left|right].
    fold (judgedCalldata req) in Hr.
    destruct (judgedCalldata req) as [calldata|]; [|done]. inv_st.
    case_match eqn:E; simplify_eq. eauto 10.
Qed.

(** A transfer carries no calldata. *)
Lemma call_contract_gate req user org perms oc :
  granted req user org perms oc ->
  contains ["eth_call"; "eth_estimateGas"; "eth_sendTransaction"] (EffectiveMethod req) = true ->
  IsContractDeployment (EffectiveMethod req) (rq_Params req) = false ->
  isValueTransferParams (rq_Params req) = false -> rq_TargetAddress req <> "" ->
  exists a, access_basis req user perms (oc_userOrgIDs oc) a /\
    access_checked req org (ClassifyOperation (EffectiveMethod req) (rq_Params req)) a.
Proof.
  intros Hg Hm Hd Hv Ht.
  apply contains_true in Hm. rewrite !elem_of_cons in Hm.
  assert (Hnd : ClassifyOperation (EffectiveMethod req) (rq_Params req) <> ClaimDeploy).
  { revert Hd. destruct Hm as [->|[->|[->|Hm]]]; [..|set_solver];
      unfold ClassifyOperation, IsContractDeployment; vm_compute (contains _ _); cbn [negb];
      by destruct (ClassifyCallShape _). }
  destruct (granted_contract_inv _ _ _ _ _ Hg) as (a & ? & ? & _); eauto.
  - destruct Hm as [->|[->|[->|Hm]]]; [done..|set_solver].
  - destruct Hm as [->|[->|[->|Hm]]]; [done..|set_solver].
  - rewrite Hv. apply andb_false_r.
Qed.
(** A grant is the access, explicitly. *)
Lemma baseContractAccess_granted req perms oc a :
  ep_ContractAccess perms !! ToLower (rq_TargetAddress req) = Some a ->
  baseContractAccess req perms oc = (Ok (Some a, true), oc).
Proof.
  intros Hacc. unfold baseContractAccess. rewrite IsContractRegistered_lookup.
  unfold GetContractAccess. rewrite ToLower_idemp, Hacc, bool_decide_eq_true_2 by done. done.
Qed.

(** An unrestricted access lets every non-storage, non-transaction request
    through. *)
Lemma checkResolvedAccess_unrestricted req org a :
  ca_Functions a = None -> anyMethodToJudge req isStorageReadMethod = false ->
  EffectiveMethod req <> "eth_sendTransaction" ->
  checkResolvedAccess req org "" (Some a, true) = Ok (Next tt).
Proof.
  intros Hf Hs Hm. unfold checkResolvedAccess, validateStorageReadAccess. rewrite Hs. simpl.
  unfold validateFunctionSelector. rewrite Hf.
  destruct (negb _); simpl; [by rewrite decide_False|].
  rewrite andb_false_r. simpl. by rewrite decide_False.
Qed.

(** What the upgrade check establishes when the calldata is an upgrade. *)
Lemma validateProxyUpgrade_Next req org a u calldata :
  extractCalldata (EffectiveMethod req) (rq_Params req) = Some calldata ->
  4 <= length calldata -> IsUpgradeSelector (EncodeToString (take 4 calldata)) = true ->
  validateProxyUpgrade req org a = Ok (Next u) ->
  ClaimUpgrade ∈ ca_Claims a /\
  exists impl, extractImplementationAddress (EncodeToString (take 4 calldata)) calldata = Ok impl /\
    IsAddressOwnedByOrg impl (o_ID org) = Ok true.
Proof.
  intros He Hlen Hsel. unfold validateProxyUpgrade. rewrite He.
  destruct calldata as [|b calldata]; [simpl in Hlen; lia|]. set (cd := b :: calldata) in *.
  rewrite Hsel, (proj2 (Nat.leb_le _ _) Hlen). cbn [andb]. unfold hasClaim.
  destruct (contains _ _) eqn:Ec; [|done]. apply contains_true in Ec. cbn [negb].
  intros (ur & Hur%wrap_Ok & Hr)%bind_Ok. split; [done|].
  destruct (ur_Allowed ur) eqn:Ea; [|done]. revert Hur. unfold ValidateUpgrade.
  rewrite (proj2 (Nat.ltb_ge _ _) Hlen). unfold IsUpgradeSelector in Hsel.
  rewrite ToLower_EncodeToString, TrimPrefix_0x_EncodeToString in Hsel.
  apply bool_decide_eq_true in Hsel as [fn Hfn]. rewrite Hfn.
  destruct (extractImplementationAddress _ cd) as [impl|e]; [|intros [= <-]; discriminate Ea].
  intros (owned & Ho%wrap_Ok & [= <-])%bind_Ok. simpl in Ea. subst owned. eauto.
Qed.
End generic.

(** C2: a globally blocked or non-forwardable method, and a request that
    carries state, code or block overrides or a Multicall, is denied whatever
    the store, the caller, the caches and the permissions are, and leaves the
    controller's caches untouched. *)
Theorem blocked_requests_denied_without_lookup
    `{Store} `{ABI} `{PermissionSource} reg iter ctx req c :
  IsMethodBlocked (rq_Method req) = true \/
  IsForwardableMethod reg (CanonicalizeMethod (rq_Method req)) = false \/
  (exists m, m ∈ methodsToJudge req /\ is_Some (DetectMulticall m (rq_Params req))) \/
  (exists m, m ∈ methodsToJudge req /\ is_Some (DetectStateOverride reg m (rq_Params req))) ->
  exists reason, CheckAccess reg iter ctx req c = (Ok (deny reason), c).
Proof.
  intros Hb. destruct (checkGlobalBlocks reg req) as [res|] eqn:Eg.
  - destruct (checkGlobalBlocks_Some _ _ _ Eg) as [reason ->]. exists reason.
    by apply global_block_denies.
  - pose proof (checkGlobalBlocks_None reg req Eg) as (Hnb & Hf & Hmc).
    rewrite Hnb, Hf in Hb. destruct Hb as [Hb|[Hb|[(m & Hm & Hd)|(m & Hm & Hd)]]];
      [discriminate Hb|discriminate Hb| |].
    + rewrite (Hmc m Hm) in Hd. destruct (is_Some_None Hd).
    + exists StateOverrideDeniedReason. unfold CheckAccess. rewrite Eg.
      destruct (checkStateOverrides reg req) as [r|] eqn:Eo.
      * apply checkStateOverrides_Some in Eo as ->. reflexivity.
      * exfalso. assert (Hm' : m = rq_Method req \/ m = EffectiveMethod req).
        { by apply elem_of_methodsToJudge. }
        rewrite (checkStateOverrides_None reg req m Eo Hm') in Hd. destruct (is_Some_None Hd).
Qed.

(** C7: an anonymous request is allowed exactly when it is not blocked, reads
    no historical state, names a catalogue method the anonymous group lists,
    deploys nothing and reads no raw storage; it never carries an identity, an
    organization, an API key or claims. *)
Theorem anonymous_access_exact
    `{Store} `{ABI} `{PermissionSource} reg iter ctx req c res c' :
  rq_UserExternalID req = "" ->
  CheckAccess reg iter ctx req c = (Ok res, c') ->
  (rs_Allowed res = true <->
   checkGlobalBlocks reg req = None /\ checkStateOverrides reg req = None /\
   historicalStateQuery req = false /\
   IsCatalogMethod (CanonicalizeMethod (rq_Method req)) = true /\
   exists a, getAnonymousAccessCached ctx c = (Ok (Some a), c') /\
     (exists allowed, allowed ∈ ga_AllowedMethods a /\
        ToLower allowed = ToLower (TrimSpace (rq_Method req))) /\
     (forall m, m ∈ methodsToJudge req -> IsContractDeployment m (rq_Params req) = false /\
                                        isStorageReadMethod m = false)) /\
  rs_UserID res = "" /\ rs_OrgID res = "" /\ rs_RPCAPIKey res = "" /\ rs_Claims res = [].
Proof.
  intros Hu Hc. split; [split|].
  - intros Ha. destruct (CheckAccess_allowed reg iter ctx req c res c' Hc Ha) as (Hg & Ho & Hal).
    destruct Hal as [access He Hh Hcat Hget ->|? Hn|? ? ? ? Hn]; [|by destruct Hn..].
    apply decideAnonymous_allowed in Ha as (a & -> & Hx & Hy). split_and!; eauto.
  - intros (Hg & Ho & Hh & Hcat & a & Hget & (x & Hx & Hxl) & Hm). revert Hc.
    unfold CheckAccess. rewrite Hg, Ho, decide_True by exact Hu. unfold checkAnonymousAccess.
    rewrite Hh, Hcat. cbn [negb]. unfold mbind, stM_bind. rewrite Hget. cbn [wrap].
    intros [= <-]. unfold decideAnonymous.
    rewrite (proj2 (existsb_true _ _)); [|exists x; split; [done|by apply bool_decide_eq_true_2]].
    unfold anyMethodToJudge.
    rewrite !(proj2 (existsb_false _ _)); [done|..]; intros m Hmm; by apply Hm.
  - revert Hc. unfold CheckAccess.
    destruct (checkGlobalBlocks reg req) as [r|] eqn:Eg.
    { intros [= <- <-]. by apply checkGlobalBlocks_Some in Eg as [? ->]. }
    destruct (checkStateOverrides reg req) as [r|] eqn:Eo.
    { intros [= <- <-]. by apply checkStateOverrides_Some in Eo as ->. }
    rewrite decide_True by exact Hu. clear Eg Eo. unfold checkAnonymousAccess.
    destruct (historicalStateQuery req); [by intros [= <- <-]|].
    destruct (IsCatalogMethod _); cbn [negb]; [|by intros [= <- <-]].
    intros (access & c1 & _ & Hr)%st_bind_Ok. injection Hr as <- _.
    unfold decideAnonymous. destruct access as [a|]; [|done].
    destruct (negb _); [done|]. destruct (anyMethodToJudge _ _); [done|].
    by destruct (anyMethodToJudge _ _).
Qed.

(** a request is never allowed to an unknown or banned user, and a user
    without KYC gets nothing but the organization-free metadata methods. *)
Theorem only_valid_users_allowed
    `{Store} `{ABI} `{PermissionSource} reg iter ctx req c res c' :
  rq_UserExternalID req <> "" ->
  CheckAccess reg iter ctx req c = (Ok res, c') -> rs_Allowed res = true ->
  exists user, GetUserByExternalID (rq_UserExternalID req) = Ok (Some user) /\
    u_Banned user = false /\
    (u_KYC user = true \/ isOrgFreeMetadata (rq_Method req) = true) /\
    (rs_UserID res = u_ID user).
Proof.
  intros Hu Hc Ha.
  destruct (CheckAccess_allowed reg iter ctx req c res c' Hc Ha) as (_ & _ & Hal). clear Hc.
  destruct Hal as [access He|user _ Hv _ -> _|user org oc perms _ Hv _ _ _ _ _ _ ->];
    [by destruct Hu|..]; apply resolveAndValidateUser_Next in Hv as (? & ? & ?);
    exists user; split_and!; try assumption; [reflexivity|].
  simpl. case_decide as Hid; [reflexivity|reflexivity].
Qed.

(** a contract deployment is allowed only to a caller whose resolved
    permissions carry the deploy claim, and only when the transaction object
    is well formed and carries bytecode. *)
Theorem deployment_requires_claim_and_bytecode
    `{Store} `{ABI} `{PermissionSource} reg iter ctx req c res c' :
  rq_UserExternalID req <> "" -> isOrgFreeMetadata (rq_Method req) = false ->
  IsContractDeployment (EffectiveMethod req) (rq_Params req) = true ->
  CheckAccess reg iter ctx req c = (Ok res, c') -> rs_Allowed res = true ->
  exists user org orgCtx perms,
    decided_for iter ctx req c c' res user org orgCtx perms /\
    ClaimDeploy ∈ ep_Claims perms /\
    ClassifyCallShape (rq_Params req) = CallShapeCreation /\
    extractDeploymentBytecode (EffectiveMethod req) (rq_Params req) <> "".
Proof.
  intros Hu Hm Hd Hc Ha.
  destruct (allowed_decided _ _ _ _ _ _ _ Hc Ha Hu Hm) as (user & org & oc & perms & Hdf & Hg).
  clear Hc Ha Hm Hu. exists user, org, oc, perms. split; [exact Hdf|]. clear Hdf.
  assert (Hcl := deployment_classified _ _ Hd).
  pose proof (deploy_not_logs _ Hcl).
  destruct Hg as [|? ? Hdc Hns Hb|? Hnd|? Hnd|? ? ? Hnd|? ? ? Hnd]; [done| |by destruct Hnd..].
  split_and!; [done| |done].
  revert Hd Hns. unfold IsContractDeployment. destruct (negb _); [done|].
  by destruct (ClassifyCallShape _).
Qed.

(** a raw storage read is allowed only on a contract the caller may
    access, and without the admin claim on that contract only for the
    well-known proxy slots. *)
Theorem storage_reads_confined
    `{Store} `{ABI} `{PermissionSource} reg iter ctx req c res c' :
  rq_UserExternalID req <> "" -> isOrgFreeMetadata (rq_Method req) = false ->
  isStorageReadMethod (EffectiveMethod req) = true ->
  CheckAccess reg iter ctx req c = (Ok res, c') -> rs_Allowed res = true ->
  exists user org orgCtx perms a,
    decided_for iter ctx req c c' res user org orgCtx perms /\
    access_basis req user perms (oc_userOrgIDs orgCtx) a /\
    (ClaimAdmin ∈ ca_Claims a \/
     exists keys, requestedStorageKeys (EffectiveMethod req) (rq_Params req) = Some keys /\
       forall k, k ∈ keys -> IsWellKnownStorageSlot k = true).
Proof.
  intros Hu Hm Hs Hc Ha.
  destruct (allowed_decided _ _ _ _ _ _ _ Hc Ha Hu Hm) as (user & org & oc & perms & Hdf & Hg).
  clear Hc Ha Hm Hu. apply granted_storage in Hg as (a & Hb & Hk); [|done].
  exists user, org, oc, perms, a. split; [exact Hdf|]. split; [exact Hb|]. clear Hdf Hb.
  revert Hk. unfold validateStorageReadAccess.
  rewrite (proj2 (anyMethodToJudge_true _ _)) by auto. cbn [negb orb]. unfold hasClaim.
  destruct (contains _ _) eqn:Ec; [left; by apply contains_true|].
  destruct (forallb _ _) eqn:Ef; [|done]. intros _. right.
  rewrite forallb_true in Ef. specialize (Ef _ (EffectiveMethod_judged req)).
  rewrite Hs in Ef. cbn [negb] in Ef.
  destruct (requestedStorageKeys _ _) as [keys|]; [|done].
  exists keys. split; [done|]. by apply forallb_true.
Qed.

(** ** Over the tables *)

(** The key under which organization resolution looks the owner up. *)
Definition targetKey (req : AccessCheckRequest) : string :=
  ToLower (TrimSpace (ToLower (TrimSpace (rq_TargetAddress req)))).

Section tables.
Context (row1 : forall A : Type, list A -> option A).
Context (now : Z) (db : Database) `{HA : ABI} `{HP : PermissionSource}.
Context (reg : Registries) (iter : gmap string cacheEntry -> list string) (ctx : Ctx).

Lemma scoped_orgs_active user target oc o :
  @NewOrgContext (DbStore row1 now db) ctx user target = Ok oc -> o ∈ oc_userOrgIDs oc ->
  active_member now db (u_ID user) o /\ (forall v, ctx_viewscope ctx = Some v -> o = v).
Proof.
  intros Hn Ho. pose proof (@NewOrgContext_Ok _ _ _ _ _ Hn) as (Hoc & Hu & _).
  destruct Hoc as [_ (ids & Hids & Hsc)]. rewrite Hsc in Ho. split.
  - apply scopeUserOrgIDs_subseteq in Ho. rewrite Hu in Hids.
    by apply (GetUserOrgIDs_active row1 now db _ ids Hids).
  - intros v Hv. pose proof (scopeUserOrgIDs_scoped ctx ids v Hv). set_solver.
Qed.

(** A denial before organization resolution names an organization of the
    caller, or none. *)
Lemma callerOrg_active req user :
  @callerOrgForDenial (DbStore row1 now db) req user <> "" ->
  active_member now db (u_ID user) (@callerOrgForDenial (DbStore row1 now db) req user).
Proof.
  unfold callerOrgForDenial. cbn [ListActiveUserMembershipsWithDetails DbStore].
  destruct (db_ListActiveUserMembershipsWithDetails now db (u_ID user)) as [ms|e] eqn:E; [|done].
  apply query_Ok in E as <-.
  destruct (negb _ && _) eqn:Em.
  - intros _. apply andb_true_iff in Em as [_ Em%mem_true].
    apply elem_of_difference in Em as [Em _]. by apply elem_of_membershipOrgIDs.
  - destruct (elements _) as [|x [|]] eqn:El; [done| |done]. intros _.
    apply elements_singleton in El. apply elem_of_membershipOrgIDs. set_solver.
Qed.

Context (Hrow : picks_row row1).

(** The organization a request is resolved to is one of the caller's. *)
Lemma chosen_org_active req user org oc :
  @resolveOrgContextForRequest (DbStore row1 now db) ctx req user = Ok (Next (org, oc)) ->
  o_ID org ∈ oc_userOrgIDs oc.
Proof.
  intros Hr. pose proof (@resolveOrgContextForRequest_Next (DbStore row1 now db) _ _ _ _ _ Hr)
    as (Hn & Hch & _).
  pose proof (@NewOrgContext_Ok _ _ _ _ _ Hn) as (_ & _ & He & Ht).
  destruct Hch as [?|[[_ Ho]|(id & Hids & Ho)]]; [done|..].
  - destruct (decide (ToLower (TrimSpace (rq_TargetAddress req)) = "")) as [E|E].
    { rewrite (He E) in Ho. done. }
    destruct (Ht E) as (owner & _ & Hpub & Hown).
    destruct (decide (owner = "")) as [->|Hne]; [rewrite Hpub in Ho; done|].
    destruct (Hown Hne) as [Hin Hg]. rewrite Ho in Hg.
    by apply (organization_Ok row1 Hrow db) in Hg as [-> _].
  - apply (organization_Ok row1 Hrow db) in Ho as [-> _]. rewrite Hids. set_solver.
Qed.
End tables.

(** C1: cross-organization isolation.  When an authenticated request on a
    target address is allowed, either no contract or pre-registration row
    exists for that address, or an organization owning it is one the caller
    is an unexpired member of, and under an impersonated view it is the
    organization the view is anchored to. *)
Theorem cross_org_isolation
    (row1 : forall A : Type, list A -> option A) now db `{ABI} `{PermissionSource}
    reg iter ctx req c res c' :
  picks_row row1 ->
  rq_UserExternalID req <> "" -> isOrgFreeMetadata (rq_Method req) = false ->
  ToLower (TrimSpace (rq_TargetAddress req)) <> "" ->
  ~ ("" ∈ owners db (targetKey req)) ->
  @CheckAccess (DbStore row1 now db) _ _ reg iter ctx req c = (Ok res, c') ->
  rs_Allowed res = true ->
  exists user, user ∈ db_users db /\ u_ExternalID user = rq_UserExternalID req /\
    (owners db (targetKey req) = [] \/
     exists o, o ∈ owners db (targetKey req) /\ active_member now db (u_ID user) o /\
               (forall v, ctx_viewscope ctx = Some v -> o = v)).
Proof.
  intros Hrow Hu Hm Ht Hne Hc Ha.
  destruct (@allowed_pipeline (DbStore row1 now db) _ _ _ _ _ _ _ _ _ Hc Ha Hu Hm)
    as (user & org & oc & perms & Hv & _ & Hr & _). clear Hc Ha Hm Hu.
  exists user. apply (@resolveAndValidateUser_Next (DbStore row1 now db)) in Hv as (Hv & _ & _).
  apply (user_Ok row1 Hrow db) in Hv as [? ?]. split_and!; [done|done|].
  apply (@resolveOrgContextForRequest_Next (DbStore row1 now db)) in Hr as (Hn & _ & _).
  pose proof (@NewOrgContext_Ok _ _ _ _ _ Hn) as (_ & _ & _ & Hown).
  destruct (Hown Ht) as (owner & Ho & _ & Hin).
  apply (owner_Ok row1 Hrow db) in Ho as [[? _]|Ho]; [by left|right].
  exists owner. split; [done|]. apply (scoped_orgs_active row1 now db ctx user _ oc owner Hn).
  apply Hin. by intros ->.
Qed.

(** every outcome of an authenticated request, allowed or denied, is
    attributed to no organization or to one the caller is an unexpired member
    of; an allowed one under an impersonated view is attributed to the
    organization the view is anchored to. *)
Theorem outcome_attributed_to_own_org
    (row1 : forall A : Type, list A -> option A) now db `{ABI} `{PermissionSource}
    reg iter ctx req c res c' :
  picks_row row1 ->
  rq_UserExternalID req <> "" ->
  @CheckAccess (DbStore row1 now db) _ _ reg iter ctx req c = (Ok res, c') ->
  rs_OrgID res = "" \/
  exists user, user ∈ db_users db /\ u_ExternalID user = rq_UserExternalID req /\
    active_member now db (u_ID user) (rs_OrgID res) /\
    (rs_Allowed res = true -> forall v, ctx_viewscope ctx = Some v -> rs_OrgID res = v).
Proof.
  intros Hrow Hu Hc.
  destruct (@CheckAccess_org (DbStore row1 now db) _ _ reg iter ctx req c res c' Hu Hc)
    as [?|(user & Hv & Ho)]; [by left|]. clear Hc.
  destruct (decide (rs_OrgID res = "")) as [?|Hne]; [by left|right]. exists user.
  apply (@resolveAndValidateUser_Next (DbStore row1 now db)) in Hv as (Hv & _ & _).
  apply (user_Ok row1 Hrow db) in Hv as [? ?]. split_and!; [done|done|..].
  - destruct Ho as [[_ Ho]|(org & oc & Hr & ->)].
    + rewrite Ho in Hne |- *. by apply (callerOrg_active row1 now db).
    + apply (scoped_orgs_active row1 now db ctx user _ oc _
        (proj1 (@resolveOrgContextForRequest_Next (DbStore row1 now db) _ _ _ _ _ Hr))).
      by eapply (chosen_org_active row1 now db ctx Hrow).
  - intros Ha v Hvs. destruct Ho as [[Hd _]|(org & oc & Hr & ->)]; [congruence|].
    eapply (scoped_orgs_active row1 now db ctx user _ oc _
        (proj1 (@resolveOrgContextForRequest_Next (DbStore row1 now db) _ _ _ _ _ Hr))); [|done].
    by eapply (chosen_org_active row1 now db ctx Hrow).
Qed.

(** an allowed eth_getLogs names at least one address, and every address
    of its filter is a precompile no organization owns or belongs to an
    organization the caller is an unexpired member of, and is covered by the
    caller's permissions. *)
Theorem get_logs_confined
    (row1 : forall A : Type, list A -> option A) now db `{ABI} `{PermissionSource}
    reg iter ctx req c res c' :
  picks_row row1 ->
  rq_UserExternalID req <> "" -> isOrgFreeMetadata (rq_Method req) = false ->
  EffectiveMethod req = "eth_getLogs" ->
  @CheckAccess (DbStore row1 now db) _ _ reg iter ctx req c = (Ok res, c') ->
  rs_Allowed res = true ->
  exists user org orgCtx perms filterObj,
    @decided_for (DbStore row1 now db) _ iter ctx req c c' res user org orgCtx perms /\
    rq_Params req !! 0 = Some (AObj filterObj) /\
    extractGetLogsAddresses filterObj <> [] /\
    forall a, a ∈ extractGetLogsAddresses filterObj ->
      let key := ToLower (TrimSpace a) in
      @checkLogAddress (DbStore row1 now db) perms a = None /\
      (key = "" \/
       (owners db key = [] /\ IsPrecompileAddress key = true) \/
       (exists o, o ∈ owners db key /\ (o = "" \/ active_member now db (u_ID user) o))).
Proof.
  intros Hrow Hu Hm Hl Hc Ha.
  destruct (@allowed_decided (DbStore row1 now db) _ _ _ _ _ _ _ _ _ Hc Ha Hu Hm)
    as (user & org & oc & perms & Hdf & Hg). clear Hc Ha Hm Hu.
  pose proof (df_org _ _ _ _ _ _ _ _ _ _ Hdf) as Hr.
  apply (@resolveOrgContextForRequest_Next (DbStore row1 now db)) in Hr as (Hn & _ & _).
  destruct Hg as [_ Hv|Hx|Hx|Hx|? Hx|Hx]; try (by destruct Hx).
  apply (@validateGetLogs_None (DbStore row1 now db)) in Hv as (f & Hf & Hne & Hall).
  exists user, org, oc, perms, f. split; [exact Hdf|]. split_and!; [done|done|]. clear Hdf.
  intros a Hin. destruct (Hall a Hin) as [Hok Hck]. split; [done|].
  destruct Hok as [?|(owner & Ho & Hw)]; [by left|right].
  apply (owner_Ok row1 Hrow db) in Ho as [[Hnil ->]|Ho].
  - left. destruct Hw as [[_ ?]|[Hw _]]; done.
  - right. exists owner. split; [done|]. destruct Hw as [[? _]|[_ Hw]]; [by left|right].
    by apply (scoped_orgs_active row1 now db ctx user _ oc owner Hn).
Qed.

(** C3: a call, gas estimate or transaction with calldata on a contract is
    allowed only on one of the four grounds (grant, unowned precompile, own
    pre-registration, own deployment); where the ground restricts functions
    the selector must be listed, and a listed rule's parameter constraints
    must hold against the caller's linked addresses. *)
Theorem contract_calls_are_covered
    `{Store} `{ABI} `{PermissionSource} reg iter ctx req c res c' :
  rq_UserExternalID req <> "" -> isOrgFreeMetadata (rq_Method req) = false ->
  contains ["eth_call"; "eth_estimateGas"; "eth_sendTransaction"] (EffectiveMethod req) = true ->
  IsContractDeployment (EffectiveMethod req) (rq_Params req) = false ->
  isValueTransferParams (rq_Params req) = false -> rq_TargetAddress req <> "" ->
  CheckAccess reg iter ctx req c = (Ok res, c') -> rs_Allowed res = true ->
  exists user org orgCtx perms a,
    decided_for iter ctx req c c' res user org orgCtx perms /\
    access_basis req user perms (oc_userOrgIDs orgCtx) a /\
    (rq_FunctionSelector req = "" -> ca_Functions a = None) /\
    (rq_FunctionSelector req <> "" ->
     functionsAllow (ca_Functions a) (rq_FunctionSelector req) = true /\
     forall rule, functionsRule (ca_Functions a) (rq_FunctionSelector req) = Some rule ->
       fr_ParamRules rule = [] \/
       exists calldata addrs contract,
         judgedCalldata req = Some calldata /\
         GetLinkedEthAddresses (rq_UserExternalID req) = Ok addrs /\
         GetContractByAddress (o_ID org) (ToLower (rq_TargetAddress req)) = Ok contract /\
         ValidateParamRules rule calldata
           (match contract with Some c => c_ABI c | None => "" end) addrs = None).
Proof.
  intros Hu Hm Hcall Hd Hv Ht Hc Ha.
  destruct (allowed_decided _ _ _ _ _ _ _ Hc Ha Hu Hm) as (user & org & oc & perms & Hdf & Hg).
  clear Hc Ha Hm Hu.
  destruct (call_contract_gate _ _ _ _ _ Hg Hcall Hd Hv Ht) as (a & Hb & Hck).
  destruct (validateFunctionSelector_Next _ _ _ _ (ac_function _ _ _ _ Hck)) as [Hf1 Hf2].
  exists user, org, oc, perms, a. split; [exact Hdf|]. split; [exact Hb|]. clear Hdf Hb. auto.
Qed.

(** a proxy-upgrade transaction is allowed only with the upgrade claim on
    the proxy, and only to an implementation the organization owns. *)
Theorem proxy_upgrades_confined
    `{Store} `{ABI} `{PermissionSource} reg iter ctx req c res c' calldata :
  rq_UserExternalID req <> "" -> isOrgFreeMetadata (rq_Method req) = false ->
  EffectiveMethod req = "eth_sendTransaction" ->
  IsContractDeployment (EffectiveMethod req) (rq_Params req) = false ->
  isValueTransferParams (rq_Params req) = false -> rq_TargetAddress req <> "" ->
  extractCalldata (EffectiveMethod req) (rq_Params req) = Some calldata ->
  4 <= length calldata -> IsUpgradeSelector (EncodeToString (take 4 calldata)) = true ->
  CheckAccess reg iter ctx req c = (Ok res, c') -> rs_Allowed res = true ->
  exists user org orgCtx perms a impl,
    decided_for iter ctx req c c' res user org orgCtx perms /\
    access_basis req user perms (oc_userOrgIDs orgCtx) a /\ ClaimUpgrade ∈ ca_Claims a /\
    extractImplementationAddress (EncodeToString (take 4 calldata)) calldata = Ok impl /\
    IsAddressOwnedByOrg impl (o_ID org) = Ok true.
Proof.
  intros Hu Hm He Hd Hv Ht Hcd Hlen Hsel Hc Ha.
  destruct (allowed_decided _ _ _ _ _ _ _ Hc Ha Hu Hm) as (user & org & oc & perms & Hdf & Hg).
  clear Hc Ha Hm Hu.
  assert (Hcall : contains ["eth_call"; "eth_estimateGas"; "eth_sendTransaction"]
                    (EffectiveMethod req) = true) by (rewrite He; reflexivity).
  destruct (call_contract_gate _ _ _ _ _ Hg Hcall Hd Hv Ht) as (a & Hb & Hck).
  destruct (validateProxyUpgrade_Next _ _ _ _ _ Hcd Hlen Hsel (ac_upgrade _ _ _ _ Hck He))
    as (Hcl & impl & Hi & Ho).
  exists user, org, oc, perms, a, impl. split_and!; assumption.
Qed.

(** C6: the positive path of a plain eth_call. Given a request that no global
    block stops (no blocked method, no multicall) and that carries no state
    override, by a caller who is known, KYC'd and not banned, whose effective
    method is eth_call (and neither metadata nor a storage read), that has a
    target, is no contract creation, names no required claim and asks for no
    past state; given that the organization of the request resolves, that the
    caller's permissions there resolve and hold the method as it was called, and
    that they have an entry for the target without a function list: then the
    decision is to allow, attributed to that organization and user and carrying
    the API key of these permissions. *)
Theorem granted_call_is_allowed
    `{Store} `{ABI} `{PermissionSource} reg iter ctx req c user org oc perms c' a :
  checkGlobalBlocks reg req = None -> checkStateOverrides reg req = None ->
  rq_UserExternalID req <> "" -> isOrgFreeMetadata (rq_Method req) = false ->
  EffectiveMethod req = "eth_call" -> anyMethodToJudge req isStorageReadMethod = false ->
  IsContractDeployment (EffectiveMethod req) (rq_Params req) = false ->
  rq_TargetAddress req <> "" -> rq_RequiredClaims req = [] -> historicalStateQuery req = false ->
  resolveAndValidateUser req = Ok (Next user) ->
  resolveOrgContextForRequest ctx req user = Ok (Next (org, oc)) ->
  resolvePermissionsForRequest iter ctx req user org c = (Ok perms, c') ->
  HasMethod reg perms (rq_Method req) = true ->
  ep_ContractAccess perms !! ToLower (rq_TargetAddress req) = Some a -> ca_Functions a = None ->
  CheckAccess reg iter ctx req c = (Ok (stamp org user (allowIn org user perms)), c').
Proof.
  intros Hg Ho Hu Hm He Hs Hd Ht Hrc Hh Hv Hr Hp Hhm Hacc Hf.
  assert (Hop : ClassifyOperation (EffectiveMethod req) (rq_Params req) = "").
  { revert Hd. rewrite He. unfold ClassifyOperation, IsContractDeployment.
    vm_compute (contains _ _). cbn [negb]. by destruct (ClassifyCallShape _). }
  unfold CheckAccess. rewrite Hg, Ho, decide_False by exact Hu. clear Hg Ho.
  unfold mbind, stM_bind, lift. rewrite Hv. unfold checkHistoricalStateQuery. rewrite Hh, Hm, Hr.
  unfold checkWithResolvedOrg, mbind, stM_bind, lift. rewrite Hp.
  assert (Hw : fst (checkWithPermissions reg req user org perms oc) = Ok (allowIn org user perms));
    [|rewrite Hw; reflexivity].
  clear Hp Hr Hv Hh Hm. unfold checkWithPermissions, checkMethodAllowed. rewrite Hhm. clear Hhm.
  unfold mbind, stM_bind, get. cbn beta iota. unfold checkEthGetLogsAccess.
  rewrite decide_False by (rewrite He; discriminate).
  rewrite Hs, andb_false_r, Hop, decide_False by discriminate.
  unfold classifyValueTransferCarveout, classifyBasicAddressQueryCarveout.
  rewrite He, Hs, (decide_False _ _ Ht). cbn [negb].
  replace (contains ["eth_sendTransaction"; "eth_estimateGas"] "eth_call") with false by reflexivity.
  replace (isBasicAddressQuery "eth_call") with false by reflexivity.
  rewrite andb_false_r. cbn [andb]. unfold mret, stM_ret. cbn beta iota.
  unfold validateContractAccess, mbind, stM_bind, lift.
  rewrite (baseContractAccess_granted req perms _ a Hacc). cbn [deployerAutoGrant].
  replace (negb (bool_decide ("" = "")) && negb (hasClaim (ca_Claims a) "")) with false
    by reflexivity.
  rewrite (checkResolvedAccess_unrestricted req org a Hf Hs) by (rewrite He; discriminate).
  unfold checkAdditionalRequiredClaims. rewrite Hrc. reflexivity.
Qed.

(** the permissions a decision uses are either the resolver's answer for
    this user and organization, or an unexpired cached answer for them that a
    bypassing request never uses; an answer the resolver marks as not
    cacheable (or obtained by a bypassing request) is not stored, and the
    cache stays reachable, so its invariant holds along every sequence of
    requests. *)
Theorem permissions_from_live_source
    `{Store} `{ABI} `{PermissionSource} iter ctx req user org c perms c' :
  enumerates iter -> cache_reachable iter (ctl_cache c) ->
  resolvePermissionsForRequest iter ctx req user org c = (Ok perms, c') ->
  cache_reachable iter (ctl_cache c') /\
  ((exists cacheable,
      ResolvePermissionsCacheable (u_ID user) (o_ID org) = Ok (perms, cacheable) /\
      (cacheable = false \/ rq_BypassCache req = true -> ctl_cache c' = ctl_cache c)) \/
   (rq_BypassCache req = false /\
    cacheKey (ep_UserID perms) (ep_OrgID perms) = cacheKey (u_ID user) (o_ID org) /\
    (ep_ExpiresAt perms <> zeroTime -> (ctx_now ctx <= ep_ExpiresAt perms)%Z))).
Proof.
  intros Hi Hre. unfold resolvePermissionsForRequest.
  destruct (rq_BypassCache req) eqn:Eb; cbn [negb andb].
  - destruct (ResolvePermissionsCacheable _ _) as [[p b]|e] eqn:E; [|done].
    intros [= <- <-]. split; [done|]. left. exists b. auto.
  - destruct (Get _ _ _ _) as [[p|] k] eqn:Eg.
    + intros [= <- <-]. simpl. split; [eapply creach_step; [done|by eapply step_get]|].
      right. split; [done|]. pose proof (cache_reachable_ok _ _ Hi Hre) as Hok.
      apply Get_Some in Eg as (e & He & <- & Hnow).
      destruct (cache_entries_ok _ Hok _ _ He) as [Hk Hexp]. split; [done|].
      intros Hz%Hexp. lia.
    + assert (Hk : k = ctl_cache c).
      { revert Eg. unfold Get. destruct (ca_entries _ !! _) as [e|]; [|by intros [= <-]].
        destruct (_ <? _)%Z; [by intros [= <-]|done]. }
      subst k. destruct (ResolvePermissionsCacheable _ _) as [[p b]|e] eqn:E; [|done].
      intros [= <- <-]. split.
      * destruct b; simpl; [|done]. eapply creach_step; [done|]. apply step_set.
      * left. exists b. split; [done|]. intros [->|Hx]; [done|discriminate Hx].
Qed.
