(* ===== verification/Trace.v ===== *)
(** * Trace validation: [internal/rbac/trace_validator.go].

    [ValidateTrace] walks the frames of a simulated transaction and checks
    every address it touches against the caller's organizations.  The body of
    each of its two loops is a definition returning a verdict; the loops are
    folds that stop at the first denial, as the source returns from them. *)
From S2P Require Import Prelude GoStrings Methods Models OrgContext.
Local Open Scope string_scope.

(** ** Data *)

(** [tracer.CallTarget]; [Depth > 0] is the only use of the depth. *)
Record CallTarget := {
  ct_Type : string; ct_From : string; ct_To : string; ct_Depth : Z; ct_Error : string;
  ct_StorageAddress : string; ct_Input : string }.

Record TraceResult := {
  tr_CallTargets : list CallTarget; tr_HasCreate : bool; tr_HasCreate2 : bool }.

Record CreateTarget := { crt_Type : string; crt_Address : string; crt_From : string }.

Inductive DenialKind :=
| DenialKindNone | DenialKindForeignOrg | DenialKindUnregistered | DenialKindDeployClaim
| DenialKindCreateForeign | DenialKindDelegateSharedInfra | DenialKindCodehashMismatch
| DenialKindIntraOrgUngranted | DenialKindOutOfScope.

Record TraceValidationResult := {
  tv_Allowed : bool; tv_Reason : string; tv_DenialKind : DenialKind;
  tv_DeniedTarget : string; tv_DeniedOrgID : string;
  tv_CreateTargets : list CreateTarget; tv_ClientAccessTargets : list CallTarget }.

Record SharedInfrastructure := { si_Address : string; si_Codehash : option string }.

(** [traceOptions] *)
Record traceOptions := {
  to_intraOrgGrantScoping : bool;
  to_grantedContracts : gset string;
  to_createdAsOwn : bool;
  to_clientTraceGrants : bool;
  to_freshCreations : gset string;
  to_noCodeRecipients : gset string;
  to_inScope : option (string -> bool) }.

Definition noOptions : traceOptions := {|
  to_intraOrgGrantScoping := false; to_grantedContracts := ∅; to_createdAsOwn := false;
  to_clientTraceGrants := false; to_freshCreations := ∅; to_noCodeRecipients := ∅;
  to_inScope := None |}.

Definition WithIntraOrgGrantScoping (granted : gset string) (o : traceOptions) : traceOptions := {|
  to_intraOrgGrantScoping := true; to_grantedContracts := granted;
  to_createdAsOwn := to_createdAsOwn o; to_clientTraceGrants := to_clientTraceGrants o;
  to_freshCreations := to_freshCreations o; to_noCodeRecipients := to_noCodeRecipients o;
  to_inScope := to_inScope o |}.

Definition WithClientTraceGrantScoping (granted : gset string) (o : traceOptions) : traceOptions := {|
  to_intraOrgGrantScoping := true; to_grantedContracts := granted;
  to_createdAsOwn := to_createdAsOwn o; to_clientTraceGrants := true;
  to_freshCreations := to_freshCreations o; to_noCodeRecipients := to_noCodeRecipients o;
  to_inScope := to_inScope o |}.

Definition WithCreatedContractsAsOwn (o : traceOptions) : traceOptions := {|
  to_intraOrgGrantScoping := to_intraOrgGrantScoping o; to_grantedContracts := to_grantedContracts o;
  to_createdAsOwn := true; to_clientTraceGrants := to_clientTraceGrants o;
  to_freshCreations := to_freshCreations o; to_noCodeRecipients := to_noCodeRecipients o;
  to_inScope := to_inScope o |}.

Definition WithPreflightCreations (addresses : gset string) (o : traceOptions) : traceOptions := {|
  to_intraOrgGrantScoping := to_intraOrgGrantScoping o; to_grantedContracts := to_grantedContracts o;
  to_createdAsOwn := to_createdAsOwn o; to_clientTraceGrants := to_clientTraceGrants o;
  to_freshCreations := addresses; to_noCodeRecipients := to_noCodeRecipients o;
  to_inScope := to_inScope o |}.

Definition WithPreflightValueRecipients (addresses : gset string) (o : traceOptions)
  : traceOptions := {|
  to_intraOrgGrantScoping := to_intraOrgGrantScoping o; to_grantedContracts := to_grantedContracts o;
  to_createdAsOwn := to_createdAsOwn o; to_clientTraceGrants := to_clientTraceGrants o;
  to_freshCreations := to_freshCreations o; to_noCodeRecipients := addresses;
  to_inScope := to_inScope o |}.

Definition WithEvaluationScope (inScope : string -> bool) (o : traceOptions) : traceOptions := {|
  to_intraOrgGrantScoping := to_intraOrgGrantScoping o; to_grantedContracts := to_grantedContracts o;
  to_createdAsOwn := to_createdAsOwn o; to_clientTraceGrants := to_clientTraceGrants o;
  to_freshCreations := to_freshCreations o; to_noCodeRecipients := to_noCodeRecipients o;
  to_inScope := Some inScope |}.

(** [outOfScopeFrame.first]: the first frame wins; an empty address is unset. *)
Definition outOfScopeFrame : Type := string * string.
Definition first (f : outOfScopeFrame) (address orgID : string) : outOfScopeFrame :=
  if decide (fst f = "") then (address, orgID) else f.

Definition normalizeTraceAddr (addr : string) : string :=
  let addr := TrimSpace (ToLower addr) in
  if decide (addr = "") then ""
  else if HasPrefix addr "0x" then addr else "0x" +:+ addr.

(** [addr == "" || addr == "0x" || addr == "0x00..00"] *)
Definition emptyTarget (addr : string) : bool :=
  contains [""; "0x"; "0x0000000000000000000000000000000000000000"] addr.

Definition isCreate (t : CallTarget) : bool := contains ["CREATE"; "CREATE2"] (ct_Type t).

Definition denyTrace (reason : string) (kind : DenialKind) (target : string)
  : TraceValidationResult := {|
  tv_Allowed := false; tv_Reason := reason; tv_DenialKind := kind; tv_DeniedTarget := target;
  tv_DeniedOrgID := ""; tv_CreateTargets := []; tv_ClientAccessTargets := [] |}.

(** What the validator asks of the shared-infrastructure table and of the
    node; the fetcher is nil when [None]. *)
Class TraceEnv := {
  GetSharedInfrastructure : string -> result (option SharedInfrastructure);
  codeFetcher : option (string -> result string);
  (** the order in which [range] visits a set of organizations *)
  rangeOrgs : gset string -> list string }.

Section validate.
Context `{Store} `{TraceEnv}.
Variable userOrgIDs : gset string.
Variable userHasDeploy : bool.
Variable o : traceOptions.

Definition outOfEvaluationScope (owner : string) : bool :=
  match to_inScope o with None => false | Some f => negb (f owner) end.

(** ** Rule 1: created contracts *)
Inductive createVerdict :=
| CreateSkip
| CreateDeny (r : TraceValidationResult)
| CreateOutOfScope (addr owner : string)
| CreateKeep (ct : CreateTarget).

Definition judgeCreate (target : CallTarget) : result createVerdict :=
  if negb (isCreate target) then Ok CreateSkip
  else
    let addr := normalizeTraceAddr (ct_To target) in
    if emptyTarget addr then Ok CreateSkip
    else
      ownerOrgID ← wrap "failed to get contract owner for created address" (GetContractOwnerOrgID addr);
      let foreign := negb (bool_decide (ownerOrgID = "")) && negb (mem userOrgIDs ownerOrgID) in
      if foreign && outOfEvaluationScope ownerOrgID then Ok (CreateOutOfScope addr ownerOrgID)
      else if foreign
      then Ok (CreateDeny (denyTrace "contract access denied" DenialKindCreateForeign addr))
      else if to_clientTraceGrants o && negb (bool_decide (ownerOrgID = "")) &&
              negb (mem (to_grantedContracts o) addr)
      then Ok (CreateDeny (denyTrace "contract access denied" DenialKindIntraOrgUngranted addr))
      else Ok (CreateKeep {| crt_Type := ct_Type target; crt_Address := addr;
                             crt_From := normalizeTraceAddr (ct_From target) |}).

(** [createTargets], [freshCreated] and the out-of-scope frame so far *)
Record createState := {
  cst_targets : list CreateTarget; cst_fresh : gset string; cst_out : outOfScopeFrame }.

Fixpoint createPass (targets : list CallTarget) (s : createState)
  : result (phase TraceValidationResult createState) :=
  match targets with
  | [] => Ok (Next s)
  | target :: rest =>
      v ← judgeCreate target;
      match v with
      | CreateSkip => createPass rest s
      | CreateDeny r => Ok (Done r)
      | CreateOutOfScope addr owner =>
          createPass rest {| cst_targets := cst_targets s; cst_fresh := cst_fresh s;
                             cst_out := first (cst_out s) addr owner |}
      | CreateKeep ct =>
          createPass rest
            {| cst_targets := (cst_targets s ++ [ct])%list;
               cst_fresh := if mem (to_freshCreations o) (crt_Address ct)
                            then {[crt_Address ct]} ∪ cst_fresh s else cst_fresh s;
               cst_out := cst_out s |}
      end
  end.

(** ** Rule 2: call targets *)

(** A loop over organizations that stops at the first hit or error. *)
Fixpoint anyOrg (f : string -> result bool) (orgs : list string) : result bool :=
  match orgs with
  | [] => Ok false
  | org :: rest =>
      b ← f org;
      if (b : bool) then Ok true else anyOrg f rest
  end.

Definition isPreregisteredForAnyOrg (addr : string) : result bool :=
  anyOrg (fun orgID => IsAddressPreregistered orgID addr) (rangeOrgs userOrgIDs).

Inductive frameVerdict :=
| FramePass
| FramePassClient
| FrameOutOfScope (addr owner : string)
| FrameDeny (r : TraceValidationResult).

(** Rule 2b: [Some v] when the shared-infrastructure rules settle the frame. *)
Definition judgeShared (target : CallTarget) (addr : string) : result (option frameVerdict) :=
  sharedRow ← wrap "failed to check shared infrastructure" (GetSharedInfrastructure addr);
  match sharedRow with
  | None => Ok None
  | Some row =>
      if contains ["DELEGATECALL"; "CALLCODE"] (ct_Type target)
      then Ok (Some (FrameDeny (denyTrace ErrContractAccessDenied DenialKindDelegateSharedInfra addr)))
      else match si_Codehash row, codeFetcher with
      | Some hash, Some fetch =>
          if decide (hash = "") then Ok (Some FramePass)
          else match fetch addr with
               | Err _ => Ok None
               | Ok currentHash =>
                   if EqualFold currentHash hash then Ok (Some FramePass)
                   else Ok (Some (FrameDeny (denyTrace ErrContractAccessDenied
                                               DenialKindCodehashMismatch addr)))
               end
      | _, _ => Ok (Some FramePass)
      end
  end.

(** Rule 2c: a frame into a contract of an organization of the caller. *)
Definition judgeOwned (target : CallTarget) (addr : string) : result frameVerdict :=
  let grantAddress :=
    if to_clientTraceGrants o && bool_decide (ct_Type target = "DELEGATECALL")
    then normalizeTraceAddr (ct_StorageAddress target) else addr in
  if to_intraOrgGrantScoping o && negb (mem (to_grantedContracts o) grantAddress) then
    prereg ← (if userHasDeploy
              then wrap "failed to check preregistration" (isPreregisteredForAnyOrg grantAddress)
              else Ok false);
    if (prereg : bool) then Ok FramePass
    else Ok (FrameDeny (denyTrace ErrContractAccessDenied DenialKindIntraOrgUngranted addr))
  else Ok (if to_clientTraceGrants o && (0 <? ct_Depth target)%Z then FramePassClient else FramePass).

(** Rules 2d and 2e: not owned by an organization of the caller. *)
Definition judgeUnowned (target : CallTarget) (addr : string) : result frameVerdict :=
  ownerOrgID ← wrap "failed to get contract owner" (GetContractOwnerOrgID addr);
  if negb (bool_decide (ownerOrgID = "")) && outOfEvaluationScope ownerOrgID
  then Ok (FrameOutOfScope addr ownerOrgID)
  else if negb (bool_decide (ownerOrgID = ""))
  then Ok (FrameDeny (denyTrace ErrContractAccessDenied DenialKindForeignOrg addr))
  else if mem (to_noCodeRecipients o) addr && contains ["CALL"; "SELFDESTRUCT"] (ct_Type target)
  then Ok FramePass
  else Ok (FrameDeny (denyTrace ErrContractAccessDenied DenialKindUnregistered addr)).

Definition judgeFrame (freshCreated createdInTrace : gset string) (target : CallTarget)
  : result frameVerdict :=
  let addr := normalizeTraceAddr (ct_To target) in
  if emptyTarget addr || IsPrecompileAddress addr || mem createdInTrace addr then Ok FramePass
  else
    shared ← judgeShared target addr;
    match shared with
    | Some v => Ok v
    | None =>
        if mem freshCreated addr then Ok FramePass
        else
          isOwnedByUserOrg ← anyOrg (fun orgID =>
            wrap ("failed to check address ownership for org " +:+ orgID)
              (IsAddressOwnedByOrg addr orgID)) (rangeOrgs userOrgIDs);
          if (isOwnedByUserOrg : bool) then judgeOwned target addr else judgeUnowned target addr
    end.

(** [createdInTrace], the client targets and the out-of-scope frame so far *)
Record callState := {
  cas_created : gset string; cas_client : list CallTarget; cas_out : outOfScopeFrame }.

Definition recordCreated (target : CallTarget) (s : callState) : callState :=
  let addr := normalizeTraceAddr (ct_To target) in
  if to_createdAsOwn o && bool_decide (ct_Error target = "") && negb (emptyTarget addr)
  then {| cas_created := {[addr]} ∪ cas_created s; cas_client := cas_client s; cas_out := cas_out s |}
  else s.

Fixpoint callPass (freshCreated : gset string) (targets : list CallTarget) (s : callState)
  : result (phase TraceValidationResult callState) :=
  match targets with
  | [] => Ok (Next s)
  | target :: rest =>
      if isCreate target then callPass freshCreated rest (recordCreated target s)
      else
        v ← judgeFrame freshCreated (cas_created s) target;
        match v with
        | FramePass => callPass freshCreated rest s
        | FramePassClient =>
            callPass freshCreated rest {| cas_created := cas_created s;
              cas_client := (cas_client s ++ [target])%list; cas_out := cas_out s |}
        | FrameOutOfScope addr owner =>
            callPass freshCreated rest {| cas_created := cas_created s; cas_client := cas_client s;
              cas_out := first (cas_out s) addr owner |}
        | FrameDeny r => Ok (Done r)
        end
  end.

(** ** [ValidateTrace] *)
Definition allowTrace (creates : list CreateTarget) (client : list CallTarget)
  : TraceValidationResult := {|
  tv_Allowed := true; tv_Reason := ""; tv_DenialKind := DenialKindNone; tv_DeniedTarget := "";
  tv_DeniedOrgID := ""; tv_CreateTargets := creates; tv_ClientAccessTargets := client |}.

Definition ValidateTrace (trace : option TraceResult) : result TraceValidationResult :=
  match trace with
  | None => Ok (allowTrace [] [])
  | Some trace =>
      let start := {| cst_targets := []; cst_fresh := ∅; cst_out := ("", "") |} in
      rule1 ←
        (if tr_HasCreate trace || tr_HasCreate2 trace then
           if negb userHasDeploy
           then Ok (Done (denyTrace "runtime contract creation requires deploy claim"
                            DenialKindDeployClaim ""))
           else createPass (tr_CallTargets trace) start
         else Ok (Next start));
      match rule1 with
      | Done r => Ok r
      | Next s =>
          rule2 ← callPass (cst_fresh s) (tr_CallTargets trace)
                    {| cas_created := ∅; cas_client := []; cas_out := cst_out s |};
          match rule2 with
          | Done r => Ok r
          | Next t =>
              if negb (bool_decide (fst (cas_out t) = "")) then
                Ok {| tv_Allowed := false; tv_Reason := ErrContractAccessDenied;
                      tv_DenialKind := DenialKindOutOfScope; tv_DeniedTarget := fst (cas_out t);
                      tv_DeniedOrgID := snd (cas_out t); tv_CreateTargets := cst_targets s;
                      tv_ClientAccessTargets := [] |}
              else Ok (allowTrace (cst_targets s) (cas_client t))
          end
      end
  end.
End validate.

(** ** What an allowed trace proves *)
Section sound.
Context `{HS : Store} `{HT : TraceEnv}.
Context (userOrgIDs : gset string) (userHasDeploy : bool) (o : traceOptions).

(** [range] visits every organization of the set, and no other. *)
Definition ranges_all : Prop := forall s org, org ∈ rangeOrgs s <-> org ∈ s.

(** A successful creation of [addr]. *)
Definition created_at (addr : string) (t : CallTarget) : Prop :=
  isCreate t = true /\ ct_Error t = "" /\ normalizeTraceAddr (ct_To t) = addr.

(** The address whose grant the intra-organization rule looks at. *)
Definition grantAddressOf (t : CallTarget) : string :=
  if to_clientTraceGrants o && bool_decide (ct_Type t = "DELEGATECALL")
  then normalizeTraceAddr (ct_StorageAddress t) else normalizeTraceAddr (ct_To t).

(** The grounds on which a frame may appear in an allowed trace. *)
Inductive frame_ok (fresh : gset string) (earlier : list CallTarget) (t : CallTarget) : Prop :=
| frame_empty : emptyTarget (normalizeTraceAddr (ct_To t)) = true -> frame_ok fresh earlier t
| frame_precompile :
    IsPrecompileAddress (normalizeTraceAddr (ct_To t)) = true -> frame_ok fresh earlier t
| frame_created t0 :
    to_createdAsOwn o = true -> t0 ∈ earlier -> created_at (normalizeTraceAddr (ct_To t)) t0 ->
    frame_ok fresh earlier t
| frame_shared row :
    GetSharedInfrastructure (normalizeTraceAddr (ct_To t)) = Ok (Some row) ->
    ct_Type t <> "DELEGATECALL" -> ct_Type t <> "CALLCODE" ->
    (forall hash fetch, si_Codehash row = Some hash -> hash <> "" -> codeFetcher = Some fetch ->
       exists h, fetch (normalizeTraceAddr (ct_To t)) = Ok h /\ EqualFold h hash = true) ->
    frame_ok fresh earlier t
| frame_fresh : normalizeTraceAddr (ct_To t) ∈ fresh -> frame_ok fresh earlier t
| frame_owned org :
    org ∈ userOrgIDs -> IsAddressOwnedByOrg (normalizeTraceAddr (ct_To t)) org = Ok true ->
    (to_intraOrgGrantScoping o = true ->
       grantAddressOf t ∈ to_grantedContracts o \/
       userHasDeploy = true /\ exists org', org' ∈ userOrgIDs /\
         IsAddressPreregistered org' (grantAddressOf t) = Ok true) ->
    frame_ok fresh earlier t
| frame_no_code :
    GetContractOwnerOrgID (normalizeTraceAddr (ct_To t)) = Ok "" ->
    normalizeTraceAddr (ct_To t) ∈ to_noCodeRecipients o ->
    ct_Type t = "CALL" \/ ct_Type t = "SELFDESTRUCT" -> frame_ok fresh earlier t.

Lemma anyOrg_true f orgs : anyOrg f orgs = Ok true -> exists org, org ∈ orgs /\ f org = Ok true.
Proof.
  induction orgs as [|org orgs IH]; simpl; [done|].
  intros (b & Hb & Hr)%bind_Ok. destruct b; [exists org; set_solver|].
  destruct (IH Hr) as (org' & ? & ?). exists org'. set_solver.
Qed.

Lemma judgeShared_pass t addr v :
  judgeShared t addr = Ok (Some v) -> (forall r, v <> FrameDeny r) ->
  exists row, GetSharedInfrastructure addr = Ok (Some row) /\
    ct_Type t <> "DELEGATECALL" /\ ct_Type t <> "CALLCODE" /\
    (forall hash fetch, si_Codehash row = Some hash -> hash <> "" -> codeFetcher = Some fetch ->
       exists h, fetch addr = Ok h /\ EqualFold h hash = true).
Proof.
  intros ([row|] & Hg%wrap_Ok & Hr)%bind_Ok Hv; [|done]. exists row.
  destruct (contains _ _) eqn:Ec; [injection Hr as <-; by destruct (Hv _ eq_refl)|].
  apply contains_false in Ec. split; [done|]. split; [set_solver|]. split; [set_solver|].
  intros hash fetch Hh Hne Hf. rewrite Hh, Hf, decide_False in Hr by done.
  destruct (fetch addr) as [h|e]; [|done]. exists h. split; [done|].
  destruct (EqualFold h hash); [done|]. injection Hr as <-. by destruct (Hv _ eq_refl).
Qed.

Lemma judgeShared_scope t addr v :
  judgeShared t addr = Ok (Some v) -> forall a org, v <> FrameOutOfScope a org.
Proof.
  intros (row & _ & Hr)%bind_Ok a org ->. by repeat (case_match; try done).
Qed.

Lemma callPass_denies fresh targets s r :
  callPass userOrgIDs userHasDeploy o fresh targets s = Ok (Done r) ->
  tv_Allowed r = false /\ tv_Reason r = ErrContractAccessDenied.
Proof.
  revert s. induction targets as [|t targets IH]; intros s; simpl; [done|].
  destruct (isCreate t); [apply IH|]. intros (v & Hv & Hr)%bind_Ok.
  destruct v as [| | |r']; [by eapply IH..|]. injection Hr as <-. revert Hv. unfold judgeFrame.
  destruct (_ || _ || _); [done|]. intros (sh & Hs & Hr)%bind_Ok. destruct sh as [v|].
  - injection Hr as ->. apply bind_Ok in Hs as (row & _ & Hs). by repeat (case_match; simplify_eq/=).
  - destruct (mem fresh _); [done|]. apply bind_Ok in Hr as (b & _ & Hr). destruct b.
    + unfold judgeOwned in Hr. destruct (_ && _); [|by repeat (case_match; simplify_eq/=)].
      apply bind_Ok in Hr as ([] & _ & Hr); by simplify_eq/=.
    + apply bind_Ok in Hr as (owner & _ & Hr). by repeat (case_match; simplify_eq/=).
Qed.

Lemma createPass_denies targets s r :
  createPass userOrgIDs o targets s = Ok (Done r) ->
  tv_Allowed r = false /\ tv_Reason r = ErrContractAccessDenied.
Proof.
  revert s. induction targets as [|t targets IH]; intros s; simpl; [done|].
  intros (v & Hv & Hr)%bind_Ok. destruct v as [|r'|a org|ct]; [by eapply IH| |by eapply IH..].
  injection Hr as <-. revert Hv. unfold judgeCreate. repeat (case_match; try done).
  intros (owner & _ & Hr)%bind_Ok. by repeat (case_match; simplify_eq/=).
Qed.

Lemma first_empty f a org : fst (first f a org) = "" -> a = "" /\ fst f = "".
Proof. unfold first. case_decide; simpl; naive_solver. Qed.

(** The checks a created address passed. *)
Definition create_ok (t : CallTarget) : Prop :=
  exists owner, GetContractOwnerOrgID (normalizeTraceAddr (ct_To t)) = Ok owner /\
    (owner = "" \/ owner ∈ userOrgIDs) /\
    (to_clientTraceGrants o = true -> owner <> "" ->
     normalizeTraceAddr (ct_To t) ∈ to_grantedContracts o).

Lemma judgeCreate_keep t ct :
  judgeCreate userOrgIDs o t = Ok (CreateKeep ct) ->
  create_ok t /\ isCreate t = true /\ crt_Address ct = normalizeTraceAddr (ct_To t).
Proof.
  unfold judgeCreate. destruct (isCreate t); [|done]. cbn [negb].
  destruct (emptyTarget _); [done|]. intros (owner & Ho%wrap_Ok & Hr)%bind_Ok.
  destruct (bool_decide (owner = "")) eqn:Eo; cbn [negb andb] in Hr.
  - apply bool_decide_eq_true in Eo. rewrite andb_false_r in Hr. injection Hr as <-.
    split; [|done]. exists owner. split; [done|]. split; [by left|]. by intros _ Hne.
  - destruct (mem userOrgIDs owner) eqn:Em; cbn [negb andb] in Hr; [|by case_match].
    apply mem_true in Em. rewrite andb_true_r in Hr.
    destruct (to_clientTraceGrants o && _) eqn:Eg; [done|]. injection Hr as <-.
    split; [|done]. exists owner. split; [done|]. split; [by right|]. intros Hcg _.
    rewrite Hcg in Eg. cbn [andb] in Eg. by apply negb_false_iff, mem_true in Eg.
Qed.

Lemma judgeCreate_out t a org : judgeCreate userOrgIDs o t = Ok (CreateOutOfScope a org) -> a <> "".
Proof.
  unfold judgeCreate. destruct (isCreate t); [|done]. cbn [negb].
  destruct (emptyTarget _) eqn:Ee; [done|]. intros (owner & _ & Hr)%bind_Ok.
  repeat (case_match; try done). injection Hr as <- <-. intros Hx. by rewrite Hx in Ee.
Qed.

Lemma judgeCreate_skip t :
  judgeCreate userOrgIDs o t = Ok CreateSkip ->
  isCreate t = false \/ emptyTarget (normalizeTraceAddr (ct_To t)) = true.
Proof.
  unfold judgeCreate. destruct (isCreate t); [|auto]. cbn [negb].
  destruct (emptyTarget _); [auto|]. intros (owner & _ & Hr)%bind_Ok.
  by repeat (case_match; try done).
Qed.

Lemma createPass_sound targets : forall s s',
  createPass userOrgIDs o targets s = Ok (Next s') -> fst (cst_out s') = "" ->
  fst (cst_out s) = "" /\
  (forall t, t ∈ targets -> isCreate t = true ->
     emptyTarget (normalizeTraceAddr (ct_To t)) = false -> create_ok t) /\
  (forall a, a ∈ cst_fresh s' -> a ∈ cst_fresh s \/
     a ∈ to_freshCreations o /\ exists t, t ∈ targets /\ isCreate t = true /\
                                         normalizeTraceAddr (ct_To t) = a).
Proof.
  induction targets as [|t targets IH]; intros s s'; simpl.
  { intros [= <-] Hout. split; [done|]. split; [set_solver|auto]. }
  intros (v & Hv & Hr)%bind_Ok Hout. destruct v as [|r|a org|ct]; [|done|..].
  - destruct (IH _ _ Hr Hout) as (? & Hok & Hf). split; [done|]. split.
    + intros t' [->|Hin]%elem_of_cons Hc He; [|by apply Hok].
      apply judgeCreate_skip in Hv as [?|?]; congruence.
    + intros a [?|(? & t' & ? & ?)]%Hf; [by left|]. right. split; [done|]. exists t'. set_solver.
  - apply judgeCreate_out in Hv. destruct (IH _ _ Hr Hout) as (Hx & _).
    apply first_empty in Hx as [? _]. done.
  - apply judgeCreate_keep in Hv as (Hk & Hcr & Ha).
    destruct (IH _ _ Hr Hout) as (? & Hok & Hf). split; [done|]. split.
    + intros t' [->|Hin]%elem_of_cons Hc He; [done|by apply Hok].
    + intros a [Hin|(? & t' & ? & ?)]%Hf; [|right; split; [done|]; exists t'; set_solver].
      simpl in Hin. destruct (mem _ _) eqn:Em; [|by left]. apply mem_true in Em.
      apply elem_of_union in Hin as [->%elem_of_singleton|Hin]; [right|by left].
      split; [done|]. exists t. set_solver.
Qed.
Hypothesis Hrange : ranges_all.

Lemma judgeOwned_pass t v :
  judgeOwned userOrgIDs userHasDeploy o t (normalizeTraceAddr (ct_To t)) = Ok v ->
  (forall r, v <> FrameDeny r) ->
  (forall a b, v <> FrameOutOfScope a b) /\
  (to_intraOrgGrantScoping o = true ->
     grantAddressOf t ∈ to_grantedContracts o \/
     userHasDeploy = true /\ exists org', org' ∈ userOrgIDs /\
       IsAddressPreregistered org' (grantAddressOf t) = Ok true).
Proof.
  unfold judgeOwned. fold (grantAddressOf t). intros Hr Hv.
  destruct (to_intraOrgGrantScoping o) eqn:Es; cbn [andb] in Hr.
  - destruct (mem (to_grantedContracts o) (grantAddressOf t)) eqn:Em; cbn [negb] in Hr.
    + apply mem_true in Em. injection Hr as <-. split; [|auto]. intros. by case_match.
    + apply bind_Ok in Hr as (prereg & Hp & Hr). destruct prereg.
      * injection Hr as <-. split; [done|]. intros _. right. destruct userHasDeploy; [|done].
        split; [done|]. apply wrap_Ok, anyOrg_true in Hp as (org & Ho & Hpr).
        exists org. split; [by apply Hrange|done].
      * injection Hr as <-. by destruct (Hv _ eq_refl).
  - injection Hr as <-. split; [|done]. intros. by case_match.
Qed.

(** One frame of the second loop. *)
Lemma judgeFrame_pass fresh created earlier t v :
  (forall a, a ∈ created -> to_createdAsOwn o = true /\
     exists t0, t0 ∈ earlier /\ created_at a t0) ->
  judgeFrame userOrgIDs userHasDeploy o fresh created t = Ok v ->
  (forall r, v <> FrameDeny r) ->
  (frame_ok fresh earlier t /\ forall a org, v <> FrameOutOfScope a org) \/
  exists a org, v = FrameOutOfScope a org /\ a <> "".
Proof.
  intros Hc. unfold judgeFrame.
  destruct (emptyTarget _) eqn:E1; [intros [= <-]; left; split; [by apply frame_empty|done]|].
  destruct (IsPrecompileAddress _) eqn:E2;
    [intros [= <-]; left; split; [by apply frame_precompile|done]|].
  destruct (mem created _) eqn:E3.
  { intros [= <-]. apply mem_true, Hc in E3 as (? & t0 & ? & ?). left.
    split; [by eapply frame_created|done]. }
  cbn [orb]. intros (sh & Hs & Hr)%bind_Ok Hv. destruct sh as [v'|].
  { injection Hr as ->. destruct (judgeShared_pass _ _ _ Hs Hv) as (row & ? & ? & ? & ?).
    left. split; [by eapply frame_shared|]. by eapply judgeShared_scope. }
  destruct (mem fresh _) eqn:E4.
  { injection Hr as <-. left. split; [apply frame_fresh; by apply mem_true|done]. }
  apply bind_Ok in Hr as (owned & Ho & Hr). destruct owned.
  - apply anyOrg_true in Ho as (org & Hin & Ho%wrap_Ok).
    destruct (judgeOwned_pass t v Hr Hv) as [Hsc Hg]. left. split; [|done].
    apply frame_owned with org; [by apply Hrange|done|done].
  - apply bind_Ok in Hr as (owner & Hg%wrap_Ok & Hr).
    destruct (bool_decide (owner = "")) eqn:Eo; cbn [negb andb] in Hr.
    + apply bool_decide_eq_true in Eo as ->. destruct (mem _ _ && _) eqn:En.
      * apply andb_true_iff in En as [En%mem_true Et%contains_true]. left.
        injection Hr as <-. split; [|done]. apply frame_no_code; [done|done|set_solver].
      * injection Hr as <-. by destruct (Hv _ eq_refl).
    + destruct (outOfEvaluationScope o owner).
      * injection Hr as <-. right. eexists _, _. split; [done|]. intros Hx.
        rewrite Hx in E1. done.
      * injection Hr as <-. by destruct (Hv _ eq_refl).
Qed.

Lemma callPass_sound fresh targets : forall earlier s s',
  (forall a, a ∈ cas_created s -> to_createdAsOwn o = true /\
     exists t0, t0 ∈ earlier /\ created_at a t0) ->
  callPass userOrgIDs userHasDeploy o fresh targets s = Ok (Next s') -> fst (cas_out s') = "" ->
  fst (cas_out s) = "" /\
  forall pre t post, targets = (pre ++ t :: post)%list -> isCreate t = false ->
    frame_ok fresh (earlier ++ pre)%list t.
Proof.
  induction targets as [|t targets IH]; intros earlier s s' Hc; simpl.
  { intros [= <-] Hout. split; [done|]. intros pre t post Hx. by destruct pre. }
  destruct (isCreate t) eqn:Et.
  - intros Hr Hout. destruct (IH (earlier ++ [t])%list (recordCreated o t s) s') as [Hs Hf]; [|done|done|].
    + intros a Ha. unfold recordCreated in Ha.
      destruct (to_createdAsOwn o && _ && _) eqn:E.
      * apply andb_true_iff in E as [[E1 E2%bool_decide_eq_true]%andb_true_iff _]. simpl in Ha.
        apply elem_of_union in Ha as [->%elem_of_singleton|Ha].
        -- split; [done|]. exists t. split; [set_solver|]. by split.
        -- destruct (Hc a Ha) as (? & t0 & ? & ?). split; [done|]. exists t0. set_solver.
      * destruct (Hc a Ha) as (? & t0 & ? & ?). split; [done|]. exists t0. set_solver.
    + split; [revert Hs; unfold recordCreated; by case_match|].
      intros pre t' post Hx Hn. destruct pre as [|t1 pre]; simplify_list_eq; [congruence|].
      rewrite cons_middle, app_assoc. by eapply Hf.
  - intros (v & Hv & Hr)%bind_Ok Hout.
    assert (Hgo : forall s1, cas_created s1 = cas_created s ->
              callPass userOrgIDs userHasDeploy o fresh targets s1 = Ok (Next s') ->
              fst (cas_out s1) = "" /\ forall pre t' post, targets = (pre ++ t' :: post)%list ->
                isCreate t' = false -> frame_ok fresh (earlier ++ t :: pre)%list t').
    { intros s1 Hcr Hr1. destruct (IH (earlier ++ [t])%list s1 s') as [Hs Hf]; [|done|done|].
      - rewrite Hcr. intros a Ha. destruct (Hc a Ha) as (? & t0 & ? & ?). split; [done|].
        exists t0. set_solver.
      - split; [done|]. intros pre t' post Hx Hn. rewrite cons_middle, app_assoc. by eapply Hf. }
    assert (Hdone : forall s1, fst (cas_out s1) = fst (cas_out s) -> cas_created s1 = cas_created s ->
              callPass userOrgIDs userHasDeploy o fresh targets s1 = Ok (Next s') ->
              frame_ok fresh earlier t -> fst (cas_out s) = "" /\
              forall pre t' post, (t :: targets) = (pre ++ t' :: post)%list ->
                isCreate t' = false -> frame_ok fresh (earlier ++ pre)%list t').
    { intros s1 Ho Hcr Hr1 Hft. destruct (Hgo s1 Hcr Hr1) as [Hs Hf]. rewrite <- Ho.
      split; [done|]. intros pre t' post Hx Hn. destruct pre as [|t1 pre]; simplify_list_eq.
      - done.
      - by eapply Hf. }
    destruct (judgeFrame_pass fresh (cas_created s) earlier t v Hc Hv) as [[Hft Hsc]|(a & org & -> & Ha)].
    + intros r ->. done.
    + destruct v as [| |a org|r]; [..|done].
      * by apply (Hdone s).
      * eapply Hdone; [| |exact Hr|exact Hft]; done.
      * by destruct (Hsc a org).
    + apply Hgo in Hr as [[? ?]%first_empty _]; done.
Qed.
End sound.

(** The two passes together. *)
Lemma allowed_trace_sound `{Store} `{TraceEnv} userOrgIDs userHasDeploy o tr res :
  ranges_all ->
  ValidateTrace userOrgIDs userHasDeploy o (Some tr) = Ok res -> tv_Allowed res = true ->
  (tr_HasCreate tr || tr_HasCreate2 tr = true ->
   userHasDeploy = true /\
   forall t, t ∈ tr_CallTargets tr -> isCreate t = true ->
     emptyTarget (normalizeTraceAddr (ct_To t)) = false -> create_ok userOrgIDs o t) /\
  exists fresh,
    (forall a, a ∈ fresh -> a ∈ to_freshCreations o /\ exists t, t ∈ tr_CallTargets tr /\
       isCreate t = true /\ normalizeTraceAddr (ct_To t) = a) /\
    forall pre t post, tr_CallTargets tr = (pre ++ t :: post)%list -> isCreate t = false ->
      frame_ok userOrgIDs userHasDeploy o fresh pre t.
Proof.
  intros Hrange (r1 & H1 & Hr)%bind_Ok Ha. destruct r1 as [r|s1].
  { injection Hr as <-. exfalso. destruct (_ || _); [|done].
    destruct (negb _); [injection H1 as <-; discriminate Ha|].
    apply createPass_denies in H1 as [? _]. congruence. }
  apply bind_Ok in Hr as (r2 & H2 & Hr). destruct r2 as [r|s2].
  { injection Hr as <-. apply callPass_denies in H2 as [? _]. congruence. }
  destruct (bool_decide _) eqn:Eo; cbn [negb] in Hr; [|injection Hr as <-; discriminate Ha].
  apply bool_decide_eq_true in Eo.
  apply (callPass_sound _ _ _ Hrange _ _ []) in H2 as [Hout Hframes]; [|set_solver|done].
  destruct (tr_HasCreate tr || tr_HasCreate2 tr).
  - destruct userHasDeploy; [|done]. cbn [negb] in H1.
    apply createPass_sound in H1 as (_ & Hok & Hf); [|done]. split; [done|].
    exists (cst_fresh s1). split; [|done]. intros a [Hx|?]%Hf; [set_solver|done].
  - split; [done|]. injection H1 as <-. exists ∅. split; [set_solver|done].
Qed.

(** C4: trace isolation. In an allowed trace every frame that is not a creation
    stands on one of these grounds: its target is empty or a precompile; it was
    created earlier in this very trace and the options count creations as own;
    it is attested shared infrastructure, whichever organization registered it,
    entered neither by DELEGATECALL nor by CALLCODE and with the attested code
    hash when there is one and code can be fetched; it is a fresh creation of
    the trace the options announce; it is owned by an organization of the caller
    and, when the options scope grants, granted or preregistered there; or
    nobody owns it, the options list it as an account without code, and the
    frame is a CALL or a SELFDESTRUCT. A contract that only other organizations
    own is therefore entered as shared infrastructure, a precompile or a
    creation of the trace, and in no other way. When the trace reports a
    creation by its flags, the caller holds the deploy claim and every created
    address that is not empty is owned by nobody or by an organization of the
    caller. *)
Theorem allowed_trace_is_isolated `{Store} `{TraceEnv} userOrgIDs userHasDeploy o tr res :
  ranges_all ->
  ValidateTrace userOrgIDs userHasDeploy o (Some tr) = Ok res -> tv_Allowed res = true ->
  (tr_HasCreate tr || tr_HasCreate2 tr = true ->
   userHasDeploy = true /\
   forall t, t ∈ tr_CallTargets tr -> isCreate t = true ->
     emptyTarget (normalizeTraceAddr (ct_To t)) = false -> create_ok userOrgIDs o t) /\
  exists fresh,
    (forall a, a ∈ fresh -> a ∈ to_freshCreations o /\ exists t, t ∈ tr_CallTargets tr /\
       isCreate t = true /\ normalizeTraceAddr (ct_To t) = a) /\
    forall pre t post, tr_CallTargets tr = (pre ++ t :: post)%list -> isCreate t = false ->
      frame_ok userOrgIDs userHasDeploy o fresh pre t.
Proof. apply allowed_trace_sound. Qed.

(** trace denials are opaque: the reason a caller sees is one of two
    constants, whichever address, organization or rule caused the denial. *)
Theorem trace_denials_are_opaque `{Store} `{TraceEnv} userOrgIDs userHasDeploy o trace res :
  ValidateTrace userOrgIDs userHasDeploy o trace = Ok res -> tv_Allowed res = false ->
  tv_Reason res = ErrContractAccessDenied \/
  tv_Reason res = "runtime contract creation requires deploy claim" /\ userHasDeploy = false.
Proof.
  destruct trace as [tr|]; [|by intros [= <-]]. intros (r1 & H1 & Hr)%bind_Ok Ha.
  destruct r1 as [r|s1].
  - injection Hr as <-. destruct (_ || _); [|done]. destruct userHasDeploy; cbn [negb] in H1.
    + left. by apply createPass_denies in H1 as [_ ?].
    + injection H1 as <-. by right.
  - left. apply bind_Ok in Hr as (r2 & H2 & Hr). destruct r2 as [r|s2].
    + injection Hr as <-. by apply callPass_denies in H2 as [_ ?].
    + clear H1. destruct (bool_decide _); cbn [negb] in Hr; injection Hr as <-; [discriminate Ha|done].
Qed.
