(* ===== verification/Deployments.v ===== *)
(** * Deployments, provisioning and invalidation: [pending_deployments.go] and
    the operations of [access.go] after the access decision.

    A plain CREATE is pre-registered for its organization before it is
    forwarded, tracked by transaction hash, and turned into a contract record
    (or removed) when its receipt arrives.  The state is the whole server side
    of these operations: the controller with its in-memory cache, the tracker,
    and the database of [Writes.v].  Errors the source logs and drops are
    dropped here too. *)
From S2P Require Import Prelude GoStrings Methods Models OrgContext Resolver ResolverProps.
From S2P Require Import Cache SqlCache PublishGuard ResolverGuard Db Writes Access.
Local Open Scope string_scope.

(** ** [PendingDeploymentTracker] *)
Record PendingDeployment := {
  dp_TxHash : string; dp_OrgID : string; dp_SubmittedAt : Z; dp_IsPlainCreate : bool;
  dp_PreRegisteredAddr : string; dp_DeployerUserID : string }.

Record PendingDeploymentTracker := {
  tk_pending : gmap string PendingDeployment; tk_maxAge : Z }.

Definition NewPendingDeploymentTracker (maxAge : Z) : PendingDeploymentTracker :=
  {| tk_pending := ∅; tk_maxAge := maxAge |}.

Definition set_pending (t : PendingDeploymentTracker) (m : gmap string PendingDeployment)
  : PendingDeploymentTracker := {| tk_pending := m; tk_maxAge := tk_maxAge t |}.

(** A nil deployment is [None]. *)
Definition Tracker_Track (txHash : string) (deployment : option PendingDeployment)
    (t : PendingDeploymentTracker) : PendingDeploymentTracker :=
  match deployment with
  | None => t
  | Some d => if decide (txHash = "") then t else set_pending t (<[txHash := d]> (tk_pending t))
  end.

Definition Tracker_Get (txHash : string) (t : PendingDeploymentTracker)
  : option PendingDeployment * PendingDeploymentTracker :=
  if decide (txHash = "") then (None, t)
  else match tk_pending t !! txHash with
       | None => (None, t)
       | Some d => (Some d, set_pending t (delete txHash (tk_pending t)))
       end.

Definition Tracker_Peek (txHash : string) (t : PendingDeploymentTracker)
  : option PendingDeployment :=
  if decide (txHash = "") then None else tk_pending t !! txHash.

Definition Tracker_Remove (txHash : string) (t : PendingDeploymentTracker)
  : PendingDeploymentTracker :=
  if decide (txHash = "") then t else set_pending t (delete txHash (tk_pending t)).

(** Removes the entries submitted before [now - maxAge]; returns their number. *)
Definition Tracker_Cleanup (now : Z) (t : PendingDeploymentTracker)
  : nat * PendingDeploymentTracker :=
  let kept := filter (fun kv => (now - tk_maxAge t <= dp_SubmittedAt kv.2)%Z) (tk_pending t) in
  (size (tk_pending t) - size kept, set_pending t kept).

Definition Tracker_Size (t : PendingDeploymentTracker) : nat := size (tk_pending t).

Definition Tracker_Clear (t : PendingDeploymentTracker) : PendingDeploymentTracker :=
  set_pending t ∅.

(** ** The server side *)
Record Server := {
  sv_ctl : Controller; sv_tracker : PendingDeploymentTracker; sv_tables : Tables }.

Definition set_ctl (s : Server) (c : Controller) : Server :=
  {| sv_ctl := c; sv_tracker := sv_tracker s; sv_tables := sv_tables s |}.
Definition set_tracker (s : Server) (t : PendingDeploymentTracker) : Server :=
  {| sv_ctl := sv_ctl s; sv_tracker := t; sv_tables := sv_tables s |}.
Definition on_cache (f : Cache -> Cache) (s : Server) : Server :=
  set_ctl s (set_cache (sv_ctl s) (f (ctl_cache (sv_ctl s)))).

(** A store call. *)
Definition storeCall {A} (m : stM Tables A) : stM Server A := fun s =>
  let '(r, t) := m (sv_tables s) in
  (r, {| sv_ctl := sv_ctl s; sv_tracker := sv_tracker s; sv_tables := t |}).

(** A call whose error is logged and dropped; the verdict tells whether it
    succeeded. *)
Definition attempt {A} (m : stM Server A) : stM Server bool := fun s =>
  let '(r, s') := m s in (Ok (is_ok r), s').

Section operations.
Variable row1 : forall A : Type, list A -> option A.
Arguments row1 {A}.
Variable retriable : string -> bool.
Variable now : Z.

(** ** Invalidation *)
Definition ctl_InvalidateUser (userID : string) : stM Server unit := fun s =>
  storeCall (db_InvalidateCacheForUser userID) (on_cache (InvalidateUser userID) s).

Definition ctl_InvalidateOrg (orgID : string) : stM Server unit := fun s =>
  storeCall (db_invalidateCacheForOrg orgID) (on_cache (InvalidateOrg orgID) s).

Definition InvalidateOrgLocalCache (orgID : string) (s : Server) : Server :=
  on_cache (InvalidateOrg orgID) s.

(** [GetGroup] *)
Definition db_GetGroup (d : Database) (id : string) : result (option Group) :=
  query d "GetGroup" "failed to get group"
    (row1 (List.filter (fun g => bool_decide (g_ID g = id)) (db_groups d))).

Definition ctl_InvalidateGroup (groupID : string) : stM Server unit := fun s =>
  let s := match db_GetGroup (t_db (sv_tables s)) groupID with
           | Ok (Some group) => on_cache (InvalidateOrg (g_OrgID group)) s
           | _ => s
           end in
  storeCall (db_invalidateCacheForGroup groupID) s.

(** ** Provisioning *)

(** [freshID] is the new user's [uuid.New()]. *)
Definition EnsureUserExists (freshID externalID : string) (kyc skipDefaultGroup : bool)
  : stM Server User :=
  s ← get;
  user ← lift (db_GetUserByExternalID (@row1) (t_db (sv_tables s)) externalID);
  match user with
  | Some user => mret user
  | None =>
      let user := {| u_ID := freshID; u_ExternalID := externalID; u_KYC := kyc;
                     u_Banned := false |} in
      _ ← storeCall (db_CreateUser user);
      _ ← (if skipDefaultGroup then mret true
           else attempt (storeCall (db_CreateMembership
                  {| um_UserID := freshID; um_GroupID := DefaultGroupID; um_ExpiresAt := None |})));
      mret user
  end.

(** ** Deployments *)
Definition TrackPlainCreateDeployment (txHash orgID deployerUserID preRegisteredAddr : string)
    (s : Server) : Server :=
  if contains [txHash; orgID; preRegisteredAddr] "" then s
  else set_tracker s (Tracker_Track txHash
         (Some {| dp_TxHash := txHash; dp_OrgID := orgID; dp_SubmittedAt := now;
                  dp_IsPlainCreate := true; dp_PreRegisteredAddr := preRegisteredAddr;
                  dp_DeployerUserID := deployerUserID |}) (sv_tracker s)).

(** The contract record of a mined deployment. *)
Definition minedContract (contractID contractAddress : string) (d : PendingDeployment)
  : Contract := {|
  c_ID := contractID; c_OrgID := dp_OrgID d; c_Address := ToLower contractAddress; c_ABI := "";
  c_DeployedByUserID := if decide (dp_DeployerUserID d = "") then None
                        else Some (dp_DeployerUserID d);
  c_AllowVisibleToUnlock := false |}.

(** The registration of a mined contract: record, grant, invalidation; every
    error is logged and dropped. *)
Definition registerMined (contractID grantID contractAddress : string) (d : PendingDeployment)
  : stM Server unit :=
  created ← attempt (storeCall (db_CreateContract (minedContract contractID contractAddress d)));
  if negb created || bool_decide (dp_DeployerUserID d = "") then mret tt
  else
    granted ← attempt (storeCall (db_GrantContractToDeployerGroup (@row1) now retriable grantID
                         (dp_OrgID d) contractID (dp_DeployerUserID d)));
    if (granted : bool) then
      _ ← attempt (ctl_InvalidateUser (dp_DeployerUserID d));
      mret tt
    else mret tt.

(** [contractID] and [grantID] are fresh [uuid]s.  A receipt address shorter
    than ten bytes makes the slice [contractAddress[:10]] of the source
    panic. *)
Definition NotifyDeploymentMined (contractID grantID txHash contractAddress : string)
  : stM Server unit := fun s =>
  let '(deployment, t) := Tracker_Get txHash (sv_tracker s) in
  let s := set_tracker s t in
  match deployment with
  | None => (Ok tt, s)
  | Some d =>
      if negb (dp_IsPlainCreate d) || bool_decide (dp_PreRegisteredAddr d = "") then (Ok tt, s)
      else
        let removePreregistration :=
          attempt (storeCall (db_DeletePreregisteredAddressByAddress (dp_PreRegisteredAddr d))) in
        if decide (contractAddress = "") then
          (_ ← removePreregistration;
           Prelude.fail "plain CREATE deployment reverted or produced no contract address") s
        else if Nat.ltb (String.length contractAddress) 10
        then (Err "panic: slice bounds out of range [:10]", s)
        else
          (_ ← registerMined contractID grantID contractAddress d;
           _ ← removePreregistration;
           mret tt) s
  end.

Definition GetPendingDeployment (txHash : string) (s : Server) : option PendingDeployment :=
  Tracker_Peek txHash (sv_tracker s).

Definition PendingDeploymentCount (s : Server) : nat := Tracker_Size (sv_tracker s).

Definition CleanupPendingDeployments (s : Server) : nat * Server :=
  let '(n, t) := Tracker_Cleanup now (sv_tracker s) in (n, set_tracker s t).
End operations.

(** ** Laws *)

(** No statement fails. *)
Definition no_fault (d : Database) : Prop := forall name, db_fault d name = None.

Lemma query_runs {A} d name msg (v : A) : no_fault d -> query d name msg v = Ok v.
Proof. intros Hf. unfold query. by rewrite Hf. Qed.

Lemma exec_runs name msg v f s :
  no_fault (t_db s) -> v (t_db s) = false ->
  exec name msg v f s = (Ok tt, {| t_db := f (t_db s); t_cache := t_cache s |}).
Proof. intros Hf Hv. unfold exec. by rewrite query_runs, Hv. Qed.

Lemma cacheExec_runs name msg f s :
  no_fault (t_db s) ->
  cacheExec name msg f s = (Ok tt, {| t_db := t_db s; t_cache := f (t_cache s) |}).
Proof. intros Hf. unfold cacheExec. by rewrite query_runs. Qed.

Lemma WithTx_runs {A} (body : stM Tables A) s a s' :
  no_fault (t_db s) -> body s = (Ok a, s') -> WithTx body s = (Ok a, s').
Proof. intros Hf Hb. unfold WithTx. by rewrite !query_runs, Hb. Qed.

Lemma st_bind_runs {S A B} (m : stM S A) (f : A -> stM S B) s a s1 r :
  m s = (Ok a, s1) -> f a s1 = r -> (m ≫= f) s = r.
Proof. intros Hm Hf. unfold mbind, stM_bind. by rewrite Hm. Qed.

Lemma attempt_store_runs {A} (m : stM Tables A) s a t :
  m (sv_tables s) = (Ok a, t) ->
  attempt (storeCall m) s =
    (Ok true, {| sv_ctl := sv_ctl s; sv_tracker := sv_tracker s; sv_tables := t |}).
Proof. intros Hm. unfold attempt, storeCall. by rewrite Hm. Qed.

Lemma invalidateUser_runs userID s :
  no_fault (t_db s) ->
  db_InvalidateCacheForUser userID s =
    (Ok tt, {| t_db := t_db s; t_cache := InvalidateCacheForUser userID (t_cache s) |}).
Proof.
  intros Hf. apply WithTx_runs; [done|]. eapply st_bind_runs; [by apply cacheExec_runs|].
  by rewrite cacheExec_runs.
Qed.

(** The batches select the rows of the tables. *)
Lemma grants_batch_complete d ids grants g :
  db_ListContractGrantsBatch d ids = Ok grants -> g ∈ db_contract_grants d ->
  cg_GroupID g ∈ ids -> g ∈ default [] (grants !! cg_GroupID g).
Proof.
  unfold db_ListContractGrantsBatch. destruct ids as [|i ids]; [set_solver|].
  intros Hq%query_Ok Hg Hi. subst grants.
  assert (Hl : g ∈ List.filter (fun g => contains (i :: ids) (cg_GroupID g)) (db_contract_grants d)).
  { apply elem_of_filter_bool. split; [done|by apply contains_true]. }
  revert Hl. generalize (List.filter (fun g => contains (i :: ids) (cg_GroupID g))
    (db_contract_grants d)). intros l Hl.
  cut (forall m : gmap string (list ContractGrant), g ∈ l \/ g ∈ default [] (m !! cg_GroupID g) ->
    g ∈ default [] (foldl (fun m g => <[cg_GroupID g := (default [] (m !! cg_GroupID g) ++ [g])%list]> m)
                      m l !! cg_GroupID g)); [auto|].
  clear Hl. induction l as [|x l IH]; intros m Hm; simpl; [set_solver|]. apply IH.
  destruct Hm as [[->|Hx]%elem_of_cons|Hm]; [right|by left|right].
  - rewrite lookup_insert_eq. set_solver.
  - destruct (decide (cg_GroupID x = cg_GroupID g)) as [->|Hne].
    + rewrite lookup_insert_eq. set_solver.
    + by rewrite lookup_insert_ne.
Qed.

Lemma contracts_batch_complete d cids cs c :
  db_GetContractsByIDs d cids = Ok cs -> c ∈ db_contracts d -> c_ID c ∈ cids ->
  (forall c', c' ∈ db_contracts d -> c_ID c' = c_ID c -> c' = c) ->
  cs !! c_ID c = Some c.
Proof.
  unfold db_GetContractsByIDs. destruct cids as [|i cids]; [set_solver|].
  intros Hq%query_Ok Hc Hi Huniq. subst cs.
  assert (Hl : c ∈ List.filter (fun c => contains (i :: cids) (c_ID c)) (db_contracts d)).
  { apply elem_of_filter_bool. split; [done|by apply contains_true]. }
  assert (Hu : forall c', c' ∈ List.filter (fun c => contains (i :: cids) (c_ID c)) (db_contracts d) ->
                c_ID c' = c_ID c -> c' = c).
  { intros c' [? _]%elem_of_filter_bool. by apply Huniq. }
  revert Hl Hu. generalize (List.filter (fun c => contains (i :: cids) (c_ID c)) (db_contracts d)).
  clear. intros l. induction l as [|x l IH] using rev_ind; [set_solver|]. rewrite foldl_snoc.
  intros Hl Hu. destruct (decide (c_ID x = c_ID c)) as [Heq|Hne].
  - rewrite (Hu x) by set_solver. apply lookup_insert_eq.
  - rewrite lookup_insert_ne by done. apply IH; [|intros; apply Hu; set_solver].
    apply elem_of_app in Hl as [?|Hx%list_elem_of_singleton]; [done|by subst].
Qed.

(** ** What a grant resolves to *)
Section resolved.
Context (row1 : forall A : Type, list A -> option A) (now : Z).
Context (decryptAESGCM : string -> string -> result string) (encryptionKey : string) (cacheTTL : Z).
Context (ctx : Ctx) (freshID : string).

Notation perms d := (@computePermissions (DbStore row1 now d) decryptAESGCM encryptionKey
                       cacheTTL ctx freshID).

Lemma loadGroupPerms_total d ids b :
  no_fault d -> exists batch, @loadGroupPerms (DbStore row1 now d) ids b = Ok batch.
Proof.
  intros Hf. unfold loadGroupPerms. simpl. unfold db_GetGroupAccessBatch, db_ListContractGrantsBatch,
    db_GetContractsByIDs. destruct ids as [|i ids]; [by destruct b; simpl; eauto|].
  rewrite !query_runs by done. simpl. destruct b; simpl; [|eauto].
  destruct (dedup _ _); simpl; [eauto|]. rewrite query_runs by done. simpl. eauto.
Qed.

Lemma computePermissions_total d u o : no_fault d -> exists p, perms d u o = Ok p.
Proof.
  intros Hf. unfold computePermissions. simpl. unfold db_ListUserMembershipsInOrg.
  rewrite query_runs by done. cbn [mbind result_bind]. rewrite membershipGroups_withDetails.
  cbn [mbind result_bind]. destruct (map snd _) as [|g gs]; [eauto|].
  destruct (existsb _ _).
  - unfold computeOrgAdminPermissions. simpl. unfold db_ListContracts. rewrite query_runs by done.
    simpl. destruct (loadGroupPerms_total d (membershipGroupIDs (g :: gs)) false Hf) as [b ->].
    simpl. eauto.
  - destruct (loadGroupPerms_total d (membershipGroupIDs (g :: gs)) true Hf) as [b ->].
    simpl. eauto.
Qed.

(** A contract of the organization granted to an active group of the caller is
    in the caller's resolved permissions, on the administrator path too. *)
Lemma granted_contract_resolves d u o p m g grant c :
  perms d u o = Ok p -> (m, g) ∈ memberGroups now d u -> g_OrgID g = o ->
  grant ∈ db_contract_grants d -> cg_GroupID grant = g_ID g ->
  c ∈ db_contracts d -> c_ID c = cg_ContractID grant -> c_OrgID c = o ->
  (forall c', c' ∈ db_contracts d -> c_ID c' = c_ID c -> c' = c) ->
  is_Some (ep_ContractAccess p !! ToLower (c_Address c)).
Proof.
  intros Hp Hmg Ho Hgr Hgg Hc Hcid Hco Huniq.
  set (mgs := List.filter (fun mg => bool_decide (g_OrgID (snd mg) = o)) (memberGroups now d u)).
  assert (Hg : g ∈ map snd mgs).
  { apply list_elem_of_fmap. exists (m, g). split; [done|]. apply elem_of_filter_bool.
    split; [done|by apply bool_decide_eq_true]. }
  pose proof Hp as Hp'. unfold computePermissions in Hp'. apply bind_Ok in Hp' as (ms & Hms & Hp').
  assert (Hms' : ms = map withDetails mgs) by (symmetry; exact (query_Ok _ _ _ _ _ Hms)).
  apply bind_Ok in Hp' as (groups & Hgs & Hp').
  assert (Hgs' : groups = map snd mgs).
  { rewrite Hms', membershipGroups_withDetails in Hgs. by injection Hgs. }
  destruct (existsb g_IsOrgAdmin groups) eqn:Eadm.
  - destruct groups as [|g0 gs]; [done|]. cbv iota beta in Hp'.
    unfold computeOrgAdminPermissions in Hp'.
    apply bind_Ok in Hp' as (cs & Hcs & Hp'). apply query_Ok in Hcs as <-.
    apply bind_Ok in Hp' as (b & _ & Hp'). injection Hp' as <-. simpl.
    rewrite foldl_insert_lower, lookup_empty, decide_True; [by eexists|].
    apply list_elem_of_fmap. exists c. split; [done|]. rewrite list_elem_of_In, <- in_rev, <- list_elem_of_In.
    apply elem_of_filter_bool. split; [done|by apply bool_decide_eq_true].
  - assert (Hne : groups <> []) by (intros ->; rewrite <- Hgs' in Hg; set_solver).
    destruct (@member_entry _ _ _ _ _ _ u o p ms groups Hms Hgs Hne Eadm Hp)
      as (batch & g0 & gs & Eg & Hb & _ & _ & Hk).
    rewrite Hk. apply unionEntry_is_Some. eexists. split.
    { apply groups_entries_elem. exists g. split; [by rewrite <- Eg, Hgs'|reflexivity]. }
    apply groupPerms_is_Some. exists grant.
    apply bind_Ok in Hb as (acc & _ & Hb). cbn [negb] in Hb. apply bind_Ok in Hb as (grants & Hgrants & Hb).
    apply bind_Ok in Hb as (cs & Hcs & Hb). injection Hb as <-. unfold grantOn. simpl.
    assert (Hin : grant ∈ default [] (grants !! g_ID g)).
    { rewrite <- Hgg. eapply grants_batch_complete; [exact Hgrants|done|].
      rewrite Hgg. apply elem_of_membershipGroupIDs. exists g. split; [by rewrite Hgs'|done]. }
    split; [done|]. exists c. split; [|done]. rewrite <- Hcid.
    set (cids := dedup _ _) in Hcs.
    assert (Hci : c_ID c ∈ cids).
    { apply elem_of_dedup. split; [|set_solver]. apply list_elem_of_In, in_concat.
      exists (map cg_ContractID (default [] (grants !! g_ID g))). split.
      - apply in_map_iff. exists (g_ID g). split; [done|]. apply list_elem_of_In.
        apply elem_of_membershipGroupIDs. exists g. split; [by rewrite Hgs'|done].
      - apply in_map_iff. exists grant. split; [done|]. by apply list_elem_of_In. }
    destruct cids as [|i l]; [set_solver|].
    apply (contracts_batch_complete d (i :: l)); [exact Hcs|done..].
Qed.
End resolved.

(** ** Running a finalization *)

(** What a mined deployment finds: its organization and deployer, a fresh
    contract identifier, no record of the address in the organization, and a
    deploy group of the deployer. *)
Record ready (now : Z) (d : Database) (contractID address : string) (dep : PendingDeployment)
  : Prop := {
  rd_fault : no_fault d;
  rd_org : exists o, o ∈ db_organizations d /\ o_ID o = dp_OrgID dep;
  rd_user : exists u, u ∈ db_users d /\ u_ID u = dp_DeployerUserID dep;
  rd_fresh : forall c, c ∈ db_contracts d -> c_ID c <> contractID;
  rd_new : forall c, c ∈ db_contracts d -> c_OrgID c = dp_OrgID dep ->
             ToLower (c_Address c) <> ToLower address;
  rd_group : deployGroups now d (dp_OrgID dep) (dp_DeployerUserID dep) <> [] }.

(** The tables after the record and the grant were written. *)
Definition registered (d : Database) (contractID grantID groupID address : string)
    (dep : PendingDeployment) : Database :=
  insertGrant grantID contractID groupID
    (set_contracts d (db_contracts d ++ [minedContract contractID address dep])%list
       (db_contract_grants d)).

Lemma createContract_runs now d cache contractID address dep :
  ready now d contractID address dep -> dp_DeployerUserID dep <> "" ->
  db_CreateContract (minedContract contractID address dep) {| t_db := d; t_cache := cache |} =
  (Ok tt, {| t_db := set_contracts d (db_contracts d ++ [minedContract contractID address dep])%list
                       (db_contract_grants d); t_cache := cache |}).
Proof.
  intros [Hf (org & Ho & Hoid) (usr & Hu & Huid) Hfresh Hnew _] Hdep.
  unfold db_CreateContract. rewrite exec_runs; [|done|].
  - cbn. by rewrite !ToLower_idemp.
  - cbn [t_db]. rewrite !orb_false_iff. split_and!.
    + apply negb_false_iff, existsb_true. exists org. split; [done|by apply bool_decide_eq_true].
    + cbn. rewrite decide_False by done. apply negb_false_iff, existsb_true. exists usr.
      split; [done|by apply bool_decide_eq_true].
    + apply existsb_false. intros c Hc. cbn. rewrite bool_decide_eq_false_2 by auto. simpl.
      destruct (bool_decide (c_OrgID c = dp_OrgID dep)) eqn:E; [|done].
      apply bool_decide_eq_true in E. unfold lower_is.
      apply bool_decide_eq_false_2. rewrite ToLower_idemp. auto.
Qed.

(** The group the grant goes to is an active deploy group of the deployer. *)
Lemma deployGroups_elem now d orgID userID groupID :
  groupID ∈ deployGroups now d orgID userID ->
  exists m g, (m, g) ∈ memberGroups now d userID /\ g_OrgID g = orgID /\ g_ID g = groupID.
Proof.
  unfold deployGroups. intros (g & -> & Hg)%list_elem_of_fmap.
  apply elem_of_filter_bool in Hg as [Hg [Ho%bool_decide_eq_true _]%andb_true_iff].
  apply list_elem_of_fmap in Hg as ([m g'] & -> & Hg). by exists m, g'.
Qed.

Lemma grantContract_runs row1 now retriable d cache contractID grantID address dep :
  picks_row row1 -> ready now d contractID address dep ->
  exists m g, (m, g) ∈ memberGroups now d (dp_DeployerUserID dep) /\ g_OrgID g = dp_OrgID dep /\
    db_GrantContractToDeployerGroup row1 now retriable grantID (dp_OrgID dep) contractID
      (dp_DeployerUserID dep)
      {| t_db := set_contracts d (db_contracts d ++ [minedContract contractID address dep])%list
                   (db_contract_grants d); t_cache := cache |} =
    (Ok tt, {| t_db := registered d contractID grantID (g_ID g) address dep; t_cache := cache |}).
Proof.
  intros Hrow [Hf _ _ _ _ Hgroup].
  destruct (row1_some _ Hrow _ _ Hgroup) as [groupID Hrow1].
  pose proof (row1_elem _ Hrow _ _ _ Hrow1) as Hin.
  destruct (deployGroups_elem _ _ _ _ _ Hin) as (m & g & Hmg & Ho & <-).
  exists m, g. split_and!; [done|done|]. unfold db_GrantContractToDeployerGroup.
  cbn [withRetry txRetryAttempts].
  erewrite WithTx_runs; [reflexivity|done|]. cbn [t_db].
  rewrite query_runs by done.
  change (deployGroups now (set_contracts _ _ _) _ _) with
    (deployGroups now d (dp_OrgID dep) (dp_DeployerUserID dep)).
  rewrite Hrow1. rewrite exec_runs; [done|done|]. cbn [t_db]. apply negb_false_iff, existsb_true.
  exists (minedContract contractID address dep).
  split; [cbn; apply elem_of_app; right; left|by apply bool_decide_eq_true].
Qed.

(** Either way a grant on the new contract for the group is in the table. *)
Lemma registered_grant d contractID grantID groupID address dep :
  exists grant, grant ∈ db_contract_grants (registered d contractID grantID groupID address dep) /\
    cg_GroupID grant = groupID /\ cg_ContractID grant = contractID.
Proof.
  unfold registered, insertGrant. destruct (existsb _ _) eqn:E.
  - apply existsb_true in E as (g & Hg & [H1%bool_decide_eq_true H2%bool_decide_eq_true]%andb_true_iff).
    by exists g.
  - eexists. split; [simpl; apply elem_of_app; right; left|done].
Qed.

Lemma registered_fields d contractID grantID groupID address dep :
  let d' := registered d contractID grantID groupID address dep in
  db_contracts d' = (db_contracts d ++ [minedContract contractID address dep])%list /\
  db_groups d' = db_groups d /\ db_user_memberships d' = db_user_memberships d /\
  db_fault d' = db_fault d.
Proof. unfold registered, insertGrant. by destruct (existsb _ _). Qed.

Lemma registerMined_runs row1 retriable now contractID grantID address dep s :
  picks_row row1 -> ready now (t_db (sv_tables s)) contractID address dep ->
  dp_DeployerUserID dep <> "" ->
  exists m g, (m, g) ∈ memberGroups now (t_db (sv_tables s)) (dp_DeployerUserID dep) /\
    g_OrgID g = dp_OrgID dep /\
    registerMined row1 retriable now contractID grantID address dep s =
    (Ok tt, {| sv_ctl := set_cache (sv_ctl s) (InvalidateUser (dp_DeployerUserID dep)
                           (ctl_cache (sv_ctl s)));
               sv_tracker := sv_tracker s;
               sv_tables := {| t_db := registered (t_db (sv_tables s)) contractID grantID (g_ID g)
                                         address dep;
                               t_cache := InvalidateCacheForUser (dp_DeployerUserID dep)
                                            (t_cache (sv_tables s)) |} |}).
Proof.
  intros Hrow Hrd Hdep. destruct s as [ctl tk [d cache]]. cbn [sv_tables t_db] in *.
  destruct (grantContract_runs row1 now retriable d cache contractID grantID address dep Hrow Hrd)
    as (m & g & Hmg & Ho & Hg).
  exists m, g. split_and!; [done|done|]. unfold registerMined.
  eapply st_bind_runs; [eapply attempt_store_runs; by eapply createContract_runs|].
  cbn [negb orb]. rewrite bool_decide_eq_false_2 by done.
  eapply st_bind_runs; [eapply attempt_store_runs; exact Hg|]. cbv iota beta.
  eapply st_bind_runs; [|reflexivity]. unfold attempt, ctl_InvalidateUser, storeCall.
  cbn [sv_tables on_cache set_ctl]. rewrite invalidateUser_runs; [reflexivity|].
  cbn [t_db]. destruct (registered_fields d contractID grantID (g_ID g) address dep)
    as (_ & _ & _ & Hf). intros name. rewrite Hf. apply (rd_fault _ _ _ _ _ Hrd).
Qed.

Lemma Tracker_Get_hit txHash t dep :
  txHash <> "" -> tk_pending t !! txHash = Some dep ->
  Tracker_Get txHash t = (Some dep, set_pending t (delete txHash (tk_pending t))).
Proof. intros Hne Hl. unfold Tracker_Get. by rewrite decide_False, Hl. Qed.

Lemma InvalidateUser_misses now u o c : fst (Get now u o (InvalidateUser u c)) = None.
Proof.
  apply Get_filtered. intros e. simpl. by rewrite keyOfUser_cacheKey.
Qed.

Lemma InvalidateCacheForUser_misses now u o s :
  GetCachedPermissions now u o (InvalidateCacheForUser u s) = None.
Proof.
  unfold GetCachedPermissions, InvalidateCacheForUser, deleteRows. simpl.
  destruct (filter _ _ !! _) as [row|] eqn:E; [|done].
  apply map_lookup_filter_Some in E as [_ E]. simpl in E. by rewrite bool_decide_eq_true_2 in E.
Qed.

Lemma filter_negb {A} (f : A -> bool) l : List.filter f (List.filter (fun x => negb (f x)) l) = [].
Proof.
  induction l as [|x l IH]; [done|]. simpl. destruct (f x) eqn:E; simpl; [done|]. by rewrite E.
Qed.

(** a mined deployment is usable at once.  The notification consumes the
    tracked entry, records the contract for the organization, removes the
    pre-registration, leaves no cached permissions of the deployer in either
    cache, and from then on the deployer's resolved permissions in the
    organization cover the contract. *)
Theorem mined_deployment_is_callable row1 retriable now decryptAESGCM encryptionKey cacheTTL
    contractID grantID txHash address dep s :
  picks_row row1 ->
  txHash <> "" -> tk_pending (sv_tracker s) !! txHash = Some dep ->
  dp_IsPlainCreate dep = true -> dp_PreRegisteredAddr dep <> "" -> dp_DeployerUserID dep <> "" ->
  10 <= String.length address ->
  ready now (t_db (sv_tables s)) contractID address dep ->
  exists s',
    NotifyDeploymentMined row1 retriable now contractID grantID txHash address s = (Ok tt, s') /\
    GetPendingDeployment txHash s' = None /\
    dp_OrgID dep ∈ owners (t_db (sv_tables s')) address /\
    preregisteredAt (t_db (sv_tables s')) (dp_PreRegisteredAddr dep) = [] /\
    (forall t o, GetCachedPermissions t (dp_DeployerUserID dep) o (t_cache (sv_tables s')) = None /\
                 fst (Get t (dp_DeployerUserID dep) o (ctl_cache (sv_ctl s'))) = None) /\
    forall ctx freshID, exists p,
      @computePermissions (DbStore row1 now (t_db (sv_tables s'))) decryptAESGCM encryptionKey
        cacheTTL ctx freshID (dp_DeployerUserID dep) (dp_OrgID dep) = Ok p /\
      is_Some (ep_ContractAccess p !! ToLower address).
Proof.
  intros Hrow Htx Htk Hplain Hpre Hdep Hlen Hrd.
  set (s1 := set_tracker s (set_pending (sv_tracker s) (delete txHash (tk_pending (sv_tracker s))))).
  destruct (registerMined_runs row1 retriable now contractID grantID address dep s1 Hrow Hrd Hdep)
    as (m & g & Hmg & Ho & Hreg).
  set (d := t_db (sv_tables s)) in *.
  set (d1 := registered d contractID grantID (g_ID g) address dep) in *.
  destruct (registered_fields d contractID grantID (g_ID g) address dep) as (Hc & Hgr & Hms & Hf).
  fold d1 in Hc, Hgr, Hms, Hf.
  assert (Hnf : no_fault d1) by (intros name; rewrite Hf; apply (rd_fault _ _ _ _ _ Hrd)).
  eexists. split.
  { unfold NotifyDeploymentMined. rewrite (Tracker_Get_hit _ _ _ Htx Htk). cbv iota beta zeta.
    rewrite Hplain, bool_decide_eq_false_2 by done. cbn [negb orb].
    rewrite decide_False by (intros ->; simpl in Hlen; lia).
    rewrite (proj2 (Nat.ltb_ge _ _) Hlen).
    eapply st_bind_runs; [exact Hreg|].
    eapply st_bind_runs; [|reflexivity]. eapply attempt_store_runs. by apply exec_runs. }
  cbn [sv_tables sv_ctl sv_tracker t_db t_cache].
  assert (Hin : minedContract contractID address dep ∈ db_contracts d1).
  { rewrite Hc. apply elem_of_app. right. left. }
  split_and!.
  - unfold GetPendingDeployment, Tracker_Peek. rewrite decide_False by done. apply lookup_delete_eq.
  - apply elem_of_owners. left. exists (minedContract contractID address dep).
    split; [exact Hin|]. split; [apply ToLower_idemp|done].
  - apply filter_negb.
  - intros t o. split; [apply InvalidateCacheForUser_misses|apply InvalidateUser_misses].
  - intros ctx freshID. set (d2 := set_preregistered _ _).
    destruct (computePermissions_total row1 now decryptAESGCM encryptionKey cacheTTL ctx freshID
                d2 (dp_DeployerUserID dep) (dp_OrgID dep)) as [p Hp]; [exact Hnf|].
    exists p. split; [exact Hp|].
    destruct (registered_grant d contractID grantID (g_ID g) address dep) as (grant & Hg1 & Hg2 & Hg3).
    rewrite <- (ToLower_idemp address).
    apply (granted_contract_resolves row1 now decryptAESGCM encryptionKey cacheTTL ctx freshID d2
             (dp_DeployerUserID dep) (dp_OrgID dep) p m g grant
             (minedContract contractID address dep)); try done.
    + change (memberGroups now d2) with (memberGroups now d1). unfold memberGroups.
      rewrite Hms, Hgr. exact Hmg.
    + intros c' Hc' Hid. change (db_contracts d2) with (db_contracts d1) in Hc'. rewrite Hc in Hc'.
      apply elem_of_app in Hc' as [Hc'|Hc'%list_elem_of_singleton]; [|done].
      by destruct (rd_fresh _ _ _ _ _ Hrd c' Hc').
Qed.

(** ** Store calls leave the tracker alone *)
Definition keeps_tracker {A} (m : stM Server A) : Prop :=
  forall s, sv_tracker (snd (m s)) = sv_tracker s.

Lemma keeps_storeCall {A} (m : stM Tables A) : keeps_tracker (storeCall m).
Proof. intros s. unfold storeCall. by destruct (m _). Qed.

Lemma keeps_attempt {A} (m : stM Server A) : keeps_tracker m -> keeps_tracker (attempt m).
Proof. intros Hm s. unfold attempt. specialize (Hm s). by destruct (m s). Qed.

Lemma tracker_ret {A} (a : A) : keeps_tracker (mret a).
Proof. by intros s. Qed.

Lemma tracker_fail {A} e : keeps_tracker (Prelude.fail e : stM Server A).
Proof. by intros s. Qed.

Lemma tracker_bind {A B} (m : stM Server A) (f : A -> stM Server B) :
  keeps_tracker m -> (forall a, keeps_tracker (f a)) -> keeps_tracker (m ≫= f).
Proof.
  intros Hm Hf s. unfold mbind, stM_bind. specialize (Hm s). destruct (m s) as [[a|e] s1]; [|done].
  simpl in Hm. by rewrite Hf.
Qed.

Lemma keeps_invalidateUser u : keeps_tracker (ctl_InvalidateUser u).
Proof. intros s. unfold ctl_InvalidateUser. by rewrite keeps_storeCall. Qed.

Ltac tracked :=
  repeat first
    [ apply keeps_storeCall | apply keeps_invalidateUser | apply tracker_ret | apply tracker_fail
    | apply keeps_attempt | apply tracker_bind; [|intros ?] | case_match ].

Lemma keeps_registerMined row1 retriable now cid gid a d :
  keeps_tracker (registerMined row1 retriable now cid gid a d).
Proof. unfold registerMined. tracked. Qed.

Lemma set_tracker_id s : set_tracker s (sv_tracker s) = s.
Proof. by destruct s. Qed.

(** The tracker after a notification no longer knows the transaction. *)
Lemma notify_forgets row1 retriable now cid gid txHash a s :
  fst (Tracker_Get txHash (sv_tracker (snd (NotifyDeploymentMined row1 retriable now cid gid txHash a s))))
  = None.
Proof.
  assert (Hget : forall t, fst (Tracker_Get txHash (snd (Tracker_Get txHash t))) = None).
  { intros t. unfold Tracker_Get. case_decide; [done|].
    destruct (tk_pending t !! txHash) eqn:E; simpl; [by rewrite lookup_delete_eq|by rewrite E]. }
  specialize (Hget (sv_tracker s)). unfold NotifyDeploymentMined.
  destruct (Tracker_Get txHash (sv_tracker s)) as [[d|] t]; [|done]. simpl in Hget.
  destruct (negb _ || _); [done|]. case_decide.
  - rewrite tracker_bind; [done|tracked..].
  - destruct (Nat.ltb _ _); [done|]. rewrite tracker_bind; [done|apply keeps_registerMined|tracked].
    intros _. tracked.
Qed.

(** a receipt counts once.  Whatever the outcome of a notification, a
    second notification of the same transaction, with any address, succeeds
    and changes nothing; and a receipt without a contract address records no
    contract, removes the pre-registration when the store works, and is
    reported as an error. *)
Theorem notification_is_consumed row1 retriable now cid gid txHash a s r s' :
  NotifyDeploymentMined row1 retriable now cid gid txHash a s = (r, s') ->
  (forall cid' gid' a', NotifyDeploymentMined row1 retriable now cid' gid' txHash a' s' = (Ok tt, s')) /\
  (forall dep, a = "" -> txHash <> "" -> tk_pending (sv_tracker s) !! txHash = Some dep ->
     dp_IsPlainCreate dep = true -> dp_PreRegisteredAddr dep <> "" ->
     is_ok r = false /\ db_contracts (t_db (sv_tables s')) = db_contracts (t_db (sv_tables s)) /\
     (no_fault (t_db (sv_tables s)) ->
      preregisteredAt (t_db (sv_tables s')) (dp_PreRegisteredAddr dep) = [])).
Proof.
  intros Hr. split.
  - intros cid' gid' a'. pose proof (notify_forgets row1 retriable now cid gid txHash a s) as Hf.
    rewrite Hr in Hf. simpl in Hf. unfold NotifyDeploymentMined.
    destruct (Tracker_Get txHash (sv_tracker s')) as [d t] eqn:E. simpl in Hf. subst d.
    assert (Ht : t = sv_tracker s').
    { revert E. unfold Tracker_Get. case_decide; [by intros [= <-]|].
      destruct (_ !! _); [done|by intros [= <-]]. }
    by rewrite Ht, set_tracker_id.
  - intros dep -> Htx Hl Hpl Hpre. revert Hr. unfold NotifyDeploymentMined.
    rewrite (Tracker_Get_hit _ _ _ Htx Hl). cbv zeta iota beta.
    rewrite Hpl, bool_decide_eq_false_2 by done. cbn [negb orb]. rewrite decide_True by done.
    unfold mbind, stM_bind, attempt, storeCall. cbn [sv_tables set_tracker].
    unfold db_DeletePreregisteredAddressByAddress, exec.
    destruct (query _ _ _ _) eqn:Eq; intros [= <- <-]; (split; [done|]; split; [done|]).
    + intros _. apply filter_negb.
    + intros Hf. rewrite query_runs in Eq by done. discriminate Eq.
Qed.

(** ** Provisioning *)
Definition unique_external_ids (d : Database) : Prop :=
  forall x y, x ∈ db_users d -> y ∈ db_users d -> u_ExternalID x = u_ExternalID y -> x = y.

(** Among unique rows a lookup returns the one that matches. *)
Lemma getUser_unique row1 d u :
  picks_row row1 -> unique_external_ids d -> u ∈ db_users d ->
  db_fault d "GetUserByExternalID" = None ->
  db_GetUserByExternalID row1 d (u_ExternalID u) = Ok (Some u).
Proof.
  intros Hrow Huniq Hu Hf. unfold db_GetUserByExternalID, query. rewrite Hf. f_equal.
  set (l := List.filter _ _).
  assert (Hl : forall x, x ∈ l -> x = u).
  { intros x [Hx Hid]%elem_of_filter_bool. bools. by apply Huniq. }
  assert (Hin : u ∈ l) by (apply elem_of_filter_bool; split; [done|by bools]).
  destruct (row1_some _ Hrow _ l) as [x Hx]; [by intros ->; apply not_elem_of_nil in Hin|].
  rewrite Hx. f_equal. apply Hl. by apply (row1_elem _ Hrow).
Qed.

Lemma attempt_Ok {A} (m : stM Server A) s b s' : attempt m s = (Ok b, s') -> snd (m s) = s'.
Proof. unfold attempt. by destruct (m s) as [r s1]; intros [= _ <-]. Qed.

(** A membership insert leaves the users and the faults alone. *)
Lemma attempt_membership s m b s' :
  attempt (storeCall (db_CreateMembership m)) s = (Ok b, s') ->
  db_users (t_db (sv_tables s')) = db_users (t_db (sv_tables s)) /\
  db_fault (t_db (sv_tables s')) = db_fault (t_db (sv_tables s)) /\
  (db_user_memberships (t_db (sv_tables s')) = db_user_memberships (t_db (sv_tables s)) \/
   db_user_memberships (t_db (sv_tables s')) = (db_user_memberships (t_db (sv_tables s)) ++ [m])%list).
Proof.
  intros <-%attempt_Ok. unfold storeCall, db_CreateMembership, exec.
  destruct (query _ _ _ _); simpl; [|auto]. destruct (_ || _); simpl; auto.
Qed.

Lemma createUser_Ok u s s' x :
  storeCall (db_CreateUser u) s = (Ok x, s') ->
  db_users (t_db (sv_tables s')) = (db_users (t_db (sv_tables s)) ++ [u])%list /\
  db_user_memberships (t_db (sv_tables s')) = db_user_memberships (t_db (sv_tables s)) /\
  db_fault (t_db (sv_tables s')) = db_fault (t_db (sv_tables s)) /\
  (forall y, y ∈ db_users (t_db (sv_tables s)) -> u_ExternalID y <> u_ExternalID u).
Proof.
  unfold storeCall. destruct (db_CreateUser u _) as [r t] eqn:E. intros [= -> <-].
  apply exec_Ok in E as [Hv ->]. simpl. split_and!; try done. intros y Hy Heq.
  rewrite existsb_false in Hv. specialize (Hv y Hy). apply orb_false_iff in Hv as [_ Hv].
  by bools.
Qed.

(** provisioning.  [EnsureUserExists] returns a user with the external id;
    an existing user is returned unchanged (its KYC and ban status with it)
    and nothing is written; otherwise exactly one user is added, unbanned and
    with the KYC status asked for, and at most the default membership.  A
    second call, with whatever arguments, returns the same user and writes
    nothing. *)
Theorem user_provisioning_is_idempotent row1 freshID ext kyc skip s u s' :
  picks_row row1 -> unique_external_ids (t_db (sv_tables s)) ->
  EnsureUserExists row1 freshID ext kyc skip s = (Ok u, s') ->
  u_ExternalID u = ext /\
  ((u ∈ db_users (t_db (sv_tables s)) /\ s' = s) \/
   (u = {| u_ID := freshID; u_ExternalID := ext; u_KYC := kyc; u_Banned := false |} /\
    db_users (t_db (sv_tables s')) = (db_users (t_db (sv_tables s)) ++ [u])%list /\
    (db_user_memberships (t_db (sv_tables s')) = db_user_memberships (t_db (sv_tables s)) \/
     db_user_memberships (t_db (sv_tables s')) =
       (db_user_memberships (t_db (sv_tables s)) ++
        [{| um_UserID := freshID; um_GroupID := DefaultGroupID; um_ExpiresAt := None |}])%list))) /\
  forall freshID' kyc' skip', EnsureUserExists row1 freshID' ext kyc' skip' s' = (Ok u, s').
Proof.
  intros Hrow Huniq Hr.
  assert (Hagain : forall t, sv_tables s' = t -> u_ExternalID u = ext -> unique_external_ids (t_db t) ->
    u ∈ db_users (t_db t) -> db_fault (t_db t) "GetUserByExternalID" = None ->
    forall f k b, EnsureUserExists row1 f ext k b s' = (Ok u, s')).
  { intros t Ht Hid Hun Hin Hf f k b. unfold EnsureUserExists, mbind, stM_bind, get, lift.
    rewrite Ht, <- Hid, (getUser_unique row1 _ u) by done. done. }
  unfold EnsureUserExists in Hr. apply st_bind_Ok in Hr as (s0 & s1 & Hg & Hr).
  injection Hg as <- <-. apply st_bind_Ok in Hr as (user & s1 & Hl & Hr). injection Hl as Hl <-.
  assert (Hf : db_fault (t_db (sv_tables s)) "GetUserByExternalID" = None).
  { revert Hl. unfold db_GetUserByExternalID, query. by destruct (db_fault _ _). }
  destruct user as [x|].
  - injection Hr as <- <-. apply (user_Ok row1 Hrow) in Hl as [Hid Hin].
    split_and!; [done|by left|]. by apply (Hagain (sv_tables s)).
  - apply st_bind_Ok in Hr as ([] & s1 & Hc & Hr). apply createUser_Ok in Hc as (Hu & Hm & Hfa & Hnew).
    apply st_bind_Ok in Hr as (b & s2 & Ha & Hr). injection Hr as <- <-.
    assert (Hs2 : db_users (t_db (sv_tables s2)) = db_users (t_db (sv_tables s1)) /\
      db_fault (t_db (sv_tables s2)) = db_fault (t_db (sv_tables s1)) /\
      (db_user_memberships (t_db (sv_tables s2)) = db_user_memberships (t_db (sv_tables s1)) \/
       db_user_memberships (t_db (sv_tables s2)) = (db_user_memberships (t_db (sv_tables s1)) ++
         [{| um_UserID := freshID; um_GroupID := DefaultGroupID; um_ExpiresAt := None |}])%list)).
    { destruct skip; [injection Ha as _ <-; auto|by apply attempt_membership in Ha]. }
    destruct Hs2 as (Hu2 & Hf2 & Hm2). rewrite Hm in Hm2. rewrite Hu in Hu2.
    split_and!; [done|right; by split_and!|].
    apply (Hagain (sv_tables s2)); [done|done| |rewrite Hu2; apply elem_of_app; right; left|congruence].
    intros a b' Ha' Hb' Hid. rewrite Hu2 in Ha', Hb'.
    apply elem_of_app in Ha' as [Ha'|Ha'%list_elem_of_singleton],
                          Hb' as [Hb'|Hb'%list_elem_of_singleton]; subst; [by apply Huniq|..|done].
    + by destruct (Hnew a Ha').
    + by destruct (Hnew b' Hb').
Qed.

(** ** Invalidation *)
Lemma storeCall_ctl {A} (m : stM Tables A) s r s' :
  storeCall m s = (r, s') -> sv_ctl s' = sv_ctl s /\ m (sv_tables s) = (r, sv_tables s').
Proof. unfold storeCall. destruct (m _) as [r' t]. by intros [= <- <-]. Qed.

Lemma deleteRows_misses now u o (p : string * string -> bool) s :
  p (u, o) = true -> GetCachedPermissions now u o (deleteRows p s) = None.
Proof.
  intros Hp. unfold GetCachedPermissions, deleteRows. simpl.
  destruct (filter _ _ !! _) as [row|] eqn:E; [|done].
  apply map_lookup_filter_Some in E as [_ E]. congruence.
Qed.

Lemma InvalidateOrg_misses now u o c : u <> "" -> fst (Get now u o (InvalidateOrg o c)) = None.
Proof. intros Hu. apply Get_filtered. intros e. simpl. by rewrite keyOfOrg_cacheKey. Qed.

Lemma invalidateUser_tx userID t r t' :
  db_InvalidateCacheForUser userID t = (r, t') ->
  (is_ok r = true -> t' = {| t_db := t_db t; t_cache := InvalidateCacheForUser userID (t_cache t) |}) /\
  (is_ok r = false -> t' = t).
Proof.
  intros Hr. split; intros Hok.
  - destruct r as [[]|e]; [|done]. unfold db_InvalidateCacheForUser, db_bumpCacheGeneration in Hr.
    by inv_tx.
  - destruct r as [?|e]; [done|]. revert Hr. unfold db_InvalidateCacheForUser, WithTx.
    destruct (query _ _ _ _); [|by intros [= _ <-]].
    case_match eqn:E. case_match; [|by intros [= _ <-]].
    destruct (query _ _ _ _); [done|by intros [= _ <-]].
Qed.

(** after an invalidation that reports success, neither the in-memory
    cache of this process nor the shared cache answers for the invalidated
    user, organization or group; one that fails has still cleared the
    in-memory entries of the user or organization, and a failed user
    invalidation leaves the shared cache as it was. *)
Theorem invalidation_clears_both_caches row1 u o g t s :
  (forall r s', ctl_InvalidateUser u s = (r, s') ->
     fst (Get t u o (ctl_cache (sv_ctl s'))) = None /\
     (is_ok r = true -> GetCachedPermissions t u o (t_cache (sv_tables s')) = None) /\
     (is_ok r = false -> sv_tables s' = sv_tables s)) /\
  (forall r s', u <> "" -> ctl_InvalidateOrg o s = (r, s') ->
     fst (Get t u o (ctl_cache (sv_ctl s'))) = None /\
     (is_ok r = true -> GetCachedPermissions t u o (t_cache (sv_tables s')) = None)) /\
  (forall s', u ∈ groupMembers (t_db (sv_tables s)) g ->
     ctl_InvalidateGroup row1 g s = (Ok tt, s') ->
     GetCachedPermissions t u o (t_cache (sv_tables s')) = None /\
     (forall gr, db_GetGroup row1 (t_db (sv_tables s)) g = Ok (Some gr) -> u <> "" ->
        fst (Get t u (g_OrgID gr) (ctl_cache (sv_ctl s'))) = None)).
Proof.
  split_and!.
  - intros r s' [Hc Ht]%storeCall_ctl. rewrite Hc. apply invalidateUser_tx in Ht as [H1 H2].
    split_and!; [apply InvalidateUser_misses| |done].
    intros Hok. rewrite (H1 Hok). apply InvalidateCacheForUser_misses.
  - intros r s' Hu [Hc Ht]%storeCall_ctl. rewrite Hc. split; [by apply InvalidateOrg_misses|].
    intros Hok. destruct r as [[]|]; [|done]. apply invalidateOrg_Ok in Ht as ->. simpl.
    apply deleteRows_misses. by bools.
  - intros s' Hm [Hc Ht]%storeCall_ctl. split.
    + apply invalidateGroup_Ok in Ht as ->. simpl. apply deleteRows_misses. bools. simpl.
      by destruct (db_GetGroup _ _ _) as [[]|].
    + intros gr Hgr Hu. rewrite Hc, Hgr. by apply InvalidateOrg_misses.
Qed.
