(* ===== verification/Json.v ===== *)
(** * Raw JSON and the decoding rules of [encoding/json] the response filters use.

    A node response is text; its parse is a value of [raw], which keeps the
    members of an object in document order and with their duplicates, because
    the decoder does: a struct field takes every member whose key folds onto
    its name, in order, the last one winning.  A [json.RawMessage] is the
    [raw] value of its text.  A text that is not JSON has no [raw] value, so
    a response body is an [option raw]. *)
From S2P Require Import Prelude GoStrings.

Inductive raw : Type :=
| RNull
| RBool (b : bool)
| RNum (lit : string)
| RStr (s : string)
| RArr (l : list raw)
| RObj (m : list (string * raw)).

(** ** Decoding into a struct

    [None] is an [UnmarshalTypeError].  [null] decodes into a struct as no
    member at all. *)
Definition members (name : string) (v : raw) : option (list raw) :=
  match v with
  | RNull => Some []
  | RObj m => Some (snd <$> filter (fun kv => EqualFold kv.1 name = true) m)
  | _ => None
  end.

(** A [string] field: [null] leaves the value it has. *)
Definition decode_str (v : raw) (cur : string) : option string :=
  match v with RNull => Some cur | RStr s => Some s | _ => None end.

Fixpoint decode_fold {A} (f : raw -> A -> option A) (vs : list raw) (cur : A) : option A :=
  match vs with
  | [] => Some cur
  | v :: vs => cur ← f v cur; decode_fold f vs cur
  end.

Definition member_str (name : string) (v : raw) : option string :=
  vs ← members name v; decode_fold decode_str vs "".

(** A [[]string] field.  The decoder writes into the slice the field already
    has, so a [null] element keeps what an earlier duplicate member left in the
    backing array: the state is the backing array and the slice's length. *)
Fixpoint decode_elems (l : list raw) (backing : list string) : option (list string) :=
  match l with
  | [] => Some []
  | v :: l =>
      s ← decode_str v (default "" (head backing));
      rest ← decode_elems l (tail backing);
      Some (s :: rest)
  end.

Definition decode_strs (v : raw) (cur : list string * nat) : option (list string * nat) :=
  match v with
  | RNull | RArr [] => Some ([], 0)
  | RArr l =>
      elems ← decode_elems l cur.1;
      Some (elems ++ drop (length l) cur.1, length l)
  | _ => None
  end.

Definition member_strs (name : string) (v : raw) : option (list string) :=
  vs ← members name v;
  '(backing, n) ← decode_fold decode_strs vs ([], 0);
  Some (take n backing).

(** A [json.RawMessage] field: nil when absent, the text [null] when null. *)
Definition member_raw (name : string) (v : raw) : option (option raw) :=
  vs ← members name v; Some (last vs).

(** A [*json.RawMessage] field: nil when absent or null. *)
Definition member_ptr (name : string) (v : raw) : option (option raw) :=
  vs ← members name v;
  Some (match last vs with Some RNull | None => None | Some w => Some w end).

(** A pointer to a struct: [null] is nil; an object is decoded into the struct
    the pointer already has, a fresh one when it has none. *)
Definition decode_ptr {A} (zero : A) (f : raw -> A -> option A) (v : raw) (cur : option A) : option (option A) :=
  match v with
  | RNull => Some None
  | _ => x ← f v (default zero cur); Some (Some x)
  end.
Definition member_struct {A} (zero : A) (f : raw -> A -> option A) (name : string) (v : raw) : option (option A) :=
  vs ← members name v; decode_fold (decode_ptr zero f) vs None.

(** A string field of a struct that already has a value. *)
Definition field_str (name : string) (v : raw) (cur : string) : option string :=
  vs ← members name v; decode_fold decode_str vs cur.

(** ** Decoding into [[]json.RawMessage] and [map[string]json.RawMessage] *)
Definition decode_list (v : raw) : option (list raw) :=
  match v with RNull => Some [] | RArr l => Some l | _ => None end.

Definition decode_map (v : raw) : option (gmap string raw) :=
  match v with
  | RNull => Some ∅
  | RObj m => Some (foldl (fun acc kv => <[kv.1 := kv.2]> acc) ∅ m)
  | _ => None
  end.

(** [json.Marshal] of such a map writes its keys in increasing order. *)
Definition marshal_map (m : gmap string raw) : raw :=
  RObj ((fun k => (k, default RNull (m !! k))) <$> sort_strings (elements (dom m))).

(** ** Lemmas *)

Lemma foldl_insert_lookup (l : list (string * raw)) (acc : gmap string raw) k :
  NoDup (fst <$> l) ->
  foldl (fun acc kv => <[kv.1 := kv.2]> acc) acc l !! k =
  match list_to_map (M := gmap string raw) l !! k with Some v => Some v | None => acc !! k end.
Proof.
  revert acc. induction l as [|[k' v] l IH]; intros acc Hnd; [done|].
  apply NoDup_cons in Hnd as [Hk Hnd]. simpl. rewrite IH by done.
  destruct (decide (k = k')) as [->|Hne].
  - rewrite !lookup_insert_eq. by rewrite not_elem_of_list_to_map_1.
  - by rewrite !lookup_insert_ne.
Qed.

(** What is written is read back. *)
Lemma decode_marshal_map m : decode_map (marshal_map m) = Some m.
Proof.
  unfold marshal_map. set (ks := sort_strings (elements (dom m))).
  assert (Hks : forall k, k ∈ ks <-> is_Some (m !! k)).
  { intros k. unfold ks, sort_strings. rewrite merge_sort_Permutation, elem_of_elements.
    apply elem_of_dom. }
  assert (Hnd : NoDup ks).
  { unfold ks, sort_strings. rewrite merge_sort_Permutation. apply NoDup_elements. }
  assert (Hfst : (fst <$> ((fun k => (k, default RNull (m !! k))) <$> ks)) = ks).
  { rewrite <- list_fmap_compose. apply list_fmap_id. }
  cbn [decode_map]. f_equal. apply map_eq. intros k.
  rewrite foldl_insert_lookup, lookup_empty by by rewrite Hfst.
  destruct (m !! k) as [v|] eqn:E.
  - rewrite (elem_of_list_to_map_1 _ k v); [done|by rewrite Hfst|].
    apply list_elem_of_fmap. exists k. rewrite E. split; [done|]. apply Hks. by rewrite E.
  - rewrite not_elem_of_list_to_map_1; [done|]. rewrite Hfst, Hks, E. by intros [].
Qed.
