(* ===== verification/ReadDecision.v ===== *)
(** * The shared read decisions: [internal/rbac/read_profile.go],
    [internal/rbac/log_decision.go] and [internal/rbac/tx_decision.go].

    Two pure functions decide what a viewer reads on every surface: which logs,
    and with which payload ([DecideLogEmitter]), and which transactions,
    receipts and block entries ([DecideTxEnvelope]).  The lemmas give each
    decision as the list of the entitlements it accepts, and show that the
    strict profile never admits what the standard one refuses. *)
From S2P Require Import Prelude GoStrings.

(** ** The read profile *)
Inductive ReadProfile := ReadProfileUnset | ReadProfileStandard | ReadProfileStrict.

#[export] Instance ReadProfile_eq_dec : EqDecision ReadProfile.
Proof. solve_decision. Defined.

(** The error quotes the input with [%q]. *)
Definition ParseReadProfile (s : string) : result ReadProfile :=
  let s' := ToLower (TrimSpace s) in
  if decide (s' = "standard") then Ok ReadProfileStandard
  else if decide (s' = "strict") then Ok ReadProfileStrict
  else Err ("invalid read profile " +:+ s +:+ ": must be standard or strict").

Definition Strict (p : ReadProfile) : bool := negb (bool_decide (p = ReadProfileStandard)).

Definition profileString (p : ReadProfile) : string :=
  if Strict p then "strict" else "standard".

(** ** Logs *)
Inductive LogEventRuleMode := LogEventRulesDeny | LogEventRulesWildcard | LogEventRulesAllowlist.

Record LogEmitterFacts := {
  lf_IsAdmin : bool;
  lf_Unlocked : bool;
  lf_HasGrant : bool;
  lf_ABIResolvable : bool;
  lf_DynamicPayloadDropped : bool;
  lf_IsParticipant : bool;
  lf_InVisibleTo : bool;
  lf_Rules : LogEventRuleMode;
  lf_HasTopic0 : bool;
  lf_EventAllowed : bool;
  lf_Topic0Allowlisted : bool;
  lf_IndexedSelf : bool }.

Inductive LogPayloadPolicy := LogPayloadMasked | LogPayloadFull.

Record LogDecision := { ld_Admit : bool; ld_Payload : LogPayloadPolicy }.

(** [LogDecision{}] *)
Definition dropLog : LogDecision := {| ld_Admit := false; ld_Payload := LogPayloadMasked |}.
Definition admitMasked : LogDecision := {| ld_Admit := true; ld_Payload := LogPayloadMasked |}.

Definition decideLogEmitterStrict (f : LogEmitterFacts) : LogDecision :=
  if negb (lf_IndexedSelf f) || negb (lf_ABIResolvable f) || lf_DynamicPayloadDropped f ||
     negb (lf_HasGrant f)
  then dropLog
  else if lf_IsAdmin f then admitMasked
  else match lf_Rules f with
  | LogEventRulesWildcard => admitMasked
  | LogEventRulesAllowlist =>
      if lf_HasTopic0 f && lf_EventAllowed f then admitMasked else dropLog
  | LogEventRulesDeny => dropLog
  end.

Definition DecideLogEmitter (profile : ReadProfile) (f : LogEmitterFacts) : LogDecision :=
  if Strict profile then decideLogEmitterStrict f
  else if lf_Unlocked f then {| ld_Admit := true; ld_Payload := LogPayloadFull |}
  else if lf_IsAdmin f then admitMasked
  else if negb (lf_ABIResolvable f) then dropLog
  else if lf_DynamicPayloadDropped f then dropLog
  else if lf_IsParticipant f && lf_HasGrant f then admitMasked
  else if negb (lf_HasGrant f) then dropLog
  else match lf_Rules f with
  | LogEventRulesWildcard => admitMasked
  | LogEventRulesAllowlist =>
      if negb (lf_HasTopic0 f) then dropLog
      else if lf_EventAllowed f || (lf_Topic0Allowlisted f && lf_InVisibleTo f)
      then admitMasked
      else dropLog
  | LogEventRulesDeny => dropLog
  end.

Definition DecideLogEmitterAccess (profile : ReadProfile) (f : LogEmitterFacts) : bool :=
  ld_Admit (DecideLogEmitter profile f).

(** ** Transactions, receipts and block entries

    [TxSurfaceUnknown] stands for every other value of the [uint8]. *)
Inductive TxSurface :=
| TxSurfaceTransaction | TxSurfaceReceipt | TxSurfaceBlockEntry | TxSurfaceUnknown.

Record TxEnvelopeFacts := {
  tf_Surface : TxSurface;
  tf_IsParticipant : bool;
  tf_IsAdminOnTo : bool;
  tf_InVisibleTo : bool;
  tf_EntitledLogs : Z;
  tf_IsDeployment : bool }.

Definition DecideTxEnvelope (profile : ReadProfile) (f : TxEnvelopeFacts) : bool :=
  if tf_IsParticipant f then true
  else if Strict profile then false
  else match tf_Surface f with
  | TxSurfaceTransaction => tf_IsAdminOnTo f || tf_InVisibleTo f
  | TxSurfaceReceipt =>
      tf_IsAdminOnTo f || tf_InVisibleTo f ||
      (negb (tf_IsDeployment f) && (0 <? tf_EntitledLogs f)%Z)
  | TxSurfaceBlockEntry | TxSurfaceUnknown => false
  end.

(** ** Lemmas *)

Lemma Strict_false p : Strict p = false <-> p = ReadProfileStandard.
Proof. unfold Strict. rewrite negb_false_iff. apply bool_decide_eq_true. Qed.

(** The event rules admit the event, [fallback] standing for the listing of
    the viewer on the transaction. *)
Definition rules_admit (f : LogEmitterFacts) (fallback : bool) : Prop :=
  lf_Rules f = LogEventRulesWildcard \/
  lf_Rules f = LogEventRulesAllowlist /\ lf_HasTopic0 f = true /\
  (lf_EventAllowed f = true \/ lf_Topic0Allowlisted f = true /\ fallback = true).

(** The gates no entitlement but the unlock and the admin claim relaxes. *)
Definition gates_pass (f : LogEmitterFacts) : Prop :=
  lf_HasGrant f = true /\ lf_ABIResolvable f = true /\ lf_DynamicPayloadDropped f = false.

(** Leaves of a case analysis on flags: propositional, with decided flags. *)
Ltac flags := simpl; intuition congruence.

Lemma decideLogEmitterStrict_admits f :
  ld_Admit (decideLogEmitterStrict f) = true <->
  lf_IndexedSelf f = true /\ gates_pass f /\ (lf_IsAdmin f = true \/ rules_admit f false).
Proof.
  destruct f as [adm ul gr abi dyn part vis rules t0 ev tal self].
  unfold decideLogEmitterStrict, gates_pass, rules_admit; simpl.
  destruct self; [|flags]. destruct abi; [|flags]. destruct dyn; [flags|]. destruct gr; [|flags].
  destruct adm; [flags|]. destruct rules; [flags..|]. destruct t0; [|flags]. destruct ev; flags.
Qed.

Lemma DecideLogEmitter_admits f :
  ld_Admit (DecideLogEmitter ReadProfileStandard f) = true <->
  lf_Unlocked f = true \/ lf_IsAdmin f = true \/
  (gates_pass f /\ (lf_IsParticipant f = true \/ rules_admit f (lf_InVisibleTo f))).
Proof.
  destruct f as [adm ul gr abi dyn part vis rules t0 ev tal self].
  unfold DecideLogEmitter, gates_pass, rules_admit; simpl.
  destruct ul; [flags|]. destruct adm; [flags|]. destruct abi; [|flags]. destruct dyn; [flags|].
  destruct gr; [|destruct part; flags]. destruct part; [flags|]. destruct rules; [flags..|].
  destruct t0; [|flags]. destruct ev; [flags|]. destruct tal; [|flags]. destruct vis; flags.
Qed.

(** The full payload comes from the unlock, under the standard profile. *)
Lemma DecideLogEmitter_full p f :
  ld_Payload (DecideLogEmitter p f) = LogPayloadFull <->
  p = ReadProfileStandard /\ lf_Unlocked f = true.
Proof.
  rewrite <- Strict_false. destruct f as [adm ul gr abi dyn part vis rules t0 ev tal self].
  unfold DecideLogEmitter, decideLogEmitterStrict; simpl. destruct (Strict p).
  - destruct (_ || _); [flags|]. destruct adm; [flags|]. destruct rules; [flags..|].
    destruct (t0 && ev); flags.
  - destruct ul; [flags|]. destruct adm; [flags|]. destruct abi; [|flags]. destruct dyn; [flags|].
    destruct (part && gr); [flags|]. destruct gr; [|flags]. destruct rules; [flags..|].
    destruct t0; [|flags]. destruct (ev || _); flags.
Qed.

Lemma strict_admits_standard p f :
  ld_Admit (DecideLogEmitter p f) = true ->
  ld_Admit (DecideLogEmitter ReadProfileStandard f) = true.
Proof.
  destruct (Strict p) eqn:E; [|by apply Strict_false in E as ->].
  unfold DecideLogEmitter at 1. rewrite E.
  rewrite decideLogEmitterStrict_admits, DecideLogEmitter_admits. unfold rules_admit. flags.
Qed.

Lemma DecideTxEnvelope_admits p f :
  DecideTxEnvelope p f = true <->
  tf_IsParticipant f = true \/
  p = ReadProfileStandard /\
  (tf_Surface f = TxSurfaceTransaction \/ tf_Surface f = TxSurfaceReceipt) /\
  (tf_IsAdminOnTo f = true \/ tf_InVisibleTo f = true \/
   tf_Surface f = TxSurfaceReceipt /\ tf_IsDeployment f = false /\ (0 < tf_EntitledLogs f)%Z).
Proof.
  rewrite <- Strict_false. destruct f as [sf part adm vis n dep]. unfold DecideTxEnvelope; simpl.
  destruct part; [flags|]. destruct (Strict p); [flags|].
  destruct sf; simpl; rewrite ?orb_true_iff, ?andb_true_iff, ?negb_true_iff, ?Z.ltb_lt; flags.
Qed.

(** The decision is monotone in the number of entitled logs. *)
Lemma DecideTxEnvelope_mono p sf part adm vis n n' dep : (n <= n')%Z ->
  let facts k := {| tf_Surface := sf; tf_IsParticipant := part; tf_IsAdminOnTo := adm;
                    tf_InVisibleTo := vis; tf_EntitledLogs := k; tf_IsDeployment := dep |} in
  DecideTxEnvelope p (facts n) = true -> DecideTxEnvelope p (facts n') = true.
Proof. intros Hn facts. rewrite !DecideTxEnvelope_admits. simpl. intuition lia. Qed.

(** Participation does not lift the dynamic-payload gate. *)
Lemma dynamic_payload_drops_participants f :
  lf_Unlocked f = false -> lf_IsAdmin f = false -> lf_DynamicPayloadDropped f = true ->
  DecideLogEmitter ReadProfileStandard f = dropLog.
Proof. intros Hu Ha Hd. unfold DecideLogEmitter. rewrite Hu, Ha, Hd. simpl. by destruct (lf_ABIResolvable f). Qed.
