(* ===== verification/EventFilter.v ===== *)
(** * Event log filtering: [internal/rbac/event_filter.go],
    [internal/rbac/event_param_rules.go] and [internal/rbac/indexed_self.go].

    [FilterEventLogsDetailed] resolves, for every log of a response, the facts
    [DecideLogEmitter] judges, and keeps the admitted logs with their payload
    policy.  go-ethereum's ABI package is the class [EventABI]; the events of a
    parsed ABI are a Go map, so every [range] over them takes an order
    ([order], [rng]) of its own.  A slice index that is out of range panics in
    Go: it is the error [panicIndex], and ends the whole pass. *)
From S2P Require Import Prelude GoStrings Methods Models Json ReadDecision.
From Stdlib Require Import Ascii.

(** ** go-ethereum's [accounts/abi] *)
Inductive abi_kind :=
| IntTy | UintTy | BoolTy | StringTy | SliceTy | ArrayTy | TupleTy | AddressTy
| FixedBytesTy | BytesTy | HashTy | FixedPointTy | FunctionTy.

#[export] Instance abi_kind_eq_dec : EqDecision abi_kind.
Proof. solve_decision. Defined.

(** [abi.Type]: its tag, [Elem], [TupleElems] and the text of [String()]. *)
Inductive abi_type := AbiType
  (T : abi_kind) (Elem : option abi_type) (TupleElems : list (option abi_type)) (text : string).

Definition t_T (t : abi_type) : abi_kind := let (T, _, _, _) := t in T.
Definition t_String (t : abi_type) : string := let (_, _, _, s) := t in s.

Record Argument := { arg_Type : abi_type; arg_Indexed : bool }.
Record AbiEvent := { ev_ID : list Ascii.ascii; ev_Anonymous : bool; ev_Inputs : list Argument }.

(** The Go types a decoded value is tested for; any other value is opaque. *)
Inductive event_value :=
| EvAddress (bytes : list Ascii.ascii)
| EvBigInt (z : Z)
| EvBool (b : bool)
| EvBytes32 (bytes : list Ascii.ascii)
| EvOther (ty : string) (repr : list Ascii.ascii).

Class EventABI `{ABI} := {
  Events : ParsedABI -> list AbiEvent;
  UnpackArgs : list Argument -> list Ascii.ascii -> option (list event_value);
  PackArgs : list Argument -> list event_value -> option (list Ascii.ascii)
}.

Definition order := list AbiEvent -> list AbiEvent.

Definition topic0Of (ev : AbiEvent) : string := "0x" +:+ EncodeToString (ev_ID ev).

(** ** Strings *)

(** [strings.Trim(s, "0") == ""] *)
Fixpoint all_zeros (s : string) : bool :=
  match s with EmptyString => true | String a s => Ascii.eqb a "0"%char && all_zeros s end.

(** [strings.TrimLeft(s, "0")] *)
Fixpoint trim_zeros (s : string) : string :=
  match s with
  | EmptyString => EmptyString
  | String a s' => if Ascii.eqb a "0"%char then trim_zeros s' else s
  end.

Fixpoint repeat_zeros (n : nat) : string :=
  match n with O => EmptyString | S n => String "0"%char (repeat_zeros n) end.

(** [new(big.Int).SetString(s, 16)]: an optional sign and at least one digit. *)
Fixpoint hex_digits (s : string) (acc : Z) : option Z :=
  match s with
  | EmptyString => Some acc
  | String a s => d ← hex_val a; hex_digits s (16 * acc + Z.of_N d)%Z
  end.
Definition SetString16 (s : string) : option Z :=
  let '(sign, digits) := match s with
    | String "-"%char d => ((-1)%Z, d)
    | String "+"%char d => (1%Z, d)
    | _ => (1%Z, s)
    end in
  if decide (digits = "") then None else Z.mul sign <$> hex_digits digits 0.

(** Addition of [int] on 64 bits. *)
Definition int_add (a b : Z) : Z := ((a + b + 2 ^ 63) mod 2 ^ 64 - 2 ^ 63)%Z.

Definition panicIndex : string := "runtime error: index out of range".

(** [l[i]] behind a test [i < len(l)]. *)
Definition index (l : list string) (i : Z) : result string :=
  if (i <? 0)%Z then Err panicIndex
  else match l !! Z.to_nat i with Some s => Ok s | None => Err panicIndex end.

Record logEntry := { le_Address : string; le_Topics : list string; le_Data : string }.

Definition unmarshalLogEntry (v : raw) : option logEntry :=
  address ← member_str "address" v;
  topics ← member_strs "topics" v;
  data ← member_str "data" v;
  Some {| le_Address := address; le_Topics := topics; le_Data := data |}.

Definition isHexValue (s : string) : bool :=
  if Nat.ltb (String.length s) 4 || negb (HasPrefix s "0x") then false
  else bool_decide (is_Some (DecodeString (drop_str 2 s))).

Definition topicMatchesAddr (topic : string) (addrSet : gset string) : bool :=
  let t := ToLower topic in
  if negb (Nat.eqb (String.length t) 66) || negb (HasPrefix t "0x") then false
  else if negb (all_zeros (take_str 24 (drop_str 2 t))) then false
  else mem addrSet ("0x" +:+ drop_str 26 t).

Definition topicMatchesHexTyped (topic mustBe abiType : string) : bool :=
  let t := ToLower (TrimPrefix topic "0x") in
  let m := ToLower (TrimPrefix mustBe "0x") in
  if negb (Nat.eqb (String.length t) 64) then false
  else if decide (abiType = "address") then
    if Nat.eqb (String.length m) 40 then
      if negb (all_zeros (take_str 24 t)) then false else bool_decide (drop_str 24 t = m)
    else if Nat.eqb (String.length m) 64 then bool_decide (t = m)
    else false
  else if HasPrefix abiType "uint" then
    match SetString16 t, SetString16 m with
    | Some topicInt, Some mustBeInt => Z.eqb topicInt mustBeInt
    | _, _ => false
    end
  else if decide (abiType = "bool") then
    let topicStripped := trim_zeros t in
    let mustStripped := trim_zeros m in
    (bool_decide (topicStripped = "1") && bool_decide (mustStripped = "1")) ||
    (bool_decide (topicStripped = "") && bool_decide (mustStripped = ""))
  else if Nat.ltb 64 (String.length m) then false
  else bool_decide (t = repeat_zeros (64 - String.length m) +:+ m).

Definition topicMatchesHex (topic mustBe : string) : bool := topicMatchesHexTyped topic mustBe "".

Definition compareDecodedValue (decoded : event_value) (mustBe : string) : bool :=
  let m := ToLower (TrimPrefix mustBe "0x") in
  match decoded with
  | EvAddress a =>
      bool_decide (EncodeToString a = m) ||
      (Nat.eqb (String.length m) 64 && bool_decide (drop_str 24 m = EncodeToString a))
  | EvBigInt v => match SetString16 m with Some z => Z.eqb v z | None => false end
  | EvBool v =>
      let stripped := trim_zeros m in
      if decide (stripped = "1") then v
      else if decide (stripped = "") then negb v
      else false
  | EvBytes32 v => bool_decide (EncodeToString v = m)
  | EvOther _ _ => false
  end.

(** ** Event parameters *)
Definition indexedArgs (ev : AbiEvent) : list Argument :=
  filter (fun a => arg_Indexed a = true) (ev_Inputs ev).
Definition nonIndexedArgs (ev : AbiEvent) : list Argument :=
  filter (fun a => arg_Indexed a = false) (ev_Inputs ev).

Definition indexedTopicSlot (ev : AbiEvent) (paramIndex : nat) : nat :=
  S (length (filter (fun a => arg_Indexed a = true) (take paramIndex (ev_Inputs ev)))).

(** The position of a parameter among the non-indexed ones; [None] is [-1]. *)
Definition nonIndexedABIIdx (ev : AbiEvent) (paramIndex : nat) : option nat :=
  match ev_Inputs ev !! paramIndex with
  | Some a =>
      if arg_Indexed a then None
      else Some (length (filter (fun a => arg_Indexed a = false) (take paramIndex (ev_Inputs ev))))
  | None => None
  end.

Section abi.
Context `{EventABI}.

(** The decoded value of a non-indexed parameter, shared by
    [dataParamMatchesAddr] and [dataParamMatchesCustom]. *)
Definition dataParam (data : string) (ev : AbiEvent) (paramIndex : nat) : option event_value :=
  if decide (data = "" \/ data = "0x") then None
  else
    dataBytes ← DecodeString (TrimPrefix data "0x");
    idx ← nonIndexedABIIdx ev paramIndex;
    values ← UnpackArgs (nonIndexedArgs ev) dataBytes;
    values !! idx.

Definition dataParamMatchesAddr (data : string) (ev : AbiEvent) (paramIndex : nat)
    (addrSet : gset string) : bool :=
  match dataParam data ev paramIndex with
  | Some (EvAddress a) => mem addrSet (addr_hex_lower a)
  | _ => false
  end.

Definition dataParamMatchesCustom (data : string) (ev : AbiEvent) (paramIndex : nat)
    (mustBe : string) : bool :=
  match dataParam data ev paramIndex with
  | Some v => compareDecodedValue v mustBe
  | None => false
  end.

(** The shape of [matchesParamSelf] and [matchesParamCustom]: without an event
    declaration the parameter's topic is guessed from its position. *)
Definition matchesParam (entry : logEntry) (paramIndex : Z) (parsedEvent : option AbiEvent)
    (guess : string -> bool) (onTopic : Argument -> string -> bool)
    (onData : AbiEvent -> nat -> bool) : result bool :=
  match parsedEvent with
  | None =>
      let topicIdx := int_add paramIndex 1 in
      if (topicIdx <? Z.of_nat (length (le_Topics entry)))%Z
      then topic ← index (le_Topics entry) topicIdx; Ok (guess topic)
      else Ok false
  | Some ev =>
      if (paramIndex <? 0)%Z then Ok false
      else match ev_Inputs ev !! Z.to_nat paramIndex with
      | None => Ok false
      | Some input =>
          if arg_Indexed input then
            match le_Topics entry !! indexedTopicSlot ev (Z.to_nat paramIndex) with
            | Some topic => Ok (onTopic input topic)
            | None => Ok false
            end
          else Ok (onData ev (Z.to_nat paramIndex))
      end
  end.

Definition matchesParamSelf (entry : logEntry) (paramIndex : Z) (addrSet : gset string)
    (parsedEvent : option AbiEvent) : result bool :=
  matchesParam entry paramIndex parsedEvent
    (fun topic => topicMatchesAddr topic addrSet)
    (fun _ topic => topicMatchesAddr topic addrSet)
    (fun ev i => dataParamMatchesAddr (le_Data entry) ev i addrSet).

Definition matchesParamCustom (entry : logEntry) (paramIndex : Z) (mustBe : string)
    (parsedEvent : option AbiEvent) : result bool :=
  matchesParam entry paramIndex parsedEvent
    (fun topic => topicMatchesHex topic mustBe)
    (fun input topic => topicMatchesHexTyped topic mustBe (t_String (arg_Type input)))
    (fun ev i => dataParamMatchesCustom (le_Data entry) ev i mustBe).

Definition findEventByTopic0 (ord : order) (contractABI topic0 : string) : option AbiEvent :=
  match abi_JSON contractABI with
  | Err _ => None
  | Ok parsed =>
      List.find (fun ev => bool_decide (ToLower (topic0Of ev) = ToLower topic0)) (ord (Events parsed))
  end.

Fixpoint isDynamicABIType (t : abi_type) : bool :=
  match t with
  | AbiType T elem tuple _ =>
      match T with
      | StringTy | BytesTy | SliceTy => true
      | ArrayTy => match elem with Some e => isDynamicABIType e | None => false end
      | TupleTy => existsb (fun ft => match ft with Some f => isDynamicABIType f | None => false end) tuple
      | _ => false
      end
  end.

Definition eventHasDynamicNonIndexedParam (ord : order) (contractABI topic0 : string) : bool :=
  if decide (contractABI = "" \/ topic0 = "") then false
  else match findEventByTopic0 ord contractABI topic0 with
  | None => false
  | Some ev => existsb (fun a => isDynamicABIType (arg_Type a)) (nonIndexedArgs ev)
  end.

(** ** Param rules *)

(** One rule of [MatchesEventParamRules]; an unknown constraint never matches. *)
Definition matchesParamRule (entry : logEntry) (viewerAddrs : gset string)
    (parsedEvent : option AbiEvent) (pr : ParamRule) : result bool :=
  if decide (pr_MustBe pr = "self")
  then matchesParamSelf entry (pr_Index pr) viewerAddrs parsedEvent
  else if isHexValue (pr_MustBe pr)
  then matchesParamCustom entry (pr_Index pr) (pr_MustBe pr) parsedEvent
  else Ok false.

(** A loop that returns [true] at the first match. *)
Fixpoint anyMatch {A} (f : nat -> A -> result bool) (k : nat) (l : list A) : result bool :=
  match l with
  | [] => Ok false
  | x :: l => b ← f k x; if (b : bool) then Ok true else anyMatch f (S k) l
  end.

Definition MatchesEventParamRules (ord : order) (log : logEntry) (paramRules : list ParamRule)
    (viewerAddrs : gset string) (abiJSON : string) : result bool :=
  if decide (paramRules = []) then Ok true
  else match le_Topics log with
  | [] => Ok false
  | topic0 :: _ =>
      let parsedEvent :=
        if decide (abiJSON = "") then None else findEventByTopic0 ord abiJSON topic0 in
      anyMatch (fun _ => matchesParamRule log viewerAddrs parsedEvent) 0 paramRules
  end.

(** [ABIProvider], with the optional [DynamicPayloadAllower] extension. *)
Record ABIProvider := {
  GetContractABI : string -> string;
  IsEventsAllowDynamicPayload : option (string -> bool) }.

Definition checkEventParamRules (ord : order) (entry : logEntry) (paramRules : list ParamRule)
    (addrSet : gset string) (contractAddr : string) (abiProvider : option ABIProvider)
  : result bool :=
  let abiJSON := match abiProvider with Some p => GetContractABI p contractAddr | None => "" end in
  MatchesEventParamRules ord entry paramRules addrSet abiJSON.

Definition eventTopic0Matches (topic0 : string) (rules : list EventRule) : bool :=
  existsb (fun rule => EqualFold (er_Topic0 rule) topic0) rules.

(** [rng k] is the order in which the [k]-th rule ranges over the ABI. *)
Definition eventAllowed (rng : nat -> order) (topic0 : string) (entry : logEntry)
    (rules : list EventRule) (addrSet : gset string) (contractAddr : string)
    (abiProvider : option ABIProvider) : result bool :=
  anyMatch (fun k rule =>
    if negb (EqualFold (er_Topic0 rule) topic0) then Ok false
    else if decide (er_ParamRules rule = []) then Ok true
    else checkEventParamRules (rng k) entry (er_ParamRules rule) addrSet contractAddr abiProvider)
    0 rules.

Definition eventRulesGetRules (f : option EventRulesField) : list EventRule :=
  match f with Some f => GetRules f | None => [] end.

(** ** The strict profile's matcher *)
Definition dataDecodes (nonIndexed : list Argument) (data : string) : bool :=
  match DecodeString (TrimPrefix (TrimPrefix data "0x") "0X") with
  | None => false
  | Some b =>
      if decide (nonIndexed = []) then bool_decide (b = [])
      else match UnpackArgs nonIndexed b with
      | None => false
      | Some values => bool_decide (PackArgs nonIndexed values = Some b)
      end
  end.

(** The loop over the indexed parameters: [None] is [(false, false)]. *)
Fixpoint indexedNamed (indexed : list Argument) (topics : list string) (linked : gset string)
    (named : bool) : option bool :=
  match indexed, topics with
  | arg :: indexed, topic :: topics =>
      let topic := ToLower topic in
      if negb (Nat.eqb (String.length topic) 66) || negb (HasPrefix topic "0x") then None
      else if decide (DecodeString (drop_str 2 topic) = None) then None
      else if decide (t_T (arg_Type arg) <> AddressTy)
      then indexedNamed indexed topics linked named
      else if negb (all_zeros (take_str 24 (drop_str 2 topic))) then None
      else indexedNamed indexed topics linked (named || mem linked ("0x" +:+ drop_str 26 topic))
  | _, _ => Some named
  end.

(** [Some named] when the declaration fits the log. *)
Definition eventNamesLinked (event : AbiEvent) (topics : list string) (data : string)
    (linked : gset string) : option bool :=
  if ev_Anonymous event then None
  else if negb (Nat.eqb (length topics) (S (length (indexedArgs event)))) then None
  else if negb (dataDecodes (nonIndexedArgs event) data) then None
  else indexedNamed (indexedArgs event) (tail topics) linked false.

(** The memo: ABI text to its events by topic0; [None] is an ABI that does not parse. *)
Definition Matcher := gmap string (option (gmap string (list AbiEvent))).

Definition groupByTopic0 (evs : list AbiEvent) : gmap string (list AbiEvent) :=
  foldl (fun out ev => <[topic0Of ev := default [] (out !! topic0Of ev) ++ [ev]]> out) ∅ evs.

Definition parseABI (ord : order) (contractABI : string) (m : Matcher)
  : option (gmap string (list AbiEvent)) * Matcher :=
  match m !! contractABI with
  | Some p => (p, m)
  | None =>
      let out := match abi_JSON contractABI with
                 | Ok p => Some (groupByTopic0 (ord (Events p)))
                 | Err _ => None
                 end in
      (out, <[contractABI := out]> m)
  end.

Fixpoint matchLayouts (events : list AbiEvent) (topics : list string) (data : string)
    (linked : gset string) (foundLayout : bool) : bool :=
  match events with
  | [] => foundLayout
  | event :: events =>
      match eventNamesLinked event topics data linked with
      | None => matchLayouts events topics data linked foundLayout
      | Some named =>
          if foundLayout || negb named then false
          else matchLayouts events topics data linked true
      end
  end.

Definition Match (ord : order) (contractABI : string) (topics : list string) (data : string)
    (linked : gset string) (m : Matcher) : bool * Matcher :=
  match topics with
  | [] => (false, m)
  | topic0 :: _ =>
      if decide (contractABI = "" \/ linked = ∅) then (false, m)
      else
        let '(byTopic0, m) := parseABI ord contractABI m in
        match byTopic0 with
        | None => (false, m)
        | Some byTopic0 =>
            (matchLayouts (default [] (byTopic0 !! ToLower topic0)) topics data linked false, m)
        end
  end.

(** ** Per-transaction visibility

    A [map[string]bool] read by key is the set of the keys that hold [true]. *)
Record TxVisibilityContext := {
  tv_ViewerDID : string;
  tv_TxVisibility : gmap string (list string);
  tv_UnlockableContracts : gset string;
  tv_ParticipantTxHashes : gset string }.

(** The log's transaction hash, lower-case; [None] when there is none to read. *)
Definition logTxHash (rawLog : raw) : option string :=
  match member_str "transactionHash" rawLog with
  | None | Some EmptyString => None
  | Some h => Some (ToLower h)
  end.

Definition isViewerInVisibleTo (visCtx : option TxVisibilityContext) (rawLog : raw) : bool :=
  match visCtx with
  | None => false
  | Some v =>
      if decide (tv_ViewerDID v = "" \/ tv_TxVisibility v = ∅) then false
      else match logTxHash rawLog with
      | None => false
      | Some h =>
          match tv_TxVisibility v !! h with
          | None => false
          | Some dids => contains dids (tv_ViewerDID v)
          end
      end
  end.

Definition logTxIsParticipant (visCtx : option TxVisibilityContext) (rawLog : raw) : bool :=
  match visCtx with
  | None => false
  | Some v =>
      if decide (tv_ParticipantTxHashes v = ∅) then false
      else match logTxHash rawLog with
      | None => false
      | Some h => mem (tv_ParticipantTxHashes v) h
      end
  end.

(** ** The filter *)
Record AdmittedLog := { al_Raw : raw; al_Payload : LogPayloadPolicy }.

Section filter.
Variable profile : ReadProfile.
Variable perms : EffectivePermissions.
Variable addrSet : gset string.
Variable abiProvider : option ABIProvider.
Variable visCtx : option TxVisibilityContext.
Variable isAdminByContract : gset string.

Definition contractABIOf (addr : string) : string :=
  match abiProvider with Some p => GetContractABI p addr | None => "" end.

Definition dynamicPayloadDropped (ord : order) (addr : string) (topics : list string) : bool :=
  match topics with
  | [] => false
  | topic0 :: _ =>
      if decide (contractABIOf addr = "") then false
      else
        let allowDynamic :=
          match abiProvider ≫= IsEventsAllowDynamicPayload with
          | Some allow => allow addr
          | None => false
          end in
        negb allowDynamic && eventHasDynamicNonIndexedParam ord (contractABIOf addr) topic0
  end.

(** [Rules], [EventAllowed] and [Topic0Allowlisted] of a log. *)
Definition resolveRules (rng : nat -> order) (entry : logEntry) (addr : string)
    (access : option ContractAccess) : result (LogEventRuleMode * bool * bool) :=
  match access with
  | None => Ok (LogEventRulesDeny, false, false)
  | Some access =>
      if match ca_EventRules access with Some f => IsWildcard f | None => false end
      then Ok (LogEventRulesWildcard, false, false)
      else match eventRulesGetRules (ca_EventRules access), le_Topics entry with
      | [], _ => Ok (LogEventRulesDeny, false, false)
      | _, [] => Ok (LogEventRulesAllowlist, false, false)
      | rules, t :: _ =>
          let topic0 := ToLower t in
          allowed ← eventAllowed rng topic0 entry rules addrSet addr abiProvider;
          Ok (LogEventRulesAllowlist, allowed, eventTopic0Matches topic0 rules)
      end
  end.

(** One iteration of the loop; [rng] numbers its ranges over the ABI. *)
Definition filterLog (rng : nat -> order) (rawLog : raw) : stM Matcher (option AdmittedLog) :=
  fun m =>
  match unmarshalLogEntry rawLog with
  | None => (Ok None, m)
  | Some entry =>
      let addr := ToLower (le_Address entry) in
      let access := GetContractAccess perms addr in
      let dropped := dynamicPayloadDropped (rng 0) addr (le_Topics entry) in
      let '(self, m) :=
        if Strict profile
        then Match (rng 1) (contractABIOf addr) (le_Topics entry) (le_Data entry) addrSet m
        else (false, m) in
      match resolveRules (fun k => rng (2 + k)) entry addr access with
      | Err e => (Err e, m)
      | Ok (rules, allowed, allowlisted) =>
          let facts := {|
            lf_IsAdmin := mem isAdminByContract addr;
            lf_Unlocked :=
              match visCtx with
              | Some v => mem (tv_UnlockableContracts v) addr && isViewerInVisibleTo visCtx rawLog
              | None => false
              end;
            lf_HasGrant := bool_decide (is_Some access);
            lf_ABIResolvable :=
              match abiProvider with
              | Some _ => negb (bool_decide (contractABIOf addr = ""))
              | None => true
              end;
            lf_DynamicPayloadDropped := dropped;
            lf_IsParticipant := logTxIsParticipant visCtx rawLog;
            lf_InVisibleTo := isViewerInVisibleTo visCtx rawLog;
            lf_Rules := rules;
            lf_HasTopic0 := negb (bool_decide (le_Topics entry = []));
            lf_EventAllowed := allowed;
            lf_Topic0Allowlisted := allowlisted;
            lf_IndexedSelf := self |} in
          let d := DecideLogEmitter profile facts in
          (Ok (if ld_Admit d then Some {| al_Raw := rawLog; al_Payload := ld_Payload d |} else None), m)
      end
  end.

Fixpoint filterLogs (rng : nat -> nat -> order) (i : nat) (logs : list raw)
  : stM Matcher (list AdmittedLog) :=
  match logs with
  | [] => mret []
  | rawLog :: logs =>
      r ← filterLog (rng i) rawLog;
      rest ← filterLogs rng (S i) logs;
      mret (match r with Some a => a :: rest | None => rest end)
  end.
End filter.

(** [rng i k] is the order of the [k]-th range of the [i]-th log. *)
Definition FilterEventLogsDetailed (rng : nat -> nat -> order) (profile : ReadProfile)
    (logs : list raw) (perms : option EffectivePermissions) (userAddresses : list string)
    (abiProvider : option ABIProvider) (visCtx : option TxVisibilityContext)
    (isAdminByContract : gset string) : result (list AdmittedLog) :=
  match logs, perms with
  | [], _ | _, None => Ok []
  | _, Some perms =>
      let addrSet := list_to_set (ToLower <$> userAddresses) in
      fst (filterLogs profile perms addrSet abiProvider visCtx isAdminByContract rng 0 logs ∅)
  end.

Definition FilterEventLogs (rng : nat -> nat -> order) (profile : ReadProfile)
    (logs : list raw) (perms : option EffectivePermissions) (userAddresses : list string)
    (abiProvider : option ABIProvider) (visCtx : option TxVisibilityContext)
    (isAdminByContract : gset string) : result (list raw) :=
  if decide (logs = []) then Ok logs
  else
    map al_Raw <$> FilterEventLogsDetailed rng profile logs perms userAddresses abiProvider visCtx
                     isAdminByContract.
End abi.
