(* ===== verification/EventFilterProps.v ===== *)
(** * Correctness of the event log filter.

    Lemmas on [EventFilter.v] and the theorems about it: the filter returns,
    and keeps exactly the logs the viewer is entitled to
    ([log_filter_exact]); the strict profile keeps a sublist of what the
    standard one keeps ([strict_profile_restricts]); the strict matcher,
    whatever its memo holds and in whatever order Go ranges over an ABI,
    accepts a log when exactly one declared layout fits it and names the viewer
    ([indexed_self_exact]). *)
From S2P Require Import Prelude GoStrings Methods Models Json ReadDecision EventFilter.

(** ** Strings *)
Lemma take_drop_str n s : take_str n s +:+ drop_str n s = s.
Proof.
  revert s. induction n as [|n IH]; intros [|a s]; try done.
  simpl. rewrite app_str_cons. by rewrite IH.
Qed.

Lemma drop_drop_str n m s : drop_str m (drop_str n s) = drop_str (n + m) s.
Proof. revert s. induction n as [|n IH]; intros [|a s]; try done; [by destruct m|apply IH]. Qed.

Lemma take_str_length n s : n <= String.length s -> String.length (take_str n s) = n.
Proof. revert s. induction n as [|n IH]; intros [|a s] Hn; simpl in *; try lia. rewrite IH; lia. Qed.

Lemma drop_str_length n s : String.length (drop_str n s) = String.length s - n.
Proof. revert s. induction n as [|n IH]; intros [|a s]; simpl; try done. Qed.

Lemma all_zeros_repeat s : all_zeros s = true -> s = repeat_zeros (String.length s).
Proof.
  induction s as [|a s IH]; simpl; [done|].
  intros [->%Ascii.eqb_eq Hs]%andb_true_iff. by rewrite <- IH.
Qed.

(** A topic that holds an address: 32 bytes, the first 12 zero. *)
Definition padded (addr : string) : string := "0x" +:+ repeat_zeros 24 +:+ addr.

Lemma topic_padded t :
  String.length t = 66 -> HasPrefix t "0x" = true ->
  all_zeros (take_str 24 (drop_str 2 t)) = true -> t = padded (drop_str 26 t).
Proof.
  intros Hl Hp Hz. apply all_zeros_repeat in Hz.
  rewrite take_str_length in Hz by (rewrite drop_str_length; lia).
  rewrite (HasPrefix_inv t "0x" Hp) at 1. change (String.length "0x") with 2. unfold padded. f_equal.
  rewrite <- (take_drop_str 24 (drop_str 2 t)), Hz, drop_drop_str. done.
Qed.

(** ** Loops that stop at the first match *)
Lemma anyMatch_true {A} (f : nat -> A -> result bool) k l :
  anyMatch f k l = Ok true -> exists j x, l !! j = Some x /\ f (k + j) x = Ok true.
Proof.
  revert k. induction l as [|x l IH]; intros k; simpl; [done|].
  intros ([] & Hf & Hb)%bind_Ok.
  - exists 0, x. by rewrite Nat.add_0_r.
  - destruct (IH _ Hb) as (j & y & ? & ?). exists (S j), y. by rewrite Nat.add_succ_r.
Qed.

Lemma anyMatch_false {A} (f : nat -> A -> result bool) k l j x :
  anyMatch f k l = Ok false -> l !! j = Some x -> f (k + j) x = Ok false.
Proof.
  revert k j. induction l as [|y l IH]; intros k j; simpl; [done|].
  intros ([] & Hf & Hb)%bind_Ok; [done|]. destruct j as [|j]; simpl.
  - intros [= ->]. by rewrite Nat.add_0_r.
  - rewrite Nat.add_succ_r. by apply (IH (S k)).
Qed.

Lemma anyMatch_total {A} (f : nat -> A -> result bool) k l :
  (forall j x, l !! j = Some x -> exists b, f (k + j) x = Ok b) -> exists b, anyMatch f k l = Ok b.
Proof.
  revert k. induction l as [|x l IH]; intros k Hf; simpl; [eauto|].
  destruct (Hf 0 x eq_refl) as [b Hb]. rewrite Nat.add_0_r in Hb. rewrite Hb. simpl.
  destruct b; [eauto|]. apply IH. intros j y Hj.
  destruct (Hf (S j) y Hj) as [b Hb']. rewrite Nat.add_succ_r in Hb'. eauto.
Qed.

(** When the loop returns, it returns whether some iteration matches. *)
Lemma anyMatch_Ok {A} (f : nat -> A -> result bool) k l b :
  anyMatch f k l = Ok b ->
  b = true <-> exists j x, l !! j = Some x /\ f (k + j) x = Ok true.
Proof.
  intros Hb. split.
  - intros ->. by apply anyMatch_true.
  - intros (j & x & Hj & Hf). destruct b; [done|].
    rewrite (anyMatch_false _ _ _ _ _ Hb Hj) in Hf. done.
Qed.

(** ** What entitles a viewer to a log *)
Section spec.
Context `{EventABI}.
Variable perms : EffectivePermissions.
Variable addrSet : gset string.
Variable abiProvider : option ABIProvider.
Variable visCtx : option TxVisibilityContext.
Variable isAdminByContract : gset string.

(** The viewer is listed on the log's own transaction. *)
Definition listed (rawLog : raw) : Prop :=
  exists v h dids, visCtx = Some v /\ tv_ViewerDID v <> "" /\ logTxHash rawLog = Some h /\
    tv_TxVisibility v !! h = Some dids /\ tv_ViewerDID v ∈ dids.

(** The viewer took part in the log's own transaction. *)
Definition took_part (rawLog : raw) : Prop :=
  exists v h, visCtx = Some v /\ logTxHash rawLog = Some h /\ h ∈ tv_ParticipantTxHashes v.

(** The event declaration a rule reads, [ord] being the order of its range. *)
Definition declared (ord : order) (addr : string) (entry : logEntry) : option AbiEvent :=
  if decide (contractABIOf abiProvider addr = "") then None
  else t ← head (le_Topics entry); findEventByTopic0 ord (contractABIOf abiProvider addr) t.

(** A rule of the grant names the event, and one of its parameter rules, if it
    has any, is satisfied or waived. *)
Definition rule_admits (rng : nat -> order) (entry : logEntry) (access : ContractAccess)
    (waived : Prop) : Prop :=
  exists k rule topic0, eventRulesGetRules (ca_EventRules access) !! k = Some rule /\
    head (le_Topics entry) = Some topic0 /\ EqualFold (er_Topic0 rule) (ToLower topic0) = true /\
    (er_ParamRules rule = [] \/ waived \/
     exists pr, pr ∈ er_ParamRules rule /\
       matchesParamRule entry addrSet (declared (rng k) (ToLower (le_Address entry)) entry) pr
         = Ok true).

Definition event_admitted (rng : nat -> order) (entry : logEntry) (access : ContractAccess)
    (waived : Prop) : Prop :=
  (exists f, ca_EventRules access = Some f /\ IsWildcard f = true) \/
  rule_admits rng entry access waived.

(** The emitter's ABI is known, so that addresses in the payload can be masked,
    and the payload has no dynamic part unless the contract opted out. *)
Definition maskable (ord : order) (entry : logEntry) : Prop :=
  let addr := ToLower (le_Address entry) in
  forall p, abiProvider = Some p ->
    GetContractABI p addr <> "" /\
    ((exists allow, IsEventsAllowDynamicPayload p = Some allow /\ allow addr = true) \/
     forall topic0, head (le_Topics entry) = Some topic0 ->
       eventHasDynamicNonIndexedParam ord (GetContractABI p addr) topic0 = false).

(** Exactly one event the ABI declares under the log's topic0 fits the log, and
    it names the viewer in an indexed address. *)
Definition names_viewer (contractABI : string) (topics : list string) (data : string) : Prop :=
  contractABI <> "" /\ addrSet <> ∅ /\
  exists topic0 p e, head topics = Some topic0 /\ abi_JSON contractABI = Ok p /\
    filter (fun e => topic0Of e = ToLower topic0 /\
                     is_Some (eventNamesLinked e topics data addrSet)) (Events p) = [e] /\
    eventNamesLinked e topics data addrSet = Some true.

(** The emitter is opted in for the viewer, who is listed on the transaction. *)
Definition unlocked (rawLog : raw) (addr : string) : Prop :=
  exists v, visCtx = Some v /\ addr ∈ tv_UnlockableContracts v /\ listed rawLog.

(** Who reads a log, under which profile, and with which payload. *)
Inductive log_entitled (rng : nat -> order) (rawLog : raw) (entry : logEntry)
  : ReadProfile -> LogPayloadPolicy -> Prop :=
| entitled_unlock :
    unlocked rawLog (ToLower (le_Address entry)) ->
    log_entitled rng rawLog entry ReadProfileStandard LogPayloadFull
| entitled_admin :
    ~ unlocked rawLog (ToLower (le_Address entry)) ->
    ToLower (le_Address entry) ∈ isAdminByContract ->
    log_entitled rng rawLog entry ReadProfileStandard LogPayloadMasked
| entitled_grant access :
    ~ unlocked rawLog (ToLower (le_Address entry)) ->
    GetContractAccess perms (ToLower (le_Address entry)) = Some access ->
    maskable (rng 0) entry ->
    took_part rawLog \/ event_admitted (fun k => rng (2 + k)) entry access (listed rawLog) ->
    log_entitled rng rawLog entry ReadProfileStandard LogPayloadMasked
| entitled_strict profile access :
    profile <> ReadProfileStandard ->
    GetContractAccess perms (ToLower (le_Address entry)) = Some access ->
    maskable (rng 0) entry ->
    names_viewer (contractABIOf abiProvider (ToLower (le_Address entry)))
      (le_Topics entry) (le_Data entry) ->
    ToLower (le_Address entry) ∈ isAdminByContract \/
      event_admitted (fun k => rng (2 + k)) entry access False ->
    log_entitled rng rawLog entry profile LogPayloadMasked.
End spec.

(** ** The strict matcher *)
Section matcher.
Context `{EventABI}.

Lemma groupByTopic0_acc evs (acc : gmap string (list AbiEvent)) k :
  default [] (foldl (fun out ev => <[topic0Of ev := default [] (out !! topic0Of ev) ++ [ev]]> out)
                acc evs !! k) =
  default [] (acc !! k) ++ filter (fun e => topic0Of e = k) evs.
Proof.
  revert acc. induction evs as [|e evs IH]; intros acc; simpl; [by rewrite app_nil_r|].
  rewrite IH, filter_cons. destruct (decide (topic0Of e = k)) as [->|Hne].
  - rewrite lookup_insert_eq. simpl. by rewrite <- app_assoc.
  - by rewrite lookup_insert_ne.
Qed.

Lemma groupByTopic0_lookup evs k :
  default [] (groupByTopic0 evs !! k) = filter (fun e => topic0Of e = k) evs.
Proof. unfold groupByTopic0. by rewrite groupByTopic0_acc, lookup_empty. Qed.

Section layouts.
Variables (topics : list string) (data : string) (linked : gset string).
Let fits (e : AbiEvent) : Prop := is_Some (eventNamesLinked e topics data linked).

Lemma matchLayouts_found evs :
  matchLayouts evs topics data linked true = true <-> filter fits evs = [].
Proof.
  induction evs as [|e evs IH]; simpl; [done|]. rewrite filter_cons.
  destruct (decide (fits e)) as [[named E]|Hn].
  - by rewrite E.
  - apply eq_None_not_Some in Hn. by rewrite Hn.
Qed.

Lemma matchLayouts_spec evs :
  matchLayouts evs topics data linked false = true <->
  exists e, filter fits evs = [e] /\ eventNamesLinked e topics data linked = Some true.
Proof.
  induction evs as [|e evs IH]; simpl; [naive_solver|]. rewrite filter_cons.
  destruct (decide (fits e)) as [[named E]|Hn].
  - rewrite E. destruct named; simpl; [rewrite matchLayouts_found|naive_solver].
    split; [intros ->; eauto|]. by intros (e' & [= _ ?] & _).
  - apply eq_None_not_Some in Hn. by rewrite Hn.
Qed.
End layouts.

(** A matcher as a pass leaves it: new, or after calls of [Match] whose ranges
    visit the events of an ABI in any order. *)
Inductive matcher_reached : Matcher -> Prop :=
| reached_new : matcher_reached ∅
| reached_match ord contractABI topics data linked m :
    matcher_reached m -> (forall l, ord l ≡ₚ l) ->
    matcher_reached (Match ord contractABI topics data linked m).2.

(** Every memo entry is a grouping of the events of its ABI. *)
Definition memo_ok (m : Matcher) : Prop :=
  forall contractABI p, m !! contractABI = Some p ->
    match abi_JSON contractABI with
    | Err _ => p = None
    | Ok q => exists l, l ≡ₚ Events q /\ p = Some (groupByTopic0 l)
    end.

Lemma parseABI_ok ord contractABI m p m' :
  memo_ok m -> (forall l, ord l ≡ₚ l) -> parseABI ord contractABI m = (p, m') ->
  memo_ok m' /\
  match abi_JSON contractABI with
  | Err _ => p = None
  | Ok q => exists l, l ≡ₚ Events q /\ p = Some (groupByTopic0 l)
  end.
Proof.
  intros Hm Hord. unfold parseABI. destruct (m !! contractABI) as [p'|] eqn:E.
  { intros [= -> ->]. split; [done|]. by apply Hm in E. }
  intros [= Hp <-].
  assert (Hnew : match abi_JSON contractABI with
                 | Err _ => p = None
                 | Ok q => exists l, l ≡ₚ Events q /\ p = Some (groupByTopic0 l)
                 end) by (subst p; destruct (abi_JSON contractABI); eauto).
  rewrite Hp. split; [|done]. intros k q [[-> ->]|[_ Hq]]%lookup_insert_Some; [done|by apply Hm].
Qed.

Lemma Match_memo ord contractABI topics data linked m :
  memo_ok m -> (forall l, ord l ≡ₚ l) -> memo_ok (Match ord contractABI topics data linked m).2.
Proof.
  intros Hm Hord. unfold Match. destruct topics as [|t ts]; [done|]. case_decide; [done|].
  destruct (parseABI _ _ _) as [p m'] eqn:E. apply parseABI_ok in E as [Hm' _]; [|done..].
  by destruct p.
Qed.

Lemma reached_memo m : matcher_reached m -> memo_ok m.
Proof. induction 1; [done|by apply Match_memo]. Qed.

Lemma Match_names ord contractABI topics data linked m :
  memo_ok m -> (forall l, ord l ≡ₚ l) ->
  (Match ord contractABI topics data linked m).1 = true <->
  names_viewer linked contractABI topics data.
Proof.
  intros Hm Hord. unfold Match, names_viewer. destruct topics as [|t ts]; [naive_solver|].
  case_decide as Hd; [naive_solver|]. destruct (parseABI _ _ _) as [p m'] eqn:E.
  apply parseABI_ok in E as [_ Hp]; [|done..].
  destruct (abi_JSON contractABI) as [q|] eqn:Ej; [|subst p; naive_solver].
  destruct Hp as (l & Hl & ->). simpl.
  rewrite groupByTopic0_lookup, matchLayouts_spec.
  assert (Hf : forall e, filter (fun e => is_Some (eventNamesLinked e (t :: ts) data linked))
                 (filter (fun e => topic0Of e = ToLower t) l) = [e] <->
               filter (fun e => topic0Of e = ToLower t /\
                 is_Some (eventNamesLinked e (t :: ts) data linked)) (Events q) = [e]).
  { intros e. rewrite list_filter_filter, <- !Permutation_singleton_r, <- Hl.
    rewrite (list_filter_iff _ (fun e => topic0Of e = ToLower t /\
               is_Some (eventNamesLinked e (t :: ts) data linked))); [done|tauto]. }
  split.
  - intros (e & He & Hn). split_and!; [naive_solver..|]. exists t, q, e.
    split_and!; [done|done|by apply Hf|done].
  - intros (_ & _ & t' & q' & e & [= <-] & [= <-] & He & Hn). exists e. split; [by apply Hf|done].
Qed.

(** What a layout that names the viewer says of the log: one of its indexed
    topics is a linked address, padded to 32 bytes. *)
Lemma indexedNamed_true indexed topics linked named :
  indexedNamed indexed topics linked named = Some true ->
  named = true \/ exists i arg topic addr, indexed !! i = Some arg /\ t_T (arg_Type arg) = AddressTy /\
    topics !! i = Some topic /\ ToLower topic = padded addr /\ "0x" +:+ addr ∈ linked.
Proof.
  revert topics named. induction indexed as [|arg indexed IH]; intros [|topic topics] named; simpl;
    try (intros [= ->]; by left).
  destruct (negb _ || negb _) eqn:Eg; [done|].
  apply orb_false_iff in Eg as [Hl%negb_false_iff%Nat.eqb_eq Hp%negb_false_iff].
  case_decide; [done|].
  assert (Hstep : forall b, indexedNamed indexed topics linked b = Some true ->
    b = true \/ exists i arg' topic' addr, (arg :: indexed) !! i = Some arg' /\
      t_T (arg_Type arg') = AddressTy /\ (topic :: topics) !! i = Some topic' /\
      ToLower topic' = padded addr /\ "0x" +:+ addr ∈ linked).
  { intros b [?|(i & ?)]%IH; [by left|right]. by exists (S i). }
  case_decide as Ht; [apply Hstep|]. destruct (negb _) eqn:Ez; [done|].
  apply negb_false_iff in Ez. intros [[?|Hin%mem_true]%orb_true_iff|?]%Hstep; [by left| |by right].
  right. exists 0, arg, topic, (drop_str 26 (ToLower topic)). split_and!; try done.
  by apply topic_padded.
Qed.

Lemma names_viewer_topic linked contractABI topics data :
  names_viewer linked contractABI topics data ->
  exists topic addr, topic ∈ topics /\ ToLower topic = padded addr /\ "0x" +:+ addr ∈ linked.
Proof.
  intros (_ & _ & t0 & p & e & _ & _ & _ & Hn). revert Hn. unfold eventNamesLinked.
  destruct (ev_Anonymous e); [done|]. destruct (negb _); [done|]. destruct (negb _); [done|].
  intros [?|(i & arg & topic & addr & _ & _ & Hi & ? & ?)]%indexedNamed_true; [done|].
  exists topic, addr. split_and!; [|done|done]. destruct topics; [done|].
  apply elem_of_cons. right. by eapply list_elem_of_lookup_2.
Qed.
End matcher.

(** ** The facts of a log *)
Section facts.
Context `{EventABI}.
Variable perms : EffectivePermissions.
Variable addrSet : gset string.
Variable abiProvider : option ABIProvider.
Variable visCtx : option TxVisibilityContext.
Variable isAdminByContract : gset string.

Lemma isViewerInVisibleTo_true rawLog :
  isViewerInVisibleTo visCtx rawLog = true <-> listed visCtx rawLog.
Proof.
  unfold isViewerInVisibleTo, listed. destruct visCtx as [v|]; [|naive_solver].
  case_decide as Hd.
  { split; [done|]. intros (v' & h & dids & [= <-] & ? & _ & Hv & _).
    destruct Hd as [?|Hd]; [done|]. by rewrite Hd, lookup_empty in Hv. }
  destruct (logTxHash rawLog) as [h|]; [|naive_solver].
  destruct (tv_TxVisibility v !! h) as [dids|] eqn:E; [rewrite contains_true|]; naive_solver.
Qed.

Lemma logTxIsParticipant_true rawLog :
  logTxIsParticipant visCtx rawLog = true <-> took_part visCtx rawLog.
Proof.
  unfold logTxIsParticipant, took_part. destruct visCtx as [v|]; [|naive_solver].
  case_decide as Hd; [set_solver|].
  destruct (logTxHash rawLog) as [h|]; [rewrite mem_true|]; naive_solver.
Qed.

Lemma unlocked_true rawLog addr :
  match visCtx with
  | Some v => mem (tv_UnlockableContracts v) addr && isViewerInVisibleTo visCtx rawLog
  | None => false
  end = true <-> unlocked visCtx rawLog addr.
Proof.
  unfold unlocked. pose proof (isViewerInVisibleTo_true rawLog) as Hl.
  destruct visCtx as [v|]; [rewrite andb_true_iff, mem_true|]; naive_solver.
Qed.

Lemma maskable_iff ord entry :
  maskable abiProvider ord entry <->
  match abiProvider with
  | Some _ => negb (bool_decide (contractABIOf abiProvider (ToLower (le_Address entry)) = ""))
  | None => true
  end = true /\
  dynamicPayloadDropped abiProvider ord (ToLower (le_Address entry)) (le_Topics entry) = false.
Proof.
  unfold maskable, dynamicPayloadDropped, contractABIOf. destruct abiProvider as [p|]; simpl.
  2:{ destruct (le_Topics entry); naive_solver. }
  rewrite negb_true_iff, bool_decide_eq_false.
  destruct (le_Topics entry) as [|t ts]; simpl.
  { split; [intros Hm; by destruct (Hm p eq_refl)|]. intros [Ha _] p' [= <-]. split; [done|].
    right. done. }
  split.
  - intros Hm. destruct (Hm p eq_refl) as [Ha Hd]. split; [done|]. rewrite decide_False by done.
    apply andb_false_iff. destruct Hd as [(allow & -> & ->)|Hd]; [by left|right; by apply Hd].
  - intros [Ha Hd] p' [= <-]. split; [done|]. rewrite decide_False in Hd by done.
    apply andb_false_iff in Hd as [Hd%negb_false_iff|Hd]; [left|right].
    + destruct (IsEventsAllowDynamicPayload p) as [allow|]; [eauto|done].
    + by intros t' [= <-].
Qed.

(** ** Event rules *)
Lemma checkEventParamRules_Ok ord entry prs t b :
  prs <> [] -> head (le_Topics entry) = Some t ->
  checkEventParamRules ord entry prs addrSet (ToLower (le_Address entry)) abiProvider = Ok b ->
  b = true <-> exists pr, pr ∈ prs /\
    matchesParamRule entry addrSet
      (declared abiProvider ord (ToLower (le_Address entry)) entry) pr = Ok true.
Proof.
  intros Hne Ht. unfold checkEventParamRules, MatchesEventParamRules, declared.
  rewrite decide_False by done. destruct (le_Topics entry) as [|t' ts]; [done|]. simplify_eq/=.
  fold (contractABIOf abiProvider (ToLower (le_Address entry))).
  intros Hb%anyMatch_Ok. rewrite Hb. setoid_rewrite list_elem_of_lookup. naive_solver.
Qed.

Lemma eventAllowed_Ok rng entry rules t b :
  head (le_Topics entry) = Some t ->
  eventAllowed rng (ToLower t) entry rules addrSet (ToLower (le_Address entry)) abiProvider = Ok b ->
  b = true <-> exists k rule, rules !! k = Some rule /\
    EqualFold (er_Topic0 rule) (ToLower t) = true /\
    (er_ParamRules rule = [] \/ exists pr, pr ∈ er_ParamRules rule /\
       matchesParamRule entry addrSet
         (declared abiProvider (rng k) (ToLower (le_Address entry)) entry) pr = Ok true).
Proof.
  intros Ht. unfold eventAllowed. intros Hb. split.
  - intros ->. apply anyMatch_true in Hb as (k & rule & Hk & Hr). exists k, rule. split; [done|].
    simpl in Hr. destruct (EqualFold _ _) eqn:Ef; [|done]. simpl in Hr. split; [done|].
    case_decide as Hp; [by left|right].
    by apply (checkEventParamRules_Ok _ _ _ _ true Hp Ht Hr).
  - intros (k & rule & Hk & Hf & Hr). destruct b; [done|].
    apply (anyMatch_false _ _ _ k rule) in Hb; [|done]. simpl in Hb. rewrite Hf in Hb. simpl in Hb.
    case_decide as Hp; [done|]. destruct Hr as [?|Hr]; [done|].
    by apply (checkEventParamRules_Ok _ _ _ _ false Hp Ht Hb).
Qed.

(** The rules of a grant, resolved, admit what the grant's rules admit. *)
Lemma resolveRules_Ok rng entry access mode allowed allowlisted waived :
  resolveRules addrSet abiProvider rng entry (ToLower (le_Address entry)) (Some access)
    = Ok (mode, allowed, allowlisted) ->
  (mode = LogEventRulesWildcard \/
   mode = LogEventRulesAllowlist /\ negb (bool_decide (le_Topics entry = [])) = true /\
   (allowed = true \/ allowlisted = true /\ waived = true)) <->
  event_admitted addrSet abiProvider rng entry access (waived = true).
Proof.
  unfold resolveRules, event_admitted, rule_admits.
  destruct (ca_EventRules access) as [f|] eqn:Ef; simpl.
  2:{ intros [= <- <- <-]. split; [intuition congruence|].
      by intros [(f' & ? & _)|(k & rule & t & Hk & _)]. }
  destruct (IsWildcard f) eqn:Ew.
  { intros [= <- <- <-]. split; [|by left]. intros _. left. eauto. }
  destruct (GetRules f) as [|r0 rs].
  { intros [= <- <- <-]. split; [intuition congruence|].
    intros [(f' & [= <-] & ?)|(k & rule & t & Hk & _)]; [congruence|done]. }
  destruct (le_Topics entry) as [|t ts] eqn:Et.
  { intros [= <- <- <-]. split; [intros [?|(_ & ? & _)]; done|].
    intros [(f' & [= <-] & ?)|(k & rule & t & _ & ? & _)]; [congruence|done]. }
  intros (b & Hb & [= <- <- <-])%bind_Ok.
  assert (Ht : head (le_Topics entry) = Some t) by by rewrite Et.
  rewrite (eventAllowed_Ok _ _ _ t b Ht Hb).
  change (EqualFold (er_Topic0 r0) (ToLower t) || _)
    with (existsb (fun rule => EqualFold (er_Topic0 rule) (ToLower t)) (r0 :: rs)).
  rewrite existsb_true.
  setoid_rewrite (list_elem_of_lookup (r0 :: rs)). simpl. split.
  - intros [?|(_ & _ & [(k & rule & ? & ? & Hr)|((rule & (k & ?) & ?) & ?)])]; [done|right..];
      exists k, rule, t; naive_solver.
  - intros [(f' & [= <-] & ?)|(k & rule & t' & ? & [= <-] & ? & [?|[?|?]])]; [congruence|right..];
      (split; [done|]); (split; [done|]); [left|right|left]; naive_solver.
Qed.

(** ** No index is out of range when the parameter rules' are not. *)
Lemma matchesParam_total entry i pe g ot od :
  (0 <= i < 2 ^ 63 - 1)%Z -> exists b, matchesParam entry i pe g ot od = Ok b.
Proof.
  intros Hi. unfold matchesParam. destruct pe as [ev|]; [repeat case_match; eauto|].
  assert (Hadd : int_add i 1 = (i + 1)%Z).
  { unfold int_add. rewrite Z.mod_small; lia. }
  rewrite Hadd. destruct (i + 1 <? _)%Z eqn:El; [|eauto]. apply Z.ltb_lt in El.
  unfold index. destruct (i + 1 <? 0)%Z eqn:En; [apply Z.ltb_lt in En; lia|].
  destruct (lookup_lt_is_Some_2 (le_Topics entry) (Z.to_nat (i + 1))) as [t ->]; [lia|].
  simpl. eauto.
Qed.

(** Parameter positions are those of a slice. *)
Definition valid_rules (rules : list EventRule) : Prop :=
  forall rule pr, rule ∈ rules -> pr ∈ er_ParamRules rule -> (0 <= pr_Index pr < 2 ^ 63 - 1)%Z.

Lemma eventAllowed_total rng topic0 entry rules addr :
  valid_rules rules ->
  exists b, eventAllowed rng topic0 entry rules addrSet addr abiProvider = Ok b.
Proof.
  intros Hv. apply anyMatch_total. intros j rule Hj. simpl.
  destruct (EqualFold _ _); simpl; [|eauto]. case_decide; [eauto|].
  unfold checkEventParamRules, MatchesEventParamRules. case_decide; [eauto|].
  destruct (le_Topics entry); [eauto|]. apply anyMatch_total. intros j' pr Hj'.
  assert (Hi : (0 <= pr_Index pr < 2 ^ 63 - 1)%Z).
  { by apply (Hv rule pr); eapply list_elem_of_lookup_2. }
  unfold matchesParamRule. repeat case_match; try by eauto; by apply matchesParam_total.
Qed.

Definition valid_perms : Prop :=
  forall addr access, ep_ContractAccess perms !! addr = Some access ->
    valid_rules (eventRulesGetRules (ca_EventRules access)).

Lemma resolveRules_total rng entry addr :
  valid_perms ->
  exists r, resolveRules addrSet abiProvider rng entry addr (GetContractAccess perms addr) = Ok r.
Proof.
  intros Hv. unfold resolveRules. destruct (GetContractAccess perms addr) as [access|] eqn:E; [|eauto].
  assert (Hr : valid_rules (eventRulesGetRules (ca_EventRules access))).
  { unfold GetContractAccess in E. destruct (ep_ContractAccess perms !! _) eqn:El.
    - simplify_eq. eapply Hv. done.
    - destruct (IsPrecompileAddress _); simplify_eq/=. intros rule pr ?. set_solver. }
  destruct (match ca_EventRules access with Some f => IsWildcard f | None => false end); [eauto|].
  destruct (eventRulesGetRules _) as [|r rs]; [eauto|]. destruct (le_Topics entry) as [|t ts]; [eauto|].
  destruct (eventAllowed_total rng (ToLower t) entry (r :: rs) addr Hr) as [b ->]. simpl. eauto.
Qed.
End facts.

(** ** The filter *)
Section filter_ok.
Context `{EventABI}.
Variable profile : ReadProfile.
Variable perms : EffectivePermissions.
Variable addrSet : gset string.
Variable abiProvider : option ABIProvider.
Variable visCtx : option TxVisibilityContext.
Variable isAdminByContract : gset string.

Notation entitled := (log_entitled perms addrSet abiProvider visCtx isAdminByContract).

(** The facts of a log, as the loop resolves them. *)
Definition factsOf (rng : nat -> order) (rawLog : raw) (entry : logEntry)
    (r : LogEventRuleMode * bool * bool) (self : bool) : LogEmitterFacts := {|
  lf_IsAdmin := mem isAdminByContract (ToLower (le_Address entry));
  lf_Unlocked :=
    match visCtx with
    | Some v =>
        mem (tv_UnlockableContracts v) (ToLower (le_Address entry)) &&
        isViewerInVisibleTo visCtx rawLog
    | None => false
    end;
  lf_HasGrant := bool_decide (is_Some (GetContractAccess perms (ToLower (le_Address entry))));
  lf_ABIResolvable :=
    match abiProvider with
    | Some _ => negb (bool_decide (contractABIOf abiProvider (ToLower (le_Address entry)) = ""))
    | None => true
    end;
  lf_DynamicPayloadDropped :=
    dynamicPayloadDropped abiProvider (rng 0) (ToLower (le_Address entry)) (le_Topics entry);
  lf_IsParticipant := logTxIsParticipant visCtx rawLog;
  lf_InVisibleTo := isViewerInVisibleTo visCtx rawLog;
  lf_Rules := r.1.1;
  lf_HasTopic0 := negb (bool_decide (le_Topics entry = []));
  lf_EventAllowed := r.1.2;
  lf_Topic0Allowlisted := r.2;
  lf_IndexedSelf := self |}.

Definition rulesOf (rng : nat -> order) (entry : logEntry) : result (LogEventRuleMode * bool * bool) :=
  resolveRules addrSet abiProvider (fun k => rng (2 + k)) entry (ToLower (le_Address entry))
    (GetContractAccess perms (ToLower (le_Address entry))).

Lemma gates_pass_iff rng rawLog entry r self :
  gates_pass (factsOf rng rawLog entry r self) <->
  (exists access, GetContractAccess perms (ToLower (le_Address entry)) = Some access) /\
  maskable abiProvider (rng 0) entry.
Proof. rewrite maskable_iff. unfold gates_pass, factsOf, is_Some; simpl. by rewrite bool_decide_eq_true. Qed.

Lemma rules_admit_iff rng rawLog entry r self access fallback :
  rulesOf rng entry = Ok r -> GetContractAccess perms (ToLower (le_Address entry)) = Some access ->
  rules_admit (factsOf rng rawLog entry r self) fallback <->
  event_admitted addrSet abiProvider (fun k => rng (2 + k)) entry access (fallback = true).
Proof.
  unfold rulesOf. intros Hr Ha. rewrite Ha in Hr. destruct r as [[mode b1] b2].
  by rewrite <- (resolveRules_Ok _ _ _ _ _ _ _ _ fallback Hr).
Qed.

Lemma event_admitted_iff rng entry access (P Q : Prop) : (P <-> Q) ->
  event_admitted addrSet abiProvider rng entry access P <->
  event_admitted addrSet abiProvider rng entry access Q.
Proof. intros HPQ. unfold event_admitted, rule_admits. by setoid_rewrite HPQ. Qed.

(** Standard profile: the decision on the facts is the entitlement. *)
Lemma standard_decision rng rawLog entry r self pol :
  rulesOf rng entry = Ok r ->
  (let d := DecideLogEmitter ReadProfileStandard (factsOf rng rawLog entry r self) in
   ld_Admit d = true /\ ld_Payload d = pol) <->
  entitled rng rawLog entry ReadProfileStandard pol.
Proof.
  intros Hr. set (f := factsOf rng rawLog entry r self). simpl.
  assert (Hun : lf_Unlocked f = true <-> unlocked visCtx rawLog (ToLower (le_Address entry)))
    by apply unlocked_true.
  pose proof (DecideLogEmitter_full ReadProfileStandard f) as Hfull.
  assert (Hmasked : ~ unlocked visCtx rawLog (ToLower (le_Address entry)) ->
    ld_Payload (DecideLogEmitter ReadProfileStandard f) = LogPayloadMasked).
  { intros Hnu. destruct (ld_Payload _) eqn:Ep; [done|]. exfalso. by apply Hnu, Hun, (proj1 Hfull). }
  assert (Hadm : lf_IsAdmin f = true <-> ToLower (le_Address entry) ∈ isAdminByContract)
    by apply mem_true.
  assert (Hpart : lf_IsParticipant f = true <-> took_part visCtx rawLog)
    by apply logTxIsParticipant_true.
  pose proof (gates_pass_iff rng rawLog entry r self) as Hgates. fold f in Hgates.
  rewrite DecideLogEmitter_admits, Hgates, Hadm, Hpart. clear Hgates Hadm Hpart. split.
  - intros [Hev <-]. destruct (lf_Unlocked f) eqn:Eu.
    { rewrite (proj2 Hfull) by done. by apply entitled_unlock, Hun. }
    assert (Hnu : ~ unlocked visCtx rawLog (ToLower (le_Address entry))) by (rewrite <- Hun; done).
    rewrite Hmasked by done. destruct Hev as [?|[?|([[access Ha] Hmask] & Hev)]]; [done|by apply entitled_admin|].
    eapply entitled_grant; [done..|]. destruct Hev as [?|Hev]; [by left|right].
    apply (rules_admit_iff _ _ _ _ _ _ _ Hr Ha) in Hev. revert Hev.
    apply event_admitted_iff. symmetry. apply isViewerInVisibleTo_true.
  - inversion 1 as [Hu|Hnu Ha|access Hnu Ha Hm Hev|? access Hp]; subst.
    + split; [left; by apply Hun|]. apply Hfull. split; [done|by apply Hun].
    + split; [tauto|by apply Hmasked].
    + split; [|by apply Hmasked]. right; right. split; [eauto|]. destruct Hev as [?|Hev]; [by left|right].
      apply (rules_admit_iff _ _ _ _ _ _ _ Hr Ha). revert Hev. apply event_admitted_iff.
      apply isViewerInVisibleTo_true.
    + done.
Qed.

(** Every other profile: the strict decision. *)
Lemma strict_decision rng rawLog entry r self pol :
  profile <> ReadProfileStandard -> rulesOf rng entry = Ok r ->
  (self = true <-> names_viewer addrSet (contractABIOf abiProvider (ToLower (le_Address entry)))
                     (le_Topics entry) (le_Data entry)) ->
  (let d := DecideLogEmitter profile (factsOf rng rawLog entry r self) in
   ld_Admit d = true /\ ld_Payload d = pol) <->
  entitled rng rawLog entry profile pol.
Proof.
  intros Hp Hr Hself. set (f := factsOf rng rawLog entry r self). simpl.
  assert (Hpol : ld_Payload (DecideLogEmitter profile f) = LogPayloadMasked).
  { destruct (ld_Payload _) eqn:Ep; [done|]. by apply DecideLogEmitter_full in Ep as [-> _]. }
  rewrite Hpol. unfold DecideLogEmitter.
  destruct (Strict profile) eqn:Es; [|by apply Strict_false in Es].
  assert (Hadm : lf_IsAdmin f = true <-> ToLower (le_Address entry) ∈ isAdminByContract)
    by apply mem_true.
  pose proof (gates_pass_iff rng rawLog entry r self) as Hgates. fold f in Hgates.
  change self with (lf_IndexedSelf f) in Hself.
  rewrite decideLogEmitterStrict_admits, Hgates, Hadm, Hself. clear Hgates Hadm Hself. split.
  - intros [(Hn & ((access & Ha) & Hm) & Hev) <-]. eapply entitled_strict; try done.
    destruct Hev as [?|Hev]; [by left|right].
    apply (rules_admit_iff _ _ _ _ _ _ _ Hr Ha) in Hev. revert Hev. by apply event_admitted_iff.
  - inversion 1 as [Hu|Hnu Ha|access Hnu Ha Hm Hev|? access ? Ha Hm Hn Hev]; subst; try done.
    split_and!; eauto. destruct Hev as [?|Hev]; [by left|right].
    apply (rules_admit_iff _ _ _ _ _ _ _ Hr Ha). revert Hev. by apply event_admitted_iff.
Qed.

(** The verdict of one iteration. *)
Definition verdict (rng : nat -> order) (rawLog : raw) (r : option AdmittedLog) : Prop :=
  forall a, r = Some a <->
    al_Raw a = rawLog /\ exists entry, unmarshalLogEntry rawLog = Some entry /\
      entitled rng rawLog entry profile (al_Payload a).

Lemma filterLog_ok rng rawLog m :
  memo_ok m -> (forall k l, rng k l ≡ₚ l) -> valid_perms perms ->
  exists r m', filterLog profile perms addrSet abiProvider visCtx isAdminByContract rng rawLog m
                 = (Ok r, m') /\ memo_ok m' /\ verdict rng rawLog r.
Proof.
  intros Hm Hord Hv. unfold filterLog.
  destruct (unmarshalLogEntry rawLog) as [entry|] eqn:Ee.
  2:{ eexists _, _. split; [done|]. split; [done|]. intros a. rewrite Ee. naive_solver. }
  destruct (resolveRules_total perms addrSet abiProvider (fun k => rng (2 + k)) entry
              (ToLower (le_Address entry)) Hv) as [r Hr].
  destruct (if Strict profile then _ else _) as [self m'] eqn:Es. rewrite Hr.
  destruct r as [[mode allowed] allowlisted].
  fold (factsOf rng rawLog entry (mode, allowed, allowlisted) self).
  eexists _, _. split; [reflexivity|].
  assert (Hdec : forall pol, (let d := DecideLogEmitter profile
      (factsOf rng rawLog entry (mode, allowed, allowlisted) self) in
    ld_Admit d = true /\ ld_Payload d = pol) <-> entitled rng rawLog entry profile pol).
  { intros pol. destruct (Strict profile) eqn:Ep.
    - apply strict_decision; [intros ->; done|done|]. rewrite <- (Match_names (rng 1) _ _ _ _ m Hm); [|done].
      by rewrite Es.
    - apply Strict_false in Ep as Hp. rewrite Hp. by apply standard_decision. }
  split.
  - destruct (Strict profile); [|by injection Es as _ <-].
    pose proof (Match_memo (rng 1) (contractABIOf abiProvider (ToLower (le_Address entry)))
                  (le_Topics entry) (le_Data entry) addrSet m Hm (Hord 1)) as Hm'. by rewrite Es in Hm'.
  - intros [raw' pol]. simpl. setoid_rewrite Ee.
    cbv zeta in Hdec. destruct (ld_Admit _) eqn:Ead.
    + split; [intros [= <- <-]; split; [done|]; exists entry; split; [done|]; by apply Hdec|].
      intros (-> & entry' & [= <-] & [_ <-]%Hdec). done.
    + split; [done|]. intros (_ & entry' & [= <-] & [? _]%Hdec). done.
Qed.

Lemma filterLogs_ok rng i logs m :
  memo_ok m -> (forall i k l, rng i k l ≡ₚ l) -> valid_perms perms ->
  exists vs, (filterLogs profile perms addrSet abiProvider visCtx isAdminByContract rng i logs m).1
               = Ok (omap id vs) /\ length vs = length logs /\
    forall j rawLog r, logs !! j = Some rawLog -> vs !! j = Some r -> verdict (rng (i + j)) rawLog r.
Proof.
  intros Hm Hord Hv. revert i m Hm. induction logs as [|rawLog logs IH]; intros i m Hm.
  { exists []. done. }
  destruct (filterLog_ok (rng i) rawLog m Hm (Hord i) Hv) as (r & m' & Hf & Hm' & Hr).
  destruct (IH (S i) m' Hm') as (vs & Hvs & Hl & Hj).
  exists (r :: vs). split_and!.
  - cbn [filterLogs]. unfold mbind, stM_bind. rewrite Hf.
    destruct (filterLogs _ _ _ _ _ _ _ _ _ _) as [[out|e] m'']; simplify_eq/=. by destruct r.
  - simpl. by rewrite Hl.
  - intros [|j] rawLog' r' ; simpl; [intros [= <-] [= <-]; by rewrite Nat.add_0_r|].
    rewrite Nat.add_succ_r. apply Hj.
Qed.
End filter_ok.

(** C25: with parameter rules whose positions are not negative, the event log
    filter returns; each log has a verdict of its own, and it is kept, in
    order and with payload [p], exactly when the viewer is entitled to it with
    [p] under the profile: unlocked on the log's own transaction (the only full
    payload), administrator of the emitter's organization, or grant holder on a
    maskable log who took part or whose event rules admit it; under any profile
    but the standard one, a grant holder the log itself names. *)
Theorem log_filter_exact `{EventABI} rng profile logs perms userAddresses abiProvider visCtx
    isAdminByContract :
  (forall i k l, rng i k l ≡ₚ l) -> valid_perms perms ->
  exists vs,
    FilterEventLogsDetailed rng profile logs (Some perms) userAddresses abiProvider visCtx
      isAdminByContract = Ok (omap id vs) /\ length vs = length logs /\
    forall i rawLog r, logs !! i = Some rawLog -> vs !! i = Some r ->
      forall a, r = Some a <->
        al_Raw a = rawLog /\ exists entry, unmarshalLogEntry rawLog = Some entry /\
          log_entitled perms (list_to_set (ToLower <$> userAddresses)) abiProvider visCtx
            isAdminByContract (rng i) rawLog entry profile (al_Payload a).
Proof.
  intros Hord Hv. destruct logs as [|l logs]; [by exists []|].
  destruct (filterLogs_ok profile perms (list_to_set (ToLower <$> userAddresses)) abiProvider visCtx
              isAdminByContract rng 0 (l :: logs) ∅) as (vs & Hf & Hl & Hj); [done..|].
  exists vs. split; [done|]. split; [done|]. intros i rawLog r Hi Hr. by apply (Hj i).
Qed.

(** Whatever the profile, who is entitled is entitled under the standard one. *)
Lemma entitled_standard `{EventABI} perms addrSet abiProvider visCtx admins rng rawLog entry p pol :
  log_entitled perms addrSet abiProvider visCtx admins rng rawLog entry p pol ->
  exists pol', log_entitled perms addrSet abiProvider visCtx admins rng rawLog entry
                 ReadProfileStandard pol'.
Proof.
  destruct (decide (p = ReadProfileStandard)) as [->|Hp]; [eauto|].
  inversion 1 as [| | |? access _ Ha Hm _ Hev]; simplify_eq.
  destruct (match visCtx with
            | Some v => mem (tv_UnlockableContracts v) (ToLower (le_Address entry)) &&
                        isViewerInVisibleTo visCtx rawLog
            | None => false
            end) eqn:Eu.
  { eexists. by apply entitled_unlock, unlocked_true. }
  assert (Hnu : ~ unlocked visCtx rawLog (ToLower (le_Address entry))).
  { intros Hu%unlocked_true. congruence. }
  exists LogPayloadMasked. destruct Hev as [?|Hev]; [by apply entitled_admin|].
  eapply entitled_grant; [done..|]. right.
  destruct Hev as [?|(k & rule & t & ? & ? & ? & [?|[[]|?]])]; [by left|right..];
    exists k, rule, t; tauto.
Qed.

Lemma omap_sublist (vs vs' : list (option AdmittedLog)) :
  length vs = length vs' ->
  (forall j a, vs !! j = Some (Some a) ->
     exists a', vs' !! j = Some (Some a') /\ al_Raw a' = al_Raw a) ->
  map al_Raw (omap id vs) `sublist_of` map al_Raw (omap id vs').
Proof.
  revert vs'. induction vs as [|v vs IH]; intros [|v' vs'] Hl Hj; try done.
  assert (Hrest : map al_Raw (omap id vs) `sublist_of` map al_Raw (omap id vs')).
  { apply IH; [by injection Hl|]. intros j a Hja. by apply (Hj (S j)). }
  destruct v as [a|]; simpl.
  - destruct (Hj 0 a eq_refl) as (a' & [= ->] & Ha). simpl. rewrite Ha. by apply sublist_skip.
  - destruct v' as [a'|]; simpl; [by apply sublist_cons|done].
Qed.

(** the strict profile only restricts: on the same response, what any
    profile lets through is a sublist of what the standard profile lets
    through. *)
Theorem strict_profile_restricts `{EventABI} rng profile logs perms userAddresses abiProvider visCtx
    isAdminByContract :
  (forall i k l, rng i k l ≡ₚ l) -> valid_perms perms ->
  exists out out',
    FilterEventLogs rng profile logs (Some perms) userAddresses abiProvider visCtx
      isAdminByContract = Ok out /\
    FilterEventLogs rng ReadProfileStandard logs (Some perms) userAddresses abiProvider visCtx
      isAdminByContract = Ok out' /\ out `sublist_of` out'.
Proof.
  intros Hord Hv. unfold FilterEventLogs. case_decide as Hd; [by exists logs, logs|].
  destruct logs as [|l logs]; [done|]. unfold FilterEventLogsDetailed.
  destruct (filterLogs_ok profile perms (list_to_set (ToLower <$> userAddresses)) abiProvider visCtx
    isAdminByContract rng 0 (l :: logs) ∅) as (vs & -> & Hl & Hj); [done..|].
  destruct (filterLogs_ok ReadProfileStandard perms (list_to_set (ToLower <$> userAddresses))
    abiProvider visCtx isAdminByContract rng 0 (l :: logs) ∅) as (vs' & -> & Hl' & Hj'); [done..|].
  eexists _, _. split; [done|]. split; [done|]. apply omap_sublist; [congruence|]. intros j a Ha.
  destruct (lookup_lt_is_Some_2 (l :: logs) j) as [rawLog Hraw].
  { rewrite <- Hl. by eapply lookup_lt_Some. }
  destruct (lookup_lt_is_Some_2 vs' j) as [r' Hr'].
  { rewrite Hl'. by eapply lookup_lt_Some. }
  destruct (proj1 (Hj j rawLog _ Hraw Ha a) eq_refl) as (Hraw' & entry & He & Hen).
  destruct (entitled_standard _ _ _ _ _ _ _ _ _ _ Hen) as [pol' Hen'].
  exists {| al_Raw := rawLog; al_Payload := pol' |}. split; [|done]. rewrite Hr'. f_equal.
  apply (Hj' j rawLog r' Hraw Hr'). eauto.
Qed.

(** the strict matcher is exact: whatever calls a pass has made before, and
    in whatever order Go ranges over the events of an ABI, a log matches if
    and only if exactly one event the ABI declares under its topic0 fits the
    log and names the viewer; one of the log's topics is then a linked address
    padded to 32 bytes. *)
Theorem indexed_self_exact `{EventABI} ord contractABI topics data linked m :
  matcher_reached m -> (forall l, ord l ≡ₚ l) ->
  ((Match ord contractABI topics data linked m).1 = true <->
   names_viewer linked contractABI topics data) /\
  ((Match ord contractABI topics data linked m).1 = true ->
   exists topic addr, topic ∈ topics /\ ToLower topic = padded addr /\ "0x" +:+ addr ∈ linked).
Proof.
  intros Hm%reached_memo Hord. rewrite Match_names by done. split; [done|].
  apply names_viewer_topic.
Qed.
