(* ===== verification/ResponseFilter.v ===== *)
(** * Filtering of node responses: [internal/server/response_filter.go] and
    [internal/server/event_log_filter.go].

    The body of a response is [None] when it is not JSON.  A filter returns the
    JSON it writes; [render], the callback that masks admitted logs, is a
    parameter, as it is in the code.  A filter that runs the log engine is in
    [result], whose error is the engine's panic. *)
From S2P Require Import Prelude GoStrings Methods Models Json ReadDecision EventFilter.

(** ** Envelopes *)
Definition null (o : option raw) : raw := default RNull o.

Definition rpcResponseID (body : option raw) : raw :=
  match body with
  | None => RNull
  | Some v => match member_raw "id" v with Some (Some id) => id | _ => RNull end
  end.

(** [{"jsonrpc":"2.0","id":...,"result":...}] *)
Definition rpcResult (id result : raw) : raw :=
  RObj [("jsonrpc", RStr "2.0"); ("id", id); ("result", result)].
Definition rpcError (id err : raw) : raw :=
  RObj [("jsonrpc", RStr "2.0"); ("id", id); ("error", err)].

Definition nullResult (body : option raw) : raw := rpcResult (rpcResponseID body) RNull.
Definition emptyLogsResponse (body : option raw) : raw := rpcResult (rpcResponseID body) (RArr []).

Definition rpcResponseFromParsed (id result rpcErr : option raw) : raw :=
  match rpcErr with
  | Some e => rpcError (null id) e
  | None => rpcResult (null id) (null result)
  end.

(** The anonymous struct every filter decodes the body into. *)
Record rpcResponse := { rr_ID : option raw; rr_Result : option raw; rr_Error : option raw }.

Definition unmarshalResponse (body : option raw) : option rpcResponse :=
  v ← body;
  _ ← member_str "jsonrpc" v;
  id ← member_raw "id" v;
  result ← member_ptr "result" v;
  error ← member_ptr "error" v;
  Some {| rr_ID := id; rr_Result := result; rr_Error := error |}.

(** The prologue the filters share: [refuse] for a body that cannot be
    evaluated, the upstream error or null passed on, else [k]. *)
Definition withResult {M} `{MRet M} (body : option raw) (refuse : raw)
    (k : rpcResponse -> raw -> M raw) : M raw :=
  match unmarshalResponse body with
  | None => mret refuse
  | Some resp =>
      match rr_Error resp, rr_Result resp with
      | Some _, Some _ => mret refuse
      | Some e, None => mret (rpcResponseFromParsed (rr_ID resp) None (Some e))
      | None, None => mret (rpcResponseFromParsed (rr_ID resp) None None)
      | None, Some r => k resp r
      end
  end.

(** The identity monad, for the filters that do not call the log engine. *)
Definition pure (A : Type) : Type := A.
#[export] Instance pure_ret : MRet pure := fun A a => a.

(** ** Participation *)
Definition addrSetFromLinked (addrs : list string) : gset string := list_to_set (ToLower <$> addrs).

Definition isTxParticipant (userAddresses : list string) (from to : string) : bool :=
  let addrSet := addrSetFromLinked userAddresses in
  let from := ToLower from in
  let to := ToLower to in
  (negb (bool_decide (from = "")) && mem addrSet from) ||
  (negb (bool_decide (to = "")) && mem addrSet to).

(** ** One transaction *)
Definition FilterTransactionByHash (profile : ReadProfile) (body : option raw)
    (userAddresses : list string) (isAdminOnTo : bool) (inVisibleTo : option bool) : raw :=
  withResult (M := pure) body (nullResult body) (fun resp result =>
    match member_str "from" result, member_str "to" result with
    | Some from, Some to =>
        let isParticipant := isTxParticipant userAddresses from to in
        let listed :=
          if negb isParticipant && negb isAdminOnTo && negb (Strict profile)
          then default false inVisibleTo else false in
        let facts := {| tf_Surface := TxSurfaceTransaction; tf_IsParticipant := isParticipant;
                        tf_IsAdminOnTo := isAdminOnTo; tf_InVisibleTo := listed;
                        tf_EntitledLogs := 0; tf_IsDeployment := false |} in
        if DecideTxEnvelope profile facts
        then rpcResponseFromParsed (rr_ID resp) (Some result) None
        else nullResult body
    | _, _ => nullResult body
    end).

(** ** Blocks *)
Definition zeroLogsBloomJSON : raw := RStr ("0x" +:+ repeat_zeros 512).
Definition zeroGasUsedJSON : raw := RStr "0x0".
Definition zeroSizeJSON : raw := RStr "0x0".

(** [if _, ok := m[k]; ok { m[k] = v }] *)
Definition overwrite (k : string) (v : raw) (m : gmap string raw) : gmap string raw :=
  match m !! k with Some _ => <[k := v]> m | None => m end.

Definition zeroAggregates (block : gmap string raw) : gmap string raw :=
  overwrite "size" zeroSizeJSON
    (overwrite "blobGasUsed" zeroGasUsedJSON
      (overwrite "gasUsed" zeroGasUsedJSON (overwrite "logsBloom" zeroLogsBloomJSON block))).

Definition blockEntryFacts (participant : bool) : TxEnvelopeFacts :=
  {| tf_Surface := TxSurfaceBlockEntry; tf_IsParticipant := participant; tf_IsAdminOnTo := false;
     tf_InVisibleTo := false; tf_EntitledLogs := 0; tf_IsDeployment := false |}.

(** One transaction of the listing: itself, or its hash when hashes were asked for. *)
Definition filterBlockTx (profile : ReadProfile) (userAddresses : list string)
    (originalFull : bool) (rawTx : raw) : option raw :=
  from ← member_str "from" rawTx;
  to ← member_str "to" rawTx;
  hash ← member_str "hash" rawTx;
  if DecideTxEnvelope profile (blockEntryFacts (isTxParticipant userAddresses from to))
  then Some (if originalFull then rawTx else RStr hash)
  else None.

Definition filterTransactions (profile : ReadProfile) (userAddresses : list string)
    (originalFull : bool) (txs : raw) : raw :=
  match decode_list txs with
  | None => RArr []
  | Some [] => txs
  | Some (RStr _ :: _) => RArr []
  | Some rawTxs => RArr (omap (filterBlockTx profile userAddresses originalFull) rawTxs)
  end.

Definition FilterBlockTransactions (profile : ReadProfile) (body : option raw)
    (userAddresses : list string) (originalFull : bool) : raw :=
  withResult (M := pure) body (nullResult body) (fun resp result =>
    match decode_map result with
    | None => nullResult body
    | Some block =>
        let block := zeroAggregates block in
        let block := match block !! "transactions" with
          | Some txs =>
              <["transactions" := filterTransactions profile userAddresses originalFull txs]> block
          | None => block
          end in
        rpcResult (null (rr_ID resp)) (marshal_map block)
    end).

(** [fmt.Sprintf("0x%x", n)] *)
Fixpoint hexDigits (fuel : nat) (n : N) (acc : string) : string :=
  match fuel with
  | O => acc
  | S fuel =>
      let acc := String (hex_digit (n mod 16)) acc in
      if (n <? 16)%N then acc else hexDigits fuel (n / 16) acc
  end.
Definition hexCount (n : nat) : string := "0x" +:+ hexDigits (S (N.to_nat (N.log2 (N.of_nat n)))) (N.of_nat n) "".

(** The test of the counting loop; it does not ask that the sender be named. *)
Definition countsTx (addrSet : gset string) (rawTx : raw) : bool :=
  match member_str "from" rawTx, member_str "to" rawTx with
  | Some from, Some to =>
      mem addrSet (ToLower from) || (negb (bool_decide (ToLower to = "")) && mem addrSet (ToLower to))
  | _, _ => false
  end.

Definition FilterBlockTransactionCount (body : option raw) (userAddresses : list string) : raw :=
  withResult (M := pure) body (nullResult body) (fun resp result =>
    match decode_map result with
    | None => nullResult body
    | Some block =>
        match (match block !! "transactions" with Some txs => decode_list txs | None => Some [] end) with
        | None => nullResult body
        | Some rawTxs =>
            let addrSet := addrSetFromLinked userAddresses in
            let count := length (filter (fun tx => countsTx addrSet tx = true) rawTxs) in
            rpcResult (null (rr_ID resp)) (RStr (hexCount count))
        end
    end).

(** ** Logs and receipts *)
Definition rawAdmittedLogs (admitted : list AdmittedLog) : list raw := map al_Raw admitted.

Definition scopeTxVisibilityTo (visCtx : option TxVisibilityContext) (txHash : string)
  : option TxVisibilityContext :=
  v ← visCtx;
  let h := ToLower txHash in
  let scoped : gmap string (list string) :=
    if decide (h = "") then ∅
    else match tv_TxVisibility v !! h with Some dids => {[h := dids]} | None => ∅ end in
  Some {| tv_ViewerDID := tv_ViewerDID v; tv_TxVisibility := scoped;
          tv_UnlockableContracts := tv_UnlockableContracts v;
          tv_ParticipantTxHashes := tv_ParticipantTxHashes v |}.

Definition receiptWithEmptyLogs (rawReceipt : raw) : raw :=
  match decode_map rawReceipt with
  | None => RNull
  | Some m => marshal_map (<["logsBloom" := zeroLogsBloomJSON]> (<["logs" := RArr []]> m))
  end.

(** [math.MaxInt] *)
Definition MaxInt : Z := 2 ^ 63 - 1.

Section receipts.
Context `{EventABI}.
Variable rng : nat -> nat -> order.
Variable profile : ReadProfile.
Variable userAddresses : list string.
Variable perms : option EffectivePermissions.
Variable abiProvider : option ABIProvider.
Variable visCtx : option TxVisibilityContext.
Variable isAdminByContract : gset string.
(** [None] is the nil renderer, which returns admitted logs verbatim. *)
Variable render : option (list AdmittedLog -> list raw).

Definition renderLogs : list AdmittedLog -> list raw := default rawAdmittedLogs render.

Definition filterLogsWithEventRules (body : option raw) : result raw :=
  withResult body (emptyLogsResponse body) (fun resp res =>
    match decode_list res with
    | None => Ok (emptyLogsResponse body)
    | Some rawLogs =>
        admitted ← FilterEventLogsDetailed rng profile rawLogs perms userAddresses abiProvider
                     visCtx isAdminByContract;
        Ok (rpcResult (null (rr_ID resp)) (RArr (renderLogs admitted)))
    end).

(** The filtered receipt and the number of logs the viewer is entitled to;
    [logVisCtx] is the context of this receipt. *)
Definition applyEventRulesToReceipt (rawReceipt : raw) (logVisCtx : option TxVisibilityContext)
  : result (raw * nat) :=
  match decode_map rawReceipt with
  | None => Ok (receiptWithEmptyLogs rawReceipt, 0)
  | Some m =>
      match m !! "logs" with
      | None => Ok (rawReceipt, 0)
      | Some rawLogs =>
          match decode_list rawLogs with
          | None => Ok (receiptWithEmptyLogs rawReceipt, 0)
          | Some arr =>
              admitted ← FilterEventLogsDetailed rng profile arr perms userAddresses abiProvider
                           logVisCtx isAdminByContract;
              let m := <["logs" := RArr (renderLogs admitted)]> m in
              Ok (marshal_map (<["logsBloom" := zeroLogsBloomJSON]> m), length admitted)
          end
      end
  end.

(** The envelope-level listing compares DIDs case-insensitively. *)
Definition receiptVisibleTo (isParticipant : bool) (txHash : string) : bool :=
  match visCtx with
  | None => false
  | Some v =>
      if isParticipant || bool_decide (tv_ViewerDID v = "") || bool_decide (txHash = "") then false
      else existsb (fun did => EqualFold did (tv_ViewerDID v)) (default [] (tv_TxVisibility v !! txHash))
  end.

(** The context of one receipt: its own listing, and, for a participant, its
    own transaction marked as taken part in. *)
Definition receiptContext (isParticipant : bool) (transactionHash : string)
  : option TxVisibilityContext :=
  let txHash := ToLower transactionHash in
  let scoped := scopeTxVisibilityTo visCtx transactionHash in
  if isParticipant && negb (bool_decide (txHash = "")) then
    let c := default {| tv_ViewerDID := ""; tv_TxVisibility := ∅; tv_UnlockableContracts := ∅;
                        tv_ParticipantTxHashes := ∅ |} scoped in
    Some {| tv_ViewerDID := tv_ViewerDID c; tv_TxVisibility := tv_TxVisibility c;
            tv_UnlockableContracts := tv_UnlockableContracts c;
            tv_ParticipantTxHashes := {[txHash]} ∪ tv_ParticipantTxHashes c |}
  else scoped.

(** [None] is a refused receipt. *)
Definition decideReceipt (surface : TxSurface) (rawReceipt : raw) : result (option raw) :=
  match member_str "from" rawReceipt, member_str "to" rawReceipt,
        member_str "transactionHash" rawReceipt with
  | Some from, Some rto, Some transactionHash =>
      let to := ToLower rto in
      let isParticipant := isTxParticipant userAddresses from rto in
      let facts n := {|
        tf_Surface := surface;
        tf_IsParticipant := isParticipant;
        tf_IsAdminOnTo := negb (bool_decide (to = "")) && mem isAdminByContract to;
        tf_InVisibleTo := receiptVisibleTo isParticipant (ToLower transactionHash);
        tf_EntitledLogs := n;
        tf_IsDeployment := bool_decide (to = "") |} in
      if negb (DecideTxEnvelope profile (facts MaxInt)) then Ok None
      else
        '(res, entitledLogs) ← applyEventRulesToReceipt rawReceipt
                                 (receiptContext isParticipant transactionHash);
        Ok (if DecideTxEnvelope profile (facts (Z.of_nat entitledLogs)) then Some res else None)
  | _, _, _ => Ok None
  end.

Definition filterReceiptLogsWithEventRules (body : option raw) : result raw :=
  withResult body (nullResult body) (fun resp res =>
    r ← decideReceipt TxSurfaceReceipt res;
    Ok (match r with
        | None => nullResult body
        | Some receipt => rpcResult (rpcResponseID body) receipt
        end)).

Fixpoint decideReceipts (rawReceipts : list raw) : result (list raw) :=
  match rawReceipts with
  | [] => Ok []
  | r :: rs =>
      out ← decideReceipt TxSurfaceBlockEntry r;
      rest ← decideReceipts rs;
      Ok (match out with Some x => x :: rest | None => rest end)
  end.

Definition FilterBlockReceipts (body : option raw) : result raw :=
  withResult body (nullResult body) (fun resp res =>
    match decode_list res with
    | None => Ok (nullResult body)
    | Some rawReceipts =>
        receipts ← decideReceipts rawReceipts;
        Ok (rpcResult (null (rr_ID resp)) (RArr receipts))
    end).
End receipts.
