(* ===== verification/ResponseFilterProps.v ===== *)
(** * Correctness of the response filters.

    Which upstream data reach the caller: transactions and receipts only with
    an entitlement, blocks without the aggregates that count other users'
    transactions ([block_listing_exact]), receipts with the logs the engine
    admitted ([receipt_disclosure_exact]).  The early refusal of a receipt
    does not change the verdict ([ceiling_is_sound]), and a body that cannot be
    evaluated yields a response of the proxy's own ([responses_fail_closed]). *)
From S2P Require Import Prelude GoStrings Methods Models Json ReadDecision.
From S2P Require Import EventFilter EventFilterProps ResponseFilter.

(** ** Participation *)
Definition linked (userAddresses : list string) (addr : string) : Prop :=
  addr <> "" /\ addr ∈ ToLower <$> userAddresses.

Lemma isTxParticipant_true userAddresses from to :
  isTxParticipant userAddresses from to = true <->
  linked userAddresses (ToLower from) \/ linked userAddresses (ToLower to).
Proof.
  unfold isTxParticipant, linked, addrSetFromLinked.
  rewrite orb_true_iff, !andb_true_iff, !negb_true_iff, !bool_decide_eq_false, !mem_true.
  by rewrite !elem_of_list_to_set.
Qed.

(** ** Blocks *)
Lemma overwrite_lookup k v m k' :
  overwrite k v m !! k' = if decide (k' = k) then (fun _ => v) <$> m !! k else m !! k'.
Proof.
  unfold overwrite. destruct (m !! k) as [x|] eqn:E; case_decide as Hd; subst; simpl.
  - by rewrite lookup_insert_eq.
  - by rewrite lookup_insert_ne.
  - done.
  - done.
Qed.

Lemma zeroAggregates_lookup m k :
  zeroAggregates m !! k =
  if decide (k = "logsBloom") then (fun _ => zeroLogsBloomJSON) <$> m !! k
  else if decide (k ∈ ["gasUsed"; "blobGasUsed"; "size"]) then (fun _ => RStr "0x0") <$> m !! k
  else m !! k.
Proof.
  unfold zeroAggregates. rewrite !overwrite_lookup.
  repeat (case_decide; subst); simpl; try done; try set_solver.
Qed.

(** The participant test of one element of a listing. *)
Definition own_tx (userAddresses : list string) (rawTx : raw) : Prop :=
  exists from to hash, member_str "from" rawTx = Some from /\ member_str "to" rawTx = Some to /\
    member_str "hash" rawTx = Some hash /\
    (linked userAddresses (ToLower from) \/ linked userAddresses (ToLower to)).

Lemma filterBlockTx_Some profile userAddresses full rawTx out :
  filterBlockTx profile userAddresses full rawTx = Some out <->
  own_tx userAddresses rawTx /\
  (if full then out = rawTx else exists hash, member_str "hash" rawTx = Some hash /\ out = RStr hash).
Proof.
  unfold filterBlockTx, own_tx.
  destruct (member_str "from" rawTx) as [from|]; simpl; [|naive_solver].
  destruct (member_str "to" rawTx) as [to|]; simpl; [|naive_solver].
  destruct (member_str "hash" rawTx) as [hash|]; simpl; [|naive_solver].
  pose proof (DecideTxEnvelope_admits profile (blockEntryFacts (isTxParticipant userAddresses from to)))
    as Hd. simpl in Hd. rewrite isTxParticipant_true in Hd.
  destruct (DecideTxEnvelope _ _), full; naive_solver.
Qed.

(** A listing of full transactions. *)
Definition full_listing (txs : list raw) : Prop :=
  match txs with [] => False | RStr _ :: _ => False | _ => True end.

Lemma filterTransactions_full profile userAddresses full txs :
  full_listing txs ->
  filterTransactions profile userAddresses full (RArr txs) =
  RArr (omap (filterBlockTx profile userAddresses full) txs).
Proof. unfold filterTransactions; simpl. by destruct txs as [|[] txs]. Qed.

(** Whatever the node sent under [transactions], what is returned lists own
    transactions only: it is empty, null, or a sublist of them. *)
Lemma filterTransactions_own profile userAddresses full txs :
  filterTransactions profile userAddresses full txs = RNull \/
  exists kept, kept `sublist_of` default [] (decode_list txs) /\
    (forall tx, tx ∈ kept -> own_tx userAddresses tx) /\
    filterTransactions profile userAddresses full txs =
    RArr (if full then kept else
            map (fun tx => RStr (default "" (member_str "hash" tx))) kept).
Proof.
  unfold filterTransactions. destruct (decode_list txs) as [l|] eqn:El.
  2:{ right. exists []. split; [apply sublist_nil_l|]. split; [set_solver|]. by destruct full. }
  assert (Hnil : exists kept, kept `sublist_of` l /\ (forall tx, tx ∈ kept -> own_tx userAddresses tx) /\
    RArr [] = RArr (if full then kept else
            map (fun tx => RStr (default "" (member_str "hash" tx))) kept)).
  { exists []. split; [apply sublist_nil_l|]. split; [set_solver|]. by destruct full. }
  assert (Hfilter : exists kept, kept `sublist_of` l /\ (forall tx, tx ∈ kept -> own_tx userAddresses tx) /\
    RArr (omap (filterBlockTx profile userAddresses full) l) = RArr (if full then kept else
            map (fun tx => RStr (default "" (member_str "hash" tx))) kept)).
  { clear El Hnil. induction l as [|tx l IH].
    { exists []. split; [done|]. split; [set_solver|]. by destruct full. }
    destruct IH as (kept & Hsub & Hown & [= Heq]).
    change (omap ?f (tx :: l)) with (match f tx with Some y => y :: omap f l | None => omap f l end).
    destruct (filterBlockTx profile userAddresses full tx) as [out|] eqn:Et.
    - apply filterBlockTx_Some in Et as [Ho Hout]. exists (tx :: kept).
      split; [by apply sublist_skip|]. split; [set_solver|]. rewrite Heq. f_equal.
      destruct full; [by subst|]. destruct Hout as (h & Hh & ->). simpl. by rewrite Hh.
    - exists kept. split; [by apply sublist_cons|]. by rewrite Heq. }
  destruct l as [|[] l]; try (by right); destruct txs; simplify_eq/=; auto.
Qed.

(** What a filtered block says, member by member. *)
Definition aggregates : list string := ["logsBloom"; "gasUsed"; "blobGasUsed"; "size"].
Definition zeroed (k : string) : raw :=
  if decide (k = "logsBloom") then zeroLogsBloomJSON else RStr "0x0".

(** A JSON-RPC body that carries a result and no error. *)
Definition answers (body : option raw) (resp : rpcResponse) (result : raw) : Prop :=
  unmarshalResponse body = Some resp /\ rr_Error resp = None /\ rr_Result resp = Some result.

Lemma withResult_answers {M} `{MRet M} body refuse (k : rpcResponse -> raw -> M raw) resp result :
  answers body resp result -> withResult body refuse k = k resp result.
Proof. intros (Hu & He & Hr). unfold withResult. by rewrite Hu, He, Hr. Qed.

(** a block reaches the caller with every block-wide aggregate (bloom,
    gas, size) replaced by zero and every other member as the node sent it,
    but for the transactions: whatever the node sent there, the caller gets
    own transactions only, as objects or as hashes, and of a listing of full
    objects all of them. *)
Theorem block_discloses_own_transactions profile body userAddresses full resp result block :
  answers body resp result -> decode_map result = Some block ->
  exists block',
    FilterBlockTransactions profile body userAddresses full =
      rpcResult (null (rr_ID resp)) (marshal_map block') /\
    (forall k, k ∈ aggregates -> block' !! k = (fun _ => zeroed k) <$> block !! k) /\
    (forall k, k ∉ "transactions" :: aggregates -> block' !! k = block !! k) /\
    (block !! "transactions" = None -> block' !! "transactions" = None) /\
    forall txs, block !! "transactions" = Some txs ->
      exists out, block' !! "transactions" = Some out /\
        (out = RNull \/ exists kept,
           kept `sublist_of` default [] (decode_list txs) /\
           (forall tx, tx ∈ kept -> own_tx userAddresses tx) /\
           out = RArr (if full then kept
                       else map (fun tx => RStr (default "" (member_str "hash" tx))) kept)) /\
        forall l tx, txs = RArr l -> full_listing l -> tx ∈ l -> own_tx userAddresses tx ->
          exists outs x, out = RArr outs /\ x ∈ outs /\
            filterBlockTx profile userAddresses full tx = Some x.
Proof.
  intros Ha Hm. unfold FilterBlockTransactions. rewrite (withResult_answers _ _ _ _ _ Ha), Hm.
  pose proof (zeroAggregates_lookup block) as Hz. revert Hz. generalize (zeroAggregates block) as z.
  intros z Hz. eexists. split; [reflexivity|].
  assert (Ht : z !! "transactions" = block !! "transactions") by (rewrite Hz; done).
  assert (Hne : forall k, k <> "transactions" ->
    match z !! "transactions" with
    | Some txs => <["transactions" := filterTransactions profile userAddresses full txs]> z
    | None => z
    end !! k = z !! k).
  { intros k Hk. destruct (z !! "transactions"); [by rewrite lookup_insert_ne|done]. }
  split_and!.
  - intros k Hk. rewrite Hne by (intros ->; set_solver). rewrite Hz. unfold zeroed.
    repeat case_decide; try done. set_solver.
  - intros k Hk. rewrite Hne by set_solver. rewrite Hz. repeat case_decide; set_solver.
  - intros Hn. rewrite Ht, Hn. by rewrite Ht, Hn.
  - intros txs Htxs. rewrite Ht, Htxs, lookup_insert_eq. eexists. split; [done|].
    split; [apply filterTransactions_own|].
    intros l tx -> Hf Hin Hown. rewrite filterTransactions_full by done.
    destruct (filterBlockTx profile userAddresses full tx) as [x|] eqn:Ex.
    + eexists _, x. split; [done|]. split; [|done]. apply list_elem_of_omap. eauto.
    + exfalso. destruct Hown as (f & t & h & ? & ? & Hh & ?).
      assert (Hs : filterBlockTx profile userAddresses full tx = Some (if full then tx else RStr h)).
      { apply filterBlockTx_Some. split; [by exists f, t, h|]. destruct full; eauto. }
      congruence.
Qed.

(** The counter of a block's transactions agrees with its listing. *)
Lemma countsTx_own userAddresses rawTx :
  "" ∉ ToLower <$> userAddresses ->
  countsTx (addrSetFromLinked userAddresses) rawTx = true <->
  exists from to, member_str "from" rawTx = Some from /\ member_str "to" rawTx = Some to /\
    (linked userAddresses (ToLower from) \/ linked userAddresses (ToLower to)).
Proof.
  intros Hne. unfold countsTx, linked, addrSetFromLinked.
  destruct (member_str "from" rawTx) as [from|]; [|naive_solver].
  destruct (member_str "to" rawTx) as [to|]; [|naive_solver].
  rewrite orb_true_iff, andb_true_iff, negb_true_iff, bool_decide_eq_false, !mem_true,
    !elem_of_list_to_set.
  split; [|naive_solver]. intros Hc. exists from, to. split; [done|]. split; [done|].
  destruct Hc as [Hc|?]; [left|by right]. split; [|done]. intros He. by rewrite He in Hc.
Qed.

Lemma omap_filter_length {A B} (f : A -> option B) (P : A -> Prop) `{forall x, Decision (P x)} l :
  (forall x, x ∈ l -> is_Some (f x) <-> P x) -> length (omap f l) = length (filter P l).
Proof.
  induction l as [|x l IH]; intros Hf; [done|]. rewrite filter_cons.
  change (omap f (x :: l)) with (match f x with Some y => y :: omap f l | None => omap f l end).
  assert (Hx := Hf x ltac:(set_solver)). specialize (IH ltac:(set_solver)).
  destruct (f x) as [y|]; case_decide as Hd; simpl.
  - by rewrite IH.
  - exfalso. by apply Hd, Hx.
  - exfalso. by apply Hx in Hd as [].
  - done.
Qed.

(** for a viewer with no empty linked address and a block whose
    transactions are objects with a hash, the transaction count the caller is
    given is the length of the listing the caller is given. *)
Theorem count_agrees_with_listing profile body userAddresses full resp result block txs :
  answers body resp result -> decode_map result = Some block ->
  block !! "transactions" = Some (RArr txs) -> full_listing txs ->
  "" ∉ ToLower <$> userAddresses ->
  (forall tx, tx ∈ txs -> is_Some (member_str "hash" tx)) ->
  exists outs block',
    FilterBlockTransactions profile body userAddresses full =
      rpcResult (null (rr_ID resp)) (marshal_map block') /\
    block' !! "transactions" = Some (RArr outs) /\
    FilterBlockTransactionCount body userAddresses =
      rpcResult (null (rr_ID resp)) (RStr (hexCount (length outs))).
Proof.
  intros Ha Hm Ht Hf Hne Hh. unfold FilterBlockTransactions, FilterBlockTransactionCount.
  rewrite !(withResult_answers _ _ _ _ _ Ha), Hm. cbv zeta.
  assert (Hz : zeroAggregates block !! "transactions" = Some (RArr txs))
    by (rewrite zeroAggregates_lookup; simpl; done).
  rewrite Hz, Ht. simpl decode_list. cbv iota.
  eexists _, _. split; [reflexivity|]. rewrite lookup_insert_eq.
  rewrite filterTransactions_full by done. split; [done|]. do 3 f_equal.
  symmetry. apply omap_filter_length. intros tx Hin. rewrite (countsTx_own _ _ Hne).
  destruct (Hh _ Hin) as [h Htx]. split.
  - intros [x Hx]. apply filterBlockTx_Some in Hx as [(from & to & h' & ? & ? & _ & ?) _]. eauto 10.
  - intros (from & to & ? & ? & ?). exists (if full then tx else RStr h).
    apply filterBlockTx_Some. split; [by exists from, to, h|]. destruct full; eauto.
Qed.

(** ** Receipts *)

Lemma omap_length_le {A B} (f : A -> option B) l : length (omap f l) <= length l.
Proof.
  induction l as [|x l IH]; [done|].
  change (omap f (x :: l)) with (match f x with Some y => y :: omap f l | None => omap f l end).
  destruct (f x); simpl; lia.
Qed.

(** The logs of a receipt, as the engine is given them. *)
Definition receiptLogs (rawReceipt : raw) : list raw :=
  default [] (m ← decode_map rawReceipt; logs ← m !! "logs"; decode_list logs).

Section receipts_ok.
Context `{EventABI}.
Variable rng : nat -> nat -> order.
Variable profile : ReadProfile.
Variable userAddresses : list string.
Variable perms : EffectivePermissions.
Variable abiProvider : option ABIProvider.
Variable visCtx : option TxVisibilityContext.
Variable isAdminByContract : gset string.
Variable render : option (list AdmittedLog -> list raw).
Hypothesis Hrng : forall i k l, rng i k l ≡ₚ l.
Hypothesis Hperms : valid_perms perms.

Notation engine logs ctx :=
  (FilterEventLogsDetailed rng profile logs (Some perms) userAddresses abiProvider ctx
     isAdminByContract).

Lemma engine_total logs ctx : exists out, engine logs ctx = Ok out /\ length out <= length logs.
Proof using Hrng Hperms.
  destruct logs as [|l logs]; [by exists []|].
  destruct (filterLogs_ok profile perms (list_to_set (ToLower <$> userAddresses)) abiProvider ctx
    isAdminByContract rng 0 (l :: logs) ∅) as (vs & Hf & Hl & _); [done..|].
  eexists. split; [exact Hf|]. rewrite <- Hl. apply omap_length_le.
Qed.

(** The receipt that is returned: [logs] replaced by the rendering of the
    admitted logs, the bloom zeroed, every other member as the node sent it. *)
Definition filtered_receipt (rawReceipt : raw) (admitted : list AdmittedLog) : raw :=
  match decode_map rawReceipt with
  | None => RNull
  | Some m =>
      match m !! "logs" with
      | None => rawReceipt
      | Some rawLogs =>
          let logs := match decode_list rawLogs with
            | Some _ => RArr (renderLogs render admitted) | None => RArr [] end in
          marshal_map (<["logsBloom" := zeroLogsBloomJSON]> (<["logs" := logs]> m))
      end
  end.

Lemma applyEventRules_ok rawReceipt ctx :
  exists admitted, engine (receiptLogs rawReceipt) ctx = Ok admitted /\
    applyEventRulesToReceipt rng profile userAddresses (Some perms) abiProvider isAdminByContract
      render rawReceipt ctx = Ok (filtered_receipt rawReceipt admitted, length admitted).
Proof using Hrng Hperms.
  destruct (engine_total (receiptLogs rawReceipt) ctx) as (admitted & He & _).
  exists admitted. split; [done|]. revert He.
  unfold applyEventRulesToReceipt, filtered_receipt, receiptWithEmptyLogs, receiptLogs.
  destruct (decode_map rawReceipt) as [m|]; simpl; [|by intros [= <-]].
  destruct (m !! "logs") as [rawLogs|]; simpl; [|by intros [= <-]].
  destruct (decode_list rawLogs) as [arr|]; simpl; [|by intros [= <-]].
  by intros ->.
Qed.

(** Who is given a receipt. *)
Definition receipt_admitted (surface : TxSurface) (rawReceipt : raw) (admitted : list AdmittedLog)
    (from to : string) (txHash : string) : Prop :=
  let participant := isTxParticipant userAddresses from to in
  (linked userAddresses (ToLower from) \/ linked userAddresses (ToLower to)) \/
  profile = ReadProfileStandard /\
  (surface = TxSurfaceTransaction \/ surface = TxSurfaceReceipt) /\
  ((ToLower to <> "" /\ ToLower to ∈ isAdminByContract) \/
   receiptVisibleTo visCtx participant (ToLower txHash) = true \/
   (surface = TxSurfaceReceipt /\ ToLower to <> "" /\ admitted <> [])).

Lemma decideReceipt_ok surface rawReceipt from to txHash :
  member_str "from" rawReceipt = Some from -> member_str "to" rawReceipt = Some to ->
  member_str "transactionHash" rawReceipt = Some txHash ->
  (Z.of_nat (length (receiptLogs rawReceipt)) <= MaxInt)%Z ->
  exists admitted r,
    engine (receiptLogs rawReceipt)
      (receiptContext visCtx (isTxParticipant userAddresses from to) txHash) = Ok admitted /\
    decideReceipt rng profile userAddresses (Some perms) abiProvider visCtx isAdminByContract render
      surface rawReceipt = Ok r /\
    (is_Some r <-> receipt_admitted surface rawReceipt admitted from to txHash) /\
    forall out, r = Some out -> out = filtered_receipt rawReceipt admitted.
Proof using Hrng Hperms.
  intros Hfrom Hto Hhash Hlen.
  set (ctx := receiptContext visCtx (isTxParticipant userAddresses from to) txHash).
  destruct (applyEventRules_ok rawReceipt ctx) as (admitted & He & Happ).
  assert (Hn : (Z.of_nat (length admitted) <= MaxInt)%Z).
  { destruct (engine_total (receiptLogs rawReceipt) ctx) as (out & He' & ?).
    rewrite He in He'. simplify_eq. lia. }
  set (facts n := {| tf_Surface := surface;
    tf_IsParticipant := isTxParticipant userAddresses from to;
    tf_IsAdminOnTo := negb (bool_decide (ToLower to = "")) && mem isAdminByContract (ToLower to);
    tf_InVisibleTo := receiptVisibleTo visCtx (isTxParticipant userAddresses from to) (ToLower txHash);
    tf_EntitledLogs := n; tf_IsDeployment := bool_decide (ToLower to = "") |}).
  exists admitted, (if DecideTxEnvelope profile (facts (Z.of_nat (length admitted)))
                    then Some (filtered_receipt rawReceipt admitted) else None).
  split; [done|]. split; [|split].
  - unfold decideReceipt. rewrite Hfrom, Hto, Hhash. cbv zeta. fold (facts MaxInt). fold ctx.
    destruct (DecideTxEnvelope profile (facts MaxInt)) eqn:Ec; simpl; [by rewrite Happ|].
    destruct (DecideTxEnvelope profile (facts (Z.of_nat (length admitted)))) eqn:Ed; [|done].
    eapply DecideTxEnvelope_mono in Ed; [|exact Hn]. unfold facts in Ec. congruence.
  - transitivity (DecideTxEnvelope profile (facts (Z.of_nat (length admitted))) = true).
    { destruct (DecideTxEnvelope _ _); split; try done; by intros []. }
    rewrite DecideTxEnvelope_admits. unfold receipt_admitted. simpl.
    rewrite isTxParticipant_true, andb_true_iff, negb_true_iff, !bool_decide_eq_false, mem_true.
    assert (Hpos : (0 < Z.of_nat (length admitted))%Z <-> admitted <> []).
    { destruct admitted; simpl; [|split; [done|lia]]. split; [lia|done]. }
    rewrite Hpos. tauto.
  - intros out. destruct (DecideTxEnvelope _ _); naive_solver.
Qed.
End receipts_ok.

(** C26: a response with a receipt, whose sender, target and transaction hash are
    strings or absent, is answered, and exactly so, for a viewer with permissions
    whose event rules are valid and in whatever order the maps are iterated: the
    viewer gets the node's receipt with the logs the engine admits for the
    receipt's own transaction, rendered, and the bloom zeroed, when the viewer took
    part in the transaction or, under the standard profile only, administers its
    target, is listed on it, or, when the receipt has a target, is entitled to one
    of its logs; a deployment's receipt is not shown on the last ground. Everybody
    else gets the null response of an unknown hash. *)
Theorem receipt_disclosure_exact `{EventABI} rng profile body resp receipt userAddresses perms
    abiProvider visCtx isAdminByContract render from to txHash :
  (forall i k l, rng i k l ≡ₚ l) -> valid_perms perms -> answers body resp receipt ->
  member_str "from" receipt = Some from -> member_str "to" receipt = Some to ->
  member_str "transactionHash" receipt = Some txHash ->
  (Z.of_nat (length (receiptLogs receipt)) <= MaxInt)%Z ->
  exists admitted out,
    FilterEventLogsDetailed rng profile (receiptLogs receipt) (Some perms) userAddresses abiProvider
      (receiptContext visCtx (isTxParticipant userAddresses from to) txHash) isAdminByContract
      = Ok admitted /\
    filterReceiptLogsWithEventRules rng profile userAddresses (Some perms) abiProvider visCtx
      isAdminByContract render body = Ok out /\
    (receipt_admitted profile userAddresses visCtx isAdminByContract TxSurfaceReceipt receipt
       admitted from to txHash ->
     out = rpcResult (rpcResponseID body) (filtered_receipt render receipt admitted)) /\
    (~ receipt_admitted profile userAddresses visCtx isAdminByContract TxSurfaceReceipt receipt
         admitted from to txHash ->
     out = nullResult body).
Proof.
  intros Hrng Hperms Ha Hf Ht Hh Hlen.
  destruct (decideReceipt_ok rng profile userAddresses perms abiProvider visCtx isAdminByContract
              render Hrng Hperms TxSurfaceReceipt receipt from to txHash Hf Ht Hh Hlen)
    as (admitted & r & He & Hd & Hr & Hout).
  exists admitted. unfold filterReceiptLogsWithEventRules.
  rewrite (withResult_answers _ _ _ _ _ Ha), Hd. simpl. eexists. split; [done|]. split; [done|].
  destruct r as [out|]; split; intros Hadm.
  - by rewrite (Hout out eq_refl).
  - exfalso. apply Hadm, Hr. eauto.
  - apply Hr in Hadm as [? [=]].
  - done.
Qed.

(** A transaction object is returned to the viewers its envelope admits. *)
Lemma transaction_disclosure profile body resp tx userAddresses isAdminOnTo inVisibleTo from to :
  answers body resp tx -> member_str "from" tx = Some from -> member_str "to" tx = Some to ->
  FilterTransactionByHash profile body userAddresses isAdminOnTo inVisibleTo =
    rpcResult (null (rr_ID resp)) tx /\
    (linked userAddresses (ToLower from) \/ linked userAddresses (ToLower to) \/
     profile = ReadProfileStandard /\ (isAdminOnTo = true \/ inVisibleTo = Some true)) \/
  FilterTransactionByHash profile body userAddresses isAdminOnTo inVisibleTo = nullResult body.
Proof.
  intros Ha Hf Ht. unfold FilterTransactionByHash. rewrite (withResult_answers _ _ _ _ _ Ha), Hf, Ht.
  cbv zeta. destruct (DecideTxEnvelope _ _) eqn:E; [left|by right]. split; [done|].
  apply DecideTxEnvelope_admits in E. simpl in E. rewrite isTxParticipant_true in E.
  destruct E as [?|(Hp & _ & [?|[Hl|(? & _)]])]; [tauto|tauto| |done].
  right; right. split; [done|]. right. destruct (_ && _ && _); [|done]. by destruct inVisibleTo as [[]|].
Qed.

(** A body that does not decode, or that carries both a result and an error,
    is answered without any of it but its id. *)
Lemma responses_fail_closed `{EventABI} rng profile body userAddresses full adminOnTo inVis perms
    abiProvider visCtx isAdminByContract render :
  (unmarshalResponse body = None \/
   exists resp e r, unmarshalResponse body = Some resp /\ rr_Error resp = Some e /\
     rr_Result resp = Some r) ->
  FilterTransactionByHash profile body userAddresses adminOnTo inVis = nullResult body /\
  FilterBlockTransactions profile body userAddresses full = nullResult body /\
  FilterBlockTransactionCount body userAddresses = nullResult body /\
  filterReceiptLogsWithEventRules rng profile userAddresses perms abiProvider visCtx
    isAdminByContract render body = Ok (nullResult body) /\
  FilterBlockReceipts rng profile userAddresses perms abiProvider visCtx isAdminByContract render
    body = Ok (nullResult body) /\
  filterLogsWithEventRules rng profile userAddresses perms abiProvider visCtx isAdminByContract
    render body = Ok (emptyLogsResponse body).
Proof.
  intros Hb.
  assert (Hw : forall M (HM : MRet M) refuse (k : rpcResponse -> raw -> M raw),
    withResult body refuse k = mret refuse).
  { intros M HM refuse k. unfold withResult.
    destruct Hb as [->|(resp & e & r & -> & -> & ->)]; done. }
  unfold FilterTransactionByHash, FilterBlockTransactions, FilterBlockTransactionCount,
    filterReceiptLogsWithEventRules, FilterBlockReceipts, filterLogsWithEventRules.
  by rewrite !Hw.
Qed.
