(* ===== verification/Sha256.v ===== *)
(** * [crypto/sha256], [crypto/hmac] and [time.RFC3339Nano]: the parts of the Go
    standard library the audit chain is computed with.

    Executable, so that a witness can hash a concrete row.  The theorems on the
    chain use of SHA-256 only that a digest has 32 bytes. *)
From S2P Require Import Prelude GoStrings.
From stdpp Require Import pretty.
From Stdlib Require Import Ascii NArith.

(** ** SHA-256 *)
Module Sha256.

Definition w32 (x : N) : N := N.land x 4294967295.
Definition add32 (x y : N) : N := w32 (x + y).
Definition rotr (n x : N) : N := N.lor (N.shiftr x n) (w32 (N.shiftl x (32 - n))).
Definition not32 (x : N) : N := N.lxor x 4294967295.

Definition K : list N := [
  1116352408; 1899447441; 3049323471; 3921009573; 961987163; 1508970993; 2453635748; 2870763221;
  3624381080; 310598401; 607225278; 1426881987; 1925078388; 2162078206; 2614888103; 3248222580;
  3835390401; 4022224774; 264347078; 604807628; 770255983; 1249150122; 1555081692; 1996064986;
  2554220882; 2821834349; 2952996808; 3210313671; 3336571891; 3584528711; 113926993; 338241895;
  666307205; 773529912; 1294757372; 1396182291; 1695183700; 1986661051; 2177026350; 2456956037;
  2730485921; 2820302411; 3259730800; 3345764771; 3516065817; 3600352804; 4094571909; 275423344;
  430227734; 506948616; 659060556; 883997877; 958139571; 1322822218; 1537002063; 1747873779;
  1955562222; 2024104815; 2227730452; 2361852424; 2428436474; 2756734187; 3204031479; 3329325298]%N.

Record state := St { sa : N; sb : N; sc : N; sd : N; se : N; sf : N; sg : N; sh : N }.

Definition init : state :=
  St 1779033703 3144134277 1013904242 2773480762 1359893119 2600822924 528734635 1541459225.

Definition round (s : state) (kw : N * N) : state :=
  let '(k, w) := kw in
  let S1 := N.lxor (N.lxor (rotr 6 (se s)) (rotr 11 (se s))) (rotr 25 (se s)) in
  let ch := N.lxor (N.land (se s) (sf s)) (N.land (not32 (se s)) (sg s)) in
  let t1 := add32 (add32 (add32 (sh s) S1) (add32 ch k)) w in
  let S0 := N.lxor (N.lxor (rotr 2 (sa s)) (rotr 13 (sa s))) (rotr 22 (sa s)) in
  let maj := N.lxor (N.lxor (N.land (sa s) (sb s)) (N.land (sa s) (sc s))) (N.land (sb s) (sc s)) in
  St (add32 t1 (add32 S0 maj)) (sa s) (sb s) (sc s) (add32 (sd s) t1) (se s) (sf s) (sg s).

(** The message schedule, from the last 16 words. *)
Fixpoint schedule (n : nat) (last16 : list N) : list N :=
  match n with
  | O => []
  | S n =>
      let w i := nth i last16 0%N in
      let s0 := N.lxor (N.lxor (rotr 7 (w 1)) (rotr 18 (w 1))) (N.shiftr (w 1) 3) in
      let s1 := N.lxor (N.lxor (rotr 17 (w 14)) (rotr 19 (w 14))) (N.shiftr (w 14) 10) in
      let x := add32 (add32 (w 0) s0) (add32 (w 9) s1) in
      x :: schedule n (tail last16 ++ [x])
  end.

Definition block (s : state) (words : list N) : state :=
  let s' := foldl round s (zip K (words ++ schedule 48 words)) in
  St (add32 (sa s) (sa s')) (add32 (sb s) (sb s')) (add32 (sc s) (sc s')) (add32 (sd s) (sd s'))
     (add32 (se s) (se s')) (add32 (sf s) (sf s')) (add32 (sg s) (sg s')) (add32 (sh s) (sh s')).

Fixpoint words (bs : list ascii) : list N :=
  match bs with
  | a :: b :: c :: d :: bs =>
      (((N_of_ascii a * 256 + N_of_ascii b) * 256 + N_of_ascii c) * 256 + N_of_ascii d)%N :: words bs
  | _ => []
  end.

Fixpoint be (n : nat) (x : N) : list ascii :=
  match n with
  | O => []
  | S n => ascii_of_N (N.land (N.shiftr x (8 * N.of_nat n)) 255) :: be n x
  end.

Definition pad (bs : list ascii) : list ascii :=
  let n := length bs in
  let zeros := (119 - n mod 64) mod 64 in
  bs ++ ascii_of_N 128 :: replicate zeros zero ++ be 8 (8 * N.of_nat n).

Fixpoint blocks (fuel : nat) (s : state) (ws : list N) : state :=
  match fuel with
  | O => s
  | S fuel => match ws with [] => s | _ => blocks fuel (block s (take 16 ws)) (drop 16 ws) end
  end.

Definition sum (bs : list ascii) : list ascii :=
  let ws := words (pad bs) in
  let s := blocks (length ws) init ws in
  be 4 (sa s) ++ be 4 (sb s) ++ be 4 (sc s) ++ be 4 (sd s) ++
  be 4 (se s) ++ be 4 (sf s) ++ be 4 (sg s) ++ be 4 (sh s).
End Sha256.

Fixpoint bytes (s : string) : list ascii :=
  match s with EmptyString => [] | String a s => a :: bytes s end.

(** [sha256.New(); Write; hex.EncodeToString(Sum(nil))] *)
Definition sha256hex (s : string) : string := EncodeToString (Sha256.sum (bytes s)).

Example sha256_abc : sha256hex "abc" =
  "ba7816bf8f01cfea414140de5dae2223b00361a396177a9cb410ff61f20015ad".
Proof. vm_compute. reflexivity. Qed.

Example sha256_two_blocks :
  sha256hex "abcdbcdecdefdefgefghfghighijhijkijkljklmklmnlmnomnopnopq" =
  "248d6a61d20638b8e5c026930c3e6039a33ce45964ff2167f6ecedd419db06c1".
Proof. vm_compute. reflexivity. Qed.

Lemma sum_length bs : length (Sha256.sum bs) = 32.
Proof. reflexivity. Qed.

Lemma sha256hex_length s : String.length (sha256hex s) = 64.
Proof. unfold sha256hex. by rewrite EncodeToString_length, sum_length. Qed.

Lemma sha256hex_nonempty s : sha256hex s <> "".
Proof. intros H. pose proof (sha256hex_length s) as Hl. by rewrite H in Hl. Qed.

(** [hmac.New(sha256.New, key)] *)
Definition xor_pad (c : N) (key : list ascii) : list ascii :=
  (fun a => ascii_of_N (N.lxor (N_of_ascii a) c)) <$> (key ++ replicate (64 - length key) zero).

Definition hmac256 (key content : list ascii) : list ascii :=
  let key := if Nat.ltb 64 (length key) then Sha256.sum key else key in
  Sha256.sum (xor_pad 92 key ++ Sha256.sum (xor_pad 54 key ++ content)).

Example hmac_fox :
  EncodeToString (hmac256 (bytes "key") (bytes "The quick brown fox jumps over the lazy dog")) =
  "f7bc83f430538424b13298e6aa6fb143ef4d59a14946175997479dbc2d1a3cd8".
Proof. vm_compute. reflexivity. Qed.

(** ** [t.UTC().Format(time.RFC3339Nano)], [t] in microseconds since the epoch. *)
Definition pad_dec (width : nat) (z : Z) : string :=
  let s := pretty z in
  String.concat "" (replicate (width - String.length s) "0") +:+ s.

(** Year, month and day of a day number, by the era decomposition. *)
Definition civil (days : Z) : Z * Z * Z :=
  let z := (days + 719468)%Z in
  let era := (z / 146097)%Z in
  let doe := (z - era * 146097)%Z in
  let yoe := ((doe - doe / 1460 + doe / 36524 - doe / 146096) / 365)%Z in
  let doy := (doe - (365 * yoe + yoe / 4 - yoe / 100))%Z in
  let mp := ((5 * doy + 2) / 153)%Z in
  let d := (doy - (153 * mp + 2) / 5 + 1)%Z in
  let m := (if mp <? 10 then mp + 3 else mp - 9)%Z in
  ((yoe + era * 400 + (if m <=? 2 then 1 else 0))%Z, m, d).

(** Trailing zeros of the fraction are dropped, and the point with them. *)
Fixpoint drop_zeros_rev (s : string) : string :=
  match s with String "0"%char s => drop_zeros_rev s | _ => s end.

Definition RFC3339Nano (micros : Z) : string :=
  let secs := (micros / 1000000)%Z in
  let frac := (micros mod 1000000)%Z in
  let '(y, m, d) := civil (secs / 86400) in
  let tod := (secs mod 86400)%Z in
  let fraction := rev_string (drop_zeros_rev (rev_string (pad_dec 6 frac))) in
  pad_dec 4 y +:+ "-" +:+ pad_dec 2 m +:+ "-" +:+ pad_dec 2 d +:+ "T" +:+
  pad_dec 2 (tod / 3600) +:+ ":" +:+ pad_dec 2 (tod / 60 mod 60) +:+ ":" +:+ pad_dec 2 (tod mod 60) +:+
  (if decide (fraction = "") then "" else "." +:+ fraction) +:+ "Z".

Example rfc3339_epoch : RFC3339Nano 0 = "1970-01-01T00:00:00Z".
Proof. vm_compute. reflexivity. Qed.
Example rfc3339_leap : RFC3339Nano 1709210096789000 = "2024-02-29T12:34:56.789Z".
Proof. vm_compute. reflexivity. Qed.
