(* ===== verification/AuditChain.v ===== *)
(** * The audit log and its hash chain: [internal/audit/hashchain.go],
    [verifier.go], [checkpoint.go], [checkpoint_worker.go], [reanchor.go], the
    writers of [internal/db/db.go], [internal/db/rbac_store_audit.go] and
    [internal/db/audit_chain.go], and the prunes of [internal/audit/retention.go].

    [AuditDb] holds the two audited tables and the chain tables.  A table is the
    list of its rows in primary-key order.  What the outside decides is an
    argument: the clock, and for every write whether it fails ([insert_result]).
    A [timestamp] column is in microseconds; [time.Now()] is in nanoseconds. *)
From S2P Require Import Prelude GoStrings Sha256.
From stdpp Require Import pretty.
From Stdlib Require Import Ascii.

(** ** Tables *)
Record AccessRow := {
  ar_id : Z; ar_external_id : string; ar_method : string; ar_status_code : Z;
  ar_response_status : option Z; ar_ip_address : string; ar_correlation_id : option string;
  ar_request_params : option string; ar_created_at : Z; ar_entry_hash : option string;
  ar_hash_format_version : Z; ar_buffer_seq : option Z; ar_chain_name : string;
  ar_org_id : option string; ar_denial_reason : option string }.

Record RbacRow := {
  br_id : Z; br_actor_external_id : option string; br_action : string; br_resource_type : string;
  br_resource_id : option string; br_resource_name : option string; br_org_id : option string;
  br_ip_address : option string; br_created_at : Z; br_old_value : option string;
  br_new_value : option string; br_entry_hash : option string; br_hash_format_version : Z }.

Record Checkpoint := {
  ck_ChainName : string; ck_HeadID : Z; ck_HeadHash : string; ck_RowCount : Z;
  ck_CreatedAt : Z; ck_KeyID : string; ck_Signature : string }.

Record ReAnchor := {
  ra_ChainName : string; ra_Reason : string; ra_Actor : string; ra_FromHeadID : Z;
  ra_FromHash : string; ra_ToHeadID : Z; ra_ToHash : string; ra_CreatedAt : Z;
  ra_KeyID : string; ra_Signature : string }.

(** [audit_chain_anchor]: the last pruned id and its hash, by chain. *)
Record AuditDb := {
  db_access_logs : list AccessRow;
  db_access_seq : Z;
  db_rbac_log : list RbacRow;
  db_rbac_seq : Z;
  db_anchors : gmap string (Z * string);
  db_checkpoints : list Checkpoint;
  db_reanchors : list ReAnchor }.

Definition with_access (l : list AccessRow) (d : AuditDb) : AuditDb :=
  {| db_access_logs := l; db_access_seq := db_access_seq d; db_rbac_log := db_rbac_log d;
     db_rbac_seq := db_rbac_seq d; db_anchors := db_anchors d; db_checkpoints := db_checkpoints d;
     db_reanchors := db_reanchors d |}.
Definition with_access_seq (n : Z) (d : AuditDb) : AuditDb :=
  {| db_access_logs := db_access_logs d; db_access_seq := n; db_rbac_log := db_rbac_log d;
     db_rbac_seq := db_rbac_seq d; db_anchors := db_anchors d; db_checkpoints := db_checkpoints d;
     db_reanchors := db_reanchors d |}.
Definition with_rbac (l : list RbacRow) (d : AuditDb) : AuditDb :=
  {| db_access_logs := db_access_logs d; db_access_seq := db_access_seq d; db_rbac_log := l;
     db_rbac_seq := db_rbac_seq d; db_anchors := db_anchors d; db_checkpoints := db_checkpoints d;
     db_reanchors := db_reanchors d |}.
Definition with_rbac_seq (n : Z) (d : AuditDb) : AuditDb :=
  {| db_access_logs := db_access_logs d; db_access_seq := db_access_seq d;
     db_rbac_log := db_rbac_log d; db_rbac_seq := n; db_anchors := db_anchors d;
     db_checkpoints := db_checkpoints d; db_reanchors := db_reanchors d |}.
Definition with_anchors (a : gmap string (Z * string)) (d : AuditDb) : AuditDb :=
  {| db_access_logs := db_access_logs d; db_access_seq := db_access_seq d;
     db_rbac_log := db_rbac_log d; db_rbac_seq := db_rbac_seq d; db_anchors := a;
     db_checkpoints := db_checkpoints d; db_reanchors := db_reanchors d |}.
Definition with_checkpoints (l : list Checkpoint) (d : AuditDb) : AuditDb :=
  {| db_access_logs := db_access_logs d; db_access_seq := db_access_seq d;
     db_rbac_log := db_rbac_log d; db_rbac_seq := db_rbac_seq d; db_anchors := db_anchors d;
     db_checkpoints := l; db_reanchors := db_reanchors d |}.
Definition with_reanchors (l : list ReAnchor) (d : AuditDb) : AuditDb :=
  {| db_access_logs := db_access_logs d; db_access_seq := db_access_seq d;
     db_rbac_log := db_rbac_log d; db_rbac_seq := db_rbac_seq d; db_anchors := db_anchors d;
     db_checkpoints := db_checkpoints d; db_reanchors := l |}.

Definition ChainNameAccessLogs : string := "access_logs".
Definition ChainNameRBACAuditLog : string := "rbac_audit_log".

(** ** The chain *)
Definition computeChainHash (prev content : string) : string := sha256hex (prev +:+ content).

(** [HashChain.ComputeNext]; the state is [lastHash]. *)
Definition ComputeNext (entryContent : string) (lastHash : string) : string * string :=
  let hash := computeChainHash lastHash entryContent in (hash, hash).

Definition errAppendNilWrite : string := "hashchain: Append build callback returned nil write".

(** [HashChain.Append], under the chain's mutex: the state is [lastHash] and
    the database the callbacks work on. *)
Definition Append {D} (build : string -> stM D (string * option (string -> stM D unit)))
  : stM (string * D) string :=
  fun '(prev, d) =>
  match build prev d with
  | (Err e, d) => (Err e, (prev, d))
  | (Ok (_, None), d) => (Err errAppendNilWrite, (prev, d))
  | (Ok (content, Some write), d) =>
      let hash := computeChainHash prev content in
      match write hash d with
      | (Err e, d) => (Err e, (prev, d))
      | (Ok _, d) => (Ok hash, (hash, d))
      end
  end.

(** ** Canonical contents *)
Definition bar : string := "|".

Definition AccessLogChainContent (id : Z) (externalID method ipAddress : string)
    (statusCode responseStatus : Z) (createdAt : Z) (correlationID paramsDigest : string) : string :=
  "v2|" +:+ pretty id +:+ bar +:+ externalID +:+ bar +:+ method +:+ bar +:+ ipAddress +:+ bar +:+
  pretty statusCode +:+ bar +:+ pretty responseStatus +:+ bar +:+ RFC3339Nano createdAt +:+ bar +:+
  correlationID +:+ bar +:+ paramsDigest.

Definition RBACAuditChainContent (id : Z)
    (actorExternalID action resourceType resourceID resourceName orgID ipAddress : string)
    (createdAt : Z) (oldValue newValue : string) : string :=
  "v1|" +:+ pretty id +:+ bar +:+ actorExternalID +:+ bar +:+ action +:+ bar +:+ resourceType +:+ bar +:+
  resourceID +:+ bar +:+ resourceName +:+ bar +:+ orgID +:+ bar +:+ ipAddress +:+ bar +:+
  RFC3339Nano createdAt +:+ bar +:+ oldValue +:+ bar +:+ newValue.

(** ** Writers *)

(** The outcome of a write statement: applied, refused, or applied with the
    acknowledgement lost. *)
Inductive insert_result := InsertOk | InsertFailed | InsertLost.

(** [nextval]: the sequence advances whether or not the row is written. *)
Definition nextval_access : stM AuditDb Z :=
  d ← get; _ ← put (with_access_seq (db_access_seq d + 1) d); mret (db_access_seq d).
Definition nextval_rbac : stM AuditDb Z :=
  d ← get; _ ← put (with_rbac_seq (db_rbac_seq d + 1) d); mret (db_rbac_seq d).

(** A row at its place in primary-key order. *)
Fixpoint insert_access (r : AccessRow) (l : list AccessRow) : list AccessRow :=
  match l with
  | [] => [r]
  | x :: l => if (ar_id r <? ar_id x)%Z then r :: x :: l else x :: insert_access r l
  end.
Fixpoint insert_rbac (r : RbacRow) (l : list RbacRow) : list RbacRow :=
  match l with
  | [] => [r]
  | x :: l => if (br_id r <? br_id x)%Z then r :: x :: l else x :: insert_rbac r l
  end.

(** The constraints of [access_logs]: the primary key and the partial unique
    index on [buffer_seq]. *)
Definition access_conflict (r : AccessRow) (l : list AccessRow) : bool :=
  existsb (fun x => Z.eqb (ar_id x) (ar_id r) ||
                    match ar_buffer_seq x, ar_buffer_seq r with
                    | Some a, Some b => Z.eqb a b | _, _ => false end) l.

Definition insertAccess (out : insert_result) (r : AccessRow) : stM AuditDb unit :=
  d ← get;
  if access_conflict r (db_access_logs d) then fail "insert access_logs: unique violation"
  else match out with
  | InsertOk => put (with_access (insert_access r (db_access_logs d)) d)
  | InsertFailed => fail "insert access_logs: failed"
  | InsertLost => _ ← put (with_access (insert_access r (db_access_logs d)) d);
                  fail "insert access_logs: connection lost"
  end.

Definition insertRbac (out : insert_result) (r : RbacRow) : stM AuditDb unit :=
  d ← get;
  if existsb (fun x => Z.eqb (br_id x) (br_id r)) (db_rbac_log d)
  then fail "insert rbac_audit_log: unique violation"
  else match out with
  | InsertOk => put (with_rbac (insert_rbac r (db_rbac_log d)) d)
  | InsertFailed => fail "insert rbac_audit_log: failed"
  | InsertLost => _ ← put (with_rbac (insert_rbac r (db_rbac_log d)) d);
                  fail "insert rbac_audit_log: connection lost"
  end.

(** What the outside decides of one chained write. *)
Record write_io := { io_now : Z; io_nextval : bool; io_insert : insert_result }.

Definition nullableText (s : string) : option string := if decide (s = "") then None else Some s.

(** [AccessLogRecord] *)
Record AccessLogRecord := {
  lr_ExternalID : string; lr_Method : string; lr_StatusCode : Z; lr_IPAddress : string;
  lr_CorrelationID : string; lr_Params : option string; lr_ResponseStatus : option Z;
  lr_OrgID : string; lr_DenialReason : string }.

Definition accessRow (rec : AccessLogRecord) (id createdAt : Z) (hash : option string)
    (seq : option Z) (chainName : string) : AccessRow := {|
  ar_id := id; ar_external_id := lr_ExternalID rec; ar_method := lr_Method rec;
  ar_status_code := lr_StatusCode rec; ar_response_status := lr_ResponseStatus rec;
  ar_ip_address := lr_IPAddress rec; ar_correlation_id := nullableText (lr_CorrelationID rec);
  ar_request_params := lr_Params rec; ar_created_at := createdAt; ar_entry_hash := hash;
  ar_hash_format_version := 2; ar_buffer_seq := seq; ar_chain_name := chainName;
  ar_org_id := nullableText (lr_OrgID rec); ar_denial_reason := nullableText (lr_DenialReason rec) |}.

(** The build callback shared by [LogAccessChained] and [SealBufferedAccessLog]. *)
Definition buildAccess (io : write_io) (rec : AccessLogRecord) (seq : option Z) (chainName : string)
    (prev : string) : stM AuditDb (string * option (string -> stM AuditDb unit)) :=
  if negb (io_nextval io) then fail "reserve access_logs id: failed"
  else
    id ← nextval_access;
    let createdAt := (io_now io / 1000)%Z in
    let content := AccessLogChainContent id (lr_ExternalID rec) (lr_Method rec) (lr_IPAddress rec)
                     (lr_StatusCode rec) (default (lr_StatusCode rec) (lr_ResponseStatus rec))
                     createdAt (lr_CorrelationID rec) (default "" (lr_Params rec)) in
    mret (content, Some (fun hash =>
      insertAccess (io_insert io) (accessRow rec id createdAt (Some hash) seq chainName))).

(** The synchronous path; the column default names the chain. *)
Definition LogAccessChained (io : write_io) (rec : AccessLogRecord) : stM (string * AuditDb) string :=
  Append (buildAccess io rec None ChainNameAccessLogs).

(** The sealer's path. *)
Definition SealBufferedAccessLog (io : write_io) (rec : AccessLogRecord) (bufferSeq : Z)
    (chainName : string) : stM (string * AuditDb) string :=
  Append (buildAccess io rec (Some bufferSeq) chainName).

(** With a nil chain the sealer refuses. *)
Definition SealNilChain : stM AuditDb string := fail "seal access log: nil chain".

(** [LogAccessEnhanced] and [LogAccess]: rows outside the chain. *)
Definition LogAccessEnhanced (io : write_io) (rec : AccessLogRecord) : stM AuditDb Z :=
  id ← nextval_access;
  _ ← insertAccess (io_insert io) (accessRow rec id (io_now io / 1000) None None ChainNameAccessLogs);
  mret id.

(** [LogAccessChained] with a nil chain. *)
Definition LogAccessNilChain (io : write_io) (rec : AccessLogRecord) : stM AuditDb string :=
  _ ← LogAccessEnhanced io rec; mret "".

Definition LogAccess (io : write_io) (externalID method : string) (statusCode : Z)
    (ipAddress : string) : stM AuditDb unit :=
  _ ← LogAccessEnhanced io {| lr_ExternalID := externalID; lr_Method := method;
        lr_StatusCode := statusCode; lr_IPAddress := ipAddress; lr_CorrelationID := "";
        lr_Params := None; lr_ResponseStatus := None; lr_OrgID := ""; lr_DenialReason := "" |};
  mret tt.

Definition UpdateAccessLogHash (id : Z) (hash : string) (d : AuditDb) : AuditDb :=
  with_access ((fun r => if Z.eqb (ar_id r) id
    then {| ar_id := ar_id r; ar_external_id := ar_external_id r; ar_method := ar_method r;
            ar_status_code := ar_status_code r; ar_response_status := ar_response_status r;
            ar_ip_address := ar_ip_address r; ar_correlation_id := ar_correlation_id r;
            ar_request_params := ar_request_params r; ar_created_at := ar_created_at r;
            ar_entry_hash := Some hash; ar_hash_format_version := ar_hash_format_version r;
            ar_buffer_seq := ar_buffer_seq r; ar_chain_name := ar_chain_name r;
            ar_org_id := ar_org_id r; ar_denial_reason := ar_denial_reason r |}
    else r) <$> db_access_logs d) d.

(** [rbac.AuditLogEntry]; the two values are the JSON the writer marshals. *)
Record AuditLogEntry := {
  ae_ActorExternalID : string; ae_Action : string; ae_ResourceType : string;
  ae_ResourceID : option string; ae_ResourceName : string; ae_OrgID : option string;
  ae_OldValue : option string; ae_NewValue : option string; ae_IPAddress : string }.

Definition rbacRow (e : AuditLogEntry) (id createdAt : Z) (hash : option string) : RbacRow := {|
  br_id := id; br_actor_external_id := Some (ae_ActorExternalID e); br_action := ae_Action e;
  br_resource_type := ae_ResourceType e; br_resource_id := ae_ResourceID e;
  br_resource_name := Some (ae_ResourceName e); br_org_id := ae_OrgID e;
  br_ip_address := Some (ae_IPAddress e); br_created_at := createdAt;
  br_old_value := ae_OldValue e; br_new_value := ae_NewValue e; br_entry_hash := hash;
  br_hash_format_version := 1 |}.

Definition buildRBACAuditContent (id createdAt : Z) (e : AuditLogEntry) : string :=
  RBACAuditChainContent id (ae_ActorExternalID e) (ae_Action e) (ae_ResourceType e)
    (default "" (ae_ResourceID e)) (ae_ResourceName e) (default "" (ae_OrgID e)) (ae_IPAddress e)
    createdAt (default "" (ae_OldValue e)) (default "" (ae_NewValue e)).

Definition insertAuditLogLegacy (io : write_io) (e : AuditLogEntry) : stM AuditDb unit :=
  id ← nextval_rbac; insertRbac (io_insert io) (rbacRow e id (io_now io / 1000) None).

(** [CreateAuditLog]; the chain is [None] until it is installed. *)
Definition CreateAuditLog (io : write_io) (e : AuditLogEntry)
  : stM (option string * AuditDb) unit :=
  fun '(chain, d) =>
  match chain with
  | None => let '(r, d) := insertAuditLogLegacy io e d in (r, (None, d))
  | Some head =>
      let '(r, (head, d)) :=
        Append (fun _ =>
          if negb (io_nextval io) then fail "reserve rbac_audit_log id: failed"
          else
            id ← nextval_rbac;
            let createdAt := (io_now io / 1000)%Z in
            mret (buildRBACAuditContent id createdAt e,
                  Some (fun hash => insertRbac (io_insert io) (rbacRow e id createdAt (Some hash)))))
          (head, d) in
      (match r with Ok _ => Ok tt | Err err => Err err end, (Some head, d))
  end.

(** [LogAuditAction]: the row of a prune; [details] is the marshalled map. *)
Definition LogAuditAction (io : write_io) (action details : string) : stM AuditDb unit :=
  id ← nextval_rbac;
  insertRbac (io_insert io) {|
    br_id := id; br_actor_external_id := Some "system:retention"; br_action := action;
    br_resource_type := "audit_log"; br_resource_id := None; br_resource_name := None;
    br_org_id := None; br_ip_address := None; br_created_at := (io_now io / 1000)%Z;
    br_old_value := None; br_new_value := Some details; br_entry_hash := None;
    br_hash_format_version := 1 |}.
