(* ===== verification/AuditVerify.v ===== *)
(** * Reading the audit chain: seeds, prunes, checkpoints, the verifier and the
    break-glass re-anchor.

    [internal/audit/verifier.go], [checkpoint.go], [checkpoint_worker.go],
    [reanchor.go], [retention.go] and the queries of [internal/db/db.go] and
    [internal/db/audit_chain.go] they run.  What a read can meet (a row that does
    not scan, a cancelled context) is a list of [scan] events; the events of a
    healthy read are the rows of the table. *)
From S2P Require Import Prelude GoStrings Sha256 AuditChain.
From stdpp Require Import pretty.
From Stdlib Require Import Ascii.

(** ** Seeds *)
Definition nonempty (h : option string) : option string :=
  match h with Some h => if decide (h = "") then None else Some h | None => None end.

Definition anchorHash (chainName : string) (d : AuditDb) : string :=
  match db_anchors d !! chainName with Some (_, h) => h | None => "" end.

(** [SELECT entry_hash ... WHERE entry_hash IS NOT NULL ORDER BY id DESC LIMIT 1] *)
Definition latestHash (hashes : list (option string)) : option string :=
  last (omap id hashes).

Definition GetLatestRBACAuditLogHash (d : AuditDb) : string :=
  default (anchorHash ChainNameRBACAuditLog d) (nonempty (latestHash (br_entry_hash <$> db_rbac_log d))).

Definition GetLatestAccessLogHash (d : AuditDb) : string :=
  default (anchorHash ChainNameAccessLogs d)
    (nonempty (latestHash (ar_entry_hash <$> db_access_logs d))).

Definition chainRows (chainName : string) (d : AuditDb) : list AccessRow :=
  filter (fun r => ar_chain_name r = chainName) (db_access_logs d).

Definition GetLatestAccessLogHashForChain (chainName : string) (d : AuditDb) : string :=
  default (anchorHash chainName d)
    (nonempty (latestHash (ar_entry_hash <$> chainRows chainName d))).

Definition GetMaxAccessLogBufferSeq (chainName : string) (d : AuditDb) : Z :=
  let seqs := omap ar_buffer_seq (chainRows chainName d) in
  match seqs with
  | [] => 0
  | s :: seqs => Z.max 0 (foldr Z.max s seqs)
  end.

(** ** Prunes *)
Record PruneResult := { pr_Deleted : Z; pr_LowestID : Z; pr_HighestID : Z; pr_AnchorHash : string }.
Definition noPrune : PruneResult :=
  {| pr_Deleted := 0; pr_LowestID := 0; pr_HighestID := 0; pr_AnchorHash := "" |}.

Definition upsertAuditChainAnchor (chainName : string) (lastID : Z) (lastHash : string) (d : AuditDb)
  : AuditDb := with_anchors (<[chainName := (lastID, lastHash)]> (db_anchors d)) d.

(** The tail of both prunes: the anchor of the deleted range, whose last row is [cut]. *)
Definition pruneTo (deleted kept : list AccessRow) (d : AuditDb) : PruneResult * AuditDb :=
  match deleted, last deleted with
  | first :: _, Some cut =>
      let h := default (anchorHash ChainNameAccessLogs d) (nonempty (ar_entry_hash cut)) in
      ({| pr_Deleted := Z.of_nat (length deleted); pr_LowestID := ar_id first;
          pr_HighestID := ar_id cut; pr_AnchorHash := h |},
       upsertAuditChainAnchor ChainNameAccessLogs (ar_id cut) h (with_access kept d))
  | _, _ => (noPrune, d)
  end.

(** [CleanupAccessLogs], as its transaction commits. *)
Definition CleanupAccessLogs (olderThan : Z) (d : AuditDb) : PruneResult * AuditDb :=
  pruneTo (filter (fun r => (ar_created_at r < olderThan)%Z) (db_access_logs d))
          (filter (fun r => ~ (ar_created_at r < olderThan)%Z) (db_access_logs d)) d.

(** [TrimAccessLogsFIFOBatch], as its transaction commits. *)
Definition TrimAccessLogsFIFOBatch (maxRows batchSize : Z) (d : AuditDb) : PruneResult * AuditDb :=
  let maxRows := Z.max 0 maxRows in
  let batchSize := if (batchSize <=? 0)%Z then 1000%Z else batchSize in
  let excess := (Z.of_nat (length (db_access_logs d)) - maxRows)%Z in
  if (excess <=? 0)%Z then (noPrune, d)
  else
    let n := Z.to_nat (Z.min excess batchSize) in
    pruneTo (take n (db_access_logs d)) (drop n (db_access_logs d)) d.

Definition CleanupRBACAuditLogs (olderThan : Z) (d : AuditDb) : Z * AuditDb :=
  let deleted := filter (fun r => (br_created_at r < olderThan)%Z) (db_rbac_log d) in
  (Z.of_nat (length deleted),
   with_rbac (filter (fun r => ~ (br_created_at r < olderThan)%Z) (db_rbac_log d)) d).

(** The loop of [trimAccessLogsFIFO]: at most [maxAccessLogTrimIterations]
    batches, until one deletes nothing; [None] when a batch fails, which ends
    the sweep. *)
Definition maxAccessLogTrimIterations : nat := 50.

Fixpoint trimBatches (fails : nat -> bool) (fuel : nat) (maxRows batchSize : Z) (acc : PruneResult)
    (d : AuditDb) : option PruneResult * AuditDb :=
  match fuel with
  | O => (Some acc, d)
  | S fuel =>
      if fails fuel then (None, d)
      else
        let '(res, d) := TrimAccessLogsFIFOBatch maxRows batchSize d in
        if Z.eqb (pr_Deleted res) 0 then (Some acc, d)
        else trimBatches fails fuel maxRows batchSize {|
          pr_Deleted := pr_Deleted acc + pr_Deleted res;
          pr_LowestID := (if Z.eqb (pr_LowestID acc) 0 && (0 <? pr_LowestID res)%Z
                          then pr_LowestID res else pr_LowestID acc);
          pr_HighestID := Z.max (pr_HighestID acc) (pr_HighestID res);
          pr_AnchorHash := (if decide (pr_AnchorHash res = "") then pr_AnchorHash acc
                            else pr_AnchorHash res) |} d
  end.

(** [trimAccessLogsFIFO]; [countFails] and [fails] are the failures of the count
    and of the batches, [io] and [details] those of the audit row. *)
Definition trimAccessLogsFIFO (countFails : bool) (fails : nat -> bool) (maxRows batchSize : Z)
    (io : write_io) (details : PruneResult -> string) (d : AuditDb) : AuditDb :=
  if (maxRows <=? 0)%Z then d
  else
    let batchSize := if (batchSize <=? 0)%Z then 1000%Z else batchSize in
    if countFails || (Z.of_nat (length (db_access_logs d)) <=? maxRows)%Z then d
    else
      match trimBatches fails maxAccessLogTrimIterations maxRows batchSize noPrune d with
      | (None, d) => d
      | (Some res, d) =>
          if (0 <? pr_Deleted res)%Z
          then snd (LogAuditAction io "audit.access_logs.prune" (details res) d)
          else d
      end.

(** The branch of [cleanup] that prunes [access_logs] by age; a failed prune is
    rolled back. *)
Definition cleanupByAge (fails : bool) (olderThan : Z) (io : write_io) (details : PruneResult -> string)
    (d : AuditDb) : AuditDb :=
  if fails then d
  else
    let '(res, d) := CleanupAccessLogs olderThan d in
    if (0 <? pr_Deleted res)%Z
    then snd (LogAuditAction io "audit.access_logs.prune" (details res) d)
    else d.

(** ** Checkpoints and their signatures *)
Definition joinBar (l : list string) : string := String.concat bar l.

(** [UnixMicro] of a time in nanoseconds. *)
Definition UnixMicro (ns : Z) : Z := (ns / 1000)%Z.

Definition checkpointContent (c : Checkpoint) : string :=
  joinBar ["ckpt-v2"; ck_ChainName c; pretty (ck_HeadID c); ck_HeadHash c; pretty (ck_RowCount c);
           pretty (UnixMicro (ck_CreatedAt c))].

Definition reAnchorContent (r : ReAnchor) : string :=
  joinBar ["reanchor-v2"; ra_ChainName r; ra_Reason r; ra_Actor r; pretty (ra_FromHeadID r);
           ra_FromHash r; pretty (ra_ToHeadID r); ra_ToHash r; pretty (UnixMicro (ra_CreatedAt r))].

(** The [Signer] interface: a signature and its key id, or an error; [None] is a
    verified signature. *)
Record Signer := {
  Sign : string -> result (string * string);
  VerifySig : string -> string -> string -> option string }.

Definition hmacSign (keyID : string) (key : list ascii) (content : string)
  : result (string * string) :=
  if decide (key = []) then Err "hmac signer: empty key"
  else Ok (EncodeToString (hmac256 key (bytes content)), keyID).

Definition hmacVerify (keyID : string) (key : list ascii) (content sig kid : string)
  : option string :=
  if decide (kid <> keyID) then Some "checkpoint key id does not match verifier key"
  else match hmacSign keyID key content with
  | Err e => Some e
  | Ok (want, _) =>
      match DecodeString want, DecodeString sig with
      | None, _ => Some "internal: bad recomputed signature"
      | _, None => Some "checkpoint signature is not valid hex"
      | Some wantB, Some gotB =>
          if decide (wantB = gotB) then None else Some "checkpoint signature mismatch"
      end
  end.

Definition HMACSigner (keyID : string) (key : list ascii) : Signer :=
  {| Sign := hmacSign keyID key; VerifySig := hmacVerify keyID key |}.

Definition SignCheckpoint (s : Signer) (c : Checkpoint) : result Checkpoint :=
  '(sig, keyID) ← wrap "sign checkpoint" (Sign s (checkpointContent c));
  Ok {| ck_ChainName := ck_ChainName c; ck_HeadID := ck_HeadID c; ck_HeadHash := ck_HeadHash c;
        ck_RowCount := ck_RowCount c; ck_CreatedAt := ck_CreatedAt c; ck_KeyID := keyID;
        ck_Signature := sig |}.

Definition VerifyCheckpoint (s : Signer) (c : Checkpoint) : option string :=
  VerifySig s (checkpointContent c) (ck_Signature c) (ck_KeyID c).

Definition SignReAnchor (s : Signer) (r : ReAnchor) : result ReAnchor :=
  '(sig, keyID) ← wrap "sign re-anchor" (Sign s (reAnchorContent r));
  Ok {| ra_ChainName := ra_ChainName r; ra_Reason := ra_Reason r; ra_Actor := ra_Actor r;
        ra_FromHeadID := ra_FromHeadID r; ra_FromHash := ra_FromHash r;
        ra_ToHeadID := ra_ToHeadID r; ra_ToHash := ra_ToHash r; ra_CreatedAt := ra_CreatedAt r;
        ra_KeyID := keyID; ra_Signature := sig |}.

Definition VerifyReAnchor (s : Signer) (r : ReAnchor) : option string :=
  VerifySig s (reAnchorContent r) (ra_Signature r) (ra_KeyID r).

(** A time as a [timestamp] column gives it back. *)
Definition storedTime (ns : Z) : Z := (UnixMicro ns * 1000)%Z.

Definition WriteAuditChainCheckpoint (c : Checkpoint) (d : AuditDb) : AuditDb :=
  with_checkpoints (db_checkpoints d ++
    [{| ck_ChainName := ck_ChainName c; ck_HeadID := ck_HeadID c; ck_HeadHash := ck_HeadHash c;
        ck_RowCount := ck_RowCount c; ck_CreatedAt := storedTime (ck_CreatedAt c);
        ck_KeyID := ck_KeyID c; ck_Signature := ck_Signature c |}]) d.

Definition GetLatestAuditChainCheckpoint (chainName : string) (d : AuditDb) : option Checkpoint :=
  last (filter (fun c => ck_ChainName c = chainName) (db_checkpoints d)).

(** Row count, head id and head hash. *)
Definition GetAccessLogChainStats (chainName : string) (d : AuditDb) : Z * Z * string :=
  match last (chainRows chainName d) with
  | None => (0%Z, 0%Z, "")
  | Some r => (Z.of_nat (length (chainRows chainName d)), ar_id r, default "" (ar_entry_hash r))
  end.

(** [CheckpointWorker.Checkpoint] *)
Definition takeCheckpoint (s : Signer) (chain : string) (now : Z) (d : AuditDb) : result AuditDb :=
  let '(rowCount, headID, headHash) := GetAccessLogChainStats chain d in
  if Z.eqb rowCount 0 then Ok d
  else
    c ← SignCheckpoint s {| ck_ChainName := chain; ck_HeadID := headID; ck_HeadHash := headHash;
          ck_RowCount := rowCount; ck_CreatedAt := now; ck_KeyID := ""; ck_Signature := "" |};
    Ok (WriteAuditChainCheckpoint c d).

Definition checkpointTruncated (c : option Checkpoint) (curHead : option Z) : bool :=
  match c, curHead with
  | None, _ => false
  | Some c, None => (0 <? ck_HeadID c)%Z
  | Some c, Some cur => (cur <? ck_HeadID c)%Z
  end.

(** ** The verifier *)
Inductive Reason :=
| NoReason | ReasonHashMismatch | ReasonNullEntryHash | ReasonRowReadFailed | ReasonSeedReadFailed
| ReasonAnchorMismatch | ReasonUnknownFormat | ReasonContextCanceled
| ReasonCheckpointReadFailed | ReasonCheckpointForged | ReasonChainTruncated.

Record Result := {
  vr_OK : bool; vr_ScannedRows : Z; vr_NullHashRows : Z; vr_Seed : string; vr_TailHash : string;
  vr_FirstMismatchID : Z; vr_FirstMismatchHash : string; vr_FirstMismatchExpect : string;
  vr_FirstMismatchTime : Z; vr_FirstMismatchReason : Reason }.

Definition newResult : Result :=
  {| vr_OK := true; vr_ScannedRows := 0; vr_NullHashRows := 0; vr_Seed := ""; vr_TailHash := "";
     vr_FirstMismatchID := 0; vr_FirstMismatchHash := ""; vr_FirstMismatchExpect := "";
     vr_FirstMismatchTime := 0; vr_FirstMismatchReason := NoReason |}.

Definition withSeed (seed : string) (r : Result) : Result :=
  {| vr_OK := vr_OK r; vr_ScannedRows := vr_ScannedRows r; vr_NullHashRows := vr_NullHashRows r;
     vr_Seed := seed; vr_TailHash := vr_TailHash r; vr_FirstMismatchID := vr_FirstMismatchID r;
     vr_FirstMismatchHash := vr_FirstMismatchHash r;
     vr_FirstMismatchExpect := vr_FirstMismatchExpect r;
     vr_FirstMismatchTime := vr_FirstMismatchTime r;
     vr_FirstMismatchReason := vr_FirstMismatchReason r |}.

Definition withTail (tail : string) (r : Result) : Result :=
  {| vr_OK := vr_OK r; vr_ScannedRows := vr_ScannedRows r; vr_NullHashRows := vr_NullHashRows r;
     vr_Seed := vr_Seed r; vr_TailHash := tail; vr_FirstMismatchID := vr_FirstMismatchID r;
     vr_FirstMismatchHash := vr_FirstMismatchHash r;
     vr_FirstMismatchExpect := vr_FirstMismatchExpect r;
     vr_FirstMismatchTime := vr_FirstMismatchTime r;
     vr_FirstMismatchReason := vr_FirstMismatchReason r |}.

(** One more scanned row, whose hash is null if [n]. *)
Definition scanned (n : bool) (r : Result) : Result :=
  {| vr_OK := vr_OK r; vr_ScannedRows := vr_ScannedRows r + 1;
     vr_NullHashRows := (vr_NullHashRows r + if n then 1 else 0)%Z;
     vr_Seed := vr_Seed r; vr_TailHash := vr_TailHash r;
     vr_FirstMismatchID := vr_FirstMismatchID r; vr_FirstMismatchHash := vr_FirstMismatchHash r;
     vr_FirstMismatchExpect := vr_FirstMismatchExpect r;
     vr_FirstMismatchTime := vr_FirstMismatchTime r;
     vr_FirstMismatchReason := vr_FirstMismatchReason r |}.

(** The failed result of a walk. *)
Definition failed (reason : Reason) (id : Z) (hash expect : string) (time : Z) (r : Result) : Result :=
  {| vr_OK := false; vr_ScannedRows := vr_ScannedRows r; vr_NullHashRows := vr_NullHashRows r;
     vr_Seed := vr_Seed r; vr_TailHash := vr_TailHash r; vr_FirstMismatchID := id;
     vr_FirstMismatchHash := hash; vr_FirstMismatchExpect := expect; vr_FirstMismatchTime := time;
     vr_FirstMismatchReason := reason |}.

(** A reason and the fields that go with it, the others kept. *)
Definition failWith (reason : Reason) (res : Result) : Result :=
  failed reason (vr_FirstMismatchID res) (vr_FirstMismatchHash res) (vr_FirstMismatchExpect res)
    (vr_FirstMismatchTime res) res.

(** A row as a walk reads it. *)
Record vrow := {
  v_id : Z; v_content : string; v_hash : option string; v_version : Z; v_time : Z }.

Definition vrowOfAccess (r : AccessRow) : vrow := {|
  v_id := ar_id r;
  v_content := AccessLogChainContent (ar_id r) (ar_external_id r) (ar_method r) (ar_ip_address r)
                 (ar_status_code r) (default (ar_status_code r) (ar_response_status r))
                 (ar_created_at r) (default "" (ar_correlation_id r))
                 (default "" (ar_request_params r));
  v_hash := ar_entry_hash r; v_version := ar_hash_format_version r; v_time := ar_created_at r |}.

Definition vrowOfRbac (r : RbacRow) : vrow := {|
  v_id := br_id r;
  v_content := RBACAuditChainContent (br_id r) (default "" (br_actor_external_id r)) (br_action r)
                 (br_resource_type r) (default "" (br_resource_id r))
                 (default "" (br_resource_name r)) (default "" (br_org_id r))
                 (default "" (br_ip_address r)) (br_created_at r) (default "" (br_old_value r))
                 (default "" (br_new_value r));
  v_hash := br_entry_hash r; v_version := br_hash_format_version r; v_time := br_created_at r |}.

Inductive scan := ScanRow (r : vrow) | ScanFailed (id : Z) (err : string) | Canceled (err : string).

(** A loop that ran to its end or broke out of it, with the last good hash; or
    one that returned, with an error or none. *)
Inductive walked := Finished (r : Result) (prev : string) | Returned (r : Result) (err : option string).

Fixpoint walk (version : Z) (events : list scan) (prev : string) (res : Result) : walked :=
  match events with
  | [] => Finished res prev
  | Canceled err :: _ =>
      Returned (failWith ReasonContextCanceled res) (Some err)
  | ScanFailed id err :: _ =>
      Returned (failed ReasonRowReadFailed id (vr_FirstMismatchHash res)
                  (vr_FirstMismatchExpect res) (vr_FirstMismatchTime res) res) (Some err)
  | ScanRow r :: events =>
      match nonempty (v_hash r) with
      | None =>
          let res := scanned true res in
          Finished (if vr_OK res
                    then failed ReasonNullEntryHash (v_id r) (vr_FirstMismatchHash res)
                           (vr_FirstMismatchExpect res) (v_time r) res
                    else res) prev
      | Some h =>
          let res := scanned false res in
          if negb (Z.eqb (v_version r) version)
          then Returned (failed ReasonUnknownFormat (v_id r) h (vr_FirstMismatchExpect res)
                           (v_time r) res) None
          else
            let expect := computeChainHash prev (v_content r) in
            if negb (bool_decide (expect = h))
            then Returned (failed ReasonHashMismatch (v_id r) h expect (v_time r) res) None
            else walk version events h res
      end
  end.

(** [startingPrev]: [None] is a failed read. *)
Definition startingPrev (chain : string) (d : AuditDb) : string * Z :=
  match db_anchors d !! chain with Some (id, h) => (h, id) | None => ("", 0%Z) end.

(** What the outside decides of one verification: whether the anchor and the
    query can be read, and what happens to the rows. *)
Record read_io := {
  rd_anchor : option string;
  rd_query : option string;
  rd_rows : list vrow -> list scan;
  rd_err : option string;
  rd_checkpoint : bool;   (* the latest checkpoint cannot be read *)
  rd_head : bool          (* the head of the chain cannot be read *) }.

(** A read that meets no failure. *)
Definition healthy : read_io :=
  {| rd_anchor := None; rd_query := None; rd_rows := fmap ScanRow; rd_err := None;
     rd_checkpoint := false; rd_head := false |}.

(** The result, [None] for a nil pointer, and the error. *)
Definition verifyOneAccessLogChain (io : read_io) (chainName : string) (d : AuditDb)
  : option Result * option string :=
  match rd_anchor io with
  | Some e => (Some (failed ReasonSeedReadFailed 0 "" "" 0 newResult), Some e)
  | None =>
      let '(startPrev, anchorID) := startingPrev chainName d in
      match rd_query io with
      | Some e => (None, Some ("query access_logs: " +:+ e))
      | None =>
          let rows := vrowOfAccess <$>
            filter (fun r => (anchorID < ar_id r)%Z) (chainRows chainName d) in
          match walk 2 (rd_rows io rows) startPrev (withSeed startPrev newResult) with
          | Returned r e => (Some r, e)
          | Finished r prev =>
              match rd_err io with
              | Some e => (None, Some ("iterate access_logs: " +:+ e))
              | None => (Some (withTail prev r), None)
              end
          end
      end
  end.

(** The names of [access_logs] and of the checkpoints, sorted. *)
Definition accessLogChainNames (d : AuditDb) : list string :=
  sort_strings (elements (list_to_set
    (filter (fun n => n <> "") ((ar_chain_name <$> db_access_logs d) ++
                                (ck_ChainName <$> db_checkpoints d))) : gset string)).

(** [checkTruncation]; the guard is off without a signer. *)
Definition checkTruncation (io : read_io) (signer : option Signer) (chain : string) (d : AuditDb)
    (res : Result) : Result :=
  match signer with
  | None => res
  | Some s =>
      if rd_checkpoint io then failWith ReasonCheckpointReadFailed res
      else match GetLatestAuditChainCheckpoint chain d with
      | None => res
      | Some c =>
          match VerifyCheckpoint s c with
          | Some _ => failWith ReasonCheckpointForged res
          | None =>
              if rd_head io then failWith ReasonCheckpointReadFailed res
              else if checkpointTruncated (Some c) (ar_id <$> last (chainRows chain d))
              then failed ReasonChainTruncated (ck_HeadID c) (vr_FirstMismatchHash res)
                     (ck_HeadHash c) (vr_FirstMismatchTime res) res
              else res
          end
      end
  end.

(** Accumulates the counts and the tail of one chain. *)
Definition addChain (agg r : Result) : Result :=
  {| vr_OK := vr_OK agg; vr_ScannedRows := vr_ScannedRows agg + vr_ScannedRows r;
     vr_NullHashRows := vr_NullHashRows agg + vr_NullHashRows r; vr_Seed := vr_Seed agg;
     vr_TailHash := vr_TailHash r; vr_FirstMismatchID := vr_FirstMismatchID agg;
     vr_FirstMismatchHash := vr_FirstMismatchHash agg;
     vr_FirstMismatchExpect := vr_FirstMismatchExpect agg;
     vr_FirstMismatchTime := vr_FirstMismatchTime agg;
     vr_FirstMismatchReason := vr_FirstMismatchReason agg |}.

Fixpoint verifyChains (io : string -> read_io) (signer : option Signer) (chains : list string)
    (d : AuditDb) (agg : Result) : Result * option string :=
  match chains with
  | [] => (agg, None)
  | cn :: chains =>
      let '(r, err) := verifyOneAccessLogChain (io cn) cn d in
      let agg := match r with Some r => addChain agg r | None => agg end in
      match err, r with
      | Some e, Some r =>
          (failed (vr_FirstMismatchReason r) (vr_FirstMismatchID r) (vr_FirstMismatchHash agg)
             (vr_FirstMismatchExpect agg) (vr_FirstMismatchTime agg) agg, Some e)
      | Some e, None => (agg, Some e)
      | None, Some r =>
          if negb (vr_OK r)
          then (failed (vr_FirstMismatchReason r) (vr_FirstMismatchID r) (vr_FirstMismatchHash r)
                  (vr_FirstMismatchExpect r) (vr_FirstMismatchTime r) agg, None)
          else
            let agg := checkTruncation (io cn) signer cn d agg in
            if negb (vr_OK agg) then (agg, None) else verifyChains io signer chains d agg
      | None, None => (agg, None)
      end
  end.

(** [enumerate] is the failure of the query for the names, if it fails. *)
Definition verifyAccessLogs (enumerate : option string) (io : string -> read_io)
    (signer : option Signer) (d : AuditDb) : Result * option string :=
  match enumerate with
  | Some e => (failWith ReasonRowReadFailed newResult, Some ("enumerate access_log chains: " +:+ e))
  | None => verifyChains io signer (accessLogChainNames d) d newResult
  end.

Definition verifyRBACAuditLog (io : read_io) (d : AuditDb) : option Result * option string :=
  let seed := GetLatestRBACAuditLogHash d in
  match rd_anchor io with
  | Some e => (Some (failed ReasonSeedReadFailed 0 "" "" 0 newResult), Some e)
  | None =>
      let '(startPrev, anchorID) := startingPrev ChainNameRBACAuditLog d in
      match rd_query io with
      | Some e => (None, Some ("query rbac_audit_log: " +:+ e))
      | None =>
          let rows := vrowOfRbac <$> filter (fun r => (anchorID < br_id r)%Z) (db_rbac_log d) in
          match walk 1 (rd_rows io rows) startPrev (withSeed startPrev newResult) with
          | Returned r e => (Some r, e)
          | Finished r prev =>
              match rd_err io with
              | Some e => (None, Some ("iterate rbac_audit_log: " +:+ e))
              | None =>
                  let r := withTail prev r in
                  (Some (if vr_OK r && negb (bool_decide (seed = "")) && negb (bool_decide (seed = prev))
                         then failed ReasonAnchorMismatch (vr_FirstMismatchID r) prev
                                (vr_FirstMismatchExpect r) (vr_FirstMismatchTime r) r
                         else r), None)
              end
          end
      end
  end.

(** ** Break-glass *)

(** A single-statement write, with its outcome. *)
Definition write (out : insert_result) (msg : string) (f : AuditDb -> AuditDb) : stM AuditDb unit :=
  fun d =>
  match out with
  | InsertOk => (Ok tt, f d)
  | InsertFailed => (Err msg, d)
  | InsertLost => (Err msg, f d)
  end.

Definition BreakGlassReAnchor (signer : Signer) (chainName actor reason : string) (now1 now2 : Z)
    (writes : insert_result * insert_result * insert_result) : stM AuditDb ReAnchor :=
  if decide (actor = "" \/ reason = "")
  then fail "break-glass re-anchor requires a non-empty actor and reason"
  else
    d ← get;
    let '(rowCount, headID, headHash) := GetAccessLogChainStats chainName d in
    let prev := GetLatestAuditChainCheckpoint chainName d in
    r ← lift (SignReAnchor signer {| ra_ChainName := chainName; ra_Reason := reason;
          ra_Actor := actor; ra_FromHeadID := from_option ck_HeadID 0%Z prev;
          ra_FromHash := from_option ck_HeadHash "" prev; ra_ToHeadID := headID;
          ra_ToHash := headHash; ra_CreatedAt := now1; ra_KeyID := ""; ra_Signature := "" |});
    _ ← write writes.1.1 "re-anchor: persist record" (fun d =>
          with_reanchors (db_reanchors d ++ [r]) d);
    _ ← write writes.1.2 "re-anchor: set chain anchor" (upsertAuditChainAnchor chainName headID headHash);
    cp ← lift (SignCheckpoint signer {| ck_ChainName := chainName; ck_HeadID := headID;
          ck_HeadHash := headHash; ck_RowCount := rowCount; ck_CreatedAt := now2;
          ck_KeyID := ""; ck_Signature := "" |});
    _ ← write writes.2 "re-anchor: write checkpoint" (WriteAuditChainCheckpoint cp);
    mret r.
