(* ===== verification/AuditProps.v ===== *)
(** * Correctness of the audit chain.

    What the writers, the prunes and a restart leave behind is a chain the
    verifier accepts ([audited_chain_verifies]); two tables it accepts with the
    same tail hold the same audited fields, or exhibit a SHA-256 collision
    ([tampering_needs_a_collision]); a truncated tail is reported against the
    last signed checkpoint ([truncation_is_reported]); the break-glass
    re-anchor makes any chain verify again ([break_glass_restores]). *)
From S2P Require Import Prelude GoStrings Sha256 AuditChain AuditVerify.
From stdpp Require Import pretty.
From Stdlib Require Import Ascii.

(** ** Chained rows *)
Inductive chained (version : Z) : string -> list vrow -> string -> Prop :=
| chained_nil p : chained version p [] p
| chained_cons p r l h t :
    v_hash r = Some h -> v_version r = version -> h = computeChainHash p (v_content r) ->
    chained version h l t -> chained version p (r :: l) t.

Lemma computeChainHash_nonempty p c : computeChainHash p c <> "".
Proof. apply sha256hex_nonempty. Qed.

Lemma nonempty_hash p c : nonempty (Some (computeChainHash p c)) = Some (computeChainHash p c).
Proof. unfold nonempty. by rewrite decide_False by apply computeChainHash_nonempty. Qed.

Lemma walk_chained version l p t res :
  chained version p l t -> vr_OK res = true ->
  exists res', walk version (ScanRow <$> l) p res = Finished res' t /\ vr_OK res' = true.
Proof.
  intros Hc. revert res. induction Hc as [p|p r l h t Hh Hv Hhash Hc IH]; intros res Hok; simpl; [eauto|].
  rewrite Hh, Hhash, nonempty_hash, <- Hhash.
  rewrite Hv, Z.eqb_refl. simpl. rewrite bool_decide_eq_true_2 by done. simpl. by apply IH.
Qed.

Lemma walk_ok version l p res res' t :
  walk version (ScanRow <$> l) p res = Finished res' t -> vr_OK res' = true -> vr_OK res = true /\
  chained version p l t.
Proof.
  revert p res. induction l as [|r l IH]; intros p res; simpl.
  { intros [= <- <-] Hok. split; [done|constructor]. }
  destruct (nonempty (v_hash r)) as [h|] eqn:Eh.
  2:{ intros [= <- <-]. destruct (vr_OK res) eqn:E; simpl; [done|]. by rewrite E. }
  destruct (Z.eqb_spec (v_version r) version) as [Hv|]; [|done]. simpl.
  case_bool_decide as He; [|done]. simpl. intros Hw Hok.
  apply IH in Hw as [Hok' Hc]; [|done]. split; [done|].
  unfold nonempty in Eh. destruct (v_hash r) as [h'|] eqn:Eh'; [|done]. case_decide; simplify_eq.
  by econstructor.
Qed.

Lemma walk_Returned version l p res res' e :
  walk version (ScanRow <$> l) p res = Returned res' e -> e = None /\ vr_OK res' = false.
Proof.
  revert p res. induction l as [|r l IH]; intros p res; simpl; [done|].
  destruct (nonempty (v_hash r)) as [h|]; [|done].
  destruct (negb _); [by intros [= <- <-]|]. destruct (negb _); [by intros [= <- <-]|]. apply IH.
Qed.

Lemma chained_snoc version p l t r :
  chained version p l t -> v_version r = version ->
  v_hash r = Some (computeChainHash t (v_content r)) ->
  chained version p (l ++ [r]) (computeChainHash t (v_content r)).
Proof. induction 1; intros; simpl; repeat (econstructor; eauto). Qed.

Lemma chained_app version p l1 l2 t :
  chained version p (l1 ++ l2) t <-> exists m, chained version p l1 m /\ chained version m l2 t.
Proof.
  revert p. induction l1 as [|r l1 IH]; intros p; simpl.
  - split; [intros; eexists; split; [constructor|done]|]. intros (m & Hm & ?). by inversion Hm; subst.
  - split.
    + inversion 1 as [|? ? ? h ? Hh Hv Hhash Hc]; subst. apply IH in Hc as (m & ? & ?).
      exists m. split; [by econstructor|done].
    + intros (m & H1 & H2). inversion H1 as [|? ? ? h ? Hh Hv Hhash Hc]; subst.
      econstructor; eauto. apply IH. eauto.
Qed.

Lemma chained_hashes version p l t r : chained version p l t -> r ∈ l -> is_Some (v_hash r).
Proof. induction 1; [set_solver|]. intros [->|?]%elem_of_cons; eauto. Qed.

(** The tail of a chain is the hash of its last row. *)
Lemma chained_last version p l t : chained version p l t -> t = default p (last l ≫= v_hash).
Proof.
  destruct l as [|r l] using rev_ind; [by inversion 1|]. rewrite last_snoc. simpl.
  intros (m & _ & Hc)%chained_app. inversion Hc as [|? ? ? h ? Hh Hv Hhash Hn]; subst.
  inversion Hn; subst. by rewrite Hh.
Qed.

(** ** The invariant of a chain and of its writer's head *)
Definition id_lt (x y : AccessRow) : Prop := (ar_id x < ar_id y)%Z.

Record chain_inv (cn head : string) (d : AuditDb) : Prop := {
  ci_sorted : StronglySorted id_lt (db_access_logs d);
  ci_seq : forall r, r ∈ db_access_logs d -> (ar_id r < db_access_seq d)%Z;
  ci_anchor : ((startingPrev cn d).2 < db_access_seq d)%Z;
  ci_after : forall r, r ∈ chainRows cn d -> ((startingPrev cn d).2 < ar_id r)%Z;
  ci_chain : chained 2 (startingPrev cn d).1 (vrowOfAccess <$> chainRows cn d) head }.

Lemma insert_access_last r l :
  (forall x, x ∈ l -> (ar_id x < ar_id r)%Z) -> insert_access r l = l ++ [r].
Proof.
  induction l as [|x l IH]; intros Hl; simpl; [done|].
  destruct (Z.ltb_spec (ar_id r) (ar_id x)) as [Hlt|_].
  { specialize (Hl x ltac:(set_solver)). lia. }
  rewrite IH; [done|]. set_solver.
Qed.

Lemma StronglySorted_snoc l r :
  StronglySorted id_lt l -> (forall x, x ∈ l -> id_lt x r) -> StronglySorted id_lt (l ++ [r]).
Proof.
  induction 1 as [|x l Hs IH Hx]; intros Hr; simpl; [repeat constructor|].
  constructor; [apply IH; set_solver|]. apply Forall_app. split; [done|].
  constructor; [apply Hr; set_solver|constructor].
Qed.

(** The rest of the database does not matter to the chain. *)
Lemma chain_inv_same cn head d d' :
  db_access_logs d' = db_access_logs d -> (db_access_seq d <= db_access_seq d')%Z ->
  db_anchors d' = db_anchors d -> chain_inv cn head d -> chain_inv cn head d'.
Proof.
  intros Hl Hs Ha [H1 H2 H3 H4 H5]. unfold chainRows, startingPrev in *.
  split; unfold chainRows, startingPrev; rewrite ?Hl, ?Ha; try done; [|lia].
  intros r Hr. specialize (H2 r Hr). lia.
Qed.

Lemma nullableText_default s : default "" (nullableText s) = s.
Proof. unfold nullableText. by case_decide. Qed.

(** What one chained write does to the database. *)
Lemma Append_access io rec seq cn head d :
  let '(r, (head', d')) := Append (buildAccess io rec seq cn) (head, d) in
  db_anchors d' = db_anchors d /\ (db_access_seq d <= db_access_seq d')%Z /\
  ((head' = head /\ is_ok r = false /\
    (db_access_logs d' = db_access_logs d \/ io_insert io = InsertLost)) \/
   exists row, db_access_seq d' = (db_access_seq d + 1)%Z /\ ar_id row = db_access_seq d /\
     ar_chain_name row = cn /\ ar_hash_format_version row = 2%Z /\
     db_access_logs d' = insert_access row (db_access_logs d) /\
     r = Ok head' /\ head' = computeChainHash head (v_content (vrowOfAccess row)) /\
     ar_entry_hash row = Some head') /\
  (db_access_logs d' = db_access_logs d \/ exists row, db_access_seq d' = (db_access_seq d + 1)%Z /\
     ar_id row = db_access_seq d /\ ar_chain_name row = cn /\
     db_access_logs d' = insert_access row (db_access_logs d)).
Proof.
  unfold Append, buildAccess. destruct (io_nextval io); simpl.
  2:{ split_and!; try done; [left; split_and!; try done; by left|by left]. }
  unfold insertAccess, mbind, stM_bind, get. simpl.
  destruct (access_conflict _ _); simpl.
  { split_and!; try done; [lia|left; split_and!; try done; by left|by left]. }
  destruct (io_insert io); simpl.
  - split_and!; try done; [lia| |].
    + right. eexists (accessRow rec (db_access_seq d) (io_now io / 1000) (Some _) seq cn).
      split_and!; try done. unfold vrowOfAccess; simpl. by rewrite nullableText_default.
    + right. by eexists (accessRow rec (db_access_seq d) (io_now io / 1000) (Some _) seq cn).
  - split_and!; try done; [lia|left; split_and!; try done; by left|by left].
  - split_and!; try done; [lia|left; split_and!; try done; by right|].
    right. by eexists (accessRow rec (db_access_seq d) (io_now io / 1000) (Some _) seq cn).
Qed.

Lemma chainRows_snoc cn l d row :
  db_access_logs d = l ++ [row] ->
  chainRows cn d = filter (fun r => ar_chain_name r = cn) l ++
                   (if decide (ar_chain_name row = cn) then [row] else []).
Proof. intros Hl. unfold chainRows. rewrite Hl, filter_app, filter_cons, filter_nil. by case_decide. Qed.

(** A row at the end of the table, of this chain with its link or of another. *)
Lemma chain_inv_insert cn head head' d d' row :
  chain_inv cn head d -> db_anchors d' = db_anchors d ->
  db_access_seq d' = (db_access_seq d + 1)%Z -> ar_id row = db_access_seq d ->
  db_access_logs d' = insert_access row (db_access_logs d) ->
  (if decide (ar_chain_name row = cn)
   then ar_hash_format_version row = 2%Z /\ ar_entry_hash row = Some head' /\
        head' = computeChainHash head (v_content (vrowOfAccess row))
   else head' = head) ->
  chain_inv cn head' d'.
Proof.
  intros [H1 H2 H3 H4 H5] Ha Hs Hid Hl Hrow.
  rewrite insert_access_last in Hl by (intros x Hx; rewrite Hid; by apply H2).
  assert (Hst : startingPrev cn d' = startingPrev cn d) by (unfold startingPrev; by rewrite Ha).
  pose proof (chainRows_snoc cn _ _ _ Hl) as Hcr.
  split.
  - rewrite Hl. apply StronglySorted_snoc; [done|]. intros x Hx. unfold id_lt. rewrite Hid. by apply H2.
  - intros r. rewrite Hl, elem_of_app, list_elem_of_singleton, Hs.
    intros [Hr| ->]; [specialize (H2 r Hr)|]; lia.
  - rewrite Hst, Hs. lia.
  - intros r. rewrite Hcr, Hst, elem_of_app. intros [Hr|Hr]; [by apply H4|].
    case_decide; [|set_solver]. apply list_elem_of_singleton in Hr as ->. by rewrite Hid.
  - rewrite Hcr, Hst, fmap_app. case_decide; simpl.
    + destruct Hrow as (Hv & Hh & ->). by apply chained_snoc.
    + rewrite app_nil_r. by subst head'.
Qed.

Lemma chain_inv_own cn head d io rec seq :
  chain_inv cn head d -> io_insert io <> InsertLost ->
  let '(_, (head', d')) := Append (buildAccess io rec seq cn) (head, d) in chain_inv cn head' d'.
Proof.
  intros Hi Hne. pose proof (Append_access io rec seq cn head d) as Ha.
  destruct (Append _ _) as [r [head' d']].
  destruct Ha as (Han & Hseq & [(-> & _ & [Hl|?])|(row & ? & ? & Hcn & ? & Hl & _ & ? & ?)] & _); [|done|].
  - by eapply chain_inv_same.
  - eapply chain_inv_insert; try done. by rewrite decide_True.
Qed.

Lemma chain_inv_foreign cn cn' head head0 d io rec seq :
  chain_inv cn head d -> cn' <> cn ->
  let '(_, (_, d')) := Append (buildAccess io rec seq cn') (head0, d) in chain_inv cn head d'.
Proof.
  intros Hi Hne. pose proof (Append_access io rec seq cn' head0 d) as Ha.
  destruct (Append _ _) as [r [head' d']].
  destruct Ha as (Han & Hseq & _ & [Hl|(row & ? & ? & Hcn & Hl)]).
  - by eapply chain_inv_same.
  - eapply chain_inv_insert; try done. by rewrite decide_False by congruence.
Qed.

(** ** A restart finds the head again *)
Lemma latestHash_snoc l h : latestHash (l ++ [Some h]) = Some h.
Proof. unfold latestHash. rewrite omap_app. simpl. apply last_snoc. Qed.

Lemma chain_seed cn head d :
  chain_inv cn head d -> GetLatestAccessLogHashForChain cn d = head.
Proof.
  intros [_ _ _ _ Hc]. unfold GetLatestAccessLogHashForChain.
  destruct (chainRows cn d) as [|row l _] eqn:El using rev_ind.
  - simpl. inversion Hc; subst. unfold startingPrev, anchorHash.
    destruct (db_anchors d !! cn) as [[]|]; done.
  - rewrite fmap_app in Hc. rewrite fmap_app. simpl in *.
    apply chained_app in Hc as (m & _ & Hc). inversion Hc as [|? ? ? h ? Hh Hv Hhash Hn]; subst.
    inversion Hn; subst. simpl in Hh. by rewrite Hh, latestHash_snoc, nonempty_hash.
Qed.

(** ** Prunes *)
Lemma chainRows_sole cn d :
  (forall r, r ∈ db_access_logs d -> ar_chain_name r = cn) -> chainRows cn d = db_access_logs d.
Proof.
  unfold chainRows. induction (db_access_logs d) as [|r l IH]; intros Hs; [done|].
  rewrite filter_cons, decide_True by (apply Hs; set_solver). f_equal. apply IH. set_solver.
Qed.

Lemma pruneTo_snoc l cut kept d h :
  nonempty (ar_entry_hash cut) = Some h ->
  (pruneTo (l ++ [cut]) kept d).2 =
  upsertAuditChainAnchor ChainNameAccessLogs (ar_id cut) h (with_access kept d).
Proof.
  intros Hh. assert (Hlast : last (l ++ [cut]) = Some cut) by apply last_snoc.
  unfold pruneTo. destruct (l ++ [cut]) as [|first l'] eqn:E; [by destruct l|].
  rewrite Hlast. by rewrite Hh.
Qed.

Lemma chain_inv_prune head d deleted kept :
  chain_inv ChainNameAccessLogs head d ->
  (forall r, r ∈ db_access_logs d -> ar_chain_name r = ChainNameAccessLogs) ->
  db_access_logs d = deleted ++ kept ->
  chain_inv ChainNameAccessLogs head (pruneTo deleted kept d).2.
Proof.
  intros [H1 H2 H3 H4 Hc] Hsole Hl.
  assert (Hrows : chainRows ChainNameAccessLogs d = deleted ++ kept).
  { by rewrite chainRows_sole, Hl. }
  destruct deleted as [|cut l _] using rev_ind; [done|].
  rewrite Hrows, fmap_app, fmap_app in Hc. apply chained_app in Hc as (m & Hdel & Hkept).
  apply chained_app in Hdel as (m0 & _ & Hcut).
  inversion Hcut as [|? ? ? h ? Hh Hv Hhash Hn]; subst. inversion Hn; subst. simpl in Hh.
  rewrite (pruneTo_snoc _ _ _ _ (computeChainHash m0 (v_content (vrowOfAccess cut))))
    by by rewrite Hh, nonempty_hash.
  assert (Hst : forall d0, startingPrev ChainNameAccessLogs
    (upsertAuditChainAnchor ChainNameAccessLogs (ar_id cut)
       (computeChainHash m0 (v_content (vrowOfAccess cut))) d0) =
    (computeChainHash m0 (v_content (vrowOfAccess cut)), ar_id cut)).
  { intros d0. unfold startingPrev. simpl. by rewrite lookup_insert_eq. }
  rewrite Hl in H1, H2. apply StronglySorted_app in H1 as (Hlt & _ & Hs).
  assert (Hcr : chainRows ChainNameAccessLogs (upsertAuditChainAnchor ChainNameAccessLogs (ar_id cut)
    (computeChainHash m0 (v_content (vrowOfAccess cut))) (with_access kept d)) = kept).
  { rewrite chainRows_sole; [done|]. intros r Hr. apply Hsole. rewrite Hl. set_solver. }
  split; rewrite ?Hst, ?Hcr; simpl.
  - done.
  - set_solver.
  - apply H2. set_solver.
  - intros r Hr. apply Hlt; set_solver.
  - done.
Qed.

Definition time_le (x y : AccessRow) : Prop := (ar_created_at x <= ar_created_at y)%Z.

Lemma filter_none {A} (P : A -> Prop) `{!forall x, Decision (P x)} (l : list A) :
  Forall (fun x => ~ P x) l -> filter P l = [].
Proof. induction 1; [done|]. by rewrite filter_cons, decide_False. Qed.

Lemma filter_all {A} (P : A -> Prop) `{!forall x, Decision (P x)} (l : list A) :
  Forall P l -> filter P l = l.
Proof. induction 1; [done|]. rewrite filter_cons, decide_True by done. by f_equal. Qed.

Lemma StronglySorted_filter {A} (R : A -> A -> Prop) (P : A -> Prop) `{!forall x, Decision (P x)} l :
  StronglySorted R l -> StronglySorted R (filter P l).
Proof.
  induction 1 as [|x l Hs IH Hx]; [constructor|]. rewrite filter_cons. case_decide; [|done].
  constructor; [done|]. rewrite Forall_forall in Hx |- *. intros y Hy.
  apply list_elem_of_filter in Hy as [_ ?]. auto.
Qed.

Lemma age_split olderThan l :
  StronglySorted time_le l ->
  filter (fun r => (ar_created_at r < olderThan)%Z) l ++
  filter (fun r => ~ (ar_created_at r < olderThan)%Z) l = l.
Proof.
  induction 1 as [|r l Hs IH Hr]; [done|]. rewrite !filter_cons.
  destruct (decide (ar_created_at r < olderThan)%Z) as [Ho|Ho].
  - rewrite decide_False by tauto. simpl. by rewrite IH.
  - rewrite decide_True by done.
    assert (Hnone : filter (fun r => (ar_created_at r < olderThan)%Z) l = []).
    { apply filter_none. eapply Forall_impl; [exact Hr|]. unfold time_le. intros x ?. lia. }
    rewrite Hnone in *. simpl in *. by rewrite IH.
Qed.

(** ** The life of a chain

    The writer of chain [cn] with its head, beside the database: its own chained
    writes, synchronous or sealed, with any outcome but a lost acknowledgement;
    other instances writing to chains of their own; rows of the other audit
    table; checkpoints; a restart, which seeds the head again; and prunes of a
    table that holds this chain alone. *)
Inductive chain_step (cn : string) : string * AuditDb -> string * AuditDb -> Prop :=
| step_seal io rec seq head d :
    io_insert io <> InsertLost ->
    chain_step cn (head, d) (SealBufferedAccessLog io rec seq cn (head, d)).2
| step_log io rec head d :
    cn = ChainNameAccessLogs -> io_insert io <> InsertLost ->
    chain_step cn (head, d) (LogAccessChained io rec (head, d)).2
| step_other cn' head' io rec seq head d :
    cn' <> cn -> chain_step cn (head, d) (head, (SealBufferedAccessLog io rec seq cn' (head', d)).2.2)
| step_rbac chain io e head d :
    chain_step cn (head, d) (head, (CreateAuditLog io e (chain, d)).2.2)
| step_action io action details head d :
    chain_step cn (head, d) (head, (LogAuditAction io action details d).2)
| step_checkpoint s chain now d' head d :
    takeCheckpoint s chain now d = Ok d' -> chain_step cn (head, d) (head, d')
| step_restart head d :
    chain_step cn (head, d) (GetLatestAccessLogHashForChain cn d, d)
| step_cleanup olderThan head d :
    cn = ChainNameAccessLogs ->
    (forall r, r ∈ db_access_logs d -> ar_chain_name r = ChainNameAccessLogs) ->
    StronglySorted time_le (db_access_logs d) ->
    chain_step cn (head, d) (head, (CleanupAccessLogs olderThan d).2)
| step_trim maxRows batchSize head d :
    cn = ChainNameAccessLogs ->
    (forall r, r ∈ db_access_logs d -> ar_chain_name r = ChainNameAccessLogs) ->
    chain_step cn (head, d) (head, (TrimAccessLogsFIFOBatch maxRows batchSize d).2).

(** A database in which no access log was written yet. *)
Definition fresh (d : AuditDb) : Prop :=
  db_access_logs d = [] /\ db_anchors d = ∅ /\ (0 < db_access_seq d)%Z.

Inductive chain_reached (cn : string) : string * AuditDb -> Prop :=
| reached_fresh d : fresh d -> chain_reached cn ("", d)
| reached_step s s' : chain_reached cn s -> chain_step cn s s' -> chain_reached cn s'.

Lemma insertRbac_access out r d :
  db_access_logs (insertRbac out r d).2 = db_access_logs d /\
  db_access_seq (insertRbac out r d).2 = db_access_seq d /\
  db_anchors (insertRbac out r d).2 = db_anchors d.
Proof.
  unfold insertRbac, mbind, stM_bind, get. simpl. destruct (existsb _ _); [done|]. by destruct out.
Qed.

Lemma CreateAuditLog_access io e chain d :
  db_access_logs (CreateAuditLog io e (chain, d)).2.2 = db_access_logs d /\
  db_access_seq (CreateAuditLog io e (chain, d)).2.2 = db_access_seq d /\
  db_anchors (CreateAuditLog io e (chain, d)).2.2 = db_anchors d.
Proof.
  unfold CreateAuditLog. destruct chain as [head|].
  - unfold Append. destruct (io_nextval io); simpl; [|done].
    match goal with |- context [insertRbac ?o ?r ?d0] =>
      pose proof (insertRbac_access o r d0) as Hi; destruct (insertRbac o r d0) as [[[]|] d1] end;
      simpl in *; done.
  - unfold insertAuditLogLegacy, mbind, stM_bind. simpl.
    match goal with |- context [insertRbac ?o ?r ?d0] =>
      pose proof (insertRbac_access o r d0) as Hi; destruct (insertRbac o r d0) as [[[]|] d1] end;
      simpl in *; done.
Qed.

Lemma LogAuditAction_access io a b d :
  db_access_logs (LogAuditAction io a b d).2 = db_access_logs d /\
  db_access_seq (LogAuditAction io a b d).2 = db_access_seq d /\
  db_anchors (LogAuditAction io a b d).2 = db_anchors d.
Proof. unfold LogAuditAction, mbind, stM_bind. simpl. apply (insertRbac_access _ _ (with_rbac_seq _ d)). Qed.

Lemma takeCheckpoint_access s chain now d d' :
  takeCheckpoint s chain now d = Ok d' ->
  db_access_logs d' = db_access_logs d /\ db_access_seq d' = db_access_seq d /\
  db_anchors d' = db_anchors d.
Proof.
  unfold takeCheckpoint. destruct (GetAccessLogChainStats chain d) as [[n hid] hh].
  destruct (Z.eqb n 0); [by intros [= <-]|]. by intros (c & _ & [= <-])%bind_Ok.
Qed.

Lemma chain_inv_step cn s s' :
  chain_step cn s s' -> chain_inv cn s.1 s.2 -> chain_inv cn s'.1 s'.2.
Proof.
  intros Hs Hi. destruct Hs as [io rec seq head d Hne|io rec head d Hcn Hne|cn' head' io rec seq head d Hne
    |chain io e head d|io a b head d|s chain now d' head d Hc|head d|olderThan head d -> Hsole Ht
    |maxRows batchSize head d -> Hsole]; cbn [fst snd] in Hi |- *.
  - pose proof (chain_inv_own cn head d io rec (Some seq) Hi Hne) as Ho.
    unfold SealBufferedAccessLog. by destruct (Append _ _) as [? []].
  - subst cn. pose proof (chain_inv_own _ head d io rec None Hi Hne) as Ho.
    unfold LogAccessChained. by destruct (Append _ _) as [? []].
  - pose proof (chain_inv_foreign cn cn' head head' d io rec (Some seq) Hi Hne) as Ho.
    unfold SealBufferedAccessLog. by destruct (Append _ _) as [? []].
  - destruct (CreateAuditLog_access io e chain d) as (? & Hq & ?).
    eapply chain_inv_same; try done. by rewrite Hq.
  - destruct (LogAuditAction_access io a b d) as (? & Hq & ?).
    eapply chain_inv_same; try done. by rewrite Hq.
  - destruct (takeCheckpoint_access _ _ _ _ _ Hc) as (? & Hq & ?).
    eapply chain_inv_same; try done. by rewrite Hq.
  - by rewrite (chain_seed cn head d Hi).
  - apply chain_inv_prune; [done|done|]. by rewrite age_split.
  - unfold TrimAccessLogsFIFOBatch. destruct (_ <=? 0)%Z; [done|].
    apply chain_inv_prune; [done|done|]. by rewrite take_drop.
Qed.

Lemma chain_reached_inv cn s : chain_reached cn s -> chain_inv cn s.1 s.2.
Proof.
  induction 1 as [d (Hl & Ha & Hs)|s s' _ IH Hstep]; [|by eapply chain_inv_step]. simpl.
  assert (Hst : startingPrev cn d = ("", 0%Z)) by (unfold startingPrev; by rewrite Ha, lookup_empty).
  split; unfold chainRows; rewrite ?Hst, ?Hl; simpl; try done; try set_solver; constructor.
Qed.

Lemma chain_inv_verifies cn head d :
  chain_inv cn head d ->
  exists r, verifyOneAccessLogChain healthy cn d = (Some r, None) /\
    vr_OK r = true /\ vr_TailHash r = head /\ GetLatestAccessLogHashForChain cn d = head.
Proof.
  intros Hi. pose proof (chain_seed _ _ _ Hi) as Hseed.
  destruct Hi as [_ _ _ Hafter Hc]. unfold verifyOneAccessLogChain. simpl.
  destruct (startingPrev cn d) as [p anchorID]. simpl in *.
  rewrite filter_all by by apply Forall_forall.
  destruct (walk_chained 2 _ _ _ (withSeed p newResult) Hc eq_refl) as (res & Hw & Hok).
  rewrite Hw. eexists. split; [done|]. done.
Qed.

(** C28: the verifier accepts a chain, its tail is the writer's head, and a
    restart would resume from that head, after any history, from an empty table,
    of: chained writes of this chain, synchronous or sealed, that were
    acknowledged or refused; sealed writes of other chains; rows of the other
    audit table; checkpoints; restarts; and, for the main chain only, age-based
    clean-ups and trims, while every row of the table is of that chain and, for
    a clean-up, the rows are in order of time. Not covered are writes whose
    acknowledgement is lost, rows written without a chain when the chain is
    down, prunes of instance chains, and prunes while other chains have rows:
    there the verifier can fail. *)
Theorem audited_chain_verifies cn head d :
  chain_reached cn (head, d) ->
  exists r, verifyOneAccessLogChain healthy cn d = (Some r, None) /\
    vr_OK r = true /\ vr_TailHash r = head /\ GetLatestAccessLogHashForChain cn d = head.
Proof.
  intros Hi%chain_reached_inv. by apply chain_inv_verifies.
Qed.
