(* ===== verification/AuditTamper.v ===== *)
(** * What the audit chain detects.

    Two tables the verifier accepts with the same tail hold the same audited
    fields, or their walks exhibit a SHA-256 collision
    ([tampering_needs_a_collision]); a truncated tail is reported against the
    last signed checkpoint ([truncation_is_reported]); a break-glass re-anchor
    makes a chain verify again ([break_glass_restores]).  The last section
    states where the chain falls short. *)
From S2P Require Import Prelude GoStrings Sha256 AuditChain AuditVerify AuditProps.
From stdpp Require Import pretty.
From Stdlib Require Import Ascii.

(** ** Strings without the separator *)
Fixpoint no_bar (s : string) : bool :=
  match s with
  | EmptyString => true
  | String a s => negb (Ascii.eqb a "|"%char) && no_bar s
  end.

Lemma no_bar_app a b : no_bar (a +:+ b) = no_bar a && no_bar b.
Proof. induction a as [|x a IH]; [done|]. rewrite app_str_cons. simpl. by rewrite IH, andb_assoc. Qed.

Lemma no_bar_rev_app a acc : no_bar (rev_app a acc) = no_bar a && no_bar acc.
Proof.
  revert acc. induction a as [|x a IH]; intros acc; [done|]. simpl. rewrite IH. simpl.
  by destruct (Ascii.eqb x "|"), (no_bar a).
Qed.

Lemma no_bar_rev a : no_bar (rev_string a) = no_bar a.
Proof. unfold rev_string. rewrite no_bar_rev_app. apply andb_true_r. Qed.

Lemma no_bar_concat l : forallb no_bar l = true -> no_bar (String.concat "" l) = true.
Proof.
  induction l as [|x [|y l] IH]; simpl; [done|by rewrite andb_true_r|].
  intros [Hx Hl]%andb_true_iff. rewrite !no_bar_app, Hx. by apply IH.
Qed.

(** The separator splits a join where the left parts have none. *)
Lemma bar_split a b x y :
  no_bar a = true -> no_bar b = true -> a +:+ bar +:+ x = b +:+ bar +:+ y -> a = b /\ x = y.
Proof.
  revert b. induction a as [|c a IH]; intros [|c' b]; simpl; rewrite ?app_str_cons.
  - intros _ _ H. split; [done|]. by injection H.
  - intros _ H%andb_true_iff E. injection E as <- _. by destruct H as [? _].
  - intros H%andb_true_iff _ E. injection E as -> _. by destruct H as [? _].
  - intros [_ Ha]%andb_true_iff [_ Hb]%andb_true_iff [= -> E].
    destruct (IH b Ha Hb E) as [-> ->]. done.
Qed.

Lemma no_bar_pretty_N_go x s : no_bar s = true -> no_bar (pretty_N_go x s) = true.
Proof.
  revert s. induction (N.lt_wf_0 x) as [x _ IH]. intros s Hs.
  destruct (decide (0 < x)%N) as [Hx|Hx]; [|by replace x with 0%N by lia].
  rewrite pretty_N_go_step by done. apply IH; [apply N.div_lt; lia|].
  simpl. rewrite Hs, andb_true_r. apply negb_true_iff, Ascii.eqb_neq.
  unfold pretty_N_char. by repeat case_match.
Qed.

Lemma no_bar_pretty (z : Z) : no_bar (pretty z) = true.
Proof.
  assert (HN : forall n : N, no_bar (pretty n) = true).
  { intros n. unfold pretty, pretty_N. case_decide; [done|]. by apply no_bar_pretty_N_go. }
  unfold pretty, pretty_Z. destruct z; [done|apply HN|].
  rewrite app_str_cons. simpl. apply HN.
Qed.

Lemma no_bar_pad w z : no_bar (pad_dec w z) = true.
Proof.
  unfold pad_dec. rewrite no_bar_app, no_bar_pretty, andb_true_r. apply no_bar_concat.
  by induction (w - _).
Qed.

Lemma no_bar_drop_zeros s : no_bar s = true -> no_bar (drop_zeros_rev s) = true.
Proof.
  induction s as [|a s IH]; [done|]. intros H. simpl in *. apply andb_true_iff in H as [Ha Hs].
  destruct (decide (a = "0"%char)) as [->|Hne]; [by apply IH|].
  assert (E : drop_zeros_rev (String a s) = String a s).
  { destruct a as [[] [] [] [] [] [] [] []]; try done. }
  change (no_bar (drop_zeros_rev (String a s)) = true). rewrite E. simpl. by rewrite Ha.
Qed.

Lemma no_bar_RFC3339Nano t : no_bar (RFC3339Nano t) = true.
Proof.
  unfold RFC3339Nano. destruct (civil _) as [[y m] d]. rewrite !no_bar_app, !no_bar_pad. simpl.
  rewrite andb_true_r. case_decide; [done|]. rewrite no_bar_app, no_bar_rev. simpl.
  by apply no_bar_drop_zeros; rewrite no_bar_rev, no_bar_pad.
Qed.

(** ** Binding *)
Lemma sha256hex_not_v s x r : sha256hex s +:+ x <> String "v"%char r.
Proof.
  intros H. unfold sha256hex in H. pose proof (DecodeString_EncodeToString (Sha256.sum (bytes s))) as Hd.
  pose proof (sha256hex_length s) as Hl. unfold sha256hex in Hl.
  destruct (EncodeToString _) as [|c [|c' e]]; try done.
  rewrite app_str_cons in H. injection H as -> _. done.
Qed.

#[local] Opaque sha256hex hmac256 Sha256.sum.

(** What the hash of a row commits to, the time as it is rendered. *)
Definition audited (r : AccessRow) :=
  (ar_id r, ar_external_id r, ar_method r, ar_ip_address r,
   (ar_status_code r, default (ar_status_code r) (ar_response_status r)),
   (RFC3339Nano (ar_created_at r), default "" (ar_correlation_id r), default "" (ar_request_params r))).

(** The free-text columns do not hold the separator; the last one may. *)
Definition separable (r : AccessRow) : bool :=
  no_bar (ar_external_id r) && no_bar (ar_method r) && no_bar (ar_ip_address r) &&
  no_bar (default "" (ar_correlation_id r)).

Lemma content_injective r s :
  separable r = true -> separable s = true ->
  v_content (vrowOfAccess r) = v_content (vrowOfAccess s) -> audited r = audited s.
Proof.
  unfold separable, audited. intros Hr Hs H. rewrite !andb_true_iff in Hr, Hs.
  destruct Hr as [[[? ?] ?] ?], Hs as [[[? ?] ?] ?].
  unfold vrowOfAccess in H. cbn [v_content] in H. unfold AccessLogChainContent in H.
  injection H as H.
  repeat (apply bar_split in H as [? H];
    [|by rewrite ?no_bar_pretty, ?no_bar_RFC3339Nano|by rewrite ?no_bar_pretty, ?no_bar_RFC3339Nano]).
  repeat match goal with E : pretty _ = pretty _ |- _ => apply (inj pretty) in E end.
  congruence.
Qed.

(** The inputs of SHA-256 along a walk. *)
Fixpoint hash_inputs (prev : string) (l : list vrow) : list string :=
  match l with
  | [] => []
  | r :: l => (prev +:+ v_content r) :: hash_inputs (computeChainHash prev (v_content r)) l
  end.

Lemma hash_inputs_snoc version p l t r :
  chained version p l t -> hash_inputs p (l ++ [r]) = hash_inputs p l ++ [t +:+ v_content r].
Proof.
  induction 1 as [p|p x l h t Hh Hv Hhash Hc IH]; simpl; [done|]. rewrite <- Hhash. by f_equal.
Qed.

Lemma chained_snoc_inv version p l r t :
  chained version p (l ++ [r]) t ->
  exists m, chained version p l m /\ t = computeChainHash m (v_content r).
Proof.
  intros (m & Hl & Hc)%chained_app. inversion Hc as [|? ? ? h ? Hh Hv Hhash Hn]; subst.
  inversion Hn; subst. by exists m.
Qed.

(** A link is empty or a digest. *)
Definition link (h : string) : Prop := h = "" \/ exists s, h = sha256hex s.

Lemma chained_link version l t : chained version "" l t -> link t.
Proof.
  destruct l as [|r l _] using rev_ind; [inversion 1; by left|].
  intros (m & _ & ->)%chained_snoc_inv. right. by eexists.
Qed.

Lemma app_str_inj_length a b x y :
  String.length a = String.length b -> a +:+ x = b +:+ y -> a = b /\ x = y.
Proof.
  revert b. induction a as [|c a IH]; intros [|c' b]; try done.
  rewrite !app_str_cons. intros [= Hl] [= -> E]. destruct (IH b Hl E) as [-> ->]. done.
Qed.

Lemma link_content_injective h1 h2 c1 c2 :
  link h1 -> link h2 -> h1 +:+ String "v"%char c1 = h2 +:+ String "v"%char c2 ->
  h1 = h2 /\ c1 = c2.
Proof.
  intros [->|[s1 ->]] [->|[s2 ->]] E.
  - by injection E.
  - symmetry in E. by apply sha256hex_not_v in E.
  - by apply sha256hex_not_v in E.
  - apply app_str_inj_length in E as [E1 E2]; [|by rewrite !sha256hex_length].
    injection E2 as E2. by split; [exact E1|exact E2].
Qed.

Definition collision (xs ys : list string) : Prop :=
  exists x y, x ∈ xs /\ y ∈ ys /\ x <> y /\ sha256hex x = sha256hex y.

Lemma collision_app xs xs' ys ys' : collision xs ys -> collision (xs ++ xs') (ys ++ ys').
Proof. intros (x & y & ? & ? & ? & ?). exists x, y. rewrite !elem_of_app. auto. Qed.

Lemma chains_agree l1 l2 t :
  chained 2 "" (vrowOfAccess <$> l1) t -> chained 2 "" (vrowOfAccess <$> l2) t ->
  Forall (fun r => separable r = true) (l1 ++ l2) ->
  audited <$> l1 = audited <$> l2 \/
  collision (hash_inputs "" (vrowOfAccess <$> l1)) (hash_inputs "" (vrowOfAccess <$> l2)).
Proof.
  revert l2 t. induction l1 as [|r l1 IH] using rev_ind; intros l2 t H1 H2 Hs.
  - inversion H1; subst. destruct l2 as [|s l2 _] using rev_ind; [by left|].
    rewrite fmap_app in H2. apply chained_snoc_inv in H2 as (m & _ & H2).
    symmetry in H2. by apply computeChainHash_nonempty in H2.
  - rewrite fmap_app in H1. rewrite !fmap_app. apply chained_snoc_inv in H1 as (m1 & H1 & Ht).
    destruct l2 as [|s l2 _] using rev_ind.
    { apply chained_last in H2. simpl in H2. rewrite Ht in H2.
      by apply computeChainHash_nonempty in H2. }
    rewrite fmap_app in H2. rewrite !fmap_app. apply chained_snoc_inv in H2 as (m2 & H2 & Ht2).
    rewrite Ht in Ht2. cbn [fmap list_fmap] in *.
    rewrite (hash_inputs_snoc 2 _ _ m1), (hash_inputs_snoc 2 _ _ m2) by done.
    destruct (decide (m1 +:+ v_content (vrowOfAccess r) = m2 +:+ v_content (vrowOfAccess s))) as [E|E].
    2:{ right. exists (m1 +:+ v_content (vrowOfAccess r)), (m2 +:+ v_content (vrowOfAccess s)).
        rewrite !elem_of_app, !list_elem_of_singleton. auto. }
    rewrite !Forall_app, !Forall_singleton in Hs. destruct Hs as [[Hs1 Hr] [Hs2 Hsr]].
    apply link_content_injective in E as [-> E]; [|by eapply chained_link..].
    destruct (IH l2 m2 H1 H2) as [IHl|IHl]; [by apply Forall_app| |].
    + left. rewrite IHl. do 2 f_equal. apply content_injective; [done|done|].
      exact (f_equal (String "v"%char) E).
    + right. by apply collision_app.
Qed.

(** ** What the verifier accepts *)
Lemma verified_chain cn d r :
  verifyOneAccessLogChain healthy cn d = (Some r, None) -> vr_OK r = true ->
  chained 2 (startingPrev cn d).1
    (vrowOfAccess <$> filter (fun x => ((startingPrev cn d).2 < ar_id x)%Z) (chainRows cn d))
    (vr_TailHash r).
Proof.
  unfold verifyOneAccessLogChain. simpl. destruct (startingPrev cn d) as [p a]. simpl.
  destruct (walk 2 _ p _) as [res prev|res e] eqn:Ew.
  - intros [= <-] Hok. by apply walk_ok in Ew as [_ Hc].
  - intros [= <- ->]. apply walk_Returned in Ew as [_ ->]. done.
Qed.

(** C29: two tables without an anchor for the chain (nothing was pruned), whose
    rows have positive ids and free-text columns without the separator, that the
    verifier accepts with the same tail hash, agree on every audited field of
    every row of the chain; otherwise the inputs hashed along the two walks
    contain a SHA-256 collision. With a separator in a free-text column two rows
    can differ and hash alike. *)
Theorem tampering_needs_a_collision cn d1 d2 r1 r2 :
  db_anchors d1 !! cn = None -> db_anchors d2 !! cn = None ->
  Forall (fun r => separable r = true /\ (0 < ar_id r)%Z) (chainRows cn d1 ++ chainRows cn d2) ->
  verifyOneAccessLogChain healthy cn d1 = (Some r1, None) -> vr_OK r1 = true ->
  verifyOneAccessLogChain healthy cn d2 = (Some r2, None) -> vr_OK r2 = true ->
  vr_TailHash r1 = vr_TailHash r2 ->
  audited <$> chainRows cn d1 = audited <$> chainRows cn d2 \/
  collision (hash_inputs "" (vrowOfAccess <$> chainRows cn d1))
            (hash_inputs "" (vrowOfAccess <$> chainRows cn d2)).
Proof.
  intros Ha1 Ha2 Hf Hv1 Ho1 Hv2 Ho2 Ht.
  apply verified_chain in Hv1, Hv2; [|done..]. rewrite <- Ht in Hv2.
  unfold startingPrev in Hv1, Hv2. rewrite Ha1 in Hv1. rewrite Ha2 in Hv2. simpl in *.
  apply Forall_app in Hf as [Hf1 Hf2].
  rewrite filter_all in Hv1, Hv2;
    [|by eapply Forall_impl; [exact Hf2|simpl; intros ? []]|by eapply Forall_impl; [exact Hf1|simpl; intros ? []]].
  eapply chains_agree; [done|done|]. apply Forall_app.
  split; (eapply Forall_impl; [eassumption|simpl; by intros ? []]).
Qed.

(** ** Signatures

    What the checkpoints ask of a [Signer]: it verifies what it signed. *)
Class CorrectSigner (s : Signer) : Prop :=
  signed_verifies : forall content sig kid, Sign s content = Ok (sig, kid) ->
                                            VerifySig s content sig kid = None.

#[export] Instance HMACSigner_correct keyID key : CorrectSigner (HMACSigner keyID key).
Proof.
  intros content sig kid. cbn [Sign VerifySig HMACSigner]. unfold hmacVerify. intros H. rewrite H.
  unfold hmacSign in H. case_decide; [done|]. injection H as <- <-.
  rewrite decide_False by auto. generalize (hmac256 key (bytes content)). intros h.
  rewrite DecodeString_EncodeToString. by rewrite decide_True.
Qed.

(** A checkpoint still verifies after its round trip through the database. *)
Lemma stored_checkpoint_verifies s `{!CorrectSigner s} c c' :
  SignCheckpoint s c = Ok c' ->
  VerifyCheckpoint s {| ck_ChainName := ck_ChainName c'; ck_HeadID := ck_HeadID c';
    ck_HeadHash := ck_HeadHash c'; ck_RowCount := ck_RowCount c';
    ck_CreatedAt := storedTime (ck_CreatedAt c'); ck_KeyID := ck_KeyID c';
    ck_Signature := ck_Signature c' |} = None /\
  ck_ChainName c' = ck_ChainName c /\ ck_HeadID c' = ck_HeadID c.
Proof.
  unfold SignCheckpoint. intros ([sig kid] & Hs & [= <-])%bind_Ok.
  apply wrap_Ok in Hs.
  split_and!; [|done|done]. unfold VerifyCheckpoint. cbn [ck_Signature ck_KeyID].
  replace (checkpointContent _) with (checkpointContent c); [by apply signed_verifies|].
  unfold checkpointContent.
  cbn [ck_ChainName ck_HeadID ck_HeadHash ck_RowCount ck_CreatedAt].
  assert (UnixMicro (storedTime (ck_CreatedAt c)) = UnixMicro (ck_CreatedAt c)) as ->; [|done].
  unfold storedTime, UnixMicro. rewrite Z.div_mul; [done|lia].
Qed.

Lemma latest_written c d :
  GetLatestAuditChainCheckpoint (ck_ChainName c) (WriteAuditChainCheckpoint c d) =
  Some {| ck_ChainName := ck_ChainName c; ck_HeadID := ck_HeadID c; ck_HeadHash := ck_HeadHash c;
          ck_RowCount := ck_RowCount c; ck_CreatedAt := storedTime (ck_CreatedAt c);
          ck_KeyID := ck_KeyID c; ck_Signature := ck_Signature c |}.
Proof.
  unfold GetLatestAuditChainCheckpoint, WriteAuditChainCheckpoint. cbn.
  rewrite filter_app, filter_cons, decide_True by done. by rewrite filter_nil, last_snoc.
Qed.

(** ** Truncation *)

(** The last row of the chain at a checkpoint is the point it guards. *)
Lemma takeCheckpoint_latest s `{!CorrectSigner s} cn now d d1 head :
  takeCheckpoint s cn now d = Ok d1 -> last (chainRows cn d) = Some head ->
  exists c, GetLatestAuditChainCheckpoint cn d1 = Some c /\ VerifyCheckpoint s c = None /\
            ck_ChainName c = cn /\ ck_HeadID c = ar_id head /\ c ∈ db_checkpoints d1.
Proof.
  unfold takeCheckpoint, GetAccessLogChainStats. intros Ht Hl. rewrite Hl in Ht.
  destruct (Z.eqb_spec (Z.of_nat (length (chainRows cn d))) 0) as [Hz|_].
  { destruct (chainRows cn d); [done|simpl in Hz; lia]. }
  apply bind_Ok in Ht as (c & Hc & [= <-]).
  destruct (stored_checkpoint_verifies s _ _ Hc) as (Hv & Hcn & Hid). cbn in Hcn, Hid.
  pose proof (latest_written c d) as Hw. rewrite Hcn in Hw at 1.
  eexists. split; [exact Hw|]. split_and!; [done|done|done|].
  unfold GetLatestAuditChainCheckpoint in Hw. apply last_Some_elem_of in Hw.
  by apply list_elem_of_filter in Hw as [_ Hw].
Qed.

Lemma verifyOne_healthy cn d : exists r, verifyOneAccessLogChain healthy cn d = (Some r, None).
Proof.
  unfold verifyOneAccessLogChain. simpl. destruct (startingPrev cn d) as [p a].
  destruct (walk _ _ _ _) as [res prev|res e] eqn:Ew; [by eexists|].
  apply walk_Returned in Ew as [-> _]. by eexists.
Qed.

Lemma verifyChains_report signer chains d agg cn :
  cn ∈ chains ->
  (forall res, vr_OK (checkTruncation healthy signer cn d res) = false) ->
  vr_OK (verifyChains (fun _ => healthy) signer chains d agg).1 = false.
Proof.
  intros Hin Hbad. revert agg. induction chains as [|c chains IH]; intros agg; [set_solver|]. cbn [verifyChains].
  destruct (verifyOne_healthy c d) as [r ->]. destruct (vr_OK r); [|done]. simpl.
  destruct (decide (c = cn)) as [->|Hne].
  { by rewrite Hbad; simpl. }
  destruct (vr_OK (checkTruncation _ _ _ _ _)) eqn:E; [|done]. simpl. apply IH. set_solver.
Qed.

Lemma elem_of_chainNames cn d :
  cn ∈ accessLogChainNames d <->
  cn <> "" /\ (cn ∈ ar_chain_name <$> db_access_logs d \/ cn ∈ ck_ChainName <$> db_checkpoints d).
Proof.
  unfold accessLogChainNames. rewrite elem_of_sort_strings, elem_of_elements, elem_of_list_to_set.
  by rewrite list_elem_of_filter, elem_of_app.
Qed.

Lemma chainRows_last_max cn d x r :
  StronglySorted id_lt (db_access_logs d) -> last (chainRows cn d) = Some x -> r ∈ chainRows cn d ->
  (ar_id r <= ar_id x)%Z.
Proof.
  intros Hs%(StronglySorted_filter _ (fun r => ar_chain_name r = cn)) Hl Hr.
  change (filter _ _) with (chainRows cn d) in Hs.
  apply last_Some in Hl as [l Hl]. rewrite Hl in Hs, Hr. apply StronglySorted_app in Hs as (Hlt & _ & _).
  apply elem_of_app in Hr as [Hr|Hr]; [|by apply list_elem_of_singleton in Hr as ->].
  specialize (Hlt r x Hr ltac:(set_solver)). unfold id_lt in Hlt. lia.
Qed.

(** once a checkpoint is signed, losing the tail of the chain is reported:
    a table without the checkpointed head or any later row of the chain fails
    the verification, and no table that still has one is taken for truncated. *)
Theorem truncation_is_reported s `{!CorrectSigner s} cn now d d1 d2 head :
  cn <> "" -> last (chainRows cn d) = Some head -> (0 < ar_id head)%Z ->
  takeCheckpoint s cn now d = Ok d1 -> db_checkpoints d2 = db_checkpoints d1 ->
  StronglySorted id_lt (db_access_logs d2) ->
  ((forall r, r ∈ chainRows cn d2 -> (ar_id r < ar_id head)%Z) ->
   vr_OK (verifyAccessLogs None (fun _ => healthy) (Some s) d2).1 = false) /\
  ((exists r, r ∈ chainRows cn d2 /\ (ar_id head <= ar_id r)%Z) ->
   forall res, checkTruncation healthy (Some s) cn d2 res = res).
Proof.
  intros Hcn Hhead Hpos Ht Hck Hs.
  destruct (takeCheckpoint_latest s cn now d d1 head Ht Hhead) as (c & Hc & Hv & Hn & Hid & Hin).
  assert (Hc2 : GetLatestAuditChainCheckpoint cn d2 = Some c)
    by (unfold GetLatestAuditChainCheckpoint in *; by rewrite Hck).
  split.
  - intros Hlt. apply (verifyChains_report _ _ _ _ cn).
    + apply elem_of_chainNames. split; [done|]. right. rewrite Hck, <- Hn. by apply list_elem_of_fmap_2.
    + intros res. unfold checkTruncation. cbn [rd_checkpoint rd_head healthy]. rewrite Hc2, Hv.
      unfold checkpointTruncated. rewrite Hid.
      destruct (last (chainRows cn d2)) as [r|] eqn:El; simpl.
      * apply last_Some_elem_of, Hlt, Z.ltb_lt in El. by rewrite El.
      * by apply Z.ltb_lt in Hpos as ->.
  - intros (r & Hr & Hge) res. unfold checkTruncation. cbn [rd_checkpoint rd_head healthy].
    rewrite Hc2, Hv. unfold checkpointTruncated. rewrite Hid.
    destruct (last (chainRows cn d2)) as [r'|] eqn:El; [|by apply last_None in El; rewrite El in Hr; set_solver].
    simpl. destruct (Z.ltb_spec (ar_id r') (ar_id head)) as [Hlt|]; [|done].
    pose proof (chainRows_last_max cn d2 r' r Hs El Hr). lia.
Qed.

(** ** Break-glass *)
Lemma signed_reanchor s `{!CorrectSigner s} r r' :
  SignReAnchor s r = Ok r' ->
  VerifyReAnchor s r' = None /\ ra_Actor r' = ra_Actor r /\ ra_Reason r' = ra_Reason r /\
  ra_ToHeadID r' = ra_ToHeadID r.
Proof.
  unfold SignReAnchor. intros ([sig kid] & Hs & [= <-])%bind_Ok.
  apply wrap_Ok in Hs.
  split_and!; [|done..]. exact (signed_verifies _ _ _ Hs).
Qed.

(** What a completed re-anchor leaves in the database. *)
Lemma BreakGlassReAnchor_Ok s cn actor reason n1 n2 writes d r d' :
  BreakGlassReAnchor s cn actor reason n1 n2 writes d = (Ok r, d') ->
  let '(rowCount, headID, headHash) := GetAccessLogChainStats cn d in
  actor <> "" /\ reason <> "" /\ exists r0 cp cp',
  SignReAnchor s r0 = Ok r /\ ra_Actor r0 = actor /\ ra_Reason r0 = reason /\ ra_ToHeadID r0 = headID /\
  SignCheckpoint s cp = Ok cp' /\ ck_ChainName cp = cn /\ ck_HeadID cp = headID /\
  d' = WriteAuditChainCheckpoint cp' (upsertAuditChainAnchor cn headID headHash
         (with_reanchors (db_reanchors d ++ [r]) d)).
Proof.
  unfold BreakGlassReAnchor. case_decide as Hd; [done|].
  destruct (GetAccessLogChainStats cn d) as [[rowCount headID] headHash] eqn:Es.
  unfold mbind, stM_bind, get, lift. simpl. rewrite Es.
  destruct (SignReAnchor s _) as [r1|] eqn:Er; [|done]. unfold write.
  destruct writes as [[[] []] []]; simpl; try done.
  all: destruct (SignCheckpoint s _) as [cp|] eqn:Ec; try done.
  intros [= <- <-]. split_and!; [tauto..|]. do 3 eexists. split_and!; done.
Qed.

Lemma chainRows_upto_head cn d :
  StronglySorted id_lt (db_access_logs d) ->
  filter (fun r => ((GetAccessLogChainStats cn d).1.2 < ar_id r)%Z) (chainRows cn d) = [].
Proof.
  intros Hs. unfold GetAccessLogChainStats. destruct (last (chainRows cn d)) as [x|] eqn:El.
  - apply filter_none, Forall_forall. intros r Hr. cbn.
    pose proof (chainRows_last_max cn d x r Hs El Hr). lia.
  - apply last_None in El. by rewrite El.
Qed.

(** a completed break-glass re-anchor makes the chain verify again, from
    its current head and with no truncation reported, whatever was wrong with
    it; no row is changed, and the break is recorded, signed, with its actor
    and reason. *)
Theorem break_glass_restores s `{!CorrectSigner s} cn actor reason n1 n2 writes d r d' :
  StronglySorted id_lt (db_access_logs d) ->
  BreakGlassReAnchor s cn actor reason n1 n2 writes d = (Ok r, d') ->
  (exists res, verifyOneAccessLogChain healthy cn d' = (Some res, None) /\ vr_OK res = true /\
     vr_TailHash res = (GetAccessLogChainStats cn d).2 /\
     checkTruncation healthy (Some s) cn d' res = res) /\
  db_access_logs d' = db_access_logs d /\ db_reanchors d' = db_reanchors d ++ [r] /\
  VerifyReAnchor s r = None /\ ra_Actor r = actor /\ ra_Reason r = reason /\
  actor <> "" /\ reason <> "".
Proof.
  intros Hs Hb%BreakGlassReAnchor_Ok. pose proof (chainRows_upto_head cn d Hs) as Hnone.
  destruct (GetAccessLogChainStats cn d) as [[rowCount headID] headHash] eqn:Es. cbn [fst snd] in *.
  destruct Hb as (Ha & Hr & r0 & cp & cp' & Hsr & <- & <- & <- & Hsc & <- & Hid & ->).
  destruct (signed_reanchor s _ _ Hsr) as (? & ? & ? & _).
  destruct (stored_checkpoint_verifies s _ _ Hsc) as (Hv & Hcn & Hid').
  split; [|done]. unfold verifyOneAccessLogChain. cbn [rd_anchor rd_query rd_rows rd_err healthy].
  unfold startingPrev. cbn [db_anchors WriteAuditChainCheckpoint with_checkpoints upsertAuditChainAnchor with_anchors].
  rewrite lookup_insert_eq.
  change (chainRows (ck_ChainName cp) (WriteAuditChainCheckpoint _ _)) with (chainRows (ck_ChainName cp) d).
  rewrite Hnone. cbn [fmap list_fmap walk]. eexists. split_and!; [done..|].
  unfold checkTruncation. cbn [rd_checkpoint rd_head healthy]. rewrite <- Hcn, latest_written, Hv.
  unfold checkpointTruncated. cbn [ck_HeadID]. rewrite Hid', Hid.
  change (chainRows (ck_ChainName cp') (WriteAuditChainCheckpoint _ _)) with (chainRows (ck_ChainName cp') d).
  rewrite Hcn. unfold GetAccessLogChainStats in Es.
  destruct (last (chainRows (ck_ChainName cp) d)) as [x|]; injection Es as <- <- <-; simpl.
  - by rewrite Z.ltb_irrefl.
  - done.
Qed.
