(* ===== verification/AuditBuffer.v ===== *)
(** * The audit buffer and its sealer: [internal/audit/buffer/buffer.go],
    [internal/audit/sealer/sealer.go] and the closures of
    [internal/server/server.go] that join them to the chain.

    The store is the list of its entries in key order; a key is the entry's
    64-bit sequence number.  The sealer is generic in what it seals into, as in
    the source: [SealSink] states what it asks of its two callbacks, and
    [AccessSink] shows that the access-log chain provides it. *)
From S2P Require Import Prelude GoStrings Sha256 AuditChain AuditVerify AuditProps.

Definition two64 : Z := 18446744073709551616.
Definition w64 (z : Z) : Z := (z mod two64)%Z.

(** ** The buffer *)
Module Buffer.
Record t (D : Type) := { db : list (Z * D); seq : Z }.
Arguments Build_t {D} _ _.
Arguments db {D} _.
Arguments seq {D} _.

Section Buffer.
Context {D : Type}.
Implicit Types (b : t D).

(** [pebble.DB.Set]: an entry at its place, replacing one with its key. *)
Fixpoint Set_ (k : Z) (v : D) (l : list (Z * D)) : list (Z * D) :=
  match l with
  | [] => [(k, v)]
  | (k', v') :: l =>
      if (k <? k')%Z then (k, v) :: (k', v') :: l
      else if Z.eqb k k' then (k, v) :: l
      else (k', v') :: Set_ k v l
  end.

(** [recoverSeq] *)
Definition recoverSeq b : t D :=
  match last (db b) with
  | Some (k, _) => {| db := db b; seq := k |}
  | None => b
  end.

(** [Open] on what an earlier process left in the store. *)
Definition Open (store : list (Z * D)) : t D := recoverSeq {| db := store; seq := 0 |}.

(** The two steps of [Append], between which no lock is held: the allocation
    of the sequence number and the write, which may fail. *)
Definition allocate b : Z * t D :=
  let s := w64 (seq b + 1) in (s, {| db := db b; seq := s |}).

Definition commit (s : Z) (data : D) (failed : bool) b : result Z * t D :=
  if failed then (Err "audit buffer append", b)
  else (Ok s, {| db := Set_ s data (db b); seq := seq b |}).

Definition Append (data : D) (failed : bool) b : result Z * t D :=
  let '(s, b) := allocate b in commit s data failed b.

Definition Drain (afterSeq : Z) (max : nat) b : list (Z * D) :=
  take max (filter (fun e => (w64 (afterSeq + 1) <= e.1)%Z) (db b)).

(** [DeleteRange(entryKey(0), entryKey(throughSeq+1))] *)
Definition DeleteThrough (throughSeq : Z) b : t D :=
  {| db := filter (fun e => ~ (0 <= e.1 < w64 (throughSeq + 1))%Z) (db b); seq := seq b |}.

Definition PendingCount b : nat := length (db b).
End Buffer.
End Buffer.

(** ** The sealer *)
Module Sealer.

(** [New]: the batch size with its default. *)
Definition batchOf (cfgBatch : Z) : nat := Z.to_nat (if (cfgBatch <=? 0)%Z then 500%Z else cfgBatch).

Section Sealer.
Context {D W IO : Type} (seal : IO -> Z -> D -> stM W unit) (highWater : W -> Z).

(** What the outside decides of one tick. *)
Record tick_io := {
  ti_highWater : bool;    (* the high-water mark cannot be read *)
  ti_drain : bool;        (* the buffer cannot be read *)
  ti_seal : nat -> IO;    (* of the seal of each entry *)
  ti_delete : bool        (* the buffer cannot be cleaned *) }.

Fixpoint sealLoop (ios : nat -> IO) (i : nat) (entries : list (Z * D)) (lastSealed : Z) (n : nat) (w : W)
  : Z * nat * W :=
  match entries with
  | [] => (lastSealed, n, w)
  | (s, data) :: entries =>
      match seal (ios i) s data w with
      | (Err _, w) => (lastSealed, n, w)
      | (Ok _, w) => sealLoop ios (S i) entries s (S n) w
      end
  end.

Definition Tick (batch : nat) (io : tick_io) : stM (Buffer.t D * W) nat :=
  fun '(b, w) =>
  if ti_highWater io then (Err "high-water", (b, w))
  else
    let hw := highWater w in
    if ti_drain io then (Err "audit buffer drain", (b, w))
    else
      let entries := Buffer.Drain hw batch b in
      let '(lastSealed, n, w) := sealLoop (ti_seal io) 0 entries 0 0 w in
      let cleanThrough := if (hw <? lastSealed)%Z then lastSealed else hw in
      let b := if (0 <? cleanThrough)%Z && negb (ti_delete io)
               then Buffer.DeleteThrough cleanThrough b else b in
      (Ok n, (b, w)).
End Sealer.
Arguments tick_io : clear implicits.
End Sealer.

(** ** What the sealer asks of its callbacks

    [sealed] is the list of what the sink holds, in chain order; a failed seal
    may or may not have taken effect. *)
Class SealSink {D W IO R : Type} (decode : D -> option R) (seal : IO -> Z -> D -> stM W unit)
    (highWater : W -> Z) (sealed : W -> list (Z * R)) (sink_inv : W -> Prop) := {
  sink_highWater w : highWater w = foldr Z.max 0%Z (fst <$> sealed w);
  sink_sealed io s d r w : sink_inv w -> decode d = Some r ->
    sink_inv (seal io s d w).2 /\
    (sealed (seal io s d w).2 = sealed w ++ [(s, r)] \/
     is_ok (seal io s d w).1 = false /\ sealed (seal io s d w).2 = sealed w) }.

(** ** Nothing is lost, nothing is sealed twice, and the order is kept *)
Definition maxSeq : Z := 9223372036854775807.

Definition key_lt {D} (x y : Z * D) : Prop := (x.1 < y.1)%Z.

Definition unsealed {D} (hw : Z) (l : list (Z * D)) : list (Z * D) := filter (fun e => (hw < e.1)%Z) l.

Lemma unsealed_next {D} hw (l : list (Z * D)) e rest :
  StronglySorted key_lt l -> unsealed hw l = e :: rest -> unsealed e.1 l = rest.
Proof.
  unfold unsealed. induction 1 as [|x l Hs IH Hx]; [done|]. rewrite !filter_cons.
  destruct (decide (hw < x.1)%Z) as [Hlt|Hge].
  - intros [= <- <-]. rewrite decide_False by lia.
    rewrite !filter_all; [done|..]; (eapply Forall_impl; [exact Hx|]); unfold key_lt; simpl; lia.
  - intros Hf. specialize (IH Hf).
    assert (He : e ∈ filter (fun y => (hw < y.1)%Z) l) by (rewrite Hf; set_solver).
    apply list_elem_of_filter in He as [He _]. rewrite decide_False by lia. done.
Qed.

Lemma foldr_max_snoc l s : (0 <= s)%Z -> foldr Z.max 0%Z (l ++ [s]) = Z.max (foldr Z.max 0%Z l) s.
Proof. intros. induction l as [|x l IH]; simpl; [lia|]. rewrite IH. lia. Qed.

Lemma foldr_max_nonneg l : (0 <= foldr Z.max 0 l)%Z.
Proof. induction l; simpl; lia. Qed.

Lemma foldr_max_ge l x : x ∈ l -> (x <= foldr Z.max 0 l)%Z.
Proof. induction l; simpl; [set_solver|]. intros [->|?]%elem_of_cons; [lia|]. specialize (IHl H). lia. Qed.

Lemma w64_small z : (0 <= z < two64)%Z -> w64 z = z.
Proof. apply Z.mod_small. Qed.

(** A new key above every other goes to the end. *)
Lemma Set_last {D} k (v : D) l :
  Forall (fun e => (e.1 < k)%Z) l -> Buffer.Set_ k v l = l ++ [(k, v)].
Proof.
  induction 1 as [|[k' v'] l Hk Hl IH]; [done|]. simpl in *.
  destruct (Z.ltb_spec k k'); [lia|]. destruct (Z.eqb_spec k k'); [lia|]. by rewrite IH.
Qed.

Lemma Drain_unsealed {D} hw n (b : Buffer.t D) :
  (0 <= hw < maxSeq)%Z -> Buffer.Drain hw n b = take n (unsealed hw (Buffer.db b)).
Proof.
  intros Hhw. unfold Buffer.Drain, unsealed. f_equal. apply list_filter_iff. intros e.
  rewrite w64_small by (unfold two64, maxSeq in *; lia). lia.
Qed.

(** Cleaning up what is sealed leaves what is not. *)
Lemma unsealed_DeleteThrough {D} hw c (b : Buffer.t D) :
  (0 <= c <= hw)%Z -> (hw < maxSeq)%Z ->
  unsealed hw (Buffer.db (Buffer.DeleteThrough c b)) = unsealed hw (Buffer.db b).
Proof.
  intros Hc Hhw. unfold unsealed, Buffer.DeleteThrough. simpl. rewrite list_filter_filter.
  apply list_filter_iff. intros e. rewrite w64_small by (unfold two64, maxSeq in *; lia). lia.
Qed.

Lemma filter_iff_elem {A} (P Q : A -> Prop) `{!forall x, Decision (P x)} `{!forall x, Decision (Q x)} (l : list A) :
  (forall x, x ∈ l -> P x <-> Q x) -> filter P l = filter Q l.
Proof.
  induction l as [|x l IH]; intros Hx; [done|]. rewrite !filter_cons, IH by set_solver.
  specialize (Hx x ltac:(set_solver)). do 2 case_decide; tauto.
Qed.

Section Pipeline.
Context {D W IO R : Type} (decode : D -> option R) (seal : IO -> Z -> D -> stM W unit)
  (highWater : W -> Z) (sealed : W -> list (Z * R)) (sink_inv : W -> Prop).
Context `{!SealSink decode seal highWater sealed sink_inv}.
Implicit Types (w : W) (b : Buffer.t D) (h : list (Z * D)).

(** An entry as its reader sees it. *)
Definition readBack (e : Z * D) : Z * option R := (e.1, decode e.2).
Definition found (e : Z * R) : Z * option R := (e.1, Some e.2).

(** The buffer, the sink, and the entries whose [Append] succeeded, in order.
    An append runs to its end before the next step, and a restart recovers a
    sequence number that is not below the high-water mark. *)
Inductive step : Buffer.t D * W * list (Z * D) -> Buffer.t D * W * list (Z * D) -> Prop :=
| step_append data failed b w h :
    is_Some (decode data) -> (Buffer.seq b + 1 < maxSeq)%Z ->
    step (b, w, h) (let '(r, b') := Buffer.Append data failed b in
                    (b', w, match r with Ok s => h ++ [(s, data)] | Err _ => h end))
| step_tick batch io b w h :
    step (b, w, h) (let '(_, (b', w')) := Sealer.Tick seal highWater batch io (b, w) in (b', w', h))
| step_restart b w h :
    (highWater w <= Buffer.seq (Buffer.Open (Buffer.db b)))%Z ->
    step (b, w, h) (Buffer.Open (Buffer.db b), w, h).

Inductive reached : Buffer.t D * W * list (Z * D) -> Prop :=
| reached_init w : sink_inv w -> sealed w = [] -> reached (Buffer.Open [], w, [])
| reached_next x y : reached x -> step x y -> reached y.

Record pipeline_inv (b : Buffer.t D) (w : W) (h : list (Z * D)) : Prop := {
  pi_sink : sink_inv w;
  pi_once : StronglySorted Z.lt (fst <$> sealed w);
  pi_sorted : StronglySorted key_lt (Buffer.db b);
  pi_keys : Forall (fun e => (0 < e.1 <= Buffer.seq b)%Z /\ is_Some (decode e.2)) (Buffer.db b);
  pi_seq : (highWater w <= Buffer.seq b < maxSeq)%Z;
  pi_hist : readBack <$> h =
            (found <$> sealed w) ++ (readBack <$> unsealed (highWater w) (Buffer.db b)) }.

Lemma highWater_same w w' : sealed w' = sealed w -> highWater w' = highWater w.
Proof. intros Hw. pose proof (sink_highWater w) as H1. pose proof (sink_highWater w') as H2. congruence. Qed.

Lemma highWater_nonneg w : (0 <= highWater w)%Z.
Proof. rewrite sink_highWater. apply foldr_max_nonneg. Qed.

Lemma highWater_snoc w w' s r :
  sealed w' = sealed w ++ [(s, r)] -> (highWater w < s)%Z -> highWater w' = s.
Proof.
  pose proof (highWater_nonneg w). intros Hs Hlt. rewrite (sink_highWater w'), Hs, fmap_app. simpl.
  rewrite foldr_max_snoc by lia. rewrite <- sink_highWater. lia.
Qed.

Lemma sealed_sorted_snoc w s :
  StronglySorted Z.lt (fst <$> sealed w) -> (highWater w < s)%Z ->
  StronglySorted Z.lt ((fst <$> sealed w) ++ [s]).
Proof.
  rewrite sink_highWater. intros Hs Hlt. apply StronglySorted_app. split_and!; [|done|repeat constructor].
  intros x y Hx ->%list_elem_of_singleton. pose proof (foldr_max_ge _ _ Hx). lia.
Qed.

(** The loop seals a prefix of what is unsealed, in order; the mark it reports
    is sealed. *)
Lemma sealLoop_spec l ios : StronglySorted key_lt l -> Forall (fun e => is_Some (decode e.2)) l ->
  forall entries i last n w rest last' n' w',
  unsealed (highWater w) l = entries ++ rest ->
  sink_inv w -> StronglySorted Z.lt (fst <$> sealed w) -> (last <= highWater w)%Z ->
  Sealer.sealLoop seal ios i entries last n w = (last', n', w') ->
  sink_inv w' /\ StronglySorted Z.lt (fst <$> sealed w') /\ (last' <= highWater w')%Z /\
  (highWater w <= highWater w')%Z /\
  (found <$> sealed w) ++ (readBack <$> unsealed (highWater w) l) =
  (found <$> sealed w') ++ (readBack <$> unsealed (highWater w') l) /\
  (highWater w' = highWater w \/ exists e, e ∈ l /\ highWater w' = e.1).
Proof.
  intros Hl Hdec. induction entries as [|[s d] entries IH]; intros i last n w rest last' n' w' Hu Hi Hs Hlast;
    cbn [Sealer.sealLoop].
  { intros [= <- <- <-]. split_and!; auto; lia. }
  pose proof (unsealed_next _ _ _ _ Hl Hu) as Hnext. cbn [fst] in Hnext.
  assert (He : (s, d) ∈ unsealed (highWater w) l) by (rewrite Hu; set_solver).
  apply list_elem_of_filter in He as [Hlt Hin]. cbn [fst] in Hlt.
  rewrite Forall_forall in Hdec. destruct (Hdec _ Hin) as [r Hr]. cbn [snd] in Hr.
  destruct (sink_sealed (ios i) s d r w Hi Hr) as [Hi' Hsealed].
  destruct (seal (ios i) s d w) as [res w1]. cbn [fst snd] in *.
  assert (Hstep : sealed w1 = sealed w ++ [(s, r)] ->
    highWater w1 = s /\ StronglySorted Z.lt (fst <$> sealed w1) /\
    (found <$> sealed w) ++ (readBack <$> unsealed (highWater w) l) =
    (found <$> sealed w1) ++ (readBack <$> unsealed (highWater w1) l)).
  { intros Hw1. pose proof (highWater_snoc _ _ _ _ Hw1 Hlt) as Hhw. split_and!; [done|..].
    - rewrite Hw1, fmap_app. by apply sealed_sorted_snoc.
    - rewrite Hhw, Hnext, Hw1, Hu, (fmap_app found), <- app_assoc. cbn [fmap list_fmap app]. unfold readBack, found.
      cbn [fst snd]. by rewrite Hr. }
  destruct res as [[]|err].
  - destruct Hsealed as [Hw1|[? _]]; [|done]. destruct (Hstep Hw1) as (Hhw & Hs1 & Heq).
    intros Hloop. destruct (IH (S i) s (S n) w1 rest last' n' w') as (? & ? & ? & ? & Heq' & Hor);
      [by rewrite Hhw|done|done|lia|done|].
    split_and!; [done|done|done|lia|by rewrite Heq|].
    right. destruct Hor as [->|?]; [|done]. exists (s, d). by rewrite Hhw.
  - intros [= <- <- <-]. destruct Hsealed as [Hw1|[_ Hw1]].
    + destruct (Hstep Hw1) as (Hhw & Hs1 & Heq). split_and!; try done; [lia|lia|].
      right. by exists (s, d).
    + pose proof (highWater_same _ _ Hw1) as Hhw.
      rewrite Hhw, Hw1. split_and!; auto; lia.
Qed.

Lemma pipeline_inv_append b w h data failed :
  pipeline_inv b w h -> is_Some (decode data) -> (Buffer.seq b + 1 < maxSeq)%Z ->
  let '(r, b') := Buffer.Append data failed b in
  pipeline_inv b' w (match r with Ok s => h ++ [(s, data)] | Err _ => h end).
Proof.
  intros [Hsink Honce Hsorted Hkeys Hseq Hhist] Hdata Hbound. pose proof (highWater_nonneg w) as H0.
  unfold Buffer.Append, Buffer.allocate.
  assert (Hw : w64 (Buffer.seq b + 1) = (Buffer.seq b + 1)%Z)
    by (apply w64_small; unfold two64, maxSeq in *; lia).
  rewrite Hw. unfold Buffer.commit. destruct failed; simpl.
  - split; simpl; [done|done|done| |lia|done].
    eapply Forall_impl; [exact Hkeys|]. simpl. intros e [? ?]. split; [lia|done].
  - rewrite Set_last by (eapply Forall_impl; [exact Hkeys|]; simpl; intros e [? ?]; lia).
    split; simpl; [done|done| | |lia|].
    + apply StronglySorted_app. split_and!; [|done|repeat constructor].
      rewrite Forall_forall in Hkeys. intros x y Hx ->%list_elem_of_singleton. unfold key_lt. simpl.
      destruct (Hkeys x Hx) as [? _]. lia.
    + apply Forall_app. split; [|repeat constructor; simpl; [lia|lia|done]].
      eapply Forall_impl; [exact Hkeys|]. simpl. intros e [? ?]. split; [lia|done].
    + unfold unsealed. rewrite filter_app, !fmap_app, Hhist, <- app_assoc.
      rewrite filter_cons, filter_nil. simpl. by rewrite decide_True by lia.
Qed.

Lemma pipeline_inv_tick batch io b w h :
  pipeline_inv b w h ->
  let '(_, (b', w')) := Sealer.Tick seal highWater batch io (b, w) in pipeline_inv b' w' h.
Proof.
  intros Hinv. pose proof Hinv as [Hsink Honce Hsorted Hkeys Hseq Hhist].
  pose proof (highWater_nonneg w) as H0.
  unfold Sealer.Tick. destruct (Sealer.ti_highWater io); [done|]. destruct (Sealer.ti_drain io); [done|].
  rewrite Drain_unsealed by lia.
  destruct (Sealer.sealLoop _ _ _ _ _ _ _) as [[last n] w'] eqn:El.
  apply (sealLoop_spec (Buffer.db b)) with (rest := drop batch (unsealed (highWater w) (Buffer.db b))) in El
    as (Hsink' & Honce' & Hlast & Hmono & Heq & Hor);
    [|done|by eapply Forall_impl; [exact Hkeys|]; intros ? []|by rewrite take_drop|done|done|done].
  assert (Hseq' : (highWater w' <= Buffer.seq b)%Z).
  { destruct Hor as [->|(e & He & ->)]; [lia|]. rewrite Forall_forall in Hkeys. by apply Hkeys. }
  set (c := if (highWater w <? last)%Z then last else highWater w).
  assert (Hc : (0 <= c <= highWater w')%Z) by (unfold c; destruct (Z.ltb_spec (highWater w) last); lia).
  destruct (_ && _).
  2:{ split; try done; [lia|by rewrite Hhist]. }
  split; [done|done| | |simpl; lia|].
  - by apply StronglySorted_filter.
  - rewrite Forall_forall in Hkeys |- *. intros e He. apply list_elem_of_filter in He as [_ He].
    by apply Hkeys.
  - rewrite unsealed_DeleteThrough by lia. by rewrite Hhist.
Qed.

Lemma pipeline_inv_restart b w h :
  pipeline_inv b w h -> (highWater w <= Buffer.seq (Buffer.Open (Buffer.db b)))%Z ->
  pipeline_inv (Buffer.Open (Buffer.db b)) w h.
Proof.
  intros [Hsink Honce Hsorted Hkeys Hseq Hhist] Hhw.
  unfold Buffer.Open, Buffer.recoverSeq in *. cbn [Buffer.db] in *.
  destruct (last (Buffer.db b)) as [[k v]|] eqn:El; simpl in *.
  - apply last_Some in El as [l El].
    assert (Hk : (k <= Buffer.seq b)%Z).
    { rewrite El in Hkeys. apply Forall_app in Hkeys as [_ Hk]. apply Forall_singleton in Hk as [? _]. simpl in *. lia. }
    split; simpl; [done|done|done| |lia|done].
    rewrite El in Hkeys, Hsorted |- *. apply StronglySorted_app in Hsorted as (Hlt & _ & _).
    rewrite Forall_forall in Hkeys |- *. intros e He. destruct (Hkeys e He) as [[? ?] ?].
    split; [|done]. split; [done|]. apply elem_of_app in He as [He|He].
    + specialize (Hlt e (k, v) He ltac:(set_solver)). unfold key_lt in Hlt. simpl in Hlt. lia.
    + apply list_elem_of_singleton in He as ->. done.
  - apply last_None in El. pose proof (highWater_nonneg w). rewrite El in *.
    split; simpl; [done|done|done|by apply Forall_nil|unfold maxSeq; lia|done].
Qed.

Lemma reached_inv b w h : reached (b, w, h) -> pipeline_inv b w h.
Proof.
  remember (b, w, h) as x eqn:Ex. intros Hr. revert b w h Ex.
  induction Hr as [w0 Hi Hs|x y Hr IH Hstep]; intros b w h Ex.
  - injection Ex as <- <- <-.
    assert (Hhw : highWater w0 = 0%Z) by (pose proof (sink_highWater w0) as H1; by rewrite H1, Hs).
    split; simpl; rewrite ?Hs, ?Hhw; try done; try constructor; unfold maxSeq; lia.
  - destruct Hstep as [data failed b0 w0 h0 Hd Hb|batch io b0 w0 h0|b0 w0 h0 Hhw].
    + pose proof (pipeline_inv_append _ _ _ data failed (IH _ _ _ eq_refl) Hd Hb) as Hp.
      destruct (Buffer.Append _ _ _) as [r b']. by injection Ex as -> -> <-.
    + pose proof (pipeline_inv_tick batch io _ _ _ (IH _ _ _ eq_refl)) as Hp.
      destruct (Sealer.Tick _ _ _ _ _) as [r [b' w']]. by injection Ex as -> -> ->.
    + injection Ex as <- <- <-. apply pipeline_inv_restart; [by apply IH|done].
Qed.

(** ** Ticks that meet no failure *)
Section Healthy.
Context (quiet : W -> Prop) (healthy_io : IO -> Prop).
Hypothesis seal_succeeds : forall io s d r w, healthy_io io -> quiet w -> sink_inv w ->
  (highWater w < s)%Z -> decode d = Some r ->
  is_ok (seal io s d w).1 = true /\ quiet (seal io s d w).2.

Lemma sealLoop_healthy l ios : StronglySorted key_lt l -> Forall (fun e => is_Some (decode e.2)) l ->
  (forall i, healthy_io (ios i)) ->
  forall entries i last n w rest last' n' w',
  unsealed (highWater w) l = entries ++ rest -> sink_inv w -> quiet w ->
  Sealer.sealLoop seal ios i entries last n w = (last', n', w') ->
  quiet w' /\ n' = n + length entries /\ unsealed (highWater w') l = rest /\
  ((entries = [] /\ last' = last /\ w' = w) \/ last' = highWater w').
Proof.
  intros Hl Hdec Hios. induction entries as [|[s d] entries IH]; intros i last n w rest last' n' w' Hu Hi Hq;
    cbn [Sealer.sealLoop].
  { intros [= <- <- <-]. split_and!; [done|simpl; lia|done|by left]. }
  pose proof (unsealed_next _ _ _ _ Hl Hu) as Hnext. cbn [fst] in Hnext.
  assert (He : (s, d) ∈ unsealed (highWater w) l) by (rewrite Hu; set_solver).
  apply list_elem_of_filter in He as [Hlt Hin]. cbn [fst] in Hlt.
  rewrite Forall_forall in Hdec. destruct (Hdec _ Hin) as [r Hr]. cbn [snd] in Hr.
  destruct (sink_sealed (ios i) s d r w Hi Hr) as [Hi' Hsealed].
  destruct (seal_succeeds (ios i) s d r w (Hios i) Hq Hi Hlt Hr) as [Hok Hq'].
  destruct (seal (ios i) s d w) as [[[]|err] w1]; [|done]. cbn [fst snd] in *.
  destruct Hsealed as [Hw1|[? _]]; [|done]. pose proof (highWater_snoc _ _ _ _ Hw1 Hlt) as Hhw.
  intros Hloop. destruct (IH (S i) s (S n) w1 rest last' n' w') as (? & -> & ? & Hor);
    [by rewrite Hhw|done|done|done|].
  split_and!; [done|simpl; lia|done|]. right. destruct Hor as [(-> & -> & ->)|?]; [by rewrite Hhw|done].
Qed.

Lemma healthy_tick batch io b w h :
  pipeline_inv b w h -> quiet w -> (forall i, healthy_io (Sealer.ti_seal io i)) ->
  Sealer.ti_highWater io = false -> Sealer.ti_drain io = false -> Sealer.ti_delete io = false ->
  let '(r, (b', w')) := Sealer.Tick seal highWater batch io (b, w) in
  let n := Nat.min batch (length (unsealed (highWater w) (Buffer.db b))) in
  r = Ok n /\ quiet w' /\ Buffer.db b' = drop n (unsealed (highWater w) (Buffer.db b)) /\
  unsealed (highWater w') (Buffer.db b') = Buffer.db b'.
Proof.
  intros [Hsink Honce Hsorted Hkeys Hseq Hhist] Hq Hio Hf1 Hf2 Hf3. pose proof (highWater_nonneg w) as H0.
  unfold Sealer.Tick. rewrite Hf1, Hf2, Hf3. rewrite Drain_unsealed by lia.
  destruct (Sealer.sealLoop _ _ _ _ _ _ _) as [[last n] w'] eqn:El. pose proof El as El'.
  assert (Hdec : Forall (fun e : Z * D => is_Some (decode e.2)) (Buffer.db b))
    by (by eapply Forall_impl; [exact Hkeys|]; intros ? []).
  apply (sealLoop_spec (Buffer.db b)) with (rest := drop batch (unsealed (highWater w) (Buffer.db b))) in El'
    as (_ & _ & _ & Hmono & _ & Hmax); [|done|done|by rewrite take_drop|done|done|done].
  apply (sealLoop_healthy (Buffer.db b)) with (rest := drop batch (unsealed (highWater w) (Buffer.db b))) in El
    as (Hq' & -> & Hrest & Hor); [|done|done|done|by rewrite take_drop|done|done].
  cbn [negb]. rewrite andb_true_r, length_take.
  set (c := if (highWater w <? last)%Z then last else highWater w).
  assert (Hc : c = highWater w').
  { unfold c. destruct Hor as [(_ & -> & ->)| ->].
    - by destruct (Z.ltb_spec (highWater w) 0); [lia|].
    - destruct (Z.ltb_spec (highWater w) (highWater w')); [done|lia]. }
  assert (Hub : (highWater w' < maxSeq)%Z).
  { destruct Hmax as [->|(e & He & ->)]; [lia|]. rewrite Forall_forall in Hkeys.
    destruct (Hkeys e He) as [? _]. lia. }
  assert (Hb' : Buffer.db (if (0 <? c)%Z then Buffer.DeleteThrough c b else b) =
                drop batch (unsealed (highWater w) (Buffer.db b))).
  { rewrite <- Hrest, Hc. destruct (Z.ltb_spec 0 (highWater w')) as [Hpos|Hz]; simpl.
    - unfold unsealed. apply filter_iff_elem. intros e He.
      rewrite Forall_forall in Hkeys. destruct (Hkeys e He) as [? _].
      rewrite w64_small by (unfold two64, maxSeq in *; lia). lia.
    - symmetry. apply filter_all. rewrite Forall_forall in Hkeys |- *. intros e He.
      destruct (Hkeys e He) as [? _]. lia. }
  split_and!; [done|done| |].
  - rewrite Hb'. destruct (le_lt_dec batch (length (unsealed (highWater w) (Buffer.db b)))).
    + by rewrite Nat.min_l.
    + rewrite Nat.min_r, drop_all by lia. apply drop_ge. lia.
  - rewrite Hb', <- Hrest. apply filter_all, Forall_forall. intros e He.
    by apply list_elem_of_filter in He as [? _].
Qed.
End Healthy.
End Pipeline.

(** ** The access-log chain as the sink *)
Section AccessSink.
Context {D : Type} (Unmarshal : D -> option AccessLogRecord) (cn : string).

(** [sealFn] of the server: a record that does not decode is skipped. *)
Definition sealFn (io : write_io) (s : Z) (data : D) : stM (string * AuditDb) unit :=
  fun w =>
  match Unmarshal data with
  | None => (Ok tt, w)
  | Some rec =>
      let '(r, w) := SealBufferedAccessLog io rec s cn w in
      (match r with Ok _ => Ok tt | Err e => Err e end, w)
  end.

Definition highWater (w : string * AuditDb) : Z := GetMaxAccessLogBufferSeq cn w.2.

(** The record a row was sealed from. *)
Definition recordOf (r : AccessRow) : AccessLogRecord := {|
  lr_ExternalID := ar_external_id r; lr_Method := ar_method r; lr_StatusCode := ar_status_code r;
  lr_IPAddress := ar_ip_address r; lr_CorrelationID := default "" (ar_correlation_id r);
  lr_Params := ar_request_params r; lr_ResponseStatus := ar_response_status r;
  lr_OrgID := default "" (ar_org_id r); lr_DenialReason := default "" (ar_denial_reason r) |}.

Definition sealedRow (r : AccessRow) : option (Z * AccessLogRecord) :=
  (fun s => (s, recordOf r)) <$> ar_buffer_seq r.

Definition sealed (w : string * AuditDb) : list (Z * AccessLogRecord) :=
  omap sealedRow (chainRows cn w.2).

(** The sequence is above every row. *)
Definition ids_below (w : string * AuditDb) : Prop :=
  forall r, r ∈ db_access_logs w.2 -> (ar_id r < db_access_seq w.2)%Z.

Lemma sealed_seqs (l : list AccessRow) : fst <$> omap sealedRow l = omap ar_buffer_seq l.
Proof.
  induction l as [|r l IH]; [done|].
  change (omap sealedRow (r :: l)) with
    (match sealedRow r with Some x => x :: omap sealedRow l | None => omap sealedRow l end).
  change (omap ar_buffer_seq (r :: l)) with
    (match ar_buffer_seq r with Some x => x :: omap ar_buffer_seq l | None => omap ar_buffer_seq l end).
  unfold sealedRow at 1. destruct (ar_buffer_seq r); [exact (f_equal (cons _) IH)|exact IH].
Qed.

Lemma recordOf_accessRow rec id t h s : recordOf (accessRow rec id t h s cn) = rec.
Proof. unfold recordOf. simpl. rewrite !nullableText_default. by destruct rec. Qed.

Lemma Append_row io rec s head d :
  let '(r, (_, d')) := Append (buildAccess io rec (Some s) cn) (head, d) in
  (is_ok r = false /\ db_access_logs d' = db_access_logs d /\ (db_access_seq d <= db_access_seq d')%Z) \/
  exists t h, db_access_seq d' = (db_access_seq d + 1)%Z /\
    db_access_logs d' = insert_access (accessRow rec (db_access_seq d) t h (Some s) cn) (db_access_logs d).
Proof.
  unfold Append, buildAccess. destruct (io_nextval io); simpl; [|left; split_and!; [done..|lia]].
  unfold insertAccess, mbind, stM_bind, get. simpl.
  destruct (access_conflict _ _); simpl; [left; split_and!; [done..|lia]|].
  destruct (io_insert io); simpl; [right|left; split_and!; [done..|lia]|right];
    by exists (io_now io / 1000)%Z; eexists.
Qed.

#[export] Instance AccessSink : SealSink Unmarshal sealFn highWater sealed ids_below.
Proof.
  split.
  - intros w. unfold highWater, sealed, GetMaxAccessLogBufferSeq. rewrite sealed_seqs.
    destruct (omap _ _) as [|x l]; [done|]. simpl. induction l; simpl; lia.
  - intros io s data rec [head d] Hids Hdec. unfold sealFn. rewrite Hdec. unfold SealBufferedAccessLog.
    pose proof (Append_row io rec s head d) as Ha.
    destruct (Append _ _) as [r [head' d']]. cbn [fst snd].
    destruct Ha as [(Hr & Hl & Hq)|(t & h & Hq & Hl)].
    + split.
      * intros x. unfold ids_below. simpl. rewrite Hl. intros Hx. specialize (Hids x Hx). simpl in Hids. lia.
      * right. split; [by destruct r|]. unfold sealed, chainRows. simpl. by rewrite Hl.
    + rewrite insert_access_last in Hl by (intros x Hx; exact (Hids x Hx)).
      split.
      * intros x. simpl. rewrite Hl, elem_of_app, list_elem_of_singleton, Hq.
        intros [Hx| ->]; [specialize (Hids x Hx); simpl in Hids|simpl]; lia.
      * left. unfold sealed. simpl. rewrite (chainRows_snoc cn _ _ _ Hl).
        rewrite decide_True by done. rewrite omap_app. f_equal.
        simpl. by rewrite recordOf_accessRow.
Qed.

(** The same sink when no acknowledgement is lost: the chain stays verifiable. *)
Definition acknowledged : Type := { io : write_io | io_insert io <> InsertLost }.
Definition sealAcknowledged (io : acknowledged) : Z -> D -> stM (string * AuditDb) unit := sealFn (`io).
Definition linked (w : string * AuditDb) : Prop := chain_inv cn w.1 w.2.

#[export] Instance ChainSink : SealSink Unmarshal sealAcknowledged highWater sealed linked.
Proof.
  split; [apply sink_highWater|]. intros [io Hio] s data rec [head d] Hinv Hdec.
  destruct (sink_sealed io s data rec (head, d) (ci_seq _ _ _ Hinv) Hdec) as [_ Hs].
  split; [|exact Hs]. pose proof (chain_inv_own cn head d io rec (Some s) Hinv Hio) as Ho.
  unfold sealAcknowledged, sealFn. cbn [proj1_sig]. rewrite Hdec. unfold SealBufferedAccessLog.
  by destruct (Append _ _) as [r [head' d']].
Qed.

(** A table with no other chain takes every new sequence number. *)
Definition sole (w : string * AuditDb) : Prop :=
  forall r, r ∈ db_access_logs w.2 -> ar_chain_name r = cn.
Definition healthy_write (io : write_io) : Prop := io_nextval io = true /\ io_insert io = InsertOk.

Lemma no_conflict w row :
  ids_below w -> sole w -> ar_id row = db_access_seq w.2 ->
  (forall s, ar_buffer_seq row = Some s -> (highWater w < s)%Z) ->
  access_conflict row (db_access_logs w.2) = false.
Proof.
  intros Hids Hsole Hid Hseq. apply not_true_iff_false. intros (x & Hx%list_elem_of_In & Hc)%existsb_exists.
  apply orb_true_iff in Hc as [Hc%Z.eqb_eq|Hc].
  { specialize (Hids x Hx). lia. }
  destruct (ar_buffer_seq x) as [a|] eqn:Ea, (ar_buffer_seq row) as [s|]; try done.
  apply Z.eqb_eq in Hc as ->. specialize (Hseq s eq_refl).
  pose proof (sink_highWater w) as Hhw. unfold sealed in Hhw. rewrite sealed_seqs in Hhw.
  assert (Hin : s ∈ omap ar_buffer_seq (chainRows cn w.2)).
  { apply list_elem_of_omap. exists x. split; [|done]. rewrite chainRows_sole; done. }
  pose proof (foldr_max_ge _ _ Hin). lia.
Qed.

Lemma healthy_seal io s d r w :
  healthy_write io -> sole w -> ids_below w -> (highWater w < s)%Z -> Unmarshal d = Some r ->
  is_ok (sealFn io s d w).1 = true /\ sole (sealFn io s d w).2.
Proof.
  intros [Hn Hi] Hsole Hids Hlt Hd. unfold sealFn. rewrite Hd. unfold SealBufferedAccessLog, Append, buildAccess.
  destruct w as [head db]. rewrite Hn. simpl. unfold insertAccess, mbind, stM_bind, get. simpl.
  match goal with |- context [access_conflict ?row ?l] =>
    assert (access_conflict row l = false) as ->
      by (apply (no_conflict (head, db)); [done..|]; intros ? [= <-]; exact Hlt) end.
  rewrite Hi. simpl. split; [done|]. intros x. simpl.
  rewrite insert_access_last by (intros y Hy; exact (Hids y Hy)).
  rewrite elem_of_app, list_elem_of_singleton. intros [Hx| ->]; [exact (Hsole x Hx)|done].
Qed.
End AccessSink.

(** C31: for one instance whose appends run one at a time and not during a tick,
    and whose chain is never pruned: whatever the outcome of the seals (refused,
    or applied with the acknowledgement lost), of the reads and of the
    clean-ups, and across restarts that recover a sequence not below the
    high-water mark, the sealed entries followed by the buffered ones above the
    high-water mark are exactly the entries whose append succeeded, in their
    order, and no entry is sealed twice. Entries can be decoded and the sequence
    stays within its range. *)
Theorem sealed_once_in_order {D} (Unmarshal : D -> option AccessLogRecord) cn b w h :
  reached Unmarshal (sealFn Unmarshal cn) (highWater cn) (sealed cn) ids_below (b, w, h) ->
  StronglySorted Z.lt (fst <$> sealed cn w) /\
  readBack Unmarshal <$> h =
    (found <$> sealed cn w) ++ (readBack Unmarshal <$> unsealed (highWater cn w) (Buffer.db b)).
Proof. intros [_ Honce _ _ _ Hhist]%reached_inv; [done|apply _]. Qed.

(** with no acknowledgement lost, the chain the sealer builds is accepted
    by the verifier, its tail is the sealer's head, and a restart seeds the
    same head. *)
Theorem sealed_chain_verifies {D} (Unmarshal : D -> option AccessLogRecord) cn b w h :
  reached Unmarshal (sealAcknowledged Unmarshal cn) (highWater cn) (sealed cn) (linked cn) (b, w, h) ->
  exists r, verifyOneAccessLogChain healthy cn w.2 = (Some r, None) /\
    vr_OK r = true /\ vr_TailHash r = w.1 /\ GetLatestAccessLogHashForChain cn w.2 = w.1.
Proof. intros [Hsink _ _ _ _ _]%reached_inv; [|apply _]. by apply chain_inv_verifies. Qed.

(** Ticks one after the other. *)
Fixpoint ticks {D W IO} (seal : IO -> Z -> D -> stM W unit) (hw : W -> Z) (batch : nat)
    (ios : list (Sealer.tick_io IO)) (s : Buffer.t D * W) : Buffer.t D * W :=
  match ios with
  | [] => s
  | io :: ios => ticks seal hw batch ios (Sealer.Tick seal hw batch io s).2
  end.

Definition healthy_tick_io (io : Sealer.tick_io write_io) : Prop :=
  Sealer.ti_highWater io = false /\ Sealer.ti_drain io = false /\ Sealer.ti_delete io = false /\
  forall i, healthy_write (Sealer.ti_seal io i).

Lemma ticks_drain {D} (Unmarshal : D -> option AccessLogRecord) cn batch ios b w h :
  pipeline_inv Unmarshal (highWater cn) (sealed cn) ids_below b w h -> sole cn w ->
  0 < batch -> Forall healthy_tick_io ios ->
  length (unsealed (highWater cn w) (Buffer.db b)) <= length ios * batch -> ios <> [] ->
  Buffer.db (ticks (sealFn Unmarshal cn) (highWater cn) batch ios (b, w)).1 = [].
Proof.
  intros Hinv Hsole Hb Hios. revert b w Hinv Hsole. induction Hios as [|io ios (Hf1 & Hf2 & Hf3 & Hio) Hios IH];
    intros b w Hinv Hsole Hlen Hne; [done|]. cbn [ticks].
  pose proof (pipeline_inv_tick Unmarshal (sealFn Unmarshal cn) (highWater cn) (sealed cn) ids_below
    batch io b w h Hinv) as Hinv'.
  pose proof (healthy_tick Unmarshal (sealFn Unmarshal cn) (highWater cn) (sealed cn) ids_below (sole cn)
    healthy_write (healthy_seal Unmarshal cn) batch io b w h Hinv Hsole Hio Hf1 Hf2 Hf3) as Ht.
  destruct (Sealer.Tick _ _ _ _ _) as [r [b' w']]. cbn [snd].
  destruct Ht as (_ & Hsole' & Hdb & Hun).
  assert (Hl : length (Buffer.db b') = length (unsealed (highWater cn w) (Buffer.db b)) -
     Nat.min batch (length (unsealed (highWater cn w) (Buffer.db b)))) by by rewrite Hdb, length_drop.
  simpl in Hlen. destruct ios as [|io' ios].
  - simpl. apply length_zero_iff_nil. simpl in Hlen. lia.
  - apply IH; [done|done|rewrite Hun, Hl; simpl in *; lia|done].
Qed.

(** from every state the pipeline can reach, if the chain has the table to
    itself, ticks that meet no failure empty the buffer: as many as it takes
    batches to hold what is buffered. *)
Theorem buffer_drains {D} (Unmarshal : D -> option AccessLogRecord) cn batch ios b w h :
  reached Unmarshal (sealFn Unmarshal cn) (highWater cn) (sealed cn) ids_below (b, w, h) ->
  sole cn w -> 0 < batch -> Forall healthy_tick_io ios -> ios <> [] ->
  Buffer.PendingCount b <= length ios * batch ->
  Buffer.PendingCount (ticks (sealFn Unmarshal cn) (highWater cn) batch ios (b, w)).1 = 0.
Proof.
  intros Hr%reached_inv; [|apply _]. intros Hsole Hb Hios Hne Hlen. unfold Buffer.PendingCount in *.
  erewrite ticks_drain; try done. unfold unsealed.
  etrans; [apply length_filter|done].
Qed.
