(* ===== verification/JsonText.v ===== *)
(** * JSON texts and [encoding/json] on them.

    A JSON text is the rendering of a concrete syntax tree [value] that keeps
    the whitespace, the escapes and the number literals of the source.
    [parseText] is the recognizer of [json.Valid] (with its nesting limit): what
    it accepts is a rendering, and every rendering is accepted.  [decodeAny] is
    [json.Unmarshal] into [any]. *)
From S2P Require Import Prelude GoStrings Models.
From Stdlib Require Import Ascii.

Notation bytes := (list ascii).

Definition dquote : ascii := byte 34.
Definition backslash : ascii := "\"%char.

(** ** Syntax *)

(** One character of a string literal: itself, a two-character escape, or a
    four-digit escape. *)
Inductive schar := Plain (a : ascii) | Esc (a : ascii) | Uni (h1 h2 h3 h4 : ascii).

Record item (V : Type) := { it_pre : bytes; it_val : V; it_post : bytes }.
Record mem (V : Type) := {
  mb_pre : bytes; mb_key : list schar; mb_mid : bytes; mb_aft : bytes; mb_val : V; mb_post : bytes }.
Arguments Build_item {V}. Arguments it_pre {V}. Arguments it_val {V}. Arguments it_post {V}.
Arguments Build_mem {V}. Arguments mb_pre {V}. Arguments mb_key {V}. Arguments mb_mid {V}.
Arguments mb_aft {V}. Arguments mb_val {V}. Arguments mb_post {V}.

(** A literal or number, a string, an array, an object; the whitespace of an
    empty array or object stands beside it. *)
Inductive value :=
| Lit (tok : bytes)
| Str (s : list schar)
| Arr (ws : bytes) (l : list (item value))
| Obj (ws : bytes) (l : list (mem value)).

Section value_ind.
Variable P : value -> Prop.
Hypothesis HLit : forall tok, P (Lit tok).
Hypothesis HStr : forall s, P (Str s).
Hypothesis HArr : forall ws l, Forall (fun it => P (it_val it)) l -> P (Arr ws l).
Hypothesis HObj : forall ws l, Forall (fun m => P (mb_val m)) l -> P (Obj ws l).

Fixpoint value_nested_ind (v : value) : P v :=
  match v with
  | Lit tok => HLit tok
  | Str s => HStr s
  | Arr ws l => HArr ws l ((fix go l : Forall (fun it => P (it_val it)) l :=
      match l with [] => @List.Forall_nil _ _ | it :: l => @List.Forall_cons _ _ it l (value_nested_ind (it_val it)) (go l) end) l)
  | Obj ws l => HObj ws l ((fix go l : Forall (fun m => P (mb_val m)) l :=
      match l with [] => @List.Forall_nil _ _ | m :: l => @List.Forall_cons _ _ m l (value_nested_ind (mb_val m)) (go l) end) l)
  end.
End value_ind.

(** ** Rendering *)
Definition renderChar (c : schar) : bytes :=
  match c with
  | Plain a => [a]
  | Esc a => [backslash; a]
  | Uni h1 h2 h3 h4 => [backslash; "u"%char; h1; h2; h3; h4]
  end.
Definition renderChars (s : list schar) : bytes := concat (map renderChar s).
Definition renderStr (s : list schar) : bytes := dquote :: renderChars s ++ [dquote].

Definition joinComma (l : list bytes) : bytes :=
  match l with [] => [] | x :: l => x ++ concat (map (cons ","%char) l) end.

Fixpoint render (v : value) : bytes :=
  match v with
  | Lit tok => tok
  | Str s => renderStr s
  | Arr ws l => "["%char :: ws ++ joinComma (map (fun it => it_pre it ++ render (it_val it) ++ it_post it) l) ++ ["]"%char]
  | Obj ws l => "{"%char :: ws ++ joinComma (map (fun m =>
      mb_pre m ++ renderStr (mb_key m) ++ mb_mid m ++ ":"%char :: mb_aft m ++ render (mb_val m) ++ mb_post m) l)
      ++ ["}"%char]
  end.

Definition renderItem (it : item value) : bytes := it_pre it ++ render (it_val it) ++ it_post it.
Definition renderMem (m : mem value) : bytes :=
  mb_pre m ++ renderStr (mb_key m) ++ mb_mid m ++ ":"%char :: mb_aft m ++ render (mb_val m) ++ mb_post m.

(** ** Tokens *)
Definition is_space (a : ascii) : bool :=
  Ascii.eqb a " " || Ascii.eqb a (byte 9) || Ascii.eqb a (byte 13) || Ascii.eqb a (byte 10).
Definition is_digit (a : ascii) : bool := ((48 <=? N_of_ascii a) && (N_of_ascii a <=? 57))%N.

(** Bytes of numbers and of the three literals. *)
Definition lit_char (a : ascii) : bool :=
  is_digit a || ((97 <=? N_of_ascii a) && (N_of_ascii a <=? 122))%N || Ascii.eqb a "E" ||
  Ascii.eqb a "+" || Ascii.eqb a "-" || Ascii.eqb a ".".

Fixpoint span (p : ascii -> bool) (b : bytes) : bytes * bytes :=
  match b with
  | a :: r => if p a then let '(x, y) := span p r in (a :: x, y) else ([], b)
  | [] => ([], [])
  end.

(** A JSON number: sign, integer part, fraction, exponent. *)
Record number := { nm_neg : bool; nm_int : bytes; nm_frac : bytes; nm_exp : option (bool * bytes) }.

Definition parseNumber (tok : bytes) : option number :=
  let '(neg, b) := match tok with "-"%char :: b => (true, b) | _ => (false, tok) end in
  let '(i, b) := span is_digit b in
  if decide (i = [] \/ (head i = Some "0"%char /\ i <> ["0"%char])) then None
  else
    '(f, b) ← match b with
              | "."%char :: b => let '(f, b) := span is_digit b in
                                 if decide (f = []) then None else Some (f, b)
              | _ => Some ([], b)
              end;
    match b with
    | [] => Some {| nm_neg := neg; nm_int := i; nm_frac := f; nm_exp := None |}
    | e :: b =>
        if negb (Ascii.eqb e "e" || Ascii.eqb e "E") then None
        else
          let '(eneg, b) := match b with
            | "-"%char :: b => (true, b) | "+"%char :: b => (false, b) | _ => (false, b) end in
          if decide (b = [] \/ forallb is_digit b = false) then None
          else Some {| nm_neg := neg; nm_int := i; nm_frac := f; nm_exp := Some (eneg, b) |}
    end.

Definition tokTrue : bytes := ["t"; "r"; "u"; "e"]%char.
Definition tokFalse : bytes := ["f"; "a"; "l"; "s"; "e"]%char.
Definition tokNull : bytes := ["n"; "u"; "l"; "l"]%char.

Definition lit_ok (tok : bytes) : bool :=
  forallb lit_char tok &&
  (bool_decide (tok = tokTrue \/ tok = tokFalse \/ tok = tokNull) ||
   bool_decide (is_Some (parseNumber tok))).

Definition plain_ok (a : ascii) : bool :=
  (32 <=? N_of_ascii a)%N && negb (Ascii.eqb a dquote) && negb (Ascii.eqb a backslash).
Definition esc_ok (a : ascii) : bool :=
  existsb (Ascii.eqb a) [dquote; backslash; "/"; "b"; "f"; "n"; "r"; "t"]%char.
Definition is_hex (a : ascii) : bool := bool_decide (is_Some (hex_val a)).
Definition schar_ok (c : schar) : bool :=
  match c with
  | Plain a => plain_ok a
  | Esc a => esc_ok a
  | Uni h1 h2 h3 h4 => is_hex h1 && is_hex h2 && is_hex h3 && is_hex h4
  end.
Definition str_ok (s : list schar) : bool := forallb schar_ok s.
Definition ws_ok (ws : bytes) : bool := forallb is_space ws.

(** Well-formed trees. *)
Fixpoint value_ok (v : value) : bool :=
  match v with
  | Lit tok => lit_ok tok
  | Str s => str_ok s
  | Arr ws l => ws_ok ws && (bool_decide (l = []) || bool_decide (ws = [])) &&
      forallb (fun it => ws_ok (it_pre it) && value_ok (it_val it) && ws_ok (it_post it)) l
  | Obj ws l => ws_ok ws && (bool_decide (l = []) || bool_decide (ws = [])) &&
      forallb (fun m => ws_ok (mb_pre m) && str_ok (mb_key m) && ws_ok (mb_mid m) && ws_ok (mb_aft m) &&
                        value_ok (mb_val m) && ws_ok (mb_post m)) l
  end.

Definition max_depth (l : list nat) : nat := foldr Nat.max 0 l.

Fixpoint depth (v : value) : nat :=
  match v with
  | Lit _ | Str _ => 0
  | Arr _ l => S (max_depth (map (fun it => depth (it_val it)) l))
  | Obj _ l => S (max_depth (map (fun m => depth (mb_val m)) l))
  end.

(** ** The recognizer *)

(** After the opening quote; the closing quote is consumed. *)
Fixpoint pstring (b : bytes) : option (list schar * bytes) :=
  match b with
  | [] => None
  | a :: r =>
      if Ascii.eqb a dquote then Some ([], r)
      else if Ascii.eqb a backslash then
        match r with
        | [] => None
        | e :: r =>
            if Ascii.eqb e "u" then
              match r with
              | h1 :: h2 :: h3 :: h4 :: r =>
                  if schar_ok (Uni h1 h2 h3 h4)
                  then '(s, r) ← pstring r; Some (Uni h1 h2 h3 h4 :: s, r)
                  else None
              | _ => None
              end
            else if esc_ok e then '(s, r) ← pstring r; Some (Esc e :: s, r) else None
        end
      else if plain_ok a then '(s, r) ← pstring r; Some (Plain a :: s, r) else None
  end.

(** The given byte, then the rest. *)
Definition eat (c : ascii) (b : bytes) : option bytes :=
  match b with a :: r => if Ascii.eqb a c then Some r else None | [] => None end.

Fixpoint pvalue (fuel depth : nat) (b : bytes) {struct fuel} : option (value * bytes) :=
  match fuel with
  | O => None
  | S fuel =>
      match b with
      | [] => None
      | a :: r =>
          if Ascii.eqb a dquote then '(s, r) ← pstring r; Some (Str s, r)
          else if Ascii.eqb a "[" then
            match depth with
            | O => None
            | S depth =>
                let '(ws, r') := span is_space r in
                match eat "]" r' with
                | Some r => Some (Arr ws [], r)
                | None => '(l, r) ← pitems fuel depth r; Some (Arr [] l, r)
                end
            end
          else if Ascii.eqb a "{" then
            match depth with
            | O => None
            | S depth =>
                let '(ws, r') := span is_space r in
                match eat "}" r' with
                | Some r => Some (Obj ws [], r)
                | None => '(l, r) ← pmembers fuel depth r; Some (Obj [] l, r)
                end
            end
          else let '(tok, r) := span lit_char b in if lit_ok tok then Some (Lit tok, r) else None
      end
  end
with pitems (fuel depth : nat) (b : bytes) {struct fuel} : option (list (item value) * bytes) :=
  match fuel with
  | O => None
  | S fuel =>
      let '(ws1, r) := span is_space b in
      '(v, r) ← pvalue fuel depth r;
      let '(ws2, r) := span is_space r in
      match eat "," r with
      | Some r => '(l, r) ← pitems fuel depth r; Some (Build_item ws1 v ws2 :: l, r)
      | None => r ← eat "]" r; Some ([Build_item ws1 v ws2], r)
      end
  end
with pmembers (fuel depth : nat) (b : bytes) {struct fuel} : option (list (mem value) * bytes) :=
  match fuel with
  | O => None
  | S fuel =>
      let '(ws1, r) := span is_space b in
      r ← eat dquote r;
      '(k, r) ← pstring r;
      let '(ws2, r) := span is_space r in
      r ← eat ":" r;
      let '(ws3, r) := span is_space r in
      '(v, r) ← pvalue fuel depth r;
      let '(ws4, r) := span is_space r in
      match eat "," r with
      | Some r => '(l, r) ← pmembers fuel depth r; Some (Build_mem ws1 k ws2 ws3 v ws4 :: l, r)
      | None => r ← eat "}" r; Some ([Build_mem ws1 k ws2 ws3 v ws4], r)
      end
  end.

(** [maxNestingDepth] of [encoding/json]. *)
Definition maxNesting : N := 10000.

(** A text: a value between whitespace. *)
Definition renderText (t : item value) : bytes := renderItem t.

Definition parseText (b : bytes) : option (item value) :=
  let '(ws1, r) := span is_space b in
  '(v, r) ← pvalue (S (length b)) (N.to_nat maxNesting) r;
  let '(ws2, r) := span is_space r in
  match r with [] => Some (Build_item ws1 v ws2) | _ => None end.

Definition text_ok (t : item value) : bool :=
  ws_ok (it_pre t) && value_ok (it_val t) && ws_ok (it_post t) &&
  (N.of_nat (depth (it_val t)) <=? maxNesting)%N.

(** ** What is accepted is a rendering *)
Lemma span_inv p b x y :
  span p b = (x, y) -> b = x ++ y /\ forallb p x = true /\ forall a r, y = a :: r -> p a = false.
Proof.
  revert x y. induction b as [|a b IH]; intros x y; simpl.
  { intros [= <- <-]. split_and!; naive_solver. }
  destruct (p a) eqn:Ea.
  - destruct (span p b) as [x' y'] eqn:Es. intros [= <- <-].
    destruct (IH x' y' eq_refl) as (-> & Hf & Hy). simpl. rewrite Ea. naive_solver.
  - intros [= <- <-]. split_and!; naive_solver.
Qed.

Lemma span_run p x y :
  forallb p x = true -> (forall a r, y = a :: r -> p a = false) -> span p (x ++ y) = (x, y).
Proof.
  induction x as [|a x IH]; simpl.
  - intros _ Hy. destruct y as [|a y]; [done|]. simpl. by rewrite (Hy a y eq_refl).
  - intros [-> Hx]%andb_true_iff Hy. by rewrite IH.
Qed.

Lemma eat_inv c b r : eat c b = Some r -> b = c :: r.
Proof. destruct b as [|a b]; simpl; [done|]. destruct (Ascii.eqb_spec a c); naive_solver. Qed.

Lemma eat_same c r : eat c (c :: r) = Some r.
Proof. simpl. by rewrite Ascii.eqb_refl. Qed.

Lemma pstring_inv b s r : pstring b = Some (s, r) -> b = renderChars s ++ dquote :: r /\ str_ok s = true.
Proof.
  remember (length b) as n eqn:En. revert b s r En. induction (lt_wf n) as [n _ IH].
  intros b s r ->. destruct b as [|a b]; [done|]. cbn [pstring].
  destruct (Ascii.eqb_spec a dquote) as [->|Hd]; [by intros [= <- <-]|].
  destruct (Ascii.eqb_spec a backslash) as [->|Hb].
  - destruct b as [|e b]; [done|]. destruct (Ascii.eqb_spec e "u") as [->|Hu].
    + destruct b as [|h1 [|h2 [|h3 [|h4 b]]]]; try done.
      destruct (schar_ok (Uni h1 h2 h3 h4)) eqn:Eok; [|done].
      intros ([s' r'] & Hp & [= <- <-])%bind_Some. apply (IH (length b)) in Hp as [-> Hs]; [|simpl; lia|done].
      split; [done|]. unfold str_ok in *. cbn [forallb]. by rewrite Eok.
    + destruct (esc_ok e) eqn:Ee; [|done]. intros ([s' r'] & Hp & [= <- <-])%bind_Some.
      apply (IH (length b)) in Hp as [-> Hs]; [|simpl; lia|done].
      split; [done|]. unfold str_ok in *. cbn [forallb schar_ok]. by rewrite Ee.
  - destruct (plain_ok a) eqn:Ep; [|done]. intros ([s' r'] & Hp & [= <- <-])%bind_Some.
    apply (IH (length b)) in Hp as [-> Hs]; [|simpl; lia|done].
    split; [done|]. unfold str_ok in *. cbn [forallb schar_ok]. by rewrite Ep.
Qed.

Definition item_ok (it : item value) : bool := ws_ok (it_pre it) && value_ok (it_val it) && ws_ok (it_post it).
Definition mem_ok (m : mem value) : bool :=
  ws_ok (mb_pre m) && str_ok (mb_key m) && ws_ok (mb_mid m) && ws_ok (mb_aft m) &&
  value_ok (mb_val m) && ws_ok (mb_post m).

Lemma joinComma_cons2 x y l : joinComma (x :: y :: l) = x ++ ","%char :: joinComma (y :: l).
Proof. simpl. by rewrite app_comm_cons, app_assoc. Qed.

Lemma render_Arr ws l : render (Arr ws l) = "["%char :: ws ++ joinComma (map renderItem l) ++ ["]"%char].
Proof. done. Qed.
Lemma render_Obj ws l : render (Obj ws l) = "{"%char :: ws ++ joinComma (map renderMem l) ++ ["}"%char].
Proof. done. Qed.

Definition parse_sound_at (fuel : nat) : Prop :=
  (forall d b v r, pvalue fuel d b = Some (v, r) ->
     b = render v ++ r /\ value_ok v = true /\ depth v <= d) /\
  (forall d b l r, pitems fuel d b = Some (l, r) ->
     l <> [] /\ b = joinComma (map renderItem l) ++ "]"%char :: r /\ forallb item_ok l = true /\
     max_depth (map (fun it => depth (it_val it)) l) <= d) /\
  (forall d b l r, pmembers fuel d b = Some (l, r) ->
     l <> [] /\ b = joinComma (map renderMem l) ++ "}"%char :: r /\ forallb mem_ok l = true /\
     max_depth (map (fun m => depth (mb_val m)) l) <= d).

Lemma pvalue_sound fuel d b v r : parse_sound_at fuel ->
  pvalue (S fuel) d b = Some (v, r) -> b = render v ++ r /\ value_ok v = true /\ depth v <= d.
Proof.
  intros (_ & Hi & Hm). cbn [pvalue]. destruct b as [|a b]; [done|].
  destruct (Ascii.eqb_spec a dquote) as [->|_].
  { intros ([s r'] & Hs & [= <- <-])%bind_Some. apply pstring_inv in Hs as [-> Hs].
    split_and!; [|done|simpl; lia]. simpl. unfold renderStr. simpl. by rewrite <- app_assoc. }
  destruct (Ascii.eqb_spec a "[") as [->|_].
  { destruct d as [|d]; [done|]. destruct (span is_space b) as [ws r'] eqn:Es.
    apply span_inv in Es as (-> & Hws & _). destruct (eat "]" r') as [r''|] eqn:Ee.
    - intros [= <- <-]. apply eat_inv in Ee as ->. rewrite render_Arr. split_and!; [|simpl|simpl; lia].
      + simpl. by rewrite <- !app_assoc.
      + unfold ws_ok. by rewrite Hws.
    - intros ([l r''] & Hl & [= <- <-])%bind_Some. apply Hi in Hl as (Hne & -> & Hok & Hd).
      rewrite render_Arr. split_and!; [simpl; by rewrite <- app_assoc|simpl|simpl; lia].
      rewrite orb_true_r. exact Hok. }
  destruct (Ascii.eqb_spec a "{") as [->|_].
  { destruct d as [|d]; [done|]. destruct (span is_space b) as [ws r'] eqn:Es.
    apply span_inv in Es as (-> & Hws & _). destruct (eat "}" r') as [r''|] eqn:Ee.
    - intros [= <- <-]. apply eat_inv in Ee as ->. rewrite render_Obj. split_and!; [|simpl|simpl; lia].
      + simpl. by rewrite <- !app_assoc.
      + unfold ws_ok. by rewrite Hws.
    - intros ([l r''] & Hl & [= <- <-])%bind_Some. apply Hm in Hl as (Hne & -> & Hok & Hd).
      rewrite render_Obj. split_and!; [simpl; by rewrite <- app_assoc|simpl|simpl; lia].
      rewrite orb_true_r. exact Hok. }
  destruct (span lit_char (a :: b)) as [tok r'] eqn:Es. apply span_inv in Es as (-> & _ & _).
  destruct (lit_ok tok) eqn:El; [|done]. intros [= <- <-]. split_and!; [done|done|simpl; lia].
Qed.

Lemma pitems_sound fuel d b l r : parse_sound_at fuel ->
  pitems (S fuel) d b = Some (l, r) ->
  l <> [] /\ b = joinComma (map renderItem l) ++ "]"%char :: r /\ forallb item_ok l = true /\
  max_depth (map (fun it => depth (it_val it)) l) <= d.
Proof.
  intros (Hv & Hi & _). cbn [pitems]. destruct (span is_space b) as [ws1 r1] eqn:E1.
  apply span_inv in E1 as (-> & Hw1 & _). intros ([v r2] & Hp & H)%bind_Some.
  apply Hv in Hp as (-> & Hok & Hd). destruct (span is_space r2) as [ws2 r3] eqn:E2.
  apply span_inv in E2 as (-> & Hw2 & _). destruct (eat "," r3) as [r4|] eqn:Ec.
  - apply eat_inv in Ec as ->. apply bind_Some in H as ([l' r5] & Hl & [= <- <-]).
    apply Hi in Hl as (Hne & -> & Hf & Hd'). destruct l' as [|x l']; [done|]. split_and!; [done| | |].
    + cbn [map]. rewrite joinComma_cons2.
      change (renderItem (Build_item ws1 v ws2)) with (ws1 ++ render v ++ ws2).
      rewrite <- !app_assoc. reflexivity.
    + cbn [forallb] in *. rewrite Hf, andb_true_r. unfold item_ok, ws_ok. cbn [it_pre it_val it_post].
      by rewrite Hw1, Hok, Hw2.
    + cbn [map max_depth foldr it_val] in *. lia.
  - apply bind_Some in H as (r4 & Ee & [= <- <-]). apply eat_inv in Ee as ->. split_and!; [done| | |].
    + simpl. unfold renderItem. cbn [it_pre it_val it_post]. by rewrite app_nil_r, <- !app_assoc.
    + simpl. unfold item_ok, ws_ok. cbn [it_pre it_val it_post]. by rewrite Hw1, Hok, Hw2.
    + simpl. lia.
Qed.

Lemma pmembers_sound fuel d b l r : parse_sound_at fuel ->
  pmembers (S fuel) d b = Some (l, r) ->
  l <> [] /\ b = joinComma (map renderMem l) ++ "}"%char :: r /\ forallb mem_ok l = true /\
  max_depth (map (fun m => depth (mb_val m)) l) <= d.
Proof.
  intros (Hv & _ & Hm). cbn [pmembers]. destruct (span is_space b) as [ws1 r1] eqn:E1.
  apply span_inv in E1 as (-> & Hw1 & _). intros (r2 & Eq & H)%bind_Some. apply eat_inv in Eq as ->.
  apply bind_Some in H as ([k r3] & Hk & H). apply pstring_inv in Hk as [-> Hk].
  destruct (span is_space r3) as [ws2 r4] eqn:E2. apply span_inv in E2 as (-> & Hw2 & _).
  apply bind_Some in H as (r5 & Ec & H). apply eat_inv in Ec as ->.
  destruct (span is_space r5) as [ws3 r6] eqn:E3. apply span_inv in E3 as (-> & Hw3 & _).
  apply bind_Some in H as ([v r7] & Hp & H). apply Hv in Hp as (-> & Hok & Hd).
  destruct (span is_space r7) as [ws4 r8] eqn:E4. apply span_inv in E4 as (-> & Hw4 & _).
  assert (Hmok : mem_ok (Build_mem ws1 k ws2 ws3 v ws4) = true).
  { unfold mem_ok, ws_ok. cbn [mb_pre mb_key mb_mid mb_aft mb_val mb_post].
    by rewrite Hw1, Hk, Hw2, Hw3, Hok, Hw4. }
  assert (Hr : forall x, ws1 ++ dquote :: renderChars k ++ dquote :: ws2 ++ ":"%char :: ws3 ++ render v ++ ws4 ++ x
            = renderMem (Build_mem ws1 k ws2 ws3 v ws4) ++ x).
  { intros x. unfold renderMem, renderStr. cbn [mb_pre mb_key mb_mid mb_aft mb_val mb_post].
    repeat (rewrite <- app_assoc; simpl). done. }
  rewrite Hr. destruct (eat "," r8) as [r9|] eqn:Ec.
  - apply eat_inv in Ec as ->. apply bind_Some in H as ([l' r10] & Hl & [= <- <-]).
    apply Hm in Hl as (Hne & -> & Hf & Hd'). destruct l' as [|x l']; [done|]. split_and!; [done| | |].
    + cbn [map]. rewrite joinComma_cons2, <- !app_assoc. by simpl.
    + cbn [forallb] in *. by rewrite Hf, Hmok.
    + cbn [map max_depth foldr mb_val] in *. lia.
  - apply bind_Some in H as (r9 & Ee & [= <- <-]). apply eat_inv in Ee as ->. split_and!; [done| | |].
    + simpl. by rewrite app_nil_r.
    + cbn [forallb]. by rewrite Hmok.
    + simpl. lia.
Qed.

Lemma parse_sound fuel : parse_sound_at fuel.
Proof.
  induction fuel as [|fuel IH]; [by split_and!|].
  split_and!; intros; [by eapply pvalue_sound|by eapply pitems_sound|by eapply pmembers_sound].
Qed.

Lemma parseText_sound b t : parseText b = Some t -> b = renderText t /\ text_ok t = true.
Proof.
  unfold parseText. destruct (span is_space b) as [ws1 r] eqn:E1. apply span_inv in E1 as (Hb & Hw1 & _).
  intros ([v r1] & Hp & H)%bind_Some. apply (parse_sound _) in Hp as (-> & Hok & Hd).
  destruct (span is_space r1) as [ws2 r2] eqn:E2. apply span_inv in E2 as (-> & Hw2 & _).
  destruct r2; [|done]. injection H as <-. split.
  - by rewrite Hb, app_nil_r.
  - unfold text_ok, ws_ok. cbn [it_pre it_val it_post]. rewrite Hw1, Hok, Hw2. apply N.leb_le. lia.
Qed.

(** ** Every rendering is accepted *)
Lemma plain_ok_inv a : plain_ok a = true -> a <> dquote /\ a <> backslash.
Proof.
  unfold plain_ok. rewrite !andb_true_iff, !negb_true_iff. intros [[_ H1] H2].
  split; intros ->; by rewrite Ascii.eqb_refl in *.
Qed.

Lemma esc_ok_inv a : esc_ok a = true -> a <> "u"%char.
Proof. by intros H ->. Qed.

Lemma pstring_complete s r : str_ok s = true -> pstring (renderChars s ++ dquote :: r) = Some (s, r).
Proof.
  induction s as [|c s IH]; [done|]. unfold str_ok. cbn [forallb]. intros [Hc Hs]%andb_true_iff.
  change (renderChars (c :: s)) with (renderChar c ++ renderChars s). rewrite <- app_assoc.
  specialize (IH Hs). destruct c as [a|a|h1 h2 h3 h4]; cbn [renderChar app pstring].
  - apply plain_ok_inv in Hc as Hne. destruct Hne as [H1 H2].
    destruct (Ascii.eqb_spec a dquote); [done|]. destruct (Ascii.eqb_spec a backslash); [done|].
    cbn [schar_ok] in Hc. by rewrite Hc, IH.
  - apply esc_ok_inv in Hc as Hne. destruct (Ascii.eqb_spec backslash dquote); [done|].
    rewrite Ascii.eqb_refl. destruct (Ascii.eqb_spec a "u"); [done|].
    cbn [schar_ok] in Hc. by rewrite Hc, IH.
  - destruct (Ascii.eqb_spec backslash dquote); [done|]. rewrite Ascii.eqb_refl.
    change (Ascii.eqb "u" "u") with true. cbv iota. by rewrite Hc, IH.
Qed.

(** The byte classes do not overlap. *)
Lemma lit_char_inv a : lit_char a = true ->
  is_space a = false /\ a <> dquote /\ a <> "["%char /\ a <> "]"%char /\ a <> "{"%char /\ a <> "}"%char /\
  a <> ","%char /\ a <> ":"%char /\ a <> backslash.
Proof.
  intros H. destruct (is_space a) eqn:Es.
  { unfold is_space in Es. rewrite !orb_true_iff, !Ascii.eqb_eq in Es. by naive_solver. }
  split_and!; [done|intros ->; done..].
Qed.

Lemma is_space_inv a : is_space a = true ->
  a <> dquote /\ a <> "["%char /\ a <> "]"%char /\ a <> "{"%char /\ a <> "}"%char /\ a <> ","%char.
Proof. intros H. split_and!; intros ->; done. Qed.

Lemma lit_ok_inv tok : lit_ok tok = true -> exists a r, tok = a :: r /\ lit_char a = true /\ forallb lit_char tok = true.
Proof.
  unfold lit_ok. intros [Hl Hk]%andb_true_iff. destruct tok as [|a r]; [done|].
  exists a, r. split; [done|]. split; [|done]. simpl in Hl. by apply andb_true_iff in Hl as [? _].
Qed.

(** The first byte of a value. *)
Lemma render_head v : value_ok v = true ->
  exists a r, render v = a :: r /\ is_space a = false /\ a <> "]"%char /\ a <> "}"%char /\ a <> ","%char.
Proof.
  destruct v as [tok|s|ws l|ws l]; cbn [value_ok]; intros H.
  - apply lit_ok_inv in H as (a & r & -> & Ha & _). apply lit_char_inv in Ha. exists a, r. naive_solver.
  - exists dquote, (renderChars s ++ [dquote]). done.
  - rewrite render_Arr. by eexists _, _.
  - rewrite render_Obj. by eexists _, _.
Qed.

Definition nolit (r : bytes) : Prop := forall a r', r = a :: r' -> lit_char a = false.

Lemma nolit_cons a r : lit_char a = false -> nolit (a :: r).
Proof. by intros H ? ? [= <- <-]. Qed.

Lemma nolit_ws ws r : ws_ok ws = true -> nolit r -> nolit (ws ++ r).
Proof.
  destruct ws as [|a ws]; [done|]. intros [Ha _]%andb_true_iff _. apply nolit_cons.
  destruct (lit_char a) eqn:E; [|done]. apply lit_char_inv in E as [E _]. congruence.
Qed.

Lemma span_ws ws r : ws_ok ws = true -> (forall a r', r = a :: r' -> is_space a = false) ->
  span is_space (ws ++ r) = (ws, r).
Proof. apply span_run. Qed.

Lemma span_ws_value ws v r : ws_ok ws = true -> value_ok v = true ->
  span is_space (ws ++ render v ++ r) = (ws, render v ++ r).
Proof.
  intros Hw Hv. apply span_ws; [done|]. destruct (render_head v Hv) as (a & x & -> & Ha & _).
  by intros ? ? [= <- _].
Qed.

Lemma span_ws_byte ws a r : ws_ok ws = true -> is_space a = false -> span is_space (ws ++ a :: r) = (ws, a :: r).
Proof. intros Hw Ha. apply span_ws; [done|]. by intros ? ? [= <- _]. Qed.

Lemma eat_other c a r : a <> c -> eat c (a :: r) = None.
Proof. simpl. by destruct (Ascii.eqb_spec a c). Qed.

Definition parses (v : value) : Prop :=
  value_ok v = true -> forall fuel d r, depth v <= d -> length (render v) < fuel -> nolit r ->
  pvalue fuel d (render v ++ r) = Some (v, r).

Lemma length_joinComma_cons x l : length x <= length (joinComma (x :: l)).
Proof. simpl. rewrite length_app. lia. Qed.

Lemma pitems_complete l : Forall (fun it => parses (it_val it)) l -> l <> [] -> forallb item_ok l = true ->
  forall fuel d r, max_depth (map (fun it => depth (it_val it)) l) <= d ->
  length (joinComma (map renderItem l)) + 1 < fuel ->
  pitems fuel d (joinComma (map renderItem l) ++ "]"%char :: r) = Some (l, r).
Proof.
  induction 1 as [|[ws1 v ws2] l Hv Hl IH]; [done|]. intros _ Hok fuel d r Hd Hlen.
  cbn [forallb] in Hok. apply andb_true_iff in Hok as [Hit Hok].
  unfold item_ok in Hit. cbn [it_pre it_val it_post] in *. apply andb_true_iff in Hit as [[Hw1 Hvok]%andb_true_iff Hw2].
  cbn [map max_depth foldr it_val] in Hd. change (foldr Nat.max 0) with max_depth in Hd.
  destruct fuel as [|fuel]; [simpl in Hlen; lia|]. cbn [pitems].
  assert (Hr : renderItem (Build_item ws1 v ws2) = ws1 ++ render v ++ ws2) by done.
  cbn [map] in *. pose proof (length_joinComma_cons (renderItem (Build_item ws1 v ws2)) (map renderItem l)) as Hle.
  rewrite Hr in Hle at 1. rewrite !length_app in Hle.
  destruct l as [|it l].
  - simpl. rewrite app_nil_r, Hr, <- !app_assoc. rewrite span_ws_value by done.
    rewrite (Hv Hvok fuel d); [|lia|simpl in *; lia|by apply nolit_ws; [|apply nolit_cons]]. simpl.
    rewrite span_ws_byte by done. by rewrite eat_other, eat_same by done.
  - cbn [map] in *. rewrite joinComma_cons2 in Hlen |- *. rewrite length_app in Hlen. cbn [length] in Hlen.
    rewrite Hr in Hlen |- *. rewrite !length_app in Hlen. rewrite <- !app_assoc, <- app_comm_cons.
    rewrite span_ws_value by done.
    rewrite (Hv Hvok fuel d); [|lia|lia|by apply nolit_ws; [|apply nolit_cons]]. cbn [mbind option_bind].
    rewrite span_ws_byte by done. rewrite eat_same. rewrite (IH ltac:(done) Hok); [done|lia|lia].
Qed.

Lemma pmembers_complete l : Forall (fun m => parses (mb_val m)) l -> l <> [] -> forallb mem_ok l = true ->
  forall fuel d r, max_depth (map (fun m => depth (mb_val m)) l) <= d ->
  length (joinComma (map renderMem l)) + 1 < fuel ->
  pmembers fuel d (joinComma (map renderMem l) ++ "}"%char :: r) = Some (l, r).
Proof.
  induction 1 as [|[ws1 k ws2 ws3 v ws4] l Hv Hl IH]; [done|]. intros _ Hok fuel d r Hd Hlen.
  cbn [forallb] in Hok. apply andb_true_iff in Hok as [Hm Hok].
  unfold mem_ok in Hm. cbn [mb_pre mb_key mb_mid mb_aft mb_val mb_post] in *.
  rewrite !andb_true_iff in Hm. destruct Hm as [[[[[Hw1 Hk] Hw2] Hw3] Hvok] Hw4].
  cbn [map max_depth foldr mb_val] in Hd. change (foldr Nat.max 0) with max_depth in Hd.
  destruct fuel as [|fuel]; [simpl in Hlen; lia|]. cbn [pmembers].
  assert (Hr : forall x, renderMem (Build_mem ws1 k ws2 ws3 v ws4) ++ x =
    ws1 ++ dquote :: renderChars k ++ dquote :: ws2 ++ ":"%char :: ws3 ++ render v ++ ws4 ++ x).
  { intros x. unfold renderMem, renderStr. cbn [mb_pre mb_key mb_mid mb_aft mb_val mb_post].
    repeat (rewrite <- app_assoc; simpl). done. }
  assert (Hlv : length (render v) < length (renderMem (Build_mem ws1 k ws2 ws3 v ws4))).
  { specialize (Hr []). rewrite app_nil_r in Hr. rewrite Hr. repeat (rewrite length_app; simpl). lia. }
  cbn [map] in *. pose proof (length_joinComma_cons (renderMem (Build_mem ws1 k ws2 ws3 v ws4)) (map renderMem l)) as Hle.
  destruct l as [|m l].
  - simpl. rewrite app_nil_r, Hr. rewrite span_ws_byte, eat_same by done. cbn [mbind option_bind].
    rewrite pstring_complete by done. cbn [mbind option_bind]. rewrite span_ws_byte, eat_same by done.
    cbn [mbind option_bind]. rewrite span_ws_value by done.
    rewrite (Hv Hvok fuel d); [|lia|simpl in *; lia|by apply nolit_ws; [|apply nolit_cons]]. cbn [mbind option_bind].
    rewrite span_ws_byte by done. by rewrite eat_other, eat_same by done.
  - cbn [map] in *. rewrite joinComma_cons2 in Hlen |- *. rewrite length_app in Hlen. cbn [length] in Hlen.
    rewrite <- app_assoc, <- app_comm_cons, Hr.
    rewrite span_ws_byte, eat_same by done. cbn [mbind option_bind].
    rewrite pstring_complete by done. cbn [mbind option_bind]. rewrite span_ws_byte, eat_same by done.
    cbn [mbind option_bind]. rewrite span_ws_value by done.
    rewrite (Hv Hvok fuel d); [|lia|lia|by apply nolit_ws; [|apply nolit_cons]]. cbn [mbind option_bind].
    rewrite span_ws_byte by done. rewrite eat_same. rewrite (IH ltac:(done) Hok); [done|lia|lia].
Qed.

Lemma arr_first l r : l <> [] -> forallb item_ok l = true ->
  exists ws a x, span is_space (joinComma (map renderItem l) ++ r) = (ws, a :: x) /\ a <> "]"%char.
Proof.
  destruct l as [|[ws1 v ws2] l]; [done|]. intros _. cbn [forallb]. intros [Hit _]%andb_true_iff.
  unfold item_ok in Hit. cbn [it_pre it_val it_post] in Hit. apply andb_true_iff in Hit as [[Hw1 Hv]%andb_true_iff Hw2].
  simpl. unfold renderItem at 1. cbn [it_pre it_val it_post]. rewrite <- !app_assoc.
  rewrite span_ws_value by done. destruct (render_head v Hv) as (a & x & -> & _ & ? & _). simpl. by eexists _, _, _.
Qed.

Lemma obj_first l r : l <> [] -> forallb mem_ok l = true ->
  exists ws x, span is_space (joinComma (map renderMem l) ++ r) = (ws, dquote :: x).
Proof.
  destruct l as [|[ws1 k ws2 ws3 v ws4] l]; [done|]. intros _. cbn [forallb]. intros [Hm _]%andb_true_iff.
  unfold mem_ok in Hm. cbn [mb_pre mb_key mb_mid mb_aft mb_val mb_post] in Hm.
  rewrite !andb_true_iff in Hm. destruct Hm as [[[[[Hw1 _] _] _] _] _].
  simpl. unfold renderMem at 1, renderStr. cbn [mb_pre mb_key]. rewrite <- !app_assoc. simpl.
  rewrite span_ws_byte by done. by eexists _, _.
Qed.

Lemma parse_complete v : parses v.
Proof.
  induction v as [tok|s|ws l IH|ws l IH] using value_nested_ind; intros Hok [|fuel] d r Hd Hlen Hr;
    try (simpl in Hlen; lia).
  - cbn [value_ok] in Hok. pose proof Hok as (a & x & Ht & Ha & Hall)%lit_ok_inv. cbn [render] in *.
    assert (Hs : span lit_char (tok ++ r) = (tok, r)) by by apply span_run.
    rewrite Ht in Hs |- *. cbn [app pvalue] in *. apply lit_char_inv in Ha as (_ & H1 & H2 & _ & H3 & _).
    destruct (Ascii.eqb_spec a dquote); [done|]. destruct (Ascii.eqb_spec a "["); [done|].
    destruct (Ascii.eqb_spec a "{"); [done|]. rewrite Hs, <- Ht. by rewrite Hok.
  - cbn [render pvalue app]. unfold renderStr. rewrite <- app_comm_cons. cbn [pvalue].
    rewrite Ascii.eqb_refl, <- app_assoc. cbn [app]. by rewrite pstring_complete.
  - destruct d as [|d]; [simpl in Hd; lia|]. rewrite render_Arr in Hlen |- *.
    cbn [length] in Hlen. rewrite !length_app in Hlen. cbn [length] in Hlen.
    cbn [value_ok] in Hok. rewrite !andb_true_iff in Hok. destruct Hok as [[Hws Hor] Hl].
    rewrite <- app_comm_cons, <- !app_assoc. cbn [app pvalue].
    replace (Ascii.eqb "[" dquote) with false by done. replace (Ascii.eqb "[" "[") with true by done.
    cbn [depth] in Hd. destruct (decide (l = [])) as [->|Hne].
    { simpl. by rewrite span_ws_byte. }
    rewrite bool_decide_eq_false_2 in Hor by done. apply bool_decide_eq_true in Hor as ->. cbn [app].
    destruct (arr_first l ("]"%char :: r) Hne Hl) as (ws' & a & x & Hspan & Ha). rewrite Hspan, eat_other by done.
    rewrite pitems_complete; [done|done|done|exact Hl|lia|simpl in Hlen; lia].
  - destruct d as [|d]; [simpl in Hd; lia|]. rewrite render_Obj in Hlen |- *.
    cbn [length] in Hlen. rewrite !length_app in Hlen. cbn [length] in Hlen.
    cbn [value_ok] in Hok. rewrite !andb_true_iff in Hok. destruct Hok as [[Hws Hor] Hl].
    rewrite <- app_comm_cons, <- !app_assoc. cbn [app pvalue].
    replace (Ascii.eqb "{" dquote) with false by done. replace (Ascii.eqb "{" "[") with false by done.
    replace (Ascii.eqb "{" "{") with true by done.
    cbn [depth] in Hd. destruct (decide (l = [])) as [->|Hne].
    { simpl. by rewrite span_ws_byte. }
    rewrite bool_decide_eq_false_2 in Hor by done. apply bool_decide_eq_true in Hor as ->. cbn [app].
    destruct (obj_first l ("}"%char :: r) Hne Hl) as (ws' & x & Hspan). rewrite Hspan, eat_other by done.
    rewrite pmembers_complete; [done|done|done|exact Hl|lia|simpl in Hlen; lia].
Qed.

(** The texts [json.Valid] accepts are the renderings of well-formed trees, and
    a text has one tree. *)
Lemma parseText_render t : text_ok t = true -> parseText (renderText t) = Some t.
Proof.
  destruct t as [ws1 v ws2]. unfold text_ok, parseText, renderText, renderItem. cbn [it_pre it_val it_post].
  rewrite !andb_true_iff. intros [[[Hw1 Hv] Hw2] Hd%N.leb_le]. rewrite span_ws_value by done.
  rewrite parse_complete; [|done|lia|rewrite !length_app; lia|].
  - simpl. assert (Hs : span is_space (ws2 ++ []) = (ws2, [])) by by apply span_ws.
    rewrite app_nil_r in Hs. by rewrite Hs.
  - rewrite <- (app_nil_r ws2). by apply nolit_ws.
Qed.

(** ** UTF-8 and the values of strings *)
Definition RuneError : N := 65533.

(** [utf8.AppendRune] *)
Definition encodeRune (r : N) : bytes :=
  let r := if (((0xD800 <=? r) && (r <=? 0xDFFF)) || (0x10FFFF <? r))%N then RuneError else r in
  (if r <? 0x80 then [byte r]
   else if r <? 0x800 then [byte (0xC0 + r / 64); byte (0x80 + r mod 64)]
   else if r <? 0x10000 then
     [byte (0xE0 + r / 4096); byte (0x80 + r / 64 mod 64); byte (0x80 + r mod 64)]
   else [byte (0xF0 + r / 262144); byte (0x80 + r / 4096 mod 64); byte (0x80 + r / 64 mod 64);
         byte (0x80 + r mod 64)])%N.

Definition in_range (lo hi : N) (a : ascii) : bool := ((lo <=? N_of_ascii a) && (N_of_ascii a <=? hi))%N.

(** [utf8.DecodeRune]: the rune, its width, and whether it is well-formed. *)
Definition decodeRune (b : bytes) : N * nat * bool :=
  let bad := (RuneError, 1, false) in
  match b with
  | [] => bad
  | a0 :: b =>
      let c0 := N_of_ascii a0 in
      if (c0 <? 0x80)%N then (c0, 1, true)
      else match b with
      | [] => bad
      | a1 :: b =>
          let c1 := (N_of_ascii a1 - 0x80)%N in
          if in_range 0xC2 0xDF a0 then
            if in_range 0x80 0xBF a1 then (((c0 - 0xC0) * 64 + c1)%N, 2, true) else bad
          else match b with
          | [] => bad
          | a2 :: b =>
              let c2 := (N_of_ascii a2 - 0x80)%N in
              if in_range 0xE0 0xEF a0 then
                if in_range (if (c0 =? 0xE0)%N then 0xA0 else 0x80) (if (c0 =? 0xED)%N then 0x9F else 0xBF) a1 &&
                   in_range 0x80 0xBF a2
                then (((c0 - 0xE0) * 4096 + c1 * 64 + c2)%N, 3, true) else bad
              else match b with
              | [] => bad
              | a3 :: _ =>
                  let c3 := (N_of_ascii a3 - 0x80)%N in
                  if in_range 0xF0 0xF4 a0 then
                    if in_range (if (c0 =? 0xF0)%N then 0x90 else 0x80) (if (c0 =? 0xF4)%N then 0x8F else 0xBF) a1 &&
                       in_range 0x80 0xBF a2 && in_range 0x80 0xBF a3
                    then (((c0 - 0xF0) * 262144 + c1 * 4096 + c2 * 64 + c3)%N, 4, true) else bad
                  else bad
              end
          end
      end
  end.

(** [for _, r := range s]: every step consumes a byte at least. *)
Fixpoint runesFrom (fuel : nat) (b : bytes) : list (N * bool) :=
  match fuel, b with
  | O, _ | _, [] => []
  | S fuel, b => let '(r, w, ok) := decodeRune b in (r, ok) :: runesFrom fuel (drop w b)
  end.
Definition runes (b : bytes) : list N := fst <$> runesFrom (length b) b.
Definition utf8_valid (b : bytes) : bool := forallb snd (runesFrom (length b) b).

Definition hex4 (h1 h2 h3 h4 : ascii) : N :=
  foldl (fun r c => r * 16 + default 0 (hex_val c))%N 0%N [h1; h2; h3; h4].
Definition is_high (r : N) : bool := ((0xD800 <=? r) && (r <? 0xDC00))%N.
Definition is_low (r : N) : bool := ((0xDC00 <=? r) && (r <? 0xE000))%N.

Definition escaped (a : ascii) : ascii :=
  if Ascii.eqb a "b" then byte 8 else if Ascii.eqb a "f" then byte 12
  else if Ascii.eqb a "n" then byte 10 else if Ascii.eqb a "r" then byte 13
  else if Ascii.eqb a "t" then byte 9 else a.

(** The bytes a string literal stands for; an unpaired surrogate is replaced. *)
Fixpoint unquote (s : list schar) : bytes :=
  match s with
  | [] => []
  | Plain a :: s => a :: unquote s
  | Esc a :: s => escaped a :: unquote s
  | Uni h1 h2 h3 h4 :: s' =>
      let r := hex4 h1 h2 h3 h4 in
      match s' with
      | Uni g1 g2 g3 g4 :: s'' =>
          let lo := hex4 g1 g2 g3 g4 in
          if is_high r && is_low lo
          then encodeRune (0x10000 + (r - 0xD800) * 1024 + (lo - 0xDC00)) ++ unquote s''
          else encodeRune r ++ unquote s'
      | _ => encodeRune r ++ unquote s'
      end
  end.

Definition stringOf (b : bytes) : string := String.string_of_list_ascii b.

(** ** [json.Unmarshal] into [any] *)
Definition digits (b : bytes) : Z := foldl (fun z a => z * 10 + Z.of_N (N_of_ascii a - 48))%Z 0%Z b.

(** Whether a number is in the range of [float64]: its magnitude rounds to less
    than [2^1024]. *)
Definition number_fits (n : number) : bool :=
  let m := digits (nm_int n ++ nm_frac n) in
  let e := (match nm_exp n with
            | Some (neg, ds) => if neg then - digits ds else digits ds
            | None => 0
            end - Z.of_nat (length (nm_frac n)))%Z in
  let size := (Z.of_nat (length (nm_int n ++ nm_frac n)) + e)%Z in
  if Z.eqb m 0 then true
  else if (size <? 300)%Z then true
  else if (10000 <? e)%Z then false
  else
    let limit := (2 ^ 1024 - 2 ^ 970)%Z in
    if (0 <=? e)%Z then (m * 10 ^ e <? limit)%Z else (m <? limit * 10 ^ (- e))%Z.

Definition decodeLit (tok : bytes) : option any :=
  if decide (tok = tokNull) then Some ANull
  else if decide (tok = tokTrue) then Some (ABool true)
  else if decide (tok = tokFalse) then Some (ABool false)
  else n ← parseNumber tok; if number_fits n then Some (ANum (stringOf tok)) else None.

Fixpoint decodeAny (v : value) : option any :=
  match v with
  | Lit tok => decodeLit tok
  | Str s => Some (AStr (stringOf (unquote s)))
  | Arr _ l =>
      (fix go (l : list (item value)) (acc : list any) : option any :=
         match l with
         | [] => Some (AArr (reverse acc))
         | it :: l => match decodeAny (it_val it) with Some a => go l (a :: acc) | None => None end
         end) l []
  | Obj _ l =>
      (fix go (l : list (mem value)) (acc : gmap string any) : option any :=
         match l with
         | [] => Some (AObj acc)
         | m :: l => match decodeAny (mb_val m) with
                     | Some a => go l (<[stringOf (unquote (mb_key m)) := a]> acc)
                     | None => None
                     end
         end) l ∅
  end.

Definition bytesOf (s : string) : bytes := String.list_ascii_of_string s.

Example parse_sample :
  (t ← parseText (bytesOf "[1.5e3, true,{ } ]"); decodeAny (it_val t)) =
    Some (AArr [ANum "1.5e3"; ABool true; AObj ∅]) /\
  parseText (bytesOf "[01]") = None /\ parseText (bytesOf "[1]]") = None /\
  (t ← parseText (bytesOf "[1e400]"); decodeAny (it_val t)) = None /\
  is_Some (t ← parseText (bytesOf "[-1.7976931348623157e308]"); decodeAny (it_val t)).
Proof. vm_compute. eauto 10. Qed.

Example unquote_pair :
  unquote [Uni "d" "8" "3" "d"; Uni "D" "E" "0" "0"]%char = [byte 0xF0; byte 0x9F; byte 0x98; byte 0x80] /\
  unquote [Uni "d" "8" "3" "d"]%char = encodeRune RuneError /\
  runes [byte 0xF0; byte 0x9F; byte 0x98; byte 0x80; "a"%char] = [0x1F600; 97]%N.
Proof. vm_compute. done. Qed.
