(* ===== verification/Utf8.v ===== *)
(** * UTF-8: the byte strings [utf8.Valid] accepts.

    [utf8] says a string is a sequence of well-formed runes; it is what
    [utf8_valid] decides.  A well-formed string splits at an ASCII byte, and the
    value of a string literal of a well-formed text is well-formed. *)
From S2P Require Import Prelude GoStrings JsonText.
From Stdlib Require Import Ascii.

Inductive utf8 : bytes -> Prop :=
| utf8_nil : utf8 []
| utf8_cons b n w : decodeRune b = (n, w, true) -> utf8 (drop w b) -> utf8 b.

(** One well-formed rune: decoded alike whatever follows. *)
Definition runeBytes (c : bytes) (n : N) : Prop :=
  c <> [] /\ forall r, decodeRune (c ++ r) = (n, length c, true).

(** What decodes is one rune and the rest; its bytes after the first are high,
    and the first too when there are several. *)
Lemma decodeRune_split b n w : decodeRune b = (n, w, true) ->
  exists c r, b = c ++ r /\ length c = w /\ runeBytes c n /\
    ((exists a, c = [a] /\ is_ascii a = true /\ n = N_of_ascii a) \/ forallb (fun a => negb (is_ascii a)) c = true).
Proof.
  assert (Hr : forall lo hi a, in_range lo hi a = true -> (0x80 <= lo)%N -> is_ascii a = false).
  { intros lo hi a. unfold in_range, is_ascii. rewrite andb_true_iff, !N.leb_le, N.ltb_ge. lia. }
  assert (Hi : forall x : bool, (0x80 <= if x then 0xA0 else 0x80)%N) by by intros [].
  assert (Hi' : forall x : bool, (0x80 <= if x then 0x90 else 0x80)%N) by by intros [].
  unfold decodeRune; cbv zeta. destruct b as [|a0 b]; [done|].
  destruct (N_of_ascii a0 <? 128)%N eqn:E0.
  { intros [= <- <-]. exists [a0], b. split_and!; [done|done| |left; eauto].
    split; [done|]. intros r. unfold decodeRune; cbn [app]; cbv zeta. by rewrite E0. }
  destruct b as [|a1 b]; [done|]. destruct (in_range 194 223 a0) eqn:E1.
  { destruct (in_range 128 191 a1) eqn:E2; [|done]. intros [= <- <-]. exists [a0; a1], b.
    split_and!; [done|done| |right].
    - split; [done|]. intros r. unfold decodeRune; cbn [app]; cbv zeta. by rewrite E0, E1, E2.
    - cbn [forallb]. apply Hr in E1, E2; [|lia..]. by rewrite E1, E2. }
  destruct b as [|a2 b]; [done|]. destruct (in_range 224 239 a0) eqn:E2.
  { destruct (_ && _) eqn:E3; [|done]. intros [= <- <-]. exists [a0; a1; a2], b.
    split_and!; [done|done| |right].
    - split; [done|]. intros r. unfold decodeRune; cbn [app]; cbv zeta. by rewrite E0, E1, E2, E3.
    - apply andb_true_iff in E3 as [E3 E4]. cbn [forallb]. apply Hr in E2, E3, E4; [|lia|apply Hi|lia].
      by rewrite E2, E3, E4. }
  destruct b as [|a3 b]; [done|]. destruct (in_range 240 244 a0) eqn:E3; [|done].
  destruct (_ && _) eqn:E4; [|done]. intros [= <- <-]. exists [a0; a1; a2; a3], b.
  split_and!; [done|done| |right].
  - split; [done|]. intros r. unfold decodeRune; cbn [app]; cbv zeta. by rewrite E0, E1, E2, E3, E4.
  - rewrite !andb_true_iff in E4. destruct E4 as [[E4 E5] E6]. cbn [forallb].
    apply Hr in E3, E4, E5, E6; [|first [lia | apply Hi']..]. by rewrite E3, E4, E5, E6.
Qed.

(** The rune-by-rune view. *)
Lemma utf8_rune_ind (P : bytes -> Prop) :
  P [] ->
  (forall a r, is_ascii a = true -> utf8 r -> P r -> P (a :: r)) ->
  (forall c n r, runeBytes c n -> forallb (fun a => negb (is_ascii a)) c = true -> utf8 r -> P r -> P (c ++ r)) ->
  forall b, utf8 b -> P b.
Proof.
  intros Hnil Ha Hc b Hb. induction Hb as [|b n w Hd Hr IH]; [done|].
  apply decodeRune_split in Hd as (c & r & -> & <- & Hrune & Hkind).
  rewrite drop_app_length in Hr, IH. destruct Hkind as [(a & -> & Has & _)|Hall]; [by apply Ha|by eapply Hc].
Qed.

Lemma utf8_ascii a r : is_ascii a = true -> utf8 r -> utf8 (a :: r).
Proof. intros Ha Hr. eapply utf8_cons; [simpl; unfold is_ascii in Ha; by rewrite Ha|done]. Qed.

Lemma utf8_tail x r : forallb is_ascii x = true -> utf8 (x ++ r) -> utf8 r.
Proof.
  induction x as [|a x IH]; [done|]. cbn [forallb app]. intros [Ha Hx]%andb_true_iff Hu. apply IH; [done|].
  inversion Hu as [|? n w Hd Hr]; subst. simpl in Hd. unfold is_ascii in Ha. rewrite Ha in Hd. by injection Hd as <- <-.
Qed.

Lemma utf8_rune c n r : runeBytes c n -> utf8 r -> utf8 (c ++ r).
Proof. intros [_ Hc] Hr. eapply utf8_cons; [apply Hc|by rewrite drop_app_length]. Qed.

Lemma utf8_app x y : utf8 x -> utf8 y -> utf8 (x ++ y).
Proof.
  intros Hx Hy. induction Hx as [|a r Ha Hr IH|c n r Hc _ Hr IH] using utf8_rune_ind; [done| |].
  - by apply utf8_ascii.
  - rewrite <- app_assoc. by eapply utf8_rune.
Qed.

Lemma utf8_all_ascii b : forallb is_ascii b = true -> utf8 b.
Proof.
  induction b as [|a b IH]; [constructor|]. cbn [forallb]. intros [Ha Hb]%andb_true_iff.
  apply utf8_ascii; [done|by apply IH].
Qed.

Lemma utf8_valid_utf8 b : utf8_valid b = true <-> utf8 b.
Proof.
  unfold utf8_valid. assert (Hf : forall n b, length b <= n -> forallb snd (runesFrom n b) = true <-> utf8 b).
  { clear b. induction n as [|n IH]; intros b Hn.
    { destruct b; [|simpl in Hn; lia]. split; [constructor|done]. }
    destruct b as [|a b]; [split; [constructor|done]|]. cbn [runesFrom].
    destruct (decodeRune (a :: b)) as [[r w] ok] eqn:Ed. cbn [forallb snd].
    destruct ok; cbn [andb].
    - pose proof Ed as (c & r' & Hb & Hw & (Hne & _) & _)%decodeRune_split.
      assert (w <> 0) by (destruct c; [done|simpl in Hw; lia]).
      rewrite IH by (rewrite length_drop; simpl in *; lia). split.
      + intros Hr. by eapply utf8_cons.
      + intros Hu. inversion Hu as [|? n' w' Hd Hr]; subst. rewrite Ed in Hd. by injection Hd as <- <-.
    - split; [done|]. intros Hu. inversion Hu as [|? n' w' Hd Hr]; subst. congruence. }
  by apply Hf.
Qed.

(** An ASCII byte is a rune of its own, so the string splits before it. *)
Definition ascii_head (b : bytes) : Prop := forall a r, b = a :: r -> is_ascii a = true.

Lemma ascii_head_cons a r : is_ascii a = true -> ascii_head (a :: r).
Proof. by intros Ha ? ? [= <- _]. Qed.

Lemma app_prefix_case {A} (x y c r : list A) : x ++ y = c ++ r ->
  (exists x', x = c ++ x' /\ r = x' ++ y) \/ (exists c1 a c2, c = x ++ a :: c2 /\ y = a :: c2 ++ r /\ c1 = x).
Proof.
  revert c. induction x as [|e x IH]; intros c Hxy.
  - destruct c as [|a c]; [left; by exists []|]. simpl in Hxy. right. by exists [], a, c.
  - destruct c as [|a c]; [left; by exists (e :: x)|]. simpl in Hxy. injection Hxy as -> Hxy.
    destruct (IH c Hxy) as [(x' & -> & ->)|(c1 & b & c2 & -> & -> & ->)]; [left; by exists x'|].
    right. by exists (a :: x), b, c2.
Qed.

Lemma utf8_split x y : ascii_head y -> utf8 (x ++ y) -> utf8 x /\ utf8 y.
Proof.
  intros Hy Hxy. remember (x ++ y) as b eqn:Eb. revert x Eb.
  induction Hxy as [|a r Ha Hr IH|c n r Hc Hall Hr IH] using utf8_rune_ind; intros x Eb.
  - symmetry in Eb. apply app_nil in Eb as [-> ->]. split; constructor.
  - destruct x as [|e x]; simpl in Eb.
    + rewrite <- Eb. split; [constructor|]. by apply utf8_ascii.
    + injection Eb as <- Eb. destruct (IH x Eb) as [Hx Hy']. split; [by apply utf8_ascii|done].
  - symmetry in Eb. apply app_prefix_case in Eb as [(x' & -> & ->)|(c1 & a & c2 & -> & -> & _)].
    + destruct (IH x' eq_refl) as [Hx Hy']. split; [by eapply utf8_rune|done].
    + exfalso. rewrite forallb_app in Hall. cbn [forallb] in Hall.
      rewrite !andb_true_iff, negb_true_iff in Hall. rewrite (Hy _ _ eq_refl) in Hall. naive_solver.
Qed.

(** A slice between two ASCII bytes. *)
Lemma utf8_slice x y z : ascii_head (y ++ z) -> ascii_head z -> utf8 (x ++ y ++ z) -> utf8 y.
Proof. intros Hyz Hz H. apply utf8_split in H as [_ H]; [|done]. by apply utf8_split in H as [? _]. Qed.

(** ** Runes that are encoded *)
Lemma N_byte n : (n < 256)%N -> N_of_ascii (byte n) = n.
Proof. apply N_ascii_embedding. Qed.

Lemma in_range_byte lo hi n : (lo <= n)%N -> (n <= hi)%N -> (n < 256)%N -> in_range lo hi (byte n) = true.
Proof. intros. unfold in_range. rewrite N_byte by done. by apply andb_true_iff; split; apply N.leb_le. Qed.

Lemma in_range_byte_not lo hi n : (n < lo \/ hi < n)%N -> (n < 256)%N -> in_range lo hi (byte n) = false.
Proof.
  intros Hn ?. unfold in_range. rewrite N_byte by done. apply andb_false_iff.
  destruct Hn; [left|right]; by apply N.leb_gt.
Qed.

Lemma decode_2 x y : (2 <= x < 32)%N -> (y < 64)%N ->
  exists n, decodeRune [byte (0xC0 + x); byte (0x80 + y)] = (n, 2, true).
Proof.
  intros Hx Hy. eexists. unfold decodeRune; cbv zeta. rewrite N_byte, (proj2 (N.ltb_ge _ _)) by lia.
  by rewrite !in_range_byte by lia.
Qed.

Lemma decode_3 x y z : (x < 16)%N -> (y < 64)%N -> (z < 64)%N ->
  (x = 0 -> 32 <= y)%N -> (x = 13 -> y < 32)%N ->
  exists n, decodeRune [byte (0xE0 + x); byte (0x80 + y); byte (0x80 + z)] = (n, 3, true).
Proof.
  intros Hx Hy Hz H0 H13. eexists. unfold decodeRune; cbv zeta. rewrite (N_byte (0xE0 + x)) by lia.
  rewrite (proj2 (N.ltb_ge _ _)), in_range_byte_not, (in_range_byte 224 239) by lia.
  rewrite (in_range_byte 128 191 (128 + z)) by lia. rewrite in_range_byte; [done| | |lia].
  - destruct (_ =? _)%N eqn:E; [apply N.eqb_eq in E|]; lia.
  - destruct (_ =? _)%N eqn:E; [apply N.eqb_eq in E|]; lia.
Qed.

Lemma decode_4 x y z t : (x <= 4)%N -> (y < 64)%N -> (z < 64)%N -> (t < 64)%N ->
  (x = 0 -> 16 <= y)%N -> (x = 4 -> y < 16)%N ->
  exists n, decodeRune [byte (0xF0 + x); byte (0x80 + y); byte (0x80 + z); byte (0x80 + t)] = (n, 4, true).
Proof.
  intros Hx Hy Hz Ht H0 H4. eexists. unfold decodeRune; cbv zeta. rewrite (N_byte (0xF0 + x)) by lia.
  rewrite (proj2 (N.ltb_ge _ _)), !in_range_byte_not, (in_range_byte 240 244) by lia.
  rewrite (in_range_byte 128 191 (128 + z)), (in_range_byte 128 191 (128 + t)) by lia.
  rewrite in_range_byte; [done| | |lia].
  - destruct (_ =? _)%N eqn:E; [apply N.eqb_eq in E|]; lia.
  - destruct (_ =? _)%N eqn:E; [apply N.eqb_eq in E|]; lia.
Qed.

Lemma utf8_whole b : (exists n, decodeRune b = (n, length b, true)) -> utf8 b.
Proof. intros [n Hn]. eapply utf8_cons; [exact Hn|]. rewrite drop_all. constructor. Qed.

Lemma utf8_encodeRune r : utf8 (encodeRune r).
Proof.
  unfold encodeRune. set (q := if _ || _ then RuneError else r).
  assert (Hq : (q <= 0x10FFFF /\ (q < 0xD800 \/ 0xDFFF < q))%N).
  { unfold q, RuneError. destruct (_ || _) eqn:E; [lia|].
    apply orb_false_iff in E as [E1%andb_false_iff E2%N.ltb_ge]. rewrite !N.leb_gt in E1. lia. }
  clearbody q. clear r.
  assert (Hd : (q mod 64 < 64 /\ q / 64 mod 64 < 64 /\ q / 4096 mod 64 < 64)%N)
    by (split_and!; apply N.mod_lt; lia).
  assert (Hm : (q = 64 * (q / 64) + q mod 64)%N) by apply N.Div0.div_mod.
  assert (Hm2 : (q / 64 = 64 * (q / 4096) + q / 64 mod 64)%N)
    by (change 4096%N with (64 * 64)%N; rewrite <- N.Div0.div_div; apply N.Div0.div_mod).
  assert (Hm3 : (q / 4096 = 64 * (q / 262144) + q / 4096 mod 64)%N)
    by (change 262144%N with (4096 * 64)%N; rewrite <- N.Div0.div_div; apply N.Div0.div_mod).
  revert Hd Hm Hm2 Hm3. generalize ((q / 4096) mod 64)%N as d3, ((q / 64) mod 64)%N as d2, (q mod 64)%N as d1.
  generalize (q / 64)%N as q1, (q / 4096)%N as q2, (q / 262144)%N as q3. intros q1 q2 q3 d3 d2 d1 (H1 & H2 & H3) Hm Hm2 Hm3.
  destruct (q <? 128)%N eqn:E1.
  { apply N.ltb_lt in E1. apply utf8_ascii; [|constructor]. unfold is_ascii. rewrite N_byte by lia. by apply N.ltb_lt. }
  apply N.ltb_ge in E1. destruct (q <? 2048)%N eqn:E2.
  { apply N.ltb_lt in E2. apply utf8_whole, decode_2; lia. }
  apply N.ltb_ge in E2. destruct (q <? 65536)%N eqn:E3.
  { apply N.ltb_lt in E3. apply utf8_whole, decode_3; lia. }
  apply N.ltb_ge in E3. apply utf8_whole, decode_4; lia.
Qed.

(** ** The values of string literals *)

(** The characters of a literal whose rendering starts with non-ASCII bytes. *)
Lemma renderChars_high s c r : str_ok s = true -> forallb (fun a => negb (is_ascii a)) c = true ->
  renderChars s = c ++ r -> exists s', s = (Plain <$> c) ++ s' /\ renderChars s' = r.
Proof.
  revert s. induction c as [|a c IH]; intros s Hs Hc Hr; [by exists s|].
  cbn [forallb] in Hc. apply andb_true_iff in Hc as [Ha%negb_true_iff Hc].
  destruct s as [|x s]; [done|]. change (renderChars (x :: s)) with (renderChar x ++ renderChars s) in Hr.
  unfold str_ok in Hs. cbn [forallb] in Hs. apply andb_true_iff in Hs as [Hx Hs].
  destruct x as [a'|a'|h1 h2 h3 h4]; cbn [renderChar app] in Hr; injection Hr as <- Hr; [|done..].
  destruct (IH s Hs Hc Hr) as (s' & -> & Hs'). by exists s'.
Qed.

Lemma unquote_plain c s : unquote ((Plain <$> c) ++ s) = c ++ unquote s.
Proof. induction c as [|a c IH]; [done|]. simpl. by f_equal. Qed.

Lemma escaped_ascii a : esc_ok a = true -> is_ascii (escaped a) = true.
Proof.
  unfold esc_ok. rewrite existsb_exists. intros (x & Hx & ->%Ascii.eqb_eq).
  repeat (destruct Hx as [<-|Hx]; [done|]). done.
Qed.

(** What a literal of a well-formed text stands for is well-formed. *)
Lemma utf8_unquote s : str_ok s = true -> utf8 (renderChars s) -> utf8 (unquote s).
Proof.
  remember (length s) as n eqn:En. revert s En. induction (lt_wf n) as [n _ IH]. intros s -> Hs Hu.
  destruct s as [|c s]; [constructor|]. pose proof Hs as Hcs. unfold str_ok in Hcs. cbn [forallb] in Hcs.
  apply andb_true_iff in Hcs as [Hc Hs'].
  assert (Hrec : forall a x s', renderChars (c :: s) = (a :: x) ++ renderChars s' -> length s' <= length s ->
    forallb is_ascii (a :: x) = true -> str_ok s' = true -> utf8 (unquote s')).
  { intros a x s' Hr Hl Ha Hok. apply (IH (length s')); [simpl; lia|done|done|].
    rewrite Hr in Hu. by apply utf8_tail in Hu. }
  destruct c as [a|a|h1 h2 h3 h4].
  - destruct (is_ascii a) eqn:Ea.
    + cbn [unquote]. apply utf8_ascii; [done|]. eapply (Hrec a []); [done|lia| |done]. simpl. by rewrite Ea.
    + change (renderChars (Plain a :: s)) with (a :: renderChars s) in Hu.
      inversion Hu as [|? m w Hd Hr]; subst.
      apply decodeRune_split in Hd as (x & r & Hx & <- & Hrune & [(a' & -> & Ha' & _)|Hall]).
      { simpl in Hx. injection Hx as -> _. congruence. }
      rewrite Hx, drop_app_length in Hr.
      destruct (renderChars_high (Plain a :: s) x r Hs Hall Hx) as (s' & Hs'' & <-).
      rewrite Hs'', unquote_plain. eapply utf8_rune; [exact Hrune|].
      destruct Hrune as [Hne _]. apply (IH (length s')); [|done| |done].
      * rewrite Hs'', length_app, length_fmap. destruct x; [done|]. simpl. lia.
      * rewrite Hs'' in Hs. unfold str_ok in *. rewrite forallb_app in Hs. by apply andb_true_iff in Hs as [_ ?].
  - cbn [unquote]. apply utf8_ascii; [by apply escaped_ascii|].
    eapply (Hrec backslash [a]); [done|lia| |done]. cbn [schar_ok] in Hc. unfold esc_ok in Hc.
    apply existsb_exists in Hc as (y & Hy & ->%Ascii.eqb_eq). by repeat (destruct Hy as [<-|Hy]; [done|]).
  - assert (Hh : forall h, is_hex h = true -> is_ascii h = true).
    { intros h. unfold is_hex, hex_val, is_ascii. intros [m Hm]%bool_decide_eq_true. apply N.ltb_lt.
      repeat case_match; try done;
        match goal with E : (_ && _) = true |- _ => rewrite andb_true_iff, !N.leb_le in E; lia end. }
    assert (Ha : forall g1 g2 g3 g4, schar_ok (Uni g1 g2 g3 g4) = true ->
      forallb is_ascii [backslash; "u"%char; g1; g2; g3; g4] = true).
    { intros g1 g2 g3 g4. cbn [schar_ok]. rewrite !andb_true_iff. intros [[[H1 H2] H3] H4]. cbn [forallb].
      by rewrite (Hh g1), (Hh g2), (Hh g3), (Hh g4). }
    assert (Hone : utf8 (encodeRune (hex4 h1 h2 h3 h4) ++ unquote s)).
    { apply utf8_app; [apply utf8_encodeRune|]. by eapply (Hrec backslash); [|lia|by apply Ha|done]. }
    cbn [unquote]. destruct s as [|[a|a|g1 g2 g3 g4] s]; [exact Hone..|].
    destruct (_ && _); [|exact Hone]. apply utf8_app; [apply utf8_encodeRune|].
    cbn [forallb] in Hs'. apply andb_true_iff in Hs' as [Hg Hs'].
    eapply (Hrec backslash (["u"; h1; h2; h3; h4]%char ++ [backslash; "u"; g1; g2; g3; g4]%char));
      [done|simpl; lia| |done].
    change (forallb is_ascii ([backslash; "u"%char; h1; h2; h3; h4] ++ [backslash; "u"%char; g1; g2; g3; g4]) = true).
    by rewrite forallb_app, !Ha.
Qed.
