(* ===== verification/Envelope.v ===== *)
(** * The request envelope: [internal/proxy/envelope.go] and
    [ParseAndValidateBody] of [internal/server/jsonrpc_processor.go].

    The scanner walks the bytes of the body with a stack of frames; a position
    is the list of the bytes that remain.  Reading past the end of a slice is
    the error [panicEnvelope].  The Unicode tables of the [unicode] package are
    the class [Unicode]; on ASCII they are written out. *)
From S2P Require Import Prelude GoStrings Methods Models JsonText.
From Stdlib Require Import Ascii.

Class Unicode := {
  SimpleFold : N -> N;
  ToUpperTable : N -> N;
  ToLowerTable : N -> N }.

Definition ascii_upper (r : N) : N := if ((97 <=? r) && (r <=? 122))%N then (r - 32)%N else r.
Definition ascii_lower (r : N) : N := if ((65 <=? r) && (r <=? 90))%N then (r + 32)%N else r.

Definition ErrBatchRequest : string := "batch JSON-RPC requests are not supported".
Definition ErrAmbiguousRequest : string :=
  "ambiguous JSON-RPC request: duplicate or case-variant member names".
Definition parseError (msg : string) : string := "failed to parse JSON-RPC request: " +:+ msg.
Definition panicEnvelope : string := "runtime error: index out of range".

(** ** Case folding of member names *)
Section folding.
Context `{Unicode}.

Definition ToUpperRune (r : N) : N := if (r <? 128)%N then ascii_upper r else ToUpperTable r.
Definition ToLowerRune (r : N) : N := if (r <? 128)%N then ascii_lower r else ToLowerTable r.

(** The loop over the fold orbit of [r]; an orbit has at most four runes. *)
Fixpoint lowestFrom (fuel : nat) (r f lowest : N) : N :=
  match fuel with
  | O => lowest
  | S fuel => if (f =? r)%N then lowest
              else lowestFrom fuel r (SimpleFold f) (if (f <? lowest)%N then f else lowest)
  end.
Definition lowest (r : N) : N := lowestFrom 4 r (SimpleFold r) r.

Definition foldKey (s : bytes) : bytes :=
  if forallb is_ascii s then map (fun a => byte (ascii_upper (N_of_ascii a))) s
  else concat (map (fun r => encodeRune (lowest r)) (runes s)).

Definition looseRune (r : N) : N :=
  let u := ToUpperRune r in
  let l := ToLowerRune r in
  if (r <? 128)%N then u
  else if (u <? 128)%N then u
  else if (l <? 128)%N then ToUpperRune l
  else r.

Definition looseFoldKey (s : bytes) : bytes := foldKey (concat (map (fun r => encodeRune (looseRune r)) (runes s))).

Definition forwardedMembers : list bytes :=
  bytesOf <$> ["jsonrpc"; "id"; "method"; "params"; "visibleTo"; "privateFor"].
Definition memberJSONRPC : nat := 0.
Definition memberID : nat := 1.
Definition memberMethod : nat := 2.
Definition memberParams : nat := 3.
Definition memberVisibleTo : nat := 4.
Definition memberPrivateFor : nat := 5.

Definition paramFieldNames : list bytes := bytesOf <$>
  ["from"; "to"; "gas"; "gasPrice"; "maxFeePerGas"; "maxPriorityFeePerGas";
   "maxFeePerBlobGas"; "value"; "data"; "input"; "nonce"; "type"; "chainId";
   "accessList"; "authorizationList"; "blobVersionedHashes"; "blobs";
   "address"; "topics"; "fromBlock"; "toBlock"; "blockHash"; "blockNumber";
   "requireCanonical";
   "tracer"; "tracerConfig"; "timeout"; "reexec"; "txIndex"; "enableMemory";
   "disableStack"; "disableStorage"; "enableReturnData"; "onlyTopCall";
   "withLog"; "diffMode"; "stateOverrides"; "blockOverrides";
   "balance"; "code"; "state"; "stateDiff"; "movePrecompileToAddress";
   "number"; "time"; "gasLimit"; "feeRecipient"; "coinbase"; "prevRandao";
   "random"; "difficulty"; "baseFeePerGas"; "blobBaseFee"; "beaconRoot";
   "withdrawals";
   "visibleTo"; "privateFor"].

(** [strings.EqualFold] on runes: equal, or one in the fold orbit of the other. *)
Fixpoint chaseFold (fuel : nat) (sr tr r : N) : bool :=
  match fuel with
  | O => false
  | S fuel => if negb (r =? sr)%N && (r <? tr)%N then chaseFold fuel sr tr (SimpleFold r) else (r =? tr)%N
  end.
Definition equalFoldRune (a b : N) : bool :=
  let sr := N.min a b in
  let tr := N.max a b in
  if (tr =? sr)%N then true
  else if (tr <? 128)%N then (65 <=? sr)%N && (sr <=? 90)%N && (tr =? sr + 32)%N
  else chaseFold 4 sr tr (SimpleFold sr).
Fixpoint equalFoldRunes (s t : list N) : bool :=
  match s, t with
  | [], [] => true
  | a :: s, b :: t => equalFoldRune a b && equalFoldRunes s t
  | _, _ => false
  end.
Definition EqualFoldUnicode (s t : string) : bool := equalFoldRunes (runes (bytesOf s)) (runes (bytesOf t)).

(** [looseFoldIndex]: the name under its fold. *)
Definition looseFoldIndex (names : list bytes) : gmap bytes bytes :=
  foldl (fun m name => <[looseFoldKey name := name]> m) ∅ names.
Definition reservedLooseFolds : gmap bytes bytes := looseFoldIndex forwardedMembers.
Definition paramFieldLooseFolds : gmap bytes bytes := looseFoldIndex paramFieldNames.
End folding.

(** ** [keySet] *)
Record keySet := { ks_small : list bytes; ks_large : option (gset bytes) }.
Definition noKeys : keySet := {| ks_small := []; ks_large := None |}.

(** [add]: [None] when the name is already present. *)
Definition add (s : keySet) (folded : bytes) : option keySet :=
  match ks_large s with
  | Some large =>
      if decide (folded ∈ large) then None
      else Some {| ks_small := ks_small s; ks_large := Some ({[ folded ]} ∪ large) |}
  | None =>
      if existsb (fun k => bool_decide (k = folded)) (ks_small s) then None
      else if Nat.ltb (length (ks_small s)) 16
      then Some {| ks_small := ks_small s ++ [folded]; ks_large := None |}
      else Some {| ks_small := []; ks_large := Some ({[ folded ]} ∪ list_to_set (ks_small s)) |}
  end.

(** ** The scanner *)
Record frame := { fr_object : bool; fr_wantKey : bool; fr_inParams : bool; fr_keys : keySet }.

Record scanner := {
  sc_rest : bytes;
  sc_stack : list frame;                 (* the top first *)
  sc_member : option nat;                (* the forwarded top-level member being read *)
  sc_valueStart : bytes;
  sc_members : list (option bytes);
  sc_fieldVariant : bytes }.

(** [scanJSONString], from the byte after the opening quote: the bytes up to the
    closing quote, whether one is escaped, and the bytes after it. *)
Fixpoint scanJSONString (b : bytes) : result (bytes * bool * bytes) :=
  match b with
  | [] => Err (parseError "unterminated string")
  | a :: r =>
      if Ascii.eqb a dquote then Ok ([], false, r)
      else if Ascii.eqb a backslash then
        match r with
        | [] => Err panicEnvelope
        | e :: r =>
            if negb (Ascii.eqb e "u") then
              '(c, _, r) ← scanJSONString r; Ok (a :: e :: c, true, r)
            else match r with
            | h1 :: h2 :: h3 :: h4 :: r =>
                let v := hex4 h1 h2 h3 h4 in
                if is_high v then
                  match r with
                  | b1 :: u :: g1 :: g2 :: g3 :: g4 :: r =>
                      if Ascii.eqb b1 backslash && Ascii.eqb u "u" && is_low (hex4 g1 g2 g3 g4)
                      then '(c, _, r) ← scanJSONString r;
                           Ok (a :: e :: h1 :: h2 :: h3 :: h4 :: b1 :: u :: g1 :: g2 :: g3 :: g4 :: c, true, r)
                      else Err (parseError "unpaired surrogate escape")
                  | _ => Err (parseError "unpaired surrogate escape")
                  end
                else if is_low v then Err (parseError "unpaired surrogate escape")
                else '(c, _, r) ← scanJSONString r; Ok (a :: e :: h1 :: h2 :: h3 :: h4 :: c, true, r)
            | _ => Err panicEnvelope
            end
        end
      else '(c, esc, r) ← scanJSONString r; Ok (a :: c, esc, r)
  end.

Fixpoint skipJSONSpace (b : bytes) : bytes :=
  match b with a :: r => if is_space a then skipJSONSpace r else b | [] => [] end.

(** [bytes.TrimRight(b, ws)] with the four space bytes. *)
Definition trimRightSpace (b : bytes) : bytes := reverse (skipJSONSpace (reverse b)).

Section scan.
Context `{Unicode}.

(** [endMember], before the byte at the current position. *)
Definition endMember (s : scanner) : scanner :=
  match sc_stack s, sc_member s with
  | [_], Some i =>
      {| sc_rest := sc_rest s; sc_stack := sc_stack s; sc_member := None;
         sc_valueStart := sc_valueStart s;
         sc_members := <[i := Some (trimRightSpace
           (take (length (sc_valueStart s) - length (sc_rest s)) (sc_valueStart s)))]> (sc_members s);
         sc_fieldVariant := sc_fieldVariant s |}
  | _, _ => s
  end.

Definition withRest (rest : bytes) (s : scanner) : scanner :=
  {| sc_rest := rest; sc_stack := sc_stack s; sc_member := sc_member s;
     sc_valueStart := sc_valueStart s; sc_members := sc_members s;
     sc_fieldVariant := sc_fieldVariant s |}.
Definition withStack (st : list frame) (s : scanner) : scanner :=
  {| sc_rest := sc_rest s; sc_stack := st; sc_member := sc_member s;
     sc_valueStart := sc_valueStart s; sc_members := sc_members s;
     sc_fieldVariant := sc_fieldVariant s |}.

(** Whether a frame opened here lies inside the top-level params member. *)
Definition opensInParams (s : scanner) : bool :=
  match sc_stack s with
  | [] => false
  | top :: st => fr_inParams top ||
      (bool_decide (st = []) && bool_decide (sc_member s = Some memberParams))
  end.

(** A member name in an object: its value, the key set, and what it opens. *)
Definition readKey (top : frame) (st : list frame) (key : bytes) (r : bytes) (s : scanner)
  : scanner + result (list (option bytes) * bytes) :=
  match add (fr_keys top) (foldKey key) with
  | None => inr (Err ErrAmbiguousRequest)
  | Some keys =>
      let top' := {| fr_object := fr_object top; fr_wantKey := false; fr_inParams := fr_inParams top;
                     fr_keys := keys |} in
      let s := withStack (top' :: st) (withRest r s) in
      match st with
      | [] =>
          match reservedLooseFolds !! looseFoldKey key with
          | None => inl s
          | Some canonical =>
              if decide (canonical <> key) then inr (Err ErrAmbiguousRequest)
              else inl {| sc_rest := sc_rest s; sc_stack := sc_stack s;
                          sc_member := fst <$> list_find (fun n => n = key) forwardedMembers;
                          sc_valueStart := skipJSONSpace (tail (skipJSONSpace r));
                          sc_members := sc_members s; sc_fieldVariant := sc_fieldVariant s |}
          end
      | _ =>
          if fr_inParams top && bool_decide (sc_fieldVariant s = [])
          then match paramFieldLooseFolds !! looseFoldKey key with
               | Some canonical =>
                   if decide (canonical <> key)
                   then inl {| sc_rest := sc_rest s; sc_stack := sc_stack s; sc_member := sc_member s;
                               sc_valueStart := sc_valueStart s; sc_members := sc_members s;
                               sc_fieldVariant := key |}
                   else inl s
               | None => inl s
               end
          else inl s
      end
  end.

(** The loop body: one structural byte, one string, or one other byte. *)
Definition scanStep (s : scanner) : scanner + result (list (option bytes) * bytes) :=
  match sc_rest s with
  | [] => inr (Err (parseError "unterminated object"))
  | c :: r =>
      if Ascii.eqb c "{" || Ascii.eqb c "[" then
        inl (withRest r (withStack ({| fr_object := Ascii.eqb c "{"; fr_wantKey := Ascii.eqb c "{";
               fr_inParams := opensInParams s; fr_keys := noKeys |} :: sc_stack s) s))
      else if Ascii.eqb c "}" || Ascii.eqb c "]" then
        let s := endMember s in
        match sc_stack s with
        | [] => inr (Err panicEnvelope)
        | [_] => inr (Ok (sc_members s, sc_fieldVariant s))
        | _ :: st => inl (withRest r (withStack st s))
        end
      else if Ascii.eqb c "," then
        let s := endMember s in
        match sc_stack s with
        | [] => inr (Err panicEnvelope)
        | top :: st =>
            inl (withRest r (if fr_object top
              then withStack ({| fr_object := true; fr_wantKey := true; fr_inParams := fr_inParams top;
                                 fr_keys := fr_keys top |} :: st) s
              else s))
        end
      else if Ascii.eqb c dquote then
        match scanJSONString r with
        | Err e => inr (Err e)
        | Ok (raw, esc, r) =>
            match sc_stack s with
            | [] => inr (Err panicEnvelope)
            | top :: st =>
                if fr_object top && fr_wantKey top then
                  match (if esc then (unquote ∘ fst) <$> pstring (raw ++ [dquote]) else Some raw) with
                  | None => inr (Err (parseError "member name"))
                  | Some key => readKey top st key r s
                  end
                else inl (withRest r s)
            end
        end
      else inl (withRest r s)
  end.

Fixpoint scanLoop (fuel : nat) (s : scanner) : result (list (option bytes) * bytes) :=
  match fuel with
  | O => Err "fuel"
  | S fuel => match scanStep s with inl s => scanLoop fuel s | inr r => r end
  end.

(** [scanEnvelope]: every step consumes a byte, so the length of the body is
    fuel enough. *)
Definition scanEnvelope (body : bytes) : result (list (option bytes) * bytes) :=
  let b := skipJSONSpace body in
  match b with
  | "{"%char :: _ => scanLoop (S (length b))
      {| sc_rest := b; sc_stack := []; sc_member := None; sc_valueStart := [];
         sc_members := replicate 6 None; sc_fieldVariant := [] |}
  | _ => Err (parseError "not a JSON object")
  end.
End scan.

(** ** [json.Marshal] of a string *)
Definition hexLow (n : N) : ascii := hex_digit n.
Definition uniByte (n : N) : schar := Uni "0" "0" (hexLow (n / 16)) (hexLow (n mod 16)).

Definition marshalByte (a : ascii) : schar :=
  let n := N_of_ascii a in
  if Ascii.eqb a dquote || Ascii.eqb a backslash then Esc a
  else if (n =? 8)%N then Esc "b" else if (n =? 12)%N then Esc "f"
  else if (n =? 10)%N then Esc "n" else if (n =? 13)%N then Esc "r" else if (n =? 9)%N then Esc "t"
  else if (n <? 32)%N || Ascii.eqb a "<" || Ascii.eqb a ">" || Ascii.eqb a "&" then uniByte n
  else Plain a.

Fixpoint marshalFrom (fuel : nat) (b : bytes) : list schar :=
  match fuel, b with
  | O, _ | _, [] => []
  | S fuel, a :: r =>
      if is_ascii a then marshalByte a :: marshalFrom fuel r
      else
        let '(c, w, ok) := decodeRune b in
        if negb ok then Uni "f" "f" "f" "d" :: marshalFrom fuel r
        else if (c =? 0x2028)%N then Uni "2" "0" "2" "8" :: marshalFrom fuel (drop w b)
        else if (c =? 0x2029)%N then Uni "2" "0" "2" "9" :: marshalFrom fuel (drop w b)
        else (Plain <$> take w b) ++ marshalFrom fuel (drop w b)
  end.
Definition marshalString (s : bytes) : list schar := marshalFrom (length s) s.

(** ** [ParseEnvelope] *)
Record Envelope := {
  en_Method : bytes;
  en_Params : list any;
  en_Canonical : bytes;
  en_members : list (option bytes);
  en_fieldVariant : bytes }.

Definition memberOf (members : list (option bytes)) (i : nat) : option bytes := mjoin (members !! i).

(** The members in order, without the metadata when asked for. *)
Definition canonicalMembers (members : list (option bytes)) (method : bytes) (withMetadata : bool)
  : list bytes :=
  concat (imap (fun idx name =>
    match memberOf members idx with
    | None => []
    | Some raw =>
        if negb withMetadata && (Nat.eqb idx memberVisibleTo || Nat.eqb idx memberPrivateFor) then []
        else
          let raw := if Nat.eqb idx memberMethod then renderStr (marshalString method) else raw in
          [dquote :: name ++ dquote :: ":"%char :: raw]
    end) forwardedMembers).

Definition buildCanonical (members : list (option bytes)) (method : bytes) (withMetadata : bool) : bytes :=
  "{"%char :: joinComma (canonicalMembers members method withMetadata) ++ ["}"%char].

Definition IsBatchRequest (body : bytes) : bool :=
  match TrimSpace (stringOf body) with String a _ => Ascii.eqb a "[" | EmptyString => false end.

(** [json.Unmarshal] of a member's text into a string, into [any], into a slice. *)
Definition unmarshalStr (raw : bytes) : option bytes :=
  t ← parseText raw;
  match it_val t with
  | Str s => Some (unquote s)
  | Lit tok => if decide (tok = tokNull) then Some [] else None
  | _ => None
  end.
Definition unmarshalAny (raw : bytes) : option any := t ← parseText raw; decodeAny (it_val t).
Definition unmarshalSlice (raw : bytes) : option (list any) :=
  v ← unmarshalAny raw;
  match v with ANull => Some [] | AArr l => Some l | _ => None end.

(** A member that is absent decodes to the zero value. *)
Definition memberAs {A} (zero : A) (f : bytes -> option A) (msg : string) (raw : option bytes) : result A :=
  match raw with
  | None => Ok zero
  | Some raw => match f raw with Some v => Ok v | None => Err (parseError msg) end
  end.

Definition idOk (v : any) : bool := match v with AStr _ | ANum _ | ANull => true | _ => false end.

Definition ParseEnvelope `{Unicode} (body : bytes) : result Envelope :=
  if IsBatchRequest body then Err ErrBatchRequest
  else if negb (utf8_valid body) then Err (parseError "body is not valid UTF-8")
  else if negb (bool_decide (is_Some (parseText body))) then Err (parseError "malformed JSON")
  else
    '(members, fieldVariant) ← scanEnvelope body;
    _ ← memberAs [] unmarshalStr "jsonrpc" (memberOf members memberJSONRPC);
    id ← memberAs ANull unmarshalAny "id" (memberOf members memberID);
    if negb (idOk id) then Err (parseError "id must be a string, a number or null")
    else
      method ← memberAs [] unmarshalStr "method" (memberOf members memberMethod);
      params ← memberAs [] unmarshalSlice "params" (memberOf members memberParams);
      Ok {| en_Method := method; en_Params := params;
            en_Canonical := buildCanonical members method true;
            en_members := members; en_fieldVariant := fieldVariant |}.

Definition SetMethod (method : bytes) (e : Envelope) : Envelope :=
  match memberOf (en_members e) memberMethod with
  | None => e
  | Some _ =>
      {| en_Method := method; en_Params := en_Params e;
         en_Canonical := buildCanonical (en_members e) method true;
         en_members := en_members e; en_fieldVariant := en_fieldVariant e |}
  end.

Definition CanonicalWithoutMetadata (e : Envelope) : bytes :=
  match memberOf (en_members e) memberVisibleTo, memberOf (en_members e) memberPrivateFor with
  | None, None => en_Canonical e
  | _, _ => buildCanonical (en_members e) (en_Method e) false
  end.

Section conflict.
Context `{Unicode}.

(** [dataInputConflict]; the disjunction does not depend on the order of a map. *)
Fixpoint dataInputConflict (v : any) : bool :=
  match v with
  | AArr l => existsb dataInputConflict l
  | AObj m =>
      match m !! "data", m !! "input" with
      | Some (AStr d), Some (AStr i) => negb (EqualFoldUnicode d i)
      | Some _, Some _ => true
      | _, _ => false
      end || map_fold (fun _ item acc => dataInputConflict item || acc) false m
  | _ => false
  end.

Definition ParamsAmbiguity (e : Envelope) : string :=
  if decide (en_fieldVariant e <> []) then "case variant of a request field in params"
  else if dataInputConflict (AArr (en_Params e)) then "data and input differ in params"
  else "".

End conflict.

(** ** [ParseAndValidateBody] *)
Record ProcessError := { pe_StatusCode : Z; pe_Message : string }.
Definition MaxRequestBodySize : Z := 1048576.

Section validate.
Context `{Unicode} (reg : Registries).

Definition ambiguousParams (e : Envelope) : string :=
  if IsPassthroughMethod reg (CanonicalizeMethod (stringOf (en_Method e))) then ""
  else ParamsAmbiguity e.

(** Method, params and the body to forward; or the refusal. *)
Definition ParseAndValidateBody (body : bytes) : (string * list any * bytes) + ProcessError :=
  if (MaxRequestBodySize <? Z.of_nat (length body))%Z
  then inr {| pe_StatusCode := 413; pe_Message := "request body too large" |}
  else match ParseEnvelope body with
  | Err e =>
      inr {| pe_StatusCode := 400;
             pe_Message := if decide (e = ErrBatchRequest)
                           then "batch JSON-RPC requests are not supported for security reasons"
                           else "invalid JSON-RPC request" |}
  | Ok env =>
      let env := SetMethod (bytesOf (CanonicalizeMethod (stringOf (en_Method env)))) env in
      if decide (ambiguousParams env <> "")
      then inr {| pe_StatusCode := 400; pe_Message := "invalid JSON-RPC request" |}
      else
        let m := stringOf (en_Method env) in
        inl (m, en_Params env,
             if bool_decide (m = "eth_sendTransaction" \/ m = "eth_sendRawTransaction")
             then en_Canonical env else CanonicalWithoutMetadata env)
  end.
End validate.
