(* ===== verification/EnvelopeProps.v ===== *)
(** * Correctness of the request envelope.

    The byte scanner computes a function of the syntax tree of the body
    ([scan_text]), so a request it accepts has one reading: no object repeats a
    member name up to case, and no top-level name is a variant of a forwarded
    one.  The forwarded body reads back as the envelope that was checked. *)
From S2P Require Import Prelude GoStrings Methods Models JsonText Envelope.
From Stdlib Require Import Ascii.

(** ** [keySet] is a set *)
Definition keys_of (s : keySet) : gset bytes :=
  match ks_large s with Some l => l | None => list_to_set (ks_small s) end.

Lemma add_set s k :
  match add s k with
  | None => k ∈ keys_of s
  | Some s' => k ∉ keys_of s /\ keys_of s' = {[ k ]} ∪ keys_of s
  end.
Proof.
  unfold add, keys_of. destruct (ks_large s) as [l|].
  { case_decide; simpl; [done|]. done. }
  destruct (existsb _ _) eqn:E.
  - apply existsb_exists in E as (x & Hx%list_elem_of_In & ->%bool_decide_eq_true). set_solver.
  - assert (Hk : k ∉ ks_small s).
    { intros Hk. apply not_true_iff_false in E. apply E, existsb_exists. exists k.
      split; [by apply list_elem_of_In|by apply bool_decide_eq_true]. }
    destruct (Nat.ltb _ _); simpl; (split; [set_solver|set_solver]).
Qed.

(** ** Specification: the scan of a tree *)

(** Surrogate escapes come in pairs. *)
Fixpoint surrogates_ok (s : list schar) : bool :=
  match s with
  | [] => true
  | Uni h1 h2 h3 h4 :: s' =>
      let v := hex4 h1 h2 h3 h4 in
      if is_high v then
        match s' with
        | Uni g1 g2 g3 g4 :: s'' => is_low (hex4 g1 g2 g3 g4) && surrogates_ok s''
        | _ => false
        end
      else negb (is_low v) && surrogates_ok s'
  | _ :: s' => surrogates_ok s'
  end.

Definition surrogateError : string := parseError "unpaired surrogate escape".

Section spec.
Context `{Unicode}.

(** The first case variant of a request field, if none was met before. *)
Definition noteVariant (inParams : bool) (key : bytes) (fv : bytes) : bytes :=
  if inParams && bool_decide (fv = []) then
    match paramFieldLooseFolds !! looseFoldKey key with
    | Some canonical => if decide (canonical <> key) then key else fv
    | None => fv
    end
  else fv.

Fixpoint walkValue (inParams : bool) (v : value) (fv : bytes) : result bytes :=
  match v with
  | Lit _ => Ok fv
  | Str s => if surrogates_ok s then Ok fv else Err surrogateError
  | Arr _ l =>
      (fix go (l : list (item value)) (fv : bytes) : result bytes :=
         match l with
         | [] => Ok fv
         | it :: l => match walkValue inParams (it_val it) fv with Ok fv => go l fv | Err e => Err e end
         end) l fv
  | Obj _ l =>
      (fix go (l : list (mem value)) (keys : gset bytes) (fv : bytes) : result bytes :=
         match l with
         | [] => Ok fv
         | m :: l =>
             if negb (surrogates_ok (mb_key m)) then Err surrogateError
             else if decide (foldKey (unquote (mb_key m)) ∈ keys) then Err ErrAmbiguousRequest
             else match walkValue inParams (mb_val m) (noteVariant inParams (unquote (mb_key m)) fv) with
                  | Ok fv => go l ({[ foldKey (unquote (mb_key m)) ]} ∪ keys) fv
                  | Err e => Err e
                  end
         end) l ∅ fv
  end.

(** The members of the top-level object. *)
Fixpoint walkTop (l : list (mem value)) (keys : gset bytes) (members : list (option bytes)) (fv : bytes)
  : result (list (option bytes) * bytes) :=
  match l with
  | [] => Ok (members, fv)
  | m :: l =>
      let key := unquote (mb_key m) in
      if negb (surrogates_ok (mb_key m)) then Err surrogateError
      else if decide (foldKey key ∈ keys) then Err ErrAmbiguousRequest
      else
        match reservedLooseFolds !! looseFoldKey key with
        | Some canonical =>
            if decide (canonical <> key) then Err ErrAmbiguousRequest
            else
              let i := fst <$> list_find (fun n => n = key) forwardedMembers in
              fv ← walkValue (bool_decide (i = Some memberParams)) (mb_val m) fv;
              walkTop l ({[ foldKey key ]} ∪ keys)
                (match i with Some i => <[i := Some (render (mb_val m))]> members | None => members end) fv
        | None =>
            fv ← walkValue false (mb_val m) fv;
            walkTop l ({[ foldKey key ]} ∪ keys) members fv
        end
  end.

Definition walkText (t : item value) : result (list (option bytes) * bytes) :=
  match it_val t with
  | Obj _ l => walkTop l ∅ (replicate 6 None) []
  | _ => Err (parseError "not a JSON object")
  end.
End spec.

(** ** Strings *)
Lemma hex_head_not_special h : is_hex h = true -> h <> dquote /\ h <> backslash.
Proof. intros H. split; intros ->; done. Qed.

Lemma unquote_app_plain (s : list schar) : forallb (fun c => match c with Plain _ => true | _ => false end) s = true ->
  unquote s = renderChars s.
Proof.
  induction s as [|c s IH]; [done|]. cbn [forallb]. intros [Hc Hs]%andb_true_iff.
  destruct c; try done. cbn [unquote]. rewrite IH by done. done.
Qed.

Definition has_escape (s : list schar) : bool :=
  existsb (fun c => match c with Plain _ => false | _ => true end) s.

Lemma no_escape_unquote s : has_escape s = false -> unquote s = renderChars s.
Proof.
  intros Hs. apply unquote_app_plain. apply forallb_forall. intros c Hc.
  destruct c; [done|exfalso..]; apply not_true_iff_false in Hs; apply Hs, existsb_exists; eauto.
Qed.

Lemma scanJSONString_ok s r : str_ok s = true ->
  scanJSONString (renderChars s ++ dquote :: r) =
  if surrogates_ok s then Ok (renderChars s, has_escape s, r) else Err surrogateError.
Proof.
  remember (length s) as n eqn:En. revert s En. induction (lt_wf n) as [n _ IH].
  intros [|c s] ->; [done|]. unfold str_ok. cbn [forallb]. intros [Hc Hs]%andb_true_iff.
  change (renderChars (c :: s)) with (renderChar c ++ renderChars s). rewrite <- app_assoc.
  assert (IHs := IH (length s) ltac:(simpl; lia) s eq_refl Hs).
  destruct c as [a|a|h1 h2 h3 h4]; cbn [renderChar app].
  - apply plain_ok_inv in Hc as [H1 H2]. cbn [scanJSONString surrogates_ok].
    destruct (Ascii.eqb_spec a dquote); [done|]. destruct (Ascii.eqb_spec a backslash); [done|].
    rewrite IHs. by destruct (surrogates_ok s).
  - apply esc_ok_inv in Hc as Hne. cbn [scanJSONString surrogates_ok].
    destruct (Ascii.eqb_spec backslash dquote); [done|]. rewrite Ascii.eqb_refl.
    destruct (Ascii.eqb_spec a "u"); [done|]. cbn [negb]. rewrite IHs. by destruct (surrogates_ok s).
  - cbn [scanJSONString surrogates_ok]. destruct (Ascii.eqb_spec backslash dquote); [done|].
    rewrite Ascii.eqb_refl. change (Ascii.eqb "u" "u") with true. cbn [negb].
    destruct (is_high (hex4 h1 h2 h3 h4)) eqn:Eh.
    + destruct s as [|[a|a|g1 g2 g3 g4] s].
      * cbn. destruct r as [|? [|? [|? [|? [|? ?]]]]]; done.
      * cbn [forallb schar_ok] in Hs. apply andb_true_iff in Hs as [[_ Hb]%plain_ok_inv _].
        change (renderChars (Plain a :: s)) with (a :: renderChars s). cbn [app].
        generalize (renderChars s ++ dquote :: r). intros l.
        destruct l as [|? [|? [|? [|? [|? ?]]]]]; try done. by destruct (Ascii.eqb_spec a backslash).
      * cbn [forallb schar_ok] in Hs. apply andb_true_iff in Hs as [Hb%esc_ok_inv _].
        change (renderChars (Esc a :: s)) with (backslash :: a :: renderChars s). cbn [app].
        generalize (renderChars s ++ dquote :: r). intros l.
        destruct l as [|? [|? [|? [|? ?]]]]; try done. rewrite Ascii.eqb_refl.
        by destruct (Ascii.eqb_spec a "u").
      * change (renderChars (Uni g1 g2 g3 g4 :: s)) with
          ([backslash; "u"%char; g1; g2; g3; g4] ++ renderChars s).
        cbn [app]. rewrite Ascii.eqb_refl. change (Ascii.eqb "u" "u") with true. cbn [andb].
        destruct (is_low (hex4 g1 g2 g3 g4)); [|done].
        cbn [forallb] in Hs. apply andb_true_iff in Hs as [_ Hs].
        rewrite (IH (length s) ltac:(simpl; lia) s eq_refl Hs). cbn [andb]. by destruct (surrogates_ok s).
    + destruct (is_low _); [done|]. cbn [negb andb]. rewrite IHs. by destruct (surrogates_ok s).
Qed.

(** The key the scanner reads. *)
Lemma read_key s : str_ok s = true ->
  (if has_escape s then (unquote ∘ fst) <$> pstring (renderChars s ++ [dquote]) else Some (renderChars s)) =
  Some (unquote s).
Proof.
  intros Hs. destruct (has_escape s) eqn:E.
  - by rewrite pstring_complete.
  - by rewrite no_escape_unquote.
Qed.

(** ** Evaluation of the loop *)
Section eval.
Context `{Unicode}.

Inductive eval : scanner -> result (list (option bytes) * bytes) -> Prop :=
| eval_return s r : scanStep s = inr r -> eval s r
| eval_step s s' r : scanStep s = inl s' -> eval s' r -> eval s r.

(** A string consumes what it reads. *)
Lemma scanJSONString_shorter b c e r : scanJSONString b = Ok (c, e, r) -> length r < length b.
Proof.
  remember (length b) as n eqn:En. revert b c e r En. induction (lt_wf n) as [n _ IH].
  intros b c e r ->. destruct b as [|a b]; [done|]. cbn [scanJSONString].
  destruct (Ascii.eqb a dquote); [intros [= _ _ <-]; simpl; lia|].
  assert (Hrec : forall b' f, length b' <= length b ->
    ('(c, _, r) ← scanJSONString b'; Ok (f c : bytes, true, r)) = Ok (c, e, r) -> length r < length (a :: b)).
  { intros b' f Hb' ([[c' e'] r'] & Hr & [= _ _ <-])%bind_Ok. apply (IH (length b')) in Hr; simpl in *; lia. }
  destruct (Ascii.eqb a backslash).
  - destruct b as [|x b]; [done|]. destruct (negb _).
    { intros Hx. apply (Hrec b (fun c => a :: x :: c)); [simpl; lia|exact Hx]. }
    destruct b as [|h1 [|h2 [|h3 [|h4 b]]]]; try done. destruct (is_high _).
    + destruct b as [|b1 [|u [|g1 [|g2 [|g3 [|g4 b]]]]]]; try done. destruct (_ && _); [|done].
      intros Hx. eapply (Hrec b (fun c => _)); [simpl; lia|exact Hx].
    + destruct (is_low _); [done|]. intros Hx. eapply (Hrec b (fun c => _)); [simpl; lia|exact Hx].
  - intros ([[c' e'] r'] & Hr & [= _ _ <-])%bind_Ok. apply (IH (length b)) in Hr; simpl in *; lia.
Qed.

Lemma endMember_rest s : sc_rest (endMember s) = sc_rest s.
Proof. unfold endMember. destruct (sc_stack s) as [|? []]; [done| |done]. by destruct (sc_member s). Qed.

Lemma readKey_rest top st key r s s' : readKey top st key r s = inl s' -> sc_rest s' = r.
Proof.
  unfold readKey. destruct (add _ _); [|done]. destruct st.
  - destruct (_ !! _); [case_decide; [done|]|]; by intros [= <-].
  - destruct (_ && _); [|by intros [= <-]]. destruct (_ !! _); [case_decide|]; by intros [= <-].
Qed.

Lemma scanStep_shorter s s' : scanStep s = inl s' -> length (sc_rest s') < length (sc_rest s).
Proof.
  unfold scanStep. destruct (sc_rest s) as [|c r] eqn:Er; [done|]. simpl.
  destruct (_ || _); [intros [= <-]; simpl; lia|].
  destruct (_ || _).
  { destruct (sc_stack (endMember s)) as [|? []]; try done. intros [= <-]. simpl. lia. }
  destruct (Ascii.eqb c ","%char).
  { destruct (sc_stack (endMember s)) as [|? ?]; try done. intros [= <-]. destruct (fr_object _); simpl; lia. }
  destruct (Ascii.eqb c dquote); [|intros [= <-]; simpl; lia].
  destruct (scanJSONString r) as [[[raw esc] r']|] eqn:Es; [|done].
  apply scanJSONString_shorter in Es. destruct (sc_stack s) as [|top st]; [done|].
  destruct (_ && _); [|intros [= <-]; simpl; lia].
  destruct (if esc then _ else _); [|done]. intros Hk%readKey_rest. rewrite Hk. lia.
Qed.

(** The fuel of [scanEnvelope] is enough. *)
Lemma eval_loop s r : eval s r -> forall fuel, length (sc_rest s) < fuel -> scanLoop fuel s = r.
Proof.
  induction 1 as [s r Hs|s s' r Hs _ IH]; intros [|fuel] Hf; try lia; simpl; rewrite Hs; [done|].
  apply IH. apply scanStep_shorter in Hs. lia.
Qed.
End eval.

(** ** The scanner follows the tree *)
Section simulation.
Context `{Unicode}.

Definition withVariant (fv : bytes) (s : scanner) : scanner :=
  {| sc_rest := sc_rest s; sc_stack := sc_stack s; sc_member := sc_member s;
     sc_valueStart := sc_valueStart s; sc_members := sc_members s; sc_fieldVariant := fv |}.

(** A byte the scanner steps over. *)
Definition quiet (a : ascii) : bool :=
  negb (Ascii.eqb a "{" || Ascii.eqb a "[" || Ascii.eqb a "}" || Ascii.eqb a "]" || Ascii.eqb a "," ||
        Ascii.eqb a dquote).

Lemma space_quiet a : is_space a = true -> quiet a = true.
Proof.
  unfold quiet. intros (H1 & H2 & H3 & H4 & H5 & H6)%is_space_inv.
  by repeat match goal with |- context [Ascii.eqb a ?c] => destruct (Ascii.eqb_spec a c) end.
Qed.

Lemma lit_quiet a : lit_char a = true -> quiet a = true.
Proof.
  unfold quiet. intros (_ & H1 & H2 & H3 & H4 & H5 & H6 & _)%lit_char_inv.
  by repeat match goal with |- context [Ascii.eqb a ?c] => destruct (Ascii.eqb_spec a c) end.
Qed.

Lemma forallb_impl {A} (p q : A -> bool) l :
  (forall a, p a = true -> q a = true) -> forallb p l = true -> forallb q l = true.
Proof. rewrite !forallb_forall. naive_solver. Qed.

Lemma withRest_self s b : sc_rest s = b -> withRest b s = s.
Proof. intros <-. by destruct s. Qed.

Lemma eval_quiet x : forallb quiet x = true -> forall s post r,
  sc_rest s = x ++ post -> eval (withRest post s) r -> eval s r.
Proof.
  induction x as [|a x IH]; intros Hx s post r Hs Hr.
  - simpl in Hs. by rewrite withRest_self in Hr.
  - cbn [forallb] in Hx. apply andb_true_iff in Hx as [Ha Hx]. cbn [app] in Hs.
    eapply eval_step; [|apply (IH Hx (withRest (x ++ post) s) post r); [done|exact Hr]].
    unfold scanStep. rewrite Hs. unfold quiet in Ha. rewrite negb_true_iff, !orb_false_iff in Ha.
    destruct Ha as [[[[[-> ->] ->] ->] ->] ->]. done.
Qed.

Lemma eval_ws ws : ws_ok ws = true -> forall s post r,
  sc_rest s = ws ++ post -> eval (withRest post s) r -> eval s r.
Proof. intros Hw. apply eval_quiet. eapply forallb_impl; [exact space_quiet|exact Hw]. Qed.

(** A position where a value is read: not one of a member name. *)
Definition value_position (s : scanner) : Prop :=
  exists top st, sc_stack s = top :: st /\ fr_object top && fr_wantKey top = false.

Definition follows (v : value) : Prop :=
  value_ok v = true -> forall inP s post r, sc_rest s = render v ++ post -> value_position s ->
  opensInParams s = inP ->
  match walkValue inP v (sc_fieldVariant s) with
  | Ok fv => eval (withVariant fv (withRest post s)) r
  | Err e => r = Err e
  end -> eval s r.

Lemma follows_Lit tok : follows (Lit tok).
Proof.
  intros Hok inP s post r Hs _ _ Hr. cbn [walkValue] in Hr.
  pose proof Hok as (_ & _ & _ & _ & Hall)%lit_ok_inv.
  apply (eval_quiet tok) with (post := post); [|done|exact Hr].
  eapply forallb_impl; [exact lit_quiet|exact Hall].
Qed.

Lemma follows_Str k : follows (Str k).
Proof.
  intros Hok inP s post r Hs (top & st & Hst & Hp) _ Hr. cbn [walkValue render value_ok] in *.
  unfold renderStr in Hs. rewrite <- app_comm_cons, <- app_assoc in Hs. cbn [app] in Hs.
  assert (Hscan : scanStep s = match scanJSONString (renderChars k ++ dquote :: post) with
    | Err e => inr (Err e)
    | Ok (_, _, r) => inl (withRest r s)
    end).
  { unfold scanStep. rewrite Hs, Hst, Hp. done. }
  rewrite scanJSONString_ok in Hscan by done. destruct (surrogates_ok k).
  - eapply eval_step; [exact Hscan|]. exact Hr.
  - subst r. by apply eval_return.
Qed.

(** The scanner at the bytes [b] with the stack [st] and the variant [fv]. *)
Definition at_ (s : scanner) (b : bytes) (st : list frame) (fv : bytes) : scanner :=
  {| sc_rest := b; sc_stack := st; sc_member := sc_member s; sc_valueStart := sc_valueStart s;
     sc_members := sc_members s; sc_fieldVariant := fv |}.

Definition arrFrame (inP : bool) : frame :=
  {| fr_object := false; fr_wantKey := false; fr_inParams := inP; fr_keys := noKeys |}.
Definition objFrame (wantKey inP : bool) (keys : keySet) : frame :=
  {| fr_object := true; fr_wantKey := wantKey; fr_inParams := inP; fr_keys := keys |}.

Lemma at_self s : at_ s (sc_rest s) (sc_stack s) (sc_fieldVariant s) = s.
Proof. by destruct s. Qed.

Lemma eval_at_ws ws s post st fv r :
  ws_ok ws = true -> eval (at_ s post st fv) r -> eval (at_ s (ws ++ post) st fv) r.
Proof. intros Hw Hr. by apply (eval_ws ws Hw _ post). Qed.

Lemma eval_at_colon s post st fv r : eval (at_ s post st fv) r -> eval (at_ s (":"%char :: post) st fv) r.
Proof. intros Hr. by apply (eval_quiet [":"%char] eq_refl _ post). Qed.

Lemma eval_at_value v s post fr st fv inP r :
  follows v -> value_ok v = true -> fr_object fr && fr_wantKey fr = false ->
  opensInParams (at_ s (render v ++ post) (fr :: st) fv) = inP ->
  match walkValue inP v fv with
  | Ok fv' => eval (at_ s post (fr :: st) fv') r
  | Err e => r = Err e
  end -> eval (at_ s (render v ++ post) (fr :: st) fv) r.
Proof. intros Hf Hv Hfr Hin Hr. apply (Hf Hv inP _ post r); [done|by exists fr, st|done|exact Hr]. Qed.

Lemma opens_at s b fr st fv : st <> [] -> opensInParams (at_ s b (fr :: st) fv) = fr_inParams fr.
Proof. intros Hne. unfold opensInParams. simpl. rewrite bool_decide_eq_false_2 by done. apply orb_false_r. Qed.

Lemma endMember_at s b fr st fv : st <> [] -> endMember (at_ s b (fr :: st) fv) = at_ s b (fr :: st) fv.
Proof. intros Hne. unfold endMember. simpl. by destruct st. Qed.

(** The three structural bytes inside a nested frame. *)
Lemma eval_at_open s post (object : bool) st fv r :
  st <> [] ->
  eval (at_ s post ({| fr_object := object; fr_wantKey := object;
                       fr_inParams := opensInParams (at_ s [] st fv); fr_keys := noKeys |} :: st) fv) r ->
  eval (at_ s ((if object then "{" else "[")%char :: post) st fv) r.
Proof. intros Hne Hr. eapply eval_step; [|exact Hr]. by destruct object. Qed.

Lemma eval_at_close s post (object : bool) fr st fv r :
  st <> [] -> eval (at_ s post st fv) r ->
  eval (at_ s ((if object then "}" else "]")%char :: post) (fr :: st) fv) r.
Proof.
  intros Hne Hr. eapply eval_step; [|exact Hr]. unfold scanStep. cbn [sc_rest at_].
  set (c := if object then "}"%char else "]"%char).
  assert (H1 : Ascii.eqb c "{" || Ascii.eqb c "[" = false) by by destruct object.
  assert (H2 : Ascii.eqb c "}" || Ascii.eqb c "]" = true) by by destruct object.
  rewrite H1, H2, endMember_at by done. cbn [sc_stack at_]. by destruct st.
Qed.

Lemma eval_at_comma s post fr st fv r :
  st <> [] ->
  eval (at_ s post ((if fr_object fr then objFrame true (fr_inParams fr) (fr_keys fr) else fr) :: st) fv) r ->
  eval (at_ s (","%char :: post) (fr :: st) fv) r.
Proof.
  intros Hne Hr. eapply eval_step; [|exact Hr]. unfold scanStep. cbn [sc_rest at_].
  change (Ascii.eqb "," "{" || Ascii.eqb "," "[") with false.
  change (Ascii.eqb "," "}" || Ascii.eqb "," "]") with false.
  change (Ascii.eqb "," ",") with true. cbv iota.
  rewrite endMember_at by done. cbn [sc_stack at_]. by destruct (fr_object fr).
Qed.

(** The specification of the loops over items and over members. *)
Fixpoint walkItems (inP : bool) (l : list (item value)) (fv : bytes) : result bytes :=
  match l with
  | [] => Ok fv
  | it :: l => match walkValue inP (it_val it) fv with Ok fv => walkItems inP l fv | Err e => Err e end
  end.
Fixpoint walkMembers (inP : bool) (l : list (mem value)) (keys : gset bytes) (fv : bytes) : result bytes :=
  match l with
  | [] => Ok fv
  | m :: l =>
      if negb (surrogates_ok (mb_key m)) then Err surrogateError
      else if decide (foldKey (unquote (mb_key m)) ∈ keys) then Err ErrAmbiguousRequest
      else match walkValue inP (mb_val m) (noteVariant inP (unquote (mb_key m)) fv) with
           | Ok fv => walkMembers inP l ({[ foldKey (unquote (mb_key m)) ]} ∪ keys) fv
           | Err e => Err e
           end
  end.

Lemma walkValue_Arr inP ws l fv : walkValue inP (Arr ws l) fv = walkItems inP l fv.
Proof. revert fv. induction l as [|it l IH]; intros fv; [done|]. simpl in *. destruct (walkValue _ _ _); [apply IH|done]. Qed.

Lemma walkValue_Obj inP ws l fv : walkValue inP (Obj ws l) fv = walkMembers inP l ∅ fv.
Proof.
  cbn [walkValue]. generalize (∅ : gset bytes). revert fv. induction l as [|m l IH]; intros fv keys; [done|].
  cbn [walkMembers]. destruct (negb _); [done|]. destruct (decide _); [done|].
  destruct (walkValue _ _ _); [apply IH|done].
Qed.

Lemma follows_items l : Forall (fun it => follows (it_val it)) l -> l <> [] -> forallb item_ok l = true ->
  forall inP s post st fv r, st <> [] ->
  match walkItems inP l fv with Ok fv' => eval (at_ s post st fv') r | Err e => r = Err e end ->
  eval (at_ s (joinComma (map renderItem l) ++ "]"%char :: post) (arrFrame inP :: st) fv) r.
Proof.
  induction 1 as [|[ws1 v ws2] l Hv Hl IH]; [done|]. intros _ Hok inP s post st fv r Hne Hr.
  cbn [forallb] in Hok. apply andb_true_iff in Hok as [Hit Hok].
  unfold item_ok in Hit. cbn [it_pre it_val it_post] in *.
  apply andb_true_iff in Hit as [[Hw1 Hvok]%andb_true_iff Hw2]. cbn [walkItems it_val] in Hr.
  assert (Hj : exists rest, joinComma (map renderItem (Build_item ws1 v ws2 :: l)) ++ "]"%char :: post =
      ws1 ++ render v ++ ws2 ++ rest /\
    forall fv1, match walkItems inP l fv1 with Ok fv' => eval (at_ s post st fv') r | Err e => r = Err e end ->
      eval (at_ s rest (arrFrame inP :: st) fv1) r).
  { destruct l as [|it l].
    - exists ("]"%char :: post). simpl. rewrite app_nil_r. unfold renderItem. simpl. rewrite <- !app_assoc.
      split; [done|]. intros fv1 Hr1. by apply (eval_at_close s post false).
    - exists (","%char :: joinComma (map renderItem (it :: l)) ++ "]"%char :: post).
      cbn [map]. rewrite joinComma_cons2. unfold renderItem at 1. cbn [it_pre it_val it_post].
      rewrite <- !app_assoc. split; [done|]. intros fv1 Hr1. apply eval_at_comma; [done|]. by apply IH. }
  destruct Hj as (rest & -> & Hrest). apply eval_at_ws; [done|].
  apply eval_at_value with (inP := inP); [done|done|done|by rewrite opens_at|].
  destruct (walkValue inP v fv) as [fv1|e]; [|exact Hr].
  apply eval_at_ws; [done|]. by apply Hrest.
Qed.

Lemma follows_Arr ws l : Forall (fun it => follows (it_val it)) l -> follows (Arr ws l).
Proof.
  intros IH Hok inP s post r Hs (top & st & Hst & Hp) Hin Hr. rewrite walkValue_Arr in Hr.
  rewrite render_Arr, <- app_comm_cons, <- !app_assoc in Hs. cbn [app] in Hs.
  cbn [value_ok] in Hok. rewrite !andb_true_iff in Hok. destruct Hok as [[Hws _] Hl].
  rewrite <- (at_self s). rewrite Hs.
  assert (Hne : sc_stack s <> []) by by rewrite Hst.
  apply (eval_at_open s _ false); [done|]. apply eval_at_ws; [done|].
  assert (Hi : opensInParams (at_ s [] (sc_stack s) (sc_fieldVariant s)) = inP) by exact Hin. rewrite Hi.
  destruct (decide (l = [])) as [->|Hl0].
  - simpl. apply (eval_at_close s post false); [done|]. exact Hr.
  - by apply (follows_items l IH Hl0 Hl inP s post).
Qed.

(** A string at a member-name position is read by [readKey]. *)
Lemma scanStep_key s k post fr st fv :
  str_ok k = true -> fr_object fr && fr_wantKey fr = true ->
  scanStep (at_ s (renderStr k ++ post) (fr :: st) fv) =
  if surrogates_ok k then readKey fr st (unquote k) post (at_ s (renderStr k ++ post) (fr :: st) fv)
  else inr (Err surrogateError).
Proof.
  intros Hk Hfr. unfold renderStr. rewrite <- app_comm_cons, <- app_assoc. cbn [app].
  unfold scanStep. cbn [sc_rest at_ sc_stack].
  change (Ascii.eqb dquote "{" || Ascii.eqb dquote "[") with false.
  change (Ascii.eqb dquote "}" || Ascii.eqb dquote "]") with false.
  change (Ascii.eqb dquote ",") with false. rewrite Ascii.eqb_refl. cbv iota.
  rewrite scanJSONString_ok by done. destruct (surrogates_ok k); [|done].
  rewrite Hfr, read_key by done. done.
Qed.

Lemma eval_at_key s k post inP ks st fv r :
  st <> [] -> str_ok k = true ->
  (if negb (surrogates_ok k) then r = Err surrogateError
   else if decide (foldKey (unquote k) ∈ keys_of ks) then r = Err ErrAmbiguousRequest
   else forall ks', keys_of ks' = {[ foldKey (unquote k) ]} ∪ keys_of ks ->
     eval (at_ s post (objFrame false inP ks' :: st) (noteVariant inP (unquote k) fv)) r) ->
  eval (at_ s (renderStr k ++ post) (objFrame true inP ks :: st) fv) r.
Proof.
  intros Hne Hk Hr. pose proof (scanStep_key s k post (objFrame true inP ks) st fv Hk eq_refl) as Hs.
  destruct (surrogates_ok k); cbn [negb] in Hr; [|subst r; by apply eval_return].
  pose proof (add_set ks (foldKey (unquote k))) as Ha.
  unfold readKey in Hs. cbn [objFrame fr_keys fr_inParams fr_object] in Hs.
  destruct (add ks (foldKey (unquote k))) as [ks'|].
  - destruct Ha as [Hnin Hks]. rewrite decide_False in Hr by done. specialize (Hr ks' Hks).
    destruct st as [|fr0 st]; [done|]. eapply eval_step; [|exact Hr]. rewrite Hs. unfold noteVariant.
    cbn [withStack withRest at_ sc_fieldVariant]. destruct (_ && _); [|done].
    destruct (_ !! _) as [canonical|]; [|done]. by case_decide.
  - rewrite decide_True in Hr by done. subst r. by apply eval_return.
Qed.

Lemma follows_members l : Forall (fun m => follows (mb_val m)) l -> l <> [] -> forallb mem_ok l = true ->
  forall inP s post ks st fv r, st <> [] ->
  match walkMembers inP l (keys_of ks) fv with Ok fv' => eval (at_ s post st fv') r | Err e => r = Err e end ->
  eval (at_ s (joinComma (map renderMem l) ++ "}"%char :: post) (objFrame true inP ks :: st) fv) r.
Proof.
  induction 1 as [|[ws1 k ws2 ws3 v ws4] l Hv Hl IH]; [done|]. intros _ Hok inP s post ks st fv r Hne Hr.
  cbn [forallb] in Hok. apply andb_true_iff in Hok as [Hm Hok].
  unfold mem_ok in Hm. cbn [mb_pre mb_key mb_mid mb_aft mb_val mb_post] in *.
  rewrite !andb_true_iff in Hm. destruct Hm as [[[[[Hw1 Hk] Hw2] Hw3] Hvok] Hw4].
  cbn [walkMembers mb_key mb_val] in Hr.
  assert (Hj : exists rest, joinComma (map renderMem (Build_mem ws1 k ws2 ws3 v ws4 :: l)) ++ "}"%char :: post =
      ws1 ++ renderStr k ++ ws2 ++ ":"%char :: ws3 ++ render v ++ ws4 ++ rest /\
    forall ks1 fv1,
      match walkMembers inP l (keys_of ks1) fv1 with Ok fv' => eval (at_ s post st fv') r | Err e => r = Err e end ->
      eval (at_ s rest (objFrame false inP ks1 :: st) fv1) r).
  { destruct l as [|m l].
    - exists ("}"%char :: post). simpl. rewrite app_nil_r. unfold renderMem. simpl.
      repeat (rewrite <- app_assoc; simpl). split; [done|]. intros ks1 fv1 Hr1. by apply (eval_at_close s post true).
    - exists (","%char :: joinComma (map renderMem (m :: l)) ++ "}"%char :: post).
      cbn [map]. rewrite joinComma_cons2. unfold renderMem at 1. cbn [mb_pre mb_key mb_mid mb_aft mb_val mb_post].
      rewrite <- !app_assoc, <- !app_comm_cons, <- !app_assoc. split; [done|].
      intros ks1 fv1 Hr1. apply eval_at_comma; [done|]. by apply IH. }
  destruct Hj as (rest & -> & Hrest). apply eval_at_ws; [done|]. apply eval_at_key; [done|done|].
  destruct (negb _); [exact Hr|]. destruct (decide _); [exact Hr|]. intros ks' Hks.
  apply eval_at_ws; [done|]. apply eval_at_colon, eval_at_ws; [done|].
  apply eval_at_value with (inP := inP); [done|done|done|by rewrite opens_at|].
  destruct (walkValue _ _ _) as [fv1|e]; [|exact Hr].
  apply eval_at_ws; [done|]. apply (Hrest ks'). by rewrite Hks.
Qed.

Lemma follows_Obj ws l : Forall (fun m => follows (mb_val m)) l -> follows (Obj ws l).
Proof.
  intros IH Hok inP s post r Hs (top & st & Hst & Hp) Hin Hr. rewrite walkValue_Obj in Hr.
  rewrite render_Obj, <- app_comm_cons, <- !app_assoc in Hs. cbn [app] in Hs.
  cbn [value_ok] in Hok. rewrite !andb_true_iff in Hok. destruct Hok as [[Hws _] Hl].
  rewrite <- (at_self s). rewrite Hs.
  assert (Hne : sc_stack s <> []) by by rewrite Hst.
  apply (eval_at_open s _ true); [done|]. apply eval_at_ws; [done|].
  assert (Hi : opensInParams (at_ s [] (sc_stack s) (sc_fieldVariant s)) = inP) by exact Hin. rewrite Hi.
  destruct (decide (l = [])) as [->|Hl0].
  - simpl. apply (eval_at_close s post true); [done|]. exact Hr.
  - by apply (follows_members l IH Hl0 Hl inP s post noKeys).
Qed.

Lemma follows_value v : follows v.
Proof.
  induction v as [tok|s|ws l IH|ws l IH] using value_nested_ind;
    [apply follows_Lit|apply follows_Str|by apply follows_Arr|by apply follows_Obj].
Qed.
(** ** The top-level object *)

(** The last byte of a value. *)
Lemma render_last v : value_ok v = true -> exists x a, render v = x ++ [a] /\ is_space a = false.
Proof.
  destruct v as [tok|k|ws l|ws l]; cbn [value_ok]; intros Hok.
  - apply lit_ok_inv in Hok as (a & x & Ht & _ & Hall). cbn [render].
    destruct (exists_last (l := tok)) as (y & z & ->); [by rewrite Ht|].
    exists y, z. split; [done|]. rewrite forallb_app in Hall. apply andb_true_iff in Hall as [_ Hz].
    cbn [forallb] in Hz. rewrite andb_true_r in Hz. by apply lit_char_inv in Hz as [? _].
  - exists (dquote :: renderChars k), dquote. done.
  - rewrite render_Arr. eexists ("["%char :: ws ++ _), "]"%char. cbn [app]. by rewrite <- app_assoc.
  - rewrite render_Obj. eexists ("{"%char :: ws ++ _), "}"%char. cbn [app]. by rewrite <- app_assoc.
Qed.

Lemma skip_ws ws a r : ws_ok ws = true -> is_space a = false -> skipJSONSpace (ws ++ a :: r) = a :: r.
Proof.
  intros Hw Ha. induction ws as [|w ws IH]; simpl; [by rewrite Ha|].
  cbn [ws_ok forallb] in Hw. apply andb_true_iff in Hw as [-> Hw]. by apply IH.
Qed.

Lemma skip_value ws v r : ws_ok ws = true -> value_ok v = true ->
  skipJSONSpace (ws ++ render v ++ r) = render v ++ r.
Proof. intros Hw Hv. destruct (render_head v Hv) as (a & x & -> & Ha & _). by apply skip_ws. Qed.

Lemma ws_ok_reverse ws : ws_ok ws = true -> ws_ok (reverse ws) = true.
Proof.
  unfold ws_ok. rewrite !forallb_forall. intros Hw a Ha. apply Hw.
  rewrite <- list_elem_of_In in *. by apply elem_of_reverse.
Qed.

(** What [endMember] stores is the text of the value. *)
Lemma trimRight_value v ws : value_ok v = true -> ws_ok ws = true -> trimRightSpace (render v ++ ws) = render v.
Proof.
  intros Hv Hw. destruct (render_last v Hv) as (x & a & -> & Ha). unfold trimRightSpace.
  rewrite !reverse_app, reverse_singleton. cbn [app]. rewrite skip_ws by (done || by apply ws_ok_reverse).
  by rewrite reverse_cons, reverse_involutive.
Qed.

(** The scanner outside a nested frame. *)
Definition ctx (member : option nat) (vs : bytes) (members : list (option bytes)) : scanner :=
  {| sc_rest := []; sc_stack := []; sc_member := member; sc_valueStart := vs;
     sc_members := members; sc_fieldVariant := [] |}.

Definition storeMember (i : option nat) (raw : bytes) (members : list (option bytes)) : list (option bytes) :=
  match i with Some i => <[i := Some raw]> members | None => members end.

(** The start of the value that is being read, if one is. *)
Definition starts (i : option nat) (vs b : bytes) : Prop := i = None \/ vs = b.

Lemma endMember_top i vs v ws rest ms fr fv :
  value_ok v = true -> ws_ok ws = true -> starts i vs (render v ++ ws ++ rest) ->
  endMember (at_ (ctx i vs ms) rest [fr] fv) = at_ (ctx None vs (storeMember i (render v) ms)) rest [fr] fv.
Proof.
  intros Hv Hw [->| ->]; [done|]. destruct i as [i|]; [|done]. unfold endMember. simpl.
  replace (length (render v ++ ws ++ rest) - length rest) with (length (render v ++ ws))
    by (rewrite !length_app; lia).
  rewrite app_assoc, take_app_length, trimRight_value by done. by rewrite <- app_assoc.
Qed.

Lemma eval_top_key k post vs ms ks fv r :
  str_ok k = true ->
  (if negb (surrogates_ok k) then r = Err surrogateError
   else if decide (foldKey (unquote k) ∈ keys_of ks) then r = Err ErrAmbiguousRequest
   else match reservedLooseFolds !! looseFoldKey (unquote k) with
   | Some canonical =>
       if decide (canonical <> unquote k) then r = Err ErrAmbiguousRequest
       else forall ks', keys_of ks' = {[ foldKey (unquote k) ]} ∪ keys_of ks ->
         eval (at_ (ctx (fst <$> list_find (fun n => n = unquote k) forwardedMembers)
                        (skipJSONSpace (tail (skipJSONSpace post))) ms) post [objFrame false false ks'] fv) r
   | None => forall ks', keys_of ks' = {[ foldKey (unquote k) ]} ∪ keys_of ks ->
         eval (at_ (ctx None vs ms) post [objFrame false false ks'] fv) r
   end) ->
  eval (at_ (ctx None vs ms) (renderStr k ++ post) [objFrame true false ks] fv) r.
Proof.
  intros Hk Hr. pose proof (scanStep_key (ctx None vs ms) k post (objFrame true false ks) [] fv Hk eq_refl) as Hs.
  destruct (surrogates_ok k); cbn [negb] in Hr; [|subst r; by apply eval_return].
  pose proof (add_set ks (foldKey (unquote k))) as Ha.
  unfold readKey in Hs. cbn [objFrame fr_keys fr_inParams fr_object] in Hs.
  destruct (add ks (foldKey (unquote k))) as [ks'|].
  - destruct Ha as [Hnin Hks]. rewrite decide_False in Hr by done.
    destruct (reservedLooseFolds !! _) as [canonical|].
    + case_decide; [subst r; by apply eval_return|]. eapply eval_step; [exact Hs|]. exact (Hr ks' Hks).
    + eapply eval_step; [exact Hs|]. exact (Hr ks' Hks).
  - rewrite decide_True in Hr by done. subst r. by apply eval_return.
Qed.

(** A member's value, to the byte after it. *)
Lemma eval_top_value i vs ms ks v ws2 ws3 ws4 rest fv r :
  value_ok v = true -> ws_ok ws2 = true -> ws_ok ws3 = true -> ws_ok ws4 = true ->
  match walkValue (bool_decide (i = Some memberParams)) v fv with
  | Ok fv' => eval (at_ (ctx i vs ms) rest [objFrame false false ks] fv') r
  | Err e => r = Err e
  end ->
  eval (at_ (ctx i vs ms) (ws2 ++ ":"%char :: ws3 ++ render v ++ ws4 ++ rest) [objFrame false false ks] fv) r.
Proof.
  intros Hv H2 H3 H4 Hr. apply eval_at_ws; [done|]. apply eval_at_colon, eval_at_ws; [done|].
  apply eval_at_value with (inP := bool_decide (i = Some memberParams)); [apply follows_value|done|done|done|].
  destruct (walkValue _ _ _); [|exact Hr]. by apply eval_at_ws.
Qed.

Lemma eval_top_close i vs v ws post ms ks fv :
  value_ok v = true -> ws_ok ws = true -> starts i vs (render v ++ ws ++ "}"%char :: post) ->
  eval (at_ (ctx i vs ms) ("}"%char :: post) [objFrame false false ks] fv)
       (Ok (storeMember i (render v) ms, fv)).
Proof.
  intros Hv Hw Hs. apply eval_return. unfold scanStep. cbn [sc_rest at_].
  change (Ascii.eqb "}" "{" || Ascii.eqb "}" "[") with false.
  change (Ascii.eqb "}" "}" || Ascii.eqb "}" "]") with true. cbv iota.
  by erewrite endMember_top.
Qed.

Lemma eval_top_comma i vs v ws post ms ks fv r :
  value_ok v = true -> ws_ok ws = true -> starts i vs (render v ++ ws ++ ","%char :: post) ->
  eval (at_ (ctx None vs (storeMember i (render v) ms)) post [objFrame true false ks] fv) r ->
  eval (at_ (ctx i vs ms) (","%char :: post) [objFrame false false ks] fv) r.
Proof.
  intros Hv Hw Hs Hr. eapply eval_step; [|exact Hr]. unfold scanStep. cbn [sc_rest at_].
  change (Ascii.eqb "," "{" || Ascii.eqb "," "[") with false.
  change (Ascii.eqb "," "}" || Ascii.eqb "," "]") with false.
  change (Ascii.eqb "," ",") with true. cbv iota.
  by erewrite endMember_top.
Qed.

Lemma follows_top l : l <> [] -> forallb mem_ok l = true -> forall post vs ms ks fv,
  eval (at_ (ctx None vs ms) (joinComma (map renderMem l) ++ "}"%char :: post) [objFrame true false ks] fv)
       (walkTop l (keys_of ks) ms fv).
Proof.
  induction l as [|[ws1 k ws2 ws3 v ws4] l IH]; [done|]. intros _ Hok post vs ms ks fv.
  cbn [forallb] in Hok. apply andb_true_iff in Hok as [Hm Hok].
  unfold mem_ok in Hm. cbn [mb_pre mb_key mb_mid mb_aft mb_val mb_post] in *.
  rewrite !andb_true_iff in Hm. destruct Hm as [[[[[Hw1 Hk] Hw2] Hw3] Hvok] Hw4].
  assert (Hj : exists rest : bytes, joinComma (map renderMem (Build_mem ws1 k ws2 ws3 v ws4 :: l)) ++ "}"%char :: post =
      ws1 ++ renderStr k ++ ws2 ++ ":"%char :: ws3 ++ render v ++ ws4 ++ rest /\
    forall i vs ms ks fv, starts i vs (render v ++ ws4 ++ rest) ->
      eval (at_ (ctx i vs ms) rest [objFrame false false ks] fv)
           (walkTop l (keys_of ks) (storeMember i (render v) ms) fv)).
  { destruct l as [|m l].
    - exists ("}"%char :: post). simpl. rewrite app_nil_r. unfold renderMem. simpl.
      repeat (rewrite <- app_assoc; simpl). split; [done|]. intros. by apply eval_top_close with (ws := ws4).
    - exists (","%char :: joinComma (map renderMem (m :: l)) ++ "}"%char :: post).
      cbn [map]. rewrite joinComma_cons2. unfold renderMem at 1. cbn [mb_pre mb_key mb_mid mb_aft mb_val mb_post].
      rewrite <- !app_assoc, <- !app_comm_cons, <- !app_assoc. split; [done|].
      intros i vs' ms' ks' fv' Hs. apply eval_top_comma with (v := v) (ws := ws4); [done..|]. by apply IH. }
  destruct Hj as (rest & -> & Hrest). apply eval_at_ws; [done|]. apply eval_top_key; [done|].
  cbn [walkTop mb_key mb_val]. destruct (negb _); [done|]. case_decide; [done|].
  destruct (reservedLooseFolds !! _) as [canonical|].
  - case_decide; [done|]. intros ks' Hks. apply eval_top_value; [done..|]. rewrite <- Hks.
    destruct (walkValue _ _ _) as [fv'|]; [|done]. apply Hrest. right.
    rewrite skip_ws by done. cbn [tail]. by rewrite skip_value.
  - intros ks' Hks. apply eval_top_value; [done..|]. rewrite <- Hks.
    change (bool_decide (None = Some memberParams)) with false.
    destruct (walkValue _ _ _) as [fv'|]; [|done]. by apply (Hrest None); left.
Qed.

(** The scanner computes the walk of the tree of its input. *)
Theorem scan_text t : text_ok t = true -> scanEnvelope (renderText t) = walkText t.
Proof.
  destruct t as [ws1 v ws2]. unfold text_ok, renderText, renderItem, scanEnvelope, walkText. cbn [it_pre it_val it_post].
  rewrite !andb_true_iff. intros [[[Hw1 Hv] Hw2] _]. rewrite skip_value by done.
  destruct v as [tok|k|ws l|ws l].
  - cbn [value_ok] in Hv. pose proof Hv as (a & x & -> & Ha & _)%lit_ok_inv. cbn [render app].
    apply lit_char_inv in Ha as (_ & _ & _ & _ & Hne & _). destruct (Ascii.eqb_spec a "{"%char); [done|].
    by repeat (case_match; subst; try done).
  - done.
  - done.
  - rewrite render_Obj. cbn [app]. rewrite <- app_assoc. apply eval_loop; [|simpl; lia]. eapply eval_step; [done|].
    cbn [value_ok] in Hv. rewrite !andb_true_iff in Hv. destruct Hv as [[Hws _] Hl].
    rewrite <- app_assoc. cbn [app].
    change (eval (at_ (ctx None [] (replicate 6 None)) (ws ++ joinComma (map renderMem l) ++ ["}"%char] ++ ws2)
      [objFrame true false noKeys] []) (walkTop l ∅ (replicate 6 None) [])).
    apply eval_at_ws; [done|]. destruct (decide (l = [])) as [->|Hl0].
    + apply eval_return. done.
    + by apply (follows_top l Hl0 Hl ws2 _ _ noKeys).
Qed.
End simulation.
