(* ===== verification/EnvelopeForward.v ===== *)
(** * The forwarded body.

    [clean] says a value has one reading: distinct folded names in every object
    and paired surrogates.  The scanner accepts exactly the objects whose
    members are clean and whose forwarded names are spelled exactly
    ([accepted_exactly]); the body built from an accepted request reads back as
    the method and params that were checked ([read_back]). *)
From S2P Require Import Prelude GoStrings Methods Models JsonText Utf8 Envelope EnvelopeProps.
From Stdlib Require Import Ascii.

(** ** Values with one reading *)
Section clean.
Context `{Unicode}.

Definition keyOf (m : mem value) : bytes := unquote (mb_key m).
Definition foldedKey (m : mem value) : bytes := foldKey (keyOf m).

Fixpoint clean (v : value) : bool :=
  match v with
  | Lit _ => true
  | Str s => surrogates_ok s
  | Arr _ l => forallb (fun it => clean (it_val it)) l
  | Obj _ l => bool_decide (NoDup (map foldedKey l)) &&
      forallb (fun m => surrogates_ok (mb_key m) && clean (mb_val m)) l
  end.

Definition walks (v : value) : Prop := forall inP fv, clean v = true <-> exists fv', walkValue inP v fv = Ok fv'.

Lemma walkItems_ok l : Forall (fun it => walks (it_val it)) l -> forall inP fv,
  forallb (fun it => clean (it_val it)) l = true <-> exists fv', walkItems inP l fv = Ok fv'.
Proof.
  induction 1 as [|it l Hit _ IH]; intros inP fv; cbn [forallb walkItems]; [naive_solver|].
  rewrite andb_true_iff, (Hit inP fv). destruct (walkValue _ _ _) as [fv1|]; [|naive_solver].
  rewrite (IH inP fv1). naive_solver.
Qed.

Lemma walkMembers_ok l : Forall (fun m => walks (mb_val m)) l -> forall inP keys fv,
  (NoDup (map foldedKey l) /\ (forall m, m ∈ l -> foldedKey m ∉ keys) /\
   forallb (fun m => surrogates_ok (mb_key m) && clean (mb_val m)) l = true) <->
  exists fv', walkMembers inP l keys fv = Ok fv'.
Proof.
  induction 1 as [|m l Hm _ IH]; intros inP keys fv; cbn [forallb walkMembers map].
  { split; [naive_solver|]. intros _. split_and!; [constructor|set_solver|done]. }
  rewrite NoDup_cons, !andb_true_iff, (Hm inP (noteVariant inP (unquote (mb_key m)) fv)).
  destruct (surrogates_ok (mb_key m)); cbn [negb]; [|naive_solver].
  fold (keyOf m). fold (foldedKey m). case_decide as Hk.
  { split; [|naive_solver]. intros (_ & Hn & _). by destruct (Hn m); [left|]. }
  destruct (walkValue _ _ _) as [fv1|]; [|naive_solver].
  rewrite <- (IH inP ({[foldedKey m]} ∪ keys) fv1).
  assert (Hin : foldedKey m ∉ map foldedKey l <-> forall m', m' ∈ l -> foldedKey m' <> foldedKey m).
  { rewrite list_elem_of_fmap. naive_solver. }
  rewrite Hin. split.
  - intros ((Hd & Hnd) & Hn & Hc). split_and!; [done| |naive_solver]. intros m' Hm'.
    specialize (Hn m' ltac:(by right)). specialize (Hd m' Hm'). set_solver.
  - intros (Hnd & Hn & Hc). split_and!; [|done| |done|eauto|done].
    + intros m' Hm' He. specialize (Hn m' Hm'). set_solver.
    + intros m' [->|Hm']%elem_of_cons; [done|]. specialize (Hn m' Hm'). set_solver.
Qed.

Lemma walks_value v : walks v.
Proof.
  induction v as [tok|s|ws l IH|ws l IH] using value_nested_ind; intros inP fv; cbn [clean].
  - cbn [walkValue]. naive_solver.
  - cbn [walkValue]. destruct (surrogates_ok s); naive_solver.
  - rewrite walkValue_Arr. by apply walkItems_ok.
  - rewrite walkValue_Obj, andb_true_iff, bool_decide_eq_true.
    rewrite <- (walkMembers_ok l IH inP ∅ fv). set_solver.
Qed.

(** Outside params no variant is noted. *)
Lemma walkValue_outside v : forall fv fv', walkValue false v fv = Ok fv' -> fv' = fv.
Proof.
  induction v as [tok|s|ws l IH|ws l IH] using value_nested_ind; intros fv fv'.
  - by intros [= <-].
  - cbn [walkValue]. destruct (surrogates_ok s); [by intros [= <-]|done].
  - rewrite walkValue_Arr. revert fv. induction IH as [|it l Hit _ IH]; intros fv; cbn [walkItems]; [by intros [= <-]|].
    destruct (walkValue _ _ _) as [fv1|] eqn:E; [|done]. apply Hit in E as ->. apply IH.
  - rewrite walkValue_Obj. generalize (∅ : gset bytes). revert fv.
    induction IH as [|m l Hm _ IH]; intros fv keys; cbn [walkMembers]; [by intros [= <-]|].
    destruct (negb _); [done|]. case_decide; [done|].
    destruct (walkValue _ _ _) as [fv1|] eqn:E; [|done]. apply Hm in E as ->. apply IH.
Qed.

(** ** The top-level members *)

(** The name is not a variant of a forwarded one. *)
Definition exact_name (key : bytes) : bool :=
  match reservedLooseFolds !! looseFoldKey key with
  | Some canonical => bool_decide (canonical = key)
  | None => true
  end.

Definition lookupMember (name : bytes) (l : list (mem value)) : option value :=
  mb_val <$> List.find (fun m => bool_decide (keyOf m = name)) l.

Definition memberClean (m : mem value) : bool :=
  surrogates_ok (mb_key m) && clean (mb_val m) && exact_name (keyOf m).

Lemma walkTop_ok l : forall keys ms fv,
  (NoDup (map foldedKey l) /\ (forall m, m ∈ l -> foldedKey m ∉ keys) /\ forallb memberClean l = true) <->
  exists r, walkTop l keys ms fv = Ok r.
Proof.
  induction l as [|m l IH]; intros keys ms fv; cbn [forallb walkTop map].
  { split; [naive_solver|]. intros _. split_and!; [constructor|set_solver|done]. }
  rewrite NoDup_cons, !andb_true_iff. unfold memberClean at 1, exact_name. rewrite !andb_true_iff.
  destruct (surrogates_ok (mb_key m)); cbn [negb]; [|naive_solver].
  fold (keyOf m). fold (foldedKey m). case_decide as Hk.
  { split; [|naive_solver]. intros (_ & Hn & _). by destruct (Hn m); [left|]. }
  assert (Hin : foldedKey m ∉ map foldedKey l <-> forall m', m' ∈ l -> foldedKey m' <> foldedKey m).
  { rewrite list_elem_of_fmap. naive_solver. }
  assert (Hstep : forall inP ms', (exists r, (fv0 ← walkValue inP (mb_val m) fv;
      walkTop l ({[foldedKey m]} ∪ keys) ms' fv0) = Ok r) <->
    (foldedKey m ∉ map foldedKey l /\ NoDup (map foldedKey l)) /\ (forall m', m' ∈ m :: l -> foldedKey m' ∉ keys) /\
    clean (mb_val m) = true /\ forallb memberClean l = true).
  { intros inP ms'. rewrite (walks_value (mb_val m) inP fv), Hin.
    destruct (walkValue _ _ _) as [fv1|]; [|naive_solver]. cbn [mbind result_bind].
    rewrite <- (IH ({[foldedKey m]} ∪ keys) ms' fv1). split.
    - intros (Hnd & Hn & Hc). split_and!; [|done| |eauto|done].
      + intros m' Hm' He. specialize (Hn m' Hm'). set_solver.
      + intros m' [->|Hm']%elem_of_cons; [done|]. specialize (Hn m' Hm'). set_solver.
    - intros ((Hd & Hnd) & Hn & _ & Hc). split_and!; [done| |done]. intros m' Hm'.
      specialize (Hn m' ltac:(by right)). specialize (Hd m' Hm'). set_solver. }
  destruct (reservedLooseFolds !! _) as [canonical|].
  - case_decide as Hc.
    + rewrite bool_decide_eq_true. naive_solver.
    + rewrite bool_decide_eq_true, Hstep. naive_solver.
  - rewrite Hstep. naive_solver.
Qed.

(** The forwarded names, found under their own folds. *)
Lemma forwarded_reserved : forall i name, forwardedMembers !! i = Some name ->
  reservedLooseFolds !! looseFoldKey name = Some name /\
  fst <$> list_find (fun n => n = name) forwardedMembers = Some i /\
  utf8 name /\ str_ok (Plain <$> name) = true.
Proof.
  intros i name Hi. do 6 (destruct i as [|i]; [injection Hi as <-; split_and!;
    [vm_compute; reflexivity|reflexivity|by apply utf8_all_ascii|reflexivity]|]). done.
Qed.

Lemma walkTop_fresh l keys ms fv r m : walkTop l keys ms fv = Ok r -> m ∈ l -> foldedKey m ∉ keys.
Proof. intros Hr Hm. destruct (proj2 (walkTop_ok l keys ms fv)) as (_ & Hn & _); eauto. Qed.

Lemma lookupMember_cons name m l :
  lookupMember name (m :: l) = if bool_decide (keyOf m = name) then Some (mb_val m) else lookupMember name l.
Proof. unfold lookupMember. cbn [List.find]. by case_bool_decide. Qed.

Lemma lookupMember_None name l : (forall m, m ∈ l -> keyOf m <> name) -> lookupMember name l = None.
Proof.
  induction l as [|m l IH]; intros Hl; [done|]. rewrite lookupMember_cons.
  rewrite bool_decide_eq_false_2 by (apply Hl; by left). apply IH. intros m' Hm'. apply Hl. by right.
Qed.

Lemma lookupMember_Some name l v : lookupMember name l = Some v -> exists m, m ∈ l /\ keyOf m = name /\ mb_val m = v.
Proof.
  induction l as [|m l IH]; [done|]. rewrite lookupMember_cons. case_bool_decide as Hk.
  - intros [= <-]. exists m. split_and!; [by left|done|done].
  - intros (m' & Hm' & H')%IH. exists m'. split; [by right|done].
Qed.

(** What the walk of the members stores and notes. *)
Definition storedAs (l : list (mem value)) (ms ms' : list (option bytes)) : Prop :=
  length ms' = length ms /\ forall i name, forwardedMembers !! i = Some name ->
    ms' !! i = match lookupMember name l with Some v => Some (Some (render v)) | None => ms !! i end.

Definition paramsName : bytes := bytesOf "params".

Lemma walkTop_spec l : forall keys ms fv ms' fv', length ms = 6 ->
  walkTop l keys ms fv = Ok (ms', fv') ->
  storedAs l ms ms' /\
  match lookupMember paramsName l with Some v => walkValue true v fv = Ok fv' | None => fv' = fv end.
Proof.
  induction l as [|m l IH]; intros keys ms fv ms' fv' Hlen; cbn [walkTop].
  { by intros [= <- <-]. }
  destruct (negb _); [done|]. fold (keyOf m). fold (foldedKey m). case_decide as Hk; [done|].
  assert (Hskip : forall ms1 fv1, walkTop l ({[foldedKey m]} ∪ keys) ms1 fv1 = Ok (ms', fv') ->
    lookupMember (keyOf m) l = None).
  { intros ms1 fv1 Hw. apply lookupMember_None. intros m' Hm' He.
    apply (walkTop_fresh _ _ _ _ _ m') in Hw; [|done]. unfold foldedKey in Hw. rewrite He in Hw. set_solver. }
  destruct (reservedLooseFolds !! looseFoldKey (keyOf m)) as [canonical|] eqn:Er.
  - case_decide as Hc; [done|]. subst canonical. intros (fv1 & Hv & Hw)%bind_Ok.
    pose proof (Hskip _ _ Hw) as Hno. set (i := fst <$> list_find _ forwardedMembers) in *.
    assert (Hi : forall j name, forwardedMembers !! j = Some name -> name = keyOf m <-> i = Some j).
    { intros j name Hj. unfold i. split.
      - intros <-. by apply forwarded_reserved.
      - rewrite fmap_Some. intros ([j' y] & Hf & ->). apply list_find_Some in Hf as (Hy & -> & _). simpl in *. congruence. }
    apply IH in Hw as [[Hl Hst] Hp].
    2: { destruct i; [by rewrite length_insert|done]. }
    assert (Hl' : length ms' = length ms) by (rewrite Hl; destruct i; [by rewrite length_insert|done]).
    split; [split; [done|]|].
    + intros j name Hj. rewrite lookupMember_cons, (Hst j name Hj). destruct (bool_decide_reflect (keyOf m = name)) as [Hn|Hn].
      * subst name. rewrite Hno. rewrite (proj1 (Hi j _ Hj) eq_refl).
        apply list_lookup_insert_eq. rewrite Hlen. apply lookup_lt_Some in Hj. exact Hj.
      * destruct (lookupMember name l); [done|]. destruct i as [i'|]; [|done].
        rewrite list_lookup_insert_ne; [done|]. intros ->. apply Hn. symmetry. by apply (Hi j).
    + rewrite lookupMember_cons. specialize (Hi memberParams paramsName eq_refl).
      destruct (bool_decide_reflect (keyOf m = paramsName)) as [Hn|Hn].
      * rewrite Hn in Hno. rewrite Hno in Hp. subst fv'. by rewrite bool_decide_eq_true_2 in Hv by (by apply Hi).
      * rewrite bool_decide_eq_false_2 in Hv by (intros ?%Hi; congruence). apply walkValue_outside in Hv as ->. done.
  - intros (fv1 & Hv & Hw)%bind_Ok. apply walkValue_outside in Hv as ->. apply IH in Hw as [[Hl Hst] Hp]; [|done].
    assert (Hne : forall j name, forwardedMembers !! j = Some name -> keyOf m <> name).
    { intros j name Hj <-. apply forwarded_reserved in Hj as [Hj _]. congruence. }
    split; [split; [done|]|].
    + intros j name Hj. rewrite lookupMember_cons, bool_decide_eq_false_2 by eauto. by apply Hst.
    + rewrite lookupMember_cons, bool_decide_eq_false_2 by by apply (Hne memberParams). done.
Qed.
End clean.

(** ** [json.Marshal] of a string reads back *)

Lemma N_of_ascii_inj_byte a n : N_of_ascii a = n -> a = byte n.
Proof. intros <-. unfold byte. by rewrite ascii_N_embedding. Qed.

(** The line separators are the only runes of their number. *)
Lemma rune_2028 c n : runeBytes c n -> (0x2028 <= n <= 0x2029)%N -> c = encodeRune n.
Proof.
  intros [Hne Hc] Hn. specialize (Hc []). rewrite app_nil_r in Hc.
  assert (Hr : forall lo hi a, in_range lo hi a = true -> (lo <= N_of_ascii a <= hi)%N).
  { intros lo hi a. unfold in_range. by rewrite andb_true_iff, !N.leb_le. }
  assert (He : encodeRune n = [byte 0xE2; byte 0x80; byte (0xA8 + (n - 0x2028))]).
  { assert (n = 0x2028 \/ n = 0x2029)%N as [-> | ->] by lia; done. }
  rewrite He. unfold decodeRune in Hc; cbv zeta in Hc.
  destruct c as [|a0 c]; [done|]. destruct (N_of_ascii a0 <? 128)%N eqn:E0.
  { apply N.ltb_lt in E0. injection Hc as <- _. lia. }
  destruct c as [|a1 c]; [done|]. destruct (in_range 194 223 a0) eqn:E1.
  { destruct (in_range 128 191 a1) eqn:E2; [|done]. injection Hc as <- _. apply Hr in E1, E2. lia. }
  destruct c as [|a2 c]; [done|]. destruct (in_range 224 239 a0) eqn:E2.
  { destruct (_ && _) eqn:E3; [|done]. injection Hc as Hc Hl. destruct c; [|done].
    apply andb_true_iff in E3 as [E3 E4]. apply Hr in E2, E3, E4.
    revert E3. set (lo := if (_ =? 224)%N then _ else _). set (hi := if (_ =? 237)%N then _ else _). intros E3.
    assert (128 <= lo /\ hi <= 191)%N by (unfold lo, hi; split; case_match; lia). clearbody lo hi.
    do 2 (f_equal; [apply N_of_ascii_inj_byte; lia|]). do 1 f_equal. apply N_of_ascii_inj_byte. lia. }
  destruct c as [|a3 c]; [done|]. destruct (in_range 240 244 a0) eqn:E3; [|done].
  destruct (_ && _) eqn:E4; [|done]. injection Hc as Hc Hl. rewrite !andb_true_iff in E4.
  destruct E4 as [[E4 E5] E6]. pose proof (Hr _ _ _ E4) as Hb. apply Hr in E3.
  destruct (N_of_ascii a0 =? 240)%N eqn:Ez; [apply N.eqb_eq in Ez|apply N.eqb_neq in Ez]; lia.
Qed.

Lemma unquote_uni h1 h2 h3 h4 s : is_high (hex4 h1 h2 h3 h4) = false ->
  unquote (Uni h1 h2 h3 h4 :: s) = encodeRune (hex4 h1 h2 h3 h4) ++ unquote s.
Proof. intros Hh. cbn [unquote]. destruct s as [|[]]; try done. by rewrite Hh. Qed.

(** What a character adds to a literal. *)
Definition reads (c : list schar) (b : bytes) : Prop :=
  str_ok c = true /\ utf8 (renderChars c) /\
  forall s, surrogates_ok (c ++ s) = surrogates_ok s /\ unquote (c ++ s) = b ++ unquote s.

Lemma reads_app c1 b1 c2 b2 : reads c1 b1 -> reads c2 b2 -> reads (c1 ++ c2) (b1 ++ b2).
Proof.
  intros (Hs1 & Hu1 & H1) (Hs2 & Hu2 & H2). split_and!.
  - unfold str_ok in *. by rewrite forallb_app, Hs1, Hs2.
  - unfold renderChars in *. rewrite map_app, concat_app. by apply utf8_app.
  - intros s. rewrite <- !app_assoc. destruct (H1 (c2 ++ s)) as [-> ->]. by destruct (H2 s) as [-> ->].
Qed.

Lemma reads_uni h1 h2 h3 h4 : schar_ok (Uni h1 h2 h3 h4) = true ->
  is_high (hex4 h1 h2 h3 h4) = false -> is_low (hex4 h1 h2 h3 h4) = false ->
  forallb is_ascii [h1; h2; h3; h4] = true ->
  reads [Uni h1 h2 h3 h4] (encodeRune (hex4 h1 h2 h3 h4)).
Proof.
  intros Hok Hh Hl Ha. split_and!.
  - unfold str_ok. cbn [forallb]. by rewrite Hok.
  - apply utf8_all_ascii. exact Ha.
  - intros s. change ([Uni h1 h2 h3 h4] ++ s) with (Uni h1 h2 h3 h4 :: s). split; [|by apply unquote_uni].
    cbn [surrogates_ok]. by rewrite Hh, Hl.
Qed.

Lemma reads_plain c n : runeBytes c n -> forallb (fun a => negb (is_ascii a)) c = true -> reads (Plain <$> c) c.
Proof.
  intros Hc Hall. assert (Hr : renderChars (Plain <$> c) = c).
  { clear. induction c as [|a c IH]; [done|]. change (a :: renderChars (Plain <$> c) = a :: c). by rewrite IH. }
  split_and!.
  - clear Hc Hr. induction c as [|a c IH]; [done|]. cbn [forallb] in Hall. apply andb_true_iff in Hall as [Ha Hall].
    unfold str_ok. cbn [fmap list_fmap forallb schar_ok]. unfold str_ok in IH. rewrite (IH Hall), andb_true_r.
    unfold plain_ok, is_ascii in *. apply negb_true_iff, N.ltb_ge in Ha. rewrite !andb_true_iff, !negb_true_iff.
    split_and!; [apply N.leb_le; lia|apply Ascii.eqb_neq; intros ->; done..].
  - rewrite Hr, <- (app_nil_r c). eapply utf8_rune; [done|constructor].
  - intros s. rewrite unquote_plain. split; [|done]. clear. induction c as [|a c IH]; [done|]. exact IH.
Qed.

Definition marshalByte_ok (a : ascii) : bool :=
  match marshalByte a with
  | Plain x => plain_ok x && Ascii.eqb x a
  | Esc x => esc_ok x && Ascii.eqb (escaped x) a && is_ascii x
  | Uni h1 h2 h3 h4 =>
      schar_ok (Uni h1 h2 h3 h4) && forallb is_ascii [h1; h2; h3; h4] &&
      negb (is_high (hex4 h1 h2 h3 h4)) && negb (is_low (hex4 h1 h2 h3 h4)) &&
      bool_decide (encodeRune (hex4 h1 h2 h3 h4) = [a])
  end.

Lemma marshalByte_all a : is_ascii a = true -> marshalByte_ok a = true.
Proof. destruct a as [[] [] [] [] [] [] [] []]; first [discriminate | intros _; vm_compute; reflexivity]. Qed.

Lemma reads_byte a : is_ascii a = true -> reads [marshalByte a] [a].
Proof.
  intros Ha. pose proof (marshalByte_all a Ha) as Hm. unfold marshalByte_ok in Hm.
  destruct (marshalByte a) as [x|x|h1 h2 h3 h4].
  - apply andb_true_iff in Hm as [Hx ->%Ascii.eqb_eq]. split_and!; [|by apply utf8_all_ascii; simpl; rewrite Ha|done].
    unfold str_ok. simpl. by rewrite Hx.
  - rewrite !andb_true_iff in Hm. destruct Hm as [[Hx He%Ascii.eqb_eq] Hxa]. split_and!.
    + unfold str_ok. cbn [forallb schar_ok]. by rewrite Hx.
    + apply utf8_all_ascii. change (is_ascii x && true = true). by rewrite Hxa.
    + intros s. split; [done|]. cbn [app unquote]. by rewrite He.
  - rewrite !andb_true_iff, !negb_true_iff, bool_decide_eq_true in Hm. destruct Hm as [[[[Hok Has] Hh] Hl] <-].
    by apply reads_uni.
Qed.

Lemma marshalFrom_reads b : utf8 b -> forall fuel, length b <= fuel -> reads (marshalFrom fuel b) b.
Proof.
  assert (Hnil : reads [] []) by (split_and!; [done|constructor|done]).
  intros Hb. induction Hb as [|a r Ha Hr IH|c n r Hc Hall Hr IH] using utf8_rune_ind; intros fuel Hf.
  - by destruct fuel.
  - destruct fuel as [|fuel]; [simpl in Hf; lia|]. cbn [marshalFrom]. rewrite Ha.
    apply (reads_app [marshalByte a] [a]); [by apply reads_byte|]. apply IH. simpl in Hf. lia.
  - pose proof Hc as [Hne Hd]. specialize (Hd r).
    destruct c as [|a c]; [done|]. destruct fuel as [|fuel]; [simpl in Hf; lia|].
    assert (Ha : is_ascii a = false) by (cbn [forallb] in Hall; by apply andb_true_iff in Hall as [?%negb_true_iff _]).
    assert (IHr : reads (marshalFrom fuel r) r) by (apply IH; rewrite length_app in Hf; simpl in Hf; lia).
    assert (Hm : marshalFrom (S fuel) ((a :: c) ++ r) =
      (if (n =? 0x2028)%N then [Uni "2" "0" "2" "8"]%char
       else if (n =? 0x2029)%N then [Uni "2" "0" "2" "9"]%char else Plain <$> (a :: c)) ++ marshalFrom fuel r).
    { change (marshalFrom (S fuel) ((a :: c) ++ r)) with
        (if is_ascii a then marshalByte a :: marshalFrom fuel (c ++ r)
         else let '(k, w, ok) := decodeRune ((a :: c) ++ r) in
           if negb ok then Uni "f" "f" "f" "d" :: marshalFrom fuel (c ++ r)
           else if (k =? 0x2028)%N then Uni "2" "0" "2" "8" :: marshalFrom fuel (drop w ((a :: c) ++ r))
           else if (k =? 0x2029)%N then Uni "2" "0" "2" "9" :: marshalFrom fuel (drop w ((a :: c) ++ r))
           else (Plain <$> take w ((a :: c) ++ r)) ++ marshalFrom fuel (drop w ((a :: c) ++ r))).
      rewrite Ha, Hd. cbn [negb]. rewrite take_app_length, drop_app_length. by repeat case_match. }
    rewrite Hm. apply reads_app; [|done].
    destruct (N.eqb_spec n 0x2028) as [->|?]; [|destruct (N.eqb_spec n 0x2029) as [->|?]].
    + rewrite (rune_2028 _ _ Hc) by lia. by apply reads_uni.
    + rewrite (rune_2028 _ _ Hc) by lia. by apply reads_uni.
    + by eapply reads_plain.
Qed.

Lemma marshalString_ok m : utf8 m ->
  str_ok (marshalString m) = true /\ surrogates_ok (marshalString m) = true /\
  unquote (marshalString m) = m /\ utf8 (renderStr (marshalString m)).
Proof.
  intros Hm. destruct (marshalFrom_reads m Hm (length m) ltac:(lia)) as (Hs & Hu & Hr).
  specialize (Hr []). rewrite !app_nil_r in Hr. destruct Hr as [Hsur Hun]. split_and!; [done|done|done|].
  apply utf8_ascii; [done|]. apply utf8_app; [done|]. by apply utf8_all_ascii.
Qed.

(** ** The canonical body as a tree *)
Section canonical.
Context `{Unicode}.

Definition metadataIdx (i : nat) : bool := Nat.eqb i memberVisibleTo || Nat.eqb i memberPrivateFor.

(** The member written for index [i]: from the values read, with the method
    replaced. *)
Definition slot (l : list (mem value)) (method : bytes) (withMetadata : bool) (i : nat) : option (mem value) :=
  name ← forwardedMembers !! i;
  v ← lookupMember name l;
  if negb withMetadata && metadataIdx i then None
  else Some (Build_mem [] (Plain <$> name) [] [] (if Nat.eqb i memberMethod then Str (marshalString method) else v) []).

Definition canonTree (l : list (mem value)) (method : bytes) (withMetadata : bool) : list (mem value) :=
  omap (slot l method withMetadata) (seq 0 6).

(** What the scan stored of the members [l]. *)
Definition storedOf (l : list (mem value)) (members : list (option bytes)) : Prop :=
  forall i name, forwardedMembers !! i = Some name -> memberOf members i = render <$> lookupMember name l.

Lemma storedAs_init l ms : storedAs l (replicate 6 None) ms -> storedOf l ms.
Proof.
  intros [_ Hs] i name Hi. unfold memberOf. rewrite (Hs i name Hi).
  destruct (lookupMember name l); [done|]. rewrite lookup_replicate_2; [done|].
  by apply lookup_lt_Some in Hi.
Qed.

Lemma renderChars_plain c : renderChars (Plain <$> c) = c.
Proof. induction c as [|a c IH]; [done|]. change (a :: renderChars (Plain <$> c) = a :: c). by rewrite IH. Qed.

Lemma canonical_slot l members method wm i name :
  storedOf l members -> forwardedMembers !! i = Some name ->
  match memberOf members i with
  | None => []
  | Some raw =>
      if negb wm && (Nat.eqb i memberVisibleTo || Nat.eqb i memberPrivateFor) then []
      else [dquote :: name ++ dquote :: ":"%char ::
            (if Nat.eqb i memberMethod then renderStr (marshalString method) else raw)]
  end = from_option (fun m => [renderMem m]) [] (slot l method wm i).
Proof.
  intros Hst Hi. rewrite (Hst i name Hi). unfold slot. rewrite Hi. cbn [mbind option_bind].
  destruct (lookupMember name l) as [v|]; [|done]. cbn [fmap option_fmap option_map mbind option_bind].
  unfold metadataIdx. destruct (negb wm && _); [done|]. cbn [from_option]. unfold renderMem, renderStr.
  cbn [mb_pre mb_key mb_mid mb_aft mb_val mb_post app]. rewrite renderChars_plain, app_nil_r. cbn [app].
  rewrite <- app_assoc. by destruct (Nat.eqb i memberMethod).
Qed.

Lemma canonicalMembers_tree l members method wm : storedOf l members ->
  canonicalMembers members method wm = map renderMem (canonTree l method wm).
Proof.
  intros Hst. unfold canonicalMembers, canonTree.
  transitivity (concat (map (fun i => from_option (fun m => [renderMem m]) [] (slot l method wm i)) (seq 0 6))).
  - pose proof (canonical_slot l members method wm) as Hs.
    change (seq 0 6) with [0; 1; 2; 3; 4; 5]. cbn [map].
    rewrite <- (Hs 0 _ Hst eq_refl), <- (Hs 1 _ Hst eq_refl), <- (Hs 2 _ Hst eq_refl), <- (Hs 3 _ Hst eq_refl),
      <- (Hs 4 _ Hst eq_refl), <- (Hs 5 _ Hst eq_refl). done.
  - induction (seq 0 6) as [|i idxs IH]; [done|]. cbn [map concat omap list_omap].
    destruct (slot l method wm i); cbn [from_option map app]; by rewrite IH.
Qed.

Definition canonText (l : list (mem value)) (method : bytes) (wm : bool) : item value :=
  Build_item [] (Obj [] (canonTree l method wm)) [].

Lemma buildCanonical_tree l members method wm : storedOf l members ->
  buildCanonical members method wm = renderText (canonText l method wm).
Proof.
  intros Hst. unfold buildCanonical. rewrite (canonicalMembers_tree l) by done.
  unfold renderText, renderItem, canonText. cbn [it_pre it_val it_post]. rewrite render_Obj, app_nil_r. done.
Qed.

Lemma elem_of_canonTree l method wm m : m ∈ canonTree l method wm <->
  exists i name v, forwardedMembers !! i = Some name /\ lookupMember name l = Some v /\
    negb wm && metadataIdx i = false /\
    m = Build_mem [] (Plain <$> name) [] [] (if Nat.eqb i memberMethod then Str (marshalString method) else v) [].
Proof.
  unfold canonTree, slot. rewrite list_elem_of_omap. split.
  - intros (i & Hi & (name & Hn & (v & Hv & Hm)%bind_Some)%bind_Some).
    destruct (negb wm && metadataIdx i) eqn:E; [done|]. injection Hm as <-. by exists i, name, v.
  - intros (i & name & v & Hi & Hv & Hm & ->). exists i. split.
    + apply elem_of_seq. apply lookup_lt_Some in Hi. change (length forwardedMembers) with 6 in Hi. lia.
    + rewrite Hi. cbn [mbind option_bind]. rewrite Hv. cbn [mbind option_bind]. by rewrite Hm.
Qed.

Lemma unquote_plain_all c : unquote (Plain <$> c) = c.
Proof. rewrite <- (app_nil_r (Plain <$> c)), unquote_plain. apply app_nil_r. Qed.

(** Names that differ are read back apart. *)
Lemma forwarded_inj i j name : forwardedMembers !! i = Some name -> forwardedMembers !! j = Some name -> i = j.
Proof. intros Hi Hj. apply (NoDup_lookup forwardedMembers i j name); [|done..]. apply (bool_decide_unpack _). vm_compute. exact I. Qed.

Lemma lookup_canonTree l method wm i name : forwardedMembers !! i = Some name ->
  lookupMember name (canonTree l method wm) =
  v ← lookupMember name l;
  if negb wm && metadataIdx i then None
  else Some (if Nat.eqb i memberMethod then Str (marshalString method) else v).
Proof.
  intros Hi. destruct (lookupMember name (canonTree l method wm)) as [v'|] eqn:E.
  - apply lookupMember_Some in E as (m & Hm & Hk & <-).
    apply elem_of_canonTree in Hm as (j & name' & v & Hj & Hv & Hmd & ->).
    unfold keyOf in Hk. cbn [mb_key mb_val] in *. rewrite unquote_plain_all in Hk. subst name'.
    rewrite (forwarded_inj _ _ _ Hi Hj). rewrite Hv. cbn [mbind option_bind]. by rewrite Hmd.
  - destruct (lookupMember name l) as [v|] eqn:Ev; [|done]. cbn [mbind option_bind].
    destruct (negb wm && metadataIdx i) eqn:Emd; [done|]. exfalso.
    pose (m := Build_mem [] (Plain <$> name) [] [] (if Nat.eqb i memberMethod then Str (marshalString method) else v) []).
    assert (Hin : m ∈ canonTree l method wm) by (apply elem_of_canonTree; by exists i, name, v).
    revert E. assert (Hk : keyOf m = name) by apply unquote_plain_all. clearbody m.
    induction (canonTree l method wm) as [|m' l' IH]; [by apply not_elem_of_nil in Hin|].
    rewrite lookupMember_cons. case_bool_decide; [done|]. apply IH.
    apply elem_of_cons in Hin as [->|?]; [done|done].
Qed.
End canonical.
