(* ===== verification/EnvelopeClaims.v ===== *)
(** * What the request envelope promises.

    Every byte string is either refused or has one reading
    ([accepted_request_has_one_reading]); the scanner never leaves the body
    ([envelope_never_panics]); and what is forwarded reads back as what was
    checked ([forwarded_body_reads_back]). *)
From S2P Require Import Prelude GoStrings Methods Models JsonText Utf8 Envelope EnvelopeProps EnvelopeForward.
From Stdlib Require Import Ascii.

(** ** Batches *)
Lemma stringOf_app x y : stringOf (x ++ y) = stringOf x +:+ stringOf y.
Proof. induction x as [|a x IH]; [done|]. simpl. unfold stringOf in *. simpl. by rewrite IH. Qed.

Lemma trim_left_brace n s : trim_left n (String "{" s) = String "{" s.
Proof. destruct n as [|n]; [done|]. simpl. by destruct s as [|? []]. Qed.

Lemma space_suffix_brace s : space_suffix (String "}" s) = 0.
Proof.
  cbn [space_suffix]. change (Nat.eqb (space_len (String "}" EmptyString)) 1) with false. cbv iota.
  assert (H2 : forall b, Nat.eqb (space_len (String b (String "}" EmptyString))) 2 = false).
  { intros b. cbn [space_len]. change (N_of_ascii "}") with 125%N. destruct (_ || _); [done|].
    change ((125 =? 133) || (125 =? 160))%N with false. by rewrite andb_false_r. }
  destruct s as [|b s]; [done|]. rewrite H2. destruct s as [|a s]; [done|].
  cbn [space_len]. change (N_of_ascii "}") with 125%N.
  assert (Hi : forall x y : bool, Nat.eqb (if x then 1 else if y then 2 else 0) 3 = false) by by intros [] [].
  change (125 =? 0x80)%N with false. change ((0x80 <=? 125) && (125 <=? 0x8A))%N with false.
  change ((125 =? 0xA8) || (125 =? 0xA9) || (125 =? 0xAF))%N with false. change (125 =? 0x9F)%N with false.
  rewrite !andb_false_r. cbn [orb]. by rewrite Hi.
Qed.

Lemma not_batch r : IsBatchRequest ("{"%char :: r ++ ["}"%char]) = false.
Proof.
  unfold IsBatchRequest, TrimSpace. cbv zeta.
  change (stringOf ("{"%char :: r ++ ["}"%char])) with (String "{" (stringOf (r ++ ["}"%char]))).
  rewrite trim_left_brace.
  assert (Hr : forall n, trim_right_rev n (rev_string (String "{" (stringOf (r ++ ["}"%char])))) =
    rev_string (String "{" (stringOf (r ++ ["}"%char])))).
  { intros n. change (String "{" (stringOf (r ++ ["}"%char]))) with (stringOf (("{"%char :: r) ++ ["}"%char])).
    rewrite stringOf_app, rev_string_app. destruct n as [|n]; [done|].
    change (rev_string (stringOf ["}"%char])) with (String "}" EmptyString).
    change (String "}" EmptyString +:+ rev_string (stringOf ("{"%char :: r)))
      with (String "}" (rev_string (stringOf ("{"%char :: r)))).
    cbn [trim_right_rev]. by rewrite space_suffix_brace. }
  by rewrite Hr, rev_string_involutive.
Qed.

(** ** [ParseEnvelope] as conditions *)
Section claims.
Context `{Unicode}.

Definition decoded (members : list (option bytes)) (method : bytes) (params : list any) : Prop :=
  (exists v, memberAs [] unmarshalStr "jsonrpc" (memberOf members memberJSONRPC) = Ok v) /\
  (exists id, memberAs ANull unmarshalAny "id" (memberOf members memberID) = Ok id /\ idOk id = true) /\
  memberAs [] unmarshalStr "method" (memberOf members memberMethod) = Ok method /\
  memberAs [] unmarshalSlice "params" (memberOf members memberParams) = Ok params.

Lemma ParseEnvelope_Ok body env : ParseEnvelope body = Ok env <->
  IsBatchRequest body = false /\ utf8 body /\
  (exists t, parseText body = Some t /\ walkText t = Ok (en_members env, en_fieldVariant env)) /\
  decoded (en_members env) (en_Method env) (en_Params env) /\
  en_Canonical env = buildCanonical (en_members env) (en_Method env) true.
Proof.
  unfold ParseEnvelope, decoded. destruct (IsBatchRequest body); [naive_solver|].
  rewrite <- utf8_valid_utf8. destruct (utf8_valid body); cbn [negb]; [|naive_solver].
  destruct (parseText body) as [t|] eqn:Et.
  2: { rewrite bool_decide_eq_false_2 by (by intros []). naive_solver. }
  rewrite bool_decide_eq_true_2 by eauto. cbn [negb].
  pose proof Et as [Hb Hok]%parseText_sound. rewrite Hb, (scan_text t Hok).
  split.
  - intros ([ms fv] & Hs & (v & Hv & (id & Hid & Hr)%bind_Ok)%bind_Ok)%bind_Ok.
    destruct (idOk id) eqn:Ei; [|done]. cbn [negb] in Hr.
    apply bind_Ok in Hr as (method & Hm & (params & Hp & [= <-])%bind_Ok). simpl. split_and!; eauto.
  - intros (_ & _ & (t' & [= <-] & ->) & ((v & Hv) & (id & Hid & Hok') & Hm & Hp) & Hc).
    cbn [mbind result_bind]. rewrite Hv. cbn [mbind result_bind]. rewrite Hid. cbn [mbind result_bind].
    rewrite Hok'. cbn [negb]. rewrite Hm. cbn [mbind result_bind]. rewrite Hp. cbn [mbind result_bind].
    rewrite <- Hc. by destruct env.
Qed.

Lemma walkText_Ok t r : walkText t = Ok r <->
  exists ws l, it_val t = Obj ws l /\ walkTop l ∅ (replicate 6 None) [] = Ok r.
Proof. unfold walkText. destruct (it_val t); naive_solver. Qed.

(** ** The values of an accepted body *)
Lemma ws_ascii ws : ws_ok ws = true -> forallb is_ascii ws = true.
Proof.
  apply forallb_impl. intros a. unfold is_space. rewrite !orb_true_iff, !Ascii.eqb_eq.
  by intros [[[->| ->]| ->]| ->].
Qed.

Lemma ascii_head_ws ws r : ws_ok ws = true -> ascii_head r -> ascii_head (ws ++ r).
Proof.
  destruct ws as [|a ws]; [done|]. intros Hw _. apply ws_ascii in Hw. cbn [forallb] in Hw.
  apply andb_true_iff in Hw as [Ha _]. by apply ascii_head_cons.
Qed.

Lemma ascii_head_value v r : value_ok v = true -> ascii_head (render v ++ r).
Proof.
  intros Hv. destruct v as [tok|k|ws l|ws l]; try by apply ascii_head_cons.
  cbn [value_ok] in Hv. pose proof Hv as (a & x & -> & Ha & _)%lit_ok_inv. cbn [render app]. apply ascii_head_cons.
  unfold lit_char, is_digit in Ha. unfold is_ascii. apply N.ltb_lt.
  rewrite !orb_true_iff, !andb_true_iff, !N.leb_le, !Ascii.eqb_eq in Ha.
  destruct Ha as [[[[[Ha|Ha]| ->]| ->]| ->]| ->]; [lia|lia|done..].
Qed.

Lemma joinComma_elem (l : list (mem value)) m : m ∈ l -> exists pre post,
  joinComma (map renderMem l) = pre ++ renderMem m ++ post /\ (post = [] \/ exists p, post = ","%char :: p).
Proof.
  induction l as [|m' l IH]; [by intros ?%not_elem_of_nil|]. intros [->|Hm]%elem_of_cons.
  - exists [], (concat (map (cons ","%char) (map renderMem l))). split; [done|].
    destruct l; [by left|right; by eexists].
  - destruct (IH Hm) as (pre & post & He & Hp). destruct l as [|m2 l]; [by apply not_elem_of_nil in Hm|].
    exists (renderMem m' ++ ","%char :: pre), post. split; [|done]. cbn [map]. rewrite joinComma_cons2.
    cbn [map] in He. rewrite He. by rewrite <- app_assoc.
Qed.

Lemma max_depth_elem l n : n ∈ l -> n <= max_depth l.
Proof. induction l as [|x l IH]; [by intros ?%not_elem_of_nil|]. intros [->|Hn%IH]%elem_of_cons; simpl; unfold max_depth in *; lia. Qed.

Definition sound_value (v : value) : Prop := value_ok v = true /\ (N.of_nat (depth v) < maxNesting)%N /\ utf8 (render v).

Lemma stored_value t ws l name v : text_ok t = true -> it_val t = Obj ws l -> utf8 (renderText t) ->
  lookupMember name l = Some v -> sound_value v.
Proof.
  destruct t as [ws1 v0 ws2]. unfold text_ok, renderText, renderItem. cbn [it_pre it_val it_post].
  rewrite !andb_true_iff. intros [[[Hw1 Hok] Hw2] Hd%N.leb_le] -> Hu (m & Hm & _ & <-)%lookupMember_Some.
  cbn [value_ok] in Hok. rewrite !andb_true_iff in Hok. destruct Hok as [_ Hl].
  rewrite forallb_forall in Hl. specialize (Hl m ltac:(by apply list_elem_of_In)). cbv beta in Hl.
  rewrite !andb_true_iff in Hl. destruct Hl as [[[[[Hm1 Hk] Hm2] Hm3] Hv] Hm4].
  split_and!; [done| |].
  - cbn [depth] in Hd. pose proof (max_depth_elem (map (fun m => depth (mb_val m)) l) (depth (mb_val m))) as Hle.
    specialize (Hle ltac:(apply list_elem_of_fmap; by exists m)). lia.
  - rewrite render_Obj in Hu. destruct (joinComma_elem l m Hm) as (pre & post & He & Hp). rewrite He in Hu.
    unfold renderMem in Hu.
    assert (Hx : exists x, ws1 ++ ("{"%char :: ws ++ (pre ++ (mb_pre m ++ renderStr (mb_key m) ++ mb_mid m ++ ":"%char ::
        mb_aft m ++ render (mb_val m) ++ mb_post m) ++ post) ++ ["}"%char]) ++ ws2 =
      x ++ render (mb_val m) ++ (mb_post m ++ post ++ "}"%char :: ws2)).
    { eexists (ws1 ++ "{"%char :: ws ++ pre ++ mb_pre m ++ renderStr (mb_key m) ++ mb_mid m ++ ":"%char :: mb_aft m).
      repeat (rewrite <- app_assoc; cbn [app]). done. }
    destruct Hx as [x Hx]. rewrite Hx in Hu. eapply utf8_slice; [|..|exact Hu]; [by apply ascii_head_value|].
    apply ascii_head_ws; [done|]. by destruct Hp as [->|[p ->]]; apply ascii_head_cons.
Qed.

(** A decoded string is well-formed. *)
Lemma unmarshalStr_utf8 v m : sound_value v -> unmarshalStr (render v) = Some m -> utf8 m.
Proof.
  intros (Hok & Hd & Hu). unfold unmarshalStr.
  assert (Ht : parseText (render v) = Some (Build_item [] v [])).
  { rewrite <- (app_nil_r (render v)). apply (parseText_render (Build_item [] v [])).
    unfold text_ok. cbn [it_pre it_val it_post]. rewrite Hok. apply N.leb_le. lia. }
  rewrite Ht. cbn [mbind option_bind it_val]. destruct v as [tok|s|ws l|ws l]; [| |done..].
  - case_decide; [|done]. intros [= <-]. constructor.
  - intros [= <-]. cbn [value_ok render] in *. apply utf8_unquote; [done|].
    apply (utf8_tail [dquote]) in Hu; [|done]. by apply utf8_split in Hu as [? _]; [|apply ascii_head_cons].
Qed.

(** ** Reading the canonical body *)
Lemma utf8_joinComma l : Forall utf8 l -> utf8 (joinComma l).
Proof.
  destruct 1 as [|x l Hx Hl]; [constructor|]. cbn [joinComma]. apply utf8_app; [done|].
  induction Hl as [|y l Hy _ IH]; [constructor|]. cbn [map concat app]. apply utf8_ascii; [done|by apply utf8_app].
Qed.

Lemma sound_Str m : utf8 m -> sound_value (Str (marshalString m)).
Proof. intros Hm. apply marshalString_ok in Hm as (Hs & _ & _ & Hu). split_and!; [done|done|done]. Qed.

Lemma canon_text_ok l method wm : utf8 method -> (forall name v, lookupMember name l = Some v -> sound_value v) ->
  text_ok (canonText l method wm) = true /\ utf8 (renderText (canonText l method wm)).
Proof.
  intros Hm Hl. assert (Hall : forall m, m ∈ canonTree l method wm ->
    exists name i, forwardedMembers !! i = Some name /\ m = Build_mem [] (Plain <$> name) [] [] (mb_val m) [] /\ sound_value (mb_val m)).
  { intros m (i & name & v & Hi & Hv & _ & ->)%elem_of_canonTree. exists name, i. cbn [mb_val]. split_and!; [done|done|].
    destruct (Nat.eqb i memberMethod); [by apply sound_Str|by eapply Hl]. }
  split.
  - unfold text_ok, canonText. cbn [it_pre it_val it_post]. rewrite !andb_true_iff. split_and!; [done| |done|].
    + cbn [value_ok]. rewrite orb_true_r. cbn [ws_ok forallb andb]. apply forallb_forall.
      intros m (name & i & Hi & -> & Hok & _)%list_elem_of_In%Hall. apply forwarded_reserved in Hi as (_ & _ & _ & Hs).
      cbn [mb_pre mb_key mb_mid mb_aft mb_val mb_post] in *. by rewrite Hs, Hok.
    + apply N.leb_le. cbn [depth]. assert (N.of_nat (max_depth (map (fun m => depth (mb_val m)) (canonTree l method wm))) < maxNesting)%N; [|lia].
      induction (canonTree l method wm) as [|m tr IH]; [done|]. cbn [map max_depth foldr].
      assert (N.of_nat (depth (mb_val m)) < maxNesting)%N by (destruct (Hall m ltac:(by left)) as (? & ? & _ & _ & _ & ? & _); done).
      assert (IH' : (N.of_nat (max_depth (map (fun m => depth (mb_val m)) tr)) < maxNesting)%N)
        by (apply IH; intros m' Hm'; apply Hall; by right). unfold max_depth in IH'. lia.
  - unfold renderText, renderItem, canonText. cbn [it_pre it_val it_post app]. rewrite render_Obj, app_nil_r. cbn [app].
    apply utf8_ascii; [done|]. apply utf8_app; [|by apply utf8_all_ascii]. apply utf8_joinComma.
    apply Forall_forall. intros x (m & -> & (name & i & Hi & -> & _ & _ & Hu)%Hall)%list_elem_of_fmap.
    apply forwarded_reserved in Hi as (_ & _ & Hn & _). unfold renderMem, renderStr.
    cbn [mb_pre mb_key mb_mid mb_aft mb_val mb_post app] in *. rewrite renderChars_plain, app_nil_r.
    apply utf8_ascii; [done|]. rewrite <- app_assoc. apply utf8_app; [done|]. cbn [app].
    by do 2 (apply utf8_ascii; [done|]).
Qed.

Lemma canonTree_sublist l method wm idxs :
  map keyOf (omap (slot l method wm) idxs) `sublist_of` map (fun i => default [] (forwardedMembers !! i)) idxs.
Proof.
  induction idxs as [|i idxs IH]; [done|]. cbn [omap list_omap map]. destruct (slot l method wm i) as [m|] eqn:E.
  - unfold slot in E. destruct (forwardedMembers !! i) as [name|]; [|done]. cbn [mbind option_bind] in E.
    destruct (lookupMember name l); [|done]. cbn [mbind option_bind] in E. destruct (negb wm && _); [done|].
    injection E as <-. cbn [map]. unfold keyOf at 1. cbn [mb_key]. rewrite unquote_plain_all. by apply sublist_skip.
  - by apply sublist_cons.
Qed.

Lemma canonTree_NoDup l method wm : NoDup (map foldedKey (canonTree l method wm)).
Proof.
  assert (Hm : map foldedKey (canonTree l method wm) = foldKey <$> map keyOf (canonTree l method wm))
    by (symmetry; apply (map_map keyOf foldKey)). rewrite Hm.
  eapply sublist_NoDup; [|apply fmap_sublist, canonTree_sublist]. apply (bool_decide_unpack _). vm_compute. exact I.
Qed.

Lemma canonTree_clean l method wm : utf8 method ->
  (forall name v, lookupMember name l = Some v -> clean v = true) ->
  forallb memberClean (canonTree l method wm) = true.
Proof.
  intros Hm Hl. apply forallb_forall. intros m (i & name & v & Hi & Hv & _ & ->)%list_elem_of_In%elem_of_canonTree.
  apply forwarded_reserved in Hi as (Hr & _ & _ & _). unfold memberClean, exact_name, keyOf. cbn [mb_key mb_val].
  rewrite unquote_plain_all, Hr, bool_decide_eq_true_2, andb_true_r by done.
  apply andb_true_iff. split.
  - clear. induction name as [|a name IH]; [done|]. exact IH.
  - destruct (Nat.eqb i memberMethod); [|by eapply Hl]. cbn [clean]. by apply marshalString_ok in Hm as (_ & ? & _).
Qed.

(** Writing the canonical body of a canonical body changes nothing. *)
Lemma canonTree_again l method wm : canonTree (canonTree l method wm) method true = canonTree l method wm.
Proof.
  unfold canonTree at 1 3. assert (Hs : forall i, slot (canonTree l method wm) method true i = slot l method wm i).
  { intros i. unfold slot. destruct (forwardedMembers !! i) as [name|] eqn:Hi; [|done]. cbn [mbind option_bind].
    rewrite (lookup_canonTree l method wm i name Hi). destruct (lookupMember name l) as [v|]; [|done].
    cbn [mbind option_bind]. destruct (negb wm && metadataIdx i); [done|]. cbn [negb andb mbind option_bind].
    by destruct (Nat.eqb i memberMethod). }
  induction (seq 0 6) as [|i idxs IH]; [done|]. cbn [omap list_omap]. rewrite Hs. by destruct (slot l method wm i); rewrite IH.
Qed.

(** A marshalled string unmarshals to itself. *)
Lemma unmarshal_marshal m : utf8 m -> unmarshalStr (renderStr (marshalString m)) = Some m.
Proof.
  intros Hm. unfold unmarshalStr. pose proof (sound_Str m Hm) as (Hs & _ & _).
  pose proof (parseText_render (Build_item [] (Str (marshalString m)) [])) as Hpt.
  unfold renderText, renderItem in Hpt. cbn [it_pre it_val it_post app render] in Hpt. rewrite app_nil_r in Hpt.
  rewrite Hpt by (unfold text_ok; cbn [it_pre it_val it_post]; by rewrite Hs). cbn [mbind option_bind it_val].
  by apply marshalString_ok in Hm as (_ & _ & -> & _).
Qed.

Lemma stored_clean l r name v : walkTop l ∅ (replicate 6 None) [] = Ok r -> lookupMember name l = Some v -> clean v = true.
Proof.
  intros Hw (m & Hin & _ & <-)%lookupMember_Some.
  destruct (proj2 (walkTop_ok l ∅ (replicate 6 None) [])) as (_ & _ & Hclean); [eauto|].
  rewrite forallb_forall in Hclean. specialize (Hclean m ltac:(by apply list_elem_of_In)).
  unfold memberClean in Hclean. by rewrite !andb_true_iff in Hclean; destruct Hclean as [[_ ?] _].
Qed.

(** The members of the canonical body. *)
Definition keptMember (members : list (option bytes)) (method : bytes) (wm : bool) (i : nat) : option bytes :=
  if negb wm && metadataIdx i then None
  else if Nat.eqb i memberMethod then (fun _ => renderStr (marshalString method)) <$> memberOf members i
  else memberOf members i.

Lemma stored_again l members members' method wm i name :
  storedOf l members -> storedOf (canonTree l method wm) members' -> forwardedMembers !! i = Some name ->
  memberOf members' i = keptMember members method wm i.
Proof.
  intros Hst Hst' Hi. unfold keptMember. rewrite (Hst' i name Hi), (Hst i name Hi), (lookup_canonTree l method wm i name Hi).
  destruct (lookupMember name l); cbn [mbind option_bind fmap option_fmap option_map]; [|by repeat case_match].
  destruct (negb wm && metadataIdx i); [done|]. by destruct (Nat.eqb i memberMethod).
Qed.

Lemma kept_data members method wm i : metadataIdx i = false -> Nat.eqb i memberMethod = false ->
  keptMember members method wm i = memberOf members i.
Proof. intros H1 H2. unfold keptMember. by rewrite H1, H2, andb_false_r. Qed.

Lemma decoded_again members members' method0 method params wm :
  decoded members method0 params -> utf8 method -> (memberOf members memberMethod = None -> method = []) ->
  (forall i name, forwardedMembers !! i = Some name -> memberOf members' i = keptMember members method wm i) ->
  decoded members' method params.
Proof.
  intros (Hj & Hid & _ & Hp) Hm Hnone Hmem. unfold decoded.
  rewrite (Hmem memberJSONRPC _ eq_refl), (Hmem memberID _ eq_refl), (Hmem memberParams _ eq_refl),
    (Hmem memberMethod _ eq_refl), (kept_data _ _ _ memberJSONRPC), (kept_data _ _ _ memberID),
    (kept_data _ _ _ memberParams) by done.
  split_and!; [done|done| |done]. unfold keptMember. change (metadataIdx memberMethod) with false.
  rewrite andb_false_r. change (Nat.eqb memberMethod memberMethod) with true. cbv iota.
  destruct (memberOf members memberMethod) as [raw|]; [|by rewrite Hnone].
  cbn [fmap option_fmap option_map memberAs]. by rewrite unmarshal_marshal.
Qed.

Lemma read_back body env method wm :
  ParseEnvelope body = Ok env -> utf8 method ->
  (memberOf (en_members env) memberMethod = None -> method = []) ->
  exists env', ParseEnvelope (buildCanonical (en_members env) method wm) = Ok env' /\
    en_Method env' = method /\ en_Params env' = en_Params env /\ en_fieldVariant env' = en_fieldVariant env /\
    en_Canonical env' = buildCanonical (en_members env) method wm /\
    forall i name, forwardedMembers !! i = Some name ->
      memberOf (en_members env') i = keptMember (en_members env) method wm i.
Proof.
  intros (_ & Hu & (t & Ht & (ws & l & Hv & Hw)%walkText_Ok) & Hdec & _)%ParseEnvelope_Ok Hm Hnone.
  apply parseText_sound in Ht as [Hb Hok]. subst body. pose proof (stored_value t ws l) as Hsound.
  pose proof Hw as [Hst Hfv]%walkTop_spec; [|done]. apply storedAs_init in Hst.
  set (tree := canonTree l method wm).
  destruct (canon_text_ok l method wm Hm) as [Htok Htu]; [by eauto|].
  destruct (proj1 (walkTop_ok tree ∅ (replicate 6 None) [])) as [[ms' fv'] Hw'].
  { split_and!; [apply canonTree_NoDup|set_solver|]. apply canonTree_clean; [done|]. intros name v. by eapply stored_clean. }
  pose proof Hw' as [Hst' Hfv']%walkTop_spec; [|done]. apply storedAs_init in Hst'.
  assert (Hmem : forall i name, forwardedMembers !! i = Some name ->
    memberOf ms' i = keptMember (en_members env) method wm i) by (intros; by eapply stored_again).
  exists {| en_Method := method; en_Params := en_Params env;
            en_Canonical := buildCanonical (en_members env) method wm;
            en_members := ms'; en_fieldVariant := en_fieldVariant env |}.
  split; [|done]. apply ParseEnvelope_Ok. cbn [en_members en_fieldVariant en_Method en_Params en_Canonical].
  split_and!.
  - unfold buildCanonical. apply not_batch.
  - by rewrite (buildCanonical_tree l).
  - exists (canonText l method wm). rewrite (buildCanonical_tree l) by done. split; [by apply parseText_render|].
    apply walkText_Ok. exists [], tree. split; [done|]. rewrite Hw'. do 2 f_equal.
    unfold tree in Hfv'. rewrite (lookup_canonTree l method wm memberParams paramsName eq_refl), andb_false_r in Hfv'.
    destruct (lookupMember paramsName l); cbn [mbind option_bind] in Hfv'; cbn in Hfv'; congruence.
  - by eapply decoded_again.
  - rewrite (buildCanonical_tree l (en_members env)) by done. rewrite (buildCanonical_tree tree ms') by done.
    unfold canonText, tree. by rewrite canonTree_again.
Qed.

(** ** Canonical method names *)
Lemma bytesOf_stringOf b : bytesOf (stringOf b) = b.
Proof. apply String.list_ascii_of_string_of_list_ascii. Qed.
Lemma stringOf_bytesOf s : stringOf (bytesOf s) = s.
Proof. apply String.string_of_list_ascii_of_string. Qed.

Lemma CanonicalizeMethod_cases m : CanonicalizeMethod m ∈ builtinMethods \/ CanonicalizeMethod m = m.
Proof.
  with_strategy transparent [CanonicalizeMethod] unfold CanonicalizeMethod.
  destruct (canonicalMethodByLower !! ToLower m) as [name|] eqn:E; [left|by right].
  by apply canonicalMethodByLower_Some in E as [? _].
Qed.

Lemma CanonicalizeMethod_again m : CanonicalizeMethod (CanonicalizeMethod m) = CanonicalizeMethod m.
Proof. destruct (CanonicalizeMethod_cases m) as [Hb|He]; [by apply CanonicalizeMethod_builtin|by rewrite !He]. Qed.

Lemma utf8_canonical m : utf8 m -> utf8 (bytesOf (CanonicalizeMethod (stringOf m))).
Proof.
  intros Hm. destruct (CanonicalizeMethod_cases (stringOf m)) as [Hb| ->]; [|by rewrite bytesOf_stringOf].
  apply utf8_all_ascii. revert Hb. generalize (CanonicalizeMethod (stringOf m)). intros name Hn.
  assert (Hall : Forall (fun n => forallb is_ascii (bytesOf n) = true) builtinMethods)
    by (apply (bool_decide_unpack _); vm_compute; exact I).
  by apply (proj1 (Forall_forall _ _) Hall).
Qed.

(** The method an accepted body names. *)
Lemma method_utf8 body env : ParseEnvelope body = Ok env ->
  utf8 (en_Method env) /\ (memberOf (en_members env) memberMethod = None -> en_Method env = []).
Proof.
  intros (_ & Hu & (t & Ht & (ws & l & Hv & Hw)%walkText_Ok) & (_ & _ & Hm & _) & _)%ParseEnvelope_Ok.
  apply parseText_sound in Ht as [-> Hok]. apply walkTop_spec in Hw as [Hst _]; [|done]. apply storedAs_init in Hst.
  rewrite (Hst memberMethod _ eq_refl) in Hm |- *. destruct (lookupMember _ l) as [v|] eqn:El.
  - split; [|done]. cbn [fmap option_fmap option_map memberAs] in Hm.
    destruct (unmarshalStr (render v)) as [m|] eqn:Em; [|done]. injection Hm as <-.
    eapply unmarshalStr_utf8; [|exact Em]. by eapply (stored_value t ws l).
  - cbn in Hm. injection Hm as <-. split; [constructor|done].
Qed.

(** ** Claims *)

(** C34: of the bodies that are JSON, the scan accepts exactly the objects in
    which no object at any depth has two member names equal under case folding,
    no string has an unpaired surrogate, and no top-level name is a case variant
    of a forwarded member; and what it stores of each forwarded member is the
    text of the value under that name. *)
Theorem scan_accepts_exactly body t : parseText body = Some t ->
  ((exists r, scanEnvelope body = Ok r) <->
   exists ws l, it_val t = Obj ws l /\ clean (Obj ws l) = true /\ forall m, m ∈ l -> exact_name (keyOf m) = true) /\
  (forall members fv, scanEnvelope body = Ok (members, fv) -> exists ws l, it_val t = Obj ws l /\
     forall i name, forwardedMembers !! i = Some name -> memberOf members i = render <$> lookupMember name l).
Proof.
  intros [-> Hok]%parseText_sound. rewrite (scan_text t Hok). split.
  - split.
    + intros ([ms fv] & (ws & l & Hv & Hw)%walkText_Ok). exists ws, l.
      destruct (proj2 (walkTop_ok l ∅ (replicate 6 None) [])) as (Hnd & _ & Hc); [eauto|].
      rewrite forallb_forall in Hc. unfold memberClean in Hc. split_and!; [done| |].
      * cbn [clean]. rewrite bool_decide_eq_true_2 by done. apply forallb_forall. intros m Hm%Hc.
        by rewrite !andb_true_iff in *; destruct Hm as [? _].
      * intros m Hm%list_elem_of_In%Hc. by apply andb_true_iff in Hm as [_ ?].
    + intros (ws & l & Hv & Hc & Hn). cbn [clean] in Hc. apply andb_true_iff in Hc as [Hnd%bool_decide_eq_true Hc].
      destruct (proj1 (walkTop_ok l ∅ (replicate 6 None) [])) as [r Hr].
      { split_and!; [done|set_solver|]. apply forallb_forall. rewrite forallb_forall in Hc. intros m Hm.
        unfold memberClean. rewrite (Hc m Hm). apply Hn. by apply list_elem_of_In. }
      exists r. apply walkText_Ok. eauto.
  - intros ms fv (ws & l & Hv & Hw)%walkText_Ok. exists ws, l. split; [done|].
    apply walkTop_spec in Hw as [Hst _]; [|done]. by apply storedAs_init.
Qed.

Lemma walkValue_errors v : forall inP fv e, walkValue inP v fv = Err e -> e = ErrAmbiguousRequest \/ e = surrogateError.
Proof.
  induction v as [tok|s|ws l IH|ws l IH] using value_nested_ind; intros inP fv e.
  - done.
  - cbn [walkValue]. destruct (surrogates_ok s); [done|]. intros [= <-]. by right.
  - rewrite walkValue_Arr. revert fv. induction IH as [|it l Hit _ IH]; intros fv; cbn [walkItems]; [done|].
    destruct (walkValue _ _ _) as [fv1|] eqn:E; [apply IH|]. intros [= <-]. eauto.
  - rewrite walkValue_Obj. generalize (∅ : gset bytes). revert fv.
    induction IH as [|m l Hm _ IH]; intros fv keys; cbn [walkMembers]; [done|].
    destruct (negb _); [intros [= <-]; by right|]. case_decide; [intros [= <-]; by left|].
    destruct (walkValue _ _ _) as [fv1|] eqn:E; [apply IH|]. intros [= <-]. eauto.
Qed.

Lemma walkTop_errors l : forall keys ms fv e, walkTop l keys ms fv = Err e -> e = ErrAmbiguousRequest \/ e = surrogateError.
Proof.
  induction l as [|m l IH]; intros keys ms fv e; cbn [walkTop]; [done|].
  destruct (negb _); [intros [= <-]; by right|]. case_decide; [intros [= <-]; by left|].
  destruct (reservedLooseFolds !! _) as [canonical|].
  - case_decide; [intros [= <-]; by left|]. destruct (walkValue _ _ _) as [fv1|] eqn:E; [apply IH|].
    intros [= <-]. by eapply walkValue_errors.
  - destruct (walkValue _ _ _) as [fv1|] eqn:E; [apply IH|]. intros [= <-]. by eapply walkValue_errors.
Qed.

Lemma memberAs_error {A} zero (f : bytes -> option A) msg raw e : memberAs zero f msg raw = Err e -> e = parseError msg.
Proof. destruct raw as [raw|]; [|done]. simpl. destruct (f raw); [done|]. by intros [= <-]. Qed.

(** C35: whatever the bytes of the body, parsing refuses them with the batch
    error, the ambiguity error or a parse error: the scanner never reads past
    the body and never pops an empty stack, and its loop ends. *)
Theorem envelope_never_panics body e : ParseEnvelope body = Err e ->
  (e = ErrBatchRequest \/ e = ErrAmbiguousRequest \/ exists msg, e = parseError msg) /\ e <> panicEnvelope /\ e <> "fuel".
Proof.
  intros He. assert (Hc : e = ErrBatchRequest \/ e = ErrAmbiguousRequest \/ exists msg, e = parseError msg).
  2: { split; [done|]. by destruct Hc as [->|[->|[msg ->]]]. }
  unfold ParseEnvelope in He. destruct (IsBatchRequest body); [injection He as <-; by left|].
  destruct (utf8_valid body); cbn [negb] in He; [|injection He as <-; eauto].
  destruct (parseText body) as [t|] eqn:Et.
  2: { rewrite bool_decide_eq_false_2 in He by (by intros []). injection He as <-; eauto. }
  rewrite bool_decide_eq_true_2 in He by eauto. cbn [negb] in He.
  apply parseText_sound in Et as [-> Hok]. rewrite (scan_text t Hok) in He.
  destruct (walkText t) as [[ms fv]|e'] eqn:Ew; cbn [mbind result_bind] in He.
  - repeat match type of He with
    | mbind _ ?m = _ => destruct m eqn:?; cbn [mbind result_bind] in He
    | context [negb (idOk ?id)] => destruct (idOk id); cbn [negb] in He
    | Err _ = Err _ => injection He as <-
    | Ok _ = Err _ => done
    end; try (match goal with H : memberAs _ _ _ _ = Err _ |- _ => apply memberAs_error in H as -> end); eauto.
  - injection He as <-. unfold walkText in Ew. destruct (it_val t); try (injection Ew as <-; by eauto).
    apply walkTop_errors in Ew as [->| ->]; [by eauto|]. unfold surrogateError. eauto.
Qed.
End claims.

Section forward.
Context `{Unicode} (reg : Registries).

Definition sendMethod (m : string) : Prop := m = "eth_sendTransaction" \/ m = "eth_sendRawTransaction".

Lemma SetMethod_canonical body env : ParseEnvelope body = Ok env ->
  let name := CanonicalizeMethod (stringOf (en_Method env)) in
  let env1 := SetMethod (bytesOf name) env in
  utf8 (en_Method env1) /\ (memberOf (en_members env) memberMethod = None -> en_Method env1 = []) /\
  stringOf (en_Method env1) = name /\ en_Params env1 = en_Params env /\ en_members env1 = en_members env /\
  en_fieldVariant env1 = en_fieldVariant env /\
  en_Canonical env1 = buildCanonical (en_members env) (en_Method env1) true.
Proof.
  intros He. destruct (method_utf8 body env He) as [Hu Hn]. cbv zeta. unfold SetMethod.
  destruct (memberOf (en_members env) memberMethod) eqn:Em.
  - cbn [en_Method en_Params en_members en_fieldVariant en_Canonical]. rewrite stringOf_bytesOf.
    split_and!; [by apply utf8_canonical|done..].
  - rewrite Hn by done. apply ParseEnvelope_Ok in He as (_ & _ & _ & _ & Hc). rewrite Hn in Hc by done.
    split_and!; [constructor|done| |done..]. symmetry. vm_compute. reflexivity.
Qed.

(** C33: what is forwarded to the node reads back as what access is decided on:
    parsed again by the same parser, the forwarded body names the method and
    holds the params that [ParseAndValidateBody] returned, in the built-in
    spelling of the method, without an ambiguity, and it is its own canonical
    form; and unless the method is a send it carries no [visibleTo] or
    [privateFor]. *)
Theorem forwarded_body_reads_back body method params forward :
  ParseAndValidateBody reg body = inl (method, params, forward) ->
  CanonicalizeMethod method = method /\
  exists env, ParseEnvelope forward = Ok env /\ stringOf (en_Method env) = method /\ en_Params env = params /\
    en_Canonical env = forward /\ ambiguousParams reg env = "" /\
    (~ sendMethod method ->
     memberOf (en_members env) memberVisibleTo = None /\ memberOf (en_members env) memberPrivateFor = None).
Proof.
  unfold ParseAndValidateBody. destruct (_ <? _)%Z; [done|]. destruct (ParseEnvelope body) as [env|] eqn:Ee; [|done].
  destruct (SetMethod_canonical body env Ee) as (Hu & Hn & Hname & Hp & Hms & Hfv & Hcan).
  set (env1 := SetMethod _ env) in *. case_decide as Ha; [done|].
  intros [= <- <- Hf].
  assert (Hback : exists env', ParseEnvelope forward = Ok env' /\ en_Method env' = en_Method env1 /\
    en_Params env' = en_Params env1 /\ en_fieldVariant env' = en_fieldVariant env1 /\ en_Canonical env' = forward /\
    (~ sendMethod (stringOf (en_Method env1)) ->
     memberOf (en_members env') memberVisibleTo = None /\ memberOf (en_members env') memberPrivateFor = None)).
  { assert (Hb : exists wm, forward = buildCanonical (en_members env) (en_Method env1) wm /\
      (~ sendMethod (stringOf (en_Method env1)) -> keptMember (en_members env) (en_Method env1) wm memberVisibleTo = None /\
        keptMember (en_members env) (en_Method env1) wm memberPrivateFor = None)).
    { revert Hf. case_bool_decide as Hs; intros <-.
      - exists true. split; [exact Hcan|]. intros Hns. contradiction.
      - unfold CanonicalWithoutMetadata. rewrite Hms.
        destruct (memberOf (en_members env) memberVisibleTo) eqn:E1; [by exists false; split; [reflexivity|intros _; split; reflexivity]|].
        destruct (memberOf (en_members env) memberPrivateFor) eqn:E2; [by exists false; split; [reflexivity|intros _; split; reflexivity]|].
        exists true. split; [exact Hcan|]. intros _. split; [exact E1|exact E2]. }
    destruct Hb as (wm & -> & Hk).
    destruct (read_back body env (en_Method env1) wm Ee Hu Hn) as (env' & He' & Hm' & Hp' & Hfv' & Hc' & Hmem).
    exists env'. split_and!; [done|done|by rewrite Hp|by rewrite Hfv|done|].
    rewrite (Hmem memberVisibleTo _ eq_refl), (Hmem memberPrivateFor _ eq_refl). exact Hk. }
  destruct Hback as (env' & He' & Hm' & Hp' & Hfv' & Hc' & Hmd).
  split; [rewrite Hname; apply CanonicalizeMethod_again|]. exists env'. rewrite Hm'. split_and!; [done|done|done|done| |done].
  rewrite <- Ha. unfold ambiguousParams, ParamsAmbiguity. by rewrite Hm', Hp', Hfv'.
Qed.
End forward.
