(* ===== verification/F64.v ===== *)
(** * IEEE double precision and [math/big.Float], as far as a fiat valuation
    uses them.

    A finite float is a dyadic number [dm * 2^de].  [roundAt] rounds a fraction
    to a multiple of a power of two, ties to even; [roundPrec] is the rounding
    of a [big.Float] of a precision, [toFloat64] the one of [Float64()] with its
    subnormals and its overflow. *)
From S2P Require Import Prelude GoStrings.
From stdpp Require Import pretty.
Local Open Scope Z_scope.

Record dyadic := Dy { dm : Z; de : Z }.
Inductive f64 := Fin (d : dyadic) | Inf (neg : bool) | NaN.

#[export] Instance dyadic_eq_dec : EqDecision dyadic.
Proof. solve_decision. Defined.
#[export] Instance f64_eq_dec : EqDecision f64.
Proof. solve_decision. Defined.

Definition compareDyadic (a b : dyadic) : comparison :=
  let e := Z.min (de a) (de b) in dm a * 2 ^ (de a - e) ?= dm b * 2 ^ (de b - e).

(** [a < b] and [a >= b]; every comparison with a NaN is false. *)
Definition f64_lt (a b : f64) : bool :=
  match a, b with
  | Fin x, Fin y => match compareDyadic x y with Lt => true | _ => false end
  | Fin _, Inf neg => negb neg
  | Inf neg, Fin _ => neg
  | Inf n1, Inf n2 => n1 && negb n2
  | _, _ => false
  end.
Definition f64_ge (a b : f64) : bool :=
  match a, b with NaN, _ | _, NaN => false | _, _ => negb (f64_lt a b) end.

Definition f64_zero : f64 := Fin (Dy 0 0).
Definition f64_of_Z (z : Z) : f64 := Fin (Dy z 0).

(** ** Rounding a fraction [n / d], both positive *)
Definition nearestEven (n d : Z) : Z :=
  let q := n / d in
  match 2 * (n mod d) ?= d with
  | Lt => q
  | Gt => q + 1
  | Eq => if Z.even q then q else q + 1
  end.

(** [n < d * 2^k] *)
Definition below (n d k : Z) : bool := if 0 <=? k then n <? d * 2 ^ k else n * 2 ^ (- k) <? d.

(** The exponent of the leading bit of [n / d]. *)
Definition leading (n d : Z) : Z :=
  let k := Z.log2 n - Z.log2 d in if below n d k then k - 1 else k.

Definition roundAt (q n d : Z) : dyadic :=
  Dy (if 0 <=? q then nearestEven n (d * 2 ^ q) else nearestEven (n * 2 ^ (- q)) d) q.

Definition roundPrec (prec n d : Z) : dyadic := roundAt (leading n d - prec + 1) n d.

Definition numer (x : dyadic) : Z := dm x * 2 ^ Z.max (de x) 0.
Definition denom (x : dyadic) : Z := 2 ^ Z.max (- de x) 0.

(** The double nearest to [n / d]. *)
Definition doubleOf (n d : Z) : f64 :=
  let r := roundAt (Z.max (leading n d - 52) (-1074)) n d in
  match compareDyadic r (Dy 1 1024) with Lt => Fin r | _ => Inf false end.

Definition toFloat64 (x : dyadic) : f64 := if dm x =? 0 then f64_zero else doubleOf (numer x) (denom x).

(** ** [math.Pow10] for [0 <= n <= 77]: a product of two table entries *)
Definition tableEntry (n : Z) : dyadic :=
  match doubleOf (10 ^ n) 1 with Fin d => d | _ => Dy 0 0 end.
Definition Pow10 (n : Z) : dyadic :=
  let a := tableEntry (n / 32 * 32) in
  let b := tableEntry (n mod 32) in
  match toFloat64 (Dy (dm a * dm b) (de a + de b)) with Fin d => d | _ => Dy 0 0 end.

(** ** [%.2f] *)
Definition printCents (x : dyadic) : string :=
  let cents := nearestEven (Z.abs (numer x) * 100) (denom x) in
  let sign := if dm x <? 0 then "-" else "" in
  let pad := if cents mod 100 <? 10 then "0" else "" in
  sign +:+ pretty (cents / 100) +:+ "." +:+ pad +:+ pretty (cents mod 100).
Definition print2 (x : f64) : string :=
  match x with
  | Fin d => printCents d
  | Inf neg => if neg then "-Inf" else "+Inf"
  | NaN => "NaN"
  end.

Example pow10_exact : Pow10 18 = Dy 7812500000000000 7 /\ compareDyadic (Pow10 18) (Dy (10 ^ 18) 0) = Eq.
Proof. vm_compute. done. Qed.
Example double_tenth : doubleOf 1 10 = Fin (Dy 7205759403792794 (-56)).
Proof. vm_compute. reflexivity. Qed.
Example double_overflow : doubleOf (10 ^ 400) 1 = Inf false /\ doubleOf 1 (10 ^ 400) = Fin (Dy 0 (-1074)).
Proof. vm_compute. done. Qed.
Example print2_ex : print2 (doubleOf 1005 1000) = "1.00" /\ print2 (doubleOf 2675 1000) = "2.67" /\
  print2 (f64_of_Z 1000) = "1000.00".
Proof. vm_compute. done. Qed.
