(* ===== verification/Compliance.v ===== *)
(** * Travel-rule compliance: [internal/compliance] and the queries of
    [internal/db/compliance_store.go] its checker makes.

    The checker is written against the class [ComplianceStore]; the tables
    [ComplianceDB] are one instance of it, [previewStore] turns any instance
    into the one of a dry run.  Amounts of fiat are doubles ([F64]); a SQL
    [NUMERIC] column is the double it is read as. *)
From S2P Require Import Prelude GoStrings F64.
From stdpp Require Import pretty.
From Stdlib Require Import Ascii.
Local Open Scope string_scope.

(** ** Data ([models.go]) *)
Inductive TransferType := TransferTypeETH | TransferTypeERC20.
Definition UnknownPriceAllowed : string := "allowed".
Definition EnforcementEnforce : string := "enforce".
Definition EnforcementMonitor : string := "monitor".

Record ComplianceConfig := {
  cc_OrgID : string; cc_Enabled : bool; cc_ThresholdFiat : f64; cc_Currency : string;
  cc_UnknownPricePolicy : string; cc_EnforcementMode : string }.

Record TokenPrice := {
  tp_OrgID : string; tp_TokenAddress : string; tp_Decimals : Z; tp_PriceFiat : f64;
  tp_PricesByCurrency : gmap string f64; tp_CoingeckoID : option string }.

Record SystemTokenPrice := {
  sp_CoingeckoID : option string; sp_Decimals : Z; sp_PriceFiat : f64;
  sp_PricesByCurrency : gmap string f64; sp_UpdatedAt : Z }.

Record TravelRuleRecord := {
  tr_ID : string; tr_OrgID : string; tr_OriginatorUserID : string; tr_TokenAddress : option string;
  tr_BeneficiaryAddress : string; tr_AmountFiat : f64; tr_Currency : string;
  tr_ExpiresAt : Z; tr_UsedAt : option Z; tr_CreatedAt : Z;
  (** the error of decoding its originator and beneficiary data *)
  tr_DataError : option string }.

Record SanctionedAddress := { sa_ID : string; sa_OrgID : option string; sa_Address : string }.
Record AddressThresholdOverride := { ao_OrgID : string; ao_Address : string; ao_ThresholdFiat : f64 }.

Record ComplianceLog := {
  cl_OrgID : string; cl_UserID : string; cl_TransferType : TransferType; cl_TokenAddress : option string;
  cl_FromAddress : string; cl_ToAddress : string; cl_AmountWei : string;
  cl_AmountFiat : option f64; cl_ThresholdFiat : option f64; cl_Currency : string;
  cl_Decision : string; cl_DenialReason : option string; cl_WouldBlock : bool;
  cl_TravelRuleRecordID : option string; cl_CorrelationID : string }.

(** ** Transfers ([transfer_detector.go]) *)
Definition SelectorTransfer : string := "0xa9059cbb".
Definition SelectorTransferFrom : string := "0x23b872dd".

Record TransferInfo := {
  ti_Type : TransferType; ti_TokenAddress : option string;
  ti_FromAddress : string; ti_ToAddress : string; ti_AmountWei : Z }.

Definition trim0x (s : string) : string := TrimPrefix (TrimPrefix s "0x") "0X".
Definition hexToBytes (hexStr : string) : option (list ascii) := DecodeString (trim0x hexStr).

(** [new(big.Int).SetString(s, 16)]: an optional sign and at least one digit. *)
Fixpoint hexDigitsValue (s : string) (acc : Z) : option Z :=
  match s with
  | EmptyString => Some acc
  | String a s => d ← hex_val a; hexDigitsValue s (acc * 16 + Z.of_N d)%Z
  end.
Definition parseHex (s : string) : option Z :=
  match s with
  | EmptyString => None
  | String "-"%char r => if decide (r = "") then None else Z.opp <$> hexDigitsValue r 0
  | String "+"%char r => if decide (r = "") then None else hexDigitsValue r 0
  | _ => hexDigitsValue s 0
  end.
Definition parseHexValue (hexValue : string) : option Z :=
  if contains [""; "0x"; "0X"; "0x0"; "0X0"] hexValue then None else parseHex (trim0x hexValue).

(** [new(big.Int).SetBytes] *)
Definition setBytes (bs : list ascii) : Z := foldl (fun z b => (z * 256 + Z.of_N (N_of_ascii b))%Z) 0%Z bs.
Definition bytesAt (a b : nat) (l : list ascii) : list ascii := take (b - a) (drop a l).

Definition detectERC20 (selector : string) (dataBytes : list ascii) (from to : string) : option TransferInfo :=
  if decide (selector = SelectorTransfer) then
    if Nat.ltb (length dataBytes) 68 then None
    else Some {| ti_Type := TransferTypeERC20; ti_TokenAddress := Some (ToLower to); ti_FromAddress := from;
                 ti_ToAddress := "0x" +:+ EncodeToString (bytesAt 16 36 dataBytes);
                 ti_AmountWei := setBytes (bytesAt 36 68 dataBytes) |}
  else if decide (selector = SelectorTransferFrom) then
    if Nat.ltb (length dataBytes) 100 then None
    else Some {| ti_Type := TransferTypeERC20; ti_TokenAddress := Some (ToLower to);
                 ti_FromAddress := "0x" +:+ EncodeToString (bytesAt 16 36 dataBytes);
                 ti_ToAddress := "0x" +:+ EncodeToString (bytesAt 48 68 dataBytes);
                 ti_AmountWei := setBytes (bytesAt 68 100 dataBytes) |}
  else None.

Definition DetectTransfer (from to data value : string) : option TransferInfo :=
  let erc20 :=
    if Nat.ltb (String.length data) 10 then None
    else dataBytes ← hexToBytes data; detectERC20 (ToLower (take_str 10 data)) dataBytes from to in
  match erc20 with
  | Some info => Some info
  | None =>
      amount ← parseHexValue value;
      if (0 <? amount)%Z
      then Some {| ti_Type := TransferTypeETH; ti_TokenAddress := None; ti_FromAddress := from;
                   ti_ToAddress := to; ti_AmountWei := amount |}
      else None
  end.

(** ** Valuation *)

(** [WeiToUSD] with its intermediate [big.Float]s: the amount has as many bits
    of precision as it needs, at least 64; the quotient and the product are
    rounded to that precision, the result to a double. *)
Definition WeiToUSD (amountWei decimals : Z) (priceUSD : f64) : result f64 :=
  if (amountWei =? 0)%Z then Ok f64_zero
  else if (amountWei <? 0)%Z then Err ("negative amountWei: " +:+ pretty amountWei)
  else if ((decimals <? 0) || (77 <? decimals))%Z
  then Err ("token decimals " +:+ pretty decimals +:+ " out of valid range [0, 77]")
  else match priceUSD with
  | Fin price =>
      if (dm price <? 0)%Z then Err "invalid price_usd"
      else if (dm price =? 0)%Z then Ok f64_zero
      else
        let prec := Z.max (Z.log2 amountWei + 1) 64 in
        let divisor := Pow10 decimals in
        let tokenAmount := roundPrec prec (amountWei * denom divisor) (numer divisor) in
        let usdValue := roundPrec prec (numer tokenAmount * numer price) (denom tokenAmount * denom price) in
        match toFloat64 usdValue with
        | Fin d => Ok (Fin d)
        | _ => Err "USD calculation overflow"
        end
  | _ => Err "invalid price_usd"
  end.
Definition WeiToFiat : Z -> Z -> f64 -> result f64 := WeiToUSD.

(** ** The store interface ([store.go]): every call may move the state, because
    other requests run between two calls of one check. *)
Class ComplianceStore (S : Type) := {
  GetComplianceConfig : string -> stM S (option ComplianceConfig);
  GetTokenPrice : string -> string -> stM S (option TokenPrice);
  GetSystemTokenPrice : string -> stM S (option SystemTokenPrice);
  GetAddressThresholdOverride : string -> string -> stM S (option AddressThresholdOverride);
  IsAddressSanctioned : string -> string -> stM S bool;
  GetSystemSetting : string -> stM S string;
  FindUnusedTravelRuleRecord :
    string -> string -> string -> string -> f64 -> stM S (option TravelRuleRecord);
  ClaimUnusedTravelRuleRecord :
    string -> string -> string -> string -> f64 -> stM S (option TravelRuleRecord);
  CreateComplianceLog : ComplianceLog -> stM S unit }.

(** [previewStore]: no claim, no log. *)
Definition previewStore {S} (st : ComplianceStore S) : ComplianceStore S := {|
  GetComplianceConfig := GetComplianceConfig;
  GetTokenPrice := GetTokenPrice;
  GetSystemTokenPrice := GetSystemTokenPrice;
  GetAddressThresholdOverride := GetAddressThresholdOverride;
  IsAddressSanctioned := IsAddressSanctioned;
  GetSystemSetting := GetSystemSetting;
  FindUnusedTravelRuleRecord := FindUnusedTravelRuleRecord;
  ClaimUnusedTravelRuleRecord := FindUnusedTravelRuleRecord;
  CreateComplianceLog := fun _ => mret tt |}.

(** ** The checker ([checker.go]) *)
Record Checker := { ck_priceStalenessThreshold : Z; ck_defaultMode : string }.

Definition SetDefaultEnforcementMode (mode : string) (c : Checker) : Checker :=
  {| ck_priceStalenessThreshold := ck_priceStalenessThreshold c;
     ck_defaultMode := if decide (mode = EnforcementMonitor) then EnforcementMonitor else EnforcementEnforce |}.

Definition effectiveMode (c : Checker) (config : ComplianceConfig) : string :=
  if decide (cc_EnforcementMode config = EnforcementMonitor) then EnforcementMonitor
  else if decide (cc_EnforcementMode config = EnforcementEnforce) then EnforcementEnforce
  else if decide (ck_defaultMode c = EnforcementMonitor) then EnforcementMonitor
  else EnforcementEnforce.

Record CheckRequest := {
  cr_OrgID : string; cr_UserID : string; cr_From : string; cr_To : string; cr_Data : string;
  cr_Value : string; cr_CorrelationID : string }.

Record CheckResult := {
  cs_Allowed : bool; cs_Reason : string; cs_TransferInfo : option TransferInfo; cs_Monitored : bool }.

Definition allowed (reason : string) (info : option TransferInfo) : CheckResult :=
  {| cs_Allowed := true; cs_Reason := reason; cs_TransferInfo := info; cs_Monitored := false |}.
Definition denied (reason : string) (info : TransferInfo) : CheckResult :=
  {| cs_Allowed := false; cs_Reason := reason; cs_TransferInfo := Some info; cs_Monitored := false |}.
Definition auditUnavailable : string := "compliance audit log unavailable, failing closed".

Definition decisionLog (req : CheckRequest) (info : TransferInfo) (amountFiat thresholdFiat : option f64)
  (decision denialReason : string) (wouldBlock : bool) (recordID : option string) (currency : string)
  : ComplianceLog :=
  {| cl_OrgID := cr_OrgID req; cl_UserID := cr_UserID req; cl_TransferType := ti_Type info;
     cl_TokenAddress := ti_TokenAddress info; cl_FromAddress := ti_FromAddress info;
     cl_ToAddress := ti_ToAddress info; cl_AmountWei := pretty (ti_AmountWei info);
     cl_AmountFiat := amountFiat; cl_ThresholdFiat := thresholdFiat; cl_Currency := currency;
     cl_Decision := decision;
     cl_DenialReason := if decide (denialReason = "") then None else Some denialReason;
     cl_WouldBlock := wouldBlock; cl_TravelRuleRecordID := recordID;
     cl_CorrelationID := cr_CorrelationID req |}.

Section checker.
Context {S : Type} `{ComplianceStore S}.
Variable c : Checker.
Variable now : Z.

(** A call whose error is wrapped. *)
Definition read {A} (msg : string) (m : stM S A) : stM S A := fun s =>
  let '(r, s) := m s in (wrap msg r, s).

(** Whether the log was written. *)
Definition tryLog (entry : ComplianceLog) : stM S bool := fun s =>
  let '(r, s) := CreateComplianceLog entry s in (Ok (is_ok r), s).

(** [allowMonitored] with [logWouldBlock]. *)
Definition allowMonitored (req : CheckRequest) (info : TransferInfo) (amountFiat thresholdFiat : option f64)
  (blockReason currency : string) : stM S CheckResult :=
  ok ← tryLog (decisionLog req info amountFiat thresholdFiat "allowed" blockReason true None currency);
  mret (if ok : bool
        then {| cs_Allowed := true; cs_Reason := "monitor mode (would block): " +:+ blockReason;
                cs_TransferInfo := Some info; cs_Monitored := true |}
        else denied auditUnavailable info).

(** A denial for a sanctioned address: an unwritten log is an error. *)
Definition denySanctioned (req : CheckRequest) (info : TransferInfo) (reason currency : string)
  : stM S CheckResult :=
  ok ← tryLog (decisionLog req info None None "denied" reason false None currency);
  if ok : bool then mret (denied reason info) else fail "compliance audit log unavailable".

(** A denial of the other kinds: an unwritten log is only warned about. *)
Definition denyLogged (req : CheckRequest) (info : TransferInfo) (amountFiat thresholdFiat : option f64)
  (reason currency : string) : stM S CheckResult :=
  _ ← tryLog (decisionLog req info amountFiat thresholdFiat "denied" reason false None currency);
  mret (denied reason info).

(** An allowed decision: an unwritten log denies. *)
Definition allowLogged (req : CheckRequest) (info : TransferInfo) (amountFiat thresholdFiat : option f64)
  (reason : string) (recordID : option string) (currency : string) : stM S CheckResult :=
  ok ← tryLog (decisionLog req info amountFiat thresholdFiat "allowed" "" false recordID currency);
  mret (if ok : bool then allowed reason (Some info) else denied auditUnavailable info).

(** Step 3: the reason of the first sanctioned address, if one is. *)
Definition sanctionStep (req : CheckRequest) (address errMsg reason : string) : stM S (option string) :=
  sanctioned ← read errMsg (IsAddressSanctioned (cr_OrgID req) address);
  mret (if sanctioned : bool then Some reason else None).

Definition checkSanctions (req : CheckRequest) (info : TransferInfo) : stM S (option string) :=
  spender ← (if decide (cr_From req <> "" /\ ToLower (cr_From req) <> ToLower (ti_FromAddress info))
    then sanctionStep req (cr_From req) "failed to check sanctions for spender address"
           ("transaction sender " +:+ cr_From req +:+ " is sanctioned")
    else mret None);
  match spender with
  | Some r => mret (Some r)
  | None =>
      to ← sanctionStep req (ti_ToAddress info) "failed to check sanctions for to address"
             ("recipient address " +:+ ti_ToAddress info +:+ " is sanctioned");
      match to with
      | Some r => mret (Some r)
      | None =>
          sanctionStep req (ti_FromAddress info) "failed to check sanctions for from address"
            ("sender address " +:+ ti_FromAddress info +:+ " is sanctioned")
      end
  end.

(** [resolveTokenPrice]: [None] is the sentinel for an unavailable price. *)
Definition positivePrice (prices : gmap string f64) (currency : string) : option f64 :=
  price ← prices !! currency; if f64_lt f64_zero price then Some price else None.

Definition systemPrice (sp : SystemTokenPrice) (currency : string) : option f64 :=
  if ((0 <? ck_priceStalenessThreshold c) && (ck_priceStalenessThreshold c <? now - sp_UpdatedAt sp))%Z
  then None
  else match positivePrice (sp_PricesByCurrency sp) currency with
  | Some price => Some price
  | None => if f64_lt f64_zero (sp_PriceFiat sp) then Some (sp_PriceFiat sp) else None
  end.

Definition manualPrice (tp : TokenPrice) (currency : string) : option f64 :=
  if decide (tp_PricesByCurrency tp = ∅)
  then (if f64_lt f64_zero (tp_PriceFiat tp) then Some (tp_PriceFiat tp) else None)
  else positivePrice (tp_PricesByCurrency tp) currency.

Definition resolveTokenPrice (orgID tokenAddr currency : string) : stM S (option (f64 * Z)) :=
  tokenPrice ← read "failed to get token price" (GetTokenPrice orgID tokenAddr);
  match tokenPrice with
  | Some tp =>
      let id := default "" (tp_CoingeckoID tp) in
      if decide (id = "")
      then mret (price ← manualPrice tp currency; Some (price, tp_Decimals tp))
      else
        sys ← read "failed to get system token price" (GetSystemTokenPrice id);
        mret (sp ← sys; price ← systemPrice sp currency; Some (price, tp_Decimals tp))
  | None =>
      if decide (tokenAddr = "native") then
        sys ← read "failed to get system ethereum price" (GetSystemTokenPrice "ethereum");
        mret (sp ← sys; price ← systemPrice sp currency; Some (price, sp_Decimals sp))
      else mret None
  end.

(** [resolveThreshold] *)
Definition lowerOverride (a b : option AddressThresholdOverride) : option AddressThresholdOverride :=
  match a, b with
  | lowest, None => lowest
  | None, Some o => Some o
  | Some l, Some o => if f64_lt (ao_ThresholdFiat o) (ao_ThresholdFiat l) then Some o else Some l
  end.

Fixpoint lowestOverride (orgID : string) (addrs : list string) (lowest : option AddressThresholdOverride)
  : stM S (option AddressThresholdOverride) :=
  match addrs with
  | [] => mret lowest
  | addr :: addrs =>
      if decide (addr = "") then lowestOverride orgID addrs lowest
      else
        override ← read ("failed to get address threshold override for " +:+ ToLower addr)
                     (GetAddressThresholdOverride orgID (ToLower addr));
        lowestOverride orgID addrs (lowerOverride lowest override)
  end.

Definition resolveThreshold (orgID : string) (config : ComplianceConfig) (fromAddr toAddr : string)
  : stM S f64 :=
  lowest ← lowestOverride orgID [fromAddr; toAddr] None;
  mret (match lowest with Some o => ao_ThresholdFiat o | None => cc_ThresholdFiat config end).

(** The currency of a decision: the error of the setting is dropped. *)
Definition ignoreError (m : stM S string) : stM S string := fun s =>
  let '(r, s) := m s in (Ok (match r with Ok v => v | Err _ => "" end), s).
Definition decisionCurrency (config : ComplianceConfig) : stM S string :=
  base ← (if decide (cc_Currency config = "") then ignoreError (GetSystemSetting "base_currency")
          else mret (cc_Currency config));
  mret (if decide (base = "") then "usd" else base).

Definition decisionToken (info : TransferInfo) : string :=
  match ti_TokenAddress info with Some a => ToLower a | None => "native" end.

(** Step 4 when no price is available. *)
Definition unknownPrice (req : CheckRequest) (info : TransferInfo) (config : ComplianceConfig)
  (currency : string) : stM S CheckResult :=
  let tokenAddr := decisionToken info in
  if decide (cc_UnknownPricePolicy config = UnknownPriceAllowed)
  then allowLogged req info None None
         ("no price configured for token " +:+ tokenAddr +:+ ", allowing per unknown price policy") None currency
  else
    let reason :=
      "no price configured for token " +:+ tokenAddr +:+ " and unknown price policy is forbidden" in
    if decide (effectiveMode c config = EnforcementMonitor)
    then allowMonitored req info None None reason currency
    else denyLogged req info None None reason currency.

(** Step 6: at or above the threshold. *)
Definition claimRecord (req : CheckRequest) (info : TransferInfo) (config : ComplianceConfig)
  (currency : string) (amountFiat threshold : f64) : stM S CheckResult :=
  let exceeds := "transfer value $" +:+ print2 amountFiat +:+ " exceeds threshold $" +:+ print2 threshold in
  record ← read "failed to claim travel rule record"
    (ClaimUnusedTravelRuleRecord (cr_OrgID req) (cr_UserID req) (ti_ToAddress info) (decisionToken info)
       amountFiat);
  match record with
  | None =>
      let reason := exceeds +:+ " and no travel rule record found" in
      if decide (effectiveMode c config = EnforcementMonitor)
      then allowMonitored req info (Some amountFiat) (Some threshold) reason currency
      else denyLogged req info (Some amountFiat) (Some threshold) reason currency
  | Some record =>
      allowLogged req info (Some amountFiat) (Some threshold)
        (exceeds +:+ ", travel rule record " +:+ tr_ID record +:+ " applied") (Some (tr_ID record)) currency
  end.

(** Steps 4 (with a price) and 5. *)
Definition valuedTransfer (req : CheckRequest) (info : TransferInfo) (config : ComplianceConfig)
  (currency : string) (priceFiat : f64) (decimals : Z) : stM S CheckResult :=
  amountFiat ← lift (wrap "failed to calculate fiat value" (WeiToFiat (ti_AmountWei info) decimals priceFiat));
  threshold ← read "failed to resolve threshold"
    (resolveThreshold (cr_OrgID req) config (ti_FromAddress info) (ti_ToAddress info));
  if f64_lt amountFiat threshold
  then allowLogged req info (Some amountFiat) (Some threshold)
         ("transfer value $" +:+ print2 amountFiat +:+ " below threshold $" +:+ print2 threshold) None currency
  else claimRecord req info config currency amountFiat threshold.

(** Steps 3 to 6, for a transfer of an organization with the rule enabled. *)
Definition checkTransfer (req : CheckRequest) (info : TransferInfo) (config : ComplianceConfig)
  : stM S CheckResult :=
  currency ← decisionCurrency config;
  sanctioned ← checkSanctions req info;
  match sanctioned with
  | Some reason => denySanctioned req info reason currency
  | None =>
      price ← read "failed to resolve token price"
        (resolveTokenPrice (cr_OrgID req) (decisionToken info) currency);
      match price with
      | None => unknownPrice req info config currency
      | Some (priceFiat, decimals) => valuedTransfer req info config currency priceFiat decimals
      end
  end.

Definition Check (req : CheckRequest) : stM S CheckResult :=
  match DetectTransfer (cr_From req) (cr_To req) (cr_Data req) (cr_Value req) with
  | None => mret (allowed "not a value transfer" None)
  | Some info =>
      config ← read "failed to get compliance config" (GetComplianceConfig (cr_OrgID req));
      match config with
      | None => mret (allowed "compliance not enabled for org" (Some info))
      | Some config =>
          if cc_Enabled config then checkTransfer req info config
          else mret (allowed "compliance not enabled for org" (Some info))
      end
  end.
End checker.

Definition CheckPreview {S} {st : ComplianceStore S} (c : Checker) (now : Z) (req : CheckRequest)
  : stM S CheckResult := @Check S (previewStore st) c now req.
