(* ===== verification/ComplianceDb.v ===== *)
(** * The compliance tables: [internal/db/compliance_store.go].

    The tables are lists of rows; a query is a comprehension over them and may
    return the driver error [cd_fault] injects.  [row1] is the choice PostgreSQL
    makes among rows its [ORDER BY] does not separate.  [cd_locked] names the
    rows another statement in flight has locked, which
    [FOR UPDATE SKIP LOCKED] passes over.

    [Concurrent] is the store one check sees while others run: before each of
    its calls an arbitrary list of [Move]s of other parties takes place. *)
From S2P Require Import Prelude GoStrings F64 Compliance.
Local Open Scope string_scope.

Record ComplianceDB := {
  cd_configs : list ComplianceConfig;
  cd_tokenPrices : list TokenPrice;
  cd_systemPrices : list SystemTokenPrice;
  cd_records : list TravelRuleRecord;
  cd_overrides : list AddressThresholdOverride;
  cd_sanctioned : list SanctionedAddress;
  cd_logs : list ComplianceLog;
  cd_settings : gmap string string;
  cd_now : Z;
  cd_locked : string -> bool;
  cd_fault : string -> option string }.

Definition with_records (rs : list TravelRuleRecord) (db : ComplianceDB) : ComplianceDB :=
  {| cd_configs := cd_configs db; cd_tokenPrices := cd_tokenPrices db; cd_systemPrices := cd_systemPrices db;
     cd_records := rs; cd_overrides := cd_overrides db; cd_sanctioned := cd_sanctioned db;
     cd_logs := cd_logs db; cd_settings := cd_settings db; cd_now := cd_now db;
     cd_locked := cd_locked db; cd_fault := cd_fault db |}.
Definition with_logs (ls : list ComplianceLog) (db : ComplianceDB) : ComplianceDB :=
  {| cd_configs := cd_configs db; cd_tokenPrices := cd_tokenPrices db; cd_systemPrices := cd_systemPrices db;
     cd_records := cd_records db; cd_overrides := cd_overrides db; cd_sanctioned := cd_sanctioned db;
     cd_logs := ls; cd_settings := cd_settings db; cd_now := cd_now db;
     cd_locked := cd_locked db; cd_fault := cd_fault db |}.

Definition with_used (t : Z) (r : TravelRuleRecord) : TravelRuleRecord :=
  {| tr_ID := tr_ID r; tr_OrgID := tr_OrgID r; tr_OriginatorUserID := tr_OriginatorUserID r;
     tr_TokenAddress := tr_TokenAddress r; tr_BeneficiaryAddress := tr_BeneficiaryAddress r;
     tr_AmountFiat := tr_AmountFiat r; tr_Currency := tr_Currency r; tr_ExpiresAt := tr_ExpiresAt r;
     tr_UsedAt := Some t; tr_CreatedAt := tr_CreatedAt r; tr_DataError := tr_DataError r |}.

Section tables.
Variable row1 : forall A : Type, list A -> option A.
Arguments row1 {A}.

Definition answer {A} (name msg : string) (v : ComplianceDB -> A) : stM ComplianceDB A := fun db =>
  (match cd_fault db name with
   | Some e => Err (if decide (msg = "") then e else msg +:+ ": " +:+ e)
   | None => Ok (v db)
   end, db).

(** ** Queries *)
Definition cdb_GetComplianceConfig (orgID : string) : stM ComplianceDB (option ComplianceConfig) :=
  answer "GetComplianceConfig" "failed to get compliance config" (fun db =>
    row1 (List.filter (fun c => bool_decide (cc_OrgID c = orgID)) (cd_configs db))).

Definition cdb_GetTokenPrice (orgID tokenAddress : string) : stM ComplianceDB (option TokenPrice) :=
  answer "GetTokenPrice" "failed to scan token price" (fun db =>
    row1 (List.filter (fun p => bool_decide (tp_OrgID p = orgID) &&
                                bool_decide (tp_TokenAddress p = ToLower tokenAddress)) (cd_tokenPrices db))).

Definition cdb_GetSystemTokenPrice (id : string) : stM ComplianceDB (option SystemTokenPrice) :=
  answer "GetSystemTokenPrice" "failed to get system token price" (fun db =>
    row1 (List.filter (fun p => bool_decide (sp_CoingeckoID p = Some id)) (cd_systemPrices db))).

Definition cdb_GetAddressThresholdOverride (orgID address : string)
  : stM ComplianceDB (option AddressThresholdOverride) :=
  answer "GetAddressThresholdOverride" "failed to get address threshold override" (fun db =>
    row1 (List.filter (fun o => bool_decide (ao_OrgID o = orgID) &&
                                bool_decide (ao_Address o = ToLower address)) (cd_overrides db))).

Definition sanctions (orgID address : string) (db : ComplianceDB) : bool :=
  existsb (fun r => bool_decide (sa_Address r = ToLower address) &&
                    (bool_decide (sa_OrgID r = None) || bool_decide (sa_OrgID r = Some orgID)))
    (cd_sanctioned db).
Definition cdb_IsAddressSanctioned (orgID address : string) : stM ComplianceDB bool :=
  answer "IsAddressSanctioned" "failed to check sanctioned address" (sanctions orgID address).

Definition cdb_GetSystemSetting (key : string) : stM ComplianceDB string :=
  answer "GetSystemSetting" ("failed to get system setting " +:+ key) (fun db =>
    default "" (cd_settings db !! key)).

(** ** Travel rule records *)

(** The [WHERE] clause of the two searches, [now] being [NOW()]. *)
Definition covers (now : Z) (orgID userID beneficiary token : string) (amount : f64) (r : TravelRuleRecord)
  : bool :=
  bool_decide (tr_OrgID r = orgID) && bool_decide (tr_OriginatorUserID r = userID) &&
  bool_decide (tr_BeneficiaryAddress r = ToLower beneficiary) &&
  bool_decide (default "native" (tr_TokenAddress r) = ToLower token) &&
  f64_ge (tr_AmountFiat r) amount && bool_decide (tr_UsedAt r = None) && (now <? tr_ExpiresAt r)%Z.

(** [ORDER BY created_at DESC LIMIT 1] *)
Definition newest (rs : list TravelRuleRecord) : option TravelRuleRecord :=
  row1 (List.filter (fun r => forallb (fun r' => tr_CreatedAt r' <=? tr_CreatedAt r)%Z rs) rs).

(** [scanTravelRuleRecord], after the row was fetched. *)
Definition scanRecord (r : option TravelRuleRecord) : result (option TravelRuleRecord) :=
  match r with
  | Some r => match tr_DataError r with Some e => Err e | None => Ok (Some r) end
  | None => Ok None
  end.

Definition cdb_FindUnusedTravelRuleRecord (orgID userID beneficiary token : string) (amount : f64)
  : stM ComplianceDB (option TravelRuleRecord) :=
  r ← answer "FindUnusedTravelRuleRecord" "failed to scan travel rule record" (fun db =>
    newest (List.filter (covers (cd_now db) orgID userID beneficiary token amount) (cd_records db)));
  lift (scanRecord r).

(** The [UPDATE ... RETURNING]: one statement.  The row stays used when its
    data does not decode. *)
Definition useRecord (id : string) (db : ComplianceDB) : list TravelRuleRecord :=
  map (fun r => if decide (tr_ID r = id) then with_used (cd_now db) r else r) (cd_records db).

Definition claimable (orgID userID beneficiary token : string) (amount : f64) (db : ComplianceDB)
  : option TravelRuleRecord :=
  newest (List.filter (fun r => covers (cd_now db) orgID userID beneficiary token amount r &&
                                negb (cd_locked db (tr_ID r))) (cd_records db)).

Definition cdb_ClaimUnusedTravelRuleRecord (orgID userID beneficiary token : string) (amount : f64)
  : stM ComplianceDB (option TravelRuleRecord) :=
  r ← answer "ClaimUnusedTravelRuleRecord" "failed to scan travel rule record"
        (claimable orgID userID beneficiary token amount);
  match r with
  | None => mret None
  | Some r =>
      db ← get;
      _ ← put (with_records (useRecord (tr_ID r) db) db);
      lift (scanRecord (Some (with_used (cd_now db) r)))
  end.

Definition cdb_CreateTravelRuleRecord (r : TravelRuleRecord) : stM ComplianceDB unit :=
  _ ← answer "CreateTravelRuleRecord" "" (fun _ => tt);
  db ← get;
  if contains (map tr_ID (cd_records db)) (tr_ID r)
  then fail "duplicate key value violates unique constraint"
  else put (with_records (cd_records db ++
           [{| tr_ID := tr_ID r; tr_OrgID := tr_OrgID r; tr_OriginatorUserID := tr_OriginatorUserID r;
               tr_TokenAddress := tr_TokenAddress r;
               tr_BeneficiaryAddress := ToLower (tr_BeneficiaryAddress r);
               tr_AmountFiat := tr_AmountFiat r; tr_Currency := tr_Currency r;
               tr_ExpiresAt := tr_ExpiresAt r; tr_UsedAt := None; tr_CreatedAt := cd_now db;
               tr_DataError := tr_DataError r |}])%list db).

Definition cdb_MarkTravelRuleRecordUsed (id : string) : stM ComplianceDB unit :=
  _ ← answer "MarkTravelRuleRecordUsed" "" (fun _ => tt);
  db ← get; put (with_records (useRecord id db) db).

Definition ErrRecordAlreadyUsed : string := "travel rule record already used".
Definition ErrNotFound : string := "not found".

Definition deletable (orgID id : string) (r : TravelRuleRecord) : bool :=
  bool_decide (tr_ID r = id) && bool_decide (tr_OrgID r = orgID) && bool_decide (tr_UsedAt r = None).

Definition cdb_DeleteTravelRuleRecord (orgID id : string) : stM ComplianceDB unit :=
  rows ← answer "DeleteTravelRuleRecord" "failed to delete travel rule record"
           (fun db => List.filter (deletable orgID id) (cd_records db));
  db ← get;
  _ ← put (with_records (List.filter (fun r => negb (deletable orgID id r)) (cd_records db)) db);
  if decide (length rows = 0) then
    exists_ ← answer "DeleteTravelRuleRecord.exists" "failed to check travel rule record existence" (fun db =>
      existsb (fun r => bool_decide (tr_ID r = id) && bool_decide (tr_OrgID r = orgID)) (cd_records db));
    fail (if exists_ : bool then ErrRecordAlreadyUsed else ErrNotFound)
  else mret tt.

Definition cdb_CleanupExpiredRecords : stM ComplianceDB Z :=
  _ ← answer "CleanupExpiredRecords" "failed to cleanup expired records" (fun _ => tt);
  db ← get;
  let expired r := ((tr_ExpiresAt r <? cd_now db)%Z && bool_decide (tr_UsedAt r = None)) in
  _ ← put (with_records (List.filter (fun r => negb (expired r)) (cd_records db)) db);
  mret (Z.of_nat (length (List.filter expired (cd_records db)))).

(** ** Logs *)
Definition cdb_CreateComplianceLog (entry : ComplianceLog) : stM ComplianceDB unit :=
  _ ← answer "CreateComplianceLog" "failed to create compliance log" (fun _ => tt);
  db ← get;
  put (with_logs (cd_logs db ++
    [{| cl_OrgID := cl_OrgID entry; cl_UserID := cl_UserID entry; cl_TransferType := cl_TransferType entry;
        cl_TokenAddress := cl_TokenAddress entry; cl_FromAddress := ToLower (cl_FromAddress entry);
        cl_ToAddress := ToLower (cl_ToAddress entry); cl_AmountWei := cl_AmountWei entry;
        cl_AmountFiat := cl_AmountFiat entry; cl_ThresholdFiat := cl_ThresholdFiat entry;
        cl_Currency := cl_Currency entry; cl_Decision := cl_Decision entry;
        cl_DenialReason := cl_DenialReason entry; cl_WouldBlock := cl_WouldBlock entry;
        cl_TravelRuleRecordID := cl_TravelRuleRecordID entry;
        cl_CorrelationID := cl_CorrelationID entry |}])%list db).

(** ** The tables as a store *)
#[export] Instance ComplianceTables : ComplianceStore ComplianceDB := {|
  GetComplianceConfig := cdb_GetComplianceConfig;
  GetTokenPrice := cdb_GetTokenPrice;
  GetSystemTokenPrice := cdb_GetSystemTokenPrice;
  GetAddressThresholdOverride := cdb_GetAddressThresholdOverride;
  IsAddressSanctioned := cdb_IsAddressSanctioned;
  GetSystemSetting := cdb_GetSystemSetting;
  FindUnusedTravelRuleRecord := cdb_FindUnusedTravelRuleRecord;
  ClaimUnusedTravelRuleRecord := cdb_ClaimUnusedTravelRuleRecord;
  CreateComplianceLog := cdb_CreateComplianceLog |}.

(** ** Other parties *)

(** What may happen between two calls of a check: the claims, logs and record
    operations of others, each one statement; any change of the other tables,
    the clock, the locks and the faults. *)
Inductive Move :=
| MClaim (agent orgID userID beneficiary token : string) (amount : f64)
| MLog (entry : ComplianceLog)
| MCreate (r : TravelRuleRecord)
| MMark (id : string)
| MDelete (orgID id : string)
| MCleanup
| MElse (others : ComplianceDB).

(** [w_claims] lists who used which record up, in the order of the updates. *)
Record World := { w_db : ComplianceDB; w_claims : list (string * string); w_moves : list (list Move) }.

Definition on_db {A} (m : stM ComplianceDB A) : stM World A := fun w =>
  let '(r, db) := m (w_db w) in (r, {| w_db := db; w_claims := w_claims w; w_moves := w_moves w |}).

Definition usedUp (orgID userID beneficiary token : string) (amount : f64) (db : ComplianceDB) : option string :=
  match cd_fault db "ClaimUnusedTravelRuleRecord" with
  | Some _ => None
  | None => tr_ID <$> claimable orgID userID beneficiary token amount db
  end.

Definition claimAs (agent orgID userID beneficiary token : string) (amount : f64)
  : stM World (option TravelRuleRecord) := fun w =>
  let '(r, db) := cdb_ClaimUnusedTravelRuleRecord orgID userID beneficiary token amount (w_db w) in
  let claims := match usedUp orgID userID beneficiary token amount (w_db w) with
                | Some id => (w_claims w ++ [(agent, id)])%list
                | None => w_claims w
                end in
  (r, {| w_db := db; w_claims := claims; w_moves := w_moves w |}).

Definition others (o db : ComplianceDB) : ComplianceDB := with_logs (cd_logs db) (with_records (cd_records db) o).

Definition move (m : Move) (w : World) : World :=
  match m with
  | MClaim agent orgID userID beneficiary token amount =>
      snd (claimAs agent orgID userID beneficiary token amount w)
  | MLog entry => snd (on_db (cdb_CreateComplianceLog entry) w)
  | MCreate r => snd (on_db (cdb_CreateTravelRuleRecord r) w)
  | MMark id => snd (on_db (cdb_MarkTravelRuleRecordUsed id) w)
  | MDelete orgID id => snd (on_db (cdb_DeleteTravelRuleRecord orgID id) w)
  | MCleanup => snd (on_db cdb_CleanupExpiredRecords w)
  | MElse o => {| w_db := others o (w_db w); w_claims := w_claims w; w_moves := w_moves w |}
  end.

Definition pop (w : World) : World :=
  {| w_db := w_db w; w_claims := w_claims w; w_moves := tail (w_moves w) |}.
Definition interfere (w : World) : World := foldl (flip move) (pop w) (default [] (head (w_moves w))).

(** The store as the check of [agent] sees it. *)
Definition amid {A} (m : stM World A) : stM World A := fun w => m (interfere w).

Definition Concurrent (agent : string) : ComplianceStore World := {|
  GetComplianceConfig o := amid (on_db (cdb_GetComplianceConfig o));
  GetTokenPrice o a := amid (on_db (cdb_GetTokenPrice o a));
  GetSystemTokenPrice a := amid (on_db (cdb_GetSystemTokenPrice a));
  GetAddressThresholdOverride o a := amid (on_db (cdb_GetAddressThresholdOverride o a));
  IsAddressSanctioned o a := amid (on_db (cdb_IsAddressSanctioned o a));
  GetSystemSetting k := amid (on_db (cdb_GetSystemSetting k));
  FindUnusedTravelRuleRecord o u b t x := amid (on_db (cdb_FindUnusedTravelRuleRecord o u b t x));
  ClaimUnusedTravelRuleRecord o u b t x := amid (claimAs agent o u b t x);
  CreateComplianceLog e := amid (on_db (cdb_CreateComplianceLog e)) |}.
End tables.
