(* ===== verification/ComplianceProps.v ===== *)
(** * What an allowed transfer went through, whatever the store.

    [R] is a preorder on the states of the store that every call respects.
    [Check_allowed] inverts a check that allowed a transfer into calls it made
    between its start and its end, up to [R]; [Check_stands] gives its run call
    by call.  The theorems instantiate them at the tables and at the concurrent
    store. *)
From S2P Require Import Prelude GoStrings F64 Compliance.
Local Open Scope string_scope.

Section wrapped.
Context {S : Type} (R : S -> S -> Prop) `{!PreOrder R}.
Lemma keeps_read {A} msg (m : stM S A) : keeps R m -> keeps R (read msg m).
Proof. intros Hm s r s'. unfold read. destruct (m s) eqn:E. intros [= <- <-]. by eapply Hm. Qed.
Lemma keeps_ignore m : keeps R m -> keeps R (ignoreError m).
Proof. intros Hm s r s'. unfold ignoreError. destruct (m s) eqn:E. intros [= <- <-]. by eapply Hm. Qed.
Lemma read_Ok {A} msg (m : stM S A) s a s' : read msg m s = (Ok a, s') <-> m s = (Ok a, s').
Proof.
  unfold read. destruct (m s) as [[b|e] s1]; simpl; naive_solver.
Qed.
End wrapped.
#[export] Hint Resolve keeps_read keeps_ignore : runs.

(** Every call of the store respects [R]. *)
Class ComplianceKeeps {S} (st : ComplianceStore S) (R : S -> S -> Prop) := {
  keeps_config o : keeps R (GetComplianceConfig o);
  keeps_price o a : keeps R (GetTokenPrice o a);
  keeps_system a : keeps R (GetSystemTokenPrice a);
  keeps_override o a : keeps R (GetAddressThresholdOverride o a);
  keeps_sanctioned o a : keeps R (IsAddressSanctioned o a);
  keeps_setting k : keeps R (GetSystemSetting k);
  keeps_find o u b t x : keeps R (FindUnusedTravelRuleRecord o u b t x);
  keeps_claim o u b t x : keeps R (ClaimUnusedTravelRuleRecord o u b t x);
  keeps_log e : keeps R (CreateComplianceLog e) }.
#[export] Hint Resolve keeps_config keeps_price keeps_system keeps_override keeps_sanctioned keeps_setting
  keeps_find keeps_claim keeps_log : runs.

(** ** The justification of an allowed transfer *)

(** The addresses that are looked up in the sanctions list. *)
Definition parties (req : CheckRequest) (info : TransferInfo) : list string :=
  (if decide (cr_From req <> "" /\ ToLower (cr_From req) <> ToLower (ti_FromAddress info))
   then [cr_From req] else []) ++ [ti_ToAddress info; ti_FromAddress info].

(** Why an enforcing check allows: nothing is known of the price and the policy
    allows it; the value is below the threshold; a record was claimed. *)
Inductive Ground :=
| UnknownPrice
| BelowThreshold (amount threshold : f64)
| ClaimedRecord (amount threshold : f64) (record : TravelRuleRecord)
| Monitored (amount threshold : option f64) (reason : string).

Definition groundRow (req : CheckRequest) (info : TransferInfo) (currency : string) (g : Ground)
  : ComplianceLog :=
  match g with
  | UnknownPrice => decisionLog req info None None "allowed" "" false None currency
  | BelowThreshold a t => decisionLog req info (Some a) (Some t) "allowed" "" false None currency
  | ClaimedRecord a t r => decisionLog req info (Some a) (Some t) "allowed" "" false (Some (tr_ID r)) currency
  | Monitored a t reason => decisionLog req info a t "allowed" reason true None currency
  end.

Section checks.
Context {S : Type} `{st : ComplianceStore S} (R : S -> S -> Prop) `{!PreOrder R} `{!ComplianceKeeps st R}.
Variable c : Checker.
Variable now : Z.

Definition grounded (s s' : S) (req : CheckRequest) (info : TransferInfo) (config : ComplianceConfig)
  (currency : string) (g : Ground) : Prop :=
  match g with
  | UnknownPrice =>
      cc_UnknownPricePolicy config = UnknownPriceAllowed /\
      passes R s s' (resolveTokenPrice c now (cr_OrgID req) (decisionToken info) currency) None
  | BelowThreshold a t | ClaimedRecord a t _ =>
      (exists price decimals,
         passes R s s' (resolveTokenPrice c now (cr_OrgID req) (decisionToken info) currency)
           (Some (price, decimals)) /\
         WeiToFiat (ti_AmountWei info) decimals price = Ok a) /\
      passes R s s' (resolveThreshold (cr_OrgID req) config (ti_FromAddress info) (ti_ToAddress info)) t /\
      f64_lt a t = (match g with BelowThreshold _ _ => true | _ => false end) /\
      match g with
      | ClaimedRecord _ _ r =>
          passes R s s' (ClaimUnusedTravelRuleRecord (cr_OrgID req) (cr_UserID req) (ti_ToAddress info)
                           (decisionToken info) a) (Some r)
      | _ => True
      end
  | Monitored _ _ reason => effectiveMode c config = EnforcementMonitor /\ reason <> ""
  end.

Lemma keeps_tryLog e : keeps R (tryLog e).
Proof.
  intros s r s'. unfold tryLog. destruct (CreateComplianceLog e s) eqn:E. intros [= <- <-].
  by eapply keeps_log.
Qed.
Local Hint Resolve keeps_tryLog : runs.

Lemma keeps_sanctions req info : keeps R (checkSanctions req info).
Proof. unfold checkSanctions, sanctionStep. keeps. Qed.
Lemma keeps_resolvePrice o a cur : keeps R (resolveTokenPrice c now o a cur).
Proof. unfold resolveTokenPrice. keeps. Qed.
Lemma keeps_resolveThreshold o cfg a b : keeps R (resolveThreshold o cfg a b).
Proof. unfold resolveThreshold. simpl. keeps. Qed.
Lemma keeps_currency cfg : keeps R (decisionCurrency cfg).
Proof. unfold decisionCurrency. keeps. Qed.
Local Hint Resolve keeps_sanctions keeps_resolvePrice keeps_resolveThreshold keeps_currency : runs.

Lemma keeps_unknown req info cfg cur : keeps R (unknownPrice c req info cfg cur).
Proof. unfold unknownPrice, allowLogged, allowMonitored, denyLogged. keeps. Qed.
Lemma keeps_claimRecord req info cfg cur a t : keeps R (claimRecord c req info cfg cur a t).
Proof. unfold claimRecord, allowLogged, allowMonitored, denyLogged. keeps. Qed.
Local Hint Resolve keeps_unknown keeps_claimRecord : runs.
Lemma keeps_valued req info cfg cur p d : keeps R (valuedTransfer c req info cfg cur p d).
Proof. unfold valuedTransfer, allowLogged. keeps. Qed.
Lemma keeps_denySanctioned req info r cur : keeps R (denySanctioned req info r cur).
Proof. unfold denySanctioned. keeps. Qed.
Local Hint Resolve keeps_valued keeps_denySanctioned : runs.
Lemma keeps_transfer req info cfg : keeps R (checkTransfer c now req info cfg).
Proof. unfold checkTransfer. keeps. Qed.
Local Hint Resolve keeps_transfer : runs.
Lemma keeps_Check req : keeps R (Check c now req).
Proof. unfold Check. keeps. Qed.

(** ** Inversion of an allowed check *)
Lemma tryLog_true e s s' : tryLog e s = (Ok true, s') -> CreateComplianceLog e s = (Ok tt, s').
Proof. unfold tryLog. destruct (CreateComplianceLog e s) as [[[]|] ?]; naive_solver. Qed.

Lemma allowLogged_allowed req info a t reason rid cur s res s' :
  allowLogged req info a t reason rid cur s = (Ok res, s') -> cs_Allowed res = true ->
  CreateComplianceLog (decisionLog req info a t "allowed" "" false rid cur) s = (Ok tt, s').
Proof. intros Hr Ha. unfold allowLogged in Hr. inv_st. case_match; simplify_eq/=. by apply tryLog_true. Qed.

Lemma allowMonitored_allowed req info a t reason cur s res s' :
  allowMonitored req info a t reason cur s = (Ok res, s') -> cs_Allowed res = true ->
  CreateComplianceLog (decisionLog req info a t "allowed" reason true None cur) s = (Ok tt, s').
Proof. intros Hr Ha. unfold allowMonitored in Hr. inv_st. case_match; simplify_eq/=. by apply tryLog_true. Qed.

Lemma denyLogged_allowed req info a t reason cur s res s' :
  denyLogged req info a t reason cur s = (Ok res, s') -> cs_Allowed res = true -> False.
Proof. intros Hr Ha. unfold denyLogged in Hr. by inv_st. Qed.

Lemma sanctionStep_None req a msg reason s s' :
  sanctionStep req a msg reason s = (Ok None, s') -> IsAddressSanctioned (cr_OrgID req) a s = (Ok false, s').
Proof.
  unfold sanctionStep. intros H. inv_st. apply read_Ok in H. by case_match; simplify_eq/=.
Qed.

Lemma unsanctioned req info s s' :
  checkSanctions req info s = (Ok None, s') ->
  forall a, a ∈ parties req info -> passes R s s' (IsAddressSanctioned (cr_OrgID req) a) false.
Proof.
  unfold checkSanctions, parties. intros H a Ha.
  apply st_bind_Ok in H as (sp & s1 & Hs & H). destruct sp; [by inv_st|].
  apply st_bind_Ok in H as (to & s2 & Ht & Hf). destruct to; [by inv_st|].
  apply sanctionStep_None in Ht, Hf.
  assert (R s s1 /\ (a ∈ (if decide (cr_From req <> "" /\ ToLower (cr_From req) <> ToLower (ti_FromAddress info))
            then [cr_From req] else []) -> passes R s s1 (IsAddressSanctioned (cr_OrgID req) a) false))
    as [R1 Hsp].
  { case_decide; [|inv_st; split; [reflexivity|by intros ?%elem_of_nil]].
    apply sanctionStep_None in Hs. pose proof (keeps_sanctioned _ _ _ _ _ Hs).
    split; [done|]. intros ->%list_elem_of_singleton. eapply passes_intro; [reflexivity|exact Hs|reflexivity]. }
  pose proof (keeps_sanctioned _ _ _ _ _ Ht). pose proof (keeps_sanctioned _ _ _ _ _ Hf).
  apply elem_of_app in Ha as [Ha|Ha].
  - eapply (passes_weaken R); [reflexivity| |by apply Hsp]. chain.
  - rewrite !elem_of_cons, elem_of_nil in Ha. destruct Ha as [->|[->|[]]].
    + eapply passes_intro; [| exact Ht|]; chain.
    + eapply passes_intro; [| exact Hf|]; chain.
Qed.

Lemma unknownPrice_allowed req info cfg cur s res s' :
  unknownPrice c req info cfg cur s = (Ok res, s') -> cs_Allowed res = true ->
  exists g, CreateComplianceLog (groundRow req info cur g) s = (Ok tt, s') /\
    match g with
    | UnknownPrice => cc_UnknownPricePolicy cfg = UnknownPriceAllowed
    | Monitored _ _ r => effectiveMode c cfg = EnforcementMonitor /\ r <> ""
    | _ => False
    end.
Proof.
  unfold unknownPrice. intros H Ha. case_decide; [|case_decide].
  - exists UnknownPrice. split; [|done]. by eapply allowLogged_allowed.
  - eexists (Monitored None None _). split; [by eapply allowMonitored_allowed|done].
  - by eapply denyLogged_allowed in H.
Qed.

Lemma claimRecord_allowed req info cfg cur a t s res s' :
  claimRecord c req info cfg cur a t s = (Ok res, s') -> cs_Allowed res = true ->
  exists s1 rec, ClaimUnusedTravelRuleRecord (cr_OrgID req) (cr_UserID req) (ti_ToAddress info)
                   (decisionToken info) a s = (Ok rec, s1) /\
    exists g, CreateComplianceLog (groundRow req info cur g) s1 = (Ok tt, s') /\
      match g with
      | ClaimedRecord a' t' r => a' = a /\ t' = t /\ rec = Some r
      | Monitored _ _ r => effectiveMode c cfg = EnforcementMonitor /\ r <> ""
      | _ => False
      end.
Proof.
  unfold claimRecord. intros H Ha. apply st_bind_Ok in H as (rec & s1 & Hc & H). apply read_Ok in Hc.
  exists s1, rec. split; [done|]. destruct rec as [r|]; [|case_decide].
  - exists (ClaimedRecord a t r). split; [by eapply allowLogged_allowed|done].
  - eexists (Monitored (Some a) (Some t) _). split; [by eapply allowMonitored_allowed|done].
  - by eapply denyLogged_allowed in H.
Qed.

Lemma valuedTransfer_allowed req info cfg cur p d s res s' :
  valuedTransfer c req info cfg cur p d s = (Ok res, s') -> cs_Allowed res = true ->
  exists a t s1 g, WeiToFiat (ti_AmountWei info) d p = Ok a /\
    resolveThreshold (cr_OrgID req) cfg (ti_FromAddress info) (ti_ToAddress info) s = (Ok t, s1) /\
    passes R s1 s' (CreateComplianceLog (groundRow req info cur g)) tt /\
    match g with
    | BelowThreshold a' t' => a' = a /\ t' = t /\ f64_lt a t = true
    | ClaimedRecord a' t' r =>
        a' = a /\ t' = t /\ f64_lt a t = false /\
        passes R s1 s' (ClaimUnusedTravelRuleRecord (cr_OrgID req) (cr_UserID req) (ti_ToAddress info)
                          (decisionToken info) a) (Some r)
    | Monitored _ _ r => effectiveMode c cfg = EnforcementMonitor /\ r <> ""
    | _ => False
    end.
Proof.
  unfold valuedTransfer. intros H Ha. apply st_bind_Ok in H as (a & s0 & Hw & H).
  injection Hw as Hw <-. apply wrap_Ok in Hw.
  apply st_bind_Ok in H as (t & s1 & Ht & H). apply read_Ok in Ht. exists a, t, s1.
  destruct (f64_lt a t) eqn:El.
  - exists (BelowThreshold a t). split_and!; [done|done| |done..].
    apply allowLogged_allowed in H; [|done]. eapply passes_intro; [reflexivity|exact H|reflexivity].
  - destruct (claimRecord_allowed _ _ _ _ _ _ _ _ _ H Ha) as (s2 & rec & Hc & g & Hl & Hg).
    pose proof (keeps_claim _ _ _ _ _ _ _ _ Hc). pose proof (keeps_log _ _ _ _ Hl).
    exists g. split_and!; [done..| |].
    + eapply passes_intro; [|exact Hl|]; chain.
    + destruct g; try done. destruct Hg as (-> & -> & ->). split_and!; [done..|].
      eapply passes_intro; [|exact Hc|]; chain.
Qed.

(** The inversion: what a transfer allowed in an organization with the rule
    enabled went through. *)
Record transfer_grounds (s s' : S) (req : CheckRequest) (info : TransferInfo) (cfg : ComplianceConfig) : Prop :=
  { tg_unsanctioned a : a ∈ parties req info -> passes R s s' (IsAddressSanctioned (cr_OrgID req) a) false;
    tg_ground : exists cur g,
      passes R s s' (CreateComplianceLog (groundRow req info cur g)) tt /\ grounded s s' req info cfg cur g }.

Lemma checkTransfer_allowed req info cfg s res s' :
  checkTransfer c now req info cfg s = (Ok res, s') -> cs_Allowed res = true ->
  transfer_grounds s s' req info cfg.
Proof.
  unfold checkTransfer. intros H Ha. apply st_bind_Ok in H as (cur & s1 & Hcur & H).
  apply st_bind_Ok in H as (sn & s2 & Hs & H). destruct sn as [r|].
  { unfold denySanctioned in H. apply st_bind_Ok in H as (ok & ? & ? & H). by destruct ok; inv_st. }
  apply st_bind_Ok in H as (pr & s3 & Hp & H). apply read_Ok in Hp.
  pose proof (keeps_currency cfg _ _ _ Hcur). pose proof (keeps_sanctions req info _ _ _ Hs).
  pose proof (keeps_resolvePrice _ _ _ _ _ _ Hp). destruct pr as [[p d]|].
  - pose proof (keeps_valued _ _ _ _ _ _ _ _ _ H) as R4.
    split; [intros a Hin; eapply (passes_weaken R); [| |by eapply unsanctioned]; chain|].
    destruct (valuedTransfer_allowed _ _ _ _ _ _ _ _ _ H Ha) as (a & t & s4 & g & Hw & Ht & Hl & Hg).
    pose proof (keeps_resolveThreshold _ _ _ _ _ _ _ Ht).
    assert (R s4 s') by (destruct Hl as (? & ? & ? & Hl & ?); pose proof (keeps_log _ _ _ _ Hl); chain).
    exists cur, g. split; [eapply (passes_weaken R); [| |exact Hl]; chain|].
    assert (Hprice : passes R s s' (resolveTokenPrice c now (cr_OrgID req) (decisionToken info) cur) (Some (p, d)))
      by (eapply passes_intro; [|exact Hp|]; chain).
    assert (Hthr : passes R s s' (resolveThreshold (cr_OrgID req) cfg (ti_FromAddress info) (ti_ToAddress info)) t)
      by (eapply passes_intro; [|exact Ht|]; chain).
    destruct g; simpl; try done.
    + destruct Hg as (-> & -> & ?). split_and!; eauto.
    + destruct Hg as (-> & -> & ? & Hc). split_and!; eauto.
      eapply (passes_weaken R); [| |exact Hc]; chain.
  - pose proof (keeps_unknown _ _ _ _ _ _ _ H) as R4.
    split; [intros a Hin; eapply (passes_weaken R); [| |by eapply unsanctioned]; chain|].
    destruct (unknownPrice_allowed _ _ _ _ _ _ _ H Ha) as (g & Hl & Hg).
    pose proof (keeps_log _ _ _ _ Hl).
    exists cur, g. split; [eapply passes_intro; [|exact Hl|]; chain|].
    destruct g; simpl; try done. split; [done|]. eapply passes_intro; [|exact Hp|]; chain.
Qed.

Lemma grounded_weaken s t s' req info cfg cur g :
  R s t -> grounded t s' req info cfg cur g -> grounded s s' req info cfg cur g.
Proof.
  intros Hr. assert (W : forall A (m : stM S A) a, passes R t s' m a -> passes R s s' m a)
    by (intros A m a; by apply (passes_weaken R)).
  destruct g; simpl; [intros [? ?]; auto|..|done];
    intros ((p & d & ? & ?) & ? & ? & ?); split_and!; eauto.
Qed.

Lemma Check_allowed req info s res s' :
  DetectTransfer (cr_From req) (cr_To req) (cr_Data req) (cr_Value req) = Some info ->
  Check c now req s = (Ok res, s') -> cs_Allowed res = true ->
  exists config, passes R s s' (GetComplianceConfig (cr_OrgID req)) config /\
    match config with
    | Some cfg => cc_Enabled cfg = true -> transfer_grounds s s' req info cfg
    | None => True
    end.
Proof.
  intros Hd H Ha. unfold Check in H. rewrite Hd in H. apply st_bind_Ok in H as (config & s1 & Hc & H).
  apply read_Ok in Hc. pose proof (keeps_config _ _ _ _ Hc).
  assert (R s1 s').
  { destruct config as [cfg|]; [|inv_st; reflexivity]. destruct (cc_Enabled cfg); [|inv_st; reflexivity].
    by eapply (keeps_transfer). }
  exists config. split; [eapply passes_intro; [reflexivity|exact Hc|done]|].
  destruct config as [cfg|]; [|done]. intros He. rewrite He in H.
  destruct (checkTransfer_allowed _ _ _ _ _ _ H Ha) as [Hu (cur & g & Hl & Hg)]. split.
  - intros a Hin. eapply (passes_weaken R); [exact H0|reflexivity|by apply Hu].
  - exists cur, g. split; [by eapply (passes_weaken R); [exact H0|reflexivity|]|].
    by eapply grounded_weaken.
Qed.
End checks.

(** ** The run of an allowed check

    [stands_on s g s']: from the state [s], in which the configuration has been
    read, to the end [s'], the check of a transfer ran exactly these calls, each
    from the state the one before left, and allows it on the ground [g]. *)
Section runs_of_checks.
Context {S : Type} `{st : ComplianceStore S}.
Variable c : Checker.
Variable now : Z.
Variable req : CheckRequest.
Variable info : TransferInfo.
Variable cfg : ComplianceConfig.

(** The currency, the sanctions and the price. *)
Definition priced (s : S) (cur : string) (price : option (f64 * Z)) (s' : S) : Prop :=
  exists s1 s2, decisionCurrency cfg s = (Ok cur, s1) /\ checkSanctions req info s1 = (Ok None, s2) /\
    resolveTokenPrice c now (cr_OrgID req) (decisionToken info) cur s2 = (Ok price, s').
(** The value of the transfer and the threshold it is held against. *)
Definition valued (s : S) (cur : string) (amount threshold : f64) (s' : S) : Prop :=
  exists price decimals s1, priced s cur (Some (price, decimals)) s1 /\
    WeiToFiat (ti_AmountWei info) decimals price = Ok amount /\
    resolveThreshold (cr_OrgID req) cfg (ti_FromAddress info) (ti_ToAddress info) s1 = (Ok threshold, s').
Definition logged (cur : string) (g : Ground) (s s' : S) : Prop :=
  CreateComplianceLog (groundRow req info cur g) s = (Ok tt, s').
Definition claims (amount : f64) (r : option TravelRuleRecord) (s s' : S) : Prop :=
  ClaimUnusedTravelRuleRecord (cr_OrgID req) (cr_UserID req) (ti_ToAddress info) (decisionToken info) amount s =
    (Ok r, s').

Inductive stands_on (s : S) : Ground -> S -> Prop :=
| on_unknown_price cur s1 s' :
    priced s cur None s1 -> cc_UnknownPricePolicy cfg = UnknownPriceAllowed ->
    logged cur UnknownPrice s1 s' -> stands_on s UnknownPrice s'
| on_unknown_monitored cur s1 reason s' :
    priced s cur None s1 -> effectiveMode c cfg = EnforcementMonitor -> reason <> "" ->
    logged cur (Monitored None None reason) s1 s' -> stands_on s (Monitored None None reason) s'
| on_small_value cur a t s1 s' :
    valued s cur a t s1 -> f64_lt a t = true ->
    logged cur (BelowThreshold a t) s1 s' -> stands_on s (BelowThreshold a t) s'
| on_record cur a t r s1 s2 s' :
    valued s cur a t s1 -> f64_lt a t = false -> claims a (Some r) s1 s2 ->
    logged cur (ClaimedRecord a t r) s2 s' -> stands_on s (ClaimedRecord a t r) s'
| on_large_monitored cur a t s1 s2 reason s' :
    valued s cur a t s1 -> f64_lt a t = false -> claims a None s1 s2 ->
    effectiveMode c cfg = EnforcementMonitor -> reason <> "" ->
    logged cur (Monitored (Some a) (Some t) reason) s2 s' -> stands_on s (Monitored (Some a) (Some t) reason) s'.

Lemma unknownPrice_stands cur s s1 res s' :
  priced s cur None s1 -> unknownPrice c req info cfg cur s1 = (Ok res, s') -> cs_Allowed res = true ->
  exists g, stands_on s g s'.
Proof.
  unfold unknownPrice. intros Hp H Ha. case_decide; [|case_decide].
  - exists UnknownPrice. eapply on_unknown_price; [done..|]. by eapply allowLogged_allowed.
  - eexists. eapply on_unknown_monitored; [done|done| |by eapply allowMonitored_allowed]. done.
  - by eapply denyLogged_allowed in H.
Qed.

Lemma claimRecord_stands cur a t s s1 res s' :
  valued s cur a t s1 -> f64_lt a t = false -> claimRecord c req info cfg cur a t s1 = (Ok res, s') ->
  cs_Allowed res = true -> exists g, stands_on s g s'.
Proof.
  unfold claimRecord. intros Hv Hl H Ha. apply st_bind_Ok in H as (rec & s2 & Hc & H). apply read_Ok in Hc.
  destruct rec as [r|]; [|case_decide].
  - exists (ClaimedRecord a t r). eapply on_record; [done..|]. by eapply allowLogged_allowed.
  - eexists. eapply on_large_monitored; [done|done|done|done| |by eapply allowMonitored_allowed]. done.
  - by eapply denyLogged_allowed in H.
Qed.

Lemma checkTransfer_stands s res s' :
  checkTransfer c now req info cfg s = (Ok res, s') -> cs_Allowed res = true -> exists g, stands_on s g s'.
Proof.
  unfold checkTransfer. intros H Ha. apply st_bind_Ok in H as (cur & s1 & Hcur & H).
  apply st_bind_Ok in H as (sn & s2 & Hs & H). destruct sn as [r|].
  { unfold denySanctioned in H. apply st_bind_Ok in H as (ok & ? & ? & H). by destruct ok; inv_st. }
  apply st_bind_Ok in H as (pr & s3 & Hp & H). apply read_Ok in Hp.
  assert (Hpr : priced s cur pr s3) by (by exists s1, s2).
  destruct pr as [[p d]|]; [|by eapply unknownPrice_stands]. unfold valuedTransfer in H.
  apply st_bind_Ok in H as (a & s4 & Hw & H). injection Hw as Hw <-. apply wrap_Ok in Hw.
  apply st_bind_Ok in H as (t & s5 & Ht & H). apply read_Ok in Ht.
  assert (Hv : valued s cur a t s5) by (by exists p, d, s3).
  destruct (f64_lt a t) eqn:El; [|by eapply claimRecord_stands].
  exists (BelowThreshold a t). eapply on_small_value; [done..|]. by eapply allowLogged_allowed.
Qed.
End runs_of_checks.

Section whole_checks.
Context {S : Type} `{st : ComplianceStore S}.

(** A check that allows a transfer read the configuration and, when the rule is
    enabled there, found a ground. *)
Lemma Check_stands c now req info s res s' :
  DetectTransfer (cr_From req) (cr_To req) (cr_Data req) (cr_Value req) = Some info ->
  Check c now req s = (Ok res, s') -> cs_Allowed res = true ->
  exists config s1, GetComplianceConfig (cr_OrgID req) s = (Ok config, s1) /\
    match config with
    | Some cfg => if cc_Enabled cfg then exists g, stands_on c now req info cfg s1 g s' else s' = s1
    | None => s' = s1
    end.
Proof.
  intros Hd H Ha. unfold Check in H. rewrite Hd in H. apply st_bind_Ok in H as (config & s1 & Hc & H).
  apply read_Ok in Hc. exists config, s1. split; [done|].
  destruct config as [cfg|]; [|by inv_st]. destruct (cc_Enabled cfg); [|by inv_st].
  by eapply checkTransfer_stands.
Qed.

(** The last call of such a run is the log. *)
Lemma stands_logged c now req info cfg s g s' :
  stands_on c now req info cfg s g s' -> exists cur s1, logged req info cur g s1 s'.
Proof. by intros []; eauto. Qed.

(** What lies between two states of a store stays true along the run. *)
Lemma keeps_valued_run (R : S -> S -> Prop) `{!PreOrder R} `{!ComplianceKeeps st R} c now req info cfg s cur a t s' :
  valued c now req info cfg s cur a t s' -> R s s'.
Proof.
  intros (p & d & s1 & (s2 & s3 & H1 & H2 & H3) & _ & H4).
  pose proof (keeps_currency R cfg _ _ _ H1). pose proof (keeps_sanctions R req info _ _ _ H2).
  pose proof (keeps_resolvePrice R c now _ _ _ _ _ _ H3). pose proof (keeps_resolveThreshold R _ _ _ _ _ _ _ H4). chain.
Qed.
End whole_checks.
