(* ===== verification/ComplianceClaims.v ===== *)
(** * The compliance checker on its tables.

    A record authorises one transfer whatever runs beside it; sanctions are
    absolute; an allowed transfer is logged; a preview predicts and changes
    nothing. *)
From S2P Require Import Prelude GoStrings Db F64 Compliance ComplianceDb ComplianceProps.
Local Open Scope string_scope.

Lemma NoDup_map_inj {A B} (f : A -> B) l x y : NoDup (map f l) -> x ∈ l -> y ∈ l -> f x = f y -> x = y.
Proof.
  induction l as [|z l IH]; simpl; [by intros _ ?%elem_of_nil|].
  intros [Hn Hd]%NoDup_cons [->|Hx]%elem_of_cons [->|Hy]%elem_of_cons He; [done| | |by apply IH].
  - contradict Hn. rewrite He. by apply (list_elem_of_fmap_2 f).
  - contradict Hn. rewrite <- He. by apply (list_elem_of_fmap_2 f).
Qed.

Section worlds.
Context (row1 : forall A : Type, list A -> option A) (Hrow : picks_row row1).

(** ** The invariant: a used record stays, and was used up once. *)
Record world_ok (w : World) : Prop := {
  wo_ids : NoDup (map tr_ID (cd_records (w_db w)));
  wo_once : NoDup (map snd (w_claims w));
  wo_used id : id ∈ map snd (w_claims w) ->
    exists r, r ∈ cd_records (w_db w) /\ tr_ID r = id /\ tr_UsedAt r <> None }.

(** The next state of the record table keeps its key and its used rows. *)
Definition grows (rs rs' : list TravelRuleRecord) : Prop :=
  (NoDup (map tr_ID rs) -> NoDup (map tr_ID rs')) /\
  forall r, r ∈ rs -> tr_UsedAt r <> None ->
    exists r', r' ∈ rs' /\ tr_ID r' = tr_ID r /\ tr_UsedAt r' <> None.

Lemma grows_refl rs : grows rs rs.
Proof. split; eauto. Qed.

Lemma useRecord_ids id db : map tr_ID (useRecord id db) = map tr_ID (cd_records db).
Proof. unfold useRecord. rewrite map_map. apply map_ext. intros r. by case_decide. Qed.

Lemma useRecord_in id db r : r ∈ cd_records db ->
  exists r', r' ∈ useRecord id db /\ tr_ID r' = tr_ID r /\
    (tr_UsedAt r <> None \/ tr_ID r = id -> tr_UsedAt r' <> None).
Proof.
  intros Hr. exists (if decide (tr_ID r = id) then with_used (cd_now db) r else r). split.
  - unfold useRecord. apply list_elem_of_fmap. eauto.
  - case_decide; simpl; naive_solver.
Qed.

Lemma grows_use id db : grows (cd_records db) (useRecord id db).
Proof.
  split; [by rewrite useRecord_ids|]. intros r Hr Hu.
  destruct (useRecord_in id db r Hr) as (r' & ? & ? & ?). eauto 6.
Qed.

Lemma grows_filter (p : TravelRuleRecord -> bool) rs :
  (forall r, tr_UsedAt r <> None -> p r = true) -> grows rs (List.filter p rs).
Proof.
  intros Hp. split.
  - induction rs as [|r rs IH]; simpl; [done|]. intros [Hn Hd]%NoDup_cons. destruct (p r); [|by apply IH].
    simpl. apply NoDup_cons. split; [|by apply IH]. contradict Hn.
    apply (list_elem_of_fmap tr_ID) in Hn as (r' & -> & Hin). apply list_elem_of_fmap. exists r'. split; [done|].
    apply list_elem_of_In, filter_In in Hin as [Hin _]. by apply list_elem_of_In.
  - intros r Hr Hu. exists r. split_and!; [|done|done].
    apply list_elem_of_In, filter_In. split; [by apply list_elem_of_In|by apply Hp].
Qed.

Lemma grows_snoc rs r : ~ tr_ID r ∈ map tr_ID rs -> grows rs (rs ++ [r]).
Proof.
  intros Hn. split.
  - intros Hd. rewrite map_app. apply NoDup_app. split_and!; [done| |apply NoDup_singleton].
    intros x Hx ->%list_elem_of_singleton. done.
  - intros r' Hr Hu. exists r'. split_and!; [|done|done]. apply elem_of_app. by left.
Qed.

Lemma world_ok_grows w db :
  world_ok w -> grows (cd_records (w_db w)) (cd_records db) ->
  world_ok {| w_db := db; w_claims := w_claims w; w_moves := w_moves w |}.
Proof.
  intros [Hi Ho Hu] [Hg1 Hg2]. split; simpl; [by apply Hg1|done|].
  intros id (r & Hr & <- & Hx)%Hu. by apply Hg2.
Qed.

(** The outcome of [answer]. *)
Lemma answer_cases {A} name msg (v : ComplianceDB -> A) db :
  (exists e, answer name msg v db = (Err e, db)) \/ answer name msg v db = (Ok (v db), db).
Proof. unfold answer. destruct (cd_fault db name); eauto. Qed.

Lemma grows_claim o u b t x db :
  grows (cd_records db) (cd_records (snd (cdb_ClaimUnusedTravelRuleRecord row1 o u b t x db))).
Proof.
  unfold cdb_ClaimUnusedTravelRuleRecord, mbind, stM_bind.
  destruct (answer_cases "ClaimUnusedTravelRuleRecord" "failed to scan travel rule record"
              (claimable row1 o u b t x) db) as [[e ->]| ->]; [apply grows_refl|].
  destruct (claimable row1 o u b t x db); [apply grows_use|apply grows_refl].
Qed.

(** A row the claim may take is in the table, unused, and covers the amount. *)
Lemma newest_in rs r : newest row1 rs = Some r -> r ∈ rs.
Proof.
  intros Hn%(row1_elem _ Hrow). apply list_elem_of_In, filter_In in Hn as [Hn _]. by apply list_elem_of_In.
Qed.

Lemma claimable_in o u b t x db r : claimable row1 o u b t x db = Some r ->
  r ∈ cd_records db /\ covers (cd_now db) o u b t x r = true /\ cd_locked db (tr_ID r) = false.
Proof.
  intros Hn%newest_in. apply list_elem_of_In, filter_In in Hn as [Hn [Hc Hl]%andb_true_iff].
  split_and!; [by apply list_elem_of_In|done|by apply negb_true_iff].
Qed.

Lemma covers_unused n o u b t x r : covers n o u b t x r = true -> tr_UsedAt r = None.
Proof. unfold covers. rewrite !andb_true_iff, !bool_decide_eq_true. tauto. Qed.

(** One claim: the record it uses up was never used up before. *)
Lemma claimAs_ok agent o u b t x w : world_ok w -> world_ok (snd (claimAs row1 agent o u b t x w)).
Proof.
  intros Hw. unfold claimAs. pose proof (grows_claim o u b t x (w_db w)) as Hg.
  destruct (cdb_ClaimUnusedTravelRuleRecord row1 o u b t x (w_db w)) as [r db] eqn:E. simpl in *.
  destruct (usedUp row1 o u b t x (w_db w)) as [id|] eqn:Eu; [|by apply world_ok_grows].
  destruct (world_ok_grows w db Hw Hg) as [Hi Ho Hu]. unfold usedUp in Eu.
  destruct (cd_fault (w_db w) "ClaimUnusedTravelRuleRecord") eqn:Ef; [done|].
  destruct (claimable row1 o u b t x (w_db w)) as [r0|] eqn:Ec; simplify_eq/=.
  destruct (claimable_in _ _ _ _ _ _ _ Ec) as (Hin & Hc%covers_unused & _).
  unfold cdb_ClaimUnusedTravelRuleRecord, mbind, stM_bind, answer in E. rewrite Ef, Ec in E. simpl in E.
  injection E as _ <-. split; simpl in *; [done| |].
  - rewrite map_app. apply NoDup_app. split_and!; [done| |apply NoDup_singleton].
    intros id Hid ->%list_elem_of_singleton. destruct (wo_used _ Hw _ Hid) as (r' & Hr' & He & Hn).
    destruct (NoDup_map_inj tr_ID _ r' r0 (wo_ids _ Hw) Hr' Hin He). congruence.
  - intros id. rewrite map_app. intros [Hid| ->%list_elem_of_singleton]%elem_of_app; [by apply Hu|].
    destruct (useRecord_in (tr_ID r0) (w_db w) r0 Hin) as (r' & ? & ? & Hx).
    exists r'. split_and!; [done|done|apply Hx; by right].
Qed.

Lemma on_db_ok {A} (m : stM ComplianceDB A) w :
  grows (cd_records (w_db w)) (cd_records (snd (m (w_db w)))) -> world_ok w -> world_ok (snd (on_db m w)).
Proof. unfold on_db. destruct (m (w_db w)); simpl. intros ? ?. by apply world_ok_grows. Qed.

Lemma move_ok m w : world_ok w -> world_ok (move row1 m w).
Proof.
  intros Hw. destruct m; simpl; [by apply claimAs_ok|..|by apply world_ok_grows, grows_refl];
    (apply on_db_ok; [|done]).
  - unfold cdb_CreateComplianceLog, mbind, stM_bind.
    destruct (answer_cases "CreateComplianceLog" "failed to create compliance log" (fun _ => tt) (w_db w))
      as [[e ->]| ->]; apply grows_refl.
  - unfold cdb_CreateTravelRuleRecord, mbind, stM_bind.
    destruct (answer_cases "CreateTravelRuleRecord" "" (fun _ => tt) (w_db w)) as [[e ->]| ->];
      [apply grows_refl|]. simpl. destruct (contains _ _) eqn:E; [apply grows_refl|].
    apply grows_snoc. simpl. intros Hin%contains_true. congruence.
  - unfold cdb_MarkTravelRuleRecordUsed, mbind, stM_bind.
    destruct (answer_cases "MarkTravelRuleRecordUsed" "" (fun _ => tt) (w_db w)) as [[e ->]| ->];
      [apply grows_refl|apply grows_use].
  - unfold cdb_DeleteTravelRuleRecord, mbind, stM_bind.
    destruct (answer_cases "DeleteTravelRuleRecord" "failed to delete travel rule record"
      (fun db => List.filter (deletable orgID id) (cd_records db)) (w_db w)) as [[e ->]| ->];
      [apply grows_refl|]. simpl.
    assert (Hg : grows (cd_records (w_db w))
      (List.filter (fun r => negb (deletable orgID id r)) (cd_records (w_db w)))).
    { apply grows_filter. intros r Hu. unfold deletable. rewrite (bool_decide_false _ Hu). by rewrite andb_false_r. }
    case_decide; [|done]. unfold answer. simpl. by case_match.
  - unfold cdb_CleanupExpiredRecords, mbind, stM_bind.
    destruct (answer_cases "CleanupExpiredRecords" "failed to cleanup expired records" (fun _ => tt) (w_db w))
      as [[e ->]| ->]; [apply grows_refl|]. simpl.
    apply grows_filter. intros r Hu. rewrite (bool_decide_false _ Hu). by rewrite andb_false_r.
Qed.

(** ** Runs *)
Definition runs (w w' : World) : Prop := w_claims w `prefix_of` w_claims w' /\ (world_ok w -> world_ok w').

#[local] Instance runs_preorder : PreOrder runs.
Proof.
  split; [by split|]. intros a b d [? ?] [? ?]. split; [by etrans|auto].
Qed.

Lemma runs_on_db {A} (m : stM ComplianceDB A) w :
  grows (cd_records (w_db w)) (cd_records (snd (m (w_db w)))) -> runs w (snd (on_db m w)).
Proof. intros Hg. split; [|by apply on_db_ok]. unfold on_db. by destruct (m (w_db w)). Qed.

Lemma runs_claimAs agent o u b t x w : runs w (snd (claimAs row1 agent o u b t x w)).
Proof.
  split; [|by apply claimAs_ok]. unfold claimAs. destruct (cdb_ClaimUnusedTravelRuleRecord _ _ _ _ _ _ _).
  simpl. destruct (usedUp _ _ _ _ _ _ _); [by apply prefix_app_r|done].
Qed.

Lemma runs_move m w : runs w (move row1 m w).
Proof.
  split; [|apply move_ok]. destruct m; simpl; [by apply runs_claimAs|..|done];
    unfold on_db; by case_match.
Qed.

Lemma runs_interfere w : runs w (interfere row1 w).
Proof.
  unfold interfere. assert (Hp : runs w (pop w)) by (split; [done|by intros [? ? ?]]).
  revert Hp. generalize (pop w) as v. induction (default [] (head (w_moves w))) as [|m ms IH]; simpl; [done|].
  intros v Hv. apply IH. etrans; [exact Hv|apply runs_move].
Qed.

Lemma keeps_amid {A} (m : stM World A) : keeps runs m -> keeps runs (amid row1 m).
Proof. intros Hm w r w' Hr. etrans; [apply runs_interfere|by eapply Hm]. Qed.

Lemma keeps_on_answer {A} name msg (v : ComplianceDB -> A) : keeps runs (on_db (answer name msg v)).
Proof.
  intros w r w' Hr. pose proof (runs_on_db (answer name msg v) w) as H. rewrite Hr in H. apply H.
  unfold answer. apply grows_refl.
Qed.

Lemma keeps_on_log e : keeps runs (on_db (cdb_CreateComplianceLog e)).
Proof.
  intros w r w' Hr. pose proof (runs_move (MLog e) w) as H. simpl in H. by rewrite Hr in H.
Qed.
Lemma keeps_claimAs agent o u b t x : keeps runs (claimAs row1 agent o u b t x).
Proof. intros w r w' Hr. pose proof (runs_claimAs agent o u b t x w) as H. by rewrite Hr in H. Qed.
Lemma keeps_on_find o u b t x : keeps runs (on_db (cdb_FindUnusedTravelRuleRecord row1 o u b t x)).
Proof.
  intros w r w' Hr. pose proof (runs_on_db (cdb_FindUnusedTravelRuleRecord row1 o u b t x) w) as H.
  rewrite Hr in H. apply H. unfold cdb_FindUnusedTravelRuleRecord, mbind, stM_bind, answer.
  by case_match; apply grows_refl.
Qed.

#[local] Instance concurrent_keeps agent : ComplianceKeeps (Concurrent row1 agent) runs.
Proof.
  split; intros; simpl; apply keeps_amid;
    first [apply keeps_on_log | apply keeps_claimAs | apply keeps_on_find | apply keeps_on_answer].
Qed.

(** A claim that answered a record found it unused in the table, when its turn
    came, and put it on the agent's account. *)
Lemma claimed_on_account agent o u b t x w r w' :
  @ClaimUnusedTravelRuleRecord _ (Concurrent row1 agent) o u b t x w = (Ok (Some r), w') ->
  let v := interfere row1 w in
  w_claims w' = (w_claims v ++ [(agent, tr_ID r)])%list /\
  exists r0, r0 ∈ cd_records (w_db v) /\ r = with_used (cd_now (w_db v)) r0 /\
    covers (cd_now (w_db v)) o u b t x r0 = true.
Proof.
  simpl. unfold amid, claimAs. set (v := interfere row1 w).
  destruct (cdb_ClaimUnusedTravelRuleRecord row1 o u b t x (w_db v)) as [res db] eqn:E. intros [= -> <-].
  unfold cdb_ClaimUnusedTravelRuleRecord, mbind, stM_bind, answer in E. unfold usedUp.
  destruct (cd_fault (w_db v) "ClaimUnusedTravelRuleRecord"); [done|].
  destruct (claimable row1 o u b t x (w_db v)) as [r0|] eqn:Ec; [|done]. simpl in E |- *.
  destruct (tr_DataError r0) eqn:Ed; simpl in E; rewrite ?Ed in E; unfold lift in E; simplify_eq/=.
  destruct (claimable_in _ _ _ _ _ _ _ Ec) as (Hin & Hcov & _). split; [done|]. by exists r0.
Qed.

(** A written log row is the last of the table. *)
Lemma log_appended agent e w w' :
  @CreateComplianceLog _ (Concurrent row1 agent) e w = (Ok tt, w') ->
  exists row, cd_logs (w_db w') = (cd_logs (w_db (interfere row1 w)) ++ [row])%list /\
    cl_OrgID row = cl_OrgID e /\ cl_UserID row = cl_UserID e /\ cl_Decision row = cl_Decision e /\
    cl_TravelRuleRecordID row = cl_TravelRuleRecordID e /\ cl_AmountWei row = cl_AmountWei e.
Proof.
  simpl. unfold amid, on_db, cdb_CreateComplianceLog, mbind, stM_bind, answer.
  destruct (cd_fault _ _); [done|]. simpl. intros [= <-]. eexists. split; [reflexivity|]. by split_and!.
Qed.

(** C36: A travel-rule record authorises one transfer.  The check of one
    request runs among arbitrary claims, logs, record writes and other changes
    of other parties, before each of its queries.  When it allows a transfer of
    an organization whose configuration, as its first query reads it, is
    enabled, then the queries it ran next, each in the world the one before and
    the others left, gave one of four grounds: no price is known and the
    configuration allows that; the organization or the cluster is in monitor
    mode; the value at the price read is below the threshold read; or it is not,
    and a record was claimed.  That record was in the table when the claim's
    turn came, unused and unexpired, made out to this originator, beneficiary
    and token and covering the value, and it is on this request's account, after
    all that were there when the check began.  No record is ever on two
    accounts.  The last row of the log is the check's, with the decision
    "allowed" and the record it names. *)
Theorem record_authorises_once agent c now req info w res w' :
  world_ok w ->
  DetectTransfer (cr_From req) (cr_To req) (cr_Data req) (cr_Value req) = Some info ->
  @Check World (Concurrent row1 agent) c now req w = (Ok res, w') -> cs_Allowed res = true ->
  NoDup (map snd (w_claims w')) /\
  exists config w1, @GetComplianceConfig _ (Concurrent row1 agent) (cr_OrgID req) w = (Ok config, w1) /\
  forall cfg, config = Some cfg -> cc_Enabled cfg = true ->
  exists g, @stands_on World (Concurrent row1 agent) c now req info cfg w1 g w' /\
    (exists logs row, cd_logs (w_db w') = (logs ++ [row])%list /\ cl_OrgID row = cr_OrgID req /\
       cl_UserID row = cr_UserID req /\ cl_Decision row = "allowed" /\
       cl_AmountWei row = pretty.pretty (ti_AmountWei info) /\
       cl_TravelRuleRecordID row = match g with ClaimedRecord _ _ r => Some (tr_ID r) | _ => None end) /\
    (forall a t r, g = ClaimedRecord a t r ->
       exists cur w2 before after r0,
         @valued World (Concurrent row1 agent) c now req info cfg w1 cur a t w2 /\ f64_lt a t = false /\
         let v := interfere row1 w2 in
         r0 ∈ cd_records (w_db v) /\ r = with_used (cd_now (w_db v)) r0 /\
         covers (cd_now (w_db v)) (cr_OrgID req) (cr_UserID req) (ti_ToAddress info) (decisionToken info) a r0 = true /\
         w_claims w' = (before ++ (agent, tr_ID r) :: after)%list /\ w_claims w `prefix_of` before).
Proof.
  intros Hw Hd Hc Ha. split.
  { apply wo_once. by apply (keeps_Check (st := Concurrent row1 agent) runs c now req _ _ _ Hc). }
  destruct (Check_stands (st := Concurrent row1 agent) c now _ _ _ _ _ Hd Hc Ha) as (config & w1 & Hcfg & Hg).
  exists config, w1. split; [exact Hcfg|]. intros cfg -> He. rewrite He in Hg. destruct Hg as [g Hg]. exists g.
  split; [exact Hg|]. split.
  - destruct (stands_logged _ _ _ _ _ _ _ _ Hg) as (cur & w2 & Hl).
    apply log_appended in Hl as (row & Hl & H1 & H2 & H3 & H4 & H5). eexists _, row. split; [exact Hl|].
    by destruct g; simpl in *; split_and!.
  - intros a t r ->. inversion Hg as [| | |cur ? ? ? w2 w3 ? Hv Hlt Hcl Hlog|]; subst. exists cur, w2.
    destruct (claimed_on_account _ _ _ _ _ _ _ _ _ Hcl) as (Hacc & r0 & Hin & Hr & Hcov).
    pose proof (keeps_valued_run (st := Concurrent row1 agent) runs _ _ _ _ _ _ _ _ _ _ Hv) as [Hpre _].
    pose proof (keeps_config (st := Concurrent row1 agent) (R := runs) _ _ _ _ Hcfg) as [Hpre0 _].
    pose proof (keeps_log (st := Concurrent row1 agent) (R := runs) _ _ _ _ Hlog) as [[after Hafter] _].
    destruct (runs_interfere w2) as [Hpre2 _].
    exists (w_claims (interfere row1 w2)), after, r0. cbv zeta. split_and!; try done.
    + by rewrite Hafter, Hacc, <- app_assoc.
    + by etrans; [|etrans; [|exact Hpre2]].
Qed.
End worlds.

(** ** One check at a time *)
Section tables.
Context (row1 : forall A : Type, list A -> option A).

(** A check writes records and logs only, and appends to the log. *)
Definition later (db db' : ComplianceDB) : Prop :=
  cd_configs db' = cd_configs db /\ cd_sanctioned db' = cd_sanctioned db /\
  cd_fault db' = cd_fault db /\ cd_logs db `prefix_of` cd_logs db'.
#[local] Instance later_preorder : PreOrder later.
Proof.
  split; [intros a; by unfold later; split_and!|]. intros a b d (? & ? & ? & ?) (? & ? & ? & ?).
  unfold later. split_and!; [congruence..|by etrans].
Qed.

Lemma keeps_answer (R : ComplianceDB -> ComplianceDB -> Prop) `{!PreOrder R} {A} name msg (v : ComplianceDB -> A) :
  keeps R (answer name msg v).
Proof. intros db r db' [= <- <-]. reflexivity. Qed.
Lemma keeps_find_tables (R : ComplianceDB -> ComplianceDB -> Prop) `{!PreOrder R} o u b t x :
  keeps R (cdb_FindUnusedTravelRuleRecord row1 o u b t x).
Proof. apply keeps_bind; [done|by apply keeps_answer|]. intros a. by apply keeps_lift. Qed.

Lemma keeps_get : keeps later get.
Proof. intros db r db' [= <- <-]. reflexivity. Qed.

#[local] Instance tables_keep : ComplianceKeeps (ComplianceTables row1) later.
Proof.
  split; intros; simpl; [apply (keeps_answer later)..|apply (keeps_find_tables later)| |].
  - intros db r db'. unfold cdb_ClaimUnusedTravelRuleRecord, mbind, stM_bind, answer.
    destruct (cd_fault db _); [by intros [= <- <-]|]. destruct (claimable _ _ _ _ _ _ db); simpl.
    + unfold lift. intros [= _ <-]. by unfold later; split_and!.
    + by intros [= <- <-].
  - intros db r db'. unfold cdb_CreateComplianceLog, mbind, stM_bind, answer.
    destruct (cd_fault db _); simpl; intros [= <- <-]; [done|]. unfold later. split_and!; simpl; [done..|by apply prefix_app_r].
Qed.

Lemma sanctioned_later o a db db' :
  passes later db db' (cdb_IsAddressSanctioned o a) false -> sanctions o a db = false.
Proof.
  intros (d1 & d2 & (_ & Hs & _ & _) & Ha & _). unfold cdb_IsAddressSanctioned, answer in Ha.
  destruct (cd_fault d1 _); [done|]. injection Ha as Ha _. unfold sanctions in *. by rewrite <- Hs.
Qed.

Lemma config_later o db db' config config' :
  passes later db db' (cdb_GetComplianceConfig row1 o) config ->
  cdb_GetComplianceConfig row1 o db = (Ok config', db) -> config = config'.
Proof.
  intros (d1 & d2 & (Hc & _ & Hf & _) & Ha & _). unfold cdb_GetComplianceConfig, answer in *.
  rewrite Hc, Hf in Ha. destruct (cd_fault db _); [done|]. congruence.
Qed.

Lemma logged_later e db db' :
  passes later db db' (cdb_CreateComplianceLog e) tt ->
  exists row, row ∈ drop (length (cd_logs db)) (cd_logs db') /\
    cl_OrgID row = cl_OrgID e /\ cl_UserID row = cl_UserID e /\ cl_Decision row = cl_Decision e /\
    cl_FromAddress row = ToLower (cl_FromAddress e) /\ cl_ToAddress row = ToLower (cl_ToAddress e) /\
    cl_AmountWei row = cl_AmountWei e /\ cl_WouldBlock row = cl_WouldBlock e.
Proof.
  intros (d1 & d2 & (_ & _ & _ & [l1 H1]) & Ha & (_ & _ & _ & [l2 H2])).
  unfold cdb_CreateComplianceLog, mbind, stM_bind, answer in Ha.
  destruct (cd_fault d1 _); [done|]. simpl in Ha. injection Ha as <-. simpl in H2.
  eexists. split; [|shelve]. rewrite H2, H1, <- !app_assoc, drop_app_length.
  apply elem_of_app. right. by left.
  Unshelve. by split_and!.
Qed.

(** C37: Sanctions are absolute and every allowed transfer is on record.
    When a check allows a value transfer of an organization with the rule
    enabled, in enforce and in monitor mode alike, neither the recipient nor
    the sender nor the signer of the transaction is on the global list or on
    the organization's, and a log row with the parties and the amount was
    appended. *)
Theorem sanctions_absolute c now req info cfg db res db' :
  cdb_GetComplianceConfig row1 (cr_OrgID req) db = (Ok (Some cfg), db) -> cc_Enabled cfg = true ->
  DetectTransfer (cr_From req) (cr_To req) (cr_Data req) (cr_Value req) = Some info ->
  @Check _ (ComplianceTables row1) c now req db = (Ok res, db') -> cs_Allowed res = true ->
  sanctions (cr_OrgID req) (ti_ToAddress info) db = false /\
  sanctions (cr_OrgID req) (ti_FromAddress info) db = false /\
  (cr_From req <> "" -> sanctions (cr_OrgID req) (cr_From req) db = false) /\
  exists row, row ∈ drop (length (cd_logs db)) (cd_logs db') /\
    cl_Decision row = "allowed" /\ cl_OrgID row = cr_OrgID req /\ cl_UserID row = cr_UserID req /\
    cl_FromAddress row = ToLower (ti_FromAddress info) /\ cl_ToAddress row = ToLower (ti_ToAddress info) /\
    cl_AmountWei row = pretty.pretty (ti_AmountWei info).
Proof.
  intros Hcfg He Hd Hc Ha.
  destruct (Check_allowed (st := ComplianceTables row1) later c now _ _ _ _ _ Hd Hc Ha) as (config & Hp & Hg).
  simpl in Hp. rewrite (config_later _ _ _ _ _ Hp Hcfg) in Hg. destruct (Hg He) as [Hu (cur & g & Hl & _)].
  simpl in Hu, Hl.
  assert (Hs : forall a, a ∈ parties req info -> sanctions (cr_OrgID req) a db = false)
    by (intros a Hin; eapply sanctioned_later, Hu, Hin).
  split_and!; [apply Hs; unfold parties; set_solver..| |].
  - intros Hne. destruct (decide (ToLower (cr_From req) = ToLower (ti_FromAddress info))) as [E|E].
    + assert (Hf : sanctions (cr_OrgID req) (ti_FromAddress info) db = false)
        by (apply Hs; unfold parties; set_solver).
      unfold sanctions in *. by rewrite E.
    + apply Hs. unfold parties. rewrite decide_True by done. set_solver.
  - destruct (logged_later _ _ _ Hl) as (row & Hin & H1 & H2 & H3 & H4 & H5 & H6 & _). exists row.
    destruct g; simpl in *; split_and!; done.
Qed.

(** ** The dry run *)
Lemma keeps_pure {A} (m : stM ComplianceDB A) db : keeps eq m -> m db = (fst (m db), db).
Proof. intros Hm. destruct (m db) as [r db'] eqn:E. by rewrite (Hm _ _ _ E). Qed.

Lemma bind_verdict {A B} (m : stM ComplianceDB A) (f g : A -> stM ComplianceDB B) db :
  keeps eq m -> (forall a, m db = (Ok a, db) -> fst (f a db) = fst (g a db)) -> fst ((m ≫= f) db) = fst ((m ≫= g) db).
Proof.
  intros Hm Hf. unfold mbind, stM_bind. pose proof (keeps_pure m db Hm) as E.
  destruct (m db) as [[a|e] db'] eqn:Em; [|done]. injection E as <-. by apply Hf.
Qed.

Lemma bind_fst {A B} (m : stM ComplianceDB A) (f : A -> stM ComplianceDB B) db :
  fst ((m ≫= f) db) = match m db with (Ok a, db') => fst (f a db') | (Err e, _) => Err e end.
Proof. unfold mbind, stM_bind. by destruct (m db) as [[a|e] db']. Qed.

#[local] Instance preview_keeps : ComplianceKeeps (previewStore (ComplianceTables row1)) eq.
Proof.
  split; intros; simpl; [apply (keeps_answer eq)..|apply (keeps_find_tables eq)|apply (keeps_find_tables eq)|].
  by apply (keeps_ret eq).
Qed.

Section verdicts.
Variable c : Checker.
Variable now : Z.
Variable db : ComplianceDB.
Hypothesis Hlog : cd_fault db "CreateComplianceLog" = None.
Hypothesis Hclaim : cd_fault db "ClaimUnusedTravelRuleRecord" = cd_fault db "FindUnusedTravelRuleRecord".
Hypothesis Hlocks : forall id, cd_locked db id = false.

Notation real := (ComplianceTables row1).
Notation dry := (previewStore (ComplianceTables row1)).

(** A written log leaves the verdict to the rest. *)
Lemma verdict_log {A} (st := real) (entry : ComplianceLog) (k : bool -> result A) db1 :
  cd_fault db1 "CreateComplianceLog" = None ->
  fst ((@tryLog _ real entry ≫= fun ok => lift (k ok)) db1) =
  fst ((@tryLog _ dry entry ≫= fun ok => lift (k ok)) db).
Proof.
  intros Hf. unfold mbind, stM_bind, tryLog. simpl.
  unfold cdb_CreateComplianceLog, mbind, stM_bind, answer. by rewrite Hf.
Qed.

Lemma verdict_unknown req info cfg cur :
  fst (@unknownPrice _ real c req info cfg cur db) = fst (@unknownPrice _ dry c req info cfg cur db).
Proof.
  unfold unknownPrice, allowLogged, allowMonitored, denyLogged.
  case_decide; [|case_decide]; by apply (verdict_log _ (fun ok => Ok _)).
Qed.

Lemma claim_find o u b t x :
  match @ClaimUnusedTravelRuleRecord _ real o u b t x db, @ClaimUnusedTravelRuleRecord _ dry o u b t x db with
  | (Ok (Some r), db1), (Ok (Some r'), db2) => tr_ID r = tr_ID r' /\ cd_fault db1 = cd_fault db /\ db2 = db
  | (Ok None, db1), (Ok None, db2) => db1 = db /\ db2 = db
  | (Err e, _), (Err e', _) => e = e'
  | _, _ => False
  end.
Proof.
  simpl. unfold cdb_ClaimUnusedTravelRuleRecord, cdb_FindUnusedTravelRuleRecord, mbind, stM_bind, answer.
  rewrite Hclaim. destruct (cd_fault db "FindUnusedTravelRuleRecord"); [done|].
  unfold claimable. erewrite filter_ext; [|by intros r; rewrite Hlocks, andb_true_r].
  destruct (newest row1 _) as [r|]; simpl; [|done].
  unfold lift. destruct (tr_DataError r); done.
Qed.

Lemma verdict_claim req info cfg cur a t :
  fst (@claimRecord _ real c req info cfg cur a t db) = fst (@claimRecord _ dry c req info cfg cur a t db).
Proof.
  unfold claimRecord. rewrite !bind_fst. unfold read.
  pose proof (claim_find (cr_OrgID req) (cr_UserID req) (ti_ToAddress info) (decisionToken info) a) as H.
  destruct (@ClaimUnusedTravelRuleRecord _ real _ _ _ _ _ db) as [[[r|]|e] db1],
    (@ClaimUnusedTravelRuleRecord _ dry _ _ _ _ _ db) as [[[r'|]|e'] db2]; try done; simpl.
  - destruct H as (-> & Hf & ->). apply (verdict_log _ (fun ok => Ok _)). by rewrite Hf.
  - destruct H as [-> ->]. case_decide; by apply (verdict_log _ (fun ok => Ok _)).
  - by subst.
Qed.

Lemma verdict_valued req info cfg cur p d :
  fst (@valuedTransfer _ real c req info cfg cur p d db) = fst (@valuedTransfer _ dry c req info cfg cur p d db).
Proof.
  unfold valuedTransfer. apply bind_verdict; [by apply (keeps_lift eq)|]. intros a _.
  apply bind_verdict; [apply (keeps_read eq), (keeps_resolveThreshold (st := dry) eq)|]. intros t _.
  destruct (f64_lt a t); [|apply verdict_claim]. by apply (verdict_log _ (fun ok => Ok _)).
Qed.

Lemma verdict_transfer req info cfg :
  fst (@checkTransfer _ real c now req info cfg db) = fst (@checkTransfer _ dry c now req info cfg db).
Proof.
  unfold checkTransfer. apply bind_verdict; [apply (keeps_currency (st := dry) eq)|]. intros cur _.
  apply bind_verdict; [apply (keeps_sanctions (st := dry) eq)|]. intros [r|] _.
  { unfold denySanctioned, tryLog. rewrite !bind_fst. simpl.
    unfold cdb_CreateComplianceLog, mbind, stM_bind, answer. by rewrite Hlog. }
  apply bind_verdict; [apply (keeps_read eq), (keeps_resolvePrice (st := dry) eq)|].
  intros [[p d]|] _; [apply verdict_valued|apply verdict_unknown].
Qed.

Lemma verdict_Check req : fst (@Check _ real c now req db) = fst (@CheckPreview _ real c now req db).
Proof.
  unfold CheckPreview, Check. destruct (DetectTransfer _ _ _ _) as [info|]; [|done].
  apply bind_verdict; [apply (keeps_read eq), (keeps_config (st := dry) (R := eq))|]. intros [cfg|] _; [|done].
  destruct (cc_Enabled cfg); [apply verdict_transfer|done].
Qed.
End verdicts.

(** C38: A preview predicts and changes nothing.  It leaves the tables as
    they are, and when the log can be written, the two record queries fail
    alike and no other claim is in flight, it answers exactly what the check
    answers, verdict, reason, monitored flag and error. *)
Theorem preview_predicts c now req db :
  cd_fault db "CreateComplianceLog" = None ->
  cd_fault db "ClaimUnusedTravelRuleRecord" = cd_fault db "FindUnusedTravelRuleRecord" ->
  (forall id, cd_locked db id = false) ->
  @CheckPreview _ (ComplianceTables row1) c now req db =
  (fst (@Check _ (ComplianceTables row1) c now req db), db).
Proof.
  intros Hl Hc Hk. rewrite (verdict_Check c now db Hl Hc Hk). apply keeps_pure.
  apply (keeps_Check (st := previewStore (ComplianceTables row1)) eq).
Qed.
End tables.
