(* ===== verification/TraceGate.v ===== *)
(** * The trace gate: [internal/server/jsonrpc_trace.go] and the scope
    selection of [operation_evaluator.go].

    A request that executes code is simulated by the node first; every frame
    the simulation reports is judged by [ValidateTrace].  [RuntimeTracer] is
    what the gate asks of the tracer and of the node behind it; a [Denial] is
    the [*ProcessError] of a refusal. *)
From S2P Require Import Prelude GoStrings Methods Models Requests OrgContext Cache Access Trace.
Local Open Scope string_scope.

(** ** Refusals *)
Record Denial := { dn_StatusCode : Z; dn_Message : string; dn_Reason : string }.
Definition refusal (status : Z) (message reason : string) : Denial :=
  {| dn_StatusCode := status; dn_Message := message; dn_Reason := reason |}.

Definition ReasonAuthRequired : string := "auth_required".
Definition ReasonMethodNotAllowed : string := "method_not_allowed".
Definition ReasonSenderNotLinked : string := "sender_not_linked".
Definition ReasonInvalidRequestShape : string := "invalid_request_shape".
Definition ReasonStateOverrideNotAllowed : string := "state_override_not_allowed".
Definition ReasonCrossOrg : string := "cross_org".
Definition ReasonTraceDepthExceeded : string := "trace_depth_exceeded".
Definition ReasonTracingUnavailable : string := "tracing_unavailable".
Definition ReasonDeployClaimRequired : string := "deploy_claim_required".
Definition ReasonRateLimited : string := "rate_limited".
Definition ReasonConcurrencyLimited : string := "concurrency_limited".
Definition ReasonUpstreamError : string := "upstream_error".

Definition ethCallDenyCrossOrg : string := "call denied: cross-org access not permitted".
Definition ethCallDenyDepthExceeded : string := "call denied: trace depth exceeded; not provable as same-org".
Definition ethCallDenyTracerError : string := "call denied: tracing temporarily unavailable".
Definition ethCallDenyInvalidRequest : string := "call denied: invalid request shape".
Definition sendTraceDenyCrossOrg : string := "transaction denied: cross-org access not permitted".
Definition sendTraceDenyDeployClaim : string :=
  "transaction denied: runtime contract creation requires the deploy claim".
Definition sendTraceDenyTracerError : string := "transaction denied: tracing temporarily unavailable".
Definition sendTraceValidatorError : string := "transaction denied: trace validation unavailable".

Definition sendTraceDenyMessage (reason : string) : string :=
  if decide (reason = "runtime contract creation requires deploy claim")
  then sendTraceDenyDeployClaim else sendTraceDenyCrossOrg.

(** ** Parameters of a call *)
Record TxParams := { tx_from : string; tx_to : string; tx_data : string; tx_value : string }.

Definition extractTxParams (params : list any) : TxParams :=
  match first_obj params with
  | None => {| tx_from := ""; tx_to := ""; tx_data := ""; tx_value := "" |}
  | Some txObj =>
      {| tx_from := default "" (str_field txObj "from");
         tx_to := default "" (str_field txObj "to");
         tx_data := match str_field txObj "data" with
                    | Some d => d
                    | None => default "" (str_field txObj "input")
                    end;
         tx_value := default "" (str_field txObj "value") |}
  end.

Definition isSimpleValueTransfer (data : string) : bool :=
  contains [""; "0x"; "0X"] (TrimSpace data).

(** Lower-case hexadecimal digits only. *)
Fixpoint lowerHex (s : string) : bool :=
  match s with
  | EmptyString => true
  | String a s =>
      let n := Ascii.N_of_ascii a in
      ((((48 <=? n) && (n <=? 57)) || ((97 <=? n) && (n <=? 102)))%N) && lowerHex s
  end.
Definition hexAfterPrefix (s : string) : bool := HasPrefix s "0x" && Nat.ltb 2 (String.length s).

Definition checkBlockRef (v : any) : result unit :=
  match as_str v with
  | None => Err "not a string"
  | Some s =>
      let s := ToLower (TrimSpace s) in
      if negb (hexAfterPrefix s) then Err "not 0x-hex"
      else if lowerHex (drop_str 2 s) then Ok tt else Err "non-hex"
  end.

(** [None] is "latest" for the tracer. *)
Definition extractEthCallBlockParam (params : list any) : result (option any) :=
  match params !! 1 with
  | None | Some ANull => Ok None
  | Some (AStr v) =>
      let s := ToLower (TrimSpace v) in
      if decide (s = "") then Ok None
      else if contains ["latest"; "earliest"; "pending"; "safe"; "finalized"] s then Ok (Some (AStr s))
      else if hexAfterPrefix s
      then (if lowerHex (drop_str 2 s) then Ok (Some (AStr s)) else Err "eth_call block tag: not hex")
      else Err "eth_call block tag: unknown"
  | Some (AObj v) =>
      match v !! "blockNumber", v !! "blockHash" with
      | None, None => Err "eth_call block object: missing blockNumber/blockHash"
      | Some _, Some _ => Err "eth_call block object: cannot set both blockNumber and blockHash"
      | Some bn, None => _ ← wrap "eth_call blockNumber" (checkBlockRef bn); Ok (Some (AObj v))
      | None, Some bh => _ ← wrap "eth_call blockHash" (checkBlockRef bh); Ok (Some (AObj v))
      end
  | Some _ => Err "eth_call block param: unsupported type"
  end.

(** ** The tracer *)
Inductive TraceAnswer :=
| Traced (trace : option TraceResult)
| ErrTraceDepthExceeded
| TracerError (e : string).

Class RuntimeTracer := {
  (** the tracer and the validator are wired, and tracing is enabled *)
  IsEnabled : bool;
  HasCode : string -> result bool;
  TraceTransaction : string -> string -> string -> string -> TraceAnswer;
  TraceTransactionUncached : string -> string -> string -> string -> option any -> TraceAnswer;
  TraceCallObjectUncached : gmap string any -> option any -> TraceAnswer;
  (** go-ethereum's [common.IsHexAddress] *)
  IsHexAddress : string -> bool }.

(** The two runtime knobs. *)
Record TraceKnobs := { kn_ethCallTracing : bool; kn_intraOrgGrantTracing : bool }.

Inductive authorizationScopeKind :=
| authorizationScopeOrgLocal | authorizationScopeAllActiveMemberships | authorizationScopeAllowlisted.
#[export] Instance authorizationScopeKind_eq_dec : EqDecision authorizationScopeKind.
Proof. solve_decision. Defined.

Record evaluationScope := {
  es_kind : authorizationScopeKind; es_orgID : string; es_inScope : option (string -> bool) }.

Section gate.
Context `{HS : Store} `{HT : TraceEnv} `{HP : PermissionSource} `{HR : RuntimeTracer}.
Variable reg : Registries.
Variable ctx : Ctx.
Variable knobs : TraceKnobs.

Definition GetEffectivePermissionsByIDs (userID orgID : string) : result EffectivePermissions :=
  fst <$> ResolvePermissionsCacheable userID orgID.

Definition effectivePermissionsHasDeployClaim (perms : EffectivePermissions) : bool :=
  existsb (fun c => bool_decide (c = ClaimDeploy) || bool_decide (c = ClaimAdmin)) (ep_Claims perms).

(** ** Scopes *)
Definition liveMemberships (ms : list MembershipWithDetails) : list MembershipWithDetails :=
  List.filter (fun m =>
    match md_Membership m with
    | None => false
    | Some um => match um_ExpiresAt um with None => true | Some e => (ctx_now ctx <? e)%Z end
    end) ms.

Definition membershipsHaveDeployClaim (ms : list MembershipWithDetails) : bool :=
  existsb (fun m =>
    match md_Membership m with
    | None => false
    | Some um =>
        match GetGroupAccess (um_GroupID um) with
        | Ok (Some access) =>
            existsb (fun c => bool_decide (c = ClaimDeploy) || bool_decide (c = ClaimAdmin)) (ga_Claims access)
        | _ => false
        end
    end) ms.

Definition orgsOf (ms : list MembershipWithDetails) : gset string :=
  list_to_set (omap (fun m => g_OrgID <$> md_Group m) ms).

Definition traceOrgScope (user : User) (scope : evaluationScope) : result (gset string * bool) :=
  match es_kind scope with
  | authorizationScopeOrgLocal =>
      perms ← wrap "pinned-org permissions unavailable" (GetEffectivePermissionsByIDs (u_ID user) (es_orgID scope));
      Ok ({[es_orgID scope]}, effectivePermissionsHasDeployClaim perms)
  | kind =>
      ms ← ListActiveUserMembershipsWithDetails (u_ID user);
      let live := liveMemberships ms in
      let ms := if decide (kind = authorizationScopeAllowlisted)
                then List.filter (fun m => match md_Group m, es_inScope scope with
                                           | Some g, Some f => f (g_OrgID g)
                                           | _, _ => false
                                           end) live
                else live in
      let orgIDs := orgsOf ms in
      if decide (kind = authorizationScopeAllowlisted /\ es_orgID scope ∉ orgIDs)
      then Err "evaluated organization is outside the scope"
      else if decide (es_orgID scope = "") then Ok (orgIDs, membershipsHaveDeployClaim ms)
      else
        perms ← wrap "resolved-org permissions unavailable"
                  (GetEffectivePermissionsByIDs (u_ID user) (es_orgID scope));
        Ok (orgIDs, effectivePermissionsHasDeployClaim perms)
  end.

Definition senderLinked (subjectDID from : string) : result bool :=
  if decide (from = "") then Ok true
  else addresses ← GetLinkedEthAddresses subjectDID; Ok (existsb (fun a => EqualFold a from) addresses).

(** ** Grant scoping *)
Fixpoint grantedIn (userID : string) (orgs : list string) (granted : gset string) : result (gset string) :=
  match orgs with
  | [] => Ok granted
  | orgID :: orgs =>
      perms ← GetEffectivePermissionsByIDs userID orgID;
      grantedIn userID orgs (granted ∪ list_to_set (map (ToLower ∘ fst) (map_to_list (ep_ContractAccess perms))))
  end.
Definition resolveGrantedContracts (userID : string) (userOrgIDs : gset string) : result (gset string) :=
  grantedIn userID (rangeOrgs userOrgIDs) ∅.

Definition intraOrgGrantTraceOptions (userID targetAddr : string) (userOrgIDs : gset string)
  : result traceOptions :=
  if negb (kn_intraOrgGrantTracing knobs) then Ok noOptions
  else
    granted ← resolveGrantedContracts userID userOrgIDs;
    Ok (WithIntraOrgGrantScoping (if decide (targetAddr = "") then granted else {[ToLower targetAddr]} ∪ granted)
          noOptions).

(** ** Sends *)
Definition validated (userOrgIDs : gset string) (userHasDeploy : bool) (userID targetAddr : string)
  (trace : option TraceResult) : list CreateTarget + Denial :=
  match trace with
  | None => inr (refusal 403 sendTraceDenyTracerError ReasonTracingUnavailable)
  | Some tr =>
      match intraOrgGrantTraceOptions userID targetAddr userOrgIDs with
      | Err _ => inr (refusal 403 sendTraceValidatorError ReasonTracingUnavailable)
      | Ok o =>
          match ValidateTrace userOrgIDs userHasDeploy o (Some tr) with
          | Err _ => inr (refusal 500 sendTraceValidatorError ReasonTracingUnavailable)
          | Ok v => if tv_Allowed v then inl (tv_CreateTargets v)
                    else inr (refusal 403 (sendTraceDenyMessage (tv_Reason v)) ReasonCrossOrg)
          end
      end
  end.

Definition validateDeployWithTracing (userID from data value : string) (userOrgIDs : gset string)
  (userHasDeploy : bool) : list CreateTarget + Denial :=
  if negb IsEnabled then inl []
  else match TraceTransactionUncached from "" data value (Some (AStr "latest")) with
  | Traced trace => validated userOrgIDs userHasDeploy userID "" trace
  | _ => inr (refusal 403 sendTraceDenyTracerError ReasonTracingUnavailable)
  end.

(** The simulation of a send and its verdict. *)
Definition traceSend (userID : string) (tx : TxParams) (ms : list MembershipWithDetails)
  : list CreateTarget + Denial :=
  match TraceTransaction (tx_from tx) (tx_to tx) (tx_data tx) (tx_value tx) with
  | Traced trace => validated (orgsOf ms) (membershipsHaveDeployClaim ms) userID (tx_to tx) trace
  | _ => inr (refusal 403 sendTraceDenyTracerError ReasonTracingUnavailable)
  end.

(** A supplied [from] must be an address linked to the caller. *)
Definition senderOfSend (userDID from : string) : option Denial :=
  if decide (from = "") then None
  else match GetLinkedEthAddresses userDID with
  | Err _ => Some (refusal 403 "failed to verify sender identity" ReasonTracingUnavailable)
  | Ok addrs =>
      if existsb (fun a => bool_decide (ToLower a = ToLower from)) addrs then None
      else Some (refusal 400 "invalid sender: from address is not linked to your account" ReasonSenderNotLinked)
  end.

Definition validateWithTracing (userDID method : string) (params : list any) (targetAddr : string)
  : list CreateTarget + Denial :=
  if negb IsEnabled then inl []
  else if decide (method <> "eth_sendTransaction") then inl []
  else if decide (targetAddr = "") then inl []
  else match GetUserByExternalID userDID with
  | Err _ | Ok None => inr (refusal 403 "failed to get user for trace validation" ReasonTracingUnavailable)
  | Ok (Some user) =>
      match ListActiveUserMembershipsWithDetails (u_ID user) with
      | Err _ => inr (refusal 403 "failed to get user memberships for trace validation" ReasonTracingUnavailable)
      | Ok ms =>
          let tx := extractTxParams params in
          if decide (tx_to tx = "")
          then validateDeployWithTracing (u_ID user) (tx_from tx) (tx_data tx) (tx_value tx) (orgsOf ms)
                 (membershipsHaveDeployClaim ms)
          else match senderOfSend userDID (tx_from tx) with
          | Some d => inr d
          | None =>
              if isSimpleValueTransfer (tx_data tx)
              then match HasCode (tx_to tx) with
                   | Ok false => inl []
                   | _ => traceSend (u_ID user) tx ms
                   end
              else traceSend (u_ID user) tx ms
          end
      end
  end.

(** ** Reads *)

(** The simulation of a call: a creation is replayed from its whole object. *)
Definition traceRead (creation : bool) (params : list any) (tx : TxParams) (block : option any) : TraceAnswer :=
  if creation
  then TraceCallObjectUncached (delete "to" (default ∅ (first_obj params))) block
  else TraceTransactionUncached (tx_from tx) (tx_to tx) (tx_data tx) (tx_value tx) block.

Definition judgeRead (creation : bool) (userOrgIDs : gset string) (userHasDeploy : bool) (userID to : string)
  (answer : TraceAnswer) : option Denial :=
  match answer with
  | ErrTraceDepthExceeded => Some (refusal 403 ethCallDenyDepthExceeded ReasonTraceDepthExceeded)
  | TracerError _ | Traced None => Some (refusal 403 ethCallDenyTracerError ReasonTracingUnavailable)
  | Traced (Some tr) =>
      match intraOrgGrantTraceOptions userID to userOrgIDs with
      | Err _ => Some (refusal 403 ethCallDenyTracerError ReasonTracingUnavailable)
      | Ok o =>
          match ValidateTrace userOrgIDs userHasDeploy (if creation then WithCreatedContractsAsOwn o else o)
                  (Some tr) with
          | Err _ => Some (refusal 500 ethCallDenyTracerError ReasonTracingUnavailable)
          | Ok v =>
              if tv_Allowed v then None
              else Some (refusal 403 ethCallDenyCrossOrg
                     (match tv_DenialKind v with DenialKindDeployClaim => ReasonDeployClaimRequired
                      | _ => ReasonCrossOrg end))
          end
      end
  end.

(** From the lookups of the caller to the verdict. *)
Definition traceAsCaller (userDID : string) (params : list any) (orgID resolvedOrgID : string) (creation : bool)
  (tx : TxParams) (block : option any) : option Denial :=
  match GetUserByExternalID userDID with
  | Err _ | Ok None => Some (refusal 403 ethCallDenyTracerError ReasonTracingUnavailable)
  | Ok (Some user) =>
      match senderLinked userDID (tx_from tx) with
      | Err _ => Some (refusal 403 ethCallDenyTracerError ReasonTracingUnavailable)
      | Ok false => Some (refusal 400 ethCallDenyInvalidRequest ReasonSenderNotLinked)
      | Ok true =>
          let scope :=
            if decide (orgID = "")
            then {| es_kind := authorizationScopeAllActiveMemberships; es_orgID := resolvedOrgID;
                    es_inScope := None |}
            else {| es_kind := authorizationScopeOrgLocal; es_orgID := orgID; es_inScope := None |} in
          match traceOrgScope user scope with
          | Err _ => Some (refusal 403 ethCallDenyTracerError ReasonTracingUnavailable)
          | Ok (userOrgIDs, userHasDeploy) =>
              judgeRead creation userOrgIDs userHasDeploy (u_ID user) (tx_to tx)
                (traceRead creation params tx block)
          end
      end
  end.

Definition invalidShape : Denial := refusal 400 ethCallDenyInvalidRequest ReasonInvalidRequestShape.

(** The checks of the request before anything is looked up. *)
Definition checkReadShape (params : list any) (creation : bool) : TxParams * option any + Denial :=
  let tx0 := extractTxParams params in
  let tx := if creation
            then {| tx_from := tx_from tx0; tx_to := ""; tx_data := tx_data tx0; tx_value := tx_value tx0 |}
            else tx0 in
  let d := TrimSpace (tx_data tx) in
  if creation && (bool_decide (d = "") || EqualFold d "0x") then inr invalidShape
  else match extractEthCallBlockParam params with
  | Err _ => inr invalidShape
  | Ok block =>
      if negb creation && (bool_decide (tx_to tx = "") || negb (IsHexAddress (tx_to tx))) then inr invalidShape
      else if negb (bool_decide (tx_from tx = "")) && negb (IsHexAddress (tx_from tx)) then inr invalidShape
      else inl (tx, block)
  end.

Definition validateEthCallWithTracingInOrg (userDID method : string) (params : list any)
  (targetAddr orgID resolvedOrgID : string) : option Denial :=
  let resolved := ResolveMethodAlias reg method in
  let creation := bool_decide (targetAddr = "") in
  let run :=
    if negb IsEnabled then
      (if creation then Some (refusal 403 ethCallDenyTracerError ReasonTracingUnavailable) else None)
    else match checkReadShape params creation with
    | inr d => Some d
    | inl (tx, block) => traceAsCaller userDID params orgID resolvedOrgID creation tx block
    end in
  if negb (contains ["eth_call"; "eth_estimateGas"; "eth_createAccessList"] resolved) then None
  else if creation
  then (if decide (ClassifyCallShape params = CallShapeCreation) then run else Some invalidShape)
  else if decide (resolved = "eth_createAccessList") then None
  else if negb (kn_ethCallTracing knobs) then None
  else run.

Definition validateEthCallWithTracing (userDID method : string) (params : list any)
  (targetAddr resolvedOrgID : string) : option Denial :=
  match ctx_viewscope ctx with
  | Some scope =>
      if decide (scope = "") then Some (refusal 403 ethCallDenyTracerError ReasonTracingUnavailable)
      else validateEthCallWithTracingInOrg userDID method params targetAddr scope resolvedOrgID
  | None => validateEthCallWithTracingInOrg userDID method params targetAddr "" resolvedOrgID
  end.
End gate.
