(* ===== verification/TraceGateProps.v ===== *)
(** * What passes the trace gate. *)
From S2P Require Import Prelude GoStrings Methods Models Requests OrgContext Cache Access Trace TraceGate.
Local Open Scope string_scope.

Section gate.
Context `{HS : Store} `{HT : TraceEnv} `{HP : PermissionSource} `{HR : RuntimeTracer}.
Context (reg : Registries) (ctx : Ctx) (knobs : TraceKnobs).

(** The frames of a simulation stay within the organizations [orgs]: each
    non-creating frame is admitted by one of the rules, creations need the
    deploy claim and touch no foreign contract. *)
Definition isolated (orgs : gset string) (deploy : bool) (o : traceOptions) (tr : TraceResult) : Prop :=
  (tr_HasCreate tr || tr_HasCreate2 tr = true ->
   deploy = true /\
   forall t, t ∈ tr_CallTargets tr -> isCreate t = true ->
     emptyTarget (normalizeTraceAddr (ct_To t)) = false -> create_ok orgs o t) /\
  exists fresh,
    (forall a, a ∈ fresh -> a ∈ to_freshCreations o /\ exists t, t ∈ tr_CallTargets tr /\
       isCreate t = true /\ normalizeTraceAddr (ct_To t) = a) /\
    forall pre t post, tr_CallTargets tr = (pre ++ t :: post)%list -> isCreate t = false ->
      frame_ok orgs deploy o fresh pre t.

(** The organizations of the scope: the anchored one, or those of the caller's
    unexpired memberships. *)
Definition scope_orgs (user : User) (orgs : gset string) : Prop :=
  match ctx_viewscope ctx with
  | Some scope => orgs = {[scope]}
  | None => exists ms, ListActiveUserMembershipsWithDetails (u_ID user) = Ok ms /\
                       orgs = orgsOf (liveMemberships ctx ms)
  end.

(** The scope the gate asks for: the anchored organization of an impersonated
    view, or every live membership, with the deploy claim of the organization the
    decision resolved. *)
Definition scopeOf (resolvedOrgID : string) : evaluationScope :=
  match ctx_viewscope ctx with
  | Some scope => {| es_kind := authorizationScopeOrgLocal; es_orgID := scope; es_inScope := None |}
  | None => {| es_kind := authorizationScopeAllActiveMemberships; es_orgID := resolvedOrgID; es_inScope := None |}
  end.

Lemma judgeRead_isolated creation orgs deploy userID to answer :
  ranges_all ->
  judgeRead knobs creation orgs deploy userID to answer = None ->
  exists tr o, answer = Traced (Some tr) /\ intraOrgGrantTraceOptions knobs userID to orgs = Ok o /\
    isolated orgs deploy (if creation then WithCreatedContractsAsOwn o else o) tr.
Proof.
  intros Hr H. unfold judgeRead in H. destruct answer as [[tr|]| |]; try done.
  destruct (intraOrgGrantTraceOptions knobs userID to orgs) as [o|] eqn:Eo; [|done].
  destruct (ValidateTrace _ _ _ _) as [v|] eqn:Ev; [|done]. destruct (tv_Allowed v) eqn:Ea; [|done].
  exists tr, o. split_and!; [done..|]. by eapply allowed_trace_sound.
Qed.

Lemma validated_isolated orgs deploy userID to trace creates :
  ranges_all ->
  validated knobs orgs deploy userID to trace = inl creates ->
  exists tr o, trace = Some tr /\ intraOrgGrantTraceOptions knobs userID to orgs = Ok o /\
    isolated orgs deploy o tr.
Proof.
  intros Hr H. unfold validated in H. destruct trace as [tr|]; [|done].
  destruct (intraOrgGrantTraceOptions knobs userID to orgs) as [o|] eqn:Eo; [|done].
  destruct (ValidateTrace _ _ _ _) as [v|] eqn:Ev; [|done]. destruct (tv_Allowed v) eqn:Ea; [|done].
  exists tr, o. split_and!; [done..|]. by eapply allowed_trace_sound.
Qed.

(** The options of a simulation that was not prepared: no recipient counts as an
    account without code and no creation as announced. *)
Lemma grant_options userID to orgs o : intraOrgGrantTraceOptions knobs userID to orgs = Ok o ->
  to_noCodeRecipients o = ∅ /\ to_freshCreations o = ∅ /\ to_createdAsOwn o = false /\ to_clientTraceGrants o = false /\
  to_intraOrgGrantScoping o = kn_intraOrgGrantTracing knobs.
Proof.
  unfold intraOrgGrantTraceOptions. destruct (kn_intraOrgGrantTracing knobs); simpl; [|by intros [= <-]].
  by intros (granted & _ & [= <-])%bind_Ok.
Qed.

(** The scope of a live call. *)
Lemma traceOrgScope_pinned user orgID orgs deploy :
  traceOrgScope ctx user {| es_kind := authorizationScopeOrgLocal; es_orgID := orgID; es_inScope := None |} =
    Ok (orgs, deploy) -> orgs = {[orgID]}.
Proof. unfold traceOrgScope. simpl. intros H. by inv_st; simplify_eq. Qed.

Lemma traceOrgScope_live user orgID orgs deploy :
  traceOrgScope ctx user
    {| es_kind := authorizationScopeAllActiveMemberships; es_orgID := orgID; es_inScope := None |} =
    Ok (orgs, deploy) ->
  exists ms, ListActiveUserMembershipsWithDetails (u_ID user) = Ok ms /\ orgs = orgsOf (liveMemberships ctx ms).
Proof.
  unfold traceOrgScope. simpl. intros (ms & Hms & H)%bind_Ok. exists ms. split; [done|].
  repeat case_decide; destruct_and?; try discriminate; [by simplify_eq|]. by inv_st; simplify_eq.
Qed.

(** A sender the gate accepts. *)
Definition own_sender (userDID from : string) : Prop :=
  from = "" \/ exists addrs a, GetLinkedEthAddresses userDID = Ok addrs /\ a ∈ addrs /\ EqualFold a from = true.

Lemma senderLinked_true userDID from : senderLinked userDID from = Ok true -> own_sender userDID from.
Proof.
  unfold senderLinked. case_decide; [by left|]. intros (addrs & Ha & [= He])%bind_Ok. right.
  apply existsb_exists in He as (a & Hin & He). exists addrs, a. split_and!; [done|by apply list_elem_of_In|done].
Qed.

Lemma traceAsCaller_isolated userDID params orgID resolvedOrgID creation tx block :
  ranges_all -> orgID = default "" (ctx_viewscope ctx) -> ctx_viewscope ctx <> Some "" ->
  traceAsCaller ctx knobs userDID params orgID resolvedOrgID creation tx block = None ->
  exists user tr orgs deploy o,
    GetUserByExternalID userDID = Ok (Some user) /\ own_sender userDID (tx_from tx) /\
    scope_orgs user orgs /\ traceOrgScope ctx user (scopeOf resolvedOrgID) = Ok (orgs, deploy) /\
    traceRead creation params tx block = Traced (Some tr) /\
    intraOrgGrantTraceOptions knobs (u_ID user) (tx_to tx) orgs = Ok o /\
    isolated orgs deploy (if creation then WithCreatedContractsAsOwn o else o) tr.
Proof.
  intros Hr Ho Hne H. unfold traceAsCaller in H.
  destruct (GetUserByExternalID userDID) as [[user|]|]; [|done..].
  destruct (senderLinked userDID (tx_from tx)) as [[]|] eqn:El; [|done..].
  destruct (traceOrgScope ctx user _) as [[orgs deploy]|] eqn:Es; [|done].
  apply judgeRead_isolated in H as (tr & o & Ht & Eo & Hi); [|done].
  exists user, tr, orgs, deploy, o. split_and!; try done.
  - by apply senderLinked_true.
  - unfold scope_orgs. destruct (ctx_viewscope ctx) as [scope|]; simpl in Ho; subst orgID.
    + rewrite decide_False in Es by congruence. by apply traceOrgScope_pinned in Es.
    + rewrite decide_True in Es by done. by apply traceOrgScope_live in Es.
  - unfold scopeOf. destruct (ctx_viewscope ctx) as [scope|]; simpl in Ho; subst orgID.
    + by rewrite decide_False in Es by congruence.
    + by rewrite decide_True in Es.
Qed.

Lemma checkReadShape_Ok params creation tx block :
  checkReadShape params creation = inl (tx, block) ->
  extractEthCallBlockParam params = Ok block /\ tx_from tx = tx_from (extractTxParams params) /\
  tx_data tx = tx_data (extractTxParams params) /\ tx_value tx = tx_value (extractTxParams params) /\
  (creation = false -> tx = extractTxParams params).
Proof.
  unfold checkReadShape. intros H. repeat case_match; simplify_eq/=; split_and!; done.
Qed.

(** C13: A read the trace gate simulates and forwards stayed within the caller's
    organizations.  For eth_call and eth_estimateGas with a target (under any
    registered alias, with the tracer and the knob on; eth_createAccessList with
    a target is never simulated) and for every call without a target (whatever
    the knobs), a pass means: the caller is a known user; the sender is empty or
    one of their linked addresses; the node simulated the sender, target, data
    and value of the call, or the whole object of a creation, at the block it
    names; and the simulation is isolated for the organizations of the caller's
    unexpired memberships, or for the anchored one alone in an impersonated
    view, with the deploy claim that scope gives and exactly the options of the
    caller's grants: no account counts as one without code, no creation as
    announced, and only in a call without target are the contracts it creates
    its own.  Frames to precompiles and to attested shared infrastructure,
    whoever registered it, are within. *)
Theorem reads_are_isolated userDID method params targetAddr resolvedOrgID :
  ranges_all ->
  contains ["eth_call"; "eth_estimateGas"; "eth_createAccessList"] (ResolveMethodAlias reg method) = true ->
  targetAddr = "" \/
    ResolveMethodAlias reg method <> "eth_createAccessList" /\ kn_ethCallTracing knobs = true /\ IsEnabled = true ->
  validateEthCallWithTracing reg ctx knobs userDID method params targetAddr resolvedOrgID = None ->
  exists user tr orgs deploy o tx block,
    GetUserByExternalID userDID = Ok (Some user) /\
    tx_from tx = tx_from (extractTxParams params) /\ own_sender userDID (tx_from tx) /\
    (targetAddr <> "" -> tx = extractTxParams params) /\
    extractEthCallBlockParam params = Ok block /\
    traceRead (bool_decide (targetAddr = "")) params tx block = Traced (Some tr) /\
    scope_orgs user orgs /\ traceOrgScope ctx user (scopeOf resolvedOrgID) = Ok (orgs, deploy) /\
    intraOrgGrantTraceOptions knobs (u_ID user) (tx_to tx) orgs = Ok o /\
    to_noCodeRecipients o = ∅ /\ to_freshCreations o = ∅ /\
    isolated orgs deploy (if bool_decide (targetAddr = "") then WithCreatedContractsAsOwn o else o) tr.
Proof.
  intros Hr Hm Hon H.
  assert (Hrun : ctx_viewscope ctx <> Some "" /\ IsEnabled = true /\ exists tx block,
    checkReadShape params (bool_decide (targetAddr = "")) = inl (tx, block) /\
    traceAsCaller ctx knobs userDID params (default "" (ctx_viewscope ctx)) resolvedOrgID
      (bool_decide (targetAddr = "")) tx block = None).
  { unfold validateEthCallWithTracing in H. unfold validateEthCallWithTracingInOrg in H. rewrite Hm in H.
    cbn [negb] in H. destruct (ctx_viewscope ctx) as [scope|]; [destruct (decide (scope = "")); [done|]|];
      (split; [congruence|]); simpl;
      destruct (bool_decide (targetAddr = "")) eqn:Et;
      [apply bool_decide_eq_true in Et|apply bool_decide_eq_false in Et
      |apply bool_decide_eq_true in Et|apply bool_decide_eq_false in Et].
    all: try (destruct (decide (ClassifyCallShape params = CallShapeCreation)); [|done]).
    all: try (destruct Hon as [?|(Hc & Hk & He)]; [done|]; rewrite decide_False in H by done; rewrite Hk in H;
              cbn [negb] in H).
    all: destruct IsEnabled; cbn [negb] in H; try done.
    all: destruct (checkReadShape params _) as [[tx block]|] eqn:Es; [|done].
    all: split; [done|]; by exists tx, block. }
  destruct Hrun as (Hne & _ & tx & block & Hs & Hrun).
  apply traceAsCaller_isolated in Hrun as (user & tr & orgs & deploy & o & Hu & Hl & Hsc & Hd & Ht & Eo & Hi); [|done..].
  pose proof (grant_options _ _ _ _ Eo) as (En & Ef & _).
  apply checkReadShape_Ok in Hs as (Hb & Hf & _ & _ & Hx).
  exists user, tr, orgs, deploy, o, tx, block. split_and!; try done.
  intros Hne'. apply Hx. by apply bool_decide_eq_false.
Qed.

Lemma senderOfSend_None userDID from : senderOfSend userDID from = None ->
  from = "" \/ exists addrs a, GetLinkedEthAddresses userDID = Ok addrs /\ a ∈ addrs /\ ToLower a = ToLower from.
Proof.
  unfold senderOfSend. case_decide; [by left|]. destruct (GetLinkedEthAddresses userDID) as [addrs|]; [|done].
  destruct (existsb _ addrs) eqn:E; [|done]. intros _. right.
  apply existsb_exists in E as (a & Hin & He%bool_decide_eq_true).
  exists addrs, a. split_and!; [done|by apply list_elem_of_In|done].
Qed.

(** An empty recipient has no target: the branch of [validateWithTracing] for
    deployments is never taken. *)
Lemma no_recipient_no_target params :
  tx_to (extractTxParams params) = "" -> GetTargetAddress "eth_sendTransaction" params = "".
Proof.
  unfold extractTxParams, GetTargetAddress.
  replace (contains ["eth_call"; "eth_estimateGas"; "eth_createAccessList"] "eth_sendTransaction") with false
    by (vm_compute; reflexivity).
  replace (contains ["eth_sendTransaction"] "eth_sendTransaction") with true by (vm_compute; reflexivity).
  destruct (first_obj params) as [txObj|]; simpl; [|done].
  destruct (str_field txObj "to") as [to|]; simpl; [|done]. intros ->. reflexivity.
Qed.

(** C14: A transaction the trace gate forwards was simulated and stayed within
    the caller's organizations, except a deployment.  With the tracer on, a pass
    of eth_sendTransaction means one of three things: it has no target (and then
    nothing was simulated, whatever the tracer would say); it is a transfer
    without calldata to an account without code; or the caller is a known user,
    the sender is empty or a linked address, the tracer answered for these four
    fields, and the simulation is isolated for the organizations of the caller's
    memberships with their deploy claim and exactly the options of the caller's
    grants: no account inside the trace counts as one without code, no creation
    as announced.  Frames to precompiles and to attested shared infrastructure,
    whoever registered it, are within. *)
Theorem sends_are_isolated userDID params creates :
  ranges_all -> IsEnabled = true ->
  validateWithTracing knobs userDID "eth_sendTransaction" params
    (GetTargetAddress "eth_sendTransaction" params) = inl creates ->
  let tx := extractTxParams params in
  (GetTargetAddress "eth_sendTransaction" params = "" /\ creates = []) \/
  exists user ms,
    GetUserByExternalID userDID = Ok (Some user) /\
    ListActiveUserMembershipsWithDetails (u_ID user) = Ok ms /\
    (tx_from tx = "" \/ exists addrs a, GetLinkedEthAddresses userDID = Ok addrs /\ a ∈ addrs /\
                                       ToLower a = ToLower (tx_from tx)) /\
    ((isSimpleValueTransfer (tx_data tx) = true /\ HasCode (tx_to tx) = Ok false /\ creates = []) \/
     exists tr o, TraceTransaction (tx_from tx) (tx_to tx) (tx_data tx) (tx_value tx) = Traced (Some tr) /\
       intraOrgGrantTraceOptions knobs (u_ID user) (tx_to tx) (orgsOf ms) = Ok o /\
       to_noCodeRecipients o = ∅ /\ to_freshCreations o = ∅ /\ to_createdAsOwn o = false /\
       isolated (orgsOf ms) (membershipsHaveDeployClaim ms) o tr).
Proof.
  intros Hr He H tx. unfold validateWithTracing in H. rewrite He in H. cbn [negb] in H.
  rewrite decide_False in H by naive_solver. case_decide as Ht; [left; by simplify_eq|right].
  destruct (GetUserByExternalID userDID) as [[user|]|]; [|done..].
  destruct (ListActiveUserMembershipsWithDetails (u_ID user)) as [ms|] eqn:Hms; [|done].
  rewrite decide_False in H by (intros Hto; by apply Ht, no_recipient_no_target).
  destruct (senderOfSend userDID _) eqn:Es; [done|]. exists user, ms.
  split_and!; [done..|by apply senderOfSend_None|].
  assert (Htr : traceSend knobs (u_ID user) tx ms = inl creates ->
    exists tr o, TraceTransaction (tx_from tx) (tx_to tx) (tx_data tx) (tx_value tx) = Traced (Some tr) /\
       intraOrgGrantTraceOptions knobs (u_ID user) (tx_to tx) (orgsOf ms) = Ok o /\
       to_noCodeRecipients o = ∅ /\ to_freshCreations o = ∅ /\ to_createdAsOwn o = false /\
       isolated (orgsOf ms) (membershipsHaveDeployClaim ms) o tr).
  { unfold traceSend. destruct (TraceTransaction _ _ _ _) as [trace| |]; [|done..]. intros Hv.
    apply validated_isolated in Hv as (tr & o & -> & Eo & Hi); [|done].
    pose proof (grant_options _ _ _ _ Eo) as (En & Ef & Ec & _). exists tr, o. by split_and!. }
  destruct (isSimpleValueTransfer _) eqn:Ev; [|right; by apply Htr].
  destruct (HasCode _) as [[]|] eqn:Eh; [right; by apply Htr| |right; by apply Htr].
  left. simplify_eq. done.
Qed.

(** A deployment sent with eth_sendTransaction is not simulated: the gate
    passes it for every tracer, also one that cannot answer. *)
Theorem deployments_sent_untraced userDID params :
  tx_to (extractTxParams params) = "" ->
  validateWithTracing knobs userDID "eth_sendTransaction" params
    (GetTargetAddress "eth_sendTransaction" params) = inl [].
Proof.
  intros Hto. unfold validateWithTracing. rewrite (no_recipient_no_target _ Hto).
  by destruct IsEnabled; repeat case_decide.
Qed.
End gate.
