(* ===== verification/VisibleTo.v ===== *)
(** * Per-transaction recipients: the [visibleTo] handling of
    [jsonrpc_processor.go].

    A request body is its canonical envelope ([EnvelopeClaims.v]): the method,
    the parameters and the two members that carry recipients.  The version and
    the id pass through every rewriting unchanged and are left out. *)
From S2P Require Import Prelude GoStrings Methods Models Requests.
From Stdlib Require Import Ascii.
Local Open Scope string_scope.

Record Body := {
  bd_Method : string; bd_Params : list any; bd_visibleTo : option any; bd_privateFor : option any }.

Definition visibleToMaxSize : nat := 32.

(** [rebuildRequestBody]: the members outside the envelope struct are dropped. *)
Definition rebuildRequestBody (body : Body) (params : list any) : Body :=
  {| bd_Method := bd_Method body; bd_Params := params; bd_visibleTo := None; bd_privateFor := None |}.

(** ** Recipients *)
Definition didChar (a : ascii) : bool :=
  let n := N_of_ascii a in
  (((97 <=? n) && (n <=? 122)) || ((65 <=? n) && (n <=? 90)) || ((48 <=? n) && (n <=? 57)))%N ||
  bool_decide (a ∈ [":"; "-"; "_"; "."]%char).

Fixpoint allChars (p : ascii -> bool) (s : string) : bool :=
  match s with EmptyString => true | String a s => p a && allChars p s end.

(** [strings.IndexByte] *)
Fixpoint IndexByte (s : string) (c : ascii) : option nat :=
  match s with
  | EmptyString => None
  | String a s => if decide (a = c) then Some 0 else S <$> IndexByte s c
  end.

Definition isValidDID (s : string) : bool :=
  if Nat.ltb (String.length s) 7 || Nat.ltb 240 (String.length s) then false
  else if negb (HasPrefix s "did:") then false
  else
    let rest := drop_str 4 s in
    match IndexByte rest ":"%char with
    | None | Some 0 => false
    | Some colon =>
        if Nat.eqb colon (String.length rest - 1) then false else allChars didChar s
    end.

Definition isEthAddress (s : string) : bool :=
  Nat.eqb (String.length s) 42 && (HasPrefix s "0x" || HasPrefix s "0X") &&
  allChars (fun a => bool_decide (is_Some (hex_val a))) (drop_str 2 s).

(** [parseVisibleToRawList]: the non-empty strings of an array. *)
Definition parseVisibleToRawList (v : option any) : list string :=
  match v with
  | Some (AArr l) => List.filter (fun s => negb (bool_decide (s = ""))) (omap as_str l)
  | _ => []
  end.

Section resolve.
(** [GetDIDByEthAddress] of the store, when it has one *)
Variable resolver : option (string -> result string).

Definition recipient (e : string) : option string :=
  if isValidDID e then Some e
  else match resolver with
  | Some f =>
      if isEthAddress e
      then match f (ToLower e) with Ok d => if decide (d = "") then None else Some d | Err _ => None end
      else None
  | None => None
  end.

Definition resolveVisibleToEntries (entries : list string) : list string := dedup [] (omap recipient entries).

Definition sizeRefusal : string := "visibleTo list exceeds maximum size of 32 entries".

Definition resolveTopLevelVisibleTo (topRaw : list string) : list string + string :=
  if Nat.ltb visibleToMaxSize (length topRaw) then inr sizeRefusal
  else inl (resolveVisibleToEntries topRaw).
End resolve.

Definition unionVisibleToDIDs (a b : list string) : list string :=
  match a, b with
  | _, [] => a
  | [], _ => b
  | _, _ => dedup [] (a ++ b)
  end.

(** ** Extraction *)
Definition extractAndStripTopLevelVisibleTo (body : Body) : list string * Body :=
  match bd_visibleTo body, bd_privateFor body with
  | None, None => ([], body)
  | vt, pf =>
      ((parseVisibleToRawList vt ++ parseVisibleToRawList pf)%list,
       {| bd_Method := bd_Method body; bd_Params := bd_Params body; bd_visibleTo := None;
          bd_privateFor := None |})
  end.

(** The valid identifiers of an array, without repetitions. *)
Definition paramDIDs (v : any) : list string :=
  match v with
  | AArr l => dedup [] (List.filter isValidDID (omap as_str l))
  | _ => []
  end.

(** [extractAndStripVisibleTo]: the identifiers, the parameters and the body
    without the field. *)
Definition extractAndStripVisibleTo (params : list any) (body : Body) : list string * list any * Body :=
  match params with
  | AObj txObj :: rest =>
      match txObj !! "visibleTo" with
      | None => ([], params, body)
      | Some v =>
          let params := (AObj (delete "visibleTo" txObj) :: rest)%list in
          (paramDIDs v, params, rebuildRequestBody body params)
      end
  | _ => ([], params, body)
  end.

(** [extractAndStripRawTxVisibleTo]: the second parameter is dropped whole. *)
Definition extractAndStripRawTxVisibleTo (params : list any) (body : Body) : list string * list any * Body :=
  match params with
  | p :: AObj opts :: _ =>
      match opts !! "visibleTo" with
      | None => ([], params, body)
      | Some v => (parseVisibleToRawList (Some v), [p], rebuildRequestBody body [p])
      end
  | _ => ([], params, body)
  end.

Definition visibleToFieldPresent (rawTx : bool) (params : list any) (body : Body) : bool :=
  bool_decide (is_Some (bd_visibleTo body)) || bool_decide (is_Some (bd_privateFor body)) ||
  match params !! (if rawTx then 1 else 0) with
  | Some (AObj m) => bool_decide (is_Some (m !! "visibleTo"))
  | _ => false
  end.

(** ** What the handling guarantees *)
Definition no_metadata (body : Body) : Prop :=
  bd_visibleTo body = None /\ bd_privateFor body = None /\
  forall txObj, bd_Params body !! 0 = Some (AObj txObj) -> txObj !! "visibleTo" = None.

Lemma strip_no_metadata body params topRaw body1 dids params' body' :
  bd_Params body = params ->
  extractAndStripTopLevelVisibleTo body = (topRaw, body1) ->
  extractAndStripVisibleTo params body1 = (dids, params', body') ->
  no_metadata body' /\ bd_Params body' = params' /\ bd_Method body' = bd_Method body.
Proof.
  intros Hp H1 H2. assert (Hb : bd_visibleTo body1 = None /\ bd_privateFor body1 = None /\
    bd_Params body1 = params /\ bd_Method body1 = bd_Method body).
  { unfold extractAndStripTopLevelVisibleTo in H1.
    destruct (bd_visibleTo body) eqn:?, (bd_privateFor body) eqn:?; simplify_eq/=; done. }
  destruct Hb as (Hv & Hf & Hps & Hm). unfold extractAndStripVisibleTo in H2.
  destruct params as [|[| | | | |txObj] rest]; simplify_eq/=;
    try (unfold no_metadata; rewrite Hps; split_and!; try done; intros; simplify_eq/=; done).
  destruct (txObj !! "visibleTo") eqn:E; simplify_eq/=.
  - unfold no_metadata, rebuildRequestBody. simpl. split_and!; try done. intros o [= <-]. apply lookup_delete_eq.
  - unfold no_metadata. rewrite Hps. split_and!; try done. intros o [= <-]. done.
Qed.
