(* ===== verification/Limits.v ===== *)
(** * The concurrency limiter, the circuit breaker and the rate limiter
    ([internal/server/middleware]).

    A buffered channel is the number of tokens in it.  [limiter_step] is one
    atomic channel operation of some request, so that a reachable state covers
    every interleaving of requests. *)
From S2P Require Import Prelude.
Local Open Scope string_scope.

Record ConcurrencyLimiter := {
  cl_sems : gmap string nat; cl_maxConc : Z;
  (** capacity and tokens of the shared anonymous bucket; [None] is disabled *)
  cl_anon : option (nat * nat) }.

Definition NewConcurrencyLimiter (maxConcurrent maxAnonymous : Z) : ConcurrencyLimiter :=
  {| cl_sems := ∅; cl_maxConc := maxConcurrent;
     cl_anon := if (0 <? maxAnonymous)%Z then Some (Z.to_nat maxAnonymous, 0) else None |}.

Definition set_sem (cl : ConcurrencyLimiter) (userID : string) (n : nat) : ConcurrencyLimiter :=
  {| cl_sems := <[userID := n]> (cl_sems cl); cl_maxConc := cl_maxConc cl; cl_anon := cl_anon cl |}.
Definition set_anon (cl : ConcurrencyLimiter) (a : nat * nat) : ConcurrencyLimiter :=
  {| cl_sems := cl_sems cl; cl_maxConc := cl_maxConc cl; cl_anon := Some a |}.

Definition TryAcquire (userID : string) (cl : ConcurrencyLimiter) : bool * ConcurrencyLimiter :=
  if decide (userID = "") then
    match cl_anon cl with
    | None => (true, cl)
    | Some (cap, n) => if Nat.ltb n cap then (true, set_anon cl (cap, S n)) else (false, cl)
    end
  else if (cl_maxConc cl <=? 0)%Z then (true, cl)
  else
    let n := default 0 (cl_sems cl !! userID) in
    if (Z.of_nat n <? cl_maxConc cl)%Z then (true, set_sem cl userID (S n)) else (false, set_sem cl userID n).

Definition Release (userID : string) (cl : ConcurrencyLimiter) : ConcurrencyLimiter :=
  if decide (userID = "") then
    match cl_anon cl with
    | None => cl
    | Some (cap, n) => set_anon cl (cap, n - 1)
    end
  else if (cl_maxConc cl <=? 0)%Z then cl
  else match cl_sems cl !! userID with
       | Some n => set_sem cl userID (n - 1)
       | None => cl
       end.

(** ** Circuit breaker *)
Record CircuitBreaker := { cb_tripped : gmap string Z; cb_cooldown : Z }.

Definition IsOpen (now : Z) (apiKey : string) (cb : CircuitBreaker) : bool :=
  if decide (apiKey = "") then false
  else match cb_tripped cb !! apiKey with
       | None => false
       | Some t => (now - t <? cb_cooldown cb)%Z
       end.
Definition Trip (now : Z) (apiKey : string) (cb : CircuitBreaker) : CircuitBreaker :=
  if decide (apiKey = "") then cb
  else {| cb_tripped := <[apiKey := now]> (cb_tripped cb); cb_cooldown := cb_cooldown cb |}.
Definition Reset (apiKey : string) (cb : CircuitBreaker) : CircuitBreaker :=
  if decide (apiKey = "") then cb
  else {| cb_tripped := delete apiKey (cb_tripped cb); cb_cooldown := cb_cooldown cb |}.

(** ** Requests in flight *)

(** [held u] requests of [u] hold a slot; each releases once. *)
Inductive limiter_step : ConcurrencyLimiter * gmap string nat -> ConcurrencyLimiter * gmap string nat -> Prop :=
| step_acquire u cl cl' held :
    TryAcquire u cl = (true, cl') ->
    limiter_step (cl, held) (cl', <[u := S (default 0 (held !! u))]> held)
| step_reject u cl cl' held :
    TryAcquire u cl = (false, cl') -> limiter_step (cl, held) (cl', held)
| step_release u cl held n :
    held !! u = Some (S n) -> limiter_step (cl, held) (Release u cl, <[u := n]> held).

Definition limiter_reachable (maxConcurrent maxAnonymous : Z) : ConcurrencyLimiter * gmap string nat -> Prop :=
  rtc limiter_step (NewConcurrencyLimiter maxConcurrent maxAnonymous, ∅).

(** The cap on one caller ([m] per user, [a] for all anonymous ones together)
    and the tokens they hold. *)
Definition cap (m a : Z) (u : string) : option nat :=
  let c := if decide (u = "") then a else m in if (0 <? c)%Z then Some (Z.to_nat c) else None.
Definition tokens (cl : ConcurrencyLimiter) (u : string) : nat :=
  if decide (u = "") then default 0 (snd <$> cl_anon cl) else default 0 (cl_sems cl !! u).

Definition configured (m a : Z) (cl : ConcurrencyLimiter) : Prop :=
  cl_maxConc cl = m /\ fst <$> cl_anon cl = cap m a "".

Lemma TryAcquire_spec m a u cl b cl' :
  configured m a cl -> TryAcquire u cl = (b, cl') ->
  configured m a cl' /\ (forall v, v <> u -> tokens cl' v = tokens cl v) /\
  match cap m a u with
  | None => b = true
  | Some c => b = Nat.ltb (tokens cl u) c /\ tokens cl' u = if b then S (tokens cl u) else tokens cl u
  end.
Proof.
  intros [Hm Ha] Ht. unfold TryAcquire in Ht. destruct (decide (u = "")) as [->|Hu].
  - rewrite <- Ha. unfold tokens, configured. rewrite (decide_True (P := "" = "")) by done.
    destruct (cl_anon cl) as [[c n]|] eqn:Ea; [|simplify_eq/=; by rewrite Ea].
    destruct (Nat.ltb n c) eqn:El; simplify_eq/=; rewrite ?Ea; split_and!; try done;
      intros v Hv; by rewrite !decide_False.
  - destruct (cl_maxConc cl <=? 0)%Z eqn:E0.
    + simplify_eq/=. unfold cap. rewrite decide_False by done. split_and!; [by split|done|].
      replace (0 <? cl_maxConc cl')%Z with false by lia. done.
    + unfold cap, tokens. rewrite !(decide_False (P := u = "")) by done.
      replace (0 <? m)%Z with true by lia.
      assert (Hset : forall k, configured m a (set_sem cl u k) /\
        (forall v, v <> u -> tokens (set_sem cl u k) v = tokens cl v) /\ tokens (set_sem cl u k) u = k).
      { intros k. split_and!; [by split| |]; unfold tokens; simpl.
        - intros v Hv. destruct (decide (v = "")); [done|]. by rewrite lookup_insert_ne.
        - rewrite decide_False by done. by rewrite lookup_insert_eq. }
      set (n := default 0 (cl_sems cl !! u)) in *.
      destruct (Z.of_nat n <? cl_maxConc cl)%Z eqn:El; injection Ht as <- <-.
      * destruct (Hset (S n)) as (? & ? & Hk). split_and!; [done|done| |].
        -- symmetry. apply Nat.ltb_lt. lia.
        -- unfold tokens in Hk. by rewrite decide_False in Hk.
      * destruct (Hset n) as (? & ? & Hk). split_and!; [done|done| |].
        -- symmetry. apply Nat.ltb_ge. lia.
        -- unfold tokens in Hk. by rewrite decide_False in Hk.
Qed.

Lemma Release_spec m a u cl :
  configured m a cl ->
  configured m a (Release u cl) /\ (forall v, v <> u -> tokens (Release u cl) v = tokens cl v) /\
  (is_Some (cap m a u) -> tokens (Release u cl) u = tokens cl u - 1).
Proof.
  intros [Hm Ha]. unfold Release. destruct (decide (u = "")) as [->|Hu].
  - unfold tokens, configured. rewrite <- Ha. rewrite !(decide_True (P := "" = "")) by done.
    destruct (cl_anon cl) as [[c n]|] eqn:Ea; simpl; rewrite ?Ea; split_and!; try done;
      first [by intros [? ?] | intros v Hv; by rewrite !decide_False].
  - unfold cap. rewrite decide_False by done. destruct (cl_maxConc cl <=? 0)%Z eqn:E0.
    + replace (0 <? m)%Z with false by lia. split_and!; [done|done|by intros [? ?]].
    + destruct (cl_sems cl !! u) as [n|] eqn:En; unfold tokens; simpl.
      * split_and!; [done| |].
        -- intros v Hv. destruct (decide (v = "")); [done|]. by rewrite lookup_insert_ne.
        -- intros _. rewrite !decide_False by done. by rewrite lookup_insert_eq, En.
      * split_and!; [done|done|]. intros _. rewrite !decide_False by done. by rewrite En.
Qed.

(** The tokens are the requests in flight, and within the caps. *)
Definition limiter_ok (m a : Z) (s : ConcurrencyLimiter * gmap string nat) : Prop :=
  configured m a s.1 /\
  forall u c, cap m a u = Some c -> tokens s.1 u = default 0 (s.2 !! u) /\ tokens s.1 u <= c.

Lemma limiter_ok_step m a s s' : limiter_ok m a s -> limiter_step s s' -> limiter_ok m a s'.
Proof.
  intros [Hc Hok] Hs. destruct Hs as [u cl cl' held Ht|u cl cl' held Ht|u cl held n Hh]; simpl in *.
  - destruct (TryAcquire_spec m a _ _ _ _ Hc Ht) as (Hc' & Hne & Hu). split; [done|]. simpl. intros v c Hv.
    destruct (decide (v = u)) as [->|Hvu].
    + rewrite Hv in Hu. destruct Hu as [Hl Hk]. symmetry in Hl. apply Nat.ltb_lt in Hl.
      destruct (Hok _ _ Hv) as [He _]. rewrite lookup_insert_eq, Hk. simpl. rewrite He in *. split; [done|lia].
    + rewrite lookup_insert_ne by done. rewrite Hne by done. by apply Hok.
  - destruct (TryAcquire_spec m a _ _ _ _ Hc Ht) as (Hc' & Hne & Hu). split; [done|]. simpl. intros v c Hv.
    destruct (decide (v = u)) as [->|Hvu]; [|rewrite Hne by done; by apply Hok].
    rewrite Hv in Hu. destruct Hu as [_ ->]. by apply Hok.
  - destruct (Release_spec m a u _ Hc) as (Hc' & Hne & Hu). split; [done|]. simpl. intros v c Hv.
    destruct (decide (v = u)) as [->|Hvu].
    + destruct (Hok _ _ Hv) as [He Hle]. rewrite Hh in He. simpl in He.
      rewrite lookup_insert_eq, Hu by eauto. simpl. lia.
    + rewrite lookup_insert_ne by done. rewrite Hne by done. by apply Hok.
Qed.

(** A request that gave its slot back leaves the limiter as it found it, up to
    semaphores at zero. *)
Definition same_load (cl cl' : ConcurrencyLimiter) : Prop :=
  cl_maxConc cl' = cl_maxConc cl /\ cl_anon cl' = cl_anon cl /\
  forall u, default 0 (cl_sems cl' !! u) = default 0 (cl_sems cl !! u).
#[export] Instance same_load_equiv : Equivalence same_load.
Proof.
  split; [done|intros a b (?&?&?); by split_and!|].
  intros a b c (?&?&H1) (?&?&H2). split_and!; [congruence..|]. intros u. by rewrite H2.
Qed.

Lemma sem_same_load cl u n : default 0 (cl_sems cl !! u) = n -> same_load cl (set_sem cl u n).
Proof.
  intros Hn. split_and!; [done..|]. intros v. simpl.
  destruct (decide (v = u)) as [->|]; by rewrite ?lookup_insert_eq, ?lookup_insert_ne.
Qed.

Lemma TryAcquire_rejected u cl cl' : TryAcquire u cl = (false, cl') -> same_load cl cl'.
Proof.
  unfold TryAcquire. case_decide.
  - destruct (cl_anon cl) as [[c n]|]; [|done]. destruct (Nat.ltb n c); [done|]. by intros [= <-].
  - destruct (cl_maxConc cl <=? 0)%Z; [done|]. destruct (_ <? _)%Z; [done|]. intros [= <-]. by apply sem_same_load.
Qed.

Lemma acquire_release u cl cl' : TryAcquire u cl = (true, cl') -> same_load cl (Release u cl').
Proof.
  unfold TryAcquire, Release. case_decide.
  - destruct (cl_anon cl) as [[c n]|] eqn:Ea; [|intros [= <-]; by rewrite Ea].
    destruct (Nat.ltb n c); [|done]. intros [= <-]. split_and!; simpl; [done| |done]. by rewrite Ea, Nat.sub_0_r.
  - destruct (cl_maxConc cl <=? 0)%Z eqn:E; [intros [= <-]; by rewrite E|].
    destruct (_ <? _)%Z; [|done]. intros [= <-]. simpl. rewrite E, lookup_insert_eq. simpl. rewrite Nat.sub_0_r.
    split_and!; [done..|]. intros v. simpl.
    destruct (decide (v = u)) as [->|]; by rewrite ?lookup_insert_eq, ?lookup_insert_ne.
Qed.

(** Under every interleaving of requests that take a slot, are refused
    one, or give theirs back, at most [m] requests of one user and at most [a]
    anonymous ones are in flight, a request is refused exactly when its caller
    has reached the cap, and a cap of zero or less refuses nobody. *)
Theorem limiter_caps_requests m a cl held u b cl' :
  limiter_reachable m a (cl, held) -> TryAcquire u cl = (b, cl') ->
  match cap m a u with
  | Some c => default 0 (held !! u) <= c /\ (b = false <-> default 0 (held !! u) = c)
  | None => b = true
  end.
Proof.
  intros Hr Ht. assert (Hok : limiter_ok m a (cl, held)).
  { unfold limiter_reachable in Hr. remember (NewConcurrencyLimiter m a, (∅ : gmap string nat)) as s0 eqn:E0.
    assert (H0 : limiter_ok m a s0).
    { subst s0. unfold NewConcurrencyLimiter, limiter_ok, configured, cap, tokens. simpl. split.
      - split; [done|]. by destruct (0 <? a)%Z.
      - intros v c. rewrite lookup_empty. destruct (decide (v = "")); [destruct (0 <? a)%Z|]; simpl;
          intros; split; try done; lia. }
    clear E0. revert H0. induction Hr as [|x y z Hs _ IH]; [done|]. intros H0. by eapply IH, limiter_ok_step. }
  destruct Hok as [Hc Hok]. destruct (TryAcquire_spec m a _ _ _ _ Hc Ht) as (_ & _ & Hu).
  destruct (cap m a u) as [c|] eqn:Ec; [|done]. destruct Hu as [-> _].
  destruct (Hok _ _ Ec) as [He Hle]. simpl in *. rewrite <- He. split; [done|]. rewrite Nat.ltb_ge. lia.
Qed.

(** ** The rate limiter ([internal/server/middleware/ratelimit.go]).

    Times are nanoseconds; a day starts at midnight UTC.  Every operation holds
    the mutex, so a run is a sequence of operations at non-decreasing times. *)
Local Open Scope Z_scope.

Definition second : Z := 10 ^ 9.
Definition day : Z := 86400 * second.
Definition windowSize : Z := second.
Definition startOfDay (t : Z) : Z := t - t mod day.

Record dailyCounter := { dc_count : nat; dc_day : Z }.
Record RateLimiter := { rl_rpsWindows : gmap string (list Z); rl_dailyCounts : gmap string dailyCounter }.
Definition NewRateLimiter : RateLimiter := {| rl_rpsWindows := ∅; rl_dailyCounts := ∅ |}.

Definition RateLimitPerSecond : string := "rate limit exceeded (requests per second)".
Definition RateLimitDaily : string := "rate limit exceeded (daily limit)".

Definition after (cutoff : Z) (ts : list Z) : list Z := List.filter (fun t => cutoff <? t) ts.

Definition checkRPSLocked (userID : string) (limit now : Z) (rl : RateLimiter) : bool :=
  match rl_rpsWindows rl !! userID with
  | None => true
  | Some ts => Z.of_nat (length (after (now - windowSize) ts)) <? limit
  end.

Definition checkDailyLocked (userID : string) (limit now : Z) (rl : RateLimiter) : bool :=
  match rl_dailyCounts rl !! userID with
  | None => true
  | Some c => if decide (dc_day c = startOfDay now) then Z.of_nat (dc_count c) <? limit else true
  end.

Definition incrementCountersLocked (userID : string) (now : Z) (rl : RateLimiter) : RateLimiter :=
  let today := startOfDay now in
  let count := match rl_dailyCounts rl !! userID with
               | Some c => if decide (dc_day c = today) then dc_count c else 0%nat
               | None => 0%nat
               end in
  {| rl_rpsWindows := <[userID := (default [] (rl_rpsWindows rl !! userID) ++ [now])%list]> (rl_rpsWindows rl);
     rl_dailyCounts := <[userID := {| dc_count := S count; dc_day := today |}]> (rl_dailyCounts rl) |}.

(** A limit is checked when it is set and positive. *)
Definition exceeds (limit : option Z) (check : Z -> bool) : bool :=
  match limit with Some l => (0 <? l) && negb (check l) | None => false end.

Definition CheckAndIncrement (userID : string) (rpsLimit dailyLimit : option Z) (now : Z) (rl : RateLimiter)
  : (bool * string) * RateLimiter :=
  if exceeds rpsLimit (fun l => checkRPSLocked userID l now rl) then ((false, RateLimitPerSecond), rl)
  else if exceeds dailyLimit (fun l => checkDailyLocked userID l now rl) then ((false, RateLimitDaily), rl)
  else ((true, ""), incrementCountersLocked userID now rl).

(** [doCleanup]: two windows of timestamps, today's and yesterday's counters. *)
Definition doCleanup (now : Z) (rl : RateLimiter) : RateLimiter :=
  {| rl_rpsWindows := filter (fun e => e.2 <> []) (after (now - windowSize * 2) <$> rl_rpsWindows rl);
     rl_dailyCounts := filter (fun e => startOfDay now - day <= dc_day e.2) (rl_dailyCounts rl) |}.

(** ** The history it summarises *)

(** The admitted requests, most recent last. *)
Definition history : Type := list (string * Z).
Definition timesOf (u : string) (h : history) : list Z := map snd (List.filter (fun e => bool_decide (e.1 = u)) h).
Definition inWindow (u : string) (now : Z) (h : history) : nat := length (after (now - windowSize) (timesOf u h)).
Definition onDay (u : string) (now : Z) (h : history) : nat :=
  length (List.filter (fun t => startOfDay t =? startOfDay now) (timesOf u h)).

(** What the limits say of a history. *)
Definition within (limit : option Z) (n : nat) : bool :=
  match limit with Some l => negb (0 <? l) || (Z.of_nat n <? l) | None => true end.
Definition admits (u : string) (rps daily : option Z) (now : Z) (h : history) : bool :=
  within rps (inWindow u now h) && within daily (onDay u now h).

Inductive rate_step : Z * RateLimiter * history -> Z * RateLimiter * history -> Prop :=
| rate_request now now' u rps daily rl h ok rl' :
    now <= now' -> CheckAndIncrement u rps daily now' rl = (ok, rl') ->
    rate_step (now, rl, h) (now', rl', if fst ok then (h ++ [(u, now')])%list else h)
| rate_cleanup now now' rl h : now <= now' -> rate_step (now, rl, h) (now', doCleanup now' rl, h).
Definition rate_reachable (s : Z * RateLimiter * history) : Prop := exists t0, rtc rate_step (t0, NewRateLimiter, []) s.

Definition counted (u : string) (t : Z) (rl : RateLimiter) : nat :=
  match rl_dailyCounts rl !! u with
  | Some c => if decide (dc_day c = startOfDay t) then dc_count c else 0%nat
  | None => 0%nat
  end.

(** The windows keep what the last two windows hold, the counters what the day
    holds. *)
Record summarises (now : Z) (rl : RateLimiter) (h : history) : Prop := {
  su_past : forall e, e ∈ h -> e.2 <= now;
  su_window : forall u cutoff, now - windowSize * 2 <= cutoff ->
    after cutoff (default [] (rl_rpsWindows rl !! u)) = after cutoff (timesOf u h);
  su_daily : forall u t, now <= t -> onDay u t h = counted u t rl }.

Lemma timesOf_app u h h' : timesOf u (h ++ h')%list = (timesOf u h ++ timesOf u h')%list.
Proof. unfold timesOf. by rewrite List.filter_app, map_app. Qed.
Lemma timesOf_one u v t : timesOf u [(v, t)] = if decide (v = u) then [t] else [].
Proof. unfold timesOf. simpl. case_bool_decide; by case_decide. Qed.
Lemma after_app c l l' : after c (l ++ l')%list = (after c l ++ after c l')%list.
Proof. apply List.filter_app. Qed.
Lemma after_after c c' l : c' <= c -> after c (after c' l) = after c l.
Proof.
  intros Hc. unfold after. induction l as [|t l IH]; [done|]. simpl. destruct (c' <? t) eqn:E'; simpl.
  - by rewrite IH.
  - destruct (c <? t) eqn:E; [lia|done].
Qed.
Lemma startOfDay_mono a b : a <= b -> startOfDay a <= startOfDay b.
Proof.
  intros H. unfold startOfDay. assert (Hd : 0 < day) by (vm_compute; reflexivity).
  pose proof (Z.div_mod a day ltac:(lia)). pose proof (Z.div_mod b day ltac:(lia)).
  pose proof (Z.div_le_mono a b day Hd H). nia.
Qed.
Lemma startOfDay_le t : startOfDay t <= t < startOfDay t + day.
Proof.
  unfold startOfDay. assert (Hd : 0 < day) by (vm_compute; reflexivity).
  pose proof (Z.mod_pos_bound t day Hd). lia.
Qed.
Lemma onDay_app u t h h' : onDay u t (h ++ h')%list = (onDay u t h + onDay u t h')%nat.
Proof. unfold onDay. by rewrite timesOf_app, List.filter_app, length_app. Qed.

Lemma onDay_one u t v t' : onDay u t [(v, t')] = if decide (v = u /\ startOfDay t' = startOfDay t) then 1%nat else 0%nat.
Proof.
  unfold onDay. rewrite timesOf_one. destruct (decide (v = u)); simpl.
  - destruct (Z.eqb_spec (startOfDay t') (startOfDay t)); simpl; case_decide; naive_solver.
  - case_decide; naive_solver.
Qed.

(** No admitted request lies in a later day. *)
Lemma onDay_future u now t h :
  (forall e, e ∈ h -> e.2 <= now) -> startOfDay now < startOfDay t -> onDay u t h = 0%nat.
Proof.
  intros Hp Ht. unfold onDay, timesOf. induction h as [|[v t'] h IH]; [done|]. simpl.
  assert (Hle : t' <= now) by (apply (Hp (v, t')); by left). apply startOfDay_mono in Hle.
  assert (IH' := IH (fun e He => Hp e (list_elem_of_further _ _ _ He))).
  case_bool_decide; simpl; [|done]. destruct (startOfDay t' =? startOfDay t) eqn:E; [lia|done].
Qed.

Lemma summarises_later now now' rl h : now <= now' -> summarises now rl h -> summarises now' rl h.
Proof.
  intros Hle [H1 H2 H3]. split; [|intros; apply H2; lia|intros; apply H3; lia].
  intros e He. specialize (H1 e He). lia.
Qed.

Lemma summarises_increment now u rl h :
  summarises now rl h -> summarises now (incrementCountersLocked u now rl) (h ++ [(u, now)])%list.
Proof.
  intros [H1 H2 H3]. split.
  - intros e [He| ->%list_elem_of_singleton]%elem_of_app; [by apply H1|done].
  - intros v cutoff Hc. rewrite timesOf_app, timesOf_one, after_app. simpl.
    destruct (decide (u = v)) as [->|Hne].
    + rewrite lookup_insert_eq. simpl. rewrite after_app. by rewrite H2.
    + rewrite lookup_insert_ne by done. rewrite app_nil_r. by apply H2.
  - intros v t Ht. rewrite onDay_app, onDay_one. unfold counted. simpl. destruct (decide (u = v)) as [->|Hne].
    + rewrite lookup_insert_eq. simpl. destruct (decide (startOfDay now = startOfDay t)) as [E|E].
      * rewrite decide_True by done. rewrite (H3 v t Ht). unfold counted. rewrite <- E. lia.
      * rewrite decide_False by naive_solver. rewrite (onDay_future v now t h); [done|done|].
        apply startOfDay_mono in Ht. lia.
    + rewrite lookup_insert_ne by done. rewrite decide_False by naive_solver. rewrite Nat.add_0_r. by apply H3.
Qed.

Lemma summarises_cleanup now rl h : summarises now rl h -> summarises now (doCleanup now rl) h.
Proof.
  intros [H1 H2 H3]. split; [done| |].
  - intros u cutoff Hc. rewrite <- H2 by done. simpl. rewrite map_lookup_filter, lookup_fmap.
    destruct (rl_rpsWindows rl !! u) as [ts|]; simpl; [|done].
    destruct (decide (after (now - windowSize * 2) ts = [])) as [E|E].
    + rewrite option_guard_False by naive_solver. simpl. rewrite <- (after_after cutoff _ ts Hc), E. done.
    + rewrite option_guard_True by done. simpl. by apply after_after.
  - intros u t Ht. rewrite H3 by done. unfold counted. simpl. rewrite map_lookup_filter.
    destruct (rl_dailyCounts rl !! u) as [c|]; simpl; [|done].
    destruct (decide (startOfDay now - day <= dc_day c)).
    + by rewrite option_guard_True.
    + rewrite option_guard_False by done. case_decide as E; [|done]. exfalso.
      apply startOfDay_mono in Ht. assert (0 < day) by (vm_compute; reflexivity). lia.
Qed.

Lemma CheckAndIncrement_admits u rps daily now rl h ok msg rl' :
  summarises now rl h -> CheckAndIncrement u rps daily now rl = ((ok, msg), rl') ->
  ok = admits u rps daily now h /\ (if ok then rl' = incrementCountersLocked u now rl else rl' = rl).
Proof.
  intros [_ H2 H3] H. unfold CheckAndIncrement in H. assert (0 < windowSize) by (vm_compute; reflexivity).
  assert (Hw : forall limit, exceeds limit (fun l => checkRPSLocked u l now rl) = negb (within limit (inWindow u now h))).
  { intros [l|]; [|done]. unfold exceeds, within, checkRPSLocked, inWindow. rewrite <- H2 by lia.
    destruct (rl_rpsWindows rl !! u); cbn [from_option id after List.filter length Z.of_nat];
      change (Z.of_nat 0) with 0; destruct (0 <? l) eqn:E; cbn [andb orb negb]; rewrite ?E; done. }
  assert (Hd : forall limit, exceeds limit (fun l => checkDailyLocked u l now rl) = negb (within limit (onDay u now h))).
  { intros [l|]; [|done]. unfold exceeds, within, checkDailyLocked. rewrite (H3 u now) by lia. unfold counted.
    destruct (rl_dailyCounts rl !! u); [case_decide|]; cbn [Z.of_nat];
      change (Z.of_nat 0) with 0; destruct (0 <? l) eqn:E; cbn [andb orb negb]; rewrite ?E; done. }
  rewrite Hw, Hd in H. unfold admits. destruct (within rps _); simpl in *; [|by simplify_eq].
  destruct (within daily _); by simplify_eq/=.
Qed.

(** The rate limiter forgets nothing that matters.  After any sequence
    of requests and cleanups at non-decreasing times, a request is admitted
    exactly when the requests admitted to its caller in the last second are
    below the per-second limit and those admitted since midnight are below the
    daily one (a limit that is absent or not positive does not count). *)
Theorem rate_limiter_is_exact now rl h u rps daily now' ok msg rl' :
  rate_reachable (now, rl, h) -> now <= now' -> CheckAndIncrement u rps daily now' rl = ((ok, msg), rl') ->
  ok = admits u rps daily now' h.
Proof.
  intros [t0 Hr] Hle Hc. assert (Hs : summarises now rl h).
  { remember (t0, NewRateLimiter, []) as s0 eqn:E0. remember (now, rl, h) as s1 eqn:E1.
    assert (H0 : summarises s0.1.1 s0.1.2 s0.2).
    { subst s0. split; simpl; [intros e He; by apply elem_of_nil in He|done|done]. }
    enough (summarises s1.1.1 s1.1.2 s1.2) by (by subst s1). clear E0 E1 Hc Hle.
    induction Hr as [|x y z Hstep _ IH]; [done|]. apply IH. clear IH.
    destruct Hstep as [t t' v r d rl1 h1 [ok1 m1] rl2 Hle Hci|t t' rl1 h1 Hle]; simpl in *;
      apply (summarises_later _ _ _ _ Hle) in H0; [|by apply summarises_cleanup].
    apply (CheckAndIncrement_admits _ _ _ _ _ _ _ _ _ H0) in Hci as [_ Hci].
    destruct ok1; subst rl2; [by apply summarises_increment|done]. }
  apply (summarises_later _ _ _ _ Hle) in Hs. by apply (CheckAndIncrement_admits _ _ _ _ _ _ _ _ _ Hs) in Hc as [-> _].
Qed.
