(* ===== verification/Answers.v ===== *)
(** * From the node's answer to the caller's: [applyResponseFilter] of
    [jsonrpc_processor.go] and [viewer_org_scope.go].

    [ViewerFacts] is what the dispatcher looks up about the viewer besides the
    linked addresses (permissions, visibility lists, administered contracts,
    ABIs, the log renderer); the filters it calls are those of
    [ResponseFilter.v]. *)
From S2P Require Import Prelude GoStrings Methods Models Requests Json ReadDecision EventFilter ResponseFilter.
Local Open Scope string_scope.

Definition MethodGetTransactionByHash : string := "eth_getTransactionByHash".
Definition MethodGetTransactionReceipt : string := "eth_getTransactionReceipt".
Definition MethodGetLogs : string := "eth_getLogs".
Definition MethodGetTransactionByBlockHashAndIndex : string := "eth_getTransactionByBlockHashAndIndex".
Definition MethodGetTransactionByBlockNumberAndIndex : string := "eth_getTransactionByBlockNumberAndIndex".
Definition MethodGetBlockByHash : string := "eth_getBlockByHash".
Definition MethodGetBlockByNumber : string := "eth_getBlockByNumber".
Definition MethodGetBlockReceipts : string := "eth_getBlockReceipts".

Class ViewerFacts := {
  (** permissions of the caller, for the organization of the access result *)
  resolvePermsForFilter : AccessCheckResult -> option EffectivePermissions;
  standardTxVisibilityContext : string -> option raw -> option TxVisibilityContext;
  (** the contracts of the response the viewer (an internal id) administers *)
  viewerAdminContracts : string -> option raw -> gset string;
  isResponseTxVisibleTo : string -> option raw -> bool;
  buildParticipantTxHashes : list string -> option raw -> gset string;
  contractABIProvider : option ABIProvider;
  logFieldRenderer : string -> option (list AdmittedLog -> list raw) }.

(** go-ethereum: contract addresses, quantities and the address syntax *)
Class GoEthereum := {
  CreateAddress : string -> Z -> string;
  DecodeUint64 : string -> option Z;
  isHexAddress : string -> bool }.

Section answers.
Context `{HS : Store} `{HE : EventABI} `{HV : ViewerFacts} `{HG : GoEthereum}.
Variable reg : Registries.
Variable ctx : Ctx.
Variable rng : nat -> nat -> order.
Variable profile : ReadProfile.

Definition isAny (m : string) (l : list string) : bool := existsb (EqualFold m) l.

(** [params[1]] of a block query, when it is a boolean *)
Definition wantsFull (params : list any) : bool :=
  match params !! 1 with Some (ABool b) => b | _ => false end.

(** An error of the address lookup leaves no address. *)
Definition linkedOrNone (userID : string) : list string :=
  match GetLinkedEthAddresses userID with Ok addrs => addrs | Err _ => [] end.

Definition withParticipants (userID : string) (hashes : gset string) (visCtx : option TxVisibilityContext)
  : option TxVisibilityContext :=
  if decide (hashes = ∅) then visCtx
  else Some (match visCtx with
       | Some v => {| tv_ViewerDID := tv_ViewerDID v; tv_TxVisibility := tv_TxVisibility v;
                      tv_UnlockableContracts := tv_UnlockableContracts v; tv_ParticipantTxHashes := hashes |}
       | None => {| tv_ViewerDID := userID; tv_TxVisibility := ∅; tv_UnlockableContracts := ∅;
                    tv_ParticipantTxHashes := hashes |}
       end).

(** [Err] is a panic of the log engine. *)
Definition applyResponseFilter (userID method : string) (params : list any) (res : AccessCheckResult)
  (body : option raw) : result (option raw) :=
  let m := ResolveMethodAlias reg method in
  let adminMap := viewerAdminContracts (rs_UserID res) body in
  if isAny m [MethodGetTransactionByHash; MethodGetTransactionByBlockHashAndIndex;
              MethodGetTransactionByBlockNumberAndIndex] then
    let isAdminOnTo := negb (Strict profile) && negb (bool_decide (adminMap = ∅)) in
    Ok (Some (FilterTransactionByHash profile body (linkedOrNone userID) isAdminOnTo
                (Some (isResponseTxVisibleTo userID body))))
  else if isAny m [MethodGetTransactionReceipt] then
    Some <$> filterReceiptLogsWithEventRules rng profile (linkedOrNone userID) (resolvePermsForFilter res)
      contractABIProvider (standardTxVisibilityContext userID body) adminMap (logFieldRenderer userID) body
  else if isAny m [MethodGetLogs] then
    match GetLinkedEthAddresses userID with
    | Err _ => Ok (Some (emptyLogsResponse body))
    | Ok addrs =>
        let visCtx := standardTxVisibilityContext userID body in
        let visCtx := if Strict profile then visCtx
                      else withParticipants userID (buildParticipantTxHashes addrs body) visCtx in
        Some <$> filterLogsWithEventRules rng profile addrs (resolvePermsForFilter res)
          contractABIProvider visCtx adminMap (logFieldRenderer userID) body
    end
  else if isAny m [MethodGetBlockByHash; MethodGetBlockByNumber] then
    Ok (Some (FilterBlockTransactions profile body (linkedOrNone userID) (wantsFull params)))
  else if isAny m ["eth_getBlockTransactionCountByHash"; "eth_getBlockTransactionCountByNumber"] then
    Ok (Some (FilterBlockTransactionCount body (linkedOrNone userID)))
  else if isAny m [MethodGetBlockReceipts] then
    Some <$> FilterBlockReceipts rng profile (linkedOrNone userID) (resolvePermsForFilter res)
      contractABIProvider (standardTxVisibilityContext userID body) adminMap (logFieldRenderer userID) body
  else Ok body.

(** ** View-as scope *)

(** A target of the object, and its owner within the scope. *)
Definition ownedElsewhere (scope addr : string) : bool :=
  if decide (addr = "") then false
  else match GetContractOwnerOrgID (ToLower addr) with
  | Err _ => true
  | Ok owner => negb (bool_decide (owner = "")) && (bool_decide (scope = "") || negb (bool_decide (owner = scope)))
  end.

(** A [*string] member; [None] outside is a type error. *)
Definition member_strptr (name : string) (v : raw) : option (option string) :=
  vs ← members name v;
  decode_fold (fun w _ => match w with RNull => Some None | RStr s => Some (Some s) | _ => None end) vs None.

(** The contract a creating transaction makes; [None] when it cannot be told. *)
Definition createdBy (method from : string) (to nonce : option string) : option (list string) :=
  if decide (ResolveMethodAlias reg method = MethodGetTransactionReceipt) then Some []
  else if decide (default "" to <> "") then Some []
  else
    nonce ← nonce;
    n ← DecodeUint64 nonce;
    if isHexAddress from then Some [ToLower (CreateAddress from n)] else None.

Definition scopedMethods : list string :=
  [MethodGetTransactionByHash; MethodGetTransactionReceipt; MethodGetTransactionByBlockHashAndIndex;
   MethodGetTransactionByBlockNumberAndIndex].

Definition applyViewerOrgScopeEnvelope (method : string) (body : option raw) : option raw :=
  match ctx_viewscope ctx with
  | None => body
  | Some scope =>
      if negb (contains scopedMethods (ResolveMethodAlias reg method)) then body
      else
        let refuse := Some (nullResult body) in
        match (v ← body; result ← member_raw "result" v; _ ← member_raw "error" v; Some result) with
        | None => refuse
        | Some None | Some (Some RNull) => body
        | Some (Some obj) =>
            match (from ← member_str "from" obj; to ← member_strptr "to" obj;
                   contract ← member_strptr "contractAddress" obj; nonce ← member_strptr "nonce" obj;
                   created ← createdBy method from to nonce;
                   Some ([default "" to; default "" contract] ++ created)%list) with
            | None => refuse
            | Some targets => if existsb (ownedElsewhere scope) targets then refuse else body
            end
        end
  end.
End answers.
