(* ===== verification/Viewer.v ===== *)
(** * What the answer filters know about the viewer:
    [internal/server/processor_event_rules.go], the lookups of
    [internal/server/viewer_org_scope.go] and [internal/rbac/visibleto_unlock.go].

    [Answers.v] takes these facts as the class [ViewerFacts]; [viewerFacts] in
    [ViewerProps.v] is its instance.  [order] enumerates a Go map.  [byHash] is
    the node's answer to a batch of transaction queries. *)
From S2P Require Import Prelude GoStrings Methods Models OrgContext Access Json ReadDecision EventFilter TraceGate.
Local Open Scope string_scope.

(** ** Slices of structs
    As for strings in [Json.v], an element is decoded over what the backing
    array has at its place. *)
Fixpoint decode_elemsOf {A} (zero : A) (f : raw -> A -> option A) (l : list raw) (backing : list A)
  : option (list A) :=
  match l with
  | [] => Some []
  | v :: l => x ← f v (default zero (head backing)); rest ← decode_elemsOf zero f l (tail backing); Some (x :: rest)
  end.
Definition decode_slice {A} (zero : A) (f : raw -> A -> option A) (v : raw) (cur : list A * nat)
  : option (list A * nat) :=
  match v with
  | RNull | RArr [] => Some ([], 0)
  | RArr l => elems ← decode_elemsOf zero f l cur.1; Some ((elems ++ drop (length l) cur.1)%list, length l)
  | _ => None
  end.
Definition decode_array {A} (zero : A) (f : raw -> A -> option A) (v : raw) : option (list A) :=
  '(backing, n) ← decode_slice zero f v ([], 0); Some (take n backing).
(** the elements of a slice a struct already has *)
Definition field_slice {A} (zero : A) (f : raw -> A -> option A) (name : string) (v : raw) (cur : list A * nat)
  : option (list A * nat) :=
  vs ← members name v; decode_fold (decode_slice zero f) vs cur.

(** ** Transactions and contracts of an answer *)
Definition resultOf (body : option raw) : option raw := v ← body; r ← member_raw "result" v; r.

(** What is added to the Go set: the lower-case names, the empty one left out. *)
Definition lowered (l : list string) : gset string := list_to_set (List.filter (fun s => negb (bool_decide (s = ""))) (ToLower <$> l)).

(** [null] elements and absent members are the zero struct. *)
Definition logHash (v : raw) (cur : string) : option string := field_str "transactionHash" v cur.
Definition hashesOf (r : raw) : list string :=
  (default [] (decode_array "" logHash r) ++
   default [] (h ← member_str "transactionHash" r;
               '(b, n) ← field_slice "" logHash "logs" r ([], 0); Some (h :: take n b)) ++
   default [] (h ← member_str "hash" r; Some [h]))%list.
Definition txHashesIn (body : option raw) : gset string :=
  match resultOf body with None => ∅ | Some r => lowered (hashesOf r) end.

Definition logAddress (v : raw) (cur : string) : option string := field_str "address" v cur.
(** [To] and the slice [Logs], with its backing array *)
Definition receiptAddresses (v : raw) (cur : string * (list string * nat)) : option (string * (list string * nat)) :=
  to ← field_str "to" v cur.1; logs ← field_slice "" logAddress "logs" v cur.2; Some (to, logs).
Definition addressesOfReceipt (x : string * (list string * nat)) : list string := x.1 :: take x.2.2 x.2.1.
Definition noAddresses : string * (list string * nat) := ("", ([], 0)).
Definition addressesOf (r : raw) : list string :=
  (default [] (decode_array "" logAddress r) ++
   default [] (addressesOfReceipt <$> receiptAddresses r noAddresses) ++
   default [] ((fun l => concat (map addressesOfReceipt l)) <$> decode_array noAddresses receiptAddresses r) ++
   default [] (to ← member_str "to" r; Some [to]))%list.
Definition contractsIn (body : option raw) : gset string :=
  match resultOf body with None => ∅ | Some r => lowered (addressesOf r) end.

(** ** visibleTo shares *)
Record TxVisibilityProvider := {
  GetBatchTxVisibility : list string -> result (gmap string (list string));
  (** [None] when the store does not implement it *)
  GetBatchTxVisibilityInOrg : option (list string -> string -> result (gmap string (list string))) }.

(** The table [tx_visible_to], keyed by the hash. *)
Record TxVisibleTo := { tt_TxHash : string; tt_OrgID : string; tt_DIDs : list string }.
Definition batchTxVisibility (fault : option string) (rows : list TxVisibleTo) (txHashes : list string)
  (keep : TxVisibleTo -> bool) : result (gmap string (list string)) :=
  match txHashes with
  | [] => Ok ∅
  | _ =>
      match fault with
      | Some e => Err ("failed to batch get tx visibility: " +:+ e)
      | None => Ok (foldl (fun m t => <[tt_TxHash t := tt_DIDs t]> m) ∅
                      (List.filter (fun t => contains (ToLower <$> txHashes) (tt_TxHash t) && keep t) rows))
      end
  end.
Definition dbTxVisibility (fault : option string) (rows : list TxVisibleTo) : TxVisibilityProvider := {|
  GetBatchTxVisibility txHashes := batchTxVisibility fault rows txHashes (fun _ => true);
  GetBatchTxVisibilityInOrg := Some (fun txHashes orgID =>
    if decide (orgID = "") then Ok ∅
    else batchTxVisibility fault rows txHashes (fun t => bool_decide (tt_OrgID t = orgID))) |}.

Section viewer.
Context `{HS : Store} `{HP : PermissionSource}.
Variable ctx : Ctx.
Variable order : gset string -> list string.
Variable strict : bool.
Variable txVisibilityStore : option TxVisibilityProvider.
Variable byHash : list string -> result (option raw).

Definition extractTxHashesFromResponse (body : option raw) : list string := order (txHashesIn body).
Definition extractContractAddressesFromResponse (body : option raw) : list string := order (contractsIn body).

(** ** Organizations of the viewer *)
Definition GetUserOrgIDList (userID : string) : result (list string) :=
  memberships ← ListActiveUserMembershipsWithDetails userID;
  Ok (dedup [] (omap (fun m => g_OrgID <$> md_Group m) memberships)).

Definition restrictToViewerOrgScope (orgIDs : list string) : list string :=
  match ctx_viewscope ctx with
  | None => orgIDs
  | Some scope => if negb (bool_decide (scope = "")) && contains orgIDs scope then [scope] else []
  end.

(** ** Permissions across organizations
    The entries of [perms] the merged object does not have. *)
Definition set_ContractAccess (p : EffectivePermissions) (m : gmap string ContractAccess) : EffectivePermissions :=
  {| ep_ID := ep_ID p; ep_UserID := ep_UserID p; ep_OrgID := ep_OrgID p; ep_AllowedMethods := ep_AllowedMethods p;
     ep_ContractAccess := m; ep_Claims := ep_Claims p; ep_RPCAPIKey := ep_RPCAPIKey p;
     ep_ComputedAt := ep_ComputedAt p; ep_ExpiresAt := ep_ExpiresAt p |}.
Definition mergeOrgAccess (merged perms : EffectivePermissions) : EffectivePermissions :=
  set_ContractAccess merged
    (foldl (fun m kv => match m !! kv.1 with Some _ => m | None => <[kv.1 := kv.2]> m end)
       (ep_ContractAccess merged) (map_to_list (ep_ContractAccess perms))).

Fixpoint mergeOrgs (resolve : string -> result EffectivePermissions) (orgIDs : list string)
  (merged : option EffectivePermissions) : option EffectivePermissions :=
  match orgIDs with
  | [] => merged
  | orgID :: orgIDs =>
      mergeOrgs resolve orgIDs
        match resolve orgID with
        | Err _ => merged
        | Ok perms => Some (match merged with None => perms | Some m => mergeOrgAccess m perms end)
        end
  end.

(** The same over the objects the resolver hands out: the merged object is the
    one of the first organization, written in place. *)
Notation Heap := (gmap positive EffectivePermissions).
Definition mergeAt (m p : positive) (h : Heap) : Heap :=
  match h !! m, h !! p with Some merged, Some perms => <[m := mergeOrgAccess merged perms]> h | _, _ => h end.
Fixpoint mergeShared (resolve : string -> result positive) (orgIDs : list string) (merged : option positive) (h : Heap)
  : option positive * Heap :=
  match orgIDs with
  | [] => (merged, h)
  | orgID :: orgIDs =>
      match resolve orgID, merged with
      | Err _, _ => mergeShared resolve orgIDs merged h
      | Ok p, None => mergeShared resolve orgIDs (Some p) h
      | Ok p, Some m => mergeShared resolve orgIDs (Some m) (mergeAt m p h)
      end
  end.

Definition resolvePermsForFilter (res : AccessCheckResult) : option EffectivePermissions :=
  if decide (rs_UserID res = "") then None
  else match GetUserOrgIDList (rs_UserID res) with
  | Err _ => None
  | Ok orgIDs => mergeOrgs (GetEffectivePermissionsByIDs (rs_UserID res)) (restrictToViewerOrgScope orgIDs) None
  end.

(** ** Administered contracts *)
Definition AdminState : Type := gmap string (option EffectivePermissions) * gset string.
Definition adminStep (userID : string) (orgIDs : list string) (st : AdminState) (addr : string) : AdminState :=
  let '(permsByOrg, out) := st in
  match GetContractOwnerOrgID addr with
  | Err _ => st
  | Ok owner =>
      if decide (owner = "") then st
      else if negb (contains orgIDs owner) then st
      else
        let judge (perms : option EffectivePermissions) :=
          match perms with
          | Some p => if HasContractClaim p addr ClaimAdmin then {[addr]} ∪ out else out
          | None => out
          end in
        match permsByOrg !! owner with
        | Some perms => (permsByOrg, judge perms)
        | None =>
            match GetEffectivePermissionsByIDs userID owner with
            | Err _ => (<[owner := None]> permsByOrg, out)
            | Ok p => (<[owner := Some p]> permsByOrg, judge (Some p))
            end
        end
  end.

Definition viewerAdminContracts (userID : string) (contractAddrs : list string) : gset string :=
  if decide (userID = "") then ∅
  else
    let unique := dedup [] (ToLower <$> List.filter (fun a => negb (bool_decide (a = ""))) contractAddrs) in
    match unique with
    | [] => ∅
    | _ =>
        match GetUserOrgIDList userID with
        | Err _ => ∅
        | Ok orgIDs => (foldl (adminStep userID (restrictToViewerOrgScope orgIDs)) (∅, ∅) unique).2
        end
    end.

(** ** The unlock of a contract's events *)
Record unlockEligibility := { ue_orgAdmin : bool; ue_grantedContractIDs : gset string }.
Definition noEligibility : unlockEligibility := {| ue_orgAdmin := false; ue_grantedContractIDs := ∅ |}.
Definition unlockCovers (e : unlockEligibility) (c : Contract) : bool :=
  ue_orgAdmin e || bool_decide (c_ID c ∈ ue_grantedContractIDs e).

(** The groups that count, [None] when one of them administers the organization. *)
Fixpoint eligibleGroups (orgID : string) (ms : list MembershipWithDetails) (groupIDs : list string)
  : option (list string) :=
  match ms with
  | [] => Some groupIDs
  | m :: ms =>
      match md_Group m with
      | None => eligibleGroups orgID ms groupIDs
      | Some g =>
          if decide (g_OrgID g <> orgID) then eligibleGroups orgID ms groupIDs
          else if g_IsOrgAdmin g then None
          else if g_IsSystem g || bool_decide (g_ID g = DefaultGroupID) then eligibleGroups orgID ms groupIDs
          else eligibleGroups orgID ms (groupIDs ++ [g_ID g])%list
      end
  end.

Definition loadUnlockEligibility (userID orgID : string) : unlockEligibility :=
  match ListUserMembershipsInOrg userID orgID with
  | Err _ => noEligibility
  | Ok ms =>
      match eligibleGroups orgID ms [] with
      | None => {| ue_orgAdmin := true; ue_grantedContractIDs := ∅ |}
      | Some [] => noEligibility
      | Some groupIDs =>
          match ListContractGrantsBatch groupIDs with
          | Err _ => noEligibility
          | Ok grants =>
              {| ue_orgAdmin := false;
                 ue_grantedContractIDs := list_to_set
                   (concat (map (fun gid => List.filter (fun id => negb (bool_decide (id = "")))
                                              (cg_ContractID <$> default [] (grants !! gid))) groupIDs)) |}
          end
      end
  end.

Definition outOfScope (c : Contract) : bool :=
  match ctx_viewscope ctx with Some scope => negb (bool_decide (c_OrgID c = scope)) | None => false end.

Definition flaggedContract (addr : string) : option Contract :=
  match GetContractByAddressGlobal addr with
  | Ok (Some c) =>
      if negb (c_AllowVisibleToUnlock c) || bool_decide (c_OrgID c = "") || outOfScope c then None else Some c
  | _ => None
  end.

Definition unlockStep (userID : string) (st : gmap string unlockEligibility * gset string)
  (ac : string * Contract) : gmap string unlockEligibility * gset string :=
  let '(byOrg, out) := st in
  let '(addr, c) := ac in
  let '(e, byOrg) := match byOrg !! c_OrgID c with
    | Some e => (e, byOrg)
    | None => let e := loadUnlockEligibility userID (c_OrgID c) in (e, <[c_OrgID c := e]> byOrg)
    end in
  (byOrg, if unlockCovers e c then {[addr]} ∪ out else out).

Definition UnlockableContracts (viewerDID : string) (contractAddrs : list string) : gset string :=
  if decide (viewerDID = "") then ∅
  else if decide (ctx_viewscope ctx = Some "") then ∅
  else
    let addrs := dedup [] (List.filter (fun a => negb (bool_decide (a = ""))) (ToLower <$> contractAddrs)) in
    let flagged : gset string := list_to_set (List.filter (fun a => bool_decide (is_Some (flaggedContract a))) addrs) in
    if decide (flagged = ∅) then ∅
    else match GetUserByExternalID viewerDID with
    | Ok (Some user) =>
        (foldl (unlockStep (u_ID user)) (∅, ∅)
           (omap (fun a => (fun c => (a, c)) <$> flaggedContract a) (order flagged))).2
    | _ => ∅
    end.

Definition IsViewerEligibleForVisibleToUnlock (viewerDID contractAddress : string) : bool :=
  if decide (viewerDID = "" \/ contractAddress = "") then false
  else if decide (ctx_viewscope ctx = Some "") then false
  else match GetContractByAddressGlobal (ToLower contractAddress) with
  | Ok (Some c) =>
      if bool_decide (c_OrgID c = "") || outOfScope c then false
      else match GetUserByExternalID viewerDID with
      | Ok (Some user) => unlockCovers (loadUnlockEligibility (u_ID user) (c_OrgID c)) c
      | _ => false
      end
  | _ => false
  end.

(** ** Shares of the transactions of an answer *)
Definition txVisibilityForViewer (ts : TxVisibilityProvider) (txHashes : list string)
  : result (gmap string (list string)) :=
  match ctx_viewscope ctx with
  | None => GetBatchTxVisibility ts txHashes
  | Some scope =>
      match GetBatchTxVisibilityInOrg ts with
      | Some inOrg => if decide (scope = "") then Ok ∅ else inOrg txHashes scope
      | None => Ok ∅
      end
  end.

(** The shares, when there are any. *)
Definition sharesIn (viewerDID : string) (body : option raw) : option (gmap string (list string)) :=
  ts ← txVisibilityStore;
  if decide (viewerDID = "") then None
  else match extractTxHashesFromResponse body with
  | [] => None
  | txHashes =>
      match txVisibilityForViewer ts txHashes with
      | Ok visibility => if decide (visibility = ∅) then None else Some visibility
      | Err _ => None
      end
  end.

Definition isResponseTxVisibleTo (viewerDID : string) (body : option raw) : bool :=
  match sharesIn viewerDID body with
  | None => false
  | Some visibility =>
      existsb (fun '(_, dids) => existsb (fun did => EqualFold did viewerDID) dids) (map_to_list visibility)
  end.

Definition buildTxVisibilityContext (userDID : string) (body : option raw) : option TxVisibilityContext :=
  visibility ← sharesIn userDID body;
  Some {| tv_ViewerDID := userDID; tv_TxVisibility := visibility;
          tv_UnlockableContracts := UnlockableContracts userDID (extractContractAddressesFromResponse body);
          tv_ParticipantTxHashes := ∅ |}.

Definition standardTxVisibilityContext (userDID : string) (body : option raw) : option TxVisibilityContext :=
  if strict then None else buildTxVisibilityContext userDID body.

(** ** Transactions the viewer took part in *)
Definition participantResolveMaxTxs : nat := 256.
Record Sender := { sd_Hash : string; sd_From : string; sd_To : string }.
Definition decode_sender (v : raw) (cur : Sender) : option Sender :=
  h ← field_str "hash" v (sd_Hash cur); f ← field_str "from" v (sd_From cur); t ← field_str "to" v (sd_To cur);
  Some {| sd_Hash := h; sd_From := f; sd_To := t |}.
Definition decode_entry (v : raw) (cur : option Sender) : option (option Sender) :=
  vs ← members "result" v;
  decode_fold (decode_ptr {| sd_Hash := ""; sd_From := ""; sd_To := "" |} decode_sender) vs cur.

Definition tookPart (addrs : list string) (s : Sender) : bool :=
  contains (ToLower <$> addrs) (ToLower (sd_From s)) ||
  (negb (bool_decide (ToLower (sd_To s) = "")) && contains (ToLower <$> addrs) (ToLower (sd_To s))).

Definition buildParticipantTxHashes (addrs : list string) (body : option raw) : gset string :=
  match addrs, extractTxHashesFromResponse body with
  | [], _ | _, [] => ∅
  | _, hashes =>
      if Nat.ltb participantResolveMaxTxs (length hashes) then ∅
      else match byHash hashes with
      | Ok (Some reply) =>
          match decode_array None decode_entry reply with
          | Some results => list_to_set (map (fun s => ToLower (sd_Hash s)) (List.filter (tookPart addrs) (omap id results)))
          | None => ∅
          end
      | _ => ∅
      end
  end.
End viewer.
