(* ===== verification/ViewerProps.v ===== *)
(** * What the viewer's facts amount to. *)
From S2P Require Import Prelude GoStrings Methods Models OrgContext Db Access Json ReadDecision EventFilter TraceGate.
From S2P Require Import ResponseFilter Viewer.
From S2P Require Answers.
Local Open Scope string_scope.

(** ** Merged permissions *)
Lemma merge_lookup (l : list (string * ContractAccess)) (m : gmap string ContractAccess) a :
  foldl (fun m kv => match m !! kv.1 with Some _ => m | None => <[kv.1 := kv.2]> m end) m l !! a =
  match m !! a with Some ca => Some ca | None => (list_to_map l : gmap string ContractAccess) !! a end.
Proof.
  revert m. induction l as [|[k ca] l IH]; intros m; simpl; [by destruct (m !! a)|]. rewrite IH.
  destruct (decide (a = k)) as [->|Hne].
  - rewrite lookup_insert_eq. destruct (m !! k) as [x|] eqn:E; [by rewrite E|]. by rewrite lookup_insert_eq.
  - rewrite lookup_insert_ne by done. destruct (m !! k); [done|]. by rewrite lookup_insert_ne.
Qed.
Definition accessIn (p : option EffectivePermissions) (a : string) : option ContractAccess :=
  p ≫= fun p => ep_ContractAccess p !! a.
Definition resolved (r : result EffectivePermissions) : option EffectivePermissions :=
  match r with Ok p => Some p | Err _ => None end.

Lemma mergeOrgAccess_lookup m p a :
  accessIn (Some (mergeOrgAccess m p)) a =
  match accessIn (Some m) a with Some ca => Some ca | None => accessIn (Some p) a end.
Proof. unfold accessIn, mergeOrgAccess. simpl. by rewrite merge_lookup, list_to_map_to_list. Qed.

(** The first organization that knows the contract decides. *)
Lemma mergeOrgs_lookup resolve orgIDs merged a :
  accessIn (mergeOrgs resolve orgIDs merged) a =
  match accessIn merged a with
  | Some ca => Some ca
  | None => head (omap (fun o => accessIn (resolved (resolve o)) a) orgIDs)
  end.
Proof.
  revert merged. induction orgIDs as [|o orgIDs IH]; intros merged; simpl; [by destruct (accessIn merged a)|].
  rewrite IH. destruct (resolve o) as [p|e]; [|by simpl; destruct (accessIn merged a)].
  destruct merged as [m|]; [rewrite mergeOrgAccess_lookup; destruct (accessIn (Some m) a); [done|]|].
  all: simpl resolved; by destruct (accessIn (Some p) a).
Qed.

Lemma mergeOrgs_some resolve orgIDs merged :
  is_Some (mergeOrgs resolve orgIDs merged) <-> is_Some merged \/ exists o, o ∈ orgIDs /\ is_Some (resolved (resolve o)).
Proof.
  revert merged. induction orgIDs as [|o orgIDs IH]; intros merged; simpl.
  - split; [by left|]. intros [?|(o & Ho%elem_of_nil & _)]; done.
  - rewrite IH. destruct (resolve o) as [p|e] eqn:E.
    + split; intros _; [|left; by destruct merged]. right. exists o. split; [left|]. by rewrite E.
    + split.
      * intros [?|(o' & Ho & Hr)]; [by left|]. right. exists o'. split; [by right|done].
      * intros [?|(o' & [->|Ho]%elem_of_cons & Hr)]; [by left| |].
        -- rewrite E in Hr. by destruct Hr.
        -- right. eauto.
Qed.

Lemma mergeOrgs_proper f g orgIDs merged :
  (forall o, o ∈ orgIDs -> f o = g o) -> mergeOrgs f orgIDs merged = mergeOrgs g orgIDs merged.
Proof.
  revert merged. induction orgIDs as [|o orgIDs IH]; intros merged H; simpl; [done|].
  rewrite (H o) by left. apply IH. intros o' Ho. apply H. by right.
Qed.

(** ** The shared objects *)
Section shared.
Context (resolve : string -> result positive).
Context (one_object_each : forall o o' p, resolve o = Ok p -> resolve o' = Ok p -> o = o').

Definition deref (h : gmap positive EffectivePermissions) (r : result positive) : result EffectivePermissions :=
  p ← r; match h !! p with Some x => Ok x | None => Err "nil" end.

Lemma mergeShared_writes orgIDs m x h h' r :
  (forall o, o ∈ orgIDs -> resolve o <> Ok m) ->
  (forall o p, o ∈ orgIDs -> resolve o = Ok p -> is_Some (h !! p)) ->
  h !! m = Some x -> mergeShared resolve orgIDs (Some m) h = (r, h') ->
  r = Some m /\ h' !! m = mergeOrgs (fun o => deref h (resolve o)) orgIDs (Some x) /\
  forall q, q <> m -> h' !! q = h !! q.
Proof.
  revert x h. induction orgIDs as [|o orgIDs IH]; intros x h Hm Hd Hx H; simpl in H; [by injection H as <- <-|].
  simpl. destruct (resolve o) as [p|e] eqn:E; simpl.
  - assert (Hp : p <> m) by (intros ->; apply (Hm o); [left|done]).
    destruct (Hd o p (list_elem_of_here _ _) E) as [y Hy]. rewrite Hy.
    unfold mergeAt in H. rewrite Hx, Hy in H.
    destruct (IH (mergeOrgAccess x y) (<[m := mergeOrgAccess x y]> h)) as (Hr & H1 & H2); [..|done|].
    + intros o' Ho. apply Hm. by right.
    + intros o' q Ho Eq. destruct (decide (q = m)) as [->|Hq]; [by rewrite lookup_insert_eq|].
      rewrite lookup_insert_ne by done. apply (Hd o'); [by right|done].
    + apply lookup_insert_eq.
    + split; [done|]. split; [|intros q Hq; rewrite H2 by done; by apply lookup_insert_ne].
      rewrite H1. apply mergeOrgs_proper. intros o' Ho. unfold deref.
      destruct (resolve o') as [q|e'] eqn:Eq; [|done]. simpl. rewrite lookup_insert_ne; [done|].
      intros <-. apply (Hm o'); [by right|done].
  - destruct (IH x h) as (Hr & H1 & H2); auto.
    + intros o' Ho. apply Hm. by right.
    + intros o' q Ho. apply Hd. by right.
Qed.

(** The filter writes the grants of every organization into the permissions
    object of the first one, which the resolver hands to every request that
    waits for the same computation and the access decision may keep in its
    cache. *)
Theorem filter_rewrites_the_shared_object o orgIDs p (h : gmap positive EffectivePermissions) :
  NoDup (o :: orgIDs) -> resolve o = Ok p ->
  (forall o' q, o' ∈ o :: orgIDs -> resolve o' = Ok q -> is_Some (h !! q)) ->
  exists h', mergeShared resolve (o :: orgIDs) None h = (Some p, h') /\
    forall a, accessIn (h' !! p) a = head (omap (fun o => accessIn (resolved (deref h (resolve o))) a) (o :: orgIDs)).
Proof.
  intros [Hno _]%NoDup_cons Hp Hd. destruct (Hd o p (list_elem_of_here _ _) Hp) as [x Hx].
  simpl mergeShared. rewrite Hp. destruct (mergeShared resolve orgIDs (Some p) h) as [r h'] eqn:E.
  apply (mergeShared_writes _ _ x) in E as (-> & H1 & _); [| |by intros o' q Ho; apply Hd; right|done].
  - exists h'. split; [done|]. intros a. rewrite H1, mergeOrgs_lookup. simpl omap. rewrite Hp. simpl. rewrite Hx. simpl.
    unfold accessIn. simpl. by destruct (ep_ContractAccess x !! a).
  - intros o' Ho Ho'. apply Hno. by rewrite (one_object_each o o' p).
Qed.
End shared.

(** ** Facts and the store *)
Section props.
Context `{HS : Store} `{HP : PermissionSource}.
Context (ctx : Ctx) (order : gset string -> list string).

(** The organizations the filters may use. *)
Definition viewerOrgs (userID : string) : list string :=
  match GetUserOrgIDList userID with Ok l => restrictToViewerOrgScope ctx l | Err _ => [] end.

Lemma restrict_scope scope l o :
  ctx_viewscope ctx = Some scope -> o ∈ restrictToViewerOrgScope ctx l -> o = scope /\ scope <> "" /\ scope ∈ l.
Proof.
  intros E. unfold restrictToViewerOrgScope. rewrite E.
  destruct (bool_decide (scope = "")) eqn:Es; [by intros ?%elem_of_nil|].
  apply bool_decide_eq_false in Es. destruct (contains l scope) eqn:Ec; simpl; [|by intros ?%elem_of_nil].
  apply contains_true in Ec. intros ->%list_elem_of_singleton. done.
Qed.
Lemma restrict_sub l o : o ∈ restrictToViewerOrgScope ctx l -> o ∈ l.
Proof.
  destruct (ctx_viewscope ctx) as [scope|] eqn:E.
  - intros H. by destruct (restrict_scope _ _ _ E H) as (-> & _ & ?).
  - unfold restrictToViewerOrgScope. by rewrite E.
Qed.
Lemma viewerOrgs_scope userID scope o : ctx_viewscope ctx = Some scope -> o ∈ viewerOrgs userID -> o = scope /\ scope <> "".
Proof.
  intros E. unfold viewerOrgs. destruct (GetUserOrgIDList userID); [|by intros ?%elem_of_nil].
  intros H. by destruct (restrict_scope _ _ _ E H) as (? & ? & _).
Qed.

(** *** Permissions *)
Lemma permsForFilter_lookup res a :
  rs_UserID res <> "" ->
  accessIn (resolvePermsForFilter ctx res) a =
  head (omap (fun o => accessIn (resolved (GetEffectivePermissionsByIDs (rs_UserID res) o)) a) (viewerOrgs (rs_UserID res))).
Proof.
  intros Hu. unfold resolvePermsForFilter, viewerOrgs. rewrite decide_False by done.
  destruct (GetUserOrgIDList _); [|done]. by rewrite mergeOrgs_lookup.
Qed.

Lemma head_omap_inv {A B} (f : A -> option B) l b : head (omap f l) = Some b -> exists x, x ∈ l /\ f x = Some b.
Proof.
  induction l as [|x l IH]; simpl; [done|]. destruct (f x) eqn:E; simpl.
  - intros [= ->]. exists x. split; [left|done].
  - intros (y & Hy & Hf)%IH. exists y. split; [by right|done].
Qed.

(** *** Administered contracts *)
Definition administers (userID : string) (orgIDs : list string) (a : string) : Prop :=
  exists owner p, GetContractOwnerOrgID a = Ok owner /\ owner <> "" /\ owner ∈ orgIDs /\
    GetEffectivePermissionsByIDs userID owner = Ok p /\ HasContractClaim p a ClaimAdmin = true.

Definition cacheTrue (userID : string) (m : gmap string (option EffectivePermissions)) : Prop :=
  forall o v, m !! o = Some v -> v = resolved (GetEffectivePermissionsByIDs userID o).

Lemma cacheTrue_insert userID m o : cacheTrue userID m ->
  cacheTrue userID (<[o := resolved (GetEffectivePermissionsByIDs userID o)]> m).
Proof. intros H o' v. destruct (decide (o' = o)) as [->|]; [rewrite lookup_insert_eq|rewrite lookup_insert_ne by done; apply H]. congruence. Qed.

Lemma administers_unowned userID orgIDs a :
  (forall owner, GetContractOwnerOrgID a = Ok owner -> owner <> "" -> owner ∉ orgIDs) -> ~ administers userID orgIDs a.
Proof. intros H (owner & p & Ho & Hne & Hin & _). by apply (H owner). Qed.
Lemma administers_owned userID orgIDs a owner :
  GetContractOwnerOrgID a = Ok owner -> owner <> "" -> owner ∈ orgIDs ->
  administers userID orgIDs a <->
  match resolved (GetEffectivePermissionsByIDs userID owner) with
  | Some p => HasContractClaim p a ClaimAdmin = true
  | None => False
  end.
Proof.
  intros Ho Hne Hin. unfold administers. rewrite Ho.
  destruct (GetEffectivePermissionsByIDs userID owner) as [p|e] eqn:E; simpl; split.
  - intros (o & q & [= <-] & _ & _ & Eq & Hq). congruence.
  - eauto 10.
  - intros (o & q & [= <-] & _ & _ & Eq & Hq). congruence.
  - done.
Qed.

Lemma adminStep_ok userID orgIDs m out a m' out' :
  cacheTrue userID m -> adminStep userID orgIDs (m, out) a = (m', out') ->
  cacheTrue userID m' /\ (forall x, x ∈ out' <-> x ∈ out \/ (x = a /\ administers userID orgIDs a)).
Proof.
  intros Hm. unfold adminStep.
  assert (Hnone : ~ administers userID orgIDs a -> forall x, x ∈ out <-> x ∈ out \/ (x = a /\ administers userID orgIDs a)).
  { clear Hm. tauto. }
  destruct (GetContractOwnerOrgID a) as [owner|e] eqn:Eo.
  2:{ intros [= <- <-]. split; [done|]. apply Hnone, administers_unowned. congruence. }
  case_decide as Ho; [intros [= <- <-]; split; [done|]; apply Hnone, administers_unowned; congruence|].
  destruct (contains orgIDs owner) eqn:Ec; simpl.
  2:{ apply contains_false in Ec. intros [= <- <-]. split; [done|]. apply Hnone, administers_unowned. congruence. }
  apply contains_true in Ec. pose proof (administers_owned userID orgIDs a owner Eo Ho Ec) as Ha.
  assert (Hv : forall v, v = resolved (GetEffectivePermissionsByIDs userID owner) -> forall x,
    x ∈ (match v with Some p => if HasContractClaim p a ClaimAdmin then {[a]} ∪ out else out | None => out end) <->
    x ∈ out \/ (x = a /\ administers userID orgIDs a)).
  { intros v ->. revert Ha. destruct (resolved _) as [p|]; intros Ha; [|apply Hnone; rewrite Ha; tauto].
    destruct (HasContractClaim p a ClaimAdmin) eqn:E; [|apply Hnone; rewrite Ha; congruence].
    intros x. rewrite elem_of_union, elem_of_singleton, Ha. clear - E. tauto. }
  destruct (m !! owner) as [v|] eqn:El; [intros [= <- <-]; split; [done|]; apply Hv, Hm, El|].
  pose proof (cacheTrue_insert userID m owner Hm) as Hi. specialize (Hv _ eq_refl).
  destruct (GetEffectivePermissionsByIDs userID owner) as [p|e] eqn:E; intros [= <- <-]; (split; [exact Hi|exact Hv]).
Qed.

Lemma adminFold_ok userID orgIDs l m out :
  cacheTrue userID m ->
  forall x, x ∈ (foldl (adminStep userID orgIDs) (m, out) l).2 <-> x ∈ out \/ (x ∈ l /\ administers userID orgIDs x).
Proof.
  revert m out. induction l as [|a l IH]; intros m out Hm x; cbn [foldl]; [simpl; set_solver|].
  destruct (adminStep userID orgIDs (m, out) a) as [m' out'] eqn:E.
  destruct (adminStep_ok _ _ _ _ _ _ _ Hm E) as [Hm' Hx]. rewrite IH by done. rewrite Hx, elem_of_cons. naive_solver.
Qed.

Lemma elem_of_kept (l : list string) a :
  a ∈ List.filter (fun s => negb (bool_decide (s = ""))) l <-> a ∈ l /\ a <> "".
Proof.
  rewrite list_elem_of_In, filter_In, negb_true_iff, bool_decide_eq_false, <- list_elem_of_In. done.
Qed.

(** Administered contracts, exactly: the claim is read in the organization that
    owns the contract, which the viewer must be a member of. *)
Lemma admin_contracts_exact userID addrs a :
  a ∈ viewerAdminContracts ctx userID addrs <->
  userID <> "" /\ (exists b, b ∈ addrs /\ b <> "" /\ a = ToLower b) /\ administers userID (viewerOrgs userID) a.
Proof.
  unfold viewerAdminContracts. case_decide as Hu; [set_solver|].
  set (unique := dedup _ _).
  assert (Hun : forall x, x ∈ unique <-> exists b, b ∈ addrs /\ b <> "" /\ x = ToLower b).
  { intros x. unfold unique. rewrite elem_of_dedup, list_elem_of_fmap. setoid_rewrite elem_of_kept. set_solver. }
  rewrite <- Hun. clearbody unique.
  unfold viewerOrgs. destruct unique as [|u us]; [set_solver|].
  destruct (GetUserOrgIDList userID) as [orgs|e] eqn:E.
  - rewrite adminFold_ok by by intros o v. set_solver.
  - split; [set_solver|]. intros (_ & _ & o & p & _ & _ & Ho & _). by apply elem_of_nil in Ho.
Qed.

(** *** Unlocked contracts *)
Context (order_enumerates : forall (X : gset string) a, a ∈ order X <-> a ∈ X).

Definition eligibilityTrue (userID : string) (m : gmap string unlockEligibility) : Prop :=
  forall o e, m !! o = Some e -> e = loadUnlockEligibility userID o.
Definition coversOwn (userID : string) (c : Contract) : bool := unlockCovers (loadUnlockEligibility userID (c_OrgID c)) c.

Lemma unlockFold_ok userID l m out x :
  eligibilityTrue userID m ->
  x ∈ (foldl (unlockStep userID) (m, out) l).2 <-> x ∈ out \/ exists c, (x, c) ∈ l /\ coversOwn userID c = true.
Proof.
  revert m out. induction l as [|[a c] l IH]; intros m out Hm; cbn [foldl].
  - split; [by left|]. intros [?|(c & Hc%elem_of_nil & _)]; done.
  - assert (Hstep : exists m', eligibilityTrue userID m' /\
      unlockStep userID (m, out) (a, c) = (m', if coversOwn userID c then {[a]} ∪ out else out)).
    { unfold unlockStep, coversOwn. destruct (m !! c_OrgID c) as [e|] eqn:E; [rewrite (Hm _ _ E); eauto|].
      eexists. split; [|reflexivity]. intros o e.
      destruct (decide (o = c_OrgID c)) as [->|]; [rewrite lookup_insert_eq; congruence|].
      rewrite lookup_insert_ne by done. apply Hm. }
    destruct Hstep as (m' & Hm' & ->). rewrite IH by done. setoid_rewrite elem_of_cons. clear.
    assert (Hout : x ∈ (if coversOwn userID c then {[a]} ∪ out else out) <->
                   x ∈ out \/ (x = a /\ coversOwn userID c = true)).
    { destruct (coversOwn userID c); [rewrite elem_of_union, elem_of_singleton|]; clear; naive_solver. }
    rewrite Hout. split.
    + intros [[Hx|[-> Hc]]|(c0 & H1 & H2)]; [by left|right; eauto..].
    + intros [Hx|(c0 & [[= -> ->]|H1] & H2)]; [by left; left|left; by right|right; eauto].
Qed.

Lemma flagged_inv a c :
  flaggedContract ctx a = Some c <->
  GetContractByAddressGlobal a = Ok (Some c) /\ c_AllowVisibleToUnlock c = true /\ c_OrgID c <> "" /\ outOfScope ctx c = false.
Proof.
  unfold flaggedContract. destruct (GetContractByAddressGlobal a) as [[c'|]|]; [|split; [done|]; intros [[=] _]..].
  split.
  - intros H. destruct (c_AllowVisibleToUnlock c') eqn:E1, (bool_decide_reflect (c_OrgID c' = "")),
      (outOfScope ctx c') eqn:E3; simplify_eq/=. done.
  - intros ([= ->] & E1 & E2 & E3). rewrite E1, E3, bool_decide_false by done. done.
Qed.

Lemma eligible_inv did a :
  IsViewerEligibleForVisibleToUnlock ctx did a = true <->
  did <> "" /\ a <> "" /\ ctx_viewscope ctx <> Some "" /\
  exists c user, GetContractByAddressGlobal (ToLower a) = Ok (Some c) /\ c_OrgID c <> "" /\ outOfScope ctx c = false /\
    GetUserByExternalID did = Ok (Some user) /\ coversOwn (u_ID user) c = true.
Proof.
  unfold IsViewerEligibleForVisibleToUnlock, coversOwn. split.
  - case_decide as H1; [done|]. case_decide as H2; [done|].
    destruct (GetContractByAddressGlobal (ToLower a)) as [[c|]|]; [|done..].
    destruct (bool_decide_reflect (c_OrgID c = "")) as [E2|E2]; [done|]. destruct (outOfScope ctx c) eqn:E3; [done|].
    destruct (GetUserByExternalID did) as [[user|]|]; [|done..]. simpl. intros Hc.
    split; [tauto|]. split; [tauto|]. split; [done|]. by exists c, user.
  - intros (Hd & Ha & Hv & c & user & Hc & Ho & Hs & Hu & Hcov).
    rewrite decide_False by tauto. rewrite decide_False, Hc, Hs, Hu, bool_decide_false by done. done.
Qed.

(** The batch the filters use and the check of one contract agree. *)
Lemma unlockable_exact did addrs a :
  a ∈ UnlockableContracts ctx order did addrs <->
  (exists b, b ∈ addrs /\ a = ToLower b) /\ IsViewerEligibleForVisibleToUnlock ctx did a = true /\
  exists c, GetContractByAddressGlobal a = Ok (Some c) /\ c_AllowVisibleToUnlock c = true.
Proof.
  rewrite eligible_inv. unfold UnlockableContracts. case_decide as Hd; [split; [set_solver|tauto]|].
  case_decide as Hv; [split; [set_solver|tauto]|].
  set (flagged := list_to_set _ : gset string).
  assert (Hf : forall x, x ∈ flagged <-> (exists b, b ∈ addrs /\ x = ToLower b) /\ x <> "" /\ is_Some (flaggedContract ctx x)).
  { intros x. unfold flagged. rewrite elem_of_list_to_set, list_elem_of_In, filter_In, <- list_elem_of_In, bool_decide_eq_true,
      elem_of_dedup, elem_of_kept, list_elem_of_fmap. set_solver. }
  clearbody flagged.
  assert (Hlow : (exists b, b ∈ addrs /\ a = ToLower b) -> ToLower a = a).
  { intros (b & _ & ->). apply ToLower_idemp. }
  case_decide as He.
  { split; [set_solver|]. intros (Hb & (_ & Ha & _ & c & user & Hc & Ho & Hs & _) & c' & Hc' & Hal).
    rewrite (Hlow Hb) in Hc. assert (a ∈ flagged); [|set_solver]. apply Hf. split; [done|]. split; [done|].
    exists c. apply flagged_inv. assert (c' = c) as -> by congruence. done. }
  destruct (GetUserByExternalID did) as [[user|]|] eqn:Eu.
  2,3: split; [set_solver|]; intros (_ & (_ & _ & _ & c & user & _ & _ & _ & Hu & _) & _); congruence.
  rewrite unlockFold_ok by by intros o e. rewrite elem_of_empty.
  assert (Hm : forall c, (a, c) ∈ omap (fun a => (fun c => (a, c)) <$> flaggedContract ctx a) (order flagged) <->
                         a ∈ flagged /\ flaggedContract ctx a = Some c).
  { intros c. rewrite list_elem_of_omap. setoid_rewrite order_enumerates. split.
    - intros (x & Hx & Hc). destruct (flaggedContract ctx x) eqn:E; simplify_eq/=. done.
    - intros [Hx Hc]. exists a. by rewrite Hc. }
  setoid_rewrite Hm. setoid_rewrite flagged_inv. setoid_rewrite Hf. clear Hm Hf He. split.
  - intros [[]|(c & ((Hb & Ha & _) & Hc & Hal & Ho & Hs) & Hcov)]. rewrite (Hlow Hb). eauto 20.
  - intros (Hb & (_ & Ha & _ & c & user' & Hc & Ho & Hs & Hu & Hcov) & c' & Hc' & Hal).
    rewrite (Hlow Hb) in Hc. right. exists c. assert (c' = c) as -> by congruence. assert (user' = user) as -> by congruence.
    split; [|done]. split; [|done]. split; [done|]. split; [done|]. exists c. by apply flagged_inv.
Qed.

(** *** The scope of an impersonated view *)
Lemma scoped_perms scope res a ca :
  ctx_viewscope ctx = Some scope -> accessIn (resolvePermsForFilter ctx res) a = Some ca ->
  scope <> "" /\ accessIn (resolved (GetEffectivePermissionsByIDs (rs_UserID res) scope)) a = Some ca.
Proof.
  intros E. destruct (decide (rs_UserID res = "")) as [Hu|Hu].
  { unfold resolvePermsForFilter. by rewrite decide_True. }
  rewrite permsForFilter_lookup by done. intros (o & Ho & Ha)%head_omap_inv.
  by destruct (viewerOrgs_scope _ _ _ E Ho) as [-> ?].
Qed.
Lemma scoped_admin scope userID addrs a :
  ctx_viewscope ctx = Some scope -> a ∈ viewerAdminContracts ctx userID addrs ->
  scope <> "" /\ GetContractOwnerOrgID a = Ok scope.
Proof.
  intros E (_ & _ & owner & p & Ho & Hne & Hin & _)%admin_contracts_exact.
  by destruct (viewerOrgs_scope _ _ _ E Hin) as [-> ?].
Qed.
Lemma scoped_unlock scope did addrs a :
  ctx_viewscope ctx = Some scope -> a ∈ UnlockableContracts ctx order did addrs ->
  scope <> "" /\ exists c, GetContractByAddressGlobal a = Ok (Some c) /\ c_OrgID c = scope.
Proof.
  intros E ((b & _ & ->) & (_ & _ & Hv & c & u & Hc & Ho & Hs & _)%eligible_inv & _)%unlockable_exact.
  rewrite ToLower_idemp in Hc. unfold outOfScope in Hs. rewrite E in Hs, Hv.
  split; [congruence|]. exists c. split; [done|]. by destruct (bool_decide_reflect (c_OrgID c = scope)).
Qed.

Definition inOrg (scope : string) (rows : list TxVisibleTo) : list TxVisibleTo :=
  List.filter (fun t => bool_decide (tt_OrgID t = scope)) rows.
Lemma filter_split {A} (f g : A -> bool) l : List.filter (fun x => f x && g x) l = List.filter f (List.filter g l).
Proof.
  induction l as [|x l IH]; [done|]. simpl. destruct (g x); simpl; rewrite ?andb_true_r, ?andb_false_r, IH; done.
Qed.
Lemma scoped_shares scope fault rows hashes :
  ctx_viewscope ctx = Some scope ->
  txVisibilityForViewer ctx (dbTxVisibility fault rows) hashes =
  txVisibilityForViewer ctx (dbTxVisibility fault (inOrg scope rows)) hashes.
Proof.
  intros E. unfold txVisibilityForViewer. rewrite E. simpl. case_decide; [done|].
  unfold batchTxVisibility. destruct hashes; [done|]. destruct fault; [done|]. f_equal. f_equal.
  rewrite !filter_split. f_equal. unfold inOrg. rewrite <- filter_split. apply filter_ext. intros t. by rewrite andb_diag.
Qed.

(** *** Own transactions *)
Lemma participants_exact byHash addrs body h :
  h ∈ buildParticipantTxHashes order byHash addrs body <->
  exists reply results s,
    addrs <> [] /\ extractTxHashesFromResponse order body <> [] /\
    length (extractTxHashesFromResponse order body) <= participantResolveMaxTxs /\
    byHash (extractTxHashesFromResponse order body) = Ok (Some reply) /\
    decode_array None decode_entry reply = Some results /\ Some s ∈ results /\
    h = ToLower (sd_Hash s) /\ tookPart addrs s = true.
Proof.
  unfold buildParticipantTxHashes. split.
  - destruct addrs as [|a addrs]; [set_solver|].
    destruct (extractTxHashesFromResponse order body) as [|x hashes]; [set_solver|].
    destruct (Nat.ltb_spec participantResolveMaxTxs (length (x :: hashes))); [set_solver|].
    destruct (byHash _) as [[reply|]|] eqn:E; [|set_solver..]. destruct (decode_array _ _ _) as [results|] eqn:Ed; [|set_solver].
    rewrite elem_of_list_to_set, list_elem_of_In, in_map_iff. intros (s & <- & Hs).
    rewrite filter_In, <- list_elem_of_In, list_elem_of_omap in Hs. destruct Hs as [(y & Hy & Hys) Ht].
    unfold id in Hys. subst y.
    exists reply, results, s. split_and!; auto.
  - intros (reply & results & s & Ha & Hh & Hl & Hb & Hd & Hs & -> & Ht). destruct addrs as [|a addrs]; [done|].
    destruct (extractTxHashesFromResponse order body) as [|x hashes]; [done|].
    destruct (Nat.ltb_spec participantResolveMaxTxs (length (x :: hashes))); [lia|]. rewrite Hb, Hd.
    rewrite elem_of_list_to_set, list_elem_of_In, in_map_iff. exists s. split; [done|].
    rewrite filter_In, <- list_elem_of_In, list_elem_of_omap. split; [by exists (Some s)|done].
Qed.
End props.

(** ** Eligibility on the tables: revoked memberships and grants do not count. *)
Section tables.
Context (row1 : forall A : Type, list A -> option A) (now : Z) (db : Database).
Local Instance tablesStore : Store := DbStore row1 now db.

(** A live membership in the contract's organization that counts. *)
Definition unlockGround (userID : string) (c : Contract) : Prop :=
  exists m g, m ∈ db_user_memberships db /\ um_UserID m = userID /\ unexpired now m = true /\
    g ∈ db_groups db /\ g_ID g = um_GroupID m /\ g_OrgID g = c_OrgID c /\
    (g_IsOrgAdmin g = true \/
     (g_IsSystem g = false /\ g_ID g <> DefaultGroupID /\
      exists cg, cg ∈ db_contract_grants db /\ cg_GroupID cg = g_ID g /\ cg_ContractID cg = c_ID c)).

Lemma memberGroups_inv userID m g :
  (m, g) ∈ memberGroups now db userID ->
  m ∈ db_user_memberships db /\ um_UserID m = userID /\ unexpired now m = true /\ g ∈ db_groups db /\ g_ID g = um_GroupID m.
Proof.
  unfold memberGroups. rewrite list_elem_of_In, in_concat. intros (l & (m' & <- & Hm)%in_map_iff & Hin).
  destruct (bool_decide_reflect (um_UserID m' = userID)) as [Hu|]; [|done].
  destruct (unexpired now m') eqn:Hx; [|done]. simpl in Hin. apply in_map_iff in Hin as (g' & [= <- <-] & Hg).
  apply filter_In in Hg as [Hg Hid%bool_decide_eq_true]. rewrite !list_elem_of_In. done.
Qed.

Lemma eligibleGroups_none orgID ms acc :
  eligibleGroups orgID ms acc = None ->
  exists m g, m ∈ ms /\ md_Group m = Some g /\ g_OrgID g = orgID /\ g_IsOrgAdmin g = true.
Proof.
  revert acc. induction ms as [|m ms IH]; intros acc; simpl; [done|].
  assert (Hstep : forall acc, eligibleGroups orgID ms acc = None ->
    exists m' g, m' ∈ m :: ms /\ md_Group m' = Some g /\ g_OrgID g = orgID /\ g_IsOrgAdmin g = true).
  { intros acc' (m' & g & Hm & H)%IH. exists m', g. split; [by right|done]. }
  destruct (md_Group m) as [g|] eqn:Eg; [|apply Hstep]. case_decide as Ho; [apply Hstep|].
  destruct (g_IsOrgAdmin g) eqn:Ea; [|destruct (_ || _); apply Hstep].
  intros _. exists m, g. split; [left|]. split; [done|]. split; [|done]. by destruct (decide (g_OrgID g = orgID)).
Qed.
Lemma eligibleGroups_some orgID ms acc l :
  eligibleGroups orgID ms acc = Some l -> forall gid, gid ∈ l -> gid ∈ acc \/
  exists m g, m ∈ ms /\ md_Group m = Some g /\ g_OrgID g = orgID /\ g_ID g = gid /\ g_IsSystem g = false /\ gid <> DefaultGroupID.
Proof.
  revert acc. induction ms as [|m ms IH]; intros acc; simpl; [intros [= ->]; by left|].
  assert (Hstep : eligibleGroups orgID ms acc = Some l -> forall gid, gid ∈ l -> gid ∈ acc \/
    exists m' g, m' ∈ m :: ms /\ md_Group m' = Some g /\ g_OrgID g = orgID /\ g_ID g = gid /\ g_IsSystem g = false /\ gid <> DefaultGroupID).
  { intros He gid Hg. destruct (IH _ He gid Hg) as [|(m' & g & Hm & H)]; [by left|]. right. exists m', g. split; [by right|done]. }
  destruct (md_Group m) as [g|] eqn:Eg; [|apply Hstep]. case_decide as Ho; [apply Hstep|].
  destruct (g_IsOrgAdmin g) eqn:Ea; [done|]. destruct (g_IsSystem g) eqn:Es; [apply Hstep|].
  destruct (bool_decide_reflect (g_ID g = DefaultGroupID)) as [Ed|Ed]; [apply Hstep|]. simpl. clear Hstep.
  intros He gid Hg. destruct (IH _ He gid Hg) as [[Ha| ->%list_elem_of_singleton]%elem_of_app|(m' & g' & Hm & H)].
  - by left.
  - right. exists m, g. split; [left|]. split; [done|]. split; [|done]. by destruct (decide (g_OrgID g = orgID)).
  - right. exists m', g'. split; [by right|done].
Qed.

Lemma grants_grouped (l : list ContractGrant) (m : gmap string (list ContractGrant)) gid cg :
  cg ∈ default [] (foldl (fun m g => <[cg_GroupID g := (default [] (m !! cg_GroupID g) ++ [g])%list]> m) m l !! gid) ->
  cg ∈ default [] (m !! gid) \/ (cg ∈ l /\ cg_GroupID cg = gid).
Proof.
  revert m. induction l as [|g l IH]; intros m; simpl; [by left|]. intros [H|[H1 H2]]%IH; [|right; split; [by right|done]].
  destruct (decide (cg_GroupID g = gid)) as [<-|Hne]; [|by rewrite lookup_insert_ne in H; [left|]].
  rewrite lookup_insert_eq in H. simpl in H. apply elem_of_app in H as [H| ->%list_elem_of_singleton]; [by left|].
  right. split; [left|done].
Qed.

Lemma covers_grounded userID c : coversOwn userID c = true -> unlockGround userID c.
Proof.
  unfold coversOwn, unlockCovers, loadUnlockEligibility. simpl. unfold db_ListUserMembershipsInOrg.
  destruct (query db _ _ _) as [ms|] eqn:Eq; [|done].
  assert (Hms : forall m g, m ∈ ms -> md_Group m = Some g -> exists um, (um, g) ∈ memberGroups now db userID).
  { unfold query in Eq. destruct (db_fault db _); [done|]. injection Eq as <-. intros m g.
    rewrite list_elem_of_In, in_map_iff. intros ([um g'] & <- & Hin) [= ->]. apply filter_In in Hin as [Hin _].
    exists um. by apply list_elem_of_In. }
  destruct (eligibleGroups (c_OrgID c) ms []) as [l|] eqn:El.
  - destruct l as [|g0 l]; [done|]. set (gs := g0 :: l) in *.
    destruct (db_ListContractGrantsBatch db gs) as [grants|] eqn:Egr; [|done]. cbn [ue_orgAdmin ue_grantedContractIDs orb].
    intros (l0 & Hl & Hin)%bool_decide_eq_true%elem_of_list_to_set%list_elem_of_In%in_concat.
    apply in_map_iff in Hl as (gid & <- & Hgid%list_elem_of_In).
    apply filter_In in Hin as [(cg & Hcg & Hin)%list_elem_of_In%list_elem_of_fmap _].
    destruct (eligibleGroups_some _ _ _ _ El gid Hgid) as [?%elem_of_nil|(m & g & Hm & Hg & Ho & Hid & Hs & Hd)]; [done|].
    destruct (Hms m g Hm Hg) as (um & (H1 & H2 & H3 & H4 & H5)%memberGroups_inv).
    exists um, g. split_and!; try done. right. split; [done|]. split; [congruence|]. exists cg.
    unfold db_ListContractGrantsBatch, query in Egr. destruct (db_fault db _); [done|]. injection Egr as <-.
    apply grants_grouped in Hin as [Hin|[Hin Hgid']]; [rewrite lookup_empty in Hin; by apply elem_of_nil in Hin|].
    apply list_elem_of_In, filter_In in Hin as [Hin _]. split; [by apply list_elem_of_In|]. split; [congruence|done].
  - intros _. apply eligibleGroups_none in El as (m & g & Hm & Hg & Ho & Ha).
    destruct (Hms m g Hm Hg) as (um & (H1 & H2 & H3 & H4 & H5)%memberGroups_inv).
    exists um, g. split_and!; try done. by left.
Qed.
End tables.

(** ** The answers with the viewer's facts in place. *)
From S2P Require Import Prelude GoStrings Methods Models OrgContext Db Access Json ReadDecision EventFilter TraceGate.
From S2P Require Import ResponseFilter Answers Viewer.

(** [abi] and [renderer] are the store's ABIs and the field redaction. *)
Definition viewerFacts `{HS : Store} `{HP : PermissionSource} (ctx : Ctx) (order : gset string -> list string)
  (profile : ReadProfile) (ts : option TxVisibilityProvider) (byHash : list string -> result (option raw))
  (abi : option ABIProvider) (renderer : string -> option (list AdmittedLog -> list raw)) : ViewerFacts := {|
  Answers.resolvePermsForFilter := Viewer.resolvePermsForFilter ctx;
  Answers.standardTxVisibilityContext := Viewer.standardTxVisibilityContext ctx order (Strict profile) ts;
  Answers.viewerAdminContracts userID body :=
    Viewer.viewerAdminContracts ctx userID (extractContractAddressesFromResponse order body);
  Answers.isResponseTxVisibleTo := Viewer.isResponseTxVisibleTo ctx order ts;
  Answers.buildParticipantTxHashes := Viewer.buildParticipantTxHashes order byHash;
  Answers.contractABIProvider := abi;
  Answers.logFieldRenderer := renderer |}.

(** ** The view of another organization's member *)

(** Two stores that say the same of one organization, and of what belongs to
    none: the users and their linked addresses. *)
Definition orgsOfUser (S : Store) (u : string) : list string :=
  match @GetUserOrgIDList S u with Ok l => l | Err _ => [] end.
Record agrees_in (scope : string) (S S' : Store) : Prop := {
  ai_users did : @GetUserByExternalID S did = @GetUserByExternalID S' did;
  ai_links did : @GetLinkedEthAddresses S did = @GetLinkedEthAddresses S' did;
  ai_member u : scope ∈ orgsOfUser S u <-> scope ∈ orgsOfUser S' u;
  ai_owner a : scope <> "" -> @GetContractOwnerOrgID S a = Ok scope <-> @GetContractOwnerOrgID S' a = Ok scope;
  ai_contract a c : c_OrgID c = scope ->
    @GetContractByAddressGlobal S a = Ok (Some c) <-> @GetContractByAddressGlobal S' a = Ok (Some c);
  ai_eligibility u : @loadUnlockEligibility S u scope = @loadUnlockEligibility S' u scope }.

Lemma agrees_sym scope S S' : agrees_in scope S S' -> agrees_in scope S' S.
Proof. intros [H1 H2 H3 H4 H5 H6]. split; try done; intros; symmetry; auto. Qed.

Section scoped.
Context (ctx : Ctx) (order : gset string -> list string).
Context (order_enumerates : forall (X : gset string) a, a ∈ order X <-> a ∈ X).
Context (scope : string) (Hscope : ctx_viewscope ctx = Some scope).

Lemma viewerOrgs_same S S' u : agrees_in scope S S' -> @viewerOrgs S ctx u = @viewerOrgs S' ctx u.
Proof.
  intros HS. assert (E : forall T, @viewerOrgs T ctx u =
    if negb (bool_decide (scope = "")) && bool_decide (scope ∈ orgsOfUser T u) then [scope] else []).
  { intros T. unfold viewerOrgs, orgsOfUser, restrictToViewerOrgScope. rewrite Hscope.
    destruct (GetUserOrgIDList u) as [l|].
    - destruct (contains l scope) eqn:E; [apply contains_true in E|apply contains_false in E];
        [by rewrite (bool_decide_true (scope ∈ l))|by rewrite (bool_decide_false (scope ∈ l))].
    - rewrite (bool_decide_false (scope ∈ [])) by apply not_elem_of_nil. by rewrite andb_false_r. }
  rewrite !E. by rewrite (bool_decide_ext _ _ (ai_member _ _ _ HS u)).
Qed.

Lemma viewerOrgs_only S u o : o ∈ @viewerOrgs S ctx u -> o = scope /\ scope <> "".
Proof. apply viewerOrgs_scope, Hscope. Qed.

Section permissions.
Context (P P' : PermissionSource).
Context (same_in_scope : forall u, @ResolvePermissionsCacheable P u scope = @ResolvePermissionsCacheable P' u scope).

Lemma scoped_perms_same S S' res : agrees_in scope S S' ->
  @Viewer.resolvePermsForFilter S P ctx res = @Viewer.resolvePermsForFilter S' P' ctx res.
Proof.
  intros HS. assert (E : forall T Q, @Viewer.resolvePermsForFilter T Q ctx res =
    if decide (rs_UserID res = "") then None
    else mergeOrgs (@GetEffectivePermissionsByIDs Q (rs_UserID res)) (@viewerOrgs T ctx (rs_UserID res)) None).
  { intros T Q. unfold Viewer.resolvePermsForFilter, viewerOrgs. case_decide; [done|].
    by destruct (GetUserOrgIDList _). }
  rewrite !E. case_decide; [done|]. rewrite (viewerOrgs_same _ _ _ HS). apply mergeOrgs_proper. intros o Ho.
  apply viewerOrgs_only in Ho as [-> _]. unfold GetEffectivePermissionsByIDs. by rewrite same_in_scope.
Qed.

Lemma scoped_admin_same S S' u addrs : agrees_in scope S S' ->
  @Viewer.viewerAdminContracts S P ctx u addrs = @Viewer.viewerAdminContracts S' P' ctx u addrs.
Proof.
  intros HS. apply set_eq. intros a. rewrite !(admin_contracts_exact ctx order), (viewerOrgs_same _ _ _ HS).
  unfold administers, GetEffectivePermissionsByIDs.
  split; intros (H1 & H2 & owner & p & H3 & H4 & H5 & H6 & H7); destruct (viewerOrgs_only _ _ _ H5) as [-> Hne];
    (split; [done|]; split; [done|]); exists scope, p; split_and!; try done;
    [by apply (ai_owner _ _ _ HS)|by rewrite <- same_in_scope|by apply (ai_owner _ _ _ HS)|by rewrite same_in_scope].
Qed.
End permissions.

Lemma scoped_unlock_incl S S' did addrs a : agrees_in scope S S' ->
  a ∈ @UnlockableContracts S ctx order did addrs -> a ∈ @UnlockableContracts S' ctx order did addrs.
Proof.
  intros HS. rewrite !unlockable_exact, !eligible_inv by done.
  intros (Hb & (Hd & Ha & Hv & c & user & Hc & Ho & Hs & Hu & Hcov) & c' & Hc' & Hal).
  assert (ToLower a = a) as El by (destruct Hb as (b & _ & ->); apply ToLower_idemp). rewrite El in *.
  assert (c' = c) as -> by congruence.
  assert (c_OrgID c = scope) as Hin.
  { unfold outOfScope in Hs. rewrite Hscope in Hs. by destruct (bool_decide_reflect (c_OrgID c = scope)). }
  apply (ai_contract _ _ _ HS _ _ Hin) in Hc. rewrite (ai_users _ _ _ HS) in Hu.
  split_and!; try done; [|by exists c]. exists c, user. split_and!; try done.
  revert Hcov. unfold coversOwn. by rewrite Hin, (ai_eligibility _ _ _ HS).
Qed.
Lemma scoped_unlock_same S S' did addrs : agrees_in scope S S' ->
  @UnlockableContracts S ctx order did addrs = @UnlockableContracts S' ctx order did addrs.
Proof.
  intros HS. apply set_eq. intros a. split; [by apply scoped_unlock_incl|].
  apply scoped_unlock_incl. by apply agrees_sym.
Qed.

Section shares.
Context (fault : option string) (rows rows' : list TxVisibleTo).
Context (same_shares : inOrg scope rows = inOrg scope rows').

Lemma scoped_shares_same did body :
  sharesIn ctx order (Some (dbTxVisibility fault rows)) did body =
  sharesIn ctx order (Some (dbTxVisibility fault rows')) did body.
Proof.
  unfold sharesIn. simpl. case_decide; [done|]. destruct (extractTxHashesFromResponse order body); [done|].
  by rewrite (scoped_shares ctx scope fault rows), (scoped_shares ctx scope fault rows'), same_shares.
Qed.
Lemma scoped_context_same S S' strict did body : agrees_in scope S S' ->
  @Viewer.standardTxVisibilityContext S ctx order strict (Some (dbTxVisibility fault rows)) did body =
  @Viewer.standardTxVisibilityContext S' ctx order strict (Some (dbTxVisibility fault rows')) did body.
Proof.
  intros HS. unfold Viewer.standardTxVisibilityContext, buildTxVisibilityContext.
  rewrite scoped_shares_same. destruct strict; [done|]. destruct (sharesIn _ _ _ _ _); [|done]. simpl.
  by rewrite (scoped_unlock_same S S').
Qed.
Lemma scoped_visible_same did body :
  Viewer.isResponseTxVisibleTo ctx order (Some (dbTxVisibility fault rows)) did body =
  Viewer.isResponseTxVisibleTo ctx order (Some (dbTxVisibility fault rows')) did body.
Proof. unfold Viewer.isResponseTxVisibleTo. by rewrite scoped_shares_same. Qed.
End shares.

(** The filters on two stores that agree, with renderers that do. *)
Lemma scoped_filter_same `{HE : EventABI} S S' (P P' : PermissionSource) fault rows rows' reg rng profile byHash abi
  renderer renderer' userID method params res body :
  agrees_in scope S S' ->
  (forall u, @ResolvePermissionsCacheable P u scope = @ResolvePermissionsCacheable P' u scope) ->
  inOrg scope rows = inOrg scope rows' -> renderer userID = renderer' userID ->
  @applyResponseFilter S _ HE
    (@viewerFacts S P ctx order profile (Some (dbTxVisibility fault rows)) byHash abi renderer)
    reg rng profile userID method params res body =
  @applyResponseFilter S' _ HE
    (@viewerFacts S' P' ctx order profile (Some (dbTxVisibility fault rows')) byHash abi renderer')
    reg rng profile userID method params res body.
Proof.
  intros HS HP Hr Hn. unfold applyResponseFilter, linkedOrNone. simpl. rewrite Hn, (ai_links _ _ _ HS).
  rewrite (scoped_perms_same P P' HP S S' _ HS), (scoped_admin_same P P' HP S S' _ _ HS).
  rewrite (scoped_visible_same fault rows rows' Hr).
  by rewrite (scoped_context_same fault rows rows' Hr S S' _ _ _ HS).
Qed.
End scoped.

(** a contract whose events a share may unlock for the viewer is registered
    with the flag set, and the viewer, a known user, holds an unexpired membership
    in the owning organization, of its administrators or of a group granted the
    contract that is neither a system group nor the default one. *)
Theorem unlocked_contracts_are_granted (row1 : forall A : Type, list A -> option A) (now : Z) (db : Database)
  (ctx : Ctx) (order : gset string -> list string) (order_enumerates : forall (X : gset string) a, a ∈ order X <-> a ∈ X)
  ts did body v a :
  @buildTxVisibilityContext (DbStore row1 now db) ctx order ts did body = Some v ->
  a ∈ tv_UnlockableContracts v ->
  exists c user, db_GetContractByAddressGlobal row1 db a = Ok (Some c) /\ c_AllowVisibleToUnlock c = true /\
    db_GetUserByExternalID row1 db did = Ok (Some user) /\ unlockGround now db (u_ID user) c.
Proof.
  unfold buildTxVisibilityContext. destruct (sharesIn ctx order ts did body) as [vis|]; [|done]. intros [= <-]. simpl.
  intros ((b & _ & ->) & (_ & _ & _ & c & user & Hc & _ & _ & Hu & Hcov)%eligible_inv & c' & Hc' & Hal)%unlockable_exact; [|done].
  rewrite ToLower_idemp in Hc. assert (c' = c) as -> by congruence. exists c, user. split_and!; try done.
  by eapply covers_grounded.
Qed.
