(* ===== verification/Visibility.v ===== *)
(** * Who may see an address: [internal/db/explorer_redaction.go] and the levels
    of [internal/explorer/visibility.go].

    Both batch lookups of the store are translated, as the code has them: the
    one that answers levels and the one that answers levels with a reason.  The
    rows of each query are shared definitions. *)
From S2P Require Import Prelude GoStrings Methods Models OrgContext Db.
Local Open Scope string_scope.

Inductive VisibilityLevel := VisibilityFull | VisibilityPseudonymous | VisibilityRedacted | VisibilityHidden.
#[export] Instance VisibilityLevel_eq_dec : EqDecision VisibilityLevel.
Proof. solve_decision. Defined.
Inductive VisibilityReason :=
| ReasonOwnAddress | ReasonPublicAddress | ReasonNoAccess | ReasonRBACGroupMember | ReasonParticipantOverride
| ReasonVisibleToGrant.
#[export] Instance VisibilityReason_eq_dec : EqDecision VisibilityReason.
Proof. solve_decision. Defined.
Record AddressVisibility := {
  av_Address : string; av_Visible : bool; av_Level : VisibilityLevel; av_Reason : VisibilityReason }.

(** A loop that writes what it decides for a key. *)
Definition decideEach {V} (verdict : string -> option V) (res : gmap string V) (keys : list string) : gmap string V :=
  foldl (fun res a => match verdict a with Some v => <[a := v]> res | None => res end) res keys.

(** The addresses of a viewer's own pages under the strict profile. *)
Definition StrictAllowlist (detailed : gmap string AddressVisibility) : list string :=
  sort_strings (map (fun kv => ToLower kv.1)
    (List.filter (fun kv => bool_decide (av_Reason kv.2 = ReasonOwnAddress)) (map_to_list detailed))).

Definition visibilityMapFromDetailed (detailed : gmap string AddressVisibility) : gmap string VisibilityLevel :=
  av_Level <$> detailed.

Section visibility.
Variable now : Z.
Variable db : Database.
Variable ctx : Ctx.
Variable viewerDID : string.

Definition viewScopeAllows : bool :=
  match ctx_viewscope ctx with Some org => negb (bool_decide (org = "")) | None => true end.

(** ** The rows *)
Definition ownerRows (addrs : gset string) : list (string * string) :=
  map (fun l => (ToLower (el_EthAddress l), el_DID l))
    (List.filter (fun l => bool_decide (ToLower (el_EthAddress l) ∈ addrs) && negb (el_Revoked l))
       (db_eth_address_links db)).
Definition contractRows (addrs : gset string) : list string :=
  List.filter (fun a => bool_decide (a ∈ addrs)) (map (fun c => ToLower (c_Address c)) (db_contracts db)).

Definition grantedTo (c : Contract) (g : Group) : bool :=
  existsb (fun cg => bool_decide (cg_ContractID cg = c_ID c) && bool_decide (cg_GroupID cg = g_ID g))
    (db_contract_grants db).
(** [scopeContractGroupQuery] *)
Definition inViewScope (c : Contract) : bool :=
  match ctx_viewscope ctx with Some org => bool_decide (c_OrgID c = org) | None => true end.
Definition groupRows (addrs : list string) : list (string * string) :=
  concat (map (fun c =>
    if contains addrs (ToLower (c_Address c)) && inViewScope c
    then map (fun g => (ToLower (c_Address c), g_ID g))
           (List.filter (fun g => bool_decide (g_OrgID g = c_OrgID c) && (g_IsOrgAdmin g || grantedTo c g))
              (db_groups db))
    else []) (db_contracts db)).
Definition memberRows (groupIDs : gset string) : list string :=
  map um_GroupID (List.filter (fun m =>
    existsb (fun u => bool_decide (u_ID u = um_UserID m) && bool_decide (u_ExternalID u = viewerDID)) (db_users db) &&
    bool_decide (um_GroupID m ∈ groupIDs) && unexpired now m) (db_user_memberships db)).

(** ** Levels *)
Definition byKey (rows : list (string * string)) : gmap string string :=
  foldl (fun m kv => <[kv.1 := kv.2]> m) ∅ rows.
Definition groupsByKey (rows : list (string * string)) : gmap string (gset string) :=
  foldl (fun m kv => <[kv.1 := {[kv.2]} ∪ default ∅ (m !! kv.1)]> m) ∅ rows.
Definition allGroups (byAddr : gmap string (gset string)) : gset string :=
  list_to_set (concat (map (fun kv => elements kv.2) (map_to_list byAddr))).
Definition unownedAddrs (owners : gmap string string) (addrs : gset string) : gset string :=
  list_to_set (List.filter (fun a => bool_decide (owners !! a = None) && negb (IsPrecompileAddress a)) (elements addrs)).
Definition isOwn (did : string) : bool := bool_decide (did = viewerDID) && negb (bool_decide (viewerDID = "")).
Definition inGroup (byAddr : gmap string (gset string)) (viewerGroups : list string) (a : string) : bool :=
  existsb (contains viewerGroups) (elements (default ∅ (byAddr !! a))).

Definition GetBatchVisibility (addresses : list string) : result (gmap string VisibilityLevel) :=
  match addresses with
  | [] => Ok ∅
  | _ =>
      let uniqueAddrs : gset string := list_to_set (ToLower <$> addresses) in
      let res := decideEach (fun _ => Some VisibilityHidden) ∅ (elements uniqueAddrs) in
      addressOwners ← byKey <$> query db "GetBatchVisibility owners" "" (ownerRows uniqueAddrs);
      let res := decideEach (fun addr =>
        match addressOwners !! addr with
        | None => if IsPrecompileAddress addr then Some VisibilityFull else None
        | Some did => if isOwn did then Some VisibilityFull else None
        end) res (elements uniqueAddrs) in
      let publicAddrs := unownedAddrs addressOwners uniqueAddrs in
      if decide (publicAddrs = ∅) then Ok res
      else
        orgContractAddrs ← query db "GetBatchVisibility contracts" "" (contractRows publicAddrs);
        let res := decideEach (fun _ => Some VisibilityRedacted) res orgContractAddrs in
        if bool_decide (viewerDID = "") || bool_decide (orgContractAddrs = []) || negb viewScopeAllows then Ok res
        else
          contractGroupIDs ← groupsByKey <$> query db "GetBatchVisibility groups" "" (groupRows orgContractAddrs);
          if decide (contractGroupIDs = ∅) then Ok res
          else
            viewerGroups ← query db "GetBatchVisibility members" "" (memberRows (allGroups contractGroupIDs));
            Ok (decideEach (fun addr => if inGroup contractGroupIDs viewerGroups addr then Some VisibilityFull else None)
                  res (elements (dom contractGroupIDs)))
  end.

Definition visible (addr : string) (reason : VisibilityReason) : AddressVisibility :=
  {| av_Address := addr; av_Visible := true; av_Level := VisibilityFull; av_Reason := reason |}.
Definition noAccess (level : VisibilityLevel) (addr : string) : AddressVisibility :=
  {| av_Address := addr; av_Visible := false; av_Level := level; av_Reason := ReasonNoAccess |}.

Definition GetBatchVisibilityDetailed (addresses : list string) : result (gmap string AddressVisibility) :=
  match addresses with
  | [] => Ok ∅
  | _ =>
      let uniqueAddrs : gset string := list_to_set (ToLower <$> addresses) in
      let res := decideEach (fun addr => Some (noAccess VisibilityHidden addr)) ∅ (elements uniqueAddrs) in
      addressOwners ← byKey <$> query db "GetBatchVisibilityDetailed owners" "" (ownerRows uniqueAddrs);
      let res := decideEach (fun addr =>
        match addressOwners !! addr with
        | None => if IsPrecompileAddress addr then Some (visible addr ReasonPublicAddress) else None
        | Some did => if isOwn did then Some (visible addr ReasonOwnAddress) else None
        end) res (elements uniqueAddrs) in
      let publicAddrs := unownedAddrs addressOwners uniqueAddrs in
      if decide (publicAddrs = ∅) then Ok res
      else
        orgContractAddrs ← query db "GetBatchVisibilityDetailed contracts" "" (contractRows publicAddrs);
        let res := decideEach (fun addr => Some (noAccess VisibilityRedacted addr)) res orgContractAddrs in
        if bool_decide (viewerDID = "") || bool_decide (orgContractAddrs = []) || negb viewScopeAllows then Ok res
        else
          contractGroupIDs ← groupsByKey <$> query db "GetBatchVisibilityDetailed groups" "" (groupRows orgContractAddrs);
          if decide (contractGroupIDs = ∅) then Ok res
          else
            viewerGroups ← query db "GetBatchVisibilityDetailed members" "" (memberRows (allGroups contractGroupIDs));
            Ok (decideEach (fun addr =>
                  if inGroup contractGroupIDs viewerGroups addr then Some (visible addr ReasonRBACGroupMember) else None)
                  res (elements (dom contractGroupIDs)))
  end.

(** ** Events *)

(** [cg.event_rules IS NOT NULL] and neither the empty list nor [null] *)
Definition hasEventRules (cg : ContractGrant) : bool :=
  match cg_EventRules cg with
  | None => false
  | Some f => erf_Wildcard f || negb (bool_decide (erf_Rules f = []))
  end.
Definition eventAccessRows (addrs : list string) : list string :=
  map (fun c => ToLower (c_Address c)) (List.filter (fun c =>
    contains addrs (ToLower (c_Address c)) &&
    existsb (fun g =>
      bool_decide (g_OrgID g = c_OrgID c) &&
      existsb (fun m =>
        bool_decide (um_GroupID m = g_ID g) && unexpired now m &&
        existsb (fun u => bool_decide (u_ID u = um_UserID m) && bool_decide (u_ExternalID u = viewerDID)) (db_users db))
        (db_user_memberships db) &&
      (g_IsOrgAdmin g ||
       existsb (fun cg => bool_decide (cg_ContractID cg = c_ID c) && bool_decide (cg_GroupID cg = g_ID g) &&
                          hasEventRules cg) (db_contract_grants db))) (db_groups db)) (db_contracts db)).
Definition GetBatchEventAccess (contractAddresses : list string) : result (gset string) :=
  if decide (contractAddresses = [] \/ viewerDID = "") then Ok ∅
  else list_to_set <$> query db "GetBatchEventAccess" "" (eventAccessRows (dedup [] (ToLower <$> contractAddresses))).
End visibility.

(** ** Exact visibility of addresses, and agreement of the two lookups. *)
From S2P Require Import Prelude GoStrings Methods Models OrgContext Db Writes Access Deployments.

(** ** Loops *)
Lemma decideEach_lookup {V} (verdict : string -> option V) res keys a :
  decideEach verdict res keys !! a =
  match (if decide (a ∈ keys) then verdict a else None) with Some v => Some v | None => res !! a end.
Proof.
  unfold decideEach. revert res. induction keys as [|k keys IH]; intros res; cbn [foldl].
  - rewrite decide_False; [done|]. apply not_elem_of_nil.
  - rewrite IH. destruct (decide (a ∈ keys)) as [Hin|Hout].
    + rewrite decide_True by by right. destruct (verdict a) eqn:Ea; [done|].
      destruct (decide (k = a)) as [->|Hne]; [by rewrite Ea|]. destruct (verdict k); [by rewrite lookup_insert_ne|done].
    + destruct (decide (k = a)) as [->|Hne].
      * rewrite decide_True by by left. destruct (verdict a); [by rewrite lookup_insert_eq|done].
      * rewrite decide_False by (intros [->|]%elem_of_cons; done). destruct (verdict k); [by rewrite lookup_insert_ne|done].
Qed.
Lemma decideEach_fmap {V W} (f : V -> W) (verdict : string -> option V) res keys :
  f <$> decideEach verdict res keys = decideEach (fun a => f <$> verdict a) (f <$> res) keys.
Proof.
  apply map_eq. intros a. rewrite lookup_fmap, !decideEach_lookup, lookup_fmap.
  destruct (decide (a ∈ keys)); [|done]. by destruct (verdict a).
Qed.
Lemma decideEach_ext {V} (f g : string -> option V) res keys :
  (forall a, f a = g a) -> decideEach f res keys = decideEach g res keys.
Proof. intros H. apply map_eq. intros a. by rewrite !decideEach_lookup, H. Qed.

(** One stage of the two lookups. *)
Lemma level_stage (vd : string -> option AddressVisibility) v resd res keys :
  (forall a, av_Level <$> vd a = v a) -> av_Level <$> resd = res ->
  av_Level <$> decideEach vd resd keys = decideEach v res keys.
Proof. intros H <-. rewrite decideEach_fmap. by apply decideEach_ext. Qed.

Lemma byKey_lookup_some rows a did : byKey rows !! a = Some did -> (a, did) ∈ rows.
Proof.
  unfold byKey. cut (forall m : gmap string string, foldl (fun m kv => <[kv.1 := kv.2]> m) m rows !! a = Some did ->
    (a, did) ∈ rows \/ m !! a = Some did).
  { intros H Ha. destruct (H ∅ Ha) as [|H0]; [done|]. by rewrite lookup_empty in H0. }
  induction rows as [|[k v] rows IH]; intros m; cbn [foldl]; [by right|]. intros [H|H]%IH; [left; by right|].
  simpl in H. destruct (decide (k = a)) as [->|Hne]; [rewrite lookup_insert_eq in H; injection H as ->; left; left|].
  rewrite lookup_insert_ne in H by done. by right.
Qed.

Lemma groupsByKey_lookup rows a g : g ∈ default ∅ (groupsByKey rows !! a) <-> (a, g) ∈ rows.
Proof.
  unfold groupsByKey. cut (forall m : gmap string (gset string), g ∈ default ∅ (foldl (fun m kv => <[kv.1 := {[kv.2]} ∪ default ∅ (m !! kv.1)]> m) m rows !! a)
    <-> (a, g) ∈ rows \/ g ∈ default ∅ (m !! a)).
  { intros ->. rewrite lookup_empty. simpl. set_solver. }
  induction rows as [|[k v] rows IH]; intros m; cbn [foldl]; [set_solver|]. rewrite IH, elem_of_cons. simpl.
  destruct (decide (k = a)) as [->|Hne].
  - rewrite lookup_insert_eq. simpl. rewrite elem_of_union, elem_of_singleton. naive_solver.
  - rewrite lookup_insert_ne by done. naive_solver.
Qed.
Lemma allGroups_spec byAddr g : g ∈ allGroups byAddr <-> exists a, g ∈ default ∅ (byAddr !! a).
Proof.
  unfold allGroups. rewrite elem_of_list_to_set, list_elem_of_In, in_concat. setoid_rewrite in_map_iff. split.
  - intros (l & ([a X] & <- & Hin) & Hg). apply list_elem_of_In, elem_of_map_to_list in Hin. exists a. rewrite Hin. simpl in *.
    by apply elem_of_elements, list_elem_of_In.
  - intros (a & Hg). destruct (byAddr !! a) as [X|] eqn:E; [|by apply elem_of_empty in Hg]. exists (elements X). split.
    + exists (a, X). split; [done|]. by apply list_elem_of_In, elem_of_map_to_list.
    + by apply list_elem_of_In, elem_of_elements.
Qed.

(** The queries answer. *)
Ltac answer := rewrite ?query_runs by done; cbn [mbind result_bind fmap result_fmap].

(** ** The two lookups agree *)
Section agree.
Context (now : Z) (db : Database) (ctx : Ctx) (viewerDID : string).

(** The levels the API and the log masking read from the detailed lookup are
    those of the lookup the redaction engine uses, for every viewer, scope and
    list of addresses, as long as the queries of both answer. *)
Lemma levels_agree addresses :
  no_fault db ->
  visibilityMapFromDetailed <$> GetBatchVisibilityDetailed now db ctx viewerDID addresses =
  GetBatchVisibility now db ctx viewerDID addresses.
Proof.
  intros Hn. unfold GetBatchVisibilityDetailed, GetBatchVisibility, visibilityMapFromDetailed.
  destruct addresses as [|a0 addresses]; [cbn; f_equal; apply fmap_empty|].
  set (uniq := list_to_set _ : gset string). answer.
  set (owners := byKey _).
  assert (H1 : forall resd res, av_Level <$> resd = res ->
    av_Level <$> decideEach (fun addr => match owners !! addr with
        | None => if IsPrecompileAddress addr then Some (visible addr ReasonPublicAddress) else None
        | Some did => if isOwn viewerDID did then Some (visible addr ReasonOwnAddress) else None end) resd (elements uniq) =
    decideEach (fun addr => match owners !! addr with
        | None => if IsPrecompileAddress addr then Some VisibilityFull else None
        | Some did => if isOwn viewerDID did then Some VisibilityFull else None end) res (elements uniq)).
  { intros resd res. apply level_stage. intros a. destruct (owners !! a) as [did|]; [by destruct (isOwn _ did)|].
    by destruct (IsPrecompileAddress a). }
  specialize (H1 _ _ (level_stage (fun addr => Some (noAccess VisibilityHidden addr)) (fun _ => Some VisibilityHidden)
    ∅ ∅ (elements uniq) (fun _ => eq_refl) (fmap_empty _))).
  case_decide as Hp; [by rewrite <- H1|]. answer.
  assert (H2 := level_stage (fun addr => Some (noAccess VisibilityRedacted addr)) (fun _ => Some VisibilityRedacted)
    _ _ (contractRows db (unownedAddrs owners uniq)) (fun _ => eq_refl) H1).
  destruct (_ || _); [by rewrite <- H2|]. answer. case_decide; [by rewrite <- H2|]. answer. f_equal. apply level_stage; [|done].
  intros a. by destruct (inGroup _ _ a).
Qed.

(** ** Exactly who sees an address *)

(** A live membership in a group of the owning organization that administers it
    or was granted the contract, within the scope of the view. *)
Definition grantedContract (a : string) : Prop :=
  viewerDID <> "" /\ viewScopeAllows ctx = true /\ exists c g m u,
    c ∈ db_contracts db /\ ToLower (c_Address c) = a /\ inViewScope ctx c = true /\
    g ∈ db_groups db /\ g_OrgID g = c_OrgID c /\ (g_IsOrgAdmin g = true \/ grantedTo db c g = true) /\
    m ∈ db_user_memberships db /\ um_GroupID m = g_ID g /\ unexpired now m = true /\
    u ∈ db_users db /\ u_ID u = um_UserID m /\ u_ExternalID u = viewerDID.
Definition linkedTo (a did : string) : Prop :=
  exists l, l ∈ db_eth_address_links db /\ ToLower (el_EthAddress l) = a /\ el_Revoked l = false /\ el_DID l = did.
(** What a viewer may see in clear. *)
Definition entitled (a : string) : Prop :=
  (viewerDID <> "" /\ linkedTo a viewerDID) \/ IsPrecompileAddress a = true \/ grantedContract a.

Lemma groupRows_spec addrs a g :
  (a, g) ∈ groupRows db ctx addrs <-> a ∈ addrs /\ exists c gr,
    c ∈ db_contracts db /\ ToLower (c_Address c) = a /\ inViewScope ctx c = true /\
    gr ∈ db_groups db /\ g_ID gr = g /\ g_OrgID gr = c_OrgID c /\ (g_IsOrgAdmin gr = true \/ grantedTo db c gr = true).
Proof.
  unfold groupRows. rewrite list_elem_of_In, in_concat. setoid_rewrite in_map_iff. split.
  - intros (l & (c & <- & Hc) & Hin). destruct (contains addrs _) eqn:Ea, (inViewScope ctx c) eqn:Es; try done. simpl in Hin.
    apply in_map_iff in Hin as (gr & [= <- <-] & Hg). apply filter_In in Hg as [Hg H].
    apply andb_true_iff in H as [Ho%bool_decide_eq_true Hx%orb_true_iff]. apply contains_true in Ea. split; [done|].
    exists c, gr. rewrite !list_elem_of_In. split_and!; done.
  - intros (Ha & c & gr & Hc & Hca & Hs & Hg & <- & Ho & Hx). apply list_elem_of_In in Hc, Hg.
    eexists. split; [exists c; split; [reflexivity|done]|]. rewrite Hca, Hs, (proj2 (contains_true _ _) Ha). simpl.
    apply in_map_iff. exists gr. split; [done|]. apply filter_In. split; [done|].
    rewrite bool_decide_true by done. simpl. by apply orb_true_iff.
Qed.
Lemma memberRows_spec X g :
  g ∈ memberRows now db viewerDID X <-> g ∈ X /\ exists m u,
    m ∈ db_user_memberships db /\ um_GroupID m = g /\ unexpired now m = true /\
    u ∈ db_users db /\ u_ID u = um_UserID m /\ u_ExternalID u = viewerDID.
Proof.
  unfold memberRows. rewrite list_elem_of_In, in_map_iff. setoid_rewrite filter_In. split.
  - intros (m & <- & Hm & H). apply andb_true_iff in H as [[Hu Hg%bool_decide_eq_true]%andb_true_iff Hx]. split; [done|].
    apply existsb_exists in Hu as (u & Hu & [H1%bool_decide_eq_true H2%bool_decide_eq_true]%andb_true_iff).
    exists m, u. rewrite !list_elem_of_In. done.
  - intros (Hg & m & u & Hm & <- & Hx & Hu & H1 & H2). apply list_elem_of_In in Hm, Hu. exists m. split; [done|].
    split; [done|]. rewrite Hx, bool_decide_true, !andb_true_r by done. apply existsb_exists. exists u.
    split; [done|]. by rewrite !bool_decide_true.
Qed.

Lemma granted_rows addrs a :
  viewerDID <> "" -> viewScopeAllows ctx = true -> a ∈ addrs ->
  inGroup (groupsByKey (groupRows db ctx addrs))
    (memberRows now db viewerDID (allGroups (groupsByKey (groupRows db ctx addrs)))) a = true <-> grantedContract a.
Proof.
  intros Hv Hs Ha. unfold inGroup, grantedContract. rewrite existsb_exists. setoid_rewrite <- list_elem_of_In.
  setoid_rewrite elem_of_elements. setoid_rewrite groupsByKey_lookup. setoid_rewrite contains_true.
  setoid_rewrite memberRows_spec. split.
  - intros (g & (_ & c & gr & H1 & H2 & H3 & H4 & <- & H5 & H6)%groupRows_spec & _ & m & u & H7 & H8 & H9 & H10 & H11 & H12).
    split; [done|]. split; [done|]. exists c, gr, m, u. split_and!; done.
  - intros (_ & _ & c & g & m & u & H1 & H2 & H3 & H4 & H5 & H6 & H7 & H8 & H9 & H10 & H11 & H12). exists (g_ID g).
    assert (Hrow : (a, g_ID g) ∈ groupRows db ctx addrs).
    { apply groupRows_spec. split; [done|]. exists c, g. split_and!; done. }
    split; [done|]. split; [apply allGroups_spec; exists a; by apply groupsByKey_lookup|].
    exists m, u. split_and!; done.
Qed.

Definition ownerOf (addresses : list string) (a : string) : option string :=
  byKey (ownerRows db (list_to_set (ToLower <$> addresses))) !! a.

Lemma contractRows_spec X a :
  a ∈ contractRows db X <-> a ∈ X /\ exists c, c ∈ db_contracts db /\ ToLower (c_Address c) = a.
Proof.
  unfold contractRows. rewrite list_elem_of_In, filter_In, in_map_iff, bool_decide_eq_true.
  setoid_rewrite <- list_elem_of_In. naive_solver.
Qed.
Lemma unowned_spec owners X a :
  a ∈ unownedAddrs owners X <-> a ∈ X /\ owners !! a = None /\ IsPrecompileAddress a = false.
Proof.
  unfold unownedAddrs. rewrite elem_of_list_to_set, list_elem_of_In, filter_In, <- list_elem_of_In, elem_of_elements.
  rewrite andb_true_iff, negb_true_iff, bool_decide_eq_true. done.
Qed.
Lemma granted_listed a : grantedContract a -> exists c, c ∈ db_contracts db /\ ToLower (c_Address c) = a.
Proof. intros (_ & _ & c & g & m & u & Hc & Ha & _). eauto. Qed.

(** What the contract stage adds to the level of an address. *)
Lemma level_by_owner owner a (res1 m : gmap string VisibilityLevel) (cs : list string) :
  res1 !! a = Some (match owner with
    | Some did => if isOwn viewerDID did then VisibilityFull else VisibilityHidden
    | None => if IsPrecompileAddress a then VisibilityFull else VisibilityHidden end) ->
  (a ∈ cs <-> (owner = None /\ IsPrecompileAddress a = false) /\ exists c, c ∈ db_contracts db /\ ToLower (c_Address c) = a) ->
  (a ∉ cs -> m !! a = res1 !! a) ->
  (a ∈ cs -> (m !! a = Some VisibilityFull /\ grantedContract a) \/ (m !! a = Some VisibilityRedacted /\ ~ grantedContract a)) ->
  match owner with
  | Some did => m !! a = Some (if isOwn viewerDID did then VisibilityFull else VisibilityHidden)
  | None =>
      if IsPrecompileAddress a then m !! a = Some VisibilityFull
      else (m !! a = Some VisibilityFull <-> grantedContract a) /\
           (m !! a <> Some VisibilityFull -> m !! a = Some VisibilityRedacted \/ m !! a = Some VisibilityHidden)
  end.
Proof.
  intros H1 Hcs Hout Hin. destruct owner as [did|]; [rewrite Hout, H1; [done|]; rewrite Hcs; by intros [[]]|].
  destruct (IsPrecompileAddress a) eqn:Ep; [rewrite Hout, H1; [done|]; rewrite Hcs; by intros [[]]|].
  destruct (decide (a ∈ cs)) as [Hc|Hc].
  - destruct (Hin Hc) as [[-> Hg]|[-> Hg]]; [done|]. split; [split; [discriminate|done]|]. by left.
  - rewrite (Hout Hc), H1. split; [|by right]. split; [discriminate|]. intros Hg. exfalso. apply Hc, Hcs.
    split; [done|]. by apply granted_listed.
Qed.

(** The level of an address, by cases on who it is linked to. *)
Lemma visibility_lookup addresses a :
  no_fault db -> a ∈ ToLower <$> addresses ->
  exists m, GetBatchVisibility now db ctx viewerDID addresses = Ok m /\
  match ownerOf addresses a with
  | Some did => m !! a = Some (if isOwn viewerDID did then VisibilityFull else VisibilityHidden)
  | None =>
      if IsPrecompileAddress a then m !! a = Some VisibilityFull
      else (m !! a = Some VisibilityFull <-> grantedContract a) /\
           (m !! a <> Some VisibilityFull -> m !! a = Some VisibilityRedacted \/ m !! a = Some VisibilityHidden)
  end.
Proof.
  intros Hn Ha. unfold GetBatchVisibility, ownerOf. destruct addresses as [|a0 addresses]; [by apply elem_of_nil in Ha|].
  set (uniq := list_to_set _ : gset string).
  assert (Hu : a ∈ elements uniq) by (by apply elem_of_elements, elem_of_list_to_set). answer.
  set (owners := byKey _). set (res1 := decideEach _ _ (elements uniq)).
  assert (H1 : res1 !! a = Some (match owners !! a with
      | Some did => if isOwn viewerDID did then VisibilityFull else VisibilityHidden
      | None => if IsPrecompileAddress a then VisibilityFull else VisibilityHidden end)).
  { unfold res1. rewrite !decideEach_lookup, !decide_True by done.
    destruct (owners !! a) as [did|]; [by destruct (isOwn _ _)|by destruct (IsPrecompileAddress a)]. }
  clearbody res1.
  set (public := unownedAddrs owners uniq). set (cs := contractRows db public).
  assert (Hcs : a ∈ cs <-> (owners !! a = None /\ IsPrecompileAddress a = false) /\
                           exists c, c ∈ db_contracts db /\ ToLower (c_Address c) = a).
  { unfold cs, public. rewrite contractRows_spec, unowned_spec. rewrite elem_of_elements in Hu. naive_solver. }
  assert (Hfin := fun m => level_by_owner (owners !! a) a res1 m cs H1 Hcs).
  assert (H2 : forall x, decideEach (fun _ => Some VisibilityRedacted) res1 cs !! x =
                         if decide (x ∈ cs) then Some VisibilityRedacted else res1 !! x).
  { intros x. rewrite decideEach_lookup. by destruct (decide (x ∈ cs)). }
  case_decide as Hp.
  { exists res1. split; [done|]. apply Hfin; [done|]. intros Hc. exfalso.
    apply contractRows_spec in Hc as [Hc _]. fold public in Hp. rewrite Hp in Hc. by apply elem_of_empty in Hc. }
  answer. fold public cs.
  destruct (bool_decide_reflect (viewerDID = "")) as [Hv|Hv]; simpl.
  { eexists. split; [reflexivity|]. apply Hfin; intros Hc; rewrite H2; [by rewrite decide_False|].
    rewrite decide_True by done. right. split; [done|]. by intros [? _]. }
  destruct (bool_decide_reflect (cs = [])) as [He|He]; simpl.
  { eexists. split; [reflexivity|]. apply Hfin; intros Hc; rewrite H2; [by rewrite decide_False|].
    rewrite He in Hc. by apply elem_of_nil in Hc. }
  destruct (viewScopeAllows ctx) eqn:Es; simpl.
  2:{ eexists. split; [reflexivity|]. apply Hfin; intros Hc; rewrite H2; [by rewrite decide_False|].
      rewrite decide_True by done. right. split; [done|]. intros (_ & ? & _). congruence. }
  answer. pose proof (granted_rows cs a Hv Es) as Hg. set (G := groupsByKey _) in *.
  case_decide as HG.
  { eexists. split; [reflexivity|]. apply Hfin; intros Hc; rewrite H2; [by rewrite decide_False|].
    rewrite decide_True by done. right. split; [done|]. intros H%(Hg Hc). unfold inGroup in H.
    rewrite HG, lookup_empty in H. done. }
  answer. eexists. split; [reflexivity|]. set (vg := memberRows _ _ _ _) in *.
  assert (Hdom : inGroup G vg a = true -> a ∈ elements (dom G) /\ a ∈ cs).
  { unfold inGroup. intros (g & Hin & _)%existsb_exists. apply list_elem_of_In, elem_of_elements in Hin. split.
    - apply elem_of_elements, elem_of_dom. destruct (G !! a); [done|]. by apply elem_of_empty in Hin.
    - unfold G in Hin. apply groupsByKey_lookup, groupRows_spec in Hin as [Hin _]. done. }
  apply Hfin; intros Hc; rewrite decideEach_lookup, H2.
  - destruct (inGroup G vg a) eqn:Ei; [by destruct (Hdom eq_refl)|]. destruct (decide (a ∈ cs)); [done|].
    by destruct (decide (a ∈ elements (dom G))).
  - specialize (Hg Hc). destruct (inGroup G vg a) eqn:Ei.
    + rewrite decide_True by (by apply Hdom). left. split; [done|]. by apply Hg.
    + rewrite (decide_True _ _ Hc). right. split; [by destruct (decide (a ∈ elements (dom G)))|]. intros H%Hg. done.
Qed.
End agree.

(** ** Whatever fails on the way *)
Definition quiet (db : Database) : Database := {|
  db_organizations := db_organizations db; db_groups := db_groups db; db_contracts := db_contracts db;
  db_contract_grants := db_contract_grants db; db_group_access := db_group_access db; db_users := db_users db;
  db_user_memberships := db_user_memberships db; db_preregistered_addresses := db_preregistered_addresses db;
  db_eth_address_links := db_eth_address_links db; db_fault := fun _ => None |}.
Lemma query_quiet {A} db name msg (v w : A) : query db name msg v = Ok w -> w = v.
Proof. unfold query. destruct (db_fault db name); [done|]. by intros [= <-]. Qed.

Lemma detailed_quiet now db ctx did addresses m :
  GetBatchVisibilityDetailed now db ctx did addresses = Ok m ->
  GetBatchVisibilityDetailed now (quiet db) ctx did addresses = Ok m.
Proof.
  unfold GetBatchVisibilityDetailed. destruct addresses as [|a addresses]; [done|]. cbn zeta.
  destruct (query db "GetBatchVisibilityDetailed owners" _ _) as [o|] eqn:E1; [|done]. apply query_quiet in E1 as ->.
  change (ownerRows (quiet db)) with (ownerRows db). cbn [query db_fault quiet fmap result_fmap mbind result_bind].
  case_decide; [done|].
  destruct (query db "GetBatchVisibilityDetailed contracts" _ _) as [c|] eqn:E2; [|done]. apply query_quiet in E2 as ->.
  change (contractRows (quiet db)) with (contractRows db). cbn [query db_fault quiet mbind result_bind].
  destruct (_ || _); [done|].
  destruct (query db "GetBatchVisibilityDetailed groups" _ _) as [g|] eqn:E3; [|done]. apply query_quiet in E3 as ->.
  change (groupRows (quiet db)) with (groupRows db). cbn [query db_fault quiet fmap result_fmap mbind result_bind].
  case_decide; [done|].
  destruct (query db "GetBatchVisibilityDetailed members" _ _) as [r|] eqn:E4; [|done]. apply query_quiet in E4 as ->. done.
Qed.

Lemma visibility_domain now db ctx did addresses m a :
  no_fault db -> GetBatchVisibility now db ctx did addresses = Ok m -> is_Some (m !! a) -> a ∈ ToLower <$> addresses.
Proof.
  intros Hn. unfold GetBatchVisibility. destruct addresses as [|a0 addresses].
  { intros [= <-]. rewrite lookup_empty. by intros []. }
  set (uniq := list_to_set _ : gset string). answer. set (res1 := decideEach _ _ (elements uniq)).
  intros Hm Hs. destruct (decide (a ∈ uniq)) as [Hin|Hout]; [by apply elem_of_list_to_set in Hin|]. exfalso.
  assert (H1 : res1 !! a = None).
  { unfold res1. rewrite !decideEach_lookup, !decide_False by by rewrite elem_of_elements. done. }
  set (public := unownedAddrs _ uniq) in Hm.
  assert (H2 : a ∉ contractRows db public) by (rewrite contractRows_spec; unfold public; rewrite unowned_spec; tauto).
  cut (m !! a = None); [intros E; rewrite E in Hs; by destruct Hs|]. revert Hm. clear Hs.
  case_decide; [by intros [= <-]|]. answer. set (res2 := decideEach _ res1 _).
  assert (H3 : res2 !! a = None) by (unfold res2; by rewrite decideEach_lookup, decide_False).
  destruct (_ || _); [by intros [= <-]|]. answer. case_decide; [by intros [= <-]|]. answer. intros [= <-].
  rewrite decideEach_lookup, H3. set (G := groupsByKey _). set (vg := memberRows _ _ _ _).
  destruct (inGroup G vg a) eqn:Ei; [|by destruct (decide _)]. exfalso. apply H2.
  unfold inGroup in Ei. apply existsb_exists in Ei as (g & Hg & _). apply list_elem_of_In, elem_of_elements in Hg.
  unfold G in Hg. apply groupsByKey_lookup, groupRows_spec in Hg as [Hg _]. done.
Qed.

(** What the detailed lookup shows in clear, the viewer is entitled to. *)
Lemma shown_is_entitled now db ctx did addresses m a v :
  GetBatchVisibilityDetailed now db ctx did addresses = Ok m -> m !! a = Some v -> av_Level v = VisibilityFull ->
  a ∈ ToLower <$> addresses /\ entitled now db ctx did a.
Proof.
  intros Hm Ha Hv. apply detailed_quiet in Hm.
  assert (Hq : no_fault (quiet db)) by by intros name.
  pose proof (levels_agree now (quiet db) ctx did addresses Hq) as Hag. rewrite Hm in Hag.
  assert (Hl : visibilityMapFromDetailed m !! a = Some VisibilityFull).
  { unfold visibilityMapFromDetailed. rewrite lookup_fmap, Ha. simpl. by rewrite Hv. }
  assert (Hin : a ∈ ToLower <$> addresses).
  { eapply (visibility_domain now (quiet db) ctx did addresses _ a); [done|by rewrite <- Hag|by rewrite Hl]. }
  split; [done|].
  destruct (visibility_lookup now (quiet db) ctx did addresses a Hq Hin) as (m' & Hm' & H).
  rewrite <- Hag in Hm'. injection Hm' as <-. unfold entitled.
  destruct (ownerOf (quiet db) addresses a) as [d|] eqn:Eo.
  - left. rewrite Hl in H. unfold isOwn in H. destruct (bool_decide_reflect (d = did)) as [->|]; [|done].
    destruct (bool_decide_reflect (did = "")); [done|]. split; [done|].
    apply byKey_lookup_some in Eo. unfold ownerRows in Eo. apply list_elem_of_In, in_map_iff in Eo as (l & [= <- <-] & Hin').
    apply filter_In in Hin' as [Hl' [_ Hr%negb_true_iff]%andb_true_iff]. exists l. rewrite list_elem_of_In. done.
  - right. destruct (IsPrecompileAddress a) eqn:Ep; [by left|]. right. by apply H.
Qed.
