(* ===== verification/LogRedaction.v ===== *)
(** * Addresses inside admitted logs: [internal/server/rpc_log_field_redaction.go]
    and the primitives it shares with the explorer
    ([ExtractLogAddresses], [RedactLogAddressFields] of
    [internal/explorer/redactor.go]).

    Each range over the events of an ABI takes an order of its own ([ord]).  At the
    end the renderer is put behind the filters of [Viewer.v]: under an
    impersonation scope the whole answer depends on that organization alone. *)
From S2P Require Import Prelude GoStrings Methods Models Json ReadDecision EventFilter Db Visibility.
From Stdlib Require Import Ascii.
Local Open Scope string_scope.

Notation VisibilityMap := (gmap string VisibilityLevel).

(** ** Topics *)
Definition extractTopicAddress (topic : string) : option string :=
  let t := ToLower topic in
  if negb (Nat.eqb (String.length t) 66) || negb (HasPrefix t "0x") then None
  else if negb (all_zeros (take_str 24 (drop_str 2 t))) then None
  else Some ("0x" +:+ drop_str 26 t).

Definition zeroTopic : string := "0x" +:+ repeat_zeros 64.
(** an absent entry is the empty level, which is not Full *)
Definition redactTopicAddress (addr : string) (level : option VisibilityLevel) : string :=
  match level with
  | Some VisibilityFull => "0x" +:+ repeat_zeros 24 +:+ ToLower (TrimPrefix addr "0x")
  | _ => zeroTopic
  end.

Definition redactTopicField (topic : option string) (visMap : VisibilityMap) : option string :=
  match topic with
  | None => None
  | Some t =>
      match extractTopicAddress t with
      | None => Some t
      | Some addr =>
          let level := visMap !! addr in
          if decide (level = Some VisibilityFull) then Some t else Some (redactTopicAddress addr level)
      end
  end.

(** ** Data *)
Definition zeroByte (b : ascii) : bool := Ascii.eqb b "000"%char.
(** An address, right-aligned in a word. *)
Definition slotAddress (slot : list ascii) : option string :=
  if forallb zeroByte (take 12 slot) then Some (addr_hex_lower (drop 12 slot)) else None.

Fixpoint slotAddresses (eligible : Argument -> bool) (args : list Argument) (bytes : list ascii) : list string :=
  match args with
  | [] => []
  | inp :: args =>
      ((if eligible inp then option_list (slotAddress (take 32 bytes)) else []) ++
       slotAddresses eligible args (drop 32 bytes))%list
  end.

Fixpoint redactSlots (visMap : VisibilityMap) (eligible : Argument -> bool) (args : list Argument) (bytes : list ascii)
  : list ascii * bool :=
  match args with
  | [] => (bytes, false)
  | inp :: args =>
      let '(rest, modified) := redactSlots visMap eligible args (drop 32 bytes) in
      match (if eligible inp then slotAddress (take 32 bytes) else None) with
      | Some addr =>
          if decide (visMap !! addr = Some VisibilityFull) then ((take 32 bytes ++ rest)%list, modified)
          else ((replicate 32 "000"%char ++ rest)%list, true)
      | None => ((take 32 bytes ++ rest)%list, modified)
      end
  end.

Definition isAddressArg (a : Argument) : bool := bool_decide (t_T (arg_Type a) = AddressTy).
(** or 32 fixed bytes *)
Definition isScannedArg (a : Argument) : bool :=
  isAddressArg a || (bool_decide (t_T (arg_Type a) = FixedBytesTy) && bool_decide (t_String (arg_Type a) = "bytes32")).

Section logs.
Context `{HE : EventABI}.

(** The declared non-indexed parameters and the bytes of a log that has them all. *)
Definition eventData (ord : order) (data : string) (contractABI topic0 : option string)
  : option (list Argument * list ascii) :=
  if decide (data = "") then None
  else
    contractABI ← contractABI; topic0 ← topic0;
    ev ← findEventByTopic0 ord contractABI topic0;
    let nonIndexed := nonIndexedArgs ev in
    if decide (nonIndexed = []) then None
    else
      bytes ← DecodeString (TrimPrefix data "0x");
      if Nat.ltb (length bytes) (32 * length nonIndexed) then None else Some (nonIndexed, bytes).

Definition extractDataAddresses (ord : order) (data : string) (contractABI topic0 : option string) : list string :=
  match eventData ord data contractABI topic0 with
  | None => []
  | Some (nonIndexed, bytes) => slotAddresses isAddressArg nonIndexed bytes
  end.

Definition redactLogData (ord : order) (data : string) (contractABI topic0 : option string) (visMap : VisibilityMap)
  : string :=
  match eventData ord data contractABI topic0 with
  | None => data
  | Some (nonIndexed, bytes) =>
      let '(bytes, modified) := redactSlots visMap isScannedArg nonIndexed bytes in
      if modified
      then (if HasPrefix data "0x" || HasPrefix data "0X" then "0x" else "") +:+ EncodeToString bytes
      else data
  end.

Definition RedactLogAddressFields (ord : order) (topics : list (option string)) (data : string)
  (contractABI topic0 : option string) (visMap : VisibilityMap) : list (option string) * string :=
  (map (fun t => redactTopicField t visMap) topics, redactLogData ord data contractABI topic0 visMap).

Definition ExtractLogAddresses (ord : order) (topics : list (option string)) (data : string)
  (contractABI topic0 : option string) : list string :=
  dedup [] (omap (fun t => t ≫= extractTopicAddress) topics ++ extractDataAddresses ord data contractABI topic0)%list.

(** ** Rendering *)

(** [json.Unmarshal] of a member with its error ignored: what does not fit is
    the zero value, element by element. *)
Definition looseStr (v : option raw) : string := match v with Some (RStr s) => s | _ => "" end.
Definition looseStrs (v : option raw) : list string :=
  match v with Some (RArr l) => map (fun x => looseStr (Some x)) l | _ => [] end.

Record parsedLog := {
  pl_fields : gmap string raw; pl_topics : list (option string); pl_data : string; pl_abi : option string;
  pl_topic0 : option string }.

Definition parseLog (abiProvider : ABIProvider) (rawLog : raw) : option parsedLog :=
  m ← decode_map rawLog;
  let topics := Some <$> looseStrs (m !! "topics") in
  let abi := GetContractABI abiProvider (looseStr (m !! "address")) in
  Some {| pl_fields := m; pl_topics := topics; pl_data := looseStr (m !! "data");
          pl_abi := if decide (abi = "") then None else Some abi; pl_topic0 := head topics ≫= id |}.

(** [order] enumerates the set; [ord i] and [ord' i] are the ranges of the [i]-th log. *)
Variable ord ord' : nat -> order.
Variable enumerate : gset string -> list string.
(** [addrVisResolver], [None] when it is not wired *)
Variable resolver : option (string -> list string -> result (gmap string AddressVisibility)).

Definition needsMask (a : AdmittedLog) : bool := match al_Payload a with LogPayloadFull => false | LogPayloadMasked => true end.

Fixpoint collectAddresses (abiProvider : ABIProvider) (i : nat) (admitted : list AdmittedLog) : gset string :=
  match admitted with
  | [] => ∅
  | a :: admitted =>
      (if needsMask a
       then match parseLog abiProvider (al_Raw a) with
            | Some p => list_to_set (ExtractLogAddresses (ord i) (pl_topics p) (pl_data p) (pl_abi p) (pl_topic0 p))
            | None => ∅
            end
       else ∅) ∪ collectAddresses abiProvider (S i) admitted
  end.

Definition levelsOf (detailed : gmap string AddressVisibility) : VisibilityMap :=
  foldl (fun m kv => <[ToLower kv.1 := av_Level kv.2]> m) ∅ (map_to_list detailed).

(** An assignment to a nil map panics: a [null] log has no fields to set. *)
Definition panicNilMap : string := "panic: assignment to entry in nil map".

Definition renderMasked (i : nat) (visMap : VisibilityMap) (rawLog : raw) (p : parsedLog) : result raw :=
  match rawLog with
  | RNull => Err panicNilMap
  | _ =>
      let '(topics, data) := RedactLogAddressFields (ord' i) (pl_topics p) (pl_data p) (pl_abi p) (pl_topic0 p) visMap in
      Ok (marshal_map (<["data" := RStr data]> (<["topics" := RArr (map (fun t => RStr (default "" t)) topics)]> (pl_fields p))))
  end.

Fixpoint renderAll (abiProvider : ABIProvider) (visMap : VisibilityMap) (i : nat) (admitted : list AdmittedLog)
  : result (list raw) :=
  match admitted with
  | [] => Ok []
  | a :: admitted =>
      if needsMask a
      then match parseLog abiProvider (al_Raw a) with
           | Some p =>
               r ← renderMasked i visMap (al_Raw a) p;
               rest ← renderAll abiProvider visMap (S i) admitted; Ok (r :: rest)
           | None => renderAll abiProvider visMap (S i) admitted
           end
      else rest ← renderAll abiProvider visMap (S i) admitted; Ok (al_Raw a :: rest)
  end.

Definition redactAdmittedLogs (viewerDID : string) (abiProvider : ABIProvider) (admitted : list AdmittedLog)
  : result (list raw) :=
  match resolver with
  | None => Ok (map al_Raw admitted)
  | Some GetBatchVisibilityDetailed =>
      let addrSet := collectAddresses abiProvider 0 admitted in
      let visMap := if decide (addrSet = ∅) then ∅
        else match GetBatchVisibilityDetailed viewerDID (enumerate addrSet) with
        | Ok detailed => levelsOf detailed
        | Err _ => ∅
        end in
      renderAll abiProvider visMap 0 admitted
  end.

Definition redactEmbeddedLogAddresses (viewerDID : string) (rawLogs : list raw) (abiProvider : ABIProvider)
  : result (list raw) :=
  redactAdmittedLogs viewerDID abiProvider (map (fun r => {| al_Raw := r; al_Payload := LogPayloadMasked |}) rawLogs).

(** ** The administrator's dry run: every log of an answer is masked. *)
Definition answerFields (body : raw) : option (raw * raw) :=
  _ ← member_str "jsonrpc" body; id ← member_raw "id" body; result ← member_raw "result" body;
  error ← member_raw "error" body;
  match error, result with
  | None, Some r => Some (default RNull id, r)
  | _, _ => None
  end.
Definition answerWith (id result : raw) : raw := RObj [("jsonrpc", RStr "2.0"); ("id", id); ("result", result)].

Definition redactLogsArrayResponseFields (viewerDID : string) (abiProvider : ABIProvider) (body : option raw)
  : result (option raw) :=
  match resolver, body ≫= answerFields with
  | Some _, Some (id, r) =>
      match decode_list r with
      | Some rawLogs =>
          redacted ← redactEmbeddedLogAddresses viewerDID rawLogs abiProvider; Ok (Some (answerWith id (RArr redacted)))
      | None => Ok body
      end
  | _, _ => Ok body
  end.

Definition redactReceiptResponseFields (viewerDID : string) (abiProvider : ABIProvider) (body : option raw)
  : result (option raw) :=
  match resolver, body ≫= answerFields with
  | Some _, Some (_, RNull) => Ok body
  | Some _, Some (id, r) =>
      match (receipt ← decode_map r; logsRaw ← receipt !! "logs"; rawLogs ← decode_list logsRaw; Some (receipt, rawLogs)) with
      | Some (receipt, rawLogs) =>
          redacted ← redactEmbeddedLogAddresses viewerDID rawLogs abiProvider;
          Ok (Some (answerWith id (marshal_map (<["logs" := RArr redacted]> receipt))))
      | None => Ok body
      end
  | _, _ => Ok body
  end.
End logs.

(** ** What a masked log still shows. *)
From S2P Require Import Prelude GoStrings Methods Models OrgContext Json ReadDecision EventFilter Db.
From S2P Require Import Writes Access Deployments Visibility.
From Stdlib Require Import Ascii.

Definition zeroAddress : string := "0x0000000000000000000000000000000000000000".

(** ** Topics *)
Lemma redacted_topic_shows visMap t a :
  extractTopicAddress (default "" (redactTopicField (Some t) visMap)) = Some a ->
  a = zeroAddress \/ (extractTopicAddress t = Some a /\ visMap !! a = Some VisibilityFull).
Proof.
  unfold redactTopicField. destruct (extractTopicAddress t) as [x|] eqn:E.
  - case_decide as Hf; simpl.
    + rewrite E. intros [= ->]. by right.
    + intros H. left. replace (redactTopicAddress x (visMap !! x)) with zeroTopic in H
        by (by destruct (visMap !! x) as [[]|]). vm_compute in H. by injection H as <-.
  - simpl. by rewrite E.
Qed.

(** ** Words of the data *)
Section slots.
Context (visMap : gmap string VisibilityLevel) (eligible : Argument -> bool).

Lemma redactSlots_length args bytes :
  32 * length args <= length bytes -> length (redactSlots visMap eligible args bytes).1 = length bytes.
Proof.
  revert bytes. induction args as [|inp args IH]; intros bytes Hl; [done|]. cbn [redactSlots length] in *.
  specialize (IH (drop 32 bytes)). rewrite length_drop in IH.
  destruct (redactSlots visMap eligible args (drop 32 bytes)) as [rest m]. simpl in IH.
  assert (Hr : length rest = length bytes - 32) by (apply IH; lia).
  assert (Ht : length (take 32 bytes) = 32) by (rewrite length_take; lia).
  destruct (if eligible inp then _ else None); [case_decide|]; cbn [fst]; rewrite length_app, ?length_replicate, ?Ht; lia.
Qed.

Lemma zero_slot : slotAddress (replicate 32 "000"%char) = Some zeroAddress.
Proof. reflexivity. Qed.

Lemma redactSlots_shows args bytes a :
  32 * length args <= length bytes ->
  a ∈ slotAddresses eligible args (redactSlots visMap eligible args bytes).1 ->
  a = zeroAddress \/ visMap !! a = Some VisibilityFull.
Proof.
  revert bytes. induction args as [|inp args IH]; intros bytes Hl; [by intros ?%elem_of_nil|].
  cbn [redactSlots length] in *. specialize (IH (drop 32 bytes)). rewrite length_drop in IH.
  destruct (redactSlots visMap eligible args (drop 32 bytes)) as [rest m]. simpl in IH.
  assert (Ht : length (take 32 bytes) = 32) by (rewrite length_take; lia).
  assert (Hsplit : forall w, length w = 32 ->
    a ∈ slotAddresses eligible (inp :: args) (w ++ rest)%list ->
    a ∈ (if eligible inp then option_list (slotAddress w) else []) \/ a ∈ slotAddresses eligible args rest).
  { intros w Hw. cbn [slotAddresses]. rewrite <- Hw, take_app_length, drop_app_length. apply elem_of_app. }
  destruct (if eligible inp then slotAddress (take 32 bytes) else None) as [x|] eqn:Ex; [case_decide as Hf|]; cbn [fst].
  - intros [H|H]%Hsplit; [|apply IH; [lia|done]|done]. destruct (eligible inp); [|by apply elem_of_nil in H].
    rewrite Ex in H. apply list_elem_of_singleton in H as ->. by right.
  - intros [H|H]%Hsplit; [|apply IH; [lia|done]|by rewrite length_replicate]. destruct (eligible inp); [|by apply elem_of_nil in H].
    rewrite zero_slot in H. apply list_elem_of_singleton in H. by left.
  - intros [H|H]%Hsplit; [|apply IH; [lia|done]|done]. destruct (eligible inp); [|by apply elem_of_nil in H].
    rewrite Ex in H. by apply elem_of_nil in H.
Qed.

(** Untouched data shows what it shows. *)
Lemma redactSlots_unmodified args bytes a :
  (redactSlots visMap eligible args bytes).2 = false -> a ∈ slotAddresses eligible args bytes ->
  visMap !! a = Some VisibilityFull.
Proof.
  revert bytes. induction args as [|inp args IH]; intros bytes; [by intros _ ?%elem_of_nil|].
  cbn [redactSlots slotAddresses]. specialize (IH (drop 32 bytes)).
  destruct (redactSlots visMap eligible args (drop 32 bytes)) as [rest m]. simpl in IH.
  rewrite elem_of_app. destruct (eligible inp).
  - destruct (slotAddress (take 32 bytes)) as [x|]; [case_decide as Hf|]; cbn [snd]; intros Hm; [|done|].
    + intros [->%list_elem_of_singleton|H]; auto.
    + intros [H%elem_of_nil|H]; [done|auto].
  - cbn [snd]. intros Hm [H%elem_of_nil|H]; [done|auto].
Qed.
End slots.

(** ** Data *)
Lemma TrimPrefix_0x s : TrimPrefix ("0x" +:+ s) "0x" = s.
Proof. unfold TrimPrefix. rewrite HasPrefix_app. by destruct s. Qed.
Lemma EncodeToString_nonempty bs : bs <> [] -> EncodeToString bs <> "".
Proof. by destruct bs. Qed.

Section data.
Context `{HE : EventABI}.

(** The addresses the masking looks for in the data of a log. *)
Definition shownInData (ord : order) (data : string) (contractABI topic0 : option string) : list string :=
  match eventData ord data contractABI topic0 with
  | None => []
  | Some (nonIndexed, bytes) => slotAddresses isScannedArg nonIndexed bytes
  end.

Lemma eventData_inv ord data contractABI topic0 args bytes :
  eventData ord data contractABI topic0 = Some (args, bytes) <->
  data <> "" /\ exists abi t0 ev, contractABI = Some abi /\ topic0 = Some t0 /\ findEventByTopic0 ord abi t0 = Some ev /\
    nonIndexedArgs ev = args /\ args <> [] /\ DecodeString (TrimPrefix data "0x") = Some bytes /\
    32 * length args <= length bytes.
Proof.
  unfold eventData. split.
  - case_decide as Hd; [done|]. destruct contractABI as [abi|]; [|done]. destruct topic0 as [t0|]; [|done]. cbn [mbind option_bind].
    destruct (findEventByTopic0 ord abi t0) as [ev|] eqn:Ev; [|done]. cbn [mbind option_bind]. case_decide as Ha; [done|].
    destruct (DecodeString _) as [b|] eqn:Eb; [|done]. cbn [mbind option_bind].
    destruct (Nat.ltb_spec (length b) (32 * length (nonIndexedArgs ev))) as [Hlt|Hge]; [done|]. intros [= <- <-].
    split; [done|]. exists abi, t0, ev. split_and!; done.
  - intros (Hd & abi & t0 & ev & -> & -> & Hev & Hargs & Hne & Hb & Hl). rewrite decide_False by done. cbn [mbind option_bind].
    rewrite Hev. cbn [mbind option_bind]. rewrite Hargs, decide_False, Hb by done. cbn [mbind option_bind].
    destruct (Nat.ltb_spec (length bytes) (32 * length args)); [lia|done].
Qed.

Lemma redacted_data_shows ord data contractABI topic0 visMap a :
  a ∈ shownInData ord (redactLogData ord data contractABI topic0 visMap) contractABI topic0 ->
  a = zeroAddress \/ visMap !! a = Some VisibilityFull.
Proof.
  unfold redactLogData. destruct (eventData ord data contractABI topic0) as [[args bytes]|] eqn:E.
  2:{ unfold shownInData. rewrite E. by intros ?%elem_of_nil. }
  pose proof E as (Hd & abi & t0 & ev & -> & -> & Hev & Hargs & Hne & Hb & Hl)%eventData_inv.
  pose proof (redactSlots_length visMap isScannedArg args bytes Hl) as Hlen.
  pose proof (redactSlots_shows visMap isScannedArg args bytes a Hl) as Hs.
  pose proof (redactSlots_unmodified visMap isScannedArg args bytes a) as Hu.
  destruct (redactSlots visMap isScannedArg args bytes) as [bytes' []]; simpl in *.
  - set (out := _ +:+ EncodeToString bytes').
    assert (Hout : DecodeString (TrimPrefix out "0x") = Some bytes').
    { unfold out. destruct (_ || _); [rewrite TrimPrefix_0x|change ("" +:+ EncodeToString bytes') with (EncodeToString bytes'); rewrite TrimPrefix_0x_EncodeToString]; apply DecodeString_EncodeToString. }
    assert (Hne' : out <> "").
    { unfold out. destruct (_ || _); [done|]. simpl. apply EncodeToString_nonempty. intros ->.
      destruct args; [done|]. simpl in *. lia. }
    unfold shownInData. rewrite (proj2 (eventData_inv ord out (Some abi) (Some t0) args bytes')); [done|].
    split; [done|]. exists abi, t0, ev. split_and!; try done. by rewrite Hlen.
  - unfold shownInData. rewrite E. intros Hin. right. by apply Hu.
Qed.
End data.

(** ** Rendered logs *)
Lemma levelsOf_lookup detailed a l :
  levelsOf detailed !! a = Some l -> exists k v, detailed !! k = Some v /\ ToLower k = a /\ av_Level v = l.
Proof.
  unfold levelsOf. intros Ha. setoid_rewrite <- elem_of_map_to_list. revert Ha. generalize (map_to_list detailed) as rows.
  intros rows.
  cut (forall m : gmap string VisibilityLevel, foldl (fun m kv => <[ToLower kv.1 := av_Level kv.2]> m) m rows !! a = Some l ->
    (exists k v, (k, v) ∈ rows /\ ToLower k = a /\ av_Level v = l) \/ m !! a = Some l).
  { intros H H0. destruct (H ∅ H0) as [|H1]; [done|]. by rewrite lookup_empty in H1. }
  induction rows as [|[k v] rows IH]; intros m; cbn [foldl]; [by right|].
  intros [(k' & v' & Hin & Hk)|H]%IH; [left; exists k', v'; split; [by right|done]|].
  simpl in H. destruct (decide (ToLower k = a)) as [<-|Hne]; [|rewrite lookup_insert_ne in H by done; by right].
  rewrite lookup_insert_eq in H. injection H as <-. left. exists k, v. split; [left|done].
Qed.

Section rendered.
Context `{HE : EventABI}.
Context (ord ord' : nat -> order) (enumerate : gset string -> list string) (now : Z) (db : Database) (ctx : Ctx).
Context (viewerDID : string) (abiProvider : ABIProvider).

(** What an answer shows of a log: a log that was unlocked, as it is, or one
    whose addresses, in every topic and in every word the masking covers, are the
    zero address or the viewer's to see. *)
Definition shows_entitled (visible : string -> Prop) (admitted : list AdmittedLog) (r : raw) : Prop :=
  (exists x, x ∈ admitted /\ al_Payload x = LogPayloadFull /\ r = al_Raw x) \/
  exists i x p m, x ∈ admitted /\ al_Payload x = LogPayloadMasked /\ parseLog abiProvider (al_Raw x) = Some p /\
    decode_map r = Some m /\ (forall k, k <> "topics" -> k <> "data" -> m !! k = pl_fields p !! k) /\
    (forall t a, t ∈ looseStrs (m !! "topics") -> extractTopicAddress t = Some a -> a = zeroAddress \/ visible a) /\
    (forall a, a ∈ shownInData (ord' i) (looseStr (m !! "data")) (pl_abi p) (pl_topic0 p) -> a = zeroAddress \/ visible a).

Lemma shows_entitled_more visible x admitted r : shows_entitled visible admitted r -> shows_entitled visible (x :: admitted) r.
Proof.
  intros [(y & Hy & Hr)|(i & y & p & m & Hy & Hr)]; [left; exists y|right; exists i, y, p, m]; (split; [by right|done]).
Qed.

Lemma renderMasked_shows i visMap x p r admitted :
  x ∈ admitted -> al_Payload x = LogPayloadMasked -> parseLog abiProvider (al_Raw x) = Some p ->
  renderMasked ord' i visMap (al_Raw x) p = Ok r ->
  shows_entitled (fun a => visMap !! a = Some VisibilityFull) admitted r.
Proof.
  intros Hin Hx Hp Hr. right. exists i, x, p. eexists. split; [done|]. split; [done|]. split; [done|].
  unfold renderMasked in Hr. destruct (al_Raw x); [done|..]; unfold RedactLogAddressFields in Hr; injection Hr as <-.
  all: split; [apply decode_marshal_map|]; split; [intros k H1 H2; by rewrite !lookup_insert_ne|].
  all: rewrite lookup_insert_ne, !lookup_insert_eq by done; split; [|intros a; apply redacted_data_shows].
  all: unfold parseLog in Hp; simplify_option_eq; cbn [looseStrs pl_topics].
  all: intros t a Ht Ha; rewrite !map_map in Ht; cbn [looseStr] in Ht.
  all: apply list_elem_of_In, in_map_iff in Ht as (u & <- & Hu).
  all: destruct (redacted_topic_shows _ _ _ Ha) as [|[_ ?]]; auto.
Qed.

Lemma renderAll_shows visMap i admitted logs r :
  renderAll ord' abiProvider visMap i admitted = Ok logs -> r ∈ logs ->
  shows_entitled (fun a => visMap !! a = Some VisibilityFull) admitted r.
Proof.
  revert i logs. induction admitted as [|x admitted IH]; intros i logs Hr Hin; cbn [renderAll] in Hr.
  { injection Hr as <-. by apply elem_of_nil in Hin. }
  unfold needsMask in Hr. destruct (al_Payload x) eqn:Ex.
  - destruct (parseLog abiProvider (al_Raw x)) as [p|] eqn:Ep; [|by apply shows_entitled_more; eapply IH].
    destruct (renderMasked ord' i visMap (al_Raw x) p) as [y|e] eqn:Ey; [|done].
    destruct (renderAll ord' abiProvider visMap (S i) admitted) as [rest|e] eqn:Er; [|done]. injection Hr as <-.
    apply elem_of_cons in Hin as [->|Hin]; [eapply renderMasked_shows; [left|done..]|].
    by apply shows_entitled_more; eapply IH.
  - destruct (renderAll ord' abiProvider visMap (S i) admitted) as [rest|e] eqn:Er; [|done]. injection Hr as <-.
    apply elem_of_cons in Hin as [->|Hin]; [left; exists x; split; [left|done]|].
    by apply shows_entitled_more; eapply IH.
Qed.

Lemma shows_entitled_weaken (P Q : string -> Prop) admitted r :
  (forall a, P a -> Q a) -> shows_entitled P admitted r -> shows_entitled Q admitted r.
Proof.
  intros HPQ [Hx|(i & x & p & m & H1 & H2 & H3 & H4 & H5 & H6 & H7)]; [by left|]. right. exists i, x, p, m.
  split_and!; try done.
  - intros t a Ht Ha. destruct (H6 t a Ht Ha); [by left|right; auto].
  - intros a Ha. destruct (H7 a Ha); [by left|right; auto].
Qed.

(** C17: of the addresses in the topics of an answer's logs, and in those words
    of their data that the masking visits (one word per declared non-indexed
    parameter, from the start, of type address or bytes32), the viewer sees in
    clear only their own linked addresses, precompiles, and contracts a live
    membership grants them within the scope of the view, unless the log was
    unlocked for them; whatever the node put there and whichever query of the
    visibility lookup fails. Nothing is said of addresses elsewhere in the data,
    such as inside or behind arrays. *)
Theorem rendered_logs_show_entitled admitted logs r :
  redactAdmittedLogs ord ord' enumerate (Some (fun did addrs => GetBatchVisibilityDetailed now db ctx did addrs))
    viewerDID abiProvider admitted = Ok logs ->
  r ∈ logs -> shows_entitled (entitled now db ctx viewerDID) admitted r.
Proof.
  unfold redactAdmittedLogs. set (addrSet := collectAddresses _ _ _ _). set (visMap := if decide (addrSet = ∅) then _ else _).
  intros Hr Hin. apply (renderAll_shows _ _ _ _ _ Hr) in Hin. revert Hin. apply shows_entitled_weaken. intros a.
  unfold visMap. case_decide; [by rewrite lookup_empty|].
  destruct (GetBatchVisibilityDetailed now db ctx viewerDID (enumerate addrSet)) as [detailed|] eqn:Ed; [|by rewrite lookup_empty].
  intros (k & v & Hk & <- & Hv)%levelsOf_lookup.
  destruct (shown_is_entitled _ _ _ _ _ _ _ _ Ed Hk Hv) as [(b & -> & _)%list_elem_of_fmap He]. by rewrite ToLower_idemp.
Qed.

(** Only a [null] log makes the rendering panic. *)
Lemma renderAll_total visMap i admitted :
  (forall x, x ∈ admitted -> al_Payload x = LogPayloadMasked -> al_Raw x <> RNull) ->
  exists logs, renderAll ord' abiProvider visMap i admitted = Ok logs.
Proof.
  revert i. induction admitted as [|x admitted IH]; intros i Hx; cbn [renderAll]; [eauto|].
  destruct (IH (S i)) as [rest Hrest]; [intros y Hy; apply Hx; by right|]. rewrite Hrest. unfold needsMask.
  destruct (al_Payload x) eqn:Ex; [|cbn; eauto]. destruct (parseLog abiProvider (al_Raw x)) as [p|]; [|eauto].
  assert (Hn : al_Raw x <> RNull) by (apply Hx; [left|done]). unfold renderMasked.
  destruct (al_Raw x); [done|..]; cbn; eauto.
Qed.
End rendered.

(** ** The view of another organization's member

    The rows that belong to one organization, and what the answers of a view
    scoped to it may depend on. *)
From S2P Require Import Prelude GoStrings Methods Models OrgContext Db Access Json ReadDecision EventFilter TraceGate.
From S2P Require Import Deployments ResponseFilter Answers Viewer ViewerProps Visibility.
From Stdlib Require Import FunctionalExtensionality.

(** Only the addresses shown in clear matter to the rendering. *)
Section clear.
Context `{HE : EventABI} (ord' : nat -> order) (visMap visMap' : VisibilityMap).
Context (same_clear : forall a, visMap !! a = Some VisibilityFull <-> visMap' !! a = Some VisibilityFull).

Lemma clear_topic t : redactTopicField t visMap = redactTopicField t visMap'.
Proof.
  unfold redactTopicField. destruct t as [t|]; [|done]. destruct (extractTopicAddress t) as [a|]; [|done].
  pose proof (same_clear a) as Hc. case_decide as H1; case_decide as H2; try tauto.
  unfold redactTopicAddress. destruct (visMap !! a) as [[]|], (visMap' !! a) as [[]|]; try done; tauto.
Qed.
Lemma clear_slots eligible args bytes : redactSlots visMap eligible args bytes = redactSlots visMap' eligible args bytes.
Proof.
  revert bytes. induction args as [|inp args IH]; intros bytes; simpl; [done|]. rewrite IH.
  destruct (redactSlots visMap' eligible args (drop 32 bytes)) as [rest modified].
  destruct (if eligible inp then _ else _) as [a|]; [|done]. pose proof (same_clear a) as Hc.
  case_decide as H1; case_decide as H2; tauto.
Qed.
Lemma clear_render abiProvider i admitted :
  renderAll ord' abiProvider visMap i admitted = renderAll ord' abiProvider visMap' i admitted.
Proof.
  assert (Hm : forall n x q, renderMasked ord' n visMap x q = renderMasked ord' n visMap' x q).
  { intros n x q. unfold renderMasked, RedactLogAddressFields, redactLogData. destruct x; [done|..].
    all: destruct (eventData _ _ _ _) as [[args bytes]|]; rewrite ?clear_slots.
    all: by rewrite (map_ext _ _ clear_topic). }
  revert i. induction admitted as [|x admitted IH]; intros i; simpl; [done|]. rewrite IH.
  destruct (needsMask x); [|done]. destruct (parseLog abiProvider (al_Raw x)) as [q|]; [|done]. by rewrite Hm.
Qed.
End clear.

Lemma levelsOf_lower (m : gmap string AddressVisibility) :
  (forall k, is_Some (m !! k) -> ToLower k = k) -> levelsOf m = av_Level <$> m.
Proof.
  intros Hk. apply map_eq. intros a. unfold levelsOf.
  cut (forall (rows : list (string * AddressVisibility)) (acc : VisibilityMap),
    (forall kv, kv ∈ rows -> ToLower kv.1 = kv.1) -> NoDup (rows.*1) ->
    foldl (fun m kv => <[ToLower kv.1 := av_Level kv.2]> m) acc rows !! a =
    match (list_to_map rows : gmap string AddressVisibility) !! a with Some v => Some (av_Level v) | None => acc !! a end).
  { intros H. rewrite H; [|..|apply NoDup_fst_map_to_list].
    - rewrite list_to_map_to_list, lookup_fmap, lookup_empty. by destruct (m !! a).
    - intros [k v] Hin%elem_of_map_to_list. simpl. apply Hk. by exists v. }
  induction rows as [|[k v] rows IH]; intros acc Hl Hd; cbn [foldl]; [simpl; by rewrite lookup_empty|].
  apply NoDup_cons in Hd as [Hn Hd]. rewrite IH; [|intros kv Hkv; apply Hl; by right|done]. simpl.
  assert (ToLower k = k) as El by (apply (Hl (k, v)); left). rewrite El.
  destruct (decide (a = k)) as [->|Hne]; [|by rewrite !lookup_insert_ne].
  rewrite !lookup_insert_eq. by rewrite (not_elem_of_list_to_map_1 _ _ Hn).
Qed.

(** The addresses the detailed lookup shows in clear, exactly. *)
Definition clearTo (now : Z) (db : Database) (ctx : Ctx) (did : string) (addresses : list string) (a : string) : Prop :=
  a ∈ ToLower <$> addresses /\
  match ownerOf db addresses a with
  | Some owner => isOwn did owner = true
  | None => IsPrecompileAddress a = true \/ grantedContract now db ctx did a
  end.
Lemma clear_exact now db ctx did addresses :
  no_fault db -> exists m, GetBatchVisibilityDetailed now db ctx did addresses = Ok m /\
    forall a, levelsOf m !! a = Some VisibilityFull <-> clearTo now db ctx did addresses a.
Proof.
  intros Hn. pose proof (levels_agree now db ctx did addresses Hn) as Hag.
  destruct (GetBatchVisibilityDetailed now db ctx did addresses) as [m|e] eqn:Ed.
  2:{ destruct addresses as [|a0 addresses]; [done|].
      destruct (visibility_lookup now db ctx did (a0 :: addresses) (ToLower a0) Hn) as (m & Hm & _); [left|].
      rewrite Hm in Hag. done. }
  exists m. split; [done|]. intros a. symmetry in Hag.
  assert (Hdom : forall k, is_Some (m !! k) -> k ∈ ToLower <$> addresses).
  { intros k Hk. eapply (visibility_domain now db ctx did addresses); [done|exact Hag|].
    unfold visibilityMapFromDetailed. by rewrite lookup_fmap, fmap_is_Some. }
  rewrite levelsOf_lower by (intros k (b & -> & _)%Hdom%list_elem_of_fmap; apply ToLower_idemp).
  unfold clearTo. destruct (decide (a ∈ ToLower <$> addresses)) as [Hin|Hout].
  - destruct (visibility_lookup now db ctx did addresses a Hn Hin) as (m' & Hm' & H). rewrite Hag in Hm'.
    injection Hm' as <-. fold (visibilityMapFromDetailed m). destruct (ownerOf db addresses a) as [owner|].
    + rewrite H. destruct (isOwn did owner); split; intros Hx; try done. by destruct Hx.
    + destruct (IsPrecompileAddress a); [rewrite H; tauto|]. destruct H as [-> _]. split; [|intros [_ [?|?]]; done].
      intros Hg. split; [done|by right].
  - split; [|by intros [? _]]. intros Hl. destruct Hout. apply Hdom. rewrite lookup_fmap in Hl.
    destruct (m !! a) as [v|]; [by exists v|done].
Qed.

(** ** The rows of one organization *)
Lemma NoDup_fst_inj {A B} (l : list (A * B)) k x y : NoDup (l.*1) -> (k, x) ∈ l -> (k, y) ∈ l -> x = y.
Proof.
  induction l as [|[k' z] l IH]; simpl; [by intros _ ?%elem_of_nil|]. intros [Hn Hd]%NoDup_cons.
  intros [Ex|Hx]%elem_of_cons [Ey|Hy]%elem_of_cons; [congruence| | |by apply IH]; simplify_eq; destruct Hn.
  - by apply (list_elem_of_fmap_2 fst _ (k', y)).
  - by apply (list_elem_of_fmap_2 fst _ (k', x)).
Qed.

Section organization.
Context (scope : string).

Definition scopeGroups (db : Database) : list Group :=
  List.filter (fun g => bool_decide (g_OrgID g = scope)) (db_groups db).
Definition inScopeGroup (db : Database) (gid : string) : bool := contains (map g_ID (scopeGroups db)) gid.

(** Two databases with the same users and links that hold the same groups,
    memberships, grants, contracts and preregistrations of one organization; of
    every other, anything. *)
Record same_organization (db db' : Database) : Prop := {
  so_users : db_users db = db_users db';
  so_links : db_eth_address_links db = db_eth_address_links db';
  so_groups : scopeGroups db = scopeGroups db';
  so_members : List.filter (fun m => inScopeGroup db (um_GroupID m)) (db_user_memberships db) =
               List.filter (fun m => inScopeGroup db' (um_GroupID m)) (db_user_memberships db');
  so_grants : List.filter (fun cg => inScopeGroup db (cg_GroupID cg)) (db_contract_grants db) =
              List.filter (fun cg => inScopeGroup db' (cg_GroupID cg)) (db_contract_grants db');
  so_contracts : List.filter (fun c => bool_decide (c_OrgID c = scope)) (db_contracts db) =
                 List.filter (fun c => bool_decide (c_OrgID c = scope)) (db_contracts db');
  so_preregistered : List.filter (fun x => bool_decide (pa_OrgID x = scope)) (db_preregistered_addresses db) =
                     List.filter (fun x => bool_decide (pa_OrgID x = scope)) (db_preregistered_addresses db') }.

(** The queries answer, an address is one contract's (the unique index), and it
    is registered and preregistered in one organization at most. *)
Record well_registered (db : Database) : Prop := {
  wr_answers : no_fault db;
  wr_unique : NoDup (map (fun c => ToLower (c_Address c)) (db_contracts db));
  wr_owner a o o' : o ∈ owners db a -> o' ∈ owners db a -> o = o' }.

(** An address registered or preregistered once is well registered. *)
Lemma registered_once db :
  no_fault db ->
  NoDup (map (fun c => ToLower (c_Address c)) (db_contracts db) ++
         map (fun x => ToLower (pa_Address x)) (db_preregistered_addresses db))%list ->
  well_registered db.
Proof.
  intros Hn Hd. split; [done|by apply NoDup_app in Hd as [? _]|]. intros a o o'.
  set (at_ := (map (fun c => (ToLower (c_Address c), c_OrgID c)) (db_contracts db) ++
               map (fun x => (ToLower (pa_Address x), pa_OrgID x)) (db_preregistered_addresses db))%list).
  assert (Hin : forall o, o ∈ owners db a -> (ToLower a, o) ∈ at_).
  { intros x. unfold owners, contractsAt, preregisteredAt, lower_is. rewrite elem_of_dedup, elem_of_app.
    intros [[(y & -> & [Hy Ha%bool_decide_eq_true]%list_elem_of_In%filter_In)%list_elem_of_fmap|
            (y & -> & [Hy Ha%bool_decide_eq_true]%list_elem_of_In%filter_In)%list_elem_of_fmap] _];
      apply elem_of_app; [left|right]; apply list_elem_of_fmap; exists y; by rewrite list_elem_of_In, Ha. }
  assert (Hk : NoDup (at_.*1)) by (unfold at_; rewrite fmap_app, <- !list_fmap_compose; exact Hd).
  intros H1%Hin H2%Hin. by eapply (NoDup_fst_inj at_).
Qed.

Lemma same_organization_sym db db' : same_organization db db' -> same_organization db' db.
Proof. by intros []. Qed.

Lemma elem_filter {A} (P : A -> bool) l x : x ∈ List.filter P l <-> x ∈ l /\ P x = true.
Proof. by rewrite !list_elem_of_In, filter_In. Qed.
(** What one of two equal selections holds, the other table holds. *)
Lemma selected {A} (P P' : A -> bool) l l' x :
  List.filter P l = List.filter P' l' -> x ∈ l -> P x = true -> x ∈ l' /\ P' x = true.
Proof. intros E Hx HP. apply elem_filter. rewrite <- E. by apply elem_filter. Qed.

Lemma scopeGroups_id db g : g ∈ db_groups db -> g_OrgID g = scope -> inScopeGroup db (g_ID g) = true.
Proof.
  intros Hg Ho. apply contains_true, (list_elem_of_fmap_2 g_ID), elem_filter. split; [done|by apply bool_decide_eq_true].
Qed.
Lemma inScopeGroup_same db db' gid : same_organization db db' -> inScopeGroup db gid = inScopeGroup db' gid.
Proof. intros Hs. unfold inScopeGroup. by rewrite (so_groups _ _ Hs). Qed.

(** *** Memberships *)
Definition memberRowsOf (now : Z) (u : string) (gs : list Group) (m : UserMembership) : list (UserMembership * Group) :=
  if bool_decide (um_UserID m = u) && unexpired now m
  then map (fun g => (m, g)) (List.filter (fun g => bool_decide (g_ID g = um_GroupID m)) gs) else [].

Lemma filter_pairs (m : UserMembership) (Q : Group -> bool) gs :
  List.filter (fun mg => bool_decide (g_OrgID (snd mg) = scope)) (map (fun g => (m, g)) (List.filter Q gs)) =
  map (fun g => (m, g)) (List.filter Q (List.filter (fun g => bool_decide (g_OrgID g = scope)) gs)).
Proof.
  induction gs as [|g gs IH]; simpl; [done|].
  destruct (Q g) eqn:Eq; simpl; destruct (bool_decide (g_OrgID g = scope)) eqn:Eo; simpl; rewrite ?Eq, ?Eo; simpl;
    by rewrite IH.
Qed.
Lemma scope_memberGroups now db u :
  List.filter (fun mg => bool_decide (g_OrgID (snd mg) = scope)) (memberGroups now db u) =
  concat (map (memberRowsOf now u (scopeGroups db))
            (List.filter (fun m => inScopeGroup db (um_GroupID m)) (db_user_memberships db))).
Proof.
  unfold memberGroups. induction (db_user_memberships db) as [|m ms IH]; simpl; [done|].
  rewrite List.filter_app, IH. clear IH.
  assert (E : List.filter (fun mg => bool_decide (g_OrgID (snd mg) = scope))
      (if bool_decide (um_UserID m = u) && unexpired now m
       then map (fun g => (m, g)) (List.filter (fun g => bool_decide (g_ID g = um_GroupID m)) (db_groups db)) else []) =
    memberRowsOf now u (scopeGroups db) m).
  { unfold memberRowsOf. destruct (_ && _); [apply filter_pairs|done]. }
  rewrite E. destruct (inScopeGroup db (um_GroupID m)) eqn:Ei; simpl; [done|].
  unfold memberRowsOf. destruct (_ && _); [|done].
  destruct (List.filter _ (scopeGroups db)) as [|g gs] eqn:Eg; [done|]. exfalso. apply contains_false in Ei. apply Ei.
  assert (g ∈ List.filter (fun g => bool_decide (g_ID g = um_GroupID m)) (scopeGroups db)) as Hg by (rewrite Eg; left).
  apply elem_filter in Hg as [Hg <-%bool_decide_eq_true]. by apply (list_elem_of_fmap_2 g_ID).
Qed.
Lemma same_memberGroups now db db' u : same_organization db db' ->
  List.filter (fun mg => bool_decide (g_OrgID (snd mg) = scope)) (memberGroups now db u) =
  List.filter (fun mg => bool_decide (g_OrgID (snd mg) = scope)) (memberGroups now db' u).
Proof. intros Hs. rewrite !scope_memberGroups. by rewrite (so_groups _ _ Hs), (so_members _ _ Hs). Qed.

Section stores.
Context (row1 : forall A : Type, list A -> option A) (Hrow : picks_row row1) (now : Z).
Notation storeOf := (DbStore row1 now).

Lemma member_rows db u : no_fault db ->
  scope ∈ orgsOfUser (storeOf db) u <->
  List.filter (fun mg => bool_decide (g_OrgID (snd mg) = scope)) (memberGroups now db u) <> [].
Proof.
  intros Hn. unfold orgsOfUser, GetUserOrgIDList. simpl. unfold db_ListActiveUserMembershipsWithDetails.
  rewrite query_runs by done. simpl. rewrite elem_of_dedup, list_elem_of_omap. split.
  - intros [(m & ([um g] & -> & Hin)%list_elem_of_fmap & [= Ho]) _] E.
    assert ((um, g) ∈ List.filter (fun mg => bool_decide (g_OrgID (snd mg) = scope)) (memberGroups now db u)) as Hx
      by (apply elem_filter; split; [done|by apply bool_decide_eq_true]).
    rewrite E in Hx. by apply elem_of_nil in Hx.
  - destruct (List.filter _ _) as [|[um g] l] eqn:E; [done|]. intros _.
    assert ((um, g) ∈ List.filter (fun mg => bool_decide (g_OrgID (snd mg) = scope)) (memberGroups now db u)) as Hx
      by (rewrite E; left).
    apply elem_filter in Hx as [Hin Ho%bool_decide_eq_true]. split; [|apply not_elem_of_nil].
    exists (withDetails (um, g)).
    split; [by apply (list_elem_of_fmap_2 withDetails)|]. simpl in *. by rewrite Ho.
Qed.

(** *** Contracts *)
Lemma contract_lookup db a c : well_registered db ->
  @GetContractByAddressGlobal (storeOf db) a = Ok (Some c) <-> c ∈ db_contracts db /\ ToLower (c_Address c) = ToLower a.
Proof.
  intros [Hn Hu _]. simpl. unfold db_GetContractByAddressGlobal. rewrite query_runs by done.
  assert (Hin : forall x, x ∈ contractsAt db a <-> x ∈ db_contracts db /\ ToLower (c_Address x) = ToLower a).
  { intros x. unfold contractsAt, lower_is. by rewrite elem_filter, bool_decide_eq_true. }
  rewrite <- Hin. split.
  - intros [= Hr]. by apply (row1_elem _ Hrow).
  - intros Hc. destruct (row1_some _ Hrow _ (contractsAt db a)) as [x Hx]; [intros E; rewrite E in Hc; by apply elem_of_nil in Hc|].
    rewrite Hx. do 2 f_equal. apply (row1_elem _ Hrow) in Hx. apply Hin in Hx as [Hx Ex], Hc as [Hc Ec].
    clear - Hu Hx Hc Ex Ec. assert (ToLower (c_Address x) = ToLower (c_Address c)) as E by congruence.
    induction (db_contracts db) as [|y l IH]; [by apply elem_of_nil in Hx|]. simpl in Hu.
    apply NoDup_cons in Hu as [Hy Hu]. apply elem_of_cons in Hx as [->|Hx], Hc as [->|Hc]; [done| | |by apply IH].
    + destruct Hy. rewrite E. by apply (list_elem_of_fmap_2 (fun c => ToLower (c_Address c))).
    + destruct Hy. rewrite <- E. by apply (list_elem_of_fmap_2 (fun c => ToLower (c_Address c))).
Qed.

Definition scopeOwns (db : Database) (a : string) : Prop :=
  (exists c, c ∈ db_contracts db /\ ToLower (c_Address c) = ToLower a /\ c_OrgID c = scope) \/
  (exists x, x ∈ db_preregistered_addresses db /\ ToLower (pa_Address x) = ToLower a /\ pa_OrgID x = scope).
Lemma owner_lookup db a : well_registered db -> scope <> "" ->
  @GetContractOwnerOrgID (storeOf db) a = Ok scope <-> scopeOwns db a.
Proof.
  intros [Hn _ Ho] Hne. simpl. unfold db_GetContractOwnerOrgID. rewrite query_runs by done.
  assert (Hin : scope ∈ owners db a <-> scopeOwns db a).
  { unfold owners, scopeOwns, contractsAt, preregisteredAt, lower_is.
    rewrite elem_of_dedup, elem_of_app, !list_elem_of_fmap. setoid_rewrite elem_filter.
    setoid_rewrite bool_decide_eq_true. pose proof (not_elem_of_nil scope). clear - H. naive_solver. }
  rewrite <- Hin. split.
  - intros [= Hr]. destruct (row1 string (owners db a)) as [o|] eqn:Er; [|done]. simpl in Hr. subst o.
    by apply (row1_elem _ Hrow).
  - intros Hs. destruct (row1_some _ Hrow _ (owners db a)) as [o Hr]; [intros E; rewrite E in Hs; by apply elem_of_nil in Hs|].
    rewrite Hr. simpl. f_equal. apply (row1_elem _ Hrow) in Hr. by apply (Ho a).
Qed.
Lemma scopeOwns_same db db' a : same_organization db db' -> scopeOwns db a -> scopeOwns db' a.
Proof.
  intros Hs [(c & Hc & Ha & Ho)|(x & Hx & Ha & Ho)]; [left; exists c|right; exists x].
  - destruct (selected _ _ _ _ c (so_contracts _ _ Hs) Hc) as [? _]; [by apply bool_decide_eq_true|done].
  - destruct (selected _ _ _ _ x (so_preregistered _ _ Hs) Hx) as [? _]; [by apply bool_decide_eq_true|done].
Qed.

(** *** Grants *)
Lemma grants_in_scope db db' gids : same_organization db db' -> Forall (fun gid => inScopeGroup db gid = true) gids ->
  List.filter (fun g => contains gids (cg_GroupID g)) (db_contract_grants db) =
  List.filter (fun g => contains gids (cg_GroupID g)) (db_contract_grants db').
Proof.
  intros Hs Hg.
  assert (E : forall d, (forall gid, gid ∈ gids -> inScopeGroup d gid = true) ->
    List.filter (fun g => contains gids (cg_GroupID g)) (db_contract_grants d) =
    List.filter (fun g => contains gids (cg_GroupID g))
      (List.filter (fun cg => inScopeGroup d (cg_GroupID cg)) (db_contract_grants d))).
  { intros d Hd. rewrite <- filter_split. apply filter_ext. intros g.
    destruct (contains gids (cg_GroupID g)) eqn:Ec; [|done]. apply contains_true, Hd in Ec. by rewrite Ec. }
  rewrite Forall_forall in Hg. rewrite (E db), (E db'), (so_grants _ _ Hs); [done| |done].
  intros gid Hin. rewrite <- (inScopeGroup_same db db') by done. by apply Hg.
Qed.

Lemma eligibility_same db db' u : no_fault db -> no_fault db' -> same_organization db db' ->
  @loadUnlockEligibility (storeOf db) u scope = @loadUnlockEligibility (storeOf db') u scope.
Proof.
  intros Hn Hn' Hs. unfold loadUnlockEligibility. simpl. unfold db_ListUserMembershipsInOrg.
  rewrite !query_runs by done. rewrite <- (same_memberGroups now db db' u Hs).
  set (ms := map withDetails _). destruct (eligibleGroups scope ms []) as [gids|] eqn:Eg; [|done].
  destruct gids as [|g0 gids]; [done|]. set (gs := g0 :: gids) in *.
  assert (Hin : Forall (fun gid => inScopeGroup db gid = true) gs).
  { apply Forall_forall. intros gid Hgid.
    destruct (eligibleGroups_some _ _ _ _ Eg gid Hgid) as [?%elem_of_nil|(m & g & Hm & Hmg & Ho & <- & _)]; [done|].
    apply list_elem_of_fmap in Hm as ([um g'] & -> & Hin). injection Hmg as ->.
    apply elem_filter in Hin as [Hin _]. apply memberGroups_inv in Hin as (_ & _ & _ & Hg & _). by apply scopeGroups_id. }
  unfold db_ListContractGrantsBatch. subst gs. rewrite !query_runs by done. by rewrite (grants_in_scope db db' _ Hs Hin).
Qed.

(** The stores over two such databases agree. *)
Lemma stores_agree db db' : well_registered db -> well_registered db' -> same_organization db db' ->
  agrees_in scope (storeOf db) (storeOf db').
Proof.
  intros Hw Hw' Hs. pose proof (wr_answers _ Hw) as Hn. pose proof (wr_answers _ Hw') as Hn'. split.
  - intros did. simpl. unfold db_GetUserByExternalID. rewrite !query_runs by done. by rewrite (so_users _ _ Hs).
  - intros did. simpl. unfold db_GetLinkedEthAddresses. rewrite !query_runs by done. by rewrite (so_links _ _ Hs).
  - intros u. rewrite !member_rows by done. by rewrite (same_memberGroups now db db' u Hs).
  - intros a Hne. rewrite !owner_lookup by done. split; [by apply scopeOwns_same|].
    apply scopeOwns_same. by apply same_organization_sym.
  - intros a c Hc. rewrite !contract_lookup by done.
    assert (H : forall d d', same_organization d d' -> c ∈ db_contracts d -> c ∈ db_contracts d').
    { intros d d' Hd Hin. eapply (selected _ _ _ _ c (so_contracts _ _ Hd) Hin). by apply bool_decide_eq_true. }
    split; intros [Hin Ha]; (split; [|done]); [by apply (H db db')|]. apply (H db' db); [by apply same_organization_sym|done].
  - intros u. by apply eligibility_same.
Qed.

(** *** The rendering *)
Context (ctx : Ctx) (Hscope : ctx_viewscope ctx = Some scope).

Lemma granted_same db db' did a : same_organization db db' ->
  grantedContract now db ctx did a -> grantedContract now db' ctx did a.
Proof.
  intros Hs (Hd & Hv & c & g & m & u & Hc & Ha & Hin & Hg & Ho & Hga & Hm & Hmg & Hx & Hu & Hid & Hext).
  assert (c_OrgID c = scope) as Hsc by (unfold inViewScope in Hin; rewrite Hscope in Hin; by apply bool_decide_eq_true in Hin).
  split; [done|]. split; [done|]. exists c, g, m, u. rewrite Hsc in Ho.
  pose proof (scopeGroups_id db g Hg Ho) as Hgs.
  split_and!; try done.
  - eapply (selected _ _ _ _ c (so_contracts _ _ Hs) Hc). by apply bool_decide_eq_true.
  - assert (g ∈ scopeGroups db') as Hg'
      by (rewrite <- (so_groups _ _ Hs); apply elem_filter; split; [done|by apply bool_decide_eq_true]).
    by apply elem_filter in Hg' as [? _].
  - congruence.
  - destruct Hga as [?|Hgr]; [by left|right]. unfold grantedTo in *. apply existsb_exists in Hgr as (cg & Hcg & Hb).
    apply existsb_exists. exists cg. split; [|done]. apply list_elem_of_In in Hcg. apply list_elem_of_In.
    eapply (selected _ _ _ _ cg (so_grants _ _ Hs) Hcg).
    apply andb_true_iff in Hb as [_ ->%bool_decide_eq_true]. done.
  - eapply (selected _ _ _ _ m (so_members _ _ Hs) Hm). by rewrite Hmg.
  - by rewrite <- (so_users _ _ Hs).
Qed.
Lemma clear_same db db' did addresses a : same_organization db db' ->
  clearTo now db ctx did addresses a -> clearTo now db' ctx did addresses a.
Proof.
  intros Hs. unfold clearTo, ownerOf, ownerRows. rewrite (so_links _ _ Hs). intros [Hin Ha]. split; [done|].
  destruct (byKey _ !! a); [done|]. destruct Ha as [?|Ha]; [by left|right]. by eapply granted_same.
Qed.

Lemma rendering_same `{HE : EventABI} db db' ord ord' enumerate did abiProvider admitted :
  no_fault db -> no_fault db' -> same_organization db db' ->
  redactAdmittedLogs ord ord' enumerate (Some (GetBatchVisibilityDetailed now db ctx)) did abiProvider admitted =
  redactAdmittedLogs ord ord' enumerate (Some (GetBatchVisibilityDetailed now db' ctx)) did abiProvider admitted.
Proof.
  intros Hn Hn' Hs. unfold redactAdmittedLogs. apply clear_render. intros a. case_decide; [done|].
  set (addrs := enumerate _).
  destruct (clear_exact now db ctx did addrs Hn) as (m & -> & Hm).
  destruct (clear_exact now db' ctx did addrs Hn') as (m' & -> & Hm'). rewrite Hm, Hm'.
  split; [by apply clear_same|]. apply clear_same. by apply same_organization_sym.
Qed.
End stores.
End organization.

(** [logFieldRenderer]; a rendering that panics leaves no logs. *)
Definition fieldRenderer `{HE : EventABI} (ord ord' : nat -> order) (enumerate : gset string -> list string)
  (resolver : string -> list string -> result (gmap string AddressVisibility)) (abiProvider : ABIProvider)
  (viewerDID : string) : option (list AdmittedLog -> list raw) :=
  Some (fun admitted =>
    match redactAdmittedLogs ord ord' enumerate (Some resolver) viewerDID abiProvider admitted with
    | Ok logs => logs
    | Err _ => []
    end).

