(* ===== verification/Processor.v ===== *)
(** * The JSON-RPC processor: [Process] of
    [internal/server/jsonrpc_processor.go], for every method but the raw
    transactions and the debug traces, which have processors of their own.

    The state holds the tables and the access controller ([Deployments.v]), the
    limiter and the breaker ([Limits.v]), the compliance store, what was
    forwarded to the node, the access-log entries handed to the audit writer
    ([AuditChain.v], [AuditBuffer.v]) and the outbox of recipients.  The node
    answers as a function of what it received before.  A computation that ends
    with [Err] is a panic. *)
From S2P Require Import Prelude GoStrings Methods Models Requests OrgContext Cache Db Writes.
From S2P Require Import Access Trace Deployments Json ReadDecision EventFilter ResponseFilter AuditChain.
From S2P Require Import F64 Compliance TraceGate VisibleTo Limits Answers.
Local Open Scope string_scope.

(** ** Data *)
Record ProcessRequest := {
  pq_UserID : string; pq_OrgID : string; pq_Method : string; pq_Params : list any; pq_Body : Body;
  pq_ClientIP : string; pq_CorrelationID : string; pq_BypassPermsCache : bool }.

Definition with_method (m : string) (req : ProcessRequest) : ProcessRequest :=
  {| pq_UserID := pq_UserID req; pq_OrgID := pq_OrgID req; pq_Method := m; pq_Params := pq_Params req;
     pq_Body := pq_Body req; pq_ClientIP := pq_ClientIP req; pq_CorrelationID := pq_CorrelationID req;
     pq_BypassPermsCache := pq_BypassPermsCache req |}.
Definition with_body (params : list any) (body : Body) (req : ProcessRequest) : ProcessRequest :=
  {| pq_UserID := pq_UserID req; pq_OrgID := pq_OrgID req; pq_Method := pq_Method req; pq_Params := params;
     pq_Body := body; pq_ClientIP := pq_ClientIP req; pq_CorrelationID := pq_CorrelationID req;
     pq_BypassPermsCache := pq_BypassPermsCache req |}.

Inductive ProcessResult :=
| Answer (status : Z) (body : option raw)
| Refuse (status : Z) (message : string).

(** What the node receives, and what it answers. *)
Record Forwarded := { fw_Body : Body; fw_Header : string; fw_APIKey : string; fw_ClientIP : string }.
Record NodeReply := { nr_Status : Z; nr_Body : option raw; nr_Err : option string }.

Record OutboxRow := { ob_TxHash : string; ob_DIDs : list string; ob_SenderDID : string; ob_OrgID : string }.

Record Processor := {
  pc_knobs : TraceKnobs; pc_readProfile : ReadProfile; pc_limited : bool; pc_breaks : bool;
  pc_complianceChecker : option Checker; pc_defaultRPCAPIKey : string; pc_defaultRPCAPIKeyHeader : string }.

Definition DefaultAPIKeyHeader : string := "Authorization".
Definition resolveAPIKeyHeader (p : Processor) : string :=
  if decide (pc_defaultRPCAPIKeyHeader p = "") then DefaultAPIKeyHeader else pc_defaultRPCAPIKeyHeader p.

Record State (C : Type) := {
  st_server : Server; st_limiter : ConcurrencyLimiter; st_breaker : CircuitBreaker; st_compliance : C;
  st_node : list Forwarded; st_log : list AccessLogRecord; st_outbox : list OutboxRow;
  (** the transactions handed to the approval producer *)
  st_approvals : list string;
  st_rates : RateLimiter }.
Arguments st_server {C} s.
Arguments st_limiter {C} s.
Arguments st_breaker {C} s.
Arguments st_compliance {C} s.
Arguments st_node {C} s.
Arguments st_log {C} s.
Arguments st_outbox {C} s.
Arguments st_approvals {C} s.
Arguments st_rates {C} s.
Arguments Build_State {C} st_server st_limiter st_breaker st_compliance st_node st_log st_outbox
  st_approvals st_rates.

Section updates.
Context {C : Type} (s : State C).
Definition set_server (x : Server) : State C :=
  Build_State x (st_limiter s) (st_breaker s) (st_compliance s) (st_node s) (st_log s) (st_outbox s)
    (st_approvals s) (st_rates s).
Definition set_limiter (x : ConcurrencyLimiter) : State C :=
  Build_State (st_server s) x (st_breaker s) (st_compliance s) (st_node s) (st_log s) (st_outbox s)
    (st_approvals s) (st_rates s).
Definition set_breaker (x : CircuitBreaker) : State C :=
  Build_State (st_server s) (st_limiter s) x (st_compliance s) (st_node s) (st_log s) (st_outbox s)
    (st_approvals s) (st_rates s).
Definition set_compliance (x : C) : State C :=
  Build_State (st_server s) (st_limiter s) (st_breaker s) x (st_node s) (st_log s) (st_outbox s)
    (st_approvals s) (st_rates s).
Definition set_node (x : list Forwarded) : State C :=
  Build_State (st_server s) (st_limiter s) (st_breaker s) (st_compliance s) x (st_log s) (st_outbox s)
    (st_approvals s) (st_rates s).
Definition set_log (x : list AccessLogRecord) : State C :=
  Build_State (st_server s) (st_limiter s) (st_breaker s) (st_compliance s) (st_node s) x (st_outbox s)
    (st_approvals s) (st_rates s).
Definition set_outbox (x : list OutboxRow) : State C :=
  Build_State (st_server s) (st_limiter s) (st_breaker s) (st_compliance s) (st_node s) (st_log s) x
    (st_approvals s) (st_rates s).
Definition set_approvals (x : list string) : State C :=
  Build_State (st_server s) (st_limiter s) (st_breaker s) (st_compliance s) (st_node s) (st_log s) (st_outbox s) x
    (st_rates s).
Definition set_rates (x : RateLimiter) : State C :=
  Build_State (st_server s) (st_limiter s) (st_breaker s) (st_compliance s) (st_node s) (st_log s) (st_outbox s)
    (st_approvals s) x.
End updates.

(** ** Rewriting of block queries *)
Definition rewriteToFullTxObjects (body : Body) (params : list any) : Body :=
  rebuildRequestBody body
    (match params with
     | p :: _ :: rest => p :: ABool true :: rest
     | [p] => [p; ABool true]
     | [] => [ANull; ABool true]
     end)%list.
Definition rewriteToGetBlock (body : Body) (newMethod : string) (params : list any) : Body :=
  {| bd_Method := newMethod;
     bd_Params := [match params with p :: _ => p | [] => AStr "latest" end; ABool true];
     bd_visibleTo := None; bd_privateFor := None |}.

Definition forwardBody (method : string) (params : list any) (body : Body) : Body :=
  if contains ["eth_getBlockByNumber"; "eth_getBlockByHash"] method
  then (if wantsFull params then body else rewriteToFullTxObjects body params)
  else if decide (method = "eth_getBlockTransactionCountByNumber")
  then rewriteToGetBlock body "eth_getBlockByNumber" params
  else if decide (method = "eth_getBlockTransactionCountByHash")
  then rewriteToGetBlock body "eth_getBlockByHash" params
  else body.

(** [extractTxHashFromResult]: the string result of an answer without error. *)
Definition extractTxHashFromResult (body : option raw) : string :=
  default "" (v ← body; r ← member_str "result" v; e ← member_ptr "error" v;
              match e with None => Some r | Some _ => None end).

Definition sanitizeComplianceReason (reason : string) : string :=
  let lower := ToLower reason in
  if Contains lower "sanction" then "sanctioned address"
  else if Contains lower "no price" || Contains lower "price not" || Contains lower "unknown_price"
  then "transaction value cannot be computed"
  else if Contains lower "threshold" then "transaction exceeds threshold"
  else if Contains lower "record" && Contains lower "required" then "travel-rule record required"
  else if Contains lower "originator" then "originator validation failed"
  else if Contains lower "currency" then "currency configuration error"
  else "transaction blocked by compliance policy".

Definition methodNotFound : string := "method not found".

Section process.
Context {C : Type} `{HC : ComplianceStore C} `{HA : ABI} `{HE : !EventABI} `{HT : TraceEnv} `{HR : RuntimeTracer}
  `{HG : GoEthereum}.
Variable p : Processor.
Variable row1 : forall A : Type, list A -> option A.
Variable reg : Registries.
Variable iter : gmap string cacheEntry -> list string.
Variable rng : nat -> nat -> order.
Variable ctx : Ctx.
(** the permission resolver, the facts about viewers and the address book over
    the tables *)
Variable source : Tables -> PermissionSource.
Variable facts : Tables -> ViewerFacts.
Variable resolver : option (Tables -> string -> result string).
(** [audit.RedactParams], or nothing when parameters are not logged *)
Variable logged : string -> list any -> option string.
(** the node; the failure of an outbox insert *)
Variable node : list Forwarded -> Forwarded -> NodeReply.
Variable outboxFault : option string.

Notation M := (stM (State C)).
Definition now : Z := ctx_now ctx.
Definition tablesOf (s : State C) : Tables := sv_tables (st_server s).
Definition storeOf (s : State C) : Store := DbStore row1 now (t_db (tablesOf s)).

Definition modify (f : State C -> State C) : M unit := fun s => (Ok tt, f s).

(** ** Access log *)
Definition logAccess (req : ProcessRequest) (orgID reason : string) (status respStatus : Z) : M unit :=
  modify (fun s => set_log s (st_log s ++
    [{| lr_ExternalID := pq_UserID req; lr_Method := pq_Method req; lr_StatusCode := status;
        lr_IPAddress := pq_ClientIP req; lr_CorrelationID := pq_CorrelationID req;
        lr_Params := logged (pq_Method req) (pq_Params req);
        lr_ResponseStatus := if decide (respStatus = status) then None else Some respStatus;
        lr_OrgID := orgID; lr_DenialReason := reason |}])%list).

(** A logged refusal: the status on the log, the one on the wire, the message. *)
Definition refuse (req : ProcessRequest) (orgID reason : string) (status wire : Z) (message : string)
  : M ProcessResult :=
  _ ← logAccess req orgID reason status wire; mret (Refuse wire message).

(** ** The access decision *)
Definition accessRequest (req : ProcessRequest) : AccessCheckRequest :=
  let accessMethod := ResolveMethodAlias reg (pq_Method req) in
  let claim := ClassifyOperation accessMethod (pq_Params req) in
  {| rq_UserExternalID := pq_UserID req; rq_OrgSlug := ""; rq_OrgID := pq_OrgID req;
     rq_Method := pq_Method req; rq_AccessMethod := accessMethod; rq_Params := pq_Params req;
     rq_TargetAddress := GetTargetAddress accessMethod (pq_Params req);
     rq_FunctionSelector := GetFunctionSelector accessMethod (pq_Params req);
     rq_Calldata := None; rq_RequiredClaims := if decide (claim = "") then [] else [claim];
     rq_BypassCache := pq_BypassPermsCache req |}.

Definition checkAccess (areq : AccessCheckRequest) : M AccessCheckResult := fun s =>
  let '(r, c) := @CheckAccess (storeOf s) _ (source (tablesOf s)) reg iter ctx areq (sv_ctl (st_server s)) in
  (r, set_server s (set_ctl (st_server s) c)).

(** ** The gates of an allowed request *)
Definition traceGates (req : ProcessRequest) (res : AccessCheckResult)
  : M (phase ProcessResult (list CreateTarget)) := fun s =>
  let target := rq_TargetAddress (accessRequest req) in
  match @validateWithTracing (storeOf s) _ (source (tablesOf s)) _ (pc_knobs p) (pq_UserID req)
          (pq_Method req) (pq_Params req) target with
  | inr d =>
      (r ← refuse req (rs_OrgID res) (dn_Reason d) (dn_StatusCode d) (dn_StatusCode d) (dn_Message d);
       mret (Done r)) s
  | inl creates =>
      match @validateEthCallWithTracing (storeOf s) _ (source (tablesOf s)) _ reg ctx (pc_knobs p)
              (pq_UserID req) (pq_Method req) (pq_Params req) target (rs_OrgID res) with
      | Some d =>
          (r ← refuse req (rs_OrgID res) (dn_Reason d) (dn_StatusCode d) (dn_StatusCode d) (dn_Message d);
           mret (Done r)) s
      | None => (Ok (Next creates), s)
      end
  end.

Definition on_compliance {A} (m : stM C A) : M (result A) := fun s =>
  let '(r, c) := m (st_compliance s) in (Ok r, set_compliance s c).

Definition complianceRequest (req : ProcessRequest) (res : AccessCheckResult) (tx : TxParams) : CheckRequest :=
  {| cr_OrgID := rs_OrgID res; cr_UserID := rs_UserID res; cr_From := tx_from tx; cr_To := tx_to tx;
     cr_Data := tx_data tx; cr_Value := tx_value tx; cr_CorrelationID := pq_CorrelationID req |}.

Definition checkCompliance (req : ProcessRequest) (res : AccessCheckResult) (tx : TxParams)
  : M (phase ProcessResult unit) :=
  match pc_complianceChecker p with
  | None => mret (Next tt)
  | Some checker =>
      verdict ← on_compliance (Check checker now (complianceRequest req res tx));
      match verdict with
      | Err _ => r ← refuse req (rs_OrgID res) "" 500 500 "compliance check failed"; mret (Done r)
      | Ok v =>
          if cs_Allowed v then mret (Next tt)
          else r ← refuse req (rs_OrgID res) "" 403 403
                     ("compliance denied: " +:+ sanitizeComplianceReason (cs_Reason v)); mret (Done r)
      end
  end.

(** The recipients of a transaction and the request without them; [strip] takes
    those among the parameters, [callable] tells the contract calls.  These
    refusals are not logged. *)
Definition takeRecipients (strip : list any -> Body -> list string * list any * Body) (callable : list any -> bool)
  (req : ProcessRequest) : M (phase ProcessResult (list string * ProcessRequest)) := fun s =>
  let '(topRaw, body1) := extractAndStripTopLevelVisibleTo (pq_Body req) in
  let '(dids, params, body) := strip (pq_Params req) body1 in
  let req := with_body params body req in
  (Ok (match resolveTopLevelVisibleTo ((fun f => f (tablesOf s)) <$> resolver) topRaw with
       | inr msg => Done (Refuse 400 msg)
       | inl top =>
           let visibleTo := unionVisibleToDIDs dids top in
           if Nat.ltb visibleToMaxSize (length visibleTo) then Done (Refuse 400 sizeRefusal)
           else if negb (bool_decide (visibleTo = [])) && negb (callable params)
           then Done (Refuse 400 "visibleTo is only supported for contract calls that emit event logs")
           else Next (visibleTo, req)
       end), s).

Definition sendCallable (params : list any) : bool :=
  let tx := extractTxParams params in
  negb (isSimpleValueTransfer (tx_data tx) || bool_decide (tx_to tx = "" \/ tx_to tx = "0x")).

(** ** Forwarding *)
Definition forward (fw : Forwarded) : M NodeReply := fun s =>
  (Ok (node (st_node s) fw), set_node s (st_node s ++ [fw])%list).

(** A store call whose error is logged and dropped. *)
Definition tryStore (m : stM Tables unit) : M bool := fun s =>
  let '(r, t) := m (tablesOf s) in
  (Ok (is_ok r), set_server s {| sv_ctl := sv_ctl (st_server s); sv_tracker := sv_tracker (st_server s);
                                 sv_tables := t |}).

(** [strconv.ParseUint(s, 16, 64)] after the prefix *)
Definition parseNonce (s : string) : option Z :=
  let h := TrimPrefix s "0x" in
  if decide (h = "" \/ HasPrefix h "+" = true \/ HasPrefix h "-" = true) then None
  else n ← parseHex h; if (n <? 2 ^ 64)%Z then Some n else None.

Definition extractNonceFromTxParams (params : list any) : option Z :=
  txObj ← first_obj params; s ← str_field txObj "nonce"; parseNonce s.

Definition nonceQuery (from : string) : Forwarded :=
  {| fw_Body := {| bd_Method := "eth_getTransactionCount"; bd_Params := [AStr from; AStr "pending"];
                   bd_visibleTo := None; bd_privateFor := None |};
     fw_Header := ""; fw_APIKey := ""; fw_ClientIP := "" |}.

Definition getNonceFromNode (from : string) : M (option Z) :=
  reply ← forward (nonceQuery from);
  mret (match nr_Err reply with
        | Some _ => None
        | None => v ← nr_Body reply; r ← member_str "result" v; e ← member_ptr "error" v;
                  match e with None => parseNonce r | Some _ => None end
        end).

(** The address, or nothing when the registration failed. *)
Definition preRegisterPlainCreate (orgID : string) (params : list any) : M string :=
  let from := tx_from (extractTxParams params) in
  nonce ← (match extractNonceFromTxParams params with
           | Some n => mret (Some n)
           | None => getNonceFromNode from
           end);
  match nonce with
  | None => mret ""
  | Some n =>
      let addr := ToLower (CreateAddress from n) in
      ok ← tryStore (db_PreRegisterPlainCreate now orgID addr);
      mret (if ok : bool then addr else "")
  end.

Fixpoint preRegisterRuntimeCreates (orgID : string) (targets : list CreateTarget) : M (list string) :=
  match targets with
  | [] => mret []
  | t :: targets =>
      let addr := ToLower (crt_Address t) in
      ok ← tryStore (db_PreRegisterPlainCreate now orgID addr);
      addrs ← preRegisterRuntimeCreates orgID targets;
      mret (if ok : bool then addr :: addrs else addrs)
  end.

Fixpoint deletePreregistered (addrs : list string) : M unit :=
  match addrs with
  | [] => mret tt
  | addr :: addrs =>
      _ ← tryStore (db_DeletePreregisteredAddressByAddress addr); deletePreregistered addrs
  end.

(** The registrations before a transaction is forwarded. *)
Definition preRegister (req : ProcessRequest) (res : AccessCheckResult) (creates : list CreateTarget)
  : M (string * list string) :=
  let tx := extractTxParams (pq_Params req) in
  if decide (pq_Method req = "eth_sendTransaction") then
    plain ← (if decide (tx_from tx <> "" /\ (tx_to tx = "" \/ tx_to tx = "0x"))
             then preRegisterPlainCreate (rs_OrgID res) (pq_Params req) else mret "");
    addrs ← preRegisterRuntimeCreates (rs_OrgID res) creates;
    mret (plain, addrs)
  else mret ("", []).

(** What happens to them when the node has answered; the pollers run later. *)
Definition settleRegistrations (res : AccessCheckResult) (plain : string) (addrs : list string)
  (reply : NodeReply) : M unit :=
  let txHash := if (nr_Status reply =? 200)%Z then extractTxHashFromResult (nr_Body reply) else "" in
  if decide (txHash = "")
  then deletePreregistered ((if decide (plain = "") then [] else [plain]) ++ addrs)%list
  else modify (fun s =>
         if decide (plain = "") then s
         else set_server s (TrackPlainCreateDeployment now txHash (rs_OrgID res) (rs_UserID res) plain (st_server s))).

Definition EnqueuePendingTxVisibility (txHash : string) (dids : list string) (sender orgID : string) : M unit :=
  match outboxFault with
  | Some _ => mret tt
  | None => modify (fun s => set_outbox s (st_outbox s ++
      [{| ob_TxHash := ToLower txHash; ob_DIDs := dids; ob_SenderDID := sender; ob_OrgID := orgID |}])%list)
  end.

Definition saveRecipients (req : ProcessRequest) (res : AccessCheckResult) (visibleTo : list string)
  (reply : NodeReply) : M unit :=
  let txHash := extractTxHashFromResult (nr_Body reply) in
  if decide (visibleTo <> [] /\ nr_Status reply = 200%Z /\ txHash <> "")
  then EnqueuePendingTxVisibility txHash visibleTo (pq_UserID req) (rs_OrgID res)
  else mret tt.

Definition updateBreaker (apiKey : string) (status : Z) : M unit :=
  modify (fun s =>
    if negb (pc_breaks p) then s
    else if (status =? 429)%Z then set_breaker s (Trip now apiKey (st_breaker s))
    else if (status =? 200)%Z then set_breaker s (Reset apiKey (st_breaker s))
    else s).

Definition filterAnswer (req : ProcessRequest) (res : AccessCheckResult) (body : option raw)
  : M (option raw) := fun s =>
  (b ← @applyResponseFilter (storeOf s) _ _ (facts (tablesOf s)) reg rng (pc_readProfile p) (pq_UserID req)
         (pq_Method req) (pq_Params req) res body;
   Ok (@applyViewerOrgScopeEnvelope (storeOf s) _ reg ctx (pq_Method req) b), s).

(** From the breaker on: registrations, forwarding, settlement, filtering. *)
Definition forwardRequest (req : ProcessRequest) (res : AccessCheckResult) (creates : list CreateTarget)
  (visibleTo : list string) : M ProcessResult :=
  let apiKey := if decide (rs_RPCAPIKey res = "") then pc_defaultRPCAPIKey p else rs_RPCAPIKey res in
  s ← get;
  if pc_breaks p && IsOpen now apiKey (st_breaker s)
  then refuse req (rs_OrgID res) ReasonRateLimited 429 429 "upstream rate limited, retry in 1s"
  else
    regs ← preRegister req res creates;
    let '(plain, addrs) := regs in
    reply ← forward {| fw_Body := forwardBody (pq_Method req) (pq_Params req) (pq_Body req);
                       fw_Header := resolveAPIKeyHeader p; fw_APIKey := apiKey;
                       fw_ClientIP := pq_ClientIP req |};
    _ ← updateBreaker apiKey (nr_Status reply);
    match nr_Err reply with
    | Some _ => refuse req (rs_OrgID res) ReasonUpstreamError 502 502 "failed to forward request"
    | None =>
        _ ← settleRegistrations res plain addrs reply;
        _ ← saveRecipients req res visibleTo reply;
        body ← filterAnswer req res (nr_Body reply);
        _ ← logAccess req (rs_OrgID res) "" (nr_Status reply) (nr_Status reply);
        mret (Answer (nr_Status reply) body)
    end.

(** With a slot of the limiter held: the gates, then the forwarding. *)
Definition guarded (req : ProcessRequest) (res : AccessCheckResult) : M ProcessResult :=
  gate ← traceGates req res;
  match gate with
  | Done r => mret r
  | Next creates =>
      if decide (pq_Method req = "eth_sendTransaction") then
        verdict ← checkCompliance req res (extractTxParams (pq_Params req));
        match verdict with
        | Done r => mret r
        | Next _ =>
            taken ← takeRecipients extractAndStripVisibleTo sendCallable req;
            match taken with
            | Done r => mret r
            | Next (visibleTo, req) => forwardRequest req res creates visibleTo
            end
        end
      else forwardRequest req res creates []
  end.

(** [defer Release]: also after a panic. *)
Definition withSlot (userID : string) (m : M ProcessResult) : M ProcessResult := fun s =>
  let '(r, s) := m s in (r, set_limiter s (Release userID (st_limiter s))).

Definition limited (req : ProcessRequest) (orgID : string) (m : M ProcessResult) : M ProcessResult := fun s =>
  if negb (pc_limited p) then m s
  else
    let '(ok, cl) := TryAcquire (pq_UserID req) (st_limiter s) in
    let s := set_limiter s cl in
    if ok : bool then withSlot (pq_UserID req) m s
    else refuse req orgID ReasonConcurrencyLimited 429 429 "too many concurrent requests" s.

Definition strictProfileRejectsVisibleTo (req : ProcessRequest) (rawTx : bool) : bool :=
  Strict (pc_readProfile p) && visibleToFieldPresent rawTx (pq_Params req) (pq_Body req).

(** ** [Process] *)
Definition processGeneric (req : ProcessRequest) : M ProcessResult :=
  match DetectStateOverride reg (pq_Method req) (pq_Params req) with
  | Some _ => refuse req "" ReasonStateOverrideNotAllowed 403 404 methodNotFound
  | None => fun s =>
      let '(r, s) := checkAccess (accessRequest req) s in
      match r with
      | Err _ => refuse req "" "" 500 404 methodNotFound s
      | Ok res =>
          if negb (rs_Allowed res) then
            (if rs_AuthRequired res
             then refuse req (rs_OrgID res) ReasonAuthRequired 401 404 methodNotFound s
             else refuse req (rs_OrgID res) ReasonMethodNotAllowed 403 404 methodNotFound s)
          else if bool_decide (pq_Method req = "eth_sendTransaction") && strictProfileRejectsVisibleTo req false
          then refuse req (rs_OrgID res) ReasonInvalidRequestShape 400 400
                 "visibleTo is not supported on this network" s
          else limited req (rs_OrgID res) (guarded req res) s
      end
  end.
End process.
