(* ===== verification/ProcessorProps.v ===== *)
(** * What the processor guarantees about every request. *)
From S2P Require Import Prelude GoStrings Methods Models Requests OrgContext Cache Db Writes.
From S2P Require Import Access Trace Deployments Json ReadDecision EventFilter ResponseFilter AuditChain.
From S2P Require Import F64 Compliance TraceGate VisibleTo Limits Answers Processor.
Local Open Scope string_scope.

(** The states a field of which is unchanged. *)
Definition same {S A} (f : S -> A) (s s' : S) : Prop := f s' = f s.
#[export] Instance same_preorder {S A} (f : S -> A) : PreOrder (same f).
Proof. split; unfold same; [done|]. intros a b c ? ?. congruence. Qed.

(** The states a list of which has grown. *)
Definition grown {S A} (f : S -> list A) (s s' : S) : Prop := exists l, f s' = (f s ++ l)%list.
#[export] Instance grown_preorder {S A} (f : S -> list A) : PreOrder (grown f).
Proof.
  split; unfold grown; [intros s; exists []; by rewrite app_nil_r|].
  intros a b c [l1 H1] [l2 H2]. exists (l1 ++ l2)%list. by rewrite H2, H1, app_assoc.
Qed.

Lemma st_bind_inv {S A B} (m : stM S A) (f : A -> stM S B) s r s' :
  (m ≫= f) s = (r, s') ->
  (exists a s1, m s = (Ok a, s1) /\ f a s1 = (r, s')) \/ (exists e, m s = (Err e, s') /\ r = Err e).
Proof. unfold mbind, stM_bind. destruct (m s) as [[a|e] s1]; naive_solver. Qed.

Section props.
Context {C : Type} `{HC : ComplianceStore C} `{HA : ABI} `{HE : !EventABI} `{HT : TraceEnv} `{HR : RuntimeTracer}
  `{HG : GoEthereum}.
Context (p : Processor) (row1 : forall A : Type, list A -> option A) (reg : Registries)
  (iter : gmap string cacheEntry -> list string) (rng : nat -> nat -> order) (ctx : Ctx)
  (source : Tables -> PermissionSource) (facts : Tables -> ViewerFacts)
  (resolver : option (Tables -> string -> result string)) (logged : string -> list any -> option string)
  (node : list Forwarded -> Forwarded -> NodeReply) (outboxFault : option string).

Notation St := (State C).

(** ** What the steps leave alone *)
Lemma refuse_eq req org reason status wire msg (s : St) :
  refuse logged req org reason status wire msg s =
  (Ok (Refuse wire msg), snd (logAccess logged req org reason status wire s)).
Proof. reflexivity. Qed.

Lemma keeps_modify (R : St -> St -> Prop) f : (forall s, R s (f s)) -> keeps R (modify f).
Proof. intros Hf s r s' [= <- <-]. apply Hf. Qed.

(** A field that the work around a forwarded request does not touch: the log,
    the limiter, the compliance store. *)
Class Aside {A} (f : St -> A) : Prop := {
  aside_server s x : f (set_server s x) = f s;
  aside_node s x : f (set_node s x) = f s;
  aside_breaker s x : f (set_breaker s x) = f s;
  aside_outbox s x : f (set_outbox s x) = f s;
  aside_approvals s x : f (set_approvals s x) = f s }.
#[export] Instance log_aside : Aside st_log.
Proof. by split. Qed.
#[export] Instance limiter_aside : Aside st_limiter.
Proof. by split. Qed.
#[export] Instance compliance_aside : Aside st_compliance.
Proof. by split. Qed.

Lemma keeps_tryStore {A} (f : St -> A) m : (forall s x, f (set_server s x) = f s) -> keeps (same f) (tryStore m).
Proof. intros Hf s r s'. unfold tryStore. destruct (m _). intros [= <- <-]. apply Hf. Qed.
Local Hint Resolve keeps_tryStore : runs.
Lemma keeps_delete {A} (f : St -> A) addrs :
  (forall s x, f (set_server s x) = f s) -> keeps (same f) (deletePreregistered addrs).
Proof. intros Hf. induction addrs; simpl; keeps. Qed.
Lemma keeps_runtime {A} (f : St -> A) org ts :
  (forall s x, f (set_server s x) = f s) -> keeps (same f) (preRegisterRuntimeCreates ctx org ts).
Proof. intros Hf. induction ts; simpl; keeps. Qed.
Lemma keeps_settle {A} (f : St -> A) res plain addrs reply :
  (forall s x, f (set_server s x) = f s) -> keeps (same f) (settleRegistrations ctx res plain addrs reply).
Proof.
  intros Hf. unfold settleRegistrations. case_decide; [by apply keeps_delete|]. apply keeps_modify. intros s.
  case_decide; [done|apply Hf].
Qed.
Local Hint Resolve keeps_runtime keeps_settle : runs.

Section aside.
Context {A : Type} (f : St -> A) `{!Aside f}.
Lemma keeps_forward fw : keeps (same f) (forward node fw).
Proof. intros s r s' [= <- <-]. apply aside_node. Qed.
Lemma keeps_breaker key status : keeps (same f) (updateBreaker p ctx key status).
Proof. apply keeps_modify. intros s. repeat case_match; try done; apply aside_breaker. Qed.
Lemma keeps_save req res v reply : keeps (same f) (saveRecipients outboxFault req res v reply).
Proof.
  unfold saveRecipients, EnqueuePendingTxVisibility. keeps.
  apply keeps_modify. intros s. apply aside_outbox.
Qed.
Lemma keeps_filter req res body :
  keeps (same f) (filterAnswer p row1 reg rng ctx facts req res body).
Proof. intros s r s' [= <- <-]. done. Qed.
Lemma keeps_preRegister req res creates : keeps (same f) (preRegister ctx node req res creates).
Proof.
  assert (Hs : forall s x, f (set_server s x) = f s) by apply aside_server.
  pose proof keeps_forward. unfold preRegister, preRegisterPlainCreate, getNonceFromNode. keeps.
Qed.
End aside.

(** ** Steps that cannot fail *)
Lemma total_modify (f : St -> St) : infallible (modify f).
Proof. by exists tt, (f s). Qed.
Lemma total_tryStore m : infallible (tryStore m : stM St _).
Proof. intros s. unfold tryStore. destruct (m _). eauto. Qed.
Lemma total_forward fw : infallible (forward node fw : stM St _).
Proof. intros s. unfold forward. eauto. Qed.
Local Hint Resolve total_modify total_tryStore total_forward : runs.

Lemma total_runtime org ts : infallible (preRegisterRuntimeCreates ctx org ts : stM St _).
Proof. induction ts; simpl; total. Qed.
Lemma total_delete addrs : infallible (deletePreregistered addrs : stM St _).
Proof. induction addrs; simpl; total. Qed.
Local Hint Resolve total_runtime total_delete : runs.
Lemma total_preRegister req res creates : infallible (preRegister ctx node req res creates : stM St _).
Proof. unfold preRegister, preRegisterPlainCreate, getNonceFromNode. total. Qed.
Lemma total_settle res plain addrs reply : infallible (settleRegistrations ctx res plain addrs reply : stM St _).
Proof. unfold settleRegistrations. total. Qed.
Lemma total_save req res v reply : infallible (saveRecipients outboxFault req res v reply : stM St _).
Proof. unfold saveRecipients, EnqueuePendingTxVisibility. total. Qed.

(** ** What the node sees of the registrations: at most one nonce query *)
Lemma preRegister_node req res creates (s : St) regs s1 :
  preRegister ctx node req res creates s = (Ok regs, s1) ->
  exists q, st_node s1 = (st_node s ++ q)%list /\
    (q = [] \/ q = [nonceQuery (tx_from (extractTxParams (pq_Params req)))]).
Proof.
  unfold preRegister. case_decide; [|intros H'; exists []; inv_st; rewrite app_nil_r; eauto].
  intros (plain & s2 & Hp & Hr)%st_bind_Ok. apply st_bind_Ok in Hr as (addrs & s3 & Hr & Hret). inv_st.
  rewrite (keeps_runtime st_node _ _ (fun _ _ => eq_refl) _ _ _ Hr). clear Hr.
  case_decide; [|exists []; inv_st; rewrite app_nil_r; eauto].
  unfold preRegisterPlainCreate in Hp. apply st_bind_Ok in Hp as (n & s4 & Hn & Hp).
  assert (Hlast : st_node s2 = st_node s4).
  { destruct n; [|by inv_st]. apply st_bind_Ok in Hp as (ok & s5 & Hp & Hret). inv_st.
    by apply (keeps_tryStore st_node _ (fun _ _ => eq_refl) _ _ _ Hp). }
  rewrite Hlast. destruct (extractNonceFromTxParams (pq_Params req)); [exists []; inv_st; rewrite app_nil_r; eauto|].
  unfold getNonceFromNode in Hn. apply st_bind_Ok in Hn as (reply & s5 & Hf & Hn). inv_st.
  injection Hf as _ <-. eauto.
Qed.

(** ** The log row of an outcome *)

(** One row: who asked for what, and the status that went out.  The refusals
    about the recipients of a transaction leave none, and a panic leaves none. *)
Definition sends : list string := ["eth_sendTransaction"; "eth_sendRawTransaction"].
Definition outcome_logged (req : ProcessRequest) (r : result ProcessResult) (s s' : St) : Prop :=
  match r with
  | Ok (Answer status _) => exists row, st_log s' = (st_log s ++ [row])%list /\
      lr_ExternalID row = pq_UserID req /\ lr_Method row = pq_Method req /\
      lr_StatusCode row = status /\ lr_ResponseStatus row = None /\ lr_DenialReason row = ""
  | Ok (Refuse status _) =>
      (exists row, st_log s' = (st_log s ++ [row])%list /\
         lr_ExternalID row = pq_UserID req /\ lr_Method row = pq_Method req /\
         default (lr_StatusCode row) (lr_ResponseStatus row) = status) \/
      (st_log s' = st_log s /\ status = 400%Z /\ pq_Method req ∈ sends)
  | Err _ => st_log s' = st_log s
  end.

Lemma logAccess_logged req org reason status wire msg (s1 s : St) :
  st_log s1 = st_log s ->
  outcome_logged req (Ok (Refuse wire msg)) s (snd (logAccess logged req org reason status wire s1)).
Proof. intros Hl. left. eexists. split; [simpl; by rewrite Hl|]. simpl. split_and!; try done. by case_decide. Qed.

Lemma refuse_logged req org reason status wire msg (s1 s : St) r s' :
  st_log s1 = st_log s -> refuse logged req org reason status wire msg s1 = (r, s') ->
  outcome_logged req r s s' /\ st_node s' = st_node s1 /\ st_limiter s' = st_limiter s1 /\
  st_compliance s' = st_compliance s1 /\ st_approvals s' = st_approvals s1 /\ r = Ok (Refuse wire msg).
Proof.
  intros Hl Hr. rewrite refuse_eq in Hr. injection Hr as <- <-. by split_and!; [apply logAccess_logged|..].
Qed.

(** What is forwarded for a request, with the key it carries. *)
Definition forwardedOf (req : ProcessRequest) (res : AccessCheckResult) : Forwarded :=
  {| fw_Body := forwardBody (pq_Method req) (pq_Params req) (pq_Body req);
     fw_Header := resolveAPIKeyHeader p;
     fw_APIKey := if decide (rs_RPCAPIKey res = "") then pc_defaultRPCAPIKey p else rs_RPCAPIKey res;
     fw_ClientIP := pq_ClientIP req |}.

Definition sent (req : ProcessRequest) (res : AccessCheckResult) (s s' : St) : Prop :=
  exists q, st_node s' = (st_node s ++ q ++ [forwardedOf req res])%list /\
    (q = [] \/ q = [nonceQuery (tx_from (extractTxParams (pq_Params req)))]).

Lemma keeps_node_breaker key status : keeps (same st_node) (updateBreaker p ctx key status : stM St _).
Proof. apply keeps_modify. intros s. by repeat case_match. Qed.
Lemma keeps_node_save req res v reply :
  keeps (same st_node) (saveRecipients outboxFault req res v reply : stM St _).
Proof. unfold saveRecipients, EnqueuePendingTxVisibility. keeps. by apply keeps_modify. Qed.

(** The part after the node answered. *)
Lemma answered_inv req res plain addrs vis reply (s : St) r s' :
  (_ ← settleRegistrations ctx res plain addrs reply;
   _ ← saveRecipients outboxFault req res vis reply;
   body ← filterAnswer p row1 reg rng ctx facts req res (nr_Body reply);
   _ ← logAccess logged req (rs_OrgID res) "" (nr_Status reply) (nr_Status reply);
   mret (Answer (nr_Status reply) body)) s = (r, s') ->
  outcome_logged req r s s' /\ st_node s' = st_node s /\ st_limiter s' = st_limiter s /\
  st_compliance s' = st_compliance s.
Proof.
  intros H. destruct (total_settle res plain addrs reply s) as ([] & s1 & E1).
  destruct (total_save req res vis reply s1) as ([] & s2 & E2).
  apply st_bind_inv in H as [([] & s1' & E1' & H)|(e & E1' & _)]; [|congruence].
  rewrite E1 in E1'. injection E1' as <-.
  apply st_bind_inv in H as [([] & s2' & E2' & H)|(e & E2' & _)]; [|congruence].
  rewrite E2 in E2'. injection E2' as <-.
  assert (Hk : forall A (f : St -> A) `{!Aside f}, f s2 = f s).
  { intros A f Hf. transitivity (f s1).
    - by apply (keeps_save f _ _ _ _ _ _ _ E2).
    - by apply (keeps_settle f _ _ _ _ (aside_server) _ _ _ E1). }
  assert (Hn : st_node s2 = st_node s).
  { transitivity (st_node s1).
    - by apply (keeps_node_save _ _ _ _ _ _ _ E2).
    - by apply (keeps_settle st_node _ _ _ _ (fun _ _ => eq_refl) _ _ _ E1). }
  pose proof (Hk _ st_log _) as L. pose proof (Hk _ st_limiter _) as M. pose proof (Hk _ st_compliance _) as Q.
  apply st_bind_inv in H as [(body & s3 & E3 & H)|(e & E3 & ->)].
  - injection E3 as _ <-. injection H as <- <-. simpl. split_and!; try done. eexists. split; [by rewrite L|].
    simpl. split_and!; try done. by case_decide.
  - injection E3 as _ <-. by split_and!.
Qed.

Notation forwardRequest' := (forwardRequest p row1 reg rng ctx facts logged node outboxFault).

Lemma outcome_logged_log req r (s t s' : St) :
  st_log s = st_log t -> outcome_logged req r s s' -> outcome_logged req r t s'.
Proof. unfold outcome_logged. by intros ->. Qed.

Lemma forwardRequest_inv req res creates vis (s : St) r s' :
  forwardRequest' req res creates vis s = (r, s') ->
  outcome_logged req r s s' /\ (st_node s' = st_node s \/ sent req res s s') /\
  st_limiter s' = st_limiter s /\ st_compliance s' = st_compliance s.
Proof.
  intros H. unfold forwardRequest in H. apply st_bind_inv in H as [(s0 & s0' & Hg & H)|(e & Hg & _)]; [|done].
  injection Hg as <- <-. destruct (pc_breaks p && _).
  { apply (refuse_logged _ _ _ _ _ _ s s) in H as (? & ? & ? & ? & _); [|done]. eauto 6. }
  destruct (total_preRegister req res creates s) as ([plain addrs] & s1 & Hp).
  apply st_bind_inv in H as [(x & s1' & Hp' & H)|(e & Hp' & _)]; [|congruence].
  rewrite Hp in Hp'. injection Hp' as <- <-. destruct (preRegister_node _ _ _ _ _ _ Hp) as (q & Hq & Hqs).
  apply st_bind_inv in H as [(reply & s2 & Hf & H)|(e & Hf & _)]; [|done].
  apply st_bind_inv in H as [([] & s3 & Hb & H)|(e & Hb & _)]; [|done].
  assert (N3 : st_node s3 = (st_node s ++ q ++ [forwardedOf req res])%list).
  { rewrite (keeps_node_breaker _ _ _ _ _ Hb). injection Hf as _ <-. simpl. by rewrite Hq, <- app_assoc. }
  assert (Hk : forall A (f : St -> A) `{!Aside f}, f s3 = f s).
  { intros A f Hfa. rewrite (keeps_breaker f _ _ _ _ _ Hb), (keeps_forward f _ _ _ _ Hf).
    by apply (keeps_preRegister f _ _ _ _ _ _ Hp). }
  clear Hf Hb Hp Hq. pose proof (Hk _ st_log _) as L. pose proof (Hk _ st_limiter _) as Ml.
  pose proof (Hk _ st_compliance _) as Q. destruct (nr_Err reply).
  - apply (refuse_logged _ _ _ _ _ _ s3 s) in H as (? & ? & ? & ? & _); [|done].
    split_and!; [done| |congruence|congruence]. right. exists q. split; [congruence|done].
  - apply answered_inv in H as (Ho & ? & ? & ?).
    split_and!; [by eapply outcome_logged_log| |congruence|congruence]. right. exists q. split; [congruence|done].
Qed.

(** ** The gates *)
Notation traced s req res :=
  (@validateWithTracing (storeOf row1 ctx s) _ (source (tablesOf s)) _ (pc_knobs p) (pq_UserID req)
     (pq_Method req) (pq_Params req) (rq_TargetAddress (accessRequest reg req))) (only parsing).
Notation readTraced s req res :=
  (@validateEthCallWithTracing (storeOf row1 ctx s) _ (source (tablesOf s)) _ reg ctx (pc_knobs p) (pq_UserID req)
     (pq_Method req) (pq_Params req) (rq_TargetAddress (accessRequest reg req)) (rs_OrgID res)) (only parsing).

(** What compliance said of a transaction, when there is a checker. *)
Definition complies (req : ProcessRequest) (res : AccessCheckResult) (tx : TxParams) (s s' : St) : Prop :=
  match pc_complianceChecker p with
  | None => True
  | Some checker => exists v, cs_Allowed v = true /\
      Check checker (now ctx) (complianceRequest req res tx) (st_compliance s) = (Ok v, st_compliance s')
  end.

(** What is sent for a request: the request itself, or the transaction without
    the names of its recipients. *)
Definition forwards (req : ProcessRequest) (res : AccessCheckResult) (s s' : St) : Prop :=
  exists req', sent req' res s s' /\ pq_Method req' = pq_Method req /\
    if decide (pq_Method req = "eth_sendTransaction")
    then extractTxParams (pq_Params req') = extractTxParams (pq_Params req) /\
         (bd_Params (pq_Body req) = pq_Params req ->
          bd_Params (pq_Body req') = pq_Params req' /\ no_metadata (pq_Body req'))
    else req' = req.

Record admitted (req : ProcessRequest) (res : AccessCheckResult) (s s' : St) : Prop := {
  ad_trace : exists creates, traced s req res = inl creates;
  ad_read : readTraced s req res = None;
  ad_compliance : pq_Method req = "eth_sendTransaction" -> complies req res (extractTxParams (pq_Params req)) s s';
  ad_forwards : forwards req res s s' }.

Lemma extractTxParams_strip params body dids params' body' :
  extractAndStripVisibleTo params body = (dids, params', body') ->
  extractTxParams params' = extractTxParams params.
Proof.
  unfold extractAndStripVisibleTo. destruct params as [|[| | | | |txObj] rest]; try (by intros [= <- <- <-]).
  destruct (txObj !! "visibleTo"); intros [= <- <- <-]; [|done].
  unfold extractTxParams, first_obj, str_field. simpl. by rewrite !lookup_delete_ne.
Qed.

Lemma takeRecipients_inv strip callable req (s : St) r s' :
  takeRecipients resolver strip callable req s = (r, s') -> s' = s /\
  ((exists msg, r = Ok (Done (Refuse 400 msg))) \/
   exists vis topRaw body1 dids params body, r = Ok (Next (vis, with_body params body req)) /\
     extractAndStripTopLevelVisibleTo (pq_Body req) = (topRaw, body1) /\
     strip (pq_Params req) body1 = (dids, params, body)).
Proof.
  unfold takeRecipients. destruct (extractAndStripTopLevelVisibleTo _) as [topRaw body1] eqn:E1.
  destruct (strip _ _) as [[dids params] body] eqn:E2. intros [= <- <-]. split; [done|].
  destruct (resolveTopLevelVisibleTo _ _) as [top|msg]; [|by left; eexists].
  case_match; [by left; eexists|]. case_match; [by left; eexists|]. right. eauto 10.
Qed.

Lemma traceGates_inv req res (s : St) r s' :
  traceGates p row1 reg ctx source logged req res s = (r, s') ->
  (exists d, r = Ok (Done d) /\ outcome_logged req (Ok d) s s' /\ st_node s' = st_node s /\
     st_limiter s' = st_limiter s) \/
  (exists creates, r = Ok (Next creates) /\ s' = s /\ traced s req res = inl creates /\
     readTraced s req res = None).
Proof.
  unfold traceGates. destruct (validateWithTracing _ _ _ _ _) as [creates|d] eqn:E1.
  - destruct (validateEthCallWithTracing _ _ _ _ _ _ _ _) as [d|] eqn:E2.
    + intros [= <- <-]. left. eexists. split; [done|]. by split_and!; [apply logAccess_logged|..].
    + intros [= <- <-]. right. by exists creates.
  - intros [= <- <-]. left. eexists. split; [done|]. by split_and!; [apply logAccess_logged|..].
Qed.

Lemma checkCompliance_inv req res tx (s : St) r s' :
  checkCompliance p ctx logged req res tx s = (r, s') ->
  st_node s' = st_node s /\ st_limiter s' = st_limiter s /\ st_approvals s' = st_approvals s /\
  ((exists d, r = Ok (Done d) /\ outcome_logged req (Ok d) s s') \/
   (r = Ok (Next tt) /\ complies req res tx s s' /\ st_log s' = st_log s)).
Proof.
  unfold checkCompliance, complies. destruct (pc_complianceChecker p) as [checker|].
  2:{ intros [= <- <-]. split_and!; [done..|]. by right. }
  intros H. apply st_bind_inv in H as [(v & s1 & Hc & H)|(e & Hc & _)].
  2:{ unfold on_compliance in Hc. by destruct (Check _ _ _ _). }
  unfold on_compliance in Hc. destruct (Check checker _ _ _) as [verdict c] eqn:Ev. injection Hc as <- <-.
  assert (Hno : forall status msg r s', (d ← refuse logged req (rs_OrgID res) "" status status msg; mret (Done d))
      (set_compliance s c) = (r, s') -> st_node s' = st_node s /\ st_limiter s' = st_limiter s /\
      st_approvals s' = st_approvals s /\
      exists d : ProcessResult, r = Ok (@Done _ unit d) /\ outcome_logged req (Ok d) s s').
  { intros status msg r0 s0 [= <- <-]. split_and!; [done..|]. eexists. split; [done|].
    by apply (logAccess_logged _ (rs_OrgID res) "" _ _ _ (set_compliance s c) s). }
  destruct verdict as [v|e]; [destruct (cs_Allowed v) eqn:Ea|].
  - injection H as <- <-. split_and!; [done..|]. right. split_and!; [done| |done]. by exists v.
  - apply Hno in H as (? & ? & ? & ?). split_and!; [done..|]. by left.
  - apply Hno in H as (? & ? & ? & ?). split_and!; [done..|]. by left.
Qed.

Lemma guarded_inv req res (s : St) r s' :
  guarded p row1 reg rng ctx source facts resolver logged node outboxFault req res s = (r, s') ->
  outcome_logged req r s s' /\ st_limiter s' = st_limiter s /\
  (st_node s' = st_node s \/ admitted req res s s').
Proof.
  intros H. unfold guarded in H.
  apply st_bind_inv in H as [(gate & s1 & Hg & H)|(e & Hg & ->)]; apply traceGates_inv in Hg.
  2:{ naive_solver. }
  destruct Hg as [(d & [= ->] & Ho & Hn & Hl)|(creates & [= ->] & -> & Ht & Hr)].
  { injection H as <- <-. auto. }
  case_decide as Hm.
  2:{ apply forwardRequest_inv in H as (Ho & Hn & Hl & _). split_and!; [done..|].
      destruct Hn as [Hn|Hs]; [by left|right]. split; [eauto|done|done|].
      exists req. rewrite decide_False by done. done. }
  apply st_bind_inv in H as [(verdict & s1 & Hc & H)|(e & Hc & ->)]; apply checkCompliance_inv in Hc.
  2:{ naive_solver. }
  destruct Hc as (Hn1 & Hl1 & _ & [(d & [= ->] & Ho)|([= ->] & Hc & Hlog)]).
  { injection H as <- <-. auto. }
  apply st_bind_inv in H as [(taken & s2 & Ht2 & H)|(e & Ht2 & ->)]; apply takeRecipients_inv in Ht2.
  2:{ naive_solver. }
  destruct Ht2 as [-> [(msg & [= ->])|(vis & top & body1 & dids & params & body & [= ->] & E1 & E2)]].
  { injection H as <- <-. split_and!; [|done|by left]. right. split_and!; [done..|]. rewrite Hm. by left. }
  apply forwardRequest_inv in H as (Ho & Hn & Hl & Hcs). split_and!.
  - by eapply (outcome_logged_log _ _ s1).
  - congruence.
  - rewrite <- Hn1. destruct Hn as [Hn|(q & Hq & Hqs)]; [by left|right]. split; [eauto|done| |].
    + intros _. revert Hc. unfold complies. by rewrite Hcs.
    + exists (with_body params body req). rewrite decide_True by done. split_and!; [|done| |].
      * exists q. by rewrite <- Hn1.
      * simpl. by eapply extractTxParams_strip.
      * simpl. intros Hb. by edestruct strip_no_metadata as (? & ? & ?); [exact Hb|exact E1|exact E2|].
Qed.

(** ** The slot and the access decision *)
Lemma admitted_ext req res (s t s' t' : St) :
  tablesOf t = tablesOf s -> st_compliance t = st_compliance s -> st_node t = st_node s ->
  st_compliance t' = st_compliance s' -> st_node t' = st_node s' ->
  admitted req res t t' -> admitted req res s s'.
Proof.
  intros Ht Hc Hn Hc' Hn' [A1 A2 A3 (req' & (q & Hq & Hqs) & Hr)].
  unfold storeOf in *. rewrite Ht in *. split; [done|done| |].
  - intros Hm. specialize (A3 Hm). revert A3. unfold complies. by rewrite Hc, Hc'.
  - exists req'. split; [|done]. exists q. split; [|done]. congruence.
Qed.

(** A body that holds a slot, from the state with the slot taken to the one
    before it is given back. *)
Lemma limited_inv req org m (s : St) r s' :
  limited p logged req org m s = (r, s') ->
  (outcome_logged req r s s' /\ same_load (st_limiter s) (st_limiter s') /\ st_node s' = st_node s /\
     st_approvals s' = st_approvals s /\ exists msg, r = Ok (Refuse 429 msg)) \/
  exists cl cl' t', m (set_limiter s cl) = (r, t') /\ s' = set_limiter t' cl' /\
    (st_limiter t' = cl -> same_load (st_limiter s) cl').
Proof.
  unfold limited. destruct (pc_limited p); simpl.
  2:{ intros H. right. exists (st_limiter s), (st_limiter s'), s'. destruct s, s'. split_and!; [done..|].
      simpl. by intros ->. }
  destruct (TryAcquire _ _) as [[] cl] eqn:Et; intros H.
  - right. unfold withSlot in H. destruct (m _) as [r1 t'] eqn:Em. injection H as <- <-.
    exists cl, (Release (pq_UserID req) (st_limiter t')), t'. split_and!; [done..|]. intros ->.
    by apply acquire_release.
  - left. apply (refuse_logged _ _ _ _ _ _ (set_limiter s cl) s) in H as (? & ? & Hl & _ & ? & ?); [|done].
    split_and!; [done| |done|done|by eexists]. rewrite Hl. by eapply TryAcquire_rejected.
Qed.

Notation process := (processGeneric p row1 reg iter rng ctx source facts resolver logged node outboxFault).
Notation decision s req :=
  (@CheckAccess (storeOf row1 ctx s) _ (source (tablesOf s)) reg iter ctx (accessRequest reg req)
     (sv_ctl (st_server s))) (only parsing).

(** The access decision admits the request. *)
Definition granted (req : ProcessRequest) (res : AccessCheckResult) (s : St) : Prop :=
  DetectStateOverride reg (pq_Method req) (pq_Params req) = None /\
  fst (decision s req) = Ok res /\ rs_Allowed res = true.

(** What changes without a slot: the log, and the cache of the decision. *)
Definition bare (s s' : St) : Prop :=
  st_node s' = st_node s /\ st_compliance s' = st_compliance s /\ st_outbox s' = st_outbox s /\
  st_limiter s' = st_limiter s /\ st_breaker s' = st_breaker s /\ tablesOf s' = tablesOf s.

Lemma processGeneric_inv req (s : St) r s' :
  process req s = (r, s') ->
  outcome_logged req r s s' /\ same_load (st_limiter s) (st_limiter s') /\
  ((bare s s' /\ (r = Ok (Refuse 404 methodNotFound) \/ exists res, granted req res s)) \/
   exists res, granted req res s /\ (st_node s' = st_node s \/ admitted req res s s')).
Proof.
  unfold processGeneric, granted. destruct (DetectStateOverride reg _ _) eqn:Eo.
  { rewrite refuse_eq. intros [= <- <-]. split_and!; [by apply logAccess_logged|reflexivity|]. left.
    split; [by split_and!|by left]. }
  unfold checkAccess. destruct (CheckAccess _ _ _ _) as [d ctl] eqn:Ed. simpl.
  set (s1 := set_server s _). assert (Hb : bare s s1) by (split_and!; reflexivity).
  assert (Hl : st_log s1 = st_log s) by done.
  assert (Hno : forall org reason st wire msg, refuse logged req org reason st wire msg s1 = (r, s') ->
    outcome_logged req r s s' /\ same_load (st_limiter s) (st_limiter s') /\ bare s s' /\ r = Ok (Refuse wire msg)).
  { intros org reason st wire msg H. rewrite refuse_eq in H. injection H as <- <-.
    split_and!; [by apply (logAccess_logged _ _ _ _ _ _ s1 s)|reflexivity|exact Hb|reflexivity]. }
  destruct d as [res|e]; [|intros (? & ? & ? & ?)%Hno; by split_and!; [..|left; split; [|left]]].
  clear Ed Eo.
  destruct (rs_Allowed res) eqn:Ea; simpl.
  2:{ destruct (rs_AuthRequired res); intros (? & ? & ? & ?)%Hno; by split_and!; [..|left; split; [|left]]. }
  destruct (bool_decide _ && _).
  { intros (? & ? & ? & ?)%Hno. split_and!; [done..|]. left. split; [done|]. right. exists res. split_and!; [reflexivity..|exact Ea]. }
  intros [(Ho & Hs & Hn & _)|(cl & cl' & t' & Hg & -> & Hs)]%limited_inv.
  { split_and!; [done..|]. right. exists res. split; [split_and!; [reflexivity..|exact Ea]|by left]. }
  apply guarded_inv in Hg as (Ho & Hlim & Hn). split_and!; [done|by apply Hs|].
  right. exists res. split; [split_and!; [reflexivity..|exact Ea]|].
  destruct Hn as [Hn|Hn]; [by left|right]. by eapply admitted_ext, Hn.
Qed.
End props.

#[export] Hint Resolve keeps_tryStore keeps_runtime keeps_delete keeps_settle keeps_save total_modify
  total_tryStore total_forward total_runtime total_delete total_settle total_save : runs.
