(* ===== verification/RawTransaction.v ===== *)
(** * Signed transactions: [processRawTransaction] of
    [internal/server/jsonrpc_processor.go], [validateRawTxWithPreparedTrace] of
    [jsonrpc_trace.go], and the link the store records for the sender
    ([SystemLinkEthAddress] of [internal/db/db.go]).

    Decoding the transaction and recovering its sender are go-ethereum's
    ([SignedTransactions]).  Signed approvals are optional: [Approvals] is what
    the processor asks of [internal/nodeapproval] and of the preflight limiter. *)
From S2P Require Import Prelude GoStrings Methods Models Requests OrgContext Cache Db Writes.
From S2P Require Import Access Trace Deployments Json ReadDecision EventFilter ResponseFilter AuditChain.
From S2P Require Import F64 Compliance TraceGate VisibleTo Limits Answers Processor.
From Stdlib Require Import Ascii.
Local Open Scope string_scope.

(** ** Decoding *)
Record Transaction := {
  gt_Nonce : Z; gt_To : option string; gt_Data : list ascii; gt_Value : option Z; gt_ChainID : Z }.

Class SignedTransactions := {
  (** [types.Transaction.UnmarshalBinary] *)
  UnmarshalBinary : list ascii -> result Transaction;
  (** [types.Sender] with the latest signer of the transaction's chain, in hex *)
  Sender : Transaction -> result string;
  (** [big.Int.Text(16)] *)
  Text16 : Z -> string }.

Definition extractRawTxHex (params : list any) : result string :=
  match params with
  | [] => Err "missing transaction parameter"
  | AStr s :: _ => Ok s
  | _ => Err "transaction parameter must be a string"
  end.

Definition decodeRawTransaction `{SignedTransactions} (rawTxHex : string) : result (TxParams * Z) :=
  match DecodeString (TrimPrefix (TrimPrefix rawTxHex "0x") "0X") with
  | None => Err "invalid hex"
  | Some rawTxBytes =>
      tx ← wrap "failed to decode transaction" (UnmarshalBinary rawTxBytes);
      from ← wrap "failed to recover sender" (Sender tx);
      Ok ({| tx_from := from; tx_to := default "" (gt_To tx);
             tx_data := match gt_Data tx with [] => "" | d => "0x" +:+ EncodeToString d end;
             tx_value := match gt_Value tx with
                         | Some v => if (0 <? v)%Z then "0x" +:+ Text16 v else ""
                         | None => ""
                         end |}, gt_Nonce tx)
  end.

Definition optional (k v : string) (m : gmap string any) : gmap string any :=
  if decide (v = "") then m else <[k := AStr v]> m.
Definition buildTxParams (tx : TxParams) : list any :=
  [AObj (optional "value" (tx_value tx) (optional "data" (tx_data tx) (optional "to" (tx_to tx)
           {["from" := AStr (tx_from tx)]})))].

Definition extractSelector (data : string) : string :=
  if Nat.ltb (String.length data) 10 then "" else ToLower (take_str 10 data).

(** ** Signed approvals *)
Record Prepared := {
  pr_Trace : option TraceResult; pr_CodeHashes : gmap string string; pr_FreshCreations : gset string;
  pr_SurvivingCreations : gset string; pr_NoCodeRecipients : gset string; pr_PlainValueTransfer : bool }.

Definition GetCodeHash (pr : Prepared) (address : string) : result string :=
  match pr_CodeHashes pr !! ToLower address with
  | Some h => Ok h
  | None => Err "code missing from approved execution snapshot"
  end.

(** The creations that outlive the transaction; all of them without a preflight. *)
Definition survives (prepared : option Prepared) (address : string) : bool :=
  match prepared with
  | None => true
  | Some pr => bool_decide (address ∈ pr_SurvivingCreations pr)
  end.

Record Approvals := {
  ap_Accepting : bool;
  (** the preflight limiter, when it is installed *)
  ap_Allow : option (string -> bool);
  ap_Prepare : string -> result Prepared;
  ap_Enqueue : string -> Prepared -> result unit }.

(** [validator.WithCodeHashFetcher] *)
Definition with_fetcher (HT : TraceEnv) (pr : Prepared) : TraceEnv := {|
  GetSharedInfrastructure := @GetSharedInfrastructure HT; codeFetcher := Some (GetCodeHash pr);
  rangeOrgs := @rangeOrgs HT |}.

(** ** The link of the sender *)
Definition isValidEthAddress (address : string) : bool :=
  Nat.eqb (String.length address) 42 && (HasPrefix address "0x" || HasPrefix address "0X") &&
  allChars (fun a => bool_decide (is_Some (hex_val a))) (drop_str 2 address).

Definition set_links (d : Database) (ls : list EthAddressLink) : Database := {|
  db_organizations := db_organizations d; db_groups := db_groups d; db_contracts := db_contracts d;
  db_contract_grants := db_contract_grants d; db_group_access := db_group_access d;
  db_users := db_users d; db_user_memberships := db_user_memberships d;
  db_preregistered_addresses := db_preregistered_addresses d; db_eth_address_links := ls;
  db_fault := db_fault d |}.

Definition linkedExactly (d : Database) (did address : string) : bool :=
  existsb (fun l => bool_decide (el_DID l = did /\ el_EthAddress l = address)) (db_eth_address_links d).

(** [ON CONFLICT (did, eth_address) DO NOTHING]; a revoked link stays revoked. *)
Definition db_SystemLinkEthAddress (did ethAddress : string) : stM Tables unit :=
  if decide (did = "" \/ ethAddress = "") then mret tt
  else if negb (isValidEthAddress ethAddress) then fail "invalid ethereum address"
  else exec "SystemLinkEthAddress" "" no_violation (fun d =>
    if linkedExactly d did (ToLower ethAddress) then d
    else set_links d (db_eth_address_links d ++
           [{| el_DID := did; el_EthAddress := ToLower ethAddress; el_Revoked := false |}])%list).

Section raw.
Context {C : Type} `{HC : ComplianceStore C} `{HA : ABI} `{HT : TraceEnv} `{HR : RuntimeTracer} `{HG : GoEthereum}
  `{HX : SignedTransactions}.
Variable p : Processor.
Variable row1 : forall A : Type, list A -> option A.
Variable reg : Registries.
Variable iter : gmap string cacheEntry -> list string.
Variable ctx : Ctx.
Variable source : Tables -> PermissionSource.
Variable resolver : option (Tables -> string -> result string).
Variable logged : string -> list any -> option string.
Variable node : list Forwarded -> Forwarded -> NodeReply.
Variable outboxFault : option string.
Variable approvals : option Approvals.

Notation M := (stM (State C)).
Notation storeOf := (storeOf row1 ctx).
Notation refuse := (refuse logged).

Definition rawAccessRequest (req : ProcessRequest) (tx : TxParams) : AccessCheckRequest := {|
  rq_UserExternalID := pq_UserID req; rq_OrgSlug := ""; rq_OrgID := pq_OrgID req;
  rq_Method := "eth_sendTransaction"; rq_AccessMethod := ""; rq_Params := buildTxParams tx;
  rq_TargetAddress := tx_to tx; rq_FunctionSelector := extractSelector (tx_data tx); rq_Calldata := None;
  rq_RequiredClaims := if decide (tx_to tx = "") then [ClaimDeploy] else []; rq_BypassCache := false |}.

(** ** The trace gate *)

(** The verdict on a simulation, the approved one when there is one. *)
Definition judgeRaw (HS : Store) (HP : PermissionSource) (userID : string) (ms : list MembershipWithDetails)
  (tx : TxParams) (prepared : option Prepared) (trace : option TraceResult) : list CreateTarget + Denial :=
  match trace with
  | None => inr (refusal 403 sendTraceDenyTracerError ReasonTracingUnavailable)
  | Some tr =>
      match intraOrgGrantTraceOptions (pc_knobs p) userID (tx_to tx) (orgsOf ms) with
      | Err _ => inr (refusal 403 sendTraceValidatorError ReasonTracingUnavailable)
      | Ok o =>
          let env := match prepared with None => HT | Some pr => with_fetcher HT pr end in
          let o := match prepared with
                   | None => o
                   | Some pr => WithPreflightValueRecipients (pr_NoCodeRecipients pr)
                                  (WithPreflightCreations (pr_FreshCreations pr) o)
                   end in
          match @ValidateTrace HS env (orgsOf ms) (membershipsHaveDeployClaim ms) o (Some tr) with
          | Err _ => inr (refusal 500 sendTraceValidatorError ReasonTracingUnavailable)
          | Ok v =>
              if tv_Allowed v
              then inl (List.filter (fun t => survives prepared (ToLower (crt_Address t))) (tv_CreateTargets v))
              else inr (refusal 403 (sendTraceDenyMessage (tv_Reason v)) ReasonCrossOrg)
          end
      end
  end.

Definition validateRawTxWithPreparedTrace (HS : Store) (HP : PermissionSource) (userDID : string) (tx : TxParams)
  (prepared : option Prepared) : list CreateTarget + Denial :=
  match GetUserByExternalID userDID with
  | Err _ | Ok None => inr (refusal 403 "failed to get user for trace validation" ReasonTracingUnavailable)
  | Ok (Some user) =>
      match ListActiveUserMembershipsWithDetails (u_ID user) with
      | Err _ => inr (refusal 403 "failed to get user memberships for trace validation" ReasonTracingUnavailable)
      | Ok ms =>
          let answer := match prepared ≫= pr_Trace with
                        | Some tr => Traced (Some tr)
                        | None => TraceTransaction (tx_from tx) (tx_to tx) (tx_data tx) (tx_value tx)
                        end in
          match answer with
          | Traced trace => judgeRaw HS HP (u_ID user) ms tx prepared trace
          | _ => inr (refusal 403 sendTraceDenyTracerError ReasonTracingUnavailable)
          end
      end
  end.

Definition unavailableDenial : Denial := refusal 403 sendTraceDenyTracerError ReasonTracingUnavailable.

(** The gate of a deployment. *)
Definition traceRawDeploy (HS : Store) (HP : PermissionSource) (userDID : string) (tx : TxParams)
  : list CreateTarget + Denial :=
  match GetUserByExternalID userDID with
  | Err _ | Ok None => inr unavailableDenial
  | Ok (Some user) =>
      match ListActiveUserMembershipsWithDetails (u_ID user) with
      | Err _ => inr unavailableDenial
      | Ok ms => validateDeployWithTracing (pc_knobs p) (u_ID user) (tx_from tx) (tx_data tx) (tx_value tx)
                   (orgsOf ms) (membershipsHaveDeployClaim ms)
      end
  end.

Definition traceRaw (HS : Store) (HP : PermissionSource) (userDID : string) (tx : TxParams)
  (prepared : option Prepared) : list CreateTarget + Denial :=
  match prepared with
  | Some pr => if pr_PlainValueTransfer pr then inl []
               else validateRawTxWithPreparedTrace HS HP userDID tx prepared
  | None =>
      if decide (tx_to tx = "") then traceRawDeploy HS HP userDID tx
      else if isSimpleValueTransfer (tx_data tx) && match HasCode (tx_to tx) with Ok false => true | _ => false end
      then inl []
      else validateRawTxWithPreparedTrace HS HP userDID tx None
  end.

(** ** The steps *)
Definition refuseApprovalDelivery (req : ProcessRequest) (orgID : string) : M ProcessResult :=
  refuse req orgID ReasonUpstreamError 503 503 "approval delivery unavailable".

Definition preflightUnavailable (req : ProcessRequest) (orgID : string) : M ProcessResult :=
  refuse req orgID ReasonTracingUnavailable 403 403 "signed preflight unavailable or unsupported transaction".

(** [middleware.RateLimitExceededPerSecond] *)
Definition RateLimitExceededPerSecond : string := "rate limit exceeded (requests per second)".

Definition done {A} (m : M ProcessResult) : M (phase ProcessResult A) := r ← m; mret (Done r).

Definition limitPreflight (req : ProcessRequest) (orgID : string) (ap : Approvals) : M (phase ProcessResult unit) :=
  match ap_Allow ap with
  | None => done (preflightUnavailable req orgID)
  | Some allow =>
      if allow (pq_UserID req) then mret (Next tt)
      else done (refuse req orgID ReasonRateLimited 429 429 RateLimitExceededPerSecond)
  end.

Definition preflight (req : ProcessRequest) (orgID rawTxHex : string) : M (phase ProcessResult (option Prepared)) :=
  match approvals with
  | None => mret (Next None)
  | Some ap =>
      if negb (ap_Accepting ap) then done (refuseApprovalDelivery req orgID)
      else
        gate ← limitPreflight req orgID ap;
        match gate with
        | Done r => mret (Done r)
        | Next _ =>
            match ap_Prepare ap rawTxHex with
            | Err _ => done (preflightUnavailable req orgID)
            | Ok pr => mret (Next (Some pr))
            end
        end
  end.

Definition rawTraceGate (req : ProcessRequest) (res : AccessCheckResult) (tx : TxParams)
  (prepared : option Prepared) : M (phase ProcessResult (list CreateTarget)) := fun s =>
  match traceRaw (storeOf s) (source (tablesOf s)) (pq_UserID req) tx prepared with
  | inl creates => (Ok (Next creates), s)
  | inr d => done (refuse req (rs_OrgID res) (dn_Reason d) (dn_StatusCode d) (dn_StatusCode d) (dn_Message d)) s
  end.

(** The registrations, and the approval handed over; nothing is kept when the
    queue refuses it. *)
Definition preRegisterRaw (res : AccessCheckResult) (tx : TxParams) (nonce : Z) (prepared : option Prepared)
  (creates : list CreateTarget) : M (string * list string) :=
  let addr := ToLower (CreateAddress (tx_from tx) nonce) in
  plain ← (if bool_decide (tx_to tx = "") && survives prepared addr
           then ok ← tryStore (db_PreRegisterPlainCreate (now ctx) (rs_OrgID res) addr);
                mret (if ok : bool then addr else "")
           else mret "");
  addrs ← preRegisterRuntimeCreates ctx (rs_OrgID res) creates;
  mret (plain, addrs).

Definition nonEmpty (s : string) : list string := if decide (s = "") then [] else [s].

Definition queueApproval (rawTxHex : string) (prepared : option Prepared) (plain : string) (addrs : list string)
  : M bool :=
  match approvals, prepared with
  | Some ap, Some pr =>
      match ap_Enqueue ap rawTxHex pr with
      | Ok _ => _ ← modify (fun s => set_approvals s (st_approvals s ++ [rawTxHex])%list); mret true
      | Err _ => _ ← deletePreregistered (addrs ++ nonEmpty plain)%list; mret false
      end
  | _, _ => mret true
  end.

Definition linkSender (req : ProcessRequest) (tx : TxParams) (reply : NodeReply) : M unit :=
  if decide (nr_Status reply = 200%Z /\ tx_from tx <> "" /\ pq_UserID req <> "")
  then _ ← tryStore (db_SystemLinkEthAddress (pq_UserID req) (tx_from tx)); mret tt
  else mret tt.

Definition rawForwarded (req : ProcessRequest) (res : AccessCheckResult) : Forwarded :=
  {| fw_Body := pq_Body req; fw_Header := resolveAPIKeyHeader p;
     fw_APIKey := if decide (rs_RPCAPIKey res = "") then pc_defaultRPCAPIKey p else rs_RPCAPIKey res;
     fw_ClientIP := pq_ClientIP req |}.

(** What follows the answer of the node. *)
Definition settleRaw (req : ProcessRequest) (res : AccessCheckResult) (tx : TxParams) (plain : string)
  (addrs visibleTo : list string) (reply : NodeReply) : M ProcessResult :=
  match nr_Err reply with
  | Some _ =>
      _ ← deletePreregistered (nonEmpty plain ++ addrs)%list;
      refuse req (rs_OrgID res) "" 502 502 "failed to forward request"
  | None =>
      _ ← settleRegistrations ctx res plain addrs reply;
      _ ← linkSender req tx reply;
      _ ← saveRecipients outboxFault req res visibleTo reply;
      _ ← logAccess logged req (rs_OrgID res) "" (nr_Status reply) (nr_Status reply);
      mret (Answer (nr_Status reply) (nr_Body reply))
  end.

Definition forwardRaw (req : ProcessRequest) (res : AccessCheckResult) (rawTxHex : string) (tx : TxParams)
  (nonce : Z) (prepared : option Prepared) (creates : list CreateTarget) (visibleTo : list string)
  : M ProcessResult :=
  let fw := rawForwarded req res in
  s ← get;
  if pc_breaks p && IsOpen (now ctx) (fw_APIKey fw) (st_breaker s)
  then refuse req (rs_OrgID res) ReasonRateLimited 429 429 "upstream rate limited, retry in 1s"
  else
    regs ← preRegisterRaw res tx nonce prepared creates;
    let '(plain, addrs) := regs in
    queued ← queueApproval rawTxHex prepared plain addrs;
    if negb queued then refuseApprovalDelivery req (rs_OrgID res)
    else
      reply ← forward node fw;
      _ ← updateBreaker p ctx (fw_APIKey fw) (nr_Status reply);
      settleRaw req res tx plain addrs visibleTo reply.

Definition rawCallable (tx : TxParams) (_ : list any) : bool :=
  negb (isSimpleValueTransfer (tx_data tx) || bool_decide (tx_to tx = "")).

(** With a slot held: preflight, trace, compliance, recipients, forwarding. *)
Definition guardedRaw (req : ProcessRequest) (res : AccessCheckResult) (rawTxHex : string) (tx : TxParams)
  (nonce : Z) : M ProcessResult :=
  pre ← preflight req (rs_OrgID res) rawTxHex;
  match pre with
  | Done r => mret r
  | Next prepared =>
      gate ← rawTraceGate req res tx prepared;
      match gate with
      | Done r => mret r
      | Next creates =>
          verdict ← checkCompliance p ctx logged req res tx;
          match verdict with
          | Done r => mret r
          | Next _ =>
              taken ← takeRecipients resolver extractAndStripRawTxVisibleTo (rawCallable tx) req;
              match taken with
              | Done r => mret r
              | Next (visibleTo, req) => forwardRaw req res rawTxHex tx nonce prepared creates visibleTo
              end
          end
      end
  end.

(** ** [processRawTransaction] *)
Definition processRawTransaction (req : ProcessRequest) : M ProcessResult :=
  if negb IsEnabled
  then refuse req "" "" 403 403
         "eth_sendRawTransaction requires runtime tracing to be enabled for security validation"
  else match extractRawTxHex (pq_Params req) with
  | Err _ => mret (Refuse 400 "invalid raw transaction")
  | Ok rawTxHex =>
      match decodeRawTransaction rawTxHex with
      | Err _ => mret (Refuse 400 "failed to decode raw transaction")
      | Ok (tx, nonce) => fun s =>
          let '(r, s) := checkAccess row1 reg iter ctx source (rawAccessRequest req tx) s in
          match r with
          | Err _ => refuse req "" "" 500 404 methodNotFound s
          | Ok res =>
              if negb (rs_Allowed res) then
                (if rs_AuthRequired res
                 then refuse req (rs_OrgID res) ReasonAuthRequired 401 404 methodNotFound s
                 else refuse req (rs_OrgID res) ReasonMethodNotAllowed 403 404 methodNotFound s)
              else if strictProfileRejectsVisibleTo p req true
              then refuse req (rs_OrgID res) ReasonInvalidRequestShape 400 400
                     "visibleTo is not supported on this network" s
              else limited p logged req (rs_OrgID res) (guardedRaw req res rawTxHex tx nonce) s
          end
      end
  end.
End raw.
