(* ===== verification/RawProps.v ===== *)
(** * What the processor of signed transactions guarantees. *)
From S2P Require Import Prelude GoStrings Methods Models Requests OrgContext Cache Db Writes.
From S2P Require Import Access Trace Deployments Json ReadDecision EventFilter ResponseFilter AuditChain.
From S2P Require Import F64 Compliance TraceGate TraceGateProps VisibleTo Limits Answers Processor.
From S2P Require Import ProcessorProps.
From S2P Require Import RawTransaction.
Local Open Scope string_scope.

Section props.
Context {C : Type} `{HC : ComplianceStore C} `{HA : ABI} `{HT : TraceEnv} `{HR : RuntimeTracer} `{HG : GoEthereum}
  `{HX : SignedTransactions}.
Context (p : Processor) (row1 : forall A : Type, list A -> option A) (reg : Registries)
  (iter : gmap string cacheEntry -> list string) (ctx : Ctx)
  (source : Tables -> PermissionSource)
  (resolver : option (Tables -> string -> result string)) (logged : string -> list any -> option string)
  (node : list Forwarded -> Forwarded -> NodeReply) (outboxFault : option string) (approvals : option Approvals).

Notation St := (State C).

(** ** What the steps leave alone *)
Lemma keeps_preRegisterRaw {A} (f : St -> A) res tx nonce pr creates :
  (forall s x, f (set_server s x) = f s) -> keeps (same f) (preRegisterRaw ctx res tx nonce pr creates).
Proof. intros Hf. unfold preRegisterRaw. keeps. Qed.
Lemma keeps_link {A} (f : St -> A) req tx reply :
  (forall s x, f (set_server s x) = f s) -> keeps (same f) (linkSender req tx reply).
Proof. intros Hf. unfold linkSender. keeps. Qed.
Lemma total_preRegisterRaw res tx nonce pr creates :
  infallible (preRegisterRaw ctx res tx nonce pr creates : stM St _).
Proof. unfold preRegisterRaw. total. Qed.
Lemma total_link req tx reply : infallible (linkSender req tx reply : stM St _).
Proof. unfold linkSender. total. Qed.
Local Hint Resolve keeps_preRegisterRaw keeps_link total_preRegisterRaw total_link : runs.

(** ** The approval *)
Definition queued (rawTxHex : string) (prepared : option Prepared) : list string :=
  match approvals, prepared with Some _, Some _ => [rawTxHex] | _, _ => [] end.

Lemma queueApproval_inv raw pr plain addrs (s : St) :
  exists b s', queueApproval approvals raw pr plain addrs s = (Ok b, s') /\
    (forall A (f : St -> A), Aside f -> f s' = f s) /\ st_node s' = st_node s /\ st_outbox s' = st_outbox s /\
    st_approvals s' = (st_approvals s ++ if b then queued raw pr else [])%list.
Proof.
  unfold queueApproval, queued. destruct approvals as [ap|]; [destruct pr as [q|]|].
  2,3: exists true, s; split_and!; try done; by rewrite app_nil_r.
  destruct (ap_Enqueue ap raw q).
  - eexists true, _. split_and!; try done. intros A f Hf. apply aside_approvals.
  - destruct (total_delete (addrs ++ nonEmpty plain) s) as ([] & s1 & E). unfold mbind, stM_bind. rewrite E.
    exists false, s1. rewrite app_nil_r.
    assert (Hk : forall A (f : St -> A), (forall t x, f (set_server t x) = f t) -> f s1 = f s).
    { intros A f Hf. by apply (keeps_delete f _ Hf _ _ _ E). }
    split_and!; [done|intros A f Hf; apply Hk, aside_server|by apply Hk..].
Qed.

(** ** After the node *)
Lemma settleRaw_inv req res tx plain addrs vis reply (s : St) r s' :
  settleRaw ctx logged outboxFault req res tx plain addrs vis reply s = (r, s') ->
  outcome_logged req r s s' /\ st_node s' = st_node s /\ st_limiter s' = st_limiter s /\
  st_compliance s' = st_compliance s /\ st_approvals s' = st_approvals s.
Proof.
  unfold settleRaw. destruct (nr_Err reply); intros H.
  - destruct (total_delete (nonEmpty plain ++ addrs) s) as ([] & s1 & E).
    unfold mbind, stM_bind in H. rewrite E in H.
    assert (Hk : forall A (f : St -> A), (forall t x, f (set_server t x) = f t) -> f s1 = f s).
    { intros A f Hf. by apply (keeps_delete f _ Hf _ _ _ E). }
    apply (refuse_logged _ _ _ _ _ _ _ s1 s) in H as (? & N & M & Q & A & _); [|by apply Hk].
    rewrite N, M, Q, A. split_and!; [done|by apply Hk..].
  - destruct (total_settle ctx res plain addrs reply s) as ([] & s1 & E1).
    destruct (total_link req tx reply s1) as ([] & s2 & E2).
    destruct (total_save outboxFault req res vis reply s2) as ([] & s3 & E3).
    unfold mbind, stM_bind in H. rewrite E1, E2, E3 in H. injection H as <- <-.
    assert (Hk : forall A (f : St -> A), (forall t x, f (set_server t x) = f t) ->
      (forall t x, f (set_outbox t x) = f t) -> f s3 = f s).
    { intros A f Hf Ho. transitivity (f s2).
      - assert (Hs : keeps (same f) (saveRecipients outboxFault req res vis reply)).
        { unfold saveRecipients, EnqueuePendingTxVisibility. keeps. apply keeps_modify. intros t. apply Ho. }
        by apply (Hs _ _ _ E3).
      - rewrite (keeps_link f _ _ _ Hf _ _ _ E2). by apply (keeps_settle ctx f _ _ _ _ Hf _ _ _ E1). }
    simpl. rewrite (Hk _ st_node), (Hk _ st_limiter), (Hk _ st_compliance), (Hk _ st_approvals) by done.
    split_and!; try done. eexists. split; [by rewrite (Hk _ st_log)|]. simpl. split_and!; try done. by case_decide.
Qed.

Lemma forwardRaw_inv req res raw tx nonce pr creates vis (s : St) r s' :
  forwardRaw p ctx logged node outboxFault approvals req res raw tx nonce pr creates vis s = (r, s') ->
  outcome_logged req r s s' /\ st_limiter s' = st_limiter s /\ st_compliance s' = st_compliance s /\
  ((st_node s' = st_node s /\ st_approvals s' = st_approvals s) \/
   (st_node s' = (st_node s ++ [rawForwarded p req res])%list /\
    st_approvals s' = (st_approvals s ++ queued raw pr)%list)).
Proof.
  intros H. unfold forwardRaw in H. apply st_bind_inv in H as [(s0 & s0' & Hg & H)|(e & Hg & _)]; [|done].
  injection Hg as <- <-. destruct (pc_breaks p && _).
  { apply (refuse_logged _ _ _ _ _ _ _ s s) in H as (? & ? & ? & ? & ? & _); [|done].
    split_and!; [done..|]. by left. }
  destruct (total_preRegisterRaw res tx nonce pr creates s) as ([plain addrs] & s1 & Hp).
  unfold mbind at 1, stM_bind at 1 in H. rewrite Hp in H.
  assert (K1 : forall A (f : St -> A), (forall t x, f (set_server t x) = f t) -> f s1 = f s).
  { intros A f Hf. by apply (keeps_preRegisterRaw f _ _ _ _ _ Hf _ _ _ Hp). }
  destruct (queueApproval_inv raw pr plain addrs s1) as (b & s2 & Hq & K2 & N2 & _ & A2).
  unfold mbind at 1, stM_bind at 1 in H. rewrite Hq in H. clear Hp Hq.
  assert (L : st_log s2 = st_log s) by (rewrite (K2 _ st_log _); by apply K1).
  assert (Ml : st_limiter s2 = st_limiter s) by (rewrite (K2 _ st_limiter _); by apply K1).
  assert (Q : st_compliance s2 = st_compliance s) by (rewrite (K2 _ st_compliance _); by apply K1).
  rewrite (K1 _ st_node) in N2 by done. rewrite (K1 _ st_approvals) in A2 by done. destruct b; simpl in H.
  2:{ rewrite app_nil_r in A2.
      apply (refuse_logged _ _ _ _ _ _ _ s2 s) in H as (? & -> & -> & -> & -> & _); [|done].
      split_and!; [done..|]. by left. }
  apply st_bind_inv in H as [(reply & s3 & Hf & H)|(e & Hf & _)]; [|done].
  apply st_bind_inv in H as [([] & s4 & Hb & H)|(e & Hb & _)]; [|done].
  apply settleRaw_inv in H as (Ho & -> & -> & -> & ->).
  rewrite (keeps_breaker p ctx st_limiter _ _ _ _ _ Hb), (keeps_breaker p ctx st_compliance _ _ _ _ _ Hb),
    (keeps_node_breaker _ _ _ _ _ _ _ Hb), (keeps_forward node st_limiter _ _ _ _ Hf),
    (keeps_forward node st_compliance _ _ _ _ Hf).
  split_and!; [|done|done|right].
  - eapply outcome_logged_log, Ho.
    by rewrite (keeps_breaker p ctx st_log _ _ _ _ _ Hb), (keeps_forward node st_log _ _ _ _ Hf).
  - assert (Ha : st_approvals s4 = st_approvals s3) by (injection Hb as <-; by repeat case_match).
    injection Hf as _ <-. simpl in *. by rewrite N2, Ha.
Qed.

(** ** The gates *)

(** What the approval service said of the transaction. *)
Definition preflighted (req : ProcessRequest) (raw : string) (prepared : option Prepared) : Prop :=
  match approvals with
  | None => prepared = None
  | Some ap => ap_Accepting ap = true /\ (exists allow, ap_Allow ap = Some allow /\ allow (pq_UserID req) = true) /\
      exists pr, ap_Prepare ap raw = Ok pr /\ prepared = Some pr
  end.

Lemma done_inv {A} (m : stM St ProcessResult) (s : St) r s' :
  @RawTransaction.done C A m s = (r, s') ->
  (exists d, m s = (Ok d, s') /\ r = Ok (Done d)) \/ (exists e, m s = (Err e, s') /\ r = Err e).
Proof.
  intros [(d & s1 & Hm & H)|(e & Hm & ->)]%st_bind_inv; [|eauto]. injection H as <- <-. eauto.
Qed.

(** A refusal with a log row and nothing else. *)
Definition refused (req : ProcessRequest) (d : ProcessResult) (s s' : St) : Prop :=
  outcome_logged req (Ok d) s s' /\ st_node s' = st_node s /\ st_limiter s' = st_limiter s /\
  st_approvals s' = st_approvals s.

Lemma done_refuse {A} req org reason status wire msg (s : St) r s' :
  @RawTransaction.done C A (refuse logged req org reason status wire msg) s = (r, s') ->
  exists d, r = Ok (Done d) /\ refused req d s s'.
Proof.
  intros [(d & H & ->)|(e & H & ->)]%done_inv; [|by rewrite refuse_eq in H].
  apply (refuse_logged _ _ _ _ _ _ _ s s) in H as (? & ? & ? & ? & ? & [= ->]); [|done]. eexists. by split_and!.
Qed.

Lemma preflight_inv req org raw (s : St) r s' :
  preflight logged approvals req org raw s = (r, s') ->
  (exists d, r = Ok (Done d) /\ refused req d s s') \/
  (exists prepared, r = Ok (Next prepared) /\ s' = s /\ preflighted req raw prepared).
Proof.
  unfold preflight, preflighted. destruct approvals as [ap|]; [|intros [= <- <-]; right; by eexists].
  destruct (ap_Accepting ap); simpl; [|intros H; left; by eapply done_refuse].
  intros [(gate & s1 & Hg & H)|(e & Hg & ->)]%st_bind_inv; unfold limitPreflight in Hg;
    destruct (ap_Allow ap) as [allow|] eqn:Ea; [destruct (allow (pq_UserID req)) eqn:Eu| |case_match; [done|]|].
  4,5: apply done_refuse in Hg as (d & ? & _); done.
  2,3: apply done_refuse in Hg as (d & [= ->] & Hd); injection H as <- <-; left; by exists d.
  injection Hg as <- <-. destruct (ap_Prepare ap raw) as [pr|] eqn:Ep; [|left; by eapply done_refuse].
  injection H as <- <-. right. eexists. split_and!; eauto.
Qed.

Record rawAdmitted (req : ProcessRequest) (res : AccessCheckResult) (raw : string) (tx : TxParams) (s s' : St)
  : Prop := {
  ra_gates : exists prepared creates, preflighted req raw prepared /\
    traceRaw p (storeOf row1 ctx s) (source (tablesOf s)) (pq_UserID req) tx prepared = inl creates /\
    st_approvals s' = (st_approvals s ++ queued raw prepared)%list;
  ra_compliance : complies p ctx req res tx s s';
  ra_forwards : exists fw, st_node s' = (st_node s ++ [fw])%list /\
    (bd_Params (pq_Body req) = pq_Params req -> bd_Params (fw_Body fw) !! 0 = Some (AStr raw) /\
       bd_visibleTo (fw_Body fw) = None /\ bd_privateFor (fw_Body fw) = None) }.

Lemma strip_raw body params topRaw body1 dids params' body' :
  bd_Params body = params ->
  extractAndStripTopLevelVisibleTo body = (topRaw, body1) ->
  extractAndStripRawTxVisibleTo params body1 = (dids, params', body') ->
  bd_Params body' !! 0 = params !! 0 /\ bd_visibleTo body' = None /\ bd_privateFor body' = None.
Proof.
  intros Hp H1 H2. assert (Hb : bd_visibleTo body1 = None /\ bd_privateFor body1 = None /\ bd_Params body1 = params).
  { unfold extractAndStripTopLevelVisibleTo in H1.
    destruct (bd_visibleTo body) eqn:?, (bd_privateFor body) eqn:?; simplify_eq/=; done. }
  destruct Hb as (? & ? & ?). unfold extractAndStripRawTxVisibleTo in H2.
  destruct params as [|a [|[| | | | |opts] rest]]; try (injection H2 as <- <- <-; split_and!; congruence).
  destruct (opts !! "visibleTo"); injection H2 as <- <- <-; [done|]. split_and!; congruence.
Qed.

Lemma guardedRaw_inv req res raw tx nonce (s : St) r s' :
  pq_Method req ∈ sends -> pq_Params req !! 0 = Some (AStr raw) ->
  guardedRaw p row1 ctx source resolver logged node outboxFault approvals req res raw tx nonce s = (r, s') ->
  outcome_logged req r s s' /\ st_limiter s' = st_limiter s /\
  ((st_node s' = st_node s /\ st_approvals s' = st_approvals s) \/ rawAdmitted req res raw tx s s').
Proof.
  intros Hm Hraw H. unfold guardedRaw in H.
  apply st_bind_inv in H as [(pre & s1 & Hp & H)|(e & Hp & ->)]; apply preflight_inv in Hp; [|naive_solver].
  destruct Hp as [(d & [= ->] & (? & ? & ? & ?))|(prepared & [= ->] & -> & Hpre)].
  { injection H as <- <-. split_and!; [done..|by left]. }
  apply st_bind_inv in H as [(gate & s2 & Hg & H)|(e & Hg & ->)]; unfold rawTraceGate in Hg;
    destruct (traceRaw _ _ _ _ _ _) as [creates|d] eqn:Et;
    [|apply done_refuse in Hg as (d' & [= ->] & (? & ? & ? & ?))|done|by apply done_refuse in Hg as (? & ? & _)].
  2:{ injection H as <- <-. split_and!; [done..|by left]. }
  injection Hg as <- <-.
  apply st_bind_inv in H as [(verdict & s3 & Hc & H)|(e & Hc & ->)]; apply checkCompliance_inv in Hc;
    [|naive_solver].
  destruct Hc as (Hn1 & Hl1 & Ha1 & [(d & [= ->] & Ho)|([= ->] & Hc & Hlog)]).
  { injection H as <- <-. split_and!; [done..|by left]. }
  apply st_bind_inv in H as [(taken & s4 & Ht & H)|(e & Ht & ->)]; apply takeRecipients_inv in Ht; [|naive_solver].
  destruct Ht as [-> [(msg & [= ->])|(vis & top & body1 & dids & params & body & [= ->] & E1 & E2)]].
  { injection H as <- <-. split_and!; [|done|by left]. right. by split_and!. }
  apply forwardRaw_inv in H as (Ho & Hl & Hcs & Hn). split_and!; [by eapply (outcome_logged_log _ _ s3)|congruence|].
  destruct Hn as [[Hn Ha]|[Hn Ha]]; [left; split; congruence|right]. split.
  - exists prepared, creates. split_and!; [done|done|congruence].
  - revert Hc. unfold complies. by rewrite Hcs.
  - eexists. split; [by rewrite <- Hn1|]. simpl. intros Hb.
    destruct (strip_raw _ _ _ _ _ _ _ Hb E1 E2) as (H0 & ? & ?). by rewrite H0.
Qed.

(** ** [processRawTransaction] *)
Notation processRaw := (processRawTransaction p row1 reg iter ctx source resolver logged node outboxFault approvals).
Notation decision s areq :=
  (@CheckAccess (storeOf row1 ctx s) _ (source (tablesOf s)) reg iter ctx areq (sv_ctl (st_server s))) (only parsing).

(** The transaction was decoded and the access decision admits it. *)
Definition rawGranted (req : ProcessRequest) (raw : string) (tx : TxParams) (res : AccessCheckResult) (s : St)
  : Prop :=
  IsEnabled = true /\ pq_Params req !! 0 = Some (AStr raw) /\
  (exists nonce, decodeRawTransaction raw = Ok (tx, nonce)) /\
  fst (decision s (rawAccessRequest req tx)) = Ok res /\ rs_Allowed res = true.

Lemma rawAdmitted_ext req res raw tx (s t s' t' : St) :
  tablesOf t = tablesOf s -> st_compliance t = st_compliance s -> st_node t = st_node s ->
  st_approvals t = st_approvals s -> st_compliance t' = st_compliance s' -> st_node t' = st_node s' ->
  st_approvals t' = st_approvals s' ->
  rawAdmitted req res raw tx t t' -> rawAdmitted req res raw tx s s'.
Proof.
  intros Ht Hc Hn Ha Hc' Hn' Ha' [A1 A2 A3]. unfold storeOf in *. rewrite Ht, Ha, Ha' in A1. rewrite Hn, Hn' in A3.
  split; [done| |done]. revert A2. unfold complies. by rewrite Hc, Hc'.
Qed.

Lemma processRaw_inv req (s : St) r s' :
  pq_Method req = "eth_sendRawTransaction" -> processRaw req s = (r, s') ->
  outcome_logged req r s s' /\ same_load (st_limiter s) (st_limiter s') /\
  ((st_node s' = st_node s /\ st_approvals s' = st_approvals s) \/
   exists raw tx res, rawGranted req raw tx res s /\ rawAdmitted req res raw tx s s').
Proof.
  intros Hm. assert (Hs : pq_Method req ∈ sends) by (rewrite Hm; apply list_elem_of_further; by left).
  unfold processRawTransaction, rawGranted. destruct IsEnabled; simpl.
  2:{ rewrite refuse_eq. intros [= <- <-]. split_and!; [by apply logAccess_logged|reflexivity|by left]. }
  assert (Hbad : forall msg, (mret (Refuse 400 msg) : stM St _) s = (r, s') -> outcome_logged req r s s' /\
    same_load (st_limiter s) (st_limiter s') /\ st_node s' = st_node s /\ st_approvals s' = st_approvals s).
  { intros msg [= <- <-]. split_and!; [by right|reflexivity|done|done]. }
  destruct (extractRawTxHex (pq_Params req)) as [raw|] eqn:Er.
  2:{ intros (? & ? & ? & ?)%Hbad. split_and!; [done..|by left]. }
  assert (Hraw : pq_Params req !! 0 = Some (AStr raw)).
  { unfold extractRawTxHex in Er. destruct (pq_Params req) as [|[] ?]; simplify_eq; done. }
  destruct (decodeRawTransaction raw) as [[tx nonce]|] eqn:Ed.
  2:{ intros (? & ? & ? & ?)%Hbad. split_and!; [done..|by left]. }
  clear Hbad. unfold checkAccess. destruct (CheckAccess _ _ _ _) as [d ctl] eqn:Ec. simpl. set (s1 := set_server s _).
  assert (Hno : forall org reason st wire msg, refuse logged req org reason st wire msg s1 = (r, s') ->
    outcome_logged req r s s' /\ same_load (st_limiter s) (st_limiter s') /\ st_node s' = st_node s /\
    st_approvals s' = st_approvals s).
  { intros org reason st wire msg H. rewrite refuse_eq in H. injection H as <- <-.
    split_and!; [by apply (logAccess_logged _ _ _ _ _ _ _ s1 s)|reflexivity..]. }
  destruct d as [res|e]; [|intros (? & ? & ? & ?)%Hno; split_and!; [assumption..|left; split; assumption]].
  destruct (rs_Allowed res) eqn:Ea; simpl.
  2:{ destruct (rs_AuthRequired res); (intros (? & ? & ? & ?)%Hno; split_and!; [assumption..|left; split; assumption]). }
  destruct (strictProfileRejectsVisibleTo p req true).
  { intros (? & ? & ? & ?)%Hno; split_and!; [assumption..|left; split; assumption]. }
  intros [(Ho & Hld & Hn & Hq & _)|(cl & cl' & t' & Hg & -> & Hld)]%limited_inv.
  { split_and!; [assumption..|left; split; assumption]. }
  apply guardedRaw_inv in Hg as (Ho & Hlim & Hn); [|assumption..]. split_and!; [exact Ho|apply Hld, Hlim|].
  destruct Hn as [Hn|Hn]; [left; exact Hn|right]. exists raw, tx, res. split.
  - split_and!; [reflexivity|exact Hraw|exists nonce; exact Ed|rewrite Ec; reflexivity|exact Ea].
  - eapply rawAdmitted_ext, Hn; reflexivity.
Qed.
End props.

(** * Claims *)
Section claims.
Context {C : Type} `{HC : ComplianceStore C} `{HA : ABI} `{HT : TraceEnv} `{HR : RuntimeTracer} `{HG : GoEthereum}
  `{HX : SignedTransactions}.
Context (p : Processor) (row1 : forall A : Type, list A -> option A) (reg : Registries)
  (iter : gmap string cacheEntry -> list string) (ctx : Ctx)
  (source : Tables -> PermissionSource)
  (resolver : option (Tables -> string -> result string)) (logged : string -> list any -> option string)
  (node : list Forwarded -> Forwarded -> NodeReply) (outboxFault : option string) (approvals : option Approvals).

Notation St := (State C).
Notation processRaw := (processRawTransaction p row1 reg iter ctx source resolver logged node outboxFault approvals).

(** The environment a simulation is judged in: code hashes come from the
    approved snapshot when there is one. *)
Definition judgingEnv (prepared : option Prepared) : TraceEnv :=
  match prepared with None => HT | Some pr => with_fetcher HT pr end.

(** Where the simulation of a signed transaction comes from: the approval, or
    the tracer on the decoded fields (fresh for a deployment). *)
Definition simulated (tx : TxParams) (prepared : option Prepared) (tr : TraceResult) : Prop :=
  match prepared ≫= pr_Trace with
  | Some t => tr = t
  | None => TraceTransaction (tx_from tx) (tx_to tx) (tx_data tx) (tx_value tx) = Traced (Some tr) \/
            tx_to tx = "" /\
              TraceTransactionUncached (tx_from tx) "" (tx_data tx) (tx_value tx) (Some (AStr "latest")) =
                Traced (Some tr)
  end.

(** The transfers no simulation is asked for: to an account without code, or
    approved as plain by the preflight. *)
Definition plainTransfer (tx : TxParams) (prepared : option Prepared) : Prop :=
  match prepared with
  | Some pr => pr_PlainValueTransfer pr = true
  | None => tx_to tx <> "" /\ isSimpleValueTransfer (tx_data tx) = true /\ HasCode (tx_to tx) = Ok false
  end.

(** What the approved preflight adds to the options of the caller's grants: the
    recipients it found without code and the creations it announced. *)
Definition preparedOptions (prepared : option Prepared) (o : traceOptions) : traceOptions :=
  match prepared with
  | None => o
  | Some pr => WithPreflightValueRecipients (pr_NoCodeRecipients pr) (WithPreflightCreations (pr_FreshCreations pr) o)
  end.

(** The simulation stayed within the organizations of the caller, under exactly
    the options of the caller's grants and the preflight. *)
Definition confined (HS : Store) (HP : PermissionSource) (userDID : string) (tx : TxParams) (prepared : option Prepared)
  : Prop :=
  exists user ms tr o,
    GetUserByExternalID userDID = Ok (Some user) /\ ListActiveUserMembershipsWithDetails (u_ID user) = Ok ms /\
    simulated tx prepared tr /\
    intraOrgGrantTraceOptions (pc_knobs p) (u_ID user) (tx_to tx) (orgsOf ms) = Ok o /\
    to_noCodeRecipients o = ∅ /\ to_freshCreations o = ∅ /\ to_createdAsOwn o = false /\
    @isolated HS (judgingEnv prepared) (orgsOf ms) (membershipsHaveDeployClaim ms) (preparedOptions prepared o) tr.

Lemma ranges_judging prepared : ranges_all -> @ranges_all (judgingEnv prepared).
Proof. by destruct prepared. Qed.

Lemma judgeRaw_isolated HS HP userID ms tx prepared trace creates :
  ranges_all -> judgeRaw p HS HP userID ms tx prepared trace = inl creates ->
  exists tr o, trace = Some tr /\ intraOrgGrantTraceOptions (pc_knobs p) userID (tx_to tx) (orgsOf ms) = Ok o /\
    @isolated HS (judgingEnv prepared) (orgsOf ms) (membershipsHaveDeployClaim ms) (preparedOptions prepared o) tr.
Proof.
  intros Hr H. unfold judgeRaw in H. destruct trace as [tr|]; [|done].
  destruct (intraOrgGrantTraceOptions _ _ _ _) as [o|] eqn:Eo; [|done].
  destruct (ValidateTrace _ _ _ _) as [v|] eqn:Ev; [|done]. destruct (tv_Allowed v) eqn:Ea; [|done].
  exists tr, o. split_and!; [done..|]. eapply allowed_trace_sound; [by apply ranges_judging|exact Ev|done].
Qed.

Lemma validateRaw_confined HS HP userDID tx prepared creates :
  ranges_all -> validateRawTxWithPreparedTrace p HS HP userDID tx prepared = inl creates ->
  confined HS HP userDID tx prepared.
Proof.
  intros Hr H. unfold validateRawTxWithPreparedTrace in H.
  destruct (GetUserByExternalID userDID) as [[user|]|] eqn:Eu; [|done..].
  destruct (ListActiveUserMembershipsWithDetails (u_ID user)) as [ms|] eqn:Em; [|done].
  destruct (match prepared ≫= pr_Trace with Some tr => _ | None => _ end) as [trace| |] eqn:Et; [|done..].
  apply judgeRaw_isolated in H as (tr & o & -> & Eo & Hi); [|done].
  pose proof (grant_options _ _ _ _ _ Eo) as (En & Ef & Ec & _).
  exists user, ms, tr, o. split_and!; try done. unfold simulated. destruct (prepared ≫= pr_Trace); [by simplify_eq|by left].
Qed.

Lemma traceRaw_confined HS HP userDID tx prepared creates :
  ranges_all -> IsEnabled = true -> traceRaw p HS HP userDID tx prepared = inl creates ->
  plainTransfer tx prepared \/ confined HS HP userDID tx prepared.
Proof.
  intros Hr He H. unfold traceRaw in H. destruct prepared as [pr|].
  { simpl. destruct (pr_PlainValueTransfer pr) eqn:E; [by left|right]. by eapply validateRaw_confined. }
  case_decide as Hto.
  - right. unfold traceRawDeploy in H. destruct (GetUserByExternalID userDID) as [[user|]|] eqn:Eu; [|done..].
    destruct (ListActiveUserMembershipsWithDetails (u_ID user)) as [ms|] eqn:Em; [|done].
    unfold validateDeployWithTracing in H. rewrite He in H. simpl in H.
    destruct (TraceTransactionUncached _ _ _ _ _) as [trace| |] eqn:Et; [|done..].
    apply validated_isolated in H as (tr & o & -> & Eo & Hi); [|done].
    pose proof (grant_options _ _ _ _ _ Eo) as (En & Ef & Ec & _).
    exists user, ms, tr, o. rewrite Hto. split_and!; try done. by right.
  - destruct (isSimpleValueTransfer _) eqn:Es; simpl in H; [|right; by eapply validateRaw_confined].
    destruct (HasCode _) as [[]|] eqn:Eh; [right; by eapply validateRaw_confined|by left|].
    right. by eapply validateRaw_confined.
Qed.

(** C12: A signed transaction the node sees was simulated and stayed within
    the caller's organizations, deployments included.  What is sent was decoded
    from the first parameter and admitted by the access decision on the decoded
    fields; it is a plain transfer (to an account without code, or approved as
    one), or its simulation is isolated for the organizations of the caller's
    memberships with their deploy claim and exactly the options of the caller's
    grants, to which an approved preflight, and nothing else, adds the accounts
    it found without code and the creations it announced; with approvals on, the
    simulation and the code hashes are the ones of the approved snapshot.
    Frames to precompiles and to attested shared infrastructure, whoever
    registered it, are within. *)
Theorem signed_transactions_are_isolated req (s : St) r s' :
  ranges_all -> pq_Method req = "eth_sendRawTransaction" ->
  processRaw req s = (r, s') -> st_node s' <> st_node s ->
  exists raw tx res prepared, rawGranted row1 reg iter ctx source req raw tx res s /\
    preflighted approvals req raw prepared /\ complies p ctx req res tx s s' /\
    (plainTransfer tx prepared \/ confined (storeOf row1 ctx s) (source (tablesOf s)) (pq_UserID req) tx prepared).
Proof.
  intros Hr Hm H Hn. apply processRaw_inv in H as (_ & _ & [[? _]|(raw & tx & res & Hg & Ha)]); [done| |done].
  destruct Ha as [(prepared & creates & Hp & Ht & _) Hc _]. exists raw, tx, res, prepared. split_and!; try done.
  destruct Hg as [He _]. by eapply traceRaw_confined.
Qed.

(** Whoever submits a signed transaction becomes its sender's owner.
    After any answer with status 200, an error of the node included, the
    recovered sender is among the linked addresses of the caller, whoever else
    it is linked to, unless the caller had revoked it. *)
Theorem submitter_owns_the_sender req tx reply (s : St) r s' :
  nr_Status reply = 200%Z -> tx_from tx <> "" -> pq_UserID req <> "" -> isValidEthAddress (tx_from tx) = true ->
  (forall l, l ∈ db_eth_address_links (t_db (tablesOf s)) -> el_DID l = pq_UserID req ->
     el_EthAddress l = ToLower (tx_from tx) -> el_Revoked l = false) ->
  (forall q, db_fault (t_db (tablesOf s)) q = None) ->
  linkSender req tx reply s = (r, s') ->
  exists addrs, @GetLinkedEthAddresses (storeOf row1 ctx s') (pq_UserID req) = Ok addrs /\ ToLower (tx_from tx) ∈ addrs.
Proof.
  intros Hs Hf Hu Hv Hrev Hno H. unfold linkSender in H. rewrite decide_True in H by done.
  apply st_bind_inv in H as [(b & s1 & Ht & H)|(e & Ht & ->)]; [injection H as <- <-|].
  2:{ unfold tryStore in Ht. by destruct (db_SystemLinkEthAddress _ _ _). }
  unfold tryStore, db_SystemLinkEthAddress in Ht. rewrite decide_False, Hv in Ht by naive_solver. simpl in Ht.
  unfold exec, query in Ht. rewrite Hno in Ht. simpl in Ht. injection Ht as _ <-.
  cbn. unfold db_GetLinkedEthAddresses, query.
  destruct (linkedExactly _ _ _) eqn:El; simpl; rewrite Hno; (eexists; split; [done|]);
    apply list_elem_of_In, in_map_iff.
  - apply existsb_exists in El as (l & Hin%list_elem_of_In & [Hd Ha]%bool_decide_eq_true).
    exists l. rewrite Ha, ToLower_idemp. split; [done|]. apply in_rev. rewrite rev_involutive. apply filter_In.
    split; [by apply list_elem_of_In|]. rewrite bool_decide_true by done. by rewrite (Hrev l).
  - exists {| el_DID := pq_UserID req; el_EthAddress := ToLower (tx_from tx); el_Revoked := false |}.
    split; [apply ToLower_idemp|]. apply in_rev. rewrite rev_involutive. apply filter_In.
    split; [apply in_app_iff; right; by left|]. simpl. by rewrite bool_decide_true.
Qed.
End claims.
