(* ===== verification/Frames.v ===== *)
(** * Call traces: the frames of [internal/tracer] and their JSON.

    A [callFrame] and a [strictFrame] have the same members, but for
    [revertReason]; [Frame] is both, and a decoder is given the members it
    knows.  [encoding/json] decodes a repeated [calls] member into the slice the
    first one left: [calls] is the slice, [stale] what its backing array holds
    beyond. *)
From S2P Require Import Prelude GoStrings Json.
Local Open Scope string_scope.

Inductive field :=
| FType | FFrom | FTo | FValue | FGas | FGasUsed | FInput | FOutput | FError | FRevertReason.

Record Data := {
  f_Type : string; f_From : string; f_To : string; f_Value : string; f_Gas : string; f_GasUsed : string;
  f_Input : string; f_Output : string; f_Error : string; f_RevertReason : string }.

Inductive Frame := MkFrame (d : Data) (calls stale : list Frame).
Definition data (f : Frame) : Data := let '(MkFrame d _ _) := f in d.
Definition calls (f : Frame) : list Frame := let '(MkFrame _ l _) := f in l.

Definition zeroData : Data := {|
  f_Type := ""; f_From := ""; f_To := ""; f_Value := ""; f_Gas := ""; f_GasUsed := ""; f_Input := "";
  f_Output := ""; f_Error := ""; f_RevertReason := "" |}.
Definition zeroFrame : Frame := MkFrame zeroData [] [].

Definition get_field (d : Data) (x : field) : string :=
  match x with
  | FType => f_Type d | FFrom => f_From d | FTo => f_To d | FValue => f_Value d | FGas => f_Gas d
  | FGasUsed => f_GasUsed d | FInput => f_Input d | FOutput => f_Output d | FError => f_Error d
  | FRevertReason => f_RevertReason d
  end.

Definition set_field (d : Data) (x : field) (s : string) : Data :=
  let v y := match x, y with
             | FType, FType | FFrom, FFrom | FTo, FTo | FValue, FValue | FGas, FGas | FGasUsed, FGasUsed
             | FInput, FInput | FOutput, FOutput | FError, FError | FRevertReason, FRevertReason => s
             | _, _ => get_field d y
             end in
  {| f_Type := v FType; f_From := v FFrom; f_To := v FTo; f_Value := v FValue; f_Gas := v FGas;
     f_GasUsed := v FGasUsed; f_Input := v FInput; f_Output := v FOutput; f_Error := v FError;
     f_RevertReason := v FRevertReason |}.

(** The string members, in the order of the struct. *)
Definition callFields : list (string * field) := [
  ("type", FType); ("from", FFrom); ("to", FTo); ("value", FValue); ("gas", FGas); ("gasUsed", FGasUsed);
  ("input", FInput); ("output", FOutput); ("error", FError)].
Definition strictFields : list (string * field) := (callFields ++ [("revertReason", FRevertReason)])%list.

(** ** [json.Unmarshal] *)
Definition field_of (names : list (string * field)) (k : string) : option field :=
  match list_find (fun nf => EqualFold k nf.1 = true) names with
  | Some (_, (_, x)) => Some x
  | None => None
  end.

Section members.
Variable names : list (string * field).
Variable dec : raw -> Frame -> option Frame.

Fixpoint decodeCalls (l : list raw) (backing : list Frame) : option (list Frame) :=
  match l with
  | [] => Some []
  | w :: l =>
      f ← dec w (default zeroFrame (head backing)); rest ← decodeCalls l (tail backing); Some (f :: rest)
  end.

Definition decodeMember (k : string) (w : raw) (cur : Frame) : option Frame :=
  let '(MkFrame d cs st) := cur in
  match field_of names k with
  | Some x => s ← decode_str w (get_field d x); Some (MkFrame (set_field d x s) cs st)
  | None =>
      if EqualFold k "calls" then
        match w with
        | RNull | RArr [] => Some (MkFrame d [] [])
        | RArr l => fs ← decodeCalls l (cs ++ st)%list; Some (MkFrame d fs (drop (length l) (cs ++ st)))
        | _ => None
        end
      else Some cur
  end.

Fixpoint decodeMembers (m : list (string * raw)) (cur : Frame) : option Frame :=
  match m with
  | [] => Some cur
  | kw :: m => let '(k, w) := kw in cur ← decodeMember k w cur; decodeMembers m cur
  end.
End members.

Fixpoint decodeFrame (names : list (string * field)) (v : raw) (cur : Frame) {struct v} : option Frame :=
  match v with
  | RNull => Some cur
  | RObj m => decodeMembers names (decodeFrame names) m cur
  | _ => None
  end.

(** ** [json.Marshal] *)
Definition omitEmpty (k s : string) : list (string * raw) := if decide (s = "") then [] else [(k, RStr s)].

Fixpoint marshalFrame (f : Frame) : raw :=
  let '(MkFrame d cs _) := f in
  RObj (("type", RStr (f_Type d)) :: omitEmpty "from" (f_From d) ++ omitEmpty "to" (f_To d) ++
        omitEmpty "value" (f_Value d) ++ omitEmpty "gas" (f_Gas d) ++ omitEmpty "gasUsed" (f_GasUsed d) ++
        omitEmpty "input" (f_Input d) ++ omitEmpty "output" (f_Output d) ++ omitEmpty "error" (f_Error d) ++
        omitEmpty "revertReason" (f_RevertReason d) ++
        match cs with [] => [] | _ => [("calls", RArr (map marshalFrame cs))] end)%list.

(** The visible part of a frame. *)
Fixpoint visible (f : Frame) : Frame := let '(MkFrame d cs _) := f in MkFrame d (map visible cs) [].

(** ** Induction over the tree *)
Section frame_ind.
Variable P : Frame -> Prop.
Hypothesis IH : forall d cs st, Forall P cs -> P (MkFrame d cs st).
Fixpoint frame_tree_ind (f : Frame) : P f :=
  let '(MkFrame d cs st) := f in
  IH d cs st ((fix go (l : list Frame) : Forall P l :=
    match l with [] => @List.Forall_nil _ P | x :: l => @List.Forall_cons _ P x l (frame_tree_ind x) (go l) end) cs).
End frame_ind.

Lemma set_field_get d x : set_field d x (get_field d x) = d.
Proof. by destruct d, x. Qed.

(** The members of a marshalled frame, one at a time. *)
Lemma decode_omit names dec k x s d cs st m :
  field_of names k = Some x -> get_field d x = "" ->
  decodeMembers names dec (omitEmpty k s ++ m) (MkFrame d cs st) =
  decodeMembers names dec m (MkFrame (set_field d x s) cs st).
Proof.
  intros Hf Hg. unfold omitEmpty. case_decide as Hs; simpl.
  - subst s. rewrite <- Hg. by rewrite set_field_get.
  - by rewrite Hf.
Qed.

Lemma decodeCalls_marshal cs :
  Forall (fun f => decodeFrame strictFields (marshalFrame f) zeroFrame = Some (visible f)) cs ->
  decodeCalls (decodeFrame strictFields) (map marshalFrame cs) [] = Some (map visible cs).
Proof. induction 1 as [|f cs Hf _ IH]; [done|]. simpl. rewrite Hf. simpl. by rewrite IH. Qed.

(** What is written is read back. *)
Lemma decode_marshal f : decodeFrame strictFields (marshalFrame f) zeroFrame = Some (visible f).
Proof.
  induction f as [d cs st IH] using frame_tree_ind. cbn [marshalFrame decodeFrame].
  change (("type", RStr (f_Type d)) :: ?m)%list with ([("type", RStr (f_Type d))] ++ m)%list.
  cbn [decodeMembers app]. unfold decodeMember at 1. unfold zeroFrame.
  replace (field_of strictFields "type") with (Some FType) by (vm_compute; reflexivity).
  cbn [decode_str mbind option_bind].
  rewrite (decode_omit _ _ "from" FFrom), (decode_omit _ _ "to" FTo), (decode_omit _ _ "value" FValue),
    (decode_omit _ _ "gas" FGas), (decode_omit _ _ "gasUsed" FGasUsed), (decode_omit _ _ "input" FInput),
    (decode_omit _ _ "output" FOutput), (decode_omit _ _ "error" FError),
    (decode_omit _ _ "revertReason" FRevertReason) by (vm_compute; reflexivity).
  destruct cs as [|c cs]; [by destruct d|]. cbn [decodeMembers]. unfold decodeMember.
  replace (field_of strictFields "calls") with (@None field) by (vm_compute; reflexivity).
  replace (EqualFold "calls" "calls") with true by (vm_compute; reflexivity).
  cbn [map]. change (marshalFrame c :: map marshalFrame cs)%list with (map marshalFrame (c :: cs)).
  cbn [app]. rewrite decodeCalls_marshal by done. cbn [mbind option_bind]. rewrite drop_nil. by destruct d.
Qed.
