(* ===== verification/StrictTrace.v ===== *)
(** * The client trace: [strict_calltrace.go] and [strict_calltrace_redact.go] of
    [internal/tracer].

    [ParseStrictCallTrace] checks a call tree and lists what it touches,
    [TraceValueOwners] lists whose storage produced its values, and
    [RedactStrictCallTrace] hides the values the viewer may not read. *)
From S2P Require Import Prelude GoStrings Json Trace Frames.
From Stdlib Require Import Ascii.
Local Open Scope string_scope.

Definition maxTraceDepth : nat := 256.
Definition ErrTraceDepth : string := "trace exceeds maximum depth (256)".
Definition ErrUntrustedTrace : string := "trace is not a well-formed callTracer tree".

Fixpoint hexDigits (s : string) : bool :=
  match s with EmptyString => true | String a s => bool_decide (is_Some (hex_val a)) && hexDigits s end.
Definition isStrictAddress (s : string) : bool :=
  Nat.eqb (String.length s) 42 && (HasPrefix s "0x" || HasPrefix s "0X") && hexDigits (drop_str 2 s).

Definition frameStorageContext (frameType to parentStorage : string) : string :=
  if contains ["DELEGATECALL"; "CALLCODE"] frameType then parentStorage else to.

(** ** Parsing *)

(** The type a frame is judged as: [None] is unknown. *)
Definition targetType (t : string) : option string :=
  if contains ["CALL"; "STATICCALL"; "DELEGATECALL"; "CREATE"; "CREATE2"] t then Some t
  else if decide (t = "CALLCODE") then Some "DELEGATECALL"
  else if decide (t = "SELFDESTRUCT") then Some "CALL"
  else None.

(** One frame: its target, or the refusal of the whole trace. *)
Definition strictTarget (d : Data) (depth : nat) (parentStorage : string) : result CallTarget :=
  if Nat.ltb maxTraceDepth depth then Err ErrTraceDepth
  else if (negb (bool_decide (f_From d = "")) || Nat.ltb 0 depth) && negb (isStrictAddress (f_From d))
  then Err ErrUntrustedTrace
  else match targetType (f_Type d) with
  | None => Err ErrUntrustedTrace
  | Some t =>
      let creation := contains ["CREATE"; "CREATE2"] (f_Type d) in
      if negb (creation && bool_decide (f_To d = "")) && negb (isStrictAddress (f_To d))
      then Err ErrUntrustedTrace
      else Ok {| ct_Type := t; ct_From := f_From d; ct_To := f_To d; ct_Depth := Z.of_nat depth; ct_Error := "";
                 ct_StorageAddress := frameStorageContext (f_Type d) (f_To d) parentStorage;
                 ct_Input := f_Input d |}
  end.

Definition addTarget (d : Data) (t : CallTarget) (acc : TraceResult) : TraceResult := {|
  tr_CallTargets := (tr_CallTargets acc ++ [t])%list;
  tr_HasCreate := tr_HasCreate acc || bool_decide (f_Type d = "CREATE");
  tr_HasCreate2 := tr_HasCreate2 acc || bool_decide (f_Type d = "CREATE2") |}.

Fixpoint collectStrictTargets (f : Frame) (depth : nat) (parentStorage : string) (acc : TraceResult)
  : result TraceResult :=
  let '(MkFrame d cs _) := f in
  t ← strictTarget d depth parentStorage;
  (fix each (cs : list Frame) (acc : TraceResult) : result TraceResult :=
     match cs with
     | [] => Ok acc
     | c :: cs => acc ← collectStrictTargets c (S depth) (ct_StorageAddress t) acc; each cs acc
     end) cs (addTarget d t acc).

Definition noTargets : TraceResult := {| tr_CallTargets := []; tr_HasCreate := false; tr_HasCreate2 := false |}.

Definition isObj (v : raw) : bool := match v with RObj _ => true | _ => false end.

Definition ParseStrictCallTrace (v : raw) : result (raw * TraceResult) :=
  if negb (isObj v) then Err ErrUntrustedTrace
  else match decodeFrame strictFields v zeroFrame with
  | None => Err ErrUntrustedTrace
  | Some root => tr ← collectStrictTargets root 0 "" noTargets; Ok (marshalFrame root, tr)
  end.

(** ** Value owners *)
Definition decodeSanitizedTrace (v : raw) : result Frame :=
  if negb (isObj v) then Err ErrUntrustedTrace
  else match decodeFrame strictFields v zeroFrame with None => Err ErrUntrustedTrace | Some f => Ok f end.

Definition addOwner (addr : string) (owners : list string) : list string :=
  let addr := ToLower addr in
  if decide (addr = "" \/ addr ∈ owners) then owners else (owners ++ [addr])%list.

Definition storageOf (f : Frame) (parentStorage : string) : string :=
  frameStorageContext (f_Type (data f)) (f_To (data f)) parentStorage.

Fixpoint walkOwners (f : Frame) (storage : string) (depth : nat) (owners : list string) : result (list string) :=
  let '(MkFrame d cs _) := f in
  if Nat.ltb maxTraceDepth depth then Err ErrTraceDepth
  else (fix each (cs : list Frame) (owners : list string) : result (list string) :=
    match cs with
    | [] => Ok owners
    | c :: cs =>
        let childStorage := storageOf c storage in
        owners ← walkOwners c childStorage (S depth) (addOwner childStorage (addOwner storage owners));
        each cs owners
    end) cs owners.

Definition TraceValueOwners (sanitized : raw) : result (list string) :=
  root ← decodeSanitizedTrace sanitized; walkOwners root (storageOf root "") 0 [].

(** ** Redaction *)
Inductive ClientFrame := MkClient (d : Data) (redacted : list string) (calls : list ClientFrame).

Definition redactedInput : list string := ["input"; "value"].
Definition redactedOutput : list string := ["output"; "revertReason"].

Section redact.
Variable readable : gset string.

Definition canRead (addr : string) : bool :=
  let addr := ToLower addr in negb (bool_decide (addr = "")) && mem readable addr.

Definition hideInput (d : Data) : Data := set_field (set_field d FInput "") FValue "".
Definition hideOutput (d : Data) : Data := set_field (set_field d FOutput "") FRevertReason "".

Definition redactData (d : Data) (storage parentStorage : string) (depth : nat) : Data * list string :=
  if Nat.eqb depth 0 then (d, [])
  else
    let '(d, r) := if canRead parentStorage then (d, []) else (hideInput d, redactedInput) in
    if canRead storage then (d, r) else (hideOutput d, r ++ redactedOutput)%list.

Fixpoint convert (f : Frame) (storage parentStorage : string) (depth : nat) : result ClientFrame :=
  let '(MkFrame d cs _) := f in
  if Nat.ltb maxTraceDepth depth then Err ErrTraceDepth
  else
    let '(d', r) := redactData d storage parentStorage depth in
    cs' ← (fix each (cs : list Frame) : result (list ClientFrame) :=
             match cs with
             | [] => Ok []
             | c :: cs => x ← convert c (storageOf c storage) storage (S depth); xs ← each cs; Ok (x :: xs)
             end) cs;
    Ok (MkClient d' r cs').
End redact.

Fixpoint marshalClient (f : ClientFrame) : raw :=
  let '(MkClient d r cs) := f in
  RObj (("type", RStr (f_Type d)) :: omitEmpty "from" (f_From d) ++ omitEmpty "to" (f_To d) ++
        omitEmpty "value" (f_Value d) ++ omitEmpty "gas" (f_Gas d) ++ omitEmpty "gasUsed" (f_GasUsed d) ++
        omitEmpty "input" (f_Input d) ++ omitEmpty "output" (f_Output d) ++ omitEmpty "error" (f_Error d) ++
        omitEmpty "revertReason" (f_RevertReason d) ++
        match r with [] => [] | _ => [("redacted", RArr (map RStr r))] end ++
        match cs with [] => [] | _ => [("calls", RArr (map marshalClient cs))] end)%list.

Definition RedactStrictCallTrace (sanitized : raw) (readable : gset string) : result raw :=
  root ← decodeSanitizedTrace sanitized;
  client ← convert readable root (storageOf root "") "" 0;
  Ok (marshalClient client).
