(* ===== verification/StrictTraceProps.v ===== *)
(** * What the client sees of a trace. *)
From S2P Require Import Prelude GoStrings Json Trace Frames StrictTrace.
Local Open Scope string_scope.

(** ** The frames of a tree, outermost first, with their depth and the storage
    their parent runs against *)
Fixpoint framesOf (f : Frame) (depth : nat) (parentStorage : string) : list (Data * nat * string) :=
  let '(MkFrame d cs _) := f in
  ((d, depth, parentStorage) ::
   flat_map (fun c => framesOf c (S depth) (frameStorageContext (f_Type d) (f_To d) parentStorage)) cs)%list.

Fixpoint mapR {A B} (g : A -> result B) (l : list A) : result (list B) :=
  match l with [] => Ok [] | x :: l => y ← g x; ys ← mapR g l; Ok (y :: ys) end.

Lemma mapR_app {A B} (g : A -> result B) l1 l2 :
  mapR g (l1 ++ l2) = (ys1 ← mapR g l1; ys2 ← mapR g l2; Ok (ys1 ++ ys2)%list).
Proof.
  induction l1 as [|x l1 IH]; simpl; [by destruct (mapR g l2)|]. destruct (g x); simpl; [|done]. rewrite IH.
  destruct (mapR g l1); simpl; [|done]. by destruct (mapR g l2).
Qed.

Lemma mapR_Ok {A B} (g : A -> result B) l ys : mapR g l = Ok ys <-> Forall2 (fun x y => g x = Ok y) l ys.
Proof.
  revert ys. induction l as [|x l IH]; intros ys; simpl.
  - split; [intros [= <-]; constructor|]. intros H. by inversion H.
  - split.
    + intros (y & Hy & (zs & Hz & [= <-])%bind_Ok)%bind_Ok. constructor; [done|]. by apply IH.
    + intros H. inversion H as [|? y ? zs Hy Hz]; subst. rewrite Hy. simpl. apply IH in Hz. by rewrite Hz.
Qed.

Definition judged (x : Data * nat * string) : result CallTarget := let '(d, n, ps) := x in strictTarget d n ps.
Definition creates (ty : string) (l : list (Data * nat * string)) : bool :=
  existsb (fun x => bool_decide (f_Type x.1.1 = ty)) l.

(** The reference: judge every frame of the tree, and collect the targets. *)
Definition gather (l : list (Data * nat * string)) (acc : TraceResult) : result TraceResult :=
  ts ← mapR judged l;
  Ok {| tr_CallTargets := (tr_CallTargets acc ++ ts)%list;
        tr_HasCreate := tr_HasCreate acc || creates "CREATE" l;
        tr_HasCreate2 := tr_HasCreate2 acc || creates "CREATE2" l |}.

Lemma gather_app l1 l2 acc : gather (l1 ++ l2) acc = (acc ← gather l1 acc; gather l2 acc).
Proof.
  unfold gather, creates. rewrite mapR_app. destruct (mapR judged l1); simpl; [|done].
  destruct (mapR judged l2); simpl; [|done]. by rewrite !existsb_app, !orb_assoc, app_assoc.
Qed.

Lemma gather_nil acc : gather [] acc = Ok acc.
Proof. unfold gather. simpl. destruct acc. simpl. by rewrite app_nil_r, !orb_false_r. Qed.

Lemma strictTarget_storage d n ps t :
  strictTarget d n ps = Ok t -> ct_StorageAddress t = frameStorageContext (f_Type d) (f_To d) ps.
Proof.
  unfold strictTarget. destruct (Nat.ltb maxTraceDepth n); [done|].
  destruct (_ && negb (isStrictAddress (f_From d))); [done|]. destruct (targetType (f_Type d)); [|done].
  destruct (negb _ && negb (isStrictAddress (f_To d))); [done|]. by intros [= <-].
Qed.

Lemma gather_one d n ps acc :
  gather [(d, n, ps)] acc = (t ← strictTarget d n ps; Ok (addTarget d t acc)).
Proof.
  unfold gather, creates, addTarget. cbn [mapR judged existsb fst]. destruct (strictTarget d n ps); simpl; [|done].
  by rewrite !orb_false_r.
Qed.

Lemma collect_gather f : forall n ps acc,
  collectStrictTargets f n ps acc = gather (framesOf f n ps) acc.
Proof.
  induction f as [d cs st IH] using frame_tree_ind. intros n ps acc. cbn [collectStrictTargets framesOf].
  change ((d, n, ps) :: ?l)%list with ([(d, n, ps)] ++ l)%list. rewrite gather_app.
  rewrite gather_one. destruct (strictTarget d n ps) as [t|e] eqn:Et; cbn [mbind result_bind]; [|done].
  rewrite <- (strictTarget_storage _ _ _ _ Et). generalize (addTarget d t acc). clear Et.
  induction IH as [|c cs Hc _ IH]; intros acc'; simpl; [by rewrite gather_nil|].
  rewrite gather_app, Hc. destruct (gather _ acc'); simpl; [|done]. apply IH.
Qed.

(** A frame is fit to be shown: known type, addresses of twenty bytes. *)
Record fit (x : Data * nat * string) : Prop := {
  fit_depth : x.1.2 <= maxTraceDepth;
  fit_type : is_Some (targetType (f_Type x.1.1));
  fit_from : isStrictAddress (f_From x.1.1) = true \/ (f_From x.1.1 = "" /\ x.1.2 = 0);
  fit_to : isStrictAddress (f_To x.1.1) = true \/ (f_To x.1.1 = "" /\ f_Type x.1.1 ∈ ["CREATE"; "CREATE2"]) }.

Lemma strictTarget_Ok d n ps t :
  strictTarget d n ps = Ok t -> fit (d, n, ps) /\ ct_To t = f_To d /\ ct_From t = f_From d /\
    ct_Depth t = Z.of_nat n /\ ct_Input t = f_Input d /\ targetType (f_Type d) = Some (ct_Type t).
Proof.
  unfold strictTarget. destruct (Nat.ltb maxTraceDepth n) eqn:En; [done|].
  destruct (_ && negb (isStrictAddress (f_From d))) eqn:Ef; [done|].
  destruct (targetType (f_Type d)) as [ty|] eqn:Ety; [|done].
  destruct (negb _ && negb (isStrictAddress (f_To d))) eqn:Eto; [done|]. intros [= <-]. simpl.
  apply Nat.ltb_ge in En. split; [|done]. split; simpl; [done|by rewrite Ety| |].
  - destruct (isStrictAddress (f_From d)); [by left|right]. rewrite andb_true_r in Ef.
    apply orb_false_iff in Ef as [Ef Hn]. apply negb_false_iff, bool_decide_eq_true in Ef.
    apply Nat.ltb_ge in Hn. split; [done|lia].
  - destruct (isStrictAddress (f_To d)); [by left|right]. rewrite andb_true_r in Eto.
    apply negb_false_iff, andb_true_iff in Eto as [Ec Ee]. apply bool_decide_eq_true in Ee.
    by apply contains_true in Ec.
Qed.

(** ** Redaction *)
Section redaction.
Context (readable : gset string).

(** Two frames the viewer may not tell apart: the same shape and public
    members, the same values where the storage that produced them is readable. *)
Definition same_public (d1 d2 : Data) : Prop :=
  f_Type d1 = f_Type d2 /\ f_From d1 = f_From d2 /\ f_To d1 = f_To d2 /\ f_Gas d1 = f_Gas d2 /\
  f_GasUsed d1 = f_GasUsed d2 /\ f_Error d1 = f_Error d2.

Inductive indistinct : Frame -> Frame -> string -> string -> nat -> Prop :=
| indistinct_frame d1 d2 cs1 cs2 st1 st2 storage parent depth :
    same_public d1 d2 ->
    (depth = 0 \/ canRead readable parent = true -> f_Input d1 = f_Input d2 /\ f_Value d1 = f_Value d2) ->
    (depth = 0 \/ canRead readable storage = true ->
       f_Output d1 = f_Output d2 /\ f_RevertReason d1 = f_RevertReason d2) ->
    Forall2 (fun c1 c2 => indistinct c1 c2 (storageOf c1 storage) storage (S depth)) cs1 cs2 ->
    indistinct (MkFrame d1 cs1 st1) (MkFrame d2 cs2 st2) storage parent depth.

Lemma redactData_indistinct d1 d2 storage parent depth :
  same_public d1 d2 ->
  (depth = 0 \/ canRead readable parent = true -> f_Input d1 = f_Input d2 /\ f_Value d1 = f_Value d2) ->
  (depth = 0 \/ canRead readable storage = true ->
     f_Output d1 = f_Output d2 /\ f_RevertReason d1 = f_RevertReason d2) ->
  redactData readable d1 storage parent depth = redactData readable d2 storage parent depth.
Proof.
  intros (?&?&?&?&?&?) Hi Ho. unfold redactData. destruct (Nat.eqb_spec depth 0) as [->|Hd].
  - destruct Hi, Ho; [by left..|]. f_equal. destruct d1, d2. simpl in *. congruence.
  - destruct (canRead readable parent), (canRead readable storage);
      try (destruct Hi; [by right|]); try (destruct Ho; [by right|]); f_equal;
      destruct d1, d2; unfold hideInput, hideOutput, set_field; simpl in *; congruence.
Qed.

Lemma convert_indistinct f : forall g storage parent depth,
  indistinct f g storage parent depth ->
  convert readable f storage parent depth = convert readable g storage parent depth.
Proof.
  induction f as [d cs st IH] using frame_tree_ind. intros g storage parent depth Hi.
  inversion Hi as [? d2 ? cs2 ? st2 ? ? ? Hp Hin Hout Hcs]; subst. cbn [convert].
  destruct (Nat.ltb maxTraceDepth depth); [done|].
  rewrite (redactData_indistinct d d2) by done. destruct (redactData _ _ _ _ _) as [d' r].
  f_equal. clear Hi Hp Hin Hout. revert cs2 Hcs.
  induction IH as [|c cs Hc _ IHcs]; intros cs2 Hcs; inversion Hcs as [|? c2 ? cs2' H1 H2]; subst; [done|].
  assert (Hst : storageOf c2 storage = storageOf c storage).
  { inversion H1; subst. unfold storageOf. simpl. match goal with H : same_public _ _ |- _ => destruct H as (-> & _ & -> & _) end. done. }
  rewrite Hst, (Hc c2) by done. destruct (convert _ c2 _ _ _); simpl; [|done]. by rewrite (IHcs cs2').
Qed.
End redaction.

(** ** The visible part is all that matters *)
Lemma convert_visible readable f : forall storage parent depth,
  convert readable (visible f) storage parent depth = convert readable f storage parent depth.
Proof.
  induction f as [d cs st IH] using frame_tree_ind. intros storage parent depth. cbn [visible convert].
  destruct (Nat.ltb maxTraceDepth depth); [done|]. destruct (redactData _ _ _ _ _) as [d' r]. f_equal.
  induction IH as [|c cs Hc _ IHcs]; [done|]. cbn [map]. replace (storageOf (visible c) storage) with (storageOf c storage)
    by (by destruct c). rewrite Hc. destruct (convert _ c _ _ _); simpl; [|done]. by rewrite IHcs.
Qed.

Lemma walkOwners_visible f : forall storage depth owners,
  walkOwners (visible f) storage depth owners = walkOwners f storage depth owners.
Proof.
  induction f as [d cs st IH] using frame_tree_ind. intros storage depth owners. cbn [visible walkOwners].
  destruct (Nat.ltb maxTraceDepth depth); [done|]. revert owners.
  induction IH as [|c cs Hc _ IHcs]; intros owners; [done|]. cbn [map].
  replace (storageOf (visible c) storage) with (storageOf c storage) by (by destruct c). rewrite Hc.
  destruct (walkOwners c _ _ _); simpl; [|done]. apply IHcs.
Qed.

(** ** Deep enough for every later walk *)
Definition shallow (f : Frame) (depth : nat) : Prop := forall ps x, x ∈ framesOf f depth ps -> x.1.2 <= maxTraceDepth.

(** The parent's storage plays no part in the depths. *)
Lemma depths_of f : forall n ps1 ps2,
  map (fun y => y.1.2) (framesOf f n ps1) = map (fun y => y.1.2) (framesOf f n ps2).
Proof.
  induction f as [d cs st IH] using frame_tree_ind. intros n ps1 ps2. cbn [framesOf map]. f_equal.
  generalize (frameStorageContext (f_Type d) (f_To d) ps1), (frameStorageContext (f_Type d) (f_To d) ps2).
  induction IH as [|c cs Hc _ IHcs]; intros s1 s2; [done|]. cbn [flat_map]. rewrite !map_app.
  by rewrite (Hc (S n) s1 s2), (IHcs s1 s2).
Qed.

Lemma shallow_intro f n ps : (forall x, x ∈ framesOf f n ps -> x.1.2 <= maxTraceDepth) -> shallow f n.
Proof.
  intros H ps' x Hx. apply list_elem_of_In, (in_map (fun y => y.1.2)) in Hx. rewrite (depths_of f n ps' ps) in Hx.
  apply in_map_iff in Hx as (y & <- & Hy). by apply H, list_elem_of_In.
Qed.

Lemma shallow_inv d cs st depth :
  shallow (MkFrame d cs st) depth -> Nat.ltb maxTraceDepth depth = false /\ forall c, c ∈ cs -> shallow c (S depth).
Proof.
  intros H. split.
  - apply Nat.ltb_ge. apply (H "" (d, depth, "")). cbn [framesOf]. by left.
  - intros c Hc. eapply shallow_intro. intros x Hx. apply (H ""). cbn [framesOf]. right.
    apply list_elem_of_In, in_flat_map. exists c. split; [by apply list_elem_of_In|]. by apply list_elem_of_In.
Qed.

Lemma convert_total readable f : forall storage parent depth,
  shallow f depth -> exists c, convert readable f storage parent depth = Ok c.
Proof.
  induction f as [d cs st IH] using frame_tree_ind. intros storage parent depth Hs.
  apply shallow_inv in Hs as [Hd Hs]. cbn [convert]. rewrite Hd. destruct (redactData _ _ _ _ _) as [d' r].
  assert (Hcs : exists xs, (fix each (cs : list Frame) : result (list ClientFrame) :=
             match cs with
             | [] => Ok []
             | c :: cs => x ← convert readable c (storageOf c storage) storage (S depth); xs ← each cs; Ok (x :: xs)
             end) cs = Ok xs).
  { clear Hd. induction IH as [|c cs Hc _ IHcs]; [by eexists|].
    destruct (Hc (storageOf c storage) storage (S depth)) as [x ->]; [apply Hs; by left|].
    destruct IHcs as [xs Hxs]; [intros c' Hc'; apply Hs; by right|]. simpl. rewrite Hxs. by eexists. }
  destruct Hcs as [xs ->]. by eexists.
Qed.

(** ** The owners are the storages that decide *)
Definition listed (owners : list string) (addr : string) : Prop := ToLower addr = "" \/ ToLower addr ∈ owners.

Lemma addOwner_listed addr owners : listed (addOwner addr owners) addr.
Proof.
  unfold listed, addOwner. case_decide as H; [done|]. right. apply elem_of_app. right. by apply list_elem_of_singleton.
Qed.
Lemma addOwner_sub addr owners : owners ⊆ addOwner addr owners.
Proof. unfold addOwner. case_decide; [done|]. intros x Hx. apply elem_of_app. by left. Qed.
Lemma listed_sub o1 o2 addr : o1 ⊆ o2 -> listed o1 addr -> listed o2 addr.
Proof. intros Hs [?|?]; [by left|right; by apply Hs]. Qed.

Lemma canRead_owners readable owners addr :
  listed owners addr -> canRead (readable ∩ list_to_set owners) addr = canRead readable addr.
Proof.
  intros H. unfold canRead, mem. destruct H as [->|H]; [done|].
  f_equal. apply bool_decide_ext. set_solver.
Qed.

Lemma walkOwners_spec f : forall storage depth owners owners',
  walkOwners f storage depth owners = Ok owners' ->
  owners ⊆ owners' /\
  forall readable all parent, owners' ⊆ all -> (depth = 0 \/ (listed all storage /\ listed all parent)) ->
    convert (readable ∩ list_to_set all) f storage parent depth = convert readable f storage parent depth.
Proof.
  induction f as [d cs st IH] using frame_tree_ind. intros storage depth owners owners' H.
  cbn [walkOwners] in H. destruct (Nat.ltb maxTraceDepth depth) eqn:Hd; [done|].
  assert (Hcs : owners ⊆ owners' /\ forall readable all, owners' ⊆ all -> forall c, c ∈ cs ->
    convert (readable ∩ list_to_set all) c (storageOf c storage) storage (S depth) =
    convert readable c (storageOf c storage) storage (S depth)).
  { clear Hd. revert owners H. induction IH as [|c cs Hc _ IHcs]; intros owners H.
    - injection H as <-. split; [done|]. intros readable all _ c Hc. by apply elem_of_nil in Hc.
    - apply bind_Ok in H as (o1 & Ho & H). apply Hc in Ho as [Hsub Hconv]. apply IHcs in H as [Hsub' Hconv'].
      assert (Hst : addOwner storage owners ⊆ o1) by (etrans; [apply (addOwner_sub (storageOf c storage))|done]).
      split; [etrans; [apply (addOwner_sub storage)|by etrans]|].
      intros readable all Hall c' [->|Hc']%elem_of_cons; [|by apply Hconv'].
      apply Hconv; [by etrans|]. right. split; (eapply listed_sub; [|apply addOwner_listed]).
      + etrans; [exact Hsub|by etrans].
      + etrans; [exact Hst|by etrans]. }
  destruct Hcs as [Hsub Hcs]. split; [done|]. intros readable all parent Hall Hp. cbn [convert]. rewrite Hd.
  assert (Hr : redactData (readable ∩ list_to_set all) d storage parent depth = redactData readable d storage parent depth).
  { unfold redactData. destruct (Nat.eqb_spec depth 0); [done|]. destruct Hp as [?|[Hp1 Hp2]]; [done|].
    by rewrite !canRead_owners. }
  rewrite Hr. clear Hr. destruct (redactData readable d storage parent depth) as [d' r]. f_equal. specialize (Hcs readable all Hall).
  clear -Hcs. induction cs as [|c cs IHcs]; [done|]. rewrite (Hcs c) by by left.
  destruct (convert readable c _ _ _); simpl; [|done]. rewrite IHcs; [done|]. intros c' Hc'. apply Hcs. by right.
Qed.

Definition proper_owners (owners : list string) : Prop := NoDup owners /\ "" ∉ owners.
Lemma addOwner_proper addr owners : proper_owners owners -> proper_owners (addOwner addr owners).
Proof.
  intros [Hn He]. unfold addOwner. case_decide as H; [done|]. split.
  - apply NoDup_app. split_and!; [done|set_solver|apply NoDup_singleton].
  - set_solver.
Qed.

Lemma walkOwners_total f : forall storage depth owners,
  shallow f depth -> proper_owners owners ->
  exists owners', walkOwners f storage depth owners = Ok owners' /\ proper_owners owners'.
Proof.
  induction f as [d cs st IH] using frame_tree_ind. intros storage depth owners Hs Hp.
  apply shallow_inv in Hs as [Hd Hs]. cbn [walkOwners]. rewrite Hd. clear Hd. revert owners Hp.
  induction IH as [|c cs Hc _ IHcs]; intros owners Hp; [by exists owners|].
  destruct (Hc (storageOf c storage) (S depth) (addOwner (storageOf c storage) (addOwner storage owners)))
    as (o1 & -> & Ho1); [apply Hs; by left|by apply addOwner_proper, addOwner_proper|].
  apply IHcs; [|done]. intros c' Hc'. apply Hs. by right.
Qed.

(** ** Claims *)

(** What [ParseStrictCallTrace] accepts. *)
Lemma ParseStrictCallTrace_Ok v san tr :
  ParseStrictCallTrace v = Ok (san, tr) ->
  exists root, decodeFrame strictFields v zeroFrame = Some root /\ san = marshalFrame root /\
    gather (framesOf root 0 "") noTargets = Ok tr.
Proof.
  unfold ParseStrictCallTrace. destruct (isObj v); simpl; [|done].
  destruct (decodeFrame _ v _) as [root|]; [|done]. intros (tr' & Hc & [= <- <-])%bind_Ok.
  exists root. by rewrite <- collect_gather.
Qed.

Lemma decodeSanitized_marshal root : decodeSanitizedTrace (marshalFrame root) = Ok (visible root).
Proof. unfold decodeSanitizedTrace. rewrite decode_marshal. by destruct root. Qed.

Lemma redact_marshal root readable :
  RedactStrictCallTrace (marshalFrame root) readable =
  (c ← convert readable root (storageOf root "") "" 0; Ok (marshalClient c)).
Proof.
  unfold RedactStrictCallTrace. rewrite decodeSanitized_marshal. cbn [mbind result_bind]. rewrite convert_visible.
  by destruct root.
Qed.

(** What the client is shown of a trace is what was judged.  When the
    node's answer is accepted, the bytes passed on decode to the tree that was
    decoded from the answer, and the targets handed to the validator are one
    per frame of that tree, outermost first, each carrying the frame's
    addresses, input and depth, with CALLCODE judged as DELEGATECALL and
    SELFDESTRUCT as CALL; every frame has a known type, twenty-byte addresses
    (empty only for the sender of the outermost frame and for a creation that
    failed) and a depth within the limit; creations are reported exactly when
    a frame is one. *)
Theorem shown_trace_is_judged v san tr :
  ParseStrictCallTrace v = Ok (san, tr) ->
  exists root, decodeFrame strictFields v zeroFrame = Some root /\
    decodeFrame strictFields san zeroFrame = Some (visible root) /\
    Forall2 (fun x t => fit x /\ ct_To t = f_To x.1.1 /\ ct_From t = f_From x.1.1 /\
        ct_Depth t = Z.of_nat x.1.2 /\ ct_Input t = f_Input x.1.1 /\
        ct_StorageAddress t = frameStorageContext (f_Type x.1.1) (f_To x.1.1) x.2 /\
        targetType (f_Type x.1.1) = Some (ct_Type t))
      (framesOf root 0 "") (tr_CallTargets tr) /\
    (tr_HasCreate tr = true <-> exists x, x ∈ framesOf root 0 "" /\ f_Type x.1.1 = "CREATE") /\
    (tr_HasCreate2 tr = true <-> exists x, x ∈ framesOf root 0 "" /\ f_Type x.1.1 = "CREATE2").
Proof.
  intros (root & Hd & -> & Hg)%ParseStrictCallTrace_Ok. exists root.
  apply bind_Ok in Hg as (ts & Hts & [= <-]). apply mapR_Ok in Hts. simpl. split_and!.
  - done.
  - apply decode_marshal.
  - eapply Forall2_impl; [exact Hts|]. intros [[d n] ps] t Ht. simpl in *.
    pose proof (strictTarget_storage _ _ _ _ Ht). by apply strictTarget_Ok in Ht as (? & ? & ? & ? & ? & ?).
  - unfold creates. rewrite existsb_true. by setoid_rewrite bool_decide_eq_true.
  - unfold creates. rewrite existsb_true. by setoid_rewrite bool_decide_eq_true.
Qed.

(** C16: A viewer learns nothing about a value produced by a storage it may
    not read.  Two accepted answers whose trees have the same shape, types,
    addresses, gas and errors, and the same inputs, values, outputs and revert
    reasons wherever the producing storage is readable (or in the outermost
    frame), are shown as the same bytes. *)
Theorem redaction_hides_values v1 v2 san1 san2 tr1 tr2 root1 root2 readable :
  ParseStrictCallTrace v1 = Ok (san1, tr1) -> ParseStrictCallTrace v2 = Ok (san2, tr2) ->
  decodeFrame strictFields v1 zeroFrame = Some root1 -> decodeFrame strictFields v2 zeroFrame = Some root2 ->
  indistinct readable root1 root2 (storageOf root1 "") "" 0 ->
  RedactStrictCallTrace san1 readable = RedactStrictCallTrace san2 readable.
Proof.
  intros (r1 & Hd1 & -> & _)%ParseStrictCallTrace_Ok (r2 & Hd2 & -> & _)%ParseStrictCallTrace_Ok H1 H2 Hi.
  simplify_eq. rewrite !redact_marshal, (convert_indistinct _ _ _ _ _ _ Hi).
  inversion Hi as [d1 d2 ? ? ? ? ? ? ? (Ht & _ & Hto & _)]; subst. unfold storageOf. simpl. by rewrite Ht, Hto.
Qed.

(** The storages asked about are the ones that matter, and after an
    answer was accepted no later step fails on it: its value owners can be
    listed, it can be redacted, and permissions on any other address change
    nothing. *)
Theorem owners_decide_redaction v san tr readable :
  ParseStrictCallTrace v = Ok (san, tr) ->
  exists owners out, TraceValueOwners san = Ok owners /\ RedactStrictCallTrace san readable = Ok out /\
    RedactStrictCallTrace san (readable ∩ list_to_set owners) = Ok out /\ NoDup owners /\ "" ∉ owners.
Proof.
  intros (root & Hd & -> & Hg)%ParseStrictCallTrace_Ok. apply bind_Ok in Hg as (ts & Hts%mapR_Ok & _).
  assert (Hsh : shallow root 0).
  { apply (shallow_intro _ _ ""). intros x Hx. apply list_elem_of_lookup in Hx as [i Hi].
    destruct (Forall2_lookup_l _ _ _ _ _ Hts Hi) as (t & _ & Ht).
    destruct x as [[d n] ps]. by apply strictTarget_Ok in Ht as ([] & _). }
  destruct (walkOwners_total root (storageOf root "") 0 [] Hsh) as (owners & Ho & Hn & He).
  { split; [constructor|set_solver]. }
  destruct (convert_total readable root (storageOf root "") "" 0 Hsh) as [c Hc].
  exists owners, (marshalClient c). rewrite !redact_marshal, Hc. split_and!; try done.
  - unfold TraceValueOwners. rewrite decodeSanitized_marshal. cbn [mbind result_bind]. rewrite walkOwners_visible.
    by destruct root.
  - destruct (walkOwners_spec _ _ _ _ _ Ho) as [_ Hw]. rewrite (Hw readable owners ""); [by rewrite Hc|done|by left].
Qed.
