(* ===== verification/Tracer.v ===== *)
(** * The tracer: [tracer.go], [runtime_tracer.go] and [cache.go] of
    [internal/tracer].

    [Rpc] is the node behind its URL: it answers a method and parameters with a
    transport error or a body.  The cache of traces is state; the tracer the
    gates use ([RuntimeTracer] of [TraceGate.v]) is [runtimeTracer] at the
    current cache and time. *)
From S2P Require Import Prelude GoStrings Models Requests Json OrgContext Cache Access Trace.
From S2P Require Import Sha256 TraceGate Frames StrictTrace.
From Stdlib Require Import Ascii.
Local Open Scope string_scope.

(** ** [jsonRPCResponse] *)
Fixpoint decimalDigits (s : string) (acc : Z) : option Z :=
  match s with
  | EmptyString => Some acc
  | String a s =>
      let n := N_of_ascii a in
      if ((48 <=? n) && (n <=? 57))%N then decimalDigits s (acc * 10 + Z.of_N (n - 48))%Z else None
  end.

(** [strconv.ParseInt(lit, 10, 64)] of a JSON number *)
Definition parseInt64 (lit : string) : option Z :=
  n ← (match lit with
       | String "-"%char d => if decide (d = "") then None else Z.opp <$> decimalDigits d 0
       | _ => if decide (lit = "") then None else decimalDigits lit 0
       end);
  if decide (- 2 ^ 63 <= n < 2 ^ 63)%Z then Some n else None.

Definition decode_int (v : raw) (cur : Z) : option Z :=
  match v with RNull => Some cur | RNum lit => parseInt64 lit | _ => None end.
Definition member_int (name : string) (v : raw) : option Z :=
  vs ← members name v; decode_fold decode_int vs 0%Z.

Record rpcError := { re_Code : Z; re_Message : string }.
(** a [*rpcError] member *)
Definition decode_error (v : raw) (cur : option rpcError) : option (option rpcError) :=
  match v with
  | RNull => Some None
  | RObj _ =>
      let e := default {| re_Code := 0; re_Message := "" |} cur in
      codes ← members "code" v; c ← decode_fold decode_int codes (re_Code e);
      msgs ← members "message" v; m ← decode_fold decode_str msgs (re_Message e);
      Some (Some {| re_Code := c; re_Message := m |})
  | _ => None
  end.

Record rpcResponse := { rp_Result : option raw; rp_Error : option rpcError }.
Definition decodeResponse (v : raw) : option rpcResponse :=
  _ ← member_str "jsonrpc" v; _ ← member_int "id" v;
  r ← member_raw "result" v;
  es ← members "error" v; e ← decode_fold decode_error es None;
  Some {| rp_Result := r; rp_Error := e |}.

(** ** Call targets *)
Definition validRootCallFrameType (t : string) : bool :=
  contains ["CALL"; "CALLCODE"; "DELEGATECALL"; "STATICCALL"; "CREATE"; "CREATE2"] t.
Definition validNestedCallFrameType (t : string) : bool :=
  validRootCallFrameType t || bool_decide (t = "SELFDESTRUCT").
Definition callFrameRequiresTarget (t : string) : bool :=
  contains ["CALL"; "CALLCODE"; "DELEGATECALL"; "STATICCALL"] t.

Definition ErrInvalidFrame : string := "invalid call frame".

(** One frame: its target if it has one. *)
Definition callTarget (d : Data) (depth : nat) : result (option CallTarget) :=
  if Nat.ltb maxTraceDepth depth then Err ErrTraceDepth
  else if negb (if Nat.eqb depth 0 then validRootCallFrameType (f_Type d) else validNestedCallFrameType (f_Type d))
  then Err ErrInvalidFrame
  else if callFrameRequiresTarget (f_Type d) && bool_decide (TrimSpace (f_To d) = "") then Err ErrInvalidFrame
  else if validRootCallFrameType (f_Type d)
  then Ok (Some {| ct_Type := f_Type d; ct_From := f_From d; ct_To := f_To d; ct_Depth := Z.of_nat depth;
                   ct_Error := f_Error d; ct_StorageAddress := ""; ct_Input := "" |})
  else Ok None.

Definition addCall (d : Data) (t : option CallTarget) (acc : TraceResult) : TraceResult := {|
  tr_CallTargets := (tr_CallTargets acc ++ option_list t)%list;
  tr_HasCreate := tr_HasCreate acc || bool_decide (f_Type d = "CREATE");
  tr_HasCreate2 := tr_HasCreate2 acc || bool_decide (f_Type d = "CREATE2") |}.

Fixpoint extractCallTargets (f : Frame) (depth : nat) (acc : TraceResult) : result TraceResult :=
  let '(MkFrame d cs _) := f in
  t ← callTarget d depth;
  (fix each (cs : list Frame) (acc : TraceResult) : result TraceResult :=
     match cs with
     | [] => Ok acc
     | c :: cs => acc ← extractCallTargets c (S depth) acc; each cs acc
     end) cs (addCall d t acc).

Definition ParseCallTraceResult (v : option raw) : result TraceResult :=
  match v ≫= fun v => decodeFrame callFields v zeroFrame with
  | None => Err "failed to parse trace result"
  | Some frame =>
      if negb (validRootCallFrameType (f_Type (data frame))) then Err "failed to parse trace result"
      else extractCallTargets frame 0 noTargets
  end.

(** ** The node *)
Class Rpc := {
  rpc : string -> list any -> result (option raw);
  keccak256 : list ascii -> list ascii }.

Section tracer.
Context `{HN : Rpc}.

Definition callRpc (method : string) (params : list any) : result (option raw) :=
  body ← wrap "failed to execute request" (rpc method params);
  match body ≫= decodeResponse with
  | None => Err "failed to parse response"
  | Some r => match rp_Error r with Some e => Err ("RPC error: " +:+ re_Message e) | None => Ok (rp_Result r) end
  end.

Definition callTracerConfig : any :=
  AObj {["tracer" := AStr "callTracer"; "tracerConfig" := AObj {["onlyTopCall" := ABool false]}]}.

Definition latestBlock (blockParam : option any) : any :=
  match blockParam with
  | None | Some ANull | Some (AStr EmptyString) => AStr "latest"
  | Some b => b
  end.

Definition TraceCallObject (callObj : gmap string any) (blockParam : option any) : result TraceResult :=
  r ← callRpc "debug_traceCall" [AObj callObj; latestBlock blockParam; callTracerConfig]; ParseCallTraceResult r.

Definition put_nonempty (k v : string) (m : gmap string any) : gmap string any :=
  if decide (v = "") then m else <[k := AStr v]> m.

Definition TraceCall (from to data value : string) (blockParam : option any) : result TraceResult :=
  TraceCallObject (put_nonempty "value" value (put_nonempty "data" data (put_nonempty "to" to
    (put_nonempty "from" from ∅)))) blockParam.

(** [Tracer.TraceTransaction]: the replay of a mined transaction *)
Definition TraceMinedTransaction (txHash : string) : result TraceResult :=
  r ← callRpc "debug_traceTransaction" [AStr txHash; callTracerConfig];
  match r ≫= fun v => decodeFrame callFields v zeroFrame with
  | None => Err "failed to parse trace result"
  | Some frame => extractCallTargets frame 0 noTargets
  end.

(** [json.Unmarshal] of the result into a string *)
Definition codeOf (address : string) : result string :=
  r ← callRpc "eth_getCode" [AStr address; AStr "latest"];
  match r ≫= fun v => decode_str v "" with None => Err "failed to parse code result" | Some c => Ok c end.

Definition nodeHasCode (address : string) : result bool :=
  code ← codeOf address; Ok (negb (contains [""; "0x"; "0X"] (TrimSpace code))).

Definition nodeCodeHash (address : string) : result string :=
  code ← codeOf address;
  match DecodeString (TrimSpace (TrimPrefix (ToLower code) "0x")) with
  | None => Err "failed to hex-decode code"
  | Some bytes => Ok ("0x" +:+ EncodeToString (keccak256 bytes))
  end.

(** ** The cache *)
Record TraceCache := { tc_entries : gmap string (TraceResult * Z); tc_ttl : Z }.

Definition DefaultCacheTTL : Z := 10.
Definition NewTraceCache (ttl : Z) : TraceCache :=
  {| tc_entries := ∅; tc_ttl := if decide (ttl = 0%Z) then DefaultCacheTTL else ttl |}.

Definition traceKey (from to data value block : string) : string :=
  sha256hex (from +:+ "|" +:+ to +:+ "|" +:+ data +:+ "|" +:+ value +:+ "|" +:+ block).

Definition cacheGet (now : Z) (key : string) (c : TraceCache) : option TraceResult :=
  match tc_entries c !! key with
  | None => None
  | Some (r, expiresAt) => if (expiresAt <? now)%Z then None else Some r
  end.
Definition cacheSet (now : Z) (key : string) (r : TraceResult) (c : TraceCache) : TraceCache :=
  {| tc_entries := <[key := (r, now + tc_ttl c)%Z]> (tc_entries c); tc_ttl := tc_ttl c |}.
Definition cacheClear (c : TraceCache) : TraceCache := {| tc_entries := ∅; tc_ttl := tc_ttl c |}.
(** [cleanup]: the expired entries are deleted. *)
Definition cacheCleanup (now : Z) (c : TraceCache) : TraceCache :=
  {| tc_entries := filter (fun e => (e.2.2 <? now)%Z = false) (tc_entries c); tc_ttl := tc_ttl c |}.

(** ** [RuntimeTracer] *)
Definition norm (s : string) : string := ToLower (TrimSpace s).
Definition lowerBlock (b : option any) : option any :=
  match b with Some (AStr s) => Some (AStr (norm s)) | b => b end.

Definition answerOf (r : result TraceResult) : TraceAnswer :=
  match r with
  | Ok tr => Traced (Some tr)
  | Err e => if decide (e = ErrTraceDepth) then ErrTraceDepthExceeded else TracerError e
  end.

Variable enabled : bool.

(** [TraceTransaction]: the answer and the cache after it. *)
Definition rtTraceTransaction (now : Z) (from to data value : string) (c : TraceCache) : TraceAnswer * TraceCache :=
  if negb enabled then (Traced None, c)
  else
    let from := norm from in let to := norm to in let data := norm data in let value := TrimSpace value in
    let key := traceKey from to data value "latest" in
    match cacheGet now key c with
    | Some tr => (Traced (Some tr), c)
    | None =>
        match TraceCall from to data value (Some (AStr "latest")) with
        | Ok tr => (Traced (Some tr), cacheSet now key tr c)
        | Err e => (answerOf (Err e), c)
        end
    end.

Definition rtTraceTransactionUncached (from to data value : string) (blockParam : option any) : TraceAnswer :=
  if negb enabled then Traced None
  else answerOf (TraceCall (norm from) (norm to) (norm data) (TrimSpace value) (lowerBlock blockParam)).

Definition rtTraceCallObjectUncached (callObj : gmap string any) (blockParam : option any) : TraceAnswer :=
  if negb enabled then Traced None else answerOf (TraceCallObject callObj blockParam).

Definition rtTraceMinedTransaction (txHash : string) : TraceAnswer :=
  if negb enabled then Traced None else answerOf (TraceMinedTransaction txHash).

(** The tracer the gates use. *)
Definition runtimeTracer (hexAddress : string -> bool) (now : Z) (c : TraceCache) : RuntimeTracer := {|
  IsEnabled := enabled; HasCode := nodeHasCode;
  TraceTransaction from to data value := fst (rtTraceTransaction now from to data value c);
  TraceTransactionUncached := rtTraceTransactionUncached;
  TraceCallObjectUncached := rtTraceCallObjectUncached;
  IsHexAddress := hexAddress |}.
End tracer.
