(* ===== verification/TracerProps.v ===== *)
(** * What the tracer reports, and how old a cached report can be. *)
From S2P Require Import Prelude GoStrings Models Requests Json OrgContext Cache Access Trace.
From S2P Require Import Sha256 TraceGate Frames StrictTrace StrictTraceProps Tracer.
From S2P Require AuditTamper.
From Stdlib Require Import Ascii.
Local Open Scope string_scope.

(** ** The targets of a tree *)
Definition judgedCall (x : Data * nat * string) : result (option CallTarget) := callTarget x.1.1 x.1.2.

(** The reference: every frame of the tree judged, the targets in order. *)
Definition gatherCalls (l : list (Data * nat * string)) (acc : TraceResult) : result TraceResult :=
  ts ← mapR judgedCall l;
  Ok {| tr_CallTargets := (tr_CallTargets acc ++ omap id ts)%list;
        tr_HasCreate := tr_HasCreate acc || creates "CREATE" l;
        tr_HasCreate2 := tr_HasCreate2 acc || creates "CREATE2" l |}.

Lemma gatherCalls_app l1 l2 acc : gatherCalls (l1 ++ l2) acc = (acc ← gatherCalls l1 acc; gatherCalls l2 acc).
Proof.
  unfold gatherCalls, creates. rewrite mapR_app. destruct (mapR judgedCall l1); simpl; [|done].
  destruct (mapR judgedCall l2); simpl; [|done]. by rewrite !existsb_app, !orb_assoc, omap_app, app_assoc.
Qed.

Lemma gatherCalls_nil acc : gatherCalls [] acc = Ok acc.
Proof. unfold gatherCalls. simpl. destruct acc. simpl. by rewrite app_nil_r, !orb_false_r. Qed.

Lemma gatherCalls_one x acc : gatherCalls [x] acc = (t ← judgedCall x; Ok (addCall x.1.1 t acc)).
Proof.
  unfold gatherCalls, creates, addCall. cbn [mapR existsb]. destruct (judgedCall x) as [[t|]|]; simpl; [| |done];
    by rewrite !orb_false_r.
Qed.

Lemma extract_gather f : forall n ps acc, extractCallTargets f n acc = gatherCalls (framesOf f n ps) acc.
Proof.
  induction f as [d cs st IH] using frame_tree_ind. intros n ps acc. cbn [extractCallTargets framesOf].
  change ((d, n, ps) :: ?l)%list with ([(d, n, ps)] ++ l)%list. rewrite gatherCalls_app, gatherCalls_one.
  unfold judgedCall. cbn [fst snd]. destruct (callTarget d n) as [t|e]; cbn [mbind result_bind]; [|done].
  generalize (addCall d t acc), (frameStorageContext (f_Type d) (f_To d) ps).
  induction IH as [|c cs Hc _ IH]; intros acc' ps'; simpl; [by rewrite gatherCalls_nil|].
  rewrite gatherCalls_app, (Hc _ ps'). destruct (gatherCalls _ acc'); simpl; [|done]. apply IH.
Qed.

(** What a frame turns into. *)
Lemma callTarget_Ok d n t :
  callTarget d n = Ok t ->
  n <= maxTraceDepth /\
  match t with
  | Some t => validRootCallFrameType (f_Type d) = true /\ ct_Type t = f_Type d /\ ct_To t = f_To d /\
      ct_From t = f_From d /\ ct_Depth t = Z.of_nat n /\ ct_Error t = f_Error d /\
      (callFrameRequiresTarget (f_Type d) = true -> TrimSpace (f_To d) <> "")
  | None => f_Type d = "SELFDESTRUCT" /\ 0 < n
  end.
Proof.
  unfold callTarget, validNestedCallFrameType. destruct (Nat.ltb maxTraceDepth n) eqn:En; [done|].
  apply Nat.ltb_ge in En. destruct (negb _) eqn:Ev; [done|]. apply negb_false_iff in Ev.
  destruct (callFrameRequiresTarget (f_Type d) && _) eqn:Er; [done|].
  destruct (validRootCallFrameType (f_Type d)) eqn:Et; intros [= <-]; (split; [done|]).
  - split_and!; try done. intros Hr. rewrite Hr in Er. simpl in Er. by apply bool_decide_eq_false in Er.
  - destruct (Nat.eqb_spec n 0); [done|]. simpl in Ev. apply bool_decide_eq_true in Ev. split; [done|lia].
Qed.

(** C18: The tracer leaves no call out.  When the node's answer is accepted,
    the targets are one per frame of its tree, outermost first, with the
    frame's type, addresses, depth and error; the only frames without a target
    are nested SELFDESTRUCTs, every other type is known, every call names its
    callee, and a tree deeper than the limit is refused. *)
Theorem tracer_reports_every_call v tr :
  ParseCallTraceResult v = Ok tr ->
  exists root ts, v ≫= (fun v => decodeFrame callFields v zeroFrame) = Some root /\
    tr_CallTargets tr = omap id ts /\
    Forall2 (fun x t => x.1.2 <= maxTraceDepth /\
      match t with
      | Some t => validRootCallFrameType (f_Type x.1.1) = true /\ ct_Type t = f_Type x.1.1 /\
          ct_To t = f_To x.1.1 /\ ct_From t = f_From x.1.1 /\ ct_Depth t = Z.of_nat x.1.2 /\
          ct_Error t = f_Error x.1.1 /\
          (callFrameRequiresTarget (f_Type x.1.1) = true -> TrimSpace (f_To x.1.1) <> "")
      | None => f_Type x.1.1 = "SELFDESTRUCT" /\ 0 < x.1.2
      end) (framesOf root 0 "") ts /\
    (tr_HasCreate tr = true <-> exists x, x ∈ framesOf root 0 "" /\ f_Type x.1.1 = "CREATE") /\
    (tr_HasCreate2 tr = true <-> exists x, x ∈ framesOf root 0 "" /\ f_Type x.1.1 = "CREATE2").
Proof.
  unfold ParseCallTraceResult. destruct (_ ≫= _) as [root|]; [|done]. destruct (negb _); [done|].
  rewrite (extract_gather root 0 ""). intros (ts & Hts%mapR_Ok & [= <-])%bind_Ok. exists root, ts. simpl.
  split_and!; [done|done| | |].
  - eapply Forall2_impl; [exact Hts|]. intros x t Ht. by apply callTarget_Ok.
  - unfold creates. rewrite existsb_true. by setoid_rewrite bool_decide_eq_true.
  - unfold creates. rewrite existsb_true. by setoid_rewrite bool_decide_eq_true.
Qed.

(** ** The cache over time *)
Section cache.
(** The node at each time, and the configured lifetime. *)
Context (nodes : Z -> Rpc) (ttl : Z).

(** [step_trace] is a trace that runs on its own; [step_store] ends one that asked
    the node at [t] and stores the answer later, after others ran. *)
Inductive cache_step : Z * TraceCache -> Z * TraceCache -> Prop :=
| step_trace now now' from to data value c :
    (now <= now')%Z ->
    cache_step (now, c) (now', snd (@rtTraceTransaction (nodes now') true now' from to data value c))
| step_store t now now' from to data value tr c :
    (t <= now')%Z -> (now <= now')%Z ->
    @TraceCall (nodes t) (norm from) (norm to) (norm data) (TrimSpace value) (Some (AStr "latest")) = Ok tr ->
    cache_step (now, c)
      (now', cacheSet now' (traceKey (norm from) (norm to) (norm data) (TrimSpace value) "latest") tr c)
| step_cleanup now now' c : (now <= now')%Z -> cache_step (now, c) (now', cacheCleanup now' c)
| step_clear now now' c : (now <= now')%Z -> cache_step (now, c) (now', cacheClear c).

Definition cache_reachable (s : Z * TraceCache) : Prop := exists t0, rtc cache_step (t0, NewTraceCache ttl) s.

(** Where an entry comes from: what the node said, and when it was stored. *)
Definition recorded (now : Z) (key : string) (e : TraceResult * Z) : Prop :=
  exists t at_ from to data value, (t <= at_ <= now)%Z /\ e.2 = (at_ + tc_ttl (NewTraceCache ttl))%Z /\
    key = traceKey from to data value "latest" /\
    @TraceCall (nodes t) from to data value (Some (AStr "latest")) = Ok e.1.

Definition cache_ok (s : Z * TraceCache) : Prop :=
  tc_ttl s.2 = tc_ttl (NewTraceCache ttl) /\
  forall key e, tc_entries s.2 !! key = Some e -> recorded s.1 key e.

Lemma recorded_later now now' key e : (now <= now')%Z -> recorded now key e -> recorded now' key e.
Proof.
  intros Hle (t & at_ & from & to & data & value & Ht & H). exists t, at_, from, to, data, value. split; [lia|done].
Qed.

Lemma cache_ok_set t now now' from to data value tr c :
  cache_ok (now, c) -> (t <= now')%Z -> (now <= now')%Z ->
  @TraceCall (nodes t) from to data value (Some (AStr "latest")) = Ok tr ->
  cache_ok (now', cacheSet now' (traceKey from to data value "latest") tr c).
Proof.
  intros [Httl He] Ht Hle Hcall. simpl in *. split; [done|]. intros key x. simpl.
  destruct (decide (key = traceKey from to data value "latest")) as [->|Hne].
  - rewrite lookup_insert_eq. intros [= <-]. exists t, now', from, to, data, value.
    split_and!; [lia|lia|simpl; by rewrite Httl|done|done].
  - rewrite lookup_insert_ne by done. intros Hk. by eapply recorded_later, He.
Qed.

Lemma cache_ok_step s s' : cache_ok s -> cache_step s s' -> cache_ok s'.
Proof.
  intros Hok Hs. pose proof Hok as [Httl He].
  destruct Hs as [now now' from to data value c Hle|t now now' from to data value tr c Ht Hle Hc|now now' c Hle|now now' c Hle];
    simpl in *.
  - unfold rtTraceTransaction. simpl. destruct (cacheGet _ _ _).
    { split; [done|]. intros key x Hk. simpl in *. by eapply recorded_later, He. }
    destruct (TraceCall _ _ _ _ _) as [tr|] eqn:Et.
    2:{ split; [done|]. intros key x Hk. simpl in *. by eapply recorded_later, He. }
    by eapply (cache_ok_set now' now now').
  - by eapply (cache_ok_set t now now').
  - split; [done|]. intros key e Hk. simpl in Hk. apply map_lookup_filter_Some in Hk as [Hk _].
    by eapply recorded_later, He.
  - split; [done|]. intros key e Hk. simpl in Hk. by rewrite lookup_empty in Hk.
Qed.

Lemma cache_ok_reachable s : cache_reachable s -> cache_ok s.
Proof.
  intros [t0 Hr]. assert (H0 : cache_ok (t0, NewTraceCache ttl)).
  { split; [done|]. intros key e Hk. simpl in Hk. by rewrite lookup_empty in Hk. }
  revert H0. induction Hr as [|x y z Hs _ IH]; [done|]. intros H0. by eapply IH, cache_ok_step.
Qed.

(** *** The texts that are hashed *)
Definition cacheText (from to data value : string) : string :=
  from +:+ "|" +:+ to +:+ "|" +:+ data +:+ "|" +:+ value +:+ "|" +:+ "latest".
Notation no_bar := AuditTamper.no_bar.
Fixpoint bars (s : string) : nat :=
  match s with EmptyString => 0 | String a s => (if Ascii.eqb a "|"%char then 1 else 0) + bars s end.
Lemma bars_app a b : bars (a +:+ b) = bars a + bars b.
Proof. induction a as [|c a IH]; [done|]. change (String c a +:+ b) with (String c (a +:+ b)). simpl. rewrite IH. lia. Qed.
Lemma bars_none s : no_bar s = true <-> bars s = 0.
Proof.
  induction s as [|a s IH]; simpl; [done|]. destruct (Ascii.eqb a "|"); simpl; [split; [done|lia]|exact IH].
Qed.
(** Fields without a bar are read back from their text. *)
Lemma cacheText_injective from to data value from' to' data' value' :
  no_bar from = true -> no_bar to = true -> no_bar data = true -> no_bar value = true ->
  cacheText from' to' data' value' = cacheText from to data value ->
  from' = from /\ to' = to /\ data' = data /\ value' = value.
Proof.
  intros H1 H2 H3 H4 E. pose proof (f_equal bars E) as Eb. unfold cacheText in Eb. rewrite !bars_app in Eb.
  apply bars_none in H1, H2, H3, H4. rewrite H1, H2, H3, H4 in Eb. simpl in Eb.
  apply AuditTamper.bar_split in E as [-> E]; [|apply bars_none; lia..].
  apply AuditTamper.bar_split in E as [-> E]; [|apply bars_none; lia..].
  apply AuditTamper.bar_split in E as [-> E]; [|apply bars_none; lia..].
  apply AuditTamper.bar_split in E as [-> _]; [|apply bars_none; lia..]. done.
Qed.

(** C19: A simulation served for a send is no older than the cache's lifetime.
    Whatever traces, stores of slower ones, cleanups and resets came before, the
    answer is what the node said of some call, asked now or stored not longer
    than the lifetime ago; and that call has the same four fields, or the texts
    of the two calls, their fields joined by bars, are two different ones with
    the same SHA-256, or they are the same text and one of the fields contains a
    bar. *)
Theorem cached_trace_is_recent now c now' from to data value tr c' :
  cache_reachable (now, c) -> (now <= now')%Z ->
  @rtTraceTransaction (nodes now') true now' from to data value c = (Traced (Some tr), c') ->
  exists t at_ from' to' data' value',
    (t <= at_ <= now')%Z /\ (at_ = now' /\ t = now' \/ now' - tc_ttl (NewTraceCache ttl) <= at_)%Z /\
    @TraceCall (nodes t) from' to' data' value' (Some (AStr "latest")) = Ok tr /\
    let text' := cacheText from' to' data' value' in
    let text := cacheText (norm from) (norm to) (norm data) (TrimSpace value) in
    (from' = norm from /\ to' = norm to /\ data' = norm data /\ value' = TrimSpace value \/
     text' <> text /\ sha256hex text' = sha256hex text \/
     text' = text /\
       no_bar (norm from) && no_bar (norm to) && no_bar (norm data) && no_bar (TrimSpace value) = false).
Proof.
  intros Hr%cache_ok_reachable Hle. destruct Hr as [_ He]. unfold rtTraceTransaction. simpl.
  set (text := cacheText (norm from) (norm to) (norm data) (TrimSpace value)).
  change (traceKey _ _ _ _ _) with (sha256hex text).
  assert (Hmiss : forall r, match @TraceCall (nodes now') (norm from) (norm to) (norm data) (TrimSpace value) (Some (AStr "latest")) with
    | Ok tr => (Traced (Some tr), cacheSet now' (sha256hex text) tr c) | Err e => (answerOf (Err e), c) end = (Traced (Some tr), r) ->
    @TraceCall (nodes now') (norm from) (norm to) (norm data) (TrimSpace value) (Some (AStr "latest")) = Ok tr).
  { intros r. destruct (TraceCall _ _ _ _ _) as [tr'|e]; [by intros [= -> _]|]. unfold answerOf. by case_decide. }
  unfold cacheGet. destruct (tc_entries c !! sha256hex text) as [[r expiresAt]|] eqn:Ek; [destruct (expiresAt <? now')%Z eqn:Ex|].
  - intros H%Hmiss. exists now', now', (norm from), (norm to), (norm data), (TrimSpace value).
    split_and!; [lia|lia|by left|done|by left].
  - apply He in Ek as (t & at_ & from' & to' & data' & value' & Ht & Hexp & Hkey & Hcall). simpl in *.
    intros [= <- _]. change (traceKey _ _ _ _ _) with (sha256hex (cacheText from' to' data' value')) in Hkey.
    exists t, at_, from', to', data', value'. split_and!; [lia|lia|right; lia|done|].
    destruct (decide (cacheText from' to' data' value' = text)) as [Htext|Hne]; [|by right; left].
    destruct (no_bar (norm from) && no_bar (norm to) && no_bar (norm data) && no_bar (TrimSpace value)) eqn:Eb;
      [left|by right; right].
    rewrite !andb_true_iff in Eb. destruct Eb as [[[? ?] ?] ?]. by apply cacheText_injective.
  - intros H%Hmiss. exists now', now', (norm from), (norm to), (norm data), (TrimSpace value).
    split_and!; [lia|lia|by left|done|by left].
Qed.
End cache.
