(* ===== verification/DebugTrace.v ===== *)
(** * Client traces: [processDebugTrace] and its gates
    ([internal/server/jsonrpc_trace.go], [read_profile_trace.go]).

    A client may replay a call ([debug_traceCall]) or a mined transaction
    ([debug_traceTransaction]).  The request sent to the node is built by the
    proxy; the answer is parsed strictly, judged and redacted
    ([StrictTrace.v]). *)
From S2P Require Import Prelude GoStrings Methods Models Requests OrgContext Cache Db Writes.
From S2P Require Import Access Trace Deployments Json ReadDecision EventFilter ResponseFilter AuditChain.
From S2P Require Import F64 Compliance TraceGate VisibleTo Limits Answers Processor Frames.
From S2P Require Import StrictTrace Tracer.
From Stdlib Require Import Ascii.
Local Open Scope string_scope.

Definition traceDenyAccess : string := "trace access denied".
Definition traceDenyUnsafeTracer : string := "trace denied: unsupported tracer or trace option".
Definition traceDenyOverrides : string := "trace denied: state or block overrides are not permitted".
Definition traceDenyInvalidShape : string := "trace denied: invalid request shape".
Definition traceDenyTracerError : string := "trace denied: tracing temporarily unavailable".
Definition traceDenyCrossOrg : string := "trace denied: access not permitted".
Definition ReasonTraceAccessDenied : string := "trace_access_denied".
Definition ReasonInternalError : string := "internal_error".

Definition invalid : Denial := refusal 400 traceDenyInvalidShape ReasonInvalidRequestShape.
Definition unsafe : Denial := refusal 400 traceDenyUnsafeTracer ReasonInvalidRequestShape.
Definition override : Denial := refusal 400 traceDenyOverrides ReasonInvalidRequestShape.
Definition unavailable : Denial := refusal 403 traceDenyTracerError ReasonTracingUnavailable.
Definition internal : Denial := refusal 500 traceDenyTracerError ReasonInternalError.

(** ** Hex text *)
Definition hasHexPrefix (s : string) : bool := HasPrefix s "0x" || HasPrefix s "0X".
Definition isTxHash (s : string) : bool :=
  Nat.eqb (String.length s) 66 && hasHexPrefix s && hexDigits (drop_str 2 s).
Definition isHexData (s : string) : bool :=
  hasHexPrefix s && Nat.eqb (Nat.modulo (String.length s) 2) 0 && hexDigits (drop_str 2 s).
Definition isHexQuantity (s : string) : bool :=
  hasHexPrefix s && Nat.ltb 2 (String.length s) && Nat.leb (String.length s) 66 && hexDigits (drop_str 2 s).

(** [strings.TrimLeft(s, "0")] *)
Fixpoint trimZeros (s : string) : string :=
  match s with String "0"%char r => trimZeros r | _ => s end.
Definition canonicalHexQuantity (s : string) : string :=
  let digits := trimZeros (ToLower (drop_str 2 s)) in
  "0x" +:+ (if decide (digits = "") then "0" else digits).

(** ** The shape of the request *)
Definition foldKeys (v : any) : option (gmap string any) :=
  match v with
  | AObj m =>
      let l := (fun kv => (ToLower kv.1, kv.2)) <$> map_to_list m in
      if decide (NoDup (fst <$> l)) then Some (list_to_map l) else None
  | _ => None
  end.

Section shape.
Context `{HG : GoEthereum}.

(** A string member: absent is the empty string; [None] is another type. *)
Definition strMember (obj : gmap string any) (k : string) : option string :=
  match obj !! k with None => Some "" | Some v => as_str v end.

(** The recipient: null, empty and [0x] are a creation. *)
Definition callTo (obj : gmap string any) : option string :=
  match obj !! "to" with
  | None | Some ANull => Some ""
  | Some (AStr s) => if contains [""; "0x"] s then Some "" else if isHexAddress s then Some (ToLower s) else None
  | Some _ => None
  end.

Definition callFrom (obj : gmap string any) : option string :=
  s ← strMember obj "from"; if decide (s = "") then Some "" else if isHexAddress s then Some (ToLower s) else None.

Definition callData (obj : gmap string any) : option string :=
  d ← strMember obj "data"; i ← strMember obj "input";
  let ok s := bool_decide (s = "") || isHexData s in
  if negb (ok d) || negb (ok i) then None
  else if bool_decide (is_Some (obj !! "data")) && bool_decide (is_Some (obj !! "input")) && negb (EqualFold d i)
  then None
  else
    let data := if decide (is_Some (obj !! "data")) then d else i in
    Some (if decide (data = "") then "" else "0x" +:+ ToLower (drop_str 2 data)).

Definition callValue (obj : gmap string any) : option string :=
  s ← strMember obj "value";
  if decide (s = "") then Some "" else if isHexQuantity s then Some (canonicalHexQuantity s) else None.

Definition canonicalTraceCall (v : any) : option (gmap string any) :=
  obj ← as_obj v; to ← callTo obj; from ← callFrom obj; data ← callData obj; value ← callValue obj;
  Some (put_nonempty "value" value (put_nonempty "data" data (put_nonempty "from" from (put_nonempty "to" to ∅)))).

Definition rebuildTraceBlockParam (v : option any) : option any :=
  match v with
  | None | Some ANull => Some (AStr "latest")
  | Some (AStr b) => Some (AStr b)
  | Some (AObj b) =>
      match b !! "blockNumber" with
      | Some n => Some (AObj {["blockNumber" := n]})
      | None =>
          let out := {["blockHash" := default ANull (b !! "blockHash")]} in
          match b !! "requireCanonical" with
          | None => Some (AObj out)
          | Some (ABool rc) => Some (AObj (<["requireCanonical" := ABool rc]> out))
          | Some _ => None
          end
      end
  | Some _ => None
  end.

Definition vetTracerConfig (tc : option any) : option Denial :=
  match tc with
  | None => None
  | Some tc =>
      match foldKeys tc with
      | None => Some invalid
      | Some tcm =>
          match tcm !! "withlog" with
          | None | Some (ABool false) => None
          | Some (ABool true) => Some unsafe
          | Some _ => Some invalid
          end
      end
  end.

Definition vetOptions (c : any) : option Denial :=
  match foldKeys c with
  | None => Some invalid
  | Some m =>
      let has k := bool_decide (is_Some (m !! k)) in
      if existsb has ["stateoverrides"; "stateoverride"; "blockoverrides"; "blockoverride"; "txindex"]
      then Some override
      else if (if has "tracer" then negb (bool_decide (str_field m "tracer" = Some "callTracer"))
               else existsb has ["enablememory"; "disablestorage"; "disablestack"; "enablereturndata"; "debug";
                                 "limit"])
      then Some unsafe
      else vetTracerConfig (m !! "tracerconfig")
  end.

(** The config member of the request, when it is there and not null. *)
Definition vetConfig (cfg : option any) : option Denial :=
  match cfg with None | Some ANull => None | Some c => vetOptions c end.

Definition vetDebugTraceConfig (method : string) (params : list any) : option Denial :=
  if decide (method = "debug_traceCall") then
    match params with
    | [] | _ :: _ :: _ :: _ :: _ => Some invalid
    | call :: rest => match canonicalTraceCall call with None => Some invalid | Some _ => vetConfig (rest !! 1) end
    end
  else if decide (method = "debug_traceTransaction") then
    match params with
    | [] => Some (refusal 400 "missing transaction hash" ReasonInvalidRequestShape)
    | AStr h :: rest =>
        if negb (isTxHash h) then Some (refusal 400 "invalid transaction hash" ReasonInvalidRequestShape)
        else match rest with _ :: _ :: _ => Some invalid | _ => vetConfig (rest !! 0) end
    | _ :: _ => Some (refusal 400 "invalid transaction hash" ReasonInvalidRequestShape)
    end
  else Some invalid.
End shape.

(** The strict profile: the call tracer with at most the two fixed settings. *)
Definition strictCallTracerOptions (opts : gmap string any) : bool :=
  bool_decide (str_field opts "tracer" = Some "callTracer") &&
  forallb (fun kv =>
    if decide (kv.1 = "tracer") then true
    else if decide (kv.1 = "tracerConfig") then
      match kv.2 with
      | ANull => true
      | AObj cfg => forallb (fun ck =>
          match ck.2 with
          | ABool b => bool_decide (ck.1 = (if b then "onlyTopCall" else "withLog"))
          | _ => false
          end) (map_to_list cfg)
      | _ => false
      end
    else false) (map_to_list opts).

Definition strictTraceForwardBody (params : list any) : bool :=
  match params with
  | [_] | [_; ANull] => true
  | [_; AObj opts] => strictCallTracerOptions opts
  | _ => false
  end.

Definition strictTraceUnsupportedConfig : string :=
  "only the call tracer is available for debug_traceTransaction on this network".

(** ** Plans *)
Record debugTracePlan := {
  pl_upstreamReq : Body; pl_orgID : string; pl_userHasDeploy : bool; pl_traceOpts : traceOptions;
  pl_topFrameOnly : bool }.

Definition buildTraceRequest (method : string) (params : list any) : Body :=
  {| bd_Method := method; bd_Params := params; bd_visibleTo := None; bd_privateFor := None |}.

(** [strictTraceAllowed]: the caller is a party of the outermost frame. *)
Definition traceRootParticipant (tr : TraceResult) (linked : list string) : bool :=
  match List.filter (fun t => (ct_Depth t =? 0)%Z) (tr_CallTargets tr) with
  | [] => false
  | ct :: _ => isTxParticipant linked (ct_From ct)
                 (if contains ["CREATE"; "CREATE2"] (ct_Type ct) then "" else ct_To ct)
  end.

Section debug.
Context {C : Type} `{HA : ABI} `{HT : TraceEnv} `{HR : RuntimeTracer} `{HG : GoEthereum}.
Variable p : Processor.
Variable row1 : forall A : Type, list A -> option A.
Variable reg : Registries.
Variable iter : gmap string cacheEntry -> list string.
Variable ctx : Ctx.
Variable source : Tables -> PermissionSource.
Variable logged : string -> list any -> option string.
Variable node : list Forwarded -> Forwarded -> NodeReply.
(** the clock in nanoseconds; the recipients of a transaction; the id of a body *)
Variable nanos : Z.
Variable txVisibility : Tables -> string -> list string.
Variable idOf : Body -> raw.

Notation M := (stM (State C)).
Notation storeOf := (storeOf row1 ctx).
Notation refuse := (refuse logged).
Notation checkAccess := (checkAccess row1 reg iter ctx source).

(** ** Scope *)
Definition pinnedTraceScope (userUUID orgID : string) (s : State C) : bool + Denial :=
  match @GetEffectivePermissionsByIDs (source (tablesOf s)) userUUID orgID with
  | Err _ => inr unavailable
  | Ok perms => inl (effectivePermissionsHasDeployClaim perms)
  end.

Definition clientTraceGrantScope (userUUID orgID authorized : string) (s : State C) : traceOptions + Denial :=
  match @resolveGrantedContracts _ (source (tablesOf s)) userUUID {[orgID]} with
  | Err _ => inr unavailable
  | Ok granted =>
      inl (WithClientTraceGrantScoping
             (if decide (authorized = "") then granted else {[ToLower authorized]} ∪ granted) noOptions)
  end.

Definition proxyCallTracerConfig : any := callTracerConfig.
Definition topCallTracerConfig : any :=
  AObj {["tracer" := AStr "callTracer";
         "tracerConfig" := AObj {["onlyTopCall" := ABool true; "withLog" := ABool false]}]}.

(** A gate: the organization for the log, and a plan or a denial. *)
Definition gateResult : Type := string * (debugTracePlan + Denial).

Definition denyAccess (res : AccessCheckResult) : Denial :=
  refusal 404 methodNotFound (if rs_AuthRequired res then ReasonAuthRequired else ReasonMethodNotAllowed).

(** ** [debug_traceCall] *)
Definition traceCallRequest (req : ProcessRequest) (call : gmap string any) (block : any) : AccessCheckRequest := {|
  rq_UserExternalID := pq_UserID req; rq_OrgSlug := ""; rq_OrgID := pq_OrgID req;
  rq_Method := "debug_traceCall"; rq_AccessMethod := "eth_call"; rq_Params := [AObj call; block];
  rq_TargetAddress := GetTargetAddress "eth_call" [AObj call];
  rq_FunctionSelector := GetFunctionSelector "eth_call" [AObj call]; rq_Calldata := None;
  rq_RequiredClaims := []; rq_BypassCache := pq_BypassPermsCache req |}.

Definition containsAddressFold (addrs : list string) (addr : string) : bool :=
  existsb (fun a => bool_decide (ToLower a = ToLower addr)) addrs.

(** The sender of the simulated call must be linked. *)
Definition traceSender (HS : Store) (userDID from : string) : option Denial :=
  if decide (from = "") then None
  else match GetLinkedEthAddresses userDID with
  | Err _ => Some unavailable
  | Ok addrs => if containsAddressFold addrs from then None
                else Some (refusal 400 traceDenyInvalidShape ReasonSenderNotLinked)
  end.

Definition gateDebugTraceCall (req : ProcessRequest) (user : User) (logOrg : string) : M gateResult := fun s =>
  match canonicalTraceCall (default ANull (pq_Params req !! 0)),
        (match extractEthCallBlockParam (pq_Params req) with
         | Ok b => rebuildTraceBlockParam b
         | Err _ => None
         end) with
  | Some call, Some block =>
      if bool_decide (is_Some (DetectMulticall "eth_call" [AObj call]))
      then (Ok (logOrg, inr (refusal 404 methodNotFound ReasonMethodNotAllowed)), s)
      else
        let '(r, s) := checkAccess (traceCallRequest req call block) s in
        match r with
        | Err _ => (Ok (logOrg, inr internal), s)
        | Ok res =>
            let org := rs_OrgID res in
            (Ok (org,
              if negb (rs_Allowed res) then inr (denyAccess res)
              else if decide (org = "") then inr unavailable
              else match traceSender (storeOf s) (pq_UserID req) (default "" (str_field call "from")) with
              | Some d => inr d
              | None =>
                  match pinnedTraceScope (u_ID user) org s with
                  | inr d => inr d
                  | inl deploy =>
                      match clientTraceGrantScope (u_ID user) org (default "" (str_field call "to")) s with
                      | inr d => inr d
                      | inl opts =>
                          inl {| pl_upstreamReq := buildTraceRequest "debug_traceCall"
                                                     [AObj call; block; proxyCallTracerConfig];
                                 pl_orgID := org; pl_userHasDeploy := deploy; pl_traceOpts := opts;
                                 pl_topFrameOnly := false |}
                      end
                  end
              end), s)
        end
  | _, _ => (Ok (logOrg, inr invalid), s)
  end.

(** ** [debug_traceTransaction] *)
Definition traceTxRequest (req : ProcessRequest) (txHash : string) : AccessCheckRequest := {|
  rq_UserExternalID := pq_UserID req; rq_OrgSlug := ""; rq_OrgID := pq_OrgID req;
  rq_Method := "debug_traceTransaction"; rq_AccessMethod := "eth_getTransactionByHash";
  rq_Params := [AStr txHash]; rq_TargetAddress := ""; rq_FunctionSelector := ""; rq_Calldata := None;
  rq_RequiredClaims := []; rq_BypassCache := pq_BypassPermsCache req |}.

Definition frameRequest (req : ProcessRequest) (method orgID address input : string) : AccessCheckRequest :=
  let params := [AObj {["to" := AStr address; "data" := AStr input]}; AStr "latest"] in {|
  rq_UserExternalID := pq_UserID req; rq_OrgSlug := ""; rq_OrgID := orgID;
  rq_Method := method; rq_AccessMethod := "eth_call"; rq_Params := params; rq_TargetAddress := address;
  rq_FunctionSelector := GetFunctionSelector "eth_call" params; rq_Calldata := None;
  rq_RequiredClaims := []; rq_BypassCache := pq_BypassPermsCache req |}.

Record TxParties := { ty_from : string; ty_to : string; ty_input : string }.

Definition decode_parties (v : raw) (cur : TxParties) : option TxParties :=
  from ← field_str "from" v (ty_from cur); to ← field_str "to" v (ty_to cur);
  input ← field_str "input" v (ty_input cur);
  Some {| ty_from := from; ty_to := to; ty_input := input |}.

(** The pointer [result] of the answer, with its three strings. *)
Definition decodeParties (v : raw) : option TxParties :=
  r ← member_struct {| ty_from := ""; ty_to := ""; ty_input := "" |} decode_parties "result" v; tx ← r;
  Some {| ty_from := ToLower (ty_from tx); ty_to := ToLower (ty_to tx); ty_input := ty_input tx |}.

Definition traceForwarded (req : ProcessRequest) (body : Body) : Forwarded :=
  {| fw_Body := body; fw_Header := resolveAPIKeyHeader p; fw_APIKey := pc_defaultRPCAPIKey p;
     fw_ClientIP := pq_ClientIP req |}.

Definition fetchTxParties (req : ProcessRequest) (txHash : string) : M (option TxParties) :=
  reply ← forward node (traceForwarded req (buildTraceRequest "eth_getTransactionByHash" [AStr txHash]));
  mret (match nr_Err reply with Some _ => None | None => nr_Body reply ≫= decodeParties end).

Definition viewerCanSeeMinedTx (req : ProcessRequest) (userUUID orgID : string) (tx : TxParties) (txHash : string)
  (s : State C) : bool :=
  match @GetLinkedEthAddresses (storeOf s) (pq_UserID req) with
  | Err _ => false
  | Ok addrs =>
      let linked a := negb (bool_decide (a = "")) &&
                      existsb (fun l => negb (bool_decide (l = "")) && bool_decide (ToLower l = a)) addrs in
      if linked (ty_from tx) || linked (ty_to tx) then true
      else if Strict (pc_readProfile p) then false
      else
        (negb (bool_decide (ty_to tx = "")) &&
         match @GetContractOwnerOrgID (storeOf s) (ty_to tx) with
         | Ok owner => bool_decide (owner = orgID) &&
             match @GetEffectivePermissionsByIDs (source (tablesOf s)) userUUID orgID with
             | Ok perms => HasContractClaim perms (ty_to tx) ClaimAdmin
             | Err _ => false
             end
         | Err _ => false
         end) ||
        existsb (fun d => EqualFold d (pq_UserID req)) (txVisibility (tablesOf s) txHash)
  end.

Definition hidden : Denial :=
  if Strict (pc_readProfile p) then refusal 404 "transaction not found" ReasonTraceAccessDenied
  else refusal 403 traceDenyAccess ReasonTraceAccessDenied.

(** The contract the transaction called is the pinned organization's, or nobody's. *)
Definition foreignRecipient (HS : Store) (to orgID : string) : bool :=
  negb (bool_decide (to = "")) &&
  match GetContractOwnerOrgID to with
  | Err _ => true
  | Ok owner => negb (bool_decide (owner = "")) && negb (bool_decide (owner = orgID))
  end.

(** The standard profile: the called contract is checked as an eth_call. *)
Definition authorizeRecipient (req : ProcessRequest) (orgID : string) (tx : TxParties) : M (string + Denial) :=
  if decide (ty_to tx = "") then mret (inl "")
  else fun s =>
    let '(r, s) := checkAccess (frameRequest req "debug_traceTransaction" orgID (ty_to tx) (ty_input tx)) s in
    (Ok (match r with Ok res => if rs_Allowed res then inl (ty_to tx) else inr hidden | Err _ => inr hidden end), s).

Definition planMinedTx (req : ProcessRequest) (user : User) (orgID txHash : string) (tx : TxParties)
  : M (debugTracePlan + Denial) := fun s =>
  match pinnedTraceScope (u_ID user) orgID s with
  | inr d => (Ok (inr d), s)
  | inl deploy =>
      if negb (viewerCanSeeMinedTx req (u_ID user) orgID tx txHash s) then (Ok (inr hidden), s)
      else if Strict (pc_readProfile p)
      then (Ok (inl {| pl_upstreamReq := buildTraceRequest "debug_traceTransaction" [AStr txHash; topCallTracerConfig];
                       pl_orgID := orgID; pl_userHasDeploy := true; pl_traceOpts := noOptions;
                       pl_topFrameOnly := true |}), s)
      else
        (authorized ← authorizeRecipient req orgID tx;
         match authorized with
         | inr d => mret (inr d)
         | inl authorized => fun s =>
             (Ok (match clientTraceGrantScope (u_ID user) orgID authorized s with
                  | inr d => inr d
                  | inl opts =>
                      inl {| pl_upstreamReq := buildTraceRequest "debug_traceTransaction"
                                                 [AStr txHash; proxyCallTracerConfig];
                             pl_orgID := orgID; pl_userHasDeploy := deploy; pl_traceOpts := opts;
                             pl_topFrameOnly := false |}
                  end), s)
         end : M _) s
  end.

Definition gateDebugTraceTransaction (req : ProcessRequest) (user : User) (logOrg : string) : M gateResult := fun s =>
  let txHash := default "" (pq_Params req !! 0 ≫= as_str) in
  let '(r, s) := checkAccess (traceTxRequest req txHash) s in
  match r with
  | Err _ => (Ok (logOrg, inr internal), s)
  | Ok res =>
      let org := rs_OrgID res in
      if negb (rs_Allowed res) then (Ok (org, inr (denyAccess res)), s)
      else if decide (org = "") then (Ok (org, inr unavailable), s)
      else
        (parties ← fetchTxParties req txHash;
         match parties with
         | None => mret (org, inr hidden)
         | Some tx => fun s =>
             if foreignRecipient (storeOf s) (ty_to tx) org then (Ok (org, inr hidden), s)
             else (plan ← planMinedTx req user org txHash tx; mret (org, plan) : M gateResult) s
         end : M gateResult) s
  end.

(** ** The answer of the node *)

(** [unavailable] of [forwardAndValidateTrace]: under the strict profile every
    failure looks like a transaction that does not exist. *)
Definition masked (plan : debugTracePlan) (d : Denial) : Denial :=
  if pl_topFrameOnly plan then refusal 404 "transaction not found" ReasonTraceAccessDenied else d.

Definition rateLimited : Denial := refusal 429 "upstream rate limited, retry in 1s" ReasonRateLimited.
Definition upstreamFailed : Denial := refusal 502 traceDenyTracerError ReasonUpstreamError.

(** The [result] of the answer, the top frame alone when the plan says so. *)
Definition traceBody (plan : debugTracePlan) (body : option raw) : raw + Denial :=
  match body ≫= (fun v =>
      r ← member_raw "result" v;
      es ← members "error" v; e ← decode_fold decode_error es None;
      Some (r, e)) with
  | None => inr (masked plan upstreamFailed)
  | Some (_, Some _) => inr (masked plan unavailable)
  | Some (r, None) =>
      if negb (pl_topFrameOnly plan) then inl (default RNull r)
      else match r ≫= decode_map with
      | None => inr (masked plan unavailable)
      | Some root =>
          match r with
          | Some RNull => inr (masked plan unavailable)
          | _ => inl (marshal_map (filter (fun kv => EqualFold kv.1 "calls" = false) root))
          end
      end
  end.

Definition strictTraceAllowed (HS : Store) (userDID : string) (tr : TraceResult) : bool :=
  match GetLinkedEthAddresses userDID with
  | Err _ => false
  | Ok linked => DecideTxEnvelope (pc_readProfile p) {|
      tf_Surface := TxSurfaceTransaction; tf_IsParticipant := traceRootParticipant tr linked;
      tf_IsAdminOnTo := false; tf_InVisibleTo := false; tf_EntitledLogs := 0; tf_IsDeployment := false |}
  end.

(** The function and argument rules of each owned nested frame. *)
Fixpoint validateClientTraceFrameAccess (req : ProcessRequest) (orgID : string) (targets : list CallTarget)
  : M (option Denial) :=
  match targets with
  | [] => mret None
  | t :: targets =>
      let address := ToLower (ct_StorageAddress t) in
      if decide (address = "") then mret (Some unavailable)
      else fun s =>
        let '(r, s) := checkAccess (frameRequest req (pq_Method req) orgID address (ct_Input t)) s in
        match r with
        | Err _ => (Ok (Some internal), s)
        | Ok res =>
            if negb (rs_Allowed res) || negb (bool_decide (rs_OrgID res = orgID))
            then (Ok (Some (refusal 403 traceDenyCrossOrg ReasonTraceAccessDenied)), s)
            else validateClientTraceFrameAccess req orgID targets s
        end
  end.

(** The tree, judged. *)
Definition judgeTrace (req : ProcessRequest) (plan : debugTracePlan) (v : raw) : M (raw + Denial) := fun s =>
  match ParseStrictCallTrace v with
  | Err e =>
      (Ok (inr (masked plan (if decide (e = ErrTraceDepth)
                             then refusal 403 traceDenyCrossOrg ReasonTraceDepthExceeded else unavailable))), s)
  | Ok (sanitized, parsed) =>
      if pl_topFrameOnly plan && negb (strictTraceAllowed (storeOf s) (pq_UserID req) parsed)
      then (Ok (inr (refusal 404 "transaction not found" ReasonTraceAccessDenied)), s)
      else match @ValidateTrace (storeOf s) _ {[pl_orgID plan]} (pl_userHasDeploy plan) (pl_traceOpts plan)
                   (Some parsed) with
      | Err _ => (Ok (inr internal), s)
      | Ok verdict =>
          if negb (tv_Allowed verdict)
          then (Ok (inr (refusal 403 traceDenyCrossOrg
                      (match tv_DenialKind verdict with DenialKindDeployClaim => ReasonDeployClaimRequired
                       | _ => ReasonCrossOrg end))), s)
          else if pl_topFrameOnly plan then (Ok (inl sanitized), s)
          else (d ← validateClientTraceFrameAccess req (pl_orgID plan) (tv_ClientAccessTargets verdict);
                mret (match d with Some d => inr d | None => inl sanitized end) : M (raw + Denial)) s
      end
  end.

Definition forwardAndValidateTrace (req : ProcessRequest) (plan : debugTracePlan) : M (raw + Denial) :=
  let fw := traceForwarded req (pl_upstreamReq plan) in
  s ← get;
  if pc_breaks p && IsOpen (now ctx) (fw_APIKey fw) (st_breaker s) then mret (inr rateLimited)
  else
    reply ← forward node fw;
    _ ← updateBreaker p ctx (fw_APIKey fw) (nr_Status reply);
    match nr_Err reply with
    | Some _ => mret (inr (masked plan (refusal 502 "failed to forward trace request" ReasonUpstreamError)))
    | None =>
        if (nr_Status reply =? 429)%Z then mret (inr rateLimited)
        else if negb (nr_Status reply =? 200)%Z then mret (inr (masked plan upstreamFailed))
        else match traceBody plan (nr_Body reply) with
        | inr d => mret (inr d)
        | inl v => judgeTrace req plan v
        end
    end.

(** ** Redaction *)
Definition canReadPrivateStorage (userDID orgID addr : string) (bypass : bool) : M bool := fun s =>
  let '(r, c) := @CanReadPrivateStorage (storeOf s) _ (source (tablesOf s)) reg iter ctx userDID orgID addr bypass
                   (sv_ctl (st_server s)) in
  (r, set_server s (set_ctl (st_server s) c)).

Fixpoint readableOwners (req : ProcessRequest) (orgID : string) (owners : list string) (readable : gset string)
  : M (gset string + Denial) :=
  match owners with
  | [] => mret (inl readable)
  | addr :: owners => fun s =>
      match canReadPrivateStorage (pq_UserID req) orgID addr (pq_BypassPermsCache req) s with
      | (Err _, s) => (Ok (inr internal), s)
      | (Ok ok, s) => readableOwners req orgID owners (if ok then {[addr]} ∪ readable else readable) s
      end
  end.

Definition redactClientTraceValues (req : ProcessRequest) (orgID : string) (sanitized : raw) : M (raw + Denial) :=
  match TraceValueOwners sanitized with
  | Err _ => mret (inr unavailable)
  | Ok owners =>
      readable ← (if decide (owners <> [] /\ orgID = "") then mret (inr unavailable)
                  else readableOwners req orgID owners ∅);
      mret (match readable with
            | inr d => inr d
            | inl readable => match RedactStrictCallTrace sanitized readable with
                              | Ok out => inl out
                              | Err _ => inr unavailable
                              end
            end)
  end.

(** ** [processDebugTrace] *)
Definition refuseTrace (req : ProcessRequest) (org : string) (d : Denial) : M ProcessResult :=
  refuse req org (dn_Reason d) (dn_StatusCode d) (dn_StatusCode d) (dn_Message d).

(** A 404 is logged with the status of the decision it masks. *)
Definition refuseGate (req : ProcessRequest) (org : string) (d : Denial) : M ProcessResult :=
  if (dn_StatusCode d =? 404)%Z
  then refuse req org (dn_Reason d) (if decide (dn_Reason d = ReasonAuthRequired) then 401 else 403) 404 (dn_Message d)
  else refuseTrace req org d.

Definition rpcEnvelope (id result : raw) : raw := RObj [("jsonrpc", RStr "2.0"); ("id", id); ("result", result)].

(** With a slot held: the rate, the gate, the trace, the redaction. *)
Definition tracedRequest (req : ProcessRequest) (user : User) (traceMethod logOrg : string) : M ProcessResult := fun s =>
  let '((allowed, why), rl) := CheckAndIncrement (pq_UserID req) (Some 1%Z) (Some 100%Z) nanos (st_rates s) in
  let s := set_rates s rl in
  if negb allowed then refuse req logOrg ReasonRateLimited 429 429 why s
  else
    (gate ← (if decide (traceMethod = "debug_traceCall") then gateDebugTraceCall req user logOrg
             else if decide (traceMethod = "debug_traceTransaction") then gateDebugTraceTransaction req user logOrg
             else mret (logOrg, inr (refusal 404 methodNotFound ReasonMethodNotAllowed)));
     let '(org, gate) := gate in
     match gate with
     | inr d => refuseGate req org d
     | inl plan =>
         judged ← forwardAndValidateTrace req plan;
         shown ← (match judged with
                  | inr d => mret (inr d)
                  | inl v => redactClientTraceValues req (pl_orgID plan) v
                  end);
         match shown with
         | inr d => refuseTrace req org d
         | inl v =>
             _ ← logAccess logged req org "" 200 200;
             mret (Answer 200 (Some (rpcEnvelope (idOf (pq_Body req)) v)))
         end
     end : M ProcessResult) s.

Fixpoint canTraceIn (userID method : string) (orgs : list string) (s : State C) : bool :=
  match orgs with
  | [] => false
  | org :: orgs =>
      match @GetEffectivePermissionsByIDs (source (tablesOf s)) userID org with
      | Ok perms => HasMethod reg perms method || canTraceIn userID method orgs s
      | Err _ => canTraceIn userID method orgs s
      end
  end.
Definition userCanTraceMethod (userID : string) (ms : list MembershipWithDetails) (method : string) (s : State C)
  : bool :=
  canTraceIn userID method (dedup [] (omap (fun m => g_OrgID <$> md_Group m) ms)) s.

Definition singleOrg (orgs : gset string) : string :=
  match elements orgs with [org] => org | _ => "" end.

(** The checks of a known caller before a slot is taken. *)
Definition vetTrace (req : ProcessRequest) (user : User) (ms : list MembershipWithDetails) (traceMethod : string)
  : M ProcessResult := fun s =>
  let logOrg := singleOrg (orgsOf ms) in
  if negb (userCanTraceMethod (u_ID user) ms (pq_Method req) s)
  then refuse req logOrg ReasonMethodNotAllowed 403 404 methodNotFound s
  else if Strict (pc_readProfile p) && bool_decide (traceMethod = "debug_traceTransaction") &&
          negb (strictTraceForwardBody (pq_Params req))
  then refuse req logOrg ReasonInvalidRequestShape 400 400 strictTraceUnsupportedConfig s
  else match vetDebugTraceConfig traceMethod (pq_Params req) with
  | Some d => refuseTrace req logOrg d s
  | None => limited p logged req logOrg (tracedRequest req user traceMethod logOrg) s
  end.

Definition processDebugTrace (req : ProcessRequest) : M ProcessResult :=
  if negb (IsForwardableMethod reg (pq_Method req))
  then refuse req "" ReasonMethodNotAllowed 403 404 methodNotFound
  else match DetectStateOverride reg (pq_Method req) (pq_Params req) with
  | Some _ => refuse req "" ReasonStateOverrideNotAllowed 403 404 methodNotFound
  | None =>
      if negb IsEnabled
      then refuse req "" "" 403 403 "runtime tracing is not supported or enabled on this proxy"
      else
        let alias := ResolveMethodAlias reg (pq_Method req) in
        let traceMethod := if contains ["debug_traceCall"; "debug_traceTransaction"] alias then alias
                           else pq_Method req in
        fun s =>
        match @GetUserByExternalID (storeOf s) (pq_UserID req) with
        | Err _ | Ok None => refuse req "" "" 401 401 "failed to get user" s
        | Ok (Some user) =>
            match @ListActiveUserMembershipsWithDetails (storeOf s) (u_ID user) with
            | Err _ => refuse req "" "" 500 500 "failed to get memberships" s
            | Ok ms => vetTrace req user ms traceMethod s
            end
        end
  end.
End debug.
