(* ===== verification/DebugTraceProps.v ===== *)
(** * What the processor of client traces guarantees.

    [authorised_plan] is the specification of the gates: which decisions, each on
    the tables and the cache the run had reached, draw up the plan of a trace. *)
From S2P Require Import Prelude GoStrings Methods Models Requests OrgContext Cache Db Writes.
From S2P Require Import Access Trace Deployments Json ReadDecision EventFilter ResponseFilter AuditChain.
From S2P Require Import F64 Compliance TraceGate TraceGateProps VisibleTo Limits Answers.
From S2P Require Import Processor ProcessorProps Frames StrictTrace StrictTraceProps Tracer DebugTrace.
Local Open Scope string_scope.

Section props.
Context {C : Type} `{HA : ABI} `{HT : TraceEnv} `{HR : RuntimeTracer} `{HG : GoEthereum}.
Context (p : Processor) (row1 : forall A : Type, list A -> option A) (reg : Registries)
  (iter : gmap string cacheEntry -> list string) (ctx : Ctx)
  (source : Tables -> PermissionSource) (logged : string -> list any -> option string)
  (node : list Forwarded -> Forwarded -> NodeReply) (nanos : Z) (txVisibility : Tables -> string -> list string)
  (idOf : Body -> raw).

Notation St := (State C).

(** ** What a trace leaves alone: all but the decision cache, the node and the
    breaker *)
Class Untouched {A} (f : St -> A) : Prop := {
  untouched_ctl s c : f (set_server s (set_ctl (st_server s) c)) = f s;
  untouched_node s x : f (set_node s x) = f s;
  untouched_breaker s x : f (set_breaker s x) = f s }.
#[export] Instance log_untouched : Untouched st_log.
Proof. by split. Qed.
#[export] Instance limiter_untouched : Untouched st_limiter.
Proof. by split. Qed.
#[export] Instance approvals_untouched : Untouched st_approvals.
Proof. by split. Qed.
#[export] Instance outbox_untouched : Untouched st_outbox.
Proof. by split. Qed.
#[export] Instance compliance_untouched : Untouched st_compliance.
Proof. by split. Qed.
#[export] Instance tables_untouched : Untouched tablesOf.
Proof. by split. Qed.

Section untouched.
Context {A : Type} (f : St -> A) `{!Untouched f}.
Lemma keeps_checkAccess areq : keeps (same f) (checkAccess row1 reg iter ctx source areq).
Proof. intros s r s'. unfold checkAccess. destruct (CheckAccess _ _ _ _). intros [= <- <-]. apply untouched_ctl. Qed.
Lemma keeps_storageCheck u o a b : keeps (same f) (canReadPrivateStorage row1 reg iter ctx source u o a b).
Proof.
  intros s r s'. unfold canReadPrivateStorage. destruct (CanReadPrivateStorage _ _ _ _ _ _ _ _).
  intros [= <- <-]. apply untouched_ctl.
Qed.
Lemma keeps_forward_untouched fw : keeps (same f) (forward node fw).
Proof. intros s r s' [= <- <-]. apply untouched_node. Qed.
Lemma keeps_breaker_untouched key status : keeps (same f) (updateBreaker p ctx key status).
Proof. apply keeps_modify. intros s. repeat case_match; try done; apply untouched_breaker. Qed.

(** A step that reads the state. *)
Lemma keeps_reads {B} (m : St -> stM St B) : (forall s, keeps (same f) (m s)) -> keeps (same f) (fun s => m s s).
Proof. intros H s. apply H. Qed.
Lemma keeps_const {B} (g : St -> result B) : keeps (same f) (fun s => (g s, s)).
Proof. intros s r s' [= <- <-]. done. Qed.
Lemma keeps_then {B D} (m : stM St B) (k : result B -> stM St D) :
  keeps (same f) m -> (forall r, keeps (same f) (k r)) ->
  keeps (same f) (fun s => let '(r, s) := m s in k r s).
Proof. intros Hm Hk s r s' H. destruct (m s) as [r1 s1] eqn:E. etrans; [by eapply Hm|by eapply Hk]. Qed.
End untouched.
Local Hint Resolve keeps_checkAccess keeps_storageCheck keeps_forward_untouched keeps_breaker_untouched : runs.

Section steps.
Context {A : Type} (f : St -> A) `{!Untouched f}.

(** Turns a goal about the end of a run into one about the computation. *)
Ltac run_of H :=
  match type of H with ?m _ = _ =>
    let Hk := fresh "Hk" in assert (Hk : keeps (same f) m); [clear H|exact (Hk _ _ _ H)]
  end.

Lemma keeps_gateCall req user org :
  keeps (same f) (gateDebugTraceCall row1 reg iter ctx source req user org).
Proof.
  intros s r s' H. unfold gateDebugTraceCall in H.
  destruct (canonicalTraceCall _) as [call|]; [|by simplify_eq].
  destruct (match extractEthCallBlockParam _ with Ok _ => _ | Err _ => _ end) as [block|]; [|by simplify_eq].
  case_match; [by simplify_eq|]. destruct (checkAccess _ _ _ _ _ _ s) as [r1 s1] eqn:E.
  apply (keeps_checkAccess f) in E. by destruct r1; simplify_eq.
Qed.

Lemma keeps_plan req user org h tx :
  keeps (same f) (planMinedTx p row1 reg iter ctx source txVisibility req user org h tx).
Proof.
  intros s r s' H. unfold planMinedTx in H. destruct (pinnedTraceScope _ _ _ _); [|by simplify_eq].
  destruct (negb _); [by simplify_eq|]. destruct (Strict _); [by simplify_eq|].
  apply st_bind_inv in H as [(a & s1 & Ha & H)|(e & Ha & _)].
  - assert (Hs : same f s s1).
    { unfold authorizeRecipient in Ha. case_decide; [by inv_st|].
      destruct (checkAccess _ _ _ _ _ _ s) as [r1 s2] eqn:E. apply (keeps_checkAccess f) in E. by simplify_eq. }
    destruct a; by inv_st; simplify_eq.
  - unfold authorizeRecipient in Ha. case_decide; [by inv_st|]. by destruct (checkAccess _ _ _ _ _ _ s).
Qed.

Lemma keeps_gateTx req user org :
  keeps (same f) (gateDebugTraceTransaction p row1 reg iter ctx source node txVisibility req user org).
Proof.
  intros s r s' H. unfold gateDebugTraceTransaction in H.
  destruct (checkAccess _ _ _ _ _ _ s) as [r1 s1] eqn:E. apply (keeps_checkAccess f) in E.
  destruct r1 as [res|]; [|by simplify_eq]. case_match; [by simplify_eq|]. case_decide; [by simplify_eq|].
  etrans; [exact E|]. run_of H. apply keeps_bind; [apply _| |].
  - unfold fetchTxParties. keeps.
  - intros [tx|]; [|by keeps]. intros s2 r2 s2' H2. case_match; [by simplify_eq|]. run_of H2.
    apply keeps_bind; [apply _|apply keeps_plan|by keeps].
Qed.

Lemma keeps_frames req org ts : keeps (same f) (validateClientTraceFrameAccess row1 reg iter ctx source req org ts).
Proof.
  induction ts as [|t ts IH]; simpl; [by keeps|]. case_decide; [by keeps|]. intros s r s' Hr.
  destruct (checkAccess _ _ _ _ _ _ s) as [r1 s1] eqn:E. apply (keeps_checkAccess f) in E.
  destruct r1 as [res|]; [|by simplify_eq]. case_match; [by simplify_eq|]. etrans; [exact E|by eapply IH].
Qed.

Lemma keeps_judge req plan v : keeps (same f) (judgeTrace p row1 reg iter ctx source req plan v).
Proof.
  intros s r s' H. unfold judgeTrace in H. destruct (ParseStrictCallTrace v) as [[san tr]|]; [|by simplify_eq].
  case_match; [by simplify_eq|]. destruct (ValidateTrace _ _ _ _); [|by simplify_eq].
  case_match; [by simplify_eq|]. case_match; [by simplify_eq|]. run_of H.
  apply keeps_bind; [apply _|apply keeps_frames|by keeps].
Qed.

Lemma keeps_forwardTrace req plan :
  keeps (same f) (forwardAndValidateTrace p row1 reg iter ctx source node req plan).
Proof.
  pose proof keeps_judge. unfold forwardAndValidateTrace. apply keeps_bind; [apply _| |].
  { intros s r s' Hg. unfold get in Hg. by simplify_eq. }
  keeps.
Qed.

Lemma keeps_owners req org owners readable :
  keeps (same f) (readableOwners row1 reg iter ctx source req org owners readable).
Proof.
  revert readable. induction owners as [|a owners IH]; intros readable; simpl; [by keeps|]. intros s r s' H.
  destruct (canReadPrivateStorage _ _ _ _ _ _ _ _ _ s) as [r1 s1] eqn:E. apply (keeps_storageCheck f) in E.
  destruct r1; [|by simplify_eq]. etrans; [exact E|by eapply IH].
Qed.

Lemma keeps_redact req org v : keeps (same f) (redactClientTraceValues row1 reg iter ctx source req org v).
Proof. pose proof keeps_owners. unfold redactClientTraceValues. keeps. Qed.
End steps.

(** ** The log and the slot *)
Notation traced' := (tracedRequest p row1 reg iter ctx source logged node nanos txVisibility idOf).
Notation processTrace := (processDebugTrace p row1 reg iter ctx source logged node nanos txVisibility idOf).

Lemma st_bind_logged {A} req (m : stM St A) (k : A -> stM St ProcessResult) :
  keeps (same st_log) m ->
  (forall a s r s', k a s = (r, s') -> outcome_logged req r s s') ->
  forall s r s', (m ≫= k) s = (r, s') -> outcome_logged req r s s'.
Proof.
  intros Hm Hk s r s' [(a & s1 & E & H)|(e & E & ->)]%st_bind_inv; apply Hm in E; [|done].
  by eapply outcome_logged_log; [|eapply Hk].
Qed.

Lemma keeps_gate {A} (f : St -> A) `{!Untouched f} req user m org :
  keeps (same f)
    (if decide (m = "debug_traceCall") then gateDebugTraceCall row1 reg iter ctx source req user org
     else if decide (m = "debug_traceTransaction")
     then gateDebugTraceTransaction p row1 reg iter ctx source node txVisibility req user org
     else mret (org, inr (refusal 404 methodNotFound ReasonMethodNotAllowed))).
Proof. case_decide; [apply keeps_gateCall, _|]. case_decide; [apply keeps_gateTx, _|]. by keeps. Qed.

Lemma refuse_outcome req org reason status wire msg (s : St) r s' :
  refuse logged req org reason status wire msg s = (r, s') -> outcome_logged req r s s'.
Proof. intros H. by apply (refuse_logged _ _ _ _ _ _ _ s s) in H as (? & _). Qed.

Lemma refuseGate_outcome req org d (s : St) r s' : refuseGate logged req org d s = (r, s') -> outcome_logged req r s s'.
Proof. unfold refuseGate, refuseTrace. case_match; apply refuse_outcome. Qed.

Lemma traced_logged req user m org (s : St) r s' :
  traced' req user m org s = (r, s') -> outcome_logged req r s s'.
Proof.
  unfold tracedRequest. destruct (CheckAndIncrement _ _ _ _ _) as [[ok why] rl].
  destruct ok; simpl; [|intros H; by eapply (refuse_outcome _ _ _ _ _ _ (set_rates s rl)), H].
  intros H. assert (Hl : outcome_logged req r (set_rates s rl) s'); [|done]. revert H.
  apply st_bind_logged; [apply keeps_gate, _|]. intros [org' [plan|d]] s1 r1 s1'; [|apply refuseGate_outcome].
  apply st_bind_logged; [apply keeps_forwardTrace, _|]. intros judged s2 r2 s2'.
  apply st_bind_logged; [destruct judged; [apply keeps_redact, _|by keeps]|].
  intros [v|d] s3 r3 s3'; [|apply refuse_outcome]. intros [= <- <-]. eexists. split; [done|].
  by split_and!.
Qed.

(** Fields the log and the rates do not touch either. *)
Lemma keeps_log {A} (f : St -> A) req org reason status wire :
  (forall s x, f (set_log s x) = f s) -> keeps (same f) (logAccess logged req org reason status wire).
Proof. intros Hf. apply keeps_modify. intros s. apply Hf. Qed.
Local Hint Resolve keeps_log : runs.

Lemma keeps_refuse {A} (f : St -> A) req org reason status wire msg :
  (forall s x, f (set_log s x) = f s) -> keeps (same f) (refuse logged req org reason status wire msg).
Proof. intros Hf. unfold refuse. keeps. Qed.
Local Hint Resolve keeps_refuse : runs.

Lemma keeps_traced {A} (f : St -> A) `{!Untouched f} req user m org :
  (forall s x, f (set_log s x) = f s) -> (forall s x, f (set_rates s x) = f s) ->
  keeps (same f) (traced' req user m org).
Proof.
  intros Hl Hr s r s' H. unfold tracedRequest in H. destruct (CheckAndIncrement _ _ _ _ _) as [[ok why] rl].
  assert (H0 : same f s (set_rates s rl)) by apply Hr. etrans; [exact H0|]. clear H0.
  destruct ok; simpl in H; [|by eapply keeps_refuse, H].
  match type of H with ?m _ = _ => assert (Hk : keeps (same f) m); [clear H|exact (Hk _ _ _ H)] end.
  apply keeps_bind; [apply _|apply keeps_gate, _|]. intros [org' [plan|d]].
  2:{ unfold refuseGate, refuseTrace. case_match; by apply keeps_refuse. }
  apply keeps_bind; [apply _|apply keeps_forwardTrace, _|]. intros judged.
  apply keeps_bind; [apply _|destruct judged; [apply keeps_redact, _|by keeps]|].
  intros [v|d]; [|by apply keeps_refuse]. keeps.
Qed.

Lemma keeps_limited {A} (f : St -> A) req org m :
  (forall s x, f (set_log s x) = f s) -> (forall s x, f (set_limiter s x) = f s) ->
  keeps (same f) m -> keeps (same f) (limited p logged req org m).
Proof.
  intros Hl Hs Hm s r s'. unfold limited, withSlot. destruct (pc_limited p); cbn [negb]; [|apply Hm].
  destruct (TryAcquire _ _) as [[] cl].
  - destruct (m _) as [r1 t] eqn:E. intros [= <- <-]. apply Hm in E. unfold same in *. by rewrite Hs, E, Hs.
  - intros H. eapply (keeps_refuse f) in H; [|done]. unfold same in *. by rewrite H, Hs.
Qed.

(** The method an alias stands for. *)
Definition tracedMethod (req : ProcessRequest) : string :=
  let alias := ResolveMethodAlias reg (pq_Method req) in
  if contains ["debug_traceCall"; "debug_traceTransaction"] alias then alias else pq_Method req.

(** Where a trace ends: refused before the slot, or run within it. *)
Lemma processTrace_inv req (s : St) r s' :
  processTrace req s = (r, s') ->
  outcome_logged req r s s' /\ same_load (st_limiter s) (st_limiter s') /\
  st_compliance s' = st_compliance s /\ st_outbox s' = st_outbox s /\ st_approvals s' = st_approvals s /\
  tablesOf s' = tablesOf s /\
  ((st_node s' = st_node s /\ forall status b, r <> Ok (Answer status b)) \/
   exists user ms m cl t', m = tracedMethod req /\ IsForwardableMethod reg (pq_Method req) = true /\
     DetectStateOverride reg (pq_Method req) (pq_Params req) = None /\ IsEnabled = true /\
     @GetUserByExternalID (storeOf row1 ctx s) (pq_UserID req) = Ok (Some user) /\
     @ListActiveUserMembershipsWithDetails (storeOf row1 ctx s) (u_ID user) = Ok ms /\
     userCanTraceMethod reg source (u_ID user) ms (pq_Method req) s = true /\
     vetDebugTraceConfig m (pq_Params req) = None /\
     traced' req user m (singleOrg (orgsOf ms)) (set_limiter s cl) = (r, t') /\
     st_node s' = st_node t').
Proof.
  assert (Hno : forall org reason status wire msg, refuse logged req org reason status wire msg s = (r, s') ->
    outcome_logged req r s s' /\ same_load (st_limiter s) (st_limiter s') /\
    st_compliance s' = st_compliance s /\ st_outbox s' = st_outbox s /\ st_approvals s' = st_approvals s /\
    tablesOf s' = tablesOf s /\ st_node s' = st_node s /\ forall status b, r <> Ok (Answer status b)).
  { intros org reason status wire msg H. pose proof (refuse_outcome _ _ _ _ _ _ _ _ _ H).
    rewrite refuse_eq in H. injection H as <- <-. by split_and!. }
  unfold processDebugTrace. destruct (IsForwardableMethod reg _); cbn [negb]; [|intros H; apply Hno in H; tauto].
  destruct (DetectStateOverride reg _ _); [intros H; apply Hno in H; tauto|].
  destruct IsEnabled; cbn [negb]; [|intros H; apply Hno in H; tauto].
  destruct (@GetUserByExternalID (storeOf row1 ctx s) (pq_UserID req)) as [[user|]|] eqn:Eu;
    [|intros H; apply Hno in H; tauto..].
  destruct (@ListActiveUserMembershipsWithDetails (storeOf row1 ctx s) (u_ID user)) as [ms|] eqn:Em;
    [|intros H; apply Hno in H; tauto].
  set (m := if contains _ _ then _ else _). unfold vetTrace.
  destruct (userCanTraceMethod _ _ _ _ _ _) eqn:Ec; cbn [negb]; [|intros H; apply Hno in H; tauto].
  destruct (Strict _ && _ && _); [intros H; apply Hno in H; tauto|].
  destruct (vetDebugTraceConfig m _) eqn:Ev; [intros H; apply Hno in H; tauto|]. clear Hno. intros H.
  assert (Hk : forall A (f : St -> A), Untouched f -> (forall s x, f (set_log s x) = f s) ->
    (forall s x, f (set_rates s x) = f s) -> (forall s x, f (set_limiter s x) = f s) -> f s' = f s).
  { intros A f Hf H1 H2 H3. by apply (keeps_limited f _ _ _ H1 H3 (keeps_traced f _ _ _ _ H1 H2) _ _ _ H). }
  rewrite (Hk _ st_compliance), (Hk _ st_outbox), (Hk _ st_approvals), (Hk _ tablesOf) by (done || apply _).
  clear Hk. apply limited_inv in H as [(Ho & Hl & Hn & _ & msg & ->)|(cl & cl' & t' & Ht & -> & Hl)].
  - split_and!; try done. left. by split.
  - pose proof (traced_logged _ _ _ _ _ _ _ Ht) as Ho. split_and!; try done.
    + apply Hl. by apply (keeps_traced st_limiter _ _ _ _ (fun _ _ => eq_refl) (fun _ _ => eq_refl) _ _ _ Ht).
    + right. exists user, ms, m, cl, t'. by split_and!.
Qed.

(** ** What reaches the node *)

(** The requests the proxy builds itself: a lookup of the transaction, a call
    object made of the checked members, or a replay, with a fixed tracer. *)
Inductive proxy_built (params : list any) : Body -> Prop :=
| built_lookup h : params !! 0 = Some (AStr h) -> isTxHash h = true ->
    proxy_built params (buildTraceRequest "eth_getTransactionByHash" [AStr h])
| built_replay h cfg : params !! 0 = Some (AStr h) -> isTxHash h = true ->
    cfg ∈ [proxyCallTracerConfig; topCallTracerConfig] ->
    proxy_built params (buildTraceRequest "debug_traceTransaction" [AStr h; cfg])
| built_call call block v : params !! 0 = Some v -> canonicalTraceCall v = Some call ->
    proxy_built params (buildTraceRequest "debug_traceCall" [AObj call; block; proxyCallTracerConfig]).

Definition grew (params : list any) (s s' : St) : Prop :=
  exists fws, st_node s' = (st_node s ++ fws)%list /\ Forall (fun fw => proxy_built params (fw_Body fw)) fws.
#[local] Instance grew_preorder params : PreOrder (grew params).
Proof.
  split; [intros s; exists []; by rewrite app_nil_r|].
  intros a b c (l1 & H1 & F1) (l2 & H2 & F2). exists (l1 ++ l2)%list. split; [by rewrite H2, H1, app_assoc|].
  by apply Forall_app.
Qed.
Lemma same_grew params {A} (m : stM St A) : keeps (same st_node) m -> keeps (grew params) m.
Proof. intros Hm s r s' H. apply Hm in H. exists []. by rewrite app_nil_r. Qed.
Lemma keeps_forward_built params fw : proxy_built params (fw_Body fw) -> keeps (grew params) (forward node fw : stM St _).
Proof. intros Hb s r s' [= <- <-]. exists [fw]. split; [done|]. by apply Forall_singleton. Qed.

(** The steps that do not speak to the node. *)
Lemma node_checkAccess areq : keeps (same st_node) (checkAccess row1 reg iter ctx source areq : stM St _).
Proof. intros s r s'. unfold checkAccess. destruct (CheckAccess _ _ _ _). by intros [= <- <-]. Qed.
Lemma node_frames req org ts :
  keeps (same st_node) (validateClientTraceFrameAccess row1 reg iter ctx source req org ts : stM St _).
Proof.
  induction ts as [|t ts IH]; simpl; [by keeps|]. case_decide; [by keeps|]. intros s r s' Hr.
  destruct (checkAccess _ _ _ _ _ _ s) as [r1 s1] eqn:E. apply node_checkAccess in E.
  destruct r1 as [res|]; [|by simplify_eq]. case_match; [by simplify_eq|]. etrans; [exact E|by eapply IH].
Qed.
Lemma node_judge req plan v : keeps (same st_node) (judgeTrace p row1 reg iter ctx source req plan v : stM St _).
Proof.
  intros s r s' H. unfold judgeTrace in H. destruct (ParseStrictCallTrace v) as [[san tr]|]; [|by simplify_eq].
  case_match; [by simplify_eq|]. destruct (ValidateTrace _ _ _ _); [|by simplify_eq].
  case_match; [by simplify_eq|]. case_match; [by simplify_eq|].
  match type of H with ?m _ = _ => assert (Hk : keeps (same st_node) m); [clear H|exact (Hk _ _ _ H)] end.
  apply keeps_bind; [apply _|apply node_frames|by keeps].
Qed.
Lemma node_owners req org owners readable :
  keeps (same st_node) (readableOwners row1 reg iter ctx source req org owners readable : stM St _).
Proof.
  revert readable. induction owners as [|a owners IH]; intros readable; simpl; [by keeps|]. intros s r s' H.
  destruct (canReadPrivateStorage _ _ _ _ _ _ _ _ _ s) as [r1 s1] eqn:E. assert (E1 : same st_node s s1).
  { unfold canReadPrivateStorage in E. destruct (CanReadPrivateStorage _ _ _ _ _ _ _ _). by simplify_eq. }
  clear E. destruct r1; [|by simplify_eq]. etrans; [exact E1|by eapply IH].
Qed.
Lemma node_redact req org v :
  keeps (same st_node) (redactClientTraceValues row1 reg iter ctx source req org v : stM St _).
Proof. pose proof node_owners. unfold redactClientTraceValues. keeps. Qed.

Lemma forwardTrace_grew req plan :
  proxy_built (pq_Params req) (pl_upstreamReq plan) ->
  keeps (grew (pq_Params req)) (forwardAndValidateTrace p row1 reg iter ctx source node req plan : stM St _).
Proof.
  intros Hb. unfold forwardAndValidateTrace. apply keeps_bind; [apply _| |].
  { intros s r s' Hg. unfold get in Hg. simplify_eq. reflexivity. }
  intros s0. case_match; [by keeps|]. apply keeps_bind; [apply _|by apply keeps_forward_built|]. intros reply.
  apply keeps_bind; [apply _|apply same_grew, keeps_node_breaker|]. intros _.
  repeat (case_match; try by keeps). apply same_grew, node_judge.
Qed.

(** The gates: at most the lookup is sent, and the plan is the proxy's. *)
Definition planned (req : ProcessRequest) (g : result gateResult) : Prop :=
  match g with Ok (_, inl plan) => proxy_built (pq_Params req) (pl_upstreamReq plan) | _ => True end.

Lemma vet_call params : vetDebugTraceConfig "debug_traceCall" params = None ->
  exists v call, params !! 0 = Some v /\ canonicalTraceCall v = Some call.
Proof.
  unfold vetDebugTraceConfig. rewrite decide_True by done. intros H.
  destruct params as [|v rest]; [done|]. exists v. destruct (canonicalTraceCall v) as [call|]; [by exists call|].
  by destruct rest as [|? [|? [|? ?]]].
Qed.
Lemma vet_replay params : vetDebugTraceConfig "debug_traceTransaction" params = None ->
  exists h, params !! 0 = Some (AStr h) /\ isTxHash h = true.
Proof.
  unfold vetDebugTraceConfig. rewrite decide_False, decide_True by done. intros H.
  destruct params as [|[| | |h| |] rest]; try done. exists h. split; [done|]. by destruct (isTxHash h).
Qed.

Lemma gateCall_grew req user org (s : St) r s' :
  vetDebugTraceConfig "debug_traceCall" (pq_Params req) = None ->
  gateDebugTraceCall row1 reg iter ctx source req user org s = (r, s') ->
  grew (pq_Params req) s s' /\ planned req r.
Proof.
  intros (v & call & Hv & Hc)%vet_call H. unfold gateDebugTraceCall in H. rewrite Hv in H. simpl in H. rewrite Hc in H.
  destruct (match extractEthCallBlockParam _ with Ok _ => _ | Err _ => _ end) as [block|];
    [|simplify_eq; by split].
  case_match; [simplify_eq; by split|]. destruct (checkAccess _ _ _ _ _ _ s) as [r1 s1] eqn:E.
  apply node_checkAccess in E. assert (Hg : grew (pq_Params req) s s1) by (exists []; by rewrite app_nil_r).
  destruct r1 as [res|]; simplify_eq; (split; [done|]); [|done]. unfold planned.
  repeat (case_match; simplify_eq/=; try done). by eapply built_call.
Qed.

Lemma planMinedTx_planned req user org h tx (s : St) r s' :
  pq_Params req !! 0 = Some (AStr h) -> isTxHash h = true ->
  planMinedTx p row1 reg iter ctx source txVisibility req user org h tx s = (r, s') ->
  same st_node s s' /\
  match r with Ok (inl plan) => proxy_built (pq_Params req) (pl_upstreamReq plan) /\ pl_orgID plan = org | _ => True end.
Proof.
  intros Hh Hx H. unfold planMinedTx in H. destruct (pinnedTraceScope _ _ _ _); [|by simplify_eq].
  destruct (negb _); [by simplify_eq|]. destruct (Strict _).
  { simplify_eq. split_and!; [done| |done]. eapply built_replay; [done..|]. by right; left. }
  apply st_bind_inv in H as [(a & s1 & Ha & H)|(e & Ha & ->)].
  - assert (Hs : same st_node s s1).
    { unfold authorizeRecipient in Ha. case_decide; [by inv_st|].
      destruct (checkAccess _ _ _ _ _ _ s) as [r1 s2] eqn:E. apply node_checkAccess in E. by simplify_eq. }
    clear Ha. destruct a as [authorized|]; [|by inv_st].
    destruct (clientTraceGrantScope _ _ _ _ _) eqn:Eg; simplify_eq; [|by split].
    split_and!; [done| |done]. eapply built_replay; [done..|]. by left.
  - unfold authorizeRecipient in Ha. case_decide; [by inv_st|].
    destruct (checkAccess _ _ _ _ _ _ s) as [r1 s2] eqn:E. apply node_checkAccess in E. by simplify_eq.
Qed.

Lemma gateTx_grew req user org (s : St) r s' :
  vetDebugTraceConfig "debug_traceTransaction" (pq_Params req) = None ->
  gateDebugTraceTransaction p row1 reg iter ctx source node txVisibility req user org s = (r, s') ->
  grew (pq_Params req) s s' /\ planned req r.
Proof.
  intros (h & Hh & Hx)%vet_replay H. unfold gateDebugTraceTransaction in H. rewrite Hh in H. simpl in H.
  destruct (checkAccess _ _ _ _ _ _ s) as [r1 s1] eqn:E. apply node_checkAccess in E.
  assert (Hg : grew (pq_Params req) s s1) by (exists []; by rewrite app_nil_r). clear E.
  destruct r1 as [res|]; [|by simplify_eq]. destruct (negb (rs_Allowed res)); [by simplify_eq|].
  case_decide; [by simplify_eq|].
  assert (Hf : forall q t, fetchTxParties p node req h s1 = (q, t) -> grew (pq_Params req) s t).
  { intros q t Hq. etrans; [exact Hg|]. unfold fetchTxParties in Hq.
    match type of Hq with ?m _ = _ => assert (Hk : keeps (grew (pq_Params req)) m); [clear Hq|exact (Hk _ _ _ Hq)] end.
    apply keeps_bind; [apply _|apply keeps_forward_built; simpl; by eapply built_lookup|by keeps]. }
  apply st_bind_inv in H as [(parties & s2 & Hp & H)|(e & Hp & ->)]; apply Hf in Hp; [|done].
  destruct parties as [tx|]; [|by inv_st]. destruct (foreignRecipient _ _ _); [by simplify_eq|].
  apply st_bind_inv in H as [(plan & s3 & Hpl & H)|(e & Hpl & ->)]; apply planMinedTx_planned in Hpl as [Hs Hpl]; try done.
  - injection H as <- <-. split; [etrans; [exact Hp|]; exists []; by rewrite app_nil_r|]. unfold planned. by destruct plan as [? |]; [destruct Hpl|].
  - split; [etrans; [exact Hp|]; exists []; by rewrite app_nil_r|done].
Qed.

Lemma traced_grew req user m org (s : St) r s' :
  vetDebugTraceConfig m (pq_Params req) = None ->
  traced' req user m org s = (r, s') -> grew (pq_Params req) s s'.
Proof.
  intros Hv H. unfold tracedRequest in H. destruct (CheckAndIncrement _ _ _ _ _) as [[ok why] rl].
  assert (Hlog : forall org reason status wire msg, keeps (grew (pq_Params req)) (refuse logged req org reason status wire msg : stM St _)).
  { intros. apply same_grew. by apply keeps_refuse. }
  assert (H0 : grew (pq_Params req) s (set_rates s rl)) by (exists []; by rewrite app_nil_r).
  etrans; [exact H0|]. clear H0. destruct ok; simpl in H; [|by eapply Hlog, H].
  apply st_bind_inv in H as [([org' gate] & s1 & Hg & H)|(e & Hg & _)].
  - assert (Hgr : grew (pq_Params req) (set_rates s rl) s1 /\ planned req (Ok (org', gate))).
    { case_decide; [subst m; by eapply gateCall_grew|]. case_decide; [subst m; by eapply gateTx_grew|]. by inv_st. }
    clear Hg. destruct Hgr as [Hgr Hp]. etrans; [exact Hgr|]. clear Hgr. destruct gate as [plan|d].
    2:{ unfold refuseGate, refuseTrace in H. case_match; by eapply Hlog, H. }
    match type of H with ?k _ = _ => assert (Hk : keeps (grew (pq_Params req)) k); [clear H|exact (Hk _ _ _ H)] end.
    apply keeps_bind; [apply _|by apply forwardTrace_grew|]. intros judged.
    apply keeps_bind; [apply _|destruct judged; [apply same_grew, node_redact|by keeps]|].
    intros [v|d]; [|apply Hlog]. apply same_grew. pose proof (keeps_log st_node). keeps.
  - case_decide; [subst m; by eapply gateCall_grew|]. case_decide; [subst m; by eapply gateTx_grew|]. by inv_st.
Qed.

(** ** What an answered trace went through *)

Notation storeAt t := (DbStore row1 (now ctx) (t_db t)).
Notation ctlOf s := (sv_ctl (st_server s)).

(** The access decision of one request, from the controller the run has
    reached to the one it leaves. *)
Definition decided (t : Tables) (areq : AccessCheckRequest) (res : AccessCheckResult) (c c' : Controller) : Prop :=
  @CheckAccess (storeAt t) _ (source t) reg iter ctx areq c = (Ok res, c').
Definition allowed_by (t : Tables) (areq : AccessCheckRequest) (res : AccessCheckResult) (c c' : Controller) : Prop :=
  decided t areq res c c' /\ rs_Allowed res = true.

(** Requests decided one after the other, each allowed in [org]. *)
Fixpoint allowed_in_turn (t : Tables) (org : string) (qs : list AccessCheckRequest) (c c' : Controller) : Prop :=
  match qs with
  | [] => c' = c
  | q :: qs => exists res c1, allowed_by t q res c c1 /\ rs_OrgID res = org /\ allowed_in_turn t org qs c1 c'
  end.

(** The storages the caller may read, asked one after the other. *)
Fixpoint readable_in_turn (t : Tables) (req : ProcessRequest) (org : string) (owners : list string)
  (readable : gset string) (c c' : Controller) : Prop :=
  match owners with
  | [] => readable = ∅ /\ c' = c
  | a :: owners => exists ok c1 rest,
      @CanReadPrivateStorage (storeAt t) _ (source t) reg iter ctx (pq_UserID req) org a (pq_BypassPermsCache req) c =
        (Ok ok, c1) /\
      readable_in_turn t req org owners rest c1 c' /\ readable = (if ok then {[a]} ∪ rest else rest)
  end.

(** *** Who may replay what *)
Definition linked_to (t : Tables) (did addr : string) : Prop :=
  exists addrs l, @GetLinkedEthAddresses (storeAt t) did = Ok addrs /\ l ∈ addrs /\ ToLower l = ToLower addr.

Definition sender_of (call : gmap string any) : string := default "" (str_field call "from").
Definition target_of (call : gmap string any) : string := default "" (str_field call "to").

(** A party of a mined transaction; [tx] is in lower case. *)
Definition party_of (t : Tables) (did : string) (tx : TxParties) : Prop :=
  exists addrs l, @GetLinkedEthAddresses (storeAt t) did = Ok addrs /\ l ∈ addrs /\ l <> "" /\
    (ToLower l = ty_from tx \/ ToLower l = ty_to tx).

(** An administrator of the contract it called, or named by its sender. *)
Definition entitled_viewer (t : Tables) (did uid org : string) (tx : TxParties) (txHash : string) : Prop :=
  (ty_to tx <> "" /\ @GetContractOwnerOrgID (storeAt t) (ty_to tx) = Ok org /\
   exists perms, @GetEffectivePermissionsByIDs (source t) uid org = Ok perms /\
     HasContractClaim perms (ty_to tx) ClaimAdmin = true) \/
  exists d, d ∈ txVisibility t txHash /\ EqualFold d did = true.

(** The contract it called is the organization's, or nobody's. *)
Definition own_or_unowned (t : Tables) (to org : string) : Prop :=
  to = "" \/ @GetContractOwnerOrgID (storeAt t) to = Ok org \/ @GetContractOwnerOrgID (storeAt t) to = Ok "".

(** The judgement's options: nothing is excused but the contract the caller
    was allowed to call and those it was granted within the organization. *)
Definition grantScope (t : Tables) (uid org authorized : string) (o : traceOptions) : Prop :=
  exists granted, @resolveGrantedContracts _ (source t) uid {[org]} = Ok granted /\
    o = WithClientTraceGrantScoping
          (if decide (authorized = "") then granted else {[ToLower authorized]} ∪ granted) noOptions.

Definition deployClaimIn (t : Tables) (uid org : string) (deploy : bool) : Prop :=
  exists perms, @GetEffectivePermissionsByIDs (source t) uid org = Ok perms /\
    deploy = effectivePermissionsHasDeployClaim perms.

Definition txLookup (req : ProcessRequest) (txHash : string) : Forwarded :=
  traceForwarded p req (buildTraceRequest "eth_getTransactionByHash" [AStr txHash]).

(** The node, asked for a mined transaction after [past], says who its parties are. *)
Definition mined_parties (past : list Forwarded) (req : ProcessRequest) (txHash : string) (tx : TxParties) : Prop :=
  let reply := node past (txLookup req txHash) in nr_Err reply = None /\ nr_Body reply ≫= decodeParties = Some tx.

(** The plans a gate draws up, from the requests sent so far and the controller:
    the method, the plan, the lookups it made, and the controller it leaves. *)
Inductive authorised_plan (t : Tables) (req : ProcessRequest) (user : User) (past : list Forwarded) (c : Controller)
  : string -> debugTracePlan -> list Forwarded -> Controller -> Prop :=
| plan_call call block res deploy opts c1 :
    canonicalTraceCall (default ANull (pq_Params req !! 0)) = Some call ->
    DetectMulticall "eth_call" [AObj call] = None ->
    allowed_by t (traceCallRequest req call block) res c c1 -> rs_OrgID res <> "" ->
    sender_of call = "" \/ linked_to t (pq_UserID req) (sender_of call) ->
    deployClaimIn t (u_ID user) (rs_OrgID res) deploy ->
    grantScope t (u_ID user) (rs_OrgID res) (target_of call) opts ->
    authorised_plan t req user past c "debug_traceCall"
      {| pl_upstreamReq := buildTraceRequest "debug_traceCall" [AObj call; block; proxyCallTracerConfig];
         pl_orgID := rs_OrgID res; pl_userHasDeploy := deploy; pl_traceOpts := opts; pl_topFrameOnly := false |} [] c1
| plan_strict txHash tx res c1 :
    Strict (pc_readProfile p) = true -> pq_Params req !! 0 = Some (AStr txHash) ->
    allowed_by t (traceTxRequest req txHash) res c c1 -> rs_OrgID res <> "" ->
    mined_parties past req txHash tx -> own_or_unowned t (ty_to tx) (rs_OrgID res) ->
    party_of t (pq_UserID req) tx ->
    authorised_plan t req user past c "debug_traceTransaction"
      {| pl_upstreamReq := buildTraceRequest "debug_traceTransaction" [AStr txHash; topCallTracerConfig];
         pl_orgID := rs_OrgID res; pl_userHasDeploy := true; pl_traceOpts := noOptions; pl_topFrameOnly := true |}
      [txLookup req txHash] c1
| plan_standard txHash tx res deploy opts c1 c2 :
    Strict (pc_readProfile p) = false -> pq_Params req !! 0 = Some (AStr txHash) ->
    allowed_by t (traceTxRequest req txHash) res c c1 -> rs_OrgID res <> "" ->
    mined_parties past req txHash tx -> own_or_unowned t (ty_to tx) (rs_OrgID res) ->
    party_of t (pq_UserID req) tx \/ entitled_viewer t (pq_UserID req) (u_ID user) (rs_OrgID res) tx txHash ->
    (ty_to tx = "" /\ c2 = c1 \/ ty_to tx <> "" /\ exists res2,
       allowed_by t (frameRequest req "debug_traceTransaction" (rs_OrgID res) (ty_to tx) (ty_input tx)) res2 c1 c2) ->
    deployClaimIn t (u_ID user) (rs_OrgID res) deploy ->
    grantScope t (u_ID user) (rs_OrgID res) (ty_to tx) opts ->
    authorised_plan t req user past c "debug_traceTransaction"
      {| pl_upstreamReq := buildTraceRequest "debug_traceTransaction" [AStr txHash; proxyCallTracerConfig];
         pl_orgID := rs_OrgID res; pl_userHasDeploy := deploy; pl_traceOpts := opts; pl_topFrameOnly := false |}
      [txLookup req txHash] c2.

Lemma checkAccess_decided areq (s : St) res s1 :
  checkAccess row1 reg iter ctx source areq s = (Ok res, s1) ->
  decided (tablesOf s) areq res (ctlOf s) (ctlOf s1) /\ tablesOf s1 = tablesOf s /\ st_node s1 = st_node s.
Proof. unfold checkAccess, decided. destruct (CheckAccess _ _ _ _) as [r c] eqn:E. intros [= -> <-]. by rewrite <- E. Qed.

Lemma traceSender_None (s : St) did from :
  traceSender (storeOf row1 ctx s) did from = None -> from = "" \/ linked_to (tablesOf s) did from.
Proof.
  unfold traceSender. case_decide; [by left|]. destruct (GetLinkedEthAddresses did) as [addrs|] eqn:E; [|done].
  unfold containsAddressFold. destruct (existsb _ addrs) eqn:Ex; [|done]. intros _. right.
  apply existsb_exists in Ex as (l & Hl & Hf%bool_decide_eq_true). exists addrs, l.
  split_and!; [exact E|by apply list_elem_of_In|exact Hf].
Qed.

Lemma pinnedScope_inl uid org (s : St) deploy :
  pinnedTraceScope source uid org s = inl deploy -> deployClaimIn (tablesOf s) uid org deploy.
Proof.
  unfold pinnedTraceScope. destruct (GetEffectivePermissionsByIDs _ _) as [perms|] eqn:E; [|done].
  intros [= <-]. by exists perms.
Qed.
Lemma grantScope_inl uid org a (s : St) o :
  clientTraceGrantScope source uid org a s = inl o -> grantScope (tablesOf s) uid org a o.
Proof.
  unfold clientTraceGrantScope. destruct (resolveGrantedContracts _ _) as [granted|] eqn:E; [|done].
  intros [= <-]. by exists granted.
Qed.

Lemma gateCall_plan req user org0 (s : St) org plan s' :
  gateDebugTraceCall row1 reg iter ctx source req user org0 s = (Ok (org, inl plan), s') ->
  authorised_plan (tablesOf s) req user (st_node s) (ctlOf s) "debug_traceCall" plan [] (ctlOf s') /\
  st_node s' = st_node s.
Proof.
  intros H. unfold gateDebugTraceCall in H. destruct (canonicalTraceCall _) as [call|] eqn:Ec; [|done].
  destruct (match extractEthCallBlockParam _ with Ok _ => _ | Err _ => _ end) as [block|]; [|done].
  destruct (DetectMulticall _ _) eqn:Em; [done|]. cbn [is_Some] in H. rewrite bool_decide_eq_false_2 in H by (by intros []).
  destruct (checkAccess _ _ _ _ _ _ s) as [r1 s1] eqn:E. destruct r1 as [res|]; [|done].
  apply checkAccess_decided in E as (Hd & Ht & Hn). injection H as <- Hp <-.
  destruct (rs_Allowed res) eqn:Ea; [|done]. cbn [negb] in Hp. case_decide as Ho; [done|].
  destruct (traceSender _ _ _) eqn:Es; [done|]. destruct (pinnedTraceScope _ _ _ _) as [deploy|] eqn:Ep; [|done].
  destruct (clientTraceGrantScope _ _ _ _ _) as [opts|] eqn:Eg; [|done]. injection Hp as <-.
  apply traceSender_None in Es. apply pinnedScope_inl in Ep. apply grantScope_inl in Eg. rewrite Ht in Es, Ep, Eg.
  split; [|exact Hn]. exact (plan_call _ _ _ _ _ _ _ _ _ _ _ Ec Em (conj Hd Ea) Ho Es Ep Eg).
Qed.

Lemma foreignRecipient_false (s : St) to org :
  foreignRecipient (storeOf row1 ctx s) to org = false -> own_or_unowned (tablesOf s) to org.
Proof.
  unfold foreignRecipient. destruct (bool_decide (to = "")) eqn:E; [left; by apply bool_decide_eq_true in E|].
  cbn [negb andb]. destruct (GetContractOwnerOrgID to) as [owner|] eqn:Eo; [|done]. intros H. right.
  apply andb_false_iff in H as [H|H]; apply negb_false_iff, bool_decide_eq_true in H; subst owner; [by right|by left].
Qed.

Lemma viewer_party (s : St) req uid org tx txHash :
  viewerCanSeeMinedTx p row1 ctx source txVisibility req uid org tx txHash s = true ->
  party_of (tablesOf s) (pq_UserID req) tx \/
  Strict (pc_readProfile p) = false /\ entitled_viewer (tablesOf s) (pq_UserID req) uid org tx txHash.
Proof.
  unfold viewerCanSeeMinedTx. destruct (GetLinkedEthAddresses _) as [addrs|] eqn:E; [|done].
  destruct (_ || _) eqn:El.
  - intros _. left. exists addrs. apply orb_true_iff in El as [H|H];
      apply andb_true_iff in H as [_ (l & Hl & H)%existsb_exists];
      apply andb_true_iff in H as [Hn%negb_true_iff%bool_decide_eq_false Hq%bool_decide_eq_true];
      exists l; (split_and!; [exact E|by apply list_elem_of_In|exact Hn|]); [by left|by right].
  - clear El. destruct (Strict _); [done|]. intros H. right. split; [done|].
    apply orb_true_iff in H as [H|(d & Hd & He)%existsb_exists]; [left|right; exists d; by rewrite list_elem_of_In].
    apply andb_true_iff in H as [Hn%negb_true_iff%bool_decide_eq_false H].
    destruct (GetContractOwnerOrgID _) as [owner|] eqn:Eo; [|done].
    apply andb_true_iff in H as [->%bool_decide_eq_true H].
    destruct (GetEffectivePermissionsByIDs _ _) as [perms|] eqn:Ep; [|done].
    split_and!; [exact Hn|reflexivity|by exists perms].
Qed.

Lemma authorizeRecipient_inl req org tx (s : St) authorized s' :
  authorizeRecipient p row1 reg iter ctx source req org tx s = (Ok (inl authorized), s') ->
  authorized = ty_to tx /\ tablesOf s' = tablesOf s /\ st_node s' = st_node s /\
  (ty_to tx = "" /\ ctlOf s' = ctlOf s \/ ty_to tx <> "" /\ exists res,
     allowed_by (tablesOf s) (frameRequest req "debug_traceTransaction" org (ty_to tx) (ty_input tx)) res
       (ctlOf s) (ctlOf s')).
Proof.
  unfold authorizeRecipient. case_decide as Et.
  - intros H. inv_st. rewrite Et. split_and!; try done. by left.
  - destruct (checkAccess _ _ _ _ _ _ s) as [r1 s1] eqn:E. destruct r1 as [res|]; [|done].
    apply checkAccess_decided in E as (Hd & Ht & Hn). destruct (rs_Allowed res) eqn:Ea; [|done].
    intros [= <- <-]. split_and!; [reflexivity|exact Ht|exact Hn|]. right. split; [exact Et|].
    exists res. exact (conj Hd Ea).
Qed.

Lemma fetched_parties past req txHash tx :
  (match nr_Err (node past (txLookup req txHash)) with
   | Some _ => None | None => nr_Body (node past (txLookup req txHash)) ≫= decodeParties end) = Some tx ->
  mined_parties past req txHash tx.
Proof. unfold mined_parties. cbv zeta. destruct (nr_Err _); [discriminate|]. intros H. split; [reflexivity|exact H]. Qed.

Lemma gateTx_plan req user org0 (s : St) org plan s' :
  vetDebugTraceConfig "debug_traceTransaction" (pq_Params req) = None ->
  gateDebugTraceTransaction p row1 reg iter ctx source node txVisibility req user org0 s = (Ok (org, inl plan), s') ->
  exists looked,
    authorised_plan (tablesOf s) req user (st_node s) (ctlOf s) "debug_traceTransaction" plan looked (ctlOf s') /\
    st_node s' = (st_node s ++ looked)%list.
Proof.
  intros (h & Hh & Hx)%vet_replay H. unfold gateDebugTraceTransaction in H. rewrite Hh in H. simpl in H.
  destruct (checkAccess _ _ _ _ _ _ s) as [r1 s1] eqn:E. destruct r1 as [res|]; [|done].
  apply checkAccess_decided in E as (Hd & Ht & Hn). destruct (rs_Allowed res) eqn:Ea; [|done]. cbn [negb] in H.
  case_decide as Ho; [done|].
  apply st_bind_Ok in H as (parties & s2 & Hp & H). destruct parties as [tx|]; [|done].
  apply st_bind_Ok in Hp as (reply & s3 & Hf & Hp). injection Hf as <- <-. injection Hp as Hp <-.
  fold (txLookup req h) in *. rewrite Hn in *. set (s2 := set_node _ _) in *.
  assert (Hm : mined_parties (st_node s) req h tx) by exact (fetched_parties _ _ _ _ Hp).
  clear Hp.
  destruct (foreignRecipient _ _ _) eqn:Ef; [done|]. apply foreignRecipient_false in Ef.
  change (tablesOf s2) with (tablesOf s1) in Ef. rewrite Ht in Ef.
  apply st_bind_Ok in H as (pl & s4 & Hpl & H). injection H as _ -> <-. unfold planMinedTx in Hpl.
  destruct (pinnedTraceScope _ _ _ _) as [deploy|] eqn:Ep; [|done]. apply pinnedScope_inl in Ep.
  destruct (viewerCanSeeMinedTx _ _ _ _ _ _ _ _ _ _ _) eqn:Ev; [|done]. cbn [negb] in Hpl. apply viewer_party in Ev.
  change (tablesOf s2) with (tablesOf s1) in Ep, Ev. rewrite Ht in Ep, Ev. exists [txLookup req h].
  destruct (Strict _) eqn:Est.
  - injection Hpl as <- <-. split; [|done]. destruct Ev as [Ev|[? _]]; [|done].
    exact (plan_strict _ _ _ _ _ _ _ _ _ Est Hh (conj Hd Ea) Ho Hm Ef Ev).
  - apply st_bind_Ok in Hpl as (authorized & s5 & Hau & Hpl). destruct authorized as [authorized|]; [|done].
    apply authorizeRecipient_inl in Hau as (-> & Ht5 & Hn5 & Hau).
    change (tablesOf s2) with (tablesOf s1) in Ht5, Hau. rewrite Ht in Ht5, Hau.
    destruct (clientTraceGrantScope _ _ _ _ _) as [opts|] eqn:Eg; [|done]. injection Hpl as <- <-.
    apply grantScope_inl in Eg. rewrite Ht5 in Eg. split; [|by rewrite Hn5].
    refine (plan_standard _ _ _ _ _ _ _ _ _ _ _ _ Est Hh (conj Hd Ea) Ho Hm Ef _ Hau Ep Eg). tauto.
Qed.

(** *** How the tree is judged *)
Lemma frames_allowed req org ts (s : St) s' :
  validateClientTraceFrameAccess row1 reg iter ctx source req org ts s = (Ok None, s') ->
  allowed_in_turn (tablesOf s) org
    ((fun f => frameRequest req (pq_Method req) org (ToLower (ct_StorageAddress f)) (ct_Input f)) <$> ts)
    (ctlOf s) (ctlOf s').
Proof.
  revert s. induction ts as [|t ts IH]; intros s H; simpl in H; [by inv_st|]. case_decide; [done|].
  destruct (checkAccess _ _ _ _ _ _ s) as [r1 s1] eqn:E. destruct r1 as [res|]; [|done].
  apply checkAccess_decided in E as (Hd & Ht & _). destruct (rs_Allowed res) eqn:Ea; [|done]. cbn [negb orb] in H.
  destruct (bool_decide (rs_OrgID res = org)) eqn:Eo; [|done]. apply bool_decide_eq_true in Eo. cbn [negb] in H.
  apply IH in H. rewrite Ht in H. simpl. exists res, (ctlOf s1).
  exact (conj (conj Hd Ea) (conj Eo H)).
Qed.

(** The tree was judged: within the organization; under the strict profile the
    caller is a party of the outermost frame, otherwise the frames of owned
    contracts pass the caller's own rules, in turn. *)
Definition judged_as (t : Tables) (req : ProcessRequest) (plan : debugTracePlan) (tr : TraceResult) (c c' : Controller)
  : Prop :=
  exists verdict,
    @ValidateTrace (storeAt t) _ {[pl_orgID plan]} (pl_userHasDeploy plan) (pl_traceOpts plan) (Some tr) =
      Ok verdict /\ tv_Allowed verdict = true /\
    if pl_topFrameOnly plan
    then strictTraceAllowed p (storeAt t) (pq_UserID req) tr = true /\ c' = c
    else allowed_in_turn t (pl_orgID plan)
           ((fun f => frameRequest req (pq_Method req) (pl_orgID plan) (ToLower (ct_StorageAddress f)) (ct_Input f))
              <$> tv_ClientAccessTargets verdict) c c'.

Lemma judgeTrace_inl req plan v (s : St) san s' :
  judgeTrace p row1 reg iter ctx source req plan v s = (Ok (inl san), s') ->
  exists tr, ParseStrictCallTrace v = Ok (san, tr) /\ judged_as (tablesOf s) req plan tr (ctlOf s) (ctlOf s').
Proof.
  intros H. unfold judgeTrace in H. destruct (ParseStrictCallTrace v) as [[san' tr]|]; [|done]. exists tr.
  destruct (pl_topFrameOnly plan && _) eqn:Et; [done|].
  destruct (ValidateTrace _ _ _ _) as [verdict|] eqn:Ev; [|done].
  destruct (tv_Allowed verdict) eqn:Ea; [|done]. cbn [negb] in H. unfold judged_as.
  destruct (pl_topFrameOnly plan).
  - injection H as <- <-. split; [reflexivity|]. exists verdict. split_and!; [exact Ev|exact Ea| |reflexivity].
    by destruct (strictTraceAllowed _ _ _ _).
  - apply st_bind_Ok in H as (d & s1 & Hd & H). destruct d; [done|]. injection H as <- <-. split; [done|].
    exists verdict.
    exact (conj Ev (conj Ea (frames_allowed _ _ _ _ _ Hd))).
Qed.

Lemma readableOwners_inl req org owners : forall readable (s : St) out s',
  readableOwners row1 reg iter ctx source req org owners readable s = (Ok (inl out), s') ->
  exists rest, readable_in_turn (tablesOf s) req org owners rest (ctlOf s) (ctlOf s') /\ out = rest ∪ readable.
Proof.
  induction owners as [|o owners IH]; intros readable s out s' H; simpl in H.
  { inv_st. exists ∅. split; [done|set_solver]. }
  destruct (canReadPrivateStorage _ _ _ _ _ _ _ _ _ s) as [r1 s1] eqn:E. destruct r1 as [ok|]; [|done].
  unfold canReadPrivateStorage in E. destruct (CanReadPrivateStorage _ _ _ _ _ _ _ _) as [r c] eqn:Ec.
  injection E as -> <-. apply IH in H as (rest & Hr & ->).
  exists (if ok then {[o]} ∪ rest else rest). split.
  - exists ok, c, rest. exact (conj Ec (conj Hr eq_refl)).
  - clear. destruct ok; set_solver.
Qed.

(** What came of a plan at the node, which had been sent [past]. *)
Definition answered (past : list Forwarded) (req : ProcessRequest) (plan : debugTracePlan) (v : raw) : Prop :=
  let reply := node past (traceForwarded p req (pl_upstreamReq plan)) in
  nr_Err reply = None /\ nr_Status reply = 200%Z /\ traceBody plan (nr_Body reply) = inl v.

Lemma forwardTrace_inl req plan (s : St) san s' :
  forwardAndValidateTrace p row1 reg iter ctx source node req plan s = (Ok (inl san), s') ->
  exists v tr, answered (st_node s) req plan v /\ ParseStrictCallTrace v = Ok (san, tr) /\
    judged_as (tablesOf s) req plan tr (ctlOf s) (ctlOf s').
Proof.
  intros H. unfold forwardAndValidateTrace in H. apply st_bind_Ok in H as (s0 & s1 & Hg & H). injection Hg as <- <-.
  destruct (pc_breaks p && _); [by inv_st|]. apply st_bind_Ok in H as (reply & s1 & Hf & H).
  apply st_bind_Ok in H as ([] & s2 & Hb & H).
  assert (Ht : same st_server s s2).
  { assert (Hk : keeps (same st_server) (updateBreaker p ctx (fw_APIKey (traceForwarded p req (pl_upstreamReq plan)))
      (nr_Status reply) : stM St _)) by (apply keeps_modify; intros; by repeat case_match).
    etrans; [|by eapply Hk]. by injection Hf as _ <-. }
  injection Hf as <- _. set (reply := node _ _) in *. destruct (nr_Err reply) eqn:Ee; [by inv_st|].
  destruct (nr_Status reply =? 429)%Z; [by inv_st|]. destruct (nr_Status reply =? 200)%Z eqn:Es; [|by inv_st].
  cbn [negb] in H. destruct (traceBody plan _) as [v|] eqn:Ev; [|by inv_st].
  apply judgeTrace_inl in H as (tr & Hp & Hj). unfold tablesOf, same in *. rewrite Ht in Hj.
  exists v, tr. apply Z.eqb_eq in Es. exact (conj (conj Ee (conj Es Ev)) (conj Hp Hj)).
Qed.

(** The redaction of what was judged: only the values of readable storages stay. *)
Definition redacted_for (t : Tables) (req : ProcessRequest) (org : string) (san out : raw) (c : Controller) : Prop :=
  exists owners readable c', TraceValueOwners san = Ok owners /\
    readable_in_turn t req org owners readable c c' /\ RedactStrictCallTrace san readable = Ok out.

Lemma redact_inl req org san (s : St) out s' :
  redactClientTraceValues row1 reg iter ctx source req org san s = (Ok (inl out), s') ->
  redacted_for (tablesOf s) req org san out (ctlOf s).
Proof.
  intros H. unfold redactClientTraceValues in H. destruct (TraceValueOwners san) as [owners|] eqn:Ew; [|by inv_st].
  apply st_bind_Ok in H as (readable & s1 & Hr & H). destruct readable as [readable|]; [|by inv_st].
  destruct (RedactStrictCallTrace san readable) as [o|] eqn:Eo; [|by inv_st]. injection H as <- _.
  destruct (decide (owners <> [] /\ org = "")); [injection Hr as Hr; discriminate Hr|].
  apply readableOwners_inl in Hr as (rest & Hr & ->).
  exists owners, rest, (ctlOf s1). split_and!; [exact Ew|exact Hr|]. by rewrite (right_id_L ∅ (∪)) in Eo.
Qed.

(** Everything an answered trace went through, in order. *)
Definition shown (req : ProcessRequest) (user : User) (m : string) (s : St) (body : option raw) : Prop :=
  exists plan looked v san tr out c1 c2,
    body = Some (rpcEnvelope (idOf (pq_Body req)) out) /\
    authorised_plan (tablesOf s) req user (st_node s) (ctlOf s) m plan looked c1 /\
    answered (st_node s ++ looked) req plan v /\ ParseStrictCallTrace v = Ok (san, tr) /\
    judged_as (tablesOf s) req plan tr c1 c2 /\ redacted_for (tablesOf s) req (pl_orgID plan) san out c2.

Lemma gate_plan req user m org0 (s : St) org plan s1 :
  vetDebugTraceConfig m (pq_Params req) = None ->
  (if decide (m = "debug_traceCall") then gateDebugTraceCall row1 reg iter ctx source req user org0
   else if decide (m = "debug_traceTransaction")
        then gateDebugTraceTransaction p row1 reg iter ctx source node txVisibility req user org0
        else mret (org0, inr (refusal 404 methodNotFound ReasonMethodNotAllowed))) s = (Ok (org, inl plan), s1) ->
  exists looked, authorised_plan (tablesOf s) req user (st_node s) (ctlOf s) m plan looked (ctlOf s1) /\
    st_node s1 = (st_node s ++ looked)%list.
Proof.
  intros Hv Hg. case_decide; [subst m|case_decide; [subst m; by eapply gateTx_plan|by inv_st]].
  apply gateCall_plan in Hg as [Hg Hn]. exists []. by rewrite app_nil_r.
Qed.

Lemma traced_shown req user m org (s : St) status body s' :
  vetDebugTraceConfig m (pq_Params req) = None ->
  traced' req user m org s = (Ok (Answer status body), s') -> status = 200%Z /\ shown req user m s body.
Proof.
  intros Hv H. unfold tracedRequest in H. destruct (CheckAndIncrement _ _ _ _ _) as [[ok why] rl].
  destruct ok; simpl in H; [|done]. apply st_bind_Ok in H as ([org' gate] & s1 & Hg & H).
  assert (Ht1 : tablesOf s1 = tablesOf s) by exact (keeps_gate tablesOf _ _ _ _ _ _ _ Hg).
  destruct gate as [plan|d]; [|unfold refuseGate, refuseTrace in H; by case_match].
  apply gate_plan in Hg as (looked & Hp & Hn1); [|exact Hv].
  apply st_bind_Ok in H as (judged & s2 & Hj & H).
  assert (Ht2 : tablesOf s2 = tablesOf s1) by (by eapply (keeps_forwardTrace tablesOf), Hj).
  apply st_bind_Ok in H as (out & s3 & Ho & H). destruct judged as [san|d]; [|by destruct out; inv_st].
  destruct out as [out|]; [|done]. apply redact_inl in Ho. rewrite Ht2, Ht1 in Ho.
  apply forwardTrace_inl in Hj as (v & tr & Ha & Hps & Hjd). rewrite Ht1 in Hjd. rewrite Hn1 in Ha.
  injection H as <- <- _. split; [reflexivity|].
  exists plan, looked, v, san, tr, out, (ctlOf s1), (ctlOf s2). by split_and!.
Qed.

(** C15: A client trace that is answered was authorised and judged frame by
    frame.  The method is forwardable, carries no override and is allowed to
    the caller in one of its organizations, and the trace is of a plan that
    this request's own decisions drew up, each taken on the tables of the run
    and on the cache the run had reached.  A replayed call is decided as an
    [eth_call], is no multicall, and comes from nobody or from an address
    linked to the caller.  A mined transaction is decided as a lookup; the
    contract it called, as the node reports it, is the organization's or
    nobody's, and the caller is a party of it, or, outside the strict profile,
    administers that contract or was named by the sender, and in addition may
    call that contract with that input.  The plan is pinned to the organization
    the decision resolved, with the deploy claim the caller holds there and
    with grants scoped to the contract it was allowed and those it was granted
    there (the strict profile judges the outermost frame alone, with no option
    set).  The node's answer to the proxy's own request, asked after the
    requests of this run, parsed strictly and is isolated in that organization
    under those options, in the sense of C4; under the strict profile the caller
    is a party of the outermost frame, otherwise the owned nested frames passed
    the caller's function and argument rules there, one after the other; and
    what is shown is the redaction that reveals exactly the values of the
    storages the caller was found able to read. *)
Theorem shown_traces_are_authorised req (s : St) status body s' :
  ranges_all ->
  processTrace req s = (Ok (Answer status body), s') ->
  status = 200%Z /\ IsEnabled = true /\ IsForwardableMethod reg (pq_Method req) = true /\
  DetectStateOverride reg (pq_Method req) (pq_Params req) = None /\
  exists user ms, @GetUserByExternalID (storeOf row1 ctx s) (pq_UserID req) = Ok (Some user) /\
    @ListActiveUserMembershipsWithDetails (storeOf row1 ctx s) (u_ID user) = Ok ms /\
    userCanTraceMethod reg source (u_ID user) ms (pq_Method req) s = true /\
    exists plan looked v san tr out c1 c2,
      body = Some (rpcEnvelope (idOf (pq_Body req)) out) /\
      authorised_plan (tablesOf s) req user (st_node s) (ctlOf s) (tracedMethod req) plan looked c1 /\
      answered (st_node s ++ looked) req plan v /\ ParseStrictCallTrace v = Ok (san, tr) /\
      @isolated (storeOf row1 ctx s) _ {[pl_orgID plan]} (pl_userHasDeploy plan) (pl_traceOpts plan) tr /\
      judged_as (tablesOf s) req plan tr c1 c2 /\ redacted_for (tablesOf s) req (pl_orgID plan) san out c2.
Proof.
  intros Hr (_ & _ & _ & _ & _ & _ & [[_ Hno]|Hd])%processTrace_inv; [by destruct (Hno status body)|].
  destruct Hd as (user & ms & m & cl & t' & -> & Hf & Ho & He & Hu & Hm & Hc & Hv & Ht & _).
  apply traced_shown in Ht as [-> (plan & looked & v & san & tr & out & c1 & c2 & Hb & Hp & Ha & Hps & Hj & Hrd)];
    [|done].
  split_and!; [reflexivity|assumption..|]. exists user, ms. split_and!; [assumption..|].
  exists plan, looked, v, san, tr, out, c1, c2. split_and!; try assumption.
  destruct Hj as (verdict & Hval & Hal & _). eapply allowed_trace_sound; [exact Hr|exact Hval|exact Hal].
Qed.

(** A client trace sends the node nothing of the caller's making.
    Whatever the outcome, the node receives only requests the proxy built: the
    lookup of the transaction named by a well-formed hash, its replay, or a
    call object rebuilt from checked members, always with the call tracer; and
    the tables, the compliance records, the outbox and the approvals stay as
    they were. *)
Theorem traces_send_only_built_requests req (s : St) r s' :
  processTrace req s = (r, s') ->
  (exists fws, st_node s' = (st_node s ++ fws)%list /\
     Forall (fun fw => proxy_built (pq_Params req) (fw_Body fw)) fws) /\
  tablesOf s' = tablesOf s /\ st_compliance s' = st_compliance s /\ st_outbox s' = st_outbox s /\
  st_approvals s' = st_approvals s.
Proof.
  intros (_ & _ & Hc & Ho & Ha & Ht & Hn)%processTrace_inv. split_and!; [|done..].
  destruct Hn as [[Hn _]|(user & ms & m & cl & t' & _ & _ & _ & _ & _ & _ & _ & Hv & Htr & Hn)].
  - exists []. by rewrite app_nil_r.
  - apply traced_grew in Htr as (fws & Hfw & Hb); [|done]. exists fws. by rewrite Hn.
Qed.
End props.
