(* ===== verification/Dispatch.v ===== *)
(** * [Process] of [internal/server/jsonrpc_processor.go]: every request goes to
    one of three processors, and what holds of all three. *)
From S2P Require Import Prelude GoStrings Methods Models Requests OrgContext Cache Db Writes.
From S2P Require Import Access Trace Deployments Json ReadDecision EventFilter ResponseFilter AuditChain.
From S2P Require Import F64 Compliance TraceGate TraceGateProps VisibleTo Limits Answers.
From S2P Require Import Processor ProcessorProps RawTransaction RawProps Frames StrictTrace Tracer.
From S2P Require Import DebugTrace DebugTraceProps.
Local Open Scope string_scope.

Section process.
Context {C : Type} `{HC : ComplianceStore C} `{HA : ABI} `{HE : !EventABI} `{HT : TraceEnv} `{HR : RuntimeTracer}
  `{HG : GoEthereum} `{HX : SignedTransactions}.
Variable p : Processor.
Variable row1 : forall A : Type, list A -> option A.
Variable reg : Registries.
Variable iter : gmap string cacheEntry -> list string.
Variable rng : nat -> nat -> order.
Variable ctx : Ctx.
Variable source : Tables -> PermissionSource.
Variable facts : Tables -> ViewerFacts.
Variable resolver : option (Tables -> string -> result string).
Variable logged : string -> list any -> option string.
Variable node : list Forwarded -> Forwarded -> NodeReply.
Variable outboxFault : option string.
Variable approvals : option Approvals.
Variable nanos : Z.
Variable txVisibility : Tables -> string -> list string.
Variable idOf : Body -> raw.

Notation St := (State C).

Definition isTrace (method : string) : bool := contains ["debug_traceTransaction"; "debug_traceCall"] method.

Definition Process (req : ProcessRequest) : stM St ProcessResult :=
  let req := with_method (CanonicalizeMethod (pq_Method req)) req in
  if decide (pq_Method req = "eth_sendRawTransaction")
  then processRawTransaction p row1 reg iter ctx source resolver logged node outboxFault approvals req
  else if isTrace (pq_Method req) || isTrace (ResolveMethodAlias reg (pq_Method req))
  then processDebugTrace p row1 reg iter ctx source logged node nanos txVisibility idOf req
  else processGeneric p row1 reg iter rng ctx source facts resolver logged node outboxFault req.

(** ** Claims *)

(** The request as it is dispatched. *)
Definition canonical (req : ProcessRequest) : ProcessRequest :=
  with_method (CanonicalizeMethod (pq_Method req)) req.

(** C20: Every outcome is on the access log, once.  An answer leaves one row
    with the caller, the method and the node's status and no denial reason; a
    refusal leaves one row that carries the status that went out, except the
    400s about the shape of a transaction (undecodable, or about its
    recipients), which leave none; a panic leaves none. *)
Theorem outcomes_are_logged req (s : St) r s' :
  Process req s = (r, s') -> outcome_logged (canonical req) r s s'.
Proof.
  unfold Process, canonical. set (req' := with_method _ req). case_decide as Hm.
  - intros H. by apply processRaw_inv in H as (Ho & _).
  - destruct (isTrace _ || isTrace _); intros H.
    + by apply processTrace_inv in H as (Ho & _).
    + by apply processGeneric_inv in H as (Ho & _).
Qed.

(** A request leaves the concurrency limiter as it found it, whatever
    the outcome, a panic included: every slot taken is given back, and a
    request that is refused a slot gives none back. *)
Theorem slots_are_returned req (s : St) r s' :
  Process req s = (r, s') -> same_load (st_limiter s) (st_limiter s').
Proof.
  unfold Process. set (req' := with_method _ req). case_decide as Hm.
  - intros H. by apply processRaw_inv in H as (_ & Hl & _).
  - destruct (isTrace _ || isTrace _); intros H.
    + by apply processTrace_inv in H as (_ & Hl & _).
    + by apply processGeneric_inv in H as (_ & Hl & _).
Qed.

(** What it takes for the node to see anything of a request. *)
Definition cleared (req : ProcessRequest) (s s' : St) : Prop :=
  if decide (pq_Method req = "eth_sendRawTransaction")
  then exists raw tx res, rawGranted row1 reg iter ctx source req raw tx res s /\
         rawAdmitted p row1 ctx source approvals req res raw tx s s'
  else if isTrace (pq_Method req) || isTrace (ResolveMethodAlias reg (pq_Method req))
  then exists fws, st_node s' = (st_node s ++ fws)%list /\
         Forall (fun fw => proxy_built (pq_Params req) (fw_Body fw)) fws
  else exists res, granted row1 reg iter ctx source req res s /\ admitted p row1 reg ctx source req res s s' /\
         (ResolveMethodAlias reg (pq_Method req) = "eth_sendTransaction" ->
          complies p ctx req res (extractTxParams (pq_Params req)) s s').

Lemma alias_not_send m :
  registries_wf reg -> ResolveMethodAlias reg m = "eth_sendTransaction" -> m = "eth_sendTransaction".
Proof.
  intros Hwf H. unfold ResolveMethodAlias in H. destruct (MethodAliases reg !! m) as [t|] eqn:E; [|done].
  simpl in H. subst t. apply (wf_alias _ Hwf) in E as [_ Hv]. apply ValidateAliasTarget_Ok in Hv as [_ Hv].
  exfalso. apply Hv, contains_true. vm_compute. reflexivity.
Qed.

(** C11: Nothing reaches the node unchecked.  If a request makes the node see
    anything, then: a signed transaction was decoded, admitted by the access
    decision, preflighted when approvals are on, passed its trace gate and the
    compliance check on the decoded fields, and what was sent is the signed
    transaction as first parameter without recipients; a trace sent only
    requests built by the proxy; any other request carries no override, was
    admitted by the access decision, passed both trace gates, and was sent as
    it came (a block query rewritten to ask for whole transactions), or, for a
    transaction, with the very fields that were traced and checked and without
    the names of its recipients, preceded at most by a nonce query; and no
    alias slips a transaction past the compliance check. *)
Theorem nothing_reaches_the_node_unchecked req (s : St) r s' :
  registries_wf reg ->
  Process req s = (r, s') -> st_node s' <> st_node s -> cleared (canonical req) s s'.
Proof.
  intros Hwf. unfold Process, cleared, canonical. set (req' := with_method _ req). case_decide as Hm; intros H Hn.
  - apply processRaw_inv in H as (_ & _ & [[? _]|H]); [contradiction|exact H|exact Hm].
  - destruct (isTrace _ || isTrace _).
    + apply processTrace_inv in H as (_ & _ & _ & _ & _ & _ & [[? _]|H]); [done|].
      destruct H as (user & ms & m & cl & t' & _ & _ & _ & _ & _ & _ & _ & Hv & Ht & Hnode).
      apply traced_grew in Ht as (fws & Hf & Hb); [|done]. exists fws. by rewrite Hnode.
    + apply processGeneric_inv in H as (_ & _ & [[[? _] _]|(res & Hg & [?|Ha])]); [done..|].
      exists res. split_and!; [done..|]. intros Hs. by apply (ad_compliance _ _ _ _ _ _ _ _ _ Ha), alias_not_send.
Qed.

(** C22: Denials look alike. When the method of a request, as it is canonicalised,
    is neither eth_sendRawTransaction nor a trace, also not by an alias (whose
    refusals say more), and the request is not granted -- it carries an override,
    or the access decision fails or is not to allow -- the answer is 404 with the
    text of an unknown method, and the node, the compliance records, the outbox,
    the limiter, the breaker and the tables are as they were; only the access log
    and the caches of the decision may have changed. *)
Theorem denials_are_uniform req (s : St) r s' :
  pq_Method (canonical req) <> "eth_sendRawTransaction" ->
  isTrace (pq_Method (canonical req)) || isTrace (ResolveMethodAlias reg (pq_Method (canonical req))) = false ->
  (forall res, granted row1 reg iter ctx source (canonical req) res s -> False) ->
  Process req s = (r, s') ->
  r = Ok (Refuse 404 methodNotFound) /\ bare s s'.
Proof.
  unfold Process, canonical. set (req' := with_method _ req). intros Hm Ht Hg. rewrite decide_False by done.
  rewrite Ht. intros (_ & _ & [[Hb [Hr|[res Hr]]]|(res & Hr & _)])%processGeneric_inv.
  - split; assumption.
  - destruct (Hg res Hr).
  - destruct (Hg res Hr).
Qed.
End process.
