(* ===== verification/Finalize.v ===== *)
(** * Finalization of deployments: the goroutines of
    [internal/server/jsonrpc_processor.go] that wait for the receipt of a
    transaction and settle what it created.

    Between two attempts a goroutine sleeps while the others go on: [others] is
    whatever they do.  One attempt is one step.  A run that ends with [Err] is a
    panic, which ends the process: nothing recovers in these goroutines. *)
From S2P Require Import Prelude GoStrings Methods Models Requests OrgContext Cache Db Writes Access Trace.
From S2P Require Import Deployments Json AuditChain F64 Compliance TraceGate VisibleTo Limits Answers.
From S2P Require Import Processor Frames StrictTrace Tracer.
Local Open Scope string_scope.

(** ** Receipts *)
Record Receipt := { rc_Status : string; rc_ContractAddress : string }.
Definition decode_receipt (v : raw) (cur : Receipt) : option Receipt :=
  st ← field_str "status" v (rc_Status cur); a ← field_str "contractAddress" v (rc_ContractAddress cur);
  Some {| rc_Status := st; rc_ContractAddress := a |}.
(** the same without the address *)
Definition decode_status (v : raw) (cur : string) : option string := field_str "status" v cur.

Definition receiptQuery (txHash : string) : Forwarded :=
  {| fw_Body := {| bd_Method := "eth_getTransactionReceipt"; bd_Params := [AStr txHash];
                   bd_visibleTo := None; bd_privateFor := None |};
     fw_Header := ""; fw_APIKey := ""; fw_ClientIP := "" |}.

(** The pointer [result] of an answer without error. *)
Definition receiptOf {A} (zero : A) (f : raw -> A -> option A) (reply : NodeReply) : result A :=
  match nr_Err reply with
  | Some e => Err ("receipt RPC: " +:+ e)
  | None =>
      match v ← nr_Body reply; r ← member_struct zero f "result" v;
            e ← member_struct "" (field_str "message") "error" v; Some (r, e) with
      | None => Err "parse receipt"
      | Some (_, Some msg) => Err ("receipt RPC error: " +:+ msg)
      | Some (None, None) => Err "receipt not yet available"
      | Some (Some x, None) => Ok x
      end
  end.

(** The addresses a mined trace created, a failed creation as the empty one. *)
Definition createdIn (tr : TraceResult) : list string :=
  (fun t => ToLower (ct_To t)) <$> List.filter (fun t => contains ["CREATE"; "CREATE2"] (ct_Type t)) (tr_CallTargets tr).

Definition maxAttempts : nat := 12.
Definition slicePanic : string := "panic: slice bounds out of range [:10]".

Section finalize.
Context {C : Type} `{HN : Rpc}.
Variable row1 : forall A : Type, list A -> option A.
Variable ctx : Ctx.
Variable enabled : bool.
Variable retriable : string -> bool.
Variable node : list Forwarded -> Forwarded -> NodeReply.
(** the order a Go set is ranged over; new ids for the contract and the grant *)
Variable order : gset string -> list string.
Variable fresh : string -> string * string.
(** what happens before the attempt *)
Variable others : nat -> State C -> State C.

Notation M := (stM (State C)).

Definition getTransactionReceipt (txHash : string) : M (result string) :=
  reply ← forward node (receiptQuery txHash);
  mret (rc ← receiptOf {| rc_Status := ""; rc_ContractAddress := "" |} decode_receipt reply;
        Ok (if decide (rc_Status rc = "0x0") then "" else ToLower (rc_ContractAddress rc))).

Definition getTransactionReceiptStatus (txHash : string) : M (result bool) :=
  reply ← forward node (receiptQuery txHash);
  mret (st ← receiptOf "" decode_status reply; Ok (bool_decide (st = "0x1"))).

(** A call of the controller: its error is logged, its panic is a panic. *)
Definition callServer (m : stM Server unit) : M unit := fun s =>
  let '(r, sv) := m (st_server s) in
  (match r with Err e => if decide (e = slicePanic) then Err e else Ok tt | Ok _ => Ok tt end, set_server s sv).

Definition notify (txHash address : string) : M unit :=
  let '(contractID, grantID) := fresh address in
  callServer (NotifyDeploymentMined row1 retriable (now ctx) contractID grantID txHash address).

(** The loop: [Next] is another attempt. *)
Fixpoint attempts {A} (step : M (phase A unit)) (n i : nat) (exhausted : M A) : M A :=
  match n with
  | 0 => exhausted
  | S n =>
      fun s => (r ← step; match r with Done a => mret a | Next _ => attempts step n (S i) exhausted end)
                 (others i s)
  end.

Definition pollAndFinalizePlainCreate (txHash preRegisteredAddr : string) : M unit :=
  attempts
    (receipt ← getTransactionReceipt txHash;
     match receipt with
     | Err _ => mret (Next tt)
     | Ok address => _ ← notify txHash address; mret (Done tt)
     end) maxAttempts 0
    (deletePreregistered [preRegisteredAddr]).

(** The addresses that were created: the approved ones, or those of the mined
    trace, or the expected ones when there is none. *)
Definition actualAddrs (txHash : string) (preRegAddrs : list string) (approved : option (gset string)) : gset string :=
  match approved with
  | Some a => a
  | None =>
      match rtTraceMinedTransaction enabled txHash with
      | Traced (Some tr) => list_to_set (createdIn tr)
      | _ => list_to_set preRegAddrs
      end
  end.

(** A contract the simulation did not announce. *)
Definition registerDiverged (orgID userID address : string) : M unit :=
  let '(contractID, grantID) := fresh address in
  if Nat.ltb (String.length address) 10 then Prelude.fail slicePanic
  else
    created ← tryStore (db_CreateContract
      {| c_ID := contractID; c_OrgID := orgID; c_Address := address; c_ABI := "";
         c_DeployedByUserID := if decide (userID = "") then None else Some userID;
         c_AllowVisibleToUnlock := false |});
    if negb created || bool_decide (userID = "") then mret tt
    else
      granted ← tryStore (db_GrantContractToDeployerGroup row1 (now ctx) retriable grantID orgID contractID userID);
      if (granted : bool) then callServer (ctl_InvalidateUser userID) else mret tt.

Definition track (txHash orgID userID address : string) : M unit :=
  modify (fun s => set_server s (TrackPlainCreateDeployment (now ctx) txHash orgID userID address (st_server s))).

Fixpoint finalizeEach (txHash orgID userID : string) (preRegAddrs addrs : list string) : M unit :=
  match addrs with
  | [] => mret tt
  | address :: addrs =>
      _ ← (if contains preRegAddrs address
           then _ ← track txHash orgID userID address; notify txHash address
           else registerDiverged orgID userID address);
      finalizeEach txHash orgID userID preRegAddrs addrs
  end.

Definition reconcile (txHash : string) (preRegAddrs : list string) (orgID userID : string)
  (approved : option (gset string)) : M unit :=
  let actual := actualAddrs txHash preRegAddrs approved in
  _ ← finalizeEach txHash orgID userID preRegAddrs (order actual);
  deletePreregistered (List.filter (fun a => negb (bool_decide (a ∈ actual))) preRegAddrs).

Definition pollAndFinalizeRuntimeCreates (txHash : string) (preRegAddrs : list string) (orgID userID : string)
  (approved : option (gset string)) : M unit :=
  attempts
    (receipt ← getTransactionReceiptStatus txHash;
     match receipt with
     | Err _ => mret (Next tt)
     | Ok success =>
         _ ← (if success : bool then reconcile txHash preRegAddrs orgID userID approved
              else deletePreregistered preRegAddrs);
         mret (Done tt)
     end) maxAttempts 0
    (deletePreregistered preRegAddrs).
End finalize.
