(* ===== verification/FinalizeProps.v ===== *)
(** * What waiting for a receipt leaves behind. *)
From S2P Require Import Prelude GoStrings Methods Models Requests OrgContext Cache Db Writes Access Trace.
From S2P Require Import Deployments Json AuditChain F64 Compliance TraceGate VisibleTo Limits Answers.
From S2P Require Import Processor ProcessorProps Frames StrictTrace Tracer Finalize.
Local Open Scope string_scope.

(** ** Tables: pre-registrations are only removed, faults stay as they are *)
Definition spends (t t' : Tables) : Prop :=
  db_fault (t_db t') = db_fault (t_db t) /\
  forall p, p ∈ db_preregistered_addresses (t_db t') -> p ∈ db_preregistered_addresses (t_db t).
#[export] Instance spends_preorder : PreOrder spends.
Proof. split; [by intros t|]. intros t1 t2 t3 [E1 H1] [E2 H2]. split; [congruence|auto]. Qed.

Lemma spends_exec name msg v f :
  (forall t, spends t {| t_db := f (t_db t); t_cache := t_cache t |}) -> keeps spends (exec name msg v f).
Proof. intros Hf s r s'. unfold exec. destruct (query _ _ _ _); [destruct (v _)|]; intros [= <- <-]; auto; reflexivity. Qed.
Lemma spends_cacheExec name msg f : keeps spends (cacheExec name msg f).
Proof. intros s r s'. unfold cacheExec. by destruct (query _ _ _ _); intros [= <- <-]. Qed.
Lemma spends_WithTx {A} (m : stM Tables A) : keeps spends m -> keeps spends (WithTx m).
Proof.
  intros Hm s r s'. unfold WithTx. destruct (query _ "BeginTx" _ _); [|intros [= <- <-]; reflexivity].
  destruct (m s) as [[x|e] s1] eqn:E; [|intros [= <- <-]; reflexivity].
  destruct (query _ _ _ _); intros [= <- <-]; [by eapply Hm|reflexivity].
Qed.
Lemma spends_withRetry {A} retriable n last (m : stM Tables A) : keeps spends m -> keeps spends (withRetry retriable n last m).
Proof.
  intros Hm. revert last. induction n as [|n IH]; intros last s r s'; simpl; [intros [= <- <-]; reflexivity|].
  destruct (m s) as [[x|e] s1] eqn:E; [|destruct (retriable e)]; intros H; simplify_eq; [by eapply Hm| |by eapply Hm].
  etrans; [by eapply Hm|by eapply IH].
Qed.
Lemma spends_create c : keeps spends (db_CreateContract c).
Proof. apply spends_exec. done. Qed.
Lemma spends_delete a : keeps spends (db_DeletePreregisteredAddressByAddress a).
Proof.
  apply spends_exec. intros t. split; [done|]. intros p. simpl. rewrite !list_elem_of_In, filter_In. naive_solver.
Qed.
Lemma spends_grant row1 now retriable g o c u : keeps spends (db_GrantContractToDeployerGroup row1 now retriable g o c u).
Proof.
  apply spends_withRetry, spends_WithTx. intros s r s'. destruct (query _ _ _ _) as [[x|]|].
  - apply spends_exec. intros t. unfold insertGrant. by repeat case_match.
  - intros [= <- <-]. reflexivity.
  - intros [= <- <-]. reflexivity.
Qed.
Lemma spends_invalidate u : keeps spends (db_InvalidateCacheForUser u).
Proof. apply spends_WithTx, keeps_bind; [apply _|apply spends_cacheExec|intros; apply spends_cacheExec]. Qed.

(** ** The server *)
Definition sv_spends (s s' : Server) : Prop := spends (sv_tables s) (sv_tables s').
#[export] Instance sv_spends_preorder : PreOrder sv_spends.
Proof. split; [intros s; unfold sv_spends; reflexivity|intros s1 s2 s3; unfold sv_spends; apply transitivity]. Qed.

Lemma sv_store {A} (m : stM Tables A) : keeps spends m -> keeps sv_spends (storeCall m).
Proof. intros Hm s r s'. unfold storeCall. destruct (m _) as [x t] eqn:E. intros [= <- <-]. by eapply Hm. Qed.
Lemma sv_attempt {A} (m : stM Server A) : keeps sv_spends m -> keeps sv_spends (attempt m).
Proof. intros Hm s r s'. unfold attempt. destruct (m s) as [x t] eqn:E. intros [= <- <-]. by eapply Hm. Qed.
Lemma sv_invalidate u : keeps sv_spends (ctl_InvalidateUser u).
Proof. intros s r s' H. apply (sv_store _ (spends_invalidate u) _ _ _ H). Qed.
#[export] Hint Resolve spends_create spends_delete spends_grant sv_store sv_attempt sv_invalidate : runs.

Lemma sv_registerMined row1 retriable now cid gid a d : keeps sv_spends (registerMined row1 retriable now cid gid a d).
Proof. unfold registerMined. keeps. Qed.
#[export] Hint Resolve sv_registerMined : runs.

Lemma sv_notify row1 retriable now cid gid h a : keeps sv_spends (NotifyDeploymentMined row1 retriable now cid gid h a).
Proof.
  intros s r s'. unfold NotifyDeploymentMined. destruct (Tracker_Get _ _) as [d t].
  assert (H0 : sv_spends s (set_tracker s t)) by done.
  destruct d as [d|]; [|by intros [= <- <-]]. destruct (_ || _); [by intros [= <- <-]|].
  case_decide; [|destruct (Nat.ltb _ _); [by intros [= <- <-]|]]; intros Hm; (etrans; [exact H0|]); revert Hm.
  - apply keeps_bind; [apply _| |]; keeps.
  - apply keeps_bind; [apply _| |]; keeps.
Qed.

(** After a notification the tracked address is no longer pre-registered. *)
Definition absent (a : string) (t : Tables) : Prop :=
  forall p, p ∈ db_preregistered_addresses (t_db t) -> lower_is a (pa_Address p) = false.
Lemma absent_spends a t t' : spends t t' -> absent a t -> absent a t'.
Proof. intros [_ H] Ha p Hp. by apply Ha, H. Qed.

Lemma delete_absent a t r t' :
  no_fault (t_db t) -> db_DeletePreregisteredAddressByAddress a t = (r, t') -> absent a t'.
Proof.
  intros Hn. unfold db_DeletePreregisteredAddressByAddress. rewrite exec_runs by done. intros [= _ <-] p. simpl.
  rewrite list_elem_of_In, filter_In. intros [_ H]. by destruct (lower_is _ _).
Qed.
Lemma spends_no_fault t t' : spends t t' -> no_fault (t_db t) -> no_fault (t_db t').
Proof. intros [E _] H name. by rewrite E. Qed.

Lemma notify_absent row1 retriable now cid gid h a d s r s' :
  no_fault (t_db (sv_tables s)) -> h <> "" -> tk_pending (sv_tracker s) !! h = Some d ->
  dp_IsPlainCreate d = true -> dp_PreRegisteredAddr d <> "" -> a <> "" -> 10 <= String.length a ->
  NotifyDeploymentMined row1 retriable now cid gid h a s = (r, s') ->
  r = Ok tt /\ absent (dp_PreRegisteredAddr d) (sv_tables s').
Proof.
  intros Hn Hh Hd Hp Hne Ha Hl. unfold NotifyDeploymentMined. rewrite (Tracker_Get_hit _ _ _ Hh Hd).
  rewrite Hp, bool_decide_false by done. simpl. rewrite decide_False by done.
  destruct (Nat.ltb_spec (String.length a) 10); [lia|]. set (s0 := set_tracker s _).
  destruct (registerMined row1 retriable now cid gid a d s0) as [[[]|e] s1] eqn:E1.
  2:{ exfalso. revert E1. unfold registerMined, mbind, stM_bind, attempt. repeat case_match; simplify_eq/=; done. }
  assert (Hs : spends (sv_tables s0) (sv_tables s1)) by (apply (sv_registerMined _ _ _ _ _ _ _ _ _ _ E1)).
  unfold mbind, stM_bind. rewrite E1. unfold attempt, storeCall.
  destruct (db_DeletePreregisteredAddressByAddress _ _) as [x t] eqn:E2. intros [= <- <-]. split; [done|]. simpl.
  eapply delete_absent; [|exact E2]. by eapply spends_no_fault.
Qed.

(** A notification consumes the entry of its transaction. *)
Definition untracked (h : string) (s : Server) : Prop := tk_pending (sv_tracker s) !! h = None.
Definition sv_untracked (h : string) (s s' : Server) : Prop := untracked h s -> untracked h s'.
#[export] Instance sv_untracked_preorder h : PreOrder (sv_untracked h).
Proof. split; [intros s; by unfold sv_untracked|intros s1 s2 s3; unfold sv_untracked; auto]. Qed.
Lemma untracked_store {A} h (m : stM Tables A) : keeps (sv_untracked h) (storeCall m).
Proof. intros s r s'. unfold storeCall. destruct (m _) as [x t]. by intros [= <- <-] Hu. Qed.
Lemma untracked_attempt {A} h (m : stM Server A) : keeps (sv_untracked h) m -> keeps (sv_untracked h) (attempt m).
Proof. intros Hm s r s'. unfold attempt. destruct (m s) as [x t] eqn:E. intros [= <- <-]. by eapply Hm. Qed.
Lemma untracked_invalidate h u : keeps (sv_untracked h) (ctl_InvalidateUser u).
Proof. intros s r s' H. by apply (untracked_store h _ _ _ _ H). Qed.
Local Hint Resolve untracked_store untracked_attempt untracked_invalidate : runs.
Lemma untracked_registerMined row1 retriable now h cid gid a d :
  keeps (sv_untracked h) (registerMined row1 retriable now cid gid a d).
Proof. unfold registerMined. keeps. Qed.
Local Hint Resolve untracked_registerMined : runs.

Lemma notify_consumes row1 retriable now cid gid h a s r s' :
  h <> "" -> NotifyDeploymentMined row1 retriable now cid gid h a s = (r, s') -> untracked h s'.
Proof.
  intros Hh. unfold NotifyDeploymentMined. destruct (Tracker_Get h (sv_tracker s)) as [d t] eqn:E.
  assert (Hu : untracked h (set_tracker s t)).
  { revert E. unfold Tracker_Get, untracked. rewrite decide_False by done.
    destruct (tk_pending _ !! h) eqn:El; intros [= <- <-]; simpl; [apply lookup_delete_eq|done]. }
  destruct d as [d|]; [|by intros [= <- <-]]. destruct (_ || _); [by intros [= <- <-]|].
  revert Hu. case_decide; [|destruct (Nat.ltb _ _)]; intros Hu Hm.
  - revert Hm Hu. apply (keeps_bind (sv_untracked h)); keeps.
  - by injection Hm as <- <-.
  - revert Hm Hu. apply (keeps_bind (sv_untracked h)); keeps.
Qed.

(** ** The goroutines *)
Section props.
Context {C : Type} `{HN : Rpc}.
Context (row1 : forall A : Type, list A -> option A) (ctx : Ctx) (enabled : bool) (retriable : string -> bool)
  (node : list Forwarded -> Forwarded -> NodeReply) (order : gset string -> list string)
  (fresh : string -> string * string) (others : nat -> State C -> State C).

Notation St := (State C).
Definition st_spends (s s' : St) : Prop := spends (tablesOf s) (tablesOf s').
#[local] Instance st_spends_preorder : PreOrder st_spends.
Proof. split; [intros s; unfold st_spends; reflexivity|intros s1 s2 s3; unfold st_spends; apply transitivity]. Qed.

Lemma st_forward fw : keeps st_spends (forward node fw).
Proof. intros s r s' [= <- <-]. unfold st_spends. reflexivity. Qed.
Lemma st_tryStore (m : stM Tables unit) : keeps spends m -> keeps st_spends (tryStore m).
Proof. intros Hm s r s'. unfold tryStore. destruct (m _) as [x t] eqn:E. intros [= <- <-]. by eapply Hm. Qed.
Lemma st_callServer m : keeps sv_spends m -> keeps st_spends (callServer m).
Proof.
  intros Hm s r s'. unfold callServer. destruct (m _) as [x t] eqn:E. intros [= _ <-].
  exact (Hm _ _ _ E).
Qed.
Lemma st_track h o u a : keeps st_spends (track ctx h o u a).
Proof.
  apply keeps_modify. intros s. unfold st_spends, tablesOf, TrackPlainCreateDeployment. simpl.
  destruct (contains _ _); reflexivity.
Qed.
Local Hint Resolve st_forward st_tryStore st_callServer st_track sv_notify : runs.

Lemma st_notify h a : keeps st_spends (notify row1 ctx retriable fresh h a).
Proof. unfold notify. destruct (fresh a). keeps. Qed.
Lemma st_delete l : keeps st_spends (deletePreregistered l).
Proof. induction l; simpl; keeps. Qed.
Lemma st_diverged o u a : keeps st_spends (registerDiverged row1 ctx retriable fresh o u a).
Proof. unfold registerDiverged. destruct (fresh a). keeps. Qed.
Local Hint Resolve st_notify st_delete st_diverged : runs.
Lemma st_finalizeEach h o u pre l : keeps st_spends (finalizeEach row1 ctx retriable fresh h o u pre l).
Proof. induction l; simpl; keeps. Qed.
Local Hint Resolve st_finalizeEach : runs.

Definition steady (s : St) : Prop := no_fault (t_db (tablesOf s)).
Lemma steady_spends s s' : st_spends s s' -> steady s -> steady s'.
Proof. apply spends_no_fault. Qed.

Lemma delete_all_absent l (s s' : St) r a :
  steady s -> deletePreregistered l s = (r, s') -> a ∈ l -> absent a (tablesOf s').
Proof.
  revert s. induction l as [|b l IH]; intros s Hs H Ha; [by apply elem_of_nil in Ha|]. simpl in H.
  apply st_bind_inv in H as [(x & s1 & Hd & H)|(e & Hd & _)]; [|unfold tryStore in Hd; by destruct (db_DeletePreregisteredAddressByAddress _ _)].
  assert (H1 : st_spends s s1) by (apply (st_tryStore _ (spends_delete b) _ _ _ Hd)).
  apply elem_of_cons in Ha as [->|Ha].
  - eapply absent_spends; [by apply (st_delete _ _ _ _ H)|]. unfold tryStore in Hd.
    destruct (db_DeletePreregisteredAddressByAddress b _) as [y t] eqn:E. injection Hd as _ <-.
    by eapply delete_absent.
  - by eapply IH; [eapply steady_spends|..].
Qed.

Lemma deletePreregistered_ends l (s s' : St) r : deletePreregistered l s = (r, s') -> r = Ok tt.
Proof.
  revert s. induction l as [|b l IH]; intros s H; simpl in H; [by injection H as <- _|].
  apply st_bind_inv in H as [(x & s1 & _ & H)|(e & Hd & _)]; [by eapply IH|].
  unfold tryStore in Hd. by destruct (db_DeletePreregisteredAddressByAddress _ _).
Qed.

(** An announced address, tracked and notified. *)
Lemma tracked_notify h o u a (s s' : St) r :
  steady s -> h <> "" -> o <> "" -> a <> "" ->
  (_ ← track ctx h o u a; notify row1 ctx retriable fresh h a) s = (r, s') ->
  (r = Ok tt <-> 10 <= String.length a) /\ (r = Ok tt -> absent a (tablesOf s')).
Proof.
  intros Hs Hh Ho Ha. unfold mbind, stM_bind, track, modify, notify. destruct (fresh a) as [cid gid].
  unfold TrackPlainCreateDeployment. replace (contains [h; o; a] "") with false.
  2:{ symmetry. apply contains_false. set_solver. }
  unfold callServer. simpl st_server. set (d := {| dp_TxHash := h |}). set (s1 := set_tracker _ _).
  assert (Hd : tk_pending (sv_tracker s1) !! h = Some d).
  { unfold s1, Tracker_Track. simpl. rewrite decide_False by done. simpl. apply lookup_insert_eq. }
  destruct (Nat.ltb_spec (String.length a) 10) as [Hl|Hl].
  - assert (E : exists s2, NotifyDeploymentMined row1 retriable (now ctx) cid gid h a s1 = (Err slicePanic, s2)).
    { unfold NotifyDeploymentMined. rewrite (Tracker_Get_hit _ _ _ Hh Hd). simpl. rewrite bool_decide_false by done.
      simpl. rewrite decide_False by done. destruct (Nat.ltb_spec (String.length a) 10); [|lia]. eauto. }
    destruct E as [s2 ->]. intros [= <- <-]. split; [|done]. split; [done|lia].
  - destruct (NotifyDeploymentMined _ _ _ _ _ _ _ _) as [x s2] eqn:E.
    destruct (notify_absent row1 retriable (now ctx) cid gid h a d s1 x s2 Hs Hh Hd eq_refl Ha Ha Hl E) as [-> Hab].
    intros [= <- <-]. done.
Qed.

Lemma invalidate_ends u (s : St) : steady s -> fst (callServer (ctl_InvalidateUser u) s) = Ok tt.
Proof. intros Hs. unfold callServer, ctl_InvalidateUser, storeCall. simpl. by rewrite invalidateUser_runs. Qed.

Lemma diverged_ends o u a (s s' : St) r :
  steady s -> registerDiverged row1 ctx retriable fresh o u a s = (r, s') -> (r = Ok tt <-> 10 <= String.length a).
Proof.
  intros Hs. unfold registerDiverged. destruct (fresh a) as [cid gid].
  destruct (Nat.ltb_spec (String.length a) 10) as [Hl|Hl]; [intros [= <- <-]; split; [done|lia]|].
  intros H. split; [done|intros _].
  apply st_bind_inv in H as [(x & s1 & Hc & H)|(e & Hc & _)]; [|unfold tryStore in Hc; by destruct (db_CreateContract _ _)].
  destruct (_ || _); [by injection H as <- _|].
  apply st_bind_inv in H as [(y & s2 & Hg & H)|(e & Hg & _)].
  2:{ unfold tryStore in Hg. by destruct (db_GrantContractToDeployerGroup _ _ _ _ _ _ _ _). }
  destruct y; [|by injection H as <- _].
  assert (H2 : steady s2).
  { eapply steady_spends, steady_spends, Hs; [by apply (st_tryStore _ (spends_grant _ _ _ _ _ _ _) _ _ _ Hg)|].
    by apply (st_tryStore _ (spends_create _) _ _ _ Hc). }
  pose proof (invalidate_ends u s2 H2) as Hx. by rewrite H in Hx.
Qed.

(** One address of the mined transaction. *)
Definition finalizeOne h o u pre a : stM St unit :=
  if contains pre a then _ ← track ctx h o u a; notify row1 ctx retriable fresh h a
  else registerDiverged row1 ctx retriable fresh o u a.
Lemma st_finalizeOne h o u pre a : keeps st_spends (finalizeOne h o u pre a).
Proof. unfold finalizeOne. keeps. Qed.
Local Hint Resolve st_finalizeOne : runs.

Lemma finalizeOne_ends h o u pre a (s s' : St) r :
  steady s -> h <> "" -> o <> "" -> "" ∉ pre -> finalizeOne h o u pre a s = (r, s') ->
  (r = Ok tt <-> 10 <= String.length a) /\ (r = Ok tt -> a ∈ pre -> absent a (tablesOf s')).
Proof.
  intros Hs Hh Ho Hpre. unfold finalizeOne. destruct (contains pre a) eqn:E.
  - apply contains_true in E. assert (a <> "") by (by intros ->).
    intros H0. destruct (tracked_notify h o u a s s' r) as [H1 H2]; auto.
  - intros H0. split; [by eapply diverged_ends|]. intros _ Hin. apply contains_true in Hin. congruence.
Qed.

Lemma finalizeEach_ends h o u pre l (s s' : St) r :
  steady s -> h <> "" -> o <> "" -> "" ∉ pre -> finalizeEach row1 ctx retriable fresh h o u pre l s = (r, s') ->
  (r = Ok tt <-> Forall (fun a => 10 <= String.length a) l) /\
  (r = Ok tt -> forall a, a ∈ l -> a ∈ pre -> absent a (tablesOf s')).
Proof.
  intros Hs Hh Ho Hpre. revert s Hs. induction l as [|a l IH]; intros s Hs H; simpl in H.
  - injection H as <- <-. split; [done|]. by intros _ a Ha%elem_of_nil.
  - fold (finalizeOne h o u pre a) in H.
    apply st_bind_inv in H as [([] & s1 & H1 & H)|(e & H1 & ->)].
    2:{ apply finalizeOne_ends in H1 as [Hiff _]; [|done..]. split; [|done]. split; [done|].
        intros [Ha _]%Forall_cons. by apply Hiff in Ha. }
    pose proof (st_finalizeOne _ _ _ _ _ _ _ _ H1) as Hsp.
    apply finalizeOne_ends in H1 as [Hiff Hab]; [|done..].
    pose proof (st_finalizeEach _ _ _ _ _ _ _ _ H) as Hsp'.
    apply IH in H as [Hiff' Hab']; [|by eapply steady_spends]. split.
    + rewrite Hiff', Forall_cons. naive_solver.
    + intros -> b [->|Hb]%elem_of_cons Hin; [|by apply Hab'].
      by eapply absent_spends, Hab.
Qed.

(** ** Reconciliation *)
Context (order_enumerates : forall (X : gset string) a, a ∈ order X <-> a ∈ X).

Lemma reconcile_ends h pre o u approved (s s' : St) r :
  steady s -> h <> "" -> o <> "" -> "" ∉ pre ->
  reconcile row1 ctx enabled retriable order fresh h pre o u approved s = (r, s') ->
  (r = Ok tt <-> forall a, a ∈ actualAddrs enabled h pre approved -> 10 <= String.length a) /\
  (r = Ok tt -> forall a, a ∈ pre -> absent a (tablesOf s')).
Proof.
  intros Hs Hh Ho Hpre H. unfold reconcile in H.
  apply st_bind_inv in H as [([] & s1 & H1 & H)|(e & H1 & ->)].
  all: pose proof (st_finalizeEach _ _ _ _ _ _ _ _ H1) as Hsp.
  all: apply finalizeEach_ends in H1 as [Hiff Hab]; [|done..].
  all: rewrite Forall_forall in Hiff; setoid_rewrite order_enumerates in Hiff.
  2:{ done. }
  assert (Hr : r = Ok tt) by (by eapply deletePreregistered_ends).
  split; [naive_solver|]. intros _ a Ha.
  destruct (decide (a ∈ actualAddrs enabled h pre approved)) as [Hin|Hout].
  - eapply absent_spends; [by apply (st_delete _ _ _ _ H)|]. apply Hab; [done| |done]. by apply order_enumerates.
  - eapply delete_all_absent; [|exact H|]; [by eapply steady_spends|].
    apply list_elem_of_In, filter_In. split; [by apply list_elem_of_In|]. by rewrite bool_decide_false.
Qed.

(** ** The attempts
    A property of every state an attempt starts from, which the other goroutines
    keep, holds wherever the loop ends; what an attempt or the clean-up achieves
    holds of the final state. *)
Lemma attempts_end {A} (I : St -> Prop) (Q : result A -> St -> Prop) step n i (exhausted : stM St A) :
  (forall j s, I s -> I (others j s)) ->
  (forall s r s', I s -> step s = (r, s') ->
     match r with Ok (Next _) => I s' | Ok (Done x) => Q (Ok x) s' | Err e => Q (Err e) s' end) ->
  (forall s r s', I s -> exhausted s = (r, s') -> Q r s') ->
  forall s r s', I s -> attempts others step n i exhausted s = (r, s') -> Q r s'.
Proof.
  intros Ho Hs He. revert i. induction n as [|n IH]; intros i s r s' HI H; simpl in H; [by eapply He|].
  apply st_bind_inv in H as [(x & s1 & H1 & H)|(e & H1 & ->)].
  - pose proof (Hs _ _ _ (Ho i s HI) H1) as Hx. destruct x as [a|[]].
    + by injection H as <- <-.
    + by eapply IH.
  - exact (Hs _ _ _ (Ho i s HI) H1).
Qed.

Lemma receiptStatus_ends h (s s' : St) r :
  getTransactionReceiptStatus node h s = (r, s') -> (exists x, r = Ok x) /\ st_spends s s'.
Proof.
  unfold getTransactionReceiptStatus, forward, mbind, stM_bind. simpl. intros [= <- <-]. split; [eauto|].
  unfold st_spends. reflexivity.
Qed.

Context (others_steady : forall i s, steady s -> steady (others i s)).


Lemma failed_creation_listed tr t :
  t ∈ tr_CallTargets tr -> ct_Type t ∈ ["CREATE"; "CREATE2"] -> ct_To t = "" -> "" ∈ createdIn tr.
Proof.
  intros Ht Hty Hto. unfold createdIn. apply list_elem_of_fmap. exists t. rewrite Hto. split; [done|].
  apply list_elem_of_In, filter_In. split; [by apply list_elem_of_In|]. by apply contains_true.
Qed.

(** A creation that failed inside a successful transaction has no address in the
    mined trace, and the goroutine that names it panics: nothing recovers, so
    the process ends. *)
Theorem failed_creation_ends_the_process h pre o u tr t (s : St) :
  steady s -> h <> "" -> o <> "" -> "" ∉ pre ->
  fst (getTransactionReceiptStatus node h (others 0 s)) = Ok (Ok true) ->
  rtTraceMinedTransaction enabled h = Traced (Some tr) ->
  t ∈ tr_CallTargets tr -> ct_Type t ∈ ["CREATE"; "CREATE2"] -> ct_To t = "" ->
  exists e, fst (pollAndFinalizeRuntimeCreates row1 ctx enabled retriable node order fresh others h pre o u None s) = Err e.
Proof.
  intros Hs Hh Ho Hpre Hok Htr Ht Hty Hto.
  destruct (pollAndFinalizeRuntimeCreates _ _ _ _ _ _ _ _ _ _ _ _ _ s) as [[[]|e] s'] eqn:E; [exfalso|simpl; eauto].
  unfold pollAndFinalizeRuntimeCreates, maxAttempts in E. cbn [attempts] in E.
  apply st_bind_inv in E as [(x & s1 & H & E)|(e & H & [=])].
  apply st_bind_inv in H as [(y & s2 & H1 & H)|(e & H1 & [=])].
  rewrite H1 in Hok. injection Hok as ->. apply receiptStatus_ends in H1 as [_ Hsp].
  apply st_bind_inv in H as [([] & s3 & H2 & H)|(e & H2 & [=])].
  apply reconcile_ends in H2 as [Hiff _]; [|by eapply steady_spends, others_steady|done..].
  specialize (proj1 Hiff eq_refl "") as Hlen.
  cut (10 <= String.length ""); [simpl; lia|]. apply Hlen. unfold actualAddrs. rewrite Htr.
  apply elem_of_list_to_set. by eapply failed_creation_listed.
Qed.

(** The two goroutines of one transaction share the tracker entry of its hash:
    once the runtime one has settled an inner creation, the notification of the
    outer one finds nothing and changes nothing, so the deployed contract is not
    registered and its pre-registration stays. *)
Theorem pollers_share_one_entry h o u inner (s s1 : St) r outer :
  h <> "" -> o <> "" -> inner <> "" ->
  (_ ← track ctx h o u inner; notify row1 ctx retriable fresh h inner) s = (r, s1) ->
  notify row1 ctx retriable fresh h outer s1 = (Ok tt, s1).
Proof.
  intros Hh Ho Ha. unfold mbind, stM_bind, track, modify, notify. destruct (fresh inner) as [cid gid].
  unfold TrackPlainCreateDeployment. replace (contains [h; o; inner] "") with false.
  2:{ symmetry. apply contains_false. set_solver. }
  unfold callServer. simpl st_server. set (d := {| dp_TxHash := h |}). set (s0 := set_tracker _ _).
  destruct (NotifyDeploymentMined row1 retriable (now ctx) cid gid h inner s0) as [x s2] eqn:E.
  intros [= _ <-]. destruct (fresh outer) as [cid' gid']. simpl st_server.
  assert (Hnone : tk_pending (sv_tracker s2) !! h = None).
  { apply notify_consumes in E; [|done]. exact E. }
  unfold NotifyDeploymentMined, Tracker_Get. rewrite decide_False by done. rewrite Hnone.
  f_equal. destruct s; unfold set_server, set_tracker; simpl. by destruct s2.
Qed.
End props.
