(* ===== verification/Programs.v ===== *)
(** * Programs over atomic operations, and their interleavings.

    A handler is a program: a tree of operations [Vis] of a signature [E], clock
    readings and random identifiers, that ends with an answer or an error.  A
    [Machine] says how the operations act on a shared world, and a configuration
    is that world with the calls in progress.  A step is one operation of one
    call, a new call, or a change by the rest of the system ([m_other]).  [safe]
    is the part of an invariant proof that is about one program: before each of
    its operations the others may have run, so only what [m_rely] keeps is known. *)
From S2P Require Import Prelude.
Local Open Scope string_scope.

Inductive prog (E : Type -> Type) (A : Type) : Type :=
| Ret (r : result A)
| Vis {X : Type} (e : E X) (k : result X -> prog E A)
| Clock (k : Z -> prog E A)
| Fresh (k : string -> prog E A).
Arguments Ret {E A} r.
Arguments Vis {E A X} e k.
Arguments Clock {E A} k.
Arguments Fresh {E A} k.

Section programs.
Context {E : Type -> Type}.

Fixpoint prog_bind_ {A B} (f : A -> prog E B) (p : prog E A) : prog E B :=
  match p with
  | Ret (Ok a) => f a
  | Ret (Err e) => Ret (Err e)
  | Vis e k => Vis e (fun x => prog_bind_ f (k x))
  | Clock k => Clock (fun t => prog_bind_ f (k t))
  | Fresh k => Fresh (fun u => prog_bind_ f (k u))
  end.
#[export] Instance prog_ret : MRet (prog E) := fun A a => Ret (Ok a).
#[export] Instance prog_bind : MBind (prog E) := @prog_bind_.

(** A caller that looks at the error itself. *)
Fixpoint handle {A B} (p : prog E A) (h : result A -> prog E B) : prog E B :=
  match p with
  | Ret r => h r
  | Vis e k => Vis e (fun x => handle (k x) h)
  | Clock k => Clock (fun t => handle (k t) h)
  | Fresh k => Fresh (fun u => handle (k u) h)
  end.

Definition raise {A} (e : string) : prog E A := Ret (Err e).
Definition lifted {A} (r : result A) : prog E A := Ret r.
(** [fmt.Errorf(msg + ": %w", err)] around an operation; an empty [msg] returns the error as it is *)
Definition call {X} (msg : string) (e : E X) : prog E X :=
  Vis e (fun x => Ret (if bool_decide (msg = "") then x else wrap msg x)).
Definition now : prog E Z := Clock (fun t => Ret (Ok t)).
Definition newUUID : prog E string := Fresh (fun u => Ret (Ok u)).
(** The error of an operation is logged and dropped. *)
Definition best_effort {X} (e : E X) : prog E unit := Vis e (fun _ => Ret (Ok tt)).

(** ** Every operation of a program *)
Section every.
Variable P : forall X, E X -> Prop.
Fixpoint every {A} (p : prog E A) : Prop :=
  match p with
  | Ret _ => True
  | Vis e k => P _ e /\ forall x, every (k x)
  | Clock k => forall t, every (k t)
  | Fresh k => forall u, every (k u)
  end.
Lemma every_bind {A B} (f : A -> prog E B) p : every p -> (forall a, every (f a)) -> every (p ≫= f).
Proof.
  intros Hp Hf. induction p as [[a|e]|X e k IH|k IH|k IH]; cbn in *; auto.
  destruct Hp as [He Hk]. split; auto.
Qed.
Lemma every_handle {A B} (h : result A -> prog E B) p : every p -> (forall r, every (h r)) -> every (handle p h).
Proof.
  intros Hp Hf. induction p as [r|X e k IH|k IH|k IH]; cbn in *; auto.
  destruct Hp as [He Hk]. split; auto.
Qed.
Lemma every_call {X} msg (e : E X) : P _ e -> every (call msg e).
Proof. by split. Qed.
Lemma every_best_effort {X} (e : E X) : P _ e -> every (best_effort e).
Proof. by split. Qed.
Lemma every_ret {A} (a : A) : every (mret a).
Proof. done. Qed.
Lemma every_raise {A} e : every (@raise A e).
Proof. done. Qed.
Lemma every_lifted {A} (r : result A) : every (lifted r).
Proof. done. Qed.
Lemma every_now : every now.
Proof. done. Qed.
Lemma every_newUUID : every newUUID.
Proof. done. Qed.
End every.

Lemma every_mono (P P' : forall X, E X -> Prop) {A} (p : prog E A) :
  (forall X e, P X e -> P' X e) -> every P p -> every P' p.
Proof. intros HP. induction p; simpl; auto. intros []. split; auto. Qed.
End programs.

Create HintDb every.
#[export] Hint Resolve every_call every_best_effort every_ret every_raise every_lifted every_now every_newUUID : every.

Ltac head_of p := lazymatch p with ?f _ => head_of f | ?f => f end.

(** Goes through a program; what is left are the operations. *)
Ltac every :=
  repeat first
    [ progress intros
    | solve [eauto with every]
    | match goal with
      | |- every _ (mbind _ _) => apply every_bind
      | |- every _ (handle _ _) => apply every_handle
      | |- every _ (call _ _) => apply every_call
      | |- every _ (best_effort _) => apply every_best_effort
      end
    | case_decide
    | match goal with
      | |- every _ (match ?x with _ => _ end) => destruct x
      | |- every _ (let '_ := ?x in _) => destruct x
      | |- every _ ?p => let f := head_of p in unfold f
      end ].

(** ** Machines *)
Class Machine (E : Type -> Type) (W Ch : Type) := {
  (** the operation of the call at this position, under this choice of the environment *)
  m_exec : forall X, nat -> Ch -> E X -> W -> result X * W;
  m_clock : W -> Z;
  (** a random value, if the world may still draw it *)
  m_draw : nat -> W -> string -> option W;
  m_other : W -> W -> Prop;
  (** what every step keeps, and what the steps of everybody else keep for one call *)
  m_later : W -> W -> Prop;
  m_rely : nat -> W -> W -> Prop }.
Arguments m_exec {E W Ch _ X} i c e w.
#[global] Hint Mode Machine - + - : typeclass_instances.

Class MachineLaws {E W Ch} (M : Machine E W Ch) : Prop := {
  later_order :: PreOrder (m_later (W := W));
  rely_order me :: PreOrder (m_rely (W := W) me);
  rely_later me (w w' : W) : m_rely me w w' -> m_later w w';
  exec_later_ {X} i c (e : E X) (w : W) x w' : m_exec i c e w = (x, w') -> m_later w w';
  exec_rely {X} i me c (e : E X) (w : W) x w' : i <> me -> m_exec i c e w = (x, w') -> m_rely me w w';
  draw_later i (w : W) u w' : m_draw i w u = Some w' -> m_later w w';
  draw_rely i me (w : W) u w' : i <> me -> m_draw i w u = Some w' -> m_rely me w w';
  other_rely me (w w' : W) : m_other w w' -> m_rely me w w' }.

Section configurations.
Context {E : Type -> Type} {W Ch K R : Type} {M : Machine E W Ch} (serve : K -> prog E R).

Record Config := { cf_world : W; cf_calls : list (K * prog E R) }.

Definition advance (i : nat) (c : Ch) (u : string) (w : W) (p : prog E R) : option (W * prog E R) :=
  match p with
  | Ret _ => None
  | Vis e k => let '(x, w') := m_exec i c e w in Some (w', k x)
  | Clock k => Some (w, k (m_clock w))
  | Fresh k => w' ← m_draw i w u; Some (w', k u)
  end.

Inductive step : Config -> Config -> Prop :=
| step_own w ts i k p c u w' p' :
    ts !! i = Some (k, p) -> advance i c u w p = Some (w', p') ->
    step {| cf_world := w; cf_calls := ts |} {| cf_world := w'; cf_calls := <[i := (k, p')]> ts |}
| step_call w ts k :
    step {| cf_world := w; cf_calls := ts |} {| cf_world := w; cf_calls := ts ++ [(k, serve k)] |}
| step_other w ts w' : m_other w w' ->
    step {| cf_world := w; cf_calls := ts |} {| cf_world := w'; cf_calls := ts |}.
End configurations.
Arguments Config E W K R : clear implicits.

(** ** Invariants *)
Class Inv {E W Ch} {M : Machine E W Ch} (I : W -> Prop) : Prop := {
  inv_other (w w' : W) : m_other w w' -> I w -> I w';
  inv_draw i (w : W) u w' : m_draw i w u = Some w' -> I w -> I w' }.

Section safe.
Context {E : Type -> Type} {W Ch : Type} {M : Machine E W Ch} {ML : MachineLaws M}.
Context (I : W -> Prop) (me : nat).

Definition keeping {X} (e : E X) : Prop := forall c w, I w -> I (m_exec me c e w).2.

Lemma exec_keeping {X} c (e : E X) w x w' : keeping e -> I w -> m_exec me c e w = (x, w') -> I w'.
Proof. intros Hk Hw E'. specialize (Hk c w Hw). by rewrite E' in Hk. Qed.

(** From [w] on, whatever the others do that keeps [I], each own step keeps [I];
    the answer satisfies [Q]. *)
Fixpoint safe {A} (Q : W -> result A -> Prop) (w : W) (p : prog E A) : Prop :=
  match p with
  | Ret r => forall w', m_rely me w w' -> I w' -> Q w' r
  | Vis e k => forall w1, m_rely me w w1 -> I w1 -> forall c x w2, m_exec me c e w1 = (x, w2) -> I w2 /\ safe Q w2 (k x)
  | Clock k => forall w1, m_rely me w w1 -> I w1 -> safe Q w1 (k (m_clock w1))
  | Fresh k => forall w1 u w2, m_rely me w w1 -> I w1 -> m_draw me w1 u = Some w2 -> I w2 -> safe Q w2 (k u)
  end.

Lemma safe_rely {A} (Q : W -> result A -> Prop) w w' p : m_rely me w w' -> safe Q w p -> safe Q w' p.
Proof using ML.
  intros Hl. destruct p as [r|X e k|k|k]; simpl; intros H.
  - intros w1 H1. apply H. by etrans.
  - intros w1 H1. apply H. by etrans.
  - intros w1 H1. apply H. by etrans.
  - intros w1 u w2 H1. apply H. by etrans.
Qed.
(** The others may move before a program starts. *)
Lemma safe_at {A} (Q : W -> result A -> Prop) w p :
  (forall w', m_rely me w w' -> I w' -> safe Q w' p) -> safe Q w p.
Proof using ML.
  intros H. destruct p as [r|X e k|k|k]; simpl.
  - intros w' Hl Hw. by apply (H w' Hl Hw w').
  - intros w1 Hl Hw. by apply (H w1 Hl Hw w1).
  - intros w1 Hl Hw. by apply (H w1 Hl Hw w1).
  - intros w1 u w2 Hl Hw. by apply (H w1 Hl Hw w1).
Qed.
Lemma safe_bind {A B} (Q : W -> result A -> Prop) (R : W -> result B -> Prop) (f : A -> prog E B) w p :
  safe Q w p -> (forall w' a, m_later w w' -> I w' -> Q w' (Ok a) -> safe R w' (f a)) ->
  (forall w' e, Q w' (Err e) -> R w' (Err e)) -> safe R w (p ≫= f).
Proof using ML.
  intros Hp Hf He. revert w Hp Hf. induction p as [[a|e]|X e k IH|k IH|k IH]; intros w Hp Hf; cbn in *.
  - apply safe_at. eauto using rely_later.
  - intros w' Hl Hw. by apply He, Hp.
  - intros w1 Hl Hw c x w2 Hx. destruct (Hp w1 Hl Hw c x w2 Hx) as [Hw2 Hs]. split; [done|].
    apply IH; [done|]. intros w' a Hl'. apply Hf. apply exec_later_ in Hx. apply rely_later in Hl.
    by repeat (etrans; [eassumption|]).
  - intros w1 Hl Hw. apply IH; [by apply Hp|]. intros w' a Hl'. apply Hf. apply rely_later in Hl. by etrans.
  - intros w1 u w2 Hl Hw Hu Hw2. apply IH; [by eapply Hp|]. intros w' a Hl'. apply Hf. apply draw_later in Hu.
    apply rely_later in Hl. by repeat (etrans; [eassumption|]).
Qed.
Lemma safe_handle {A B} (Q : W -> result A -> Prop) (R : W -> result B -> Prop) (h : result A -> prog E B) w p :
  safe Q w p -> (forall w' r, m_later w w' -> I w' -> Q w' r -> safe R w' (h r)) -> safe R w (handle p h).
Proof using ML.
  intros Hp Hf. revert w Hp Hf. induction p as [r|X e k IH|k IH|k IH]; intros w Hp Hf; cbn in *.
  - apply safe_at. eauto using rely_later.
  - intros w1 Hl Hw c x w2 Hx. destruct (Hp w1 Hl Hw c x w2 Hx) as [Hw2 Hs]. split; [done|].
    apply IH; [done|]. intros w' a Hl'. apply Hf. apply exec_later_ in Hx. apply rely_later in Hl.
    by repeat (etrans; [eassumption|]).
  - intros w1 Hl Hw. apply IH; [by apply Hp|]. intros w' a Hl'. apply Hf. apply rely_later in Hl. by etrans.
  - intros w1 u w2 Hl Hw Hu Hw2. apply IH; [by eapply Hp|]. intros w' a Hl'. apply Hf. apply draw_later in Hu.
    apply rely_later in Hl. by repeat (etrans; [eassumption|]).
Qed.
Lemma safe_every {A} w (p : prog E A) : every (@keeping) p -> safe (fun _ _ => True) w p.
Proof.
  intros Hp. revert w. induction p as [r|X e k IH|k IH|k IH]; intros w; cbn in *; auto.
  destruct Hp as [He Hk]. intros w1 Hl Hw c x w2 Hx. split; [by eapply exec_keeping|auto].
Qed.
Lemma safe_weaken {A} (Q R : W -> result A -> Prop) w p :
  safe Q w p -> (forall w' r, I w' -> Q w' r -> R w' r) -> safe R w p.
Proof.
  intros Hp HQ. revert w Hp. induction p as [r|X e k IH|k IH|k IH]; intros w Hp; cbn in *; auto.
  - intros w1 Hl Hw c x w2 Hx. destruct (Hp w1 Hl Hw c x w2 Hx). auto.
  - eauto.
Qed.

(** A fact that lasts is still there at the end. *)
Lemma safe_stable {A} (F : W -> Prop) (Q : W -> result A -> Prop) w p :
  (forall w w', m_later w w' -> F w -> F w') -> F w -> safe Q w p -> safe (fun w' r => F w' /\ Q w' r) w p.
Proof using ML.
  intros HF. revert w. induction p as [r|X e k IH|k IH|k IH]; intros w Hw Hp; cbn in *.
  - intros w' Hl HI. eauto using rely_later.
  - intros w1 Hl HI c x w2 Hx. destruct (Hp w1 Hl HI c x w2 Hx). split; [done|].
    apply IH; [|done]. eauto using rely_later, exec_later_.
  - intros w1 Hl HI. apply IH; [|by apply Hp]. eauto using rely_later.
  - intros w1 u w2 Hl HI Hu HI2. apply IH; [|by eapply Hp]. eauto using rely_later, draw_later.
Qed.

(** Programs that keep the invariant from wherever they start. *)
Definition ok {A} (p : prog E A) : Prop := forall w, safe (fun _ _ => True) w p.
Lemma ok_every {A} (p : prog E A) : every (@keeping) p -> ok p.
Proof. intros Hp w. by apply safe_every. Qed.
Lemma ok_vis {X A} (e : E X) (k : result X -> prog E A) : keeping e -> (forall x, ok (k x)) -> ok (Vis e k).
Proof. intros He Hk w w1 _ Hw c x w2 Hx. split; [by eapply exec_keeping|apply Hk]. Qed.
Lemma ok_bind {A B} (f : A -> prog E B) p : ok p -> (forall a, ok (f a)) -> ok (p ≫= f).
Proof using ML. intros Hp Hf w. eapply safe_bind; [apply Hp|intros; apply Hf|done]. Qed.
Lemma ok_handle {A B} (h : result A -> prog E B) p : ok p -> (forall r, ok (h r)) -> ok (handle p h).
Proof using ML. intros Hp Hf w. eapply safe_handle; [apply Hp|intros; apply Hf]. Qed.
Lemma ok_ret {A} (a : A) : ok (mret a).
Proof. by intros w. Qed.
Lemma ok_raise {A} e : ok (raise (A := A) e).
Proof. by intros w. Qed.
Lemma ok_lifted {A} (r : result A) : ok (lifted r).
Proof. by intros w. Qed.
Lemma ok_now : ok now.
Proof. by intros w. Qed.
Lemma ok_newUUID : ok newUUID.
Proof. by intros w. Qed.
Lemma ok_call {X} msg (e : E X) : keeping e -> ok (call msg e).
Proof. intros He. by apply ok_vis. Qed.
Lemma ok_best_effort {X} (e : E X) : keeping e -> ok (best_effort e).
Proof. intros He. by apply ok_vis. Qed.
Lemma ok_safe {A} (p : prog E A) (Q : W -> result A -> Prop) w :
  ok p -> (forall w' r, I w' -> Q w' r) -> safe Q w p.
Proof. intros Hp HQ. eapply safe_weaken; [apply Hp|auto]. Qed.
End safe.
(** A fact that lasts may join the invariant. *)
Lemma safe_join {E : Type -> Type} {W Ch A : Type} {M : Machine E W Ch} {ML : MachineLaws M}
    (I F : W -> Prop) me (Q : W -> result A -> Prop) w (p : prog E A) :
  (forall w w', m_later w w' -> F w -> F w') -> safe I me Q w p -> safe (fun w => I w /\ F w) me Q w p.
Proof.
  intros HF. revert w. induction p as [r|X e k IH|k IH|k IH]; intros w Hp; cbn in *.
  - intros w' Hl [Hi _]. auto.
  - intros w1 Hl [Hi Hf] c x w2 Hx. destruct (Hp w1 Hl Hi c x w2 Hx). split; [|auto].
    split; [done|]. eauto using exec_later_.
  - intros w1 Hl [Hi _]. auto.
  - intros w1 u w2 Hl [Hi _] Hu [Hi2 _]. eauto.
Qed.
(** An invariant that is asked for up to a point of the run only, with a fact that
    every step keeps. *)
Section within.
Context {E : Type -> Type} {W Ch : Type} {M : Machine E W Ch} {ML : MachineLaws M}.
Context (I B F : W -> Prop).
Class Until : Prop := {
  until_later (w w' : W) : m_later w w' -> B w' -> B w;
  kept_exec {X} i c (e : E X) (w : W) x w' : m_exec i c e w = (x, w') -> F w -> F w';
  kept_draw i (w : W) u w' : m_draw i w u = Some w' -> F w -> F w';
  kept_other (w w' : W) : m_other w w' -> F w -> F w' }.
Definition within (w : W) : Prop := (B w -> I w) /\ F w.
Context {HU : Until}.

Lemma safe_within {A} me (Q : W -> result A -> Prop) w p :
  (B w -> safe I me Q w p) -> safe within me (fun w r => B w -> Q w r) w p.
Proof using HU ML.
  revert w. induction p as [r|X e k IH|k IH|k IH]; intros w Hp; cbn in *.
  - intros w' Hl [Hi _] Hb. apply Hp; eauto using until_later, rely_later.
  - intros w1 Hl [Hi Hf] c x w2 Hx. pose proof (until_later _ _ (exec_later_ _ _ _ _ _ _ Hx)) as Hb2.
    pose proof (until_later _ _ (rely_later _ _ _ Hl)) as Hb1.
    assert (B w2 -> I w2 /\ safe I me Q w2 (k x)) as Hk by (intros Hb; eapply Hp; eauto).
    split; [split; [intros Hb; by apply Hk|by eapply kept_exec]|]. apply IH. intros Hb. by apply Hk.
  - intros w1 Hl [Hi Hf]. apply IH. intros Hb. apply Hp; eauto using until_later, rely_later.
  - intros w1 u w2 Hl [Hi Hf] Hu [Hi2 _]. apply IH. intros Hb.
    pose proof (until_later _ _ (draw_later _ _ _ _ Hu) Hb). eapply Hp; eauto using until_later, rely_later.
Qed.
Lemma ok_within {A} me (p : prog E A) : ok I me p -> ok within me p.
Proof using HU ML. intros Hp w. eapply safe_weaken; [apply safe_within; intros _; apply Hp|done]. Qed.
Lemma keeping_within {X} me (e : E X) : keeping I me e -> keeping within me e.
Proof using HU ML.
  intros He c w [Hi Hf]. destruct (m_exec me c e w) as [x w'] eqn:Hx. simpl. split; [|by eapply kept_exec].
  intros Hb. eapply exec_keeping; [exact He| |exact Hx]. apply Hi. eapply until_later; [by eapply exec_later_|done].
Qed.
#[export] Instance within_inv `{!Inv I} : Inv within.
Proof using HU ML.
  split.
  - intros w w' Ho [Hi Hf]. split; [|by eapply kept_other]. intros Hb. eapply inv_other; [done|].
    apply Hi. eapply until_later; [|done]. by eapply (rely_later 0), other_rely.
  - intros i w u w' Hu [Hi Hf]. split; [|by eapply kept_draw]. intros Hb. eapply inv_draw; [done|].
    apply Hi. eapply until_later; [|done]. by eapply draw_later.
Qed.
End within.
Create HintDb ok.
#[export] Hint Resolve ok_ret ok_raise ok_lifted ok_now ok_newUUID ok_call ok_best_effort : ok.

(** Goes through a program; what is left are the operations. *)
Ltac walk :=
  repeat first
    [ progress intros
    | solve [eauto with ok]
    | match goal with
      | |- ok _ _ (mbind _ _) => apply ok_bind
      | |- ok _ _ (handle _ _) => apply ok_handle
      | |- ok _ _ (call _ _) => apply ok_call
      | |- ok _ _ (best_effort _) => apply ok_best_effort
      | |- ok _ _ (Vis _ _) => apply ok_vis
      | |- ok _ _ (Ret _) => exact (ok_lifted _ _ _)
      | |- ok _ _ (let c := _ in _) => cbv zeta
      | |- ok _ _ (match ?x with _ => _ end) => destruct x
      | |- ok _ _ (let '_ := ?x in _) => destruct x
      | |- ok _ _ ?p => let f := head_of p in unfold f
      end ].

Section reachable.
Context {E : Type -> Type} {W Ch K R : Type} {M : Machine E W Ch} {ML : MachineLaws M} (serve : K -> prog E R).
Context (I : W -> Prop) `{HI : !Inv I}.

(** Every call keeps the invariant, whatever the others do in between, and every
    answer satisfies [Q] from then on. *)
Definition good (Q : nat -> K -> W -> result R -> Prop) (c : Config E W K R) : Prop :=
  I (cf_world c) /\ forall i k p, cf_calls c !! i = Some (k, p) -> safe I i (Q i k) (cf_world c) p.

Lemma step_good Q c c' :
  (forall i w k p, cf_calls c' !! i = Some (k, p) -> I w -> safe I i (Q i k) w (serve k)) ->
  step serve c c' -> good Q c -> good Q c'.
Proof using HI ML.
  intros Hserve Hs [HIw Ht]. destruct Hs as [w ts i k p ch u w' p' Hi Ha|w ts k|w ts w' Ho]; simpl in *.
  - pose proof (Ht i k p Hi) as Hp.
    assert (I w' /\ (forall j, j <> i -> m_rely j w w') /\ safe I i (Q i k) w' p') as (Hw' & Hl & Hp').
    { destruct p as [r|X e f|f|f]; simpl in Ha; simplify_eq.
      - destruct (m_exec i ch e w) as [x w2] eqn:E'. simplify_eq. destruct (Hp w ltac:(done) HIw ch x w' E').
        split_and!; [done|intros j Hj; by eapply (exec_rely i j)|done].
      - split_and!; [done|done|by apply Hp].
      - destruct (m_draw i w u) as [w2|] eqn:Eu; simplify_eq/=. pose proof (inv_draw _ _ _ _ Eu HIw).
        split_and!; [done|intros j Hj; by eapply (draw_rely i j)|by eapply Hp]. }
    split; [done|]. intros j k0 p0 Hj. simpl in Hj. rewrite list_lookup_insert_Some in Hj.
    destruct Hj as [(-> & [= -> ->] & _)|(Hne & Hj)]; [done|].
    eapply safe_rely; [by apply Hl|]. by apply Ht.
  - split; [done|]. intros j k0 p0 Hj'. pose proof Hj' as [Hj|[_ Hj]]%lookup_app_Some; [by apply Ht|].
    apply list_lookup_singleton_Some in Hj as [_ [= <- <-]]. by eapply Hserve.
  - split; [by eapply inv_other|]. intros j k0 p0 Hin. eapply safe_rely; [by apply other_rely|by apply Ht].
Qed.

(** Calls stay where they are. *)
Lemma step_calls (c c' : Config E W K R) i k p : step serve c c' -> cf_calls c !! i = Some (k, p) -> exists p', cf_calls c' !! i = Some (k, p').
Proof.
  intros [w ts j k' q ch u w' q' Hj _|w ts k'|w ts w' _] Hi; simpl in *; [|exists p; by apply lookup_app_l_Some|by exists p].
  destruct (decide (i = j)) as [->|Hne]; [|exists p; by rewrite list_lookup_insert_ne].
  exists q'. rewrite list_lookup_insert_eq; [naive_solver|by eapply lookup_lt_Some].
Qed.
Lemma steps_calls (c c' : Config E W K R) i k p :
  rtc (step serve) c c' -> cf_calls c !! i = Some (k, p) -> exists p', cf_calls c' !! i = Some (k, p').
Proof.
  intros Hs. revert p. induction Hs as [|x y z Hxy _ IH]; [eauto|]. intros p Hp.
  destruct (step_calls _ _ _ _ _ Hxy Hp) as [p' Hp']. eauto.
Qed.
Lemma reachable_good Q c c' :
  (forall i w k p, cf_calls c' !! i = Some (k, p) -> I w -> safe I i (Q i k) w (serve k)) ->
  rtc (step serve) c c' -> good Q c -> good Q c'.
Proof using HI ML.
  intros Hserve Hs. induction Hs as [|x y z Hxy Hyz IH]; [done|]. intros Hg. apply IH; [done|].
  eapply step_good; [|done..]. intros i w k p Hi. destruct (steps_calls _ _ _ _ _ Hyz Hi) as [p' Hp']. by eapply Hserve.
Qed.

(** From a world without calls; only the calls that are made count. *)
Lemma reached Q w c :
  (forall i w k p, cf_calls c !! i = Some (k, p) -> I w -> safe I i (Q i k) w (serve k)) -> I w ->
  rtc (step serve) {| cf_world := w; cf_calls := [] |} c ->
  I (cf_world c) /\ forall i k r, cf_calls c !! i = Some (k, Ret r) -> Q i k (cf_world c) r.
Proof using HI ML.
  intros Hserve Hw Hs. destruct (reachable_good Q _ _ Hserve Hs) as [Hc Ht]; [by split|].
  split; [done|]. intros i k r Hi. by apply (Ht i k _ Hi (cf_world c)).
Qed.
End reachable.

(** From a reachable configuration on, when a lasting fact holds there. *)
Lemma reached_again {E : Type -> Type} {W Ch K R : Type} {M : Machine E W Ch} {ML : MachineLaws M} (serve : K -> prog E R)
    (I : W -> Prop) `{HI : !Inv I} (F : W -> Prop) (Q : K -> W -> result R -> Prop) w c1 c2 :
  (forall w w', m_later w w' -> F w -> F w') -> I w -> (forall i k, ok I i (serve k)) ->
  (forall i w k, safe (fun w => I w /\ F w) i (Q k) w (serve k)) ->
  rtc (step serve) {| cf_world := w; cf_calls := [] |} c1 -> F (cf_world c1) -> rtc (step serve) c1 c2 ->
  forall i k r, length (cf_calls c1) <= i -> cf_calls c2 !! i = Some (k, Ret r) -> Q k (cf_world c2) r.
Proof.
  intros HF Hw Hok Hq Hs1 Hf Hs2 i k r Hi H.
  destruct (reachable_good serve I (fun _ _ _ _ => True) _ c1 (fun i w k p _ _ => Hok i k w) Hs1) as [H1 Ht1]; [by split|].
  assert (Inv (fun w => I w /\ F w)) as HI2.
  { split.
    - intros w1 w2 Ho [? ?]. split; [by eapply inv_other|]. eapply HF; [|done]. by eapply (rely_later 0), other_rely.
    - intros n w1 u w2 Hu [? ?]. split; [by eapply inv_draw|]. eapply HF; [|done]. by eapply draw_later. }
  set (Q2 := fun n k => if decide (length (cf_calls c1) <= n) then Q k else fun _ _ => True).
  destruct (reachable_good serve (fun w => I w /\ F w) Q2 c1 c2) as [H2 Ht2]; [|done| |].
  - intros n w1 k1 p1 _ _. subst Q2. simpl. case_decide; [apply Hq|apply safe_join; [done|apply Hok]].
  - split; [done|]. intros n k1 p1 Hn. subst Q2. simpl. rewrite decide_False by (apply lookup_lt_Some in Hn; lia).
    apply safe_join; [done|]. by eapply Ht1.
  - specialize (Ht2 i k _ H). subst Q2. simpl in Ht2. rewrite decide_True in Ht2 by done. by apply (Ht2 (cf_world c2)).
Qed.

(** One own step that is a clock reading or a random identifier. *)
Ltac own :=
  eapply (safe_bind _ _ (fun _ _ => True)); [apply safe_every; every|intros ? ? ? ? _|done].
Ltac later := first [eassumption | etrans; [eassumption|later]].

(** ** Schedules
    A schedule names who moves next; [pass] is the change the environment makes. *)
Inductive Move (K Ch : Type) := Own (i : nat) (c : Ch) (u : string) | Start (k : K) | Pass (dt : Z).
Arguments Own {K Ch} i c u.
Arguments Start {K Ch} k.
Arguments Pass {K Ch} dt.

Section drive.
Context {E : Type -> Type} {W Ch K R : Type} {M : Machine E W Ch} (serve : K -> prog E R).
Context (pass : Z -> W -> option W).
Hypothesis pass_other : forall dt w w', pass dt w = Some w' -> m_other w w'.

Definition move (c : Config E W K R) (m : Move K Ch) : option (Config E W K R) :=
  match m with
  | Own i ch u =>
      '(k, p) ← cf_calls c !! i;
      '(w, p') ← advance i ch u (cf_world c) p;
      Some {| cf_world := w; cf_calls := <[i := (k, p')]> (cf_calls c) |}
  | Start k => Some {| cf_world := cf_world c; cf_calls := (cf_calls c ++ [(k, serve k)])%list |}
  | Pass dt => w ← pass dt (cf_world c); Some {| cf_world := w; cf_calls := cf_calls c |}
  end.
Definition drive (ms : list (Move K Ch)) (c : Config E W K R) : Config E W K R :=
  foldl (fun c m => default c (move c m)) c ms.

Lemma drive_sound ms c : rtc (step serve) c (drive ms c).
Proof using pass_other.
  revert c. induction ms as [|m ms IH]; intros c; [done|]. cbn. etrans; [|apply IH].
  destruct (move c m) as [c'|] eqn:E'; [|done]. simpl. apply rtc_once. destruct c as [w ts], m as [i ch u|k|dt]; simpl in E'.
  - destruct (ts !! i) as [[k p]|] eqn:Ei; [|done]. simpl in E'.
    destruct (advance i ch u w p) as [[w' p']|] eqn:Ea; [|done]. injection E' as <-. by econstructor.
  - injection E' as <-. constructor.
  - destruct (pass dt w) as [w'|] eqn:Ed; [|done]. injection E' as <-. constructor. by eapply pass_other.
Qed.
End drive.

(** What a call that ended ended with. *)
Definition outcome {E W K R} (c : Config E W K R) (i : nat) : option R :=
  kp ← cf_calls c !! i; match kp.2 with Ret (Ok b) => Some b | _ => None end.
Lemma outcome_call {E W K R} (c : Config E W K R) (i : nat) (b : R) :
  outcome c i = Some b -> exists k, cf_calls c !! i = Some (k, Ret (Ok b)).
Proof.
  unfold outcome. destruct (cf_calls c !! i) as [[k p]|]; [|done]. simpl. destruct p as [[x|]| | |]; try done.
  intros [= ->]. by exists k.
Qed.
