(* ===== verification/DisclosureScope.v ===== *)
(** * What a disclosure covers: [internal/disclosure/scope.go] and the merge and
    subset tests of [internal/disclosure/service.go].

    A [time.Time] is the number of nanoseconds since the Unix epoch.  [within s p]
    is what it means for a scope to stay inside another one: every transaction,
    every activity row and every instant it covers is covered by the other, and it
    reveals no more of an address. *)
From S2P Require Import Prelude GoStrings.
From Stdlib Require Import Ascii.
Local Open Scope string_scope.

(** ** Data *)
Definition MethodActivityLogs : string := "activity_logs".
Definition MethodTransactionHistory : string := "transaction_history".
Definition MethodFullDisclosure : string := "full_disclosure".

Definition DisclosureFull : string := "full".
Definition DisclosurePseudonymous : string := "pseudonymous".
Definition DisclosureRedacted : string := "redacted".

Record DateRange := { dr_Start : Z; dr_End : Z }.
Record Scope := {
  s_Methods : list string; s_Addresses : list string; s_DateRange : option DateRange; s_DisclosureLevel : string }.

#[export] Instance DateRange_eq_dec : EqDecision DateRange.
Proof. solve_decision. Defined.
#[export] Instance Scope_eq_dec : EqDecision Scope.
Proof. solve_decision. Defined.

Definition ErrInvalidScope : string := "invalid disclosure scope".
Definition ErrScopeOutOfBounds : string := "requested scope exceeds granted scope".

(** [time.Time{}.IsZero]: the first instant of the year 1. *)
Definition zeroTime : Z := (-62135596800 * 10 ^ 9)%Z.
(** [time.Unix(sec, 0)]: the seconds since the year 1 are kept in an [int64]. *)
Definition int64 (n : Z) : Z := ((n + 2 ^ 63) mod 2 ^ 64 - 2 ^ 63)%Z.
Definition unixTime (sec : Z) : Z := ((int64 (sec + 62135596800) - 62135596800) * 10 ^ 9)%Z.

(** ** Normalization *)
Definition isLowerHex (c : ascii) : bool :=
  let n := N_of_ascii c in ((48 <=? n) && (n <=? 57) || (97 <=? n) && (n <=? 102))%N.
Definition isHexAddress (a : string) : bool :=
  Nat.eqb (String.length a) 42 && HasPrefix a "0x" && forallb isLowerHex (String.list_ascii_of_string (drop_str 2 a)).

Definition levelOf (l : string) : string := ToLower (TrimSpace l).
Definition normalizeLevel (l : string) : result string :=
  let lvl := levelOf l in
  if bool_decide (lvl = "") then Ok DisclosureRedacted
  else if contains [DisclosureFull; DisclosurePseudonymous; DisclosureRedacted] lvl then Ok lvl
  else Err (ErrInvalidScope +:+ ": unknown disclosure_level").

(** The loops that validate and de-duplicate: [canon] is what an element is
    stored as, [valid] what it must satisfy. *)
Fixpoint uniqueValid (canon : string -> string) (valid : string -> bool) (msg : string) (seen l : list string)
  : result (list string) :=
  match l with
  | [] => Ok []
  | x :: l =>
      let x := canon x in
      if negb (valid x) then Err (ErrInvalidScope +:+ msg)
      else if contains seen x then uniqueValid canon valid msg seen l
      else cons x <$> uniqueValid canon valid msg (x :: seen) l
  end.
Definition scopeMethods : list string := [MethodActivityLogs; MethodTransactionHistory; MethodFullDisclosure].
Definition normalizeMethods : list string -> result (list string) :=
  uniqueValid id (contains scopeMethods) ": unknown method" [].
Definition normalizeAddresses : list string -> result (list string) :=
  uniqueValid levelOf isHexAddress ": malformed address" [].
Definition normalizeRange (dr : option DateRange) : result (option DateRange) :=
  match dr with
  | None => Ok None
  | Some dr =>
      if bool_decide (dr_Start dr = zeroTime) || bool_decide (dr_End dr = zeroTime)
      then Err (ErrInvalidScope +:+ ": date_range needs both start and end")
      else if (dr_End dr <? dr_Start dr)%Z then Err (ErrInvalidScope +:+ ": date_range ends before it starts")
      else Ok (Some {| dr_Start := dr_Start dr; dr_End := dr_End dr |})
  end.

Definition Normalize (s : Scope) : result Scope :=
  lvl ← normalizeLevel (s_DisclosureLevel s);
  ms ← normalizeMethods (s_Methods s);
  addrs ← normalizeAddresses (s_Addresses s);
  dr ← normalizeRange (s_DateRange s);
  Ok {| s_Methods := ms; s_Addresses := addrs; s_DateRange := dr; s_DisclosureLevel := lvl |}.

(** ** What a scope permits *)
Section scope.
Variable s : Scope.

Definition EffectiveLevel : string :=
  let lvl := levelOf (s_DisclosureLevel s) in
  if contains [DisclosureFull; DisclosurePseudonymous] lvl then lvl else DisclosureRedacted.

Definition ForRead : result Scope :=
  Normalize {| s_Methods := s_Methods s; s_Addresses := s_Addresses s; s_DateRange := s_DateRange s;
               s_DisclosureLevel := EffectiveLevel |}.

Definition hasMethod (m : string) : bool := contains (s_Methods s) m.

Definition AllowsTransactionHistory : bool :=
  bool_decide (s_Methods s = []) || hasMethod MethodTransactionHistory || hasMethod MethodFullDisclosure.

Definition AllowsActivityLogs : bool := hasMethod MethodActivityLogs || hasMethod MethodFullDisclosure.

Definition ValidateActivity : result unit :=
  if negb AllowsActivityLogs || negb (bool_decide (s_Addresses s = [])) then Err ErrScopeOutOfBounds else Ok tt.

(** An instant is inside the range, bounds included. *)
Definition inRange (t : Z) : bool :=
  match s_DateRange s with None => true | Some dr => (dr_Start dr <=? t)%Z && (t <=? dr_End dr)%Z end.

Definition InDateRange (blockTime : Z) : bool :=
  match s_DateRange s with
  | None => true
  | Some _ => if (blockTime <=? 0)%Z then false else inRange (unixTime blockTime)
  end.

Definition InAddressScope (addrs : list string) : bool :=
  bool_decide (s_Addresses s = []) ||
  existsb (fun a => negb (bool_decide (a = "")) && existsb (EqualFold a) (s_Addresses s)) addrs.

Definition CoversTransaction (from to : string) (blockTime : Z) : bool :=
  AllowsTransactionHistory && InDateRange blockTime && InAddressScope [from; to].
End scope.

Definition disclosureRank (l : string) : Z :=
  let e := EffectiveLevel {| s_Methods := []; s_Addresses := []; s_DateRange := None; s_DisclosureLevel := l |} in
  if bool_decide (e = DisclosureFull) then 3
  else if bool_decide (e = DisclosurePseudonymous) then 2 else 1.

Definition isSubsetOf (s parent : Scope) : bool :=
  negb (AllowsTransactionHistory s && negb (AllowsTransactionHistory parent) ||
        AllowsActivityLogs s && negb (AllowsActivityLogs parent)) &&
  (bool_decide (s_Addresses parent = []) ||
   negb (bool_decide (s_Addresses s = [])) &&
   forallb (fun a => contains (map ToLower (s_Addresses parent)) (ToLower a)) (s_Addresses s)) &&
  match s_DateRange parent with
  | None => true
  | Some p =>
      match s_DateRange s with
      | None => false
      | Some d => negb ((dr_Start d <? dr_Start p)%Z || (dr_End p <? dr_End d)%Z)
      end
  end &&
  (disclosureRank (s_DisclosureLevel s) <=? disclosureRank (s_DisclosureLevel parent))%Z.

Definition mergeNarrowedScope (base override : Scope) : Scope := {|
  s_Methods := if bool_decide (s_Methods override = []) then s_Methods base else s_Methods override;
  s_Addresses := if bool_decide (s_Addresses override = []) then s_Addresses base else s_Addresses override;
  s_DateRange := match s_DateRange override with Some dr => Some dr | None => s_DateRange base end;
  s_DisclosureLevel :=
    if bool_decide (s_DisclosureLevel override = "") then s_DisclosureLevel base else s_DisclosureLevel override |}.

(** The scope [ApproveRequest] grants. *)
Definition grantedScope (requested : Scope) (narrowed : option Scope) : result Scope :=
  requestedScope ← Normalize requested;
  granted ← match narrowed with
            | None => Ok requestedScope
            | Some n =>
                merged ← Normalize (mergeNarrowedScope requestedScope n);
                if isSubsetOf merged requestedScope then Ok merged else Err ErrScopeOutOfBounds
            end;
  Normalize granted.

(** ** Canonical strings *)
Lemma plain_fixed s :
  forallb (fun c => is_ascii c && negb (is_upper c)) (String.list_ascii_of_string s) = true ->
  case_fixed is_dotted_I s = true.
Proof.
  assert (Hd : forall x y, is_ascii x = true -> is_dotted_I x y = false).
  { intros x y. unfold is_ascii, is_dotted_I. intros ?%N.ltb_lt.
    apply andb_false_iff. left. apply N.eqb_neq. lia. }
  assert (Hk : forall x y z, is_ascii x = true -> is_kelvin x y z = false).
  { intros x y z Hx. destruct (is_kelvin x y z) eqn:E; [|done].
    apply is_kelvin_nonascii in E as (E & _). congruence. }
  induction s as [|a s IH]; [done|]. cbn [String.list_ascii_of_string forallb case_fixed].
  intros [[Ha Hu]%andb_true_iff Hs]%andb_true_iff. rewrite (IH Hs), andb_true_r.
  rewrite Hu. simpl. destruct s as [|b [|c s]]; [done|by rewrite Hd|by rewrite Hd, Hk].
Qed.

Lemma isLowerHex_small c : isLowerHex c = true -> (48 <= N_of_ascii c < 103)%N.
Proof.
  unfold isLowerHex. intros [[H1%N.leb_le H2%N.leb_le]%andb_true_iff|[H1%N.leb_le H2%N.leb_le]%andb_true_iff]%orb_true_iff;
  lia.
Qed.
Lemma isLowerHex_plain c : isLowerHex c = true -> is_ascii c && negb (is_upper c) = true.
Proof. destruct c as [[][][][][][][][]]; vm_compute; congruence. Qed.

Lemma no_space_suffix a r : (32 < N_of_ascii a < 128)%N -> space_suffix (String a r) = 0.
Proof.
  intros Ha. assert (H1 : space_len (String a "") = 0).
  { cbn. destruct (_ || _)%bool eqn:E; [|done]. exfalso.
    apply orb_true_iff in E as [[?%N.leb_le ?%N.leb_le]%andb_true_iff|?%N.eqb_eq]; lia. }
  unfold space_suffix. rewrite H1. cbn [Nat.eqb].
  assert (forall k, (128 <= k)%N -> (N_of_ascii a =? k)%N = false) as Hne by (intros; apply N.eqb_neq; lia).
  assert (forall k, (128 <= k)%N -> (k <=? N_of_ascii a)%N = false) as Hle by (intros; apply N.leb_gt; lia).
  destruct r as [|b r]; [done|].
  assert (H2 : Nat.eqb (space_len (String b (String a ""))) 2 = false).
  { unfold space_len. rewrite !Hne by lia. rewrite andb_false_r. by destruct (_ || _)%bool. }
  rewrite H2. destruct r as [|c r]; [done|].
  assert (H3 : Nat.eqb (space_len (String c (String b (String a "")))) 3 = false).
  { unfold space_len. rewrite !Hne, !Hle by lia. rewrite !andb_false_r. simpl.
    destruct (_ || (_ =? 32)%N)%bool; [done|]. by destruct (_ && _)%bool. }
  by rewrite H3.
Qed.
Lemma TrimSpace_plain a s b r :
  (32 < N_of_ascii a < 128)%N -> (32 < N_of_ascii b < 128)%N -> rev_string (String a s) = String b r ->
  TrimSpace (String a s) = String a s.
Proof.
  intros Ha Hb E. unfold TrimSpace.
  assert (Hl : trim_left (String.length (String a s)) (String a s) = String a s).
  { assert (space_len (String a s) = 0) as H0; [|simpl; simpl in H0; by rewrite H0].
    assert (forall k, (128 <= k)%N -> (N_of_ascii a =? k)%N = false) as Hne by (intros; apply N.eqb_neq; lia).
    unfold space_len. rewrite (Hne 0xC2%N), (Hne 0xE1%N), (Hne 0xE2%N), (Hne 0xE3%N) by lia. simpl.
    destruct (_ || (_ =? 32)%N)%bool eqn:E'; [|by destruct s as [|? [|? s]]].
    exfalso. apply orb_true_iff in E' as [[?%N.leb_le ?%N.leb_le]%andb_true_iff|?%N.eqb_eq]; lia. }
  rewrite Hl, E. cbn [String.length trim_right_rev]. rewrite no_space_suffix by done.
  by rewrite <- E, rev_string_involutive.
Qed.

Lemma isHexAddress_shape a :
  isHexAddress a = true ->
  exists s, a = String "0" (String "x" s) /\ forallb isLowerHex (String.list_ascii_of_string s) = true /\ s <> "".
Proof.
  unfold isHexAddress. intros [[Hl%Nat.eqb_eq Hp]%andb_true_iff Hh]%andb_true_iff.
  apply HasPrefix_inv in Hp. exists (drop_str 2 a). split_and!; [exact Hp|exact Hh|].
  intros E. rewrite Hp in Hl. change (String.length "0x") with 2 in Hl. by rewrite E in Hl.
Qed.

Lemma last_of_rev (P : ascii -> Prop) s acc :
  (forall c, c ∈ String.list_ascii_of_string s -> P c) -> s <> "" -> exists b r, rev_app s acc = String b r /\ P b.
Proof.
  revert acc. induction s as [|a s IH]; [done|]. intros acc HP _. cbn [rev_app]. destruct s as [|b s].
  - eexists _, _. split; [done|]. apply HP. simpl. set_solver.
  - apply IH; [|done]. intros c Hc. apply HP. simpl in *. set_solver.
Qed.

(** A well-formed address is stored as it is. *)
Lemma levelOf_address a : isHexAddress a = true -> levelOf a = a.
Proof.
  intros (s & -> & Hh & Hne)%isHexAddress_shape. rewrite forallb_true in Hh. unfold levelOf.
  destruct (last_of_rev (fun c => isLowerHex c = true) s "x0") as (b & r & Er & Hb); [done|done|].
  rewrite (TrimSpace_plain _ _ b r); [|vm_compute; split; congruence|apply isLowerHex_small in Hb; lia|exact Er].
  apply case_map_fixed, plain_fixed, forallb_true. intros c Hc. simpl in Hc. rewrite !elem_of_cons in Hc.
  destruct Hc as [->|[->|Hc]]; [done..|]. by apply isLowerHex_plain, Hh.
Qed.

(** ** Canonical scopes *)
Section unique.
Context (canon : string -> string) (valid : string -> bool) (msg : string).

Lemma uniqueValid_ok seen l l' :
  uniqueValid canon valid msg seen l = Ok l' ->
  Forall (fun x => valid x = true) l' /\ NoDup l' /\ (forall x, x ∈ l' -> x ∉ seen) /\
  forall x, x ∈ l -> canon x ∈ l' \/ canon x ∈ seen.
Proof.
  revert seen l'. induction l as [|x l IH]; intros seen l'; cbn [uniqueValid].
  { intros [= <-]. repeat split; [constructor|constructor|..]; set_solver. }
  destruct (valid (canon x)) eqn:Hv; [|done]. simpl. destruct (contains seen (canon x)) eqn:Hs.
  - intros (Hf & Hn & Hd & Hi)%IH. apply contains_true in Hs. repeat split; try done.
    intros y [->|Hy]%elem_of_cons; [by right|by apply Hi].
  - apply contains_false in Hs. destruct (uniqueValid _ _ _ _ l) as [rest|] eqn:E; [|done].
    intros [= <-]. apply IH in E as (Hf & Hn & Hd & Hi).
    split_and!; [by constructor|constructor; [|done]; intros Hx; apply Hd in Hx; set_solver|set_solver|].
    intros y [->|Hy]%elem_of_cons; [left; set_solver|]. destruct (Hi y Hy); set_solver.
Qed.

Hypothesis Hcanon : forall x, valid x = true -> canon x = x.
Lemma uniqueValid_fixed seen l :
  Forall (fun x => valid x = true) l -> NoDup l -> (forall x, x ∈ l -> x ∉ seen) ->
  uniqueValid canon valid msg seen l = Ok l.
Proof.
  revert seen. induction l as [|x l IH]; intros seen Hf Hn Hd; cbn [uniqueValid]; [done|].
  apply Forall_cons in Hf as [Hx Hf]. apply NoDup_cons in Hn as [Hnx Hn]. rewrite (Hcanon x Hx), Hx. simpl.
  replace (contains seen x) with false by (symmetry; apply contains_false, Hd; set_solver).
  rewrite IH; [done|done|done|]. intros y Hy. apply not_elem_of_cons. split; [by intros ->|]. apply Hd. set_solver.
Qed.
End unique.

Record canonical (s : Scope) : Prop := {
  can_level : s_DisclosureLevel s ∈ [DisclosureFull; DisclosurePseudonymous; DisclosureRedacted];
  can_methods : Forall (fun m => contains scopeMethods m = true) (s_Methods s) /\ NoDup (s_Methods s);
  can_addresses : Forall (fun a => isHexAddress a = true) (s_Addresses s) /\ NoDup (s_Addresses s);
  can_range : forall dr, s_DateRange s = Some dr ->
    dr_Start dr <> zeroTime /\ dr_End dr <> zeroTime /\ (dr_Start dr <= dr_End dr)%Z }.

Lemma Normalize_canonical s s' : Normalize s = Ok s' -> canonical s'.
Proof.
  unfold Normalize. intros (lvl & Hl & H)%bind_Ok. apply bind_Ok in H as (ms & Hm & H).
  apply bind_Ok in H as (ad & Ha & H). apply bind_Ok in H as (dr & Hr & [= <-]). split; simpl.
  - unfold normalizeLevel in Hl. case_bool_decide; [simplify_eq; set_solver|].
    destruct (contains _ _) eqn:E; simplify_eq. by apply contains_true in E.
  - apply uniqueValid_ok in Hm as (? & ? & _). done.
  - apply uniqueValid_ok in Ha as (? & ? & _). done.
  - unfold normalizeRange in Hr. destruct (s_DateRange s) as [d|]; [|by simplify_eq].
    destruct (bool_decide _ || bool_decide _) eqn:Ez; [done|].
    apply orb_false_iff in Ez as [H1%bool_decide_eq_false H2%bool_decide_eq_false].
    destruct (_ <? _)%Z eqn:E; [done|]. apply Z.ltb_ge in E. intros dr' ?. by simplify_eq/=.
Qed.

Lemma level_fixed l : l ∈ [DisclosureFull; DisclosurePseudonymous; DisclosureRedacted] ->
  levelOf l = l /\ normalizeLevel l = Ok l.
Proof. intros H. repeat (apply elem_of_cons in H as [->|H]; [by split; vm_compute|]). by apply elem_of_nil in H. Qed.

(** Normalization is a closure: what it returns is canonical, and canonical
    scopes are its fixed points. *)
Lemma Normalize_fixed s : canonical s -> Normalize s = Ok s.
Proof.
  intros [Hl [Hm Hm'] [Ha Ha'] Hr]. unfold Normalize. rewrite (proj2 (level_fixed _ Hl)). cbn.
  unfold normalizeMethods. rewrite uniqueValid_fixed; [|done|done|done|set_solver]. cbn.
  unfold normalizeAddresses. rewrite uniqueValid_fixed; [|apply levelOf_address|done|done|set_solver]. cbn.
  destruct s as [ms ad [[st en]|] lvl]; [|done]. simpl in *. specialize (Hr _ eq_refl) as (H1 & H2 & H3). simpl in *.
  rewrite !bool_decide_false by done. simpl. by apply Z.ltb_ge in H3 as ->.
Qed.
Lemma canonical_spec s : canonical s <-> Normalize s = Ok s.
Proof. split; [apply Normalize_fixed|apply Normalize_canonical]. Qed.

Lemma EffectiveLevel_canonical s : canonical s -> EffectiveLevel s = s_DisclosureLevel s.
Proof.
  intros [Hl _ _ _]. unfold EffectiveLevel. rewrite (proj1 (level_fixed _ Hl)).
  repeat (apply elem_of_cons in Hl as [->|Hl]; [by vm_compute|]). by apply elem_of_nil in Hl.
Qed.
(** A stored scope is read as it is stored. *)
Lemma ForRead_canonical s : canonical s -> ForRead s = Ok s.
Proof.
  intros Hs. unfold ForRead. rewrite EffectiveLevel_canonical by done.
  destruct s; simpl. by apply Normalize_fixed.
Qed.

(** ** Staying inside a scope *)
Record within (s p : Scope) : Prop := {
  within_transactions : forall from to t, CoversTransaction s from to t = true -> CoversTransaction p from to t = true;
  within_activity : ValidateActivity s = Ok tt -> ValidateActivity p = Ok tt;
  within_range : forall t, inRange s t = true -> inRange p t = true;
  within_level : (disclosureRank (s_DisclosureLevel s) <= disclosureRank (s_DisclosureLevel p))%Z }.

#[export] Instance within_preorder : PreOrder within.
Proof.
  split; [intros s; by split|]. intros s t u [H1 H2 H3 H4] [K1 K2 K3 K4].
  split; [auto..|]. by etrans.
Qed.

Lemma InDateRange_mono s p t :
  (forall t, inRange s t = true -> inRange p t = true) ->
  (s_DateRange p <> None -> s_DateRange s <> None) -> InDateRange s t = true -> InDateRange p t = true.
Proof.
  intros Hr Hn. unfold InDateRange. destruct (s_DateRange p) as [dp|]; [|done].
  destruct (s_DateRange s) as [ds|]; [|by destruct Hn]. destruct (t <=? 0)%Z; [done|]. apply Hr.
Qed.
Lemma InAddressScope_mono s p addrs :
  (s_Addresses s = [] -> s_Addresses p = []) -> (s_Addresses p <> [] -> s_Addresses s ⊆ s_Addresses p) ->
  InAddressScope s addrs = true -> InAddressScope p addrs = true.
Proof.
  intros Hn Hs. unfold InAddressScope. rewrite !orb_true_iff, !bool_decide_eq_true.
  intros [He|H]; [by left; apply Hn|]. destruct (decide (s_Addresses p = [])) as [|Hp]; [by left|right].
  apply existsb_true in H as (a & Ha & [Hne H]%andb_true_iff). apply existsb_true in H as (b & Hb & Hab).
  apply existsb_true. exists a. split; [done|]. rewrite Hne. simpl. apply existsb_true. exists b.
  split; [by apply Hs|done].
Qed.

(** The addresses of a canonical scope are lower-case. *)
Lemma canonical_lower s a : canonical s -> a ∈ s_Addresses s -> ToLower a = a.
Proof.
  intros [_ _ [Hf _] _] Ha. rewrite Forall_forall in Hf. apply Hf in Ha.
  rewrite <- (levelOf_address a Ha) at 1. unfold levelOf. rewrite ToLower_idemp. by apply levelOf_address.
Qed.

(** Passing the subset test keeps a canonical scope inside the other one. *)
Lemma isSubsetOf_within s p : canonical s -> canonical p -> isSubsetOf s p = true -> within s p.
Proof.
  intros Hs Hp. unfold isSubsetOf.
  intros [[[Hm%negb_true_iff Ha]%andb_true_iff Hd]%andb_true_iff Hl%Z.leb_le]%andb_true_iff.
  apply orb_false_iff in Hm as [Ht Hact].
  assert (Htx : AllowsTransactionHistory s = true -> AllowsTransactionHistory p = true).
  { intros E. rewrite E in Ht. by destruct (AllowsTransactionHistory p). }
  assert (Hal : AllowsActivityLogs s = true -> AllowsActivityLogs p = true).
  { intros E. rewrite E in Hact. by destruct (AllowsActivityLogs p). }
  assert (Hr : forall t, inRange s t = true -> inRange p t = true).
  { intros t. unfold inRange. destruct (s_DateRange p) as [dp|]; [|done]. destruct (s_DateRange s) as [ds|]; [|done].
    apply negb_true_iff, orb_false_iff in Hd as [?%Z.ltb_ge ?%Z.ltb_ge].
    rewrite !andb_true_iff, !Z.leb_le. lia. }
  assert (Hn : s_Addresses s = [] -> s_Addresses p = []).
  { intros E. rewrite E in Ha. case_bool_decide; [done|]. simpl in Ha. done. }
  assert (Hsub : s_Addresses p <> [] -> s_Addresses s ⊆ s_Addresses p).
  { intros Hne a Hin. rewrite bool_decide_false in Ha by done. simpl in Ha.
    apply andb_true_iff in Ha as [_ Ha]. rewrite forallb_true in Ha. specialize (Ha a Hin).
    apply contains_true, list_elem_of_fmap in Ha as (b & E & Hb).
    rewrite (canonical_lower s a), (canonical_lower p b) in E by done. by subst. }
  split; [|..|done|done].
  - intros from to t. unfold CoversTransaction. rewrite !andb_true_iff. intros [[H1 H2] H3].
    split_and!; [by apply Htx| |by eapply InAddressScope_mono].
    eapply InDateRange_mono; [done| |done]. intros Hne E. rewrite E in Hd. by destruct (s_DateRange p).
  - unfold ValidateActivity. destruct (AllowsActivityLogs s); [|done]. rewrite Hal by done. simpl.
    destruct (bool_decide_reflect (s_Addresses s = [])); [|done]. by rewrite bool_decide_true by auto.
Qed.

Lemma grantedScope_within requested narrowed granted :
  grantedScope requested narrowed = Ok granted ->
  exists base, Normalize requested = Ok base /\ canonical granted /\ within granted base.
Proof.
  unfold grantedScope. intros (base & Hb & H)%bind_Ok. apply bind_Ok in H as (g & Hg & Hn).
  exists base. split; [done|]. pose proof (Normalize_canonical _ _ Hb) as Cb.
  destruct narrowed as [n|].
  - apply bind_Ok in Hg as (m & Hm & Hg). destruct (isSubsetOf m base) eqn:Es; simplify_eq.
    pose proof (Normalize_canonical _ _ Hm) as Cm. rewrite Normalize_fixed in Hn by done. injection Hn as <-.
    split; [done|by apply isSubsetOf_within].
  - injection Hg as <-. rewrite Normalize_fixed in Hn by done. injection Hn as <-. by split.
Qed.
