(* ===== verification/DisclosureStore.v ===== *)
(** * The disclosure tables and the programs that use them:
    [internal/disclosure/models.go], [internal/db/disclosure_store.go] and
    [internal/disclosure/service.go].

    A method of the store or of the service is a [prog]: a tree of SQL statements,
    clock readings and fresh identifiers with what the code does with each answer.
    [exec] runs one statement on the shared tables; it may fail, before or after
    its effect.  Programs of several callers interleave statement by statement
    ([DisclosureProps.v]); [run] is one program on its own.

    [timestamptz] is what the driver and a [TIMESTAMPTZ] column keep of an instant.
    An identifier of [uuid.New] is never that of an earlier row: an insert that
    reuses one is refused, like a primary key violation.  The [JSONB] columns hold
    the value that was written; a value that cannot be read back is a failed
    statement. *)
From S2P Require Import Prelude GoStrings Methods Models Db Sha256 DisclosureScope Programs.
From Stdlib Require Import Ascii.
Local Open Scope string_scope.

(** ** Data *)
Inductive RequestStatus := StatusPending | StatusApproved | StatusRejected | StatusExpired | StatusRevoked.
#[export] Instance RequestStatus_eq_dec : EqDecision RequestStatus.
Proof. solve_decision. Defined.
Definition statusText (st : RequestStatus) : string :=
  match st with
  | StatusPending => "pending" | StatusApproved => "approved" | StatusRejected => "rejected"
  | StatusExpired => "expired" | StatusRevoked => "revoked"
  end.

Inductive EventAction :=
| ActionViewLogs | ActionViewTransactions | ActionViewSummary | ActionExportReport | ActionViewTransaction
| ActionListAddresses | ActionResolveAddress | ActionViewEvents.
Inductive ResourceType :=
| ResourceAccessLogs | ResourceTransactions | ResourceSummary | ResourceReport | ResourceAddresses | ResourceEvents.
#[export] Instance EventAction_eq_dec : EqDecision EventAction.
Proof. solve_decision. Defined.
#[export] Instance ResourceType_eq_dec : EqDecision ResourceType.
Proof. solve_decision. Defined.

Definition ReportActivitySummary : string := "activity_summary".
Definition ReportSanctionsCheck : string := "sanctions_check".
Definition ReportCompliance : string := "compliance_report".

Record Request := {
  rq_ID : string; rq_RequesterUserID : option string; rq_RequesterDID : string; rq_TargetUserID : string;
  rq_OrgID : string; rq_Scope : Scope; rq_Reason : string; rq_LegalBasis : string; rq_Status : RequestStatus;
  rq_RequestedAt : Z; rq_ExpiresAt : option Z; rq_DecidedAt : option Z; rq_DecidedByUserID : option string;
  rq_DecisionReason : string }.
Record Grant := {
  gr_ID : string; gr_RequestID : string; gr_TokenHash : string; gr_Scope : Scope; gr_GrantedAt : Z;
  gr_ExpiresAt : Z; gr_RevokedAt : option Z; gr_RevokedReason : string }.
Record DataSummary := {
  ds_RecordCount : Z; ds_DateRange : option DateRange; ds_Methods : list string; ds_Addresses : list string }.
Record Event := {
  ev_ID : Z; ev_GrantID : string; ev_ViewerUserID : option string; ev_Action : EventAction;
  ev_ResourceType : ResourceType; ev_DataSummary : option DataSummary; ev_ViewerIP : string; ev_AccessedAt : Z }.
Record ActivityLogEntry := {
  ae_ID : Z; ae_Method : string; ae_StatusCode : Z; ae_IPAddress : string; ae_CreatedAt : Z }.
Record ActivitySummary := {
  as_TotalRequests : Z; as_SuccessfulCount : Z; as_FailedCount : Z; as_UniqueMethodCount : Z;
  as_MethodBreakdown : gmap string Z; as_DateRange : option DateRange; as_GeneratedAt : Z }.

(** [map[string]any] of a report *)
Inductive ReportValue :=
| RVString (s : string) | RVInt (n : Z) | RVTime (t : Z) | RVBool (b : bool) | RVStrings (l : list string)
| RVCounts (m : gmap string Z) | RVRange (r : option DateRange) | RVScope (s : Scope) | RVSummary (s : ActivitySummary).
Record Report := {
  rp_ID : string; rp_GrantID : string; rp_ReportType : string; rp_ReportData : list (string * ReportValue);
  rp_GeneratedAt : Z; rp_ExpiresAt : Z }.
Record RequestWithDetails := {
  rd_Request : Request; rd_RequesterDID : string; rd_TargetDID : string; rd_DecidedByDID : string;
  rd_ActiveGrantID : option string }.
Record GrantWithRequest := { gw_Grant : Grant; gw_Request : option Request }.
Record AccessLogRow := {
  al_ID : Z; al_ExternalID : string; al_Method : string; al_StatusCode : Z; al_IPAddress : option string;
  al_CreatedAt : Z }.
Record ActivityCounts := {
  ac_total : Z; ac_successful : Z; ac_failed : Z; ac_methods : Z; ac_min : option Z; ac_max : option Z }.

Definition IsActive (now : Z) (g : Grant) : bool :=
  match gr_RevokedAt g with Some _ => false | None => (now <? gr_ExpiresAt g)%Z end.
Definition IsExpired (now : Z) (r : Request) : bool :=
  match rq_ExpiresAt r with
  | None => false
  | Some t => (t <? now)%Z && bool_decide (rq_Status r = StatusPending)
  end.
Definition CanBeDecided (now : Z) (r : Request) : bool :=
  bool_decide (rq_Status r = StatusPending) && negb (IsExpired now r).

(** ** Filters of a listing *)
Record DisclosureFilter := {
  df_Status : option string; df_TargetUserID : string; df_RequesterDID : string; df_DisclosureLevel : option string;
  df_DateFrom : option Z; df_DateTo : option Z; df_OrgID : string; df_Limit : Z; df_Offset : Z }.
Definition NewDefaultFilter : DisclosureFilter := {|
  df_Status := None; df_TargetUserID := ""; df_RequesterDID := ""; df_DisclosureLevel := None; df_DateFrom := None;
  df_DateTo := None; df_OrgID := ""; df_Limit := 100; df_Offset := 0 |}.
Record DisclosureListResult := {
  lr_Requests : list RequestWithDetails; lr_RequestsTotal : Z; lr_RequestsLimit : Z; lr_RequestsOffset : Z }.
Record GrantListResult := {
  lr_Grants : list GrantWithRequest; lr_GrantsTotal : Z; lr_GrantsLimit : Z; lr_GrantsOffset : Z }.

(** ** Tables *)
Record DisclosureDB := {
  dd_rbac : Database;
  dd_requests : list Request; dd_grants : list Grant; dd_events : list Event; dd_reports : list Report;
  dd_event_seq : Z; dd_access_logs : list AccessLogRow }.

(** The tables with the clock and every row that was ever inserted. *)
Record World := {
  w_db : DisclosureDB; w_now : Z; w_requests : gmap string Request; w_grants : gmap string Grant }.

Definition set_db (w : World) (d : DisclosureDB) : World :=
  {| w_db := d; w_now := w_now w; w_requests := w_requests w; w_grants := w_grants w |}.
Definition set_requests (d : DisclosureDB) l : DisclosureDB := {|
  dd_rbac := dd_rbac d; dd_requests := l; dd_grants := dd_grants d; dd_events := dd_events d; dd_reports := dd_reports d;
  dd_event_seq := dd_event_seq d; dd_access_logs := dd_access_logs d |}.
Definition set_grants (d : DisclosureDB) l : DisclosureDB := {|
  dd_rbac := dd_rbac d; dd_requests := dd_requests d; dd_grants := l; dd_events := dd_events d;
  dd_reports := dd_reports d; dd_event_seq := dd_event_seq d; dd_access_logs := dd_access_logs d |}.
Definition set_events (d : DisclosureDB) l n : DisclosureDB := {|
  dd_rbac := dd_rbac d; dd_requests := dd_requests d; dd_grants := dd_grants d; dd_events := l;
  dd_reports := dd_reports d; dd_event_seq := n; dd_access_logs := dd_access_logs d |}.
Definition set_reports (d : DisclosureDB) l : DisclosureDB := {|
  dd_rbac := dd_rbac d; dd_requests := dd_requests d; dd_grants := dd_grants d; dd_events := dd_events d;
  dd_reports := l; dd_event_seq := dd_event_seq d; dd_access_logs := dd_access_logs d |}.

(** Row updates *)
Definition with_status (st : RequestStatus) (r : Request) : Request := {|
  rq_ID := rq_ID r; rq_RequesterUserID := rq_RequesterUserID r; rq_RequesterDID := rq_RequesterDID r;
  rq_TargetUserID := rq_TargetUserID r; rq_OrgID := rq_OrgID r; rq_Scope := rq_Scope r; rq_Reason := rq_Reason r;
  rq_LegalBasis := rq_LegalBasis r; rq_Status := st; rq_RequestedAt := rq_RequestedAt r;
  rq_ExpiresAt := rq_ExpiresAt r; rq_DecidedAt := rq_DecidedAt r; rq_DecidedByUserID := rq_DecidedByUserID r;
  rq_DecisionReason := rq_DecisionReason r |}.
Definition decide_as (st : RequestStatus) (at_ : Z) (by_ : option string) (reason : string) (r : Request) : Request := {|
  rq_ID := rq_ID r; rq_RequesterUserID := rq_RequesterUserID r; rq_RequesterDID := rq_RequesterDID r;
  rq_TargetUserID := rq_TargetUserID r; rq_OrgID := rq_OrgID r; rq_Scope := rq_Scope r; rq_Reason := rq_Reason r;
  rq_LegalBasis := rq_LegalBasis r; rq_Status := st; rq_RequestedAt := rq_RequestedAt r;
  rq_ExpiresAt := rq_ExpiresAt r; rq_DecidedAt := Some at_; rq_DecidedByUserID := by_; rq_DecisionReason := reason |}.
Definition without_did (r : Request) : Request := {|
  rq_ID := rq_ID r; rq_RequesterUserID := rq_RequesterUserID r; rq_RequesterDID := "";
  rq_TargetUserID := rq_TargetUserID r; rq_OrgID := rq_OrgID r; rq_Scope := rq_Scope r; rq_Reason := rq_Reason r;
  rq_LegalBasis := rq_LegalBasis r; rq_Status := rq_Status r; rq_RequestedAt := rq_RequestedAt r;
  rq_ExpiresAt := rq_ExpiresAt r; rq_DecidedAt := rq_DecidedAt r; rq_DecidedByUserID := rq_DecidedByUserID r;
  rq_DecisionReason := rq_DecisionReason r |}.
Definition revoke_at (at_ : Z) (reason : string) (g : Grant) : Grant := {|
  gr_ID := gr_ID g; gr_RequestID := gr_RequestID g; gr_TokenHash := gr_TokenHash g; gr_Scope := gr_Scope g;
  gr_GrantedAt := gr_GrantedAt g; gr_ExpiresAt := gr_ExpiresAt g; gr_RevokedAt := Some at_; gr_RevokedReason := reason |}.
Definition with_scope (s : Scope) (g : Grant) : Grant := {|
  gr_ID := gr_ID g; gr_RequestID := gr_RequestID g; gr_TokenHash := gr_TokenHash g; gr_Scope := s;
  gr_GrantedAt := gr_GrantedAt g; gr_ExpiresAt := gr_ExpiresAt g; gr_RevokedAt := gr_RevokedAt g;
  gr_RevokedReason := gr_RevokedReason g |}.

(** ** Statements *)
Inductive Sql : Type -> Type :=
| InsertRequest (r : Request) : Sql unit
| SelectRequest (id : string) : Sql (option Request)
| SelectDetails (id : string) : Sql (option RequestWithDetails)
| UpdateStatus (id : string) (st : RequestStatus) (by_ : option string) (reason : string) : Sql unit
| SelectRequests (cond : Request -> bool) : Sql (list Request)
| SelectPendingFor (userID : string) : Sql (list RequestWithDetails)
| SelectAllFor (userID : string) : Sql (list RequestWithDetails)
| CountRequests (cond : Request -> bool) : Sql Z
| SelectRequestPage (cond : Request -> bool) (limit offset : Z) : Sql (list RequestWithDetails)
| ExpirePending : Sql Z
| DeletePending (id : string) : Sql Z
| InsertGrant (g : Grant) : Sql unit
| SelectGrant (id : string) : Sql (option Grant)
| SelectGrantByToken (hash : string) : Sql (option Grant)
| SelectActiveGrant (requestID : string) : Sql (option Grant)
| RevokeGrantRow (id reason : string) : Sql unit
| SelectActiveGrantsFor (userID : string) : Sql (list GrantWithRequest)
| SelectAllGrantsFor (userID : string) : Sql (list GrantWithRequest)
| SelectActiveByDID (did targetExternalID : string) : Sql (option GrantWithRequest)
| CountGrants (cond : Z -> Grant -> Request -> bool) : Sql Z
| SelectGrantPage (cond : Z -> Grant -> Request -> bool) (limit offset : Z) : Sql (list GrantWithRequest)
| InsertEvent (e : Event) : Sql Z
| SelectEvents (grantID : string) (limit offset : Z) : Sql (list Event)
| CountEvents (grantID : string) : Sql (list (EventAction * Z))
| InsertReport (r : Report) : Sql unit
| SelectReport (id : string) : Sql (option Report)
| SelectCachedReport (grantID reportType : string) : Sql (option Report)
| DeleteReports : Sql Z
| SelectLogs (externalID : string) (bounds : option (Z * Z)) (limit offset : Z) : Sql (list ActivityLogEntry)
| CountLogs (externalID : string) (bounds : option (Z * Z)) : Sql ActivityCounts
| SelectBreakdown (externalID : string) (bounds : option (Z * Z)) : Sql (list (string * Z))
| SelectExternalID (userID : string) : Sql string
| SelectUserByExternalID (externalID : string) : Sql (option User)
| SelectGrantBounds (grantID : string) : Sql (option (string * Z * Z * Scope))
| ExistsMember (userDID orgID : string) : Sql bool
| SelectUserOrgs (userID : string) : Sql (list string).

(** What the environment decides when a statement runs: whether it fails, and
    then whether its effect was committed; and the row a [LIMIT 1] without
    [ORDER BY] keeps. *)
Record Choice := { ch_fault : option (string * bool); ch_row : nat }.
Definition steady : Choice := {| ch_fault := None; ch_row := 0 |}.

(** [ORDER BY key DESC] *)
Definition notOlder {A} (key : A -> Z) (a b : A) : Prop := (key b <= key a)%Z.
#[export] Instance notOlder_dec {A} (key : A -> Z) : RelDecision (notOlder key).
Proof. intros a b. unfold notOlder. apply _. Defined.
Definition newestFirst {A} (key : A -> Z) : list A -> list A := merge_sort (notOlder key).
(** [LIMIT] and [OFFSET] *)
Definition page {A} (limit offset : Z) (l : list A) : result (list A) :=
  if (limit <? 0)%Z then Err "LIMIT must not be negative"
  else if (offset <? 0)%Z then Err "OFFSET must not be negative"
  else Ok (take (Z.to_nat limit) (drop (Z.to_nat offset) l)).
Definition count {A} (l : list A) : Z := Z.of_nat (length l).
Definition map_where {A} (p : A -> bool) (f : A -> A) (l : list A) : list A := map (fun x => if p x then f x else x) l.

Section statements.
Context `{HT : TimestampColumn}.

Definition stored_request (r : Request) : Request := {|
  rq_ID := rq_ID r; rq_RequesterUserID := rq_RequesterUserID r; rq_RequesterDID := rq_RequesterDID r;
  rq_TargetUserID := rq_TargetUserID r; rq_OrgID := rq_OrgID r; rq_Scope := rq_Scope r; rq_Reason := rq_Reason r;
  rq_LegalBasis := rq_LegalBasis r; rq_Status := rq_Status r; rq_RequestedAt := timestamptz (rq_RequestedAt r);
  rq_ExpiresAt := timestamptz <$> rq_ExpiresAt r; rq_DecidedAt := None; rq_DecidedByUserID := None;
  rq_DecisionReason := "" |}.
Definition stored_grant (g : Grant) : Grant := {|
  gr_ID := gr_ID g; gr_RequestID := gr_RequestID g; gr_TokenHash := gr_TokenHash g; gr_Scope := gr_Scope g;
  gr_GrantedAt := timestamptz (gr_GrantedAt g); gr_ExpiresAt := timestamptz (gr_ExpiresAt g); gr_RevokedAt := None;
  gr_RevokedReason := "" |}.
Definition stored_event (n : Z) (e : Event) : Event := {|
  ev_ID := n; ev_GrantID := ev_GrantID e; ev_ViewerUserID := ev_ViewerUserID e; ev_Action := ev_Action e;
  ev_ResourceType := ev_ResourceType e; ev_DataSummary := ev_DataSummary e; ev_ViewerIP := ev_ViewerIP e;
  ev_AccessedAt := timestamptz (ev_AccessedAt e) |}.
Definition stored_report (r : Report) : Report := {|
  rp_ID := rp_ID r; rp_GrantID := rp_GrantID r; rp_ReportType := rp_ReportType r; rp_ReportData := rp_ReportData r;
  rp_GeneratedAt := timestamptz (rp_GeneratedAt r); rp_ExpiresAt := timestamptz (rp_ExpiresAt r) |}.

Section rows.
Variable w : World.
Let d : DisclosureDB := w_db w.
(** [NOW()] *)
Definition dbNow : Z := timestamptz (w_now w).

Definition requestRow (id : string) : option Request := find (fun r => bool_decide (rq_ID r = id)) (dd_requests d).
Definition grantRow (id : string) : option Grant := find (fun g => bool_decide (gr_ID g = id)) (dd_grants d).
Definition userRow (id : string) : option User := find (fun u => bool_decide (u_ID u = id)) (db_users (dd_rbac d)).
Definition known_user (id : option string) : bool :=
  match id with None => true | Some id => bool_decide (is_Some (userRow id)) end.
(** [COALESCE(u.external_id, '')] of a left join *)
Definition externalOf (id : option string) : string := from_option u_ExternalID "" (id ≫= userRow).

(** [revoked_at IS NULL AND expires_at > NOW()] *)
Definition activeRow (g : Grant) : bool := bool_decide (gr_RevokedAt g = None) && (dbNow <? gr_ExpiresAt g)%Z.
Definition activeGrantsOf (requestID : string) : list Grant :=
  List.filter (fun g => bool_decide (gr_RequestID g = requestID) && activeRow g) (dd_grants d).
(** [LIMIT 1] without an order *)
Definition pick (c : Choice) {A} (l : list A) : option A := l !! (ch_row c mod Nat.max 1 (length l)).

(** [FROM disclosure_grants g JOIN disclosure_requests r ON g.request_id = r.id] *)
Definition joined : list (Grant * Request) :=
  concat (map (fun g => from_option (fun r => [(g, r)]) [] (requestRow (gr_RequestID g))) (dd_grants d)).
Definition joinedWhere (cond : Grant -> Request -> bool) : list (Grant * Request) :=
  List.filter (fun gr => cond gr.1 gr.2) joined.
Definition newestGrants (l : list (Grant * Request)) : list GrantWithRequest :=
  map (fun gr => {| gw_Grant := gr.1; gw_Request := Some gr.2 |}) (newestFirst (fun gr => gr_GrantedAt gr.1) l).

Definition detailsOf (c : Choice) (full : Request -> Request) (decided active : bool) (r : Request) : RequestWithDetails := {|
  rd_Request := full r; rd_RequesterDID := externalOf (rq_RequesterUserID r);
  rd_TargetDID := externalOf (Some (rq_TargetUserID r));
  rd_DecidedByDID := if decided then externalOf (rq_DecidedByUserID r) else "";
  rd_ActiveGrantID := if active then gr_ID <$> pick c (activeGrantsOf (rq_ID r)) else None |}.

Definition logsOf (externalID : string) (bounds : option (Z * Z)) : list AccessLogRow :=
  List.filter (fun l => bool_decide (al_ExternalID l = externalID) &&
    match bounds with None => true | Some (s, e) => (s <=? al_CreatedAt l)%Z && (al_CreatedAt l <=? e)%Z end)
    (dd_access_logs d).
Definition logEntry (l : AccessLogRow) : ActivityLogEntry := {|
  ae_ID := al_ID l; ae_Method := al_Method l; ae_StatusCode := al_StatusCode l;
  ae_IPAddress := default "" (al_IPAddress l); ae_CreatedAt := al_CreatedAt l |}.
Definition minOf (l : list Z) : option Z := match l with [] => None | x :: l => Some (foldl Z.min x l) end.
Definition maxOf (l : list Z) : option Z := match l with [] => None | x :: l => Some (foldl Z.max x l) end.
Definition countsOf (l : list AccessLogRow) : ActivityCounts := {|
  ac_total := count l;
  ac_successful := count (List.filter (fun x => (200 <=? al_StatusCode x) && (al_StatusCode x <? 300))%Z l);
  ac_failed := count (List.filter (fun x => (400 <=? al_StatusCode x)%Z) l);
  ac_methods := count (dedup [] (map al_Method l));
  ac_min := minOf (map al_CreatedAt l); ac_max := maxOf (map al_CreatedAt l) |}.
(** [GROUP BY] with a count *)
Definition tally {A} `{EqDecision A} (l : list A) : list (A * Z) :=
  map (fun x => (x, count (List.filter (fun y => bool_decide (y = x)) l))) (dedup [] l).

Definition memberOf (did orgID : string) : bool :=
  existsb (fun u => bool_decide (u_ExternalID u = did) &&
    existsb (fun mg => bool_decide (g_OrgID mg.2 = orgID)) (memberGroups dbNow (dd_rbac d) (u_ID u)))
    (db_users (dd_rbac d)).
End rows.

(** ** Running a statement *)
Definition insert_request (r : Request) (w : World) : World := {|
  w_db := set_requests (w_db w) (dd_requests (w_db w) ++ [stored_request r]); w_now := w_now w;
  w_requests := <[rq_ID r := stored_request r]> (w_requests w); w_grants := w_grants w |}.
Definition insert_grant (g : Grant) (w : World) : World := {|
  w_db := set_grants (w_db w) (dd_grants (w_db w) ++ [stored_grant g]); w_now := w_now w;
  w_requests := w_requests w; w_grants := <[gr_ID g := stored_grant g]> (w_grants w) |}.

(** [ON DELETE CASCADE]: the grants of the deleted rows go, with their events
    and reports. *)
Definition deletable (id : string) (r : Request) : bool :=
  bool_decide (rq_ID r = id) && bool_decide (rq_Status r = StatusPending).
Definition delete_pending (id : string) (w : World) : World :=
  let d := w_db w in
  if existsb (deletable id) (dd_requests d) then
    let gone g := bool_decide (gr_RequestID g = id) in
    let goneID gid := existsb (fun g => gone g && bool_decide (gr_ID g = gid)) (dd_grants d) in
    set_db w {| dd_rbac := dd_rbac d; dd_requests := List.filter (fun r => negb (deletable id r)) (dd_requests d);
                dd_grants := List.filter (fun g => negb (gone g)) (dd_grants d);
                dd_events := List.filter (fun e => negb (goneID (ev_GrantID e))) (dd_events d);
                dd_reports := List.filter (fun r => negb (goneID (rp_GrantID r))) (dd_reports d);
                dd_event_seq := dd_event_seq d; dd_access_logs := dd_access_logs d |}
  else w.

Definition expirable (w : World) (r : Request) : bool :=
  bool_decide (rq_Status r = StatusPending) &&
  match rq_ExpiresAt r with Some t => (t <? dbNow w)%Z | None => false end.

Definition fk : string := "violates foreign key constraint".
Definition duplicate : string := "duplicate key value violates unique constraint".

Definition statement {X} (c : Choice) (e : Sql X) (w : World) : result X * World :=
  let d := w_db w in
  match e with
  | InsertRequest r =>
      if bool_decide (is_Some (w_requests w !! rq_ID r)) then (Err duplicate, w)
      else if negb (known_user w (rq_RequesterUserID r) && known_user w (Some (rq_TargetUserID r)) &&
                    existsb (fun o => bool_decide (o_ID o = rq_OrgID r)) (db_organizations (dd_rbac d)))
      then (Err fk, w)
      else (Ok tt, insert_request r w)
  | SelectRequest id => (Ok (requestRow w id), w)
  | SelectDetails id => (Ok (detailsOf w c without_did true true <$> requestRow w id), w)
  | UpdateStatus id st by_ reason =>
      if known_user w by_
      then (Ok tt, set_db w (set_requests d (map_where (fun r => bool_decide (rq_ID r = id))
                              (decide_as st (dbNow w) by_ reason) (dd_requests d))))
      else if existsb (fun r => bool_decide (rq_ID r = id)) (dd_requests d) then (Err fk, w) else (Ok tt, w)
  | SelectRequests cond => (Ok (newestFirst rq_RequestedAt (List.filter cond (dd_requests d))), w)
  | SelectPendingFor userID =>
      (Ok (map (detailsOf w c without_did false false) (newestFirst rq_RequestedAt
             (List.filter (fun r => bool_decide (rq_TargetUserID r = userID) && bool_decide (rq_Status r = StatusPending) &&
                match rq_ExpiresAt r with None => true | Some t => (dbNow w <? t)%Z end) (dd_requests d)))), w)
  | SelectAllFor userID =>
      (Ok (map (detailsOf w c id false true) (newestFirst rq_RequestedAt
             (List.filter (fun r => bool_decide (rq_TargetUserID r = userID)) (dd_requests d)))), w)
  | CountRequests cond => (Ok (count (List.filter cond (dd_requests d))), w)
  | SelectRequestPage cond limit offset =>
      (map (detailsOf w c id true true) <$>
         page limit offset (newestFirst rq_RequestedAt (List.filter cond (dd_requests d))), w)
  | ExpirePending =>
      (Ok (count (List.filter (expirable w) (dd_requests d))),
       set_db w (set_requests d (map_where (expirable w) (with_status StatusExpired) (dd_requests d))))
  | DeletePending id => (Ok (count (List.filter (deletable id) (dd_requests d))), delete_pending id w)
  | InsertGrant g =>
      if bool_decide (is_Some (w_grants w !! gr_ID g)) ||
         existsb (fun h => bool_decide (gr_TokenHash h = gr_TokenHash g)) (dd_grants d)
      then (Err duplicate, w)
      else match requestRow w (gr_RequestID g) with
           | None => (Err fk, w)
           | Some _ => (Ok tt, insert_grant g w)
           end
  | SelectGrant id => (Ok (grantRow w id), w)
  | SelectGrantByToken h => (Ok (find (fun g => bool_decide (gr_TokenHash g = h)) (dd_grants d)), w)
  | SelectActiveGrant requestID => (Ok (pick c (activeGrantsOf w requestID)), w)
  | RevokeGrantRow id reason =>
      (Ok tt, set_db w (set_grants d (map_where (fun g => bool_decide (gr_ID g = id))
                          (revoke_at (dbNow w) reason) (dd_grants d))))
  | SelectActiveGrantsFor userID =>
      (Ok (map (fun gw => {| gw_Grant := gw_Grant gw; gw_Request := without_did <$> gw_Request gw |})
             (newestGrants (joinedWhere w (fun g r => bool_decide (rq_TargetUserID r = userID) && activeRow w g)))), w)
  | SelectAllGrantsFor userID =>
      (Ok (newestGrants (joinedWhere w (fun _ r => bool_decide (rq_TargetUserID r = userID)))), w)
  | SelectActiveByDID did target =>
      (Ok (head (newestGrants (joinedWhere w (fun g r =>
         bool_decide (rq_RequesterDID r = did) && negb (bool_decide (did = "")) &&
         bool_decide (u_ExternalID <$> userRow w (rq_TargetUserID r) = Some target) && activeRow w g)))), w)
  | CountGrants cond => (Ok (count (joinedWhere w (cond (dbNow w)))), w)
  | SelectGrantPage cond limit offset => (page limit offset (newestGrants (joinedWhere w (cond (dbNow w)))), w)
  | InsertEvent e =>
      match grantRow w (ev_GrantID e) with
      | None => (Err fk, w)
      | Some _ =>
          if known_user w (ev_ViewerUserID e)
          then (Ok (dd_event_seq d), set_db w (set_events d (dd_events d ++ [stored_event (dd_event_seq d) e]) (dd_event_seq d + 1)))
          else (Err fk, w)
      end
  | SelectEvents gid limit offset =>
      (page limit offset (newestFirst ev_AccessedAt
         (List.filter (fun e => bool_decide (ev_GrantID e = gid)) (dd_events d))), w)
  | CountEvents gid =>
      (Ok (tally (map ev_Action (List.filter (fun e => bool_decide (ev_GrantID e = gid)) (dd_events d)))), w)
  | InsertReport r =>
      if existsb (fun x => bool_decide (rp_ID x = rp_ID r)) (dd_reports d) then (Err duplicate, w)
      else match grantRow w (rp_GrantID r) with
           | None => (Err fk, w)
           | Some _ => (Ok tt, set_db w (set_reports d (dd_reports d ++ [stored_report r])))
           end
  | SelectReport id => (Ok (find (fun r => bool_decide (rp_ID r = id)) (dd_reports d)), w)
  | SelectCachedReport gid ty =>
      (Ok (head (newestFirst rp_GeneratedAt (List.filter (fun r =>
         bool_decide (rp_GrantID r = gid) && bool_decide (rp_ReportType r = ty) && (dbNow w <? rp_ExpiresAt r)%Z)
         (dd_reports d)))), w)
  | DeleteReports =>
      (Ok (count (List.filter (fun r => (rp_ExpiresAt r <? dbNow w)%Z) (dd_reports d))),
       set_db w (set_reports d (List.filter (fun r => negb (rp_ExpiresAt r <? dbNow w)%Z) (dd_reports d))))
  | SelectLogs ext bounds limit offset =>
      (map logEntry <$> page limit offset (newestFirst al_CreatedAt (logsOf w ext bounds)), w)
  | CountLogs ext bounds => (Ok (countsOf (logsOf w ext bounds)), w)
  | SelectBreakdown ext bounds => (Ok (tally (map al_Method (logsOf w ext bounds))), w)
  | SelectExternalID userID =>
      (match userRow w userID with Some u => Ok (u_ExternalID u) | None => Err "sql: no rows in result set" end, w)
  | SelectUserByExternalID ext =>
      (Ok (find (fun u => bool_decide (u_ExternalID u = ext)) (db_users (dd_rbac d))), w)
  | SelectGrantBounds gid =>
      (Ok (g ← grantRow w gid; r ← requestRow w (gr_RequestID g); u ← userRow w (rq_TargetUserID r);
           Some (u_ExternalID u, gr_GrantedAt g, gr_ExpiresAt g, gr_Scope g)), w)
  | ExistsMember did orgID => (Ok (memberOf w did orgID), w)
  | SelectUserOrgs userID => (Ok (map (fun mg => g_OrgID mg.2) (memberGroups (dbNow w) (dd_rbac d) userID)), w)
  end.

Definition exec {X} (c : Choice) (e : Sql X) (w : World) : result X * World :=
  match ch_fault c with
  | None => statement c e w
  | Some (err, committed) => (Err err, if committed : bool then (statement c e w).2 else w)
  end.
End statements.

(** ** Programs *)
Notation prog := (Programs.prog Sql).

(** One program on its own: each statement takes the next choice, the clock
    advances by the next tick before each step, identifiers come from a list. *)
Record Env := { en_choices : list Choice; en_ticks : list Z; en_uuids : list string }.
Definition tick (w : World) (dt : Z) : World :=
  {| w_db := w_db w; w_now := w_now w + dt; w_requests := w_requests w; w_grants := w_grants w |}.

Fixpoint run `{TimestampColumn} {A} (env : Env) (w : World) (p : prog A) : result A * World :=
  match p with
  | Ret r => (r, w)
  | Vis e k =>
      let '(x, w') := exec (default steady (head (en_choices env))) e w in
      run {| en_choices := tail (en_choices env); en_ticks := en_ticks env; en_uuids := en_uuids env |} w' (k x)
  | Clock k =>
      let w' := tick w (default 0%Z (head (en_ticks env))) in
      run {| en_choices := en_choices env; en_ticks := tail (en_ticks env); en_uuids := en_uuids env |} w' (k (w_now w'))
  | Fresh k =>
      run {| en_choices := en_choices env; en_ticks := en_ticks env; en_uuids := tail (en_uuids env) |} w
        (k (default "" (head (en_uuids env))))
  end.

(** ** The store ([disclosure_store.go]) *)
Definition CreateRequest_ (r : Request) : prog unit := call "" (InsertRequest r).
Definition GetRequest (id : string) : prog (option Request) := call "failed to get disclosure request" (SelectRequest id).
Definition GetRequestWithDetails (id : string) : prog (option RequestWithDetails) :=
  call "failed to get disclosure request with details" (SelectDetails id).
Definition UpdateRequestStatus (id : string) (st : RequestStatus) (by_ : option string) (reason : string) : prog unit :=
  call "" (UpdateStatus id st by_ reason).
Definition statusIs (st : option RequestStatus) (r : Request) : bool :=
  match st with None => true | Some st => bool_decide (rq_Status r = st) end.
Definition ListRequestsByTarget (userID : string) (st : option RequestStatus) : prog (list Request) :=
  call "failed to query disclosure requests" (SelectRequests (fun r => bool_decide (rq_TargetUserID r = userID) && statusIs st r)).
Definition ListRequestsByRequester (userID : string) : prog (list Request) :=
  call "failed to query disclosure requests" (SelectRequests (fun r => bool_decide (rq_RequesterUserID r = Some userID))).
Definition ListRequestsByOrg (orgID : string) (st : option RequestStatus) : prog (list Request) :=
  call "failed to query disclosure requests" (SelectRequests (fun r => bool_decide (rq_OrgID r = orgID) && statusIs st r)).
Definition ListPendingRequestsForUser (userID : string) : prog (list RequestWithDetails) :=
  call "failed to list pending requests" (SelectPendingFor userID).
Definition ListAllRequestsForUser (userID : string) : prog (list RequestWithDetails) :=
  call "failed to list all requests for user" (SelectAllFor userID).
Definition ExpirePendingRequests : prog Z := call "" ExpirePending.

Definition CreateGrant (g : Grant) : prog unit := call "" (InsertGrant g).
Definition GetGrant (id : string) : prog (option Grant) := call "failed to get disclosure grant" (SelectGrant id).
Definition GetGrantByToken (h : string) : prog (option Grant) :=
  call "failed to get disclosure grant by token" (SelectGrantByToken h).
Definition GetGrantWithRequest (id : string) : prog (option GrantWithRequest) :=
  g ← GetGrant id;
  match g with
  | None => mret None
  | Some g => r ← GetRequest (gr_RequestID g); mret (Some {| gw_Grant := g; gw_Request := r |})
  end.
Definition GetActiveGrantForRequest (id : string) : prog (option Grant) := call "failed to get active grant" (SelectActiveGrant id).
Definition RevokeGrantStore (id reason : string) : prog unit := call "" (RevokeGrantRow id reason).
Definition ListActiveGrantsForTarget (userID : string) : prog (list GrantWithRequest) :=
  call "failed to list active grants" (SelectActiveGrantsFor userID).
Definition ListAllGrantsForTarget (userID : string) : prog (list GrantWithRequest) :=
  call "failed to list all grants for target" (SelectAllGrantsFor userID).
Definition GetActiveGrantByRequesterDID (did target : string) : prog (option GrantWithRequest) :=
  call "failed to get active grant by requester DID" (SelectActiveByDID did target).

Definition CreateEvent (e : Event) : prog Z := call "" (InsertEvent e).
Definition ListEventsByGrant (gid : string) (limit offset : Z) : prog (list Event) :=
  call "failed to list events" (SelectEvents gid limit offset).
Definition GetEventStats (gid : string) : prog (list (EventAction * Z)) := call "failed to get event stats" (CountEvents gid).
Definition CreateReport (r : Report) : prog unit := call "" (InsertReport r).
Definition GetReport (id : string) : prog (option Report) := call "failed to get report" (SelectReport id).
Definition GetReportByGrantAndType (gid ty : string) : prog (option Report) := call "failed to get report" (SelectCachedReport gid ty).
Definition DeleteExpiredReports : prog Z := call "" DeleteReports.
Definition GetUserExternalID (userID : string) : prog string := call "failed to get user external ID" (SelectExternalID userID).

(** Bounds in microseconds, rounded inwards. *)
Definition truncMicro (t : Z) : Z := (t / 1000 * 1000)%Z.
Definition disclosureActivityDateBounds (dr : DateRange) : Z * Z :=
  let start := truncMicro (dr_Start dr) in
  (if (start <? dr_Start dr)%Z then start + 1000 else start, truncMicro (dr_End dr))%Z.

(** The guard both activity queries start with. *)
Definition activityBounds (s : Scope) : result (option (Z * Z)) :=
  validated ← ForRead s;
  if bool_decide (s_Addresses validated = []) then Ok (disclosureActivityDateBounds <$> s_DateRange validated)
  else Err ErrScopeOutOfBounds.

Definition GetActivityLogsStore (ext : string) (s : Scope) (limit offset : Z) : prog (list ActivityLogEntry) :=
  bounds ← lifted (activityBounds s);
  call "failed to get activity logs" (SelectLogs ext bounds limit offset).

Definition GetActivitySummaryStore (ext : string) (s : Scope) : prog ActivitySummary :=
  bounds ← lifted (activityBounds s);
  at_ ← now;
  c ← call "failed to get summary counts" (CountLogs ext bounds);
  rows ← call "failed to get method breakdown" (SelectBreakdown ext bounds);
  mret {| as_TotalRequests := ac_total c; as_SuccessfulCount := ac_successful c; as_FailedCount := ac_failed c;
          as_UniqueMethodCount := ac_methods c;
          as_MethodBreakdown := foldl (fun m kv => <[kv.1 := kv.2]> m) ∅ rows;
          as_DateRange := match ac_min c, ac_max c with
                          | Some a, Some b => Some {| dr_Start := a; dr_End := b |}
                          | _, _ => None
                          end;
          as_GeneratedAt := at_ |}.

(** The window of a grant, narrowed by the dates of its scope. *)
Definition GetGrantActivityBounds (gid : string) : prog (option (string * Z * Z)) :=
  row ← call "failed to resolve grant activity bounds" (SelectGrantBounds gid);
  match row with
  | None => mret None
  | Some (ext, from, until, s) =>
      s ← lifted (ForRead s);
      _ ← lifted (ValidateActivity s);
      match s_DateRange s with
      | None => mret (Some (ext, from, until))
      | Some dr =>
          let '(start, end_) := disclosureActivityDateBounds dr in
          mret (Some (ext, if (from <? start)%Z then start else from, if (end_ <? until)%Z then end_ else until))
      end
  end.
Definition GetAccessLogsForExternalIDInRange (ext : string) (start end_ limit offset : Z)
  : prog (list ActivityLogEntry * Z) :=
  c ← call "failed to count activity logs for grant" (CountLogs ext (Some (start, end_)));
  rows ← call "failed to query activity logs for grant" (SelectLogs ext (Some (start, end_)) limit offset);
  mret (map (fun e => {| ae_ID := 0; ae_Method := ae_Method e; ae_StatusCode := ae_StatusCode e; ae_IPAddress := "";
                         ae_CreatedAt := ae_CreatedAt e |}) rows, ac_total c).
Definition GetActivityLogsForGrant (gid : string) (limit offset : Z) : prog (list ActivityLogEntry * Z) :=
  b ← GetGrantActivityBounds gid;
  match b with
  | None => mret ([], 0%Z)
  | Some (ext, from, until) => GetAccessLogsForExternalIDInRange ext from until limit offset
  end.

Definition DeleteRequest (id : string) : prog unit :=
  n ← call "failed to delete disclosure request" (DeletePending id);
  if (n =? 0)%Z then raise "request not found or not pending" else mret tt.

(** [ILIKE '%' || s || '%'] on ASCII text: [%] and [_] of the caller are wildcards, [\] escapes *)
Definition backslash : ascii := "092"%char.
Fixpoint like (fuel : nat) (pat s : string) : bool :=
  match fuel with
  | O => false
  | S fuel =>
      match pat with
      | EmptyString => bool_decide (s = "")
      | String "%" pat' => like fuel pat' s || match s with String _ s' => like fuel pat s' | EmptyString => false end
      | String "_" pat' => match s with String _ s' => like fuel pat' s' | EmptyString => false end
      | String a pat' =>
          let '(a, pat') := if bool_decide (a = backslash)
                            then match pat' with String b p => (b, p) | EmptyString => (a, pat') end else (a, pat') in
          match s with String b s' => Ascii.eqb a b && like fuel pat' s' | EmptyString => false end
      end
  end.
Definition ILike (s sub : string) : bool :=
  let pat := ToLower ("%" +:+ sub +:+ "%") in
  like (S (String.length pat + String.length s)) pat (ToLower s).

Definition optional {A} (o : option A) (f : A -> bool) : bool := match o with Some a => f a | None => true end.
Definition given (s : string) (f : bool) : bool := bool_decide (s = "") || f.
Definition requestMatches (f : DisclosureFilter) (r : Request) : bool :=
  optional (df_Status f) (fun st => bool_decide (statusText (rq_Status r) = st)) &&
  given (df_TargetUserID f) (bool_decide (rq_TargetUserID r = df_TargetUserID f)) &&
  given (df_RequesterDID f) (negb (bool_decide (rq_RequesterDID r = "")) && ILike (rq_RequesterDID r) (df_RequesterDID f)) &&
  optional (df_DisclosureLevel f) (fun l => bool_decide (s_DisclosureLevel (rq_Scope r) = l)) &&
  optional (df_DateFrom f) (fun t => (t <=? rq_RequestedAt r)%Z) &&
  optional (df_DateTo f) (fun t => (rq_RequestedAt r <=? t)%Z) &&
  given (df_OrgID f) (bool_decide (rq_OrgID r = df_OrgID f)).
Definition grantMatches (f : DisclosureFilter) (at_ : Z) (g : Grant) (r : Request) : bool :=
  given (df_TargetUserID f) (bool_decide (rq_TargetUserID r = df_TargetUserID f)) &&
  given (df_RequesterDID f) (negb (bool_decide (rq_RequesterDID r = "")) && ILike (rq_RequesterDID r) (df_RequesterDID f)) &&
  optional (df_DisclosureLevel f) (fun l => bool_decide (s_DisclosureLevel (gr_Scope g) = l)) &&
  optional (df_DateFrom f) (fun t => (t <=? gr_GrantedAt g)%Z) &&
  optional (df_DateTo f) (fun t => (gr_GrantedAt g <=? t)%Z) &&
  given (df_OrgID f) (bool_decide (rq_OrgID r = df_OrgID f)) &&
  optional (df_Status f) (fun st =>
    if bool_decide (st = statusText StatusApproved) then bool_decide (gr_RevokedAt g = None) && (at_ <? gr_ExpiresAt g)%Z
    else if bool_decide (st = statusText StatusRevoked) then negb (bool_decide (gr_RevokedAt g = None))
    else if bool_decide (st = statusText StatusExpired)
    then bool_decide (gr_RevokedAt g = None) && (gr_ExpiresAt g <=? at_)%Z
    else true).
Definition ListRequestsWithFilterStore (f : DisclosureFilter) : prog DisclosureListResult :=
  total ← call "failed to count disclosure requests" (CountRequests (requestMatches f));
  let limit := if (df_Limit f <=? 0)%Z then 100%Z else df_Limit f in
  let offset := Z.max 0 (df_Offset f) in
  rows ← call "failed to query disclosure requests" (SelectRequestPage (requestMatches f) limit offset);
  mret {| lr_Requests := rows; lr_RequestsTotal := total; lr_RequestsLimit := limit; lr_RequestsOffset := offset |}.
Definition ListGrantsWithFilterStore (f : DisclosureFilter) : prog GrantListResult :=
  total ← call "failed to count disclosure grants" (CountGrants (grantMatches f));
  let limit := if (df_Limit f <=? 0)%Z then 100%Z else df_Limit f in
  let offset := Z.max 0 (df_Offset f) in
  rows ← call "failed to query disclosure grants" (SelectGrantPage (grantMatches f) limit offset);
  mret {| lr_Grants := rows; lr_GrantsTotal := total; lr_GrantsLimit := limit; lr_GrantsOffset := offset |}.
