(* ===== verification/DisclosureService.v ===== *)
(** * The disclosure service and its HTTP handlers:
    [internal/disclosure/service.go], [internal/server/disclosure.go],
    [internal/server/disclosure_audit_store.go] and
    [internal/server/explorer_grant_access.go].

    A handler is a program that ends with an HTTP answer; what the code takes from
    the [gin.Context] is the record [Caller]. *)
From S2P Require Import Prelude GoStrings Methods Models Db Sha256 Programs DisclosureScope DisclosureStore.
Local Open Scope string_scope.

Definition ErrRequestNotFound : string := "disclosure request not found".
Definition ErrRequestNotPending : string := "disclosure request is not pending".
Definition ErrRequestExpired : string := "disclosure request has expired".
Definition ErrGrantNotFound : string := "disclosure grant not found".
Definition ErrGrantNotActive : string := "disclosure grant is not active".
Definition ErrInvalidToken : string := "invalid disclosure token".

(** ** Requests *)
Definition CreateRequest (requesterUserID requesterDID targetUserID orgID : string) (scope : Scope)
  (reason legalBasis : string) (expiresIn : option Z) : prog Request :=
  scope ← lifted (Normalize scope);
  id ← newUUID;
  t ← now;
  expiresAt ← match expiresIn with None => mret None | Some dt => t ← now; mret (Some (t + dt)%Z) end;
  let req := {|
    rq_ID := id; rq_RequesterUserID := if bool_decide (requesterUserID = "") then None else Some requesterUserID;
    rq_RequesterDID := requesterDID; rq_TargetUserID := targetUserID; rq_OrgID := orgID; rq_Scope := scope;
    rq_Reason := reason; rq_LegalBasis := legalBasis; rq_Status := StatusPending; rq_RequestedAt := t;
    rq_ExpiresAt := expiresAt; rq_DecidedAt := None; rq_DecidedByUserID := None; rq_DecisionReason := "" |} in
  _ ← call "failed to create request" (InsertRequest req);
  mret req.

Definition tokenPlaceholder (u : string) : string := "did-auth-" +:+ u.

Definition ApproveRequest (requestID decidedBy : string) (narrowed : option Scope) (grantDuration : Z)
  (reason : string) : prog Grant :=
  r ← GetRequest requestID;
  match r with
  | None => raise ErrRequestNotFound
  | Some req =>
      if negb (bool_decide (rq_Status req = StatusPending)) then raise ErrRequestNotPending else
      t ← now;
      if IsExpired t req then raise ErrRequestExpired else
      scope ← lifted (grantedScope (rq_Scope req) narrowed);
      id ← newUUID;
      token ← newUUID;
      grantedAt ← now;
      t ← now;
      let grant := {|
        gr_ID := id; gr_RequestID := requestID; gr_TokenHash := tokenPlaceholder token; gr_Scope := scope;
        gr_GrantedAt := grantedAt; gr_ExpiresAt := (t + grantDuration)%Z; gr_RevokedAt := None;
        gr_RevokedReason := "" |} in
      _ ← call "failed to create grant" (InsertGrant grant);
      _ ← call "failed to update request status" (UpdateStatus requestID StatusApproved (Some decidedBy) reason);
      mret grant
  end.

Definition RejectRequest (requestID decidedBy reason : string) : prog unit :=
  r ← GetRequest requestID;
  match r with
  | None => raise ErrRequestNotFound
  | Some req =>
      if negb (bool_decide (rq_Status req = StatusPending)) then raise ErrRequestNotPending
      else UpdateRequestStatus requestID StatusRejected (Some decidedBy) reason
  end.

Definition RevokeRequest (requestID revokedBy reason : string) : prog unit :=
  r ← GetRequest requestID;
  match r with
  | None => raise ErrRequestNotFound
  | Some _ =>
      g ← GetActiveGrantForRequest requestID;
      _ ← match g with
          | None => mret tt
          | Some g => call "failed to revoke grant" (RevokeGrantRow (gr_ID g) reason)
          end;
      UpdateRequestStatus requestID StatusRevoked (Some revokedBy) reason
  end.

Definition DeletePendingRequest (requestID : string) : prog unit :=
  r ← GetRequest requestID;
  match r with
  | None => raise ErrRequestNotFound
  | Some req =>
      if negb (bool_decide (rq_Status req = StatusPending)) then raise ErrRequestNotPending
      else DeleteRequest requestID
  end.

(** ** Grants *)
Definition hashToken (token : string) : string := sha256hex token.

Definition ValidateGrantToken (token : string) : prog GrantWithRequest :=
  g ← GetGrantByToken (hashToken token);
  match g with
  | None => raise ErrInvalidToken
  | Some g =>
      t ← now;
      if negb (IsActive t g) then raise ErrGrantNotActive else
      r ← GetRequest (gr_RequestID g);
      match r with
      | None => raise ErrGrantNotActive
      | Some req =>
          if negb (bool_decide (rq_Status req = StatusApproved)) then raise ErrGrantNotActive else
          scope ← lifted (ForRead (gr_Scope g));
          mret {| gw_Grant := with_scope scope g; gw_Request := Some req |}
      end
  end.

Definition RevokeGrant (grantID reason : string) : prog unit :=
  g ← GetGrant grantID;
  match g with
  | None => raise ErrGrantNotFound
  | Some _ => RevokeGrantStore grantID reason
  end.

(** The guard the three reads start with: the grant, its approved request and
    the scope to read under. *)
Definition activeGrant (grantID : string) : prog (Grant * Request * Scope) :=
  gw ← GetGrantWithRequest grantID;
  match gw with
  | None => raise ErrGrantNotFound
  | Some gw =>
      match gw_Request gw with
      | None => raise ErrGrantNotActive
      | Some req =>
          if negb (bool_decide (rq_Status req = StatusApproved)) then raise ErrGrantNotActive else
          t ← now;
          if negb (IsActive t (gw_Grant gw)) then raise ErrGrantNotActive else
          scope ← lifted (ForRead (gr_Scope (gw_Grant gw)));
          _ ← lifted (ValidateActivity scope);
          mret (gw_Grant gw, req, scope)
      end
  end.

Definition viewer (id : string) : option string := if bool_decide (id = "") then None else Some id.
Definition summaryOf (n : Z) : DataSummary :=
  {| ds_RecordCount := n; ds_DateRange := None; ds_Methods := []; ds_Addresses := [] |}.
Definition readEvent (grantID viewerUserID viewerIP : string) (action : EventAction) (resource : ResourceType)
  (summary : DataSummary) (at_ : Z) : Event := {|
  ev_ID := 0; ev_GrantID := grantID; ev_ViewerUserID := viewer viewerUserID; ev_Action := action;
  ev_ResourceType := resource; ev_DataSummary := Some summary; ev_ViewerIP := viewerIP; ev_AccessedAt := at_ |}.
Definition recordReadEvent (e : Event) : prog unit := best_effort (InsertEvent e).

Definition blankIP (e : ActivityLogEntry) : ActivityLogEntry := {|
  ae_ID := ae_ID e; ae_Method := ae_Method e; ae_StatusCode := ae_StatusCode e; ae_IPAddress := "";
  ae_CreatedAt := ae_CreatedAt e |}.

Definition GetActivityLogs (grantID viewerUserID viewerIP : string) (limit offset : Z) : prog (list ActivityLogEntry) :=
  gs ← activeGrant grantID;
  let '(_, req, scope) := gs in
  ext ← call "failed to get target user external ID: failed to get user external ID" (SelectExternalID (rq_TargetUserID req));
  logs ← GetActivityLogsStore ext scope limit offset;
  t ← now;
  _ ← recordReadEvent (readEvent grantID viewerUserID viewerIP ActionViewLogs ResourceAccessLogs
         (summaryOf (count logs)) t);
  mret (if bool_decide (EffectiveLevel scope = DisclosureFull) then logs else map blankIP logs).

Definition GetActivitySummary (grantID viewerUserID viewerIP : string) : prog ActivitySummary :=
  gs ← activeGrant grantID;
  let '(_, req, scope) := gs in
  ext ← call "failed to get target user external ID: failed to get user external ID" (SelectExternalID (rq_TargetUserID req));
  summary ← GetActivitySummaryStore ext scope;
  t ← now;
  _ ← recordReadEvent (readEvent grantID viewerUserID viewerIP ActionViewSummary ResourceSummary
         {| ds_RecordCount := as_TotalRequests summary; ds_DateRange := as_DateRange summary; ds_Methods := [];
            ds_Addresses := [] |} t);
  mret summary.

(** Below full disclosure a report is projected onto these keys. *)
Definition reportKeys : list string := [
  "type"; "total_requests"; "successful_count"; "failed_count"; "unique_methods"; "method_breakdown"; "date_range";
  "generated_at"; "checked_at"; "is_clear"; "sanctions_clear"; "kyc_verified"; "activity_summary"].
Definition renderReport (r : Report) (scope : Scope) : Report :=
  if bool_decide (EffectiveLevel scope = DisclosureFull) then r
  else {| rp_ID := rp_ID r; rp_GrantID := rp_GrantID r; rp_ReportType := rp_ReportType r;
          rp_ReportData := List.filter (fun kv => contains reportKeys kv.1) (rp_ReportData r);
          rp_GeneratedAt := rp_GeneratedAt r; rp_ExpiresAt := rp_ExpiresAt r |}.

Definition reportData (reportType : string) (g : Grant) (req : Request) (ext : string) (scope : Scope)
  : prog (list (string * ReportValue)) :=
  if bool_decide (reportType = ReportActivitySummary) then
    s ← GetActivitySummaryStore ext scope;
    t ← now;
    mret [("type", RVString "activity_summary"); ("target_user_id", RVString (rq_TargetUserID req));
          ("total_requests", RVInt (as_TotalRequests s)); ("successful_count", RVInt (as_SuccessfulCount s));
          ("failed_count", RVInt (as_FailedCount s)); ("unique_methods", RVInt (as_UniqueMethodCount s));
          ("method_breakdown", RVCounts (as_MethodBreakdown s)); ("date_range", RVRange (as_DateRange s));
          ("generated_at", RVTime t)]
  else if bool_decide (reportType = ReportSanctionsCheck) then
    t ← now;
    mret [("type", RVString "sanctions_check"); ("target_user_id", RVString (rq_TargetUserID req));
          ("checked_at", RVTime t); ("is_clear", RVBool true); ("sanctioned_addresses", RVStrings []);
          ("scope", RVScope (gr_Scope g))]
  else if bool_decide (reportType = ReportCompliance) then
    s ← GetActivitySummaryStore ext scope;
    t ← now;
    mret [("type", RVString "compliance_report"); ("target_user_id", RVString (rq_TargetUserID req));
          ("generated_at", RVTime t); ("scope", RVScope (gr_Scope g)); ("activity_summary", RVSummary s);
          ("sanctions_clear", RVBool true); ("kyc_verified", RVBool false)]
  else raise ("unknown report type: " +:+ reportType).

Definition reportTTL : Z := (24 * 3600 * 10 ^ 9)%Z.

Definition GenerateComplianceReport (grantID viewerUserID viewerIP reportType : string) : prog Report :=
  gs ← activeGrant grantID;
  let '(g, req, scope) := gs in
  existing ← GetReportByGrantAndType grantID reportType;
  match existing with
  | Some r =>
      t ← now;
      _ ← recordReadEvent (readEvent grantID viewerUserID viewerIP ActionExportReport ResourceReport (summaryOf 1) t);
      mret (renderReport r scope)
  | None =>
      ext ← call "failed to get target user external ID: failed to get user external ID" (SelectExternalID (rq_TargetUserID req));
      data ← reportData reportType g req ext scope;
      id ← newUUID;
      generatedAt ← now;
      t ← now;
      let r := {| rp_ID := id; rp_GrantID := grantID; rp_ReportType := reportType; rp_ReportData := data;
                  rp_GeneratedAt := generatedAt; rp_ExpiresAt := (t + reportTTL)%Z |} in
      _ ← call "failed to save report" (InsertReport r);
      t ← now;
      _ ← recordReadEvent (readEvent grantID viewerUserID viewerIP ActionExportReport ResourceReport
             {| ds_RecordCount := 1; ds_DateRange := None; ds_Methods := [reportType]; ds_Addresses := [] |} t);
      mret (renderReport r scope)
  end.

(** ** Listings and maintenance *)
Definition GetMyPendingRequests : string -> prog (list RequestWithDetails) := ListPendingRequestsForUser.
Definition GetMyActiveGrants : string -> prog (list GrantWithRequest) := ListActiveGrantsForTarget.
Definition GetAllMyRequests : string -> prog (list RequestWithDetails) := ListAllRequestsForUser.
Definition GetAllMyGrants : string -> prog (list GrantWithRequest) := ListAllGrantsForTarget.
Definition ListAllRequests (orgID : string) (st : option RequestStatus) : prog (list RequestWithDetails) :=
  rs ← ListRequestsByOrg orgID st;
  mret (map (fun r => {| rd_Request := r; rd_RequesterDID := ""; rd_TargetDID := ""; rd_DecidedByDID := "";
                         rd_ActiveGrantID := None |}) rs).
Definition ExpireOldRequests : prog Z := ExpirePendingRequests.
Definition CleanupExpiredReports : prog Z := DeleteExpiredReports.

Definition clampLimit (f : DisclosureFilter) : DisclosureFilter := {|
  df_Status := df_Status f; df_TargetUserID := df_TargetUserID f; df_RequesterDID := df_RequesterDID f;
  df_DisclosureLevel := df_DisclosureLevel f; df_DateFrom := df_DateFrom f; df_DateTo := df_DateTo f;
  df_OrgID := df_OrgID f; df_Limit := Z.min 1000 (if (df_Limit f <=? 0)%Z then 100 else df_Limit f);
  df_Offset := df_Offset f |}.
Definition ListRequestsWithFilter (f : option DisclosureFilter) : prog DisclosureListResult :=
  ListRequestsWithFilterStore (clampLimit (default NewDefaultFilter f)).
Definition ListGrantsWithFilter (f : option DisclosureFilter) : prog GrantListResult :=
  ListGrantsWithFilterStore (clampLimit (default NewDefaultFilter f)).

(** ** HTTP *)
Record Caller := {
  ca_auth_method : string; ca_admin_org_ids : list string; ca_readonly_org_ids : list string;
  (** [c.Param("org_id")], empty on these routes *)
  ca_param_org : string;
  (** [c.Get("user_id")], and the DID a read resolves to *)
  ca_user_id : string; ca_viewer_did : string;
  ca_impersonating : bool; ca_grants_suppressed : bool; ca_viewscope : option string;
  ca_ip : string; ca_token_header : string; ca_token_query : string }.

Inductive Body :=
| BError (msg : string) | BStatus (s : string) | BRequest (r : Request) | BDetails (d : RequestWithDetails)
| BRequestList (l : DisclosureListResult) | BGrantList (l : GrantListResult) | BGrant (g : Grant)
| BNoAccess | BAccess (g : Grant) | BMyRequests (l : list RequestWithDetails) | BMyGrants (l : list GrantWithRequest)
| BLogs (l : list ActivityLogEntry) | BSummary (s : ActivitySummary) | BReport (r : Report) | BEvents (l : list Event).
Record Http := { h_Code : Z; h_Body : Body }.

Definition respond (code : Z) (b : Body) : prog Http := mret {| h_Code := code; h_Body := b |}.
Definition respondError (code : Z) (msg : string) : prog Http := respond code (BError msg).
Definition respondBadRequest : string -> prog Http := respondError 400.
Definition respondUnauthorized : string -> prog Http := respondError 401.
Definition respondForbidden : string -> prog Http := respondError 403.
Definition respondNotFound : string -> prog Http := respondError 404.
Definition respondInternalError : string -> prog Http := respondError 500.

Definition errTargetForeignOrg : string := "access denied to target resource".
Definition errOperatorNoTenantMgmt : string :=
  "per-org management is the org admin's job; the operator token is for platform/bootstrap only".
Definition errOperatorNoTenantRead : string :=
  "tenant data is not readable with the operator token; use a tier-2 org-admin JWT".
Definition DefaultOrgID : string := "00000000-0000-0000-0000-000000000001".

Section caller.
Variable c : Caller.

Definition isJwtAdmin : bool := bool_decide (ca_auth_method c = "jwt_admin").

(** ** Scope of the caller ([admin_scope.go], [admin_rbac_user.go]) *)
Definition requireTargetInScope (org : string) : bool :=
  negb isJwtAdmin ||
  negb (bool_decide (org = "")) && (contains (ca_admin_org_ids c) org || contains (ca_readonly_org_ids c) org).
Definition requireFullAdminInScope (org : string) : bool :=
  negb isJwtAdmin || negb (bool_decide (org = "")) && contains (ca_admin_org_ids c) org.
Definition inScope (org : string) : bool :=
  negb isJwtAdmin ||
  negb (bool_decide (org = "")) && (contains (ca_admin_org_ids c) org || contains (ca_readonly_org_ids c) org).
Definition denyOperatorOrgScoped : bool :=
  bool_decide (ca_auth_method c = "operator_token") && negb (bool_decide (ca_param_org c = DefaultOrgID)).
Definition denyOperatorTenantRead : bool :=
  bool_decide (ca_auth_method c = "operator_token") && negb (bool_decide (ca_param_org c = DefaultOrgID)).

Definition GetUserOrgIDs (userID : string) : prog (list string) :=
  orgs ← call "failed to list active memberships with details" (SelectUserOrgs userID);
  mret (dedup [] orgs).
(** [None]: proceed; [Some a]: the answer was written. *)
Definition requireUserInCallerScope (userID : string) : prog (option Http) :=
  if negb isJwtAdmin then mret None else
  handle (GetUserOrgIDs userID) (fun r =>
    match r with
    | Err _ => mret (Some {| h_Code := 500; h_Body := BError "scope check failed" |})
    | Ok orgs =>
        if existsb (fun o => contains (ca_admin_org_ids c ++ ca_readonly_org_ids c)%list o) orgs then mret None
        else mret (Some {| h_Code := 403; h_Body := BError errTargetForeignOrg |})
    end).

Definition resolveAdminOrgID (explicit : string) : option string :=
  if negb (bool_decide (explicit = "")) then Some explicit
  else if negb isJwtAdmin then Some DefaultOrgID
  else match dedup [] (ca_admin_org_ids c ++ ca_readonly_org_ids c)%list with [org] => Some org | _ => None end.

Definition hours (n : Z) : Z := int64 (n * (3600 * 10 ^ 9)).

(** ** Administration *)
Record CreateInput := {
  ci_RequesterUserID : string; ci_RequesterDID : string; ci_TargetUserID : string; ci_OrgID : string;
  ci_Scope : Scope; ci_Reason : string; ci_LegalBasis : string; ci_ExpiresInHours : Z }.
Definition bound (i : CreateInput) : bool :=
  negb (bool_decide (ci_TargetUserID i = "")) && negb (bool_decide (ci_Reason i = "")).

(** [errors.Is(err, ErrInvalidScope)]: the sentinel is at the head of the text *)
Definition isInvalidScope (e : string) : bool := HasPrefix e ErrInvalidScope.

Definition createDisclosureRequest (input : option CreateInput) : prog Http :=
  if denyOperatorOrgScoped then respondForbidden errOperatorNoTenantMgmt else
  match input with
  | None => respondBadRequest "invalid request body"
  | Some i =>
      if negb (bound i) then respondBadRequest "invalid request body" else
      match resolveAdminOrgID (ci_OrgID i) with
      | None => respondBadRequest "org_id is required"
      | Some orgID =>
          if negb (requireFullAdminInScope orgID) then respondForbidden errTargetForeignOrg else
          stop ← requireUserInCallerScope (ci_TargetUserID i);
          match stop with
          | Some a => mret a
          | None =>
              let expiresIn := if (0 <? ci_ExpiresInHours i)%Z then Some (hours (ci_ExpiresInHours i)) else None in
              handle (CreateRequest (ci_RequesterUserID i) (ci_RequesterDID i) (ci_TargetUserID i) orgID (ci_Scope i)
                        (ci_Reason i) (ci_LegalBasis i) expiresIn) (fun r =>
                match r with
                | Ok req => respond 201 (BRequest req)
                | Err e => if isInvalidScope e then respondBadRequest "invalid disclosure scope"
                           else respondInternalError "failed to create disclosure request"
                end)
          end
      end
  end.

Record ListQuery := {
  lq_org_id : string; lq_status : string; lq_target_user_id : string; lq_requester_did : string;
  lq_disclosure_level : string; lq_date_from : option Z; lq_date_to : option Z; lq_limit : option Z;
  lq_offset : option Z }.
Definition nonEmpty (s : string) : option string := if bool_decide (s = "") then None else Some s.
Definition filterOf (orgID : string) (q : ListQuery) : DisclosureFilter := {|
  df_Status := nonEmpty (lq_status q); df_TargetUserID := lq_target_user_id q; df_RequesterDID := lq_requester_did q;
  df_DisclosureLevel := nonEmpty (lq_disclosure_level q); df_DateFrom := lq_date_from q; df_DateTo := lq_date_to q;
  df_OrgID := orgID;
  df_Limit := match lq_limit q with Some n => if (0 <? n)%Z then n else 0%Z | None => 0%Z end;
  df_Offset := match lq_offset q with Some n => if (0 <=? n)%Z then n else 0%Z | None => 0%Z end |}.

Definition listDisclosureRequests (q : ListQuery) : prog Http :=
  if denyOperatorTenantRead then respondForbidden errOperatorNoTenantRead else
  match resolveAdminOrgID (lq_org_id q) with
  | None => respondBadRequest "org_id query parameter is required"
  | Some orgID =>
      if negb (requireTargetInScope orgID) then respondForbidden errTargetForeignOrg else
      handle (ListRequestsWithFilter (Some (filterOf orgID q))) (fun r =>
        match r with Ok l => respond 200 (BRequestList l) | Err _ => respondInternalError "failed to list disclosure requests" end)
  end.
Definition listDisclosureGrants (q : ListQuery) : prog Http :=
  if denyOperatorTenantRead then respondForbidden errOperatorNoTenantRead else
  match resolveAdminOrgID (lq_org_id q) with
  | None => respondBadRequest "org_id query parameter is required"
  | Some orgID =>
      if negb (bool_decide (orgID = "")) && negb (requireTargetInScope orgID) then respondForbidden errTargetForeignOrg else
      handle (ListGrantsWithFilter (Some (filterOf orgID q))) (fun r =>
        match r with Ok l => respond 200 (BGrantList l) | Err _ => respondInternalError "failed to list disclosure grants" end)
  end.

Definition deleteDisclosureRequest (requestID : string) : prog Http :=
  if denyOperatorOrgScoped then respondForbidden errOperatorNoTenantMgmt else
  handle (GetRequestWithDetails requestID) (fun r =>
    match r with
    | Err _ => respondInternalError "failed to retrieve disclosure request"
    | Ok None => respondForbidden errTargetForeignOrg
    | Ok (Some d) =>
        if negb (requireFullAdminInScope (rq_OrgID (rd_Request d))) then respondForbidden errTargetForeignOrg else
        handle (DeletePendingRequest requestID) (fun r =>
          match r with
          | Ok _ => respond 200 (BStatus "deleted")
          | Err e =>
              if bool_decide (e = ErrRequestNotFound) then respondForbidden errTargetForeignOrg
              else if bool_decide (e = ErrRequestNotPending) then respondBadRequest "can only delete pending requests"
              else respondInternalError "failed to delete disclosure request"
          end)
    end).

Definition adminRevokeDisclosureGrant (grantID reason : string) : prog Http :=
  if denyOperatorOrgScoped then respondForbidden errOperatorNoTenantMgmt else
  handle (GetGrantWithRequest grantID) (fun r =>
    match r with
    | Err _ => respondInternalError "failed to retrieve disclosure grant"
    | Ok gw =>
        match gw ≫= gw_Request with
        | None => respondForbidden errTargetForeignOrg
        | Some req =>
            if negb (requireFullAdminInScope (rq_OrgID req)) then respondForbidden errTargetForeignOrg else
            handle (RevokeGrant grantID reason) (fun r =>
              match r with
              | Ok _ => respond 200 (BStatus "revoked")
              | Err e => if bool_decide (e = ErrGrantNotFound) then respondForbidden errTargetForeignOrg
                         else respondInternalError "failed to revoke disclosure grant"
              end)
        end
    end).

Definition getDisclosureRequest (requestID : string) : prog Http :=
  if denyOperatorTenantRead then respondForbidden errOperatorNoTenantRead else
  handle (GetRequestWithDetails requestID) (fun r =>
    match r with
    | Err _ => respondInternalError "failed to retrieve disclosure request"
    | Ok None => respondForbidden errTargetForeignOrg
    | Ok (Some d) => if requireTargetInScope (rq_OrgID (rd_Request d)) then respond 200 (BDetails d)
                     else respondForbidden errTargetForeignOrg
    end).

Definition checkDisclosureAccess (requesterDID targetUserDID : string) : prog Http :=
  if denyOperatorTenantRead then respondForbidden errOperatorNoTenantRead else
  if bool_decide (requesterDID = "") || bool_decide (targetUserDID = "")
  then respondBadRequest "requester_did and target_user_did are required" else
  handle (GetActiveGrantByRequesterDID requesterDID targetUserDID) (fun r =>
    match r with
    | Err _ => respondInternalError "failed to check disclosure access"
    | Ok None => respond 200 BNoAccess
    | Ok (Some gw) =>
        if inScope (from_option rq_OrgID "" (gw_Request gw)) then respond 200 (BAccess (gw_Grant gw)) else respond 200 BNoAccess
    end).

(** ** The subject *)
Definition getMyDisclosureRequests : prog Http :=
  handle (GetMyPendingRequests (ca_user_id c)) (fun r =>
    match r with Ok l => respond 200 (BMyRequests l) | Err _ => respondInternalError "failed to retrieve disclosure requests" end).
Definition getAllMyDisclosureRequests : prog Http :=
  handle (GetAllMyRequests (ca_user_id c)) (fun r =>
    match r with Ok l => respond 200 (BMyRequests l) | Err _ => respondInternalError "failed to retrieve disclosure requests" end).
Definition getMyActiveGrants : prog Http :=
  handle (GetMyActiveGrants (ca_user_id c)) (fun r =>
    match r with Ok l => respond 200 (BMyGrants l) | Err _ => respondInternalError "failed to retrieve disclosure grants" end).
Definition getAllMyGrants : prog Http :=
  handle (GetAllMyGrants (ca_user_id c)) (fun r =>
    match r with Ok l => respond 200 (BMyGrants l) | Err _ => respondInternalError "failed to retrieve disclosure grants" end).

(** The three decisions start with the same lookup. *)
Definition asTarget (requestID verb : string) (k : prog Http) : prog Http :=
  handle (GetRequest requestID) (fun r =>
    match r with
    | Err _ => respondInternalError "failed to retrieve disclosure request"
    | Ok None => respondNotFound "request not found"
    | Ok (Some req) =>
        if bool_decide (rq_TargetUserID req = ca_user_id c) then k
        else respondForbidden ("you can only " +:+ verb +:+ " requests targeting your own data")
    end).

Record ApproveInput := { ai_Scope : option Scope; ai_GrantDurationHours : Z; ai_Reason : string }.
(** [body]: [None] when the body is malformed or something follows it; an empty body is all zero. *)
Definition approveDisclosureRequest (requestID : string) (body : option ApproveInput) : prog Http :=
  match body with
  | None => respondBadRequest "invalid approval body"
  | Some i =>
      let duration := if (0 <? ai_GrantDurationHours i)%Z then hours (ai_GrantDurationHours i) else hours 24 in
      asTarget requestID "approve"
        (handle (ApproveRequest requestID (ca_user_id c) (ai_Scope i) duration (ai_Reason i)) (fun r =>
           match r with Ok g => respond 200 (BGrant g) | Err _ => respondBadRequest "failed to approve disclosure request" end))
  end.
Definition rejectDisclosureRequest (requestID reason : string) : prog Http :=
  asTarget requestID "reject"
    (handle (RejectRequest requestID (ca_user_id c) reason) (fun r =>
       match r with Ok _ => respond 200 (BStatus "rejected") | Err _ => respondBadRequest "failed to reject disclosure request" end)).
Definition revokeDisclosureRequest (requestID reason : string) : prog Http :=
  asTarget requestID "revoke"
    (handle (RevokeRequest requestID (ca_user_id c) reason) (fun r =>
       match r with Ok _ => respond 200 (BStatus "revoked") | Err _ => respondBadRequest "failed to revoke disclosure request" end)).
End caller.

(** ** Reads through a grant *)
Section reader.
Variable c : Caller.

Definition disclosureGrantsApply : bool := negb (ca_impersonating c) && negb (ca_grants_suppressed c).

(** [explorer_grant_access.go] *)
Definition grantRequesterEligible (gw : GrantWithRequest) (viewerDID : string) : prog bool :=
  match gw_Request gw with
  | None => mret false
  | Some req =>
      if bool_decide (viewerDID = "") || negb (bool_decide (rq_RequesterDID req = viewerDID)) ||
         negb (bool_decide (rq_Status req = StatusApproved)) || ca_grants_suppressed c then mret false else
      if match ca_viewscope c with
         | Some org => bool_decide (org = "") || negb (bool_decide (org = rq_OrgID req))
         | None => false
         end then mret false else
      handle (call "failed to check user org membership" (ExistsMember viewerDID (rq_OrgID req))) (fun r =>
        mret (match r with Ok m => m | Err _ => false end))
  end.

(** The grant a read goes through, or the answer that was written. *)
Definition Authorized : Type := (Http + Grant * Request * Scope)%type.
Definition refuse (code : Z) (msg : string) : prog Authorized := mret (inl {| h_Code := code; h_Body := BError msg |}).

Definition explorerGrant (grantID : string) (inactiveNotFound : bool) : prog Authorized :=
  if negb disclosureGrantsApply then refuse 404 "grant not found" else
  if bool_decide (ca_viewer_did c = "") then refuse 401 "authentication required" else
  handle (GetGrantWithRequest grantID) (fun r =>
    match r with
    | Ok (Some gw) =>
        eligible ← grantRequesterEligible gw (ca_viewer_did c);
        match (eligible : bool), gw_Request gw with
        | true, Some req =>
            t ← now;
            if negb (IsActive t (gw_Grant gw)) then
              if inactiveNotFound then refuse 404 "grant not found" else refuse 403 "grant has been revoked or has expired"
            else match ForRead (gr_Scope (gw_Grant gw)) with
                 | Err _ => refuse 404 "grant not found"
                 | Ok scope => mret (inr (with_scope scope (gw_Grant gw), req, scope))
                 end
        | _, _ => refuse 404 "grant not found"
        end
    | _ => refuse 404 "grant not found"
    end).

(** [disclosure.go] *)
Definition validateDisclosureToken : prog GrantWithRequest :=
  let token := if bool_decide (ca_token_header c = "") then ca_token_query c else ca_token_header c in
  if bool_decide (token = "") then raise ErrInvalidToken else ValidateGrantToken token.

Definition authorizeLegacyDisclosureRead (grantID : string) (activity : bool) : prog Authorized :=
  if negb disclosureGrantsApply then refuse 404 "grant not found" else
  handle validateDisclosureToken (fun r =>
    match r with
    | Err _ => refuse 401 "invalid disclosure token"
    | Ok gw =>
        match gw_Request gw with
        | None => refuse 401 "invalid disclosure token"
        | Some req =>
            if negb (bool_decide (gr_ID (gw_Grant gw) = grantID)) then refuse 403 "token does not match grant" else
            eligible ← grantRequesterEligible gw (rq_RequesterDID req);
            if negb eligible || negb (inScope c (rq_OrgID req)) then refuse 404 "grant not found" else
            match ForRead (gr_Scope (gw_Grant gw)) with
            | Err _ => refuse 404 "grant not found"
            | Ok scope =>
                if activity && negb (is_ok (ValidateActivity scope))
                then refuse 403 "grant scope does not permit these activity logs"
                else mret (inr (with_scope scope (gw_Grant gw), req, scope))
            end
        end
    end).

Definition legacyDisclosureViewerID (req : Request) : prog string :=
  if negb (bool_decide (ca_user_id c = "")) then mret (ca_user_id c) else
  handle (call "failed to scan user" (SelectUserByExternalID (rq_RequesterDID req))) (fun r =>
    mret (match r with Ok (Some u) => u_ID u | _ => "" end)).

(** Runs [k] on the authorized grant. *)
Definition authorized (p : prog Authorized) (k : Grant * Request * Scope -> prog Http) : prog Http :=
  a ← p; match a with inl h => mret h | inr x => k x end.

Definition pageLimit (q : option Z) : Z :=
  match q with Some n => if (0 <? n)%Z && (n <=? 1000)%Z then n else 100%Z | None => 100%Z end.
Definition pageOffset (q : option Z) : Z :=
  match q with Some n => if (0 <=? n)%Z then n else 0%Z | None => 0%Z end.

Definition getDisclosureLogs (grantID : string) (limit offset : option Z) : prog Http :=
  authorized (authorizeLegacyDisclosureRead grantID true) (fun '(_, req, _) =>
    id ← legacyDisclosureViewerID req;
    handle (GetActivityLogs grantID id (ca_ip c) (pageLimit limit) (pageOffset offset)) (fun r =>
      match r with Ok l => respond 200 (BLogs l) | Err _ => respondInternalError "failed to retrieve disclosure logs" end)).
Definition getDisclosureSummary (grantID : string) : prog Http :=
  authorized (authorizeLegacyDisclosureRead grantID true) (fun '(_, req, _) =>
    id ← legacyDisclosureViewerID req;
    handle (GetActivitySummary grantID id (ca_ip c)) (fun r =>
      match r with Ok s => respond 200 (BSummary s) | Err _ => respondInternalError "failed to retrieve disclosure summary" end)).
Definition getDisclosureReport (grantID reportType : string) : prog Http :=
  authorized (authorizeLegacyDisclosureRead grantID true) (fun '(_, req, _) =>
    if negb (contains [ReportActivitySummary; ReportSanctionsCheck; ReportCompliance] reportType)
    then respondBadRequest "invalid report type" else
    id ← legacyDisclosureViewerID req;
    handle (GenerateComplianceReport grantID id (ca_ip c) reportType) (fun r =>
      match r with Ok x => respond 200 (BReport x) | Err _ => respondInternalError "failed to generate disclosure report" end)).

Definition maskEvent (e : Event) : Event := {|
  ev_ID := ev_ID e; ev_GrantID := ev_GrantID e; ev_ViewerUserID := ev_ViewerUserID e; ev_Action := ev_Action e;
  ev_ResourceType := ev_ResourceType e;
  ev_DataSummary := (fun s => {| ds_RecordCount := ds_RecordCount s; ds_DateRange := ds_DateRange s; ds_Methods := [];
                                 ds_Addresses := [] |}) <$> ev_DataSummary e;
  ev_ViewerIP := ""; ev_AccessedAt := ev_AccessedAt e |}.
Definition recordLegacyDisclosureRead (g : Grant) (req : Request) (action : EventAction) (resource : ResourceType) (n : Z)
  : prog unit :=
  id ← legacyDisclosureViewerID req;
  t ← now;
  best_effort (InsertEvent (readEvent (gr_ID g) id (ca_ip c) action resource (summaryOf n) t)).
Definition getDisclosureEvents (grantID : string) (limit offset : option Z) : prog Http :=
  authorized (authorizeLegacyDisclosureRead grantID false) (fun '(g, req, scope) =>
    handle (ListEventsByGrant grantID (pageLimit limit) (pageOffset offset)) (fun r =>
      match r with
      | Err _ => respondInternalError "failed to retrieve disclosure events"
      | Ok events =>
          let events := if bool_decide (EffectiveLevel scope = DisclosureFull) then events else map maskEvent events in
          _ ← recordLegacyDisclosureRead g req ActionViewEvents ResourceEvents (count events);
          respond 200 (BEvents events)
      end)).

(** [explorer_grant_access.go]: a read is recorded against the grant when the viewer is a known user. *)
Definition recordGrantRead (grantID : string) (action : EventAction) (resource : ResourceType) (n : Z) : prog unit :=
  handle (call "failed to scan user" (SelectUserByExternalID (ca_viewer_did c))) (fun r =>
    match r with
    | Ok (Some u) =>
        t ← now;
        best_effort (InsertEvent {| ev_ID := 0; ev_GrantID := grantID; ev_ViewerUserID := Some (u_ID u); ev_Action := action;
          ev_ResourceType := resource; ev_DataSummary := Some (summaryOf n); ev_ViewerIP := ca_ip c; ev_AccessedAt := t |})
    | _ => mret tt
    end).
End reader.
