(* ===== verification/DisclosureProps.v ===== *)
(** * Disclosure under concurrency.

    [serve] is what the server runs for a call, and the store is a machine of
    [Programs.v]: a step of a configuration is one statement, one clock reading or
    one identifier of one call, the passing of time, a change of the other tables
    (with the rows a deleted user or organization takes along), or a new call.

    - [granted_within_request]: whatever interleaves and fails, a grant row never
      covers more than its request.
    - [revocation_is_final]: a grant that was revoked, or whose request was,
      releases nothing to a read that starts afterwards.
    - [logs_follow_consent]: what a successful read returned, and what it looked
      up to return it.
    - [changes_need_authority]: who may change the tables. *)
From S2P Require Import Prelude GoStrings Methods Models Db Sha256 Programs DisclosureScope DisclosureStore DisclosureService.
Local Open Scope string_scope.

(** ** Calls *)
Inductive Call :=
| HCreate (c : Caller) (i : option CreateInput)
| HListRequests (c : Caller) (q : ListQuery)
| HListGrants (c : Caller) (q : ListQuery)
| HDelete (c : Caller) (requestID : string)
| HAdminRevoke (c : Caller) (grantID reason : string)
| HGet (c : Caller) (requestID : string)
| HCheck (c : Caller) (requesterDID targetDID : string)
| HMyRequests (c : Caller) | HAllMyRequests (c : Caller) | HMyGrants (c : Caller) | HAllMyGrants (c : Caller)
| HApprove (c : Caller) (requestID : string) (i : option ApproveInput)
| HReject (c : Caller) (requestID reason : string)
| HRevoke (c : Caller) (requestID reason : string)
| HLogs (c : Caller) (grantID : string) (limit offset : option Z)
| HSummary (c : Caller) (grantID : string)
| HReport (c : Caller) (grantID reportType : string)
| HEvents (c : Caller) (grantID : string) (limit offset : option Z)
| HExplorer (c : Caller) (grantID : string) (inactiveNotFound : bool)
| MExpire | MCleanup.

(** Whether an answer carries the subject's data. *)
Definition releases (h : Http) : bool := (h_Code h =? 200)%Z.
Definition serve (k : Call) : prog bool :=
  match k with
  | HCreate c i => _ ← createDisclosureRequest c i; mret false
  | HListRequests c q => _ ← listDisclosureRequests c q; mret false
  | HListGrants c q => _ ← listDisclosureGrants c q; mret false
  | HDelete c id => _ ← deleteDisclosureRequest c id; mret false
  | HAdminRevoke c id reason => _ ← adminRevokeDisclosureGrant c id reason; mret false
  | HGet c id => _ ← getDisclosureRequest c id; mret false
  | HCheck c r t => _ ← checkDisclosureAccess c r t; mret false
  | HMyRequests c => _ ← getMyDisclosureRequests c; mret false
  | HAllMyRequests c => _ ← getAllMyDisclosureRequests c; mret false
  | HMyGrants c => _ ← getMyActiveGrants c; mret false
  | HAllMyGrants c => _ ← getAllMyGrants c; mret false
  | HApprove c id i => _ ← approveDisclosureRequest c id i; mret false
  | HReject c id reason => _ ← rejectDisclosureRequest c id reason; mret false
  | HRevoke c id reason => _ ← revokeDisclosureRequest c id reason; mret false
  | HLogs c id l o => h ← getDisclosureLogs c id l o; mret (releases h)
  | HSummary c id => h ← getDisclosureSummary c id; mret (releases h)
  | HReport c id ty => h ← getDisclosureReport c id ty; mret (releases h)
  | HEvents c id l o => h ← getDisclosureEvents c id l o; mret (releases h)
  | HExplorer c id b => a ← explorerGrant c id b; mret (match a with inl _ => false | inr _ => true end)
  | MExpire => _ ← ExpireOldRequests; mret false
  | MCleanup => _ ← CleanupExpiredReports; mret false
  end.
(** The grant a call reads through. *)
Definition readsThrough (k : Call) : option string :=
  match k with
  | HLogs _ id _ _ | HSummary _ id | HReport _ id _ | HEvents _ id _ _ | HExplorer _ id _ => Some id
  | _ => None
  end.

(** ** Steps *)
Section step.
Context `{HT : TimestampColumn}.

(** Users, memberships and access logs change; the requests of a deleted user or
    organization go, with their grants. *)
Definition elsewhere (rbac : Database) (logs : list AccessLogRow) (gone : string -> bool) (w : World) : World :=
  let d := w_db w in
  let goneID gid := existsb (fun g => gone (gr_RequestID g) && bool_decide (gr_ID g = gid)) (dd_grants d) in
  set_db w {| dd_rbac := rbac; dd_requests := List.filter (fun r => negb (gone (rq_ID r))) (dd_requests d);
              dd_grants := List.filter (fun g => negb (gone (gr_RequestID g))) (dd_grants d);
              dd_events := List.filter (fun e => negb (goneID (ev_GrantID e))) (dd_events d);
              dd_reports := List.filter (fun r => negb (goneID (rp_GrantID r))) (dd_reports d);
              dd_event_seq := dd_event_seq d; dd_access_logs := logs |}.

(** What every step keeps: time passes, a row that was inserted was inserted. *)
Record later (w w' : World) : Prop := {
  later_now : (w_now w <= w_now w')%Z;
  later_requests : w_requests w ⊆ w_requests w';
  later_grants : w_grants w ⊆ w_grants w' }.
#[export] Instance later_preorder : PreOrder later.
Proof.
  split; [intros w; by split|]. intros a b c [] []. split; [lia|by etrans|by etrans].
Qed.

Lemma exec_later {X} c (e : Sql X) w x w' : exec c e w = (x, w') -> later w w'.
Proof.
  assert (Hs : later w (statement c e w).2).
  { destruct e; simpl; try done; repeat case_match; simpl; try done; split; simpl; try done.
    - apply insert_subseteq, eq_None_not_Some.
      match goal with E : bool_decide _ = false |- _ => by apply bool_decide_eq_false in E end.
    - unfold delete_pending. by case_match.
    - unfold delete_pending. by case_match.
    - unfold delete_pending. by case_match.
    - apply insert_subseteq, eq_None_not_Some.
      match goal with E : _ || _ = false |- _ => by apply orb_false_iff in E as [?%bool_decide_eq_false _] end. }
  unfold exec. destruct (ch_fault c) as [[err []]|]; [intros [= <- <-]; done|by intros [= <- <-]|].
  destruct (statement c e w). by intros [= <- <-].
Qed.

(** Between the statements of a call time passes and the other tables change. *)
Definition others (w w' : World) : Prop :=
  (exists dt, (0 <= dt)%Z /\ w' = tick w dt) \/ exists rbac logs gone, w' = elsewhere rbac logs gone w.

#[export] Instance disclosure_machine : Machine Sql World Choice := {|
  m_exec := fun X _ => exec; m_clock := w_now; m_draw := fun _ w _ => Some w; m_other := others; m_later := later;
  m_rely := fun _ => later |}.
#[export] Instance disclosure_laws : MachineLaws disclosure_machine.
Proof.
  split; [apply _|intros i; apply later_preorder|done|intros X i; apply exec_later|
    intros X i me c e w x w' _; apply exec_later|by intros i w u w' [= <-]|by intros i me w u w' _ [= <-]|].
  intros me w w' [(dt & Hdt & ->)|(rbac & logs & gone & ->)]; split; simpl; try done; lia.
Qed.

(** ** Invariants *)
Lemma world_inv (I : World -> Prop) :
  (forall w dt, (0 <= dt)%Z -> I w -> I (tick w dt)) ->
  (forall w rbac logs gone, I w -> I (elsewhere rbac logs gone w)) -> Inv I.
Proof.
  intros Ht He. split; [|by intros i w u w' [= <-]].
  intros w w' [(dt & Hdt & ->)|(rbac & logs & gone & ->)]; auto.
Qed.

Definition keeping (I : World -> Prop) {X} (e : Sql X) : Prop := forall c w, I w -> I (statement c e w).2.
Lemma exec_keeping_ (I : World -> Prop) {X} c (e : Sql X) w x w' : keeping I e -> I w -> exec c e w = (x, w') -> I w'.
Proof.
  intros Hk Hw. unfold exec. specialize (Hk c w Hw). destruct (ch_fault c) as [[err []]|];
    [by intros [= <- <-]|by intros [= <- <-]|]. destruct (statement c e w). by intros [= <- <-].
Qed.
Lemma keeping_exec (I : World -> Prop) {X} (e : Sql X) : keeping I e -> Programs.keeping I 0 e.
Proof. intros Hk c w Hw. simpl. destruct (exec c e w) as [x w'] eqn:E. by eapply exec_keeping_. Qed.
End step.
Notation step := (Programs.step serve).
Notation safe I := (Programs.safe I 0).
Lemma safe_each `{TimestampColumn} (I : World -> Prop) {A} w (p : prog A) : every (@keeping _ I) p -> safe I (fun _ _ => True) w p.
Proof. intros Hp. apply Programs.safe_every. eapply every_mono; [|exact Hp]. intros X e. apply keeping_exec. Qed.
Ltac own ::=
  eapply (safe_bind _ _ (fun _ _ => True)); [apply safe_each; every|intros ? ? ? ? _|done].
Definition goal (Q : Call -> bool -> Prop) (k : Call) (_ : World) (r : result bool) : Prop :=
  match r with Ok b => Q k b | Err _ => True end.
Lemma reachable_goal `{TimestampColumn} (I : World -> Prop) `{HI : !Inv I} Q w c :
  (forall w k, I w -> safe I (goal Q k) w (serve k)) -> I w ->
  rtc step {| cf_world := w; cf_calls := [] |} c ->
  I (cf_world c) /\ forall k b, (k, Ret (Ok b)) ∈ cf_calls c -> Q k b.
Proof.
  intros Hserve Hw Hs. destruct (reached serve I (fun _ k => goal Q k) w c) as [Hc Ht]; [|done..|].
  { intros i w1 k p _ Hw1. by apply Hserve. }
  split; [done|]. intros k b [i Hi]%list_elem_of_lookup. exact (Ht i k _ Hi).
Qed.

(** ** The statements of a call *)
Definition mild {X} (e : Sql X) : Prop :=
  match e with
  | InsertGrant _ | UpdateStatus _ StatusApproved _ _ | UpdateStatus _ StatusPending _ _ => False
  | _ => True
  end.
(** The statements a call makes beyond queries and inserts of requests, events
    and reports. *)
Definition quiet {X} (e : Sql X) : Prop :=
  match e with
  | InsertGrant _ | UpdateStatus _ _ _ _ | ExpirePending | DeletePending _ | RevokeGrantRow _ _ => False
  | _ => True
  end.
Definition asks (P : forall X, Sql X -> Prop) (k : Call) : Prop :=
  match k with
  | HDelete _ id => P _ (DeletePending id)
  | HAdminRevoke _ id reason => P _ (RevokeGrantRow id reason)
  | HApprove c id _ => (forall g, gr_RequestID g = id -> P _ (InsertGrant g)) /\
      forall reason, P _ (UpdateStatus id StatusApproved (Some (ca_user_id c)) reason)
  | HReject c id reason => P _ (UpdateStatus id StatusRejected (Some (ca_user_id c)) reason)
  | HRevoke c id reason => (forall gid, P _ (RevokeGrantRow gid reason)) /\
      P _ (UpdateStatus id StatusRevoked (Some (ca_user_id c)) reason)
  | MExpire => P _ ExpirePending
  | _ => True
  end.

Section statements_of.
Variable P : forall X, Sql X -> Prop.
Hypothesis HP : forall X (e : Sql X), quiet e -> P X e.
Local Hint Extern 1 (P _ _) => (apply HP; exact I) : every.

Lemma every_GetGrantWithRequest id : every P (GetGrantWithRequest id).
Proof. unfold GetGrantWithRequest. every. Qed.
Local Hint Resolve every_GetGrantWithRequest : every.
Lemma every_GetActivityLogsStore ext s l o : every P (GetActivityLogsStore ext s l o).
Proof. unfold GetActivityLogsStore. every. Qed.
Local Hint Resolve every_GetActivityLogsStore : every.
Lemma every_GetActivitySummaryStore ext s : every P (GetActivitySummaryStore ext s).
Proof. unfold GetActivitySummaryStore. every. Qed.
Local Hint Resolve every_GetActivitySummaryStore : every.
Lemma every_activeGrant id : every P (activeGrant id).
Proof. unfold activeGrant. every. Qed.
Local Hint Resolve every_activeGrant : every.
Lemma every_GetActivityLogs g v i l o : every P (GetActivityLogs g v i l o).
Proof. unfold GetActivityLogs. every. Qed.
Local Hint Resolve every_GetActivityLogs : every.
Lemma every_GetActivitySummary g v i : every P (GetActivitySummary g v i).
Proof. unfold GetActivitySummary. every. Qed.
Local Hint Resolve every_GetActivitySummary : every.
Lemma every_reportData ty g r ext s : every P (reportData ty g r ext s).
Proof. unfold reportData. every. Qed.
Local Hint Resolve every_reportData : every.
Lemma every_GenerateComplianceReport g v i ty : every P (GenerateComplianceReport g v i ty).
Proof. unfold GenerateComplianceReport. every. Qed.
Local Hint Resolve every_GenerateComplianceReport : every.
Lemma every_ValidateGrantToken t : every P (ValidateGrantToken t).
Proof. unfold ValidateGrantToken. every. Qed.
Local Hint Resolve every_ValidateGrantToken : every.
Lemma every_CreateRequest a b c d e f g h : every P (CreateRequest a b c d e f g h).
Proof. unfold CreateRequest. every. Qed.
Local Hint Resolve every_CreateRequest : every.
Lemma every_ListRequestsWithFilter f : every P (ListRequestsWithFilter f).
Proof. unfold ListRequestsWithFilter. every. Qed.
Local Hint Resolve every_ListRequestsWithFilter : every.
Lemma every_ListGrantsWithFilter f : every P (ListGrantsWithFilter f).
Proof. unfold ListGrantsWithFilter. every. Qed.
Local Hint Resolve every_ListGrantsWithFilter : every.
Lemma every_requireUserInCallerScope c u : every P (requireUserInCallerScope c u).
Proof. unfold requireUserInCallerScope. every. Qed.
Local Hint Resolve every_requireUserInCallerScope : every.
Lemma every_grantRequesterEligible c g v : every P (grantRequesterEligible c g v).
Proof. unfold grantRequesterEligible. every. Qed.
Local Hint Resolve every_grantRequesterEligible : every.
Lemma every_validateDisclosureToken c : every P (validateDisclosureToken c).
Proof. unfold validateDisclosureToken. every. Qed.
Local Hint Resolve every_validateDisclosureToken : every.
Lemma every_authorizeLegacyDisclosureRead c g a : every P (authorizeLegacyDisclosureRead c g a).
Proof. unfold authorizeLegacyDisclosureRead. every. Qed.
Local Hint Resolve every_authorizeLegacyDisclosureRead : every.
Lemma every_legacyDisclosureViewerID c r : every P (legacyDisclosureViewerID c r).
Proof. unfold legacyDisclosureViewerID. every. Qed.
Local Hint Resolve every_legacyDisclosureViewerID : every.
Lemma every_recordLegacyDisclosureRead c g r a b n : every P (recordLegacyDisclosureRead c g r a b n).
Proof. unfold recordLegacyDisclosureRead. every. Qed.
Local Hint Resolve every_recordLegacyDisclosureRead : every.

Lemma serve_every k : asks P k -> every P (serve k).
Proof. destruct k; intros Hk; try destruct Hk as [Hk Hk']; unfold serve; every. Qed.
End statements_of.

(** Only an approval inserts a grant or turns a request into an approved one. *)
Lemma serve_mild k : (forall c id i, k <> HApprove c id i) -> every (@mild) (serve k).
Proof.
  intros Hk. apply serve_every; [by intros X []|]. destruct k; try done. by destruct (Hk c requestID i).
Qed.

(** ** Rows *)
Lemma elem_of_map_where {A} (p : A -> bool) (f : A -> A) l x :
  x ∈ map_where p f l -> exists y, y ∈ l /\ (x = y \/ x = f y /\ p y = true).
Proof. intros (y & -> & Hy)%list_elem_of_fmap. exists y. destruct (p y); auto. Qed.
Lemma elem_of_lfilter {A} (p : A -> bool) l x : x ∈ List.filter p l <-> x ∈ l /\ p x = true.
Proof. rewrite !list_elem_of_In. apply filter_In. Qed.
Lemma find_elem {A} (p : A -> bool) l x : find p l = Some x -> x ∈ l /\ p x = true.
Proof. intros H. apply find_some in H as [? ?]. by rewrite list_elem_of_In. Qed.

Section rows.
Context `{HT : TimestampColumn}.

Lemma requestRow_elem w id r : requestRow w id = Some r -> r ∈ dd_requests (w_db w) /\ rq_ID r = id.
Proof. intros [? ?%bool_decide_eq_true]%find_elem. done. Qed.
Lemma grantRow_elem w id g : grantRow w id = Some g -> g ∈ dd_grants (w_db w) /\ gr_ID g = id.
Proof. intros [? ?%bool_decide_eq_true]%find_elem. done. Qed.

(** A query leaves the world as it is. *)
Definition query_ {X} (e : Sql X) : Prop := forall c w, (statement c e w).2 = w.
Lemma query_keeping I {X} (e : Sql X) : query_ e -> keeping I e.
Proof. intros Hq c w. by rewrite Hq. Qed.
Lemma exec_query {X} c (e : Sql X) w x w' :
  query_ e -> exec c e w = (x, w') -> w' = w /\ (x = (statement c e w).1 \/ exists err, x = Err err).
Proof.
  intros Hq. unfold exec. specialize (Hq c w). destruct (ch_fault c) as [[err []]|].
  - intros [= <- <-]. rewrite Hq. eauto.
  - intros [= <- <-]. eauto.
  - destruct (statement c e w). simpl in *. intros [= <- <-]. eauto.
Qed.
Lemma safe_query I {X} (Q : World -> result X -> Prop) msg (e : Sql X) w :
  query_ e ->
  (forall w' c, later w w' -> I w' -> Q w' (if bool_decide (msg = "") then (statement c e w').1 else wrap msg (statement c e w').1)) ->
  (forall w' err, Q w' (Err err)) ->
  (forall w1 w2 r, later w1 w2 -> Q w1 r -> Q w2 r) -> safe I Q w (call msg e).
Proof.
  intros Hq HQ He Hm w1 Hl Hw c x w2 Hx. apply exec_query in Hx as [-> Hx]; [|done]. split; [done|].
  intros w' Hl' _. destruct Hx as [->|[err ->]]; [|case_bool_decide; apply He].
  eapply Hm; [done|]. by apply HQ.
Qed.

(** What a statement that inserts no request and no grant does to their rows. *)
Definition isInsert {X} (e : Sql X) : bool := match e with InsertRequest _ | InsertGrant _ => true | _ => false end.
Definition updates {X} (e : Sql X) : option (string * RequestStatus) :=
  match e with UpdateStatus id st _ _ => Some (id, st) | _ => None end.
Definition terms (r : Request) : string * Scope * string * string * string * option Z :=
  (rq_ID r, rq_Scope r, rq_RequesterDID r, rq_TargetUserID r, rq_OrgID r, rq_ExpiresAt r).

Record effect (upd : option (string * RequestStatus)) (w w' : World) : Prop := {
  eff_now : w_now w' = w_now w;
  eff_history : w_requests w' = w_requests w;
  eff_grants_history : w_grants w' = w_grants w;
  eff_requests r : r ∈ dd_requests (w_db w') -> exists r', r' ∈ dd_requests (w_db w) /\ terms r = terms r' /\
    (rq_Status r = rq_Status r' \/ rq_Status r' = StatusPending /\ rq_Status r = StatusExpired \/
     upd = Some (rq_ID r, rq_Status r));
  eff_grants g : g ∈ dd_grants (w_db w') -> exists g', g' ∈ dd_grants (w_db w) /\
    (g = g' \/ exists at_ reason, g = revoke_at at_ reason g') }.

Lemma effect_filter upd w w' pr pg :
  w_now w' = w_now w -> w_requests w' = w_requests w -> w_grants w' = w_grants w ->
  dd_requests (w_db w') = List.filter pr (dd_requests (w_db w)) ->
  dd_grants (w_db w') = List.filter pg (dd_grants (w_db w)) -> effect upd w w'.
Proof.
  intros H1 H2 H3 Hr Hg. split; [done..| |].
  - intros r. rewrite Hr, elem_of_lfilter. intros [? _]. exists r. auto.
  - intros g. rewrite Hg, elem_of_lfilter. intros [? _]. exists g. auto.
Qed.
Lemma effect_same upd w w' :
  w_now w' = w_now w -> w_requests w' = w_requests w -> w_grants w' = w_grants w ->
  dd_requests (w_db w') = dd_requests (w_db w) -> dd_grants (w_db w') = dd_grants (w_db w) -> effect upd w w'.
Proof.
  intros H1 H2 H3 Hr Hg. split; [done..| |].
  - intros r. rewrite Hr. intros ?. exists r. auto.
  - intros g. rewrite Hg. intros ?. exists g. auto.
Qed.
Lemma effect_elsewhere rbac logs gone w : effect None w (elsewhere rbac logs gone w).
Proof. by eapply effect_filter. Qed.

Lemma statement_effect {X} c (e : Sql X) w : isInsert e = false -> effect (updates e) w (statement c e w).2.
Proof.
  destruct e; simpl; intros Hi; try done; try (by apply effect_same).
  - case_match; [|case_match; by apply effect_same]. split; simpl; [done..| |].
    + intros r (r' & Hr' & [->|[-> Hid%bool_decide_eq_true]])%elem_of_map_where; exists r'; [by auto|].
      split_and!; [done|done|]. right; right. simpl. by rewrite Hid.
    + intros g Hg. exists g. auto.
  - split; simpl; [done..| |].
    + intros r (r' & Hr' & [->|[-> [Hp%bool_decide_eq_true _]%andb_true_iff]])%elem_of_map_where; exists r'; [by auto|].
      split_and!; [done|done|]. by right; left.
    + intros g Hg. exists g. auto.
  - unfold delete_pending. case_match; [|by apply effect_same]. by eapply effect_filter.
  - split; simpl; [done..| |].
    + intros r Hr. exists r. auto.
    + intros g (g' & Hg' & [->|[-> _]])%elem_of_map_where; exists g'; eauto.
  - repeat case_match; by apply effect_same.
  - repeat case_match; by apply effect_same.
Qed.
Lemma insert_request_effect c r w :
  let w' := (statement c (InsertRequest r) w).2 in
  w' = w \/ w' = insert_request r w /\ w_requests w !! rq_ID r = None.
Proof.
  simpl. destruct (bool_decide_reflect (is_Some (w_requests w !! rq_ID r))) as [|Hn]; [by left|].
  case_match; [by left|right]. split; [done|]. by apply eq_None_not_Some.
Qed.
Lemma insert_grant_effect c g w :
  let w' := (statement c (InsertGrant g) w).2 in
  w' = w \/ w' = insert_grant g w /\ w_grants w !! gr_ID g = None.
Proof.
  simpl. destruct (bool_decide_reflect (is_Some (w_grants w !! gr_ID g))) as [|Hn]; [by left|]. simpl.
  repeat case_match; try (by left). right. split; [done|]. by apply eq_None_not_Some.
Qed.
End rows.

#[export] Hint Extern 0 (query_ _) => (intros ? ?; reflexivity) : every.

(** ** A grant never covers more than its request *)
Section ledger.
Context `{HT : TimestampColumn}.

(** What the subject was asked for, as a grant may cover it. *)
Definition grantable (asked : Scope) (granted : Scope) : Prop :=
  exists base, Normalize asked = Ok base /\ canonical granted /\ within granted base.
Record ledger (w : World) : Prop := {
  led_requests r : r ∈ dd_requests (w_db w) -> exists r0, w_requests w !! rq_ID r = Some r0 /\ terms r0 = terms r;
  led_grants g : g ∈ dd_grants (w_db w) ->
    exists r0, w_requests w !! gr_RequestID g = Some r0 /\ grantable (rq_Scope r0) (gr_Scope g);
  led_known g : g ∈ dd_grants (w_db w) -> exists g0, w_grants w !! gr_ID g = Some g0 /\ gr_RequestID g0 = gr_RequestID g }.

Lemma ledger_effect upd w w' : effect upd w w' -> ledger w -> ledger w'.
Proof.
  intros [H1 H2 H3 Hr Hg] [Lr Lg Lk]. split.
  - intros r Hin. destruct (Hr r Hin) as (r' & Hin' & Ht & _). destruct (Lr r' Hin') as (r0 & H0 & Ht0).
    exists r0. assert (rq_ID r = rq_ID r') as -> by (by injection Ht). rewrite H2. split; [done|congruence].
  - intros g Hin. destruct (Hg g Hin) as (g' & Hin' & Hgg). destruct (Lg g' Hin') as (r0 & H0 & Hw0).
    exists r0. rewrite H2. by destruct Hgg as [->|(? & ? & ->)].
  - intros g Hin. rewrite H3. destruct (Hg g Hin) as (g' & Hin' & [->|(? & ? & ->)]); by apply (Lk g').
Qed.
#[export] Instance ledger_inv : Inv ledger.
Proof.
  apply world_inv; [|intros; by eapply ledger_effect, H; apply effect_elsewhere].
  intros w dt _ []. by split.
Qed.

Lemma ledger_insert_request r : keeping ledger (InsertRequest r).
Proof.
  intros c w [Lr Lg Lk]. destruct (insert_request_effect c r w) as [->|[-> Hn]]; [by split|]. split; simpl; [..|done].
  - intros x [Hx|Hx%list_elem_of_singleton]%elem_of_app;
      [|subst x; exists (stored_request r); by rewrite lookup_insert_eq].
    destruct (Lr x Hx) as (r0 & H0 & Ht). exists r0. split; [|done]. rewrite lookup_insert_ne; [done|congruence].
  - intros g Hg. destruct (Lg g Hg) as (r0 & H0 & Ht). exists r0. split; [|done].
    rewrite lookup_insert_ne; [done|congruence].
Qed.
Lemma ledger_insert_grant g c w r0 :
  w_requests w !! gr_RequestID g = Some r0 -> grantable (rq_Scope r0) (gr_Scope g) ->
  ledger w -> ledger (statement c (InsertGrant g) w).2.
Proof.
  intros Hr Hg [Lr Lg Lk]. destruct (insert_grant_effect c g w) as [->|[-> Hn]]; [by split|]. split; simpl; [done|..].
  - intros x [Hx|Hx%list_elem_of_singleton]%elem_of_app; [by apply Lg|]. subst x. by exists r0.
  - intros x [Hx|Hx%list_elem_of_singleton]%elem_of_app.
    + destruct (Lk x Hx) as (g0 & E0 & Hg0). exists g0. rewrite lookup_insert_ne; [done|congruence].
    + subst x. exists (stored_grant g). by rewrite lookup_insert_eq.
Qed.
Lemma ledger_keeping {X} (e : Sql X) :
  match e with InsertGrant _ => False | _ => True end -> keeping ledger e.
Proof.
  destruct e; try done; intros _; try (intros c w; eapply ledger_effect; by apply statement_effect).
  apply ledger_insert_request.
Qed.
Local Hint Extern 1 (keeping ledger _) => (apply ledger_keeping; exact I) : every.

(** The answer of [GetRequest] carries the terms that were inserted. *)
Lemma safe_GetRequest_ledger w id :
  safe ledger (fun w' r => forall req, r = Ok (Some req) ->
    exists r0, w_requests w' !! id = Some r0 /\ rq_Scope r0 = rq_Scope req) w (GetRequest id).
Proof.
  apply safe_query; [intros ? ?; reflexivity|..|done|].
  - intros w' c _ [Lr _ _] req. simpl. intros [= Hr]. apply requestRow_elem in Hr as [Hin <-].
    destruct (Lr req Hin) as (r0 & H0 & Ht). exists r0. split; [done|]. by injection Ht.
  - intros w1 w2 r [_ Hl _] H req Er. destruct (H req Er) as (r0 & H0 & Hs). exists r0. split; [|done].
    by eapply lookup_weaken.
Qed.

Lemma safe_insert_grant_ledger w g msg r0 :
  w_requests w !! gr_RequestID g = Some r0 -> grantable (rq_Scope r0) (gr_Scope g) ->
  safe ledger (fun _ _ => True) w (call msg (InsertGrant g)).
Proof.
  intros Hr Hg w1 Hl Hw c x w2. cbn [m_exec disclosure_machine]. unfold exec.
  assert (ledger (statement c (InsertGrant g) w1).2) as Hk.
  { eapply ledger_insert_grant; [|done|done]. destruct Hl as [_ Hl _]. by eapply lookup_weaken. }
  destruct (ch_fault c) as [[err []]|]; [intros [= <- <-]|intros [= <- <-]|];
    [by split; [|intros ? ? ?]|by split; [|intros ? ? ?]|].
  destruct (statement c (InsertGrant g) w1). intros [= <- <-]. by split; [|intros ? ? ?].
Qed.

Lemma safe_ApproveRequest w id by_ narrowed dt reason :
  safe ledger (fun _ _ => True) w (ApproveRequest id by_ narrowed dt reason).
Proof.
  unfold ApproveRequest. eapply safe_bind; [apply safe_GetRequest_ledger| |done].
  intros w1 [req|] Hl1 Hw1 HQ; [|by intros ? ? ?]. destruct (HQ req eq_refl) as (r0 & H0 & Hs).
  destruct (bool_decide _); cbn [negb]; [|by intros ? ? ?]. own.
  destruct (IsExpired _ _); [by intros ? ? ?|].
  destruct (grantedScope (rq_Scope req) narrowed) as [granted|] eqn:Eg; [|by intros ? ? ?].
  cbn [lifted mbind prog_bind prog_bind_]. own. own. own. own.
  eapply (safe_bind _ _ (fun _ _ => True)); [|intros; apply safe_each; every|done].
  apply safe_insert_grant_ledger with r0.
  - eapply lookup_weaken; [exact H0|]. eapply later_requests. later.
  - rewrite Hs. by apply grantedScope_within in Eg.
Qed.

Lemma mild_ledger {X} (e : Sql X) : mild e -> keeping ledger e.
Proof. intros H. apply ledger_keeping. by destruct e. Qed.
Lemma serve_ledger w k : safe ledger (goal (fun _ _ => True) k) w (serve k).
Proof.
  apply safe_weaken with (fun _ _ => True); [|by intros ? []].
  destruct k; try (apply safe_each; eapply every_mono; [by apply @mild_ledger|by apply serve_mild]).
  unfold serve, approveDisclosureRequest, asTarget. destruct i as [i|]; [|by intros ? ? ?].
  eapply (safe_bind _ _ (fun _ _ => True)); [|intros; by intros ? ? ?|done].
  eapply (safe_handle _ _ (fun _ _ => True)); [apply safe_each; every|].
  intros w1 [[req|]|] _ _ _; [|by intros ? ? ?..]. destruct (bool_decide _); [|by intros ? ? ?].
  eapply (safe_handle _ _ (fun _ _ => True)); [apply safe_ApproveRequest|]. intros w2 [] _ _ _; by intros ? ? ?.
Qed.
End ledger.

(** C24: Whatever calls interleave and whichever statements fail, from tables whose
    grants are within their requests every grant row of every reachable state has
    a canonical scope inside the scope of the request it belongs to: each
    transaction and each instant it covers is covered by what the subject was
    asked for, and it reveals no more of an address. *)
Theorem granted_within_request `{TimestampColumn} w0 c g r :
  ledger w0 -> rtc step {| cf_world := w0; cf_calls := [] |} c ->
  g ∈ dd_grants (w_db (cf_world c)) -> requestRow (cf_world c) (gr_RequestID g) = Some r ->
  grantable (rq_Scope r) (gr_Scope g).
Proof.
  intros H0 Hr Hg Hreq.
  destruct (reachable_goal ledger (fun _ _ => True) w0 c) as [[Lr Lg _] _]; [intros; apply serve_ledger|done..|].
  apply requestRow_elem in Hreq as [Hin Hid]. destruct (Lg g Hg) as (r0 & E0 & Hw).
  destruct (Lr r Hin) as (r1 & E1 & Ht). rewrite Hid in E1. rewrite E0 in E1. injection E1 as <-.
  assert (rq_Scope r = rq_Scope r0) as -> by (by injection Ht). done.
Qed.

(** ** A closed grant releases nothing *)
Section gate.
Context `{HT : TimestampColumn}.

(** What stands between a grant and its readers: from now on either the grant is
    inactive, or its request is not approved. *)
Class Gate (I : World -> Prop) (gid : string) : Prop := {
  gate_inv :: Inv I;
  gate_shut w g : I w -> g ∈ dd_grants (w_db w) -> gr_ID g = gid ->
    (forall w', later w w' -> IsActive (w_now w') g = false) \/
    (forall w' r, later w w' -> I w' -> requestRow w' (gr_RequestID g) = Some r -> rq_Status r <> StatusApproved) }.

Section denied.
Context (I : World -> Prop) (gid : string) `{HG : Gate I gid}.

Definition shutFrom (w : World) (g : Grant) : Prop :=
  (forall w', later w w' -> IsActive (w_now w') g = false) \/
  (forall w' r, later w w' -> I w' -> requestRow w' (gr_RequestID g) = Some r -> rq_Status r <> StatusApproved).
Lemma shutFrom_later w w' g : later w w' -> shutFrom w g -> shutFrom w' g.
Proof. intros Hl [H|H]; [left|right]; intros; eapply H; [by etrans|by etrans|done..]. Qed.

Lemma safe_GetGrant w id :
  safe I (fun w' r => forall g, r = Ok (Some g) -> gr_ID g = id /\ (id = gid -> shutFrom w' g)) w (GetGrant id).
Proof.
  apply safe_query; [intros ? ?; reflexivity|..|done|].
  - intros w' c _ Hw g. simpl. intros [= Hg]. apply grantRow_elem in Hg as [Hin Hid].
    split; [done|]. intros ->. by eapply gate_shut.
  - intros w1 w2 r Hl H g Hr. destruct (H g Hr) as [? Hs]. split; [done|]. intros E. eapply shutFrom_later; eauto.
Qed.
Lemma safe_GetGrantByToken w h :
  safe I (fun w' r => forall g, r = Ok (Some g) -> gr_ID g = gid -> shutFrom w' g) w (GetGrantByToken h).
Proof.
  apply safe_query; [intros ? ?; reflexivity|..|done|].
  - intros w' c _ Hw g. simpl. intros [= [Hin _]%find_elem] Hid. by eapply gate_shut.
  - intros w1 w2 r Hl H g Hr Hid. eapply shutFrom_later; eauto.
Qed.
Lemma safe_GetRequest w g :
  shutFrom w g ->
  safe I (fun w' r => forall req, r = Ok (Some req) -> rq_Status req = StatusApproved ->
    forall w2, later w' w2 -> IsActive (w_now w2) g = false) w (GetRequest (gr_RequestID g)).
Proof.
  intros Hs. apply safe_query; [intros ? ?; reflexivity|..|done|].
  - intros w' c Hl Hw req. simpl. intros [= Hr] Ha w2 Hl2. destruct Hs as [Hs|Hs].
    + apply Hs. by etrans.
    + by destruct (Hs w' req Hl Hw Hr).
  - intros w1 w2 r Hl H req Hr Ha w3 Hl3. eapply H; [done|done|by etrans].
Qed.

(** The lookup of a read: the approved request of a shut grant is never found
    while the grant is active. *)
Lemma safe_GetGrantWithRequest w :
  safe I (fun w' r => forall gw req, r = Ok (Some gw) -> gw_Request gw = Some req ->
    rq_Status req = StatusApproved -> forall w2, later w' w2 -> IsActive (w_now w2) (gw_Grant gw) = false)
    w (GetGrantWithRequest gid).
Proof.
  unfold GetGrantWithRequest. eapply safe_bind; [apply safe_GetGrant| |done].
  intros w1 [g|] _ _ HQ; [|by intros ? ? ?]. destruct (HQ g eq_refl) as [_ Hs]. specialize (Hs eq_refl).
  eapply safe_bind; [by apply safe_GetRequest| |done]. intros w2 r Hl _ HR w3 Hl3 _ gw req [= <-]. simpl.
  intros -> Ha w4 Hl4. eapply HR; [done|done|by etrans].
Qed.

Definition refused (_ : World) (r : result Authorized) : Prop :=
  match r with Ok (inl h) => releases h = false | Ok (inr _) => False | Err _ => True end.
Definition failed {A} (_ : World) (r : result A) : Prop := is_ok r = false.
Lemma activeGrant_denied w : safe I failed w (activeGrant gid).
Proof.
  unfold activeGrant. eapply safe_bind; [apply safe_GetGrantWithRequest| |done].
  intros w1 [gw|] _ _ HQ; [|by intros ? ? ?]. destruct (gw_Request gw) as [req|] eqn:Er; [|by intros ? ? ?].
  destruct (bool_decide_reflect (rq_Status req = StatusApproved)) as [Ha|]; [|by intros ? ? ?].
  cbn [negb mbind prog_bind prog_bind_ now]. intros w2 Hl2 Hw2. cbn [m_clock disclosure_machine].
  rewrite (HQ gw req eq_refl Er Ha w2 Hl2). cbn [negb]. by intros ? ? ?.
Qed.
Lemma explorerGrant_denied c w b :
  safe I refused w (explorerGrant c gid b).
Proof.
  unfold explorerGrant. destruct (negb _); [by intros ? ? ?|]. destruct (bool_decide _); [by intros ? ? ?|].
  eapply safe_handle; [apply safe_GetGrantWithRequest|].
  intros w1 [[gw|]|] _ _ HQ; [|by intros ? ? ?..].
  eapply (safe_bind _ _ (fun _ r => r = Ok true -> exists req, gw_Request gw = Some req /\ rq_Status req = StatusApproved));
    [| |done].
  - unfold grantRequesterEligible. destruct (gw_Request gw) as [req|]; [|by intros ? ? ?].
    destruct (_ || ca_grants_suppressed c) eqn:E; [by intros ? ? ?|]. case_match; [by intros ? ? ?|].
    apply orb_false_iff in E as [[_ E]%orb_false_iff _]. apply negb_false_iff, bool_decide_eq_true in E.
    eapply (safe_handle _ _ (fun _ _ => True)); [by apply safe_each, every_call, query_keeping|].
    intros w2 r _ _ _ w3 _ _ _. eauto.
  - intros w2 [] Hl2 _ HE; [|by intros ? ? ?]. destruct (HE eq_refl) as (req & Er & Ha). rewrite Er.
    cbn [negb mbind prog_bind prog_bind_ now]. intros w3 Hl3 Hw3. cbn [m_clock disclosure_machine].
    rewrite (HQ gw req eq_refl Er Ha w3) by (by etrans). cbn [negb]. destruct b; by intros ? ? ?.
Qed.
Lemma ValidateGrantToken_denied w t :
  safe I (fun _ r => forall gw, r = Ok gw -> gr_ID (gw_Grant gw) <> gid) w (ValidateGrantToken t).
Proof.
  unfold ValidateGrantToken. eapply safe_bind; [apply safe_GetGrantByToken| |done].
  intros w1 [g|] _ _ HQ; [|by intros ? ? ?]. cbn [negb mbind prog_bind prog_bind_ now]. intros w2 Hl2 Hw2. cbn [m_clock disclosure_machine].
  destruct (IsActive (w_now w2) g) eqn:Ea; cbn [negb]; [|by intros ? ? ?].
  eapply (safe_bind _ _ (fun w' r => gr_ID g = gid -> forall req, r = Ok (Some req) -> rq_Status req <> StatusApproved));
    [| |by intros ? ? ? ? ?].
  - apply safe_query; [done|..|done|intros; eauto].
    intros w' ch Hl' Hw' Hid req. simpl. intros [= Hr]. destruct (HQ g eq_refl Hid) as [Hs|Hs].
    + by rewrite (Hs w2) in Ea.
    + apply (Hs w'); [by etrans|done..].
  - intros w3 [req|] _ _ HR; [|by intros ? ? ?].
    destruct (bool_decide_reflect (rq_Status req = StatusApproved)) as [Ha|]; [|by intros ? ? ?]. cbn [negb].
    destruct (ForRead (gr_Scope g)); [|by intros ? ? ?]. intros w4 _ _ gw [= <-]. simpl. intros Hid.
    by destruct (HR Hid req eq_refl).
Qed.
Lemma validateDisclosureToken_denied c w :
  safe I (fun _ r => forall gw, r = Ok gw -> gr_ID (gw_Grant gw) <> gid) w (validateDisclosureToken c).
Proof.
  unfold validateDisclosureToken. destruct (bool_decide (ca_token_header c = "")).
  - destruct (bool_decide _); [by intros ? ? ?|apply ValidateGrantToken_denied].
  - destruct (bool_decide _); [by intros ? ? ?|apply ValidateGrantToken_denied].
Qed.
Lemma authorizeLegacyDisclosureRead_denied c w a :
  safe I refused w (authorizeLegacyDisclosureRead c gid a).
Proof.
  unfold authorizeLegacyDisclosureRead. destruct (negb _); [by intros ? ? ?|].
  eapply safe_handle; [apply validateDisclosureToken_denied|].
  intros w1 [gw|] _ _ HQ; [|by intros ? ? ?]. destruct (gw_Request gw); [|by intros ? ? ?].
  rewrite bool_decide_false by (by apply HQ). cbn [negb]. by intros ? ? ?.
Qed.

Lemma authorized_denied (p : prog Authorized) f w :
  safe I refused w p -> safe I (fun _ r => forall h, r = Ok h -> releases h = false) w (authorized p f).
Proof.
  intros Hp. unfold authorized. eapply safe_bind; [exact Hp| |done].
  intros w1 [h|x] _ _ HR; [|done]. by intros w2 _ _ h' [= <-].
Qed.

(** No read through the grant that starts under [I] ends with data. *)
Lemma serve_denied w k : readsThrough k = Some gid -> safe I (fun _ r => r <> Ok true) w (serve k).
Proof.
  assert (Hrel : forall c a f w,
    safe I (fun _ r => r <> Ok true) w (h ← authorized (authorizeLegacyDisclosureRead c gid a) f; mret (releases h))).
  { intros c a f w'. eapply safe_bind; [apply authorized_denied, authorizeLegacyDisclosureRead_denied| |done].
    intros w1 h _ _ HQ w2 _ _ [= E]. by rewrite HQ in E. }
  destruct k; try done; intros [= ->]; try apply Hrel. unfold serve.
  eapply safe_bind; [apply explorerGrant_denied| |done]. intros w1 [h|x] _ _ HQ; by intros ? ? ? [=].
Qed.
End denied.

(** *** Revoked and expired grants *)
Definition dead (gid : string) (w : World) : Prop :=
  is_Some (w_grants w !! gid) /\
  forall g, g ∈ dd_grants (w_db w) -> gr_ID g = gid -> IsActive (w_now w) g = false.

Lemma IsActive_later t t' g : (t <= t')%Z -> IsActive t g = false -> IsActive t' g = false.
Proof. unfold IsActive. destruct (gr_RevokedAt g); [done|]. rewrite !Z.ltb_ge. lia. Qed.
Lemma dead_effect gid upd w w' : effect upd w w' -> dead gid w -> dead gid w'.
Proof.
  intros [H1 _ H3 _ Hg] [Hk Hd]. split; [by rewrite H3|]. intros g Hin Hid.
  destruct (Hg g Hin) as (g' & Hin' & [->|(? & ? & ->)]); [|done]. rewrite H1. by apply Hd.
Qed.
Lemma dead_keeping gid {X} (e : Sql X) : keeping (dead gid) e.
Proof.
  intros c w Hd. destruct (isInsert e) eqn:Ei; [|by eapply dead_effect; [apply statement_effect|]].
  destruct e; try done.
  - destruct (insert_request_effect c r w) as [->|[-> _]]; [done|]. exact Hd.
  - destruct (insert_grant_effect c g w) as [->|[-> Hn]]; [done|]. destruct Hd as [[g0 Hk] Hd]. split; simpl.
    + exists g0. rewrite lookup_insert_ne; [done|congruence].
    + intros x [Hx|Hx%list_elem_of_singleton]%elem_of_app; [by apply Hd|]. subst x. simpl. intros E. congruence.
Qed.
#[export] Instance dead_gate gid : Gate (dead gid) gid.
Proof.
  split; [apply world_inv|].
  - intros w dt Hdt [Hk Hd]. split; [done|]. intros g Hin Hid. simpl.
    eapply IsActive_later; [|by apply Hd]. lia.
  - intros w rbac logs gone Hd. by eapply dead_effect; [apply effect_elsewhere|].
  - intros w g [_ Hd] Hin Hid. left. intros w' [Hn _ _]. eapply IsActive_later; [done|]. by apply Hd.
Qed.

(** *** Requests that were rejected, revoked or left to expire *)
Definition closed (gid rid : string) (w : World) : Prop :=
  is_Some (w_grants w !! gid) /\ is_Some (w_requests w !! rid) /\
  (forall g, g ∈ dd_grants (w_db w) -> gr_ID g = gid -> gr_RequestID g = rid) /\
  (forall r, r ∈ dd_requests (w_db w) -> rq_ID r = rid -> rq_Status r <> StatusPending /\ rq_Status r <> StatusApproved).

Lemma closed_effect gid rid upd w w' :
  effect upd w w' -> (forall st, upd = Some (rid, st) -> st <> StatusPending /\ st <> StatusApproved) ->
  closed gid rid w -> closed gid rid w'.
Proof.
  intros [_ H2 H3 Hr Hg] Hu (Hk & Hq & Hb & Hc). split_and!; [by rewrite H3|by rewrite H2|..].
  - intros g Hin Hid. destruct (Hg g Hin) as (g' & Hin' & [->|(? & ? & ->)]); by apply (Hb g').
  - intros r Hin Hid. destruct (Hr r Hin) as (r' & Hin' & Ht & Hst).
    assert (rq_ID r = rq_ID r') as Ei by (by injection Ht). destruct (Hc r' Hin') as [H4 H5]; [congruence|].
    destruct Hst as [->|[[H6 _]|H6]]; [done|done|]. apply Hu. by rewrite H6, Hid.
Qed.
Lemma closed_insert_request gid rid r : keeping (closed gid rid) (InsertRequest r).
Proof.
  intros c w (Hk & [r0 Hq] & Hb & Hc). destruct (insert_request_effect c r w) as [->|[-> Hn]].
  { split_and!; [done|by exists r0|done..]. }
  split_and!; simpl; [done| |done|].
  - exists r0. rewrite lookup_insert_ne; [done|congruence].
  - intros x [Hx|Hx%list_elem_of_singleton]%elem_of_app; [by apply Hc|]. subst x. simpl. congruence.
Qed.
Lemma closed_insert_grant gid rid g : keeping (closed gid rid) (InsertGrant g).
Proof.
  intros c w ([g0 Hk] & Hq & Hb & Hc). destruct (insert_grant_effect c g w) as [->|[-> Hn]].
  { split_and!; [by exists g0|done..]. }
  split_and!; simpl; [|done| |done].
  - exists g0. rewrite lookup_insert_ne; [done|congruence].
  - intros x [Hx|Hx%list_elem_of_singleton]%elem_of_app; [by apply Hb|]. subst x. simpl. congruence.
Qed.
Lemma closed_keeping gid rid {X} (e : Sql X) :
  (forall st, updates e = Some (rid, st) -> st <> StatusPending /\ st <> StatusApproved) -> keeping (closed gid rid) e.
Proof.
  intros Hu. destruct (isInsert e) eqn:Ei.
  - destruct e; try done; [apply closed_insert_request|apply closed_insert_grant].
  - intros c w Hc. by eapply closed_effect; [apply statement_effect|..].
Qed.
Lemma mild_closed gid rid {X} (e : Sql X) : mild e -> keeping (closed gid rid) e.
Proof. intros Hm. apply closed_keeping. destruct e; try done. destruct st; try done; intros st' [= _ <-]; by split. Qed.
#[export] Instance closed_gate gid rid : Gate (closed gid rid) gid.
Proof.
  split; [apply world_inv|].
  - done.
  - intros w rbac logs gone Hc. by eapply closed_effect; [apply effect_elsewhere|..].
  - intros w g (_ & _ & Hb & _) Hin Hid. right. intros w' r _ (_ & _ & _ & Hc) [Hr Er]%requestRow_elem.
    rewrite (Hb g Hin Hid) in Er. by apply Hc.
Qed.

(** An approval finds the closed request decided, or works on another one. *)
Lemma ApproveRequest_closed gid rid w id by_ narrowed dt reason :
  safe (closed gid rid) (fun _ _ => True) w (ApproveRequest id by_ narrowed dt reason).
Proof.
  destruct (decide (id = rid)) as [->|Hne].
  - unfold ApproveRequest.
    eapply (safe_bind _ _ (fun _ r => forall req, r = Ok (Some req) -> rq_Status req <> StatusPending)); [| |done].
    + apply safe_query; [done|..|done|by intros; eauto]. intros w' c _ (_ & _ & _ & Hc) req. simpl.
      intros [= [Hr Er]%requestRow_elem]. by apply Hc.
    + intros w1 [req|] _ _ HQ; [|by intros ? ? ?]. rewrite bool_decide_false by (by apply HQ). by intros ? ? ?.
  - apply safe_each. unfold ApproveRequest, GetRequest.
    assert (forall by_ reason, keeping (closed gid rid) (UpdateStatus id StatusApproved by_ reason)) as Hu.
    { intros. apply closed_keeping. intros st [= ? ?]. done. }
    assert (forall g, keeping (closed gid rid) (InsertGrant g)) as Hg by (intros; apply closed_insert_grant).
    assert (keeping (closed gid rid) (SelectRequest id)) as Hq by (by apply query_keeping).
    revert Hu Hg Hq. generalize (closed gid rid). intros I Hu Hg Hq. every.
Qed.
Lemma serve_closed gid rid w k : safe (closed gid rid) (fun _ _ => True) w (serve k).
Proof.
  destruct k; try (apply safe_each; eapply every_mono; [by apply @mild_closed|by apply serve_mild]).
  unfold serve, approveDisclosureRequest, asTarget. destruct i as [i|]; [|by intros ? ? ?].
  eapply (safe_bind _ _ (fun _ _ => True)); [|intros; by intros ? ? ?|done].
  eapply (safe_handle _ _ (fun _ _ => True)); [by apply safe_each, every_call, query_keeping|].
  intros w1 [[req|]|] _ _ _; [|by intros ? ? ?..]. destruct (bool_decide _); [|by intros ? ? ?].
  eapply (safe_handle _ _ (fun _ _ => True)); [apply ApproveRequest_closed|]. intros w2 [] _ _ _; by intros ? ? ?.
Qed.
End gate.

(** ** Final revocations *)
Section final.
Context `{HT : TimestampColumn}.

Lemma serve_shut I gid w k :
  Gate I gid -> (forall w k, safe I (fun _ _ => True) w (serve k)) ->
  safe I (goal (fun k b => readsThrough k = Some gid -> b = false) k) w (serve k).
Proof.
  intros HG Hs. destruct (decide (readsThrough k = Some gid)) as [E|Hne].
  - eapply safe_weaken; [by apply (serve_denied I gid)|]. intros w' [[]|] _ H; simpl; done.
  - eapply safe_weaken; [apply Hs|]. intros w' [b|] _ _; [|done]. intros E. by destruct Hne.
Qed.
Lemma serve_dead gid w k : safe (dead gid) (fun _ _ => True) w (serve k).
Proof.
  apply safe_each. generalize (serve k). intros p. induction p; simpl; auto. split; [apply dead_keeping|done].
Qed.
(** From a configuration with calls in flight: a call that keeps [I] statement by
    statement may be at any point; of those that start later, none reads. *)
Lemma shut_forever I gid w0 ts c :
  Gate I gid -> (forall w k, safe I (fun _ _ => True) w (serve k)) -> I w0 ->
  Forall (fun kp => every (@keeping _ I) kp.2) ts ->
  rtc step {| cf_world := w0; cf_calls := ts |} c ->
  forall i k, length ts <= i -> readsThrough k = Some gid -> cf_calls c !! i <> Some (k, Ret (Ok true)).
Proof.
  intros HG Hs Hw Hts Hr i k Hi Hk Hc. pose proof (@gate_inv _ _ _ HG) as HI.
  set (Q := fun n k => if decide (length ts <= n)
                       then goal (fun k b => readsThrough k = Some gid -> b = false) k else fun _ _ => True).
  destruct (reachable_good serve I Q {| cf_world := w0; cf_calls := ts |} c) as [Hwc Ht]; [|done| |].
  - intros n w1 k1 p1 _ _. subst Q. cbn beta. case_decide; [by apply serve_shut|apply Hs].
  - split; [done|]. intros n k1 p1 Hn. subst Q. cbn beta. rewrite decide_False.
    + rewrite Forall_lookup in Hts. specialize (Hts _ _ Hn). by apply safe_each.
    + apply lookup_lt_Some in Hn. cbn in Hn. lia.
  - specialize (Ht i k _ Hc). subst Q. cbn beta in Ht. rewrite decide_True in Ht by done.
    by discriminate (Ht (cf_world c) ltac:(done) Hwc Hk).
Qed.

(** A program on its own: [Q] holds when it ends. *)
Fixpoint alone {A} (Q : World -> result A -> Prop) (w : World) (p : prog A) : Prop :=
  match p with
  | Ret r => Q w r
  | Vis e k => forall c x w2, exec c e w = (x, w2) -> alone Q w2 (k x)
  | Clock k => forall dt, alone Q (tick w dt) (k (w_now (tick w dt)))
  | Fresh k => forall u, alone Q w (k u)
  end.
Lemma alone_run {A} Q env w (p : prog A) r w' : alone Q w p -> run env w p = (r, w') -> Q w' r.
Proof.
  revert env w. induction p as [x|X e k IH|k IH|k IH]; intros env w Hp; cbn.
  - by intros [= <- <-].
  - destruct (exec _ e w) as [x w2] eqn:E. apply IH. by eapply Hp.
  - apply IH, Hp.
  - apply IH, Hp.
Qed.

Lemma exec_ok {X} c (e : Sql X) w x w' : exec c e w = (Ok x, w') -> statement c e w = (Ok x, w').
Proof. unfold exec. by destruct (ch_fault c) as [[]|]. Qed.
Lemma mild_ledger_exec {X} c (e : Sql X) w x w' : mild e -> ledger w -> exec c e w = (x, w') -> ledger w'.
Proof. intros Hm. apply exec_keeping_. by apply mild_ledger. Qed.

(** The statement that closes a request, and the one that revokes a grant. *)
Lemma UpdateStatus_closes gid g w c by_ reason w2 :
  ledger w -> w_grants w !! gid = Some g -> is_Some (w_requests w !! gr_RequestID g) ->
  exec c (UpdateStatus (gr_RequestID g) StatusRevoked by_ reason) w = (Ok tt, w2) -> closed gid (gr_RequestID g) w2.
Proof.
  intros HL Hg Hq Hx. assert (ledger w2) as [_ _ Lk] by (by eapply mild_ledger_exec; [|exact HL|exact Hx]).
  pose proof (exec_later _ _ _ _ _ Hx) as [_ Hl1 Hl2].
  destruct Hq as [q Hq]. split_and!.
  - exists g. by eapply lookup_weaken.
  - exists q. by eapply lookup_weaken.
  - intros g' Hin Hid. destruct (Lk g' Hin) as (g0 & E0 & <-). rewrite Hid in E0.
    rewrite (lookup_weaken _ _ _ _ Hg Hl2) in E0. by simplify_eq.
  - intros r Hin Hid. apply exec_ok in Hx. simpl in Hx. destruct (known_user w by_).
    + injection Hx as <-. simpl in Hin. apply list_elem_of_fmap in Hin as (r' & -> & _).
      revert Hid. case_bool_decide; [done|]. intros. done.
    + destruct (existsb _ _) eqn:Ee; simplify_eq. rewrite existsb_false in Ee. specialize (Ee r Hin).
      by rewrite bool_decide_true in Ee.
Qed.
Lemma RevokeGrantRow_kills gid g w c reason w2 :
  w_grants w !! gid = Some g -> exec c (RevokeGrantRow gid reason) w = (Ok tt, w2) -> dead gid w2.
Proof.
  intros Hg Hx. pose proof (exec_later _ _ _ _ _ Hx) as [_ _ Hl2]. split; [exists g; by eapply lookup_weaken|].
  apply exec_ok in Hx. injection Hx as <-. simpl. intros g1 Hin Hid.
  apply list_elem_of_fmap in Hin as (g' & -> & _). revert Hid. by case_bool_decide.
Qed.
End final.

(** ** What a read returns *)

(** Rounding the dates of a scope to microseconds never widens them, and keeps
    every instant a column can hold. *)
Lemma bounds_exact dr t :
  (t mod 1000 = 0)%Z ->
  let '(s, e) := disclosureActivityDateBounds dr in
  (s <= t <= e <-> dr_Start dr <= t <= dr_End dr)%Z.
Proof.
  intros Ht. unfold disclosureActivityDateBounds, truncMicro.
  pose proof (Z.div_mod t 1000 ltac:(lia)) as E. pose proof (Z.div_mod (dr_Start dr) 1000 ltac:(lia)) as Es.
  pose proof (Z.div_mod (dr_End dr) 1000 ltac:(lia)) as Ee.
  pose proof (Z.mod_pos_bound (dr_Start dr) 1000 ltac:(lia)). pose proof (Z.mod_pos_bound (dr_End dr) 1000 ltac:(lia)).
  destruct (_ <? _)%Z eqn:El; [apply Z.ltb_lt in El|apply Z.ltb_ge in El]; lia.
Qed.
Lemma bounds_inward dr t :
  let '(s, e) := disclosureActivityDateBounds dr in (s <= t <= e -> dr_Start dr <= t <= dr_End dr)%Z.
Proof.
  unfold disclosureActivityDateBounds, truncMicro.
  pose proof (Z.div_mod (dr_Start dr) 1000 ltac:(lia)). pose proof (Z.div_mod (dr_End dr) 1000 ltac:(lia)).
  pose proof (Z.mod_pos_bound (dr_Start dr) 1000 ltac:(lia)). pose proof (Z.mod_pos_bound (dr_End dr) 1000 ltac:(lia)).
  destruct (_ <? _)%Z eqn:El; [apply Z.ltb_lt in El|apply Z.ltb_ge in El]; lia.
Qed.

Section reads.
Context `{HT : TimestampColumn}.

(** The moment at which an operation of a program takes effect: the world it
    finds, whatever the others made of it, and what the environment chose. *)
Record Moment := { mo_world : World; mo_choice : Choice; mo_uuid : string }.

(** [ran p ms evs r]: [p], its operations taking effect one by one at the moments
    [ms], answered [r]; [evs] are the events it tried to record, and when.  The
    moments determine the rest. *)
Definition attempted {X} (e : Sql X) : list Event := match e with InsertEvent ev => [ev] | _ => [] end.
Fixpoint ran {A} (p : prog A) (ms : list Moment) (evs : list (Moment * Event)) (r : result A) : Prop :=
  match p with
  | Ret r' => ms = [] /\ evs = [] /\ r = r'
  | Vis e k => exists m ms' evs', ms = m :: ms' /\ evs = (map (pair m) (attempted e) ++ evs')%list /\
      ran (k (exec (mo_choice m) e (mo_world m)).1) ms' evs' r
  | Clock k => exists m ms', ms = m :: ms' /\ ran (k (w_now (mo_world m))) ms' evs r
  | Fresh k => exists m ms', ms = m :: ms' /\ ran (k (mo_uuid m)) ms' evs r
  end.

Lemma ran_bind {A B} (f : A -> prog B) p ms evs b :
  ran (p ≫= f) ms evs (Ok b) -> exists a ms1 ms2 evs1 evs2, ms = (ms1 ++ ms2)%list /\ evs = (evs1 ++ evs2)%list /\
    ran p ms1 evs1 (Ok a) /\ ran (f a) ms2 evs2 (Ok b).
Proof.
  revert ms evs. induction p as [[a|e]|X e k IH|k IH|k IH]; intros ms evs; cbn.
  - intros H. by exists a, [], ms, [], evs.
  - by intros (_ & _ & [=]).
  - intros (m & ms' & evs' & -> & -> & H). apply IH in H as (a & m1 & m2 & t1 & t2 & -> & -> & H1 & H2).
    exists a, (m :: m1), m2, (map (pair m) (attempted e) ++ t1)%list, t2. rewrite app_assoc.
    split_and!; [done..| |done]. by exists m, m1, t1.
  - intros (m & ms' & -> & H). apply IH in H as (a & m1 & m2 & t1 & t2 & -> & -> & H1 & H2).
    exists a, (m :: m1), m2, t1, t2. split_and!; [done..| |done]. by exists m, m1.
  - intros (m & ms' & -> & H). apply IH in H as (a & m1 & m2 & t1 & t2 & -> & -> & H1 & H2).
    exists a, (m :: m1), m2, t1, t2. split_and!; [done..| |done]. by exists m, m1.
Qed.
Lemma ran_exec {X} msg (e : Sql X) ms evs x :
  ran (call msg e) ms evs (Ok x) -> exists m, ms = [m] /\ evs = map (pair m) (attempted e) /\
    (exec (mo_choice m) e (mo_world m)).1 = Ok x.
Proof.
  intros (m & ms' & evs' & -> & -> & -> & -> & Hy). exists m. rewrite app_nil_r. split_and!; [done..|].
  destruct (exec _ e _) as [y w']. cbn in *.
  case_bool_decide; [done|symmetry in Hy; by apply wrap_Ok in Hy].
Qed.
Lemma ran_call {X} msg (e : Sql X) ms evs x :
  attempted e = [] -> ran (call msg e) ms evs (Ok x) -> evs = [] /\ exists m, ms = [m] /\
    (statement (mo_choice m) e (mo_world m)).1 = Ok x.
Proof.
  intros He (m & -> & -> & Hx)%ran_exec. rewrite He. split; [done|]. exists m. split; [done|].
  destruct (exec _ e _) as [y w'] eqn:E. cbn in Hx. subst y. apply exec_ok in E. by rewrite E.
Qed.
Lemma ran_now ms evs t : ran now ms evs (Ok t) -> evs = [] /\ exists m, ms = [m] /\ t = w_now (mo_world m).
Proof. intros (m & ms' & -> & -> & -> & [= ->]). split; [done|]. by exists m. Qed.
Lemma ran_lifted {A} (r : result A) ms evs a : ran (lifted r) ms evs (Ok a) -> ms = [] /\ evs = [] /\ r = Ok a.
Proof. by intros (-> & -> & <-). Qed.

(** The grant and the approved request a read was let through by: the rows of
    the tables at the moments [mg] and [mr], the time that of [mt]. *)
Record consent (mg mr mt : Moment) (gid : string) (g : Grant) (req : Request) (scope : Scope) : Prop := {
  con_grant : grantRow (mo_world mg) gid = Some g;
  con_request : requestRow (mo_world mr) (gr_RequestID g) = Some req;
  con_approved : rq_Status req = StatusApproved;
  con_active : IsActive (w_now (mo_world mt)) g = true;
  con_scope : ForRead (gr_Scope g) = Ok scope;
  con_activity : ValidateActivity scope = Ok tt }.

Lemma ran_activeGrant gid ms evs g req scope :
  ran (activeGrant gid) ms evs (Ok (g, req, scope)) ->
  evs = [] /\ exists mg mr mt, ms = [mg; mr; mt] /\ consent mg mr mt gid g req scope.
Proof.
  unfold activeGrant, GetGrantWithRequest. intros (gw & m1 & m2 & t1 & t2 & -> & -> & H1 & H2)%ran_bind.
  apply ran_bind in H1 as (og & m3 & m4 & t3 & t4 & -> & -> & H1 & H3).
  apply ran_call in H1 as (-> & mg & -> & [= E1]); [|done].
  destruct og as [g'|]; [|destruct H3 as (-> & -> & [= ->]); by destruct H2 as (_ & _ & ?)].
  apply ran_bind in H3 as (oreq & m5 & m6 & t5 & t6 & -> & -> & H3 & -> & -> & [= ->]).
  apply ran_call in H3 as (-> & mr & -> & [= E2]); [|done]. cbn [gw_Request gw_Grant] in H2.
  destruct oreq as [req'|]; [|by destruct H2 as (_ & _ & ?)].
  destruct (bool_decide_reflect (rq_Status req' = StatusApproved)) as [Ha|]; [|by destruct H2 as (_ & _ & ?)].
  cbn [negb] in H2.
  apply ran_bind in H2 as (t & m7 & m8 & t7 & t8 & -> & -> & (-> & mt & -> & ->)%ran_now & H2).
  destruct (IsActive _ g') eqn:Et; [|by destruct H2 as (_ & _ & ?)]. cbn [negb] in H2.
  apply ran_bind in H2 as (sc & m9 & m10 & t9 & t10 & -> & -> & (-> & -> & Es)%ran_lifted & H2).
  apply ran_bind in H2 as ([] & m11 & m12 & t11 & t12 & -> & -> & (-> & -> & Ev)%ran_lifted & -> & -> & [= -> -> ->]).
  split; [done|]. exists mg, mr, mt. by split.
Qed.

(** The rows an activity query selects are within the scope. *)
Lemma logsOf_inRange w ext scope bounds row :
  canonical scope -> activityBounds scope = Ok bounds -> row ∈ logsOf w ext bounds ->
  row ∈ dd_access_logs (w_db w) /\ al_ExternalID row = ext /\ inRange scope (al_CreatedAt row) = true.
Proof.
  intros Hc. unfold activityBounds. rewrite ForRead_canonical by done. cbn [mbind result_bind].
  case_bool_decide; [|done]. intros [= <-] [Hin [He%bool_decide_eq_true Hb]%andb_true_iff]%elem_of_lfilter.
  split_and!; [done..|]. unfold inRange. destruct (s_DateRange scope) as [dr|]; [|done]. cbn in Hb.
  pose proof (bounds_inward dr (al_CreatedAt row)) as Hi. unfold disclosureActivityDateBounds in Hi.
  apply andb_true_iff in Hb as [?%Z.leb_le ?%Z.leb_le]. apply andb_true_iff. rewrite !Z.leb_le. apply Hi. done.
Qed.
Lemma elem_of_newestFirst {A} (key : A -> Z) l x : x ∈ newestFirst key l <-> x ∈ l.
Proof. unfold newestFirst. by rewrite merge_sort_Permutation. Qed.
Lemma elem_of_page {A} limit offset (l l' : list A) x : page limit offset l = Ok l' -> x ∈ l' -> x ∈ l.
Proof.
  unfold page. repeat case_match; try done. intros [= <-] Hx.
  apply elem_of_take in Hx as (i & Hx & _). rewrite lookup_drop in Hx. by eapply list_elem_of_lookup_2.
Qed.
End reads.

(** ** Revocations *)

(** The two revocations of a grant, and the statement each takes effect with. *)
Inductive revocation (gid : string) (g : Grant) : prog unit -> Sql unit -> Prop :=
| by_subject by_ reason : revocation gid g (RevokeRequest (gr_RequestID g) by_ reason)
    (UpdateStatus (gr_RequestID g) StatusRevoked (Some by_) reason)
| by_administrator reason : revocation gid g (RevokeGrant gid reason) (RevokeGrantRow gid reason).

Lemma ran_revocation `{TimestampColumn} gid g p e ms m evs :
  revocation gid g p e -> ran p (ms ++ [m]) evs (Ok tt) -> (exec (mo_choice m) e (mo_world m)).1 = Ok tt.
Proof.
  intros Hp Hr.
  assert (Hlast : forall msg ms' evs', (exists l, ms ++ [m] = l ++ ms')%list -> ran (call msg e) ms' evs' (Ok tt) ->
    (exec (mo_choice m) e (mo_world m)).1 = Ok tt).
  { intros msg ms' evs' [l Hl] (m' & -> & _ & Hx)%ran_exec. by apply app_inj_tail in Hl as [_ ->]. }
  destruct Hp as [by_ reason|reason]; unfold RevokeRequest, RevokeGrant in Hr;
    apply ran_bind in Hr as (x & m1 & m2 & t1 & t2 & E & _ & _ & Hr);
    (destruct x as [x|]; [|by destruct Hr as (_ & _ & ?)]).
  - apply ran_bind in Hr as (y & m3 & m4 & t3 & t4 & -> & _ & _ & Hr).
    apply ran_bind in Hr as (z & m5 & m6 & t5 & t6 & -> & _ & _ & Hr).
    apply (Hlast "" m6 t6); [|exact Hr]. exists (m1 ++ m3 ++ m5)%list. by rewrite E, <- !app_assoc.
  - apply (Hlast "" m2 t2); [|exact Hr]. by exists m1.
Qed.

(** C27: A revocation is final.  A revocation - of the request by its subject, or
    of the grant by an administrator - runs with the others doing anything
    between its operations, and returns without an error; from its last
    statement on, with other calls in flight and whatever calls, failures and
    changes of the other tables follow, no read through the grant that starts
    after that statement ends with data.  For a grant the administrator revokes
    the calls in flight are any calls at any point; for a request the subject
    revokes none of them may be an approval, that is, none may still insert a
    grant or set a status back to approved or pending.  The world at the last
    statement is one whose tables the service wrote ([ledger]) and which knows
    the grant and its request. *)
Theorem revocation_is_final `{TimestampColumn} gid g p e ms m evs ts c i k :
  revocation gid g p e -> ran p (ms ++ [m]) evs (Ok tt) ->
  ledger (mo_world m) -> w_grants (mo_world m) !! gid = Some g ->
  is_Some (w_requests (mo_world m) !! gr_RequestID g) ->
  (forall by_ reason, p = RevokeRequest (gr_RequestID g) by_ reason ->
     Forall (fun kp : Call * prog bool => every (@mild) kp.2) ts) ->
  rtc step {| cf_world := (exec (mo_choice m) e (mo_world m)).2; cf_calls := ts |} c ->
  length ts <= i -> readsThrough k = Some gid -> cf_calls c !! i <> Some (k, Ret (Ok true)).
Proof.
  intros Hp Hr HL Hg Hq Hts Hs. pose proof (ran_revocation _ _ _ _ _ _ _ Hp Hr) as Hx. clear Hr. revert Hts Hs.
  destruct (exec _ e _) as [y w'] eqn:E. cbn in Hx. subst y. cbn [snd]. destruct Hp as [by_ reason|reason]; intros Hts Hs.
  - eapply (shut_forever (closed gid (gr_RequestID g))); [apply _|apply serve_closed| | |exact Hs].
    + by eapply UpdateStatus_closes.
    + eapply Forall_impl; [by eapply Hts|]. intros kp Hkp. eapply every_mono; [|exact Hkp]. by apply @mild_closed.
  - eapply (shut_forever (dead gid)); [apply _|apply serve_dead| | |exact Hs].
    + by eapply RevokeGrantRow_kills.
    + apply Forall_forall. intros kp _. generalize kp.2. intros q. induction q; simpl; auto.
      split; [apply dead_keeping|done].
Qed.

(** What is shown of a row: below full disclosure, no IP address. *)
Definition shownRow (scope : Scope) (row : AccessLogRow) : ActivityLogEntry :=
  if bool_decide (EffectiveLevel scope = DisclosureFull) then logEntry row else blankIP (logEntry row).

(** C30: What a read of the activity log returns follows the consent of its
    subject.  The read's seven operations take effect at any seven moments,
    between which the others may have done anything.  If it answers with entries
    then, at the first, the grant is stored; at the second, its request is
    stored and approved; at the third, the grant is neither revoked nor expired;
    at the fourth, the request's subject is a user; the entries are exactly the
    asked page, newest first, of the rows the access log holds at the fifth for
    that subject within the bounds of the grant's scope, each inside its dates,
    and below full disclosure without the IP address; and at the last one event
    with their number, dated at the sixth, is written, or tried to be. *)
Theorem logs_follow_consent `{TimestampColumn} gid viewerID ip limit offset ms evs logs :
  ran (GetActivityLogs gid viewerID ip limit offset) ms evs (Ok logs) ->
  exists mg mr mt mu ml mc me, ms = [mg; mr; mt; mu; ml; mc; me] /\
  exists g req scope u bounds rows,
    consent mg mr mt gid g req scope /\ userRow (mo_world mu) (rq_TargetUserID req) = Some u /\
    activityBounds scope = Ok bounds /\
    page limit offset (newestFirst al_CreatedAt (logsOf (mo_world ml) (u_ExternalID u) bounds)) = Ok rows /\
    logs = map (shownRow scope) rows /\
    (forall row, row ∈ rows -> row ∈ dd_access_logs (w_db (mo_world ml)) /\ al_ExternalID row = u_ExternalID u /\
       inRange scope (al_CreatedAt row) = true) /\
    evs = [(me, readEvent gid viewerID ip ActionViewLogs ResourceAccessLogs (summaryOf (count logs))
                  (w_now (mo_world mc)))].
Proof.
  unfold GetActivityLogs.
  intros ([[g req] scope] & m1 & m2 & t1 & t2 & -> & -> & (-> & mg & mr & mt & -> & Hc)%ran_activeGrant & H1)%ran_bind.
  apply ran_bind in H1 as (ext & m3 & m4 & t3 & t4 & -> & -> & H1 & H2).
  apply ran_call in H1 as (-> & mu & -> & Eu); [|done].
  simpl in Eu. destruct (userRow (mo_world mu) (rq_TargetUserID req)) as [u|] eqn:Hu; [|done]. injection Eu as <-.
  unfold GetActivityLogsStore in H2. apply ran_bind in H2 as (raw & m5 & m6 & t5 & t6 & -> & -> & H1 & H2).
  apply ran_bind in H1 as (bounds & m7 & m8 & t7 & t8 & -> & -> & (-> & -> & Eb)%ran_lifted & H1).
  apply ran_call in H1 as (-> & ml & -> & El); [|done]. simpl in El.
  destruct (page limit offset _) as [rows|] eqn:Ep; [|done]. injection El as <-.
  apply ran_bind in H2 as (at_ & m9 & m10 & t9 & t10 & -> & -> & (-> & mc & -> & ->)%ran_now & H2).
  apply ran_bind in H2 as ([] & m11 & m12 & t11 & t12 & -> & -> & (me & me' & t13 & -> & -> & -> & -> & _) & -> & -> & [= ->]).
  exists mg, mr, mt, mu, ml, mc, me. split; [done|]. exists g, req, scope, u, bounds, rows.
  assert (canonical scope) as Hcan by (destruct Hc; by eapply Normalize_canonical).
  split_and!; [done..| |intros row Hrow|].
  - unfold shownRow. destruct (bool_decide _); [done|]. by rewrite map_map.
  - eapply elem_of_page in Hrow; [|exact Ep]. rewrite elem_of_newestFirst in Hrow.
    by destruct (logsOf_inRange _ _ _ _ _ Hcan Eb Hrow) as (? & ? & ?).
  - cbn. do 4 f_equal. unfold count. destruct (bool_decide _); by rewrite ?length_map.
Qed.

(** ** Who may change a row *)
Section authority.
Context `{HT : TimestampColumn}.

(** The calls that may decide, delete or expire a request. *)
Definition mayDecide (k : Call) (r : Request) : Prop :=
  match k with
  | HApprove c id _ | HReject c id _ | HRevoke c id _ => id = rq_ID r /\ rq_TargetUserID r = ca_user_id c
  | HDelete c id => id = rq_ID r /\ denyOperatorOrgScoped c = false /\ requireFullAdminInScope c (rq_OrgID r) = true
  | MExpire => rq_Status r = StatusPending
  | _ => False
  end.
(** The calls that may end a grant: those on its request, and an administrator's
    revocation. *)
Definition mayEnd (w : World) (k : Call) (g : Grant) : Prop :=
  match k with
  | HRevoke c id _ => id = gr_RequestID g /\ exists r, requestRow w id = Some r /\ rq_TargetUserID r = ca_user_id c
  | HDelete c id => id = gr_RequestID g /\ exists r, requestRow w id = Some r /\ mayDecide k r
  | HAdminRevoke c id _ => id = gr_ID g /\ denyOperatorOrgScoped c = false /\
      exists r, requestRow w (gr_RequestID g) = Some r /\ requireFullAdminInScope c (rq_OrgID r) = true
  | _ => False
  end.

Lemma alone_keeps {A} (J : World -> Prop) (P : forall X, Sql X -> Prop) w (p : prog A) :
  (forall X (e : Sql X) c w, P X e -> J w -> J (statement c e w).2) -> (forall w dt, J w -> J (tick w dt)) ->
  every P p -> J w -> alone (fun w' _ => J w') w p.
Proof.
  intros Hs Ht. revert w. induction p as [r|X e k IH|k IH|k IH]; intros w Hp Hw; cbn in *; auto.
  destruct Hp as [He Hk]. intros c x w2 Hx. apply IH; [done|]. revert Hx. unfold exec.
  specialize (Hs _ e c w He Hw). destruct (ch_fault c) as [[err []]|]; [by intros [= _ <-]|by intros [= _ <-]|].
  destruct (statement c e w). by intros [= _ <-].
Qed.
Lemma alone_weaken {A} (Q R : World -> result A -> Prop) w (p : prog A) :
  (forall w' r, Q w' r -> R w' r) -> alone Q w p -> alone R w p.
Proof. intros HQ. revert w. induction p; cbn; eauto. Qed.
Lemma alone_bind {A B} Q (R : World -> result B -> Prop) w (p : prog A) (f : A -> prog B) :
  alone Q w p -> (forall w' a, Q w' (Ok a) -> alone R w' (f a)) -> (forall w' e, Q w' (Err e) -> R w' (Err e)) ->
  alone R w (p ≫= f).
Proof.
  intros Hp Hf He. revert w Hp. induction p as [[a|e]|X e k IH|k IH|k IH]; intros w Hp; cbn in *; eauto.
Qed.
Lemma alone_handle {A B} Q (R : World -> result B -> Prop) w (p : prog A) (h : result A -> prog B) :
  alone Q w p -> (forall w' r, Q w' r -> alone R w' (h r)) -> alone R w (handle p h).
Proof. intros Hp Hf. revert w Hp. induction p; intros w Hp; cbn in *; eauto. Qed.
(** A query answers what is in the tables, or fails. *)
Lemma alone_query {X} (R : World -> result X -> Prop) w msg (e : Sql X) :
  query_ e -> (forall c, R w (if bool_decide (msg = "") then (statement c e w).1 else wrap msg (statement c e w).1)) ->
  (forall err, R w (Err err)) -> alone R w (call msg e).
Proof.
  intros Hq HR He c x w2 Hx. apply exec_query in Hx as [-> [->|[err ->]]]; [apply HR| |done].
  case_bool_decide; apply He.
Qed.

(** *** Requests *)
Definition sparesRequest (r : Request) {X} (e : Sql X) : Prop :=
  match e with
  | UpdateStatus id _ _ _ | DeletePending id => id <> rq_ID r
  | ExpirePending => rq_Status r <> StatusPending
  | _ => True
  end.
Definition stays (r : Request) (w : World) : Prop := r ∈ dd_requests (w_db w).

Lemma spared_request r {X} (e : Sql X) c w : sparesRequest r e -> stays r w -> stays r (statement c e w).2.
Proof.
  unfold stays. destruct e; simpl; try done; intros Hs Hin; repeat case_match; simpl; try done; try set_solver.
  - apply list_elem_of_fmap. exists r. by rewrite bool_decide_false.
  - apply list_elem_of_fmap. exists r. unfold expirable. by rewrite bool_decide_false.
  - unfold delete_pending. case_match; [|done]. apply elem_of_lfilter. split; [done|]. unfold deletable.
    by rewrite bool_decide_false.
Qed.
Lemma alone_spared {A} r w (p : prog A) :
  every (@sparesRequest r) p -> stays r w -> alone (fun w' _ => stays r w') w p.
Proof. apply alone_keeps; [apply @spared_request|done]. Qed.

Lemma row_unique w r id : NoDup (map rq_ID (dd_requests (w_db w))) -> stays r w -> rq_ID r = id -> requestRow w id = Some r.
Proof.
  unfold stays, requestRow. generalize (dd_requests (w_db w)). intros l. induction l as [|x l IH]; simpl; [set_solver|].
  intros [Hx Hn]%NoDup_cons [->|Hin]%elem_of_cons Hid; [by rewrite bool_decide_true|].
  case_bool_decide as E; [|by apply IH]. exfalso. apply Hx, list_elem_of_fmap. exists r. split; [congruence|done].
Qed.

Lemma quiet_spares r {X} (e : Sql X) : quiet e -> sparesRequest r e.
Proof. by destruct e. Qed.
(** A decision on the row of somebody else stops at the lookup. *)
Lemma asTarget_refuses c r verb w k :
  NoDup (map rq_ID (dd_requests (w_db w))) -> stays r w -> rq_TargetUserID r <> ca_user_id c ->
  alone (fun w' _ => w' = w) w (asTarget c (rq_ID r) verb k).
Proof.
  intros Hn Hr Ht. unfold asTarget. eapply (alone_handle (fun w' x => w' = w /\ forall req, x = Ok (Some req) -> req = r)).
  - apply alone_query; [done|..|done]. intros ch. simpl. rewrite (row_unique w r) by done. split; [done|]. by intros req [= <-].
  - intros w' [[req|]|] [-> HQ]; [|done..]. rewrite (HQ req eq_refl). by rewrite bool_decide_false.
Qed.
Lemma deleteDisclosureRequest_refuses c r w :
  NoDup (map rq_ID (dd_requests (w_db w))) -> stays r w ->
  ~ (denyOperatorOrgScoped c = false /\ requireFullAdminInScope c (rq_OrgID r) = true) ->
  alone (fun w' _ => w' = w) w (deleteDisclosureRequest c (rq_ID r)).
Proof.
  intros Hn Hr Ha. unfold deleteDisclosureRequest. destruct (denyOperatorOrgScoped c); [done|].
  eapply (alone_handle (fun w' x => w' = w /\ forall d, x = Ok (Some d) -> rq_OrgID (rd_Request d) = rq_OrgID r)).
  - apply alone_query; [done|..|done]. intros ch. simpl. rewrite (row_unique w r) by done. split; [done|]. by intros d [= <-].
  - intros w' [[d|]|] [-> HQ]; [|done..]. rewrite (HQ d eq_refl).
    destruct (requireFullAdminInScope c (rq_OrgID r)); [|done]. by destruct Ha.
Qed.

Lemma serve_stays w k r :
  NoDup (map rq_ID (dd_requests (w_db w))) -> stays r w -> ~ mayDecide k r ->
  alone (fun w' _ => stays r w') w (serve k).
Proof.
  intros Hn Hr Hd.
  assert (asks (@sparesRequest r) k -> alone (fun w' _ => stays r w') w (serve k)) as Hspare.
  { intros Ha. apply alone_spared; [|done]. apply serve_every; [by apply @quiet_spares|done]. }
  assert (forall c verb k', rq_TargetUserID r <> ca_user_id c ->
    alone (fun w' (_ : result bool) => stays r w') w (_ ← asTarget c (rq_ID r) verb k'; mret false)) as Hrefuse.
  { intros c verb k' Ht. eapply alone_bind; [by apply asTarget_refuses|by intros w' ? ->|by intros w' ? ->]. }
  destruct k; try (apply Hspare; done).
  - destruct (decide (requestID = rq_ID r)) as [->|]; [|by apply Hspare].
    eapply alone_bind; [apply deleteDisclosureRequest_refuses; [done..|] |by intros w' ? ->|by intros w' ? ->].
    intros [? ?]. by apply Hd.
  - destruct (decide (requestID = rq_ID r)) as [->|]; [|by apply Hspare]. unfold serve, approveDisclosureRequest.
    destruct i; [|done]. apply Hrefuse. intros E. by apply Hd.
  - destruct (decide (requestID = rq_ID r)) as [->|]; [|by apply Hspare]. apply Hrefuse. intros E. by apply Hd.
  - destruct (decide (requestID = rq_ID r)) as [->|]; [|by apply Hspare]. apply Hrefuse. intros E. by apply Hd.
Qed.

(** *** Grants *)
Definition sparesGrant (g : Grant) {X} (e : Sql X) : Prop :=
  match e with
  | DeletePending id => id <> gr_RequestID g
  | RevokeGrantRow id _ => id <> gr_ID g
  | _ => True
  end.
Definition standing (g : Grant) (w : World) : Prop := g ∈ dd_grants (w_db w).
Lemma spared_grant g {X} (e : Sql X) c w : sparesGrant g e -> standing g w -> standing g (statement c e w).2.
Proof.
  unfold standing. destruct e; simpl; try done; intros Hs Hin; repeat case_match; simpl; try done; try set_solver.
  - unfold delete_pending. case_match; [|done]. apply elem_of_lfilter. by rewrite bool_decide_false.
  - apply list_elem_of_fmap. exists g. by rewrite bool_decide_false.
Qed.
Lemma quiet_spares_grant g {X} (e : Sql X) : quiet e -> sparesGrant g e.
Proof. by destruct e. Qed.
Lemma alone_standing {A} g w (p : prog A) :
  every (@sparesGrant g) p -> standing g w -> alone (fun w' _ => standing g w') w p.
Proof. apply alone_keeps; [apply @spared_grant|done]. Qed.
Lemma grant_unique w g g' :
  NoDup (map gr_ID (dd_grants (w_db w))) -> standing g w -> standing g' w -> gr_ID g = gr_ID g' -> g = g'.
Proof.
  unfold standing. generalize (dd_grants (w_db w)). intros l. induction l as [|x l IH]; simpl; [set_solver|].
  intros [Hx Hn]%NoDup_cons. rewrite !elem_of_cons. intros [->|H1] [->|H2] E; [done| | |by apply IH].
  - destruct Hx. rewrite E. by apply list_elem_of_fmap_2.
  - destruct Hx. rewrite <- E. by apply list_elem_of_fmap_2.
Qed.
Lemma grantRow_unique w g : NoDup (map gr_ID (dd_grants (w_db w))) -> standing g w -> grantRow w (gr_ID g) = Some g.
Proof.
  intros Hn Hg. destruct (grantRow w (gr_ID g)) as [g'|] eqn:E.
  - apply grantRow_elem in E as [Hin Hid]. f_equal. by eapply grant_unique.
  - apply find_none with (x := g) in E; [|by apply list_elem_of_In]. by rewrite bool_decide_true in E.
Qed.

(** A revocation of another request revokes another grant. *)
Lemma RevokeRequest_spares g w id by_ reason :
  NoDup (map gr_ID (dd_grants (w_db w))) -> standing g w -> id <> gr_RequestID g ->
  alone (fun w' _ => standing g w') w (RevokeRequest id by_ reason).
Proof.
  intros Hn Hg Hid. unfold RevokeRequest.
  eapply (alone_bind (fun w' _ => w' = w)); [by apply alone_query| |by intros w' e ->].
  intros w' [req|] ->; [|done].
  eapply (alone_bind (fun w' x => w' = w /\ forall g', x = Ok (Some g') -> gr_ID g' <> gr_ID g)); [| |by intros w' e [-> _]].
  - apply alone_query; [done|..|done]. intros ch. split; [done|]. simpl. intros g' [= Hp] E.
    unfold pick in Hp. apply list_elem_of_lookup_2, elem_of_lfilter in Hp as [Hin [Hr%bool_decide_eq_true _]%andb_true_iff].
    assert (g' = g) as -> by (by eapply grant_unique). by destruct Hid.
  - intros w' og [-> HQ]. apply alone_standing; [|done].
    apply every_bind; [|intros _; by apply every_call]. destruct og as [g'|]; [|done].
    by apply every_call, HQ.
Qed.
Lemma adminRevoke_refuses c g r w reason :
  NoDup (map gr_ID (dd_grants (w_db w))) -> standing g w -> requestRow w (gr_RequestID g) = Some r ->
  ~ (denyOperatorOrgScoped c = false /\ requireFullAdminInScope c (rq_OrgID r) = true) ->
  alone (fun w' _ => w' = w) w (adminRevokeDisclosureGrant c (gr_ID g) reason).
Proof.
  intros Hn Hg Hr Ha. unfold adminRevokeDisclosureGrant. destruct (denyOperatorOrgScoped c); [done|].
  eapply (alone_handle (fun w' x => w' = w /\ forall gw, x = Ok (Some gw) -> gw_Request gw = Some r)).
  - unfold GetGrantWithRequest.
    eapply (alone_bind (fun w' x => w' = w /\ forall g', x = Ok (Some g') -> g' = g)); [| |by intros w' e [-> _]].
    { apply alone_query; [done|..|done]. intros ch. split; [done|]. simpl. rewrite grantRow_unique by done. by intros g' [= <-]. }
    intros w' [g'|] [-> HQ]; [|done]. rewrite (HQ g' eq_refl).
    eapply (alone_bind (fun w' x => w' = w /\ forall req, x = Ok req -> req = Some r)); [| |by intros w' e [-> _]].
    { apply alone_query; [done|..|done]. intros ch. split; [done|]. simpl. rewrite Hr. by intros req [= <-]. }
    intros w' req [-> HR]. rewrite (HR req eq_refl). split; [done|]. by intros gw [= <-].
  - intros w' [[gw|]|] [-> HQ]; [|done..]. cbn. rewrite (HQ gw eq_refl).
    destruct (requireFullAdminInScope c (rq_OrgID r)); [|done]. by destruct Ha.
Qed.

Lemma serve_stands w k g r :
  NoDup (map rq_ID (dd_requests (w_db w))) -> NoDup (map gr_ID (dd_grants (w_db w))) -> standing g w ->
  requestRow w (gr_RequestID g) = Some r -> ~ mayEnd w k g -> alone (fun w' _ => standing g w') w (serve k).
Proof.
  intros Hnr Hn Hg Hr Hd. pose proof (requestRow_elem _ _ _ Hr) as [Hin Hrid].
  assert (asks (@sparesGrant g) k -> alone (fun w' _ => standing g w') w (serve k)) as Hspare.
  { intros Ha. apply alone_standing; [|done]. apply serve_every; [by apply @quiet_spares_grant|done]. }
  destruct k; try (apply Hspare; done).
  - destruct (decide (requestID = gr_RequestID g)) as [->|]; [|by apply Hspare]. rewrite <- Hrid.
    eapply alone_bind; [apply deleteDisclosureRequest_refuses; [done..|] |by intros w' ? ->|by intros w' ? ->].
    intros Ha. apply Hd. split; [done|]. exists r. split; [done|]. by split.
  - destruct (decide (grantID = gr_ID g)) as [->|]; [|by apply Hspare].
    eapply alone_bind; [apply (adminRevoke_refuses c g r); [done..|] |by intros w' ? ->|by intros w' ? ->].
    intros [Ho Ha]. apply Hd. split_and!; [done|done|]. by exists r.
  - destruct (decide (requestID = gr_RequestID g)) as [->|Hne].
    + rewrite <- Hrid.
      eapply alone_bind; [apply asTarget_refuses; [done..|] |by intros w' ? ->|by intros w' ? ->].
      intros E. apply Hd. split; [done|]. exists r. done.
    + eapply alone_bind with (Q := fun w' _ => standing g w'); [|by intros|by intros].
      unfold revokeDisclosureRequest, asTarget. eapply (alone_handle (fun w' _ => w' = w)); [by apply alone_query|].
      intros w' [[req|]|] ->; [|done..]. destruct (bool_decide _); [|done].
      eapply alone_handle; [by apply RevokeRequest_spares|]. by intros w' [] ?.
Qed.
Lemma mayEnd_dec w k g r : requestRow w (gr_RequestID g) = Some r -> mayEnd w k g \/ ~ mayEnd w k g.
Proof.
  intros Hr.
  assert (forall P : Request -> Prop, (forall r, Decision (P r)) -> Decision (exists r', requestRow w (gr_RequestID g) = Some r' /\ P r')) as Hex.
  { intros P HP. rewrite Hr. destruct (decide (P r)); [left; by exists r|right; by intros (? & [= <-] & ?)]. }
  destruct k; simpl; try (by right; intros []).
  - destruct (decide (requestID = gr_RequestID g)) as [->|]; [|by right; intros []].
    destruct (Hex (fun r => gr_RequestID g = rq_ID r /\ denyOperatorOrgScoped c = false /\
                             requireFullAdminInScope c (rq_OrgID r) = true) _); [by left|right; by intros []].
  - destruct (decide (grantID = gr_ID g)); [|by right; intros []].
    destruct (decide (denyOperatorOrgScoped c = false)); [|by right; intros (? & ? & ?)].
    destruct (Hex (fun r => requireFullAdminInScope c (rq_OrgID r) = true) _); [by left|right; by intros (? & ? & ?)].
  - destruct (decide (requestID = gr_RequestID g)) as [->|]; [|by right; intros []].
    destruct (Hex (fun r => rq_TargetUserID r = ca_user_id c) _); [by left|right; by intros []].
Qed.
End authority.

(** C32: A call changes a request only for its subject (approve, reject, revoke),
    for an administrator of its organization with write access (delete) or when it
    is pending and expires; it ends a grant only for the subject of its request or
    such an administrator.  Every other row is the one it was, whatever fails. *)
Theorem changes_need_authority `{TimestampColumn} env w k a w' :
  NoDup (map rq_ID (dd_requests (w_db w))) -> NoDup (map gr_ID (dd_grants (w_db w))) ->
  run env w (serve k) = (a, w') ->
  (forall r, r ∈ dd_requests (w_db w) -> r ∈ dd_requests (w_db w') \/ mayDecide k r) /\
  (forall g r, g ∈ dd_grants (w_db w) -> requestRow w (gr_RequestID g) = Some r ->
     g ∈ dd_grants (w_db w') \/ mayEnd w k g).
Proof.
  intros Hnr Hng Hrun. split.
  - intros r Hr. assert (Decision (mayDecide k r)) as D by (destruct k; simpl; apply _).
    destruct (decide (mayDecide k r)) as [|Hd]; [by right|left].
    exact (alone_run _ _ _ _ _ _ (serve_stays w k r Hnr Hr Hd) Hrun).
  - intros g r Hg Hr. destruct (mayEnd_dec w k g r Hr) as [|Hd]; [by right|left].
    exact (alone_run _ _ _ _ _ _ (serve_stands w k g r Hnr Hng Hg Hr Hd) Hrun).
Qed.
