(* ===== verification/AuthStores.v ===== *)
(** * Sessions, authorization codes, challenges and tokens: what the login keeps.

    The state behind [internal/auth/session.go], [internal/server/oauth.go],
    [internal/server/eth_link.go], their Redis twins in [internal/redis] and the
    token tables of [internal/db/db.go], and the atomic operations on it ([Op]).

    A store in memory is a table of pointers to objects that the handlers read and
    write in place: the objects ([objs]) outlive their entry ([live]), a field is
    read when the code reads it, and each field that is assigned outside a
    test-and-set is an operation of its own.  A mutex is modelled where it makes a
    test and its write atomic ([MFail], [OReserve], [OMark], [CTake]); the other
    critical sections are left interleavable, which only adds executions.

    Redis is one keyspace with expiry; a Lua script is one operation.  A value is
    what [json.Marshal] writes of a struct, and decoding finds it again; any other
    value under the key is a decoding error.  Each command to Redis and each SQL
    statement may fail, before or after it took effect. *)
From S2P Require Import Prelude GoStrings Methods Models Db Writes Access Deployments Sha256 Programs.
Local Open Scope string_scope.

(** ** Data *)
Definition zero_time : Z := (-62135596800 * 10 ^ 9)%Z.
Definition minutes (n : Z) : Z := (n * 60 * 10 ^ 9)%Z.

(** The authorization request message is kept by its JSON text. *)
Record Session := {
  se_ID : string; se_AuthRequest : option string; se_CreatedAt : Z; se_ExpiresAt : Z;
  se_Completed : bool; se_AccessToken : string; se_RefreshToken : string; se_CompletedAt : Z;
  se_Failed : bool; se_FailureReason : string; se_FailedAt : Z }.
Record SessionInfo := {
  si_ID : string; si_CreatedAt : Z; si_ExpiresAt : Z; si_Completed : bool; si_CompletedAt : Z;
  si_Failed : bool; si_FailureReason : string; si_FailedAt : Z }.
Record OAuthSession := {
  os_ClientID : string; os_RedirectURI : string; os_State : string; os_AuthSessionID : string;
  os_Code : string; os_CodeUsed : bool; os_CodeExpires : Z; os_UserDID : string; os_KYC : bool;
  os_InitiatorDID : string; os_CreatedAt : Z; os_ExpiresAt : Z }.
Record LinkChallenge := { lc_DID : string; lc_Nonce : string; lc_Message : string; lc_CreatedAt : Z }.
Record RefreshToken := {
  rt_Subject : string; rt_CreatedAt : Z; rt_ExpiresAt : Z; rt_Revoked : bool; rt_RevokedAt : option Z }.

#[export] Instance Session_eq : EqDecision Session.
Proof. solve_decision. Defined.
#[export] Instance OAuthSession_eq : EqDecision OAuthSession.
Proof. solve_decision. Defined.
#[export] Instance LinkChallenge_eq : EqDecision LinkChallenge.
Proof. solve_decision. Defined.

Definition newSession (id : string) (req : option string) (now ttl : Z) : Session := {|
  se_ID := id; se_AuthRequest := req; se_CreatedAt := now; se_ExpiresAt := now + ttl; se_Completed := false;
  se_AccessToken := ""; se_RefreshToken := ""; se_CompletedAt := zero_time; se_Failed := false;
  se_FailureReason := ""; se_FailedAt := zero_time |}.
Definition newOAuthSession (clientID redirectURI state authSessionID initiatorDID : string) (now ttl : Z)
  : OAuthSession := {|
  os_ClientID := clientID; os_RedirectURI := redirectURI; os_State := state; os_AuthSessionID := authSessionID;
  os_Code := ""; os_CodeUsed := false; os_CodeExpires := zero_time; os_UserDID := ""; os_KYC := false;
  os_InitiatorDID := initiatorDID; os_CreatedAt := now; os_ExpiresAt := now + ttl |}.

(** The assignments of [UpdateSession] and [CompleteSession]. *)
Inductive SessionWrite :=
| PutAuthRequest (r : option string) | PutCompleted | PutAccessToken (t : string) | PutRefreshToken (t : string)
| PutCompletedAt (t : Z) | ClearFailed | ClearReason | ClearFailedAt | PutExpiresAt (t : Z).
Definition put (x : SessionWrite) (s : Session) : Session := {|
  se_ID := se_ID s;
  se_AuthRequest := match x with PutAuthRequest r => r | _ => se_AuthRequest s end;
  se_CreatedAt := se_CreatedAt s;
  se_ExpiresAt := match x with PutExpiresAt t => t | _ => se_ExpiresAt s end;
  se_Completed := match x with PutCompleted => true | _ => se_Completed s end;
  se_AccessToken := match x with PutAccessToken t => t | _ => se_AccessToken s end;
  se_RefreshToken := match x with PutRefreshToken t => t | _ => se_RefreshToken s end;
  se_CompletedAt := match x with PutCompletedAt t => t | _ => se_CompletedAt s end;
  se_Failed := match x with ClearFailed => false | _ => se_Failed s end;
  se_FailureReason := match x with ClearReason => "" | _ => se_FailureReason s end;
  se_FailedAt := match x with ClearFailedAt => zero_time | _ => se_FailedAt s end |}.
(** In the order of the source; [t] and [t'] are its two clock readings. *)
Definition completion (access refresh : string) (t t' : Z) : list SessionWrite := [
  PutCompleted; PutAccessToken access; PutRefreshToken refresh; PutCompletedAt t;
  ClearFailed; ClearReason; ClearFailedAt; PutExpiresAt (t' + minutes 2) ].
Definition puts (xs : list SessionWrite) (s : Session) : Session := foldl (flip put) s xs.
Definition fail_with (reason : string) (t : Z) (s : Session) : Session := {|
  se_ID := se_ID s; se_AuthRequest := se_AuthRequest s; se_CreatedAt := se_CreatedAt s; se_ExpiresAt := se_ExpiresAt s;
  se_Completed := se_Completed s; se_AccessToken := se_AccessToken s; se_RefreshToken := se_RefreshToken s;
  se_CompletedAt := se_CompletedAt s; se_Failed := true; se_FailureReason := reason; se_FailedAt := t |}.
Definition infoOf (s : Session) : SessionInfo := {|
  si_ID := se_ID s; si_CreatedAt := se_CreatedAt s; si_ExpiresAt := se_ExpiresAt s; si_Completed := se_Completed s;
  si_CompletedAt := if se_Completed s then se_CompletedAt s else zero_time; si_Failed := se_Failed s;
  si_FailureReason := if se_Failed s then se_FailureReason s else "";
  si_FailedAt := if se_Failed s then se_FailedAt s else zero_time |}.

(** The assignments of [SetCode]. *)
Inductive OAuthWrite :=
| PutCode (c : string) | PutCodeExpires (t : Z) | PutUserDID (d : string) | PutKYC (b : bool) | PutCodeUsed.
Definition oput (x : OAuthWrite) (s : OAuthSession) : OAuthSession := {|
  os_ClientID := os_ClientID s; os_RedirectURI := os_RedirectURI s; os_State := os_State s;
  os_AuthSessionID := os_AuthSessionID s;
  os_Code := match x with PutCode c => c | _ => os_Code s end;
  os_CodeUsed := match x with PutCodeUsed => true | _ => os_CodeUsed s end;
  os_CodeExpires := match x with PutCodeExpires t => t | _ => os_CodeExpires s end;
  os_UserDID := match x with PutUserDID d => d | _ => os_UserDID s end;
  os_KYC := match x with PutKYC b => b | _ => os_KYC s end;
  os_InitiatorDID := os_InitiatorDID s; os_CreatedAt := os_CreatedAt s; os_ExpiresAt := os_ExpiresAt s |}.
Definition oputs (xs : list OAuthWrite) (s : OAuthSession) : OAuthSession := foldl (flip oput) s xs.
Definition coded (code did : string) (kyc : bool) (t : Z) : list OAuthWrite := [
  PutCode code; PutCodeExpires (t + minutes 5); PutUserDID did; PutKYC kyc ].

(** ** State *)
Record Memory := {
  ms_objs : gmap string Session; ms_live : gset string; ms_count : Z;
  mo_objs : gmap string OAuthSession; mo_live : gset string; mo_count : Z; mo_index : gmap string string;
  mc_challenges : gmap string LinkChallenge }.

Inductive Value := VSession (s : Session) | VOAuth (s : OAuthSession) | VChallenge (c : LinkChallenge)
                 | VText (s : string) | VCount (n : Z).
#[export] Instance Value_eq : EqDecision Value.
Proof. solve_decision. Defined.
Definition Keyspace : Type := gmap string (Value * option Z).

(** What happened so far, for the statements: which authorization request a login
    session was given, who created and who redeemed an authorization session, which ones were given a user, which session a code was
    set for and by whom, the hashes of the refresh tokens that were saved and those
    of the access tokens that were revoked.  No operation reads it. *)
Inductive Happened :=
| Created (id : string) (by_ : nat) | Named (id : string) | Coded (code id : string) (by_ : nat)
| Marked (id : string) (by_ : nat) | Saved (hash : string) | Barred (hash : string) (expires : Z)
| Asked (id : string) (req : option string).
Record World := {
  w_now : Z;
  (** the random values drawn, and by which call *)
  w_used : gmap string nat;
  w_memory : Memory;
  w_redis : Keyspace;
  w_refresh : gmap string RefreshToken;
  w_revoked : gmap string (string * Z);
  w_server : Server;
  w_history : list Happened }.

Definition set_memory (w : World) (m : Memory) : World := {|
  w_now := w_now w; w_used := w_used w; w_memory := m; w_redis := w_redis w; w_refresh := w_refresh w;
  w_revoked := w_revoked w; w_server := w_server w; w_history := w_history w |}.
Definition set_redis (w : World) (k : Keyspace) : World := {|
  w_now := w_now w; w_used := w_used w; w_memory := w_memory w; w_redis := k; w_refresh := w_refresh w;
  w_revoked := w_revoked w; w_server := w_server w; w_history := w_history w |}.
Definition set_refresh (w : World) (r : gmap string RefreshToken) : World := {|
  w_now := w_now w; w_used := w_used w; w_memory := w_memory w; w_redis := w_redis w; w_refresh := r;
  w_revoked := w_revoked w; w_server := w_server w; w_history := w_history w |}.
Definition set_revoked (w : World) (r : gmap string (string * Z)) : World := {|
  w_now := w_now w; w_used := w_used w; w_memory := w_memory w; w_redis := w_redis w; w_refresh := w_refresh w;
  w_revoked := r; w_server := w_server w; w_history := w_history w |}.
Definition set_server (w : World) (s : Server) : World := {|
  w_now := w_now w; w_used := w_used w; w_memory := w_memory w; w_redis := w_redis w; w_refresh := w_refresh w;
  w_revoked := w_revoked w; w_server := s; w_history := w_history w |}.
Definition note (h : Happened) (w : World) : World := {|
  w_now := w_now w; w_used := w_used w; w_memory := w_memory w; w_redis := w_redis w; w_refresh := w_refresh w;
  w_revoked := w_revoked w; w_server := w_server w; w_history := h :: w_history w |}.
Definition tick (w : World) (dt : Z) : World := {|
  w_now := w_now w + dt; w_used := w_used w; w_memory := w_memory w; w_redis := w_redis w; w_refresh := w_refresh w;
  w_revoked := w_revoked w; w_server := w_server w; w_history := w_history w |}.
Definition draw (me : nat) (w : World) (u : string) : option World :=
  match w_used w !! u with
  | Some _ => None
  | None => Some {| w_now := w_now w; w_used := <[u := me]> (w_used w); w_memory := w_memory w; w_redis := w_redis w;
                    w_refresh := w_refresh w; w_revoked := w_revoked w; w_server := w_server w; w_history := w_history w |}
  end.

Section memory.
Variable m : Memory.
Definition ms_set (objs : gmap string Session) (live : gset string) (count : Z) : Memory := {|
  ms_objs := objs; ms_live := live; ms_count := count; mo_objs := mo_objs m; mo_live := mo_live m;
  mo_count := mo_count m; mo_index := mo_index m; mc_challenges := mc_challenges m |}.
Definition mo_set (objs : gmap string OAuthSession) (live : gset string) (count : Z) (index : gmap string string)
  : Memory := {|
  ms_objs := ms_objs m; ms_live := ms_live m; ms_count := ms_count m; mo_objs := objs; mo_live := live;
  mo_count := count; mo_index := index; mc_challenges := mc_challenges m |}.
Definition mc_set (cs : gmap string LinkChallenge) : Memory := {|
  ms_objs := ms_objs m; ms_live := ms_live m; ms_count := ms_count m; mo_objs := mo_objs m; mo_live := mo_live m;
  mo_count := mo_count m; mo_index := mo_index m; mc_challenges := cs |}.
End memory.

(** ** Operations *)
Inductive Op : Type -> Type :=
(* auth.SessionStore *)
| MCount : Op Z
| MAddCount (n : Z) : Op unit
| MStore (id : string) (s : Session) : Op unit
| MLoad (id : string) : Op bool
| MRead (id : string) : Op Session
| MWrite (id : string) (x : SessionWrite) : Op unit
| MFail (id reason : string) (t : Z) : Op bool
| MRestore (id : string) : Op unit
| MLoadAndDelete (id : string) : Op bool
| MRange : Op (list string)
(* server.OAuthSessionStore *)
| OReserve (max : Z) : Op bool
| ORelease : Op unit
| OStore (id : string) (s : OAuthSession) : Op unit
| OLoad (id : string) : Op bool
| ORead (id : string) : Op OAuthSession
| OWrite (id : string) (x : OAuthWrite) : Op unit
| OMark (id : string) : Op bool
| OLoadAndDelete (id : string) : Op bool
| ORange : Op (list string)
| OIndexLoad (code : string) : Op (option string)
| OIndexStore (code id : string) : Op unit
| OIndexDelete (code : string) : Op unit
(* server.ChallengeStore *)
| CPut (c : LinkChallenge) : Op unit
| CTake (nonce : string) (now ttl : Z) : Op (option LinkChallenge)
| CSweep (now ttl : Z) : Op unit
(* Redis *)
| RGet (key : string) : Op (option Value)
| RSet (key : string) (v : Value) (ttl : option Z) : Op unit
| RDel (keys : list string) : Op Z
| RDecr (key : string) : Op Z
| RScan (prefix : string) : Op (list string)
| RReserve (key : string) (max : Z) : Op bool
| RUpdate (key : string) (v : Value) : Op bool
| RComplete (key : string) (v : Value) (ttl : Z) : Op bool
| RFail (key : string) (current updated : Value) : Op Z
| RSetCode (sessKey codeKey : string) (v : Value) (sessionID : string) (ttl : Z) : Op bool
| RMarkRead (codeKey prefix : string) : Op (option (string * Value))
| RMarkWrite (sessionID sessKey codeKey : string) (v : Value) : Op unit
| RConsume (key : string) : Op (option Value)
(* PostgreSQL *)
| SaveRefreshToken (hash subject : string) (expiresAt : Z) : Op unit
| GetRefreshToken (hash : string) : Op (option RefreshToken)
| RevokeRefreshToken (hash : string) : Op unit
| RevokeRefreshTokensBySubject (subject : string) : Op Z
| RevokeAccessToken (tokenID subject : string) (expiresAt : Z) : Op unit
| IsAccessTokenRevoked (tokenID : string) : Op bool
| IsUserBannedBySubject (subject : string) : Op bool
| DeleteExpiredRefresh (now : Z) : Op unit
| DeleteExpiredRevoked (now : Z) : Op unit
| EnsureUserExists_ (freshID externalID : string) (kyc skipDefaultGroup : bool) : Op User
| LinkEthAddress (did ethAddress : string) : Op bool
| RevokeEthAddressLink (did ethAddress : string) : Op bool.
Notation prog := (Programs.prog Op).

(** The fault of a command or statement, and whether it took effect before. *)
Record Choice := { ch_fault : option (string * bool) }.
Definition steady : Choice := {| ch_fault := None |}.

Definition look (now : Z) (k : Keyspace) (key : string) : option Value :=
  match k !! key with
  | Some (v, None) => Some v
  | Some (v, Some e) => if (now <? e)%Z then Some v else None
  | None => None
  end.
Definition keep_ttl (now : Z) (k : Keyspace) (key : string) : option Z :=
  match look now k key with Some _ => k !! key ≫= snd | None => None end.
Definition counter (now : Z) (k : Keyspace) (key : string) : option Z :=
  match look now k key with None => Some 0%Z | Some (VCount n) => Some n | Some _ => None end.
Definition not_an_integer : string := "ERR value is not an integer or out of range".
Definition bump (now : Z) (k : Keyspace) (key : string) (n : Z) : Keyspace := <[key := (VCount n, keep_ttl now k key)]> k.

Section exec.
Context `{TimestampColumn} (row1 : forall A : Type, list A -> option A).

Definition lookupLink (links : list EthAddressLink) (did addr : string) : option EthAddressLink :=
  find (fun l => bool_decide (el_DID l = did) && bool_decide (el_EthAddress l = addr)) links.
Definition with_links (s : Server) (ls : list EthAddressLink) : Server :=
  let d := t_db (sv_tables s) in
  {| sv_ctl := sv_ctl s; sv_tracker := sv_tracker s;
     sv_tables := {| t_db := {| db_organizations := db_organizations d; db_groups := db_groups d;
       db_contracts := db_contracts d; db_contract_grants := db_contract_grants d; db_group_access := db_group_access d;
       db_users := db_users d; db_user_memberships := db_user_memberships d;
       db_preregistered_addresses := db_preregistered_addresses d; db_eth_address_links := ls;
       db_fault := db_fault d |}; t_cache := t_cache (sv_tables s) |} |}.

(** What an operation does when it does not fail; [me] is the call that makes it. *)
Definition perform {X} (me : nat) (e : Op X) (w : World) : result X * World :=
  let m := w_memory w in
  let k := w_redis w in
  let look := look (w_now w) k in
  match e with
  | MCount => (Ok (ms_count m), w)
  | MAddCount n => (Ok tt, set_memory w (ms_set m (ms_objs m) (ms_live m) (ms_count m + n)))
  | MStore id s => (Ok tt, note (Asked id (se_AuthRequest s))
                      (set_memory w (ms_set m (<[id := s]> (ms_objs m)) ({[id]} ∪ ms_live m) (ms_count m))))
  | MLoad id => (Ok (bool_decide (id ∈ ms_live m)), w)
  | MRead id => (Ok (default (newSession id None 0 0) (ms_objs m !! id)), w)
  | MWrite id x =>
      let w' := set_memory w (ms_set m (alter (put x) id (ms_objs m)) (ms_live m) (ms_count m)) in
      (Ok tt, match x with PutAuthRequest r => note (Asked id r) w' | _ => w' end)
  | MFail id reason t =>
      (Ok (match ms_objs m !! id with Some s => negb (se_Completed s) | None => false end),
       set_memory w (ms_set m (alter (fun s => if se_Completed s then s else fail_with reason t s) id (ms_objs m))
                       (ms_live m) (ms_count m)))
  | MRestore id => (Ok tt, set_memory w (ms_set m (ms_objs m) ({[id]} ∪ ms_live m) (ms_count m)))
  | MLoadAndDelete id => (Ok (bool_decide (id ∈ ms_live m)),
                          set_memory w (ms_set m (ms_objs m) (ms_live m ∖ {[id]}) (ms_count m)))
  | MRange => (Ok (elements (ms_live m)), w)
  | OReserve max =>
      if (0 <? max)%Z && (max <=? mo_count m)%Z then (Ok false, w)
      else (Ok true, set_memory w (mo_set m (mo_objs m) (mo_live m) (mo_count m + 1) (mo_index m)))
  | ORelease => (Ok tt, set_memory w (mo_set m (mo_objs m) (mo_live m) (mo_count m - 1) (mo_index m)))
  | OStore id s =>
      (Ok tt, note (Created id me)
         (set_memory w (mo_set m (<[id := s]> (mo_objs m)) ({[id]} ∪ mo_live m) (mo_count m) (mo_index m))))
  | OLoad id => (Ok (bool_decide (id ∈ mo_live m)), w)
  | ORead id => (Ok (default (newOAuthSession "" "" "" "" "" 0 0) (mo_objs m !! id)), w)
  | OWrite id x =>
      let w' := set_memory w (mo_set m (alter (oput x) id (mo_objs m)) (mo_live m) (mo_count m) (mo_index m)) in
      (Ok tt, match x, mo_objs m !! id with PutUserDID _, Some _ => note (Named id) w' | _, _ => w' end)
  | OMark id =>
      match mo_objs m !! id with
      | Some s =>
          if os_CodeUsed s then (Ok false, w)
          else (Ok true, note (Marked id me)
                  (set_memory w (mo_set m (<[id := oput PutCodeUsed s]> (mo_objs m)) (mo_live m) (mo_count m) (mo_index m))))
      | None => (Ok false, w)
      end
  | OLoadAndDelete id => (Ok (bool_decide (id ∈ mo_live m)),
                          set_memory w (mo_set m (mo_objs m) (mo_live m ∖ {[id]}) (mo_count m) (mo_index m)))
  | ORange => (Ok (elements (mo_live m)), w)
  | OIndexLoad code => (Ok (mo_index m !! code), w)
  | OIndexStore code id =>
      (Ok tt, note (Coded code id me)
         (set_memory w (mo_set m (mo_objs m) (mo_live m) (mo_count m) (<[code := id]> (mo_index m)))))
  | OIndexDelete code =>
      (Ok tt, set_memory w (mo_set m (mo_objs m) (mo_live m) (mo_count m) (delete code (mo_index m))))
  | CPut c => (Ok tt, set_memory w (mc_set m (<[lc_Nonce c := c]> (mc_challenges m))))
  | CTake nonce now ttl =>
      (Ok (c ← mc_challenges m !! nonce; if (ttl <? now - lc_CreatedAt c)%Z then None else Some c),
       set_memory w (mc_set m (delete nonce (mc_challenges m))))
  | CSweep now ttl =>
      (Ok tt, set_memory w (mc_set m (filter (fun nc => (now - lc_CreatedAt nc.2 <= ttl)%Z) (mc_challenges m))))
  | RGet key => (Ok (look key), w)
  | RSet key v ttl => (Ok tt, set_redis w (<[key := (v, (fun t => w_now w + t)%Z <$> ttl)]> k))
  | RDel keys =>
      (Ok (Z.of_nat (length (List.filter (fun key => bool_decide (is_Some (look key))) keys))),
       set_redis w (foldr delete k keys))
  | RDecr key =>
      match counter (w_now w) k key with
      | Some n => (Ok (n - 1)%Z, set_redis w (bump (w_now w) k key (n - 1)))
      | None => (Err not_an_integer, w)
      end
  | RScan prefix => (Ok (List.filter (fun key => HasPrefix key prefix && bool_decide (is_Some (look key))) (map_to_list k).*1), w)
  | RReserve key max =>
      match counter (w_now w) k key with
      | Some n => if (max <? n + 1)%Z then (Ok false, set_redis w (bump (w_now w) k key n))
                  else (Ok true, set_redis w (bump (w_now w) k key (n + 1)))
      | None => (Err not_an_integer, w)
      end
  | RUpdate key v =>
      match look key with
      | None => (Ok false, w)
      | Some _ => (Ok true, set_redis w (<[key := (v, keep_ttl (w_now w) k key)]> k))
      end
  | RComplete key v ttl =>
      match look key with
      | None => (Ok false, w)
      | Some _ => (Ok true, set_redis w (<[key := (v, Some (w_now w + ttl)%Z)]> k))
      end
  | RFail key current updated =>
      match look key with
      | None => (Ok 0%Z, w)
      | Some v => if decide (v = current) then (Ok 1%Z, set_redis w (<[key := (updated, keep_ttl (w_now w) k key)]> k))
                  else (Ok (-1)%Z, w)
      end
  | RSetCode sessKey codeKey v sessionID ttl =>
      match look sessKey with
      | None => (Ok false, w)
      | Some _ => (Ok true, set_redis w (<[codeKey := (VText sessionID, Some (w_now w + ttl)%Z)]>
                                          (<[sessKey := (v, keep_ttl (w_now w) k sessKey)]> k)))
      end
  | RMarkRead codeKey prefix =>
      match look codeKey with
      | Some (VText sessID) => (Ok (v ← look (prefix +:+ sessID); Some (sessID, v)), w)
      | _ => (Ok None, w)
      end
  | RMarkWrite sessionID sessKey codeKey v =>
      (Ok tt, note (Marked sessionID me) (set_redis w (delete codeKey (<[sessKey := (v, keep_ttl (w_now w) k sessKey)]> k))))
  | RConsume key => (Ok (look key), set_redis w (delete key k))
  | SaveRefreshToken hash subject expiresAt =>
      let row := {| rt_Subject := match w_refresh w !! hash with Some r => rt_Subject r | None => subject end;
                    rt_CreatedAt := match w_refresh w !! hash with Some r => rt_CreatedAt r | None => w_now w end;
                    rt_ExpiresAt := timestamptz expiresAt; rt_Revoked := false; rt_RevokedAt := None |} in
      (Ok tt, note (Saved hash) (set_refresh w (<[hash := row]> (w_refresh w))))
  | GetRefreshToken hash => (Ok (w_refresh w !! hash), w)
  | RevokeRefreshToken hash =>
      (Ok tt, set_refresh w (alter (fun r => {| rt_Subject := rt_Subject r; rt_CreatedAt := rt_CreatedAt r;
         rt_ExpiresAt := rt_ExpiresAt r; rt_Revoked := true; rt_RevokedAt := Some (w_now w) |}) hash (w_refresh w)))
  | RevokeRefreshTokensBySubject subject =>
      let hit (r : RefreshToken) := bool_decide (rt_Subject r = subject) && negb (rt_Revoked r) in
      (Ok (Z.of_nat (size (filter (fun hr => hit hr.2 = true) (w_refresh w)))),
       set_refresh w ((fun r => if hit r then {| rt_Subject := rt_Subject r; rt_CreatedAt := rt_CreatedAt r;
         rt_ExpiresAt := rt_ExpiresAt r; rt_Revoked := true; rt_RevokedAt := Some (w_now w) |} else r) <$> w_refresh w))
  | RevokeAccessToken tokenID subject expiresAt =>
      (Ok tt, match w_revoked w !! tokenID with
              | Some _ => w
              | None => note (Barred tokenID (timestamptz expiresAt))
                          (set_revoked w (<[tokenID := (subject, timestamptz expiresAt)]> (w_revoked w)))
              end)
  | IsAccessTokenRevoked tokenID => (Ok (bool_decide (is_Some (w_revoked w !! tokenID))), w)
  | IsUserBannedBySubject subject =>
      (Ok (match row1 _ (List.filter (fun u => bool_decide (u_ExternalID u = subject)) (db_users (t_db (sv_tables (w_server w))))) with
           | Some u => u_Banned u
           | None => false
           end), w)
  | DeleteExpiredRefresh now => (Ok tt, set_refresh w (filter (fun hr => ~ (rt_ExpiresAt hr.2 < now)%Z) (w_refresh w)))
  | DeleteExpiredRevoked now => (Ok tt, set_revoked w (filter (fun tr => ~ (tr.2.2 < now)%Z) (w_revoked w)))
  | EnsureUserExists_ freshID externalID kyc skip =>
      let '(r, s) := EnsureUserExists row1 freshID externalID kyc skip (w_server w) in (r, set_server w s)
  | LinkEthAddress did addr =>
      let links := db_eth_address_links (t_db (sv_tables (w_server w))) in
      match lookupLink links did addr with
      | Some l => (Ok (negb (el_Revoked l)), w)
      | None => (Ok true, set_server w (with_links (w_server w)
                   (links ++ [{| el_DID := did; el_EthAddress := addr; el_Revoked := false |}])))
      end
  | RevokeEthAddressLink did addr =>
      let links := db_eth_address_links (t_db (sv_tables (w_server w))) in
      let hit l := bool_decide (el_DID l = did) && bool_decide (el_EthAddress l = addr) in
      (Ok (existsb hit links), set_server w (with_links (w_server w)
         (map (fun l => if hit l then {| el_DID := el_DID l; el_EthAddress := el_EthAddress l; el_Revoked := true |} else l) links)))
  end.

(** What lives in the process does not fail. *)
Definition local {X} (e : Op X) : bool :=
  match e with
  | MCount | MAddCount _ | MStore _ _ | MLoad _ | MRead _ | MWrite _ _ | MFail _ _ _ | MRestore _ | MLoadAndDelete _ | MRange
  | OReserve _ | ORelease | OStore _ _ | OLoad _ | ORead _ | OWrite _ _ | OMark _ | OLoadAndDelete _ | ORange
  | OIndexLoad _ | OIndexStore _ _ | OIndexDelete _ | CPut _ | CTake _ _ _ | CSweep _ _ => true
  | _ => false
  end.
Definition exec {X} (me : nat) (c : Choice) (e : Op X) (w : World) : result X * World :=
  match (if local e then None else ch_fault c) with
  | None => perform me e w
  | Some (err, done) => (Err err, if done : bool then (perform me e w).2 else w)
  end.
End exec.

(** ** The interfaces of the server ([internal/server/interfaces.go])
    A session is returned by pointer in memory and by value from Redis: a handle is
    what the caller holds, and reading through it is an operation of its own. *)
Definition op {X} (e : Op X) : prog X := Vis e Ret.

Class SessionManager := {
  SHandle : Type;
  CreateSession : option string -> prog string;
  GetSession : string -> prog (option SHandle);
  sread : SHandle -> prog Session;
  DeleteSession : string -> prog unit;
  UpdateSession : string -> option string -> prog unit;
  CompleteSession : string -> string -> string -> prog unit;
  FailSession : string -> string -> prog unit;
  ListSessions : prog (list SessionInfo);
  Count : prog Z }.
Class OAuthSessionManager := {
  OHandle : Type;
  OAuth_CreateSession : string -> string -> string -> string -> string -> prog string;
  OAuth_GetSession : string -> prog (option OHandle);
  oread : OHandle -> prog OAuthSession;
  GetSessionByCode : string -> prog (option OHandle);
  SetCode : string -> string -> string -> bool -> prog unit;
  MarkCodeUsed : string -> prog bool;
  OAuth_DeleteSession : string -> prog unit }.
Class ChallengeManager := {
  CreateChallenge : string -> prog LinkChallenge;
  GetChallenge : string -> prog (option LinkChallenge) }.

Definition errSessionNotFound : string := "session not found".
(** The operations of [es] in order. *)
Fixpoint ops (es : list (Op unit)) : prog unit :=
  match es with [] => mret tt | e :: es => _ ← op e; ops es end.

(** *** In memory *)
Module InMemory.
Section sessions.
Context (ttl maxSessions : Z).

Definition deleteSession (id : string) : prog unit :=
  loaded ← op (MLoadAndDelete id);
  if loaded : bool then op (MAddCount (-1)) else mret tt.
Definition CreateSession (authRequest : option string) : prog string :=
  n ← op MCount;
  if (0 <? maxSessions)%Z && (maxSessions <=? n)%Z then mret ""
  else
    id ← newUUID;
    t ← now;
    _ ← ops [MStore id (newSession id authRequest t ttl); MAddCount 1];
    mret id.
Definition GetSession (id : string) : prog (option string) :=
  ok ← op (MLoad id);
  if ok : bool then
    t ← now;
    s ← op (MRead id);
    if (se_ExpiresAt s <? t)%Z then _ ← deleteSession id; mret None else mret (Some id)
  else mret None.
Definition UpdateSession (id : string) (authRequest : option string) : prog unit :=
  ok ← op (MLoad id);
  if ok : bool then ops [MWrite id (PutAuthRequest authRequest); MRestore id] else raise errSessionNotFound.
(** [CompletedAt] and [ExpiresAt] are two readings of the clock; the session is
    stored again at the end. *)
Definition CompleteSession (id accessToken refreshToken : string) : prog unit :=
  ok ← op (MLoad id);
  if ok : bool then
    _ ← ops [MWrite id PutCompleted; MWrite id (PutAccessToken accessToken); MWrite id (PutRefreshToken refreshToken)];
    t ← now;
    _ ← ops [MWrite id (PutCompletedAt t); MWrite id ClearFailed; MWrite id ClearReason; MWrite id ClearFailedAt];
    t' ← now;
    ops [MWrite id (PutExpiresAt (t' + minutes 2)); MRestore id]
  else raise errSessionNotFound.
Definition FailSession (id reason : string) : prog unit :=
  ok ← op (MLoad id);
  if ok : bool then
    t ← now;
    written ← op (MFail id reason t);
    if written : bool then op (MRestore id) else mret tt
  else raise errSessionNotFound.
Fixpoint sweep (t : Z) (ids : list string) : prog unit :=
  match ids with
  | [] => mret tt
  | id :: ids =>
      s ← op (MRead id);
      _ ← (if (se_ExpiresAt s <? t)%Z then deleteSession id else mret tt);
      sweep t ids
  end.
Definition cleanup : prog unit := t ← now; ids ← op MRange; sweep t ids.
Fixpoint infos (t : Z) (ids : list string) : prog (list SessionInfo) :=
  match ids with
  | [] => mret []
  | id :: ids =>
      s ← op (MRead id);
      rest ← infos t ids;
      mret (if (se_ExpiresAt s <? t)%Z then rest else infoOf s :: rest)
  end.
Definition ListSessions : prog (list SessionInfo) := t ← now; ids ← op MRange; infos t ids.
End sessions.

Section oauth.
Context (ttl maxSessions : Z).

Definition OAuth_deleteSession (id : string) : prog unit :=
  loaded ← op (OLoadAndDelete id);
  if loaded : bool then
    _ ← op ORelease;
    s ← op (ORead id);
    if bool_decide (os_Code s = "") then mret tt else op (OIndexDelete (os_Code s))
  else mret tt.
Definition OAuth_CreateSession (clientID redirectURI state authSessionID initiatorDID : string) : prog string :=
  ok ← op (OReserve maxSessions);
  if ok : bool then
    id ← newUUID;
    t ← now;
    _ ← op (OStore id (newOAuthSession clientID redirectURI state authSessionID initiatorDID t ttl));
    mret id
  else mret "".
Definition OAuth_GetSession (id : string) : prog (option string) :=
  ok ← op (OLoad id);
  if ok : bool then
    t ← now;
    s ← op (ORead id);
    if (os_ExpiresAt s <? t)%Z then _ ← OAuth_deleteSession id; mret None else mret (Some id)
  else mret None.
Definition GetSessionByCode (code : string) : prog (option string) :=
  id ← op (OIndexLoad code);
  match id with Some id => OAuth_GetSession id | None => mret None end.
Definition SetCode (id code userDID : string) (kyc : bool) : prog unit :=
  ok ← op (OLoad id);
  if ok : bool then
    _ ← op (OWrite id (PutCode code));
    t ← now;
    ops [OWrite id (PutCodeExpires (t + minutes 5)); OWrite id (PutUserDID userDID); OWrite id (PutKYC kyc);
         OIndexStore code id]
  else raise errSessionNotFound.
Definition MarkCodeUsed (code : string) : prog bool :=
  id ← op (OIndexLoad code);
  match id with
  | None => mret false
  | Some id => ok ← op (OLoad id); if ok : bool then op (OMark id) else mret false
  end.
Fixpoint OAuth_sweep (t : Z) (ids : list string) : prog unit :=
  match ids with
  | [] => mret tt
  | id :: ids =>
      s ← op (ORead id);
      _ ← (if (os_ExpiresAt s <? t)%Z then OAuth_deleteSession id else mret tt);
      OAuth_sweep t ids
  end.
Definition OAuth_cleanup : prog unit := t ← now; ids ← op ORange; OAuth_sweep t ids.
End oauth.
End InMemory.

(** [fmt.Sprintf] of the message that is signed. *)
Definition GenerateLinkMessage (did nonce : string) : string :=
"Link Ethereum address to DID

I authorize linking this Ethereum address to my decentralized identity.

DID: " +:+ did +:+ "
Nonce: " +:+ nonce +:+ "

This signature proves ownership of this Ethereum address.".

(** *** In Redis *)
Module InRedis.
Section sessions.
Context (ttl maxSessions : Z).
Definition sessionKeyPrefix : string := "pp:session:".
Definition sessionCountKey : string := "pp:session:_count".

(** [key] is the counter of this store. *)
Definition decrCount (key : string) : prog unit :=
  handle (op (RDecr key)) (fun r =>
    match r with
    | Err _ => mret tt
    | Ok n => if (n <? 0)%Z then best_effort (RSet key (VCount 0) None) else mret tt
    end).
Definition Redis_CreateSession (authRequest : option string) : prog string :=
  handle (if (0 <? maxSessions)%Z then op (RReserve sessionCountKey maxSessions) else mret true) (fun reserved =>
    match reserved with
    | Ok true =>
        id ← newUUID;
        t ← now;
        handle (op (RSet (sessionKeyPrefix +:+ id) (VSession (newSession id authRequest t ttl)) (Some ttl))) (fun r =>
          match r with
          | Ok _ => mret id
          | Err _ => _ ← (if (0 <? maxSessions)%Z then decrCount sessionCountKey else mret tt); mret ""
          end)
    | _ => mret ""
    end).
Definition Redis_GetSession (id : string) : prog (option Session) :=
  handle (op (RGet (sessionKeyPrefix +:+ id))) (fun r =>
    match r with Ok (Some (VSession s)) => mret (Some s) | _ => mret None end).
Definition Redis_DeleteSession (id : string) : prog unit :=
  handle (op (RDel [sessionKeyPrefix +:+ id])) (fun r =>
    match r with
    | Ok n => if (0 <? n)%Z && (0 <? maxSessions)%Z then decrCount sessionCountKey else mret tt
    | Err _ => mret tt
    end).
(** The verdict of a script that reports whether the key was there. *)
Definition found (msg : string) (e : Op bool) : prog unit :=
  ok ← call msg e;
  if ok : bool then mret tt else raise errSessionNotFound.
Definition Redis_UpdateSession (id : string) (authRequest : option string) : prog unit :=
  s ← Redis_GetSession id;
  match s with
  | None => raise errSessionNotFound
  | Some s => found "redis update session script" (RUpdate (sessionKeyPrefix +:+ id) (VSession (put (PutAuthRequest authRequest) s)))
  end.
Definition Redis_CompleteSession (id accessToken refreshToken : string) : prog unit :=
  s ← Redis_GetSession id;
  match s with
  | None => raise errSessionNotFound
  | Some s =>
      t ← now;
      found "redis complete session script" (RComplete (sessionKeyPrefix +:+ id)
        (VSession (puts (completion accessToken refreshToken t t) s)) (minutes 2))
  end.
Definition Redis_FailSession (id reason : string) : prog unit :=
  current ← call "redis get session" (RGet (sessionKeyPrefix +:+ id));
  match current with
  | None => raise errSessionNotFound
  | Some (VSession s) =>
      if se_Completed s then mret tt else
      t ← now;
      n ← call "redis fail session script" (RFail (sessionKeyPrefix +:+ id) (VSession s) (VSession (fail_with reason t s)));
      if (n =? 0)%Z then raise errSessionNotFound else mret tt
  | Some _ => raise "unmarshal session"
  end.
Fixpoint Redis_infos (keys : list string) : prog (list SessionInfo) :=
  match keys with
  | [] => mret []
  | key :: keys =>
      handle (op (RGet key)) (fun r =>
        rest ← Redis_infos keys;
        mret (match r with Ok (Some (VSession s)) => infoOf s :: rest | _ => rest end))
  end.
(** A failing scan ends the iteration. *)
Definition Redis_ListSessions : prog (list SessionInfo) :=
  handle (op (RScan sessionKeyPrefix)) (fun r => match r with Ok keys => Redis_infos keys | Err _ => mret [] end).
Definition Redis_Count : prog Z :=
  handle (op (RGet sessionCountKey)) (fun r =>
    mret (match r with Ok (Some (VCount n)) => Z.max 0 n | _ => 0%Z end)).
End sessions.

Section oauth.
Context (ttl maxSessions : Z).
Definition oauthSessionKeyPrefix : string := "pp:oauth:sess:".
Definition oauthCodeKeyPrefix : string := "pp:oauth:code:".
Definition oauthSessionCountKey : string := "pp:oauth:sess:_count".
Definition oauthCodeTTL : Z := minutes 5.

Definition Redis_OAuth_CreateSession (clientID redirectURI state authSessionID initiatorDID : string) : prog string :=
  handle (if (0 <? maxSessions)%Z then op (RReserve oauthSessionCountKey maxSessions) else mret true) (fun reserved =>
    match reserved with
    | Ok true =>
        id ← newUUID;
        t ← now;
        handle (op (RSet (oauthSessionKeyPrefix +:+ id)
                  (VOAuth (newOAuthSession clientID redirectURI state authSessionID initiatorDID t ttl)) (Some ttl))) (fun r =>
          match r with
          | Ok _ => mret id
          | Err _ => _ ← (if (0 <? maxSessions)%Z then decrCount oauthSessionCountKey else mret tt); mret ""
          end)
    | _ => mret ""
    end).
Definition Redis_OAuth_GetSession (id : string) : prog (option OAuthSession) :=
  handle (op (RGet (oauthSessionKeyPrefix +:+ id))) (fun r =>
    match r with Ok (Some (VOAuth s)) => mret (Some s) | _ => mret None end).
Definition Redis_GetSessionByCode (code : string) : prog (option OAuthSession) :=
  handle (op (RGet (oauthCodeKeyPrefix +:+ code))) (fun r =>
    match r with Ok (Some (VText id)) => Redis_OAuth_GetSession id | _ => mret None end).
Definition Redis_SetCode (id code userDID : string) (kyc : bool) : prog unit :=
  s ← Redis_OAuth_GetSession id;
  match s with
  | None => raise errSessionNotFound
  | Some s =>
      t ← now;
      found "redis setCode script" (RSetCode (oauthSessionKeyPrefix +:+ id) (oauthCodeKeyPrefix +:+ code)
        (VOAuth (oputs (coded code userDID kyc t) s)) id oauthCodeTTL)
  end.
(** Two scripts: what is read first may have changed when it is written. *)
Definition Redis_MarkCodeUsed (code : string) : prog bool :=
  handle (op (RMarkRead (oauthCodeKeyPrefix +:+ code) oauthSessionKeyPrefix)) (fun r =>
    match r with
    | Ok (Some (id, VOAuth s)) =>
        if bool_decide (id = "") || os_CodeUsed s then mret false else
        handle (op (RMarkWrite id (oauthSessionKeyPrefix +:+ id) (oauthCodeKeyPrefix +:+ code) (VOAuth (oput PutCodeUsed s))))
          (fun r => mret (is_ok r))
    | _ => mret false
    end).
Definition Redis_OAuth_DeleteSession (id : string) : prog unit :=
  let sessKey := oauthSessionKeyPrefix +:+ id in
  let release (n : Z) := if (0 <? n)%Z && (0 <? maxSessions)%Z then decrCount oauthSessionCountKey else mret tt in
  handle (op (RGet sessKey)) (fun r =>
    match r with
    | Ok (Some v) =>
        let keys := match v with
                    | VOAuth s => if bool_decide (os_Code s = "") then [sessKey] else [sessKey; oauthCodeKeyPrefix +:+ os_Code s]
                    | _ => [sessKey]
                    end in
        handle (op (RDel keys)) (fun r => match r with Ok n => release n | Err _ => mret tt end)
    | _ => handle (op (RDel [sessKey])) (fun r => match r with Ok n => release n | Err _ => mret tt end)
    end).
End oauth.
End InRedis.

(** *** The two implementations of each interface *)
Definition memorySessions (ttl maxSessions : Z) : SessionManager := {|
  SHandle := string;
  CreateSession := InMemory.CreateSession ttl maxSessions; GetSession := InMemory.GetSession;
  sread := fun id => op (MRead id); DeleteSession := InMemory.deleteSession; UpdateSession := InMemory.UpdateSession;
  CompleteSession := InMemory.CompleteSession; FailSession := InMemory.FailSession;
  ListSessions := InMemory.ListSessions; Count := op MCount |}.
Definition redisSessions (ttl maxSessions : Z) : SessionManager := {|
  SHandle := Session;
  CreateSession := InRedis.Redis_CreateSession ttl maxSessions; GetSession := InRedis.Redis_GetSession;
  sread := mret; DeleteSession := InRedis.Redis_DeleteSession maxSessions; UpdateSession := InRedis.Redis_UpdateSession;
  CompleteSession := InRedis.Redis_CompleteSession; FailSession := InRedis.Redis_FailSession;
  ListSessions := InRedis.Redis_ListSessions; Count := InRedis.Redis_Count |}.
Definition memoryOAuth (ttl maxSessions : Z) : OAuthSessionManager := {|
  OHandle := string;
  OAuth_CreateSession := InMemory.OAuth_CreateSession ttl maxSessions; OAuth_GetSession := InMemory.OAuth_GetSession;
  oread := fun id => op (ORead id); GetSessionByCode := InMemory.GetSessionByCode; SetCode := InMemory.SetCode;
  MarkCodeUsed := InMemory.MarkCodeUsed; OAuth_DeleteSession := InMemory.OAuth_deleteSession |}.
Definition redisOAuth (ttl maxSessions : Z) : OAuthSessionManager := {|
  OHandle := OAuthSession;
  OAuth_CreateSession := InRedis.Redis_OAuth_CreateSession ttl maxSessions; OAuth_GetSession := InRedis.Redis_OAuth_GetSession;
  oread := mret; GetSessionByCode := InRedis.Redis_GetSessionByCode; SetCode := InRedis.Redis_SetCode;
  MarkCodeUsed := InRedis.Redis_MarkCodeUsed; OAuth_DeleteSession := InRedis.Redis_OAuth_DeleteSession maxSessions |}.
Definition memoryChallenges (ttl : Z) : ChallengeManager := {|
  CreateChallenge := fun did =>
    nonce ← newUUID;
    t ← now;
    let c := {| lc_DID := did; lc_Nonce := nonce; lc_Message := GenerateLinkMessage did nonce; lc_CreatedAt := t |} in
    _ ← op (CPut c);
    mret c;
  GetChallenge := fun nonce => t ← now; op (CTake nonce t ttl) |}.
Definition redisChallenges (ttl : Z) : ChallengeManager := {|
  CreateChallenge := fun did =>
    nonce ← newUUID;
    t ← now;
    let c := {| lc_DID := did; lc_Nonce := nonce; lc_Message := GenerateLinkMessage did nonce; lc_CreatedAt := t |} in
    _ ← call "redis SET challenge" (RSet ("pp:challenge:" +:+ nonce) (VChallenge c) (Some ttl));
    mret c;
  GetChallenge := fun nonce =>
    handle (op (RConsume ("pp:challenge:" +:+ nonce))) (fun r =>
      match r with Ok (Some (VChallenge c)) => mret (Some c) | _ => mret None end) |}.
