(* ===== verification/AuthService.v ===== *)
(** * Tokens and the login handlers.

    [internal/auth/jwt.go] and [middleware.go], the handlers of
    [internal/server/auth.go], [oauth.go] and [eth_link.go] as programs over the
    stores of [AuthStores.v] that end with an answer, and the goroutines that
    complete a session in demo mode.

    Parameters: the JWT library ([Jwt]), the wallet verifier ([PrivadoVerifier]),
    [net/url] ([NetURL]), bcrypt, the recovery of a signer ([Signer])
    and the text of a stored expiry ([ExpiryText]).  Request
    bodies are given parsed.  The memberships that a credential or a mock login
    adds are changes of the other tables. *)
From S2P Require Import Prelude GoStrings Methods Models Db Writes Access Deployments Sha256 Programs AuthStores.
From Stdlib Require Import Ascii.
From stdpp Require Import pretty.
Local Open Scope string_scope.

(** ** JWT ([internal/auth/jwt.go]) *)
Record TokenClaims := {
  tc_Subject : string; tc_KYC : bool; tc_ID : string; tc_ExpiresAt : Z; tc_IssuedAt : Z; tc_NotBefore : Z }.
Inductive JwtError := ErrTokenExpired | ErrTokenOther (msg : string).
(** [github.com/golang-jwt/jwt/v5], with HMAC keys only. *)
Class Jwt := {
  NewNumericDate : Z -> Z;
  SignedString : string -> TokenClaims -> result string;
  ParseWithClaims : string -> string -> Z -> JwtError + TokenClaims }.
Inductive TokenError := ErrExpiredToken | ErrInvalidToken.

Record JWTService := {
  j_accessSecret : string; j_refreshSecret : string; j_accessTTL : Z; j_refreshTTL : Z;
  j_accessSecretsPrev : list string; j_refreshSecretsPrev : list string }.
(** [r1] and [r2] are the random secrets that stand in for missing ones. *)
Definition NewJWTService (accessSecret refreshSecret : string) (accessTTL refreshTTL : Z) (r1 r2 : string) : JWTService := {|
  j_accessSecret := if bool_decide (accessSecret = "") then r1 else accessSecret;
  j_refreshSecret := if bool_decide (refreshSecret = "") then r2 else refreshSecret;
  j_accessTTL := accessTTL; j_refreshTTL := refreshTTL; j_accessSecretsPrev := []; j_refreshSecretsPrev := [] |}.
Definition toSecretBytes (secrets : list string) : list string :=
  List.filter (fun s => negb (bool_decide (s = ""))) secrets.
Definition SetValidationSecrets (j : JWTService) (accessPrevious refreshPrevious : list string) : JWTService := {|
  j_accessSecret := j_accessSecret j; j_refreshSecret := j_refreshSecret j; j_accessTTL := j_accessTTL j;
  j_refreshTTL := j_refreshTTL j; j_accessSecretsPrev := toSecretBytes accessPrevious;
  j_refreshSecretsPrev := toSecretBytes refreshPrevious |}.
Definition HashToken (token : string) : string := sha256hex token.
Definition RefreshTokenTTL : Z := (7 * 24 * 3600 * 10 ^ 9)%Z.

Section jwt.
Context `{Jwt} (j : JWTService).

Definition IssueAccessToken (subject : string) (kyc : bool) : prog string :=
  t ← now;
  id ← newUUID;
  lifted (SignedString (j_accessSecret j)
    {| tc_Subject := subject; tc_KYC := kyc; tc_ID := id; tc_ExpiresAt := NewNumericDate (t + j_accessTTL j);
       tc_IssuedAt := NewNumericDate t; tc_NotBefore := NewNumericDate t |}).
Definition IssueRefreshToken (subject : string) : prog string :=
  t ← now;
  id ← newUUID;
  lifted (SignedString (j_refreshSecret j)
    {| tc_Subject := subject; tc_KYC := false; tc_ID := id; tc_ExpiresAt := NewNumericDate (t + j_refreshTTL j);
       tc_IssuedAt := NewNumericDate t; tc_NotBefore := NewNumericDate t |}).

Definition parseWithSecret (token secret : string) : prog (TokenError + TokenClaims) :=
  t ← now;
  mret (match ParseWithClaims secret token t with
        | inr c => inr c
        | inl ErrTokenExpired => inl ErrExpiredToken
        | inl (ErrTokenOther _) => inl ErrInvalidToken
        end).
(** Expiry is terminal; any other failure tries the next secret. *)
Fixpoint tryPrevious (token : string) (err : TokenError) (previous : list string) : prog (TokenError + TokenClaims) :=
  match previous with
  | [] => mret (inl err)
  | secret :: previous =>
      r ← parseWithSecret token secret;
      match r with
      | inr c => mret (inr c)
      | inl ErrExpiredToken => mret (inl ErrExpiredToken)
      | inl ErrInvalidToken => tryPrevious token err previous
      end
  end.
Definition validateToken (token primary : string) (previous : list string) : prog (TokenError + TokenClaims) :=
  r ← parseWithSecret token primary;
  match r with
  | inr c => mret (inr c)
  | inl ErrExpiredToken => mret (inl ErrExpiredToken)
  | inl ErrInvalidToken => tryPrevious token ErrInvalidToken previous
  end.
Definition ValidateAccessToken (token : string) : prog (TokenError + TokenClaims) :=
  validateToken token (j_accessSecret j) (j_accessSecretsPrev j).
Definition ValidateRefreshToken (token : string) : prog (TokenError + TokenClaims) :=
  validateToken token (j_refreshSecret j) (j_refreshSecretsPrev j).
End jwt.

(** ** Answers *)
Inductive Reply :=
| RError (code : Z) (msg : string)
| RNetwork (network : string)
| RTokens (access refresh : string)
| RSession (id : string) (req : string)
| RPending | RFailed (reason : string) | RCompleted (access refresh : string)
| RAuthorize (oauthID authID req : string) | RRedirect (url : string)
| ROAuthPending | ROAuthCompleted (url : string) | RCallback (url : string)
| RMock (did : string) | RInfo (req : option string) (allowMock : bool)
| RInactive | RActive (tokenType : string) (c : TokenClaims)
| RMessage (msg : string)
| RChallenge (nonce message : string) | RLinked (address : string)
| RSessions (l : list SessionInfo) (total : Z).
Definition respond (r : Reply) : prog Reply := mret r.

(** ** The parameters of the server *)
Class PrivadoVerifier := {
  CreateAuthorizationRequest : string -> string -> string -> result string;
  CreateHumanityAuthRequest : string -> string -> string -> string -> result string;
  (** at this time; [VerifyJWZWithProofData] is the same check *)
  VerifyJWZ : Z -> string -> option string -> string -> result string }.
Record URL := { url_Scheme : string; url_Host : string; url_Hostname : string }.
Class NetURL := {
  url_Parse : string -> option URL;
  (** [Query().Set("code", ...)], [Set("state", ...)], [Encode] on a parsed URL *)
  url_With : string -> string -> string -> string }.
Class Signer := {
  IsHexAddress : string -> bool;
  HexToAddress : string -> string;
  (** the address that signed this message, by [crypto.SigToPub] *)
  VerifySignature : string -> string -> result string }.
(** The driver hands the expiry of a refresh token over as text, which is read
    with [time.Parse]; [None] when the text is not in that layout. *)
Class ExpiryText := { parseExpiry : Z -> option Z }.

Record AuthConfig := {
  ac_Environment : string; ac_AllowMockLogin : bool; ac_MockSignatures : bool; ac_mockauth : bool;
  ac_VerifierID : string; ac_AutoKYCPrivado : bool; ac_RequireProofOfHumanity : bool; ac_BillionsIssuerDID : string;
  ac_FirstPartyClients : gmap string string; ac_BaseURL : string; ac_CORSAllowedOrigins : string;
  ac_FrontendURL : string; ac_DemoAutoAuthDelay : Z }.
Definition IsProduction (cfg : AuthConfig) : bool := bool_decide (ac_Environment cfg = "production").
(** What [LoadConfig] forces in production. *)
Definition LoadMockFlags (cfg : AuthConfig) : AuthConfig := {|
  ac_Environment := ac_Environment cfg;
  ac_AllowMockLogin := ac_AllowMockLogin cfg && negb (IsProduction cfg);
  ac_MockSignatures := ac_MockSignatures cfg && negb (IsProduction cfg);
  ac_mockauth := ac_mockauth cfg; ac_VerifierID := ac_VerifierID cfg; ac_AutoKYCPrivado := ac_AutoKYCPrivado cfg;
  ac_RequireProofOfHumanity := ac_RequireProofOfHumanity cfg; ac_BillionsIssuerDID := ac_BillionsIssuerDID cfg;
  ac_FirstPartyClients := ac_FirstPartyClients cfg; ac_BaseURL := ac_BaseURL cfg;
  ac_CORSAllowedOrigins := ac_CORSAllowedOrigins cfg; ac_FrontendURL := ac_FrontendURL cfg;
  ac_DemoAutoAuthDelay := if IsProduction cfg then 0 else ac_DemoAutoAuthDelay cfg |}.
Definition IsFirstPartyOAuthClient (cfg : AuthConfig) (clientID : string) : bool :=
  negb (bool_decide (clientID = "")) && bool_decide (is_Some (ac_FirstPartyClients cfg !! clientID)).

Section split.
Variable sep : ascii.
Fixpoint splitOn (s : string) : list string :=
  match s with
  | EmptyString => [EmptyString]
  | String a s =>
      if Ascii.eqb a sep then EmptyString :: splitOn s
      else match splitOn s with [] => [String a EmptyString] | x :: xs => String a x :: xs end
  end.
End split.

(** ** Failure codes ([auth_failure_reasons.go], [auth_network_support.go]) *)
Definition AuthFailVerification : string := "verification_failed".
Definition AuthFailHumanityRequired : string := "humanity_required".
Definition AuthFailInvalidRequest : string := "invalid_request".
Definition AuthFailAccountBanned : string := "account_banned".
Definition AuthFailInternalError : string := "internal_error".
Definition AuthFailNetworkUnsupported : string := "network_not_supported".
Definition AuthFailWireGeneric : string := "authentication_failed".
Definition wireAuthFailureReason (code : string) : string :=
  if contains [AuthFailVerification; AuthFailHumanityRequired; AuthFailInvalidRequest; AuthFailNetworkUnsupported] code
  then code else AuthFailWireGeneric.

Definition keyHead (a : ascii) : bool :=
  (("a" <=? a)%char && (a <=? "z")%char) || (("0" <=? a)%char && (a <=? "9")%char).
Definition keyTail (a : ascii) : bool := keyHead a || Ascii.eqb a "_" || Ascii.eqb a "-".
Definition keyHalf (s : string) : bool :=
  match s with String a s => keyHead a && forallb keyTail (String.list_ascii_of_string s) | EmptyString => false end.
(** [^[a-z0-9][a-z0-9_-]*:[a-z0-9][a-z0-9_-]*$] *)
Definition iden3NetworkKey (s : string) : bool :=
  match splitOn ":" s with [a; b] => keyHalf a && keyHalf b | _ => false end.
Definition iden3ResolverMissingPhrase : string := " resolver not found".
(** What stands before the last occurrence of [pat]. *)
Fixpoint beforeLast (pat s : string) : option string :=
  match s with
  | EmptyString => if HasPrefix s pat then Some EmptyString else None
  | String a s' =>
      match beforeLast pat s' with
      | Some x => Some (String a x)
      | None => if HasPrefix s pat then Some EmptyString else None
      end
  end.
(** [strings.Fields]; [cur] is the field being read, backwards.  The length of the
    text is fuel enough. *)
Fixpoint fieldsFrom (fuel : nat) (cur s : string) : list string :=
  let flush := if bool_decide (cur = "") then [] else [rev_string cur] in
  match fuel, s with
  | S fuel, String a s' =>
      match space_len s with
      | O => fieldsFrom fuel (String a cur) s'
      | n => (flush ++ fieldsFrom fuel "" (drop_str n s))%list
      end
  | _, _ => flush
  end.
Definition fields (s : string) : list string := fieldsFrom (String.length s) "" s.
Definition unsupportedNetworkFromVerifyError (msg : string) : option string :=
  pre ← beforeLast iden3ResolverMissingPhrase msg;
  candidate ← last (fields pre);
  if iden3NetworkKey candidate then Some candidate else None.
Inductive VerificationErrorClass := verificationHumanityRequired | verificationNetworkUnsupported | verificationFailed.
Definition respondVerificationError (err : string) : Reply * VerificationErrorClass :=
  if Contains err "humanity" || Contains err "ProofOfHumanity"
  then (RError 403 "humanity_verification_required", verificationHumanityRequired)
  else match unsupportedNetworkFromVerifyError err with
       | Some network => (RNetwork network, verificationNetworkUnsupported)
       | None => (RError 401 "verification failed", verificationFailed)
       end.
Definition authFailReasonForVerification (c : VerificationErrorClass) : string :=
  match c with
  | verificationHumanityRequired => AuthFailHumanityRequired
  | verificationNetworkUnsupported => AuthFailNetworkUnsupported
  | verificationFailed => AuthFailVerification
  end.

(** ** Handlers *)
Section handlers.
Context `{JW : Jwt} `{PV : PrivadoVerifier} `{NU : NetURL} `{SG : Signer} `{XT : ExpiryText}.
Context `{SM : SessionManager} `{OM : OAuthSessionManager} `{CM : ChallengeManager}.
Context (cfg : AuthConfig) (j : JWTService).
(** [bcrypt.CompareHashAndPassword(hash, secret) == nil] *)
Context (bcrypt : string -> string -> bool).

(** *** The JWT middlewares ([middleware.go]) *)
Record Creds := { cr_Authorization : string; cr_Cookie : option string }.
Definition extractAccessToken (c : Creds) : option string :=
  if bool_decide (cr_Authorization c = "") then Some (default "" (cr_Cookie c))
  else match splitOn " " (cr_Authorization c) with
       | [scheme; token] => if EqualFold scheme "Bearer" then Some token else None
       | _ => None
       end.
Definition invalidToken (e : TokenError) : Reply :=
  RError 401 (match e with ErrExpiredToken => "token expired" | ErrInvalidToken => "invalid token" end).
Definition JWTAuthMiddleware (c : Creds) (next : TokenClaims -> prog Reply) : prog Reply :=
  match extractAccessToken c with
  | None => respond (RError 401 "invalid Authorization header format")
  | Some token =>
      if bool_decide (token = "") then respond (RError 401 "missing Authorization header") else
      r ← ValidateAccessToken j token;
      match r with
      | inl e => respond (invalidToken e)
      | inr claims =>
          handle (op (IsAccessTokenRevoked (HashToken token))) (fun revoked =>
            match revoked with
            | Err _ => respond (RError 500 "failed to check token revocation")
            | Ok true => respond (RError 401 "token revoked")
            | Ok false => next claims
            end)
      end
  end.
(** Anonymous callers pass with no claims; a user that is banned gets the answer of
    an unknown method. *)
Definition OptionalJWTAuthMiddleware (c : Creds) (next : option TokenClaims -> prog Reply) : prog Reply :=
  match extractAccessToken c with
  | None => respond (RError 401 "invalid Authorization header format")
  | Some token =>
      if bool_decide (token = "") then next None else
      r ← ValidateAccessToken j token;
      match r with
      | inl e => respond (invalidToken e)
      | inr claims =>
          handle (op (IsAccessTokenRevoked (HashToken token))) (fun revoked =>
            match revoked with
            | Err _ => respond (RError 500 "failed to check token revocation")
            | Ok true => respond (RError 401 "token revoked")
            | Ok false =>
                handle (op (IsUserBannedBySubject (tc_Subject claims))) (fun banned =>
                  match banned with
                  | Err _ => respond (RError 500 "failed to check user ban status")
                  | Ok true => respond (RError 404 "method not found")
                  | Ok false => next (Some claims)
                  end)
            end)
      end
  end.

(** *** Shared parts *)
Definition ensureUser (did : string) (kyc : bool) : prog User :=
  id ← newUUID;
  op (EnsureUserExists_ id did kyc false).
(** [if user, err := EnsureUserExists(...); err == nil && user != nil { kyc = user.KYC }] *)
Definition kycOf (did : string) (kyc : bool) : prog bool :=
  handle (ensureUser did kyc) (fun r => mret (match r with Ok u => u_KYC u | Err _ => kyc end)).
(** Issues both tokens and saves the refresh token; [fail] is the answer to an error. *)
Definition issueTokens (subject : string) (kyc : bool) (fail : string -> prog Reply)
    (done : string -> string -> prog Reply) : prog Reply :=
  handle (IssueAccessToken j subject kyc) (fun a =>
    match a with
    | Err _ => fail "failed to issue access token"
    | Ok access =>
        handle (IssueRefreshToken j subject) (fun r =>
          match r with
          | Err _ => fail "failed to issue refresh token"
          | Ok refresh =>
              t ← now;
              handle (op (SaveRefreshToken (HashToken refresh) subject (t + RefreshTokenTTL))) (fun s =>
                match s with
                | Err _ => fail "failed to save refresh token"
                | Ok _ => done access refresh
                end)
          end)
    end).
Definition failAuthSession (sessionID reason : string) : prog unit :=
  if bool_decide (sessionID = "") then mret tt
  else handle (FailSession sessionID reason) (fun _ => mret tt).

(** The identity a mock token names; [None] when it is no mock token. *)
Definition mockDID (token : string) : option string :=
  if ac_AllowMockLogin cfg && (5 <? String.length token)%nat && HasPrefix token "mock." then
    d ← last (splitOn "." token);
    Some (if HasPrefix d "did:" then d else "did:privado:" +:+ d)
  else None.
(** Only builds with the tag [mockauth] have it. *)
Definition tryMockLogin (token : string) : option string := if ac_mockauth cfg then mockDID token else None.

(** *** Wallet login ([auth.go]) *)
Definition createAuthRequest (callbackURL : string) (humanity basic : string) : result string :=
  if ac_RequireProofOfHumanity cfg && negb (bool_decide (ac_BillionsIssuerDID cfg = ""))
  then CreateHumanityAuthRequest (ac_VerifierID cfg) callbackURL humanity (ac_BillionsIssuerDID cfg)
  else CreateAuthorizationRequest (ac_VerifierID cfg) callbackURL basic.
Definition devVerifierDID : string := "did:pkh:eip155:1:0x0000000000000000000000000000000000000001".

(** [base] is the base URL of the callback. *)
Definition handleAuthRequest (base : string) : prog Reply :=
  sessionID ← CreateSession None;
  if bool_decide (sessionID = "")
  then respond (RError 503 "authentication service at capacity, please try again later") else
  let callbackURL := base +:+ "/auth/callback?session=" +:+ sessionID in
  let finish (made : result string) (msg : string) :=
    match made with
    | Err _ => _ ← DeleteSession sessionID; respond (RError 500 msg)
    | Ok req =>
        handle (UpdateSession sessionID (Some req)) (fun r =>
          match r with
          | Err _ => _ ← DeleteSession sessionID; respond (RError 500 "failed to update session")
          | Ok _ => respond (RSession sessionID req)
          end)
    end in
  if bool_decide (ac_VerifierID cfg = "") then
    if IsProduction cfg then _ ← DeleteSession sessionID; respond (RError 500 "VERIFIER_ID not configured")
    else finish (CreateAuthorizationRequest devVerifierDID callbackURL
                   "Authenticate to access Open Privacy Suite (demo mode)") "failed to create mock auth request"
  else finish (createAuthRequest callbackURL "Authenticate and verify humanity to access Ethereum node"
                 "Authenticate to access Ethereum node") "failed to create authorization request".

(** The goroutine of demo mode, after its delay. *)
Definition demoDID (t : Z) : string := "did:privado:demo_" +:+ pretty t.
Definition demoAutoAuth (sessionID : string) : prog Reply :=
  if (ac_DemoAutoAuthDelay cfg <=? 0)%Z || IsProduction cfg then respond (RMessage "") else
  h ← GetSession sessionID;
  match h with
  | None => respond (RMessage "")
  | Some h =>
      s ← sread h;
      if se_Completed s then respond (RMessage "") else
      t ← now;
      kyc ← kycOf (demoDID t) false;
      issueTokens (demoDID t) kyc (fun _ => respond (RMessage "")) (fun access refresh =>
        handle (CompleteSession sessionID access refresh) (fun _ => respond (RMessage "")))
  end.

(** [fail reason code msg]: the failure is recorded on the session and answered. *)
Definition verifyAndIssueTokens (jwz : string) (authRequest : option string) (sessionID : string) : prog Reply :=
  let fail (reason : string) (answer : Reply) : prog Reply := _ ← failAuthSession sessionID reason; respond answer in
  who ← match tryMockLogin jwz with
        | Some d => mret (Ok d)
        | None => t ← now; mret (VerifyJWZ t jwz authRequest (ac_VerifierID cfg))
        end;
  match who with
  | Err e => let '(answer, class) := respondVerificationError e in fail (authFailReasonForVerification class) answer
  | Ok userDID =>
      handle (ensureUser userDID (ac_AutoKYCPrivado cfg)) (fun u =>
        match u with
        | Err _ => fail AuthFailInternalError (RError 500 "failed to persist user record")
        | Ok user =>
            if u_Banned user then fail AuthFailAccountBanned (RError 403 "account is banned") else
            issueTokens userDID (u_KYC user) (fun msg => fail AuthFailInternalError (RError 500 msg))
              (fun access refresh =>
                 handle (CompleteSession sessionID access refresh) (fun _ => respond (RTokens access refresh)))
        end)
  end.

Inductive CallbackBody := BodyUnreadable | BodyJSON (token jwzToken : option string) | BodyPlain (s : string).
Definition handleAuthCallback (sessionID : string) (body : CallbackBody) : prog Reply :=
  if bool_decide (sessionID = "") then respond (RError 400 "session parameter required") else
  h ← GetSession sessionID;
  match h with
  | None => respond (RError 401 "session not found or expired")
  | Some h =>
      let reject msg := _ ← failAuthSession sessionID AuthFailInvalidRequest; respond (RError 400 msg) in
      let submit jwz :=
        if bool_decide (jwz = "") then reject "jwz_token required"
        else s ← sread h; verifyAndIssueTokens jwz (se_AuthRequest s) sessionID in
      match body with
      | BodyUnreadable => reject "failed to read request body"
      | BodyJSON (Some token) _ | BodyJSON None (Some token) => submit token
      | BodyJSON None None => reject "token not found in request body"
      | BodyPlain token => submit token
      end
  end.
(** Routed outside production only. *)
Definition handleAuthVerify (sessionID jwz : string) : prog Reply :=
  h ← GetSession sessionID;
  match h with
  | None => respond (RError 401 "session not found or expired")
  | Some h => s ← sread h; verifyAndIssueTokens jwz (se_AuthRequest s) sessionID
  end.
(** Each field is read when the answer needs it. *)
Definition handleAuthSessionStatus (sessionID : string) : prog Reply :=
  if bool_decide (sessionID = "") then respond (RError 400 "session ID required") else
  h ← GetSession sessionID;
  match h with
  | None => respond (RError 404 "session not found or expired")
  | Some h =>
      s ← sread h;
      if se_Completed s then
        s1 ← sread h;
        s2 ← sread h;
        respond (RCompleted (se_AccessToken s1) (se_RefreshToken s2))
      else
        s1 ← sread h;
        if se_Failed s1 then s2 ← sread h; respond (RFailed (wireAuthFailureReason (se_FailureReason s2)))
        else respond RPending
  end.

(** *** Refresh, introspection, revocation *)
Definition handleRefresh (refreshToken : string) : prog Reply :=
  r ← ValidateRefreshToken j refreshToken;
  match r with
  | inl ErrExpiredToken => respond (RError 401 "refresh token expired")
  | inl ErrInvalidToken => respond (RError 401 "invalid refresh token")
  | inr claims =>
      let tokenHash := HashToken refreshToken in
      handle (op (GetRefreshToken tokenHash)) (fun r =>
        match r with
        | Err _ => respond (RError 500 "failed to check refresh token")
        | Ok None => respond (RError 401 "refresh token not found")
        | Ok (Some stored) =>
            if rt_Revoked stored then respond (RError 401 "refresh token revoked") else
            t ← now;
            let expired := match parseExpiry (rt_ExpiresAt stored) with Some e => (e <? t)%Z | None => false end in
            if expired then respond (RError 401 "refresh token expired") else
            handle (ensureUser (tc_Subject claims) false) (fun u =>
              let banned := match u with Ok u => u_Banned u | Err _ => false end in
              let kyc := match u with Ok u => u_KYC u | Err _ => false end in
              if banned then _ ← best_effort (RevokeRefreshToken tokenHash); respond (RError 403 "account is banned") else
              handle (IssueAccessToken j (tc_Subject claims) kyc) (fun a =>
                match a with
                | Err _ => respond (RError 500 "failed to issue access token")
                | Ok access =>
                    handle (IssueRefreshToken j (tc_Subject claims)) (fun b =>
                      match b with
                      | Err _ => respond (RError 500 "failed to issue new refresh token")
                      | Ok refresh =>
                          _ ← best_effort (RevokeRefreshToken tokenHash);
                          t' ← now;
                          handle (op (SaveRefreshToken (HashToken refresh) (tc_Subject claims) (t' + RefreshTokenTTL)))
                            (fun s => match s with
                                      | Err _ => respond (RError 500 "failed to save new refresh token")
                                      | Ok _ => respond (RTokens access refresh)
                                      end)
                      end)
                end))
        end)
  end.
Definition handleIntrospect (token : string) : prog Reply :=
  a ← ValidateAccessToken j token;
  match a with
  | inr claims =>
      handle (op (IsAccessTokenRevoked (HashToken token))) (fun r =>
        match r with Ok true => respond RInactive | _ => respond (RActive "access_token" claims) end)
  | inl _ =>
      r ← ValidateRefreshToken j token;
      match r with
      | inl _ => respond RInactive
      | inr claims =>
          handle (op (GetRefreshToken (HashToken token))) (fun s =>
            match s with
            | Ok (Some stored) => if rt_Revoked stored then respond RInactive else respond (RActive "refresh_token" claims)
            | _ => respond RInactive
            end)
      end
  end.
Definition handleRevoke (refreshToken accessToken : string) : prog Reply :=
  let revokeRefresh :=
    _ ← ValidateRefreshToken j refreshToken;
    handle (op (RevokeRefreshToken (HashToken refreshToken))) (fun r =>
      match r with
      | Err _ => respond (RError 500 "failed to revoke token")
      | Ok _ => respond (RMessage "token revoked successfully")
      end) in
  if bool_decide (accessToken = "") then revokeRefresh else
  a ← ValidateAccessToken j accessToken;
  match a with
  | inl _ => revokeRefresh
  | inr claims =>
      handle (op (RevokeAccessToken (HashToken accessToken) (tc_Subject claims) (tc_ExpiresAt claims))) (fun r =>
        match r with Err _ => respond (RError 500 "failed to revoke access token") | Ok _ => revokeRefresh end)
  end.
(** The periodic clean-up of both tables ([CleanupExpiredTokens]). *)
Definition CleanupExpiredTokens : prog unit :=
  t ← now;
  _ ← call "failed to cleanup expired refresh tokens" (DeleteExpiredRefresh t);
  call "failed to cleanup expired revoked tokens" (DeleteExpiredRevoked t).

(** *** OAuth ([oauth.go]) *)
Definition isValidRedirectURI (uri : string) : bool :=
  match url_Parse uri with
  | None => false
  | Some u =>
      let origin := url_Scheme u +:+ "://" +:+ url_Host u in
      if negb (contains ["http"; "https"] (url_Scheme u)) then false else
      (negb (IsProduction cfg) && contains ["localhost"; "127.0.0.1"; "::1"] (url_Hostname u)) ||
      (negb (bool_decide (ac_BaseURL cfg = "")) &&
       match url_Parse (ac_BaseURL cfg) with
       | Some b => bool_decide (origin = url_Scheme b +:+ "://" +:+ url_Host b)
       | None => false
       end) ||
      (negb (contains [""; "*"] (ac_CORSAllowedOrigins cfg)) &&
       existsb (fun o => negb (bool_decide (TrimSpace o = "")) && bool_decide (TrimSpace o = origin))
         (splitOn "," (ac_CORSAllowedOrigins cfg)))
  end.
Definition VerifyFirstPartyClientSecret (clientID secret : string) : bool :=
  negb (bool_decide (clientID = "")) && negb (bool_decide (secret = "")) &&
  match ac_FirstPartyClients cfg !! clientID with Some hash => bcrypt hash secret | None => false end.

(** [strings.TrimRight(s, "/")] *)
Fixpoint trimSlashes (s : string) : string :=
  match s with
  | EmptyString => EmptyString
  | String a s' => match trimSlashes s' with
                   | EmptyString => if Ascii.eqb a "/" then EmptyString else String a EmptyString
                   | rest => String a rest
                   end
  end.
Record AuthorizeRequest := { az_ClientID : string; az_RedirectURI : string; az_State : string; az_ResponseType : string }.
(** All four parameters are required; [subject] is the caller's, if they have one. *)
Definition handleOAuthAuthorize (creds : Creds) (q : AuthorizeRequest) (base : string) (browser : bool) : prog Reply :=
  OptionalJWTAuthMiddleware creds (fun claims =>
    if contains [az_ClientID q; az_RedirectURI q; az_State q; az_ResponseType q] ""
    then respond (RError 400 "missing required parameters: client_id, redirect_uri, state, response_type") else
    if negb (bool_decide (az_ResponseType q = "code"))
    then respond (RError 400 "only response_type=code is supported") else
    if negb (isValidRedirectURI (az_RedirectURI q)) then respond (RError 400 "redirect_uri is not allowed") else
    authID ← CreateSession None;
    if bool_decide (authID = "")
    then respond (RError 503 "authentication service at capacity, please try again later") else
    oauthID ← OAuth_CreateSession (az_ClientID q) (az_RedirectURI q) (az_State q) authID
                (match claims with Some c => tc_Subject c | None => "" end);
    if bool_decide (oauthID = "")
    then _ ← DeleteSession authID; respond (RError 503 "OAuth service at capacity, please try again later") else
    let undo msg := _ ← DeleteSession authID; _ ← OAuth_DeleteSession oauthID; respond (RError 500 msg) in
    let callbackURL := base +:+ "/oauth/callback?session=" +:+ authID +:+ "&oauth_session=" +:+ oauthID in
    let finish (made : result string) (msg : string) :=
      match made with
      | Err _ => undo msg
      | Ok req =>
          handle (UpdateSession authID (Some req)) (fun r =>
            match r with
            | Err _ => undo "failed to store authorization request"
            | Ok _ =>
                if browser then
                  if bool_decide (ac_FrontendURL cfg = "")
                  then respond (RError 500 "FRONTEND_URL is not configured on the OAuth server")
                  else respond (RRedirect (trimSlashes (ac_FrontendURL cfg) +:+ "/login?oauth_session=" +:+ oauthID))
                else respond (RAuthorize oauthID authID req)
            end)
      end in
    if bool_decide (ac_VerifierID cfg = "") then
      if IsProduction cfg then undo "VERIFIER_ID not configured"
      else finish (CreateAuthorizationRequest devVerifierDID callbackURL "Authenticate for OAuth authorization (demo mode)")
             "failed to create mock auth request"
    else finish (createAuthRequest callbackURL "Authenticate and verify humanity for OAuth authorization"
                   "Authenticate for OAuth authorization") "failed to create authorization request").

(** The code is set and the wallet session marked completed, without tokens. *)
Definition completeOAuth (oauthID authID userDID : string) (kyc : bool) (failed : Reply)
    (done : string -> prog Reply) : prog Reply :=
  code ← newUUID;
  handle (SetCode oauthID code userDID kyc) (fun r =>
    match r with
    | Err _ => respond failed
    | Ok _ =>
        if bool_decide (authID = "") then done code
        else handle (CompleteSession authID "" "") (fun _ => done code)
    end).

Definition handleOAuthMockComplete (oauthID bodyDID : string) : prog Reply :=
  if IsProduction cfg || negb (ac_AllowMockLogin cfg) then respond (RError 403 "mock login not available") else
  h ← OAuth_GetSession oauthID;
  match h with
  | None => respond (RError 404 "session not found or expired")
  | Some h =>
      s ← oread h;
      if negb (bool_decide (os_Code s = "")) then respond (RError 409 "session already completed") else
      t ← now;
      let did := if bool_decide (bodyDID = "") then "did:privado:mock_" +:+ pretty t else bodyDID in
      kyc ← kycOf did false;
      s' ← oread h;
      completeOAuth oauthID (os_AuthSessionID s') did kyc (RError 500 "failed to complete session") (fun _ => respond (RMock did))
  end.

Definition handleOAuthSilentComplete (creds : Creds) (oauthID : string) : prog Reply :=
  JWTAuthMiddleware creds (fun claims =>
    h ← OAuth_GetSession oauthID;
    match h with
    | None => respond (RError 404 "session not found or expired")
    | Some h =>
        s ← oread h;
        let callerDID := tc_Subject claims in
        if negb (bool_decide (os_Code s = "")) then respond (RError 409 "session already completed") else
        if bool_decide (callerDID = "") then respond (RError 401 "authentication required") else
        if bool_decide (os_InitiatorDID s = "") || negb (EqualFold (os_InitiatorDID s) callerDID)
        then respond (RError 403 "silent SSO not available for this session") else
        if negb (IsFirstPartyOAuthClient cfg (os_ClientID s))
        then respond (RError 403 "silent SSO not available for this client") else
        kyc ← kycOf callerDID (ac_AutoKYCPrivado cfg);
        completeOAuth oauthID (os_AuthSessionID s) callerDID kyc (RError 500 "failed to complete session") (fun code =>
          respond (ROAuthCompleted (os_RedirectURI s +:+ "?code=" +:+ code +:+ "&state=" +:+ os_State s)))
    end).

Definition handleOAuthSessionInfo (oauthID : string) : prog Reply :=
  h ← OAuth_GetSession oauthID;
  match h with
  | None => respond (RError 404 "session not found or expired")
  | Some h =>
      s ← oread h;
      a ← GetSession (os_AuthSessionID s);
      match a with
      | None => respond (RError 404 "auth session not found")
      | Some a => s ← sread a; respond (RInfo (se_AuthRequest s) (ac_AllowMockLogin cfg && negb (IsProduction cfg)))
      end
  end.

(** [url.Parse] fails, or the URL with [code] and [state] set. *)
Definition redirectTo (uri code state : string) (done : string -> Reply) : Reply :=
  match url_Parse uri with None => RError 500 "invalid redirect URI" | Some _ => done (url_With uri code state) end.
Definition handleOAuthCallback (authID oauthID : string) (jwz : option string) : prog Reply :=
  if bool_decide (authID = "") || bool_decide (oauthID = "") then respond (RError 400 "session parameters required") else
  h ← OAuth_GetSession oauthID;
  match h with
  | None => respond (RError 401 "OAuth session not found or expired")
  | Some h =>
      s ← oread h;
      if negb (bool_decide (os_AuthSessionID s = authID)) then respond (RError 401 "session mismatch") else
      a ← GetSession authID;
      match a with
      | None => respond (RError 401 "auth session not found or expired")
      | Some a =>
          match jwz with
          | None => respond (RError 400 "failed to read request body")
          | Some jwz =>
              if bool_decide (jwz = "") then respond (RError 400 "jwz_token required") else
              who ← match mockDID jwz with
                    | Some d => mret (Ok d)
                    | None => t ← now; auth ← sread a; mret (VerifyJWZ t jwz (se_AuthRequest auth) (ac_VerifierID cfg))
                    end;
              match who with
              | Err e => respond (fst (respondVerificationError e))
              | Ok userDID =>
                  handle (ensureUser userDID (ac_AutoKYCPrivado cfg)) (fun u =>
                    if match u with Ok u => u_Banned u | Err _ => false end
                    then respond (RError 403 "account is banned") else
                    completeOAuth oauthID authID userDID
                      (match u with Ok u => u_KYC u | Err _ => ac_AutoKYCPrivado cfg end)
                      (RError 500 "failed to generate authorization code")
                      (fun code => s ← oread h; respond (redirectTo (os_RedirectURI s) code (os_State s) RCallback)))
              end
          end
      end
  end.

Record TokenRequest := {
  tr_GrantType : string; tr_Code : string; tr_RedirectURI : string; tr_ClientID : string; tr_ClientSecret : string;
  tr_Basic : option (string * string) }.
(** The session is read field by field: in memory it is the object other calls write. *)
Definition handleOAuthToken (q : TokenRequest) : prog Reply :=
  if contains [tr_GrantType q; tr_Code q; tr_RedirectURI q; tr_ClientID q] ""
  then respond (RError 400 "invalid request body") else
  if negb (bool_decide (tr_GrantType q = "authorization_code"))
  then respond (RError 400 "only grant_type=authorization_code is supported") else
  h ← GetSessionByCode (tr_Code q);
  match h with
  | None => respond (RError 400 "authorization code not found or expired")
  | Some h =>
      s ← oread h;
      if negb (bool_decide (os_ClientID s = tr_ClientID q)) then respond (RError 400 "client_id does not match") else
      let secret := match tr_Basic q with
                    | Some (user, pass) => if bool_decide (user = tr_ClientID q) then pass else tr_ClientSecret q
                    | None => tr_ClientSecret q
                    end in
      if IsFirstPartyOAuthClient cfg (tr_ClientID q) && negb (VerifyFirstPartyClientSecret (tr_ClientID q) secret)
      then respond (RError 401 "client authentication failed") else
      if negb (bool_decide (os_RedirectURI s = tr_RedirectURI q)) then respond (RError 400 "redirect_uri does not match") else
      t ← now;
      s ← oread h;
      if (os_CodeExpires s <? t)%Z then respond (RError 400 "authorization code has expired") else
      ok ← MarkCodeUsed (tr_Code q);
      if ok : bool then
        s ← oread h;
        s' ← oread h;
        handle (IssueAccessToken j (os_UserDID s) (os_KYC s')) (fun a =>
          match a with
          | Err _ => respond (RError 500 "failed to issue access token")
          | Ok access =>
              s ← oread h;
              handle (IssueRefreshToken j (os_UserDID s)) (fun b =>
                match b with
                | Err _ => respond (RError 500 "failed to issue refresh token")
                | Ok refresh =>
                    s ← oread h;
                    t ← now;
                    handle (op (SaveRefreshToken (HashToken refresh) (os_UserDID s) (t + RefreshTokenTTL))) (fun r =>
                      match r with
                      | Err _ => respond (RError 500 "failed to save refresh token")
                      | Ok _ => respond (RTokens access refresh)
                      end)
                end)
          end)
      else respond (RError 400 "authorization code has already been used")
  end.

Definition handleOAuthSessionStatus (oauthID : string) : prog Reply :=
  if bool_decide (oauthID = "") then respond (RError 400 "session ID required") else
  h ← OAuth_GetSession oauthID;
  match h with
  | None => respond (RError 404 "session not found or expired")
  | Some h =>
      s ← oread h;
      if bool_decide (os_Code s = "") then respond ROAuthPending else
      s ← oread h;
      respond (redirectTo (os_RedirectURI s) (os_Code s) (os_State s) ROAuthCompleted)
  end.

(** The goroutine of demo mode, after its delay. *)
Definition oauthDemoAutoAuth (oauthID authID : string) : prog Reply :=
  if (ac_DemoAutoAuthDelay cfg <=? 0)%Z || IsProduction cfg then respond (RMessage "") else
  h ← OAuth_GetSession oauthID;
  match h with
  | None => respond (RMessage "")
  | Some h =>
      s ← oread h;
      if negb (bool_decide (os_Code s = "")) then respond (RMessage "") else
      t ← now;
      kyc ← kycOf (demoDID t) false;
      code ← newUUID;
      handle (SetCode oauthID code (demoDID t) kyc) (fun r =>
        match r with
        | Err _ => respond (RMessage "")
        | Ok _ => handle (CompleteSession authID "" "") (fun _ => respond (RMessage ""))
        end)
  end.

(** *** Linking addresses ([eth_link.go], [eth_signature.go]) *)
Definition withIdentity (creds : Creds) (next : string -> prog Reply) : prog Reply :=
  JWTAuthMiddleware creds (fun claims =>
    if bool_decide (tc_Subject claims = "") then respond (RError 401 "invalid identity in context")
    else next (tc_Subject claims)).
Definition NormalizeAddress (address : string) : string :=
  if IsHexAddress address then ToLower (HexToAddress address) else ToLower address.
Definition VerifyAddressOwnership (claimed message signature : string) : bool :=
  IsHexAddress claimed &&
  match VerifySignature message signature with Ok recovered => EqualFold (HexToAddress claimed) recovered | Err _ => false end.
Definition handleEthLinkChallenge (creds : Creds) : prog Reply :=
  withIdentity creds (fun userDID =>
    handle (CreateChallenge userDID) (fun r =>
      match r with
      | Err _ => respond (RError 500 "failed to create challenge")
      | Ok c => respond (RChallenge (lc_Nonce c) (lc_Message c))
      end)).
(** The invalidation of the user's cached permissions is a change of the other tables. *)
Definition handleEthLinkVerify (creds : Creds) (nonce address signature : string) : prog Reply :=
  withIdentity creds (fun userDID =>
    if contains [nonce; address; signature] "" then respond (RError 400 "invalid request body") else
    c ← GetChallenge nonce;
    match c with
    | None => respond (RError 400 "invalid or expired nonce")
    | Some c =>
        if negb (bool_decide (lc_DID c = userDID)) then respond (RError 403 "challenge does not belong to this user") else
        if negb (IsHexAddress address) then respond (RError 400 "invalid ethereum address format") else
        if negb (ac_MockSignatures cfg) && negb (VerifyAddressOwnership (NormalizeAddress address) (lc_Message c) signature)
        then respond (RError 400 "signature verification failed") else
        handle (op (LinkEthAddress userDID (NormalizeAddress address))) (fun r =>
          match r with
          | Err _ => respond (RError 500 "failed to link address")
          | Ok false => respond (RError 403 "ETH address link has been revoked - contact an administrator")
          | Ok true => respond (RLinked (NormalizeAddress address))
          end)
    end).
Definition handleDeleteEthAddress (creds : Creds) (address : string) : prog Reply :=
  withIdentity creds (fun userDID =>
    if bool_decide (address = "") then respond (RError 400 "address parameter required") else
    handle (op (RevokeEthAddressLink userDID (ToLower address))) (fun r =>
      match r with
      | Err _ => respond (RError 500 "failed to unlink address")
      | Ok false => respond (RError 404 "address not found or not linked to your account")
      | Ok true => respond (RMessage "address unlinked successfully")
      end)).

(** *** Sessions of the administrator ([admin_rbac_session.go])
    behind the checks of the operator and of the super administrator. *)
Definition listSessions : prog Reply := l ← ListSessions; n ← Count; respond (RSessions l n).
Definition deleteSession (sessionID : string) : prog Reply :=
  h ← GetSession sessionID;
  match h with
  | None => respond (RError 404 "session not found or expired")
  | Some _ => _ ← DeleteSession sessionID; respond (RMessage "session deleted")
  end.
End handlers.

(** ** The deployment ([server.go])
    With a Redis URL every store is in Redis, otherwise every store is in memory. *)
Inductive Backend := Memory_ | Redis_.
Definition SessionTTL : Z := minutes 10.
Definition OAuthSessionTTL : Z := minutes 10.
Definition ChallengeTTL : Z := minutes 5.
Definition DefaultMaxSessions : Z := 10000.
Definition DefaultMaxOAuthSessions : Z := 1000.
Definition sessionsOf (b : Backend) : SessionManager :=
  match b with
  | Memory_ => memorySessions SessionTTL DefaultMaxSessions
  | Redis_ => redisSessions SessionTTL DefaultMaxSessions
  end.
Definition oauthOf (b : Backend) : OAuthSessionManager :=
  match b with
  | Memory_ => memoryOAuth OAuthSessionTTL DefaultMaxOAuthSessions
  | Redis_ => redisOAuth OAuthSessionTTL DefaultMaxOAuthSessions
  end.
Definition challengesOf (b : Backend) : ChallengeManager :=
  match b with Memory_ => memoryChallenges ChallengeTTL | Redis_ => redisChallenges ChallengeTTL end.
