(* ===== verification/AuthProps.v ===== *)
(** * Logins under concurrency.

    [serve] is what the server runs for a call, over either backend; the machine
    is the one of [AuthStores.v].  Between the operations of a call time passes,
    other tables change and Redis may lose keys.  The claims are about authorization
    codes and the users they name (in memory), refresh tokens and access tokens
    (on both backends). *)
From S2P Require Import Prelude GoStrings Methods Models Db Writes Access Deployments Sha256 Programs AuthStores AuthService.
Local Open Scope string_scope.

(** ** Calls *)
Inductive Call :=
| HAuthRequest (base : string)
| HAuthCallback (sessionID : string) (body : CallbackBody)
| HAuthVerify (sessionID jwz : string)
| HAuthStatus (sessionID : string)
| HRefresh (token : string)
| HIntrospect (token : string)
| HRevoke (refresh access : string)
| HAuthorize (creds : Creds) (q : AuthorizeRequest) (base : string) (browser : bool)
| HMockComplete (oauthID did : string)
| HSilentComplete (creds : Creds) (oauthID : string)
| HSessionInfo (oauthID : string)
| HOAuthCallback (authID oauthID : string) (jwz : option string)
| HToken (q : TokenRequest)
| HOAuthStatus (oauthID : string)
| HLinkChallenge (creds : Creds)
| HLinkVerify (creds : Creds) (nonce address signature : string)
| HUnlink (creds : Creds) (address : string)
| HListSessions | HDeleteSession (sessionID : string)
| HBan (subject : string)
| GDemo (sessionID : string) | GOAuthDemo (oauthID authID : string)
| MCleanupTokens | MSweepSessions | MSweepOAuth | MSweepChallenges.

(** The row PostgreSQL returns first. *)
Class FirstRow := first_row : forall A : Type, list A -> option A.

Section machine.
Context `{TC : TimestampColumn} `{FR : FirstRow}.
(** ** The machine *)
Definition others (w w' : World) : Prop :=
  (exists dt, (0 <= dt)%Z /\ w' = tick w dt) \/ (exists s, w' = set_server w s) \/
  (exists lost : string -> bool, w' = set_redis w (filter (fun kv => lost kv.1 = false) (w_redis w))).

(** Who acted in an event that names its author. *)
Definition author (h : Happened) : option nat :=
  match h with Created _ i | Coded _ _ i | Marked _ i => Some i | _ => None end.

Record later (w w' : World) : Prop := {
  later_now : (w_now w <= w_now w')%Z;
  later_used : w_used w ⊆ w_used w';
  later_history : exists l, w_history w' = (l ++ w_history w)%list;
  later_objs : forall id, is_Some (mo_objs (w_memory w) !! id) -> is_Some (mo_objs (w_memory w') !! id) }.
Record rely (me : nat) (w w' : World) : Prop := {
  rely_is_later : later w w';
  rely_mine : forall h, author h = Some me -> h ∈ w_history w' -> h ∈ w_history w }.

#[export] Instance later_preorder : PreOrder later.
Proof.
  split; [intros w; split; [lia|done|by exists []|done]|].
  intros a b' c [] []. split; [lia|by etrans| |by auto].
  destruct later_history0 as [l1 E1], later_history1 as [l2 E2]. exists (l2 ++ l1)%list. by rewrite E2, E1, app_assoc.
Qed.
#[export] Instance rely_preorder me : PreOrder (rely me).
Proof. split; [intros w; by split|]. intros a b' c [] []. split; [by etrans|auto]. Qed.

(** An operation is at most one event, and leaves clock and random values alone. *)
Record frame (me : nat) (w w' : World) : Prop := {
  fr_now : w_now w' = w_now w;
  fr_used : w_used w' = w_used w;
  fr_history : w_history w' = w_history w \/
    exists h, w_history w' = h :: w_history w /\ (author h = None \/ author h = Some me);
  fr_objs : forall id, is_Some (mo_objs (w_memory w) !! id) -> is_Some (mo_objs (w_memory w') !! id) }.
Lemma frame_refl me w : frame me w w.
Proof. split; auto. Qed.
Lemma perform_frame {X} me (e : Op X) w : frame me w (perform first_row me e w).2.
Proof.
  destruct e; simpl; repeat case_match; simpl; try apply frame_refl; split; simpl; auto; try (right; eexists; by eauto);
    intros id0 ?; rewrite ?lookup_alter_is_Some, ?lookup_insert_is_Some'; auto.
Qed.

Lemma frame_later me w w' : frame me w w' -> later w w'.
Proof.
  intros [Hn Hu Hh Ho]. split; [lia|by rewrite Hu| |done].
  destruct Hh as [->|(h & -> & _)]; [by exists []|by exists [h]].
Qed.
Lemma frame_rely i me w w' : i <> me -> frame i w w' -> rely me w w'.
Proof.
  intros Hne Hf. split; [by eapply frame_later|]. destruct Hf as [_ _ Hh _]. intros h Hm.
  destruct Hh as [->|(h' & -> & Ha)]; [done|]. intros [->|]%elem_of_cons; [|done]. naive_solver.
Qed.
Lemma exec_frame {X} me c (e : Op X) w x w' : exec first_row me c e w = (x, w') -> frame me w w'.
Proof.
  unfold exec. pose proof (perform_frame me e w) as Hf. destruct (if local e then None else ch_fault c) as [[err []]|].
  - by intros [= <- <-].
  - intros [= <- <-]. apply frame_refl.
  - destruct (perform first_row me e w). by intros [= <- <-].
Qed.
Lemma draw_spec me w u w' : draw me w u = Some w' ->
  w_used w !! u = None /\ w_used w' = <[u := me]> (w_used w) /\ w_now w' = w_now w /\
  w_history w' = w_history w /\ w_memory w' = w_memory w /\ w_refresh w' = w_refresh w /\
  w_revoked w' = w_revoked w /\ w_redis w' = w_redis w.
Proof. unfold draw. destruct (w_used w !! u) eqn:E; [done|]. by intros [= <-]. Qed.
Lemma draw_is_later me w u w' : draw me w u = Some w' -> later w w'.
Proof.
  intros (Hn & Hu & Ht & Hh & Hm & _)%draw_spec.
  split; [lia|by rewrite Hu; apply insert_subseteq|by exists []|by rewrite Hm].
Qed.
Lemma others_later w w' : others w w' -> later w w' /\ w_history w' = w_history w.
Proof.
  intros [(dt & Hdt & ->)|[[s ->]|[lost ->]]]; (split; [|done]); split; simpl; try done; try lia; by exists [].
Qed.

#[export] Instance auth_machine : Machine Op World Choice := {|
  m_exec := fun X => exec first_row; m_clock := w_now; m_draw := draw; m_other := others; m_later := later; m_rely := rely |}.
#[export] Instance auth_laws : MachineLaws auth_machine.
Proof.
  split.
  - apply _.
  - intros me. apply rely_preorder.
  - by intros me w w' [].
  - intros X i c e w x w' H. exact (frame_later _ _ _ (exec_frame _ _ _ _ _ _ H)).
  - intros X i me c e w x w' Hne H. exact (frame_rely _ _ _ _ Hne (exec_frame _ _ _ _ _ _ H)).
  - apply draw_is_later.
  - intros i me w u w' Hne H. split; [by eapply draw_is_later|]. apply draw_spec in H as (_ & _ & _ & -> & _). done.
  - intros me w w' Ho. destruct (others_later _ _ Ho) as [Hl Hh]. split; [done|]. by rewrite Hh.
Qed.
End machine.

(** ** The ledger of authorization sessions
    [P] holds of every user an authorization session is completed for. *)
Section ledger.
Context `{TC : TimestampColumn} `{FR : FirstRow} (P : string -> Prop).
Local Notation objs w := (mo_objs (w_memory w)).
Local Notation index w := (mo_index (w_memory w)).
Local Notation did w h := (h ∈ w_history w).

Record ledger (w : World) : Prop := {
  L_created id i : did w (Created id i) -> w_used w !! id = Some i;
  L_objs id : is_Some (objs w !! id) -> exists i, did w (Created id i);
  L_live id : id ∈ mo_live (w_memory w) -> is_Some (objs w !! id);
  L_coded c s i : did w (Coded c s i) -> w_used w !! c = Some i /\ did w (Named s);
  L_function c s s' i i' : did w (Coded c s i) -> did w (Coded c s' i') -> s = s';
  L_index c s : index w !! c = Some s -> exists i, did w (Coded c s i);
  L_once s i i' : did w (Marked s i) -> did w (Marked s i') -> i = i';
  L_marked s i : did w (Marked s i) -> exists o, objs w !! s = Some o /\ os_CodeUsed o = true;
  L_named s : did w (Named s) -> exists o, objs w !! s = Some o /\ P (os_UserDID o) }.

(** Events and changes the ledger does not notice. *)
Definition about_tokens (h : Happened) : bool := match h with Saved _ | Barred _ _ | Asked _ _ => true | _ => false end.
Record calm (w w' : World) : Prop := {
  calm_used : w_used w ⊆ w_used w';
  calm_history : w_history w' = w_history w \/ exists h, about_tokens h = true /\ w_history w' = h :: w_history w;
  calm_live : mo_live (w_memory w') ⊆ mo_live (w_memory w);
  calm_index : index w' ⊆ index w;
  calm_dom id : is_Some (objs w' !! id) -> is_Some (objs w !! id);
  calm_objs id o : objs w !! id = Some o -> exists o', objs w' !! id = Some o' /\
    os_UserDID o' = os_UserDID o /\ (os_CodeUsed o = true -> os_CodeUsed o' = true) }.
Lemma calm_refl w : calm w w.
Proof. split; auto; naive_solver. Qed.
Lemma calm_ledger w w' : calm w w' -> ledger w -> ledger w'.
Proof.
  intros [Hu Hh Hl Hi Hd Ho] [].
  assert (forall h, did w h -> did w' h) as Hup by (intros h; destruct Hh as [->|(x & _ & ->)]; [done|by right]).
  assert (forall h, did w' h -> about_tokens h = false -> did w h) as Hdn.
  { intros h. destruct Hh as [->|(x & Hx & ->)]; [done|]. intros [->|]%elem_of_cons Hf; [congruence|done]. }
  assert (Hs : forall s o, objs w !! s = Some o -> is_Some (objs w' !! s)) by (intros s o (? & ? & _)%Ho; eauto).
  split.
  - intros id i H%Hdn; [|done]. eapply lookup_weaken; [by apply L_created0|done].
  - intros id H%Hd. destruct (L_objs0 id H) as [i ?]. eauto.
  - intros id H%Hl. destruct (L_live0 id H) as [o ?]. eauto.
  - intros c s i H%Hdn; [|done]. destruct (L_coded0 c s i H). split; [by eapply lookup_weaken|auto].
  - intros c s s' i i' H%Hdn H'%Hdn; eauto.
  - intros c s H. destruct (L_index0 c s) as [i ?]; [by eapply lookup_weaken|eauto].
  - intros s i i' H%Hdn H'%Hdn; eauto.
  - intros s i H%Hdn; [|done]. destruct (L_marked0 s i H) as (o & E & Hc). destruct (Ho s o E) as (o' & ? & ? & ?). eauto.
  - intros s H%Hdn; [|done]. destruct (L_named0 s H) as (o & E & Hc). destruct (Ho s o E) as (o' & ? & Eo & ?).
    exists o'. by rewrite Eo.
Qed.

(** The operations that count: creation, the user of a session, a code, its use;
    and forgetting a revocation. *)
Definition counts {X} (e : Op X) : bool :=
  match e with
  | OStore _ _ | OWrite _ (PutUserDID _) | OMark _ | OIndexStore _ _ | RMarkWrite _ _ _ _ | DeleteExpiredRevoked _ => true
  | _ => false
  end.
Lemma alter_calm (f : OAuthSession -> OAuthSession) (m : gmap string OAuthSession) id id0 o :
  (forall s, os_UserDID (f s) = os_UserDID s /\ (os_CodeUsed s = true -> os_CodeUsed (f s) = true)) ->
  m !! id0 = Some o -> exists o', alter f id m !! id0 = Some o' /\ os_UserDID o' = os_UserDID o /\
    (os_CodeUsed o = true -> os_CodeUsed o' = true).
Proof.
  intros Hf Ho. destruct (decide (id = id0)) as [->|]; [|rewrite lookup_alter_ne; eauto].
  exists (f o). rewrite lookup_alter_eq, Ho. by destruct (Hf o).
Qed.
Lemma perform_calm {X} me (e : Op X) w : counts e = false -> calm w (perform first_row me e w).2.
Proof.
  intros Hq. destruct e; try done; simpl in *; repeat case_match; simplify_eq/=; try apply calm_refl; split; simpl; eauto;
    try set_solver; try (right; eexists; by split; [|reflexivity]); try (intros id0; by rewrite lookup_alter_is_Some);
    try (intros id0 o; by apply alter_calm); apply delete_subseteq.
Qed.
Lemma calm_keeping {X} me (e : Op X) : (forall w, calm w (perform first_row me e w).2) -> keeping ledger me e.
Proof.
  intros Hc c w Hw. simpl. unfold exec. specialize (Hc w).
  destruct (if local e then None else ch_fault c) as [[err []]|]; simpl; [by eapply calm_ledger|done|by eapply calm_ledger].
Qed.
Lemma codes_keeping {X} me (e : Op X) : counts e = false -> keeping ledger me e.
Proof. intros Hq. apply calm_keeping. intros w. by apply perform_calm. Qed.
Lemma ledger_forget me t : keeping ledger me (DeleteExpiredRevoked t).
Proof. apply calm_keeping. intros w. split; simpl; eauto. Qed.
Lemma exec_local {X} me c (e : Op X) w : local e = true -> exec first_row me c e w = perform first_row me e w.
Proof. unfold exec. by intros ->. Qed.

Lemma ledger_draw i w u w' : draw i w u = Some w' -> ledger w -> ledger w'.
Proof.
  intros (Hn & Hu & Ht & Hh & Hm & _)%draw_spec. apply calm_ledger. split; rewrite ?Hh, ?Hm; auto; [|naive_solver].
  rewrite Hu. by apply insert_subseteq.
Qed.
#[export] Instance ledger_inv : Inv ledger.
Proof.
  split; [|intros; by eapply ledger_draw].
  intros w w' [(dt & Hdt & ->)|[[s ->]|[lost ->]]]; apply calm_ledger; split; simpl; auto; naive_solver.
Qed.

(** One event, and what it has to bring with it. *)
Definition allowed (w w' : World) (h : Happened) : Prop :=
  match h with
  | Created id i => w_used w !! id = Some i
  | Named s => exists o, objs w' !! s = Some o /\ P (os_UserDID o)
  | Coded c s i => w_used w !! c = Some i /\ did w (Named s) /\ forall s' i', did w (Coded c s' i') -> s' = s
  | Marked s i => (forall i', ~ did w (Marked s i')) /\ exists o, objs w' !! s = Some o /\ os_CodeUsed o = true
  | Saved _ | Barred _ _ | Asked _ _ => True
  end.
Lemma ledger_event h w w' :
  ledger w -> w_history w' = h :: w_history w -> w_used w' = w_used w ->
  (forall id o, objs w !! id = Some o -> exists o', objs w' !! id = Some o' /\
     (os_CodeUsed o = true -> os_CodeUsed o' = true) /\ (P (os_UserDID o) -> P (os_UserDID o'))) ->
  (forall id, is_Some (objs w' !! id) -> is_Some (objs w !! id) \/ exists i, h = Created id i) ->
  (forall id, id ∈ mo_live (w_memory w') -> id ∈ mo_live (w_memory w) \/ is_Some (objs w' !! id)) ->
  (forall c s, index w' !! c = Some s -> index w !! c = Some s \/ exists i, h = Coded c s i) ->
  allowed w w' h -> ledger w'.
Proof.
  intros [H1 H2 H3 H4 H5 H6 H7 H8 H9] Hh Hu Ho Hd Hl Hi Ha.
  assert (forall x, did w x -> did w' x) as Hup by (intros x; rewrite Hh; by right).
  split; rewrite ?Hu.
  - intros id i. rewrite Hh. intros [<-|]%elem_of_cons; eauto.
  - intros id [H|[i ->]]%Hd; [destruct (H2 _ H); eauto|exists i; rewrite Hh; by left].
  - intros id [H|H]%Hl; [|done]. destruct (H3 _ H) as [o E]. destruct (Ho _ _ E) as (o' & ? & _). eauto.
  - intros c s i. rewrite Hh. intros [<-|H]%elem_of_cons.
    + destruct Ha as (? & ? & _). split; [done|by right].
    + destruct (H4 _ _ _ H). split; [done|by right].
  - intros c s s' i i'. rewrite Hh. intros [E|H]%elem_of_cons [E'|H']%elem_of_cons; [|..|eauto].
    + congruence.
    + subst h. destruct Ha as (_ & _ & Ha). by rewrite (Ha _ _ H').
    + subst h. destruct Ha as (_ & _ & Ha). by rewrite (Ha _ _ H).
  - intros c s [H|[i ->]]%Hi; [destruct (H6 _ _ H); eauto|exists i; rewrite Hh; by left].
  - intros s i i'. rewrite Hh. intros [E|H]%elem_of_cons [E'|H']%elem_of_cons; [|..|eauto].
    + congruence.
    + subst h. destruct Ha as [Ha _]. by destruct (Ha i').
    + subst h. destruct Ha as [Ha _]. by destruct (Ha i).
  - intros s i. rewrite Hh. intros [<-|H]%elem_of_cons; [by destruct Ha|].
    destruct (H8 _ _ H) as (o & E & ?). destruct (Ho _ _ E) as (o' & ? & ? & _). eauto.
  - intros s. rewrite Hh. intros [<-|H]%elem_of_cons; [done|].
    destruct (H9 _ H) as (o & E & ?). destruct (Ho _ _ E) as (o' & ? & _ & ?). eauto.
Qed.

Lemma keeping_local {X} (I : World -> Prop) me (e : Op X) :
  local e = true -> (forall w, I w -> I (perform first_row me e w).2) -> keeping I me e.
Proof. intros Hl Hp c w Hw. change (I (exec first_row me c e w).2). rewrite exec_local; auto. Qed.

Lemma ledger_mark me id : keeping ledger me (OMark id).
Proof.
  apply keeping_local; [done|]. intros w Hw. simpl. destruct (objs w !! id) as [s|] eqn:Es; [|done].
  destruct (os_CodeUsed s) eqn:Eu; [done|]. apply (ledger_event (Marked id me) w); simpl; auto.
  - intros id' o E. destruct (decide (id' = id)) as [->|]; [|rewrite lookup_insert_ne by done; eauto].
    rewrite lookup_insert_eq. eexists. split; [done|]. by simplify_eq.
  - intros id' [->|]%lookup_insert_is_Some'; eauto.
  - split; [|rewrite lookup_insert_eq; by eexists]. intros i' Hm. destruct (L_marked w Hw _ _ Hm) as (o & ? & ?). congruence.
Qed.
Lemma ledger_user me id d : P d -> keeping ledger me (OWrite id (PutUserDID d)).
Proof.
  intros Hd. apply keeping_local; [done|]. intros w Hw. simpl. destruct (objs w !! id) as [s|] eqn:Es.
  - apply (ledger_event (Named id) w); simpl; auto.
    + intros id' o E. destruct (decide (id = id')) as [->|]; [|rewrite lookup_alter_ne by done; eauto].
      rewrite lookup_alter_eq, E. by eexists.
    + intros id'. rewrite lookup_alter_is_Some. auto.
    + exists (oput (PutUserDID d) s). by rewrite lookup_alter_eq, Es.
  - eapply calm_ledger; [|exact Hw]. split; simpl; auto.
    + intros id'. by rewrite lookup_alter_is_Some.
    + intros id' o E. rewrite lookup_alter_ne; [eauto|congruence].
Qed.

(** A random value that the call drew and has not used yet. *)
Definition mine (me : nat) (u : string) (w : World) : Prop :=
  w_used w !! u = Some me /\ ~ did w (Created u me) /\ forall s, ~ did w (Coded u s me).
Lemma mine_rely me u w w' : rely me w w' -> mine me u w -> mine me u w'.
Proof.
  intros [[_ Hu _ _] Hm] (H1 & H2 & H3). split_and!; [by eapply lookup_weaken|..].
  - intros H. by apply H2, (Hm (Created u me)).
  - intros s H. by apply (H3 s), (Hm (Coded u s me)).
Qed.
Lemma mine_drawn me u w w' : ledger w -> draw me w u = Some w' -> mine me u w'.
Proof.
  intros Hw (Hn & Hu & _ & Hh & _)%draw_spec. split_and!; rewrite ?Hh, ?Hu; [by rewrite lookup_insert_eq|..].
  - intros H%(L_created w Hw). congruence.
  - intros s H. apply (L_coded w Hw) in H as [H _]. congruence.
Qed.
Lemma ledger_create me id s w : mine me id w -> ledger w -> ledger (perform first_row me (OStore id s) w).2.
Proof.
  intros (Hu & Hc & _) Hw. apply (ledger_event (Created id me) w); simpl; auto.
  - intros id' o E. rewrite lookup_insert_ne; [eauto|]. intros <-.
    destruct (L_objs w Hw id) as [i Hi]; [eauto|]. pose proof (L_created w Hw _ _ Hi). naive_solver.
  - intros id' [->|]%lookup_insert_is_Some'; eauto.
  - intros id' [->%elem_of_singleton|]%elem_of_union; [|auto]. right. rewrite lookup_insert_eq. eauto.
Qed.
Lemma ledger_code me c s w :
  mine me c w -> did w (Named s) -> ledger w -> ledger (perform first_row me (OIndexStore c s) w).2.
Proof.
  intros (Hu & _ & Hc) Hn Hw. apply (ledger_event (Coded c s me) w); simpl; auto.
  - naive_solver.
  - intros c' s' [[<- <-]|[_ ?]]%lookup_insert_Some; eauto.
  - split_and!; [done..|]. intros s' i' H. destruct (L_coded w Hw _ _ _ H) as [E _]. naive_solver.
Qed.
End ledger.

(** ** The stores as the handlers use them
    [Respects I me P]: the stores keep the invariant [I], and a code is set only
    for a user that satisfies [P]. *)
Section respects.
Context `{TC : TimestampColumn} `{FR : FirstRow}.

Class Respects (SM : SessionManager) (OM : OAuthSessionManager) (CM : ChallengeManager)
    (I : World -> Prop) (me : nat) (P : string -> Prop) : Prop := {
  rs_op {X} (e : Op X) : counts e = false -> keeping I me e;
  rs_create r : ok I me (CreateSession r);
  rs_get id : ok I me (GetSession id);
  rs_sread h : ok I me (sread h);
  rs_delete id : ok I me (DeleteSession id);
  rs_update id r : ok I me (UpdateSession id r);
  rs_complete id a r : ok I me (CompleteSession id a r);
  rs_fail id r : ok I me (FailSession id r);
  rs_list : ok I me ListSessions;
  rs_count : ok I me Count;
  rs_ocreate a c d e f : ok I me (OAuth_CreateSession a c d e f);
  rs_oget id : ok I me (OAuth_GetSession id);
  rs_oread h : ok I me (oread h);
  rs_bycode c : ok I me (GetSessionByCode c);
  rs_mark c : ok I me (MarkCodeUsed c);
  rs_odelete id : ok I me (OAuth_DeleteSession id);
  rs_setcode {A} id d kyc (h : string -> result unit -> prog A) :
    P d -> (forall c r, ok I me (h c r)) -> ok I me (c ← newUUID; handle (SetCode id c d kyc) (h c));
  rs_cleanup : ok I me CleanupExpiredTokens;
  rs_challenge d : ok I me (CreateChallenge d);
  rs_answer n : ok I me (GetChallenge n) }.
End respects.

(** Operations that do not count, one after the other. *)
Section plain.
Context `{TC : TimestampColumn} `{FR : FirstRow} (I : World -> Prop) (me : nat).
Context (Hop : forall X (e : Op X), counts e = false -> keeping I me e).
Local Notation "'fine' p" := (ok I me p) (at level 10, p at level 9).
Lemma fine_op {X} (e : Op X) : keeping I me e -> fine (op e).
Proof. intros He. by apply ok_vis. Qed.
Lemma fine_plain {X} (e : Op X) : counts e = false -> fine (op e).
Proof using Hop. intros He. by apply fine_op, Hop. Qed.
Local Hint Resolve fine_plain : ok.
Local Hint Extern 1 (counts _ = false) => reflexivity : ok.
Lemma fine_ops es : Forall (fun e => counts e = false) es -> fine (ops es).
Proof using Hop. induction 1; simpl; walk. Qed.
Lemma fine_sweep t ids : fine (InMemory.sweep t ids).
Proof using Hop. induction ids; cbn [InMemory.sweep]; walk. Qed.
Lemma fine_osweep t ids : fine (InMemory.OAuth_sweep t ids).
Proof using Hop. induction ids; cbn [InMemory.OAuth_sweep]; walk. Qed.
Lemma fine_infos t ids : fine (InMemory.infos t ids).
Proof using Hop. induction ids; cbn [InMemory.infos]; walk. Qed.
End plain.

(** *** In memory the ledger is kept *)
Section memory.
Context `{TC : TimestampColumn} `{FR : FirstRow} (P : string -> Prop) (me : nat).
Local Notation I := (ledger P).
Local Notation "'fine' p" := (ok I me p) (at level 10, p at level 9).

Local Hint Resolve fine_op fine_infos codes_keeping ledger_mark ledger_forget : ok.
Local Hint Extern 1 (counts _ = false) => reflexivity : ok.
Local Hint Extern 1 (fine (ops _)) => (apply fine_ops; [apply @codes_keeping|by repeat constructor]) : ok.

(** An own operation in the process. *)
Lemma safe_local {X A} (Q : World -> result A -> Prop) (e : Op X) k w :
  local e = true ->
  (forall w1, rely me w w1 -> I w1 -> I (perform first_row me e w1).2 /\
     safe I me Q (perform first_row me e w1).2 (k (perform first_row me e w1).1)) ->
  safe I me Q w (Vis e k).
Proof.
  intros Hl H w1 Hr Hw c x w2 Hx. change (exec first_row me c e w1 = (x, w2)) in Hx. rewrite exec_local in Hx by done.
  specialize (H w1 Hr Hw). by rewrite Hx in H.
Qed.

Lemma fine_create ttl max a c d e f : fine (InMemory.OAuth_CreateSession ttl max a c d e f).
Proof.
  unfold InMemory.OAuth_CreateSession. apply ok_bind; [walk|]. intros []; [|walk]. intros w.
  unfold mbind, prog_bind, newUUID, now, op. cbn [prog_bind_].
  intros w1 u w2 _ H1 Hd H2. pose proof (mine_drawn P me u w1 w2 H1 Hd) as Hm.
  intros w3 H3 Hl3. apply safe_local; [done|]. intros w4 H4 Hl4.
  split; [|done]. apply (ledger_create P me); [|done]. by do 2 (eapply mine_rely; [eassumption|]).
Qed.

Lemma kept {X} (e : Op X) w : keeping I me e -> local e = true -> I w -> I (perform first_row me e w).2.
Proof. intros He Hl Hw. specialize (He steady w Hw). simpl in He. by rewrite exec_local in He. Qed.
(** One assignment to an authorization session, with a code drawn for it. *)
Lemma safe_write {A} (Q : World -> result A -> Prop) id u x k w :
  (forall d, x = PutUserDID d -> P d) -> mine me u w -> is_Some (mo_objs (w_memory w) !! id) ->
  (forall w', mine me u w' -> is_Some (mo_objs (w_memory w') !! id) ->
     (forall d, x = PutUserDID d -> Named id ∈ w_history w') -> (Named id ∈ w_history w -> Named id ∈ w_history w') ->
     safe I me Q w' (k (Ok tt))) ->
  safe I me Q w (Vis (OWrite id x) k).
Proof.
  intros Hx Hm Ho Hk. apply safe_local; [done|]. intros w1 R1 H1.
  apply (mine_rely _ _ _ _ R1) in Hm. apply (later_objs _ _ (rely_is_later _ _ _ R1)) in Ho.
  assert (Named id ∈ w_history w -> Named id ∈ w_history w1) as Hup.
  { destruct (later_history _ _ (rely_is_later _ _ _ R1)) as [l ->]. intros. apply elem_of_app. by right. }
  split.
  - apply kept; [|done|done]. destruct x; try by apply codes_keeping. apply ledger_user. by eapply Hx.
  - apply Hk.
    + destruct Ho as [o Ho]. destruct Hm as (Hm1 & Hm2 & Hm3). simpl. rewrite Ho.
      destruct x; simpl; [done| done| |done|done]. split_and!; simpl; [done|..].
      * by intros [|]%elem_of_cons.
      * intros s. intros [|]%elem_of_cons; [done|by eapply Hm3].
    + by apply (fr_objs me w1 _ (perform_frame me _ w1)).
    + intros d ->. simpl. destruct Ho as [o ->]. simpl. by left.
    + intros Hn%Hup. simpl. repeat case_match; simpl; [done..| |done|done|done]. by right.
Qed.

(** A code that was just drawn is set for a session whose user satisfies [P]. *)
Lemma fine_code {A} id d kyc (h : string -> result unit -> prog A) :
  P d -> (forall c r, fine (h c r)) -> fine (c ← newUUID; handle (InMemory.SetCode id c d kyc) (h c)).
Proof.
  intros Hd Hh w. unfold InMemory.SetCode, mbind, prog_bind, newUUID, now, op. cbn [prog_bind_ handle].
  intros w1 u w2 _ H1 Hdr H2. pose proof (mine_drawn P me u w1 w2 H1 Hdr) as Hm.
  apply safe_local; [done|]. intros w3 R3 H3. cbn [perform fst snd]. split; [done|].
  apply (mine_rely _ _ _ _ R3) in Hm. destruct (bool_decide_reflect (id ∈ mo_live (w_memory w3))) as [Hlive|]; [|apply Hh].
  apply (L_live _ _ H3) in Hlive. clear w1 w2 H1 Hdr H2 R3. cbn [prog_bind_ handle].
  apply (safe_write _ id u); [done|done|done|]. clear H3 Hm Hlive. intros w3' Hm Ho _ _. cbn [prog_bind_ handle].
  intros w4 R4 H4. apply (mine_rely _ _ _ _ R4) in Hm. apply (later_objs _ _ (rely_is_later _ _ _ R4)) in Ho.
  unfold op. cbn [prog_bind_ handle ops].
  apply (safe_write _ id u); [done|done|done|]. intros w5 Hm5 Ho5 _ _.
  apply (safe_write _ id u); [naive_solver|done|done|]. intros w6 Hm6 Ho6 Hn6 _.
  apply (safe_write _ id u); [done|done|done|]. intros w7 Hm7 Ho7 _ Hn7. specialize (Hn7 (Hn6 _ eq_refl)).
  apply safe_local; [done|]. intros w8 R8 H8. split; [|apply Hh].
  apply (ledger_code P me); [by eapply mine_rely| |done].
  destruct (later_history _ _ (rely_is_later _ _ _ R8)) as [l ->]. apply elem_of_app. by right.
Qed.

#[export] Instance memory_respects t1 m1 t2 m2 t3 :
  Respects (memorySessions t1 m1) (memoryOAuth t2 m2) (memoryChallenges t3) I me P.
Proof.
  split; intros; first [by apply fine_code | by apply fine_create | by apply codes_keeping |
    lazy beta iota delta [CreateSession GetSession sread DeleteSession UpdateSession CompleteSession FailSession ListSessions
      Count OAuth_GetSession oread GetSessionByCode MarkCodeUsed OAuth_DeleteSession CreateChallenge GetChallenge
      memorySessions memoryOAuth memoryChallenges]; walk].
Qed.
End memory.

Section auth.
Context `{TC : TimestampColumn} `{FR : FirstRow}.
Context `{JW : Jwt} `{PV : PrivadoVerifier} `{NU : NetURL} `{SG : Signer} `{XT : ExpiryText}.
Context (cfg : AuthConfig) (j : JWTService) (bcrypt : string -> string -> bool) (b : Backend).
Local Instance SM : SessionManager := sessionsOf b.
Local Instance OM : OAuthSessionManager := oauthOf b.
Local Instance CM : ChallengeManager := challengesOf b.

Definition quietly (p : prog unit) : prog Reply := handle p (fun _ => respond (RMessage "")).
Definition serve (k : Call) : prog Reply :=
  match k with
  | HAuthRequest base => handleAuthRequest cfg base
  | HAuthCallback id body => handleAuthCallback cfg j id body
  | HAuthVerify id jwz => handleAuthVerify cfg j id jwz
  | HAuthStatus id => handleAuthSessionStatus id
  | HRefresh t => handleRefresh j t
  | HIntrospect t => handleIntrospect j t
  | HRevoke r a => handleRevoke j r a
  | HAuthorize c q base br => handleOAuthAuthorize cfg j c q base br
  | HMockComplete id d => handleOAuthMockComplete cfg id d
  | HSilentComplete c id => handleOAuthSilentComplete cfg j c id
  | HSessionInfo id => handleOAuthSessionInfo cfg id
  | HOAuthCallback a o jwz => handleOAuthCallback cfg a o jwz
  | HToken q => handleOAuthToken cfg j bcrypt q
  | HOAuthStatus id => handleOAuthSessionStatus id
  | HLinkChallenge c => handleEthLinkChallenge j c
  | HLinkVerify c n a s => handleEthLinkVerify cfg j c n a s
  | HUnlink c a => handleDeleteEthAddress j c a
  | HListSessions => listSessions
  | HDeleteSession id => deleteSession id
  | HBan s => quietly (_ ← op (RevokeRefreshTokensBySubject s); mret tt)
  | GDemo id => demoAutoAuth cfg j id
  | GOAuthDemo o a => oauthDemoAutoAuth cfg o a
  | MCleanupTokens => quietly CleanupExpiredTokens
  | MSweepSessions => quietly InMemory.cleanup
  | MSweepOAuth => quietly InMemory.OAuth_cleanup
  | MSweepChallenges => quietly (t ← now; op (CSweep t ChallengeTTL))
  end.

(** *** Who a call may complete an authorization session for *)
Definition presented_by (now : Z) (creds : Creds) (d : string) : Prop :=
  exists token secret t claims, extractAccessToken creds = Some token /\
    secret ∈ j_accessSecret j :: j_accessSecretsPrev j /\ (t <= now)%Z /\
    ParseWithClaims secret token t = inr claims /\ tc_Subject claims = d.
Definition presented (creds : Creds) (d : string) : Prop := exists now, presented_by now creds d.
Definition names (k : Call) (d : string) : Prop :=
  match k with
  | HMockComplete _ _ => IsProduction cfg = false /\ ac_AllowMockLogin cfg = true
  | GOAuthDemo _ _ => IsProduction cfg = false
  | HSilentComplete creds _ => presented creds d
  | HOAuthCallback _ _ (Some jwz) =>
      mockDID cfg jwz = Some d \/ exists t req, VerifyJWZ t jwz req (ac_VerifierID cfg) = Ok d
  | _ => False
  end.

Section respectful.
Context (I : World -> Prop) (me : nat) (P : string -> Prop) `{RS : !Respects SM OM CM I me P}.
Local Notation "'fine' p" := (ok I me p) (at level 10, p at level 9).
Local Hint Resolve fine_plain fine_sweep fine_osweep @rs_op rs_create rs_get rs_sread rs_delete rs_update rs_complete rs_fail
  rs_list rs_count rs_ocreate rs_oget rs_oread rs_bycode rs_mark rs_odelete rs_cleanup rs_challenge rs_answer : ok.
Local Hint Extern 1 (counts _ = false) => reflexivity : ok.

Lemma fine_previous token err l : fine (tryPrevious token err l).
Proof. induction l; cbn [tryPrevious]; walk. Qed.
Local Hint Resolve fine_previous : ok.
Lemma fine_complete o a d kyc failed done_ : P d -> (forall c, fine (done_ c)) -> fine (completeOAuth o a d kyc failed done_).
Proof. intros Hd Hf. apply (rs_setcode (P := P)); [done|]. walk. Qed.
Local Hint Resolve fine_complete : ok.


(** A token that is accepted was parsed with one of the secrets, before this. *)
Definition parsed (token : string) (secrets : list string) (w : World) (r : result (TokenError + TokenClaims)) : Prop :=
  match r with
  | Ok (inr c) => exists secret t, secret ∈ secrets /\ (t <= w_now w)%Z /\ ParseWithClaims secret token t = inr c
  | _ => True
  end.
Lemma parsed_mono token l l' w w' r : l ⊆ l' -> later w w' -> parsed token l w r -> parsed token l' w' r.
Proof.
  intros Hl [Ht _ _ _]. destruct r as [[e|c]|e]; simpl; [done| |done]. intros (x & t & ? & ? & ?). exists x, t. auto with lia.
Qed.
Lemma safe_parse token secret w : safe I me (parsed token [secret]) w (parseWithSecret token secret).
Proof.
  cbn. intros w1 _ _ w2 [[Ht _ _ _] _] _. destruct (ParseWithClaims secret token (w_now w1)) as [[]|c] eqn:E; simpl; [done..|].
  exists secret, (w_now w1). split_and!; [by left|done|done].
Qed.
(** One more secret in front. *)
Lemma safe_cons token secret l (k : prog (TokenError + TokenClaims)) w :
  (forall w, safe I me (parsed token l) w k) ->
  safe I me (parsed token (secret :: l)) w
    (r ← parseWithSecret token secret;
     match r with inr c => mret (inr c) | inl ErrExpiredToken => mret (inl ErrExpiredToken) | inl ErrInvalidToken => k end).
Proof.
  intros Hk. eapply safe_bind; [apply safe_parse| |done]. intros w' [[]|c] _ Hw Hc; [done| |].
  - eapply safe_weaken; [apply Hk|]. intros w2 r _. apply parsed_mono; [set_solver|done].
  - intros w2 Hr _. eapply parsed_mono; [| |exact Hc]; [set_solver|exact (rely_is_later _ _ _ Hr)].
Qed.
Lemma safe_previous token err l w : safe I me (parsed token l) w (tryPrevious token err l).
Proof. revert w. induction l as [|x l IH]; intros w; [done|]. by apply safe_cons. Qed.
Lemma safe_validate token primary l w :
  safe I me (parsed token (primary :: l)) w (validateToken token primary l).
Proof. apply safe_cons. intros w'. apply safe_previous. Qed.
Lemma timed_middleware creds next :
  (forall claims w, presented_by (w_now w) creds (tc_Subject claims) -> safe I me (fun _ _ => True) w (next claims)) ->
  fine (JWTAuthMiddleware j creds next).
Proof.
  intros Hn. unfold JWTAuthMiddleware. destruct (extractAccessToken creds) as [token|] eqn:Et; [|walk].
  case_bool_decide; [walk|]. intros w. eapply safe_bind; [apply safe_validate| |done].
  intros w' [e|c] _ Hw Hc; [done|]. destruct Hc as (secret & t & Hs & Hle & Hp).
  eapply (safe_handle _ _ (fun _ _ => True)); [apply fine_plain; [apply RS|done]|].
  intros w2 [[]|e] [Ht _ _ _] _ _; [done| |done]. apply Hn. exists token, secret, t, c. split_and!; [done..|lia|done|done].
Qed.
Lemma fine_middleware creds next :
  (forall claims, presented creds (tc_Subject claims) -> fine (next claims)) -> fine (JWTAuthMiddleware j creds next).
Proof. intros Hn. apply timed_middleware. intros claims w Hp. apply Hn. by eexists. Qed.

Lemma silent_next creds o : exists next, handleOAuthSilentComplete cfg j creds o = JWTAuthMiddleware j creds next /\
  forall claims, P (tc_Subject claims) -> fine (next claims).
Proof. eexists. split; [reflexivity|]. intros claims Hd. cbv beta. walk. Qed.
Lemma fine_silent creds o : (forall d, presented creds d -> P d) -> fine (handleOAuthSilentComplete cfg j creds o).
Proof. intros HP. destruct (silent_next creds o) as (next & -> & Hn). apply fine_middleware. auto. Qed.
(** Once the user is known. *)
Lemma fine_known o a h d :
  P d -> fine (handle (ensureUser d (ac_AutoKYCPrivado cfg)) (fun u =>
    if match u with Ok u => u_Banned u | Err _ => false end then respond (RError 403 "account is banned") else
    completeOAuth o a d (match u with Ok u => u_KYC u | Err _ => ac_AutoKYCPrivado cfg end)
      (RError 500 "failed to generate authorization code")
      (fun code => s ← oread h; respond (redirectTo (os_RedirectURI s) code (os_State s) RCallback)))).
Proof.
  intros Hd. apply ok_handle; [walk|]. intros u. destruct (match u with Ok u => u_Banned u | Err _ => false end); [walk|].
  apply fine_complete; walk.
Qed.
Lemma fine_oauth_callback a o jwz :
  (forall d, names (HOAuthCallback a o jwz) d -> P d) -> fine (handleOAuthCallback cfg a o jwz).
Proof.
  intros HP. unfold handleOAuthCallback. case_match; [walk|]. apply ok_bind; [walk|]. intros [h|]; [|walk].
  apply ok_bind; [walk|]. intros s. case_match; [walk|]. apply ok_bind; [walk|]. intros [ah|]; [|walk].
  destruct jwz as [jwz|]; [|walk]. case_match; [walk|]. intros w.
  apply (safe_bind I me (fun _ r => match r with Ok (Ok d) => P d | _ => True end)); [| |done].
  - destruct (mockDID cfg jwz) as [d|] eqn:Ed; [intros ? _ _; apply HP; by left|].
    cbn. intros w1 _ _. eapply safe_bind; [apply rs_sread| |done]. intros w2 auth _ _ _ w3 _ _.
    destruct (VerifyJWZ (w_now w1) jwz _ _) as [d|] eqn:Ev; [|done]. apply HP. right. eauto.
  - intros w' [d|e] _ _ Hd; [by apply fine_known|done].
Qed.
Lemma fine_serve k : (forall d, names k d -> P d) -> fine (serve k).
Proof.
  destruct k; intros HP; cbn [serve]; try solve [walk]; [|by apply fine_silent|by apply fine_oauth_callback|].
  - unfold handleOAuthMockComplete. destruct (IsProduction cfg || negb (ac_AllowMockLogin cfg)) eqn:E; [walk|].
    apply orb_false_iff in E as [? ?%negb_false_iff]. assert (forall d, P d) by (intros d; by apply HP). walk.
  - unfold oauthDemoAutoAuth. destruct ((ac_DemoAutoAuthDelay cfg <=? 0)%Z || IsProduction cfg) eqn:E; [walk|].
    apply orb_false_iff in E as [_ ?]. assert (forall d, P d) as HPd by (intros d; by apply HP).
    apply ok_bind; [walk|]. intros [h|]; [|walk]. apply ok_bind; [walk|]. intros s. case_match; [walk|].
    apply ok_bind; [walk|]. intros t. apply ok_bind; [walk|]. intros kyc.
    apply (rs_setcode (P := P) _ _ _ (fun _ r => _)); [done|]. walk.
Qed.
End respectful.
End auth.

(** ** The token endpoint in memory *)
Section exchange.
Context `{TC : TimestampColumn} `{FR : FirstRow}.
Context `{JW : Jwt} `{PV : PrivadoVerifier} `{NU : NetURL} `{SG : Signer} `{XT : ExpiryText}.
Context (cfg : AuthConfig) (j : JWTService) (bcrypt : string -> string -> bool) (P : string -> Prop) (me : nat).
Local Notation I := (ledger P).
Local Notation serve := (serve cfg j bcrypt Memory_).
Local Notation did w h := (h ∈ w_history w).
Local Existing Instance memory_respects.

Lemma did_later h w w' : later w w' -> did w h -> did w' h.
Proof. intros [_ _ [l ->] _] H. apply elem_of_app. by right. Qed.
Definition has_code (code id : string) (w : World) : Prop := exists i, did w (Coded code id i).
Lemma has_code_later code id w w' : later w w' -> has_code code id w -> has_code code id w'.
Proof. intros Hl [i H]. exists i. by eapply did_later. Qed.
Lemma has_code_same code id id' w : I w -> has_code code id w -> has_code code id' w -> id = id'.
Proof. intros Hw [i H] [i' H']. by eapply L_function. Qed.

Lemma safe_index code w :
  safe I me (fun w' r => forall id, r = Ok (Some id) -> has_code code id w') w (op (OIndexLoad code)).
Proof.
  apply safe_local; [done|]. intros w1 _ H1. split; [done|]. intros w2 R2 H2 id [= Hi].
  eapply has_code_later; [by eapply rely_is_later|]. by eapply L_index.
Qed.
Lemma safe_get id w : safe I me (fun _ r => forall x, r = Ok (Some x) -> x = id) w (InMemory.OAuth_GetSession id).
Proof.
  eapply (safe_bind _ _ (fun _ _ => True)); [apply ok_vis; [by apply codes_keeping|walk]| |done].
  intros w1 [] _ _ _; [|by intros ? _ _ x]. own. eapply (safe_bind _ _ (fun _ _ => True)); [|intros w3 s _ _ _|done].
  { apply ok_vis; [by apply codes_keeping|walk]. }
  case_match; [|intros ? _ _ x; naive_solver].
  eapply (safe_bind _ _ (fun _ _ => True)); [apply (rs_odelete (Respects := memory_respects P me 0 0 0 0 0))| |done]. by intros w4 _ _ _ _ w5 _ _ x.
Qed.
Lemma safe_bycode code w :
  safe I me (fun w' r => forall id, r = Ok (Some id) -> has_code code id w') w (InMemory.GetSessionByCode code).
Proof.
  eapply safe_bind; [apply safe_index| |done]. intros w1 [id|] _ _ Hi; [|by intros ? _ _ x].
  eapply safe_weaken; [apply (safe_stable _ _ (has_code code id)); [apply has_code_later|by apply Hi|apply safe_get]|].
  intros w2 r _ [Hc Hr] x ->. by rewrite (Hr x eq_refl).
Qed.
Lemma safe_marked code w :
  safe I me (fun w' r => r = Ok true -> exists id, has_code code id w' /\ did w' (Marked id me)) w (InMemory.MarkCodeUsed code).
Proof.
  eapply safe_bind; [apply safe_index| |done]. intros w1 [id|] _ _ Hi; [|by intros ? _ _ x].
  specialize (Hi id eq_refl). eapply (safe_bind _ _ (fun w _ => has_code code id w)); [| |done].
  { eapply safe_weaken; [apply (safe_stable _ _ (has_code code id)); [apply has_code_later|done|]|by intros ? ? _ []].
    apply ok_vis; [by apply codes_keeping|walk]. }
  intros w2 [] _ _ Hc; [|by intros ? _ _ x]. apply safe_local; [done|]. intros w3 R3 H3.
  split; [by apply kept; [apply ledger_mark|..]|]. intros w4 R4 H4 Hr. exists id. split.
  - eapply has_code_later; [|done]. etrans; [by eapply rely_is_later|]. etrans; [|by eapply rely_is_later].
    eapply frame_later, perform_frame.
  - eapply did_later; [by eapply rely_is_later|]. simpl in *. repeat case_match; simplify_eq. by left.
Qed.

Lemma safe_user id w :
  did w (Named id) -> safe I me (fun _ r => forall s, r = Ok s -> P (os_UserDID s)) w (op (ORead id)).
Proof.
  intros Hn. apply safe_local; [done|]. intros w1 R1 H1. split; [done|]. intros w2 _ _ s [= <-].
  apply (did_later _ _ _ (rely_is_later _ _ _ R1)) in Hn. by destruct (L_named _ _ H1 _ Hn) as (o & -> & Ho).
Qed.
Lemma has_code_named code id w : I w -> has_code code id w -> did w (Named id).
Proof. intros Hw [i H]. by destruct (L_coded _ _ Hw _ _ _ H). Qed.

(** The signed claims name a user that satisfies [P]. *)
Definition issued (secret token : string) : Prop := exists c, SignedString secret c = Ok token /\ P (tc_Subject c).
Lemma safe_access d kyc w : P d ->
  safe I me (fun _ r => forall t, r = Ok t -> issued (j_accessSecret j) t) w (IssueAccessToken j d kyc).
Proof. intros Hd. cbn. intros w1 _ _ w2 u w3 _ _ _ _ w4 _ _ t Ht. eexists. split; [exact Ht|done]. Qed.
Lemma safe_refresh d w : P d ->
  safe I me (fun _ r => forall t, r = Ok t -> issued (j_refreshSecret j) t) w (IssueRefreshToken j d).
Proof. intros Hd. cbn. intros w1 _ _ w2 u w3 _ _ _ _ w4 _ _ t Ht. eexists. split; [exact Ht|done]. Qed.

Definition redeemed (code : string) (w : World) (r : result Reply) : Prop :=
  forall access refresh, r = Ok (RTokens access refresh) ->
    (exists id, has_code code id w /\ did w (Marked id me)) /\
    issued (j_accessSecret j) access /\ issued (j_refreshSecret j) refresh.
Lemma redeemed_no code r w1 : (forall a b, r <> RTokens a b) -> safe I me (redeemed code) w1 (respond r).
Proof. intros Hr w2 _ _ a b' [= E]. by destruct (Hr a b'). Qed.
Local Ltac quiet := eapply (safe_bind _ _ (fun _ _ => True));
  [first [by apply ok_now | by apply ok_vis; [apply codes_keeping|walk]]|intros ?wq ?xq ?Lq ?Iq _|done].

(** After the code was marked. *)
Lemma safe_issue code id w :
  has_code code id w -> did w (Marked id me) ->
  safe I me (redeemed code) w (
    s ← op (ORead id); s' ← op (ORead id);
    handle (IssueAccessToken j (os_UserDID s) (os_KYC s')) (fun a =>
      match a with
      | Err _ => respond (RError 500 "failed to issue access token")
      | Ok access =>
          s ← op (ORead id);
          handle (IssueRefreshToken j (os_UserDID s)) (fun b =>
            match b with
            | Err _ => respond (RError 500 "failed to issue refresh token")
            | Ok refresh =>
                s ← op (ORead id);
                t ← now;
                handle (op (SaveRefreshToken (HashToken refresh) (os_UserDID s) (t + RefreshTokenTTL))) (fun r =>
                  match r with
                  | Err _ => respond (RError 500 "failed to save refresh token")
                  | Ok _ => respond (RTokens access refresh)
                  end)
            end)
      end)).
Proof.
  intros Hc Hm. apply (safe_at I me). intros w0 R0 H0. apply rely_is_later in R0.
  apply (has_code_later _ _ _ _ R0) in Hc. apply (did_later _ _ _ R0) in Hm. pose proof (has_code_named _ _ _ H0 Hc) as Hn.
  eapply safe_bind; [by apply safe_user| |done]. intros w1 s L1 H1 Hs. specialize (Hs s eq_refl). quiet.
  eapply safe_handle; [by apply safe_access|]. intros w2 [access|] L2 H2 Ha; [|by apply redeemed_no]. specialize (Ha _ eq_refl).
  assert (later w0 w2) as L02 by later.
  eapply safe_bind; [apply safe_user; by eapply did_later| |done]. intros w3 s3 L3 H3 Hs3. specialize (Hs3 s3 eq_refl).
  eapply safe_handle; [by apply safe_refresh|]. intros w4 [refresh|] L4 H4 Hr; [|by apply redeemed_no]. specialize (Hr _ eq_refl).
  quiet. quiet. eapply (safe_handle _ _ (fun _ _ => True)); [apply ok_vis; [by apply codes_keeping|walk]|].
  intros w7 [[]|] L7 H7 _; [|by apply redeemed_no]. intros w8 R8 H8 a' b' [= <- <-].
  assert (later w0 w8) as L08 by (apply rely_is_later in R8; later).
  split_and!; [|done|done]. exists id. split; [by eapply has_code_later|by eapply did_later].
Qed.
Local Ltac reject := match goal with |- safe _ _ _ _ (if ?c then _ else _) => destruct c; [by apply redeemed_no|] end.
Lemma safe_exchange q w : safe I me (redeemed (tr_Code q)) w (serve (HToken q)).
Proof.
  cbn [AuthProps.serve]. unfold handleOAuthToken. reject. reject.
  eapply safe_bind; [apply safe_bycode| |done]. intros w1 [id|] _ H1 Hc; [|by apply redeemed_no].
  specialize (Hc id eq_refl). quiet. reject.
  reject. reject. quiet. quiet. reject.
  eapply safe_bind; [apply safe_marked| |done]. intros w5 [] L5 H5 Hm; [|by apply redeemed_no].
  destruct (Hm eq_refl) as (id' & Hc' & Hk). replace id with id' in *; [by apply safe_issue|].
  eapply has_code_same; [done..|]. eapply has_code_later; [|done]. later.
Qed.
End exchange.

(** ** Claims about the authorization code *)
Section codes.
Context `{TC : TimestampColumn} `{FR : FirstRow}.
Context `{JW : Jwt} `{PV : PrivadoVerifier} `{NU : NetURL} `{SG : Signer} `{XT : ExpiryText}.
Context (raw : AuthConfig) (j : JWTService) (bcrypt : string -> string -> bool).
Local Notation cfg := (LoadMockFlags raw).
Local Notation serve := (serve cfg j bcrypt Memory_).
Local Existing Instance memory_respects.

(** The process has just started: its memory is empty. *)
Definition starting (w : World) : Prop :=
  w_history w = [] /\ mo_objs (w_memory w) = ∅ /\ mo_live (w_memory w) = ∅ /\ mo_index (w_memory w) = ∅.
Lemma starting_ledger P w : starting w -> ledger P w.
Proof. intros (Hh & Ho & Hl & Hi). split; intros *; rewrite ?Hh, ?Ho, ?Hl, ?Hi, ?lookup_empty; first [by intros ?%elem_of_nil | by intros [? ?] | set_solver]. Qed.

(** Some call of the configuration may complete a session for this user. *)
Definition named_in (c : Config Op World Call Reply) (d : string) : Prop :=
  exists i k p, cf_calls c !! i = Some (k, p) /\ names cfg j k d.
Definition exchanged (c : Config Op World Call Reply) (i : nat) (k : Call) (w : World) (r : result Reply) : Prop :=
  match k with HToken q => redeemed j (named_in c) i (tr_Code q) w r | _ => True end.
Lemma exchange_reached w c :
  starting w -> rtc (step serve) {| cf_world := w; cf_calls := [] |} c ->
  ledger (named_in c) (cf_world c) /\
  forall i k r, cf_calls c !! i = Some (k, Ret r) -> exchanged c i k (cf_world c) r.
Proof.
  intros Hw Hs. apply (reached serve (ledger (named_in c)) (exchanged c) w c); [|by apply starting_ledger|done].
  intros i w' k p Hk _. assert (ok (ledger (named_in c)) i (serve k)) as Hok.
  { apply (fine_serve cfg j bcrypt Memory_ _ i (named_in c)). intros d Hd. by exists i, k, p. }
  destruct k; try (eapply safe_weaken; [apply Hok|done]). apply safe_exchange.
Qed.

(** C8: in memory an authorization code is redeemed at most once: of all calls to
    the token endpoint with one code, whatever else runs between their operations,
    at most one is answered with tokens. *)
Theorem code_redeemed_once w c i i' q q' a r a' r' :
  starting w -> rtc (step serve) {| cf_world := w; cf_calls := [] |} c ->
  cf_calls c !! i = Some (HToken q, Ret (Ok (RTokens a r))) ->
  cf_calls c !! i' = Some (HToken q', Ret (Ok (RTokens a' r'))) ->
  tr_Code q = tr_Code q' -> i = i'.
Proof.
  intros Hw Hs H H' E. destruct (exchange_reached w c Hw Hs) as [Hl Hq].
  destruct (Hq _ _ _ H a r eq_refl) as [(id & Hc & Hm) _]. destruct (Hq _ _ _ H' a' r' eq_refl) as [(id' & Hc' & Hm') _].
  rewrite E in Hc. rewrite (has_code_same _ _ _ _ _ Hl Hc Hc') in Hm. by eapply L_once.
Qed.

(** *** Who vouched for a user
    Up to now a login session was given this authorization request (or none yet). *)
Definition asked (w : World) (id : string) (req : option string) : Prop := req = None \/ Asked id req ∈ w_history w.
Definition requests_asked (w : World) : Prop :=
  forall id s, ms_objs (w_memory w) !! id = Some s -> asked w id (se_AuthRequest s).
Lemma asked_later w w' id req : later w w' -> asked w id req -> asked w' id req.
Proof. intros [_ _ [l Hl] _] [|H]; [by left|right]. rewrite Hl. apply elem_of_app. by right. Qed.
Lemma same_requests w w' : later w w' ->
  (forall id s', ms_objs (w_memory w') !! id = Some s' -> asked w' id (se_AuthRequest s') \/
     exists s, ms_objs (w_memory w) !! id = Some s /\ se_AuthRequest s' = se_AuthRequest s) ->
  requests_asked w -> requests_asked w'.
Proof. intros Hl Hs Hw id s' [?|(s & Hi & ->)]%Hs; [done|]. eapply asked_later; [done|]. by apply Hw. Qed.
Lemma perform_asked {X} me (e : Op X) w : requests_asked w -> requests_asked (perform first_row me e w).2.
Proof.
  apply same_requests; [exact (frame_later _ _ _ (perform_frame me e w))|]. intros i s'.
  destruct e; try (simpl; repeat case_match; simpl; by eauto).
  - simpl. intros [[<- <-]|[_ ?]]%lookup_insert_Some; [left; right; by left|eauto].
  - assert (ms_objs (w_memory (perform first_row me (MWrite id x) w).2) = alter (put x) id (ms_objs (w_memory w))) as ->
      by (by destruct x). destruct (decide (id = i)) as [->|]; [|rewrite lookup_alter_ne by done; eauto].
    rewrite lookup_alter_eq. intros (s & Hi & ->)%fmap_Some. destruct x; simpl; eauto. left. right. by left.
  - simpl. destruct (decide (id = i)) as [->|]; [|rewrite lookup_alter_ne by done; eauto].
    rewrite lookup_alter_eq. intros (s & Hi & ->)%fmap_Some. case_match; simpl; eauto.
Qed.

(** The user proved who they are: with an access token signed with one of the
    secrets, or to the wallet verifier, for the request of the very login session
    the call names; and not later than now. *)
Definition vouches (w : World) (k : Call) (d : string) : Prop :=
  match k with
  | HSilentComplete creds _ => presented_by j (w_now w) creds d
  | HOAuthCallback authID _ (Some jwz) =>
      exists t req, (t <= w_now w)%Z /\ asked w authID req /\ VerifyJWZ t jwz req (ac_VerifierID cfg) = Ok d
  | _ => False
  end.

(** Up to the configuration [c] of a run in production. *)
Section vouched.
Context (c : Config Op World Call Reply) (Hprod : IsProduction raw = true) (me : nat).
Definition vouched (d : string) : Prop := exists n k p, cf_calls c !! n = Some (k, p) /\ vouches (cf_world c) k d.
Definition unfinished (w : World) : Prop := later w (cf_world c).
#[local] Instance until_now : Until unfinished requests_asked.
Proof.
  split.
  - intros w w' H1 H2. unfold unfinished. by etrans.
  - intros X i ch e w x w' Hx Hf. change (exec first_row i ch e w = (x, w')) in Hx. unfold exec in Hx.
    pose proof (perform_asked i e w Hf) as Hp. destruct (if local e then None else ch_fault ch) as [[err []]|].
    + by injection Hx as <- <-.
    + by injection Hx as <- <-.
    + by rewrite Hx in Hp.
  - intros i w u w' Hd Hf. pose proof (draw_is_later _ _ _ _ Hd) as Hl. apply draw_spec in Hd as (_ & _ & _ & _ & Hm & _).
    revert Hf. apply same_requests; [done|]. rewrite Hm. eauto.
  - intros w w' Ho. destruct (others_later _ _ Ho) as [Hl _]. apply same_requests; [done|].
    destruct Ho as [(? & _ & ->)|[[? ->]|[? ->]]]; simpl; eauto.
Qed.
Local Notation I := (within (ledger vouched) unfinished requests_asked).
Local Notation "'fine' p" := (ok I me p) (at level 10, p at level 9).
Local Hint Resolve rs_create rs_get rs_sread rs_delete rs_update rs_complete rs_fail rs_list rs_count rs_ocreate rs_oget
  rs_oread rs_bycode rs_mark rs_odelete rs_cleanup rs_challenge rs_answer : ok.
#[local] Instance vouched_respects t1 m1 t2 m2 t3 :
  Respects (memorySessions t1 m1) (memoryOAuth t2 m2) (memoryChallenges t3) I me (fun _ => False).
Proof.
  destruct (memory_respects vouched me t1 m1 t2 m2 t3).
  split; intros; first [apply keeping_within; [apply _|by apply codes_keeping] | apply ok_within; [apply _|by auto] | done].
Qed.
Lemma now_vouched {A} w (p : prog A) : (unfinished w -> ok (ledger vouched) me p) -> safe I me (fun _ _ => True) w p.
Proof. intros Hp. eapply safe_weaken; [apply safe_within; [apply _|intros Hb; by apply Hp]|done]. Qed.

Local Ltac quiet := eapply (safe_bind _ _ (fun _ _ => True));
  [apply (fine_plain _ _ (@rs_op _ _ _ _ _ _ _ _ (vouched_respects 0 0 0 0 0))); reflexivity|intros ?w ?x _ _ _|done].
Lemma safe_session id w : safe I me (fun _ r => forall x, r = Ok (Some x) -> x = id) w (InMemory.GetSession id).
Proof.
  unfold InMemory.GetSession. quiet. destruct x; [|by intros ? _ _ y].
  own. quiet. case_match; [|intros ? _ _ y; naive_solver].
  eapply (safe_bind _ _ (fun _ _ => True)); [apply (rs_delete (Respects := vouched_respects 0 0 0 0 0))| |done].
  by intros w3 _ _ _ _ w4 _ _ y.
Qed.
(** What the verifier is shown is the request of the session. *)
Definition verified (id jwz : string) (w : World) (r : result (result string)) : Prop :=
  match r with
  | Ok (Ok d) => exists t req, (t <= w_now w)%Z /\ asked w id req /\ VerifyJWZ t jwz req (ac_VerifierID cfg) = Ok d
  | _ => True
  end.
Lemma safe_verified id jwz w :
  safe I me (verified id jwz) w
    (t ← now; auth ← op (MRead id); mret (VerifyJWZ t jwz (se_AuthRequest auth) (ac_VerifierID cfg))).
Proof.
  cbn. intros w1 _ _ w2 R2 [Hi Hf] ch x w3 Hx. change (exec first_row me ch (MRead id) w2 = (x, w3)) in Hx.
  rewrite exec_local in Hx by done. injection Hx as <- <-. split; [done|]. cbn. intros w4 R4 _.
  destruct (VerifyJWZ _ _ _ _) as [d|] eqn:Ev; [|done]. apply rely_is_later in R2, R4. eexists _, _. split_and!; [| |exact Ev].
  - destruct R2 as [? _ _ _], R4 as [? _ _ _]. lia.
  - eapply asked_later; [exact R4|]. destruct (ms_objs (w_memory w2) !! id) as [s|] eqn:Es; [by apply Hf|by left].
Qed.

Lemma not_mocked jwz : mockDID cfg jwz = None.
Proof using Hprod. unfold mockDID. simpl. rewrite Hprod. simpl. by rewrite andb_false_r. Qed.
Lemma vouched_silent n creds o p :
  cf_calls c !! n = Some (HSilentComplete creds o, p) -> fine (serve (HSilentComplete creds o)).
Proof.
  intros Hn. cbn [AuthProps.serve]. destruct (silent_next cfg j Memory_ (ledger vouched) me vouched creds o) as (next & -> & Hf).
  apply (timed_middleware j bcrypt Memory_ I me (fun _ => False)). intros claims w Hp. apply now_vouched. intros [Ht _ _ _]. apply Hf.
  eexists n, _, p. split; [exact Hn|]. destruct Hp as (token & secret & t & cl & ? & ? & ? & ? & ?).
  exists token, secret, t, cl. split_and!; [done..|lia|done|done].
Qed.
Lemma vouched_callback n a o jwz p :
  cf_calls c !! n = Some (HOAuthCallback a o jwz, p) -> fine (serve (HOAuthCallback a o jwz)).
Proof using Hprod.
  intros Hn. cbn [AuthProps.serve]. unfold handleOAuthCallback. case_match; [walk|].
  apply ok_bind; [apply (rs_oget (Respects := vouched_respects 0 0 0 0 0))|]. intros [h|]; [|walk].
  apply ok_bind; [apply (rs_oread (Respects := vouched_respects 0 0 0 0 0))|]. intros s. case_match; [walk|]. intros w.
  eapply safe_bind; [apply safe_session| |done]. intros w1 [ah|] _ _ Ha; [|done]. rewrite (Ha ah eq_refl). clear Ha.
  destruct jwz as [jwz|]; [|done]. case_match; [done|]. rewrite not_mocked.
  eapply safe_bind; [apply (safe_verified a jwz)| |done]. intros w2 [d|] _ _ Hd; [|done]. apply now_vouched. intros Hb.
  apply (fine_known cfg Memory_ (ledger vouched) me vouched). eexists n, _, p. split; [exact Hn|]. destruct Hd as (t & req & Ht & Hq & Hv). exists t, req.
  split_and!; [destruct Hb as [? _ _ _]; lia|by eapply asked_later|done].
Qed.
End vouched.

Definition redeemed_vouched (c : Config Op World Call Reply) (i : nat) (k : Call) (w : World) (r : result Reply) : Prop :=
  match k with HToken q => unfinished c w -> redeemed j (vouched c) i (tr_Code q) w r | _ => True end.
Lemma vouched_serve c i k p w : IsProduction raw = true -> cf_calls c !! i = Some (k, p) ->
  safe (within (ledger (vouched c)) (unfinished c) requests_asked) i (redeemed_vouched c i k) w (serve k).
Proof.
  intros Hp Hi. assert (IsProduction cfg = true) as Hc by done. destruct k; try (eapply safe_weaken; [first [by eapply vouched_silent | by eapply vouched_callback]|done]);
    try (eapply safe_weaken; [apply ok_within; [apply until_now|]|done];
         apply (fine_serve cfg j bcrypt Memory_ _ i (vouched c)); intros d; cbn [names]; rewrite ?Hc; naive_solver).
  apply safe_within; [apply until_now|]. intros _. apply safe_exchange.
Qed.

(** C9: with the stores in memory, and in production, from an empty memory on: if
    the token endpoint answers with tokens, the access token and the refresh token
    are signed for a user for whom one of the calls made so far presented an
    access token that is signed with one of the secrets and was valid at a time
    that has passed, or presented a wallet proof that the verifier accepted for
    that user at a time that has passed, for an authorization request that was
    given to the very login session the call names (or for none, when it was given
    none yet). *)
Theorem tokens_need_authentication w c i q a r :
  IsProduction raw = true -> starting w -> ms_objs (w_memory w) = ∅ ->
  rtc (step serve) {| cf_world := w; cf_calls := [] |} c ->
  cf_calls c !! i = Some (HToken q, Ret (Ok (RTokens a r))) ->
  (exists claims n k p, SignedString (j_accessSecret j) claims = Ok a /\
     cf_calls c !! n = Some (k, p) /\ vouches (cf_world c) k (tc_Subject claims)) /\
  (exists claims n k p, SignedString (j_refreshSecret j) claims = Ok r /\
     cf_calls c !! n = Some (k, p) /\ vouches (cf_world c) k (tc_Subject claims)).
Proof.
  intros Hp Hw Hm Hs H. pose proof (until_now c) as Hu.
  pose proof (within_inv (ledger (vouched c)) (unfinished c) requests_asked) as Hinv.
  destruct (reached serve (within (ledger (vouched c)) (unfinished c) requests_asked) (redeemed_vouched c) w c) as [_ Hq].
  - intros n w' k p Hn _. by eapply vouched_serve.
  - split; [intros _; by apply starting_ledger|]. intros id s. by rewrite Hm, lookup_empty.
  - done.
  - destruct (Hq _ _ _ H (@reflexivity _ later _ _) a r eq_refl) as (_ & (ca & Ha & n & k & p & Hk & Hn) & (cr & Hr & n' & k' & p' & Hk' & Hn')).
    split; [exists ca, n, k, p|exists cr, n', k', p']; auto.
Qed.
End codes.

(** ** Revoked refresh tokens *)
Section refresh.
Context `{TC : TimestampColumn} `{FR : FirstRow}.
Context `{JW : Jwt} `{PV : PrivadoVerifier} `{NU : NetURL} `{SG : Signer} `{XT : ExpiryText}.
Context (cfg : AuthConfig) (j : JWTService) (bcrypt : string -> string -> bool) (b : Backend).
Local Notation serve := (serve cfg j bcrypt b).

(** The row of this hash is revoked or gone. *)
Definition dead (hash : string) (w : World) : Prop :=
  match w_refresh w !! hash with Some r => rt_Revoked r = true | None => True end.
(** A token with this hash was saved since [w0]. *)
Definition saved_since (hash : string) (w0 w : World) : Prop :=
  exists l, w_history w = (l ++ w_history w0)%list /\ Saved hash ∈ l.
Lemma saved_later hash w0 w w' : later w w' -> saved_since hash w0 w -> saved_since hash w0 w'.
Proof.
  intros [_ _ [l' E] _] (l & Hl & Hin). exists (l' ++ l)%list. rewrite E, Hl, app_assoc. split; [done|set_solver].
Qed.

Section invariant.
Context (hash : string) (w0 : World).
Definition buried (w : World) : Prop := later w0 w /\ (dead hash w \/ saved_since hash w0 w).
Lemma perform_dead {X} me (e : Op X) w :
  dead hash w -> let w' := (perform first_row me e w).2 in dead hash w' \/ w_history w' = Saved hash :: w_history w.
Proof.
  unfold dead. intros Hd. destruct e; simpl; try (left; repeat case_match; by simplify_eq/=).
  - destruct (decide (hash0 = hash)) as [->|]; [by right|left]. by rewrite lookup_insert_ne.
  - left. destruct (decide (hash0 = hash)) as [->|]; [|by rewrite lookup_alter_ne]. rewrite lookup_alter_eq.
    by destruct (w_refresh w !! hash).
  - left. rewrite lookup_fmap. destruct (w_refresh w !! hash); [|done]. simpl. by case_match.
  - left. rewrite map_lookup_filter. destruct (w_refresh w !! hash); [|done]. simpl. by case_guard.
Qed.
Lemma buried_perform {X} me (e : Op X) w : buried w -> buried (perform first_row me e w).2.
Proof.
  intros [Hl Hd]. pose proof (frame_later _ _ _ (perform_frame me e w)) as Hl'. split; [by etrans|].
  destruct Hd as [Hd|Hs]; [|right; by eapply saved_later]. destruct (perform_dead me e w Hd) as [|Hh]; [by left|right].
  destruct Hl as [_ _ [l E] _]. exists (Saved hash :: l). rewrite Hh, E. split; [done|by left].
Qed.
Lemma buried_keeping {X} me (e : Op X) : keeping buried me e.
Proof.
  intros c w Hw. change (buried (exec first_row me c e w).2). unfold exec.
  destruct (if local e then None else ch_fault c) as [[err []]|]; simpl; by try apply buried_perform.
Qed.
#[local] Instance buried_inv : Inv buried.
Proof.
  split.
  - intros w w' Ho [Hl Hd]. destruct (others_later _ _ Ho) as [Hl' Hh]. split; [by etrans|].
    destruct Hd as [Hd|Hs]; [|right; by eapply saved_later]. left. unfold dead in *.
    by destruct Ho as [(dt & _ & ->)|[[s ->]|[lost ->]]].
  - intros i w u w' Hw [Hl Hd]. pose proof (draw_is_later _ _ _ _ Hw) as Hl'. split; [by etrans|].
    destruct Hd as [Hd|Hs]; [|right; by eapply saved_later]. left. unfold dead in *.
    by apply draw_spec in Hw as (_ & _ & _ & _ & _ & -> & _).
Qed.
Lemma buried_ok {A} me (p : prog A) : ok buried me p.
Proof. intros w. apply safe_every. induction p; simpl; auto using buried_keeping. Qed.

Definition unrefreshed (w : World) (r : result Reply) : Prop :=
  forall a b', r = Ok (RTokens a b') -> saved_since hash w0 w.
Lemma safe_dead token me w : HashToken token = hash -> safe buried me unrefreshed w (handleRefresh j token).
Proof.
  intros Hh. eapply safe_bind; [apply buried_ok| |done]. intros w1 [[]|claims] _ _ _; [by intros ? _ _ a b'..|].
  rewrite Hh. intros w2 R2 H2 c x w3 Hx. split; [by eapply exec_keeping, Hx; [apply buried_keeping|]|].
  destruct x as [[stored|]|]; [|by intros ? _ _ a b'..]. cbn [prog_bind_ handle].
  destruct (rt_Revoked stored) eqn:Er; [by intros ? _ _ a b'|].
  assert (saved_since hash w0 w3) as Hs.
  { change (exec first_row me c (GetRefreshToken hash) w2 = (Ok (Some stored), w3)) in Hx. unfold exec in Hx.
    destruct (if local _ then None else ch_fault c) as [[err []]|]; simplify_eq/=.
    destruct H2 as [_ [Hd|Hs]]; [|done]. unfold dead in Hd. rewrite H in Hd. congruence. }
  eapply safe_weaken; [apply (safe_stable _ _ (saved_since hash w0)); [apply saved_later|done|apply buried_ok]|].
  by intros w' r _ [Hs' _] a b' _.
Qed.
End invariant.

(** C10: once a refresh token is revoked, or its row is gone, no call made from then
    on refreshes with it, whatever runs meanwhile and on either backend, unless a
    token with the same hash is saved again. *)
Theorem revoked_refresh_is_dead c1 c2 i token a r :
  dead (HashToken token) (cf_world c1) -> rtc (step serve) c1 c2 ->
  (length (cf_calls c1) <= i)%nat -> cf_calls c2 !! i = Some (HRefresh token, Ret (Ok (RTokens a r))) ->
  saved_since (HashToken token) (cf_world c1) (cf_world c2).
Proof.
  intros Hd Hs Hi H. set (I := buried (HashToken token) (cf_world c1)). pose proof (buried_inv (HashToken token) (cf_world c1)).
  set (Q := fun n k => match k with
    | HRefresh t => if decide (t = token /\ (length (cf_calls c1) <= n)%nat)
                    then unrefreshed (HashToken token) (cf_world c1) else fun _ _ => True
    | _ => fun _ _ => True end).
  destruct (reachable_good serve I Q c1 c2) as [HI Hq]; [|done| |].
  - intros n w k p _ _. subst Q. simpl. destruct k; try apply buried_ok.
    case_decide as Ht; [|apply buried_ok]. destruct Ht as [-> _]. by apply safe_dead.
  - split; [split; [done|by left]|]. intros n k p Hn. subst Q. simpl. destruct k; try apply buried_ok.
    case_decide as Ht; [|apply buried_ok]. apply lookup_lt_Some in Hn. lia.
  - specialize (Hq i _ _ H). subst Q. simpl in Hq. rewrite decide_True in Hq by done.
    by eapply (Hq (cf_world c2) ltac:(reflexivity) HI).
Qed.
End refresh.

(** ** Revoked access tokens *)
#[export] Instance Creds_eq : EqDecision Creds.
Proof. solve_decision. Defined.
(** The calls that go through the JWT middlewares. *)
Definition credentials (k : Call) : option Creds :=
  match k with
  | HAuthorize creds _ _ _ | HSilentComplete creds _ | HLinkChallenge creds | HLinkVerify creds _ _ _ | HUnlink creds _ => Some creds
  | _ => None
  end.
Section access.
Context `{TC : TimestampColumn} `{FR : FirstRow}.
Context `{JW : Jwt} `{PV : PrivadoVerifier} `{NU : NetURL} `{SG : Signer} `{XT : ExpiryText}.
Context (cfg : AuthConfig) (j : JWTService) (bcrypt : string -> string -> bool) (b : Backend).
Local Notation serve := (serve cfg j bcrypt b).

Section invariant.
Context (w0 : World).
(** A revocation that was on record at the start, or was recorded since. *)
Definition known (hash : string) (expires : Z) (w : World) : Prop :=
  (exists s, w_revoked w0 !! hash = Some (s, expires)) \/ Barred hash expires ∈ w_history w.
(** The revocation is on record, or the token's own time is over. *)
Definition barred (hash : string) (expires : Z) (w : World) : Prop :=
  (exists s, w_revoked w !! hash = Some (s, expires)) \/ (expires < w_now w)%Z.
Record register (w : World) : Prop := {
  R_kept hash expires : known hash expires w -> barred hash expires w;
  R_rows hash s expires : w_revoked w !! hash = Some (s, expires) -> known hash expires w }.
Lemma known_later hash expires w w' : later w w' -> known hash expires w -> known hash expires w'.
Proof. intros Hl [?|?]; [by left|right]. by eapply did_later. Qed.
Lemma register_start : w_history w0 = [] -> register w0.
Proof. intros Hh. split; [|left; eauto]. intros hash e [?|H]; [by left|]. rewrite Hh in H. set_solver. Qed.

Definition forgets {X} (e : Op X) : bool := match e with DeleteExpiredRevoked _ => true | _ => false end.
Lemma register_same w w' :
  later w w' -> (forall h e, known h e w' -> known h e w) -> w_revoked w' ⊆ w_revoked w ->
  (forall h s e, w_revoked w !! h = Some (s, e) -> w_revoked w' !! h = Some (s, e) \/ (e < w_now w')%Z) ->
  register w -> register w'.
Proof.
  intros Hl Hk Hr He [H1 H2]. split.
  - intros h e [[s Hs]|Ht]%Hk%H1.
    + destruct (He _ _ _ Hs); [left; eauto|by right].
    + right. pose proof (later_now _ _ Hl). lia.
  - intros h s e Hs. eapply known_later; [done|]. eapply H2, lookup_weaken; done.
Qed.
Lemma register_perform {X} me (e : Op X) w : forgets e = false -> register w -> register (perform first_row me e w).2.
Proof.
  intros Hf Hw. pose proof (frame_later _ _ _ (perform_frame me e w)) as Hl. revert Hl.
  destruct e; try done; simpl; repeat case_match; simpl; intros Hl;
    try (refine (register_same w _ Hl _ _ _ Hw); simpl; [|done|by auto]; unfold known; simpl; set_solver).
  pose proof Hw as [H1 H2]. split.
  - intros h e [Hk|[[= -> ->]|Hk]%elem_of_cons].
    + destruct (H1 h e) as [[s Hs]|]; [by left|left|by right]. exists s. simpl. rewrite lookup_insert_ne; [done|congruence].
    + left. exists subject. simpl. by rewrite lookup_insert_eq.
    + destruct (H1 h e) as [[s Hs]|]; [by right|left|by right]. exists s. simpl. rewrite lookup_insert_ne; [done|congruence].
  - intros h s e. simpl. intros [[<- [= <- <-]]|[_ Hs]]%lookup_insert_Some; [right; by left|].
    eapply known_later; [done|by eapply H2].
Qed.
Lemma exec_register {X} me c (e : Op X) w :
  register w -> register (perform first_row me e w).2 -> register (exec first_row me c e w).2.
Proof. intros Hw Hp. unfold exec. by destruct (if local e then None else ch_fault c) as [[err []]|]. Qed.
Lemma register_keeping {X} me (e : Op X) : forgets e = false -> keeping register me e.
Proof. intros Hf c w Hw. apply (exec_register me c e w Hw). by apply register_perform. Qed.
#[local] Instance register_inv : Inv register.
Proof.
  split.
  - intros w w' Ho. destruct (others_later _ _ Ho) as [Hl Hh].
    apply register_same; [done|intros h e; unfold known; by rewrite Hh| |].
    all: by destruct Ho as [(dt & _ & ->)|[[s ->]|[lost ->]]]; eauto.
  - intros i w u w' Hd. pose proof (draw_is_later _ _ _ _ Hd) as Hl.
    apply draw_spec in Hd as (_ & _ & _ & Hh & _ & _ & Hr & _).
    apply register_same; [done|intros h e; unfold known; by rewrite Hh|by rewrite Hr|rewrite Hr; eauto].
Qed.

Context (me : nat).
Local Notation "'fine' p" := (ok register me p) (at level 10, p at level 9).
Lemma counts_forgets {X} (e : Op X) : counts e = false -> forgets e = false.
Proof. by destruct e. Qed.
Lemma fine_unforgetting {X} (e : Op X) : forgets e = false -> fine (op e).
Proof. intros. by apply fine_op, register_keeping. Qed.
Local Hint Resolve fine_unforgetting register_keeping : ok.
Local Hint Extern 1 (forgets _ = false) => reflexivity : ok.
Lemma fine_all es : Forall (fun e => forgets e = false) es -> fine (ops es).
Proof. induction 1; cbn [ops]; walk. Qed.
Local Hint Extern 1 (fine (ops _)) => (apply fine_all; by repeat constructor) : ok.
Lemma fine_list t ids : fine (InMemory.infos t ids).
Proof. induction ids; cbn [InMemory.infos]; walk. Qed.
Lemma fine_keys ids : fine (InRedis.Redis_infos ids).
Proof. induction ids; cbn [InRedis.Redis_infos]; walk. Qed.
Local Hint Resolve fine_list fine_keys : ok.
(** The clean-up forgets what expired before it read the clock. *)
Lemma register_forget t w : (t <= w_now w)%Z -> register w -> register (perform first_row me (DeleteExpiredRevoked t) w).2.
Proof.
  intros Ht. apply register_same; [apply (frame_later me), perform_frame|done|apply map_filter_subseteq|].
  intros h s e Hs. destruct (decide (e < t)%Z); [right; simpl; lia|left]. simpl. apply map_lookup_filter_Some. by split.
Qed.
Lemma fine_cleanup : fine CleanupExpiredTokens.
Proof.
  intros w w1 _ H1. eapply (safe_bind _ _ (fun _ _ => True)); [apply ok_call; auto with ok| |done].
  intros w2 [] L2 H2 _ w3 R3 H3 c x w4 Hx. split; [|done]. change w4 with (x, w4).2. rewrite <- Hx.
  apply (exec_register me c _ w3 H3), register_forget; [|done]. apply rely_is_later in R3. simpl.
  pose proof (later_now _ _ L2). pose proof (later_now _ _ R3). lia.
Qed.
Local Instance register_respects : Respects (sessionsOf b) (oauthOf b) (challengesOf b) register me (fun _ => True).
Proof.
  split; intros; [by apply register_keeping, counts_forgets|..].
  all: destruct b; lazy beta iota delta [CreateSession GetSession sread DeleteSession UpdateSession CompleteSession FailSession
    ListSessions Count OAuth_CreateSession OAuth_GetSession oread GetSessionByCode SetCode MarkCodeUsed OAuth_DeleteSession
    CreateChallenge GetChallenge memorySessions memoryOAuth memoryChallenges redisSessions redisOAuth redisChallenges
    sessionsOf oauthOf challengesOf]; first [apply fine_cleanup | walk].
Qed.


(** From when the revocation is known. *)
Section known.
Context (hash : string) (expires : Z).
Local Notation J := (fun w => register w /\ known hash expires w).
Lemma join {A} (p : prog A) w : fine p -> safe J me (fun _ _ => True) w p.
Proof. intros Hp. apply safe_join; [apply known_later|apply Hp]. Qed.

(** Turned away, or too late to matter. *)
Definition refused (w : World) (r : result Reply) : Prop :=
  forall x, r = Ok x -> (exists code msg, x = RError code msg /\ (code = 401 \/ code = 500)%Z) \/ (expires < w_now w)%Z.
Lemma refused_now code msg w : (code = 401 \/ code = 500)%Z -> safe J me refused w (respond (RError code msg)).
Proof. intros Hc w' _ _ x [= <-]. left. eauto. Qed.
Lemma late_later (w w' : World) : later w w' -> (expires < w_now w)%Z -> (expires < w_now w')%Z.
Proof. intros [? _ _ _]. lia. Qed.
Lemma refused_late w (p : prog Reply) : (expires < w_now w)%Z -> fine p -> safe J me refused w p.
Proof.
  intros Hl Hp. eapply safe_weaken; [apply (safe_stable _ _ (fun w => expires < w_now w)%Z); [apply late_later|done|by apply join]|].
  intros w' r _ [? _] x _. by right.
Qed.
(** The check of the table: only a token whose time is over gets past it. *)
Lemma safe_barred w (next : prog Reply) : fine next ->
  safe J me refused w (handle (op (IsAccessTokenRevoked hash)) (fun revoked =>
    match revoked with
    | Err _ => respond (RError 500 "failed to check token revocation")
    | Ok true => respond (RError 401 "token revoked")
    | Ok false => next
    end)).
Proof.
  intros Hn w1 R1 [H1 K1] c x w2 Hx. split.
  { split; [by eapply exec_keeping, Hx; [apply register_keeping|]|]. eapply known_later; [|done].
    exact (frame_later _ _ _ (exec_frame _ _ _ _ _ _ Hx)). }
  destruct x as [[]|]; [apply refused_now; auto| |apply refused_now; auto]. apply refused_late; [|done].
  change (exec first_row me c (IsAccessTokenRevoked hash) w1 = (Ok false, w2)) in Hx. unfold exec in Hx.
  destruct (if local _ then None else ch_fault c) as [[err []]|]; simplify_eq/=.
  destruct (R_kept _ H1 _ _ K1) as [[s Hs]|]; [|done]. rewrite bool_decide_eq_false, Hs in H. destruct H. by eexists.
Qed.
Lemma fine_validate token : fine (ValidateAccessToken j token).
Proof. apply ok_bind; [walk|]. intros [[]|]; [walk|apply fine_previous|walk]. Qed.
Lemma safe_middleware creds token next w :
  extractAccessToken creds = Some token -> HashToken token = hash -> (forall c, fine (next c)) ->
  safe J me refused w (JWTAuthMiddleware j creds next).
Proof.
  intros He Hh Hn. unfold JWTAuthMiddleware. rewrite He. case_bool_decide; [apply refused_now; auto|].
  eapply (safe_bind _ _ (fun _ _ => True)); [apply join, fine_validate|intros w1 [err|c] _ _ _|done].
  - destruct err; apply refused_now; auto.
  - rewrite Hh. by apply safe_barred.
Qed.
Lemma safe_optional creds token next w :
  extractAccessToken creds = Some token -> token <> "" -> HashToken token = hash -> (forall c, fine (next c)) ->
  safe J me refused w (OptionalJWTAuthMiddleware j creds next).
Proof.
  intros He Ht Hh Hn. unfold OptionalJWTAuthMiddleware. rewrite He, bool_decide_false by done.
  eapply (safe_bind _ _ (fun _ _ => True)); [apply join, fine_validate|intros w1 [err|c] _ _ _|done].
  - destruct err; apply refused_now; auto.
  - rewrite Hh. apply safe_barred. walk.
Qed.

Lemma fine_silently o a d kyc failed done_ :
  (forall c, fine (done_ c)) -> fine (completeOAuth (SM := SM b) (OM := OM b) o a d kyc failed done_).
Proof. intros. by apply (fine_complete b register me (fun _ => True)). Qed.
Local Hint Resolve rs_create rs_delete rs_update rs_oget rs_oread rs_odelete rs_ocreate rs_challenge rs_answer fine_silently : ok.
Lemma safe_refused k creds token w :
  credentials k = Some creds -> extractAccessToken creds = Some token -> token <> "" -> HashToken token = hash ->
  safe J me refused w (serve k).
Proof.
  intros Hk He Ht Hh. pose proof register_respects as RS. change (Respects (SM b) (OM b) (CM b) register me (fun _ => True)) in RS.
  destruct k; try done; injection Hk as ->; cbn [AuthProps.serve].
  - eapply safe_optional; [done..|]. walk.
  - eapply safe_middleware; [done..|]. walk.
  - eapply safe_middleware; [done..|]. walk.
  - eapply safe_middleware; [done..|]. walk.
  - eapply safe_middleware; [done..|]. walk.
Qed.
End known.
End invariant.

(** C21: once an access token is on the revocation list, every call that is made from
    then on with it is answered 401 or 500, whatever runs meanwhile (the periodic
    clean-up too) and on either backend, until the expiry on the list has passed. *)
Theorem revoked_access_is_refused w c1 c2 i k creds token subject expires reply :
  w_history w = [] -> rtc (step serve) {| cf_world := w; cf_calls := [] |} c1 ->
  w_revoked (cf_world c1) !! HashToken token = Some (subject, expires) -> rtc (step serve) c1 c2 ->
  (length (cf_calls c1) <= i)%nat -> cf_calls c2 !! i = Some (k, Ret (Ok reply)) ->
  credentials k = Some creds -> extractAccessToken creds = Some token -> token <> "" ->
  (exists code msg, reply = RError code msg /\ (code = 401 \/ code = 500)%Z) \/ (expires < w_now (cf_world c2))%Z.
Proof.
  intros Hw Hs1 Hr Hs2 Hi H Hk He Ht. pose proof (register_inv w).
  assert (forall n k, ok (register w) n (serve k)) as Hok.
  { intros n k'. by apply (fine_serve cfg j bcrypt b _ n (fun _ => True) (RS := register_respects w n)). }
  apply register_start in Hw. destruct (reached serve (register w) (fun _ _ _ _ => True) w c1) as [Hc1 _]; [by intros; apply Hok|done..|].
  eapply (reached_again serve (register w) (known w (HashToken token) expires)
    (fun k w r => credentials k = Some creds -> refused expires w r) w c1 c2); try done; [apply known_later| |by eapply R_rows].
  intros n w' k'. destruct (decide (credentials k' = Some creds)) as [E|].
  - eapply safe_weaken; [by eapply safe_refused|]. done.
  - eapply safe_weaken; [apply join, Hok|]. done.
Qed.
End access.
