(* ===== verification/Scenario.v ===== *)
(** * A concrete deployment.

    Two organizations with one contract each, three users, an anonymous group
    and an empty operator registry: the inputs at which the properties of the
    other files are instantiated. *)
From S2P Require Import Prelude GoStrings Methods Models Requests OrgContext Db Resolver.
From S2P Require Import ResolverProps Cache SqlCache PublishGuard ResolverGuard Writes Access.
From S2P Require Import AccessProps AccessClaims Requests Trace Deployments.
Local Open Scope string_scope.

Module Demo.

Definition addrA : string := "0xaaaaaaaaaaaaaaaaaaaaaaaaaaaaaaaaaaaaaaaa".
Definition addrB : string := "0xbbbbbbbbbbbbbbbbbbbbbbbbbbbbbbbbbbbbbbbb".
Definition addrI : string := "0xcccccccccccccccccccccccccccccccccccccccc".

Definition alice : User :=
  {| u_ID := "u-alice"; u_ExternalID := "did:alice"; u_KYC := true; u_Banned := false |}.
Definition bob : User :=
  {| u_ID := "u-bob"; u_ExternalID := "did:bob"; u_KYC := true; u_Banned := false |}.
Definition carol : User :=
  {| u_ID := "u-carol"; u_ExternalID := "did:carol"; u_KYC := true; u_Banned := false |}.

Definition orgA : Organization := {| o_ID := "org-a"; o_Slug := "alpha" |}.
Definition orgD : Organization := {| o_ID := "org-default"; o_Slug := "default" |}.
Definition orgB : Organization := {| o_ID := "org-b"; o_Slug := "beta" |}.
Definition groupA : Group :=
  {| g_ID := "g-a"; g_OrgID := "org-a"; g_ParentID := None;
     g_IsOrgAdmin := false; g_IsSystem := false |}.
Definition groupAdm : Group :=
  {| g_ID := "g-adm"; g_OrgID := "org-a"; g_ParentID := None;
     g_IsOrgAdmin := true; g_IsSystem := false |}.
Definition groupB : Group :=
  {| g_ID := "g-b"; g_OrgID := "org-b"; g_ParentID := None;
     g_IsOrgAdmin := false; g_IsSystem := false |}.

Definition groupD : Group :=
  {| g_ID := DefaultGroupID; g_OrgID := "org-default"; g_ParentID := None; g_IsOrgAdmin := false; g_IsSystem := false |}.

Definition contract (id org addr : string) : Contract :=
  {| c_ID := id; c_OrgID := org; c_Address := addr; c_ABI := ""; c_DeployedByUserID := None; c_AllowVisibleToUnlock := true |}.

Definition db : Database := {|
  db_organizations := [orgA; orgB; orgD];
  db_groups := [groupA; groupAdm; groupB; groupD];
  db_contracts := [contract "c-a" "org-a" addrA; contract "c-i" "org-a" addrI;
                   contract "c-b" "org-b" addrB];
  db_contract_grants := [{| cg_ID := "gr-a"; cg_ContractID := "c-a"; cg_GroupID := "g-a"; cg_Functions := None;
                            cg_EventRules := None |}];
  db_group_access := [
    {| ga_GroupID := "g-a";
       ga_AllowedMethods := ["eth_call"; "eth_sendTransaction"; "eth_getLogs"; "eth_getStorageAt"];
       ga_Claims := [ClaimDeploy; ClaimUpgrade]; ga_RPCAPIKey := Some "key-a" |};
    {| ga_GroupID := AnonymousGroupID; ga_AllowedMethods := ["eth_chainId"]; ga_Claims := [];
       ga_RPCAPIKey := None |}];
  db_users := [alice; bob; carol];
  db_user_memberships := [
    {| um_UserID := "u-alice"; um_GroupID := "g-a"; um_ExpiresAt := Some 1000%Z |};
    {| um_UserID := "u-carol"; um_GroupID := "g-adm"; um_ExpiresAt := None |};
    {| um_UserID := "u-bob"; um_GroupID := "g-b"; um_ExpiresAt := None |}];
  db_preregistered_addresses := [];
  db_eth_address_links := [];
  db_fault := fun _ => None |}.

(** The first row of a result set. *)
Definition row1 (A : Type) (l : list A) : option A := head l.

Lemma row1_picks : picks_row row1.
Proof.
  split; intros A l; destruct l as [|x l]; unfold row1; simpl; [done| |done|done].
  intros y [= <-]. constructor.
Qed.

Definition now : Z := 10.
Definition ctx : Ctx := {| ctx_now := now; ctx_viewscope := None |}.
Definition store : Store := DbStore row1 now db.

(** No stored key is encrypted here. *)
Definition noDecrypt (_ _ : string) : result string := Err "no cipher".

Definition compute (u o : string) : result EffectivePermissions :=
  @computePermissions store noDecrypt "" 300 ctx "id-1" u o.

Definition perms : PermissionSource :=
  {| ResolvePermissionsCacheable u o := p ← compute u o; Ok (p, true) |}.

(** An ABI without methods. *)
Definition abi : ABI := {|
  ParsedABI := unit; ABIMethod := unit; abi_JSON _ := Ok tt;
  MethodById _ _ := Err "no method"; Unpack _ _ := Ok [] |}.

Definition iter (m : gmap string cacheEntry) : list string := map fst (map_to_list m).

Lemma iter_enumerates : enumerates iter.
Proof.
  intros m k. unfold iter. rewrite list_elem_of_fmap. split.
  - intros ([k' e] & -> & He%elem_of_map_to_list). eauto.
  - intros [e He]. exists (k, e). by rewrite elem_of_map_to_list.
Qed.

(** A fresh controller whose cache holds four entries. *)
Definition start : Controller := {|
  ctl_anonAccess := None; ctl_anonAccessExpires := zeroTime; ctl_cache := NewCache 0 4 |}.

Definition check (req : AccessCheckRequest) : result AccessCheckResult * Controller :=
  @CheckAccess store abi perms emptyRegistries iter ctx req start.

Definition request (user method : string) (params : list any) (target selector : string)
  : AccessCheckRequest := {|
  rq_UserExternalID := user; rq_OrgSlug := ""; rq_OrgID := ""; rq_Method := method;
  rq_AccessMethod := ""; rq_Params := params; rq_TargetAddress := target;
  rq_FunctionSelector := selector; rq_Calldata := None; rq_RequiredClaims := [];
  rq_BypassCache := false |}.

Definition callObj (to data : string) : any :=
  AObj (<["to" := AStr to]> (<["data" := AStr data]> ∅)).

(** eth_call of alice on the contract of her organization *)
Definition callA : AccessCheckRequest :=
  request "did:alice" "eth_call" [callObj addrA "0x12345678"; AStr "latest"] addrA "0x12345678".

(** the same call on the contract of the other organization *)
Definition callB : AccessCheckRequest :=
  request "did:alice" "eth_call" [callObj addrB "0x12345678"; AStr "latest"] addrB "0x12345678".

Definition deploy : AccessCheckRequest :=
  request "did:alice" "eth_sendTransaction" [AObj (<["data" := AStr "0x6000"]> ∅)] "" "".

Definition readSlot : AccessCheckRequest :=
  request "did:alice" "eth_getStorageAt"
    [AStr addrA; AStr "0xb53127684a568b3173ae13b9f8a6016e243e63b6e8ee1178d6a717850b5d6103";
     AStr "latest"] addrA "".

Definition getLogs : AccessCheckRequest :=
  request "did:alice" "eth_getLogs" [AObj (<["address" := AStr addrA]> ∅)] addrA "".

(** [upgradeTo(addrI)] *)
Definition upgradeData : string :=
  "0x3659cfe6000000000000000000000000cccccccccccccccccccccccccccccccccccccccc".
Definition upgrade : AccessCheckRequest :=
  request "did:alice" "eth_sendTransaction" [callObj addrA upgradeData] addrA "0x3659cfe6".

Definition anonymous : AccessCheckRequest := request "" "eth_chainId" [] "" "".

Definition admin_call : AccessCheckRequest :=
  request "did:alice" "admin_nodeInfo" [] "" "".

(** The result of a check that returned one. *)
Definition outcomeOf (req : AccessCheckRequest) : AccessCheckResult :=
  match fst (check req) with Ok r => r | Err e => deny e end.
Definition after (req : AccessCheckRequest) : Controller := snd (check req).
End Demo.
Import Demo.

(** ** The access decision *)

Ltac evaluates := vm_compute; reflexivity.

Lemma blocked_requests_denied_without_lookup_witness :
  exists reason, check admin_call = (Ok (deny reason), start).
Proof.
  apply (@blocked_requests_denied_without_lookup store abi perms emptyRegistries iter ctx
           admin_call start).
  left. evaluates.
Defined.

Lemma anonymous_access_exact_witness :
  rs_Allowed (outcomeOf anonymous) = true /\
  rs_UserID (outcomeOf anonymous) = "" /\ rs_Claims (outcomeOf anonymous) = [].
Proof.
  destruct (@anonymous_access_exact store abi perms emptyRegistries iter ctx anonymous start
              (outcomeOf anonymous) (after anonymous) eq_refl) as (_ & Hu & _ & _ & Hc);
    [evaluates|]. split; [evaluates|]. split; [exact Hu|exact Hc].
Defined.

Lemma only_valid_users_allowed_witness :
  exists user, @GetUserByExternalID store "did:alice" = Ok (Some user) /\ u_Banned user = false.
Proof.
  destruct (@only_valid_users_allowed store abi perms emptyRegistries iter ctx callA start
              (outcomeOf callA) (after callA)) as (user & Hu & Hb & _);
    [discriminate|evaluates|evaluates|]. exists user. split; [exact Hu|exact Hb].
Defined.

Lemma deployment_requires_claim_and_bytecode_witness :
  ClassifyCallShape (rq_Params deploy) = CallShapeCreation.
Proof.
  destruct (@deployment_requires_claim_and_bytecode store abi perms emptyRegistries iter ctx deploy
              start (outcomeOf deploy) (after deploy)) as (user & org & oc & p & _ & _ & Hs & _);
    [discriminate|evaluates|evaluates|evaluates|evaluates|]. exact Hs.
Defined.

Lemma storage_reads_confined_witness :
  exists user orgs p a, @access_basis store readSlot user p orgs a.
Proof.
  destruct (@storage_reads_confined store abi perms emptyRegistries iter ctx readSlot start
              (outcomeOf readSlot) (after readSlot)) as (user & org & oc & p & a & _ & Hb & _);
    [discriminate|evaluates|evaluates|evaluates|evaluates|].
  exists user, (oc_userOrgIDs oc), p, a. exact Hb.
Defined.

Lemma not_owned_by_nobody : ~ ("" ∈ owners db (targetKey callA)).
Proof. apply (bool_decide_unpack _). vm_compute. exact I. Qed.

Lemma cross_org_isolation_witness :
  exists user, user ∈ db_users db /\ u_ExternalID user = "did:alice" /\
    (owners db (targetKey callA) = [] \/
     exists o, o ∈ owners db (targetKey callA) /\ active_member now db (u_ID user) o /\
               (forall v, ctx_viewscope ctx = Some v -> o = v)).
Proof.
  apply (@cross_org_isolation row1 now db abi perms emptyRegistries iter ctx callA start
           (outcomeOf callA) (after callA) row1_picks);
    [discriminate|evaluates|vm_compute; discriminate|apply not_owned_by_nobody|evaluates|evaluates].
Defined.

Lemma outcome_attributed_to_own_org_witness :
  rs_OrgID (outcomeOf callB) = "" \/
  exists user, user ∈ db_users db /\ u_ExternalID user = "did:alice" /\
    active_member now db (u_ID user) (rs_OrgID (outcomeOf callB)).
Proof.
  destruct (@outcome_attributed_to_own_org row1 now db abi perms emptyRegistries iter ctx callB start
              (outcomeOf callB) (after callB) row1_picks) as [He|(user & Hin & Hext & Hact & _)];
    [discriminate|evaluates|left; exact He|].
  right. exists user. split; [exact Hin|]. split; [exact Hext|exact Hact].
Defined.

Lemma get_logs_confined_witness :
  exists filterObj, rq_Params getLogs !! 0 = Some (AObj filterObj) /\
    extractGetLogsAddresses filterObj <> [].
Proof.
  destruct (@get_logs_confined row1 now db abi perms emptyRegistries iter ctx getLogs start
              (outcomeOf getLogs) (after getLogs) row1_picks)
    as (user & org & oc & p & f & _ & Hf & Hne & _); [discriminate|evaluates|evaluates|evaluates|evaluates|].
  exists f. split; [exact Hf|exact Hne].
Defined.

Lemma contract_calls_are_covered_witness :
  exists user orgs p a, @access_basis store callA user p orgs a /\
    functionsAllow (ca_Functions a) "0x12345678" = true.
Proof.
  destruct (@contract_calls_are_covered store abi perms emptyRegistries iter ctx callA start
              (outcomeOf callA) (after callA)) as (user & org & oc & p & a & _ & Hb & _ & Hf);
    [discriminate|evaluates|evaluates|evaluates|evaluates|discriminate|evaluates|evaluates|].
  exists user, (oc_userOrgIDs oc), p, a. split; [exact Hb|]. apply Hf. discriminate.
Defined.

Definition upgradeCalldata : list Ascii.ascii :=
  match DecodeString (drop_str 2 upgradeData) with Some d => d | None => [] end.

Lemma proxy_upgrades_confined_witness :
  exists org impl,
    extractImplementationAddress "3659cfe6" upgradeCalldata = Ok impl /\
    @IsAddressOwnedByOrg store impl (o_ID org) = Ok true.
Proof.
  destruct (@proxy_upgrades_confined store abi perms emptyRegistries iter ctx upgrade start
              (outcomeOf upgrade) (after upgrade) upgradeCalldata)
    as (user & org & oc & p & a & impl & _ & _ & _ & Hi & Ho);
    [discriminate|evaluates|evaluates|evaluates|evaluates|discriminate|evaluates
    |vm_compute; lia|evaluates|evaluates|evaluates|].
  exists org, impl. split; [exact Hi|exact Ho].
Defined.

Definition permsA : EffectivePermissions :=
  match compute "u-alice" "org-a" with Ok p => p | Err _ => {|
    ep_ID := ""; ep_UserID := ""; ep_OrgID := ""; ep_AllowedMethods := [];
    ep_ContractAccess := ∅; ep_Claims := []; ep_RPCAPIKey := ""; ep_ComputedAt := 0;
    ep_ExpiresAt := 0 |} end.

Definition orgCtxA : OrgContext :=
  {| oc_org := Some orgA; oc_user := alice; oc_userOrgIDs := {["org-a"]};
     oc_ownerOrgCache := {[addrA := "org-a"]} |}.

Lemma granted_call_is_allowed_witness :
  check callA = (Ok (stamp orgA alice (allowIn orgA alice permsA)), after callA).
Proof.
  apply (@granted_call_is_allowed store abi perms emptyRegistries iter ctx callA start alice orgA
           orgCtxA permsA (after callA)
           {| ca_Claims := [ClaimDeploy; ClaimUpgrade]; ca_Functions := None;
              ca_EventRules := None |});
    first [evaluates|discriminate|vm_compute; discriminate].
Defined.

Lemma permissions_from_live_source_witness : cache_reachable iter (ctl_cache (after callA)).
Proof.
  apply (@permissions_from_live_source store abi perms iter ctx callA alice orgA start permsA
           (after callA) iter_enumerates); [constructor|evaluates].
Defined.

(** ** Method gates and request classification *)

Lemma forwardable_methods_are_safe_witness : IsMethodBlocked "eth_call" = false.
Proof.
  apply (forwardable_methods_are_safe emptyRegistries "eth_call"); [constructor|evaluates].
Defined.

Lemma wildcard_expansion_exact_witness :
  HasMethod emptyRegistries (withMethods permsA (ExpandWildcardMethods emptyRegistries ["*"]))
    "eth_call" = HasMethod emptyRegistries (withMethods permsA ["*"]) "eth_call".
Proof. apply (wildcard_expansion_exact emptyRegistries permsA ["*"] "eth_call"). constructor. Defined.

Lemma executing_call_is_gated_witness :
  IsContractDeployment "eth_call" (rq_Params callA) = true \/
  GetTargetAddress "eth_call" (rq_Params callA) <> "".
Proof.
  apply (executing_call_is_gated "eth_call" (rq_Params callA)); [constructor|discriminate].
Defined.

Lemma state_override_detection_exact_witness :
  DetectStateOverride emptyRegistries "eth_call" (rq_Params callA) = None <->
  length (rq_Params callA) <= 4 /\ block_ref (rq_Params callA) 1 /\
  no_override (rq_Params callA) 2 /\ no_override (rq_Params callA) 3.
Proof.
  apply (state_override_detection_exact emptyRegistries "eth_call" (rq_Params callA));
    [evaluates|reflexivity].
Defined.

(** ** The resolver *)

Definition membershipsOf (u o : string) : list MembershipWithDetails :=
  match @ListUserMembershipsInOrg store u o with Ok ms => ms | Err _ => [] end.

Lemma resolved_contract_access_is_union_witness :
  exists batch, @loadGroupPerms store (membershipGroupIDs [groupA]) true = Ok batch /\
    forall k, is_Some (ep_ContractAccess permsA !! k) <->
      exists g grant, g ∈ [groupA] /\ grantOn batch (g_ID g) k grant.
Proof.
  destruct (@resolved_contract_access_is_union store noDecrypt "" 300 ctx "id-1" "u-alice" "org-a"
              permsA (membershipsOf "u-alice" "org-a") [groupA]) as (batch & Hb & Hk & _);
    [evaluates|evaluates|discriminate|evaluates|evaluates|].
  exists batch. split; [exact Hb|exact Hk].
Defined.

Lemma resolved_functions_are_union_witness :
  exists batch, @loadGroupPerms store (membershipGroupIDs [groupA]) true = Ok batch.
Proof.
  destruct (@resolved_functions_are_union store noDecrypt "" 300 ctx "id-1" "u-alice" "org-a"
              permsA (membershipsOf "u-alice" "org-a") [groupA]) as (batch & Hb & _);
    [evaluates|evaluates|discriminate|evaluates|evaluates|].
  exists batch. exact Hb.
Defined.

Definition contractsA : list Contract :=
  [contract "c-i" "org-a" addrI; contract "c-a" "org-a" addrA].

Definition permsAdm : EffectivePermissions :=
  match compute "u-carol" "org-a" with Ok p => p | Err _ => permsA end.

Lemma org_admin_holds_all_claims_witness : ep_Claims permsAdm = AllClaims.
Proof.
  apply (@org_admin_holds_all_claims store noDecrypt "" 300 ctx "id-1" "u-carol" "org-a" permsAdm
           (membershipsOf "u-carol" "org-a") [groupAdm] contractsA); evaluates.
Defined.

Lemma permissions_expire_with_memberships_witness : (ep_ExpiresAt permsA <= 310)%Z.
Proof.
  apply (@permissions_expire_with_memberships store noDecrypt "" 300 ctx "id-1" "u-alice" "org-a"
           permsA (membershipsOf "u-alice" "org-a")); evaluates.
Defined.

(** ** Caches *)

Definition cached : Cache := Set_ iter 10 permsA (NewCache 0 4).

Lemma cache_hit_is_live_and_bounded_witness :
  cacheKey (ep_UserID permsA) (ep_OrgID permsA) = cacheKey "u-alice" "org-a".
Proof.
  apply (cache_hit_is_live_and_bounded iter cached 20 "u-alice" "org-a" permsA
           (snd (Get 20 "u-alice" "org-a" cached)) iter_enumerates).
  - eapply creach_step; [apply (creach_new _ 0 4)|apply step_set].
  - evaluates.
Defined.

Definition emptySql : SqlCache := {| sc_generation := 0; sc_rows := ∅ |}.

Lemma cached_permissions_roundtrip_witness :
  exists q, GetCachedPermissions 10 "u-alice" "org-a" (setCachedPermissions permsA emptySql) = Some q.
Proof.
  destruct (cached_permissions_roundtrip permsA 10 emptySql) as (q & Hq & _); [evaluates|].
  exists q. exact Hq.
Defined.

(** An events-only grant on the contract of organization A. *)
Definition eventsOnly : ContractAccess :=
  {| ca_Claims := []; ca_Functions := Some [];
     ca_EventRules := Some {| erf_Wildcard := true; erf_Rules := [] |} |}.
Definition permsEvents : EffectivePermissions :=
  {| ep_ID := "id-2"; ep_UserID := "u-alice"; ep_OrgID := "org-a"; ep_AllowedMethods := ["eth_call"];
     ep_ContractAccess := {[addrA := eventsOnly]}; ep_Claims := []; ep_RPCAPIKey := "key-a";
     ep_ComputedAt := 0; ep_ExpiresAt := 300 |}.

Lemma cached_events_only_grant_widens_witness :
  functionsAllow (ca_Functions eventsOnly) "0x12345678" = false /\
  exists q b, GetCachedPermissions 10 "u-alice" "org-a" (setCachedPermissions permsEvents emptySql)
              = Some q /\
    ep_ContractAccess q !! addrA = Some b /\
    functionsAllow (ca_Functions b) "0x12345678" = true /\ ep_RPCAPIKey q = "".
Proof.
  apply (cached_events_only_grant_widens permsEvents addrA eventsOnly 10 emptySql "0x12345678");
    evaluates.
Defined.

(** ** The publication guard *)

Definition prog0 := computeProg noDecrypt "" 300.

Lemma publication_guard_sound_witness :
  exists (w : World Store Nonce) q p,
    GetCachedPermissions 10 "u-alice" "org-a" (w_sql w) = Some q /\ ep_Claims q = ep_Claims p /\
    exists freshID ctx,
      @computePermissions store noDecrypt "" 300 ctx freshID "u-alice" "org-a" = Ok p.
Proof.
  destruct (solo_publish prog0 store 0 ("id-1", ctx) "u-alice" "org-a" permsA)
    as (w & Hs & Hd & Hp & Hq & _); [unfold prog0; rewrite run_computeProg; evaluates|].
  destruct (publication_guard_sound noDecrypt "" 300 w) as [Hrows _];
    [apply (steps_reachable prog0 _ _ (reach_init prog0 store 0) Hs)|].
  assert (Hc : exists q, GetCachedPermissions 10 "u-alice" "org-a" (w_sql w) = Some q).
  { rewrite Hq. eexists. evaluates. }
  destruct Hc as [q Hc]. destruct (Hrows 10%Z "u-alice" "org-a" q) as (i & c & p & Hcp & _ & Hcl & _).
  - intros (pd & Hpd & _). rewrite Hp in Hpd. inversion Hpd.
  - exact Hc.
  - rewrite Hd in Hcp. exists w, q, p. split; [exact Hc|]. split; [exact Hcl|]. exists i, c. exact Hcp.
Defined.

Definition aliceTask : Task Store Nonce :=
  {| t_user := "u-alice"; t_org := "org-a"; t_pc := Lookup true |}.

Definition spawned : World Store Nonce := set_task (initial store 0) 1 aliceTask.

Lemma waiters_never_abandoned_witness :
  exists w1 t', task_step prog0 spawned aliceTask w1 t'.
Proof.
  destruct (waiters_never_abandoned noDecrypt "" 300 spawned 1 aliceTask)
    as [[r Hr]|[(w1 & t' & Hs & _)|(e & ? & ? & ? & ? & Hw & _)]].
  - eapply reach_step; [apply (reach_init prog0 store 0)|]. apply step_spawn. reflexivity.
  - reflexivity.
  - discriminate Hr.
  - exists w1, t'. exact Hs.
  - discriminate Hw.
Defined.

(** The same deployment after every membership was revoked. *)
Definition revoked : Store := DbStore row1 now {|
  db_organizations := db_organizations db; db_groups := db_groups db;
  db_contracts := db_contracts db; db_contract_grants := db_contract_grants db;
  db_group_access := db_group_access db; db_users := db_users db; db_user_memberships := [];
  db_preregistered_addresses := []; db_eth_address_links := []; db_fault := fun _ => None |}.

Lemma waiter_returns_stale_as_cacheable_witness :
  exists w3 : World Store Nonce, w_db w3 = revoked /\
    w_tasks w3 !! 2 = Some {| t_user := "u-alice"; t_org := "org-a";
                              t_pc := Returned (Ok (permsA, true)) |}.
Proof.
  destruct (waiter_returns_stale_as_cacheable noDecrypt "" 300 store revoked 0 "id-1" ctx
              "u-alice" "org-a" permsA) as (w1 & w2 & w3 & _ & _ & _ & _ & _ & _ & _ & _ & Hd & Ht);
    [evaluates|]. exists w3. split; [exact Hd|exact Ht].
Defined.

(** ** Traces *)

Definition traceEnv : TraceEnv := {|
  GetSharedInfrastructure _ := Ok None; codeFetcher := None;
  rangeOrgs s := elements s |}.

Lemma traceEnv_ranges : @ranges_all traceEnv.
Proof. intros s org. apply elem_of_elements. Qed.

Definition frame (ty to : string) : CallTarget := {|
  ct_Type := ty; ct_From := addrA; ct_To := to; ct_Depth := 1; ct_Error := "";
  ct_StorageAddress := to; ct_Input := "" |}.

Definition okTrace : TraceResult :=
  {| tr_CallTargets := [frame "CALL" addrA; frame "DELEGATECALL" addrI];
     tr_HasCreate := false; tr_HasCreate2 := false |}.
Definition badTrace : TraceResult :=
  {| tr_CallTargets := [frame "CALL" addrA; frame "STATICCALL" addrB];
     tr_HasCreate := false; tr_HasCreate2 := false |}.

Definition validate (tr : TraceResult) : result TraceValidationResult :=
  @ValidateTrace store traceEnv {["org-a"]} false noOptions (Some tr).

Definition resultOf (tr : TraceResult) : TraceValidationResult :=
  match validate tr with Ok r => r | Err e => denyTrace e DenialKindNone "" end.

Lemma allowed_trace_is_isolated_witness :
  exists fresh, @frame_ok store traceEnv {["org-a"]} false noOptions fresh [frame "CALL" addrA]
                  (frame "DELEGATECALL" addrI).
Proof.
  destruct (@allowed_trace_is_isolated store traceEnv {["org-a"]} false noOptions okTrace
              (resultOf okTrace) traceEnv_ranges) as (_ & fresh & _ & Hf); [evaluates|evaluates|].
  exists fresh. apply (Hf [frame "CALL" addrA] (frame "DELEGATECALL" addrI) []); reflexivity.
Defined.

Lemma trace_denials_are_opaque_witness :
  tv_Reason (resultOf badTrace) = ErrContractAccessDenied \/
  tv_Reason (resultOf badTrace) = "runtime contract creation requires deploy claim" /\
  false = false.
Proof.
  apply (@trace_denials_are_opaque store traceEnv {["org-a"]} false noOptions (Some badTrace)
           (resultOf badTrace)); evaluates.
Defined.

(** ** Writes, deployments and provisioning *)

Definition tables : Tables := {| t_db := db; t_cache := emptySql |}.

Lemma revokes_are_commits_witness :
  step prog0 (initial store 0)
    (set_tables (initial store 0)
       (DbStore row1 now (t_db (snd (DeleteContractGrantAndInvalidate "gr-a" "g-a" tables))))
       (t_cache (snd (DeleteContractGrantAndInvalidate "gr-a" "g-a" tables))) []).
Proof.
  apply (revokes_are_commits row1 now noDecrypt "" 300 (initial store 0) tables
           (snd (DeleteContractGrantAndInvalidate "gr-a" "g-a" tables))
           (DeleteContractGrantAndInvalidate "gr-a" "g-a")); [reflexivity|reflexivity| |evaluates].
  right. left. exists "gr-a", "g-a". split; [reflexivity|]. intros g Hg _.
  apply list_elem_of_singleton in Hg. subst g. reflexivity.
Defined.

Definition pendingA : PendingDeployment := {|
  dp_TxHash := "0xtx"; dp_OrgID := "org-a"; dp_SubmittedAt := 5; dp_IsPlainCreate := true;
  dp_PreRegisteredAddr := "0xdddddddddddddddddddddddddddddddddddddddd";
  dp_DeployerUserID := "u-alice" |}.

Definition server : Server := {|
  sv_ctl := start;
  sv_tracker := {| tk_pending := {["0xtx" := pendingA]}; tk_maxAge := 3600 |};
  sv_tables := tables |}.

Definition addrD : string := "0xDDDDdddddddddddddddddddddddddddddddddddd".

Lemma server_ready : ready now db "c-new" addrD pendingA.
Proof.
  assert (Hc : Forall (fun c => c_ID c <> "c-new" /\ ToLower (c_Address c) <> ToLower addrD)
                 (db_contracts db)).
  { repeat constructor; vm_compute; discriminate. }
  rewrite Forall_forall in Hc. split.
  - intros name. reflexivity.
  - exists orgA. split; [left|reflexivity].
  - exists alice. split; [left|reflexivity].
  - intros c Hin. apply Hc, Hin.
  - intros c Hin _. apply Hc, Hin.
  - vm_compute. discriminate.
Qed.

Lemma mined_deployment_is_callable_witness :
  exists s' p, @computePermissions (DbStore row1 now (t_db (sv_tables s'))) noDecrypt "" 300 ctx "id-9"
                 "u-alice" "org-a" = Ok p /\ is_Some (ep_ContractAccess p !! ToLower addrD).
Proof.
  destruct (mined_deployment_is_callable row1 (fun _ => false) now noDecrypt "" 300 "c-new" "gr-new"
              "0xtx" addrD pendingA server row1_picks) as (s' & _ & _ & _ & _ & _ & Hp);
    [discriminate|reflexivity|reflexivity|discriminate|discriminate|vm_compute; lia
    |apply server_ready|].
  destruct (Hp ctx "id-9") as (p & H1 & H2). exists s', p. split; [exact H1|exact H2].
Defined.

Lemma notification_is_consumed_witness :
  NotifyDeploymentMined row1 (fun _ => false) now "c-2" "gr-2" "0xtx" addrD
    (snd (NotifyDeploymentMined row1 (fun _ => false) now "c-new" "gr-new" "0xtx" "" server)) =
  (Ok tt, snd (NotifyDeploymentMined row1 (fun _ => false) now "c-new" "gr-new" "0xtx" "" server)).
Proof.
  apply (notification_is_consumed row1 (fun _ => false) now "c-new" "gr-new" "0xtx" "" server
    (fst (NotifyDeploymentMined row1 (fun _ => false) now "c-new" "gr-new" "0xtx" "" server))).
  reflexivity.
Defined.

Lemma users_unique : unique_external_ids db.
Proof.
  intros x y Hx Hy. unfold db, db_users in Hx, Hy. rewrite !elem_of_cons, elem_of_nil in Hx, Hy.
  destruct Hx as [->|[->|[->|[]]]], Hy as [->|[->|[->|[]]]]; intros He; reflexivity || discriminate He.
Qed.

Definition provisioned : result User * Server :=
  EnsureUserExists row1 "u-new" "did:new" true false server.

Lemma user_provisioning_is_idempotent_witness :
  EnsureUserExists row1 "u-other" "did:new" false true (snd provisioned) =
  (Ok {| u_ID := "u-new"; u_ExternalID := "did:new"; u_KYC := true; u_Banned := false |},
   snd provisioned).
Proof.
  apply (user_provisioning_is_idempotent row1 "u-new" "did:new" true false server
           {| u_ID := "u-new"; u_ExternalID := "did:new"; u_KYC := true; u_Banned := false |}
           (snd provisioned) row1_picks users_unique). evaluates.
Defined.
