(* ===== verification/AuditScenario.v ===== *)
(** * A concrete audit log, and concrete request bodies.

    The inputs at which the properties of the audit chain, its checkpoints and
    its buffer are instantiated, and executions that show where they end. *)
From S2P Require Import Prelude GoStrings Sha256 AuditChain AuditVerify AuditProps AuditTamper.
From S2P Require Import AuditBuffer.
From Stdlib Require Import Ascii.
Local Open Scope string_scope.

Module Audit.

Definition d0 : AuditDb := {|
  db_access_logs := []; db_access_seq := 1; db_rbac_log := []; db_rbac_seq := 1; db_anchors := ∅;
  db_checkpoints := []; db_reanchors := [] |}.
Definition recA : AccessLogRecord := {|
  lr_ExternalID := "did:alice"; lr_Method := "eth_call"; lr_StatusCode := 200; lr_IPAddress := "10.0.0.1";
  lr_CorrelationID := "c1"; lr_Params := None; lr_ResponseStatus := None; lr_OrgID := "org-a";
  lr_DenialReason := "" |}.
Definition recB : AccessLogRecord := {|
  lr_ExternalID := "did:bob"; lr_Method := "eth_getLogs"; lr_StatusCode := 403; lr_IPAddress := "10.0.0.2";
  lr_CorrelationID := ""; lr_Params := Some "{}"; lr_ResponseStatus := Some 200%Z; lr_OrgID := "";
  lr_DenialReason := "no_grant" |}.
Definition io (now : Z) (out : insert_result) : write_io :=
  {| io_now := now; io_nextval := true; io_insert := out |}.

(** Two chained rows, then a prune of the first. *)
Definition s1 : string * AuditDb := (LogAccessChained (io 1000000 InsertOk) recA ("", d0)).2.
Definition s2 : string * AuditDb := (LogAccessChained (io 9000000 InsertOk) recB s1).2.
Definition s3 : string * AuditDb := (s2.1, (CleanupAccessLogs 5000 s2.2).2).

Lemma reached_log w rec s :
  io_insert w <> InsertLost -> chain_reached ChainNameAccessLogs s ->
  chain_reached ChainNameAccessLogs (LogAccessChained w rec s).2.
Proof.
  intros Hw Hs. destruct s as [head d].
  exact (reached_step _ _ _ Hs (step_log _ w rec head d eq_refl Hw)).
Qed.

Lemma s2_reached : chain_reached ChainNameAccessLogs s2.
Proof.
  apply reached_log; [done|]. apply reached_log; [done|]. apply reached_fresh. by repeat split.
Qed.

Lemma s2_rows : Forall (fun r => ar_chain_name r = ChainNameAccessLogs) (db_access_logs s2.2) /\
  StronglySorted time_le (db_access_logs s2.2) /\ StronglySorted id_lt (db_access_logs s2.2).
Proof.
  split; [apply (bool_decide_unpack _); by vm_compute|].
  split; vm_compute; repeat constructor; by intros.
Qed.

Lemma audited_chain_verifies_witness :
  exists r, verifyOneAccessLogChain healthy ChainNameAccessLogs s3.2 = (Some r, None) /\
    vr_OK r = true /\ vr_TailHash r = s3.1 /\
    GetLatestAccessLogHashForChain ChainNameAccessLogs s3.2 = s3.1.
Proof.
  apply (audited_chain_verifies ChainNameAccessLogs s3.1 s3.2).
  destruct s2_rows as (Hsole & Ht & _).
  refine (reached_step _ s2 _ s2_reached _). rewrite (surjective_pairing s2).
  exact (step_cleanup _ 5000 s2.1 s2.2 eq_refl (proj1 (Forall_forall _ _) Hsole) Ht).
Defined.

(** ** Tampering *)

(** A table that differs in a column outside the hashed content. *)
Definition relabel (r : AccessRow) : AccessRow :=
  accessRow {| lr_ExternalID := ar_external_id r; lr_Method := ar_method r;
    lr_StatusCode := ar_status_code r; lr_IPAddress := ar_ip_address r;
    lr_CorrelationID := default "" (ar_correlation_id r); lr_Params := ar_request_params r;
    lr_ResponseStatus := ar_response_status r; lr_OrgID := "org-z"; lr_DenialReason := "" |}
    (ar_id r) (ar_created_at r) (ar_entry_hash r) (ar_buffer_seq r) (ar_chain_name r).
Definition relabelled : AuditDb := with_access (relabel <$> db_access_logs s2.2) s2.2.

Definition checked (d : AuditDb) : Result :=
  default newResult (verifyOneAccessLogChain healthy ChainNameAccessLogs d).1.

Lemma tampering_needs_a_collision_witness :
  audited <$> chainRows ChainNameAccessLogs s2.2 = audited <$> chainRows ChainNameAccessLogs relabelled \/
  collision (hash_inputs "" (vrowOfAccess <$> chainRows ChainNameAccessLogs s2.2))
            (hash_inputs "" (vrowOfAccess <$> chainRows ChainNameAccessLogs relabelled)).
Proof.
  apply (tampering_needs_a_collision ChainNameAccessLogs s2.2 relabelled (checked s2.2) (checked relabelled));
    try (vm_compute; reflexivity).
  apply (bool_decide_unpack _). vm_compute. reflexivity.
Defined.

(** A change of an audited field is reported at its row. *)
Definition forge (r : AccessRow) : AccessRow :=
  accessRow {| lr_ExternalID := ar_external_id r; lr_Method := ar_method r; lr_StatusCode := 200;
    lr_IPAddress := ar_ip_address r; lr_CorrelationID := default "" (ar_correlation_id r);
    lr_Params := ar_request_params r; lr_ResponseStatus := ar_response_status r;
    lr_OrgID := default "" (ar_org_id r); lr_DenialReason := default "" (ar_denial_reason r) |}
    (ar_id r) (ar_created_at r) (ar_entry_hash r) (ar_buffer_seq r) (ar_chain_name r).
Definition forged : AuditDb := with_access (forge <$> db_access_logs s2.2) s2.2.

Example forgery_is_reported :
  vr_OK (checked forged) = false /\ vr_FirstMismatchID (checked forged) = 2%Z /\
  vr_FirstMismatchReason (checked forged) = ReasonHashMismatch.
Proof. vm_compute. done. Qed.

(** ** Truncation and break-glass *)
Definition signer : Signer := HMACSigner "default" (bytes "secret").
#[export] Instance signer_correct : CorrectSigner signer := HMACSigner_correct _ _.

Definition checkpointed : AuditDb :=
  match takeCheckpoint signer ChainNameAccessLogs 9500000 s2.2 with Ok d => d | Err _ => d0 end.
Definition truncated : AuditDb := with_access (take 1 (db_access_logs checkpointed)) checkpointed.
Definition headRow : AccessRow := default (accessRow recA 0 0 None None "") (last (db_access_logs s2.2)).

Lemma truncation_is_reported_witness :
  vr_OK (verifyAccessLogs None (fun _ => healthy) (Some signer) truncated).1 = false.
Proof.
  apply (truncation_is_reported signer ChainNameAccessLogs 9500000 s2.2 checkpointed truncated headRow);
    try (vm_compute; reflexivity).
  - done.
  - vm_compute. repeat constructor; by intros.
  - apply Forall_forall, (bool_decide_unpack _). vm_compute. reflexivity.
Defined.

Definition restored : result ReAnchor * AuditDb :=
  BreakGlassReAnchor signer ChainNameAccessLogs "ops" "restored from backup" 10000000 10000001
    (InsertOk, InsertOk, InsertOk) forged.

Lemma break_glass_restores_witness :
  exists r res, restored.1 = Ok r /\
    verifyOneAccessLogChain healthy ChainNameAccessLogs restored.2 = (Some res, None) /\ vr_OK res = true.
Proof.
  assert (Hs : StronglySorted id_lt (db_access_logs forged)) by (vm_compute; repeat constructor; by intros).
  destruct restored as [[r|e] d'] eqn:E.
  - destruct (break_glass_restores signer _ _ _ _ _ _ _ _ _ Hs E) as [(res & Hv & Hok & _) _].
    exists r, res. by split_and!.
  - exfalso. assert (Hok : is_ok restored.1 = true) by (vm_compute; reflexivity). by rewrite E in Hok.
Defined.

(** ** The buffer *)
Definition chain : string := "access_logs:pod-1".
Definition b2 : Buffer.t AccessLogRecord :=
  (Buffer.Append recB false (Buffer.Append recA false (Buffer.Open [])).2).2.
Definition h2 : list (Z * AccessLogRecord) := [(1%Z, recA); (2%Z, recB)].

Definition tick (out : insert_result) : Sealer.tick_io write_io := {|
  Sealer.ti_highWater := false; Sealer.ti_drain := false; Sealer.ti_seal := fun _ => io 1000000 out;
  Sealer.ti_delete := false |}.
Definition acked (now : Z) : acknowledged :=
  exist (fun io => io_insert io <> InsertLost) (io now InsertOk) ltac:(discriminate).
Definition tickAck : Sealer.tick_io acknowledged := {|
  Sealer.ti_highWater := false; Sealer.ti_drain := false;
  Sealer.ti_seal := fun _ => acked 1000000;
  Sealer.ti_delete := false |}.

Section run.
Context {IO : Type} (seal : IO -> Z -> AccessLogRecord -> stM (string * AuditDb) unit)
  (sink_inv : string * AuditDb -> Prop).
Notation run := (reached Some seal (highWater chain) (sealed chain) sink_inv).

Lemma run_two : sink_inv ("", d0) -> run (b2, ("", d0), h2).
Proof.
  intros Hi.
  pose proof (reached_init Some seal (highWater chain) (sealed chain) sink_inv _ Hi eq_refl) as H0.
  pose proof (reached_next _ _ _ _ _ _ _ H0 (step_append Some seal (highWater chain) recA false
    (Buffer.Open []) ("", d0) [] (mk_is_Some _ _ eq_refl) eq_refl)) as H1.
  exact (reached_next _ _ _ _ _ _ _ H1 (step_append Some seal (highWater chain) recB false
    (Buffer.Append recA false (Buffer.Open [])).2 ("", d0) [(1%Z, recA)] (mk_is_Some _ _ eq_refl) eq_refl)).
Qed.

Lemma run_tick batch t b w h :
  run (b, w, h) ->
  run ((Sealer.Tick seal (highWater chain) batch t (b, w)).2.1,
       (Sealer.Tick seal (highWater chain) batch t (b, w)).2.2, h).
Proof.
  intros Hr. pose proof (step_tick Some seal (highWater chain) batch t b w h) as Hs.
  destruct (Sealer.Tick _ _ _ _ _) as [r [b' w']]. exact (reached_next _ _ _ _ _ _ _ Hr Hs).
Qed.
End run.

(** One entry sealed with its acknowledgement lost, then the other. *)
Definition p3 := (Sealer.Tick (sealFn Some chain) (highWater chain) 1 (tick InsertLost) (b2, ("", d0))).2.
Definition p4 := (Sealer.Tick (sealFn Some chain) (highWater chain) 500 (tick InsertOk) (p3.1, p3.2)).2.

Lemma sealed_once_in_order_witness :
  StronglySorted Z.lt (fst <$> sealed chain p4.2) /\
  readBack Some <$> h2 =
    ((found <$> sealed chain p4.2) ++
     (readBack Some <$> unsealed (highWater chain p4.2) (Buffer.db p4.1)))%list.
Proof.
  apply (sealed_once_in_order Some chain p4.1 p4.2 h2). apply run_tick, run_tick, run_two.
  intros r Hr. by apply not_elem_of_nil in Hr.
Defined.

Definition q3 := (Sealer.Tick (sealAcknowledged Some chain) (highWater chain) 500 tickAck (b2, ("", d0))).2.

Lemma sealed_chain_verifies_witness :
  exists r, verifyOneAccessLogChain healthy chain q3.2.2 = (Some r, None) /\
    vr_OK r = true /\ vr_TailHash r = q3.2.1 /\ GetLatestAccessLogHashForChain chain q3.2.2 = q3.2.1.
Proof.
  apply (sealed_chain_verifies Some chain q3.1 q3.2 h2). apply run_tick, run_two.
  apply (chain_reached_inv chain ("", d0)), reached_fresh. by repeat split.
Defined.

Lemma buffer_drains_witness :
  Buffer.PendingCount (ticks (sealFn Some chain) (highWater chain) 1 [tick InsertOk; tick InsertOk]
    (b2, ("", d0))).1 = 0.
Proof.
  apply (buffer_drains Some chain 1 _ b2 ("", d0) h2).
  - apply run_two. intros r Hr. by apply not_elem_of_nil in Hr.
  - intros r Hr. by apply not_elem_of_nil in Hr.
  - lia.
  - by repeat constructor.
  - done.
  - vm_compute. lia.
Defined.

(** ** Where the guarantees end *)
Definition tick500 := Sealer.Tick (sealFn Some chain) (highWater chain) 500 (tick InsertOk).

(** A buffer that was drained before a restart numbers its entries from one
    again, below the high-water mark: the next tick deletes them unsealed. *)
Theorem drained_restart_loses_entries :
  let '(b, w) := (tick500 ((Buffer.Append recA false (Buffer.Open [])).2, ("", d0))).2 in
  let '(r, b) := Buffer.Append recB false (Buffer.Open (Buffer.db b)) in
  let '(b', w') := (tick500 (b, w)).2 in
  r = Ok 1%Z /\ Buffer.PendingCount b = 1 /\ Buffer.PendingCount b' = 0 /\ sealed chain w' = [(1%Z, recA)].
Proof. vm_compute. done. Qed.

(** Two concurrent appends whose writes complete out of order, with a tick in
    between: the entry with the lower number is deleted unsealed. *)
Theorem out_of_order_append_is_lost :
  let '(sA, b) := Buffer.allocate (Buffer.Open []) in
  let '(sB, b) := Buffer.allocate b in
  let '(_, b) := Buffer.commit sB recB false b in
  let '(b, w) := (tick500 (b, ("", d0))).2 in
  let '(r, b) := Buffer.commit sA recA false b in
  let '(b', w') := (tick500 (b, w)).2 in
  r = Ok 1%Z /\ Buffer.PendingCount b' = 0 /\ sealed chain w' = [(2%Z, recB)].
Proof. vm_compute. done. Qed.

(** A write that took effect without its acknowledgement leaves the writer one
    row behind: the next row forks the chain, and the verifier rejects it. *)
Theorem lost_acknowledgement_forks_the_chain :
  let s := (LogAccessChained (io 1000000 InsertLost) recA ("", d0)).2 in
  let d := (LogAccessChained (io 2000000 InsertOk) recB s).2.2 in
  vr_OK (checked d) = false /\ vr_FirstMismatchReason (checked d) = ReasonHashMismatch.
Proof. vm_compute. done. Qed.

(** The fallback after a refused chained write inserts a row without a hash
    into the chain: the verifier rejects it. *)
Theorem fallback_row_breaks_the_chain :
  let '(r, (_, d)) := LogAccessChained (io 1000000 InsertFailed) recA ("", d0) in
  let d := (LogAccess (io 1000000 InsertOk) "did:alice" "eth_call" 200 "10.0.0.1" d).2 in
  is_ok r = false /\ vr_FirstMismatchReason (checked d) = ReasonNullEntryHash.
Proof. vm_compute. done. Qed.

(** Two instances share the numbers of the index on [buffer_seq]: the second
    cannot seal its first entry. *)
Theorem instances_collide_on_buffer_seq :
  let d := (SealBufferedAccessLog (io 1000000 InsertOk) recA 1 "access_logs:pod-1" ("", d0)).2.2 in
  (SealBufferedAccessLog (io 1000000 InsertOk) recB 1 "access_logs:pod-2" ("", d)).1 =
    Err "insert access_logs: unique violation".
Proof. vm_compute. done. Qed.

(** A prune anchors the default chain only: the chain of an instance that loses
    a row no longer verifies. *)
Theorem prune_breaks_instance_chains :
  let s := (SealBufferedAccessLog (io 1000000 InsertOk) recA 1 chain ("", d0)).2 in
  let s := (SealBufferedAccessLog (io 9000000 InsertOk) recB 2 chain s).2 in
  let d := (CleanupAccessLogs 5000 s.2).2 in
  (vr_OK <$> (verifyOneAccessLogChain healthy chain s.2).1) = Some true /\
  (vr_OK <$> (verifyOneAccessLogChain healthy chain d).1) = Some false.
Proof. vm_compute. done. Qed.

(** A chain whose rows are all pruned is reported as truncated. *)
Theorem full_prune_is_reported_as_truncation :
  let d := (CleanupAccessLogs 10000 checkpointed).2 in
  let r := (verifyAccessLogs None (fun _ => healthy) (Some signer) d).1 in
  vr_OK r = false /\ vr_FirstMismatchReason r = ReasonChainTruncated.
Proof. vm_compute. done. Qed.

Definition entry : AuditLogEntry := {|
  ae_ActorExternalID := "did:alice"; ae_Action := "create"; ae_ResourceType := "group";
  ae_ResourceID := None; ae_ResourceName := "g"; ae_OrgID := None; ae_OldValue := None;
  ae_NewValue := Some "{}"; ae_IPAddress := "10.0.0.1" |}.
Definition rbac2 : option string * AuditDb :=
  (CreateAuditLog (io 9000000 InsertOk) entry (CreateAuditLog (io 1000000 InsertOk) entry (Some "", d0)).2).2.

(** The prune of [rbac_audit_log] writes no anchor: what is left does not verify. *)
Theorem rbac_prune_breaks_the_chain :
  (vr_OK <$> (verifyRBACAuditLog healthy rbac2.2).1) = Some true /\
  (vr_OK <$> (verifyRBACAuditLog healthy (CleanupRBACAuditLogs 5000 rbac2.2).2).1) = Some false.
Proof. vm_compute. done. Qed.

(** The record of a prune of [access_logs] is a row of [rbac_audit_log] without
    a hash: that chain no longer verifies. *)
Theorem prune_record_breaks_the_rbac_chain :
  let d := cleanupByAge false 5000 (io 9000000 InsertOk) (fun _ => "{}") (with_access (db_access_logs s2.2) rbac2.2) in
  (vr_FirstMismatchReason <$> (verifyRBACAuditLog healthy d).1) = Some ReasonNullEntryHash.
Proof. vm_compute. done. Qed.

(** A FIFO sweep whose second batch fails has deleted rows and leaves no record
    of it. *)
Theorem failed_sweep_leaves_no_record :
  let d := (LogAccessChained (io 9500000 InsertOk) recA s2).2.2 in
  let d' := trimAccessLogsFIFO false (fun left => Nat.ltb left 49) 1 1 (io 9900000 InsertOk)
              (fun _ => "{}") d in
  length (db_access_logs d) = 3 /\ length (db_access_logs d') = 2 /\ db_rbac_log d' = [].
Proof. vm_compute. done. Qed.

(** A separator inside a field makes two rows with one content. *)
Theorem separator_is_ambiguous t :
  AccessLogChainContent 1 "did:a|eth_call" "x" "10.0.0.1" 200 200 t "" "" =
  AccessLogChainContent 1 "did:a" "eth_call|x" "10.0.0.1" 200 200 t "" "".
Proof. reflexivity. Qed.

End Audit.

(** ** Concrete request bodies.

    The Unicode tables are those of the letters that matter for the forwarded
    names: ASCII letters, the Kelvin sign, the long s and the two dotted and
    dotless i.  The bodies are the inputs at which the properties of the request
    envelope are instantiated. *)
From S2P Require Import Prelude GoStrings Methods Models JsonText Utf8 Envelope EnvelopeProps EnvelopeForward.
From S2P Require Import EnvelopeClaims.

Module Bodies.

#[local] Instance tables : Unicode :=
  {| SimpleFold := fun r =>
       (if (r =? 75) then 107 else if (r =? 107) then 0x212A else if (r =? 0x212A) then 75
        else if (r =? 83) then 115 else if (r =? 115) then 0x17F else if (r =? 0x17F) then 83
        else if (65 <=? r) && (r <=? 90) then r + 32 else if (97 <=? r) && (r <=? 122) then r - 32 else r)%N;
     ToUpperTable := fun r => (if r =? 0x131 then 73 else if r =? 0x17F then 83 else r)%N;
     ToLowerTable := fun r => (if r =? 0x130 then 105 else if r =? 0x212A then 107 else r)%N |}.

(** A template with apostrophes for quotes. *)
Definition json (s : string) : bytes :=
  map (fun a => if Ascii.eqb a "'" then dquote else a) (bytesOf s).

(** An escaped member name, an unknown member, metadata, another spelling of the
    method. *)
Definition call : bytes := json
  " { 'jsonrpc' : '2.0','\u0069d':1 , 'extra':[1], 'visibleTo':['a'],'method':'ETH_CALL', 'params':[{'to':'0x1'}]} ".

Definition forwardedCall : bytes :=
  json "{'jsonrpc':'2.0','id':1,'method':'eth_call','params':[{'to':'0x1'}]}".

Example call_forwarded :
  ParseAndValidateBody emptyRegistries call =
  inl ("eth_call", [AObj {["to" := AStr "0x1"]}], forwardedCall).
Proof. vm_compute. reflexivity. Qed.

(** Names that can be read in two ways. *)
Example ambiguous_names :
  ParseEnvelope (json "{'method':'a','Method':'b'}") = Err ErrAmbiguousRequest /\
  ParseEnvelope (json "{'METHOD':'b'}") = Err ErrAmbiguousRequest /\
  ParseEnvelope (json "{'method':'a','params':[{'x':[{'to':1,'\u0054o':2}]}]}") = Err ErrAmbiguousRequest /\
  ParseEnvelope (json "{'param\u017f':[]}") = Err ErrAmbiguousRequest /\
  ParseEnvelope (json "{'\u0131d':1}") = Err ErrAmbiguousRequest /\
  ParseEnvelope (json "{'method':'\ud800'}") = Err surrogateError.
Proof. vm_compute. done. Qed.

(** A variant of a request field is refused when the params are read. *)
Example variant_in_params :
  ParseAndValidateBody emptyRegistries (json "{'method':'eth_call','params':[{'To':'0x1'}]}") =
    inr {| pe_StatusCode := 400; pe_Message := "invalid JSON-RPC request" |} /\
  ParseAndValidateBody emptyRegistries (json "{'method':'eth_call','params':[{'data':'0x1','input':'0x2'}]}") =
    inr {| pe_StatusCode := 400; pe_Message := "invalid JSON-RPC request" |}.
Proof. vm_compute. done. Qed.

Lemma scan_accepts_exactly_witness : exists t, parseText call = Some t /\
  exists r, scanEnvelope call = Ok r.
Proof.
  destruct (parseText call) as [t|] eqn:E; [|vm_compute in E; discriminate].
  exists t. split; [reflexivity|]. apply (proj2 (proj1 (scan_accepts_exactly call t E))).
  vm_compute in E. injection E as <-. eexists _, _. split; [reflexivity|].
  split; [vm_compute; reflexivity|]. intros m Hm.
  repeat (apply elem_of_cons in Hm as [->|Hm]; [vm_compute; reflexivity|]). by apply not_elem_of_nil in Hm.
Defined.

Lemma envelope_never_panics_witness : ErrBatchRequest <> panicEnvelope.
Proof.
  apply (proj1 (proj2 (envelope_never_panics (json " [{'method':'a'}]") ErrBatchRequest ltac:(vm_compute; reflexivity)))).
Defined.

Lemma forwarded_body_reads_back_witness :
  exists env, ParseEnvelope forwardedCall = Ok env /\ stringOf (en_Method env) = "eth_call" /\
    memberOf (en_members env) memberVisibleTo = None.
Proof.
  destruct (forwarded_body_reads_back emptyRegistries call "eth_call" [AObj {["to" := AStr "0x1"]}] forwardedCall)
    as (_ & env & He & Hm & _ & _ & _ & Hmd); [vm_compute; reflexivity|].
  exists env. split; [exact He|]. split; [exact Hm|]. apply Hmd. intros [H|H]; discriminate H.
Defined.

End Bodies.

(** ** A concrete response.

    A token contract with one event, a viewer who is named in one transfer and
    not in the other, a block of two transactions and a receipt: the inputs at
    which the properties of the response filters are instantiated. *)
From S2P Require Import Prelude GoStrings Methods Models Json ReadDecision EventFilter.
From S2P Require Import EventFilterProps ResponseFilter ResponseFilterProps.
From Stdlib Require Import Ascii.

Module Response.

Definition token : string := "0xaaaaaaaaaaaaaaaaaaaaaaaaaaaaaaaaaaaaaaaa".
Definition viewer : string := "0xbbbbbbbbbbbbbbbbbbbbbbbbbbbbbbbbbbbbbbbb".
Definition stranger : string := "0xcccccccccccccccccccccccccccccccccccccccc".
Definition pad (addr : string) : string := "0x" +:+ repeat_zeros 24 +:+ drop_str 2 addr.

Definition topic : list ascii := replicate 32 "t"%char.
Definition addressArg : Argument := {| arg_Type := AbiType AddressTy None [] "address"; arg_Indexed := true |}.
Definition uintArg : Argument := {| arg_Type := AbiType UintTy None [] "uint256"; arg_Indexed := false |}.
Definition transfer : AbiEvent :=
  {| ev_ID := topic; ev_Anonymous := false; ev_Inputs := [addressArg; addressArg; uintArg] |}.

(** An ABI package that knows one ABI, with words as opaque values. *)
#[local] Instance demoABI : ABI :=
  {| ParsedABI := unit; ABIMethod := unit;
     abi_JSON := fun s => if decide (s = "erc20") then Ok tt else Err "abi";
     MethodById := fun _ _ => Err "no method"; Unpack := fun _ _ => Err "no method" |}.
#[local] Instance demoEventABI : EventABI :=
  {| Events := fun _ => [transfer];
     UnpackArgs := fun args data =>
       if decide (length args = 1 /\ length data = 32) then Some [EvOther "*big.Int" data] else None;
     PackArgs := fun _ vs => match vs with [EvOther _ b] => Some b | _ => None end |}.

Definition log (who : string) (tx : string) : raw := RObj [
  ("address", RStr token); ("topics", RArr [RStr (topic0Of transfer); RStr (pad who); RStr (pad stranger)]);
  ("data", RStr ("0x" +:+ repeat_zeros 64)); ("transactionHash", RStr tx)].

Definition perms : EffectivePermissions := {|
  ep_ID := "p"; ep_UserID := "u"; ep_OrgID := "o"; ep_AllowedMethods := ["eth_getLogs"];
  ep_ContractAccess := {[ token := {| ca_Claims := []; ca_Functions := None;
    ca_EventRules := Some {| erf_Wildcard := false;
      erf_Rules := [{| er_Topic0 := topic0Of transfer; er_Name := "Transfer";
                       er_ParamRules := [{| pr_Index := 0; pr_MustBe := "self" |}] |}] |} |} ]};
  ep_Claims := []; ep_RPCAPIKey := ""; ep_ComputedAt := 0; ep_ExpiresAt := 0 |}.

Definition abis : ABIProvider :=
  {| GetContractABI := fun a => if decide (a = token) then "erc20" else "";
     IsEventsAllowDynamicPayload := None |}.

Definition rng : nat -> nat -> order := fun _ _ l => l.
Definition logs : list raw := [log viewer "0x1"; log stranger "0x2"].

Lemma rng_permutes i k l : rng i k l ≡ₚ l.
Proof. done. Qed.

Lemma perms_valid : valid_perms perms.
Proof.
  intros addr access H. unfold perms in H. simpl in H.
  apply lookup_singleton_Some in H as [_ <-]. intros rule pr Hr Hp. simpl in Hr.
  apply list_elem_of_singleton in Hr as ->. simpl in Hp. apply list_elem_of_singleton in Hp as ->. simpl. lia.
Qed.

(** The viewer reads the transfer that names them and not the other. *)
Example own_transfer_only :
  FilterEventLogs rng ReadProfileStrict logs (Some perms) [viewer] (Some abis) None ∅ =
  Ok [log viewer "0x1"].
Proof. vm_compute. reflexivity. Qed.

Lemma log_filter_exact_witness :
  exists vs,
    FilterEventLogsDetailed rng ReadProfileStandard logs (Some perms) [viewer] (Some abis) None ∅ =
      Ok (omap id vs) /\ length vs = 2 /\
    forall i rawLog r, logs !! i = Some rawLog -> vs !! i = Some r ->
      forall a, r = Some a <->
        al_Raw a = rawLog /\ exists entry, unmarshalLogEntry rawLog = Some entry /\
          log_entitled perms (list_to_set (ToLower <$> [viewer])) (Some abis) None ∅ (rng i) rawLog
            entry ReadProfileStandard (al_Payload a).
Proof. exact (log_filter_exact rng _ logs perms _ _ _ _ rng_permutes perms_valid). Defined.

Lemma strict_profile_restricts_witness :
  exists out out',
    FilterEventLogs rng ReadProfileStrict logs (Some perms) [viewer] (Some abis) None ∅ = Ok out /\
    FilterEventLogs rng ReadProfileStandard logs (Some perms) [viewer] (Some abis) None ∅ = Ok out' /\
    out `sublist_of` out'.
Proof. exact (strict_profile_restricts rng _ logs perms _ _ _ _ rng_permutes perms_valid). Defined.

Lemma indexed_self_exact_witness :
  let topics := [topic0Of transfer; pad viewer; pad stranger] in
  let m := (Match id "erc20" topics "0x" {[ stranger ]} ∅).2 in
  (Match id "erc20" topics ("0x" +:+ repeat_zeros 64) {[ viewer ]} m).1 = true /\
  exists t addr, t ∈ topics /\ ToLower t = padded addr /\ "0x" +:+ addr ∈ ({[ viewer ]} : gset string).
Proof.
  intros topics m. assert (Hm : matcher_reached m) by by repeat constructor.
  assert (Ht : (Match id "erc20" topics ("0x" +:+ repeat_zeros 64) {[ viewer ]} m).1 = true)
    by (vm_compute; reflexivity).
  split; [exact Ht|].
  exact (proj2 (indexed_self_exact id "erc20" topics _ {[ viewer ]} m Hm (fun l => reflexivity l)) Ht).
Defined.

(** ** A block and a receipt *)
Definition tx (hash from to : string) : raw :=
  RObj [("hash", RStr hash); ("from", RStr from); ("to", RStr to)].
Definition txs : list raw := [tx "0x1" viewer token; tx "0x2" stranger token].
Definition blockBody : raw := RObj [
  ("number", RStr "0x10"); ("gasUsed", RStr "0x5208"); ("transactions", RArr txs)].
Definition response (result : raw) : option raw :=
  Some (RObj [("jsonrpc", RStr "2.0"); ("id", RNum "1"); ("result", result)]).
Definition parsed (result : raw) : rpcResponse :=
  {| rr_ID := Some (RNum "1"); rr_Result := Some result; rr_Error := None |}.
Definition block : gmap string raw :=
  {[ "number" := RStr "0x10"; "gasUsed" := RStr "0x5208"; "transactions" := RArr txs ]}.

Lemma block_answers : answers (response blockBody) (parsed blockBody) blockBody.
Proof. by vm_compute. Qed.

Lemma block_decodes : decode_map blockBody = Some block.
Proof. by vm_compute. Qed.

Example block_of_viewer :
  exists b, FilterBlockTransactions ReadProfileStandard (response blockBody) [viewer] false =
    rpcResult (RNum "1") (marshal_map b) /\
    b !! "transactions" = Some (RArr [RStr "0x1"]) /\ b !! "gasUsed" = Some (RStr "0x0").
Proof.
  exists {[ "number" := RStr "0x10"; "gasUsed" := RStr "0x0"; "transactions" := RArr [RStr "0x1"] ]}.
  by vm_compute.
Qed.

Lemma block_discloses_own_transactions_witness :
  exists block',
    FilterBlockTransactions ReadProfileStandard (response blockBody) [viewer] true =
      rpcResult (RNum "1") (marshal_map block') /\
    block' !! "number" = Some (RStr "0x10") /\ block' !! "gasUsed" = Some (RStr "0x0").
Proof.
  destruct (block_discloses_own_transactions ReadProfileStandard _ [viewer] true _ _ _
              block_answers block_decodes) as (b & Hb & Hagg & Hrest & _ & _).
  exists b. split; [exact Hb|]. split.
  - rewrite Hrest; [by vm_compute|]. apply (bool_decide_unpack _). by vm_compute.
  - rewrite Hagg; [by vm_compute|]. apply (bool_decide_unpack _). by vm_compute.
Defined.

Lemma count_agrees_with_listing_witness :
  exists outs block',
    FilterBlockTransactions ReadProfileStandard (response blockBody) [viewer] false =
      rpcResult (RNum "1") (marshal_map block') /\
    block' !! "transactions" = Some (RArr outs) /\
    FilterBlockTransactionCount (response blockBody) [viewer] =
      rpcResult (RNum "1") (RStr (hexCount (length outs))).
Proof.
  apply (count_agrees_with_listing ReadProfileStandard _ [viewer] false _ _ _ txs
           block_answers block_decodes); [by vm_compute|done|apply (bool_decide_unpack _); by vm_compute|].
  intros t Ht. unfold txs in Ht. repeat (apply elem_of_cons in Ht as [->|Ht]; [by vm_compute; eauto|]).
  by apply not_elem_of_nil in Ht.
Defined.

Definition receipt : raw := RObj [
  ("from", RStr viewer); ("to", RStr token); ("transactionHash", RStr "0x1");
  ("logsBloom", RStr "0xff"); ("logs", RArr [log viewer "0x1"])].

Lemma receipt_disclosure_exact_witness :
  exists admitted,
    filterReceiptLogsWithEventRules rng ReadProfileStandard [viewer] (Some perms) (Some abis) None ∅ None
      (response receipt) = Ok (rpcResult (RNum "1") (filtered_receipt None receipt admitted)).
Proof.
  destruct (receipt_disclosure_exact rng ReadProfileStandard (response receipt) (parsed receipt) receipt
    [viewer] perms (Some abis) None ∅ None viewer token "0x1" rng_permutes perms_valid)
    as (admitted & out & _ & Hout & Hadm & _); [by vm_compute..|].
  exists admitted. rewrite Hout. f_equal. apply Hadm. left. left. split; [done|]. apply (bool_decide_unpack _). by vm_compute.
Defined.

End Response.
