(* ===== verification/ComplianceScenario.v ===== *)
(** * A concrete organization under the travel rule.

    The organization, its price, threshold, records and sanctions; the checker
    evaluated on it, alone and beside another claimer; the instances of the
    theorems of [ComplianceClaims.v]. *)
From S2P Require Import Prelude GoStrings Db F64 Compliance ComplianceDb ComplianceProps ComplianceClaims.
Local Open Scope string_scope.

Module Travel.
Definition row1 (A : Type) (l : list A) : option A := head l.
Lemma head_picks : picks_row row1.
Proof. split; [by intros A [|x l] ? [= <-]; left | intros A [|x l]; naive_solver]. Qed.

Definition alice : string := "0x00000000000000000000000000000000000000aa".
Definition bob : string := "0x00000000000000000000000000000000000000bb".
Definition mallory : string := "0x00000000000000000000000000000000000000ee".
Definition token : string := "0x00000000000000000000000000000000000000cc".

Definition dollars (n : Z) : f64 := f64_of_Z n.
Definition config (mode : string) : ComplianceConfig :=
  {| cc_OrgID := "org-a"; cc_Enabled := true; cc_ThresholdFiat := dollars 1000; cc_Currency := "usd";
     cc_UnknownPricePolicy := "forbidden"; cc_EnforcementMode := mode |}.
Definition native : TokenPrice :=
  {| tp_OrgID := "org-a"; tp_TokenAddress := "native"; tp_Decimals := 18; tp_PriceFiat := dollars 2000;
     tp_PricesByCurrency := {["usd" := dollars 2000]}; tp_CoingeckoID := None |}.
Definition record (id : string) (amount created : Z) : TravelRuleRecord :=
  {| tr_ID := id; tr_OrgID := "org-a"; tr_OriginatorUserID := "u-1"; tr_TokenAddress := None;
     tr_BeneficiaryAddress := bob; tr_AmountFiat := dollars amount; tr_Currency := "usd";
     tr_ExpiresAt := 200; tr_UsedAt := None; tr_CreatedAt := created; tr_DataError := None |}.

Definition tables (mode : string) (fault : string -> option string) : ComplianceDB :=
  {| cd_configs := [config mode]; cd_tokenPrices := [native]; cd_systemPrices := [];
     cd_records := [record "r-1" 5000 10; record "r-2" 3000 20; record "r-3" 100 30];
     cd_overrides := [];
     cd_sanctioned := [{| sa_ID := "s-1"; sa_OrgID := None; sa_Address := mallory |}];
     cd_logs := []; cd_settings := ∅; cd_now := 100; cd_locked := fun _ => false; cd_fault := fault |}.
Definition healthy : string -> option string := fun _ => None.
Definition logDown : string -> option string := fun q =>
  if decide (q = "CreateComplianceLog") then Some "disk full" else None.
Definition db : ComplianceDB := tables "enforce" healthy.

Definition checker : Checker := {| ck_priceStalenessThreshold := 3600; ck_defaultMode := "enforce" |}.
Definition send (from to data value : string) : CheckRequest :=
  {| cr_OrgID := "org-a"; cr_UserID := "u-1"; cr_From := from; cr_To := to; cr_Data := data; cr_Value := value;
     cr_CorrelationID := "corr-1" |}.
(** 1 ether, 0.25 ether *)
Definition oneEther : CheckRequest := send alice bob "" "0xde0b6b3a7640000".
Definition quarter : CheckRequest := send alice bob "0x" "0x3782dace9d90000".
Definition toMallory : CheckRequest := send alice mallory "" "0x1".

Notation check := (@Check ComplianceDB (ComplianceTables row1) checker 100).

(** The newest record that covers the value is used up, not the newest one. *)
Example above_threshold : exists res db',
  check oneEther db = (Ok res, db') /\
  cs_Reason res = "transfer value $2000.00 exceeds threshold $1000.00, travel rule record r-2 applied" /\
  map tr_UsedAt (cd_records db') = [None; Some 100; None]%Z.
Proof. vm_compute. eauto 12. Qed.

Example below_threshold : exists res db',
  check quarter db = (Ok res, db') /\ cs_Allowed res = true /\
  cs_Reason res = "transfer value $500.00 below threshold $1000.00" /\ cd_records db' = cd_records db.
Proof. vm_compute. eauto 12. Qed.

(** Three transfers of one ether: two records cover it, the third is refused. *)
Example records_run_out :
  let '(_, db1) := check oneEther db in
  let '(_, db2) := check oneEther db1 in
  let '(r, db3) := check oneEther db2 in
  cs_Allowed <$> r = Ok false /\ map cl_Decision (cd_logs db3) = ["allowed"; "allowed"; "denied"].
Proof. vm_compute. done. Qed.

(** Monitor mode lets the same transfer through, flagged; not a sanctioned one. *)
Definition monitored : ComplianceDB := with_records [] (tables "monitor" healthy).
Example monitor_mode : exists res db',
  check oneEther monitored = (Ok res, db') /\ cs_Allowed res = true /\ cs_Monitored res = true /\
  map cl_WouldBlock (cd_logs db') = [true].
Proof. vm_compute. eauto 12. Qed.
Example monitor_sanction : exists res db',
  check toMallory monitored = (Ok res, db') /\ cs_Allowed res = false /\
  map cl_Decision (cd_logs db') = ["denied"].
Proof. vm_compute. eauto 12. Qed.

(** The record is used up although the log fails and the transfer is denied. *)
Example log_failure_burns_record : exists res db',
  check oneEther (tables "enforce" logDown) = (Ok res, db') /\ cs_Allowed res = false /\
  cs_Reason res = auditUnavailable /\ map tr_UsedAt (cd_records db') = [None; Some 100; None]%Z.
Proof. vm_compute. eauto 12. Qed.

(** One ether sent along with an ERC-20 call is not seen: the token amount is. *)
Definition word (s : string) : string := "000000000000000000000000" +:+ s.
Definition erc20Call : string :=
  "0xa9059cbb" +:+ word "00000000000000000000000000000000000000bb" +:+
  "0000000000000000000000000000000000000000000000000000000000000007".
Example native_value_behind_token_call :
  DetectTransfer alice token erc20Call "0xde0b6b3a7640000" =
  Some {| ti_Type := TransferTypeERC20; ti_TokenAddress := Some token; ti_FromAddress := alice;
          ti_ToAddress := bob; ti_AmountWei := 7 |}.
Proof. vm_compute. reflexivity. Qed.

(** A record in dollars covers a transfer valued in francs. *)
Definition francs : ComplianceDB :=
  {| cd_configs := [{| cc_OrgID := "org-a"; cc_Enabled := true; cc_ThresholdFiat := dollars 1000;
        cc_Currency := "chf"; cc_UnknownPricePolicy := "forbidden"; cc_EnforcementMode := "enforce" |}];
     cd_tokenPrices := [{| tp_OrgID := "org-a"; tp_TokenAddress := "native"; tp_Decimals := 18;
        tp_PriceFiat := dollars 2000; tp_PricesByCurrency := ∅; tp_CoingeckoID := Some "ethereum" |}];
     cd_systemPrices := [{| sp_CoingeckoID := Some "ethereum"; sp_Decimals := 18; sp_PriceFiat := dollars 2000;
        sp_PricesByCurrency := {["usd" := dollars 2000]}; sp_UpdatedAt := 90 |}];
     cd_records := [record "r-1" 2000 10]; cd_overrides := []; cd_sanctioned := []; cd_logs := [];
     cd_settings := ∅; cd_now := 100; cd_locked := fun _ => false; cd_fault := healthy |}.
Example other_currency : exists res db',
  check oneEther francs = (Ok res, db') /\ cs_Allowed res = true /\
  map (fun l => (cl_Currency l, cl_AmountFiat l)) (cd_logs db') = [("chf", Some (Fin (Dy 8796093022208000 (-42))))] /\
  map tr_Currency (cd_records db') = ["usd"].
Proof. vm_compute. eauto 12. Qed.

(** ** Instances *)

(** Another request takes [r-2] before this one claims. *)
Definition world : World :=
  {| w_db := db; w_claims := [];
     w_moves := [[]; []; []; []; []; []; [MClaim "other" "org-a" "u-1" bob "native" (dollars 1500)]] |}.
Definition outcome := @Check World (Concurrent row1 "self") checker 100 oneEther world.

Example beside_another : map snd (w_claims (snd outcome)) = ["r-2"; "r-1"] /\
  map fst (w_claims (snd outcome)) = ["other"; "self"].
Proof. vm_compute. done. Qed.

Definition info : TransferInfo :=
  {| ti_Type := TransferTypeETH; ti_TokenAddress := None; ti_FromAddress := alice; ti_ToAddress := bob;
     ti_AmountWei := 10 ^ 18 |}.

Lemma ids_distinct : NoDup ["r-1"; "r-2"; "r-3"].
Proof. repeat (apply NoDup_cons; split; [set_solver|]). constructor. Qed.

Lemma world_fine : world_ok world.
Proof. split; [exact ids_distinct|constructor|by intros ? ?%elem_of_nil]. Qed.

Lemma record_authorises_once_witness :
  exists res, fst outcome = Ok res /\ NoDup (map snd (w_claims (snd outcome))).
Proof.
  destruct outcome as [[res|e] w'] eqn:E; [|vm_compute in E; discriminate E].
  exists res. split; [reflexivity|].
  apply (record_authorises_once row1 head_picks "self" checker 100 oneEther info world res w').
  - exact world_fine.
  - vm_compute. reflexivity.
  - exact E.
  - vm_compute in E. injection E as <- _. reflexivity.
Defined.

Lemma sanctions_absolute_witness :
  sanctions "org-a" bob db = false /\ sanctions "org-a" mallory db = true.
Proof.
  split; [|reflexivity]. destruct (check oneEther db) as [[res|e] db'] eqn:E; [|vm_compute in E; discriminate E].
  refine (proj1 (sanctions_absolute row1 checker 100 oneEther info (config "enforce") db res db' _ _ _ E _)).
  - reflexivity.
  - reflexivity.
  - vm_compute. reflexivity.
  - vm_compute in E. injection E as <- _. reflexivity.
Defined.

Lemma preview_predicts_witness :
  @CheckPreview _ (ComplianceTables row1) checker 100 oneEther db = (fst (check oneEther db), db).
Proof. apply (preview_predicts row1 checker 100 oneEther db); reflexivity. Defined.
End Travel.
