(* ===== verification/ProcessorScenario.v ===== *)
(** * A concrete proxy in front of a concrete node.

    The deployment of [Scenario.v] with traces allowed to alice and an address
    of hers linked; a node that answers every simulation with one trace; the
    processor run on a read, a transaction, a client trace and a denied
    request; the instances of the theorems of the request path. *)
From S2P Require Import Prelude GoStrings Methods Models Requests OrgContext Db Resolver Cache.
From S2P Require Import SqlCache Writes Access Trace Deployments Json ReadDecision EventFilter.
From S2P Require Import ResponseFilter AuditChain F64 Compliance ComplianceDb TraceGate TraceGateProps.
From S2P Require Import VisibleTo Limits Answers Processor ProcessorProps RawTransaction.
From S2P Require Import RawProps Frames StrictTrace StrictTraceProps Tracer TracerProps.
From S2P Require Import DebugTrace DebugTraceProps Dispatch Finalize FinalizeProps Scenario ComplianceScenario.
From Stdlib Require Import Ascii.
Local Open Scope string_scope.

Module Proxy.
Notation addrA := Demo.addrA.
Notation addrI := Demo.addrI.
Notation row1 := Demo.row1.
Notation ctx := Demo.ctx.
Definition wallet : string := "0xeeeeeeeeeeeeeeeeeeeeeeeeeeeeeeeeeeeeeeee".

(** ** The tables *)
Definition db : Database :=
  let d := Demo.db in {|
  db_organizations := db_organizations d; db_groups := db_groups d; db_contracts := db_contracts d;
  db_contract_grants := (db_contract_grants d ++
    [{| cg_ID := "gr-i"; cg_ContractID := "c-i"; cg_GroupID := "g-a"; cg_Functions := None; cg_EventRules := None |}])%list;
  db_group_access := [
    {| ga_GroupID := "g-a"; ga_AllowedMethods := ["eth_call"; "eth_sendTransaction"; "debug_traceCall"];
       ga_Claims := [ClaimDeploy]; ga_RPCAPIKey := Some "key-a" |}];
  db_users := db_users d; db_user_memberships := db_user_memberships d; db_preregistered_addresses := [];
  db_eth_address_links := [{| el_DID := "did:alice"; el_EthAddress := wallet; el_Revoked := false |}];
  db_fault := fun _ => None |}.
Definition tables : Tables := {| t_db := db; t_cache := emptySql |}.
Definition source (t : Tables) : PermissionSource := {|
  ResolvePermissionsCacheable u o :=
    p ← @computePermissions (DbStore row1 Demo.now (t_db t)) Demo.noDecrypt "" 300 ctx "id-1" u o; Ok (p, true) |}.
Definition store : Store := DbStore row1 Demo.now db.

(** ** The node: alice's wallet calls the contract, which delegates. *)
Definition frameText (secret : string) (depth : nat) : raw :=
  RObj ([("type", RStr (match depth with 0 => "CALL" | _ => "DELEGATECALL" end));
         ("from", RStr (match depth with 0 => wallet | _ => addrA end));
         ("to", RStr (match depth with 0 => addrA | _ => addrI end));
         ("input", RStr "0x12345678"); ("output", RStr secret)] ++
        match depth with 0 => [("calls", RArr [RObj [
          ("type", RStr "DELEGATECALL"); ("from", RStr addrA); ("to", RStr addrI); ("input", RStr "0x12345678");
          ("output", RStr secret)]])] | _ => [] end)%list.
Definition traceText : raw := frameText "0x01" 0.
Definition answerText (method : string) : raw :=
  RObj [("jsonrpc", RStr "2.0"); ("id", RNum "1");
        ("result", if contains ["debug_traceCall"; "debug_traceTransaction"] method then traceText
                   else if decide (method = "eth_getCode") then RStr "0x6000"
                   else RStr "0x00000000000000000000000000000000000000000000000000000000000000ab")].
#[export] Instance rpcNode : Rpc := {| rpc m _ := Ok (Some (answerText m)); keccak256 b := b |}.
Definition node (_ : list Forwarded) (fw : Forwarded) : NodeReply :=
  {| nr_Status := 200; nr_Body := Some (answerText (bd_Method (fw_Body fw))); nr_Err := None |}.

(** ** The proxy *)
Definition hexAddress (s : string) : bool := isValidEthAddress s.
#[export] Instance tracer : RuntimeTracer := runtimeTracer true hexAddress 10 (NewTraceCache 0).
#[export] Existing Instance Demo.abi.
#[export] Instance env : TraceEnv := traceEnv.
#[export] Instance goEthereum : GoEthereum :=
  {| CreateAddress from n := from; DecodeUint64 s := None; isHexAddress := hexAddress |}.
#[export] Instance eventABI : @EventABI Demo.abi :=
  {| Events := fun _ => []; UnpackArgs := fun _ _ => None; PackArgs := fun _ _ => None |}.
(** A transaction somebody else signed. *)
Definition bobsWallet : string := "0xdddddddddddddddddddddddddddddddddddddddd".
Definition mined : Transaction := {|
  gt_Nonce := 0; gt_To := Some addrA; gt_Data := default [] (DecodeString "12345678"); gt_Value := None;
  gt_ChainID := 1 |}.
#[export] Instance signed : SignedTransactions :=
  {| UnmarshalBinary b := if decide (length b = 1) then Ok mined else Err "no transaction";
     Sender _ := Ok bobsWallet; Text16 _ := "0" |}.
#[export] Instance compliance : ComplianceStore ComplianceDB := ComplianceTables row1.
Definition viewers (_ : Tables) : ViewerFacts := {|
  resolvePermsForFilter _ := None; standardTxVisibilityContext _ _ := None; viewerAdminContracts _ _ := ∅;
  isResponseTxVisibleTo _ _ := false; buildParticipantTxHashes _ _ := ∅; contractABIProvider := None;
  logFieldRenderer _ := None |}.

Definition knobs : TraceKnobs := {| kn_ethCallTracing := true; kn_intraOrgGrantTracing := true |}.
Definition proxy : Processor := {|
  pc_knobs := knobs; pc_readProfile := ReadProfileStandard; pc_limited := true; pc_breaks := true;
  pc_complianceChecker := Some Travel.checker; pc_defaultRPCAPIKey := "key-0"; pc_defaultRPCAPIKeyHeader := "" |}.
Definition start : State ComplianceDB := {|
  st_server := {| sv_ctl := Demo.start; sv_tracker := {| tk_pending := ∅; tk_maxAge := 3600 |};
                  sv_tables := tables |};
  st_limiter := NewConcurrencyLimiter 2 1; st_breaker := {| cb_tripped := ∅; cb_cooldown := 1 |};
  st_compliance := Travel.db; st_node := []; st_log := []; st_outbox := []; st_approvals := [];
  st_rates := NewRateLimiter |}.

Definition request (user method : string) (params : list any) : ProcessRequest := {|
  pq_UserID := user; pq_OrgID := ""; pq_Method := method; pq_Params := params;
  pq_Body := {| bd_Method := method; bd_Params := params; bd_visibleTo := None; bd_privateFor := None |};
  pq_ClientIP := "10.0.0.1"; pq_CorrelationID := "corr-1"; pq_BypassPermsCache := false |}.
Definition callParams : list any := [Demo.callObj addrA "0x12345678"; AStr "latest"].
Definition read : ProcessRequest := request "did:alice" "eth_call" callParams.
Definition send : ProcessRequest := request "did:alice" "eth_sendTransaction"
  [AObj {["from" := AStr wallet; "to" := AStr addrA; "data" := AStr "0x12345678"]}].
Definition signedSend : ProcessRequest := request "did:alice" "eth_sendRawTransaction" [AStr "0xab"].
Definition trace : ProcessRequest := request "did:alice" "debug_traceCall" callParams.
(** bob has no right on the contract of the other organization *)
Definition foreign : ProcessRequest := request "did:bob" "eth_call" callParams.

Notation run := (@Process ComplianceDB compliance Demo.abi eventABI env tracer goEthereum signed proxy row1
  emptyRegistries Demo.iter (fun _ _ l => l) ctx source viewers None (fun _ _ => None) node None None
  1000000000 (fun _ _ => []) (fun _ => RNum "7")).
Notation runRaw := (@processRawTransaction ComplianceDB compliance Demo.abi env tracer goEthereum signed proxy row1
  emptyRegistries Demo.iter ctx source None (fun _ _ => None) node None None).
Notation runTrace := (@processDebugTrace ComplianceDB Demo.abi env tracer goEthereum proxy row1
  emptyRegistries Demo.iter ctx source (fun _ _ => None) node
  1000000000 (fun _ _ => []) (fun _ => RNum "7")).

Example read_is_answered : exists b, fst (run read start) = Ok (Answer 200 b) /\
  map (fun fw => (bd_Method (fw_Body fw), fw_APIKey fw)) (st_node (snd (run read start))) = [("eth_call", "key-a")] /\
  map lr_StatusCode (st_log (snd (run read start))) = [200]%Z.
Proof. eexists. vm_compute. split_and!; reflexivity. Qed.
Example send_is_answered : exists b, fst (run send start) = Ok (Answer 200 b) /\
  map (fun fw => bd_Method (fw_Body fw)) (st_node (snd (run send start))) = ["eth_sendTransaction"].
Proof. eexists. vm_compute. split_and!; reflexivity. Qed.
Example trace_is_answered : exists b, fst (run trace start) = Ok (Answer 200 b) /\
  map (fun fw => bd_Method (fw_Body fw)) (st_node (snd (run trace start))) = ["debug_traceCall"].
Proof. eexists. vm_compute. split_and!; reflexivity. Qed.
Example signed_send_is_answered : exists b, fst (run signedSend start) = Ok (Answer 200 b) /\
  map (fun fw => bd_Method (fw_Body fw)) (st_node (snd (run signedSend start))) = ["eth_sendRawTransaction"] /\
  map el_EthAddress (db_eth_address_links (t_db (tablesOf (snd (run signedSend start))))) = [wallet; bobsWallet].
Proof. eexists. vm_compute. split_and!; reflexivity. Qed.
Example foreign_is_denied :
  fst (run foreign start) = Ok (Refuse 404 methodNotFound) /\ st_node (snd (run foreign start)) = [] /\
  map lr_StatusCode (st_log (snd (run foreign start))) = [403]%Z.
Proof. vm_compute. split_and!; reflexivity. Qed.
End Proxy.
Import Proxy.

(** ** The trace gates *)

Lemma reads_are_isolated_witness :
  exists user tr orgs deploy o, @GetUserByExternalID store "did:alice" = Ok (Some user) /\
    @isolated store env orgs deploy o tr.
Proof.
  destruct (@reads_are_isolated store env (source tables) tracer emptyRegistries ctx knobs "did:alice" "eth_call"
              callParams addrA "org-a" traceEnv_ranges) as (user & tr & orgs & deploy & o & tx & b & Hu & _ & _ & _ &
              _ & _ & _ & _ & _ & _ & _ & Hi).
  - reflexivity.
  - right. vm_compute. split_and!; [discriminate|reflexivity..].
  - vm_compute. reflexivity.
  - exists user, tr, orgs, deploy, o. split; [exact Hu|exact Hi].
Defined.

Lemma sends_are_isolated_witness :
  exists user ms, @GetUserByExternalID store "did:alice" = Ok (Some user) /\
    @ListActiveUserMembershipsWithDetails store (u_ID user) = Ok ms.
Proof.
  destruct (@sends_are_isolated store env (source tables) tracer knobs "did:alice" (pq_Params send) []
              traceEnv_ranges) as [[H _]|(user & ms & Hu & Hm & _)].
  - reflexivity.
  - vm_compute. reflexivity.
  - vm_compute in H. discriminate H.
  - exists user, ms. split; [exact Hu|exact Hm].
Defined.

(** ** The limiters *)

Definition oneTaken : ConcurrencyLimiter := snd (TryAcquire "did:alice" (NewConcurrencyLimiter 1 0)).

Lemma limiter_caps_requests_witness : fst (TryAcquire "did:alice" oneTaken) = false.
Proof.
  destruct (limiter_caps_requests 1 0 oneTaken (<["did:alice" := S (default 0 ((∅ : gmap string nat) !! "did:alice"))]> ∅)
              "did:alice" (fst (TryAcquire "did:alice" oneTaken))
              (snd (TryAcquire "did:alice" oneTaken))) as [_ H].
  - eapply rtc_l; [|apply rtc_refl]. apply (step_acquire "did:alice" (NewConcurrencyLimiter 1 0) oneTaken ∅). reflexivity.
  - reflexivity.
  - apply H. vm_compute. reflexivity.
Defined.

Definition afterOne : RateLimiter := snd (CheckAndIncrement "did:alice" (Some 1%Z) None 5 NewRateLimiter).

Lemma rate_limiter_is_exact_witness :
  fst (fst (CheckAndIncrement "did:alice" (Some 1%Z) None 6 afterOne)) =
  admits "did:alice" (Some 1%Z) None 6 [("did:alice", 5%Z)].
Proof.
  apply (rate_limiter_is_exact 5 afterOne [("did:alice", 5%Z)] "did:alice" (Some 1%Z) None 6
           (fst (fst (CheckAndIncrement "did:alice" (Some 1%Z) None 6 afterOne)))
           (snd (fst (CheckAndIncrement "did:alice" (Some 1%Z) None 6 afterOne)))
           (snd (CheckAndIncrement "did:alice" (Some 1%Z) None 6 afterOne))).
  - exists 0%Z. eapply rtc_l; [|apply rtc_refl].
    apply (rate_request 0 5 "did:alice" (Some 1%Z) None NewRateLimiter [] (true, "") afterOne); [lia|].
    vm_compute. reflexivity.
  - lia.
  - vm_compute. reflexivity.
Defined.

(** ** Traces shown to a client *)

Definition parsed (v : raw) : raw * TraceResult :=
  match ParseStrictCallTrace v with Ok x => x | Err _ => (RNull, noTargets) end.
Definition rootOf (v : raw) : Frame := default zeroFrame (decodeFrame strictFields v zeroFrame).

Lemma shown_trace_is_judged_witness :
  length (framesOf (rootOf traceText) 0 "") = length (tr_CallTargets (snd (parsed traceText))).
Proof.
  destruct (shown_trace_is_judged traceText (fst (parsed traceText)) (snd (parsed traceText)))
    as (root & Hd & _ & Hf & _); [vm_compute; reflexivity|].
  replace (rootOf traceText) with root by (unfold rootOf; rewrite Hd; reflexivity).
  exact (Forall2_length _ _ _ Hf).
Defined.

(** A call whose value comes from the storage of [addrI]. *)
Definition secretData (from to output : string) : Data := {|
  f_Type := "CALL"; f_From := from; f_To := to; f_Value := ""; f_Gas := ""; f_GasUsed := ""; f_Input := "0x";
  f_Output := output; f_Error := ""; f_RevertReason := "" |}.
Definition secretFrame (x : string) : Frame :=
  MkFrame (secretData wallet addrA "") [MkFrame (secretData addrA addrI x) [] []] [].
Definition secretText (x : string) : raw := marshalFrame (secretFrame x).

Lemma secrets_indistinct x y : indistinct {[addrA]} (secretFrame x) (secretFrame y) addrA "" 0.
Proof.
  apply indistinct_frame; [by repeat split..|]. apply Forall2_cons; split; [|constructor].
  apply indistinct_frame; [by repeat split|by repeat split| |constructor].
  intros [H|H]; [discriminate H|]. vm_compute in H. discriminate H.
Qed.

Lemma redaction_hides_values_witness :
  RedactStrictCallTrace (fst (parsed (secretText "0x01"))) {[addrA]} =
  RedactStrictCallTrace (fst (parsed (secretText "0x02"))) {[addrA]}.
Proof.
  apply (redaction_hides_values (secretText "0x01") (secretText "0x02") (fst (parsed (secretText "0x01")))
           (fst (parsed (secretText "0x02"))) (snd (parsed (secretText "0x01"))) (snd (parsed (secretText "0x02")))
           (secretFrame "0x01") (secretFrame "0x02") {[addrA]});
    [vm_compute; reflexivity..|apply secrets_indistinct].
Defined.

Lemma owners_decide_redaction_witness :
  exists owners, TraceValueOwners (fst (parsed traceText)) = Ok owners /\ NoDup owners.
Proof.
  destruct (owners_decide_redaction traceText (fst (parsed traceText)) (snd (parsed traceText)) ∅)
    as (owners & out & Ho & _ & _ & Hn & _); [vm_compute; reflexivity|].
  exists owners. split; [exact Ho|exact Hn].
Defined.

(** ** The tracer *)

Definition lenient : TraceResult := match ParseCallTraceResult (Some traceText) with Ok t => t | Err _ => noTargets end.

Lemma tracer_reports_every_call_witness :
  exists ts, tr_CallTargets lenient = omap id ts /\ (length ts >= 2)%nat.
Proof.
  destruct (tracer_reports_every_call (Some traceText) lenient) as (root & ts & Hd & Ht & Hf & _);
    [vm_compute; reflexivity|]. exists ts. split; [exact Ht|].
  apply Forall2_length in Hf. vm_compute in Hd. injection Hd as <-. rewrite <- Hf. vm_compute. lia.
Defined.

Definition warm : TraceCache :=
  snd (@rtTraceTransaction rpcNode true 10 wallet addrA "0x12345678" "" (NewTraceCache 0)).

Lemma cached_trace_is_recent_witness :
  exists t at_ from' to' data' value', (t <= at_ <= 15)%Z /\ (at_ = 15 /\ t = 15 \/ 5 <= at_)%Z /\
    @TraceCall rpcNode from' to' data' value' (Some (AStr "latest")) = Ok lenient.
Proof.
  destruct (cached_trace_is_recent (fun _ => rpcNode) 0 10 warm 15 wallet addrA "0x12345678" "" lenient warm)
    as (t & at_ & f & o & d & v & Ht & Ha & Hc & _).
  - exists 0%Z. eapply rtc_l; [|apply rtc_refl].
    apply (step_trace (fun _ => rpcNode) 0 10 wallet addrA "0x12345678" "" (NewTraceCache 0)). lia.
  - lia.
  - vm_compute. reflexivity.
  - exists t, at_, f, o, d, v. split; [exact Ht|]. split; [exact Ha|exact Hc].
Defined.

(** ** The processor *)

Definition traceAnswer : option raw :=
  match fst (runTrace trace start) with Ok (Answer _ b) => b | _ => None end.

Lemma shown_traces_are_authorised_witness :
  exists v san tr, ParseStrictCallTrace v = Ok (san, tr) /\
    IsForwardableMethod emptyRegistries "debug_traceCall" = true.
Proof.
  destruct (@shown_traces_are_authorised ComplianceDB Demo.abi env tracer goEthereum proxy row1 emptyRegistries Demo.iter
              ctx source (fun _ _ => None) node 1000000000 (fun _ _ => []) (fun _ => RNum "7") trace start 200
              traceAnswer (snd (runTrace trace start)) traceEnv_ranges)
    as (_ & _ & Hf & _ & user & ms & _ & _ & _ & plan & looked & v & san & tr & out & c1 & c2 & _ & _ & _ & Hp & _);
    [vm_compute; reflexivity|]. exists v, san, tr. split; [exact Hp|exact Hf].
Defined.

Lemma traces_send_only_built_requests_witness :
  Forall (fun fw => proxy_built callParams (fw_Body fw)) (st_node (snd (runTrace trace start))).
Proof.
  destruct (@traces_send_only_built_requests ComplianceDB Demo.abi env tracer goEthereum proxy row1 emptyRegistries
              Demo.iter ctx source (fun _ _ => None) node 1000000000 (fun _ _ => []) (fun _ => RNum "7") trace start
              (fst (runTrace trace start)) (snd (runTrace trace start))) as [(fws & Hn & Hf) _];
    [vm_compute; reflexivity|]. rewrite Hn. exact Hf.
Defined.

Lemma signed_transactions_are_isolated_witness :
  exists raw tx res, rawGranted row1 emptyRegistries Demo.iter ctx source signedSend raw tx res start.
Proof.
  destruct (@signed_transactions_are_isolated ComplianceDB compliance Demo.abi env tracer goEthereum signed proxy row1
              emptyRegistries Demo.iter ctx source None (fun _ _ => None) node None None signedSend start
              (fst (runRaw signedSend start)) (snd (runRaw signedSend start)) traceEnv_ranges)
    as (raw & tx & res & prepared & Hg & _).
  - reflexivity.
  - vm_compute. reflexivity.
  - vm_compute. discriminate.
  - exists raw, tx, res. exact Hg.
Defined.

(** The node refuses the transaction, and the wallet is alice's all the same. *)
Definition refusedReply : NodeReply :=
  {| nr_Status := 200; nr_Body := Some (RObj [("error", RObj [("message", RStr "nonce too low")])]); nr_Err := None |}.
Definition bobsTx : TxParams := {| tx_from := bobsWallet; tx_to := addrA; tx_data := "0x12345678"; tx_value := "" |}.

Lemma submitter_owns_the_sender_witness :
  exists addrs, @GetLinkedEthAddresses (storeOf row1 ctx (snd (linkSender signedSend bobsTx refusedReply start)))
    "did:alice" = Ok addrs /\ bobsWallet ∈ addrs.
Proof.
  apply (@submitter_owns_the_sender ComplianceDB row1 ctx signedSend bobsTx refusedReply start
           (fst (linkSender signedSend bobsTx refusedReply start))
           (snd (linkSender signedSend bobsTx refusedReply start))).
  - reflexivity.
  - discriminate.
  - discriminate.
  - vm_compute. reflexivity.
  - intros l Hl _ _. apply list_elem_of_singleton in Hl. subst l. reflexivity.
  - intros q. reflexivity.
  - vm_compute. reflexivity.
Defined.

Ltac at_proxy T req :=
  pose proof (T ComplianceDB compliance Demo.abi eventABI env tracer goEthereum signed proxy row1 emptyRegistries
    Demo.iter (fun _ _ l => l) ctx source viewers None (fun _ _ => None) node None None 1000000000%Z (fun _ _ => [])
    (fun _ => RNum "7") req start (fst (run req start)) (snd (run req start))) as H.

Lemma outcomes_are_logged_witness : outcome_logged (canonical read) (fst (run read start)) start (snd (run read start)).
Proof. at_proxy @outcomes_are_logged read. apply H. vm_compute. reflexivity. Defined.

Lemma slots_are_returned_witness : same_load (st_limiter start) (st_limiter (snd (run send start))).
Proof. at_proxy @slots_are_returned send. apply H. vm_compute. reflexivity. Defined.

Lemma nothing_reaches_the_node_unchecked_witness :
  cleared proxy row1 emptyRegistries Demo.iter ctx source None (canonical send) start (snd (run send start)).
Proof.
  at_proxy @nothing_reaches_the_node_unchecked send. apply H.
  - apply emptyRegistries_wf.
  - vm_compute. reflexivity.
  - vm_compute. discriminate.
Defined.

Lemma denials_are_uniform_witness :
  fst (run foreign start) = Ok (Refuse 404 methodNotFound) /\ bare start (snd (run foreign start)).
Proof.
  at_proxy @denials_are_uniform foreign. apply H.
  - vm_compute. discriminate.
  - vm_compute. reflexivity.
  - intros res (_ & Hd & Ha). vm_compute in Hd. injection Hd as <-. discriminate Ha.
  - vm_compute. reflexivity.
Defined.

(** ** The receipt goroutines: a transaction alice sent through a factory, with
    two addresses announced. *)
Module Mined.
Definition txHash : string := "0xfeed".
Definition created : string := "0x1111111111111111111111111111111111111111".
Definition expected : string := "0x2222222222222222222222222222222222222222".
Definition announced : list string := [created; expected].

Definition tables : Tables :=
  let d := Proxy.db in
  {| t_db := set_preregistered d
       ((fun a => {| pa_OrgID := "org-a"; pa_Address := a; pa_CreatedAt := 0 |}) <$> announced);
     t_cache := emptySql |}.
Definition start : State ComplianceDB :=
  set_server Proxy.start {| sv_ctl := Demo.start; sv_tracker := {| tk_pending := ∅; tk_maxAge := 3600 |};
                            sv_tables := tables |}.

Definition receiptNode (status : string) (_ : list Forwarded) (_ : Forwarded) : NodeReply :=
  {| nr_Status := 200; nr_Err := None;
     nr_Body := Some (RObj [("result", RObj [("status", RStr status)])]) |}.
(** mined at the third attempt *)
Definition slowNode (seen : list Forwarded) (fw : Forwarded) : NodeReply :=
  if Nat.ltb (length seen) 2
  then {| nr_Status := 200; nr_Err := None; nr_Body := Some (RObj [("result", RNull)]) |}
  else receiptNode "0x1" seen fw.
(** the factory caught a creation that failed *)
Definition failedCreation : raw :=
  RObj [("type", RStr "CREATE"); ("from", RStr addrA); ("input", RStr "0x60"); ("error", RStr "out of gas")].
Definition minedTrace : raw :=
  RObj [("type", RStr "CALL"); ("from", RStr wallet); ("to", RStr addrA); ("input", RStr "0x12345678");
        ("calls", RArr [failedCreation])].
Definition minedNode : Rpc :=
  {| rpc m _ := Ok (Some (RObj [("jsonrpc", RStr "2.0"); ("id", RNum "1"); ("result", minedTrace)]));
     keccak256 b := b |}.
Definition fresh (a : string) : string * string := ("c-new", "gr-new").
Definition idle (_ : nat) (s : State ComplianceDB) : State ComplianceDB := s.

Notation poll N := (@pollAndFinalizeRuntimeCreates ComplianceDB N row1 ctx true (fun _ => false)).

Definition settled : result unit * State ComplianceDB :=
  poll Proxy.rpcNode slowNode elements fresh idle txHash announced "org-a" "u-alice" (Some {[created]}) start.
Example created_is_registered :
  fst settled = Ok tt /\ map c_Address (db_contracts (t_db (tablesOf (snd settled)))) =
    (map c_Address (db_contracts Proxy.db) ++ [created])%list /\
  db_preregistered_addresses (t_db (tablesOf (snd settled))) = [] /\ length (st_node (snd settled)) = 3.
Proof. vm_compute. split_and!; reflexivity. Qed.
End Mined.
Import Mined.

Lemma start_steady : steady Mined.start.
Proof. by intros name. Qed.


Lemma failed_creation_ends_the_process_witness :
  exists e, fst (poll minedNode (receiptNode "0x1") elements fresh idle txHash announced "org-a" "u-alice" None start) = Err e.
Proof.
  eapply (@failed_creation_ends_the_process ComplianceDB minedNode row1 ctx true (fun _ => false) (receiptNode "0x1")
    elements fresh idle).
  - intros X a. apply elem_of_elements.
  - by intros i s Hs.
  - apply start_steady.
  - discriminate.
  - discriminate.
  - vm_compute. set_solver.
  - vm_compute. reflexivity.
  - vm_compute. reflexivity.
  - apply list_elem_of_further, list_elem_of_here.
  - apply list_elem_of_here.
  - reflexivity.
Defined.
