(* ===== verification/ViewerScenario.v ===== *)
(** * The viewer's facts on the deployment of [Scenario.v]: alice reads a receipt
    shared with her; an operator views the same receipt as alice in alpha. *)
From S2P Require Import Prelude GoStrings Methods Models Requests OrgContext Db Resolver Access Json ReadDecision.
From S2P Require Import EventFilter ResponseFilter Answers Viewer ViewerProps Deployments.
From S2P Require Import Visibility LogRedaction Scenario ProcessorScenario.
From Stdlib Require Import Ascii.
Local Open Scope string_scope.

Module Shared.
Notation addrA := Demo.addrA.
Notation row1 := Demo.row1.
#[export] Instance store : Store := DbStore row1 Demo.now Demo.db.
#[export] Existing Instance Demo.abi.
#[export] Instance eventABI : @EventABI Demo.abi :=
  {| Events := fun _ => []; UnpackArgs := fun _ _ => None; PackArgs := fun _ _ => None |}.
Definition source : PermissionSource := {|
  ResolvePermissionsCacheable u o :=
    p ← @computePermissions store Demo.noDecrypt "" 300 Demo.ctx "id-1" u o; Ok (p, true) |}.
(** the same in alpha; in every other organization the claims of an administrator *)
Definition elsewhere : PermissionSource := {|
  ResolvePermissionsCacheable u o :=
    '(p, c) ← @ResolvePermissionsCacheable source u o;
    Ok (if decide (o = "org-a") then p else set_ContractAccess p
          {[ addrA := {| ca_Claims := [ClaimAdmin]; ca_Functions := None; ca_EventRules := None |} ]}, c) |}.

Definition shares : list TxVisibleTo := [
  {| tt_TxHash := "0xfeed"; tt_OrgID := "org-a"; tt_DIDs := ["did:alice"] |}].
Definition moreShares : list TxVisibleTo :=
  ({| tt_TxHash := "0xfeed"; tt_OrgID := "org-b"; tt_DIDs := ["did:bob"] |} :: shares)%list.

Definition receipt : raw := RObj [("jsonrpc", RStr "2.0"); ("id", RNum "1"); ("result", RObj [
  ("transactionHash", RStr "0xFEED"); ("from", RStr Demo.addrB); ("to", RStr addrA); ("status", RStr "0x1");
  ("logs", RArr [RObj [("address", RStr addrA); ("transactionHash", RStr "0xfeed"); ("topics", RArr []);
                       ("data", RStr "0x")]])])].

Example transactions_of_the_receipt :
  extractTxHashesFromResponse elements (Some receipt) = ["0xfeed"] /\
  extractContractAddressesFromResponse elements (Some receipt) = [addrA].
Proof. vm_compute. done. Qed.

Definition asAlice : Ctx := {| ctx_now := ctx_now Demo.ctx; ctx_viewscope := Some "org-a" |}.
Definition sharedWithAlice : option TxVisibilityContext :=
  buildTxVisibilityContext asAlice elements (Some (dbTxVisibility None shares)) "did:alice" (Some receipt).
Example alice_may_unlock :
  (fun v => (elements (tv_UnlockableContracts v), map_to_list (tv_TxVisibility v))) <$> sharedWithAlice =
  Some ([addrA], [("0xfeed", ["did:alice"])]).
Proof. vm_compute. reflexivity. Qed.

Definition access : AccessCheckResult := {|
  rs_Allowed := true; rs_AuthRequired := false; rs_Reason := ""; rs_OrgID := "org-a"; rs_UserID := "u-alice"; rs_RPCAPIKey := "";
  rs_Claims := [] |}.
(** the same alpha; in beta, alice administers the contract of the receipt's sender *)
Definition elsewhereDb : Database := {|
  db_organizations := db_organizations Demo.db;
  db_groups := {| g_ID := "g-new"; g_OrgID := "org-b"; g_ParentID := None; g_IsOrgAdmin := true; g_IsSystem := false |} :: db_groups Demo.db;
  db_contracts := [Demo.contract "c-a" "org-a" addrA; Demo.contract "c-i" "org-a" Demo.addrI;
                   Demo.contract "c-b" "org-b" Demo.addrB; Demo.contract "c-n" "org-b" "0xdddddddddddddddddddddddddddddddddddddddd"];
  db_contract_grants := db_contract_grants Demo.db; db_group_access := db_group_access Demo.db;
  db_users := db_users Demo.db;
  db_user_memberships := {| um_UserID := "u-alice"; um_GroupID := "g-new"; um_ExpiresAt := None |} ::
                         db_user_memberships Demo.db;
  db_preregistered_addresses := []; db_eth_address_links := []; db_fault := fun _ => None |}.
Definition noABI : ABIProvider := {| GetContractABI := fun _ => ""; IsEventsAllowDynamicPayload := None |}.
Definition answerWith (db : Database) (P : PermissionSource) (rows : list TxVisibleTo) : result (option raw) :=
  @applyResponseFilter (DbStore row1 Demo.now db) _ eventABI
    (@viewerFacts (DbStore row1 Demo.now db) P asAlice elements ReadProfileStandard (Some (dbTxVisibility None rows))
    (fun _ => Err "offline") (Some noABI)
    (fieldRenderer (fun _ l => l) (fun _ l => l) elements (GetBatchVisibilityDetailed Demo.now db asAlice) noABI))
    emptyRegistries (fun _ _ l => l) ReadProfileStandard
    "did:alice" "eth_getTransactionReceipt" [AStr "0xfeed"] access (Some receipt).
Definition shown (r : result (option raw)) : bool :=
  match r with Ok (Some v) => match member_ptr "result" v with Some (Some _) => true | _ => false end | _ => false end.
Example the_receipt_is_shown : shown (answerWith Demo.db source shares) = true.
Proof. vm_compute. reflexivity. Qed.
End Shared.
Import Shared.


Lemma unlocked_contracts_are_granted_witness :
  exists c user, db_GetContractByAddressGlobal row1 Demo.db addrA = Ok (Some c) /\ c_AllowVisibleToUnlock c = true /\
    db_GetUserByExternalID row1 Demo.db "did:alice" = Ok (Some user) /\ unlockGround Demo.now Demo.db (u_ID user) c.
Proof.
  eapply (unlocked_contracts_are_granted row1 Demo.now Demo.db asAlice elements) with
    (ts := Some (dbTxVisibility None shares)) (body := Some receipt).
  - intros X a. apply elem_of_elements.
  - vm_compute. reflexivity.
  - simpl. set_solver.
Defined.

(** ** Masked logs: alice, whose wallet is linked, reads two events of a token. *)
Module Masked.
Definition db : Database := Proxy.db.
Definition wallet : string := Proxy.wallet.
Definition stranger : string := "0x9999999999999999999999999999999999999999".
Definition word (addr : string) : string := repeat_zeros 24 +:+ drop_str 2 addr.

Definition transferID : list ascii := replicate 32 "t"%char.
Definition batchID : list ascii := replicate 32 "b"%char.
Definition address (indexed : bool) : Argument :=
  {| arg_Type := AbiType AddressTy None [] "address"; arg_Indexed := indexed |}.
Definition uint256 : abi_type := AbiType UintTy None [] "uint256".
(** [Transfer(address indexed, address)] and [Batch(uint256[2], address)] *)
Definition transfer : AbiEvent :=
  {| ev_ID := transferID; ev_Anonymous := false; ev_Inputs := [address true; address false] |}.
Definition batch : AbiEvent :=
  {| ev_ID := batchID; ev_Anonymous := false;
     ev_Inputs := [{| arg_Type := AbiType ArrayTy (Some uint256) [] "uint256[2]"; arg_Indexed := false |}; address false] |}.
#[export] Instance abiPackage : ABI :=
  {| ParsedABI := unit; ABIMethod := unit; abi_JSON := fun s => if decide (s = "token") then Ok tt else Err "abi";
     MethodById := fun _ _ => Err "no method"; Unpack := fun _ _ => Err "no method" |}.
#[export] Instance events : EventABI :=
  {| Events := fun _ => [transfer; batch]; UnpackArgs := fun _ _ => None; PackArgs := fun _ _ => None |}.
Definition abis : ABIProvider := {| GetContractABI := fun _ => "token"; IsEventsAllowDynamicPayload := None |}.

Definition log (ev : AbiEvent) (topics : list string) (data : string) : AdmittedLog := {|
  al_Payload := LogPayloadMasked;
  al_Raw := RObj [("address", RStr Demo.addrA); ("topics", RArr (RStr (topic0Of ev) :: map RStr topics)); ("data", RStr data)] |}.
Definition resolver (did : string) (addrs : list string) : result (gmap string AddressVisibility) :=
  GetBatchVisibilityDetailed Demo.now db Demo.ctx did addrs.
Definition rangeAll (_ : nat) (l : list AbiEvent) : list AbiEvent := l.
Definition render (admitted : list AdmittedLog) : result (list raw) :=
  redactAdmittedLogs rangeAll rangeAll elements (Some resolver) "did:alice" abis admitted.

Definition toAlice : AdmittedLog := log transfer ["0x" +:+ word wallet] ("0x" +:+ word stranger).
Definition toAliceShown : raw :=
  RObj [("address", RStr Demo.addrA); ("data", RStr ("0x" +:+ repeat_zeros 64));
        ("topics", RArr [RStr (topic0Of transfer); RStr ("0x" +:+ word wallet)])].
Example stranger_is_masked : render [toAlice] = Ok [toAliceShown].
Proof. vm_compute. reflexivity. Qed.

(** Parameters are taken for one word each: behind a fixed array, which has
    several, the second amount is taken for the address and zeroed, and the
    address of a stranger is shown. *)
Definition batchData : string := "0x" +:+ repeat_zeros 63 +:+ "1" +:+ repeat_zeros 63 +:+ "2" +:+ word stranger.
Example address_behind_an_array_is_shown :
  redactLogData (rangeAll 0) batchData (Some "token") (Some (topic0Of batch)) ∅ =
    "0x" +:+ repeat_zeros 63 +:+ "1" +:+ repeat_zeros 64 +:+ word stranger /\
  eventHasDynamicNonIndexedParam (rangeAll 0) "token" (topic0Of batch) = false.
Proof. vm_compute. split; reflexivity. Qed.
End Masked.
Import Masked.

Lemma rendered_logs_show_entitled_witness :
  shows_entitled rangeAll abis (entitled Demo.now Masked.db Demo.ctx "did:alice") [toAlice] toAliceShown.
Proof.
  apply (rendered_logs_show_entitled rangeAll rangeAll elements Demo.now Masked.db Demo.ctx "did:alice" abis [toAlice] [toAliceShown]).
  - vm_compute. reflexivity.
  - apply list_elem_of_here.
Defined.
