(* ===== verification/DisclosureScenario.v ===== *)
(** * A subject, a regulator and their disclosure.

    The configurations at which the properties of disclosures are instantiated,
    and executions that show where the code ends: a decision that overwrites
    another, a grant without an approval, a token that cannot exist. *)
From S2P Require Import Prelude GoStrings Methods Models Db Sha256 Programs DisclosureScope DisclosureStore DisclosureService DisclosureProps.
From Stdlib Require Import Ascii.
Local Open Scope string_scope.

(** ** Driving the callers *)
Section drive.
Context `{HT : TimestampColumn}.
Definition pass (dt : Z) (w : World) : option World := if (0 <=? dt)%Z then Some (tick w dt) else None.
Lemma pass_other dt w w' : pass dt w = Some w' -> m_other w w'.
Proof. unfold pass. destruct (0 <=? dt)%Z eqn:Ed; [|done]. intros [= <-]. left. exists dt. by apply Z.leb_le in Ed. Qed.
Definition drive : list (Move Call Choice) -> Config Sql World Call bool -> Config Sql World Call bool :=
  Programs.drive serve pass.
Lemma disclosures_run ms c : rtc step c (drive ms c).
Proof. apply Programs.drive_sound, pass_other. Qed.
(** What comes of a program at given moments, when they are as many as it needs. *)
Fixpoint replay {A} (p : prog A) (ms : list Moment) : option (list (Moment * Event) * result A) :=
  match p, ms with
  | Ret r, [] => Some ([], r)
  | Vis e k, m :: ms =>
      '(evs, r) ← replay (k (exec (mo_choice m) e (mo_world m)).1) ms;
      Some (map (pair m) (attempted e) ++ evs, r)%list
  | Clock k, m :: ms => replay (k (w_now (mo_world m))) ms
  | Fresh k, m :: ms => replay (k (mo_uuid m)) ms
  | _, _ => None
  end.
Lemma replay_ran {A} (p : prog A) ms evs r : replay p ms = Some (evs, r) -> ran p ms evs r.
Proof.
  revert ms evs. induction p as [r0|X e k IH|k IH|k IH]; intros [|m ms] evs; cbn; try done.
  - intros [= <- <-]. done.
  - destruct (replay _ ms) as [[evs' r']|] eqn:E; [|done]. intros [= <- <-]. exists m, ms, evs'. auto.
  - intros E. exists m, ms. auto.
  - intros E. exists m, ms. auto.
Qed.
Definition steps (i n : nat) : list (Move Call Choice) := replicate n (Own i steady "").
End drive.

Module Disclosures.
#[local] Instance micros : TimestampColumn := {| timestamptz := truncMicro |}.

Definition alice : User := {| u_ID := "u-alice"; u_ExternalID := "did:alice"; u_KYC := true; u_Banned := false |}.
Definition bob : User := {| u_ID := "u-bob"; u_ExternalID := "did:bob"; u_KYC := true; u_Banned := false |}.
Definition regulator : User := {| u_ID := "u-reg"; u_ExternalID := "did:reg"; u_KYC := true; u_Banned := false |}.
Definition rbac : Database := {|
  db_organizations := [{| o_ID := "org-a"; o_Slug := "a" |}];
  db_groups := [{| g_ID := "g1"; g_OrgID := "org-a"; g_ParentID := None; g_IsOrgAdmin := false; g_IsSystem := false |}];
  db_contracts := []; db_contract_grants := []; db_group_access := []; db_users := [alice; bob; regulator];
  db_user_memberships := [{| um_UserID := "u-reg"; um_GroupID := "g1"; um_ExpiresAt := None |}];
  db_preregistered_addresses := []; db_eth_address_links := []; db_fault := fun _ => None |}.

Definition hour : Z := (3600 * 10 ^ 9)%Z.
Definition wide : Scope := {| s_Methods := [MethodFullDisclosure]; s_Addresses := []; s_DateRange := None;
  s_DisclosureLevel := DisclosureFull |}.
Definition narrow : Scope := {| s_Methods := [MethodActivityLogs]; s_Addresses := [];
  s_DateRange := Some {| dr_Start := 5 * hour; dr_End := (9 * hour + 500)%Z |}; s_DisclosureLevel := DisclosureRedacted |}.
Definition request : Request := {|
  rq_ID := "req-1"; rq_RequesterUserID := None; rq_RequesterDID := "did:reg"; rq_TargetUserID := "u-alice";
  rq_OrgID := "org-a"; rq_Scope := wide; rq_Reason := "audit"; rq_LegalBasis := ""; rq_Status := StatusPending;
  rq_RequestedAt := 0; rq_ExpiresAt := None; rq_DecidedAt := None; rq_DecidedByUserID := None; rq_DecisionReason := "" |}.
Definition logRow (id : Z) (ext : string) (at_ : Z) : AccessLogRow := {|
  al_ID := id; al_ExternalID := ext; al_Method := "eth_call"; al_StatusCode := 200; al_IPAddress := Some "10.0.0.7";
  al_CreatedAt := at_ |}.
Definition w0 : World := {|
  w_db := {| dd_rbac := rbac; dd_requests := [request]; dd_grants := []; dd_events := []; dd_reports := [];
             dd_event_seq := 1;
             dd_access_logs := [logRow 1 "did:alice" (6 * hour)%Z; logRow 2 "did:bob" (6 * hour)%Z;
                                logRow 3 "did:alice" (10 * hour)%Z] |};
  w_now := (20 * hour)%Z; w_requests := {["req-1" := request]}; w_grants := ∅ |}.
Definition start : Config Sql World Call bool := {| cf_world := w0; cf_calls := [] |}.

Definition caller (method : string) (u : User) : Caller := {|
  ca_auth_method := method; ca_admin_org_ids := []; ca_readonly_org_ids := []; ca_param_org := "";
  ca_user_id := u_ID u; ca_viewer_did := u_ExternalID u; ca_impersonating := false; ca_grants_suppressed := false;
  ca_viewscope := None; ca_ip := "10.0.0.9"; ca_token_header := ""; ca_token_query := "" |}.
Definition asAlice : Caller := caller "jwt" alice.
Definition asReg : Caller := caller "jwt" regulator.
Definition approval (s : option Scope) (hours_ : Z) : option ApproveInput :=
  Some {| ai_Scope := s; ai_GrantDurationHours := hours_; ai_Reason := "ok" |}.

(** The statements of an approval: two lookups, the clock; an identifier, a token,
    the clock twice; the grant, the status. *)
Definition lookups (i : nat) : list (Move Call Choice) := steps i 3.
Definition mint (i : nat) (id token : string) : list (Move Call Choice) := [Own i steady id; Own i steady token] ++ steps i 3.
Definition approved : Config Sql World Call bool :=
  drive (Start (HApprove asAlice "req-1" (approval (Some narrow) 48)) :: lookups 0 ++ mint 0 "g-1" "t-1" ++ steps 0 1)%list start.
Definition grant1 : Grant := {|
  gr_ID := "g-1"; gr_RequestID := "req-1"; gr_TokenHash := "did-auth-t-1"; gr_Scope := narrow;
  gr_GrantedAt := (20 * hour)%Z; gr_ExpiresAt := (68 * hour)%Z; gr_RevokedAt := None; gr_RevokedReason := "" |}.

Lemma within_wide : grantable wide narrow.
Proof.
  assert (E : grantedScope wide (Some narrow) = Ok narrow) by (vm_compute; reflexivity). by apply grantedScope_within in E.
Qed.
Lemma ledger_w0 : ledger w0.
Proof.
  split; [|by intros ? ?%elem_of_nil..]. intros r ->%list_elem_of_singleton. by exists request.
Qed.
Lemma approved_grants : dd_grants (w_db (cf_world approved)) = [grant1].
Proof. vm_compute. reflexivity. Qed.

Lemma granted_within_request_witness :
  requestRow (cf_world approved) "req-1" = Some (decide_as StatusApproved (20 * hour) (Some "u-alice") "ok" request) /\
  grantable wide narrow.
Proof.
  split; [vm_compute; reflexivity|].
  apply (granted_within_request w0 approved grant1 (decide_as StatusApproved (20 * hour) (Some "u-alice") "ok" request)).
  - exact ledger_w0.
  - apply disclosures_run.
  - rewrite approved_grants. apply list_elem_of_singleton. reflexivity.
  - vm_compute. reflexivity.
Defined.

(** ** Reading, and revoking *)
Definition alone_env : Env := {| en_choices := []; en_ticks := []; en_uuids := [] |}.
Definition read : Config Sql World Call bool := drive (Start (HExplorer asReg "g-1" false) :: steps 1 4) approved.
Example the_regulator_reads : outcome read 1 = Some true.
Proof. vm_compute. reflexivity. Qed.

Definition w1 : World := cf_world approved.
Lemma ledger_w1 : ledger w1.
Proof.
  split.
  - intros r Hr. exists request. assert (dd_requests (w_db w1) = [decide_as StatusApproved (20 * hour) (Some "u-alice") "ok" request]) as E
      by (vm_compute; reflexivity).
    rewrite E in Hr. apply list_elem_of_singleton in Hr as ->. split; [vm_compute|]; reflexivity.
  - intros g Hg. exists request. unfold w1 in Hg. rewrite approved_grants in Hg. apply list_elem_of_singleton in Hg as ->.
    split; [vm_compute; reflexivity|]. exact within_wide.
  - intros g Hg. exists grant1. unfold w1 in Hg. rewrite approved_grants in Hg. apply list_elem_of_singleton in Hg as ->.
    split; [vm_compute|]; reflexivity.
Qed.
(** The revocation, its statements at these moments; a read is in flight. *)
Definition revocation1 : prog unit := RevokeRequest "req-1" "u-alice" "no".
Definition closing : Sql unit := UpdateStatus "req-1" StatusRevoked (Some "u-alice") "no".
Definition moment0 : Moment := {| mo_world := w1; mo_choice := steady; mo_uuid := "" |}.
Definition closingMoment : Moment :=
  {| mo_world := (exec steady (RevokeGrantRow "g-1" "no") w1).2; mo_choice := steady; mo_uuid := "" |}.
Definition readCall : Call := HExplorer asReg "g-1" false.
Definition inFlight : list (Call * prog bool) := [(readCall, serve readCall)].
Definition afterwards : Config Sql World Call bool :=
  drive (Start readCall :: steps 1 4)
    {| cf_world := (exec (mo_choice closingMoment) closing (mo_world closingMoment)).2; cf_calls := inFlight |}.
Lemma revocation_is_final_witness :
  ran revocation1 ([moment0; moment0; moment0] ++ [closingMoment]) [] (Ok tt) /\
  outcome afterwards 1 = Some false /\ cf_calls afterwards !! 1 <> Some (readCall, Ret (Ok true)).
Proof.
  assert (Hr : ran revocation1 ([moment0; moment0; moment0] ++ [closingMoment]) [] (Ok tt))
    by (apply replay_ran; vm_compute; reflexivity).
  split; [exact Hr|]. split; [vm_compute; reflexivity|].
  apply (revocation_is_final "g-1" grant1 revocation1 closing [moment0; moment0; moment0] closingMoment []
           inFlight afterwards 1 readCall (by_subject "g-1" grant1 "u-alice" "no") Hr).
  - eapply (mild_ledger_exec steady (RevokeGrantRow "g-1" "no") w1); [done|exact ledger_w1|]. vm_compute. reflexivity.
  - vm_compute. reflexivity.
  - exists request. vm_compute. reflexivity.
  - intros by_ reason _. apply Forall_singleton. apply serve_mild. done.
  - apply disclosures_run.
  - simpl. lia.
  - reflexivity.
Defined.

(** ** A read of the activity log *)
Definition logsProg : prog (list ActivityLogEntry) := GetActivityLogs "g-1" "u-reg" "10.0.0.9" 100 0.
Definition entry1 : ActivityLogEntry :=
  {| ae_ID := 1; ae_Method := "eth_call"; ae_StatusCode := 200; ae_IPAddress := ""; ae_CreatedAt := (6 * hour)%Z |}.
Definition readEvent1 : Event :=
  readEvent "g-1" "u-reg" "10.0.0.9" ActionViewLogs ResourceAccessLogs (summaryOf 1) (20 * hour)%Z.
(** Each of its operations finds the same tables. *)
Lemma logs_ran : ran logsProg (replicate 7 moment0) [(moment0, readEvent1)] (Ok [entry1]).
Proof. apply replay_ran. vm_compute. reflexivity. Qed.
Lemma logs_follow_consent_witness :
  ran logsProg (replicate 7 moment0) [(moment0, readEvent1)] (Ok [entry1]) /\
  exists g req scope, consent moment0 moment0 moment0 "g-1" g req scope.
Proof.
  split; [exact logs_ran|].
  destruct (logs_follow_consent "g-1" "u-reg" "10.0.0.9" 100 0 _ _ [entry1] logs_ran)
    as (mg & mr & mt & mu & ml & mc & me & [= <- <- <- _ _ _ _] & g & req & scope & _ & _ & _ & Hc & _).
  exists g, req, scope. exact Hc.
Defined.

(** ** Authority *)
Lemma changes_need_authority_witness :
  grant1 ∈ dd_grants (w_db (run alone_env w1
                              (serve (HRevoke (caller "jwt" bob) "req-1" "mine"))).2).
Proof.
  destruct (changes_need_authority alone_env w1
    (HRevoke (caller "jwt" bob) "req-1" "mine")
    (run alone_env w1 (serve (HRevoke (caller "jwt" bob) "req-1" "mine"))).1
    (run alone_env w1 (serve (HRevoke (caller "jwt" bob) "req-1" "mine"))).2)
    as [_ Hg].
  - vm_compute. repeat constructor; by intros ?%elem_of_nil.
  - vm_compute. repeat constructor; by intros ?%elem_of_nil.
  - apply surjective_pairing.
  - destruct (Hg grant1 (decide_as StatusApproved (20 * hour) (Some "u-alice") "ok" request)) as [H|[_ (r & Hr & Ht)]].
    + unfold w1. rewrite approved_grants. apply list_elem_of_singleton. reflexivity.
    + vm_compute. reflexivity.
    + exact H.
    + vm_compute in Hr. injection Hr as <-. vm_compute in Ht. discriminate.
Defined.

(** ** Where the code ends *)
Definition statusOf (c : Config Sql World Call bool) : option RequestStatus := rq_Status <$> requestRow (cf_world c) "req-1".

(** An approval that looked the request up before it was rejected overwrites the
    rejection: the status update has no condition. *)
Definition rejected : Config Sql World Call bool :=
  drive (Start (HApprove asAlice "req-1" (approval None 48)) :: lookups 0 ++
         Start (HReject asAlice "req-1" "no") :: steps 1 3)%list start.
Definition overwritten : Config Sql World Call bool :=
  drive (mint 0 "g-2" "t-2" ++ steps 0 1 ++ Start (HExplorer asReg "g-2" false) :: steps 2 4)%list rejected.
Example a_rejection_is_overwritten :
  rtc step start rejected /\ outcome rejected 1 = Some false /\ statusOf rejected = Some StatusRejected /\
  rtc step rejected overwritten /\ statusOf overwritten = Some StatusApproved /\ outcome overwritten 2 = Some true.
Proof. split_and!; try apply disclosures_run; vm_compute; reflexivity. Qed.

(** The status update of an approval fails: the caller gets an error, the request
    stays pending, and its grant stays. *)
Definition timeout : Choice := {| ch_fault := Some ("timeout", false); ch_row := 0 |}.
Definition orphaned : Config Sql World Call bool :=
  drive (Start (HApprove asAlice "req-1" (approval None 48)) :: lookups 0 ++ mint 0 "g-wide" "t-1" ++ [Own 0 timeout ""])%list start.
Definition again : Config Sql World Call bool :=
  drive (Start (HApprove asAlice "req-1" (approval (Some narrow) 1)) :: lookups 1 ++ mint 1 "g-narrow" "t-2" ++ steps 1 1 ++
         Start (HExplorer asReg "g-wide" false) :: steps 2 4)%list orphaned.
Definition access (w : World) : result Http := (run alone_env w (checkDisclosureAccess (caller "admin_token" bob) "did:reg" "did:alice")).1.
Example a_failed_approval_leaves_its_grant :
  statusOf orphaned = Some StatusPending /\ gr_ID <$> dd_grants (w_db (cf_world orphaned)) = ["g-wide"] /\
  (exists g, access (cf_world orphaned) = Ok {| h_Code := 200; h_Body := BAccess g |} /\ gr_Scope g = wide) /\
  outcome again 2 = Some true.
Proof. split_and!; [vm_compute; reflexivity..| |vm_compute; reflexivity]. eexists. vm_compute. split; reflexivity. Qed.

(** A request that was never approved is revoked. *)
Example a_pending_request_is_revoked :
  let '(a, w) := run alone_env w0 (revokeDisclosureRequest asAlice "req-1" "no") in
  a = Ok {| h_Code := 200; h_Body := BStatus "revoked" |} /\ rq_Status <$> requestRow w "req-1" = Some StatusRevoked.
Proof. vm_compute. split; reflexivity. Qed.

(** A grant of three centuries has expired before it is made: the hours overflow. *)
Example a_long_grant_is_expired :
  let '(a, w) := run {| en_choices := []; en_ticks := []; en_uuids := ["g-3"; "t-3"] |} w0
                   (approveDisclosureRequest asAlice "req-1" (approval None 2562048)) in
  h_Code <$> a = Ok 200%Z /\ (fun g => IsActive (w_now w) g) <$> dd_grants (w_db w) = [false].
Proof. vm_compute. split; reflexivity. Qed.
End Disclosures.

(** ** Tokens *)
Lemma hex_no_i n : (n < 16)%N -> hex_digit n <> "i"%char.
Proof. intros Hn. destruct n as [|p]; [done|]. do 4 (destruct p as [p|p|]; try done; try lia). Qed.
(** No token hashes to what an approval stores for one. *)
Lemma no_token_for_a_grant t u : hashToken t <> tokenPlaceholder u.
Proof.
  unfold hashToken, sha256hex, tokenPlaceholder. destruct (Sha256.sum (bytes t)) as [|b bs]; [done|].
  cbn [EncodeToString]. rewrite !app_str_cons. intros E. injection E as _ E.
  apply (hex_no_i (N_of_ascii b mod 16)) in E; [done|]. apply N.mod_lt. lia.
Qed.
(** The token routes find no grant that an approval made. *)
Lemma tokens_never_validate `{TimestampColumn} w t :
  (forall g, g ∈ dd_grants (w_db w) -> exists u, gr_TokenHash g = tokenPlaceholder u) ->
  alone (fun _ r => is_ok r = false) w (ValidateGrantToken t).
Proof.
  intros Hg. unfold ValidateGrantToken.
  eapply (alone_bind (fun w' r => forall og, r = Ok og -> og = None)); [| |by intros].
  - apply alone_query; [done|..|done]. intros c og. simpl. intros [= <-]. apply eq_None_not_Some. intros [g Hf].
    apply find_elem in Hf as [Hin Ht%bool_decide_eq_true]. destruct (Hg g Hin) as [u Hu].
    apply (no_token_for_a_grant t u). congruence.
  - intros w' og HQ. by rewrite (HQ og eq_refl).
Qed.
(** The list a subject decides from never names the party that would read. *)
Lemma pending_lists_hide_the_grantee `{TimestampColumn} userID l ms evs :
  ran (ListPendingRequestsForUser userID) ms evs (Ok l) -> Forall (fun d => rq_RequesterDID (rd_Request d) = "") l.
Proof.
  intros (_ & m & _ & [= <-])%ran_call; [|done]. apply Forall_forall. intros d.
  by intros (r & -> & _)%list_elem_of_fmap.
Qed.
