(* ===== verification/AuthScenario.v ===== *)
(** * Logins, step by step.

    The configurations at which the properties of logins are instantiated, and
    executions that show where the code ends: a code that two calls redeem, a
    refresh token that is rotated twice. *)
From S2P Require Import Prelude GoStrings Methods Models SqlCache Db Writes Access Deployments Sha256 Programs AuthStores AuthService AuthProps.
From Stdlib Require Import Ascii.
From stdpp Require Import pretty.
Local Open Scope string_scope.

(** ** Driving the calls *)
Definition pass (dt : Z) (w : World) : option World := if (0 <=? dt)%Z then Some (tick w dt) else None.

Module Logins.
(** Tokens that list their claims; they end together. *)
Definition lastDay : Z := (1000 * 24 * 3600 * 10 ^ 9)%Z.
#[local] Instance listed : Jwt := {|
  NewNumericDate := fun t => (t / 10 ^ 9 * 10 ^ 9)%Z;
  SignedString := fun secret c => Ok (secret +:+ "|" +:+ tc_Subject c +:+ "|" +:+ tc_ID c);
  ParseWithClaims := fun secret token t =>
    match splitOn "|" token with
    | [s; subject; id] =>
        if negb (bool_decide (s = secret)) then inl (ErrTokenOther "signature is invalid") else
        if (lastDay <=? t)%Z then inl ErrTokenExpired else
        inr {| tc_Subject := subject; tc_KYC := true; tc_ID := id; tc_ExpiresAt := lastDay; tc_IssuedAt := 0; tc_NotBefore := 0 |}
    | _ => inl (ErrTokenOther "token is malformed")
    end |}.
#[local] Instance wallet : PrivadoVerifier := {|
  CreateAuthorizationRequest := fun id url reason => Ok ("request " +:+ url);
  CreateHumanityAuthRequest := fun id url reason issuer => Ok ("request " +:+ url);
  VerifyJWZ := fun _ jwz _ _ => if HasPrefix jwz "proof:" then Ok (drop_str 6 jwz) else Err "proof is invalid" |}.
#[local] Instance urls : NetURL := {|
  url_Parse := fun s => Some {| url_Scheme := "https"; url_Host := "app.example"; url_Hostname := "app.example" |};
  url_With := fun s code state => s +:+ "?code=" +:+ code +:+ "&state=" +:+ state |}.
#[local] Instance signer : Signer := {|
  IsHexAddress := fun s => HasPrefix s "0x"; HexToAddress := fun s => s; VerifySignature := fun m s => Ok s |}.
#[local] Instance rfc3339 : ExpiryText := {| parseExpiry := Some |}.
#[local] Instance micros : TimestampColumn := {| timestamptz := fun t => (t / 1000 * 1000)%Z |}.
#[local] Instance first : FirstRow := fun A l => head l.

Definition production : AuthConfig := {|
  ac_Environment := "production"; ac_AllowMockLogin := true; ac_MockSignatures := true; ac_mockauth := false;
  ac_VerifierID := "did:verifier"; ac_AutoKYCPrivado := true; ac_RequireProofOfHumanity := false; ac_BillionsIssuerDID := "";
  ac_FirstPartyClients := ∅; ac_BaseURL := "https://app.example"; ac_CORSAllowedOrigins := ""; ac_FrontendURL := "";
  ac_DemoAutoAuthDelay := 5 |}.
Definition jwt : JWTService := NewJWTService "access" "refresh" (minutes 15) RefreshTokenTTL "" "".
Definition no_hash : string -> string -> bool := fun _ _ => false.
Definition serving (b : Backend) : Call -> prog Reply := serve (LoadMockFlags production) jwt no_hash b.

Definition nobody : Server := {|
  sv_ctl := NewAccessController (minutes 5); sv_tracker := NewPendingDeploymentTracker 3600;
  sv_tables := {| t_db := {|
    db_organizations := []; db_groups := []; db_contracts := []; db_contract_grants := []; db_group_access := [];
    db_users := []; db_user_memberships := []; db_preregistered_addresses := []; db_eth_address_links := [];
    db_fault := fun _ => None |}; t_cache := {| sc_generation := 0; sc_rows := ∅ |} |} |}.
Definition blank : Memory := {|
  ms_objs := ∅; ms_live := ∅; ms_count := 0; mo_objs := ∅; mo_live := ∅; mo_count := 0; mo_index := ∅; mc_challenges := ∅ |}.
Definition w0 : World := {|
  w_now := 10 ^ 9; w_used := ∅; w_memory := blank; w_redis := ∅; w_refresh := ∅; w_revoked := ∅; w_server := nobody;
  w_history := [] |}.
Definition start : Config Op World Call Reply := {| cf_world := w0; cf_calls := [] |}.

Definition drive (b : Backend) : list (Move Call Choice) -> Config Op World Call Reply -> Config Op World Call Reply :=
  Programs.drive (serving b) pass.
Lemma logins_run b ms c : rtc (step (serving b)) c (drive b ms c).
Proof.
  apply Programs.drive_sound. unfold pass. intros dt w w'. destruct (0 <=? dt)%Z eqn:Ed; [|done].
  intros [= <-]. left. exists dt. by apply Z.leb_le in Ed.
Qed.
(** [n] operations of a call; the random values it draws start with [base]. *)
Definition go (i n : nat) (base : string) : list (Move Call Choice) :=
  map (fun m => Own i steady (base +:+ pretty m)) (seq 0 n).
Definition whole (i : nat) (k : Call) (base : string) : list (Move Call Choice) := Start k :: go i 60 base.

(** Alice logs in to a client and the client redeems her code. *)
Definition anonymous : Creds := {| cr_Authorization := ""; cr_Cookie := None |}.
Definition opening : Call := HAuthorize anonymous
  {| az_ClientID := "client"; az_RedirectURI := "https://app.example/cb"; az_State := "s"; az_ResponseType := "code" |}
  "https://proxy.example" false.
Definition opened (b : Backend) : Config Op World Call Reply := drive b (whole 0 opening "o") start.
Definition approving (b : Backend) : Call :=
  HOAuthCallback "o1" (match b with Memory_ => "o6" | Redis_ => "o5" end) (Some "proof:did:alice").
Definition approved (b : Backend) : Config Op World Call Reply := drive b (whole 1 (approving b) "a") (opened b).
Definition exchange (code : string) : TokenRequest := {|
  tr_GrantType := "authorization_code"; tr_Code := code; tr_RedirectURI := "https://app.example/cb"; tr_ClientID := "client";
  tr_ClientSecret := ""; tr_Basic := None |}.
Definition redeeming (code : string) : Call := HToken (exchange code).
Definition redeemed : Config Op World Call Reply := drive Memory_ (whole 2 (redeeming "a11") "r") (approved Memory_).
Definition access1 : string := "access|did:alice|r13".
Definition refresh1 : string := "refresh|did:alice|r16".
(** The end of call [i]. *)
Definition ended (c : Config Op World Call Reply) (i : nat) : option (Call * result Reply) :=
  '(k, p) ← cf_calls c !! i; match p with Ret r => Some (k, r) | _ => None end.
Lemma ended_call c i k r : ended c i = Some (k, r) -> cf_calls c !! i = Some (k, Ret r).
Proof. unfold ended. destruct (cf_calls c !! i) as [[k' []]|]; simpl; naive_solver. Qed.

Lemma starting_w0 : starting w0.
Proof. done. Qed.
Lemma approved_from_start b : rtc (step (serving b)) start (approved b).
Proof.
  transitivity (opened b); [exact (logins_run b (whole 0 opening "o") start)|].
  exact (logins_run b (whole 1 (approving b) "a") (opened b)).
Qed.
Lemma redeemed_run : rtc (step (serving Memory_)) (approved Memory_) redeemed.
Proof. exact (logins_run Memory_ (whole 2 (redeeming "a11") "r") (approved Memory_)). Qed.
Lemma redeemed_from_start : rtc (step (serving Memory_)) start redeemed.
Proof. transitivity (approved Memory_); [apply approved_from_start|exact redeemed_run]. Qed.
Lemma redeemed_ended : ended redeemed 2 = Some (redeeming "a11", Ok (RTokens access1 refresh1)).
Proof. vm_compute. reflexivity. Qed.
Example the_code_is_used_up :
  outcome (drive Memory_ (whole 3 (redeeming "a11") "s") redeemed) 3 = Some (RError 400 "authorization code has already been used").
Proof. vm_compute. reflexivity. Qed.

Lemma code_redeemed_once_witness :
  outcome redeemed 2 = Some (RTokens access1 refresh1) /\ 2 = 2.
Proof.
  split; [vm_compute; reflexivity|].
  eapply (code_redeemed_once production jwt no_hash w0 redeemed 2 2 (exchange "a11") (exchange "a11")).
  - exact starting_w0.
  - exact redeemed_from_start.
  - exact (ended_call _ _ _ _ redeemed_ended).
  - exact (ended_call _ _ _ _ redeemed_ended).
  - reflexivity.
Defined.
Lemma tokens_need_authentication_witness :
  IsProduction production = true /\
  exists claims n k p, SignedString (j_accessSecret jwt) claims = Ok access1 /\
    cf_calls redeemed !! n = Some (k, p) /\ vouches production jwt (cf_world redeemed) k (tc_Subject claims).
Proof.
  split; [reflexivity|].
  apply (tokens_need_authentication production jwt no_hash w0 redeemed 2 (exchange "a11") access1 refresh1).
  - reflexivity.
  - exact starting_w0.
  - reflexivity.
  - exact redeemed_from_start.
  - exact (ended_call _ _ _ _ redeemed_ended).
Defined.

(** ** Refresh tokens *)
Definition refreshed : Config Op World Call Reply := drive Memory_ (whole 3 (HRefresh refresh1) "s") redeemed.
Lemma refreshed_ended : ended refreshed 3 = Some (HRefresh refresh1, Ok (RTokens "access|did:alice|s6" "refresh|did:alice|s8")).
Proof. vm_compute. reflexivity. Qed.
Lemma revoked_refresh_is_dead_witness :
  dead (HashToken refresh1) (cf_world (approved Memory_)) /\
  saved_since (HashToken refresh1) (cf_world (approved Memory_)) (cf_world refreshed).
Proof.
  split; [vm_compute; exact I|].
  eapply (revoked_refresh_is_dead (LoadMockFlags production) jwt no_hash Memory_ (approved Memory_) refreshed 3).
  - vm_compute. exact I.
  - transitivity redeemed; [exact redeemed_run|exact (logins_run Memory_ (whole 3 (HRefresh refresh1) "s") redeemed)].
  - vm_compute. lia.
  - exact (ended_call _ _ _ _ refreshed_ended).
Defined.
Example a_rotated_token_is_dead :
  outcome (drive Memory_ (whole 4 (HRefresh refresh1) "t") refreshed) 4 = Some (RError 401 "refresh token revoked").
Proof. vm_compute. reflexivity. Qed.

(** ** Access tokens *)
Definition revoked : Config Op World Call Reply := drive Memory_ (whole 3 (HRevoke refresh1 access1) "v") redeemed.
Definition withToken : Creds := {| cr_Authorization := "Bearer " +:+ access1; cr_Cookie := None |}.
Definition linking : Config Op World Call Reply := drive Memory_ (whole 4 (HLinkChallenge withToken) "c") revoked.
Lemma linking_ended : ended linking 4 = Some (HLinkChallenge withToken, Ok (RError 401 "token revoked")).
Proof. vm_compute. reflexivity. Qed.
Example before_it_was_revoked :
  is_Some (outcome (drive Memory_ (whole 3 (HLinkChallenge withToken) "c") redeemed) 3 ≫=
           fun r => match r with RChallenge _ _ => Some tt | _ => None end).
Proof. vm_compute. by eexists. Qed.
Lemma revoked_access_is_refused_witness :
  w_revoked (cf_world revoked) !! HashToken access1 = Some ("did:alice", lastDay) /\
  ((exists code msg, RError 401 "token revoked" = RError code msg /\ (code = 401 \/ code = 500)%Z) \/
   (lastDay < w_now (cf_world linking))%Z).
Proof.
  split; [vm_compute; reflexivity|].
  eapply (revoked_access_is_refused (LoadMockFlags production) jwt no_hash Memory_ w0 revoked linking 4 _ withToken access1 "did:alice").
  - reflexivity.
  - transitivity redeemed; [exact redeemed_from_start|exact (logins_run Memory_ (whole 3 (HRevoke refresh1 access1) "v") redeemed)].
  - vm_compute. reflexivity.
  - exact (logins_run Memory_ (whole 4 (HLinkChallenge withToken) "c") revoked).
  - vm_compute. lia.
  - exact (ended_call _ _ _ _ linking_ended).
  - reflexivity.
  - vm_compute. reflexivity.
  - discriminate.
Defined.

(** ** Where the code ends *)
(** In Redis the code is read by one script and marked by another: two calls that
    both read it first are both answered with tokens. *)
Definition twice : Config Op World Call Reply :=
  drive Redis_ (Start (redeeming "a5") :: Start (redeeming "a5") :: go 2 4 "q" ++ go 3 60 "p" ++ go 2 60 "n")%list (approved Redis_).
Lemma twice_from_start : rtc (step (serving Redis_)) start twice.
Proof. transitivity (approved Redis_); [apply approved_from_start|]. apply logins_run. Qed.
Theorem code_redeemed_twice_in_redis :
  exists c q a r a' r', rtc (step (serving Redis_)) start c /\
    cf_calls c !! 2 = Some (HToken q, Ret (Ok (RTokens a r))) /\
    cf_calls c !! 3 = Some (HToken q, Ret (Ok (RTokens a' r'))) /\ a <> a'.
Proof.
  exists twice, (exchange "a5"), "access|did:alice|n2", "refresh|did:alice|n4", "access|did:alice|p6", "refresh|did:alice|p8".
  split_and!; [exact twice_from_start| | |done]; apply ended_call; vm_compute; reflexivity.
Qed.

(** The row of a refresh token is read, and revoked later without a test: two calls
    that both read it first both rotate it, on either backend. *)
Definition doubled : Config Op World Call Reply :=
  drive Memory_ (Start (HRefresh refresh1) :: Start (HRefresh refresh1) :: go 3 3 "q" ++ go 4 60 "p" ++ go 3 60 "n")%list redeemed.
Lemma doubled_from_start : rtc (step (serving Memory_)) start doubled.
Proof. transitivity redeemed; [exact redeemed_from_start|]. apply logins_run. Qed.
Theorem refresh_token_rotated_twice :
  exists c a r a' r', rtc (step (serving Memory_)) start c /\
    cf_calls c !! 3 = Some (HRefresh refresh1, Ret (Ok (RTokens a r))) /\
    cf_calls c !! 4 = Some (HRefresh refresh1, Ret (Ok (RTokens a' r'))) /\ r <> r'.
Proof.
  eexists doubled, _, _, _, _.
  split_and!; [exact doubled_from_start|apply ended_call; vm_compute; reflexivity..|done].
Qed.

(** A session in Redis ends by its expiry, and nothing takes it off the counter: a
    thousand authorizations that nobody finished close the endpoint for good. *)
Definition crowd (n : nat) : list (Move Call Choice) :=
  concat (map (fun i => Start opening :: go i 12 ("s" +:+ pretty i +:+ "-")) (seq 0 n)).
Definition crowded : Config Op World Call Reply :=
  drive Redis_ (crowd 1000 ++ [Pass (minutes 60)] ++ whole 1000 opening "x")%list start.
(** No authorization session in this keyspace is still to be found. *)
Definition over (t : Z) (k : Keyspace) : bool :=
  forallb (fun kv => match kv.2 with (VOAuth _, Some e) => (e <=? t)%Z | (VOAuth _, None) => false | _ => true end) (map_to_list k).
Lemma over_look t k key s : over t k = true -> look t k key <> Some (VOAuth s).
Proof.
  unfold over, look. rewrite forallb_forall. intros H E. destruct (k !! key) as [[v e]|] eqn:Ek; [|done].
  assert (In (key, (v, e)) (map_to_list k)) as Hin by (apply list_elem_of_In, elem_of_map_to_list; done).
  specialize (H _ Hin). simpl in H. destruct e as [e|].
  - destruct (Z.ltb_spec t e); simplify_eq. apply Z.leb_le in H. lia.
  - by simplify_eq.
Qed.
Theorem redis_capacity_is_lost :
  rtc (step (serving Redis_)) start crowded /\
  outcome crowded 1000 = Some (RError 503 "OAuth service at capacity, please try again later") /\
  forall key s, look (w_now (cf_world crowded)) (w_redis (cf_world crowded)) key <> Some (VOAuth s).
Proof.
  split_and!; [apply logins_run|vm_compute; reflexivity|]. intros key s. apply over_look. vm_compute. reflexivity.
Qed.

(** A statement of this call fails. *)
Definition broken : Choice := {| ch_fault := Some ("connection refused", false) |}.
(** A revoked access token is reported as active when the list cannot be read. *)
Definition introspected : Config Op World Call Reply :=
  drive Memory_ (Start (HIntrospect access1) :: go 4 1 "i" ++ [Own 4 broken ""])%list revoked.
Theorem introspection_fails_open :
  rtc (step (serving Memory_)) revoked introspected /\
  is_Some (w_revoked (cf_world introspected) !! HashToken access1) /\
  exists claims, outcome introspected 4 = Some (RActive "access_token" claims).
Proof. split_and!; [apply logins_run|vm_compute; by eexists|eexists; vm_compute; reflexivity]. Qed.

(** A banned user refreshes when the user table cannot be read at that moment. *)
Definition banned : Config Op World Call Reply :=
  let w := cf_world redeemed in
  let d := t_db (sv_tables (w_server w)) in
  {| cf_world := set_server w {| sv_ctl := sv_ctl (w_server w); sv_tracker := sv_tracker (w_server w); sv_tables := {| t_db := {|
       db_organizations := db_organizations d; db_groups := db_groups d; db_contracts := db_contracts d;
       db_contract_grants := db_contract_grants d; db_group_access := db_group_access d;
       db_users := map (fun u => {| u_ID := u_ID u; u_ExternalID := u_ExternalID u; u_KYC := u_KYC u; u_Banned := true |}) (db_users d);
       db_user_memberships := db_user_memberships d; db_preregistered_addresses := db_preregistered_addresses d;
       db_eth_address_links := db_eth_address_links d; db_fault := db_fault d |}; t_cache := t_cache (sv_tables (w_server w)) |} |};
     cf_calls := cf_calls redeemed |}.
Example a_banned_user_is_stopped : outcome (drive Memory_ (whole 3 (HRefresh refresh1) "s") banned) 3 = Some (RError 403 "account is banned").
Proof. vm_compute. reflexivity. Qed.
Definition unstopped : Config Op World Call Reply :=
  drive Memory_ (Start (HRefresh refresh1) :: go 3 4 "s" ++ [Own 3 broken ""] ++ go 3 60 "t")%list banned.
Theorem banned_user_refreshes :
  rtc (step (serving Memory_)) banned unstopped /\
  forallb u_Banned (db_users (t_db (sv_tables (w_server (cf_world unstopped))))) = true /\
  exists a r, outcome unstopped 3 = Some (RTokens a r).
Proof. split_and!; [apply logins_run|vm_compute; reflexivity|eexists _, _; vm_compute; reflexivity]. Qed.

(** A status poll between the assignments of [CompleteSession] answers the login as
    completed, without its tokens. *)
Definition polled : Config Op World Call Reply :=
  drive Memory_ (whole 0 (HAuthRequest "https://proxy.example") "o" ++
    Start (HAuthCallback "o1" (BodyPlain "proof:did:alice")) :: go 1 15 "a" ++ whole 2 (HAuthStatus "o1") "p" ++ go 1 60 "b")%list start.
Theorem completed_without_tokens :
  rtc (step (serving Memory_)) start polled /\
  outcome polled 1 = Some (RTokens "access|did:alice|a8" "refresh|did:alice|a10") /\ outcome polled 2 = Some (RCompleted "" "").
Proof. split_and!; [apply logins_run|vm_compute; reflexivity..]. Qed.
End Logins.
